(* ===== verification/_CoqProject ===== *)
-Q . S2P
Prelude.v
GoRuntime.v
GoFloat.v
Types.v
Family.v
Index.v
TraceGraph.v
Reader.v
Derived.v
Eventlog.v
Ingest.v
Incident.v
Capture.v
NextChecks.v
Classifier.v
Detect.v
Engine.v
EngineSpec.v
Sustained.v
Transport.v
Request.v
Schema.v
RequestSpec.v
Sdk.v
Idempotency.v
GoText.v
PlanRef.v
Registry.v
Plan.v
PlanStore.v
Triage.v
RateLimit.v
Access.v
Alerts.v
Cursor.v
ReadApi.v
Convert.v
Otlp.v
IngestHttp.v
GoTime.v
Retention.v
Llm.v
Providers.v
Gemini.v
Server.v
TraceContext.v
Middleware.v
WideEvent.v
GroupCommit.v
Notify.v
IncidentHttp.v
Mcp.v
AgentTools.v
Count.v
ColdWriter.v
Pipeline.v
SdkLife.v
V1Sdk.v
V1Client.v
SqlText.v
IncidentTable.v
DeployTable.v
ColdStore.v
SignalJson.v
Reports.v
DeployHttp.v
