(* ===== verification/Prelude.v ===== *)
(** * Waylog: a verification library

    Waylog receives structured events from services, keeps the recent ones in memory over
    a write-ahead log, answers questions about them (searches, traces, error families,
    blast radius) and groups failures into incidents with a probable cause.  This library
    is a shallow embedding of that core: pure Go functions are functions, state is passed
    explicitly, a fallible call returns an option or a sum, and each definition keeps the
    name and the branches of the function it translates.

    ** Layout: file, component, source

    - [Prelude]: tactics, the stable sort and the orders of comparators ([LessBy]), map
      iteration ([MapIter]), the page loop shared by all cursors, list lemmas.
    - [GoRuntime], [GoFloat]: what the source uses of Go: 64-bit integers with wrap-around
      ([wrap64]), [time.Time] as nanoseconds since year 1 and saturating [Sub], RFC 3339
      text, byte strings, SHA-256, values of type [any]; binary64 through [SpecFloat].
    - [Types], [Family]: events, read API, signals ([pkg/event/v2], [pkg/api/v2],
      [internal/signals]) and the text key of an error family.
    - [Index]: the hot index ([internal/ingest/v2/index.go]).  [index_of] is its
      specification: the index of a list of events.
    - [TraceGraph]: span graph, causal order and anchor ([linkage.go], [anchor.go]).
    - [Reader], [Derived]: the reader over the index ([reader.go], [derived.go]).
    - [Eventlog]: writer and replay of the log ([internal/eventlog/v2]) over an abstract
      disk; the class [WAL] is what the handler needs of a log, [scripted] a log whose
      failures are scripted.
    - [Ingest]: framing, validation, dedup, handler and log replay ([internal/ingest/v2]);
      [Codec] is the JSON decoder, a parameter.
    - [Incident]: incident records, ids and the class [Store] with the in-memory instance
      ([internal/incidents/types.go], [id.go], [store.go]).
    - [Capture], [NextChecks], [Classifier]: evidence, advice and cause
      ([capture.go], [nextchecks.go], [classifier.go]).
    - [Detect], [Engine], [EngineSpec], [Sustained]: measures and the read interface
      [IncidentReader] (whose instance is the adapter of [cmd/ingest/main.go]), the engine
      ([engine.go], [rebuild.go]), its lifecycle, its cache and its sustained gates.
    - [Transport]: the SDK's delivery queue ([pkg/transport/http]): caps, drop policy,
      batches, retries, shutdown; one worker turn is one step.
    - [Request], [Schema], [RequestSpec], [Sdk]: the SDK's request buffers, steps, logs and
      event assembly, the published event schema, what a finalized request satisfies, and
      the SDK around them ([pkg/waylog/v2], [pkg/event/v2/v2.0.schema.json]).
    - [Idempotency]: the idempotency cache of the first-generation endpoints
      ([internal/ingest/dedup.go]) and the calls that share it.
    - [GoText], [PlanRef], [Registry], [Plan], [PlanStore]: execution plans
      ([internal/ingest/plan_ref.go], [plan.go], [plan_store.go], the executor in
      [handler.go], [internal/tools/registry.go]): references between steps, tool
      registration, validation and execution, and the store that streams progress.
    - [Triage]: triage reports ([pkg/triage/report.go], [internal/triage]): the report, its
      hash and fingerprint, and the engine that assembles it from the parts above.
    - [RateLimit], [Access]: the bounded cache of token buckets ([internal/ratelimit]); keys,
      sessions and the dashboard gate ([internal/auth]).
    - [Alerts]: alert payloads, their match and their endpoint ([internal/alerts]).
    - [Cursor], [ReadApi]: the text of cursors and query parameters, and the read endpoints
      ([internal/ingest/v2/cursor.go], [queryparams.go], [readhandler.go]).
    - [Convert], [Otlp]: OTLP spans to events, and the HTTP and gRPC endpoints that take them
      ([internal/otel]).
    - [IngestHttp]: bodies, encodings and answers of the ingest endpoint ([parse.go],
      [handler.go]).
    - [GoTime], [Retention]: the stamps in file names and the pruning of old files and
      resolved incidents ([internal/eventlog/retention.go], [internal/incidents/retention.go]).
    - [Llm], [Providers], [Gemini]: the question loop and the requests and answers of three
      language-model services ([internal/llm]).
    - [Server]: tool calls, questions and plans over HTTP, with their envelope and
      idempotency ([internal/ingest/handler.go], [envelope.go]).
    - [TraceContext], [Middleware]: trace identity in and out of a service, and the life of a
      request in the HTTP middlewares ([pkg/trace], [pkg/waylog/http], [gin], [chi], [echo]).
    - [WideEvent], [GroupCommit]: the first-generation event and its log with one committing
      goroutine ([pkg/event], [internal/eventlog]).
    - [Notify], [IncidentHttp]: outbound notifications and the incident endpoints
      ([internal/notify], [internal/incidents/handler.go], [render.go]).
    - [Mcp], [AgentTools]: the tool protocol over both transports and the tools themselves
      ([internal/mcp], [internal/tools]).
    - [Count]: counting over lists and finite maps, for the accounts of events below.
    - [ColdWriter], [Pipeline]: the batch writer of the cold store
      ([internal/coldstore/event_writer.go]), and the first-generation pipeline with its sampler,
      its windowed counters and the readers of its environment ([internal/ingest/pipeline.go],
      [handler.go], [internal/sampler], [internal/config]).
    - [SdkLife]: Init, Shutdown, Stats and requests in flight as interleaved steps
      ([pkg/waylog/v2/waylog.go], [request.go], [assemble.go]).
    - [V1Sdk], [V1Client]: the first-generation SDK: contexts, request states, assembly and
      middleware ([pkg/context.go], [pkg/http]); its client, queue and worker and the
      transports below it ([pkg/client.go], [pkg/transport]).
    - [SqlText], [IncidentTable], [DeployTable], [ColdStore]: the cold store
      ([internal/coldstore]): the text of times, then its tables with the statements over
      them: incidents, deployments and events, signals and migrations, and the adapters of
      [cmd/ingest/main.go].  [SignalJson]: the JSON of a signal ([internal/signals/types.go]).
    - [Reports]: a triage report as text, the endpoints and the tool that serve it
      ([internal/reports], [internal/triagehttp], [internal/tools/report.go]).
    - [DeployHttp]: deployments posted and listed, and the insight
      ([internal/ingest/deploy_webhook.go], [internal/detect], [cmd/ingest/main.go]).

    ** How the parts meet

    The handler of [Ingest] calls the log through [WAL] and the index through
    [EventProjector]; its refinement theorem says that replaying the log rebuilds the
    state.  The reader of [Derived] is the instance the engine reads through; the engine's
    theorems are proved for every instance of its interfaces.  The SDK sends through the
    class [Sink], of which the queue of [Transport] is one instance and a local collector
    another; [Schema] is what the SDK promises of the events the server takes.  The plan
    executor validates and resolves with [PlanRef], calls tools through [Registry] and
    reports to [PlanStore] by the calls it lists.  [Triage] reads incidents, evidence and the
    index through the interfaces the engine uses.  [IngestHttp] and [Otlp] feed [Ingest];
    [ReadApi] asks [Reader] and [Derived]; [Notify] and [IncidentHttp] follow the ticks of
    [Engine]; [Mcp] and [Server] reach the tools through [Registry], [Server] under
    [Idempotency]; the middleware drives [Sdk] and [Request], and the identifiers it takes
    from a header are those the callee's span is linked by in [TraceGraph].  [SdkLife] runs
    requests over the queue of [Transport]; [V1Sdk] hands its events to [V1Client], which
    sends through the class [Sender]; [Pipeline] takes those events, writes them to a log
    and queues them for [ColdWriter], whose rows [DeployTable] searches.  The class [Store] of
    [Incident] says what every store of incidents does with an incident put over a row of
    its id ([kept]): the in-memory store takes it as it is, the table of [IncidentTable],
    the store of production, keeps the row's start; both are instances, and the engine's
    theorems hold of both; [ColdStore]
    gives the engine and [Triage] their signals and deployments, and [Reports] puts what
    [Triage] builds before its readers.  [DeployHttp] writes and lists the rows of
    [DeployTable] in the envelope of [Server], and shows the first of the engine's open
    incidents as the insight.

    ** What the theorems show

    - Durability: the replay of the log's files makes the very memory the handler had;
      events are in the log before they are in the index; resending is harmless; an
      acknowledged record is replayed whatever later operations fail, and an answered OTLP
      export is replayed but for the events validation refused, which are counted.
    - The index is the index of the events it holds, before and after pruning.
    - Traces: the order is a permutation, parents first when reported causal; the anchor
      is a deepest failure; neither depends on map order when the links have no cycle.
    - Reads: following cursors visits every row once; counts count what they say.
    - Incidents: every derived row is a legal step of the lifecycle; the cache follows the
      store, and is its open part as long as ids are not taken twice; notices are the
      changes of the active set; evidence, samples and causes obey their rules, and an alert
      said to match is attached by the captures that read it.
    - SDK: a finalized request is one event that meets the schema, within its bounds, with
      the innermost failure as anchor; every submitted event is delivered, dropped and
      counted, or still queued; shutdown drains the queue whichever case select picks.
    - Idempotency: one executor per key, nobody waits for a slot no call holds, and a
      replayed response is a response to the same request.
    - Plans: resolving replaces each reference by what it names and nothing else; a
      validated plan fails only on what its steps return; schema inlining ends; no channel
      is closed twice and a subscriber is sent the log.
    - Around the engine: receivers told everything believe open what the cache holds, what
      is announced can be fetched, and the agents' queue is the cache ranked by impact.
    - Endpoints: what is acknowledged is stored, what is refused is not, cursors and
      parameters survive their text, an agent's message is answered request by request.
    - Access: a production configuration lets nobody in without a key or a signed session;
      a limiter treats a key as if it were alone.
    - Language models: the loop makes a bounded number of calls, and a model is shown its own
      calls with their results.
    - First-generation log: whatever callers, syncs and rotations do, an acknowledged entry
      is read back once, and every call returns.
    - Accounts: whatever Init, Shutdown and requests interleave, every request of an SDK that
      posts to a server is active, finalizing, delivered, queued or counted as dropped; the
      first-generation client accounts for its requests the same way but for those a race
      of its Close can leave uncounted, and so do its pipeline and the cold store's batches;
      a windowed sum counts the window it is asked for.
    - Middleware: one event per request, with the status and size that were sent.
    - Triage: a report is valid and checkable by its reader, a snapshot is reproducible, and
      the fingerprint depends on the cited evidence and on all of it; endpoints and tools
      give one report, and its text can be read back.
    - Cold store: its incident table is a map of incidents that keeps the start of a row, a deployment is what
      its upserts said, is stored when its post is answered so and is then listed, a search
      shows each event once, signals read back from their JSON and from their rows, a
      migration runs once.
    - Findings: theorems that show where the code does not do what it means to; they stand
      beside the definitions they concern.

    ** Conventions

    Every [range] over a map takes its order from a [MapIter], indexed by the place in the
    code; theorems quantify over it.  Sorting is [ssort], an insertion sort, which agrees
    with any stable sort.  Mutexes make each operation one step, so an operation is one
    function from state to state.  Loops that are not structural carry fuel computed from
    their input (the span walk, the frame loop, the page loop), and their theorems show
    that it suffices: the walk visits each event once, a frame loop consumes a byte per
    round, a page advances past its cursor.  Where the code works outside its locks (the
    sends of [PlanStore], the calls of [Idempotency], the worker of [Transport]) the parts
    are steps that interleave, and theorems hold in every reachable state.

    ** Not modelled

    JSON decoding and encoding, gzip, protobuf and media types (parameters, with laws where a
    theorem needs them: [JsonLaws] is of values that are UTF-8 and nested at most 10000 deep,
    [EventJson] of the JSON of an event), the network
    behind an HTTP exchange, the database engine (a table is the map of its rows by
    key, a statement of the source has its documented meaning and is one step that succeeds
    or fails), Prometheus metrics, goroutine scheduling beyond the atomicity of locked sections, terminal and
    browser output, process wiring.  Of the first-generation server, health,
    capabilities and plan streaming are left out: they format what the parts above compute. *)

From stdpp Require Export base gmap strings list fin_maps sorting pretty.
From Stdlib Require Export ZArith Lia Sorted Ascii.

Declare Scope go_scope.
Delimit Scope go_scope with go.

(** ** Tactics of the library *)

(** [bool_prop] turns boolean tests of the code into the propositions they decide. *)
Ltac bool_prop :=
  repeat match goal with
  | H : (_ && _)%bool = true |- _ => apply andb_true_iff in H as [? ?]
  | H : (_ || _)%bool = false |- _ => apply orb_false_iff in H as [? ?]
  | H : negb _ = true |- _ => apply negb_true_iff in H
  | H : negb _ = false |- _ => apply negb_false_iff in H
  | H : (_ =? _)%Z = true |- _ => apply Z.eqb_eq in H
  | H : (_ =? _)%Z = false |- _ => apply Z.eqb_neq in H
  | H : (_ <? _)%Z = true |- _ => apply Z.ltb_lt in H
  | H : (_ <? _)%Z = false |- _ => apply Z.ltb_ge in H
  | H : (_ <=? _)%Z = true |- _ => apply Z.leb_le in H
  | H : (_ <=? _)%Z = false |- _ => apply Z.leb_gt in H
  | H : String.eqb _ _ = true |- _ => apply String.eqb_eq in H
  | H : String.eqb _ _ = false |- _ => apply String.eqb_neq in H
  | H : bool_decide _ = true |- _ => apply bool_decide_eq_true in H
  | H : bool_decide _ = false |- _ => apply bool_decide_eq_false in H
  end.

(** [case_if] splits the first boolean test in the goal and records it. *)
Ltac case_if :=
  match goal with
  | |- context [if ?b then _ else _] => let E := fresh "E" in destruct b eqn:E
  end.

Ltac deex :=
  repeat match goal with
  | H : exists _, _ |- _ => destruct H
  | H : _ /\ _ |- _ => destruct H
  end.

(** [by_decide] proves a concrete decidable fact by evaluating its decision. *)
Ltac by_decide :=
  match goal with |- ?P => refine (bool_decide_unpack P _); vm_compute; exact I end.

(** [solve_ite] decides goals that are conditionals over integer comparisons. *)
Ltac solve_ite :=
  repeat match goal with
  | |- context [if (?a =? ?b)%Z then _ else _] => destruct (Z.eqb_spec a b); simpl
  | |- context [if (?a <? ?b)%Z then _ else _] => destruct (Z.ltb_spec a b); simpl
  | |- context [if (?a =? ?b)%Z || _ then _ else _] => destruct (Z.eqb_spec a b); simpl
  end; try done; try lia.

(** ** Byte strings *)

Lemma string_app_cons c (a b : string) : String c a +:+ b = String c (a +:+ b).
Proof. done. Qed.

Lemma string_app_nil_l (a : string) : "" +:+ a = a.
Proof. done. Qed.

Lemma string_app_assoc (a b c : string) : (a +:+ b) +:+ c = a +:+ b +:+ c.
Proof.
  induction a as [|x a IH]; [done|]. by rewrite !string_app_cons, IH.
Qed.

Lemma string_length_app (a b : string) : String.length (a +:+ b) = (String.length a + String.length b)%nat.
Proof. induction a as [|x a IH]; [done|]. rewrite string_app_cons. simpl. by rewrite IH. Qed.

Lemma string_app_inj_r (a b c : string) : a +:+ c = b +:+ c -> a = b.
Proof.
  revert b. induction a as [|x a IH]; intros [|y b]; rewrite ?string_app_cons, ?string_app_nil_l; intros H; try done.
  - exfalso. apply (f_equal String.length) in H. simpl in H. rewrite string_length_app in H. lia.
  - exfalso. apply (f_equal String.length) in H. simpl in H. rewrite string_length_app in H. lia.
  - simplify_eq. f_equal. auto.
Qed.

Lemma string_app_nil_r (a : string) : a +:+ "" = a.
Proof. induction a as [|x a IH]; [done|]. by rewrite string_app_cons, IH. Qed.

(** ** Total orders on sort keys *)

(** The code orders everything it shows with comparators that compare a tuple of
    numbers and strings lexicographically.  [KeyOrd] is the interface the sorting
    lemmas are proved against: a boolean strict total order. *)
Class KeyOrd (K : Type) := {
  kltb : K -> K -> bool;
  kltb_irrefl : forall k, kltb k k = false;
  kltb_trans : forall a b c, kltb a b = true -> kltb b c = true -> kltb a c = true;
  kltb_tricho : forall a b, kltb a b = false -> kltb b a = false -> a = b
}.

#[export] Instance KeyOrd_Z : KeyOrd Z.
Proof.
  refine {| kltb := Z.ltb |}; [apply Z.ltb_irrefl| |]; intros *;
    rewrite ?Z.ltb_lt, ?Z.ltb_ge; lia.
Defined.

Lemma ascii_compare_trans (a b c : Ascii.ascii) :
  Ascii.compare a b = Lt -> Ascii.compare b c = Lt -> Ascii.compare a c = Lt.
Proof. unfold Ascii.compare. rewrite !N.compare_lt_iff. lia. Qed.

Lemma ascii_compare_eq (a b : Ascii.ascii) : Ascii.compare a b = Eq <-> a = b.
Proof.
  split; [apply Ascii.compare_eq_iff|intros ->].
  unfold Ascii.compare. apply N.compare_refl.
Qed.

Lemma string_compare_refl (s : string) : String.compare s s = Eq.
Proof. induction s as [|a s IH]; simpl; [done|]. by rewrite (proj2 (ascii_compare_eq a a)). Qed.

Lemma string_ltb_irrefl (s : string) : String.ltb s s = false.
Proof. unfold String.ltb. by rewrite string_compare_refl. Qed.

Lemma string_ltb_lt (s t : string) : String.ltb s t = true <-> String.compare s t = Lt.
Proof. unfold String.ltb. by destruct (String.compare s t). Qed.

Lemma string_compare_trans (s t u : string) :
  String.compare s t = Lt -> String.compare t u = Lt -> String.compare s u = Lt.
Proof.
  revert t u. induction s as [|a s IH]; intros [|b t] [|c u]; simpl; try done.
  destruct (Ascii.compare a b) eqn:Eab; destruct (Ascii.compare b c) eqn:Ebc; try done.
  - apply ascii_compare_eq in Eab as ->. rewrite Ebc. eauto.
  - apply ascii_compare_eq in Eab as ->. by rewrite Ebc.
  - apply ascii_compare_eq in Ebc as ->. by rewrite Eab.
  - by rewrite (ascii_compare_trans _ _ _ Eab Ebc).
Qed.

#[export] Instance KeyOrd_string : KeyOrd string.
Proof.
  refine {| kltb := String.ltb |}.
  - apply string_ltb_irrefl.
  - intros a b c. rewrite !string_ltb_lt. apply string_compare_trans.
  - intros a b Hab Hba. unfold String.ltb in *.
    destruct (String.compare a b) eqn:E; try done.
    + by apply String.compare_eq_iff.
    + rewrite String.compare_antisym, E in Hba. done.
Defined.

(** Lexicographic product, and the reverse order for "descending" components. *)
#[export] Instance KeyOrd_prod {A B} (OA : KeyOrd A) (OB : KeyOrd B) : KeyOrd (A * B).
Proof.
  refine {| kltb := fun x y => kltb x.1 y.1 || (negb (kltb y.1 x.1) && kltb x.2 y.2) |}.
  - intros [a b]; simpl. by rewrite !kltb_irrefl.
  - intros [a b] [a' b'] [a'' b'']; simpl.
    rewrite !orb_true_iff, !andb_true_iff, !negb_true_iff.
    intros [H1|[H1 H1']] [H2|[H2 H2']].
    + left. eauto using kltb_trans.
    + destruct (kltb a' a'') eqn:E; [left; eauto using kltb_trans|].
      rewrite (kltb_tricho _ _ E H2) in H1. by left.
    + destruct (kltb a a') eqn:E; [left; eauto using kltb_trans|].
      rewrite (kltb_tricho _ _ E H1). by left.
    + destruct (kltb a a'') eqn:E; [by left|right]. split; [|eauto using kltb_trans].
      destruct (kltb a'' a) eqn:E'; [|done].
      destruct (kltb a a') eqn:E1; [by rewrite (kltb_trans _ _ _ E' E1) in H2|].
      rewrite <- (kltb_tricho _ _ E1 H1) in H2. congruence.
  - intros [a b] [a' b']; simpl.
    rewrite !orb_false_iff, !andb_false_iff, !negb_false_iff.
    intros [H1 [H1'|H1']] [H2 [H2'|H2']]; try congruence.
    f_equal; by apply kltb_tricho.
Defined.

Record Down (K : Type) := down { undown : K }.
Arguments down {K}.
Arguments undown {K}.

#[export] Instance KeyOrd_Down {K} (O : KeyOrd K) : KeyOrd (Down K).
Proof.
  refine {| kltb := fun x y => kltb (undown y) (undown x) |}.
  - intros [k]; apply kltb_irrefl.
  - intros [a] [b] [c]; simpl; eauto using kltb_trans.
  - intros [a] [b]; simpl; intros H1 H2. f_equal. by apply kltb_tricho.
Defined.

(** A comparator of the code sorts "by" a key when it is the strict order of that key. *)
Class LessBy {A K} {O : KeyOrd K} (less : A -> A -> bool) (key : A -> K) :=
  less_by : forall a b, less a b = kltb (key a) (key b).

(** [kred] evaluates a key comparison to the comparisons of its components. *)
Ltac kred := cbn [kltb KeyOrd_prod KeyOrd_Z KeyOrd_string KeyOrd_Down fst snd undown].

Lemma kltb_antisym {K} {O : KeyOrd K} (a b : K) : kltb a b = true -> kltb b a = false.
Proof.
  intros H. destruct (kltb b a) eqn:E; [|done].
  pose proof (kltb_trans _ _ _ H E) as C. by rewrite kltb_irrefl in C.
Qed.

Lemma kltb_ntrans {K} {O : KeyOrd K} (a b c : K) :
  kltb a b = false -> kltb b c = false -> kltb a c = false.
Proof.
  intros H1 H2. destruct (kltb a c) eqn:E; [|done].
  destruct (kltb b a) eqn:E1.
  - by rewrite (kltb_trans _ _ _ E1 E) in H2.
  - rewrite (kltb_tricho _ _ H1 E1) in E. congruence.
Qed.

Lemma string_ltb_total (a b : string) : a <> b -> String.ltb a b = negb (String.ltb b a).
Proof.
  intros Hne. change String.ltb with (@kltb string _).
  destruct (kltb a b) eqn:E1, (kltb b a) eqn:E2; simpl; try done.
  - by rewrite (kltb_antisym _ _ E1) in E2.
  - destruct Hne. apply (kltb_tricho _ _ E1 E2).
Qed.

(** [solve_less] proves [LessBy] for a comparator written as in the code: a chain of
    "if these components differ then compare them". *)
Ltac solve_less :=
  repeat first
    [ progress (rewrite ?Z.ltb_irrefl, ?string_ltb_irrefl; simpl)
    | match goal with
      | |- context [(?a =? ?b)%Z] => destruct (Z.eqb_spec a b) as [->|]; simpl
      | |- context [String.eqb ?a ?b] => destruct (String.eqb_spec a b) as [->|]; simpl
      | H : ?a <> ?b |- context [String.ltb ?a ?b] =>
        rewrite (string_ltb_total a b H); destruct (String.ltb b a); simpl
      | |- context [if String.ltb ?a ?b then _ else _] => destruct (String.ltb a b); simpl
      | |- context [if Z.ltb ?a ?b then _ else _] => destruct (Z.ltb_spec a b); simpl
      | |- context [Z.ltb ?a ?b] => destruct (Z.ltb_spec a b); simpl
      end ];
  try done; try lia.

(** ** Stable sorting *)

(** [sort.SliceStable(xs, less)]: insertion of each element before the first
    later element that is not less than it, which keeps equals in input order. *)
Section StableSort.
Context {A : Type} (less : A -> A -> bool).

Fixpoint sinsert (x : A) (l : list A) : list A :=
  match l with
  | [] => [x]
  | y :: ys => if less y x then y :: sinsert x ys else x :: y :: ys
  end.

Definition ssort (l : list A) : list A := foldr sinsert [] l.

(** In a sorted list no later element is less than an earlier one. *)
Definition ssorted : list A -> Prop := StronglySorted (fun a b => less b a = false).

Lemma sinsert_perm x l : sinsert x l ≡ₚ x :: l.
Proof.
  induction l as [|y l IH]; simpl; [done|].
  destruct (less y x); [|done]. rewrite IH. apply Permutation_swap.
Qed.

Lemma ssort_perm l : ssort l ≡ₚ l.
Proof. induction l as [|x l IH]; simpl; [done|]. by rewrite sinsert_perm, IH. Qed.

Lemma ssort_length l : length (ssort l) = length l.
Proof. by rewrite ssort_perm. Qed.

Lemma elem_of_ssort x l : x ∈ ssort l <-> x ∈ l.
Proof. by rewrite ssort_perm. Qed.

Lemma ssort_sorted_id l : ssorted l -> ssort l = l.
Proof.
  induction 1 as [|x l Hl IH Hx]; simpl; [done|]. rewrite IH.
  destruct l as [|y l]; simpl; [done|]. inversion Hx; subst. by rewrite H1.
Qed.

Context {K : Type} {O : KeyOrd K} (key : A -> K) `{!LessBy less key}.

Lemma sinsert_sorted x l : ssorted l -> ssorted (sinsert x l).
Proof.
  induction 1 as [|y l Hl IH Hy]; simpl; [by repeat constructor|].
  destruct (less y x) eqn:E.
  - constructor; [done|]. rewrite Forall_forall. intros z Hz.
    rewrite sinsert_perm in Hz. apply elem_of_cons in Hz as [->|Hz].
    + rewrite less_by in *. by apply kltb_antisym.
    + rewrite Forall_forall in Hy. by apply Hy.
  - constructor; [by constructor|]. constructor; [done|].
    rewrite Forall_forall in *. intros z Hz. specialize (Hy z Hz). simpl in *.
    rewrite less_by in *. eauto using kltb_ntrans.
Qed.

Lemma ssort_sorted l : ssorted (ssort l).
Proof. induction l; simpl; [constructor|]. by apply sinsert_sorted. Qed.

(** Two sorted lists with the same elements are equal when distinct elements have
    distinct keys: the comparator leaves no freedom. *)
Lemma ssorted_unique l1 l2 :
  (forall a b, a ∈ l1 -> b ∈ l1 -> key a = key b -> a = b) ->
  ssorted l1 -> ssorted l2 -> l1 ≡ₚ l2 -> l1 = l2.
Proof.
  intros Hinj H1 H2 Hp. eapply StronglySorted_unique_strong; [|exact H1|exact H2|exact Hp].
  intros a b Ha Hb Hab Hba. cbv beta in *. rewrite <- Hp in Hb. rewrite less_by in *.
  apply Hinj; try done. by apply kltb_tricho.
Qed.

Lemma ssort_perm_eq l1 l2 :
  (forall a b, a ∈ l1 -> b ∈ l1 -> key a = key b -> a = b) ->
  l1 ≡ₚ l2 -> ssort l1 = ssort l2.
Proof.
  intros Hinj Hp. apply ssorted_unique; try apply ssort_sorted.
  - intros a b. rewrite !elem_of_ssort. eauto.
  - by rewrite !ssort_perm.
Qed.

(** Stability: the elements of any one key keep their input order. *)
Lemma sinsert_stable k x l :
  List.filter (fun y => negb (kltb (key y) k) && negb (kltb k (key y))) (sinsert x l)
  = List.filter (fun y => negb (kltb (key y) k) && negb (kltb k (key y))) (x :: l).
Proof.
  induction l as [|y l IH]; [done|]. simpl sinsert. destruct (less y x) eqn:E; [|done].
  rewrite less_by in E. simpl in *. rewrite IH.
  destruct (kltb (key x) k) eqn:E1, (kltb k (key x)) eqn:E2; simpl; try done.
  pose proof (kltb_tricho _ _ E1 E2) as <-. by rewrite E.
Qed.

Lemma ssort_stable k l :
  List.filter (fun y => negb (kltb (key y) k) && negb (kltb k (key y))) (ssort l)
  = List.filter (fun y => negb (kltb (key y) k) && negb (kltb k (key y))) l.
Proof.
  induction l as [|x l IH]; [done|]. simpl ssort. rewrite sinsert_stable. simpl. by rewrite IH.
Qed.
End StableSort.

(** Sorting only looks at the comparator on the elements of the list. *)
Lemma sinsert_ext_on {A} (f g : A -> A -> bool) x l :
  (forall y, y ∈ l -> f y x = g y x) -> sinsert f x l = sinsert g x l.
Proof.
  induction l as [|y l IH]; intros H; simpl; [done|]. rewrite (H y) by left.
  destruct (g y x); [|done]. f_equal. apply IH. intros z Hz. apply H. by right.
Qed.

Lemma ssort_ext_on {A} (f g : A -> A -> bool) l :
  (forall x y, x ∈ l -> y ∈ l -> f x y = g x y) -> ssort f l = ssort g l.
Proof.
  induction l as [|x l IH]; intros H; simpl; [done|].
  rewrite IH by (intros y z Hy Hz; apply H; by right). apply sinsert_ext_on.
  intros y Hy. rewrite elem_of_ssort in Hy. apply H; [by right|left].
Qed.

(** The head of a sorted list is a least element. *)
Lemma head_ssort_elem {A} (f : A -> A -> bool) l x : head (ssort f l) = Some x -> x ∈ l.
Proof. intros H. rewrite <- (elem_of_ssort f). destruct (ssort f l); [done|]. simplify_eq/=. left. Qed.

Lemma head_ssort_None {A} (f : A -> A -> bool) l : head (ssort f l) = None -> l = [].
Proof.
  intros H. destruct (ssort f l) eqn:E; [|done]. apply (f_equal length) in E.
  rewrite ssort_length in E. by apply nil_length_inv in E.
Qed.

Lemma head_ssort_least {A K} {O : KeyOrd K} (f : A -> A -> bool) (key : A -> K) `{!LessBy f key} l x :
  head (ssort f l) = Some x -> forall y, y ∈ l -> f y x = false.
Proof.
  intros H y Hy. pose proof (ssort_sorted f key l) as Hs. rewrite <- (elem_of_ssort f) in Hy.
  destruct (ssort f l) as [|z l']; [done|]. simplify_eq/=. apply StronglySorted_inv in Hs as [_ Hall].
  apply elem_of_cons in Hy as [->|Hy]; [rewrite less_by; apply kltb_irrefl|].
  rewrite Forall_forall in Hall. by apply Hall.
Qed.

Create HintDb go.
#[export] Hint Resolve ssort_perm ssort_sorted : go.

(** ** Ranging over a map *)

(** [for k, v := range m] visits the entries of a Go map in an order the language
    leaves unspecified.  A [MapIter] is one such choice; [site] tells apart the
    [range] statements of one call, so each may use an order of its own.  A result
    that is the same for every [MapIter] is deterministic. *)
Record MapIter := {
  mrange : forall (site : nat) {K V} `{Countable K}, gmap K V -> list (K * V);
  mrange_perm : forall site {K V} `{Countable K} (m : gmap K V), mrange site m ≡ₚ map_to_list m
}.

Definition iter_canonical : MapIter.
Proof. refine {| mrange := fun _ K V _ _ m => map_to_list m |}. done. Defined.

Definition iter_reverse : MapIter.
Proof.
  refine {| mrange := fun _ K V _ _ m => rev (map_to_list m) |}.
  intros. by rewrite <- Permutation_rev.
Defined.

Lemma mrange_perm2 (i1 i2 : MapIter) s1 s2 {K V} `{Countable K} (m : gmap K V) :
  mrange i1 s1 m ≡ₚ mrange i2 s2 m.
Proof. by rewrite !mrange_perm. Qed.

Lemma elem_of_mrange (it : MapIter) site {K V} `{Countable K} (m : gmap K V) k v :
  (k, v) ∈ mrange it site m <-> m !! k = Some v.
Proof. rewrite mrange_perm. apply elem_of_map_to_list. Qed.

Lemma NoDup_fst_mrange (it : MapIter) site {K V} `{Countable K} (m : gmap K V) :
  NoDup (mrange it site m).*1.
Proof. rewrite mrange_perm. apply NoDup_fst_map_to_list. Qed.

Lemma mrange_empty (it : MapIter) site {K V} `{Countable K} :
  mrange it site (∅ : gmap K V) = [].
Proof. apply Permutation_nil_r. by rewrite mrange_perm, map_to_list_empty. Qed.

Lemma length_mrange (it : MapIter) site {K V} `{Countable K} (m : gmap K V) :
  length (mrange it site m) = size m.
Proof. by rewrite mrange_perm, length_map_to_list. Qed.

#[export] Hint Resolve mrange_perm mrange_perm2 NoDup_fst_mrange : go.

(** ** Folds that do not depend on the visiting order *)

Lemma foldl_perm {A B} (f : B -> A -> B) (b : B) (l1 l2 : list A) :
  (forall b x y, f (f b x) y = f (f b y) x) -> l1 ≡ₚ l2 -> foldl f b l1 = foldl f b l2.
Proof.
  intros Hc Hp. revert b. induction Hp as [|x l l' _ IH|x y l|l l' l'' _ IH1 _ IH2]; intros b; simpl.
  - done.
  - apply IH.
  - by rewrite Hc.
  - by rewrite IH1.
Qed.

(** ** Cursor pagination *)

(** The loop every paged read runs over its sorted rows: skip rows up to the cursor,
    stop at [limit] rows and remember whether a further row existed. *)
Section Paginate.
Context {A : Type}.

Fixpoint page_loop (after : A -> bool) (limit : nat) (rows out : list A) : list A * bool :=
  match rows with
  | [] => (out, false)
  | row :: rows =>
    if negb (after row) then page_loop after limit rows out
    else if bool_decide (length out = limit) then (out, true)
    else page_loop after limit rows (out ++ [row])
  end.

Lemma page_loop_spec after limit rows out :
  (length out <= limit)%nat ->
  page_loop after limit rows out =
    (out ++ take (limit - length out) (List.filter after rows),
     bool_decide (limit < length out + length (List.filter after rows))%nat).
Proof.
  revert out. induction rows as [|row rows IH]; intros out Hl; simpl.
  - rewrite take_nil, app_nil_r. rewrite bool_decide_eq_false_2; [done|lia].
  - destruct (after row) eqn:E; simpl; [|by apply IH].
    case_bool_decide as Hd.
    + replace (limit - length out)%nat with 0%nat by lia. simpl. rewrite app_nil_r.
      rewrite bool_decide_eq_true_2; [done|lia].
    + rewrite IH by (rewrite length_app; simpl; lia). rewrite length_app; simpl.
      replace (limit - length out)%nat with (S (limit - (length out + 1)))%nat by lia.
      simpl. rewrite <- app_assoc. f_equal. apply bool_decide_ext. lia.
Qed.

(** Following cursors: the next page starts after the last row of this one. *)
Variable key_after : A -> option A -> bool.
Variable limit : nat.

Fixpoint walk (fuel : nat) (rows : list A) (cursor : option A) : option (list A) :=
  match fuel with
  | O => None
  | S fuel =>
    let '(out, more) := page_loop (fun r => key_after r cursor) limit rows [] in
    if more then
      match last out with
      | None => Some out
      | Some c => rest ← walk fuel rows (Some c); Some (out ++ rest)
      end
    else Some out
  end.

(** When the rows are strictly ordered by "comes after", the pages of a walk
    concatenate to all rows: none is lost and none is repeated. *)
Lemma filter_after_split (l1 l2 : list A) c :
  StronglySorted (fun a b => key_after b (Some a) = true /\ key_after a (Some b) = false) (l1 ++ c :: l2) ->
  key_after c (Some c) = false ->
  List.filter (fun r => key_after r (Some c)) (l1 ++ c :: l2) = l2.
Proof.
  induction l1 as [|x l1 IH]; simpl; intros Hs Hc; apply StronglySorted_inv in Hs as [Hs Hall];
    rewrite Forall_forall in Hall.
  - rewrite Hc. apply forallb_filter_id, forallb_forall.
    intros r Hr. apply Hall. by apply list_elem_of_In.
  - assert (Hx : key_after x (Some c) = false) by (apply Hall; set_solver).
    rewrite Hx. auto.
Qed.

Lemma walk_spec fuel done_ rest cursor :
  (1 <= limit)%nat ->
  StronglySorted (fun a b => key_after b (Some a) = true /\ key_after a (Some b) = false) (done_ ++ rest) ->
  (forall a, a ∈ done_ ++ rest -> key_after a (Some a) = false) ->
  (forall a, key_after a None = true) ->
  cursor = last done_ -> (length rest < fuel)%nat ->
  walk fuel (done_ ++ rest) cursor = Some rest.
Proof.
  revert done_ rest cursor. induction fuel as [|fuel IH]; [lia|].
  intros done_ rest cursor Hlim Hs Hirr Hnone -> Hf; simpl.
  assert (Hfil : List.filter (fun r => key_after r (last done_)) (done_ ++ rest) = rest).
  { destruct done_ as [|d ds] using rev_ind; simpl.
    - apply forallb_filter_id, forallb_forall. auto.
    - rewrite last_snoc. rewrite <- app_assoc in *. simpl in *.
      apply filter_after_split; [done|]. apply Hirr. set_solver. }
  rewrite page_loop_spec by (simpl; lia). simpl. rewrite Hfil, Nat.sub_0_r.
  case_bool_decide as Hmore.
  - destruct (last (take limit rest)) as [c|] eqn:Hlast.
    + assert (Hsplit : done_ ++ rest = (done_ ++ take limit rest) ++ drop limit rest)
        by by rewrite <- app_assoc, take_drop.
      rewrite Hsplit. rewrite IH; rewrite <- ?Hsplit; try done.
      * simpl. by rewrite take_drop.
      * by rewrite last_app, Hlast.
      * rewrite length_drop. lia.
    + apply last_None in Hlast. apply (f_equal length) in Hlast.
      rewrite length_take in Hlast. simpl in Hlast. lia.
  - f_equal. apply take_ge. lia.
Qed.
End Paginate.

(** A paged read hands out a cursor made from the last row of the page; a client follows
    cursors until none is handed out. *)
Section Follow.
Context {A C : Type} (after : A -> option C -> bool) (cur : A -> C) (limit : nat).

Definition page (rows : list A) (c : option C) : list A * option C :=
  let '(out, more) := page_loop (fun r => after r c) limit rows [] in
  (out, if more && negb (length out =? 0)%nat then cur <$> last out else None).

Fixpoint follow (fuel : nat) (rows : list A) (c : option C) : option (list A) :=
  match fuel with
  | O => None
  | S fuel =>
    let '(out, next) := page rows c in
    match next with
    | None => Some out
    | Some c => rest ← follow fuel rows (Some c); Some (out ++ rest)
    end
  end.

Lemma follow_walk fuel rows c :
  follow fuel rows (cur <$> c) = walk (fun r o => after r (cur <$> o)) limit fuel rows c.
Proof.
  revert c. induction fuel as [|fuel IH]; intros c; simpl; [done|]. unfold page.
  destruct (page_loop _ limit rows []) as [out more]. destruct more; simpl; [|done].
  destruct (last out) as [x|] eqn:E.
  - destruct out; [done|]. simpl. rewrite <- (IH (Some x)). done.
  - apply last_None in E as ->. done.
Qed.

(** Following cursors from the start returns every row once, in order, when later rows
    are exactly those after an earlier row's cursor. *)
Lemma follow_all rows :
  (1 <= limit)%nat -> (forall a, after a None = true) ->
  StronglySorted (fun a b => after b (Some (cur a)) = true /\ after a (Some (cur b)) = false) rows ->
  (forall a, a ∈ rows -> after a (Some (cur a)) = false) ->
  follow (S (length rows)) rows None = Some rows.
Proof.
  intros Hl Hn Hs Hi. change None with (cur <$> None) at 1. rewrite follow_walk.
  apply (walk_spec _ _ _ [] rows None); try done. simpl. lia.
Qed.
(** The client side: the [n]-th request answers a page and possibly a cursor. *)
Context {B : Type} (g : A -> B).

Fixpoint client (call : nat -> option C -> list B * option C) (fuel n : nat) (c : option C) : option (list B) :=
  match fuel with
  | O => None
  | S fuel =>
    let '(out, next) := call n c in
    match next with
    | None => Some out
    | Some c => rest ← client call fuel (S n) (Some c); Some (out ++ rest)
    end
  end.

Lemma client_follow call rows :
  (forall n c, call n c = (fmap (M:=list) g (page rows c).1, (page rows c).2)) ->
  forall fuel n c, client call fuel n c = fmap (M:=option) (fmap (M:=list) g) (follow fuel rows c).
Proof.
  intros Hcall. induction fuel as [|fuel IH]; intros n c; simpl; [done|]. rewrite Hcall.
  destruct (page rows c) as [out [c'|]]; simpl; [|done]. rewrite IH.
  destruct (follow fuel rows (Some c')); simpl; [|done]. by rewrite fmap_app.
Qed.

(** All pages of rows sorted by a comparator the cursor test agrees with: following
    cursors returns the whole sorted list, whichever order the rows came in. *)
Lemma client_all {K} {O : KeyOrd K} (less : A -> A -> bool) (key : A -> K) `{!LessBy less key} call rows :
  (1 <= limit)%nat -> (forall a, after a None = true) ->
  (forall a b, a ∈ rows -> b ∈ rows -> after a (Some (cur b)) = less b a) ->
  NoDup (key <$> rows) ->
  (forall n c, call n c = (fmap (M:=list) g (page (ssort less rows) c).1, (page (ssort less rows) c).2)) ->
  client call (S (length rows)) 0 None = Some (fmap (M:=list) g (ssort less rows)).
Proof.
  intros Hl Hn Hafter Hnd Hcall. rewrite (client_follow call (ssort less rows)) by done.
  rewrite <- (ssort_length less rows). rewrite follow_all; [done..| |].
  - assert (Hin : forall a, a ∈ ssort less rows -> a ∈ rows) by (intros a; by rewrite elem_of_ssort).
    assert (Hnd' : NoDup (key <$> ssort less rows)) by by rewrite ssort_perm.
    pose proof (ssort_sorted less key rows) as Hs. clear Hcall. induction Hs as [|a l Hs IH Ha]; constructor.
    + apply IH; [intros x Hx; apply Hin; by right|]. by apply NoDup_cons in Hnd' as [_ ?].
    + apply NoDup_cons in Hnd' as [Hni _]. rewrite Forall_forall in *. intros b Hb. specialize (Ha b Hb).
      assert (a ∈ rows) by (apply Hin; left). assert (b ∈ rows) by (apply Hin; by right).
      rewrite !Hafter by done. split; [|done]. cbv beta in Ha. rewrite less_by in *.
      destruct (kltb (key a) (key b)) eqn:E; [done|].
      destruct Hni. rewrite (kltb_tricho _ _ E Ha). by apply list_elem_of_fmap_2.
  - intros a Ha. rewrite elem_of_ssort in Ha. rewrite Hafter by done. rewrite less_by. apply kltb_irrefl.
Qed.
End Follow.

(** ** Boolean filters *)

Lemma elem_of_lfilter {A} (f : A -> bool) (x : A) l : x ∈ List.filter f l <-> x ∈ l /\ f x = true.
Proof. rewrite !list_elem_of_In. apply filter_In. Qed.

Lemma NoDup_lfilter {A} (f : A -> bool) (l : list A) : NoDup l -> NoDup (List.filter f l).
Proof. rewrite !NoDup_ListNoDup. apply List.NoDup_filter. Qed.

Lemma lfilter_perm {A} (f : A -> bool) (l1 l2 : list A) :
  l1 ≡ₚ l2 -> List.filter f l1 ≡ₚ List.filter f l2.
Proof.
  induction 1; simpl; repeat case_match; eauto using perm_swap, perm_trans.
Qed.

Lemma lfilter_length_split {A} (f : A -> bool) (l : list A) :
  length l = (length (List.filter f l) + length (List.filter (fun x => negb (f x)) l))%nat.
Proof. induction l as [|x l IH]; simpl; [done|]. destruct (f x); simpl; lia. Qed.

Lemma lfilter_all {A} (f : A -> bool) (l : list A) : (forall x, x ∈ l -> f x = true) -> List.filter f l = l.
Proof.
  induction l as [|x l IH]; intros H; simpl; [done|].
  rewrite (H x) by left. f_equal. apply IH. intros y Hy. apply H. by right.
Qed.

Lemma lfilter_none {A} (f : A -> bool) (l : list A) : (forall x, x ∈ l -> f x = false) -> List.filter f l = [].
Proof.
  induction l as [|x l IH]; intros H; simpl; [done|].
  rewrite (H x) by left. apply IH. intros y Hy. apply H. by right.
Qed.

Lemma lfilter_lfilter {A} (f g : A -> bool) (l : list A) :
  List.filter f (List.filter g l) = List.filter (fun x => g x && f x) l.
Proof.
  induction l as [|x l IH]; simpl; [done|].
  destruct (g x); simpl; [destruct (f x)|]; by rewrite ?IH.
Qed.

Lemma lfilter_comm {A} (f g : A -> bool) (l : list A) :
  List.filter f (List.filter g l) = List.filter g (List.filter f l).
Proof. rewrite !lfilter_lfilter. apply filter_ext. intros x. apply andb_comm. Qed.

(** Lists with distinct keys have distinct elements, and are determined by membership. *)
Lemma NoDup_fmap_inj_on {A B} (f : A -> B) (l : list A) x y :
  NoDup (f <$> l) -> x ∈ l -> y ∈ l -> f x = f y -> x = y.
Proof.
  intros Hnd Hx Hy Hf. apply list_elem_of_lookup in Hx as [i Hi], Hy as [j Hj].
  assert (i = j) as ->; [|congruence].
  eapply NoDup_lookup; [exact Hnd| |]; rewrite list_lookup_fmap;
    [by rewrite Hi|rewrite Hj; simpl; by f_equal].
Qed.

Lemma NoDup_fmap_lfilter {A B} (f : A -> B) (p : A -> bool) (l : list A) :
  NoDup (f <$> l) -> NoDup (f <$> List.filter p l).
Proof.
  induction l as [|x l IH]; simpl; [done|]. intros Hnd. apply NoDup_cons in Hnd as [Hni Hnd].
  destruct (p x); [|auto]. simpl. apply NoDup_cons. split; [|auto].
  intros Hin. apply Hni. apply list_elem_of_fmap in Hin as (y & -> & Hy).
  apply elem_of_lfilter in Hy as [Hy _]. by apply list_elem_of_fmap_2.
Qed.

(** Filtering commutes with sorting when the keys tell the elements apart. *)
Lemma ssort_lfilter {A K} {O : KeyOrd K} (less : A -> A -> bool) (key : A -> K) `{!LessBy less key} (p : A -> bool) l :
  (forall a b, a ∈ l -> b ∈ l -> key a = key b -> a = b) ->
  ssort less (List.filter p l) = List.filter p (ssort less l).
Proof.
  intros Hinj. apply (ssorted_unique less key).
  - intros a b Ha Hb. rewrite elem_of_ssort, elem_of_lfilter in Ha, Hb. apply Hinj; tauto.
  - by apply (ssort_sorted less key).
  - pose proof (ssort_sorted less key l) as Hs. unfold ssorted in *.
    induction Hs as [|x l' Hs IH Hx]; simpl; [constructor|]. destruct (p x); [|done]. constructor; [done|].
    rewrite Forall_forall in *. intros y [Hy _]%elem_of_lfilter. by apply Hx.
  - rewrite ssort_perm. apply lfilter_perm. symmetry. apply ssort_perm.
Qed.

Lemma lfilter_fmap {A B} (f : A -> B) (p : B -> bool) (l : list A) :
  List.filter p (f <$> l) = f <$> List.filter (fun x => p (f x)) l.
Proof.
  induction l as [|x l IH]; [done|]. cbn [fmap list_fmap List.filter]. destruct (p (f x)); [|exact IH].
  cbn [fmap list_fmap]. by f_equal.
Qed.
