(* ===== verification/GoRuntime.v ===== *)
(** The parts of Go's language and standard library the program relies on, as
    executable definitions: [time.Time] and [time.Duration] (nanoseconds since the zero
    time, at unlimited range except where the library saturates or wraps),
    [int64] wrap-around, byte strings with [strings.TrimSpace]/[Contains]/[ToLower],
    RFC 3339 formatting, SHA-256, and [any] values as produced by [encoding/json]. *)

From S2P Require Import Prelude.
Open Scope Z_scope.

(** ** Machine integers *)

Definition min_int64 : Z := - 2 ^ 63.
Definition max_int64 : Z := 2 ^ 63 - 1.
Definition wrap64 (z : Z) : Z := (z + 2 ^ 63) mod 2 ^ 64 - 2 ^ 63.
Definition in_int64 (z : Z) : bool := (min_int64 <=? z) && (z <=? max_int64).

Lemma wrap64_id z : in_int64 z = true -> wrap64 z = z.
Proof.
  unfold in_int64, wrap64, min_int64, max_int64. intros H. bool_prop.
  rewrite Z.mod_small; lia.
Qed.

Lemma wrap64_range z : in_int64 (wrap64 z) = true.
Proof.
  unfold in_int64, wrap64, min_int64, max_int64.
  pose proof (Z.mod_pos_bound (z + 2 ^ 63) (2 ^ 64) ltac:(lia)).
  apply andb_true_iff; split; apply Z.leb_le; lia.
Qed.

(** Wrapping is a congruence: an inner wrap of a sum may be left out. *)
Lemma wrap64_add_l a b : wrap64 (wrap64 a + b) = wrap64 (a + b).
Proof.
  unfold wrap64. f_equal.
  replace ((a + 2 ^ 63) mod 2 ^ 64 - 2 ^ 63 + b + 2 ^ 63) with ((a + 2 ^ 63) mod 2 ^ 64 + b) by ring.
  rewrite Zplus_mod_idemp_l. f_equal. ring.
Qed.

(** Counters are compared up to wrapping: [eq64] is equality of [int64] values, and
    sums may be rewritten with it. *)
Record eq64 (a b : Z) : Prop := eq64_intro { eq64_elim : wrap64 a = wrap64 b }.

#[export] Instance eq64_equiv : Equivalence eq64.
Proof. split; red; intros; constructor; repeat match goal with H : eq64 _ _ |- _ => apply eq64_elim in H end; congruence. Qed.

#[export] Instance eq64_add : Proper (eq64 ==> eq64 ==> eq64) Z.add.
Proof.
  intros a a' [Ha] b b' [Hb]. constructor.
  rewrite <- (wrap64_add_l a b), Ha, wrap64_add_l, Z.add_comm.
  by rewrite <- (wrap64_add_l b a'), Hb, wrap64_add_l, Z.add_comm.
Qed.

Lemma eq64_wrap a : eq64 (wrap64 a) a.
Proof. constructor. apply wrap64_id, wrap64_range. Qed.

(** ** Time *)

(** A [time.Time] is the number of nanoseconds since the zero time (January 1 of
    year 1, UTC); locations play no role in the comparisons the code makes. *)
Abbreviation Time := Z (only parsing).
Abbreviation Duration := Z (only parsing).

Definition Nanosecond : Duration := 1.
Definition Millisecond : Duration := 1000000.
Definition Second : Duration := 1000000000.
Definition Minute : Duration := 60 * Second.
Definition Hour : Duration := 60 * Minute.

Definition time_zero : Time := 0.
Definition IsZero (t : Time) : bool := t =? 0.
Definition Before (t u : Time) : bool := t <? u.
Definition After (t u : Time) : bool := u <? t.
Definition TimeEqual (t u : Time) : bool := t =? u.
Definition TimeAdd (t : Time) (d : Duration) : Time := t + d.

(** [Time.Sub] saturates at the bounds of [time.Duration]. *)
Definition TimeSub (t u : Time) : Duration := Z.max min_int64 (Z.min max_int64 (t - u)).

(** Negation of a duration wraps: the most negative one is its own negation. *)
Definition dur_neg (d : Duration) : Duration := wrap64 (- d).

(** [Time.UnixNano]: nanoseconds since the Unix epoch, as an [int64]. *)
Definition unix_epoch : Time := 62135596800 * Second.
Definition UnixNano (t : Time) : Z := wrap64 (t - unix_epoch).

(** [Time.Truncate d] rounds down to a multiple of [d] since the zero time. *)
Definition Truncate (t : Time) (d : Duration) : Time := if d <=? 0 then t else t - t mod d.

Definition Milliseconds (d : Duration) : Z := Z.quot d Millisecond.

(** ** Formatting *)

Definition digit_char (d : Z) : ascii := ascii_of_nat (48 + Z.to_nat d).

(** Decimal digits of a non-negative number, left-padded with zeros to [width]. *)
Definition pad_int (width : nat) (n : Z) : string :=
  let s := pretty (Z.abs n) in
  (if n <? 0 then "-" else "") +:+
  String.string_of_list_ascii (repeat "0"%char (width - String.length s)) +:+ s.

(** Civil date of a day number counted from January 1 of year 1. *)
Definition civil_of_days (d : Z) : Z * Z * Z :=
  let z := d + 306 in
  let era := z / 146097 in
  let doe := z mod 146097 in
  let yoe := (doe - doe / 1460 + doe / 36524 - doe / 146096) / 365 in
  let doy := doe - (365 * yoe + yoe / 4 - yoe / 100) in
  let mp := (5 * doy + 2) / 153 in
  let day := doy - (153 * mp + 2) / 5 + 1 in
  let month := if mp <? 10 then mp + 3 else mp - 9 in
  let year := yoe + era * 400 + (if month <=? 2 then 1 else 0) in
  (year, month, day).

(** [t.UTC().Format(time.RFC3339)]. *)
Definition FormatRFC3339 (t : Time) : string :=
  let secs := t / Second in
  let '(y, m, d) := civil_of_days (secs / 86400) in
  let s := secs mod 86400 in
  pad_int 4 y +:+ "-" +:+ pad_int 2 m +:+ "-" +:+ pad_int 2 d +:+ "T" +:+
  pad_int 2 (s / 3600) +:+ ":" +:+ pad_int 2 (s / 60 mod 60) +:+ ":" +:+ pad_int 2 (s mod 60) +:+ "Z".

Example FormatRFC3339_epoch : FormatRFC3339 unix_epoch = "1970-01-01T00:00:00Z".
Proof. vm_compute. reflexivity. Qed.

Example FormatRFC3339_leap :
  FormatRFC3339 (unix_epoch + 1709208001 * Second + 5) = "2024-02-29T12:00:01Z".
Proof. vm_compute. reflexivity. Qed.

(** [Duration.String]: "1h2m3.5s", and a smaller unit below one second. *)
Definition trim_zeros (s : string) : string :=
  String.string_of_list_ascii
    (rev ((fix go l := match l with
                       | c :: r => if Ascii.eqb c "0"%char then go r else l
                       | [] => []
                       end) (rev (String.list_ascii_of_string s)))).

(** [v / 10^prec] with the fraction's trailing zeros dropped. *)
Definition frac_string (v : Z) (prec : nat) : string :=
  let unit_ := 10 ^ Z.of_nat prec in
  let f := trim_zeros (pad_int prec (v mod unit_)) in
  pretty (v / unit_) +:+ (if String.eqb f "" then "" else "." +:+ f).

Definition DurationString (d : Duration) : string :=
  let u := Z.abs d in
  let sign := if d <? 0 then "-" else "" in
  if u =? 0 then "0s"
  else if u <? 1000 then sign +:+ pretty u +:+ "ns"
  else if u <? Millisecond then sign +:+ frac_string u 3 +:+
         String (ascii_of_nat 194) (String (ascii_of_nat 181) "s")
  else if u <? Second then sign +:+ frac_string u 6 +:+ "ms"
  else
    let h := u / Hour in
    let m := u / Minute mod 60 in
    let s := frac_string (u mod Minute) 9 +:+ "s" in
    sign +:+ (if h =? 0 then "" else pretty h +:+ "h") +:+
    (if u <? Minute then "" else pretty m +:+ "m") +:+ s.

Example DurationString_10m : DurationString (10 * Minute) = "10m0s".
Proof. vm_compute. reflexivity. Qed.
Example DurationString_1h : DurationString (Hour + 90 * Second + 500 * Millisecond) = "1h1m30.5s".
Proof. vm_compute. reflexivity. Qed.
Example DurationString_ms : DurationString (1500000) = "1.5ms".
Proof. vm_compute. reflexivity. Qed.

(** ** Strings *)

(** The UTF-8 encodings of the white space runes [strings.TrimSpace] removes. *)
Definition bytes_string (l : list nat) : string := String.string_of_list_ascii (ascii_of_nat <$> l).

Definition space_runes : list string :=
  (fun n => bytes_string [n]) <$> [9; 10; 11; 12; 13; 32]%nat ++ [].

Definition wide_space_runes : list string :=
  bytes_string <$>
    [[194; 133]; [194; 160]; [225; 154; 128]; [226; 128; 128]; [226; 128; 129]; [226; 128; 130];
     [226; 128; 131]; [226; 128; 132]; [226; 128; 133]; [226; 128; 134]; [226; 128; 135];
     [226; 128; 136]; [226; 128; 137]; [226; 128; 138]; [226; 128; 168]; [226; 128; 169];
     [226; 128; 175]; [226; 129; 159]; [227; 128; 128]]%nat.

Definition all_space_runes : list string := space_runes ++ wide_space_runes.

Definition HasPrefix (s p : string) : bool := String.prefix p s.
Definition drop_prefix (p s : string) : string := String.substring (String.length p) (String.length s - String.length p) s.
Definition HasSuffix (s p : string) : bool := String.prefix (String.rev p) (String.rev s).

Fixpoint trim_left (fuel : nat) (runes : list string) (s : string) : string :=
  match fuel with
  | O => s
  | S fuel =>
    match List.find (fun r => HasPrefix s r) runes with
    | Some r => trim_left fuel runes (drop_prefix r s)
    | None => s
    end
  end.

(** Trimming on the right is trimming on the left of the reversed bytes: every rune
    in the table is a whole encoding, so a reversed match is a whole rune. *)
Definition TrimSpace (s : string) : string :=
  let l := trim_left (String.length s) all_space_runes s in
  String.rev (trim_left (String.length l) (String.rev <$> all_space_runes) (String.rev l)).

Example TrimSpace_ex : TrimSpace (String (ascii_of_nat 9) " a b  ") = "a b".
Proof. vm_compute. reflexivity. Qed.

Fixpoint Contains (s sub : string) : bool :=
  String.prefix sub s || match s with EmptyString => false | String _ s' => Contains s' sub end.

(** [strings.ToLower] on ASCII letters, and on the two other runes whose lower case
    is ASCII (U+0130 and U+212A); all other runes lower to non-ASCII runes. *)
Definition lower_byte (c : ascii) : ascii :=
  let n := nat_of_ascii c in
  if (65 <=? n)%nat && (n <=? 90)%nat then ascii_of_nat (n + 32) else c.

Fixpoint ToLower (s : string) : string :=
  match s with
  | String a (String b (String c s2 as s1) as s0) =>
    if String.eqb (String a (String b "")) (bytes_string [196; 176]%nat)
    then String "i" (ToLower s1)
    else if String.eqb (String a (String b (String c ""))) (bytes_string [226; 132; 170]%nat)
    then String "k" (ToLower s2)
    else String (lower_byte a) (ToLower s0)
  | String a (String b "") =>
    if String.eqb s (bytes_string [196; 176]%nat) then "i"
    else String (lower_byte a) (String (lower_byte b) "")
  | String a "" => String (lower_byte a) ""
  | EmptyString => ""
  end.

Example ToLower_ex : ToLower "OOM_Killed" = "oom_killed".
Proof. vm_compute. reflexivity. Qed.

(** [strings.Join]. *)
Fixpoint Join (sep : string) (l : list string) : string :=
  match l with
  | [] => ""
  | [s] => s
  | s :: rest => s +:+ sep +:+ Join sep rest
  end.

(** [strconv.Atoi]: an optional sign and decimal digits, within [int64]. *)
Definition digit_value (c : ascii) : option Z :=
  let n := Z.of_nat (nat_of_ascii c) in if (48 <=? n) && (n <=? 57) then Some (n - 48) else None.

Fixpoint digits_value (acc : Z) (s : string) : option Z :=
  match s with
  | EmptyString => Some acc
  | String c s => d ← digit_value c; digits_value (10 * acc + d) s
  end.

Definition Atoi (s : string) : option Z :=
  let '(sign, body) :=
    match s with
    | String "-" s' => (-1, s')
    | String "+" s' => (1, s')
    | _ => (1, s)
    end in
  if String.eqb body "" then None else
  v ← digits_value 0 body;
  if in_int64 (sign * v) then Some (sign * v) else None.

Example Atoi_ex : (Atoi <$> ["42"; "-7"; "+3"; ""; "-"; "4x"; "9223372036854775808"])
  = [Some 42; Some (-7); Some 3; None; None; None; None].
Proof. vm_compute. reflexivity. Qed.

(** [s[:n]] for a string at least [n] bytes long. *)
Definition take_bytes (n : nat) (s : string) : string := String.substring 0 n s.

Lemma take_bytes_app a b : take_bytes (String.length a) (a +:+ b) = a.
Proof.
  unfold take_bytes. induction a as [|c a IH]; [by destruct b|]. rewrite string_app_cons. simpl. by rewrite IH.
Qed.

(** ** SHA-256 *)

Module Sha256.
Definition w32 (z : Z) : Z := z mod 2 ^ 32.
Definition rotr (x n : Z) : Z := w32 (Z.lor (Z.shiftr x n) (Z.shiftl x (32 - n))).
Definition bnot (x : Z) : Z := Z.lxor x (2 ^ 32 - 1).

(** The constants of the standard are the first 32 bits of the fractional parts of the
    square and cube roots of the first primes; they are computed from that description. *)
Definition first_primes (n : nat) : list Z :=
  take n (List.filter (fun p => forallb (fun d => negb (p mod d =? 0)) (seqZ 2 (p - 2))) (seqZ 2 310)).

(** The integer cube root, found bit by bit. *)
Fixpoint cube_root (bit : nat) (root target : Z) : Z :=
  match bit with
  | O => root
  | S bit' =>
    let cand := root + 2 ^ Z.of_nat bit' in
    cube_root bit' (if cand * cand * cand <=? target then cand else root) target
  end.

Definition k_table : list Z :=
  Eval vm_compute in (fun p => w32 (cube_root 35 0 (p * 2 ^ 96))) <$> first_primes 64.

Definition h_init : list Z := Eval vm_compute in (fun p => w32 (Z.sqrt (p * 2 ^ 64))) <$> first_primes 8.

Definition nthZ (l : list Z) (n : nat) : Z := List.nth n l 0.

(** The message schedule, newest word first. *)
Fixpoint schedule (n : nat) (w : list Z) : list Z :=
  match n with
  | O => w
  | S n =>
    let s0 := let x := nthZ w 14 in Z.lxor (rotr x 7) (Z.lxor (rotr x 18) (Z.shiftr x 3)) in
    let s1 := let x := nthZ w 1 in Z.lxor (rotr x 17) (Z.lxor (rotr x 19) (Z.shiftr x 10)) in
    schedule n (w32 (nthZ w 15 + s0 + nthZ w 6 + s1) :: w)
  end.

Definition round (st : list Z) (kw : Z * Z) : list Z :=
  match st with
  | [a; b; c; d; e; f; g; h] =>
    let s1 := Z.lxor (rotr e 6) (Z.lxor (rotr e 11) (rotr e 25)) in
    let ch := Z.lxor (Z.land e f) (Z.land (bnot e) g) in
    let t1 := w32 (h + s1 + ch + kw.1 + kw.2) in
    let s0 := Z.lxor (rotr a 2) (Z.lxor (rotr a 13) (rotr a 22)) in
    let maj := Z.lxor (Z.land a b) (Z.lxor (Z.land a c) (Z.land b c)) in
    [w32 (t1 + s0 + maj); a; b; c; w32 (d + t1); e; f; g]
  | _ => st
  end.

Definition block (h : list Z) (words : list Z) : list Z :=
  let w := rev (schedule 48 (rev words)) in
  zip_with (fun x y => w32 (x + y)) h (foldl round h (zip k_table w)).

Fixpoint words_of (l : list Z) : list Z :=
  match l with
  | a :: b :: c :: d :: r => (((a * 256 + b) * 256 + c) * 256 + d) :: words_of r
  | _ => []
  end.

Fixpoint be_bytes (n : nat) (z : Z) : list Z :=
  match n with O => [] | S n => (z / 256 ^ Z.of_nat n) mod 256 :: be_bytes n z end.

Definition pad (l : list Z) : list Z :=
  let len := Z.of_nat (length l) in
  l ++ [128] ++ repeat 0 (Z.to_nat ((55 - len) mod 64)) ++ be_bytes 8 (8 * len).

Fixpoint blocks (fuel : nat) (h : list Z) (words : list Z) : list Z :=
  match fuel with
  | O => h
  | S fuel => match words with [] => h | _ => blocks fuel (block h (take 16 words)) (drop 16 words) end
  end.

Definition string_bytes (s : string) : list Z := (fun c => Z.of_nat (nat_of_ascii c)) <$> String.list_ascii_of_string s.

(** [sha256.Sum256]: the 32 digest bytes. *)
Definition sum256 (s : string) : list Z :=
  let w := words_of (pad (string_bytes s)) in
  flat_map (be_bytes 4) (blocks (length w) h_init w).

Definition hex_digit (d : Z) : string := String.substring (Z.to_nat d) 1 "0123456789abcdef".
(** [hex.EncodeToString]. *)
Definition hex (l : list Z) : string := foldr (fun b s => hex_digit (b / 16) +:+ hex_digit (b mod 16) +:+ s) "" l.
End Sha256.

Example sha256_abc :
  Sha256.hex (Sha256.sum256 "abc") = "ba7816bf8f01cfea414140de5dae2223b00361a396177a9cb410ff61f20015ad".
Proof. vm_compute. reflexivity. Qed.

Example sha256_two_blocks :
  Sha256.hex (Sha256.sum256 "abcdbcdecdefdefgefghfghighijhijkijkljklmklmnlmnomnopnopq")
  = "248d6a61d20638b8e5c026930c3e6039a33ce45964ff2167f6ecedd419db06c1".
Proof. vm_compute. reflexivity. Qed.

(** ** Values of type [any] *)

(** What [json.Unmarshal] and the program itself put in an [any]: [VMap None] is a
    nil [map[string]any], [VInt] an [int] the program stored. *)
Inductive value :=
| VNull
| VBool (b : bool)
| VNum (digits : string)
| VInt (z : Z)
| VStr (s : string)
| VList (l : list value)
| VMap (m : option (gmap string value)).

(** [v, _ := x.(string)] and [m[key]] on a map of values. *)
Definition as_string (v : option value) : string :=
  match v with Some (VStr s) => s | _ => "" end.
