(* ===== verification/GoFloat.v ===== *)
(** [float64] as IEEE 754 binary64, with the standard library's executable
    [SpecFloat]: conversion from integers, quotient, product, comparison, [math.Min]
    and [math.Max], truncation to [int].  The lemmas show that integers below 2^53 are
    represented exactly, so that comparing and truncating them is exact. *)

From S2P Require Import Prelude GoRuntime.
From Stdlib Require Import SpecFloat.
Open Scope Z_scope.

Abbreviation float64 := spec_float (only parsing).

Definition prec64 : Z := 53.
Definition emax64 : Z := 1024.

(** [float64(n)] for an integer [n]. *)
Definition of_int (n : Z) : float64 := binary_normalize prec64 emax64 n 0 false.

Definition fdiv (x y : float64) : float64 := SFdiv prec64 emax64 x y.
Definition fmul (x y : float64) : float64 := SFmul prec64 emax64 x y.
Definition fadd (x y : float64) : float64 := SFadd prec64 emax64 x y.
Definition fltb (x y : float64) : bool := SFltb x y.
Definition fleb (x y : float64) : bool := SFleb x y.

(** Decimal literals of the source: a quotient of two exact integers is correctly
    rounded, as the compiler rounds the literal. *)
Definition flit (num den : Z) : float64 := fdiv (of_int num) (of_int den).

(** [math.Max] and [math.Min], for operands that are neither NaN nor zeros of
    different signs (the code applies them to converted integers only). *)
Definition fmax (x y : float64) : float64 := if fltb x y then y else x.
Definition fmin (x y : float64) : float64 := if fltb x y then x else y.

(** [int(x)]: truncation toward zero of a finite value. *)
Definition to_int (x : float64) : Z :=
  match x with
  | S754_finite s m e =>
    let a := if 0 <=? e then Z.pos m * 2 ^ e else Z.pos m / 2 ^ (- e) in
    if s then - a else a
  | _ => 0
  end.

(** ** Exactness on small integers *)

(** The normal form of a positive integer of at most 53 binary digits. *)
Definition small_float (p : positive) : float64 :=
  S754_finite false (Z.to_pos (Z.pos p * 2 ^ (53 - Z.pos (digits2_pos p)))) (Z.pos (digits2_pos p) - 53).

Lemma digits2_bounds (p : positive) :
  2 ^ (Z.pos (digits2_pos p) - 1) <= Z.pos p < 2 ^ Z.pos (digits2_pos p).
Proof.
  induction p as [p IH|p IH|]; simpl digits2_pos; [| |done];
    rewrite Pos2Z.inj_succ; rewrite Z.pow_succ_r by lia;
    replace (Z.succ (Z.pos (digits2_pos p)) - 1) with (Z.succ (Z.pos (digits2_pos p) - 1)) by lia;
    rewrite Z.pow_succ_r by lia; lia.
Qed.

Lemma digits2_unique (p : positive) (d : Z) :
  2 ^ (d - 1) <= Z.pos p < 2 ^ d -> 0 < d -> Z.pos (digits2_pos p) = d.
Proof.
  intros [H1 H2] Hd. pose proof (digits2_bounds p) as [H3 H4].
  assert (2 ^ (d - 1) < 2 ^ Z.pos (digits2_pos p)) by lia.
  assert (2 ^ (Z.pos (digits2_pos p) - 1) < 2 ^ d) by lia.
  apply Z.pow_lt_mono_r_iff in H, H0; lia.
Qed.

Lemma digits2_le53 (p : positive) : Z.pos p < 2 ^ 53 -> Z.pos (digits2_pos p) <= 53.
Proof.
  intros H. pose proof (digits2_bounds p) as [H1 _].
  assert (2 ^ (Z.pos (digits2_pos p) - 1) < 2 ^ 53) by lia.
  apply Z.pow_lt_mono_r_iff in H0; lia.
Qed.

Lemma iter_xO (p k : positive) : Z.pos (Pos.iter xO p k) = Z.pos p * 2 ^ Z.pos k.
Proof.
  induction k as [|k IH] using Pos.peano_ind; [simpl; lia|].
  rewrite Pos.iter_succ, Pos2Z.inj_succ, Z.pow_succ_r by lia.
  change (Z.pos (Pos.iter xO p k)~0) with (2 * Z.pos (Pos.iter xO p k)). rewrite IH. lia.
Qed.

Lemma fexp_norm d : 0 < d <= 53 -> fexp prec64 emax64 d = d - 53.
Proof. unfold fexp, SpecFloat.emin, prec64, emax64. lia. Qed.

Lemma round_exact (m : positive) (d : Z) :
  Z.pos (digits2_pos m) = 53 -> 0 < d <= 53 ->
  binary_round_aux prec64 emax64 false (Z.pos m) (d - 53) loc_Exact = S754_finite false m (d - 53).
Proof.
  intros Hm Hd. unfold binary_round_aux, shr_fexp.
  assert (Hz : fexp prec64 emax64 (Zdigits2 (Z.pos m) + (d - 53)) - (d - 53) = 0).
  { cbn [Zdigits2]. rewrite Hm. replace (53 + (d - 53)) with d by lia. rewrite fexp_norm by lia. lia. }
  rewrite Hz. cbn [shr shr_record_of_loc shr_m loc_of_shr_record round_nearest_even].
  rewrite Hz. cbn [shr shr_record_of_loc shr_m].
  unfold emax64, prec64. destruct (Z.leb_spec (d - 53) (1024 - 53)); [done|lia].
Qed.

Lemma small_float_m (p : positive) : Z.pos p < 2 ^ 53 ->
  0 < Z.pos p * 2 ^ (53 - Z.pos (digits2_pos p)).
Proof. intros H. pose proof (digits2_le53 p H). apply Z.mul_pos_pos; [lia|]. apply Z.pow_pos_nonneg; lia. Qed.

Lemma of_int_small (p : positive) : Z.pos p < 2 ^ 53 -> of_int (Z.pos p) = small_float p.
Proof.
  intros Hp. pose proof (digits2_le53 p Hp) as Hd. pose proof (digits2_bounds p) as [B1 B2].
  set (d := Z.pos (digits2_pos p)) in *. assert (0 < d) by (unfold d; lia).
  unfold of_int, binary_normalize, binary_round, small_float. fold d.
  rewrite Z.add_0_r, fexp_norm by lia. unfold shl_align. rewrite Z.sub_0_r.
  destruct (d - 53) as [|k|k] eqn:Ek; [|lia|].
  - replace (53 - d) with 0 by lia. rewrite Z.mul_1_r, Pos2Z.id.
    replace 0 with (d - 53) by lia. apply round_exact; [fold d; lia|lia].
  - rewrite <- Ek. assert (Hk : 53 - d = Z.pos k) by lia. rewrite Hk, <- iter_xO, Pos2Z.id.
    apply round_exact; [|lia].
    apply digits2_unique; [|lia]. rewrite iter_xO, <- Hk.
    split.
    + replace (53 - 1) with ((d - 1) + (53 - d)) by lia.
      rewrite Z.pow_add_r by lia. apply Z.mul_le_mono_nonneg_r; [apply Z.pow_nonneg; lia|done].
    + replace 53 with (d + (53 - d)) at 2 by lia. rewrite Z.pow_add_r by lia.
      apply Z.mul_lt_mono_pos_r; [apply Z.pow_pos_nonneg; lia|done].
Qed.

(** Truncating a converted integer gives it back. *)
Lemma to_int_of_int n : 0 <= n < 2 ^ 53 -> to_int (of_int n) = n.
Proof.
  intros Hn. destruct n as [|p|p]; [done| |lia].
  rewrite of_int_small by lia. unfold small_float, to_int.
  pose proof (digits2_le53 p ltac:(lia)). rewrite Z2Pos.id by (apply small_float_m; lia).
  destruct (Z.leb_spec 0 (Z.pos (digits2_pos p) - 53)) as [Hl|Hl].
  - replace (Z.pos (digits2_pos p)) with 53 by lia. simpl. lia.
  - replace (- (Z.pos (digits2_pos p) - 53)) with (53 - Z.pos (digits2_pos p)) by lia.
    apply Z.div_mul. apply Z.pow_nonzero; lia.
Qed.

(** Comparing converted integers compares the integers. *)
Lemma SFcompare_of_int a b : 0 <= a < 2 ^ 53 -> 0 <= b < 2 ^ 53 ->
  SFcompare (of_int a) (of_int b) = Some (a ?= b).
Proof.
  intros Ha Hb. destruct a as [|p|p], b as [|q|q]; try lia; try done.
  - by rewrite of_int_small by lia.
  - by rewrite of_int_small by lia.
  - rewrite !of_int_small by lia. unfold small_float, SFcompare.
    pose proof (digits2_bounds p) as [P1 P2]. pose proof (digits2_bounds q) as [Q1 Q2].
    pose proof (digits2_le53 p ltac:(lia)). pose proof (digits2_le53 q ltac:(lia)).
    destruct (Z.compare_spec (Z.pos (digits2_pos p) - 53) (Z.pos (digits2_pos q) - 53)) as [E|E|E]; f_equal.
    + assert (Ed : Z.pos (digits2_pos p) = Z.pos (digits2_pos q)) by lia.
      change (PosDef.Pos.compare_cont Eq) with Pos.compare.
      rewrite (Pos2Z.inj_compare (Z.to_pos _)), !Z2Pos.id by (apply small_float_m; lia). rewrite Ed.
      rewrite <- Zmult_compare_compat_r; [done|]. apply Z.lt_gt, Z.pow_pos_nonneg; lia.
    + symmetry. apply Z.compare_lt_iff.
      assert (2 ^ Z.pos (digits2_pos p) <= 2 ^ (Z.pos (digits2_pos q) - 1)) by (apply Z.pow_le_mono_r; lia). lia.
    + symmetry. apply Z.compare_gt_iff.
      assert (2 ^ Z.pos (digits2_pos q) <= 2 ^ (Z.pos (digits2_pos p) - 1)) by (apply Z.pow_le_mono_r; lia). lia.
Qed.

Lemma fltb_of_int a b : 0 <= a < 2 ^ 53 -> 0 <= b < 2 ^ 53 -> fltb (of_int a) (of_int b) = (a <? b).
Proof. intros Ha Hb. unfold fltb, SFltb. rewrite SFcompare_of_int by done. done. Qed.

Lemma fmin_of_int a b : 0 <= a < 2 ^ 53 -> 0 <= b < 2 ^ 53 -> fmin (of_int a) (of_int b) = of_int (Z.min a b).
Proof. intros Ha Hb. unfold fmin. rewrite fltb_of_int by done. case_if; bool_prop; f_equal; lia. Qed.

Lemma fmax_of_int a b : 0 <= a < 2 ^ 53 -> 0 <= b < 2 ^ 53 -> fmax (of_int a) (of_int b) = of_int (Z.max a b).
Proof. intros Ha Hb. unfold fmax. rewrite fltb_of_int by done. case_if; bool_prop; f_equal; lia. Qed.

Example quotient_rounds : fltb (fdiv (of_int 10) (of_int 3)) (flit 34 10) = true.
Proof. vm_compute. reflexivity. Qed.
