(* ===== verification/Types.v ===== *)
(** The data the components share: schema-2.0 wide events ([pkg/event/v2]), the read
    API contract ([pkg/api/v2]) and production-context signals ([internal/signals]). *)

From S2P Require Import Prelude GoRuntime.
Open Scope Z_scope.

(** ** Wide events *)

(** [eventv2.Status] is a string type; these are its constants. *)
Definition StatusOK : string := "ok".
Definition StatusError : string := "error".
Definition StatusTimeout : string := "timeout".
Definition StatusPartial : string := "partial".
Definition StatusAborted : string := "aborted".
Definition StatusSuppressed : string := "suppressed".

Definition IsPriority (s : string) : bool :=
  String.eqb s StatusError || String.eqb s StatusTimeout ||
  String.eqb s StatusPartial || String.eqb s StatusAborted.

Definition IsFailed (s : string) : bool := IsPriority s.

Definition StepStatusOK : string := "ok".
Definition StepStatusError : string := "error".
Definition LogLevelWarn : string := "warn".
Definition LogLevelError : string := "error".

Record Anchor := mkAnchor { an_Step : string; an_ErrorCode : string; an_Kind : string }.

Record Downstream := mkDownstream { dn_Service : string; dn_Endpoint : string; dn_Kind : string }.

Record StepError := mkStepError { se_Code : string; se_Reason : string; se_Cause : string }.

Record Step := mkStep {
  st_Name : string;
  st_SpanID : string;
  st_StartMS : Z;
  st_DurationMS : Z;
  st_Status : string;
  st_Downstream : option Downstream;
  st_Error : option StepError
}.

Record Log := mkLog {
  lg_TsOffsetMS : Z;
  lg_Level : string;
  lg_Msg : string;
  lg_Fields : gmap string value
}.

Record ErrorRef := mkErrorRef { er_Code : string; er_Reason : string }.

Record Event := mkEvent {
  ev_SchemaVersion : string;
  ev_EventID : string;
  ev_TsStart : Time;
  ev_TsEnd : Time;
  ev_DurationMS : Z;
  ev_Kind : string;
  ev_Service : string;
  ev_Env : string;
  ev_Version : string;
  ev_TraceID : string;
  ev_SpanID : string;
  ev_ParentSpanID : string;
  ev_Status : string;
  ev_Anchor : option Anchor;
  ev_Steps : list Step;
  ev_Logs : list Log;
  ev_Fields : gmap string value;
  ev_Errors : list ErrorRef
}.

(** A bare event for concrete examples. *)
Definition sample_event (id trace service status : string) (start end_ : Time)
    (parent : string) (anchor : option Anchor) (steps : list Step) : Event :=
  mkEvent "2.0" id start end_ (Milliseconds (end_ - start)) "http" service "prod" "" trace
    "span" parent status anchor steps [] ∅ [].

(** ** Read API contract *)

Definition LinkageCausal : string := "causal".
Definition LinkageTimestampFallback : string := "timestamp_fallback".
Definition LinkageDirect : string := "direct".
Definition BlastViewSingleFamily : string := "single_family".
Definition BlastViewCrossFamily : string := "cross_family".

Record TraceSummary := mkTraceSummary {
  ts_TraceID : string;
  ts_TsStart : Time;
  ts_DurationMS : Z;
  ts_Services : list string;
  ts_Status : string;
  ts_AnchorSummary : option string
}.

Record StoryAnchor := mkStoryAnchor { sa_Step : string; sa_ErrorCode : string }.

Record StoryStep := mkStoryStep {
  ss_Name : string;
  ss_StartMS : Z;
  ss_DurationMS : Z;
  ss_Status : string;
  ss_ErrorCode : string;
  ss_ErrorMsg : string
}.

Record StoryLog := mkStoryLog {
  sl_TsOffsetMS : Z;
  sl_Level : string;
  sl_Msg : string;
  sl_Step : string
}.

Record StoryDownstream := mkStoryDownstream { sd_Step : string; sd_Service : string; sd_Endpoint : string }.

Record StoryResponse := mkStoryResponse {
  sr_TraceID : string;
  sr_Service : string;
  sr_Route : string;
  sr_Status : string;
  sr_Anchor : option StoryAnchor;
  sr_Path : list StoryStep;
  sr_Logs : list StoryLog;
  sr_Downstream : list StoryDownstream;
  sr_Linkage : string
}.

Record ErrorFamily := mkErrorFamily { ef_Service : string; ef_Step : string; ef_ErrorCode : string }.

#[export] Instance ErrorFamily_eq_dec : EqDecision ErrorFamily.
Proof. solve_decision. Defined.

#[export] Instance ErrorFamily_countable : Countable ErrorFamily.
Proof.
  apply (inj_countable' (fun f => (ef_Service f, ef_Step f, ef_ErrorCode f))
                        (fun '(s, p, c) => mkErrorFamily s p c)).
  by intros [].
Defined.

Record ErrorRow := mkErrorRow {
  row_ErrorFamily : ErrorFamily;
  row_Count : Z;
  row_AffectedUsers : option Z;
  row_AffectedTraces : Z;
  row_SampleTraces : list string
}.

Record BlastKey := mkBlastKey { bk_Service : string; bk_Step : string; bk_ErrorCode : string }.

Record BlastRadiusResponse := mkBlastRadiusResponse {
  br_Key : BlastKey;
  br_ViewMode : string;
  br_Window : string;
  br_AffectedRequests : Z;
  br_AffectedUsers : option Z;
  br_AffectedServices : Z;
  br_TopServices : list string;
  br_SampleTraces : list string
}.

(** ** Signals *)

Definition TypeDeploy : string := "deploy".
Definition TypeRuntime : string := "runtime".
Definition TypeHealthcheck : string := "healthcheck".
Definition TypeDependency : string := "dependency".
Definition TypeConfig : string := "config".
Definition TypeAlert : string := "alert".

Definition Type_Valid (t : string) : bool :=
  bool_decide (t ∈ [TypeDeploy; TypeRuntime; TypeHealthcheck; TypeDependency; TypeConfig; TypeAlert]).

Definition SeverityInfo : string := "info".
Definition SeverityWarning : string := "warning".
Definition SeverityCritical : string := "critical".

Definition Severity_Valid (s : string) : bool :=
  bool_decide (s ∈ [SeverityInfo; SeverityWarning; SeverityCritical]).

Record Signal := mkSignal {
  sig_SignalID : string;
  sig_Type : string;
  sig_Source : string;
  sig_Service : string;
  sig_Env : string;
  sig_Severity : string;
  sig_Reason : string;
  sig_Message : string;
  sig_Resource : gmap string value;
  sig_Metadata : gmap string value;
  sig_Timestamp : Time;
  sig_ReceivedAt : Time;
  sig_Extra : gmap string value
}.

Definition sample_signal (id typ service severity : string) (ts : Time) (meta : gmap string value) : Signal :=
  mkSignal id typ "src" service "prod" severity "reason" "" ∅ meta ts ts ∅.
