(* ===== verification/Family.v ===== *)
(** Error-family keys ([pkg/api/v2/types.go], [internal/ingest/v2/errorfamily.go]): the
    "service:step:code" text form operators type and copy, its escaping and its parser.
    The parser inverts the formatter on families without backslashes; a backslash
    in a component is not escaped, and such a key does not parse back. *)

From S2P Require Import Prelude GoRuntime Types.
Open Scope Z_scope.

(** [strings.ReplaceAll(s, ":", "\:")]. *)
Fixpoint escapeErrorFamilyPart (s : string) : string :=
  match s with
  | EmptyString => ""
  | String c s' =>
    if Ascii.eqb c ":"%char then String "\"%char (String ":"%char (escapeErrorFamilyPart s'))
    else String c (escapeErrorFamilyPart s')
  end.

Definition FormatErrorFamily (f : ErrorFamily) : string :=
  escapeErrorFamilyPart (ef_Service f) +:+ ":" +:+ escapeErrorFamilyPart (ef_Step f) +:+ ":" +:+
  escapeErrorFamilyPart (ef_ErrorCode f).

Definition FormatEventErrorFamily (ev : option Event) : option string :=
  match ev with
  | None => None
  | Some ev =>
    match ev_Anchor ev with
    | None => None
    | Some a => Some (FormatErrorFamily (mkErrorFamily (ev_Service ev) (an_Step a) (an_ErrorCode a)))
    end
  end.

(** The scanning loop: [parts] so far, the current part (both in order), the escape
    flag.  The delimiters are ASCII, so scanning bytes and scanning runes agree. *)
Fixpoint parse_family_loop (s : string) (parts : list string) (current : string) (escaped : bool)
    : option (list string) :=
  match s with
  | EmptyString => if escaped then None else Some (parts ++ [current])
  | String r s' =>
    if escaped then
      if negb (Ascii.eqb r ":"%char) && negb (Ascii.eqb r "\"%char) then None
      else parse_family_loop s' parts (current +:+ String r "") false
    else if Ascii.eqb r "\"%char then parse_family_loop s' parts current true
    else if Ascii.eqb r ":"%char then parse_family_loop s' (parts ++ [current]) "" false
    else parse_family_loop s' parts (current +:+ String r "") false
  end.

Definition ParseErrorFamily (s : string) : option BlastKey :=
  match parse_family_loop s [] "" false with
  | Some [a; b; c] =>
    if String.eqb a "" || String.eqb b "" || String.eqb c "" then None else Some (mkBlastKey a b c)
  | _ => None
  end.

(** ** Lemmas *)

Definition no_backslash (s : string) : bool := negb (Contains s "\").

Definition family_ok (f : ErrorFamily) : bool :=
  no_backslash (ef_Service f) && no_backslash (ef_Step f) && no_backslash (ef_ErrorCode f) &&
  negb (String.eqb (ef_Service f) "") && negb (String.eqb (ef_Step f) "") &&
  negb (String.eqb (ef_ErrorCode f) "").

Lemma no_backslash_cons c s :
  no_backslash (String c s) = true -> Ascii.eqb c "\"%char = false /\ no_backslash s = true.
Proof.
  unfold no_backslash. simpl. rewrite negb_orb, andb_true_iff, !negb_true_iff.
  intros [H1 H2]. split; [|done]. rewrite Ascii.eqb_neq. intros ->.
  destruct (ascii_dec "\" "\"); [by destruct s|done].
Qed.

(** Scanning an escaped part appends the part itself to the current one. *)
Lemma parse_escaped_part s rest parts current :
  no_backslash s = true ->
  parse_family_loop (escapeErrorFamilyPart s +:+ rest) parts current false
  = parse_family_loop rest parts (current +:+ s) false.
Proof.
  revert current. induction s as [|c s IH]; intros current Hs; simpl.
  - by rewrite string_app_nil_r.
  - apply no_backslash_cons in Hs as [Hc Hs].
    destruct (Ascii.eqb c ":"%char) eqn:E; rewrite !string_app_cons; simpl.
    + apply Ascii.eqb_eq in E as ->. rewrite IH by done. by rewrite string_app_assoc, string_app_cons.
    + rewrite Hc, E, IH by done. by rewrite string_app_assoc, string_app_cons.
Qed.

Lemma parse_sep rest parts current :
  parse_family_loop (":" +:+ rest) parts current false = parse_family_loop rest (parts ++ [current]) "" false.
Proof. done. Qed.

(** The text form of an error family parses back to that family, for every family
    whose components are non-empty and contain no backslash (colons included). *)
Theorem ParseErrorFamily_FormatErrorFamily (f : ErrorFamily) :
  family_ok f = true ->
  ParseErrorFamily (FormatErrorFamily f) = Some (mkBlastKey (ef_Service f) (ef_Step f) (ef_ErrorCode f)).
Proof.
  unfold family_ok. rewrite !andb_true_iff, !negb_true_iff.
  intros (((((Hs & Hp) & Hc) & Es) & Ep) & Ec). unfold ParseErrorFamily, FormatErrorFamily.
  rewrite (parse_escaped_part _ _ _ _ Hs), parse_sep, (parse_escaped_part _ _ _ _ Hp), parse_sep.
  rewrite <- (string_app_nil_r (escapeErrorFamilyPart (ef_ErrorCode f))), (parse_escaped_part _ _ _ _ Hc).
  simpl. by rewrite !string_app_nil_l, Es, Ep, Ec.
Qed.

Lemma ParseErrorFamily_FormatErrorFamily_witness :
  family_ok (mkErrorFamily "pay:ment" "charge" "PMT_502") = true /\
  ParseErrorFamily (FormatErrorFamily (mkErrorFamily "pay:ment" "charge" "PMT_502"))
  = Some (mkBlastKey "pay:ment" "charge" "PMT_502").
Proof.
  split; [vm_compute; reflexivity|].
  apply (ParseErrorFamily_FormatErrorFamily (mkErrorFamily "pay:ment" "charge" "PMT_502")).
  vm_compute; reflexivity.
Defined.

(** A backslash in a component is written unescaped, so the key does not come
    back: it fails to parse, or, after an even run of backslashes, parses as the key
    of another family. *)
Theorem FormatErrorFamily_backslash_lost :
  ParseErrorFamily (FormatErrorFamily (mkErrorFamily "a\b" "s" "c")) = None /\
  ParseErrorFamily (FormatErrorFamily (mkErrorFamily "a\\" "s" "c")) = Some (mkBlastKey "a\" "s" "c").
Proof. split; vm_compute; reflexivity. Qed.
