(* ===== verification/Index.v ===== *)
(** The hot index of the v2 reader ([internal/ingest/v2/index.go]): events by id and by
    trace, and the service / error-family / call aggregates.  Every reachable index
    is the index of a duplicate-free list of events, whatever inserts and prunes
    led to it; pruning is the same as never having inserted the pruned events. *)

From S2P Require Import Prelude GoRuntime Types.
Open Scope Z_scope.

(** ** State *)

Record ErrorKey := mkErrorKey { ek_Service : string; ek_Step : string; ek_ErrorCode : string }.
Record CallKey := mkCallKey { ck_From : string; ck_To : string; ck_Endpoint : string }.

#[export] Instance ErrorKey_eq_dec : EqDecision ErrorKey.
Proof. solve_decision. Defined.
#[export] Instance ErrorKey_countable : Countable ErrorKey.
Proof.
  apply (inj_countable' (fun f => (ek_Service f, ek_Step f, ek_ErrorCode f))
                        (fun '(s, p, c) => mkErrorKey s p c)).
  by intros [].
Defined.
#[export] Instance CallKey_eq_dec : EqDecision CallKey.
Proof. solve_decision. Defined.
#[export] Instance CallKey_countable : Countable CallKey.
Proof.
  apply (inj_countable' (fun f => (ck_From f, ck_To f, ck_Endpoint f))
                        (fun '(s, p, c) => mkCallKey s p c)).
  by intros [].
Defined.

Record serviceNode := mkServiceNode { sn_Name : string; sn_FirstSeen : Time; sn_LastSeen : Time }.

Record errorNode := mkErrorNode {
  en_Key : ErrorKey; en_FirstSeen : Time; en_LastSeen : Time; en_Count : Z }.

Record callEdge := mkCallEdge {
  ce_Key : CallKey; ce_FirstSeen : Time; ce_LastSeen : Time; ce_Count : Z }.

Record IndexSizes := mkIndexSizes {
  sz_Events : Z; sz_Traces : Z; sz_Services : Z; sz_Errors : Z; sz_Calls : Z }.

Record RecentIndex := mkRecentIndex {
  byID : gmap string Event;
  byTrace : gmap string (list Event);
  services : gmap string serviceNode;
  errors : gmap ErrorKey errorNode;
  calls : gmap CallKey callEdge
}.

Definition NewRecentIndex : RecentIndex := mkRecentIndex ∅ ∅ ∅ ∅ ∅.

(** ** Copying events *)

(** [cloneMap] returns nil for an empty map, so a nested empty map becomes a nil one. *)
Fixpoint cloneValue (v : value) : value :=
  match v with
  | VMap (Some m) => if bool_decide (size m = 0)%nat then VMap None else VMap (Some (cloneValue <$> m))
  | VList l => VList (cloneValue <$> l)
  | _ => v
  end.

Definition cloneMap (m : gmap string value) : gmap string value := cloneValue <$> m.

Definition cloneLog (l : Log) : Log :=
  mkLog (lg_TsOffsetMS l) (lg_Level l) (lg_Msg l) (cloneMap (lg_Fields l)).

Definition cloneEvent (ev : Event) : Event :=
  mkEvent (ev_SchemaVersion ev) (ev_EventID ev) (ev_TsStart ev) (ev_TsEnd ev) (ev_DurationMS ev)
    (ev_Kind ev) (ev_Service ev) (ev_Env ev) (ev_Version ev) (ev_TraceID ev) (ev_SpanID ev)
    (ev_ParentSpanID ev) (ev_Status ev) (ev_Anchor ev) (ev_Steps ev) (cloneLog <$> ev_Logs ev)
    (cloneMap (ev_Fields ev)) (ev_Errors ev).

(** ** Aggregates *)

Definition touchRange (first last ts : Time) : Time * Time :=
  if IsZero ts then (first, last)
  else (if IsZero first || Before ts first then ts else first,
        if IsZero last || After ts last then ts else last).

Definition touchServiceLocked (idx : RecentIndex) (service : string) (ts : Time) : RecentIndex :=
  if String.eqb service "" then idx
  else
    let node := match services idx !! service with
                | None => mkServiceNode service ts time_zero
                | Some n => n
                end in
    let '(f, l) := touchRange (sn_FirstSeen node) (sn_LastSeen node) ts in
    mkRecentIndex (byID idx) (byTrace idx)
      (<[service := mkServiceNode (sn_Name node) f l]> (services idx)) (errors idx) (calls idx).

Definition touchError (idx : RecentIndex) (key : ErrorKey) (ts : Time) : RecentIndex :=
  let node := match errors idx !! key with
              | None => mkErrorNode key ts time_zero 0
              | Some n => n
              end in
  let '(f, l) := touchRange (en_FirstSeen node) (en_LastSeen node) ts in
  mkRecentIndex (byID idx) (byTrace idx) (services idx)
    (<[key := mkErrorNode (en_Key node) f l (en_Count node + 1)]> (errors idx)) (calls idx).

Definition touchCall (idx : RecentIndex) (key : CallKey) (ts : Time) : RecentIndex :=
  let edge := match calls idx !! key with
              | None => mkCallEdge key ts time_zero 0
              | Some e => e
              end in
  let '(f, l) := touchRange (ce_FirstSeen edge) (ce_LastSeen edge) ts in
  mkRecentIndex (byID idx) (byTrace idx) (services idx) (errors idx)
    (<[key := mkCallEdge (ce_Key edge) f l (ce_Count edge + 1)]> (calls idx)).

Definition applyAggregatesLocked (idx : RecentIndex) (ev : Event) : RecentIndex :=
  let ts := if IsZero (ev_TsEnd ev) then ev_TsStart ev else ev_TsEnd ev in
  let idx := touchServiceLocked idx (ev_Service ev) ts in
  if String.eqb (ev_Status ev) StatusSuppressed then idx
  else
    let idx :=
      match ev_Anchor ev with
      | Some a =>
        if IsFailed (ev_Status ev)
        then touchError idx (mkErrorKey (ev_Service ev) (an_Step a) (an_ErrorCode a)) ts
        else idx
      | None => idx
      end in
    foldl (fun idx step =>
      match st_Downstream step with
      | None => idx
      | Some d =>
        if String.eqb (dn_Service d) "" then idx
        else touchCall idx (mkCallKey (ev_Service ev) (dn_Service d) (dn_Endpoint d)) ts
      end) idx (ev_Steps ev).

(** ** Operations *)

Definition Insert (idx : RecentIndex) (ev : option Event) : RecentIndex * bool :=
  match ev with
  | None => (idx, false)
  | Some ev =>
    if String.eqb (ev_EventID ev) "" then (idx, false)
    else match byID idx !! ev_EventID ev with
         | Some _ => (idx, false)
         | None =>
           let cp := cloneEvent ev in
           let idx := mkRecentIndex (<[ev_EventID cp := cp]> (byID idx))
             (<[ev_TraceID cp := default [] (byTrace idx !! ev_TraceID cp) ++ [cp]]> (byTrace idx))
             (services idx) (errors idx) (calls idx) in
           (applyAggregatesLocked idx cp, true)
         end
  end.

Definition GetByID (idx : RecentIndex) (eventID : string) : option Event :=
  if String.eqb eventID "" then None else cloneEvent <$> (byID idx !! eventID).

Definition TraceEvents (idx : RecentIndex) (traceID : string) : list Event :=
  if String.eqb traceID "" then [] else cloneEvent <$> default [] (byTrace idx !! traceID).

Definition SnapshotEvents (it : MapIter) (idx : RecentIndex) : list Event := (mrange it 0 (byID idx)).*2.

Definition SnapshotTrace (idx : RecentIndex) (traceID : string) : list Event :=
  if String.eqb traceID "" then [] else default [] (byTrace idx !! traceID).

Definition SnapshotTraces (idx : RecentIndex) : gmap string (list Event) := byTrace idx.

Definition Sizes (idx : RecentIndex) : IndexSizes :=
  mkIndexSizes (Z.of_nat (size (byID idx))) (Z.of_nat (size (byTrace idx)))
    (Z.of_nat (size (services idx))) (Z.of_nat (size (errors idx))) (Z.of_nat (size (calls idx))).

(** The body of the two range loops of [PruneOlderThan]. *)
Definition prune_events (cutoff : Time) (traceID : string) (acc : Z * gmap string (list Event))
    (events : list Event) : Z * gmap string (list Event) :=
  foldl (fun '(pruned, kept) ev =>
    if Before (ev_TsEnd ev) cutoff then (pruned + 1, kept)
    else (pruned, <[traceID := default [] (kept !! traceID) ++ [ev]]> kept)) acc events.

Definition rebuild_trace (idx : RecentIndex) (kv : string * list Event) : RecentIndex :=
  match kv.2 with
  | [] => idx
  | _ =>
    foldl (fun idx ev =>
      applyAggregatesLocked
        (mkRecentIndex (<[ev_EventID ev := ev]> (byID idx)) (byTrace idx)
           (services idx) (errors idx) (calls idx)) ev)
      (mkRecentIndex (byID idx) (<[kv.1 := kv.2]> (byTrace idx)) (services idx) (errors idx) (calls idx))
      kv.2
  end.

Definition PruneOlderThan (it : MapIter) (idx : RecentIndex) (cutoff : Time) : RecentIndex * Z :=
  if IsZero cutoff then (idx, 0)
  else
    let '(pruned, keptByTrace) :=
      foldl (fun acc '(traceID, events) => prune_events cutoff traceID acc events) (0, ∅)
        (mrange it 0 (byTrace idx)) in
    if pruned =? 0 then (idx, 0)
    else (foldl rebuild_trace NewRecentIndex (mrange it 1 keptByTrace), pruned).

(** ** Aggregates as independent touches *)

(** An event updates the aggregates by a list of single-entry updates that commute. *)
Inductive touch :=
| TService (service : string) (ts : Time)
| TError (key : ErrorKey) (ts : Time)
| TCall (key : CallKey) (ts : Time).

Definition touches (ev : Event) : list touch :=
  let ts := if IsZero (ev_TsEnd ev) then ev_TsStart ev else ev_TsEnd ev in
  TService (ev_Service ev) ts ::
  if String.eqb (ev_Status ev) StatusSuppressed then []
  else
    (match ev_Anchor ev with
     | Some a => if IsFailed (ev_Status ev)
                 then [TError (mkErrorKey (ev_Service ev) (an_Step a) (an_ErrorCode a)) ts] else []
     | None => []
     end) ++
    (ev_Steps ev ≫= fun step =>
      match st_Downstream step with
      | None => []
      | Some d => if String.eqb (dn_Service d) "" then []
                  else [TCall (mkCallKey (ev_Service ev) (dn_Service d) (dn_Endpoint d)) ts]
      end).

Definition apply_touch (idx : RecentIndex) (t : touch) : RecentIndex :=
  match t with
  | TService s ts => touchServiceLocked idx s ts
  | TError k ts => touchError idx k ts
  | TCall k ts => touchCall idx k ts
  end.

Lemma applyAggregates_touches idx ev :
  applyAggregatesLocked idx ev = foldl apply_touch idx (touches ev).
Proof.
  unfold applyAggregatesLocked, touches. simpl. set (ts := if IsZero _ then _ else _).
  destruct (String.eqb (ev_Status ev) StatusSuppressed); [done|].
  rewrite foldl_app.
  match goal with |- foldl _ ?i _ = foldl _ ?j _ => assert (i = j) as -> end.
  { destruct (ev_Anchor ev); [|done]. by destruct (IsFailed _). }
  match goal with |- foldl _ ?i _ = _ => generalize i end. intros j.
  revert j. induction (ev_Steps ev) as [|st sts IH]; intros j; simpl; [done|].
  rewrite foldl_app, IH. destruct (st_Downstream st) as [d|]; [|done].
  by destruct (String.eqb (dn_Service d) "").
Qed.

Lemma touchRange_comm f l x y :
  let r1 := touchRange f l x in let r2 := touchRange f l y in
  touchRange r1.1 r1.2 y = touchRange r2.1 r2.2 x.
Proof.
  unfold touchRange, IsZero, Before, After. simpl.
  destruct (Z.eqb_spec x 0), (Z.eqb_spec y 0); simpl; try done.
  f_equal.
  - destruct (Z.eqb_spec f 0), (Z.ltb_spec x f), (Z.ltb_spec y f); simpl; solve_ite.
  - destruct (Z.eqb_spec l 0), (Z.ltb_spec l x), (Z.ltb_spec l y); simpl; solve_ite.
Qed.

(** A map update that rewrites one entry from its old value. *)
Definition upd `{Countable K} {V} (f : option V -> V) (k : K) (m : gmap K V) : gmap K V :=
  <[k := f (m !! k)]> m.

Lemma upd_comm `{Countable K} {V} (f g : option V -> V) (k k' : K) (m : gmap K V) :
  (k = k' -> forall o, g (Some (f o)) = f (Some (g o))) ->
  upd g k' (upd f k m) = upd f k (upd g k' m).
Proof.
  intros Hc. unfold upd. destruct (decide (k = k')) as [->|Hne].
  - by rewrite !lookup_insert_eq, !insert_insert_eq, Hc.
  - rewrite !lookup_insert_ne by done. by rewrite insert_insert_ne.
Qed.

Definition node_touch (s : string) (ts : Time) (o : option serviceNode) : serviceNode :=
  let n := default (mkServiceNode s ts time_zero) o in
  let r := touchRange (sn_FirstSeen n) (sn_LastSeen n) ts in mkServiceNode (sn_Name n) r.1 r.2.

Definition error_touch (k : ErrorKey) (ts : Time) (o : option errorNode) : errorNode :=
  let n := default (mkErrorNode k ts time_zero 0) o in
  let r := touchRange (en_FirstSeen n) (en_LastSeen n) ts in mkErrorNode (en_Key n) r.1 r.2 (en_Count n + 1).

Definition call_touch (k : CallKey) (ts : Time) (o : option callEdge) : callEdge :=
  let n := default (mkCallEdge k ts time_zero 0) o in
  let r := touchRange (ce_FirstSeen n) (ce_LastSeen n) ts in mkCallEdge (ce_Key n) r.1 r.2 (ce_Count n + 1).

(** Touching a fresh entry: its first-seen time starts at the touched time. *)
Lemma touchRange_fresh x : touchRange x time_zero x = (x, x).
Proof.
  unfold touchRange, IsZero, Before, After, time_zero. destruct (Z.eqb_spec x 0) as [->|]; simpl; [done|].
  by rewrite Z.ltb_irrefl.
Qed.

Lemma touchRange_fresh_comm x y :
  touchRange x x y = touchRange y y x.
Proof.
  unfold touchRange, IsZero, Before, After.
  destruct (Z.eqb_spec x 0), (Z.eqb_spec y 0); subst; simpl; try done. f_equal; solve_ite.
Qed.

Lemma node_touch_comm s x y o :
  node_touch s y (Some (node_touch s x o)) = node_touch s x (Some (node_touch s y o)).
Proof.
  unfold node_touch. destruct o as [[n f l]|]; simpl.
  - by rewrite touchRange_comm.
  - rewrite !touchRange_fresh. simpl. by rewrite touchRange_fresh_comm.
Qed.

Lemma error_touch_comm k x y o :
  error_touch k y (Some (error_touch k x o)) = error_touch k x (Some (error_touch k y o)).
Proof.
  unfold error_touch. destruct o as [[n f l c]|]; simpl.
  - by rewrite touchRange_comm.
  - rewrite !touchRange_fresh. simpl. by rewrite touchRange_fresh_comm.
Qed.

Lemma call_touch_comm k x y o :
  call_touch k y (Some (call_touch k x o)) = call_touch k x (Some (call_touch k y o)).
Proof.
  unfold call_touch. destruct o as [[n f l c]|]; simpl.
  - by rewrite touchRange_comm.
  - rewrite !touchRange_fresh. simpl. by rewrite touchRange_fresh_comm.
Qed.

(** The three aggregate maps, apart from the event maps. *)
Definition aggs : Type := gmap string serviceNode * gmap ErrorKey errorNode * gmap CallKey callEdge.

Definition agg_touch (a : aggs) (t : touch) : aggs :=
  let '(s, e, c) := a in
  match t with
  | TService n ts => (if String.eqb n "" then s else upd (node_touch n ts) n s, e, c)
  | TError k ts => (s, upd (error_touch k ts) k e, c)
  | TCall k ts => (s, e, upd (call_touch k ts) k c)
  end.

Definition agg0 : aggs := (∅, ∅, ∅).
Definition agg_of (l : list touch) : aggs := foldl agg_touch agg0 l.

Lemma agg_touch_comm a t u : agg_touch (agg_touch a t) u = agg_touch (agg_touch a u) t.
Proof.
  destruct a as [[s e] c], t as [n x|k x|k x], u as [n' y|k' y|k' y]; simpl; try done.
  - destruct (String.eqb_spec n ""), (String.eqb_spec n' ""); try done. do 2 f_equal.
    apply upd_comm. intros ->. apply node_touch_comm.
  - f_equal. f_equal. apply upd_comm. intros ->. apply error_touch_comm.
  - f_equal. apply upd_comm. intros ->. apply call_touch_comm.
Qed.

Lemma agg_of_perm l1 l2 : l1 ≡ₚ l2 -> agg_of l1 = agg_of l2.
Proof. apply foldl_perm, agg_touch_comm. Qed.

Definition mk_index (ids : gmap string Event) (tr : gmap string (list Event)) (a : aggs) : RecentIndex :=
  mkRecentIndex ids tr a.1.1 a.1.2 a.2.

Definition index_aggs (idx : RecentIndex) : aggs := (services idx, errors idx, calls idx).

Lemma apply_touch_agg idx t :
  apply_touch idx t = mk_index (byID idx) (byTrace idx) (agg_touch (index_aggs idx) t).
Proof.
  destruct idx as [i tr s e c], t as [n x|k x|k x]; simpl.
  - unfold touchServiceLocked, mk_index; simpl. destruct (String.eqb n ""); [done|].
    unfold upd, node_touch; simpl. by destruct (s !! n); simpl; destruct (touchRange _ _ _).
  - unfold touchError, mk_index, upd, error_touch; simpl. by destruct (e !! k); simpl; destruct (touchRange _ _ _).
  - unfold touchCall, mk_index, upd, call_touch; simpl. by destruct (c !! k); simpl; destruct (touchRange _ _ _).
Qed.

Lemma apply_touches_agg ts i tr a :
  foldl apply_touch (mk_index i tr a) ts = mk_index i tr (foldl agg_touch a ts).
Proof.
  revert a. induction ts as [|t ts IH]; intros a; [done|]. cbn [foldl]. rewrite apply_touch_agg.
  destruct a as [[s e] c]. apply IH.
Qed.

Lemma applyAggregates_agg i tr a ev :
  applyAggregatesLocked (mk_index i tr a) ev = mk_index i tr (foldl agg_touch a (touches ev)).
Proof. by rewrite applyAggregates_touches, apply_touches_agg. Qed.

(** ** The index of a list of events *)

Definition ins_id (m : gmap string Event) (ev : Event) : gmap string Event := <[ev_EventID ev := ev]> m.
Definition ins_trace (m : gmap string (list Event)) (ev : Event) : gmap string (list Event) :=
  <[ev_TraceID ev := default [] (m !! ev_TraceID ev) ++ [ev]]> m.

(** What an index holding exactly the events [evs], inserted in this order, contains. *)
Definition index_of (evs : list Event) : RecentIndex :=
  mk_index (foldl ins_id ∅ evs) (foldl ins_trace ∅ evs) (agg_of (evs ≫= touches)).

Lemma byID_foldl m evs id ev :
  NoDup (ev_EventID <$> evs) ->
  (foldl ins_id m evs) !! id = Some ev <->
  ((ev ∈ evs /\ ev_EventID ev = id) \/ ((id ∉ (ev_EventID <$> evs)) /\ m !! id = Some ev)).
Proof.
  revert m. induction evs as [|e evs IH]; intros m Hnd; simpl.
  - set_solver.
  - apply NoDup_cons in Hnd as [Hni Hnd]. rewrite IH by done. unfold ins_id.
    rewrite not_elem_of_cons, elem_of_cons, lookup_insert. case_decide as Hd.
    + subst id. split; naive_solver.
    + naive_solver.
Qed.

Lemma byID_index_of evs id ev :
  NoDup (ev_EventID <$> evs) ->
  byID (index_of evs) !! id = Some ev <-> (ev ∈ evs /\ ev_EventID ev = id).
Proof. intros Hnd. unfold index_of; simpl. rewrite byID_foldl by done. rewrite lookup_empty. naive_solver. Qed.

Lemma byID_perm evs evs' :
  NoDup (ev_EventID <$> evs) -> evs ≡ₚ evs' -> foldl ins_id ∅ evs = foldl ins_id ∅ evs'.
Proof.
  intros Hnd Hp. apply map_eq. intros id. apply option_eq. intros ev.
  rewrite !byID_foldl by (rewrite <- ?Hp; done). rewrite lookup_empty. by rewrite Hp.
Qed.

Lemma NoDup_events evs : NoDup (ev_EventID <$> evs) -> NoDup evs.
Proof. apply NoDup_fmap_1. Qed.

Definition in_trace (t : string) (ev : Event) : bool := String.eqb (ev_TraceID ev) t.

Definition trace_entry (t : string) (evs : list Event) : option (list Event) :=
  match List.filter (in_trace t) evs with [] => None | l => Some l end.

Lemma byTrace_foldl m evs t :
  (foldl ins_trace m evs) !! t =
  match List.filter (in_trace t) evs with
  | [] => m !! t
  | l => Some (default [] (m !! t) ++ l)
  end.
Proof.
  revert m. induction evs as [|e evs IH]; intros m; simpl; [done|].
  rewrite IH. unfold ins_trace, in_trace at 2. destruct (String.eqb_spec (ev_TraceID e) t) as [->|Hne].
  - rewrite lookup_insert_eq. simpl. destruct (List.filter (in_trace t) evs); [done|].
    by rewrite <- app_assoc.
  - by rewrite lookup_insert_ne.
Qed.

Lemma byTrace_index_of evs t : byTrace (index_of evs) !! t = trace_entry t evs.
Proof. unfold index_of, trace_entry; simpl. rewrite byTrace_foldl, lookup_empty. by destruct (List.filter _ _). Qed.

Lemma index_of_snoc evs ev :
  index_of (evs ++ [ev]) =
  applyAggregatesLocked (mk_index (ins_id (byID (index_of evs)) ev) (ins_trace (byTrace (index_of evs)) ev)
                           (index_aggs (index_of evs))) ev.
Proof.
  rewrite applyAggregates_agg. unfold index_of, agg_of. rewrite bind_app, !foldl_app. simpl.
  rewrite app_nil_r. unfold index_aggs; simpl.
  by destruct (foldl agg_touch agg0 (evs ≫= touches)) as [[s e] c].
Qed.

(** *** Snapshots *)

Lemma SnapshotEvents_perm it evs :
  NoDup (ev_EventID <$> evs) -> SnapshotEvents it (index_of evs) ≡ₚ evs.
Proof.
  intros Hnd. unfold SnapshotEvents. pose proof (NoDup_fst_mrange it 0 (byID (index_of evs))) as Hk.
  assert (Hid : forall kv, kv ∈ mrange it 0 (byID (index_of evs)) -> kv.2 ∈ evs /\ ev_EventID kv.2 = kv.1).
  { intros [k v] Hin. apply elem_of_mrange in Hin. by apply byID_index_of in Hin. }
  apply NoDup_Permutation; [|by apply NoDup_events|].
  - apply NoDup_fmap_1 with (f := ev_EventID). rewrite <- list_fmap_compose.
    assert (Heq : (ev_EventID ∘ snd) <$> mrange it 0 (byID (index_of evs)) = (mrange it 0 (byID (index_of evs))).*1).
    { apply list_fmap_ext. intros i kv Hi. apply Hid. by eapply list_elem_of_lookup_2. }
    by rewrite Heq.
  - intros ev. rewrite list_elem_of_fmap. split.
    + intros (kv & -> & Hin). by apply Hid.
    + intros Hin. exists (ev_EventID ev, ev). split; [done|]. apply elem_of_mrange. by apply byID_index_of.
Qed.

(** *** Insertion *)

Lemma Insert_new evs ev :
  NoDup (ev_EventID <$> evs) -> ev_EventID ev <> "" -> ev_EventID ev ∉ ev_EventID <$> evs ->
  Insert (index_of evs) (Some ev) = (index_of (evs ++ [cloneEvent ev]), true).
Proof.
  intros Hnd Hne Hni. unfold Insert. rewrite (proj2 (String.eqb_neq _ _)) by done.
  destruct (byID (index_of evs) !! ev_EventID ev) as [e'|] eqn:E.
  - apply byID_index_of in E as [Hin Hid]; [|done]. destruct Hni. rewrite <- Hid.
    by apply list_elem_of_fmap_2.
  - rewrite index_of_snoc. done.
Qed.

Lemma Insert_duplicate evs ev :
  NoDup (ev_EventID <$> evs) -> ev_EventID ev ∈ ev_EventID <$> evs ->
  Insert (index_of evs) (Some ev) = (index_of evs, false).
Proof.
  intros Hnd Hin. unfold Insert. case_if; [done|].
  apply list_elem_of_fmap_1 in Hin as (e & Hid & He).
  assert (Hl : byID (index_of evs) !! ev_EventID ev = Some e) by by apply byID_index_of.
  by rewrite Hl.
Qed.

(** *** Pruning *)

Definition keep (cutoff : Time) (ev : Event) : bool := negb (Before (ev_TsEnd ev) cutoff).
Definition dropped (cutoff : Time) (evs : list Event) : Z :=
  Z.of_nat (length (List.filter (fun ev => negb (keep cutoff ev)) evs)).

Lemma keep_false cutoff ev : Before (ev_TsEnd ev) cutoff = true -> keep cutoff ev = false.
Proof. unfold keep. by intros ->. Qed.
Lemma keep_true cutoff ev : Before (ev_TsEnd ev) cutoff = false -> keep cutoff ev = true.
Proof. unfold keep. by intros ->. Qed.

Lemma prune_events_spec cutoff t p kept events :
  prune_events cutoff t (p, kept) events =
  (p + dropped cutoff events,
   match List.filter (keep cutoff) events with
   | [] => kept
   | l => <[t := default [] (kept !! t) ++ l]> kept
   end).
Proof.
  unfold prune_events, dropped. revert p kept. induction events as [|e events IH]; intros p kept; simpl.
  - by rewrite Z.add_0_r.
  - destruct (Before (ev_TsEnd e) cutoff) eqn:E.
    + rewrite (keep_false _ _ E), IH. cbn [negb length]. rewrite Nat2Z.inj_succ. f_equal. lia.
    + rewrite (keep_true _ _ E), IH. simpl. f_equal.
      rewrite lookup_insert_eq. simpl. destruct (List.filter (keep cutoff) events); [done|].
      by rewrite insert_insert_eq, <- app_assoc.
Qed.

Definition prune_scan (cutoff : Time) (acc : Z * gmap string (list Event)) (l : list (string * list Event)) :=
  foldl (fun acc '(traceID, events) => prune_events cutoff traceID acc events) acc l.

Lemma prune_scan_count cutoff l p kept :
  (prune_scan cutoff (p, kept) l).1 = p + dropped cutoff (l ≫= snd).
Proof.
  revert p kept. induction l as [|[t events] l IH]; intros p kept; simpl.
  - unfold dropped. simpl. lia.
  - rewrite prune_events_spec, IH. unfold dropped. rewrite List.filter_app, length_app.
    change (list_bind _ _ snd l) with (l ≫= snd). lia.
Qed.

Lemma prune_scan_kept cutoff l p kept t :
  NoDup l.*1 ->
  (prune_scan cutoff (p, kept) l).2 !! t =
  match (list_to_map l : gmap string (list Event)) !! t with
  | None => kept !! t
  | Some events =>
    match List.filter (keep cutoff) events with
    | [] => kept !! t
    | r => Some (default [] (kept !! t) ++ r)
    end
  end.
Proof.
  revert p kept. induction l as [|[u events] l IH]; intros p kept Hnd; simpl.
  - by rewrite lookup_empty.
  - apply NoDup_cons in Hnd as [Hni Hnd]. rewrite prune_events_spec, IH by done.
    assert (Hl : (list_to_map l : gmap string (list Event)) !! u = None)
      by by apply not_elem_of_list_to_map_1.
    destruct (decide (u = t)) as [->|Hne].
    + rewrite Hl, lookup_insert_eq. destruct (List.filter _ events); [done|]. by rewrite lookup_insert_eq.
    + rewrite lookup_insert_ne by done. destruct (List.filter _ events); [done|].
      by rewrite lookup_insert_ne.
Qed.

(** The rebuilding loop, seen componentwise. *)
Lemma rebuild_trace_agg i tr a kv :
  rebuild_trace (mk_index i tr a) kv =
  mk_index (foldl ins_id i kv.2) (match kv.2 with [] => tr | _ => <[kv.1 := kv.2]> tr end)
    (foldl agg_touch a (kv.2 ≫= touches)).
Proof.
  unfold rebuild_trace. destruct kv as [t [|e evs]]; [done|]. simpl snd. simpl fst.
  change (mkRecentIndex (byID (mk_index i tr a)) (<[t:=e :: evs]> (byTrace (mk_index i tr a)))
    (services (mk_index i tr a)) (errors (mk_index i tr a)) (calls (mk_index i tr a)))
    with (mk_index i (<[t:=e :: evs]> tr) a).
  generalize (<[t:=e :: evs]> tr) as tr'. generalize (e :: evs) as l. clear.
  intros l tr'. revert i a. induction l as [|e l IH]; intros i a; [done|]. simpl.
  rewrite foldl_app.
  change (mkRecentIndex (<[ev_EventID e:=e]> i) tr' a.1.1 a.1.2 a.2)
    with (mk_index (ins_id i e) tr' a).
  by rewrite applyAggregates_agg, IH.
Qed.

Lemma rebuild_fold i tr a l :
  Forall (fun kv => kv.2 <> []) l ->
  foldl rebuild_trace (mk_index i tr a) l =
  mk_index (foldl ins_id i (l ≫= snd)) (foldl (fun m kv => <[kv.1 := kv.2]> m) tr l)
    (foldl agg_touch a ((l ≫= snd) ≫= touches)).
Proof.
  intros Hall. revert i tr a. induction Hall as [|kv l Hkv _ IH]; intros i tr a; [done|].
  cbn [foldl]. rewrite rebuild_trace_agg, IH. cbn [mbind list_bind].
  rewrite bind_app, !foldl_app. destruct kv as [t [|e evs]]; done.
Qed.

Section Prune.
Context (it : MapIter) (evs : list Event) (cutoff : Time).
Hypothesis Hnd : NoDup (ev_EventID <$> evs).

Let scan := prune_scan cutoff (0, ∅) (mrange it 0 (byTrace (index_of evs))).

Lemma byTrace_bind it' site :
  mrange it' site (byTrace (index_of evs)) ≫= snd ≡ₚ evs.
Proof.
  apply NoDup_Permutation; [|by apply NoDup_events|].
  - apply NoDup_bind.
    + intros [t1 l1] [t2 l2] ev H1 H2. simpl. intros E1 E2.
      apply elem_of_mrange in H1, H2. rewrite byTrace_index_of in H1, H2.
      unfold trace_entry in *. destruct (List.filter (in_trace t1) evs) eqn:F1; [done|].
      destruct (List.filter (in_trace t2) evs) eqn:F2; [done|]. simplify_eq.
      rewrite <- F1 in E1. rewrite <- F2 in E2.
      apply elem_of_lfilter in E1 as [_ E1], E2 as [_ E2]. unfold in_trace in E1, E2.
      apply String.eqb_eq in E1, E2. assert (t1 = t2) as -> by congruence. congruence.
    + intros [t l] Hin. apply elem_of_mrange in Hin. rewrite byTrace_index_of in Hin. simpl.
      unfold trace_entry in Hin. destruct (List.filter (in_trace t) evs) eqn:F; [done|].
      simplify_eq. rewrite <- F. by apply NoDup_lfilter, NoDup_events.
    + eapply NoDup_fmap_1. apply NoDup_fst_mrange.
  - intros ev. rewrite list_elem_of_bind. split.
    + intros ([t l] & Hev & Hin). apply elem_of_mrange in Hin. rewrite byTrace_index_of in Hin.
      unfold trace_entry in Hin. simpl in *. destruct (List.filter (in_trace t) evs) eqn:F; [done|].
      simplify_eq. rewrite <- F in Hev. by apply elem_of_lfilter in Hev as [].
    + intros Hev. exists (ev_TraceID ev, List.filter (in_trace (ev_TraceID ev)) evs).
      assert (Hf : ev ∈ List.filter (in_trace (ev_TraceID ev)) evs).
      { apply elem_of_lfilter. split; [done|]. unfold in_trace. by rewrite String.eqb_refl. }
      split; [done|]. apply elem_of_mrange. rewrite byTrace_index_of. unfold trace_entry.
      destruct (List.filter _ evs); [by apply elem_of_nil in Hf|done].
Qed.

Lemma scan_count : scan.1 = dropped cutoff evs.
Proof.
  unfold scan. rewrite prune_scan_count. unfold dropped. rewrite Z.add_0_l. f_equal.
  apply Permutation_length, lfilter_perm, byTrace_bind.
Qed.

Lemma scan_kept t : scan.2 !! t = byTrace (index_of (List.filter (keep cutoff) evs)) !! t.
Proof.
  unfold scan. rewrite prune_scan_kept by apply NoDup_fst_mrange.
  assert (Hm : (list_to_map (mrange it 0 (byTrace (index_of evs))) : gmap string (list Event))
               = byTrace (index_of evs)).
  { rewrite <- (list_to_map_to_list (byTrace (index_of evs))).
    apply list_to_map_proper; [apply NoDup_fst_mrange|]. rewrite list_to_map_to_list. apply mrange_perm. }
  rewrite Hm, !byTrace_index_of, lookup_empty. unfold trace_entry. rewrite lfilter_comm.
  destruct (List.filter (in_trace t) evs); [done|]. by destruct (List.filter (keep cutoff) _).
Qed.
End Prune.

Lemma foldl_insert_mrange (it : MapIter) site {V} (m : gmap string V) :
  foldl (fun m kv => <[kv.1 := kv.2]> m) ∅ (mrange it site m) = m.
Proof.
  assert (H : forall l (acc : gmap string V), NoDup l.*1 ->
    foldl (fun m kv => <[kv.1 := kv.2]> m) acc l = list_to_map l ∪ acc).
  { induction l as [|[k v] l IH]; intros acc Hnd; simpl; [by rewrite (left_id_L ∅ (∪))|].
    apply NoDup_cons in Hnd as [Hni Hnd]. rewrite IH by done.
    rewrite <- insert_union_r by by apply not_elem_of_list_to_map_1. by rewrite insert_union_l. }
  rewrite H by apply NoDup_fst_mrange. rewrite (right_id_L ∅ (∪)).
  rewrite <- (list_to_map_to_list m). apply list_to_map_proper; [apply NoDup_fst_mrange|].
  rewrite list_to_map_to_list. apply mrange_perm.
Qed.

Lemma prune_index_of (it : MapIter) (evs : list Event) (cutoff : Time) :
  NoDup (ev_EventID <$> evs) -> cutoff <> time_zero ->
  PruneOlderThan it (index_of evs) cutoff =
  (index_of (List.filter (keep cutoff) evs), dropped cutoff evs).
Proof.
  intros Hnd Hc. unfold PruneOlderThan, IsZero. rewrite (proj2 (Z.eqb_neq _ _)) by done.
  pose proof (scan_count it evs cutoff Hnd) as Hcount. pose proof (scan_kept it evs cutoff) as Hkept.
  unfold prune_scan in *. destruct (foldl _ (0, ∅) _) as [pruned kept]. simpl in *. subst pruned.
  destruct (Z.eqb_spec (dropped cutoff evs) 0) as [H0|H0].
  - rewrite H0. do 2 f_equal. symmetry. apply lfilter_all. intros ev Hev.
    destruct (keep cutoff ev) eqn:E; [done|]. unfold dropped in H0.
    assert (Hin : ev ∈ List.filter (fun ev => negb (keep cutoff ev)) evs)
      by (apply elem_of_lfilter; by rewrite E).
    destruct (List.filter (fun ev => negb (keep cutoff ev)) evs); [by apply elem_of_nil in Hin|simpl in H0; lia].
  - set (evs' := List.filter (keep cutoff) evs) in *.
    assert (Hnd' : NoDup (ev_EventID <$> evs')) by by apply NoDup_fmap_lfilter.
    assert (Hk : kept = byTrace (index_of evs')) by (apply map_eq; done).
    subst kept. f_equal. change NewRecentIndex with (mk_index ∅ ∅ agg0).
    rewrite rebuild_fold.
    + pose proof (byTrace_bind evs' Hnd' it 1) as Hp. rewrite foldl_insert_mrange.
      symmetry. unfold index_of at 1. f_equal.
      * by apply byID_perm.
      * apply agg_of_perm. by rewrite Hp.
    + apply Forall_forall. intros [t l] Hin. apply elem_of_mrange in Hin.
      rewrite byTrace_index_of in Hin. unfold trace_entry in Hin. simpl.
      destruct (List.filter (in_trace t) evs'); [done|]. by simplify_eq.
Qed.

(** C3: pruning an index at a non-zero cutoff gives exactly the index of the events that
    end at or after the cutoff, whatever order the maps are visited in, and reports
    the number of events dropped. *)
Theorem PruneOlderThan_index_of (it : MapIter) (evs : list Event) (cutoff : Time) :
  NoDup (ev_EventID <$> evs) -> cutoff <> time_zero ->
  PruneOlderThan it (index_of evs) cutoff =
  (index_of (List.filter (keep cutoff) evs), dropped cutoff evs).
Proof. apply prune_index_of. Qed.

Definition prune_example : list Event :=
  [ sample_event "e1" "t1" "pay" "error" 100 200 "" (Some (mkAnchor "charge" "PMT_502" "")) [];
    sample_event "e2" "t1" "api" "error" 110 900 "" (Some (mkAnchor "call" "GW" "")) [];
    sample_event "e3" "t2" "api" "ok" 120 950 "" None [] ].

Lemma PruneOlderThan_index_of_witness :
  NoDup (ev_EventID <$> prune_example) /\ 500 <> time_zero /\ PruneOlderThan iter_reverse (index_of prune_example) 500 =
  (index_of (List.filter (keep 500) prune_example), dropped 500 prune_example).
Proof.
  assert (H1 : NoDup (ev_EventID <$> prune_example)) by by_decide.
  assert (H2 : 500 <> time_zero) by (vm_compute; discriminate).
  split; [exact H1|]. split; [exact H2|]. exact (PruneOlderThan_index_of iter_reverse prune_example 500 H1 H2).
Defined.

(** ** Reachable indexes *)

Inductive reachable : RecentIndex -> Prop :=
| reach_new : reachable NewRecentIndex
| reach_insert idx ev : reachable idx -> reachable (Insert idx ev).1
| reach_prune it idx cutoff : reachable idx -> reachable (PruneOlderThan it idx cutoff).1.

(** Every reachable index is the index of a list of events with distinct, non-empty
    ids: no event is counted twice, by-id and by-trace agree, and the aggregates are a
    recount of the events held. *)
Theorem reachable_index_of (idx : RecentIndex) :
  reachable idx ->
  exists evs, idx = index_of evs /\ NoDup (ev_EventID <$> evs) /\ Forall (fun ev => ev_EventID ev <> "") evs.
Proof.
  induction 1 as [|idx ev _ (evs & -> & Hnd & Hne)|it idx cutoff _ (evs & -> & Hnd & Hne)].
  - exists []. repeat split; constructor.
  - destruct ev as [ev|]; [|by exists evs].
    destruct (String.eqb_spec (ev_EventID ev) "") as [He|He].
    { exists evs. unfold Insert. by rewrite He. }
    destruct (decide (ev_EventID ev ∈ ev_EventID <$> evs)) as [Hin|Hin].
    + exists evs. by rewrite Insert_duplicate.
    + exists (evs ++ [cloneEvent ev]). rewrite Insert_new by done. split; [done|]. split.
      * rewrite fmap_app. apply NoDup_app. split; [done|]. split; [|apply NoDup_singleton].
        intros x Hx ->%list_elem_of_singleton. done.
      * apply Forall_app. split; [done|]. by repeat constructor.
  - destruct (Z.eqb_spec cutoff 0) as [->|Hc]; [by exists evs|].
    exists (List.filter (keep cutoff) evs). rewrite prune_index_of by done.
    split; [done|]. split; [by apply NoDup_fmap_lfilter|].
    rewrite Forall_forall in *. intros ev Hev. apply elem_of_lfilter in Hev as [Hev _]. auto.
Qed.

Lemma reachable_index_of_witness :
  reachable (Insert (Insert NewRecentIndex (head prune_example)).1 (head prune_example)).1 /\
  exists evs, (Insert (Insert NewRecentIndex (head prune_example)).1 (head prune_example)).1 = index_of evs /\
    NoDup (ev_EventID <$> evs) /\ Forall (fun ev => ev_EventID ev <> "") evs.
Proof.
  assert (H : reachable (Insert (Insert NewRecentIndex (head prune_example)).1 (head prune_example)).1)
    by repeat constructor.
  split; [exact H|]. exact (reachable_index_of _ H).
Defined.
