(* ===== verification/TraceGraph.v ===== *)
(** Trace linkage and root-cause anchors ([internal/ingest/v2/linkage.go], [anchor.go]):
    the span graph of a trace, its causal order, and the event a trace's failure is
    attributed to.  The recursive searches run on fuel; the theorems show that the fuel
    given is always enough, that the searches compute reachability, and when the answer
    does not depend on map iteration order.  The lists come from the index, which holds
    no nil events, so the nil tests of the code have no counterpart here. *)

From S2P Require Import Prelude GoRuntime Types.
From stdpp Require Import relations.
Open Scope Z_scope.

(** ** Event identity order *)

Definition compareEventIdentity (a b : Event) : Z :=
  if negb (TimeEqual (ev_TsStart a) (ev_TsStart b)) then
    (if Before (ev_TsStart a) (ev_TsStart b) then -1 else 1)
  else if negb (String.eqb (ev_Service a) (ev_Service b)) then
    (if String.ltb (ev_Service a) (ev_Service b) then -1 else 1)
  else if String.ltb (ev_EventID a) (ev_EventID b) then -1
  else if String.ltb (ev_EventID b) (ev_EventID a) then 1
  else 0.

Definition identity_less (a b : Event) : bool := compareEventIdentity a b <? 0.

Definition sortEventsStable (events : list Event) : list Event := ssort identity_less events.

Definition orderByTimestamp (events : list Event) : list Event := sortEventsStable events.

(** ** The span graph *)

Record traceGraph := mkTraceGraph {
  children : gmap string (list Event);
  parents : gmap string string;
  depths : gmap string Z;
  usable : bool
}.

Definition children_of (g : traceGraph) (id : string) : list Event := default [] (children g !! id).
Definition parent_of (parents : gmap string string) (id : string) : string := default "" (parents !! id).
Definition depth_at (g : traceGraph) (id : string) : Z := default 0 (depths g !! id).

(** First loop of [buildTraceGraph]: events by id, and the event owning each step span. *)
Definition graph_owners (events : list Event) : gmap string Event * gmap string Event :=
  foldl (fun '(byEventID, spanOwner) ev =>
    if String.eqb (ev_EventID ev) "" then (byEventID, spanOwner)
    else (<[ev_EventID ev := ev]> byEventID,
          foldl (fun so step => if negb (String.eqb (st_SpanID step) "") then <[st_SpanID step := ev]> so else so)
            spanOwner (ev_Steps ev))) (∅, ∅) events.

(** Second loop: the parent edges, in event order.  [false] is the early return of the
    code, which hands back the edges found so far in an unusable graph. *)
Fixpoint graph_edges (spanOwner : gmap string Event) (events : list Event)
    (ch : gmap string (list Event)) (pa : gmap string string) (edgeCount : nat)
    : gmap string (list Event) * gmap string string * nat * bool :=
  match events with
  | [] => (ch, pa, edgeCount, true)
  | child :: events =>
    if String.eqb (ev_EventID child) "" || String.eqb (ev_ParentSpanID child) ""
    then graph_edges spanOwner events ch pa edgeCount
    else
      match spanOwner !! ev_ParentSpanID child with
      | None => (ch, pa, edgeCount, false)
      | Some parent =>
        if String.eqb (ev_EventID parent) (ev_EventID child) then (ch, pa, edgeCount, false)
        else graph_edges spanOwner events
               (<[ev_EventID parent := default [] (ch !! ev_EventID parent) ++ [child]]> ch)
               (<[ev_EventID child := ev_EventID parent]> pa) (S edgeCount)
      end
  end.

Fixpoint depthOf (fuel : nat) (pa : gmap string string) (ds : gmap string Z) (stack : gset string)
    (eventID : string) : option (Z * gmap string Z) :=
  match fuel with
  | O => None
  | S fuel =>
    match ds !! eventID with
    | Some d => Some (d, ds)
    | None =>
      let parentID := parent_of pa eventID in
      if String.eqb parentID "" then Some (0, <[eventID := 0]> ds)
      else if bool_decide (eventID ∈ stack) then Some (0, ds)
      else
        match depthOf fuel pa ds ({[eventID]} ∪ stack) parentID with
        | None => None
        | Some (d, ds) => Some (d + 1, <[eventID := d + 1]> ds)
        end
    end
  end.

(** Each level of [depthOf] puts a further child of the graph on the stack. *)
Definition depth_fuel (pa : gmap string string) : nat := S (S (size pa)).

Definition depth_step (pa : gmap string string) (ds : gmap string Z) (id : string) : gmap string Z :=
  match depthOf (depth_fuel pa) pa ds ∅ id with Some (_, ds) => ds | None => ds end.

Definition buildTraceGraph (it : MapIter) (events : list Event) : traceGraph :=
  let '(byEventID, spanOwner) := graph_owners events in
  let '(ch, pa, edgeCount, ok) := graph_edges spanOwner events ∅ ∅ 0 in
  if negb ok || (edgeCount =? 0)%nat then mkTraceGraph ch pa ∅ false
  else
    let ds := foldl (depth_step pa) ∅ (mrange it 0 byEventID).*1 in
    mkTraceGraph ch pa ds true.

(** ** Causal order *)

(** Ids a search can visit besides its start: the children of the graph. *)
Definition graph_ids (g : traceGraph) : gset string :=
  list_to_set (ev_EventID <$> ((map_to_list (children g)).*2 ≫= id)).

Definition descend_fuel (g : traceGraph) : nat := S (S (size (graph_ids g))).
Definition walk_fuel (g : traceGraph) : nat := descend_fuel g.

(** Visiting a list of events one after the other with the same seen-set. *)
Fixpoint walk_list (walk : gset string * list Event -> Event -> option (gset string * list Event))
    (evs : list Event) (st : gset string * list Event) : option (gset string * list Event) :=
  match evs with
  | [] => Some st
  | ev :: evs => match walk st ev with Some st => walk_list walk evs st | None => None end
  end.

(** The [walk] closure: depth-first, parents before children, each event once. *)
Fixpoint walk_trace (fuel : nat) (g : traceGraph) (st : gset string * list Event) (ev : Event)
    : option (gset string * list Event) :=
  match fuel with
  | O => None
  | S fuel =>
    let '(seen, ordered) := st in
    if bool_decide (ev_EventID ev ∈ seen) then Some st
    else walk_list (walk_trace fuel g) (sortEventsStable (children_of g (ev_EventID ev)))
           ({[ev_EventID ev]} ∪ seen, ordered ++ [ev])
  end.

Definition OrderTrace (it : MapIter) (events : list Event) : list Event * string :=
  match events with
  | [] => ([], LinkageTimestampFallback)
  | _ =>
    let graph := buildTraceGraph it events in
    if negb (usable graph) then (orderByTimestamp events, LinkageTimestampFallback)
    else
      let roots := sortEventsStable (List.filter (fun ev => String.eqb (ev_ParentSpanID ev) "") events) in
      match walk_list (walk_trace (walk_fuel graph) graph) roots (∅, []) with
      | Some (_, ordered) =>
        if negb (length ordered =? length events)%nat then (orderByTimestamp events, LinkageTimestampFallback)
        else (ordered, LinkageCausal)
      | None => (orderByTimestamp events, LinkageTimestampFallback)
      end
  end.

(** ** Anchors *)

Record AnchorResult := mkAnchorResult { ar_Event : option Event; ar_Linkage : string }.

Definition anchorCandidate (ev : Event) (excludeSuppressed : bool) : bool :=
  negb excludeSuppressed || negb (String.eqb (ev_Status ev) StatusSuppressed).

Definition graphTouchesFailed (g : traceGraph) (failed : list Event) : bool :=
  existsb (fun ev => negb (String.eqb (parent_of (parents g) (ev_EventID ev)) "")
                     || (0 <? length (children_of g (ev_EventID ev)))%nat) failed.

(** The loop over the children of a node; [rec] is the search from one child. *)
Fixpoint search_children (rec : gset string -> string -> option (bool * gset string)) (failed : gset string)
    (cs : list Event) (seen : gset string) : option (bool * gset string) :=
  match cs with
  | [] => Some (false, seen)
  | c :: cs =>
    if bool_decide (ev_EventID c ∈ failed) then Some (true, seen)
    else
      match rec seen (ev_EventID c) with
      | None => None
      | Some (true, seen) => Some (true, seen)
      | Some (false, seen) => search_children rec failed cs seen
      end
  end.

Fixpoint hasFailedDescendant (fuel : nat) (g : traceGraph) (failed : gset string) (seen : gset string)
    (eventID : string) : option (bool * gset string) :=
  match fuel with
  | O => None
  | S fuel =>
    if bool_decide (eventID ∈ seen) then Some (false, seen)
    else search_children (hasFailedDescendant fuel g failed) failed (children_of g eventID) ({[eventID]} ∪ seen)
  end.

Definition failed_ids (failed : list Event) : gset string := list_to_set (ev_EventID <$> failed).

Definition is_failed_leaf (g : traceGraph) (failed : list Event) (ev : Event) : bool :=
  match hasFailedDescendant (descend_fuel g) g (failed_ids failed) ∅ (ev_EventID ev) with
  | Some (b, _) => negb b
  | None => false
  end.

Definition leaf_less (g : traceGraph) (a b : Event) : bool :=
  let di := depth_at g (ev_EventID a) in
  let dj := depth_at g (ev_EventID b) in
  if negb (di =? dj) then dj <? di else compareEventIdentity a b <? 0.

Definition deepestFailedLeaf (g : traceGraph) (failed : list Event) : option Event :=
  let leaves := List.filter (is_failed_leaf g failed) failed in
  head (ssort (leaf_less g) leaves).

Definition selectTraceRoot (it : MapIter) (events : list Event) (excludeSuppressed : bool)
    : option Event * string :=
  let cand ev := anchorCandidate ev excludeSuppressed in
  let candidates := List.filter (fun ev => cand ev && String.eqb (ev_ParentSpanID ev) "") events in
  let '(candidates, linkage) :=
    match candidates with
    | [] =>
      let graph := buildTraceGraph it events in
      (List.filter (fun ev => cand ev && negb (String.eqb (ev_ParentSpanID ev) "") &&
                              String.eqb (parent_of (parents graph) (ev_EventID ev)) "") events,
       if usable graph then LinkageCausal else LinkageTimestampFallback)
    | _ => (candidates, LinkageTimestampFallback)
    end in
  let candidates := match candidates with [] => List.filter cand events | _ => candidates end in
  (head (sortEventsStable candidates), linkage).

Definition ResolveAnchorWithOptions (it : MapIter) (events : list Event) (excludeSuppressed : bool) : AnchorResult :=
  match events with
  | [] => mkAnchorResult None LinkageTimestampFallback
  | _ =>
    let failed := List.filter (fun ev => anchorCandidate ev excludeSuppressed && IsFailed (ev_Status ev)) events in
    match failed with
    | [] => let '(ev, linkage) := selectTraceRoot it events excludeSuppressed in mkAnchorResult ev linkage
    | _ =>
      let graph := buildTraceGraph it events in
      let fallback := mkAnchorResult (head (sortEventsStable failed)) LinkageTimestampFallback in
      if usable graph && graphTouchesFailed graph failed then
        match deepestFailedLeaf graph failed with
        | Some leaf => mkAnchorResult (Some leaf) LinkageCausal
        | None => fallback
        end
      else fallback
    end
  end.

Definition ResolveAnchor (it : MapIter) (events : list Event) : AnchorResult :=
  ResolveAnchorWithOptions it events false.

(** ** Orders of the comparators *)

#[export] Instance identity_less_by :
  LessBy identity_less (fun ev => (ev_TsStart ev, (ev_Service ev, ev_EventID ev))).
Proof. intros a b. unfold identity_less, compareEventIdentity, TimeEqual, Before. kred. solve_less. Qed.

#[export] Instance leaf_less_by g :
  LessBy (leaf_less g) (fun ev => (down (depth_at g (ev_EventID ev)), (ev_TsStart ev, (ev_Service ev, ev_EventID ev)))).
Proof.
  intros a b. unfold leaf_less. change (compareEventIdentity a b <? 0) with (identity_less a b).
  rewrite (identity_less_by a b). kred.
  destruct (Z.eqb_spec (depth_at g (ev_EventID a)) (depth_at g (ev_EventID b))) as [->|Hd]; simpl.
  - by rewrite Z.ltb_irrefl.
  - solve_less.
Qed.

(** ** A trace whose parent links form a cycle *)

Definition span_step (span : string) : Step := mkStep "call" span 0 1 "ok" None None.

Definition cyclic_trace : list Event :=
  [ sample_event "A" "t" "a" "ok" 10 20 "sb" None [span_step "sa"];
    sample_event "B" "t" "b" "ok" 11 20 "sa" None [span_step "sb"];
    sample_event "L1" "t" "c" "error" 12 20 "sa" None [];
    sample_event "L2" "t" "d" "error" 13 20 "sb" None [] ].


(** On a trace whose parent links form a cycle the anchor, that is the reported root
    cause, depends on the order in which the runtime happens to range over a map. *)
Theorem ResolveAnchor_cyclic_nondeterministic :
  exists it1 it2 : MapIter,
    ev_EventID <$> ar_Event (ResolveAnchor it1 cyclic_trace) = Some "L1" /\
    ev_EventID <$> ar_Event (ResolveAnchor it2 cyclic_trace) = Some "L2".
Proof. exists iter_canonical, iter_reverse. split; vm_compute; reflexivity. Qed.

(** ** Fuel *)

Lemma depthOf_total fuel pa ds stack id :
  stack ⊆ dom pa -> (S (size pa) < fuel + size stack)%nat ->
  is_Some (depthOf fuel pa ds stack id).
Proof.
  revert ds stack id. induction fuel as [|fuel IH]; intros ds stack id Hs Hf; simpl.
  - apply subseteq_size in Hs. rewrite size_dom in Hs. lia.
  - destruct (ds !! id); [eauto|]. case_if; [eauto|]. case_bool_decide as Hin; [eauto|].
    destruct (IH ds ({[id]} ∪ stack) (parent_of pa id)) as [[d ds'] ->]; [|..|eauto].
    + unfold parent_of in E. destruct (pa !! id) as [p|] eqn:Hp; [|done].
      apply elem_of_dom_2 in Hp. set_solver.
    + rewrite size_union by set_solver. rewrite size_singleton. lia.
Qed.

Lemma depth_fuel_enough pa ds id : is_Some (depthOf (depth_fuel pa) pa ds ∅ id).
Proof. apply depthOf_total; [set_solver|]. unfold depth_fuel. rewrite size_empty. lia. Qed.

Lemma children_in_graph g x c : c ∈ children_of g x -> ev_EventID c ∈ graph_ids g.
Proof.
  unfold children_of, graph_ids. destruct (children g !! x) as [l|] eqn:E; simpl; [|set_solver].
  intros Hc. apply elem_of_list_to_set, list_elem_of_fmap_2, list_elem_of_bind.
  exists l. split; [done|]. apply list_elem_of_fmap. exists (x, l). split; [done|]. by apply elem_of_map_to_list.
Qed.

(** *** The descendant search visits every reachable event once *)

Definition edge (g : traceGraph) (x y : string) : Prop := exists c, c ∈ children_of g x /\ ev_EventID c = y.

Section Search.
Context (g : traceGraph) (failed : gset string).

Lemma search_total fuel seen id U :
  graph_ids g ⊆ U -> id ∈ U -> (size (U ∖ seen) < fuel)%nat ->
  exists r seen', hasFailedDescendant fuel g failed seen id = Some (r, seen') /\ seen ⊆ seen'.
Proof.
  intros HU. revert seen id. induction fuel as [|fuel IH]; intros seen id Hid Hf; [lia|]; simpl.
  case_bool_decide as Hin; [by exists false, seen|].
  assert (Hsub : forall cs seen1, (forall c, c ∈ cs -> ev_EventID c ∈ graph_ids g) ->
    {[id]} ∪ seen ⊆ seen1 ->
    exists r seen', search_children (hasFailedDescendant fuel g failed) failed cs seen1 = Some (r, seen') /\ seen1 ⊆ seen').
  { intros cs. induction cs as [|c cs IHc]; intros seen1 Hcs Hs1; simpl; [by exists false, seen1|].
    case_bool_decide; [by exists true, seen1|].
    destruct (IH seen1 (ev_EventID c)) as (r & s2 & -> & Hs2).
    - apply HU, Hcs. left.
    - assert (size (U ∖ seen1) < size (U ∖ seen))%nat; [|lia].
      apply subset_size. split; [set_solver|]. intros Hc. specialize (Hc id). set_solver.
    - destruct r; [by exists true, s2|]. destruct (IHc s2) as (r & s3 & -> & Hs3).
      + intros c' Hc'. apply Hcs. by right.
      + set_solver.
      + exists r, s3. split; [done|set_solver]. }
  destruct (Hsub (children_of g id) ({[id]} ∪ seen)) as (r & s' & -> & Hs'); [apply children_in_graph|done|].
  exists r, s'. split; [done|set_solver].
Qed.

(** Nodes seen for the first time have no failed child and no unseen child. *)
Definition closed (new old : gset string) : Prop :=
  forall x, x ∈ new -> x ∉ old -> forall y, edge g x y -> (y ∉ failed) /\ (y ∈ new).

Lemma search_spec fuel seen id r seen' :
  hasFailedDescendant fuel g failed seen id = Some (r, seen') ->
  if r then exists y, tc (edge g) id y /\ y ∈ failed
  else id ∈ seen' /\ seen ⊆ seen' /\ closed seen' seen.
Proof.
  revert seen id r seen'. induction fuel as [|fuel IH]; intros seen id r seen'; [done|]; simpl.
  case_bool_decide as Hin.
  { intros ?; simplify_eq. split_and!; [done..|]. intros x ??. done. }
  assert (Hsub : forall cs seen1 r seen',
    search_children (hasFailedDescendant fuel g failed) failed cs seen1 = Some (r, seen') ->
    if r then exists c y, c ∈ cs /\ rtc (edge g) (ev_EventID c) y /\ y ∈ failed
    else seen1 ⊆ seen' /\ closed seen' seen1 /\ forall c, c ∈ cs -> (ev_EventID c ∉ failed) /\ ev_EventID c ∈ seen').
  { clear Hin. intros cs. induction cs as [|c cs IHc]; intros seen1 r1 s1; simpl.
    - intros ?; simplify_eq. split_and!; [done| |set_solver]. intros x ??. done.
    - case_bool_decide as Hf; intros Heq.
      + simplify_eq. exists c, (ev_EventID c). split_and!; [left|apply rtc_refl|done].
      + destruct (hasFailedDescendant fuel g failed seen1 (ev_EventID c)) as [[[] s2]|] eqn:E; simplify_eq.
        * apply IH in E as (y & Hy & Hyf). exists c, y. split_and!; [left|by apply tc_rtc|done].
        * apply IH in E as (Hcs & Hss & Hcl). apply IHc in Heq. destruct r1.
          -- destruct Heq as (c' & y & Hc' & Hrest). exists c', y. split; [by right|done].
          -- destruct Heq as (Hs & Hcl2 & Hall). split_and!; [set_solver| |].
             ++ intros x Hx Hx1 y Hy. destruct (decide (x ∈ s2)) as [Hx2|Hx2].
                ** destruct (Hcl x Hx2 Hx1 y Hy). split; [done|set_solver].
                ** by apply (Hcl2 x).
             ++ intros c' [->|Hc']%elem_of_cons; [split; [done|set_solver]|by apply Hall]. }
  intros Heq. apply Hsub in Heq. destruct r.
  - destruct Heq as (c & y & Hc & Hcy & Hy). exists y. split; [|done].
    eapply tc_rtc_r; [|exact Hcy]. apply tc_once. by exists c.
  - destruct Heq as (Hs & Hcl & Hall). split_and!; [set_solver|set_solver|].
    intros x Hx Hx1 y Hy. destruct (decide (x = id)) as [->|Hne].
    + destruct Hy as (c & Hc & <-). by apply Hall.
    + apply (Hcl x); [done|set_solver|done].
Qed.
End Search.

(** The search for a failed descendant always ends within its fuel, and answers
    exactly whether a failed event is reachable from the start by parent-child edges. *)
Lemma hasFailedDescendant_reaches (g : traceGraph) (failed : gset string) (id : string) :
  exists r seen, hasFailedDescendant (descend_fuel g) g failed ∅ id = Some (r, seen) /\
    (r = true <-> exists y, tc (edge g) id y /\ y ∈ failed).
Proof.
  destruct (search_total g failed (descend_fuel g) ∅ id ({[id]} ∪ graph_ids g)) as (r & seen & Heq & _).
  - set_solver.
  - set_solver.
  - rewrite difference_empty_L. unfold descend_fuel.
    pose proof (size_union_alt {[id]} (graph_ids g)) as Hs. rewrite size_singleton in Hs.
    assert (size (graph_ids g ∖ {[id]}) <= size (graph_ids g))%nat by (apply subseteq_size; set_solver). lia.
  - exists r, seen. split; [done|]. apply search_spec in Heq. destruct r; [done|].
    destruct Heq as (Hid & _ & Hcl). split; [done|]. intros (y & Hy & Hyf). exfalso.
    assert (Hinv : forall x z, tc (edge g) x z -> x ∈ seen -> (z ∉ failed) /\ z ∈ seen).
    { induction 1 as [x z Hxz|x y' z Hxy _ IH]; intros Hx.
      - apply (Hcl x); [done|set_solver|done].
      - apply IH. apply (Hcl x Hx) in Hxy; [tauto|set_solver]. }
    destruct (Hinv _ _ Hy Hid). done.
Qed.

(** *** The causal walk visits every reachable event once, parents first *)

(** What the ordered prefix of a walk satisfies; [start] says which events may come
    without a parent. *)
Section Walk.
Context (g : traceGraph) (start : Event -> Prop).

Definition placed (before : list Event) (ev : Event) : Prop :=
  start ev \/ exists p, p ∈ before /\ ev ∈ children_of g (ev_EventID p).

Record wgood (st : gset string * list Event) : Prop := {
  wg_seen : st.1 = list_to_set (ev_EventID <$> st.2);
  wg_nodup : NoDup (ev_EventID <$> st.2);
  wg_placed : forall l1 x l2, st.2 = l1 ++ x :: l2 -> placed l1 x
}.

(** [st'] extends [st], and the events new in [st'] have all their children in it. *)
Definition wext (st st' : gset string * list Event) : Prop :=
  st.2 `prefix_of` st'.2 /\ st.1 ⊆ st'.1 /\
  forall x, x ∈ st'.1 -> x ∉ st.1 -> forall y, edge g x y -> y ∈ st'.1.

Lemma wext_refl st : wext st st.
Proof. split; [done|]. split; [done|]. intros x ??. done. Qed.

Lemma wext_trans st1 st2 st3 : wext st1 st2 -> wext st2 st3 -> wext st1 st3.
Proof.
  intros (P1 & S1 & C1) (P2 & S2 & C2). split; [by etrans|]. split; [set_solver|].
  intros x Hx Hx1 y Hy. destruct (decide (x ∈ st2.1)) as [H2|H2]; [|by eapply C2].
  apply S2. by eapply C1.
Qed.

Lemma placed_mono l1 l2 ev : l1 `prefix_of` l2 -> placed l1 ev -> placed l2 ev.
Proof. intros [k ->] [?|(p & Hp & ?)]; [by left|right]. exists p. set_solver. Qed.

Lemma wgood_snoc seen ordered ev :
  wgood (seen, ordered) -> placed ordered ev -> ev_EventID ev ∉ seen ->
  wgood ({[ev_EventID ev]} ∪ seen, ordered ++ [ev]).
Proof.
  intros [Hs Hn Hp] Hev Hni. simpl in *. subst seen. split; simpl.
  - rewrite fmap_app, list_to_set_app_L. simpl. set_solver.
  - rewrite fmap_app. apply NoDup_app. split; [done|]. split; [|apply NoDup_singleton].
    intros x Hx ->%list_elem_of_singleton. apply Hni. by apply elem_of_list_to_set.
  - intros l1 x l2 Heq. destruct l2 as [|y l2 _] using rev_ind.
    + by apply app_inj_tail in Heq as [-> ->].
    + rewrite app_comm_cons, app_assoc in Heq. apply app_inj_tail in Heq as [-> ->]. eauto.
Qed.

Lemma walk_list_spec walk evs st st' :
  (forall st ev st', wgood st -> placed st.2 ev -> walk st ev = Some st' ->
     wgood st' /\ wext st st' /\ ev_EventID ev ∈ st'.1) ->
  wgood st -> (forall ev, ev ∈ evs -> placed st.2 ev) -> walk_list walk evs st = Some st' ->
  wgood st' /\ wext st st' /\ forall ev, ev ∈ evs -> ev_EventID ev ∈ st'.1.
Proof.
  intros Hw. revert st. induction evs as [|ev evs IH]; simpl; intros st Hg Hp Heq.
  - simplify_eq. split; [done|]. split; [apply wext_refl|set_solver].
  - destruct (walk st ev) as [st1|] eqn:E; [|done].
    apply Hw in E as (Hg1 & Hx1 & Hin1); [|done|apply Hp; left].
    apply IH in Heq as (Hg2 & Hx2 & Hin2); [|done|].
    + split; [done|]. split; [by eapply wext_trans|].
      intros e [->|He]%elem_of_cons; [|auto]. destruct Hx2 as (_ & Hs & _). set_solver.
    + intros e He. eapply placed_mono; [apply Hx1|]. apply Hp. by right.
Qed.

Lemma walk_trace_spec fuel st ev st' :
  wgood st -> placed st.2 ev -> walk_trace fuel g st ev = Some st' ->
  wgood st' /\ wext st st' /\ ev_EventID ev ∈ st'.1.
Proof.
  revert st ev st'. induction fuel as [|fuel IH]; intros [seen ordered] ev st' Hg Hp; simpl; [done|].
  case_bool_decide as Hin; intros Heq.
  { simplify_eq. split; [done|]. split; [apply wext_refl|done]. }
  pose proof (wgood_snoc _ _ _ Hg Hp Hin) as Hg1.
  apply (walk_list_spec (walk_trace fuel g)) in Heq as (Hg2 & (Hpre & Hsub & Hcl) & Hall);
    [|by eauto|done|].
  - simpl in *. split; [done|]. split; [|set_solver]. split; [|split; [set_solver|]].
    + etrans; [|exact Hpre]. by eexists.
    + intros x Hx Hx1 y Hy. destruct (decide (x = ev_EventID ev)) as [->|Hne].
      * destruct Hy as (c & Hc & <-). apply Hall. unfold sortEventsStable. by rewrite elem_of_ssort.
      * apply (Hcl x Hx); [set_solver|done].
  - intros c Hc. unfold sortEventsStable in Hc. rewrite elem_of_ssort in Hc. right. exists ev. simpl.
    split; [set_solver|done].
Qed.

End Walk.

Section WalkFuel.
Context (g : traceGraph).

Lemma walk_total fuel st ev U :
  graph_ids g ⊆ U -> ev_EventID ev ∈ U -> (size (U ∖ st.1) < fuel)%nat ->
  exists st', walk_trace fuel g st ev = Some st' /\ st.1 ⊆ st'.1.
Proof.
  intros HU. revert st ev. induction fuel as [|fuel IH]; intros [seen ordered] ev Hid Hf; simpl in *; [lia|].
  case_bool_decide as Hin; [by eexists|].
  assert (Hsub : forall cs st1, (forall c, c ∈ cs -> ev_EventID c ∈ graph_ids g) ->
    {[ev_EventID ev]} ∪ seen ⊆ st1.1 ->
    exists st', walk_list (walk_trace fuel g) cs st1 = Some st' /\ st1.1 ⊆ st'.1).
  { intros cs. induction cs as [|c cs IHc]; intros st1 Hcs Hs1; simpl; [by eexists|].
    destruct (IH st1 c) as (st2 & -> & Hs2).
    - apply HU, Hcs. left.
    - assert (size (U ∖ st1.1) < size (U ∖ seen))%nat; [|lia].
      apply subset_size. split; [set_solver|]. intros Hc. specialize (Hc (ev_EventID ev)). set_solver.
    - destruct (IHc st2) as (st3 & -> & Hs3); [|set_solver|exists st3; split; [done|set_solver]].
      intros c' Hc'. apply Hcs. by right. }
  destruct (Hsub (sortEventsStable (children_of g (ev_EventID ev))) ({[ev_EventID ev]} ∪ seen, ordered ++ [ev]))
    as (st' & -> & Hs').
  - intros c Hc. unfold sortEventsStable in Hc. rewrite elem_of_ssort in Hc. eauto using children_in_graph.
  - done.
  - exists st'. split; [done|]. simpl in Hs'. set_solver.
Qed.

Lemma walk_roots_total roots st : exists st', walk_list (walk_trace (walk_fuel g) g) roots st = Some st'.
Proof.
  revert st. induction roots as [|r roots IH]; intros st; cbn [walk_list]; [by eexists|].
  destruct (walk_total (walk_fuel g) st r ({[ev_EventID r]} ∪ graph_ids g)) as (st' & -> & _); [set_solver..| |apply IH].
  unfold walk_fuel, descend_fuel.
  pose proof (size_union_alt {[ev_EventID r]} (graph_ids g)) as Hs. rewrite size_singleton in Hs.
  assert (size (graph_ids g ∖ {[ev_EventID r]}) <= size (graph_ids g))%nat by (apply subseteq_size; set_solver).
  assert (size (({[ev_EventID r]} ∪ graph_ids g) ∖ st.1) <= size ({[ev_EventID r]} ∪ graph_ids g))%nat
    by (apply subseteq_size; set_solver). lia.
Qed.
End WalkFuel.

(** *** The graph in terms of the events *)

(** [p] owns the span that [ev] names as its parent. *)
Definition owns (p ev : Event) : Prop :=
  exists st, st ∈ ev_Steps p /\ st_SpanID st = ev_ParentSpanID ev /\ st_SpanID st <> "".

Lemma graph_owners_spec events s p :
  (graph_owners events).2 !! s = Some p ->
  p ∈ events /\ ev_EventID p <> "" /\ exists st, st ∈ ev_Steps p /\ st_SpanID st = s /\ s <> "".
Proof.
  unfold graph_owners.
  assert (Hgen : forall evs b so, (foldl (fun '(byEventID, spanOwner) ev =>
      if String.eqb (ev_EventID ev) "" then (byEventID, spanOwner)
      else (<[ev_EventID ev := ev]> byEventID,
          foldl (fun so step => if negb (String.eqb (st_SpanID step) "") then <[st_SpanID step := ev]> so else so)
            spanOwner (ev_Steps ev))) (b, so) evs : gmap string Event * gmap string Event).2 !! s = Some p ->
      so !! s = Some p \/ (p ∈ evs /\ ev_EventID p <> "" /\ exists st, st ∈ ev_Steps p /\ st_SpanID st = s /\ s <> "")).
  { induction evs as [|e evs IH]; intros b so; simpl; [by left|].
    destruct (String.eqb_spec (ev_EventID e) "") as [He|He]; intros H.
    - apply IH in H as [?|(? & ?)]; [by left|right]. split; [by right|done].
    - apply IH in H as [H|(? & ?)]; [|right; split; [by right|done]]. clear IH.
      assert (Hin : so !! s = Some p \/ (p = e /\ exists st, st ∈ ev_Steps e /\ st_SpanID st = s /\ s <> "")).
      { revert so H. induction (ev_Steps e) as [|st sts IHs]; intros so; simpl; [by left|].
        intros H. apply IHs in H as [H|(-> & st' & Hst & ?)].
        - destruct (String.eqb_spec (st_SpanID st) "") as [Hs|Hs]; simpl in H; [by left|].
          destruct (decide (st_SpanID st = s)) as [<-|Hne].
          + rewrite lookup_insert_eq in H. simplify_eq. right. split; [done|]. exists st. split; [left|done].
          + rewrite lookup_insert_ne in H by done. by left.
        - right. split; [done|]. exists st'. split; [by right|done]. }
      destruct Hin as [?|(-> & ?)]; [by left|right]. split; [left|done]. }
  intros H. apply Hgen in H as [H|H]; [|done]. by rewrite lookup_empty in H.
Qed.

Lemma graph_edges_spec so events ch pa n ch' pa' n' ok :
  graph_edges so events ch pa n = (ch', pa', n', ok) ->
  forall x c, c ∈ default [] (ch' !! x) ->
    c ∈ default [] (ch !! x) \/ (c ∈ events /\ exists p, so !! ev_ParentSpanID c = Some p /\ ev_EventID p = x).
Proof.
  revert ch pa n. induction events as [|e events IH]; intros ch pa n; simpl.
  { intros ?; simplify_eq. by left. }
  destruct (_ || _).
  { intros H x c Hc. eapply IH in H as [?|(? & ?)]; [by left|right; split; [by right|done]|done]. }
  destruct (so !! ev_ParentSpanID e) as [p|] eqn:Hp; [|intros ?; simplify_eq; by left].
  destruct (String.eqb_spec (ev_EventID p) (ev_EventID e)); [intros ?; simplify_eq; by left|].
  intros H x c Hc. eapply IH in H as [Hin|(? & ?)]; [|right; split; [by right|done]|done].
  destruct (decide (ev_EventID p = x)) as [<-|Hne].
  - rewrite lookup_insert_eq in Hin. simpl in Hin. apply elem_of_app in Hin as [?| ->%list_elem_of_singleton]; [by left|].
    right. split; [left|]. by exists p.
  - rewrite lookup_insert_ne in Hin by done. by left.
Qed.

Lemma children_owned it events x c :
  c ∈ children_of (buildTraceGraph it events) x ->
  c ∈ events /\ exists p, p ∈ events /\ ev_EventID p = x /\ owns p c.
Proof.
  unfold buildTraceGraph, children_of. destruct (graph_owners events) as [b so] eqn:Ho.
  destruct (graph_edges so events ∅ ∅ 0) as [[[ch pa] n] ok] eqn:He. intros Hc.
  assert (Hin : c ∈ default [] (ch !! x)) by by destruct (negb ok || _). clear Hc.
  eapply graph_edges_spec in Hin as [Hin|(Hin & p & Hp & <-)]; [| |done].
  - rewrite lookup_empty in Hin. by apply elem_of_nil in Hin.
  - split; [done|]. exists p. replace so with (graph_owners events).2 in Hp by by rewrite Ho.
    apply graph_owners_spec in Hp as (Hpin & _ & st & Hst & Hsp & Hne).
    split; [done|]. split; [done|]. exists st. by rewrite Hsp.
Qed.

Lemma graph_iter it1 it2 events :
  children (buildTraceGraph it1 events) = children (buildTraceGraph it2 events) /\
  parents (buildTraceGraph it1 events) = parents (buildTraceGraph it2 events) /\
  usable (buildTraceGraph it1 events) = usable (buildTraceGraph it2 events).
Proof.
  unfold buildTraceGraph. destruct (graph_owners events). destruct (graph_edges _ _ _ _ _) as [[[??]?]?].
  by destruct (_ || _).
Qed.

Definition is_root (ev : Event) : Prop := ev_ParentSpanID ev = "".

(** What the causal walk from the roots of a trace returns. *)
Lemma walk_roots it events seen ordered :
  let g := buildTraceGraph it events in
  let roots := sortEventsStable (List.filter (fun ev => String.eqb (ev_ParentSpanID ev) "") events) in
  walk_list (walk_trace (walk_fuel g) g) roots (∅, []) = Some (seen, ordered) ->
  wgood g is_root (seen, ordered) /\ (forall x, x ∈ ordered -> x ∈ events) /\
  (forall r, r ∈ events -> is_root r -> ev_EventID r ∈ seen) /\
  (forall x y, x ∈ seen -> edge g x y -> y ∈ seen).
Proof.
  intros g roots Heq.
  assert (Hroot : forall r, r ∈ roots <-> r ∈ events /\ is_root r).
  { intros r. unfold roots, sortEventsStable. rewrite elem_of_ssort, elem_of_lfilter.
    unfold is_root. by rewrite String.eqb_eq. }
  apply (walk_list_spec g (fun ev => ev ∈ events /\ is_root ev)) in Heq
    as (Hg & (_ & _ & Hcl) & Hin).
  - destruct Hg as [Hs Hn Hp]. split_and!.
    + split; [done..|]. intros l1 x l2 Hx. destruct (Hp l1 x l2 Hx) as [[_ ?]|?]; [by left|by right].
    + intros x Hx. apply list_elem_of_split in Hx as (l1 & l2 & Hx).
      destruct (Hp l1 x l2 Hx) as [[? _]|(p & _ & Hc)]; [done|]. by apply children_owned in Hc as [].
    + intros r Hr Hr2. apply Hin. by apply Hroot.
    + intros x y Hx Hy. by apply (Hcl x Hx).
  - intros. by eapply walk_trace_spec.
  - split; simpl; [done|constructor|]. intros l1 x l2 ?. by destruct l1.
  - intros r Hr. left. by apply Hroot.
Qed.

Lemma walk_list_ext w1 w2 : (forall st ev, w1 st ev = w2 st ev) -> forall l st, walk_list w1 l st = walk_list w2 l st.
Proof.
  intros Hw. induction l as [|e l IH]; intros st; cbn [walk_list]; [done|]. rewrite Hw. by destruct (w2 st e).
Qed.

Lemma walk_trace_ext fuel g1 g2 : children g1 = children g2 ->
  forall st ev, walk_trace fuel g1 st ev = walk_trace fuel g2 st ev.
Proof.
  intros Hc. induction fuel as [|fuel IH]; intros [s o] ev; simpl; [done|]. case_bool_decide; [done|].
  unfold children_of. rewrite Hc. by apply walk_list_ext.
Qed.

Lemma OrderTrace_iter it' it events : OrderTrace it' events = OrderTrace it events.
Proof.
  unfold OrderTrace. destruct events as [|e0 evs]; [done|]. set (events := e0 :: evs) in *.
  destruct (graph_iter it' it events) as (Hc & _ & Hu). rewrite Hu. case_if; [done|].
  assert (Hfuel : walk_fuel (buildTraceGraph it' events) = walk_fuel (buildTraceGraph it events))
    by (unfold walk_fuel, descend_fuel, graph_ids; by rewrite Hc).
  rewrite Hfuel. by rewrite (walk_list_ext _ _ (walk_trace_ext _ _ _ Hc)).
Qed.

(** C9: ordering a trace whose events have distinct ids loses and repeats no event; when
    the linkage is reported as causal, every event is a root or comes after an event
    that owns its parent span; and the order does not depend on map iteration. *)
Theorem OrderTrace_sound (it : MapIter) (events : list Event) :
  NoDup (ev_EventID <$> events) ->
  (OrderTrace it events).1 ≡ₚ events /\
  (forall it', OrderTrace it' events = OrderTrace it events) /\
  ((OrderTrace it events).2 = LinkageCausal ->
   forall l1 x l2, (OrderTrace it events).1 = l1 ++ x :: l2 ->
     ev_ParentSpanID x = "" \/ exists p, p ∈ l1 /\ owns p x).
Proof.
  intros Hnd. split; [|split].
  - unfold OrderTrace. destruct events as [|e0 evs]; [done|]. set (events := e0 :: evs) in *.
    case_if; [apply ssort_perm|]. destruct (walk_list _ _ _) as [[seen ordered]|] eqn:Hw; [|apply ssort_perm].
    case_if; [apply ssort_perm|]. simpl. apply walk_roots in Hw as ([_ Hn _] & Hsub & _ & _).
    apply negb_false_iff, Nat.eqb_eq in E0.
    apply submseteq_length_Permutation; [|lia]. apply NoDup_submseteq; [by eapply NoDup_fmap_1|done].
  - intros it'. apply OrderTrace_iter.
  - unfold OrderTrace. destruct events as [|e0 evs]; [done|]. set (events := e0 :: evs) in *.
    case_if; [done|]. destruct (walk_list _ _ _) as [[seen ordered]|] eqn:Hw; [|done].
    case_if; [done|]. simpl. intros _ l1 x l2 ->. apply walk_roots in Hw as ([_ _ Hp] & Hsub & _ & _).
    destruct (Hp l1 x l2 eq_refl) as [?|(p & Hpin & Hc)]; [by left|right].
    apply children_owned in Hc as (_ & p' & Hp' & Hid & Hown). exists p. split; [done|].
    assert (p = p') as ->; [|done]. apply (NoDup_fmap_inj_on ev_EventID events); [done| |done|by rewrite Hid].
    apply Hsub. set_solver.
Qed.

Definition linked_trace : list Event :=
  [ sample_event "child" "t" "pay" "error" 30 40 "s1" None [];
    sample_event "root" "t" "api" "error" 10 50 "" None [span_step "s1"];
    sample_event "leaf" "t" "db" "ok" 20 35 "s1" None [] ].

Lemma OrderTrace_sound_witness :
  NoDup (ev_EventID <$> linked_trace) /\
  (OrderTrace iter_reverse linked_trace).1 ≡ₚ linked_trace /\
  (OrderTrace iter_reverse linked_trace).2 = LinkageCausal.
Proof.
  assert (H : NoDup (ev_EventID <$> linked_trace)) by by_decide.
  split; [exact H|]. split; [exact (proj1 (OrderTrace_sound iter_reverse linked_trace H))|].
  vm_compute. reflexivity.
Defined.

(** Causal order is reached whenever it can be: if every parent span is resolved and
    every event hangs below a root, the order is reported as causal. *)
Theorem OrderTrace_causal_complete (it : MapIter) (events : list Event) :
  let g := buildTraceGraph it events in
  usable g = true -> NoDup (ev_EventID <$> events) ->
  (forall ev, ev ∈ events -> exists r, r ∈ events /\ is_root r /\ rtc (edge g) (ev_EventID r) (ev_EventID ev)) ->
  (OrderTrace it events).2 = LinkageCausal.
Proof.
  intros g Hu Hnd Hreach. unfold OrderTrace. destruct events as [|e0 evs]; [by vm_compute in Hu|].
  set (events := e0 :: evs) in *. fold g. rewrite Hu. cbn [negb].
  destruct (walk_roots_total g (sortEventsStable (List.filter (fun ev => String.eqb (ev_ParentSpanID ev) "") events))
              (∅, [])) as ([seen ordered] & Hw).
  rewrite Hw. apply walk_roots in Hw as ([Hs Hn _] & Hsub & Hroot & Hcl). simpl in Hs, Hn.
  assert (Hall : forall ev, ev ∈ events -> ev ∈ ordered).
  { intros ev Hev. destruct (Hreach ev Hev) as (r & Hr & Hir & Hp).
    assert (Hseen : ev_EventID ev ∈ seen).
    { specialize (Hroot r Hr Hir). revert Hroot. generalize (ev_EventID r), (ev_EventID ev), Hp. clear -Hcl.
      intros x y. induction 1; eauto. }
    rewrite Hs in Hseen. apply elem_of_list_to_set, list_elem_of_fmap in Hseen as (e & He & Hin).
    assert (ev = e) as ->; [|done]. apply (NoDup_fmap_inj_on ev_EventID events); auto. }
  assert (Hlen : length ordered = length events).
  { apply Permutation_length, NoDup_Permutation; [by eapply NoDup_fmap_1..|]. split; auto. }
  by rewrite Hlen, Nat.eqb_refl.
Qed.

Lemma OrderTrace_causal_complete_witness :
  let g := buildTraceGraph iter_canonical linked_trace in
  usable g = true /\ (OrderTrace iter_canonical linked_trace).2 = LinkageCausal.
Proof.
  split; [vm_compute; reflexivity|]. apply OrderTrace_causal_complete.
  - vm_compute. reflexivity.
  - by_decide.
  - assert (Hr : forall x y, (exists c, c ∈ children_of (buildTraceGraph iter_canonical linked_trace) x /\ ev_EventID c = y)
      -> rtc (edge (buildTraceGraph iter_canonical linked_trace)) x y) by (intros x y H; by apply rtc_once).
    set (root := sample_event "root" "t" "api" "error" 10 50 "" None [span_step "s1"]).
    assert (Hin : root ∈ linked_trace) by (unfold linked_trace; set_solver).
    intros ev Hev. exists root. split; [exact Hin|]. split; [reflexivity|].
    unfold linked_trace in Hev. apply elem_of_cons in Hev as [->|Hev]; [|apply elem_of_cons in Hev as [->|Hev]].
    + apply Hr. eexists. split; [vm_compute; left|reflexivity].
    + apply rtc_refl.
    + apply list_elem_of_singleton in Hev as ->. apply Hr. eexists. split; [vm_compute; right; left|reflexivity].
Defined.

(** ** Depths *)

(** The length of the parent chain of an event; it exists exactly when the chain ends. *)
Inductive chain (pa : gmap string string) : string -> Z -> Prop :=
| chain_root id : parent_of pa id = "" -> chain pa id 0
| chain_step id d : parent_of pa id <> "" -> chain pa (parent_of pa id) d -> chain pa id (d + 1).

Lemma chain_fun pa id d1 d2 : chain pa id d1 -> chain pa id d2 -> d1 = d2.
Proof.
  intros H. revert d2. induction H as [id Hr|id d Hr _ IH]; intros d2; inversion 1; subst; try done.
  f_equal. by apply IH.
Qed.

Definition depths_ok (pa : gmap string string) (ds : gmap string Z) : Prop :=
  forall x d, ds !! x = Some d -> chain pa x d.

Lemma depthOf_chain fuel pa ds stack id d0 d ds' :
  depths_ok pa ds -> chain pa id d0 -> (forall s, s ∈ stack -> exists e, chain pa s e /\ d0 < e) ->
  depthOf fuel pa ds stack id = Some (d, ds') ->
  d = d0 /\ depths_ok pa ds' /\ ds' !! id = Some d0 /\ ds ⊆ ds'.
Proof.
  intros Hok Hc. revert ds stack d ds' fuel Hok.
  induction Hc as [id Hr|id d0 Hr Hc IH]; intros ds stack d ds' [|fuel] Hok Hst; simpl; try done.
  - destruct (ds !! id) as [d1|] eqn:Hd.
    + intros ?; simplify_eq. assert (d = 0) as -> by (eapply chain_fun; [by apply Hok|by constructor]). done.
    + rewrite Hr. simpl. intros ?; simplify_eq. split; [done|]. split; [|split; [apply lookup_insert_eq|by apply insert_subseteq]].
      intros x e. destruct (decide (x = id)) as [->|Hne].
      * rewrite lookup_insert_eq. intros ?; simplify_eq. by constructor.
      * rewrite lookup_insert_ne by done. apply Hok.
  - assert (Hci : chain pa id (d0 + 1)) by by constructor.
    destruct (ds !! id) as [d1|] eqn:Hd.
    + intros ?; simplify_eq. assert (d = d0 + 1) as -> by (eapply chain_fun; [by apply Hok|done]). done.
    + rewrite (proj2 (String.eqb_neq _ _)) by done. case_bool_decide as Hin.
      { destruct (Hst id Hin) as (e & He & Hlt). pose proof (chain_fun _ _ _ _ He Hci). lia. }
      destruct (depthOf fuel pa ds ({[id]} ∪ stack) (parent_of pa id)) as [[d1 ds1]|] eqn:E; [|done].
      apply IH in E as (-> & Hok1 & Hl1 & Hs1); [|done|].
      * intros ?; simplify_eq. split; [done|]. assert (Hnew : depths_ok pa (<[id:=d0 + 1]> ds1)).
        { intros x e. destruct (decide (x = id)) as [->|Hne].
          - rewrite lookup_insert_eq. by intros ?; simplify_eq.
          - rewrite lookup_insert_ne by done. apply Hok1. }
        split; [done|]. split; [apply lookup_insert_eq|].
        apply map_subseteq_spec. intros x e Hx. eapply map_subseteq_spec in Hs1; [|exact Hx].
        destruct (decide (x = id)) as [->|Hne]; [congruence|]. by rewrite lookup_insert_ne.
      * intros s [->%elem_of_singleton|Hs]%elem_of_union; [exists (d0 + 1); split; [done|lia]|].
        destruct (Hst s Hs) as (e & He & Hlt). exists e. split; [done|lia].
Qed.

Lemma depth_step_chain pa ds ids :
  depths_ok pa ds -> (forall id, id ∈ ids -> exists d, chain pa id d) ->
  depths_ok pa (foldl (depth_step pa) ds ids) /\ ds ⊆ foldl (depth_step pa) ds ids /\
  forall id, id ∈ ids -> is_Some (foldl (depth_step pa) ds ids !! id).
Proof.
  revert ds. induction ids as [|id ids IH]; intros ds Hok Hc; cbn [foldl].
  { split; [done|]. split; [done|]. intros id Hid. by apply elem_of_nil in Hid. }
  destruct (Hc id) as (d0 & Hd0); [left|].
  assert (Hstep : depths_ok pa (depth_step pa ds id) /\ depth_step pa ds id !! id = Some d0 /\ ds ⊆ depth_step pa ds id).
  { unfold depth_step. destruct (depth_fuel_enough pa ds id) as ([d ds1] & E). rewrite E.
    apply (depthOf_chain _ _ _ _ _ d0) in E as (_ & ? & ? & ?); [done..|set_solver]. }
  destruct Hstep as (Hok1 & Hl1 & Hs1). destruct (IH (depth_step pa ds id) Hok1) as (Hok2 & Hs2 & Hall).
  { intros x Hx. apply Hc. by right. }
  split; [done|]. split; [by etrans|]. intros x [->|Hx]%elem_of_cons; [|auto].
  eapply map_subseteq_spec in Hs2; [|exact Hl1]. eauto.
Qed.

Lemma graph_owners_ids events :
  (forall id ev, (graph_owners events).1 !! id = Some ev -> ev ∈ events /\ ev_EventID ev = id) /\
  (forall ev, ev ∈ events -> ev_EventID ev <> "" -> is_Some ((graph_owners events).1 !! ev_EventID ev)).
Proof.
  unfold graph_owners.
  induction events as [|e events [IH1 IH2]] using rev_ind.
  { split; simpl; [intros id ev; by rewrite lookup_empty|set_solver]. }
  rewrite foldl_app. simpl. destruct (foldl _ _ events) as [b so] eqn:E. simpl in IH1, IH2.
  destruct (String.eqb_spec (ev_EventID e) "") as [He|He]; simpl; split.
  - intros id ev H. destruct (IH1 _ _ H). set_solver.
  - intros ev [Hin| ->%list_elem_of_singleton]%elem_of_app Hne; auto. done.
  - intros id ev. destruct (decide (ev_EventID e = id)) as [<-|Hne].
    + rewrite lookup_insert_eq. intros ?; simplify_eq. set_solver.
    + rewrite lookup_insert_ne by done. intros H. destruct (IH1 _ _ H). set_solver.
  - intros ev Hin Hne. destruct (decide (ev_EventID e = ev_EventID ev)) as [<-|Hne'].
    + rewrite lookup_insert_eq. eauto.
    + rewrite lookup_insert_ne by done. apply elem_of_app in Hin as [Hin| ->%list_elem_of_singleton]; auto. done.
Qed.

Lemma graph_edges_no_empty so events ch pa n ch' pa' n' ok :
  graph_edges so events ch pa n = (ch', pa', n', ok) -> pa' !! "" = pa !! "".
Proof.
  revert ch pa n. induction events as [|e events IH]; intros ch pa n; simpl; [by intros ?; simplify_eq|].
  destruct (String.eqb_spec (ev_EventID e) "") as [|He]; simpl; [apply IH|].
  case_if; [apply IH|]. destruct (so !! _); [|by intros ?; simplify_eq].
  case_if; [by intros ?; simplify_eq|]. intros H. apply IH in H. by rewrite lookup_insert_ne in H.
Qed.

(** Every event's parent chain ends: the parent links have no cycle. *)
Definition acyclic (it : MapIter) (events : list Event) : Prop :=
  forall ev, ev ∈ events -> exists d, chain (parents (buildTraceGraph it events)) (ev_EventID ev) d.

Lemma depth_at_chain it events ev :
  acyclic it events -> usable (buildTraceGraph it events) = true -> ev ∈ events ->
  chain (parents (buildTraceGraph it events)) (ev_EventID ev) (depth_at (buildTraceGraph it events) (ev_EventID ev)).
Proof.
  unfold acyclic, buildTraceGraph, depth_at. pose proof (graph_owners_ids events) as [Hid1 Hid2].
  destruct (graph_owners events) as [b so] eqn:Ho. simpl in Hid1, Hid2.
  destruct (graph_edges so events ∅ ∅ 0) as [[[ch pa] n] ok] eqn:He.
  destruct (negb ok || (n =? 0)%nat); simpl; [done|]. intros Hac _ Hin.
  destruct (depth_step_chain pa ∅ (mrange it 0 b).*1) as (Hok & _ & Hall).
  - intros x d. by rewrite lookup_empty.
  - intros id Hid. apply list_elem_of_fmap in Hid as ([k e] & -> & Hk). apply elem_of_mrange in Hk.
    destruct (Hid1 _ _ Hk) as [Hein <-]. by apply Hac.
  - destruct (foldl (depth_step pa) ∅ (mrange it 0 b).*1 !! ev_EventID ev) as [d|] eqn:Hd; simpl; [by apply Hok|].
    destruct (String.eqb_spec (ev_EventID ev) "") as [Hem|Hne].
    + constructor. unfold parent_of. rewrite Hem.
      apply graph_edges_no_empty in He. by rewrite He, lookup_empty.
    + destruct (Hid2 ev Hin Hne) as [e Hl]. destruct (Hall (ev_EventID ev)) as [? Hs]; [|congruence].
      apply list_elem_of_fmap. exists (ev_EventID ev, e). split; [done|]. by apply elem_of_mrange.
Qed.

Lemma hasFailedDescendant_ext fuel g1 g2 failed : children g1 = children g2 ->
  forall seen id, hasFailedDescendant fuel g1 failed seen id = hasFailedDescendant fuel g2 failed seen id.
Proof.
  intros Hc. induction fuel as [|fuel IH]; intros seen id; simpl; [done|]. case_bool_decide; [done|].
  unfold children_of. rewrite Hc. generalize ({[id]} ∪ seen).
  induction (default [] _) as [|c cs IHc]; intros s; simpl; [done|]. case_bool_decide; [done|].
  rewrite IH. by destruct (hasFailedDescendant fuel g2 failed s _) as [[[] ?]|].
Qed.

Lemma deepestFailedLeaf_iter it1 it2 events failed :
  acyclic it1 events -> usable (buildTraceGraph it1 events) = true -> (forall ev, ev ∈ failed -> ev ∈ events) ->
  deepestFailedLeaf (buildTraceGraph it1 events) failed = deepestFailedLeaf (buildTraceGraph it2 events) failed.
Proof.
  intros Hac Hu Hsub. destruct (graph_iter it1 it2 events) as (Hc & Hp & Hus).
  assert (Hac2 : acyclic it2 events) by (unfold acyclic; by rewrite <- Hp).
  assert (Hdep : forall ev, ev ∈ events ->
    depth_at (buildTraceGraph it1 events) (ev_EventID ev) = depth_at (buildTraceGraph it2 events) (ev_EventID ev)).
  { intros ev Hev. eapply chain_fun; [by apply depth_at_chain|]. rewrite Hp.
    apply depth_at_chain; [done|by rewrite <- Hus|done]. }
  unfold deepestFailedLeaf.
  assert (Hleaf : forall ev, is_failed_leaf (buildTraceGraph it1 events) failed ev = is_failed_leaf (buildTraceGraph it2 events) failed ev).
  { intros ev. unfold is_failed_leaf, descend_fuel, graph_ids. rewrite Hc.
    by rewrite (hasFailedDescendant_ext _ _ _ _ Hc). }
  rewrite (filter_ext _ _ Hleaf). f_equal. apply ssort_ext_on.
  intros x y [Hx _]%elem_of_lfilter [Hy _]%elem_of_lfilter. unfold leaf_less. rewrite !Hdep by auto. done.
Qed.

Lemma ResolveAnchor_iter (it1 it2 : MapIter) (events : list Event) (ex : bool) :
  acyclic it1 events ->
  ResolveAnchorWithOptions it1 events ex = ResolveAnchorWithOptions it2 events ex.
Proof.
  intros Hac. destruct (graph_iter it1 it2 events) as (Hc & Hp & Hu).
  unfold ResolveAnchorWithOptions. destruct events as [|e0 evs]; [done|]. set (events := e0 :: evs) in *.
  destruct (List.filter _ events) as [|f fs] eqn:Hf.
  - unfold selectTraceRoot. destruct (List.filter _ events); [|done]. by rewrite Hp, Hu.
  - assert (Ht : graphTouchesFailed (buildTraceGraph it1 events) (f :: fs)
               = graphTouchesFailed (buildTraceGraph it2 events) (f :: fs)).
    { unfold graphTouchesFailed, children_of. by rewrite Hc, Hp. }
    rewrite <- Hu, <- Ht. destruct (usable (buildTraceGraph it1 events)) eqn:Hus; [|done].
    rewrite (deepestFailedLeaf_iter it1 it2) by (done || (intros ev Hev; rewrite <- Hf in Hev; by apply elem_of_lfilter in Hev as [])).
    done.
Qed.

(** When the parent links of a trace have no cycle, the reported anchor does not
    depend on the order in which maps are visited. *)
Theorem ResolveAnchor_deterministic (it1 it2 : MapIter) (events : list Event) (ex : bool) :
  acyclic it1 events ->
  ResolveAnchorWithOptions it1 events ex = ResolveAnchorWithOptions it2 events ex.
Proof. apply ResolveAnchor_iter. Qed.

Lemma ResolveAnchor_deterministic_witness :
  acyclic iter_canonical linked_trace /\
  ResolveAnchorWithOptions iter_canonical linked_trace false = ResolveAnchorWithOptions iter_reverse linked_trace false.
Proof.
  assert (H : acyclic iter_canonical linked_trace).
  { assert (Hroot : chain (parents (buildTraceGraph iter_canonical linked_trace)) "root" 0)
      by (apply chain_root; vm_compute; reflexivity).
    intros ev Hev. unfold linked_trace in Hev.
    apply elem_of_cons in Hev as [->|Hev]; [|apply elem_of_cons in Hev as [->|Hev]].
    - exists (0 + 1). apply chain_step; [vm_compute; discriminate|exact Hroot].
    - exists 0. exact Hroot.
    - apply list_elem_of_singleton in Hev as ->. exists (0 + 1).
      apply chain_step; [vm_compute; discriminate|exact Hroot]. }
  split; [exact H|]. exact (ResolveAnchor_deterministic iter_canonical iter_reverse linked_trace false H).
Defined.

(** ** What an anchor is *)

Lemma is_failed_leaf_spec g failed ev :
  is_failed_leaf g failed ev = true <->
  forall y, tc (edge g) (ev_EventID ev) y -> y ∉ ev_EventID <$> failed.
Proof.
  unfold is_failed_leaf.
  destruct (hasFailedDescendant_reaches g (failed_ids failed) (ev_EventID ev)) as (r & seen & -> & Hr).
  rewrite negb_true_iff. unfold failed_ids in Hr. setoid_rewrite elem_of_list_to_set in Hr. split.
  - intros -> y Hy Hin. assert (false = true) by (apply Hr; eauto). done.
  - intros H. destruct r; [|done]. destruct (proj1 Hr eq_refl) as (y & Hy & Hin). by destruct (H y Hy).
Qed.

Lemma selectTraceRoot_spec it events ex :
  match (selectTraceRoot it events ex).1 with
  | Some a => a ∈ events /\ anchorCandidate a ex = true
  | None => forall ev, ev ∈ events -> anchorCandidate ev ex = false
  end.
Proof.
  unfold selectTraceRoot.
  set (c1 := List.filter _ events). set (c2 := List.filter (fun ev => anchorCandidate ev ex && _ && _) events).
  assert (H1 : forall a, a ∈ c1 -> a ∈ events /\ anchorCandidate a ex = true).
  { intros a [Hin Hb]%elem_of_lfilter. apply andb_true_iff in Hb as [??]. done. }
  assert (H2 : forall a, a ∈ c2 -> a ∈ events /\ anchorCandidate a ex = true).
  { intros a [Hin Hb]%elem_of_lfilter. bool_prop. done. }
  assert (H3 : forall a, a ∈ List.filter (fun ev => anchorCandidate ev ex) events -> a ∈ events /\ anchorCandidate a ex = true)
    by (intros a [? ?]%elem_of_lfilter; done).
  assert (Hsort : forall l, (forall a, a ∈ l -> a ∈ events /\ anchorCandidate a ex = true) -> l <> [] ->
    match head (sortEventsStable l) with
    | Some a => a ∈ events /\ anchorCandidate a ex = true
    | None => forall ev, ev ∈ events -> anchorCandidate ev ex = false end).
  { intros l Hl Hne. unfold sortEventsStable. destruct (head _) as [a|] eqn:E.
    - apply Hl. by eapply head_ssort_elem.
    - by apply head_ssort_None in E. }
  destruct c1 as [|x c1'] eqn:E1; [|by apply (Hsort (x :: c1'))].
  simpl. destruct c2 as [|y c2'] eqn:E2; [|by apply (Hsort (y :: c2'))].
  destruct (List.filter (fun ev => anchorCandidate ev ex) events) as [|z c3] eqn:E3; [|by apply (Hsort (z :: c3))].
  simpl. intros ev Hev. destruct (anchorCandidate ev ex) eqn:Ea; [|done].
  assert (Hin : ev ∈ List.filter (fun ev => anchorCandidate ev ex) events) by by apply elem_of_lfilter.
  rewrite E3 in Hin. by apply elem_of_nil in Hin.
Qed.

Definition failed_candidate (ex : bool) (ev : Event) : bool := anchorCandidate ev ex && IsFailed (ev_Status ev).

Lemma deepestFailedLeaf_spec g failed a :
  deepestFailedLeaf g failed = Some a ->
  a ∈ failed /\ is_failed_leaf g failed a = true /\
  forall b, b ∈ failed -> is_failed_leaf g failed b = true ->
    depth_at g (ev_EventID b) <= depth_at g (ev_EventID a).
Proof.
  unfold deepestFailedLeaf. intros H. pose proof (head_ssort_elem _ _ _ H) as Hin.
  apply elem_of_lfilter in Hin as [Hin Hl]. split; [done|]. split; [done|]. intros b Hb Hbl.
  assert (Hlb : leaf_less g b a = false)
    by (apply (head_ssort_least (leaf_less g) _ (LessBy0 := leaf_less_by g) _ _ H); by apply elem_of_lfilter).
  unfold leaf_less in Hlb. destruct (Z.eqb_spec (depth_at g (ev_EventID b)) (depth_at g (ev_EventID a))); simpl in Hlb; [lia|].
  apply Z.ltb_ge in Hlb. lia.
Qed.

(** C4: the anchor is an event of the trace and a candidate, absent only when the trace
    has no candidate at all; if any candidate failed, the anchor is a failed one; and when
    its linkage is causal, no failed candidate lies below it in the span graph, and it is
    at least as deep as every other failed candidate with none below it. *)
Theorem ResolveAnchor_sound (it : MapIter) (events : list Event) (ex : bool) :
  let g := buildTraceGraph it events in
  let failed := List.filter (failed_candidate ex) events in
  match ar_Event (ResolveAnchorWithOptions it events ex) with
  | None => forall ev, ev ∈ events -> anchorCandidate ev ex = false
  | Some a =>
    a ∈ events /\ anchorCandidate a ex = true /\
    (failed <> [] ->
      a ∈ failed /\
      (ar_Linkage (ResolveAnchorWithOptions it events ex) = LinkageCausal ->
        (forall y, tc (edge g) (ev_EventID a) y -> y ∉ ev_EventID <$> failed) /\
        forall b, b ∈ failed -> (forall y, tc (edge g) (ev_EventID b) y -> y ∉ ev_EventID <$> failed) ->
          depth_at g (ev_EventID b) <= depth_at g (ev_EventID a)))
  end.
Proof.
  intros g failed. unfold ResolveAnchorWithOptions. destruct events as [|e0 evs]; [intros ev Hev; by apply elem_of_nil in Hev|].
  set (events := e0 :: evs) in *. fold g. change (List.filter _ events) with failed.
  assert (Hf : forall a, a ∈ failed -> a ∈ events /\ anchorCandidate a ex = true).
  { intros a [Hin Hb]%elem_of_lfilter. unfold failed_candidate in Hb. by apply andb_true_iff in Hb as [??]. }
  destruct (decide (failed = [])) as [Hnil|Hne].
  { rewrite Hnil. pose proof (selectTraceRoot_spec it events ex) as H. destruct (selectTraceRoot it events ex) as [[a|] l]; simpl in *; [|done].
    destruct H. done. }
  assert (Hfb : match ar_Event (mkAnchorResult (head (sortEventsStable failed)) LinkageTimestampFallback) with
    | Some a => a ∈ failed | None => False end).
  { simpl. destruct (head _) eqn:E; [by eapply head_ssort_elem|by apply head_ssort_None in E]. }
  destruct failed as [|f fs] eqn:Hfs; [done|]. rewrite <- Hfs in *. clear Hfs.
  destruct (usable g && graphTouchesFailed g failed); [destruct (deepestFailedLeaf g failed) as [a|] eqn:Hd|]; simpl in *.
  - apply deepestFailedLeaf_spec in Hd as (Hin & Hl & Hdeep). destruct (Hf a Hin). split_and!; [done..|].
    intros _. split; [done|]. intros _. setoid_rewrite is_failed_leaf_spec in Hdeep.
    split; [by apply is_failed_leaf_spec|done].
  - destruct (head _) as [a|]; [|done]. destruct (Hf a Hfb). done.
  - destruct (head _) as [a|]; [|done]. destruct (Hf a Hfb). done.
Qed.
