(* ===== verification/Reader.v ===== *)
(** The v2 reader ([internal/ingest/v2/reader.go], [derived.go] and the cursor comparisons
    of [cursor.go]): search, traces, stories, error families, blast radius and service
    statistics over the hot index.  Every [range] over a map is a [MapIter] choice; the
    theorems show that the answers do not depend on it, that counts are counts of the
    events in the index, and that following cursors visits every row exactly once. *)

From S2P Require Import Prelude GoRuntime Types Family Index TraceGraph.
Open Scope Z_scope.

(** ** Cursors *)

Record EventCursor := mkEventCursor { ec_TsNano : Z; ec_EventID : string }.
Record TraceCursor := mkTraceCursor { tc_TsNano : Z; tc_TraceID : string }.
Record ErrorCursor := mkErrorCursor { xc_Count : Z; xc_Service : string; xc_Step : string; xc_ErrorCode : string }.

Definition afterEventCursor (evTsNano : Z) (eventID : string) (cursor : option EventCursor) : bool :=
  match cursor with
  | None => true
  | Some c => (evTsNano <? ec_TsNano c) || ((evTsNano =? ec_TsNano c) && String.ltb (ec_EventID c) eventID)
  end.

Definition afterTraceCursor (tsNano : Z) (traceID : string) (cursor : option TraceCursor) : bool :=
  match cursor with
  | None => true
  | Some c => (tsNano <? tc_TsNano c) || ((tsNano =? tc_TsNano c) && String.ltb (tc_TraceID c) traceID)
  end.

Definition afterErrorCursor (count : Z) (key : ErrorKey) (cursor : option ErrorCursor) : bool :=
  match cursor with
  | None => true
  | Some c =>
    if negb (count =? xc_Count c) then count <? xc_Count c
    else if negb (String.eqb (ek_Service key) (xc_Service c)) then String.ltb (xc_Service c) (ek_Service key)
    else if negb (String.eqb (ek_Step key) (xc_Step c)) then String.ltb (xc_Step c) (ek_Step key)
    else String.ltb (xc_ErrorCode c) (ek_ErrorCode key)
  end.

(** ** Filters *)

Record SearchFilter := mkSearchFilter {
  sf_Service : string;
  sf_Statuses : gset string;
  sf_ErrorCode : string;
  sf_TraceID : string;
  sf_Since : Time;
  sf_Until : Time;
  sf_IncludeSuppressed : bool
}.

Record EventSearchResult := mkEventSearchResult {
  es_Events : list Event; es_NextCursor : option EventCursor }.
Record TraceGetResult := mkTraceGetResult { tg_TraceID : string; tg_Events : list Event; tg_Linkage : string }.
Record RecentTracesResult := mkRecentTracesResult {
  rt_Traces : list TraceSummary; rt_NextCursor : option TraceCursor }.
Record ErrorsResult := mkErrorsResult {
  xr_Window : string; xr_Rows : list ErrorRow; xr_NextCursor : option ErrorCursor }.
Record BlastKeyMode := mkBlastKeyMode { bm_Key : BlastKey; bm_CrossCode : bool }.
Record ServiceStatsRow := mkServiceStatsRow { sv_Service : string; sv_Count : Z; sv_LatencyMS : Z }.

(** [Reader] wraps an index pointer, which may be nil. *)
Definition Reader : Type := option RecentIndex.

Definition eventWithinWindow (ev : Event) (f : SearchFilter) : bool :=
  negb (negb (IsZero (sf_Since f)) && Before (ev_TsStart ev) (sf_Since f)) &&
  negb (negb (IsZero (sf_Until f)) && After (ev_TsStart ev) (sf_Until f)).

Definition eventMatchesFilter (ev : Event) (f : SearchFilter) : bool :=
  if negb (String.eqb (sf_Service f) "") && negb (String.eqb (ev_Service ev) (sf_Service f)) then false
  else if negb (String.eqb (sf_TraceID f) "") && negb (String.eqb (ev_TraceID ev) (sf_TraceID f)) then false
  else if negb (String.eqb (sf_ErrorCode f) "") &&
          match ev_Anchor ev with None => true | Some a => negb (String.eqb (an_ErrorCode a) (sf_ErrorCode f)) end
  then false
  else if (if (0 <? size (sf_Statuses f))%nat then negb (bool_decide (ev_Status ev ∈ sf_Statuses f))
           else String.eqb (ev_Status ev) StatusSuppressed && negb (sf_IncludeSuppressed f)) then false
  else if negb (IsZero (sf_Since f)) && Before (ev_TsStart ev) (sf_Since f) then false
  else if negb (IsZero (sf_Until f)) && After (ev_TsStart ev) (sf_Until f) then false
  else true.

Definition compareEventSearchOrder (a b : Event) : Z :=
  if negb (TimeEqual (ev_TsStart a) (ev_TsStart b)) then
    (if After (ev_TsStart a) (ev_TsStart b) then -1 else 1)
  else if String.ltb (ev_EventID a) (ev_EventID b) then -1
  else if String.ltb (ev_EventID b) (ev_EventID a) then 1
  else 0.

Definition search_less (a b : Event) : bool := compareEventSearchOrder a b <? 0.

(** ** Event search *)

Definition GetEvent (r : Reader) (eventID : string) : option Event :=
  match r with None => None | Some idx => GetByID idx eventID end.

Definition event_cursor (ev : Event) : EventCursor := mkEventCursor (UnixNano (ev_TsStart ev)) (ev_EventID ev).
Definition event_after (ev : Event) (c : option EventCursor) : bool :=
  afterEventCursor (UnixNano (ev_TsStart ev)) (ev_EventID ev) c.

Definition search_rows (it : MapIter) (idx : RecentIndex) (f : SearchFilter) : list Event :=
  ssort search_less (List.filter (fun ev => eventMatchesFilter ev f) (SnapshotEvents it idx)).

Definition SearchEvents (it : MapIter) (r : Reader) (f : SearchFilter) (after : option EventCursor) (limit : Z)
    : EventSearchResult :=
  match r with
  | None => mkEventSearchResult [] None
  | Some idx =>
    if limit <=? 0 then mkEventSearchResult [] None
    else
      let '(out, hasMore) := page_loop (fun ev => event_after ev after) (Z.to_nat limit) (search_rows it idx f) [] in
      let next := if hasMore && negb (length out =? 0)%nat then event_cursor <$> last out else None in
      mkEventSearchResult (cloneEvent <$> out) next
  end.

(** ** Traces *)

Definition GetTrace (it : MapIter) (r : Reader) (traceID : string) : option TraceGetResult :=
  match r with
  | None => None
  | Some idx =>
    if String.eqb traceID "" then None
    else
      match SnapshotTrace idx traceID with
      | [] => None
      | events =>
        let '(ordered, linkage) := OrderTrace it events in
        Some (mkTraceGetResult traceID (cloneEvent <$> ordered) linkage)
      end
  end.

Definition traceHasMatchingEvent (events : list Event) (f : SearchFilter) : bool :=
  existsb (fun ev => eventMatchesFilter ev f) events.

(** The first pass of [buildTraceSummary]: earliest start and latest end. *)
Definition trace_bounds (events : list Event) : Time * Time :=
  foldl (fun '(minStart, maxEnd) ev =>
    (if IsZero minStart || Before (ev_TsStart ev) minStart then ev_TsStart ev else minStart,
     if IsZero maxEnd || After (ev_TsEnd ev) maxEnd then ev_TsEnd ev else maxEnd)) (time_zero, time_zero) events.

(** The second pass: services in order of first appearance. *)
Definition distinct_services (ordered : list Event) : list string :=
  (foldl (fun '(services, seen) ev =>
    if String.eqb (ev_Service ev) "" || bool_decide (ev_Service ev ∈ seen) then (services, seen)
    else (services ++ [ev_Service ev], {[ev_Service ev]} ∪ seen)) ([], (∅ : gset string)) ordered).1.

Definition buildTraceSummary (it : MapIter) (traceID : string) (events : list Event) (includeSuppressed : bool)
    : option TraceSummary :=
  match events with
  | [] => None
  | _ =>
    let '(ordered, _) := OrderTrace it events in
    match ordered with
    | [] => None
    | _ =>
      let '(minStart, maxEnd) := trace_bounds events in
      let services := distinct_services ordered in
      match ar_Event (ResolveAnchorWithOptions it events (negb includeSuppressed)) with
      | None => None
      | Some ev =>
        let duration := if negb (IsZero minStart) && negb (IsZero maxEnd) && After maxEnd minStart
                        then Milliseconds (TimeSub maxEnd minStart) else 0 in
        Some (mkTraceSummary traceID minStart duration services (ev_Status ev) (FormatEventErrorFamily (Some ev)))
      end
    end
  end.

Definition summary_less (a b : TraceSummary) : bool :=
  if negb (TimeEqual (ts_TsStart a) (ts_TsStart b)) then After (ts_TsStart a) (ts_TsStart b)
  else String.ltb (ts_TraceID a) (ts_TraceID b).

Definition trace_cursor (s : TraceSummary) : TraceCursor := mkTraceCursor (UnixNano (ts_TsStart s)) (ts_TraceID s).
Definition trace_after (s : TraceSummary) (c : option TraceCursor) : bool :=
  afterTraceCursor (UnixNano (ts_TsStart s)) (ts_TraceID s) c.

(** The summaries of the matching traces, one entry of the [range] at a time. *)
Definition trace_summary (it : MapIter) (f : SearchFilter) (kv : string * list Event) : list TraceSummary :=
  if traceHasMatchingEvent kv.2 f
  then match buildTraceSummary it kv.1 kv.2 (sf_IncludeSuppressed f) with Some s => [s] | None => [] end
  else [].

Definition trace_rows (it : MapIter) (idx : RecentIndex) (f : SearchFilter) : list TraceSummary :=
  ssort summary_less (mrange it 1 (SnapshotTraces idx) ≫= trace_summary it f).

Definition RecentTraces (it : MapIter) (r : Reader) (f : SearchFilter) (after : option TraceCursor) (limit : Z)
    : RecentTracesResult :=
  match r with
  | None => mkRecentTracesResult [] None
  | Some idx =>
    if limit <=? 0 then mkRecentTracesResult [] None
    else
      let '(out, hasMore) := page_loop (fun s => trace_after s after) (Z.to_nat limit) (trace_rows it idx f) [] in
      mkRecentTracesResult out (if hasMore && negb (length out =? 0)%nat then trace_cursor <$> last out else None)
  end.

(** ** Orders of the rows *)

#[export] Instance search_less_by : LessBy search_less (fun ev => (down (ev_TsStart ev), ev_EventID ev)).
Proof. intros a b. unfold search_less, compareEventSearchOrder, TimeEqual, After. kred. solve_less. Qed.

#[export] Instance summary_less_by : LessBy summary_less (fun s => (down (ts_TsStart s), ts_TraceID s)).
Proof. intros a b. unfold summary_less, TimeEqual, After. kred. solve_less. Qed.

(** Times a cursor can carry: 64-bit nanoseconds since the epoch, years 1678 to 2262. *)
Definition nano_time (t : Time) : Prop := in_int64 (t - unix_epoch) = true.

Lemma UnixNano_ltb t u : nano_time t -> nano_time u -> (UnixNano t <? UnixNano u) = (t <? u).
Proof. intros Ht Hu. unfold UnixNano. rewrite !wrap64_id by done. apply eq_true_iff_eq. rewrite !Z.ltb_lt. lia. Qed.

Lemma UnixNano_eqb t u : nano_time t -> nano_time u -> (UnixNano t =? UnixNano u) = (t =? u).
Proof. intros Ht Hu. unfold UnixNano. rewrite !wrap64_id by done. apply eq_true_iff_eq. rewrite !Z.eqb_eq. lia. Qed.

Lemma event_after_less a b : nano_time (ev_TsStart a) -> nano_time (ev_TsStart b) ->
  event_after a (Some (event_cursor b)) = search_less b a.
Proof.
  intros Ha Hb. rewrite (search_less_by b a). kred. unfold event_after, event_cursor; simpl.
  rewrite UnixNano_ltb, UnixNano_eqb by done.
  destruct (Z.ltb_spec (ev_TsStart a) (ev_TsStart b)), (Z.eqb_spec (ev_TsStart a) (ev_TsStart b)),
    (Z.ltb_spec (ev_TsStart b) (ev_TsStart a)); simpl; try done; lia.
Qed.

Lemma trace_after_less a b : nano_time (ts_TsStart a) -> nano_time (ts_TsStart b) ->
  trace_after a (Some (trace_cursor b)) = summary_less b a.
Proof.
  intros Ha Hb. rewrite (summary_less_by b a). kred. unfold trace_after, trace_cursor; simpl.
  rewrite UnixNano_ltb, UnixNano_eqb by done.
  destruct (Z.ltb_spec (ts_TsStart a) (ts_TsStart b)), (Z.eqb_spec (ts_TsStart a) (ts_TsStart b)),
    (Z.ltb_spec (ts_TsStart b) (ts_TsStart a)); simpl; try done; lia.
Qed.

(** ** Search *)

Definition matching (f : SearchFilter) (evs : list Event) : list Event :=
  List.filter (fun ev => eventMatchesFilter ev f) evs.

Lemma search_rows_sorted it evs f :
  NoDup (ev_EventID <$> evs) -> search_rows it (index_of evs) f = ssort search_less (matching f evs).
Proof.
  intros Hnd. unfold search_rows, matching. apply (ssort_perm_eq search_less (fun ev => (down (ev_TsStart ev), ev_EventID ev))).
  - intros a b Ha Hb. intros Hk. apply elem_of_lfilter in Ha as [Ha _], Hb as [Hb _].
    rewrite SnapshotEvents_perm in Ha, Hb by done. simplify_eq. by apply (NoDup_fmap_inj_on ev_EventID evs).
  - by apply lfilter_perm, SnapshotEvents_perm.
Qed.

(** Requesting page after page, each request with a map order of its own. *)
Definition search_call (its : nat -> MapIter) (r : Reader) (f : SearchFilter) (limit : Z) (n : nat) (c : option EventCursor)
    : list Event * option EventCursor :=
  let res := SearchEvents (its n) r f c limit in (es_Events res, es_NextCursor res).

(** Following the cursors of an event search returns every matching event of the
    index exactly once, newest first, whatever order maps are visited in at each
    request. *)
Theorem SearchEvents_pages (its : nat -> MapIter) (evs : list Event) (f : SearchFilter) (limit : Z) :
  NoDup (ev_EventID <$> evs) -> Forall (fun ev => nano_time (ev_TsStart ev)) evs -> 0 < limit ->
  client (search_call its (Some (index_of evs)) f limit) (S (length (matching f evs))) 0 None
  = Some (cloneEvent <$> ssort search_less (matching f evs)).
Proof.
  intros Hnd Hnano Hlim. rewrite Forall_forall in Hnano.
  apply (client_all event_after event_cursor (Z.to_nat limit) _ search_less (fun ev => (down (ev_TsStart ev), ev_EventID ev))).
  - lia.
  - done.
  - intros a b [Ha _]%elem_of_lfilter [Hb _]%elem_of_lfilter. by apply event_after_less; apply Hnano.
  - apply NoDup_fmap_1 with (f := snd). rewrite <- list_fmap_compose. by apply NoDup_fmap_lfilter.
  - intros n c. unfold search_call, SearchEvents, page. rewrite (proj2 (Z.leb_gt _ _)) by done.
    rewrite search_rows_sorted by done. by destruct (page_loop _ _ _ _).
Qed.

Definition any_filter : SearchFilter := mkSearchFilter "" ∅ "" "" 0 0 true.
Definition epoch_trace : list Event :=
  (fun ev => mkEvent (ev_SchemaVersion ev) (ev_EventID ev) (unix_epoch + ev_TsStart ev) (unix_epoch + ev_TsEnd ev)
    (ev_DurationMS ev) (ev_Kind ev) (ev_Service ev) (ev_Env ev) (ev_Version ev) (ev_TraceID ev) (ev_SpanID ev)
    (ev_ParentSpanID ev) (ev_Status ev) (ev_Anchor ev) (ev_Steps ev) (ev_Logs ev) (ev_Fields ev) (ev_Errors ev))
  <$> linked_trace.

Lemma SearchEvents_pages_witness :
  client (search_call (fun _ => iter_reverse) (Some (index_of epoch_trace)) any_filter 1)
    (S (length (matching any_filter epoch_trace))) 0 None
  = Some (cloneEvent <$> ssort search_less (matching any_filter epoch_trace)).
Proof.
  apply SearchEvents_pages.
  - by_decide.
  - repeat constructor.
  - lia.
Defined.

(** ** Recent traces *)

Lemma trace_bounds_start events m e :
  let r := foldl (fun '(minStart, maxEnd) ev =>
    (if IsZero minStart || Before (ev_TsStart ev) minStart then ev_TsStart ev else minStart,
     if IsZero maxEnd || After (ev_TsEnd ev) maxEnd then ev_TsEnd ev else maxEnd)) (m, e) events in
  r.1 = m \/ exists ev, ev ∈ events /\ r.1 = ev_TsStart ev.
Proof.
  revert m e. induction events as [|ev events IH]; intros m e; simpl; [by left|].
  destruct (IH (if IsZero m || Before (ev_TsStart ev) m then ev_TsStart ev else m)
               (if IsZero e || After (ev_TsEnd ev) e then ev_TsEnd ev else e)) as [H|(x & Hx & H)].
  - rewrite H. case_if; [|by left]. right. exists ev. split; [left|done].
  - right. exists x. split; [by right|done].
Qed.

Lemma buildTraceSummary_fields it t events ex s :
  buildTraceSummary it t events ex = Some s ->
  ts_TraceID s = t /\ exists ev, ev ∈ events /\ ts_TsStart s = ev_TsStart ev.
Proof.
  unfold buildTraceSummary. destruct events as [|e events]; [done|].
  destruct (OrderTrace it (e :: events)) as [[|o ordered] linkage]; [done|].
  destruct (trace_bounds (e :: events)) as [m me] eqn:Hb.
  destruct (ar_Event _) as [a|]; [|done]. intros ?; simplify_eq/=. split; [done|].
  unfold trace_bounds in Hb. simpl in Hb.
  destruct (trace_bounds_start events (ev_TsStart e) (ev_TsEnd e)) as [H|(x & Hx & H)].
  - rewrite Hb in H. exists e. split; [left|done].
  - rewrite Hb in H. exists x. split; [by right|done].
Qed.

Lemma trace_summary_iter it1 it2 f kv :
  acyclic it1 kv.2 -> trace_summary it1 f kv = trace_summary it2 f kv.
Proof.
  intros Hac. unfold trace_summary, buildTraceSummary. destruct (traceHasMatchingEvent kv.2 f); [|done].
  destruct kv as [t [|e events]]; [done|]. simpl snd in *. simpl fst.
  rewrite (OrderTrace_iter it1 it2). by rewrite (ResolveAnchor_iter it1 it2 _ _ Hac).
Qed.

(** The summaries in the canonical order of traces. *)
Definition summaries (idx : RecentIndex) (f : SearchFilter) : list TraceSummary :=
  map_to_list (byTrace idx) ≫= trace_summary iter_canonical f.

Definition all_acyclic (idx : RecentIndex) : Prop :=
  forall t events, byTrace idx !! t = Some events -> acyclic iter_canonical events.

Lemma elem_of_summaries idx f s :
  s ∈ summaries idx f -> exists t events, byTrace idx !! t = Some events /\
    ts_TraceID s = t /\ exists ev, ev ∈ events /\ ts_TsStart s = ev_TsStart ev.
Proof.
  intros H. apply list_elem_of_bind in H as ([t events] & Hs & Hin). apply elem_of_map_to_list in Hin.
  exists t, events. split; [done|]. unfold trace_summary in Hs. simpl in Hs.
  destruct (traceHasMatchingEvent events f); [|by apply elem_of_nil in Hs].
  destruct (buildTraceSummary _ _ _ _) as [s'|] eqn:E; [|by apply elem_of_nil in Hs].
  apply list_elem_of_singleton in Hs as ->. by eapply buildTraceSummary_fields.
Qed.

Lemma NoDup_summaries idx f : NoDup (ts_TraceID <$> summaries idx f).
Proof.
  unfold summaries. pose proof (NoDup_fst_map_to_list (byTrace idx)) as Hnd.
  induction (map_to_list (byTrace idx)) as [|[t events] l IH]; simpl; [constructor|].
  apply NoDup_cons in Hnd as [Hni Hnd]. rewrite fmap_app. apply NoDup_app. split; [|split; [|by apply IH]].
  - unfold trace_summary. destruct (traceHasMatchingEvent _ f); [|constructor].
    destruct (buildTraceSummary _ _ _ _); [apply NoDup_singleton|constructor].
  - intros x Hx Hx2. apply Hni. clear Hnd IH Hni.
    assert (Hid : forall kv s, s ∈ trace_summary iter_canonical f kv -> ts_TraceID s = kv.1).
    { intros kv s Hs. unfold trace_summary in Hs. destruct (traceHasMatchingEvent _ f); [|by apply elem_of_nil in Hs].
      destruct (buildTraceSummary _ _ _ _) as [s'|] eqn:E; [|by apply elem_of_nil in Hs].
      apply list_elem_of_singleton in Hs as ->. by apply buildTraceSummary_fields in E as []. }
    apply list_elem_of_fmap in Hx as (s & -> & Hs). apply Hid in Hs. rewrite Hs in Hx2.
    apply list_elem_of_fmap in Hx2 as (s2 & Heq & Hs2).
    change (s2 ∈ (l ≫= trace_summary iter_canonical f)) in Hs2.
    apply list_elem_of_bind in Hs2 as (kv & Hs2 & Hkv). apply Hid in Hs2. simpl in Heq. simpl in Heq |- *. rewrite Heq, Hs2.
    by apply list_elem_of_fmap_2.
Qed.

Lemma trace_rows_sorted it idx f :
  all_acyclic idx -> trace_rows it idx f = ssort summary_less (summaries idx f).
Proof.
  intros Hac. unfold trace_rows, SnapshotTraces.
  assert (Heq : forall l, (forall kv, kv ∈ l -> kv ∈ mrange it 1 (byTrace idx)) ->
    l ≫= trace_summary it f = l ≫= trace_summary iter_canonical f).
  { induction l as [|[t events] l IH]; intros Hl; [done|]. cbn [mbind list_bind].
    change (list_bind _ _ (trace_summary it f) l) with (l ≫= trace_summary it f).
    change (list_bind _ _ (trace_summary iter_canonical f) l) with (l ≫= trace_summary iter_canonical f).
    rewrite IH by (intros x Hx; apply Hl; by right). f_equal. symmetry. apply trace_summary_iter.
    apply (Hac t). apply (elem_of_mrange it 1). apply Hl. left. }
  rewrite Heq by done.
  apply (ssort_perm_eq summary_less (fun s => (down (ts_TsStart s), ts_TraceID s))).
  - intros a b Ha Hb Hk. simplify_eq. apply (NoDup_fmap_inj_on ts_TraceID (summaries idx f));
      [apply NoDup_summaries| | |done]; unfold summaries; by rewrite <- (mrange_perm it 1).
  - unfold summaries. by rewrite (mrange_perm it 1).
Qed.

Definition trace_call (its : nat -> MapIter) (r : Reader) (f : SearchFilter) (limit : Z) (n : nat) (c : option TraceCursor)
    : list TraceSummary * option TraceCursor :=
  let res := RecentTraces (its n) r f c limit in (rt_Traces res, rt_NextCursor res).

(** When no trace has cyclic parent links, following the cursors of the trace list
    returns one summary per matching trace, newest first, whatever order maps are
    visited in at each request. *)
Theorem RecentTraces_pages (its : nat -> MapIter) (evs : list Event) (f : SearchFilter) (limit : Z) :
  Forall (fun ev => nano_time (ev_TsStart ev)) evs -> all_acyclic (index_of evs) -> 0 < limit ->
  client (trace_call its (Some (index_of evs)) f limit) (S (length (summaries (index_of evs) f))) 0 None
  = Some (ssort summary_less (summaries (index_of evs) f)) /\
  NoDup (ts_TraceID <$> summaries (index_of evs) f).
Proof.
  intros Hnano Hac Hlim. split; [|apply NoDup_summaries]. rewrite Forall_forall in Hnano.
  assert (Hrow : forall s, s ∈ summaries (index_of evs) f -> nano_time (ts_TsStart s)).
  { intros s Hs. apply elem_of_summaries in Hs as (t & events & Ht & _ & ev & Hev & ->). apply Hnano.
    rewrite byTrace_index_of in Ht. unfold trace_entry in Ht.
    destruct (List.filter (in_trace t) evs) eqn:E; [done|]. simplify_eq. rewrite <- E in Hev.
    by apply elem_of_lfilter in Hev as []. }
  rewrite <- (list_fmap_id (ssort _ _)).
  apply (client_all trace_after trace_cursor (Z.to_nat limit) id summary_less (fun s => (down (ts_TsStart s), ts_TraceID s))).
  - lia.
  - done.
  - intros a b Ha Hb. apply trace_after_less; auto.
  - apply NoDup_fmap_1 with (f := snd). rewrite <- list_fmap_compose. apply NoDup_summaries.
  - intros n c. unfold trace_call, RecentTraces, page. rewrite (proj2 (Z.leb_gt _ _)) by done.
    rewrite trace_rows_sorted by done. destruct (page_loop _ _ _ _) as [out more]. simpl.
    by rewrite list_fmap_id.
Qed.

Lemma RecentTraces_pages_witness :
  client (trace_call (fun _ => iter_reverse) (Some (index_of epoch_trace)) any_filter 5)
    (S (length (summaries (index_of epoch_trace) any_filter))) 0 None
  = Some (ssort summary_less (summaries (index_of epoch_trace) any_filter)) /\
  NoDup (ts_TraceID <$> summaries (index_of epoch_trace) any_filter).
Proof.
  apply RecentTraces_pages.
  - repeat constructor.
  - intros t events Ht. rewrite byTrace_index_of in Ht. unfold trace_entry in Ht.
    destruct (List.filter (in_trace t) epoch_trace) eqn:E; [discriminate|]. injection Ht as <-. rewrite <- E. clear E.
    destruct (String.eqb_spec t "t") as [->|Hne].
    + change (List.filter (in_trace "t") epoch_trace) with epoch_trace.
      assert (Hroot : chain (parents (buildTraceGraph iter_canonical epoch_trace)) "root" 0)
        by (apply chain_root; vm_compute; reflexivity).
      intros ev Hev. unfold epoch_trace, linked_trace in Hev. simpl in Hev.
      apply elem_of_cons in Hev as [->|Hev]; [|apply elem_of_cons in Hev as [->|Hev]].
      * exists (0 + 1). apply chain_step; [vm_compute; discriminate|exact Hroot].
      * exists 0. exact Hroot.
      * apply list_elem_of_singleton in Hev as ->. exists (0 + 1).
        apply chain_step; [vm_compute; discriminate|exact Hroot].
    + intros ev Hev. apply elem_of_lfilter in Hev as [Hin Ht]. exfalso. apply Hne.
      unfold in_trace in Ht. apply String.eqb_eq in Ht. rewrite <- Ht.
      unfold epoch_trace, linked_trace in Hin. simpl in Hin.
      repeat (apply elem_of_cons in Hin as [->|Hin]; [reflexivity|]). by apply elem_of_nil in Hin.
  - lia.
Defined.
