(* ===== verification/Derived.v ===== *)
(** Derived reads ([internal/ingest/v2/derived.go]): trace stories, error families, blast
    radius and service statistics, computed from snapshots of the hot index. *)

From S2P Require Import Prelude GoRuntime Types Family Index TraceGraph Reader.
Open Scope Z_scope.

(** ** Fields of an event *)

Definition userIDFromFields (fields : gmap string value) : string :=
  match fields !! "user" with
  | Some (VMap (Some user)) => as_string (user !! "id")
  | _ => ""
  end.

Definition routeFromV2Fields (fields : gmap string value) : string :=
  match fields !! "http" with
  | Some (VMap (Some h)) => as_string (h !! "route")
  | _ => ""
  end.

(** ** Stories *)

Definition step_end (step : Step) : Z := wrap64 (st_StartMS step + st_DurationMS step).

(** [sortSteps] breaks ties by the positions it is handed; a stable sort only ever asks
    whether the later element is less than the earlier one, where the tie-break is
    false, so it is the stable sort by start. *)
Definition step_less (a b : Step) : bool := st_StartMS a <? st_StartMS b.
Definition sortSteps (steps : list Step) : list Step := ssort step_less steps.

Definition latestAnchorStep (steps : list Step) (name : string) : option Step :=
  let '(fallback, latest) :=
    foldl (fun '(fallback, latest) step =>
      if negb (String.eqb (st_Name step) name) then (fallback, latest)
      else
        (match fallback with
         | Some f => if st_StartMS f <? st_StartMS step then Some step else fallback
         | None => Some step
         end,
         if String.eqb (st_Status step) StepStatusError
         then match latest with
              | Some l => if st_StartMS l <? st_StartMS step then Some step else latest
              | None => Some step
              end
         else latest)) (None, None) steps in
  match latest with Some l => Some l | None => fallback end.

Definition contributingSteps (ev : Event) : list Step * Z * bool :=
  let steps := ev_Steps ev in
  match ev_Anchor ev with
  | None => (sortSteps steps, 0, false)
  | Some a =>
    match latestAnchorStep steps (an_Step a) with
    | None => (sortSteps steps, 0, false)
    | Some anchorStep =>
      let anchorEnd := step_end anchorStep in
      (sortSteps (List.filter (fun step => step_end step <=? anchorEnd) steps), anchorEnd, true)
    end
  end.

Definition storyStep (step : Step) : StoryStep :=
  match st_Error step with
  | Some e => mkStoryStep (st_Name step) (st_StartMS step) (st_DurationMS step) (st_Status step) (se_Code e) (se_Reason e)
  | None => mkStoryStep (st_Name step) (st_StartMS step) (st_DurationMS step) (st_Status step) "" ""
  end.

Definition story_downstream (step : Step) : list StoryDownstream :=
  match st_Downstream step with
  | Some d => [mkStoryDownstream (st_Name step) (dn_Service d) (dn_Endpoint d)]
  | None => []
  end.

Definition story_log (firstStart anchorEnd : Z) (anchored : bool) (log : Log) : list StoryLog :=
  if negb (String.eqb (lg_Level log) LogLevelWarn) && negb (String.eqb (lg_Level log) LogLevelError) then []
  else if anchored && ((lg_TsOffsetMS log <? firstStart) || (anchorEnd <? lg_TsOffsetMS log)) then []
  else [mkStoryLog (lg_TsOffsetMS log) (lg_Level log) (lg_Msg log) ""].

Definition buildStory (ev : Event) (linkage : string) : StoryResponse :=
  let route := routeFromV2Fields (ev_Fields ev) in
  if String.eqb (ev_Status ev) StatusSuppressed
  then mkStoryResponse (ev_TraceID ev) (ev_Service ev) route (ev_Status ev) None [] [] [] linkage
  else
    let anchor := (fun a => mkStoryAnchor (an_Step a) (an_ErrorCode a)) <$> ev_Anchor ev in
    let '(steps, anchorEnd, anchored) := contributingSteps ev in
    let firstStart := match steps with [] => 0 | step :: _ => st_StartMS step end in
    mkStoryResponse (ev_TraceID ev) (ev_Service ev) route (ev_Status ev) anchor
      (storyStep <$> steps) (ev_Logs ev ≫= story_log firstStart anchorEnd anchored)
      (steps ≫= story_downstream) linkage.

Definition TraceStoryByEventID (r : Reader) (eventID : string) : option StoryResponse :=
  (fun ev => buildStory ev LinkageDirect) <$> GetEvent r eventID.

Definition TraceStoryByTraceID (it : MapIter) (r : Reader) (traceID : string) : option StoryResponse :=
  match r with
  | None => None
  | Some idx =>
    if String.eqb traceID "" then None
    else
      match SnapshotTrace idx traceID with
      | [] => None
      | events =>
        let resolved := ResolveAnchorWithOptions it events true in
        (fun ev => buildStory (cloneEvent ev) (ar_Linkage resolved)) <$> ar_Event resolved
      end
  end.

(** ** Rollups *)

Definition nullableCount (n : Z) (known : bool) : option Z := if known then Some n else None.

Definition timeWindowString (since until : Time) : string :=
  if IsZero since || IsZero until || Before until since then ""
  else DurationString (TimeSub until since).

(** [if latest, ok := m[t]; !ok || ts.After(latest) { m[t] = ts }] *)
Definition touch_latest (m : gmap string Time) (ev : Event) : gmap string Time :=
  match m !! ev_TraceID ev with
  | Some latest => if After (ev_TsStart ev) latest then <[ev_TraceID ev := ev_TsStart ev]> m else m
  | None => <[ev_TraceID ev := ev_TsStart ev]> m
  end.

Definition trace_list (traces : gmap string (list Event)) (t : string) : list Event := default [] (traces !! t).

Definition collectUsersForTraces (it : MapIter) (traces : gmap string (list Event)) (traceSet : gmap string Time)
    : gset string :=
  foldl (fun users traceID =>
    foldl (fun users ev =>
      let userID := userIDFromFields (ev_Fields ev) in
      if negb (String.eqb userID "") then {[userID]} ∪ users else users) users (trace_list traces traceID))
    ∅ (mrange it 2 traceSet).*1.

Definition trace_services (events : list Event) : gset string :=
  foldl (fun seen ev => if String.eqb (ev_Service ev) "" then seen else {[ev_Service ev]} ∪ seen) ∅ events.

Definition bump (m : gmap string Z) (k : string) : gmap string Z := <[k := default 0 (m !! k) + 1]> m.

(** The inner [range] is over a set; its keys are ranged over as a map to unit. *)
Definition countServicesForTraces (it : MapIter) (traces : gmap string (list Event)) (traceSet : gmap string Time)
    : gmap string Z :=
  foldl (fun services traceID =>
    foldl bump services (mrange it 4 (gset_to_gmap tt (trace_services (trace_list traces traceID)))).*1)
    ∅ (mrange it 3 traceSet).*1.

Definition trace_item_less (a b : string * Time) : bool :=
  if negb (TimeEqual a.2 b.2) then After a.2 b.2 else String.ltb a.1 b.1.

Definition sampleTraces (it : MapIter) (traceLatest : gmap string Time) (limit : nat) : list string :=
  (take limit (ssort trace_item_less (mrange it 5 traceLatest))).*1.

Definition service_item_less (a b : string * Z) : bool :=
  if negb (a.2 =? b.2) then b.2 <? a.2 else String.ltb a.1 b.1.

Definition topServices (it : MapIter) (counts : gmap string Z) (limit : nat) : list string :=
  (take limit (ssort service_item_less (mrange it 6 counts))).*1.

Definition anchor_step (ev : Event) : string := match ev_Anchor ev with Some a => an_Step a | None => "" end.
Definition anchor_code (ev : Event) : string := match ev_Anchor ev with Some a => an_ErrorCode a | None => "" end.
Definition event_key (ev : Event) : ErrorKey := mkErrorKey (ev_Service ev) (anchor_step ev) (anchor_code ev).
Definition has_anchor (ev : Event) : bool := match ev_Anchor ev with Some _ => true | None => false end.

Definition eventMatchesErrorRollup (ev : Event) (f : SearchFilter) : bool :=
  if negb (has_anchor ev) || negb (IsFailed (ev_Status ev)) then false
  else if (0 <? size (sf_Statuses f))%nat && negb (bool_decide (ev_Status ev ∈ sf_Statuses f)) then false
  else if negb (String.eqb (sf_Service f) "") && negb (String.eqb (ev_Service ev) (sf_Service f)) then false
  else eventWithinWindow ev f.

Definition eventMatchesBlastKey (ev : Event) (f : SearchFilter) (key : BlastKeyMode) : bool :=
  if negb (has_anchor ev) || negb (IsFailed (ev_Status ev)) || negb (eventWithinWindow ev f) then false
  else if negb (String.eqb (bk_ErrorCode (bm_Key key)) (anchor_code ev)) then false
  else if bm_CrossCode key then true
  else String.eqb (ev_Service ev) (bk_Service (bm_Key key)) && String.eqb (anchor_step ev) (bk_Step (bm_Key key)).

(** ** Error families *)

Record errorAgg := mkErrorAgg { ag_key : ErrorKey; ag_count : Z; ag_traceLatest : gmap string Time }.

Definition agg_event (f : SearchFilter) (aggs : gmap ErrorKey errorAgg) (ev : Event) : gmap ErrorKey errorAgg :=
  if negb (eventMatchesErrorRollup ev f) then aggs
  else
    let key := event_key ev in
    let agg := default (mkErrorAgg key 0 ∅) (aggs !! key) in
    <[key := mkErrorAgg (ag_key agg) (ag_count agg + 1) (touch_latest (ag_traceLatest agg) ev)]> aggs.

Definition agg_row (it : MapIter) (traces : gmap string (list Event)) (agg : errorAgg) : ErrorRow :=
  let users := Z.of_nat (size (collectUsersForTraces it traces (ag_traceLatest agg))) in
  mkErrorRow (mkErrorFamily (ek_Service (ag_key agg)) (ek_Step (ag_key agg)) (ek_ErrorCode (ag_key agg)))
    (ag_count agg) (nullableCount users (0 <? users)) (Z.of_nat (size (ag_traceLatest agg)))
    (sampleTraces it (ag_traceLatest agg) 3).

Definition aggregateErrorRows (it : MapIter) (events : list Event) (traces : gmap string (list Event))
    (f : SearchFilter) : list ErrorRow :=
  agg_row it traces <$> (mrange it 7 (foldl (agg_event f) ∅ events)).*2.

Definition compareErrorRows (a b : ErrorRow) : Z :=
  if negb (row_Count a =? row_Count b) then row_Count b - row_Count a
  else
    let fa := row_ErrorFamily a in let fb := row_ErrorFamily b in
    if negb (String.eqb (ef_Service fa) (ef_Service fb)) then (if String.ltb (ef_Service fa) (ef_Service fb) then -1 else 1)
    else if negb (String.eqb (ef_Step fa) (ef_Step fb)) then (if String.ltb (ef_Step fa) (ef_Step fb) then -1 else 1)
    else if String.ltb (ef_ErrorCode fa) (ef_ErrorCode fb) then -1
    else if String.ltb (ef_ErrorCode fb) (ef_ErrorCode fa) then 1
    else 0.

Definition row_less (a b : ErrorRow) : bool := compareErrorRows a b <? 0.

Definition row_key (row : ErrorRow) : ErrorKey :=
  mkErrorKey (ef_Service (row_ErrorFamily row)) (ef_Step (row_ErrorFamily row)) (ef_ErrorCode (row_ErrorFamily row)).
Definition row_after (row : ErrorRow) (c : option ErrorCursor) : bool := afterErrorCursor (row_Count row) (row_key row) c.
Definition row_cursor (row : ErrorRow) : ErrorCursor :=
  mkErrorCursor (row_Count row) (ef_Service (row_ErrorFamily row)) (ef_Step (row_ErrorFamily row))
    (ef_ErrorCode (row_ErrorFamily row)).

Definition error_rows (it : MapIter) (idx : RecentIndex) (f : SearchFilter) : list ErrorRow :=
  ssort row_less (aggregateErrorRows it (SnapshotEvents it idx) (SnapshotTraces idx) f).

Definition Errors (it : MapIter) (r : Reader) (f : SearchFilter) (after : option ErrorCursor) (limit : Z) : ErrorsResult :=
  match r with
  | None => mkErrorsResult "" [] None
  | Some idx =>
    if limit <=? 0 then mkErrorsResult "" [] None
    else
      let '(out, hasMore) := page_loop (fun row => row_after row after) (Z.to_nat limit) (error_rows it idx f) [] in
      mkErrorsResult (timeWindowString (sf_Since f) (sf_Until f)) out
        (if hasMore && negb (length out =? 0)%nat then row_cursor <$> last out else None)
  end.

(** ** Blast radius *)

Definition matched_traces (it : MapIter) (idx : RecentIndex) (f : SearchFilter) (key : BlastKeyMode) : gmap string Time :=
  foldl (fun m ev => if negb (eventMatchesBlastKey ev f key) then m else touch_latest m ev) ∅ (SnapshotEvents it idx).

Definition BlastRadius (it : MapIter) (r : Reader) (f : SearchFilter) (key : BlastKeyMode) : BlastRadiusResponse :=
  match r with
  | None => mkBlastRadiusResponse (bm_Key key) "" (timeWindowString (sf_Since f) (sf_Until f)) 0 None 0 [] []
  | Some idx =>
    let traces := SnapshotTraces idx in
    let matchedTraceLatest := matched_traces it idx f key in
    let users := Z.of_nat (size (collectUsersForTraces it traces matchedTraceLatest)) in
    let services := countServicesForTraces it traces matchedTraceLatest in
    mkBlastRadiusResponse (bm_Key key)
      (if bm_CrossCode key then BlastViewCrossFamily else BlastViewSingleFamily)
      (timeWindowString (sf_Since f) (sf_Until f))
      (Z.of_nat (size matchedTraceLatest)) (nullableCount users (0 <? users)) (Z.of_nat (size services))
      (topServices it services 10) (sampleTraces it matchedTraceLatest 3)
  end.

(** ** Service statistics *)

Definition percentileInt64 (vs : list Z) (p : Z) : Z :=
  let n := Z.of_nat (length vs) in
  if n =? 0 then 0
  else
    let p := if p <? 1 then 1 else p in
    let p := if 99 <? p then 99 else p in
    let s := ssort Z.ltb vs in
    let rank := Z.quot (p * n + 99) 100 in
    let rank := if rank <? 1 then 1 else rank in
    let rank := if n <? rank then n else rank in
    default 0 (s !! Z.to_nat (rank - 1)).

Definition stats_event (f : SearchFilter) (percentile : Z) (acc : gmap string Z * gmap string (list Z)) (ev : Event)
    : gmap string Z * gmap string (list Z) :=
  let '(counts, durs) := acc in
  if String.eqb (ev_Service ev) "" then acc
  else if negb (String.eqb (sf_Service f) "") && negb (String.eqb (ev_Service ev) (sf_Service f)) then acc
  else if negb (eventWithinWindow ev f) then acc
  else (bump counts (ev_Service ev),
        if 0 <? percentile
        then <[ev_Service ev := default [] (durs !! ev_Service ev) ++ [ev_DurationMS ev]]> durs else durs).

Definition stats_less (a b : ServiceStatsRow) : bool :=
  if negb (sv_Count a =? sv_Count b) then sv_Count b <? sv_Count a else String.ltb (sv_Service a) (sv_Service b).

Definition ServiceStats (it : MapIter) (r : Reader) (f : SearchFilter) (percentile limit : Z) : list ServiceStatsRow :=
  match r with
  | None => []
  | Some idx =>
    let '(counts, durs) := foldl (stats_event f percentile) (∅, ∅) (SnapshotEvents it idx) in
    let rows := (fun '(svc, c) =>
      mkServiceStatsRow svc c (if 0 <? percentile then percentileInt64 (default [] (durs !! svc)) percentile else 0))
      <$> mrange it 8 counts in
    let rows := ssort stats_less rows in
    if (0 <? limit) && (limit <? Z.of_nat (length rows)) then take (Z.to_nat limit) rows else rows
  end.

(** ** Orders of the rows *)

#[export] Instance trace_item_less_by : LessBy trace_item_less (fun x => (down x.2, x.1)).
Proof. intros a b. unfold trace_item_less, TimeEqual, After. kred. solve_less. Qed.

#[export] Instance service_item_less_by : LessBy service_item_less (fun x => (down x.2, x.1)).
Proof. intros a b. unfold service_item_less. kred. solve_less. Qed.

#[export] Instance stats_less_by : LessBy stats_less (fun r => (down (sv_Count r), sv_Service r)).
Proof. intros a b. unfold stats_less. kred. solve_less. Qed.

#[export] Instance Zltb_less_by : LessBy Z.ltb (fun z : Z => z).
Proof. by intros a b. Qed.

#[export] Instance step_less_by : LessBy step_less st_StartMS.
Proof. by intros a b. Qed.

#[export] Instance row_less_by : LessBy row_less (fun r => (down (row_Count r),
  (ef_Service (row_ErrorFamily r), (ef_Step (row_ErrorFamily r), ef_ErrorCode (row_ErrorFamily r))))).
Proof.
  intros a b. unfold row_less, compareErrorRows. kred.
  destruct (Z.eqb_spec (row_Count a) (row_Count b)) as [->|Hne]; simpl.
  - rewrite Z.ltb_irrefl. simpl. solve_less.
  - destruct (Z.ltb_spec (row_Count b) (row_Count a)), (Z.ltb_spec (row_Count b - row_Count a) 0); simpl; try done; try lia.
Qed.

Lemma row_after_less a b : row_after a (Some (row_cursor b)) = row_less b a.
Proof.
  rewrite (row_less_by b a). kred. unfold row_after, row_cursor, row_key; simpl.
  destruct (Z.eqb_spec (row_Count a) (row_Count b)) as [->|Hne]; simpl.
  - rewrite Z.ltb_irrefl; simpl. solve_less.
  - destruct (Z.ltb_spec (row_Count a) (row_Count b)), (Z.ltb_spec (row_Count b) (row_Count a)); simpl; try done; lia.
Qed.

(** ** Map-order independence of the rollups *)

Lemma sampleTraces_iter it1 it2 m n : sampleTraces it1 m n = sampleTraces it2 m n.
Proof.
  unfold sampleTraces. do 2 f_equal. apply (ssort_perm_eq trace_item_less (fun x => (down x.2, x.1))); [|apply mrange_perm2].
  intros [a ta] [b tb] _ _. simpl. congruence.
Qed.

Lemma topServices_iter it1 it2 m n : topServices it1 m n = topServices it2 m n.
Proof.
  unfold topServices. do 2 f_equal. apply (ssort_perm_eq service_item_less (fun x => (down x.2, x.1))); [|apply mrange_perm2].
  intros [a ta] [b tb] _ _. simpl. congruence.
Qed.

Lemma elem_of_keys it site {V} (m : gmap string V) k : k ∈ (mrange it site m).*1 <-> k ∈ dom m.
Proof.
  rewrite list_elem_of_fmap, elem_of_dom. split.
  - intros ([k' v] & -> & H). apply elem_of_mrange in H. by eexists.
  - intros [v H]. exists (k, v). split; [done|]. by apply elem_of_mrange.
Qed.

(** The users seen in the given traces. *)
Lemma elem_of_users it traces ts u :
  u ∈ collectUsersForTraces it traces ts <->
  u <> "" /\ exists t ev, t ∈ dom ts /\ ev ∈ trace_list traces t /\ userIDFromFields (ev_Fields ev) = u.
Proof.
  unfold collectUsersForTraces. setoid_rewrite <- (elem_of_keys it 2).
  assert (Hin : forall evs s, u ∈ foldl (fun users ev =>
      if negb (String.eqb (userIDFromFields (ev_Fields ev)) "") then {[userIDFromFields (ev_Fields ev)]} ∪ users else users) s evs
      <-> u ∈ (s : gset string) \/ (u <> "" /\ exists ev, ev ∈ evs /\ userIDFromFields (ev_Fields ev) = u)).
  { induction evs as [|e evs IH]; intros s; simpl.
    - split; [by left|]. intros [?|(_ & ev & Hev & _)]; [done|by apply elem_of_nil in Hev].
    - rewrite IH. clear IH. destruct (String.eqb_spec (userIDFromFields (ev_Fields e)) "") as [He|He]; simpl;
        set_solver. }
  assert (Hout : forall l s, u ∈ foldl (fun users t => foldl (fun users ev =>
      if negb (String.eqb (userIDFromFields (ev_Fields ev)) "") then {[userIDFromFields (ev_Fields ev)]} ∪ users else users)
        users (trace_list traces t)) s l
      <-> u ∈ (s : gset string) \/ (u <> "" /\ exists t ev, t ∈ l /\ ev ∈ trace_list traces t /\ userIDFromFields (ev_Fields ev) = u)).
  { induction l as [|t l IH]; intros s; simpl.
    - split; [by left|]. intros [?|(_ & t & ev & Ht & _)]; [done|by apply elem_of_nil in Ht].
    - rewrite IH, Hin. clear IH. set_solver. }
  rewrite Hout. set_solver.
Qed.

Lemma collectUsers_iter it1 it2 traces ts :
  collectUsersForTraces it1 traces ts = collectUsersForTraces it2 traces ts.
Proof. apply set_eq. intros u. by rewrite !elem_of_users. Qed.

Lemma elem_of_trace_services evs s :
  s ∈ trace_services evs <-> s <> "" /\ exists ev, ev ∈ evs /\ ev_Service ev = s.
Proof.
  unfold trace_services.
  assert (H : forall l acc, s ∈ foldl (fun seen ev => if String.eqb (ev_Service ev) "" then seen else {[ev_Service ev]} ∪ seen) acc l
    <-> s ∈ (acc : gset string) \/ (s <> "" /\ exists ev, ev ∈ l /\ ev_Service ev = s)).
  { induction l as [|e l IH]; intros acc; simpl.
    - split; [by left|]. intros [?|(_ & ev & Hev & _)]; [done|by apply elem_of_nil in Hev].
    - rewrite IH. clear IH. destruct (String.eqb_spec (ev_Service e) ""); set_solver. }
  rewrite H. set_solver.
Qed.

(** *** Counting by key *)

Definition count_of (k : string) (l : list string) : nat := length (List.filter (String.eqb k) l).

Lemma bump_lookup l m k :
  foldl bump m l !! k = match count_of k l with O => m !! k | n => Some (default 0 (m !! k) + Z.of_nat n) end.
Proof.
  unfold count_of. revert m. induction l as [|x l IH]; intros m; cbn [foldl List.filter]; [done|]. rewrite IH. unfold bump.
  destruct (String.eqb_spec k x) as [->|Hne].
  - rewrite lookup_insert_eq. cbn [length default]. destruct (length _); f_equal; simpl; lia.
  - by rewrite lookup_insert_ne.
Qed.

Lemma bump_perm l1 l2 m : l1 ≡ₚ l2 -> foldl bump m l1 = foldl bump m l2.
Proof.
  intros Hp. apply map_eq. intros k. rewrite !bump_lookup. unfold count_of.
  by rewrite (Permutation_length (lfilter_perm (String.eqb k) _ _ Hp)).
Qed.

Definition service_list (it : MapIter) (traces : gmap string (list Event)) (ids : list string) : list string :=
  ids ≫= fun t => (mrange it 4 (gset_to_gmap tt (trace_services (trace_list traces t)))).*1.

Lemma countServices_bumps it traces ts :
  countServicesForTraces it traces ts = foldl bump ∅ (service_list it traces (mrange it 3 ts).*1).
Proof.
  unfold countServicesForTraces, service_list. generalize (∅ : gmap string Z).
  induction (mrange it 3 ts).*1 as [|t l IH]; intros m; [done|]. cbn [foldl mbind list_bind].
  by rewrite foldl_app, IH.
Qed.

Lemma countServices_iter it1 it2 traces ts :
  countServicesForTraces it1 traces ts = countServicesForTraces it2 traces ts.
Proof.
  rewrite !countServices_bumps. apply bump_perm. unfold service_list.
  rewrite (mrange_perm2 it1 it2 3 3 ts). induction (mrange it2 3 ts).*1 as [|t l IH]; [done|]. cbn [mbind list_bind].
  apply Permutation_app; [by rewrite (mrange_perm2 it1 it2 4 4)|exact IH].
Qed.

Lemma dom_countServices it traces ts s :
  s ∈ dom (countServicesForTraces it traces ts) <->
  exists t, t ∈ dom ts /\ s ∈ trace_services (trace_list traces t).
Proof.
  rewrite countServices_bumps, elem_of_dom, bump_lookup, lookup_empty.
  transitivity (s ∈ service_list it traces (mrange it 3 ts).*1).
  - unfold count_of. split.
    + intros [n Hn]. destruct (List.filter (String.eqb s) _) as [|x l] eqn:E; [done|].
      assert (Hx : x ∈ List.filter (String.eqb s) (service_list it traces (mrange it 3 ts).*1)) by (rewrite E; left).
      apply elem_of_lfilter in Hx as [Hx Heq]. apply String.eqb_eq in Heq as ->. done.
    + intros Hs. assert (Hx : s ∈ List.filter (String.eqb s) (service_list it traces (mrange it 3 ts).*1))
        by (apply elem_of_lfilter; by rewrite String.eqb_refl).
      destruct (List.filter _ _); [by apply elem_of_nil in Hx|]. by eexists.
  - unfold service_list. rewrite list_elem_of_bind. setoid_rewrite elem_of_keys. setoid_rewrite dom_gset_to_gmap.
    set_solver.
Qed.

(** ** What the rollups count *)

Definition latest_of (l : list Event) : gmap string Time := foldl touch_latest ∅ l.
Definition trace_ids (l : list Event) : gset string := list_to_set (ev_TraceID <$> l).

Lemma touch_latest_upd m ev :
  touch_latest m ev = upd (fun o => match o with Some t => Z.max t (ev_TsStart ev) | None => ev_TsStart ev end) (ev_TraceID ev) m.
Proof.
  unfold touch_latest, upd, After. destruct (m !! ev_TraceID ev) as [t|] eqn:E; [|done].
  destruct (Z.ltb_spec t (ev_TsStart ev)).
  - by rewrite Z.max_r by lia.
  - rewrite Z.max_l by lia. by rewrite insert_id.
Qed.

Lemma latest_perm l1 l2 : l1 ≡ₚ l2 -> latest_of l1 = latest_of l2.
Proof.
  apply foldl_perm. intros m x y. rewrite !touch_latest_upd. apply upd_comm.
  intros _ [o|]; lia.
Qed.

Lemma dom_latest l : dom (latest_of l) = trace_ids l.
Proof.
  unfold latest_of, trace_ids. induction l as [|ev l IH] using rev_ind; [done|].
  rewrite foldl_app, fmap_app, list_to_set_app_L. simpl. rewrite touch_latest_upd. unfold upd.
  rewrite dom_insert_L, IH. set_solver.
Qed.

Lemma size_latest l : size (latest_of l) = size (trace_ids l).
Proof. by rewrite <- dom_latest, size_dom. Qed.

Lemma trace_list_index evs t : trace_list (byTrace (index_of evs)) t = List.filter (in_trace t) evs.
Proof. unfold trace_list. rewrite byTrace_index_of. unfold trace_entry. by destruct (List.filter _ evs). Qed.

(** All events of the traces that the events of [l] belong to. *)
Definition affected (evs l : list Event) : list Event :=
  List.filter (fun ev => bool_decide (ev_TraceID ev ∈ trace_ids l)) evs.

Definition non_empty (l : list string) : gset string := list_to_set (List.filter (fun s => negb (String.eqb s "")) l).
Definition user_set (l : list Event) : gset string := non_empty ((fun ev => userIDFromFields (ev_Fields ev)) <$> l).
Definition service_set (l : list Event) : gset string := non_empty (ev_Service <$> l).

Lemma elem_of_non_empty s l : s ∈ non_empty l <-> s <> "" /\ s ∈ l.
Proof. unfold non_empty. rewrite elem_of_list_to_set, elem_of_lfilter, negb_true_iff, String.eqb_neq. tauto. Qed.

Lemma affected_traces evs l (P : Event -> Prop) :
  (exists t ev, t ∈ trace_ids l /\ ev ∈ List.filter (in_trace t) evs /\ P ev) <-> exists ev, ev ∈ affected evs l /\ P ev.
Proof.
  unfold affected, in_trace. split.
  - intros (t & ev & Ht & [Hin Heq]%elem_of_lfilter & HP). apply String.eqb_eq in Heq as <-.
    exists ev. split; [|done]. apply elem_of_lfilter. by rewrite bool_decide_eq_true_2.
  - intros (ev & [Hin Ht]%elem_of_lfilter & HP). apply bool_decide_eq_true in Ht.
    exists (ev_TraceID ev), ev. split; [done|]. split; [|done]. apply elem_of_lfilter. by rewrite String.eqb_refl.
Qed.

Lemma users_affected it evs l :
  collectUsersForTraces it (byTrace (index_of evs)) (latest_of l) = user_set (affected evs l).
Proof.
  apply set_eq. intros u. unfold user_set. rewrite elem_of_users, elem_of_non_empty, list_elem_of_fmap, dom_latest.
  setoid_rewrite trace_list_index. rewrite (affected_traces evs l (fun ev => userIDFromFields (ev_Fields ev) = u)).
  set_solver.
Qed.

Lemma services_affected it evs l :
  dom (countServicesForTraces it (byTrace (index_of evs)) (latest_of l)) = service_set (affected evs l).
Proof.
  apply set_eq. intros s. unfold service_set.
  rewrite dom_countServices, elem_of_non_empty, list_elem_of_fmap, dom_latest.
  setoid_rewrite elem_of_trace_services. setoid_rewrite trace_list_index. split.
  - intros (t & Ht & Hne & ev & Hev & Hs). split; [done|].
    destruct (proj1 (affected_traces evs l (fun ev => ev_Service ev = s))) as (e & He & <-); [|by exists e]. eauto 6.
  - intros (Hne & ev & -> & Hev).
    destruct (proj2 (affected_traces evs l (fun e => ev_Service e = ev_Service ev))) as (t & e & Ht & He & Heq); [by exists ev|].
    exists t. split; [done|]. split; [done|]. by exists e.
Qed.

(** *** Error families *)

Definition family_events (f : SearchFilter) (evs : list Event) (k : ErrorKey) : list Event :=
  List.filter (fun ev => eventMatchesErrorRollup ev f && bool_decide (event_key ev = k)) evs.

Definition family_agg (f : SearchFilter) (evs : list Event) (k : ErrorKey) : errorAgg :=
  mkErrorAgg k (Z.of_nat (length (family_events f evs k))) (latest_of (family_events f evs k)).

Lemma aggs_lookup f evs k :
  foldl (agg_event f) ∅ evs !! k =
  match family_events f evs k with [] => None | _ => Some (family_agg f evs k) end.
Proof.
  induction evs as [|ev evs IH] using rev_ind; [done|].
  rewrite foldl_app. cbn [foldl]. unfold family_agg, family_events in *. rewrite List.filter_app. simpl.
  set (m := foldl (agg_event f) ∅ evs) in *. unfold agg_event.
  destruct (eventMatchesErrorRollup ev f); simpl; [|by rewrite app_nil_r].
  destruct (decide (event_key ev = k)) as [<-|Hne].
  - rewrite bool_decide_eq_true_2 by done. rewrite lookup_insert_eq, IH. set (l := List.filter _ evs).
    assert (Hl : l ++ [ev] <> []) by by destruct l. destruct (l ++ [ev]) eqn:E; [done|]. rewrite <- E. clear E Hl.
    unfold latest_of. rewrite foldl_app, length_app. destruct l; simpl; do 2 f_equal; lia.
  - rewrite bool_decide_eq_false_2 by done. rewrite lookup_insert_ne by done. by rewrite app_nil_r.
Qed.

Lemma aggs_perm f evs1 evs2 : evs1 ≡ₚ evs2 -> foldl (agg_event f) ∅ evs1 = foldl (agg_event f) ∅ evs2.
Proof.
  intros Hp. apply map_eq. intros k. rewrite !aggs_lookup.
  assert (Hf : family_events f evs1 k ≡ₚ family_events f evs2 k) by by apply lfilter_perm.
  unfold family_agg. rewrite (Permutation_length Hf), (latest_perm _ _ Hf).
  destruct (family_events f evs1 k), (family_events f evs2 k); try done.
  - by apply Permutation_nil_cons in Hf.
  - by symmetry in Hf; apply Permutation_nil_cons in Hf.
Qed.

Lemma agg_row_iter it1 it2 traces agg : agg_row it1 traces agg = agg_row it2 traces agg.
Proof. unfold agg_row. by rewrite (collectUsers_iter it1 it2), (sampleTraces_iter it1 it2). Qed.

(** The rows in the canonical order of families. *)
Definition family_rows (evs : list Event) (f : SearchFilter) : list ErrorRow :=
  aggregateErrorRows iter_canonical evs (byTrace (index_of evs)) f.

Lemma row_key_agg it traces agg : row_key (agg_row it traces agg) = ag_key agg.
Proof. by destruct agg as [[] ? ?]. Qed.

Lemma elem_of_family_rows evs f row :
  row ∈ family_rows evs f <->
  exists k, family_events f evs k <> [] /\ row = agg_row iter_canonical (byTrace (index_of evs)) (family_agg f evs k).
Proof.
  unfold family_rows, aggregateErrorRows. rewrite list_elem_of_fmap. split.
  - intros (agg & -> & Hin). apply list_elem_of_fmap in Hin as ([k a] & -> & Hin). apply elem_of_mrange in Hin.
    rewrite aggs_lookup in Hin. destruct (family_events f evs k) eqn:E; [done|]. simplify_eq. exists k. by rewrite E.
  - intros (k & Hne & ->). exists (family_agg f evs k). split; [done|]. apply list_elem_of_fmap.
    exists (k, family_agg f evs k). split; [done|]. apply elem_of_mrange. rewrite aggs_lookup.
    by destruct (family_events f evs k).
Qed.

Lemma NoDup_family_rows evs f : NoDup (row_key <$> family_rows evs f).
Proof.
  unfold family_rows, aggregateErrorRows. rewrite <- !list_fmap_compose.
  pose proof (NoDup_fst_mrange iter_canonical 7 (foldl (agg_event f) ∅ evs)) as Hnd.
  erewrite list_fmap_ext; [exact Hnd|]. intros i [k a] Hi. apply list_elem_of_lookup_2, elem_of_mrange in Hi.
  rewrite aggs_lookup in Hi. destruct (family_events f evs k); [done|]. simplify_eq. simpl. by rewrite row_key_agg.
Qed.

Lemma aggregate_rows_perm it evs f :
  NoDup (ev_EventID <$> evs) ->
  aggregateErrorRows it (SnapshotEvents it (index_of evs)) (byTrace (index_of evs)) f ≡ₚ family_rows evs f.
Proof.
  intros Hnd. unfold family_rows, aggregateErrorRows.
  rewrite (aggs_perm f (SnapshotEvents it (index_of evs)) evs) by by apply SnapshotEvents_perm.
  rewrite (mrange_perm2 it iter_canonical 7 7).
  erewrite list_fmap_ext; [reflexivity|]. intros. apply agg_row_iter.
Qed.

Lemma error_rows_sorted it evs f :
  NoDup (ev_EventID <$> evs) -> error_rows it (index_of evs) f = ssort row_less (family_rows evs f).
Proof.
  intros Hnd. unfold error_rows, SnapshotTraces. pose proof (aggregate_rows_perm it evs f Hnd) as Hp.
  apply (ssort_perm_eq row_less (fun r => (down (row_Count r),
    (ef_Service (row_ErrorFamily r), (ef_Step (row_ErrorFamily r), ef_ErrorCode (row_ErrorFamily r)))))); [|done].
  intros a b Ha Hb Hk. rewrite Hp in Ha, Hb. apply (NoDup_fmap_inj_on row_key (family_rows evs f)); [apply NoDup_family_rows|done..|].
  unfold row_key. by simplify_eq; f_equal.
Qed.

Definition error_call (its : nat -> MapIter) (r : Reader) (f : SearchFilter) (limit : Z) (n : nat) (c : option ErrorCursor)
    : list ErrorRow * option ErrorCursor :=
  let res := Errors (its n) r f c limit in (xr_Rows res, xr_NextCursor res).

(** Following the cursors of the error list returns one row per error family with a
    matching event, most frequent first, whatever order maps are visited in at each
    request. *)
Theorem Errors_pages (its : nat -> MapIter) (evs : list Event) (f : SearchFilter) (limit : Z) :
  NoDup (ev_EventID <$> evs) -> 0 < limit ->
  client (error_call its (Some (index_of evs)) f limit) (S (length (family_rows evs f))) 0 None
  = Some (ssort row_less (family_rows evs f)) /\
  NoDup (row_key <$> family_rows evs f) /\
  forall k, k ∈ row_key <$> family_rows evs f <-> exists ev, ev ∈ evs /\ eventMatchesErrorRollup ev f = true /\ event_key ev = k.
Proof.
  intros Hnd Hlim. split; [|split; [apply NoDup_family_rows|]].
  - rewrite <- (list_fmap_id (ssort _ _)).
    apply (client_all row_after row_cursor (Z.to_nat limit) id row_less (fun r => (down (row_Count r),
      (ef_Service (row_ErrorFamily r), (ef_Step (row_ErrorFamily r), ef_ErrorCode (row_ErrorFamily r)))))).
    + lia.
    + done.
    + intros a b _ _. apply row_after_less.
    + apply NoDup_fmap_1 with (f := fun k => mkErrorKey k.2.1 k.2.2.1 k.2.2.2). rewrite <- list_fmap_compose.
      apply NoDup_family_rows.
    + intros n c. unfold error_call, Errors, page. rewrite (proj2 (Z.leb_gt _ _)) by done.
      rewrite error_rows_sorted by done. destruct (page_loop _ _ _ _) as [out more]. simpl. by rewrite list_fmap_id.
  - intros k. rewrite list_elem_of_fmap. setoid_rewrite elem_of_family_rows. split.
    + intros (row & -> & k' & Hne & ->). rewrite row_key_agg. simpl.
      destruct (family_events f evs k') as [|ev l] eqn:E; [done|].
      assert (Hev : ev ∈ family_events f evs k') by (rewrite E; left). apply elem_of_lfilter in Hev as [Hin Hb].
      bool_prop. by exists ev.
    + intros (ev & Hin & Hm & Hk). exists (agg_row iter_canonical (byTrace (index_of evs)) (family_agg f evs k)).
      split; [by rewrite row_key_agg|]. exists k. split; [|done].
      assert (Hev : ev ∈ family_events f evs k).
      { apply elem_of_lfilter. rewrite Hm. by rewrite bool_decide_eq_true_2. }
      intros E. rewrite E in Hev. by apply elem_of_nil in Hev.
Qed.

Lemma Errors_pages_witness :
  client (error_call (fun _ => iter_reverse) (Some (index_of prune_example)) any_filter 1)
    (S (length (family_rows prune_example any_filter))) 0 None
  = Some (ssort row_less (family_rows prune_example any_filter)).
Proof. refine (proj1 (Errors_pages (fun _ => iter_reverse) prune_example any_filter 1 _ _)); [by_decide|lia]. Defined.

(** The numbers of an error-family row are true of the index: its count is the number
    of matching events of the family, its affected traces are their distinct traces, and
    its affected users the distinct users seen anywhere in those traces. *)
Theorem Errors_counts (it : MapIter) (evs : list Event) (f : SearchFilter) (row : ErrorRow) :
  NoDup (ev_EventID <$> evs) -> row ∈ error_rows it (index_of evs) f ->
  let l := family_events f evs (row_key row) in
  let users := size (user_set (affected evs l)) in
  row_Count row = Z.of_nat (length l) /\ 0 < row_Count row /\
  row_AffectedTraces row = Z.of_nat (size (trace_ids l)) /\
  row_AffectedUsers row = (if (0 <? Z.of_nat users) then Some (Z.of_nat users) else None).
Proof.
  intros Hnd Hin. rewrite error_rows_sorted, elem_of_ssort in Hin by done.
  apply elem_of_family_rows in Hin as (k & Hne & ->). rewrite row_key_agg.
  cbn [row_Count row_AffectedTraces row_AffectedUsers agg_row ag_count ag_traceLatest family_agg ag_key].
  rewrite size_latest, users_affected. split; [done|]. split; [destruct (family_events f evs k); [done|simpl; lia]|].
  done.
Qed.

Lemma Errors_counts_witness :
  exists row, row ∈ error_rows iter_reverse (index_of prune_example) any_filter /\ 0 < row_Count row.
Proof.
  assert (Hnd : NoDup (ev_EventID <$> prune_example)) by by_decide.
  assert (Hrow : mkErrorRow (mkErrorFamily "pay" "charge" "PMT_502") 1 None 1 ["t1"]
     ∈ error_rows iter_reverse (index_of prune_example) any_filter) by (vm_compute; right; left).
  eexists. split; [exact Hrow|]. exact (proj1 (proj2 (Errors_counts iter_reverse prune_example any_filter _ Hnd Hrow))).
Defined.

(** ** Blast radius *)

Definition blast_events (f : SearchFilter) (key : BlastKeyMode) (evs : list Event) : list Event :=
  List.filter (fun ev => eventMatchesBlastKey ev f key) evs.

Lemma matched_traces_latest it evs f key :
  NoDup (ev_EventID <$> evs) -> matched_traces it (index_of evs) f key = latest_of (blast_events f key evs).
Proof.
  intros Hnd. rewrite <- (latest_perm (blast_events f key (SnapshotEvents it (index_of evs))))
    by by apply lfilter_perm, SnapshotEvents_perm.
  unfold matched_traces, latest_of, blast_events. generalize (∅ : gmap string Time).
  induction (SnapshotEvents it (index_of evs)) as [|ev l IH]; intros m; simpl; [done|].
  destruct (eventMatchesBlastKey ev f key); simpl; apply IH.
Qed.

(** The blast radius of a key does not depend on map order and counts what it says:
    the distinct traces with a matching failure, the distinct users and the distinct
    services seen anywhere in those traces. *)
Theorem BlastRadius_counts (it : MapIter) (evs : list Event) (f : SearchFilter) (key : BlastKeyMode) :
  NoDup (ev_EventID <$> evs) ->
  let r := BlastRadius it (Some (index_of evs)) f key in
  let l := blast_events f key evs in
  let users := size (user_set (affected evs l)) in
  br_AffectedRequests r = Z.of_nat (size (trace_ids l)) /\
  br_AffectedUsers r = (if 0 <? Z.of_nat users then Some (Z.of_nat users) else None) /\
  br_AffectedServices r = Z.of_nat (size (service_set (affected evs l))) /\
  forall it', BlastRadius it' (Some (index_of evs)) f key = r.
Proof.
  intros Hnd r l users. unfold r, BlastRadius, SnapshotTraces. rewrite matched_traces_latest by done.
  cbn [br_AffectedRequests br_AffectedUsers br_AffectedServices].
  rewrite size_latest, users_affected. fold l. fold users. split; [done|]. split; [done|]. split.
  - rewrite <- (services_affected it evs l). by rewrite size_dom.
  - intros it'. rewrite !matched_traces_latest by done. fold l. rewrite users_affected, size_latest.
    by rewrite (countServices_iter it' it), (topServices_iter it' it), (sampleTraces_iter it' it).
Qed.

Lemma BlastRadius_counts_witness :
  br_AffectedServices (BlastRadius iter_reverse (Some (index_of prune_example)) any_filter
    (mkBlastKeyMode (mkBlastKey "pay" "charge" "PMT_502") false)) = 2.
Proof.
  assert (Hnd : NoDup (ev_EventID <$> prune_example)) by by_decide.
  etransitivity; [exact (proj1 (proj2 (proj2 (BlastRadius_counts iter_reverse prune_example any_filter
    (mkBlastKeyMode (mkBlastKey "pay" "charge" "PMT_502") false) Hnd))))|]. vm_compute. reflexivity.
Defined.

(** ** Percentiles *)

Definition count_if (p : Z -> bool) (l : list Z) : Z := Z.of_nat (length (List.filter p l)).

Lemma count_if_perm p l1 l2 : l1 ≡ₚ l2 -> count_if p l1 = count_if p l2.
Proof. intros H. unfold count_if. by rewrite (Permutation_length (lfilter_perm p _ _ H)). Qed.

(** In a sorted list, at most [i] values are below the value at [i], and more than [i]
    are not above it. *)
Lemma sorted_rank l i v :
  ssorted Z.ltb l -> l !! i = Some v ->
  count_if (fun x => x <? v) l <= Z.of_nat i /\ Z.of_nat i < count_if (fun x => x <=? v) l.
Proof.
  intros Hs Hi. assert (Hle : forall j w, l !! j = Some w -> (j <= i)%nat -> w <= v).
  { clear -Hs Hi. revert i Hi. induction Hs as [|x l Hs IH Hx]; intros [|i] Hi [|j] w Hj Hji; simplify_eq/=; try done; try lia.
    - rewrite Forall_forall in Hx. specialize (Hx v). cbv beta in Hx.
      apply list_elem_of_lookup_2 in Hi. specialize (Hx Hi). by apply Z.ltb_ge in Hx.
    - eapply IH; [exact Hi|exact Hj|lia]. }
  assert (Hge : forall j w, l !! j = Some w -> (i <= j)%nat -> v <= w).
  { clear -Hs Hi. revert i Hi. induction Hs as [|x l Hs IH Hx]; intros [|i] Hi [|j] w Hj Hji; simplify_eq/=; try done; try lia.
    - rewrite Forall_forall in Hx. specialize (Hx w). cbv beta in Hx.
      apply list_elem_of_lookup_2 in Hj. specialize (Hx Hj). by apply Z.ltb_ge in Hx.
    - eapply IH; [exact Hi|exact Hj|lia]. }
  assert (Hlt : (i < length l)%nat) by (by apply lookup_lt_Some in Hi).
  assert (Hsplit : forall (p : Z -> bool) k,
    length (List.filter p l) = (length (List.filter p (take k l)) + length (List.filter p (drop k l)))%nat).
  { intros p k. by rewrite <- length_app, <- List.filter_app, take_drop. }
  unfold count_if. split.
  - rewrite (Hsplit _ i), (lfilter_none _ (drop i l)); simpl.
    + pose proof (List.filter_length_le (fun x => x <? v) (take i l)). rewrite length_take in *. lia.
    + intros x (j & Hj)%list_elem_of_lookup. rewrite lookup_drop in Hj.
      apply Z.ltb_ge. eapply Hge; [exact Hj|lia].
  - rewrite (Hsplit _ (S i)), (lfilter_all _ (take (S i) l)).
    + rewrite length_take. lia.
    + intros x (j & Hj)%list_elem_of_lookup. apply lookup_take_Some in Hj as [Hj Hji].
      apply Z.leb_le. eapply Hle; [exact Hj|lia].
Qed.

(** The nearest-rank percentile: a value of the sample with fewer than p% of the sample
    below it, and at least p% of the sample at or below it. *)
Lemma percentile_rank (vs : list Z) (p : Z) :
  vs <> [] -> 1 <= p <= 99 ->
  let v := percentileInt64 vs p in
  v ∈ vs /\ 100 * count_if (fun x => x <? v) vs < p * Z.of_nat (length vs)
  /\ p * Z.of_nat (length vs) <= 100 * count_if (fun x => x <=? v) vs.
Proof.
  intros Hne Hp v. unfold v, percentileInt64. set (n := Z.of_nat (length vs)).
  assert (Hn : 0 < n) by (destruct vs; [done|unfold n; simpl; lia]).
  rewrite (proj2 (Z.eqb_neq n 0)) by lia. rewrite (proj2 (Z.ltb_ge p 1)), (proj2 (Z.ltb_ge 99 p)) by lia.
  set (rank := Z.quot (p * n + 99) 100).
  assert (Hrank : p * n <= 100 * rank < p * n + 100).
  { unfold rank. rewrite Z.quot_div_nonneg by lia.
    pose proof (Z.div_mod (p * n + 99) 100). pose proof (Z.mod_pos_bound (p * n + 99) 100). lia. }
  rewrite (proj2 (Z.ltb_ge rank 1)), (proj2 (Z.ltb_ge n rank)) by nia.
  assert (Hlk : is_Some (ssort Z.ltb vs !! Z.to_nat (rank - 1))).
  { apply lookup_lt_is_Some. rewrite ssort_length. unfold n in *. nia. }
  destruct Hlk as [w Hw]. rewrite Hw. simpl.
  destruct (sorted_rank (ssort Z.ltb vs) _ w (ssort_sorted Z.ltb (fun z => z) vs) Hw) as [H1 H2].
  rewrite (count_if_perm _ _ _ (ssort_perm Z.ltb vs)) in H1. rewrite (count_if_perm _ _ _ (ssort_perm Z.ltb vs)) in H2.
  apply list_elem_of_lookup_2 in Hw. rewrite elem_of_ssort in Hw. split; [done|]. lia.
Qed.

(** ** Service statistics *)

Definition in_stats (f : SearchFilter) (ev : Event) : bool :=
  negb (String.eqb (ev_Service ev) "") && (String.eqb (sf_Service f) "" || String.eqb (ev_Service ev) (sf_Service f)) &&
  eventWithinWindow ev f.

Definition stats_events (f : SearchFilter) (evs : list Event) (svc : string) : list Event :=
  List.filter (fun ev => in_stats f ev && String.eqb (ev_Service ev) svc) evs.

Definition opt_length {A} (l : list A) : option Z := match l with [] => None | _ => Some (Z.of_nat (length l)) end.

Lemma opt_length_snoc {A} (l : list A) (x : A) :
  opt_length (l ++ [x]) = Some (default 0 (opt_length l) + 1).
Proof. destruct l as [|y l]; simpl; [done|]. f_equal. rewrite length_app. simpl. lia. Qed.

Lemma opt_length_Some {A} (l : list A) n : Some n = opt_length l -> n = Z.of_nat (length l) /\ l <> [].
Proof. destruct l; simpl; [done|]. intros H. by simplify_eq. Qed.

Lemma stats_lookup f p evs svc :
  let acc := foldl (stats_event f p) (∅, ∅) evs in
  acc.1 !! svc = opt_length (stats_events f evs svc) /\
  default [] (acc.2 !! svc) = if 0 <? p then ev_DurationMS <$> stats_events f evs svc else [].
Proof.
  induction evs as [|ev evs IH] using rev_ind.
  { simpl. rewrite !lookup_empty. by destruct (0 <? p). }
  unfold stats_events in *. rewrite foldl_app, List.filter_app. simpl in *. set (l := List.filter _ evs) in *.
  destruct (foldl (stats_event f p) (∅, ∅) evs) as [counts durs]. simpl in IH. destruct IH as [IH1 IH2].
  unfold stats_event, in_stats. destruct (String.eqb_spec (ev_Service ev) ""); simpl; [by rewrite app_nil_r|].
  destruct (String.eqb_spec (sf_Service f) ""), (String.eqb_spec (ev_Service ev) (sf_Service f)); simpl;
    rewrite ?app_nil_r; try done.
  all: destruct (eventWithinWindow ev f); simpl; [|by rewrite app_nil_r].
  all: destruct (String.eqb_spec (ev_Service ev) svc) as [<-|Hne]; simpl; rewrite ?app_nil_r.
  1,3,5: unfold bump; rewrite lookup_insert_eq, IH1, opt_length_snoc; split; [done|]; destruct (0 <? p); [|done];
    rewrite lookup_insert_eq; simpl; by rewrite IH2, fmap_app.
  all: unfold bump; rewrite lookup_insert_ne by done; split; [done|]; destruct (0 <? p); [|done];
    by rewrite lookup_insert_ne.
Qed.

(** The statistics row of a service over the events of the window. *)
Definition stats_row (f : SearchFilter) (percentile : Z) (evs : list Event) (svc : string) : ServiceStatsRow :=
  let l := stats_events f evs svc in
  mkServiceStatsRow svc (Z.of_nat (length l))
    (if 0 <? percentile then percentileInt64 (ev_DurationMS <$> l) percentile else 0).

Lemma percentile_perm l1 l2 p : l1 ≡ₚ l2 -> percentileInt64 l1 p = percentileInt64 l2 p.
Proof.
  intros Hp. unfold percentileInt64. rewrite (Permutation_length Hp).
  by rewrite (ssort_perm_eq Z.ltb (fun z => z) l1 l2).
Qed.

Definition stats_rows (it : MapIter) (evs : list Event) (f : SearchFilter) (percentile : Z) : list ServiceStatsRow :=
  let '(counts, durs) := foldl (stats_event f percentile) (∅, ∅) evs in
  (fun '(svc, c) =>
      mkServiceStatsRow svc c (if 0 <? percentile then percentileInt64 (default [] (durs !! svc)) percentile else 0))
      <$> mrange it 8 counts.

Lemma stats_rows_row it evs evs' f p :
  evs ≡ₚ evs' -> stats_rows it evs f p = stats_row f p evs' <$> (sv_Service <$> stats_rows it evs f p).
Proof.
  intros Hp. unfold stats_rows. pose proof (stats_lookup f p evs) as Hl.
  destruct (foldl (stats_event f p) (∅, ∅) evs) as [counts durs]. simpl in Hl.
  rewrite <- !list_fmap_compose. apply list_fmap_ext. intros i [svc c] Hi.
  apply list_elem_of_lookup_2, elem_of_mrange in Hi. destruct (Hl svc) as [H1 H2]. rewrite Hi in H1. simpl.
  unfold stats_row. assert (Hpe : stats_events f evs svc ≡ₚ stats_events f evs' svc) by by apply lfilter_perm.
  f_equal.
  - rewrite <- (Permutation_length Hpe). by apply opt_length_Some in H1 as [-> _].
  - destruct (0 <? p); [|done]. rewrite H2. apply percentile_perm. by rewrite Hpe.
Qed.

Lemma elem_of_stats_services it evs f p svc :
  svc ∈ sv_Service <$> stats_rows it evs f p <-> stats_events f evs svc <> [].
Proof.
  unfold stats_rows. pose proof (stats_lookup f p evs svc) as Hl.
  destruct (foldl (stats_event f p) (∅, ∅) evs) as [counts durs]. simpl in Hl. destruct Hl as [H1 _].
  rewrite <- list_fmap_compose, list_elem_of_fmap. split.
  - intros ([k c] & -> & Hin). apply elem_of_mrange in Hin. simpl in *. rewrite Hin in H1. by apply opt_length_Some in H1 as [_ ?].
  - intros Hne. exists (svc, Z.of_nat (length (stats_events f evs svc))). split; [done|]. apply elem_of_mrange.
    rewrite H1. by destruct (stats_events f evs svc).
Qed.

Lemma NoDup_stats_services it evs f p : NoDup (sv_Service <$> stats_rows it evs f p).
Proof.
  unfold stats_rows. destruct (foldl (stats_event f p) (∅, ∅) evs) as [counts durs].
  rewrite <- list_fmap_compose. erewrite list_fmap_ext; [apply (NoDup_fst_mrange it 8 counts)|]. by intros i [k c].
Qed.

Lemma stats_rows_perm it1 it2 evs1 evs2 f p :
  evs1 ≡ₚ evs2 -> stats_rows it1 evs1 f p ≡ₚ stats_rows it2 evs2 f p.
Proof.
  intros Hp. rewrite (stats_rows_row it1 evs1 evs2) by done. rewrite (stats_rows_row it2 evs2 evs2) by done.
  apply fmap_Permutation, NoDup_Permutation; [apply NoDup_stats_services..|].
  intros svc. rewrite !elem_of_stats_services.
  assert (Hpe : stats_events f evs1 svc ≡ₚ stats_events f evs2 svc) by by apply lfilter_perm.
  destruct (stats_events f evs1 svc), (stats_events f evs2 svc); try done.
  - by apply Permutation_nil_cons in Hpe.
  - by symmetry in Hpe; apply Permutation_nil_cons in Hpe.
Qed.

(** Service statistics do not depend on map order.  Every row is the row of its
    service: its count is the number of the service's events in the window, its latency
    the nearest-rank percentile of their durations, a value with fewer than p% of them
    below it and at least p% at or below it; and without a limit every service with an
    event in the window has a row. *)
Theorem ServiceStats_spec (it : MapIter) (evs : list Event) (f : SearchFilter) (p limit : Z) :
  NoDup (ev_EventID <$> evs) -> 1 <= p <= 99 ->
  (forall it', ServiceStats it' (Some (index_of evs)) f p limit = ServiceStats it (Some (index_of evs)) f p limit) /\
  (forall row, row ∈ ServiceStats it (Some (index_of evs)) f p limit ->
    let l := stats_events f evs (sv_Service row) in
    let n := Z.of_nat (length l) in
    sv_Count row = n /\ 0 < n /\
    sv_LatencyMS row ∈ ev_DurationMS <$> l /\
    100 * count_if (fun x => x <? sv_LatencyMS row) (ev_DurationMS <$> l) < p * n /\
    p * n <= 100 * count_if (fun x => x <=? sv_LatencyMS row) (ev_DurationMS <$> l)) /\
  (limit <= 0 -> forall svc, stats_events f evs svc <> [] ->
    svc ∈ sv_Service <$> ServiceStats it (Some (index_of evs)) f p limit).
Proof.
  intros Hnd Hp.
  assert (Hrows : forall it', ServiceStats it' (Some (index_of evs)) f p limit =
    let rows := ssort stats_less (stats_rows iter_canonical evs f p) in
    if (0 <? limit) && (limit <? Z.of_nat (length rows)) then take (Z.to_nat limit) rows else rows).
  { intros it'. assert (Hs : ssort stats_less (stats_rows it' (SnapshotEvents it' (index_of evs)) f p)
      = ssort stats_less (stats_rows iter_canonical evs f p)).
    { apply (ssort_perm_eq stats_less (fun r => (down (sv_Count r), sv_Service r))).
      - intros a b Ha Hb Hk. simplify_eq. eapply (NoDup_fmap_inj_on sv_Service); [apply NoDup_stats_services|done..].
      - apply stats_rows_perm. by apply SnapshotEvents_perm. }
    unfold ServiceStats. unfold stats_rows at 1 in Hs. destruct (foldl _ _ (SnapshotEvents it' _)) as [counts durs].
    rewrite Hs. done. }
  split; [|split].
  - intros it'. by rewrite !Hrows.
  - intros row Hin l n. rewrite Hrows in Hin. simpl in Hin.
    assert (Hin' : row ∈ stats_rows iter_canonical evs f p).
    { rewrite <- (elem_of_ssort stats_less). destruct (_ && _); [|done].
      rewrite <- (take_drop (Z.to_nat limit)). apply elem_of_app. by left. }
    pose proof Hin' as Hsvc. apply (list_elem_of_fmap_2 sv_Service) in Hsvc. rewrite elem_of_stats_services in Hsvc.
    rewrite (stats_rows_row _ _ evs) in Hin' by done. apply list_elem_of_fmap in Hin' as (svc & -> & _).
    cbn [stats_row sv_Service sv_Count sv_LatencyMS] in *. rewrite (proj2 (Z.ltb_lt 0 p)) by lia.
    fold l. split; [done|]. split; [unfold n, l; destruct (stats_events f evs svc); [done|simpl; lia]|].
    pose proof (percentile_rank (ev_DurationMS <$> l) p) as Hr. rewrite length_fmap in Hr. apply Hr; [|done].
    unfold l. by destruct (stats_events f evs svc).
  - intros Hlim svc Hne. rewrite Hrows. simpl. rewrite (proj2 (Z.ltb_ge 0 limit)) by done. simpl.
    rewrite ssort_perm. by apply elem_of_stats_services.
Qed.

Lemma ServiceStats_spec_witness :
  "api" ∈ sv_Service <$> ServiceStats iter_reverse (Some (index_of prune_example)) any_filter 95 0.
Proof.
  refine (proj2 (proj2 (ServiceStats_spec iter_reverse prune_example any_filter 95 0 _ _)) _ "api" _);
    [by_decide|lia|lia|vm_compute; discriminate].
Defined.

(** ** Stories *)

(** The latest step satisfying [P], the first one among equals. *)
Definition pick (P : Step -> bool) (l : list Step) : option Step :=
  foldl (fun acc step =>
    if P step then match acc with
                   | Some f => if st_StartMS f <? st_StartMS step then Some step else acc
                   | None => Some step
                   end else acc) None l.

Definition named (name : string) (s : Step) : bool := String.eqb (st_Name s) name.
Definition failing (name : string) (s : Step) : bool := named name s && String.eqb (st_Status s) StepStatusError.

Lemma latestAnchorStep_pick steps name :
  latestAnchorStep steps name =
  match pick (failing name) steps with Some l => Some l | None => pick (named name) steps end.
Proof.
  unfold latestAnchorStep, pick. set (F := foldl _ (None, None) steps).
  assert (HF : F = (foldl (fun acc step => if named name step then match acc with
                   | Some f => if st_StartMS f <? st_StartMS step then Some step else acc
                   | None => Some step end else acc) None steps,
               foldl (fun acc step => if failing name step then match acc with
                   | Some f => if st_StartMS f <? st_StartMS step then Some step else acc
                   | None => Some step end else acc) None steps)); [|by rewrite HF].
  unfold F. clear F. induction steps as [|s steps IH] using rev_ind; [done|]. rewrite !foldl_app, IH. cbn [foldl].
  unfold failing, named. destruct (String.eqb (st_Name s) name); simpl; [|done].
  by destruct (String.eqb (st_Status s) StepStatusError).
Qed.

Lemma pick_spec P l :
  match pick P l with
  | Some s => s ∈ l /\ P s = true /\ forall t, t ∈ l -> P t = true -> st_StartMS t <= st_StartMS s
  | None => forall t, t ∈ l -> P t = false
  end.
Proof.
  unfold pick. induction l as [|x l IH] using rev_ind; [intros t Ht; by apply elem_of_nil in Ht|].
  rewrite foldl_app. cbn [foldl]. destruct (foldl _ None l) as [s|] eqn:E.
  - destruct IH as (Hin & HP & Hmax). destruct (P x) eqn:EP.
    + destruct (Z.ltb_spec (st_StartMS s) (st_StartMS x)).
      * split; [set_solver|]. split; [done|]. intros t [Ht|Ht]%elem_of_app HPt.
        -- specialize (Hmax t Ht HPt). lia.
        -- apply list_elem_of_singleton in Ht as ->. lia.
      * split; [set_solver|]. split; [done|]. intros t [Ht|Ht]%elem_of_app HPt; [auto|].
        apply list_elem_of_singleton in Ht as ->. lia.
    + split; [set_solver|]. split; [done|]. intros t [Ht|Ht]%elem_of_app HPt; [auto|].
      apply list_elem_of_singleton in Ht as ->. congruence.
  - destruct (P x) eqn:EP.
    + split; [set_solver|]. split; [done|]. intros t [Ht|Ht]%elem_of_app HPt.
      * specialize (IH t Ht). congruence.
      * apply list_elem_of_singleton in Ht as ->. lia.
    + intros t [Ht|Ht]%elem_of_app; [auto|]. by apply list_elem_of_singleton in Ht as ->.
Qed.

Lemma buildStory_suppressed ev linkage :
  ev_Status ev = StatusSuppressed ->
  let r := buildStory ev linkage in sr_Anchor r = None /\ sr_Path r = [] /\ sr_Logs r = [] /\ sr_Downstream r = [].
Proof. intros H. unfold buildStory. by rewrite H. Qed.

Lemma story_log_in ev first last anchored sl :
  sl ∈ ev_Logs ev ≫= story_log first last anchored ->
  (sl_Level sl = LogLevelWarn \/ sl_Level sl = LogLevelError) /\
  (anchored = true -> first <= sl_TsOffsetMS sl <= last).
Proof.
  intros (log & Hsl & _)%list_elem_of_bind. unfold story_log in Hsl.
  destruct (String.eqb_spec (lg_Level log) LogLevelWarn), (String.eqb_spec (lg_Level log) LogLevelError); simpl in Hsl;
    try by apply elem_of_nil in Hsl.
  all: destruct (anchored && _) eqn:E; [by apply elem_of_nil in Hsl|].
  all: apply list_elem_of_singleton in Hsl as ->; simpl; split; [tauto|].
  all: intros ->; simpl in E; apply orb_false_iff in E as [E1 E2]; bool_prop; lia.
Qed.

(** The story of an event whose anchor names one of its steps is the path to the
    failure: there is an anchor step of that name, a failing one if there is any, the
    latest of those; the path is exactly the steps that end by its end, in order of
    start; and every log told is a warning or an error no later than its end.  A
    suppressed event tells no story at all. *)
Theorem buildStory_path (ev : Event) (a : Anchor) (linkage : string) :
  ev_Anchor ev = Some a -> (exists s, s ∈ ev_Steps ev /\ st_Name s = an_Step a) ->
  let r := buildStory ev linkage in
  if String.eqb (ev_Status ev) StatusSuppressed
  then sr_Anchor r = None /\ sr_Path r = [] /\ sr_Logs r = [] /\ sr_Downstream r = []
  else exists s, s ∈ ev_Steps ev /\ st_Name s = an_Step a /\
    (forall t, t ∈ ev_Steps ev -> failing (an_Step a) t = true ->
       st_Status s = StepStatusError /\ st_StartMS t <= st_StartMS s) /\
    storyStep s ∈ sr_Path r /\
    sr_Path r = storyStep <$> ssort step_less (List.filter (fun t => step_end t <=? step_end s) (ev_Steps ev)) /\
    forall log, log ∈ sr_Logs r ->
      (sl_Level log = LogLevelWarn \/ sl_Level log = LogLevelError) /\ sl_TsOffsetMS log <= step_end s.
Proof.
  intros Ha Hex r. destruct (String.eqb_spec (ev_Status ev) StatusSuppressed) as [Hs|Hs]; [by apply buildStory_suppressed|].
  assert (Hlas : exists s, latestAnchorStep (ev_Steps ev) (an_Step a) = Some s /\ s ∈ ev_Steps ev /\ st_Name s = an_Step a /\
    (forall t, t ∈ ev_Steps ev -> failing (an_Step a) t = true -> st_Status s = StepStatusError /\ st_StartMS t <= st_StartMS s)).
  { rewrite latestAnchorStep_pick. pose proof (pick_spec (failing (an_Step a)) (ev_Steps ev)) as Hf.
    pose proof (pick_spec (named (an_Step a)) (ev_Steps ev)) as Hn.
    destruct (pick (failing _) _) as [s|].
    - destruct Hf as (Hin & HP & Hmax). exists s. unfold failing, named in HP. bool_prop.
      split; [done|]. split; [done|]. split; [done|]. intros t Ht HPt. split; [done|auto].
    - destruct (pick (named _) _) as [s|].
      + destruct Hn as (Hin & HP & _). exists s. unfold named in HP. bool_prop.
        split; [done|]. split; [done|]. split; [done|]. intros t Ht HPt. specialize (Hf t Ht). congruence.
      + destruct Hex as (s & Hin & Heq). specialize (Hn s Hin). unfold named in Hn. by apply String.eqb_neq in Hn. }
  destruct Hlas as (s & Hl & Hin & Hname & Hmax). exists s. split; [done|]. split; [done|]. split; [done|].
  unfold r, buildStory, contributingSteps. rewrite (proj2 (String.eqb_neq _ _)) by done. rewrite Ha, Hl. simpl.
  split; [|split; [done|]].
  - apply list_elem_of_fmap_2. unfold sortSteps. rewrite elem_of_ssort. apply elem_of_lfilter.
    split; [done|apply Z.leb_refl].
  - intros log Hlog. apply story_log_in in Hlog as [? Hb]. split; [done|]. by destruct Hb.
Qed.

Definition story_event : Event :=
  mkEvent "2.0" "e" 10 50 40 "http" "api" "prod" "" "t" "s" "" "error" (Some (mkAnchor "charge" "PMT_502" ""))
    [ mkStep "late" "" 90 5 "ok" None None;
      mkStep "charge" "" 10 20 "error" (Some (mkDownstream "pay" "/charge" "http")) (Some (mkStepError "PMT_502" "bad" ""));
      mkStep "auth" "" 0 5 "ok" None None ]
    [ mkLog 12 "warn" "slow" ∅; mkLog 80 "error" "after" ∅ ] ∅ [].

Lemma buildStory_path_witness :
  exists s, s ∈ ev_Steps story_event /\ st_Name s = "charge" /\ storyStep s ∈ sr_Path (buildStory story_event "direct").
Proof.
  destruct (buildStory_path story_event (mkAnchor "charge" "PMT_502" "") "direct" eq_refl) as (s & H1 & H2 & _ & H3 & _).
  - eexists. split; [right; left|reflexivity].
  - exists s. split; [exact H1|]. split; [exact H2|exact H3].
Defined.
