(* ===== verification/Eventlog.v ===== *)
(** The write-ahead log of accepted events ([internal/eventlog/v2/writer.go], [replay.go]):
    appending records to rotating files and reading their lines back.  The operating
    system's part in a write is an [outcome]: what the clock says and which calls fail.
    What the ingest path relies on is the interface [WAL]; the writer is shown to
    implement it as long as no write is torn, and a torn write is shown to lose the
    event accepted after it. *)

From S2P Require Import Prelude GoRuntime.
Open Scope Z_scope.

(** ** Lines *)

Definition newline : ascii := ascii_of_nat 10.
Definition carriage_return : ascii := ascii_of_nat 13.
Definition nl : string := String newline "".

Definition is_crlf (c : ascii) : bool := Ascii.eqb c newline || Ascii.eqb c carriage_return.

(** [bytes.TrimRight(line, CR LF)]. *)
Fixpoint trim_crlf (s : string) : string :=
  match s with
  | EmptyString => ""
  | String c s => match trim_crlf s with
                  | EmptyString => if is_crlf c then "" else String c ""
                  | t => String c t
                  end
  end.

Definition maxReplayLineBytes : Z := 1048576 + 1.

(** The pieces [ReadSlice] hands out: each ends with its newline, except possibly the last. *)
Fixpoint split_lines (s : string) : list string :=
  match s with
  | EmptyString => []
  | String c s =>
    if Ascii.eqb c newline then nl :: split_lines s
    else match split_lines s with
         | [] => [String c ""]
         | p :: ps => String c p :: ps
         end
  end.

(** ** Files *)

Record file := mkFile { f_name : string; f_bytes : string; f_modTime : Time }.

(** The directory, in the order its files were created. *)
Definition disk := list file.

Definition append_file (d : disk) (name bytes : string) (now : Time) : disk :=
  (fun f => if String.eqb (f_name f) name then mkFile name (f_bytes f +:+ bytes) now else f) <$> d.

Record Writer := mkWriter {
  w_syncOnWrite : bool;
  w_maxFileBytes : Z;
  w_active : option string;   (* the file, nil when there is none *)
  w_bytesWritten : Z;
  w_seq : Z;
  w_open : bool               (* false once the file was closed, even if closing it failed *)
}.

(** What the operating system does during one call: the clock, how many bytes of the
    record reach the file when the write fails, and whether sync, close and open fail. *)
Record outcome := mkOutcome {
  o_now : Time;
  o_torn : option nat;
  o_syncErr : bool;
  o_closeErr : bool;
  o_openErr : bool
}.

Definition all_ok (now : Time) : outcome := mkOutcome now None false false false.

(** [time.Format("20060102-150405")]. *)
Definition FormatStamp (t : Time) : string :=
  let secs := t / Second in
  let '(y, m, d) := civil_of_days (secs / 86400) in
  let s := secs mod 86400 in
  pad_int 4 y +:+ pad_int 2 m +:+ pad_int 2 d +:+ "-" +:+
  pad_int 2 (s / 3600) +:+ pad_int 2 (s / 60 mod 60) +:+ pad_int 2 (s mod 60).

Definition file_name (ts : string) (seq : Z) : string :=
  if 0 <? seq then "events-" +:+ ts +:+ "-" +:+ pretty seq +:+ ".jsonl" else "events-" +:+ ts +:+ ".jsonl".

Definition exists_file (d : disk) (name : string) : bool := existsb (fun f => String.eqb (f_name f) name) d.

(** The loop of [openNewFileLocked]: the first free sequence number. *)
Fixpoint free_seq (fuel : nat) (d : disk) (ts : string) (seq : Z) : option Z :=
  match fuel with
  | O => None
  | S fuel => if exists_file d (file_name ts seq) then free_seq fuel d ts (seq + 1) else Some seq
  end.

Definition openNewFileLocked (d : disk) (w : Writer) (o : outcome) : disk * Writer * bool :=
  match free_seq (S (length d)) d (FormatStamp (o_now o)) (w_seq w) with
  | None => (d, w, false)
  | Some seq =>
    if o_openErr o
    then (d, mkWriter (w_syncOnWrite w) (w_maxFileBytes w) (w_active w) (w_bytesWritten w) seq (w_open w), false)
    else
      let name := file_name (FormatStamp (o_now o)) seq in
      (d ++ [mkFile name "" (o_now o)], mkWriter (w_syncOnWrite w) (w_maxFileBytes w) (Some name) 0 seq true, true)
  end.

(** A file that fails to close is kept, and is closed all the same: closing it again and
    every write to it fail. *)
Definition rotateLocked (d : disk) (w : Writer) (o : outcome) : disk * Writer * bool :=
  match w_active w with
  | Some _ =>
    if o_closeErr o || negb (w_open w)
    then (d, mkWriter (w_syncOnWrite w) (w_maxFileBytes w) (w_active w) (w_bytesWritten w) (w_seq w) false, false)
    else openNewFileLocked d (mkWriter (w_syncOnWrite w) (w_maxFileBytes w) None (w_bytesWritten w) (w_seq w) false) o
  | None => openNewFileLocked d w o
  end.

Definition record_of (line : string) : string := trim_crlf line +:+ nl.

(** [WriteRaw]; the boolean says whether it returned without an error. *)
Definition WriteRaw (d : disk) (w : Writer) (o : outcome) (line : string) : disk * Writer * bool :=
  match w_active w with
  | None => (d, w, false)
  | Some name =>
    if negb (w_open w) then (d, w, false) else
    let record := record_of line in
    match o_torn o with
    | Some n => (append_file d name (take_bytes n record) (o_now o), w, false)
    | None =>
      let d := append_file d name record (o_now o) in
      let w := mkWriter (w_syncOnWrite w) (w_maxFileBytes w) (w_active w)
                 (w_bytesWritten w + Z.of_nat (String.length record)) (w_seq w) (w_open w) in
      if w_syncOnWrite w && o_syncErr o then (d, w, false)
      else if (0 <? w_maxFileBytes w) && (w_maxFileBytes w <=? w_bytesWritten w) then rotateLocked d w o
      else (d, w, true)
    end
  end.

Definition New (d : disk) (sync : bool) (maxBytes : Z) (o : outcome) : disk * Writer * bool :=
  openNewFileLocked d (mkWriter sync maxBytes None 0 0 false) o.

Definition Close (w : Writer) : Writer :=
  match w_active w with
  | None => w
  | Some _ => mkWriter (w_syncOnWrite w) (w_maxFileBytes w) None (w_bytesWritten w) (w_seq w) false
  end.

(** ** Replay *)

(** One piece of a file: oversized pieces and empty lines are skipped. *)
Definition replay_piece (piece : string) : list string :=
  if maxReplayLineBytes <? Z.of_nat (String.length piece) then []
  else let line := trim_crlf piece in if String.eqb line "" then [] else [line].

Definition replayFileLines (bytes : string) : list string := split_lines bytes ≫= replay_piece.

Definition replay_less (a b : file) : bool :=
  if f_modTime a =? f_modTime b then String.ltb (f_name a) (f_name b) else f_modTime a <? f_modTime b.

Definition replay_files (d : disk) (since : Time) : list file :=
  ssort replay_less (List.filter (fun f =>
    HasPrefix (f_name f) "events-" && HasSuffix (f_name f) ".jsonl" &&
    negb (negb (IsZero since) && Before (f_modTime f) since)) d).

(** The callback is run on each line until it fails; the count is of the lines it took. *)
Fixpoint replay_lines {S} (fn : S -> string -> S * bool) (s : S) (loaded : Z) (lines : list string) : S * Z * bool :=
  match lines with
  | [] => (s, loaded, true)
  | line :: lines =>
    let '(s, ok) := fn s line in
    if ok then replay_lines fn s (loaded + 1) lines else (s, loaded, false)
  end.

Definition Replay {S} (d : disk) (since : Time) (fn : S -> string -> S * bool) (s : S) : S * Z * bool :=
  replay_lines fn s 0 (replay_files d since ≫= fun f => replayFileLines (f_bytes f)).

(** ** Lines come back as they were written *)

(** A body that is one line of the log: no newline inside it, not blank, not oversized. *)
Definition one_line (s : string) : Prop :=
  (forall pre post, trim_crlf s <> pre +:+ nl +:+ post) /\ trim_crlf s <> "" /\
  Z.of_nat (String.length (record_of s)) <= maxReplayLineBytes.

Lemma trim_crlf_nl s : trim_crlf (s +:+ nl) = trim_crlf s.
Proof.
  induction s as [|c s IH]; [done|]. rewrite string_app_cons. cbn [trim_crlf]. by rewrite IH.
Qed.

Lemma trim_crlf_idem s : trim_crlf (trim_crlf s) = trim_crlf s.
Proof.
  induction s as [|c s IH]; [done|]. simpl. destruct (trim_crlf s) as [|c' t] eqn:E.
  - destruct (is_crlf c) eqn:Ec; [done|]. simpl. by rewrite Ec.
  - cbn [trim_crlf] in *. by rewrite IH.
Qed.

Lemma split_lines_nl s rest :
  (forall pre post, s <> pre +:+ nl +:+ post) ->
  split_lines (s +:+ nl +:+ rest) = (s +:+ nl) :: split_lines rest.
Proof.
  induction s as [|c s IH]; intros Hno; [done|]. rewrite !string_app_cons. simpl.
  destruct (Ascii.eqb_spec c newline) as [->|Hc].
  - destruct (Hno "" s). done.
  - rewrite IH; [done|]. intros pre post Heq. apply (Hno (String c pre) post). by rewrite string_app_cons, Heq.
Qed.

Lemma replayFileLines_record line rest :
  one_line line -> replayFileLines (record_of line +:+ rest) = trim_crlf line :: replayFileLines rest.
Proof.
  intros (Hno & Hne & Hlen). unfold replayFileLines, record_of. rewrite string_app_assoc, split_lines_nl by done.
  cbn [mbind list_bind]. unfold replay_piece at 1. rewrite (proj2 (Z.ltb_ge _ _)) by done.
  rewrite trim_crlf_nl, trim_crlf_idem. by rewrite (proj2 (String.eqb_neq _ _)).
Qed.

Lemma replayFileLines_app a b :
  (a = "" \/ exists a', a = a' +:+ nl) -> replayFileLines (a +:+ b) = replayFileLines a ++ replayFileLines b.
Proof.
  intros Ha. unfold replayFileLines. rewrite <- bind_app. f_equal.
  induction a as [|c a IH]; [done|]. rewrite string_app_cons. simpl.
  destruct Ha as [?|(a' & Ha)]; [done|]. destruct (Ascii.eqb_spec c newline) as [->|Hc].
  - rewrite IH; [done|]. destruct a' as [|c' a']; [left|right].
    + rewrite string_app_nil_l in Ha. unfold nl in Ha. by simplify_eq.
    + rewrite string_app_cons in Ha. simplify_eq. by eexists.
  - destruct a' as [|c' a']; [rewrite string_app_nil_l in Ha; unfold nl in Ha; by simplify_eq|].
    rewrite string_app_cons in Ha. simplify_eq. rewrite IH by (right; by eexists).
    destruct (split_lines (a' +:+ nl)) eqn:E; [|done].
    destruct a'; simpl in E; [done|]. destruct (Ascii.eqb _ _); [done|]. by destruct (split_lines _).
Qed.

(** C20: records written one after the other are read back as the lines they were made
    of, in order: none is lost, merged or split. *)
Theorem replayFileLines_roundtrip (lines : list string) :
  Forall one_line lines ->
  replayFileLines (String.concat "" (record_of <$> lines)) = trim_crlf <$> lines.
Proof.
  assert (Hcat : forall x l, String.concat "" (x :: l) = x +:+ String.concat "" l).
  { intros x [|y l]; simpl; [by rewrite string_app_nil_r|by rewrite string_app_nil_l]. }
  induction 1 as [|line lines Hl _ IH]; [done|]. cbn [fmap list_fmap].
  rewrite Hcat, replayFileLines_record by done. by rewrite IH.
Qed.

Lemma one_line_ex : one_line "{}".
Proof.
  split; [|split; [done|]].
  - intros [|c1 [|c2 [|c3 pre]]] post Heq; rewrite ?string_app_cons, ?string_app_nil_l in Heq; simplify_eq.
  - vm_compute. discriminate.
Qed.

Lemma replayFileLines_roundtrip_witness :
  replayFileLines (String.concat "" (record_of <$> ["{}"; "{}"])) = trim_crlf <$> ["{}"; "{}"].
Proof. apply replayFileLines_roundtrip. repeat constructor; apply one_line_ex. Defined.

(** ** Opening a new file always ends *)

Lemma string_app_inj_l (a b c : string) : a +:+ b = a +:+ c -> b = c.
Proof.
  induction a as [|x a IH]; [done|]. rewrite !string_app_cons. intros H. simplify_eq. auto.
Qed.

Lemma file_name_inj ts i j : 0 <= i -> 0 <= j -> file_name ts i = file_name ts j -> i = j.
Proof.
  unfold file_name. intros Hi Hj. destruct (Z.ltb_spec 0 i), (Z.ltb_spec 0 j); intros H'.
  - do 3 apply string_app_inj_l in H'. apply string_app_inj_r in H'. by apply (inj pretty) in H'.
  - do 2 apply string_app_inj_l in H'. rewrite string_app_cons in H'. by simplify_eq.
  - do 2 apply string_app_inj_l in H'. rewrite string_app_cons in H'. by simplify_eq.
  - lia.
Qed.

Lemma exists_file_elem d name : exists_file d name = true <-> name ∈ f_name <$> d.
Proof.
  unfold exists_file. rewrite existsb_exists, list_elem_of_fmap. split.
  - intros (f & Hf & Heq). exists f. apply list_elem_of_In in Hf. by apply String.eqb_eq in Heq as ->.
  - intros (f & -> & Hf). exists f. rewrite <- list_elem_of_In. by rewrite String.eqb_refl.
Qed.

Lemma free_seq_spec fuel d ts seq :
  match free_seq fuel d ts seq with
  | Some s => seq <= s /\ file_name ts s ∉ f_name <$> d
  | None => forall i, (i < fuel)%nat -> file_name ts (seq + Z.of_nat i) ∈ f_name <$> d
  end.
Proof.
  revert seq. induction fuel as [|fuel IH]; intros seq; simpl; [lia|].
  destruct (exists_file d (file_name ts seq)) eqn:E.
  - apply exists_file_elem in E. specialize (IH (seq + 1)). destruct (free_seq fuel d ts (seq + 1)) as [s|].
    + destruct IH. split; [lia|done].
    + intros [|i] Hi; [by rewrite Z.add_0_r|].
      replace (seq + Z.of_nat (S i)) with (seq + 1 + Z.of_nat i) by lia. apply IH. lia.
  - split; [lia|]. intros Hin. apply exists_file_elem in Hin. congruence.
Qed.

(** Some name among one more candidates than there are files is free. *)
Lemma free_seq_total d ts seq : 0 <= seq -> is_Some (free_seq (S (length d)) d ts seq).
Proof.
  intros Hs. pose proof (free_seq_spec (S (length d)) d ts seq) as H.
  destruct (free_seq (S (length d)) d ts seq) as [s|]; [by eexists|]. exfalso.
  set (names := (fun i => file_name ts (seq + Z.of_nat i)) <$> List.seq 0 (S (length d))).
  assert (Hnd : NoDup names).
  { apply NoDup_fmap_2_strong; [|apply NoDup_seq]. intros i j _ _ Heq. apply file_name_inj in Heq; lia. }
  assert (Hlen : (length names <= length (f_name <$> d))%nat).
  { apply submseteq_length, NoDup_submseteq; [done|]. intros x Hx. unfold names in Hx.
    apply list_elem_of_fmap in Hx as (i & -> & Hi). apply elem_of_seq in Hi. apply H. lia. }
  unfold names in Hlen. rewrite !length_fmap, length_seq in Hlen. lia.
Qed.

(** ** What one write does to the log *)

Definition complete (bytes : string) : Prop := bytes = "" \/ exists b, bytes = b +:+ nl.

Definition log_lines (d : disk) : list string := d ≫= fun f => replayFileLines (f_bytes f).

(** Every file holds whole records, file names are distinct, and the open file is the
    newest one. *)
Record log_inv (d : disk) (w : Writer) : Prop := {
  li_complete : Forall (fun f => complete (f_bytes f)) d;
  li_names : NoDup (f_name <$> d);
  li_active : forall n, w_active w = Some n -> exists d0 f, d = d0 ++ [f] /\ f_name f = n;
  li_seq : 0 <= w_seq w
}.

Lemma append_file_last d0 f bytes now :
  NoDup (f_name <$> (d0 ++ [f])) ->
  append_file (d0 ++ [f]) (f_name f) bytes now = d0 ++ [mkFile (f_name f) (f_bytes f +:+ bytes) now].
Proof.
  intros Hnd. unfold append_file. rewrite fmap_app. simpl. rewrite String.eqb_refl. f_equal.
  rewrite fmap_app in Hnd. apply NoDup_app in Hnd as (_ & Hni & _).
  rewrite <- (list_fmap_id d0) at 2. apply list_fmap_ext. intros i g Hg.
  destruct (String.eqb_spec (f_name g) (f_name f)) as [Heq|]; [|done].
  exfalso. apply (Hni (f_name g)); [|rewrite Heq; left].
  apply list_elem_of_fmap_2. by eapply list_elem_of_lookup_2.
Qed.

Lemma log_lines_app d1 d2 : log_lines (d1 ++ d2) = log_lines d1 ++ log_lines d2.
Proof. unfold log_lines. by rewrite bind_app. Qed.

Lemma complete_record bytes line : complete bytes -> complete (bytes +:+ record_of line).
Proof. right. exists (bytes +:+ trim_crlf line). unfold record_of. by rewrite string_app_assoc. Qed.

Lemma open_log d w o d' w' ok :
  log_inv d w -> openNewFileLocked d w o = (d', w', ok) -> (ok = true \/ w_active w = None) ->
  log_inv d' w' /\ log_lines d' = log_lines d /\ (ok = negb (o_openErr o)).
Proof.
  intros [Hc Hn Ha Hs] Hopen Hok. unfold openNewFileLocked in Hopen.
  pose proof (free_seq_spec (S (length d)) d (FormatStamp (o_now o)) (w_seq w)) as Hf.
  destruct (free_seq_total d (FormatStamp (o_now o)) (w_seq w) Hs) as [s Hfs]. rewrite Hfs in Hopen, Hf.
  destruct Hf as [Hle Hni]. destruct (o_openErr o); simplify_eq/=.
  - split; [|done]. destruct Hok as [|Hok]; [done|]. split; simpl; [done|done| |lia]. intros n. by rewrite Hok.
  - split; [split; simpl|split; [|done]].
    + apply Forall_app. split; [done|]. repeat constructor.
    + rewrite fmap_app. apply NoDup_app. split; [done|]. split; [|apply NoDup_singleton].
      intros x Hx ->%list_elem_of_singleton. by apply Hni.
    + intros n ?. simplify_eq. by eexists d, _.
    + lia.
    + rewrite log_lines_app. by rewrite app_nil_r.
Qed.

Lemma inv_closed d w w' : log_inv d w -> w_active w' = None \/ w_active w' = w_active w -> w_seq w' = w_seq w -> log_inv d w'.
Proof. intros [Hc Hn Ha Hs] Hw Hq. split; [done..| |by rewrite Hq]. intros n. destruct Hw as [->| ->]; [done|apply Ha]. Qed.

Lemma rotate_log d w o d' w' ok :
  log_inv d w -> rotateLocked d w o = (d', w', ok) -> log_inv d' w' /\ log_lines d' = log_lines d.
Proof.
  intros Hi Hr. unfold rotateLocked in Hr. destruct (w_active w) eqn:Ea.
  - destruct (_ || _); [simplify_eq; split; [|done]; eapply inv_closed; [done|by right|done]|].
    eapply open_log in Hr; [by destruct Hr as (? & ? & _)|eapply inv_closed; [done|by left|done]|by right].
  - eapply open_log in Hr; [by destruct Hr as (? & ? & _)|done|by right].
Qed.

(** A write that is not torn leaves a log of whole records.  When it succeeds the line is
    the last of the log; when it fails the log is as before or holds the line as well. *)
Lemma WriteRaw_log d w o line d' w' ok :
  log_inv d w -> one_line line -> o_torn o = None -> WriteRaw d w o line = (d', w', ok) ->
  log_inv d' w' /\
  (if ok then log_lines d' = log_lines d ++ [trim_crlf line]
   else log_lines d' = log_lines d \/ log_lines d' = log_lines d ++ [trim_crlf line]).
Proof.
  intros Hi Hline Ht Hw. unfold WriteRaw in Hw. destruct (w_active w) as [n|] eqn:Ea; [|simplify_eq; by eauto].
  destruct (w_open w); cbn [negb] in Hw; [|simplify_eq; by eauto]. rewrite Ht in Hw. pose proof Hi as [Hc Hn Ha Hs]. destruct (Ha n Ea) as (d0 & f & -> & <-).
  rewrite append_file_last in Hw by done.
  set (d1 := d0 ++ [mkFile _ _ _]) in Hw.
  set (w1 := mkWriter _ _ _ _ _ _) in Hw.
  apply Forall_app in Hc as [Hc0 Hcf]. apply Forall_inv in Hcf.
  assert (Hlines : log_lines d1 = log_lines (d0 ++ [f]) ++ [trim_crlf line]).
  { unfold d1. rewrite !log_lines_app, <- app_assoc. f_equal. unfold log_lines. simpl. rewrite !app_nil_r.
    rewrite replayFileLines_app by done. f_equal.
    rewrite <- (string_app_nil_r (record_of line)), replayFileLines_record by done. done. }
  assert (Hi1 : log_inv d1 w1).
  { split; simpl.
    - apply Forall_app. split; [done|]. apply Forall_singleton. by apply complete_record.
    - unfold d1. by rewrite fmap_app in *.
    - intros m Hm. simplify_eq. by eexists d0, _.
    - done. }
  destruct (_ && o_syncErr o); [simplify_eq; by eauto|].
  destruct (_ && _); [|simplify_eq; by eauto].
  apply rotate_log in Hw as [? Hl]; [|done]. rewrite Hl, Hlines. split; [done|]. destruct ok; eauto.
Qed.

(** ** What the ingest path relies on *)

(** A log that can be written to and read back: a successful write adds the line at the
    end, a failed one may have added it, and nothing is ever lost. *)
Class WAL (W : Type) := {
  wal_write : W -> string -> W * bool;
  wal_lines : W -> list string;
  wal_inv : W -> Prop;
  wal_write_ok : forall w line w', wal_inv w -> one_line line -> wal_write w line = (w', true) ->
    wal_inv w' /\ wal_lines w' = wal_lines w ++ [trim_crlf line];
  wal_write_fail : forall w line w', wal_inv w -> one_line line -> wal_write w line = (w', false) ->
    wal_inv w' /\ (wal_lines w' = wal_lines w \/ wal_lines w' = wal_lines w ++ [trim_crlf line])
}.

(** A writer on its disk, with what the operating system will do at each coming write;
    past the end of the script every write succeeds. *)
Record scripted := mkScripted { sc_disk : disk; sc_writer : Writer; sc_script : list outcome }.

Definition scripted_write (s : scripted) (line : string) : scripted * bool :=
  let o := default (all_ok 0) (head (sc_script s)) in
  let '(d, w, ok) := WriteRaw (sc_disk s) (sc_writer s) o line in
  (mkScripted d w (tail (sc_script s)), ok).

Definition scripted_inv (s : scripted) : Prop :=
  log_inv (sc_disk s) (sc_writer s) /\ Forall (fun o => o_torn o = None) (sc_script s).

Lemma scripted_write_spec s line s' ok :
  scripted_inv s -> one_line line -> scripted_write s line = (s', ok) ->
  scripted_inv s' /\
  (if ok then log_lines (sc_disk s') = log_lines (sc_disk s) ++ [trim_crlf line]
   else log_lines (sc_disk s') = log_lines (sc_disk s) \/ log_lines (sc_disk s') = log_lines (sc_disk s) ++ [trim_crlf line]).
Proof.
  intros [Hi Ht] Hline Hw. unfold scripted_write in Hw.
  destruct (WriteRaw _ _ _ _) as [[d w] ok1] eqn:E. simplify_eq.
  apply WriteRaw_log in E as [Hi' Hl]; [|done..|].
  - split; [|done]. split; [done|]. simpl. by destruct Ht.
  - by destruct Ht.
Qed.

#[export] Instance scripted_WAL : WAL scripted.
Proof.
  refine {| wal_write := scripted_write; wal_lines := fun s => log_lines (sc_disk s); wal_inv := scripted_inv |}.
  - intros w line w' Hi Hl Hw. apply (scripted_write_spec w line w' true Hi Hl Hw).
  - intros w line w' Hi Hl Hw. apply (scripted_write_spec w line w' false Hi Hl Hw).
Defined.

(** Files whose modification times (then names) follow their creation order, named as the
    writer names them, are replayed in creation order. *)
Definition replay_ordered (d : disk) : Prop :=
  ssorted replay_less d /\
  Forall (fun f => HasPrefix (f_name f) "events-" && HasSuffix (f_name f) ".jsonl" = true) d.

Lemma Replay_log {S} d (fn : S -> string -> S * bool) s :
  replay_ordered d -> Replay d time_zero fn s = replay_lines fn s 0 (log_lines d).
Proof.
  intros [Hs Hn]. unfold Replay, replay_files, log_lines. rewrite lfilter_all.
  - by rewrite ssort_sorted_id.
  - intros f Hf. rewrite Forall_forall in Hn. by rewrite Hn.
Qed.

(** Writing a list of lines, keeping those whose write was acknowledged. *)
Fixpoint write_all (s : scripted) (lines : list string) : scripted * list string :=
  match lines with
  | [] => (s, [])
  | line :: lines =>
    let '(s, ok) := scripted_write s line in
    let '(s, acked) := write_all s lines in
    (s, if ok then line :: acked else acked)
  end.

(** Collecting the lines a replay hands out. *)
Definition collect (acc : list string) (line : string) : list string * bool := (acc ++ [line], true).

Lemma collect_lines acc n lines : (replay_lines collect acc n lines).1.1 = acc ++ lines.
Proof.
  revert acc n. induction lines as [|l lines IH]; intros acc n; simpl; [by rewrite app_nil_r|].
  by rewrite IH, <- app_assoc.
Qed.

(** C7: What was acknowledged is read back.  Let a log hold whole records, and let lines be
    written to it, each without a line break inside, not blank and within the limit of a
    replayed line.  Whatever clocks, syncs, closes and opens do, whether they fail or not, and
    wherever files rotate, with no write torn and file times that follow creation, a replay
    hands out the lines the log had and then some of those written, in order, among them
    every line whose write was acknowledged. *)
Theorem Replay_acknowledged (s s' : scripted) (lines acked : list string) :
  scripted_inv s -> Forall one_line lines ->
  write_all s lines = (s', acked) -> replay_ordered (sc_disk s') ->
  exists added, (Replay (sc_disk s') time_zero collect []).1.1 = log_lines (sc_disk s) ++ added /\
    trim_crlf <$> acked `sublist_of` added /\ added `sublist_of` trim_crlf <$> lines.
Proof.
  intros Hi Hlines Hw Hord. rewrite Replay_log, collect_lines by done. simpl. clear Hord.
  revert s s' acked Hi Hw. induction Hlines as [|line lines Hl _ IH]; intros s s' acked Hi Hw; simpl in Hw.
  - simplify_eq. exists []. by rewrite app_nil_r.
  - destruct (scripted_write s line) as [s1 ok] eqn:E1. destruct (write_all s1 lines) as [s2 acked2] eqn:E2.
    simplify_eq. apply scripted_write_spec in E1 as [Hi1 Hl1]; [|done..].
    destruct (IH _ _ _ Hi1 E2) as (add & Hadd & Hsub & Hsub2). destruct ok; [|destruct Hl1 as [Hl1|Hl1]].
    + exists (trim_crlf line :: add). rewrite Hadd, Hl1, <- app_assoc. split; [done|]. simpl. split; by apply sublist_skip.
    + exists add. rewrite Hadd, Hl1. split; [done|]. split; [done|]. by apply sublist_cons.
    + exists (trim_crlf line :: add). rewrite Hadd, Hl1, <- app_assoc. split; [done|]. split; [by apply sublist_cons|by apply sublist_skip].
Qed.

Definition fresh_log (script : list outcome) : scripted :=
  let '(d, w, _) := New [] true 3 (all_ok unix_epoch) in mkScripted d w script.

Lemma fresh_log_inv script : Forall (fun o => o_torn o = None) script -> scripted_inv (fresh_log script).
Proof.
  intros H. split; [|done]. unfold fresh_log, New. destruct (openNewFileLocked _ _ _) as [[d w] ok] eqn:E.
  assert (Hi0 : log_inv [] (mkWriter true 3 None 0 0 false)) by (split; [done|constructor|done|done]).
  by apply open_log in E as [Hi _]; [|done|right].
Qed.

(** The file rotates after each record; the second write fails to sync, and the third
    write's rotation fails to close the file, so that the fourth write fails. *)
Definition example_script : list outcome :=
  [all_ok (unix_epoch + 1); mkOutcome (unix_epoch + 2) None true false false; mkOutcome (unix_epoch + 3) None false true false].

Lemma Replay_acknowledged_witness :
  let r := write_all (fresh_log example_script) ["{}"; "{}"; "{}"; "{}"] in
  (exists added, (Replay (sc_disk r.1) time_zero collect []).1.1 = [] ++ added /\ trim_crlf <$> r.2 `sublist_of` added /\
     added `sublist_of` trim_crlf <$> ["{}"; "{}"; "{}"; "{}"]) /\ length r.2 = 1%nat.
Proof.
  intros r. split; [|vm_compute; reflexivity].
  apply (Replay_acknowledged (fresh_log example_script) r.1 ["{}"; "{}"; "{}"; "{}"] r.2).
  - apply fresh_log_inv. repeat constructor.
  - repeat constructor; apply one_line_ex.
  - vm_compute. reflexivity.
  - let d := eval vm_compute in (sc_disk (write_all (fresh_log example_script) ["{}"; "{}"; "{}"; "{}"]).1) in
      change (replay_ordered d).
    split; unfold ssorted; repeat constructor.
Defined.

(** A torn write loses the next event as well: after a write that fails half way, the
    next write is acknowledged, but its record joins the torn bytes on one line and a
    replay never hands it out. *)
Theorem WriteRaw_torn_loses_next :
  exists d w d1 w1 d2 w2 o1 o2,
    New [] true 0 (all_ok unix_epoch) = (d, w, true) /\
    WriteRaw d w o1 "{1}" = (d1, w1, false) /\ WriteRaw d1 w1 o2 "{2}" = (d2, w2, true) /\
    (Replay d2 time_zero collect []).1.1 = ["{1{2}"].
Proof.
  do 6 eexists. exists (mkOutcome (unix_epoch + 1) (Some 2%nat) false false false), (all_ok (unix_epoch + 2)).
  split; [vm_compute; reflexivity|]. split; [vm_compute; reflexivity|]. split; vm_compute; reflexivity.
Qed.
