(* ===== verification/Ingest.v ===== *)
(** The v2 ingest path ([internal/ingest/v2]: [dedup.go], [parse.go], [handler.go],
    [projector.go], [envelope.go], [replay.go]): framing a request, validating, writing
    ahead, deduplicating and projecting each event, and rebuilding the in-memory state
    from the log after a restart.  JSON decoding, schema validation and request bodies
    are the code of other packages: they are the fields of [Codec].  The log is the [WAL]
    interface.  Metrics and logging are left out. *)

From S2P Require Import Prelude GoRuntime Types Index Eventlog.
Open Scope Z_scope.

(** ** The event-id LRU *)

Definition DefaultDedupCapacity : Z := 65536.

(** The list holds the ids, newest first; [d_items] maps an id to its list element, which
    is the one element with that id. *)
Record Dedup := mkDedup { d_capacity : Z; d_items : gset string; d_order : list string }.

Definition NewDedup (capacity : Z) : Dedup :=
  mkDedup (if capacity <=? 0 then DefaultDedupCapacity else capacity) ∅ [].

Definition Seen (d : Dedup) (eventID : string) : bool :=
  negb (String.eqb eventID "") && bool_decide (eventID ∈ d_items d).

Definition list_remove_id (id : string) (l : list string) : list string :=
  List.filter (fun x => negb (String.eqb x id)) l.

(** [for d.order.Len() > d.capacity]: drop the oldest element. *)
Fixpoint evict (fuel : nat) (d : Dedup) : Dedup :=
  match fuel with
  | O => d
  | S fuel =>
    if d_capacity d <? Z.of_nat (length (d_order d)) then
      match last (d_order d) with
      | None => d
      | Some oldest => evict fuel (mkDedup (d_capacity d) (d_items d ∖ {[oldest]}) (removelast (d_order d)))
      end
    else d
  end.

Definition addLocked (d : Dedup) (eventID : string) : Dedup :=
  if bool_decide (eventID ∈ d_items d)
  then mkDedup (d_capacity d) (d_items d) (eventID :: list_remove_id eventID (d_order d))
  else evict (S (length (d_order d))) (mkDedup (d_capacity d) ({[eventID]} ∪ d_items d) (eventID :: d_order d)).

Definition Add (d : Dedup) (eventID : string) : Dedup :=
  if String.eqb eventID "" then d else addLocked d eventID.

Definition Remove (d : Dedup) (eventID : string) : Dedup :=
  if String.eqb eventID "" then d
  else if bool_decide (eventID ∈ d_items d)
  then mkDedup (d_capacity d) (d_items d ∖ {[eventID]}) (list_remove_id eventID (d_order d))
  else d.

Definition Size (d : Dedup) : Z := Z.of_nat (length (d_order d)).

(** [AddIfNew]: the state [w] is what the commit callback works on; [commit] answers
    whether it succeeded.  The result says whether the id was present, and whether the
    call returned without an error. *)
Definition AddIfNew {W} (d : Dedup) (eventID : string) (commit : W -> W * bool) (w : W) : Dedup * W * bool * bool :=
  if String.eqb eventID "" then let '(w, ok) := commit w in (d, w, false, ok)
  else if bool_decide (eventID ∈ d_items d) then (d, w, true, true)
  else let '(w, ok) := commit w in if ok then (addLocked d eventID, w, false, true) else (d, w, false, false).

(** ** Envelopes *)

Definition ReasonInvalidJSON : string := "invalid_json".
Definition ReasonSchemaValidationFailed : string := "schema_validation_failed".
Definition ReasonBridgeNotImplemented : string := "bridge_not_implemented".
Definition ReasonBatchOversize : string := "batch_oversize".

Record RejectedEvent := mkRejectedEvent { rj_Index : Z; rj_EventID : string; rj_Reason : string; rj_Detail : string }.

Record IngestEnvelope := mkIngestEnvelope {
  env_Accepted : Z;
  env_Duplicate : Z;
  env_Rejected : list RejectedEvent;
  env_Deprecations : gmap string Z
}.

Definition newEnvelope : IngestEnvelope := mkIngestEnvelope 0 0 [] ∅.

(** ** Framing *)

Definition maxBatchItems : nat := 256.

Record requestError := mkRequestError { re_status : Z; re_reason : string; re_detail : string }.

(** [bytes.IndexByte(body, newline)], as the line before it and the rest after it. *)
Fixpoint cut_newline (s : string) : option (string * string) :=
  match s with
  | EmptyString => None
  | String c s =>
    if Ascii.eqb c newline then Some ("", s)
    else match cut_newline s with Some (a, b) => Some (String c a, b) | None => None end
  end.

Fixpoint ndjson_loop (fuel : nat) (body : string) (events : list string) : list string + requestError :=
  match fuel with
  | O => inl events
  | S fuel =>
    if String.eqb body "" then inl events
    else
      let '(line, body) := match cut_newline body with Some (l, b) => (l, b) | None => (body, "") end in
      let line := TrimSpace line in
      if String.eqb line "" then ndjson_loop fuel body events
      else if (length events =? maxBatchItems)%nat
      then inr (mkRequestError 413 ReasonBatchOversize "batch exceeds 256 events")
      else ndjson_loop fuel body (events ++ [line])
  end.

(** Every turn of the loop consumes at least one byte. *)
Definition parseNDJSON (body : string) : list string + requestError := ndjson_loop (S (String.length body)) body [].

(** ** Validation *)

(** Decoding and validating a body: [encoding/json] into an untyped value and into an
    event, and the compiled JSON schema.  Errors are their messages. *)
Record Codec := mkCodec {
  unmarshal_any : string -> value + string;
  validate_any : value -> option string;
  unmarshal_event : string -> Event + string
}.

Definition rawIdentifiers (raw : value) : string * string :=
  match raw with
  | VMap (Some obj) => (as_string (obj !! "event_id"), as_string (obj !! "schema_version"))
  | _ => ("", "")
  end.

Inductive validationResult :=
| Valid (eventID : string) (event : Event)
| Invalid (rejected : RejectedEvent).

Definition validateEvent (c : Codec) (index : Z) (eventBody : string) : validationResult :=
  match unmarshal_any c eventBody with
  | inr err => Invalid (mkRejectedEvent index "" ReasonInvalidJSON err)
  | inl raw =>
    let '(eventID, schemaVersion) := rawIdentifiers raw in
    if HasPrefix schemaVersion "1."
    then Invalid (mkRejectedEvent index eventID ReasonBridgeNotImplemented "v1.x bridge ships in Slice 4")
    else
      match validate_any c raw with
      | Some err => Invalid (mkRejectedEvent index eventID ReasonSchemaValidationFailed err)
      | None =>
        match unmarshal_event c eventBody with
        | inr err => Invalid (mkRejectedEvent index eventID ReasonSchemaValidationFailed ("decode_typed: " +:+ err))
        | inl ev => Valid eventID ev
        end
      end
  end.

(** ** Projection *)

(** [EventProjector]: the boolean is false when [Project] panics. *)
Class EventProjector (P : Type) := project : P -> Event -> P * bool.

(** [Projector.Project] inserts into the hot index; a duplicate is only logged. *)
Definition Project (idx : RecentIndex) (ev : Event) : RecentIndex * bool := ((Insert idx (Some ev)).1, true).

#[export] Instance Projector : EventProjector RecentIndex := Project.

(** ** The handler *)

Inductive IngestError := ErrContext | ErrDurability | ErrProjection.

Section Handler.
Context {W P : Type} `{!WAL W} `{!EventProjector P}.

(** The state a handler works on: its dedup cache, its log (nil when not configured)
    and its projector. *)
Record Handler := mkHandler { h_dedup : Dedup; h_wal : option W; h_project : P }.

(** [projectEvent]: a panic forgets the id again and is reported as an error. *)
Definition projectEvent (h : Handler) (eventID : string) (ev : Event) : Handler * option IngestError :=
  let '(p, ok) := project (h_project h) ev in
  if ok then (mkHandler (h_dedup h) (h_wal h) p, None)
  else (mkHandler (Remove (h_dedup h) eventID) (h_wal h) p, Some ErrProjection).

Definition add_rejected (env : IngestEnvelope) (r : RejectedEvent) : IngestEnvelope :=
  mkIngestEnvelope (env_Accepted env) (env_Duplicate env) (env_Rejected env ++ [r]) (env_Deprecations env).
Definition add_accepted (env : IngestEnvelope) : IngestEnvelope :=
  mkIngestEnvelope (env_Accepted env + 1) (env_Duplicate env) (env_Rejected env) (env_Deprecations env).
Definition add_duplicate (env : IngestEnvelope) : IngestEnvelope :=
  mkIngestEnvelope (env_Accepted env) (env_Duplicate env + 1) (env_Rejected env) (env_Deprecations env).

(** One turn of the loop of [IngestRaw]; [cancelled i] is whether the request's context
    is done at the [i]-th body. *)
Definition ingest_one (c : Codec) (cancelled : Z -> bool) (durable : bool) (h : Handler) (env : IngestEnvelope)
    (i : Z) (eventBody : string) : Handler * IngestEnvelope * option IngestError :=
  if cancelled i then (h, env, Some ErrContext)
  else
    match validateEvent c i eventBody with
    | Invalid r => (h, add_rejected env r, None)
    | Valid eventID ev =>
      if negb durable then (h, add_accepted env, None)
      else
        match h_wal h with
        | None => (h, env, Some ErrDurability)
        | Some w =>
          let '(d, w, duplicate, ok) := AddIfNew (h_dedup h) eventID (fun w => wal_write w eventBody) w in
          let h := mkHandler d (Some w) (h_project h) in
          if negb ok then (h, env, Some ErrDurability)
          else if duplicate then (h, add_duplicate env, None)
          else
            match projectEvent h eventID ev with
            | (h, Some e) => (h, env, Some e)
            | (h, None) => (h, add_accepted env, None)
            end
        end
    end.

Fixpoint ingest_loop (c : Codec) (cancelled : Z -> bool) (durable : bool) (h : Handler) (env : IngestEnvelope)
    (i : Z) (bodies : list string) : Handler * IngestEnvelope * option IngestError :=
  match bodies with
  | [] => (h, env, None)
  | body :: bodies =>
    match ingest_one c cancelled durable h env i body with
    | (h, env, Some e) => (h, env, Some e)
    | (h, env, None) => ingest_loop c cancelled durable h env (i + 1) bodies
    end
  end.

Definition IngestRaw (c : Codec) (cancelled : Z -> bool) (durable : bool) (h : Handler) (bodies : list string)
    : Handler * IngestEnvelope * option IngestError :=
  ingest_loop c cancelled durable h newEnvelope 0 bodies.
End Handler.
Arguments Handler : clear implicits.

(** ** Replay *)

Record ReplayResult := mkReplayResult { rr_DedupLoaded : Z; rr_Projected : Z; rr_DecodeFails : Z }.

Definition replayRotationSlack : Duration := 5 * Minute.

(** The callback of [ReplayWAL] on one line of the log. *)
Definition replay_line {P} `{!EventProjector P} (c : Codec) (since : Time) (st : Dedup * P * ReplayResult) (rawLine : string)
    : (Dedup * P * ReplayResult) * bool :=
  let '(d, p, r) := st in
  match unmarshal_any c rawLine with
  | inr _ => (st, true)
  | inl raw =>
    match validate_any c raw with
    | Some _ => (st, true)
    | None =>
      match unmarshal_event c rawLine with
      | inr _ => ((d, p, mkReplayResult (rr_DedupLoaded r) (rr_Projected r) (rr_DecodeFails r + 1)), true)
      | inl ev =>
        if negb (IsZero since) && Before (ev_TsEnd ev) since then (st, true)
        else ((Add d (ev_EventID ev), (project p ev).1,
               mkReplayResult (rr_DedupLoaded r + 1) (rr_Projected r + 1) (rr_DecodeFails r)), true)
      end
    end
  end.

Definition ReplayWAL {P} `{!EventProjector P} (c : Codec) (d : disk) (dedup : Dedup) (projector : P) (since : Time)
    : Dedup * P * ReplayResult :=
  let fileSince := if IsZero since then since else TimeAdd since (- replayRotationSlack) in
  (Replay d fileSince (replay_line c since) (dedup, projector, mkReplayResult 0 0 0)).1.1.

(** ** The cache keeps the newest ids *)

Record dinv (d : Dedup) : Prop := {
  di_items : d_items d = list_to_set (d_order d);
  di_nodup : NoDup (d_order d);
  di_bound : Z.of_nat (length (d_order d)) <= d_capacity d;
  di_pos : 1 <= d_capacity d
}.

Lemma NewDedup_inv c : dinv (NewDedup c).
Proof.
  unfold NewDedup. split; simpl; [done|constructor|..]; destruct (Z.leb_spec c 0); unfold DefaultDedupCapacity; lia.
Qed.

Lemma elem_of_remove_id id x l : x ∈ list_remove_id id l <-> x <> id /\ x ∈ l.
Proof. unfold list_remove_id. rewrite elem_of_lfilter, negb_true_iff, String.eqb_neq. tauto. Qed.

Lemma length_remove_id id l : (length (list_remove_id id l) <= length l)%nat.
Proof. apply List.filter_length_le. Qed.

Lemma remove_id_absent id l : id ∉ l -> list_remove_id id l = l.
Proof.
  intros H. apply lfilter_all. intros x Hx. apply negb_true_iff, String.eqb_neq. by intros ->.
Qed.

Lemma remove_id_length id l : NoDup l -> id ∈ l -> length l = S (length (list_remove_id id l)).
Proof.
  induction 1 as [|x l Hni _ IH]; [by intros ?%elem_of_nil|]. intros Hin. unfold list_remove_id. simpl.
  destruct (String.eqb_spec x id) as [->|Hne]; simpl.
  - f_equal. f_equal. symmetry. by apply (remove_id_absent id l).
  - apply elem_of_cons in Hin as [->|Hin]; [done|]. f_equal. by apply IH.
Qed.

(** The loop drops from the back down to the capacity. *)
Lemma evict_take fuel d :
  NoDup (d_order d) -> d_items d = list_to_set (d_order d) -> 0 <= d_capacity d ->
  (length (d_order d) <= fuel)%nat ->
  evict fuel d = mkDedup (d_capacity d) (list_to_set (take (Z.to_nat (d_capacity d)) (d_order d)))
                   (take (Z.to_nat (d_capacity d)) (d_order d)).
Proof.
  destruct d as [cap items order]; simpl. revert items order.
  induction fuel as [|fuel IH]; intros items order Hnd -> Hc Hf; simpl.
  - destruct order; [|simpl in Hf; lia]. by rewrite take_nil.
  - destruct (Z.ltb_spec cap (Z.of_nat (length order))); [|by rewrite take_ge by lia].
    destruct order as [|x order _] using rev_ind; [simpl in *; lia|]. rewrite last_snoc, removelast_last.
    rewrite length_app in *. simpl in *. apply NoDup_app in Hnd as (Hnd & Hni & _).
    rewrite IH; [|done| |done|lia].
    + by rewrite take_app_le by lia.
    + assert (x ∉ order) by (intros Hx; apply (Hni x Hx); left). rewrite list_to_set_app_L. set_solver.
Qed.

Lemma addLocked_spec d id :
  dinv d ->
  let o := take (Z.to_nat (d_capacity d)) (id :: list_remove_id id (d_order d)) in
  addLocked d id = mkDedup (d_capacity d) (list_to_set o) o.
Proof.
  intros [Hi Hn Hb Hp] o. unfold addLocked. rewrite Hi. case_bool_decide as Hin.
  - apply elem_of_list_to_set in Hin. assert (Ho : o = id :: list_remove_id id (d_order d)).
    { unfold o. apply take_ge. simpl. rewrite <- remove_id_length by done. lia. }
    rewrite Ho. f_equal. apply set_eq. intros x. simpl. rewrite elem_of_union, elem_of_singleton, !elem_of_list_to_set, elem_of_remove_id.
    destruct (decide (x = id)) as [->|]; tauto.
  - assert (Hni : id ∉ d_order d) by (intros H; apply Hin; by apply elem_of_list_to_set).
    unfold o. rewrite remove_id_absent by done. rewrite evict_take; [done|by apply NoDup_cons|done|simpl; lia|simpl; lia].
Qed.

Lemma addLocked_inv d id : dinv d -> dinv (addLocked d id).
Proof.
  intros Hd. rewrite addLocked_spec by done. destruct Hd as [Hi Hn Hb Hp]. split; simpl; [done| | |done].
  - eapply sublist_NoDup; [|apply sublist_take]. apply NoDup_cons. split; [|by apply NoDup_lfilter].
    rewrite elem_of_remove_id. tauto.
  - rewrite length_take. lia.
Qed.

Lemma Add_inv d id : dinv d -> dinv (Add d id).
Proof. intros. unfold Add. case_if; [done|]. by apply addLocked_inv. Qed.

Lemma Remove_inv d id : dinv d -> dinv (Remove d id).
Proof.
  intros [Hi Hn Hb Hp]. unfold Remove. case_if; [done|]. case_if; [|done]. split; simpl.
  - apply set_eq. intros x. rewrite Hi, elem_of_difference, !elem_of_list_to_set, elem_of_remove_id. set_solver.
  - by apply NoDup_lfilter.
  - pose proof (length_remove_id id (d_order d)). lia.
  - done.
Qed.

(** All ids ever added, the most recently added first, each once. *)
Definition recency (ids : list string) : list string :=
  foldl (fun l id => if String.eqb id "" then l else id :: list_remove_id id l) [] ids.

Lemma recency_nodup ids : NoDup (recency ids).
Proof.
  unfold recency. induction ids as [|id ids IH] using rev_ind; [constructor|]. rewrite foldl_app. simpl.
  case_if; [done|]. apply NoDup_cons. split; [rewrite elem_of_remove_id; tauto|by apply NoDup_lfilter].
Qed.

Lemma take_remove_id n id l :
  NoDup l -> take n (list_remove_id id (take (S n) l)) = take n (list_remove_id id l).
Proof.
  revert n. induction l as [|x l IH]; intros n Hnd; [by rewrite take_nil|].
  apply NoDup_cons in Hnd as [Hni Hnd]. unfold list_remove_id in *. simpl.
  destruct (String.eqb_spec x id) as [->|Hne]; simpl.
  - change (take n (list_remove_id id (take n l)) = take n (list_remove_id id l)).
    rewrite !remove_id_absent; [by rewrite take_take, Nat.min_id|done|].
    intros Hin. apply Hni. rewrite <- (take_drop n l). apply elem_of_app. by left.
  - destruct n as [|n]; [done|]. simpl. f_equal. by apply IH.
Qed.

Lemma Add_newest_from d0 ids :
  dinv d0 -> d_order d0 = [] ->
  dinv (foldl Add d0 ids) /\ d_capacity (foldl Add d0 ids) = d_capacity d0 /\
  d_order (foldl Add d0 ids) = take (Z.to_nat (d_capacity d0)) (recency ids).
Proof.
  intros Hi0 Ho0. induction ids as [|id ids (Hi & Hc & Ho)] using rev_ind.
  { split; [done|]. split; [done|]. unfold recency. simpl. by rewrite take_nil. }
  rewrite foldl_app. cbn [foldl]. split; [by apply Add_inv|].
  pose proof (recency_nodup ids) as Hnd. unfold recency in *. rewrite foldl_app. cbn [foldl].
  set (d := foldl Add d0 ids) in *. set (l := foldl _ [] ids) in *. clearbody d l. unfold Add.
  destruct (String.eqb id ""); [done|]. rewrite addLocked_spec by done. cbn [d_order d_capacity]. split; [done|].
  destruct Hi as [_ _ _ Hp]. rewrite Hc in Hp. rewrite Hc, Ho.
  destruct (Z.to_nat (d_capacity d0)) as [|n] eqn:En; [lia|]. simpl. f_equal. by apply take_remove_id.
Qed.

(** The cache holds exactly the newest ids, up to its capacity, in order of their
    latest addition; whatever was added before them is forgotten. *)
Theorem Add_newest (c : Z) (ids : list string) :
  let d := foldl Add (NewDedup c) ids in
  let newest := take (Z.to_nat (d_capacity (NewDedup c))) (recency ids) in
  d_order d = newest /\ (forall id, Seen d id = true <-> id <> "" /\ id ∈ newest).
Proof.
  intros d newest.
  destruct (Add_newest_from (NewDedup c) ids (NewDedup_inv c) eq_refl) as (Hi & _ & Ho).
  fold d in Ho, Hi. fold newest in Ho.
  split; [done|]. intros id. unfold Seen.
  rewrite andb_true_iff, negb_true_iff, String.eqb_neq, bool_decide_eq_true, (di_items d Hi), elem_of_list_to_set, Ho. done.
Qed.

(** ** Framing *)

(** The lines of a body, without their newlines. *)
Fixpoint body_lines (s : string) : list string :=
  match s with
  | EmptyString => [""]
  | String c s =>
    if Ascii.eqb c newline then "" :: body_lines s
    else match body_lines s with
         | [] => [String c ""]
         | l :: ls => String c l :: ls
         end
  end.

Definition nonblank (s : string) : bool := negb (String.eqb s "").
Definition ndjson_events (body : string) : list string := List.filter nonblank (TrimSpace <$> body_lines body).

Lemma body_lines_cut s :
  body_lines s = match cut_newline s with Some (l, rest) => l :: body_lines rest | None => [s] end.
Proof.
  induction s as [|c s IH]; simpl; [done|]. destruct (Ascii.eqb c newline); [done|]. rewrite IH.
  by destruct (cut_newline s) as [[l rest]|].
Qed.

Lemma cut_newline_length s l rest : cut_newline s = Some (l, rest) -> (String.length rest < String.length s)%nat.
Proof.
  revert l rest. induction s as [|c s IH]; simpl; [done|]. intros l rest. destruct (Ascii.eqb c newline).
  - intros ?; simplify_eq. lia.
  - destruct (cut_newline s) as [[a b]|]; [|done]. intros ?; simplify_eq. specialize (IH a rest eq_refl). lia.
Qed.

Definition one_event (line : string) : list string := if String.eqb line "" then [] else [line].

Lemma ndjson_events_cut body :
  ndjson_events body =
  match cut_newline body with
  | Some (l, rest) => one_event (TrimSpace l) ++ ndjson_events rest
  | None => one_event (TrimSpace body)
  end.
Proof.
  unfold ndjson_events, one_event. rewrite body_lines_cut. destruct (cut_newline body) as [[l rest]|];
    cbn [fmap list_fmap List.filter]; unfold nonblank at 1.
  - by destruct (String.eqb (TrimSpace l) "").
  - by destruct (String.eqb (TrimSpace body) "").
Qed.

Lemma ndjson_loop_spec fuel body events :
  (String.length body < fuel)%nat -> (length events <= maxBatchItems)%nat ->
  ndjson_loop fuel body events =
  let all := events ++ ndjson_events body in
  if (length all <=? maxBatchItems)%nat then inl all
  else inr (mkRequestError 413 ReasonBatchOversize "batch exceeds 256 events").
Proof.
  assert (Hbase : forall evs, (length evs <= maxBatchItems)%nat -> forall e : requestError,
    inl evs = if (length (evs ++ ndjson_events "") <=? maxBatchItems)%nat then inl (evs ++ ndjson_events "") else inr e).
  { intros evs Hl e. change (ndjson_events "") with (@nil string). rewrite app_nil_r. by rewrite (proj2 (Nat.leb_le _ _)). }
  revert body events. induction fuel as [|fuel IH]; intros body events Hf Hl; [lia|]. cbn [ndjson_loop].
  destruct (String.eqb_spec body "") as [->|Hne]; [by apply Hbase|].
  assert (Hcut : exists line rest, (String.length rest < fuel)%nat /\
    match cut_newline body with Some (l, b) => (l, b) | None => (body, "") end = (line, rest) /\
    ndjson_events body = one_event (TrimSpace line) ++ ndjson_events rest).
  { rewrite ndjson_events_cut. destruct (cut_newline body) as [[line rest]|] eqn:Ec.
    - apply cut_newline_length in Ec. exists line, rest. split; [lia|done].
    - exists body, "". split; [destruct body; [done|simpl in *; lia]|]. split; [done|].
      change (ndjson_events "") with (@nil string). by rewrite app_nil_r. }
  destruct Hcut as (line & rest & Hr & -> & ->). unfold one_event.
  destruct (String.eqb (TrimSpace line) "") eqn:E; simpl; [by rewrite IH|].
  destruct (Nat.eqb_spec (length events) maxBatchItems) as [He|He].
  - rewrite (proj2 (Nat.leb_gt _ _)); [done|]. rewrite length_app. simpl. lia.
  - rewrite IH by (rewrite ?length_app; simpl; lia). by rewrite <- app_assoc.
Qed.

(** C21: a newline-delimited body is framed as its non-blank lines, trimmed, in order; it
    is refused exactly when there are more than 256 of them.  The loop always ends. *)
Theorem parseNDJSON_spec (body : string) :
  parseNDJSON body =
  if (length (ndjson_events body) <=? 256)%nat then inl (ndjson_events body)
  else inr (mkRequestError 413 ReasonBatchOversize "batch exceeds 256 events").
Proof. unfold parseNDJSON. rewrite ndjson_loop_spec; [done|lia|simpl; unfold maxBatchItems; lia]. Qed.

(** ** Accounting *)

Section Accounting.
Context {W P : Type} `{!WAL W} `{!EventProjector P}.

(** The rejections of a batch, from its first index on. *)
Fixpoint rejections (c : Codec) (i : Z) (bodies : list string) : list RejectedEvent :=
  match bodies with
  | [] => []
  | b :: bodies => match validateEvent c i b with Invalid r => [r] | Valid _ _ => [] end ++ rejections c (i + 1) bodies
  end.

Lemma ingest_loop_accounts c cancelled durable (h h' : Handler W P) env env' i bodies :
  ingest_loop c cancelled durable h env i bodies = (h', env', None) ->
  env_Accepted env' + env_Duplicate env' + Z.of_nat (length (env_Rejected env')) =
    env_Accepted env + env_Duplicate env + Z.of_nat (length (env_Rejected env)) + Z.of_nat (length bodies) /\
  env_Rejected env' = env_Rejected env ++ rejections c i bodies /\ (durable = false -> h' = h).
Proof.
  revert h env i. induction bodies as [|b bodies IH]; intros h env i; simpl.
  { intros ?; simplify_eq. rewrite app_nil_r. split; [lia|done]. }
  unfold ingest_one. destruct (cancelled i); [done|].
  destruct (validateEvent c i b) as [id ev|r]; simpl.
  - destruct durable; simpl.
    + destruct (h_wal h) as [w|]; [|done].
      destruct (AddIfNew _ _ _ _) as [[[d w'] dup] ok]. destruct ok; simpl; [|done]. destruct dup.
      * intros H. apply IH in H as (H1 & H2 & _). simpl in *. split; [lia|done].
      * destruct (projectEvent _ _ _) as [h1 [e|]]; [done|].
        intros H. apply IH in H as (H1 & H2 & _). simpl in *. split; [lia|done].
    + intros H. apply IH in H as (H1 & H2 & H3). simpl in *. split; [lia|done].
  - intros H. apply IH in H as (H1 & H2 & H3). simpl in *. rewrite length_app in H1. simpl in H1.
    rewrite <- app_assoc in H2. split; [lia|done].
Qed.

(** A batch that is answered without an error accounts for every event: accepted,
    duplicate and rejected add up to the batch, the rejections are exactly the bodies
    that fail validation, each with its position, and a dry run changes nothing. *)
Theorem IngestRaw_accounts (c : Codec) (cancelled : Z -> bool) (durable : bool) (h h' : Handler W P)
    (bodies : list string) (env : IngestEnvelope) :
  IngestRaw c cancelled durable h bodies = (h', env, None) ->
  env_Accepted env + env_Duplicate env + Z.of_nat (length (env_Rejected env)) = Z.of_nat (length bodies) /\
  env_Rejected env = rejections c 0 bodies /\
  (durable = false -> h' = h).
Proof. intros H. apply ingest_loop_accounts in H as (H1 & H2 & H3). simpl in *. split; [lia|done]. Qed.
End Accounting.

(** ** Recovery *)

(** What a body must be for its log line to decode to the event that was accepted. *)
Record loggable (c : Codec) (b : string) : Prop := {
  lg_line : one_line b;
  lg_decodes : forall raw ev, unmarshal_any c b = inl raw -> unmarshal_event c b = inl ev ->
    unmarshal_any c (trim_crlf b) = inl raw /\ unmarshal_event c (trim_crlf b) = inl ev /\
    (rawIdentifiers raw).1 = ev_EventID ev
}.

(** The event a log line decodes to, if any. *)
Definition decode (c : Codec) (line : string) : option Event :=
  match unmarshal_any c line with
  | inr _ => None
  | inl raw => match validate_any c raw with
               | Some _ => None
               | None => match unmarshal_event c line with inr _ => None | inl ev => Some ev end
               end
  end.

Definition fresh (since : Time) (ev : Event) : bool := IsZero since || negb (Before (ev_TsEnd ev) since).

Lemma validateEvent_valid c i b id ev :
  validateEvent c i b = Valid id ev ->
  exists raw, unmarshal_any c b = inl raw /\ validate_any c raw = None /\ unmarshal_event c b = inl ev /\
    id = (rawIdentifiers raw).1.
Proof.
  unfold validateEvent. destruct (unmarshal_any c b) as [raw|]; [|done].
  destruct (rawIdentifiers raw) as [id' ver] eqn:Er. case_if; [done|].
  destruct (validate_any c raw) eqn:Ev; [done|]. destruct (unmarshal_event c b) as [ev'|] eqn:Ee; [|done].
  intros ?; simplify_eq. exists raw. by rewrite Er.
Qed.

Lemma decode_loggable c i b id ev :
  loggable c b -> validateEvent c i b = Valid id ev -> decode c (trim_crlf b) = Some ev /\ id = ev_EventID ev.
Proof.
  intros [_ Hd] Hv. apply validateEvent_valid in Hv as (raw & Hr & Hva & He & ->).
  destruct (Hd raw ev Hr He) as (H1 & H2 & H3). unfold decode. by rewrite H1, Hva, H2.
Qed.

Section Recovery.
Context (c : Codec) (since : Time).

Lemma replay_line_spec {P} `{!EventProjector P} d (p : P) r line :
  exists r', replay_line c since (d, p, r) line =
    (match decode c line with
     | Some ev => if fresh since ev then (Add d (ev_EventID ev), (project p ev).1, r') else (d, p, r')
     | None => (d, p, r')
     end, true).
Proof.
  unfold replay_line, decode, fresh. destruct (unmarshal_any c line); [|by eexists].
  destruct (validate_any c v); [by eexists|]. destruct (unmarshal_event c line) as [ev|]; [|by eexists].
  destruct (IsZero since); simpl; [by eexists|]. destruct (Before (ev_TsEnd ev) since); by eexists.
Qed.

(** The events a replay keeps, in order. *)
Definition replayed (lines : list string) : list Event := List.filter (fresh since) (omap (decode c) lines).

Lemma replay_lines_state {P} `{!EventProjector P} d (p : P) r n lines :
  exists r' n', replay_lines (replay_line c since) (d, p, r) n lines =
    ((foldl Add d (ev_EventID <$> replayed lines), foldl (fun p ev => (project p ev).1) p (replayed lines), r'), n', true).
Proof.
  revert d p r n. induction lines as [|line lines IH]; intros d p r n; cbn [replay_lines]; [by do 2 eexists|].
  destruct (replay_line_spec d p r line) as (r1 & Hl). rewrite Hl. unfold replayed in *. cbn [omap list_omap].
  destruct (decode c line) as [ev|]; [|apply IH]. simpl. destruct (fresh since ev); simpl; apply IH.
Qed.
End Recovery.

(** The state a restart with a cache of capacity [cap] rebuilds from the log's lines. *)
Definition recovered (c : Codec) (cap : Z) (lines : list string) : Dedup * RecentIndex :=
  (foldl Add (NewDedup cap) (ev_EventID <$> replayed c time_zero lines),
   foldl (fun idx ev => (Insert idx (Some ev)).1) NewRecentIndex (replayed c time_zero lines)).

Lemma ReplayWAL_recovered c cap d :
  replay_ordered d ->
  (ReplayWAL c d (NewDedup cap) NewRecentIndex time_zero).1 = recovered c cap (log_lines d).
Proof.
  intros Hord. unfold ReplayWAL. simpl. rewrite Replay_log by done.
  destruct (replay_lines_state c time_zero (NewDedup cap) NewRecentIndex (mkReplayResult 0 0 0) 0 (log_lines d))
    as (r & n & ->). done.
Qed.

Lemma replayed_snoc c since lines line :
  replayed c since (lines ++ [line]) =
  replayed c since lines ++ match decode c line with Some ev => if fresh since ev then [ev] else [] | None => [] end.
Proof.
  unfold replayed. rewrite omap_app, List.filter_app. f_equal. simpl. by destruct (decode c line).
Qed.

Section Durable.
Context {W : Type} `{!WAL W} (c : Codec) (cap : Z).

(** The memory of the handler is what a restart would rebuild. *)
Definition synced (h : Handler W RecentIndex) : Prop :=
  exists w, h_wal h = Some w /\ wal_inv w /\ (h_dedup h, h_project h) = recovered c cap (wal_lines w).

Lemma synced_step (h h' : Handler W RecentIndex) env env' cancelled i b e :
  synced h -> loggable c b -> ingest_one c cancelled true h env i b = (h', env', e) ->
  e <> Some ErrDurability -> synced h'.
Proof.
  intros (w & Hw & Hinv & Hsync) Hlog Hone Hne. unfold ingest_one in Hone.
  destruct (cancelled i); [simplify_eq; by exists w|].
  destruct (validateEvent c i b) as [id ev|r] eqn:Hv; [|simplify_eq; by exists w].
  destruct (decode_loggable _ _ _ _ _ Hlog Hv) as [Hdec ->].
  cbn [negb] in Hone. rewrite Hw in Hone. unfold AddIfNew in Hone.
  destruct (wal_write w b) as [w1 ok] eqn:Ew.
  assert (Hok : ok = true -> wal_inv w1 /\ recovered c cap (wal_lines w1) =
    (Add (h_dedup h) (ev_EventID ev), (Insert (h_project h) (Some ev)).1)).
  { intros ->. destruct (wal_write_ok w b w1 Hinv (lg_line _ _ Hlog) Ew) as [Hi1 Hl1]. split; [done|].
    unfold recovered in *. rewrite Hl1, replayed_snoc, Hdec. change (fresh time_zero ev) with true.
    rewrite fmap_app, !foldl_app. cbn [foldl fmap list_fmap].
    pose proof (f_equal fst Hsync) as Hd. pose proof (f_equal snd Hsync) as Hp. cbn [fst snd] in Hd, Hp.
    by rewrite <- Hd, <- Hp. }
  destruct (String.eqb_spec (ev_EventID ev) "") as [Hid|Hid].
  - destruct ok; simplify_eq/=. destruct (Hok eq_refl) as [Hi1 Hr]. exists w1. split; [done|]. split; [done|].
    rewrite Hr. unfold Add. by rewrite Hid.
  - destruct (bool_decide _); [simplify_eq/=; exists w; by destruct h; simplify_eq/=|].
    destruct ok; simplify_eq/=. destruct (Hok eq_refl) as [Hi1 Hr]. exists w1. split; [done|]. split; [done|].
    rewrite Hr. unfold Add. by rewrite (proj2 (String.eqb_neq _ _)).
Qed.

Lemma synced_loop (h h' : Handler W RecentIndex) env env' cancelled i bodies e :
  synced h -> Forall (loggable c) bodies -> ingest_loop c cancelled true h env i bodies = (h', env', e) ->
  e <> Some ErrDurability -> synced h'.
Proof.
  intros Hs Hb. revert h env i Hs. induction Hb as [|b bodies Hb _ IH]; intros h env i Hs Heq Hne; simpl in Heq.
  - by simplify_eq.
  - destruct (ingest_one c cancelled true h env i b) as [[h1 env1] [e1|]] eqn:E; simplify_eq.
    + by eapply synced_step.
    + eapply IH; [|exact Heq|done]. by eapply synced_step.
Qed.

End Durable.

(** C1: Restarting loses nothing.  Take a handler whose memory is what [ReplayWAL] makes of
    its log directory, with an empty cache and index to start from, and let it take a batch
    of bodies.  Unless the batch ends in a durability error, [ReplayWAL] of the directory as
    it is then makes the very memory the handler then has: the same ids in the same order,
    the same events, the same aggregates.  Each body is a line of the log, not longer than a
    replay reads and decoded alike without its line end (a JSON body spread over lines is
    not, see [multiline_body_not_recovered]); no write of the log is torn, whatever else
    fails; and file times follow creation. *)
Theorem IngestRaw_recoverable (c : Codec) (cap : Z) (h h' : Handler scripted RecentIndex) (log : scripted) (cancelled : Z -> bool)
    (bodies : list string) (env : IngestEnvelope) (e : option IngestError) :
  h_wal h = Some log -> scripted_inv log -> replay_ordered (sc_disk log) ->
  (ReplayWAL c (sc_disk log) (NewDedup cap) NewRecentIndex time_zero).1 = (h_dedup h, h_project h) ->
  Forall (loggable c) bodies ->
  IngestRaw c cancelled true h bodies = (h', env, e) -> e <> Some ErrDurability ->
  exists log', h_wal h' = Some log' /\ scripted_inv log' /\
    (replay_ordered (sc_disk log') -> (ReplayWAL c (sc_disk log') (NewDedup cap) NewRecentIndex time_zero).1 = (h_dedup h', h_project h')).
Proof.
  intros Hw Hi Hord Hr Hb Hrun He. rewrite ReplayWAL_recovered in Hr by done.
  destruct (synced_loop c cap h h' newEnvelope env cancelled 0 bodies e) as (log' & Hw' & Hi' & Hs); [|done|exact Hrun|done|].
  - by exists log.
  - exists log'. split; [done|]. split; [done|]. intros Hord'. by rewrite ReplayWAL_recovered.
Qed.

Lemma aggregates_byID idx ev : byID (applyAggregatesLocked idx ev) = byID idx.
Proof.
  rewrite applyAggregates_touches. generalize (touches ev) as l. intros l. revert idx. induction l as [|t l IH]; intros idx; [done|]. cbn [foldl]. rewrite IH.
  destruct t; simpl; unfold touchServiceLocked, touchError, touchCall; repeat case_match; done.
Qed.

Lemma index_dom_insert idx ev x :
  is_Some (byID (Insert idx (Some ev)).1 !! x) -> is_Some (byID idx !! x) \/ x = ev_EventID ev.
Proof.
  unfold Insert. case_if; [by left|]. destruct (byID idx !! ev_EventID ev) eqn:El; [by left|]. cbn [fst].
  rewrite aggregates_byID. simpl. intros H. destruct (decide (x = ev_EventID ev)) as [->|Hne]; [by right|left].
  by rewrite lookup_insert_ne in H.
Qed.

(** What is inserted is found, and what was found stays. *)
Lemma index_insert_dom idx ev x :
  is_Some (byID idx !! x) \/ (x = ev_EventID ev /\ x <> "") -> is_Some (byID (Insert idx (Some ev)).1 !! x).
Proof.
  unfold Insert. intros H. destruct (String.eqb_spec (ev_EventID ev) "") as [He|He]; [destruct H as [H|[-> H]]; done|].
  destruct (byID idx !! ev_EventID ev) as [y|] eqn:El; [destruct H as [H|[-> _]]; [done|]; cbn [fst]; rewrite El; by eexists|].
  cbn [fst]. rewrite aggregates_byID. simpl. destruct (decide (x = ev_EventID ev)) as [->|Hne]; [rewrite lookup_insert_eq; by eexists|].
  rewrite lookup_insert_ne by done. destruct H as [H|[H _]]; [done|congruence].
Qed.

Lemma index_all_dom evs idx x : is_Some (byID idx !! x) \/ (x ∈ ev_EventID <$> evs /\ x <> "") ->
  is_Some (byID (foldl (fun idx ev => (Insert idx (Some ev)).1) idx evs) !! x).
Proof.
  revert idx. induction evs as [|ev evs IH]; intros idx H; cbn [foldl].
  - destruct H as [H|[H%elem_of_nil _]]; done.
  - apply IH. destruct H as [H|[[->|H]%elem_of_cons Hne]]; [left; apply index_insert_dom; by left|left; apply index_insert_dom; by right|by right].
Qed.

Section WriteAhead.
Context {W : Type} `{!WAL W} (c : Codec).

Definition logged_ids (w : W) : list string := ev_EventID <$> omap (decode c) (wal_lines w).

(** Every event in the index is in the log. *)
Definition logged (h : Handler W RecentIndex) : Prop :=
  exists w, h_wal h = Some w /\ wal_inv w /\
    forall id, is_Some (byID (h_project h) !! id) -> id ∈ logged_ids w.

Lemma logged_step (h h' : Handler W RecentIndex) env env' cancelled i b e :
  logged h -> loggable c b -> ingest_one c cancelled true h env i b = (h', env', e) -> logged h'.
Proof.
  intros (w & Hw & Hinv & Hids) Hlog Hone. unfold ingest_one in Hone.
  destruct (cancelled i); [simplify_eq; by exists w|].
  destruct (validateEvent c i b) as [id ev|r] eqn:Hv; [|simplify_eq; by exists w].
  destruct (decode_loggable _ _ _ _ _ Hlog Hv) as [Hdec ->].
  cbn [negb] in Hone. rewrite Hw in Hone. unfold AddIfNew in Hone.
  destruct (wal_write w b) as [w1 ok] eqn:Ew.
  assert (Hfail : ok = false -> wal_inv w1 /\ forall id, is_Some (byID (h_project h) !! id) -> id ∈ logged_ids w1).
  { intros ->. destruct (wal_write_fail w b w1 Hinv (lg_line _ _ Hlog) Ew) as [Hi1 Hl1]. split; [done|].
    intros id Hid. apply Hids in Hid. unfold logged_ids in *. destruct Hl1 as [->| ->]; [done|].
    rewrite omap_app, fmap_app. apply elem_of_app. by left. }
  assert (Hok : ok = true -> wal_inv w1 /\ forall id, is_Some (byID (Insert (h_project h) (Some ev)).1 !! id) -> id ∈ logged_ids w1).
  { intros ->. destruct (wal_write_ok w b w1 Hinv (lg_line _ _ Hlog) Ew) as [Hi1 Hl1]. split; [done|].
    intros id Hid. unfold logged_ids in *. rewrite Hl1, omap_app, fmap_app. simpl. rewrite Hdec. simpl.
    apply elem_of_app. apply index_dom_insert in Hid as [Hid| ->]; [left; auto|right; left]. }
  destruct (String.eqb_spec (ev_EventID ev) "") as [Hid|Hid]; [|destruct (bool_decide _); [simplify_eq/=; by exists w|]].
  all: destruct ok; simplify_eq/=; [destruct (Hok eq_refl)|destruct (Hfail eq_refl)]; by exists w1.
Qed.

(** Write-ahead: whatever a batch ends in, an error of the log included, every
    event visible in the index has its line in the log. *)
Theorem IngestRaw_write_ahead (h h' : Handler W RecentIndex) (cancelled : Z -> bool) (bodies : list string)
    (env : IngestEnvelope) (e : option IngestError) :
  logged h -> Forall (loggable c) bodies -> IngestRaw c cancelled true h bodies = (h', env, e) -> logged h'.
Proof.
  unfold IngestRaw. generalize newEnvelope at 1. generalize 0. intros i env0 Hs Hb.
  revert h env0 i Hs. induction Hb as [|b bodies Hb _ IH]; intros h env0 i Hs Heq; simpl in Heq.
  - by simplify_eq.
  - destruct (ingest_one c cancelled true h env0 i b) as [[h1 env1] [e1|]] eqn:E; simplify_eq.
    + by eapply logged_step.
    + eapply IH; [|exact Heq]. by eapply logged_step.
Qed.
End WriteAhead.

(** ** Examples *)

(** A codec for concrete runs: a body that begins with a brace is the event whose id is
    the rest of it, "{!" excepted, which the schema refuses. *)
Definition sample_codec : Codec := mkCodec
  (fun s => match s with
            | String "{"%char id => if Contains id nl then inr "unexpected token" else inl (VMap (Some {[ "event_id" := VStr id ]}))
            | _ => inr "invalid character"
            end)
  (fun v => match v with
            | VMap (Some m) => if String.eqb (as_string (m !! "event_id")) "!" then Some "schema" else None
            | _ => Some "not an object"
            end)
  (fun s => inl (sample_event (drop_prefix "{" s) "t" "api" "ok" 100 200 "" None [])).

Definition handler_on (script : list outcome) : Handler scripted RecentIndex :=
  mkHandler (NewDedup 2) (Some (fresh_log script)) NewRecentIndex.

Lemma one_line_two (c : ascii) : is_crlf c = false -> one_line (String "{"%char (String c "")).
Proof.
  intros Hc. assert (Ht : trim_crlf (String "{"%char (String c "")) = String "{"%char (String c ""))
    by (simpl; by rewrite Hc).
  split; [|split; [by rewrite Ht|unfold record_of; rewrite Ht; vm_compute; discriminate]].
  rewrite Ht. unfold is_crlf in Hc. apply orb_false_iff in Hc as [Hn _]. apply Ascii.eqb_neq in Hn.
  intros [|c1 [|c2 [|c3 pre]]] post Heq; rewrite ?string_app_cons, ?string_app_nil_l in Heq; unfold nl in Heq;
    rewrite ?string_app_cons, ?string_app_nil_l in Heq; simplify_eq.
Qed.

Lemma loggable_two (c : ascii) : is_crlf c = false -> loggable sample_codec (String "{"%char (String c "")).
Proof.
  intros Hc. split; [by apply one_line_two|]. intros raw ev Hr He.
  assert (Ht : trim_crlf (String "{"%char (String c "")) = String "{"%char (String c "")) by (simpl; by rewrite Hc).
  rewrite Ht. split; [done|]. split; [done|]. simpl in Hr, He. destruct (_ || _) in Hr; [done|]. by simplify_eq.
Qed.

Definition sample_bodies : list string := ["{a"; "{!"; "{a"; "{b"; "{c"].

Lemma sample_loggable : Forall (loggable sample_codec) sample_bodies.
Proof. unfold sample_bodies. do 5 (apply Forall_cons; split; [by apply loggable_two|]). by apply Forall_nil. Qed.

Lemma handler_on_synced script :
  Forall (fun o => o_torn o = None) script -> synced sample_codec 2 (handler_on script).
Proof. intros H. exists (fresh_log script). split; [done|]. split; [by apply fresh_log_inv|]. vm_compute. done. Qed.

(** The result of a run, computed: accepted, duplicate and rejected counts. *)
Definition run_counts (r : Handler scripted RecentIndex * IngestEnvelope * option IngestError) : Z * Z * nat :=
  (env_Accepted r.1.2, env_Duplicate r.1.2, length (env_Rejected r.1.2)).

Lemma IngestRaw_accounts_witness :
  let r := IngestRaw sample_codec (fun _ => false) true (handler_on []) sample_bodies in
  r.2 = None /\ run_counts r = (3, 1, 1%nat) /\ env_Rejected r.1.2 = rejections sample_codec 0 sample_bodies.
Proof.
  intros r. assert (He : r = (r.1.1, r.1.2, None)) by (vm_compute; reflexivity).
  split; [vm_compute; reflexivity|]. split; [vm_compute; reflexivity|].
  exact (proj1 (proj2 (IngestRaw_accounts sample_codec (fun _ => false) true (handler_on []) r.1.1 sample_bodies r.1.2 He))).
Defined.

(** A second passes between the writes. *)
Definition ticks : list outcome := (fun k => all_ok (unix_epoch + k * Second)) <$> [1; 2; 3].

Lemma IngestRaw_recoverable_witness :
  let r := IngestRaw sample_codec (fun _ => false) true (handler_on ticks) sample_bodies in
  exists log', h_wal r.1.1 = Some log' /\
    (ReplayWAL sample_codec (sc_disk log') (NewDedup 2) NewRecentIndex time_zero).1 = (h_dedup r.1.1, h_project r.1.1) /\
    d_order (h_dedup r.1.1) = ["c"; "b"].
Proof.
  intros r.
  destruct (IngestRaw_recoverable sample_codec 2 (handler_on ticks) r.1.1 (fresh_log ticks) (fun _ => false) sample_bodies r.1.2 r.2) as (log' & Hw & _ & H);
    [reflexivity|apply fresh_log_inv; repeat constructor| |vm_compute; reflexivity|exact sample_loggable|vm_compute; reflexivity|vm_compute; discriminate|].
  - let d := eval vm_compute in (sc_disk (fresh_log ticks)) in change (replay_ordered d). split; unfold ssorted; repeat constructor.
  - exists log'. split; [exact Hw|]. split; [|vm_compute; reflexivity]. apply H.
    let l := eval vm_compute in (h_wal r.1.1) in change (h_wal r.1.1) with l in Hw. injection Hw as <-.
    match goal with |- replay_ordered ?d => let d' := eval vm_compute in d in change (replay_ordered d') end. split; unfold ssorted; repeat constructor.
Defined.

Lemma IngestRaw_write_ahead_witness :
  logged sample_codec (IngestRaw sample_codec (fun _ => false) true
    (handler_on [all_ok 0; mkOutcome 0 None true false false]) sample_bodies).1.1.
Proof.
  refine (IngestRaw_write_ahead sample_codec (handler_on [all_ok 0; mkOutcome 0 None true false false]) _ (fun _ => false)
    sample_bodies (IngestRaw sample_codec (fun _ => false) true
      (handler_on [all_ok 0; mkOutcome 0 None true false false]) sample_bodies).1.2 (Some ErrDurability) _ sample_loggable _).
  - exists (fresh_log [all_ok 0; mkOutcome 0 None true false false]). split; [reflexivity|]. split.
    + apply fresh_log_inv. repeat constructor.
    + intros id [x Hx]. exfalso. cbn in Hx. rewrite lookup_empty in Hx. discriminate.
  - vm_compute. reflexivity.
Defined.


(** ** Resending a batch *)

Section Retry.
Context {W P : Type} `{!WAL W} `{!EventProjector P} (c : Codec).

Definition room (d : Dedup) (k : nat) : Prop := Z.of_nat (length (d_order d) + k) <= d_capacity d.

Lemma addLocked_room d id k :
  dinv d -> room d (S k) -> id ∉ d_items d ->
  d_order (addLocked d id) = id :: d_order d /\ room (addLocked d id) k /\ d_items (addLocked d id) = {[id]} ∪ d_items d.
Proof.
  intros Hd Hr Hni. rewrite addLocked_spec by done. destruct Hd as [Hi Hn Hb Hp]. unfold room in *.
  rewrite remove_id_absent by (rewrite Hi in Hni; by rewrite elem_of_list_to_set in Hni).
  assert (Ht : take (Z.to_nat (d_capacity d)) (id :: d_order d) = id :: d_order d) by (apply take_ge; simpl; lia).
  cbn [d_order d_capacity d_items]. rewrite Ht. split; [done|]. split; [simpl in *; lia|]. by rewrite Hi.
Qed.

Definition valid_id (b id : string) : Prop := exists i ev, validateEvent c i b = Valid id ev.

Lemma valid_any_index i j b id ev : validateEvent c i b = Valid id ev -> validateEvent c j b = Valid id ev.
Proof.
  unfold validateEvent. destruct (unmarshal_any c b) as [raw|]; [|done].
  destruct (rawIdentifiers raw) as [id' ver]. case_if; [done|]. destruct (validate_any c raw); [done|].
  by destruct (unmarshal_event c b).
Qed.

(** With room in the cache a successful step forgets no id and learns the body's. *)
Lemma step_learns (h h' : Handler W P) env env' cancelled i b k :
  dinv (h_dedup h) -> room (h_dedup h) (S k) -> (forall id, valid_id b id -> id <> "") ->
  ingest_one c cancelled true h env i b = (h', env', None) ->
  dinv (h_dedup h') /\ room (h_dedup h') k /\ d_items (h_dedup h) ⊆ d_items (h_dedup h') /\
  (is_Some (h_wal h) -> is_Some (h_wal h')) /\
  forall id, valid_id b id -> id ∈ d_items (h_dedup h').
Proof.
  intros Hd Hr Hne Hone. unfold ingest_one in Hone. destruct (cancelled i); [done|].
  assert (Hr0 : room (h_dedup h) k) by (unfold room in *; lia).
  destruct (validateEvent c i b) as [id ev|r] eqn:Hv.
  2: { simplify_eq. split_and!; try done. intros id (j & ev & Hj). by rewrite (valid_any_index _ i _ _ _ Hj) in Hv. }
  assert (Hid : forall id', valid_id b id' -> id' = id).
  { intros id' (j & ev' & Hj). rewrite (valid_any_index _ i _ _ _ Hj) in Hv. by simplify_eq. }
  assert (Hidne : id <> "") by (apply Hne; by exists i, ev).
  cbn [negb] in Hone. destruct (h_wal h) as [w|] eqn:Hw; [|done]. unfold AddIfNew in Hone.
  rewrite (proj2 (String.eqb_neq _ _)) in Hone by done. case_bool_decide as Hin.
  - simpl in Hone. simplify_eq. simpl. split_and!; try done. by intros id' ->%Hid.
  - destruct (wal_write w b) as [w1 ok]. destruct ok; [|done]. simpl in Hone.
    unfold projectEvent in Hone. simpl in Hone. destruct (project (h_project h) ev) as [p ok]. destruct ok; [|done].
    simplify_eq. simpl. destruct (addLocked_room _ _ _ Hd Hr Hin) as (_ & Hr1 & ->).
    split_and!; [by apply addLocked_inv|done|set_solver|done|]. intros id' ->%Hid. set_solver.
Qed.

Lemma loop_learns (h h' : Handler W P) env env' cancelled i bodies :
  dinv (h_dedup h) -> room (h_dedup h) (length bodies) -> (forall b id, b ∈ bodies -> valid_id b id -> id <> "") ->
  ingest_loop c cancelled true h env i bodies = (h', env', None) ->
  d_items (h_dedup h) ⊆ d_items (h_dedup h') /\ (is_Some (h_wal h) -> is_Some (h_wal h')) /\
  forall b id, b ∈ bodies -> valid_id b id -> id ∈ d_items (h_dedup h').
Proof.
  revert h env i. induction bodies as [|b bodies IH]; intros h env i Hd Hr Hne Heq; simpl in Heq.
  - simplify_eq. split; [done|]. split; [done|]. intros b id Hb. by apply elem_of_nil in Hb.
  - destruct (ingest_one c cancelled true h env i b) as [[h1 env1] [e1|]] eqn:E; [done|].
    apply (step_learns _ _ _ _ _ _ _ (length bodies)) in E as (Hd1 & Hr1 & Hs1 & Hw1 & Hl1);
      [|done|done|intros id; apply Hne; left].
    apply IH in Heq as (Hs2 & Hw2 & Hl2); [|done|done|intros b' id Hb'; apply Hne; by right].
    split; [set_solver|]. split; [auto|]. intros b' id [->|Hb']%elem_of_cons Hv; [|eauto].
    apply Hs2. eauto.
Qed.

(** A batch whose valid ids are all cached changes nothing. *)
Lemma loop_known (h : Handler W P) env i bodies :
  is_Some (h_wal h) -> (forall b id, b ∈ bodies -> valid_id b id -> id <> "" /\ id ∈ d_items (h_dedup h)) ->
  ingest_loop c (fun _ => false) true h env i bodies =
  (h, mkIngestEnvelope (env_Accepted env)
        (env_Duplicate env + Z.of_nat (length bodies) - Z.of_nat (length (rejections c i bodies)))
        (env_Rejected env ++ rejections c i bodies) (env_Deprecations env), None).
Proof.
  intros [w Hw]. revert env i. induction bodies as [|b bodies IH]; intros env i Hk; simpl.
  - destruct env; simpl. rewrite app_nil_r. do 3 f_equal. lia.
  - unfold ingest_one. rewrite Hw. destruct (validateEvent c i b) as [id ev|r] eqn:Hv; simpl.
    + destruct (Hk b id) as [Hne Hin]; [left|by exists i, ev|]. unfold AddIfNew.
      rewrite (proj2 (String.eqb_neq _ _)), bool_decide_eq_true_2 by done. simpl.
      assert (Hh : mkHandler (h_dedup h) (Some w) (h_project h) = h) by (destruct h; simpl in *; by subst).
      rewrite Hh, IH by (intros b' id' Hb'; apply Hk; by right). simpl. do 3 f_equal. lia.
    + rewrite IH by (intros b' id' Hb'; apply Hk; by right). simpl. rewrite <- app_assoc. simpl. do 3 f_equal. lia.
Qed.

(** Resending a batch that was answered without an error is harmless: as long as
    the cache has room for the batch, every event accepted the first time is counted as
    a duplicate the second time, the rejections are the same, and neither the log, the
    cache nor the index changes. *)
Theorem IngestRaw_retry (h h' : Handler W P) (cancelled : Z -> bool) (bodies : list string) (env : IngestEnvelope) :
  dinv (h_dedup h) -> room (h_dedup h) (length bodies) -> is_Some (h_wal h) ->
  (forall b id, b ∈ bodies -> valid_id b id -> id <> "") ->
  IngestRaw c cancelled true h bodies = (h', env, None) ->
  IngestRaw c (fun _ => false) true h' bodies =
  (h', mkIngestEnvelope 0 (env_Accepted env + env_Duplicate env) (env_Rejected env) ∅, None).
Proof.
  intros Hd Hr Hw Hne Heq. pose proof (ingest_loop_accounts _ _ _ _ _ _ _ _ _ Heq) as (Hsum & Hrej & _). simpl in *.
  apply loop_learns in Heq as (_ & Hw' & Hl); [|done..]. unfold IngestRaw. rewrite loop_known.
  - simpl. rewrite Hrej in *. do 3 f_equal. lia.
  - by apply Hw'.
  - intros b id Hb Hv. split; [by eapply Hne|by eapply Hl].
Qed.
End Retry.

Lemma IngestRaw_retry_witness :
  let h0 := mkHandler (NewDedup 16) (Some (fresh_log [])) NewRecentIndex : Handler scripted RecentIndex in
  let r := IngestRaw sample_codec (fun _ => false) true h0 sample_bodies in
  IngestRaw sample_codec (fun _ => false) true r.1.1 sample_bodies =
    (r.1.1, mkIngestEnvelope 0 (env_Accepted r.1.2 + env_Duplicate r.1.2) (env_Rejected r.1.2) ∅, None).
Proof.
  intros h0 r. apply (IngestRaw_retry sample_codec h0 r.1.1 (fun _ => false)).
  - apply NewDedup_inv.
  - vm_compute. discriminate.
  - eexists. reflexivity.
  - intros b id Hb (i & ev & Hv). unfold sample_bodies in Hb.
    repeat (apply elem_of_cons in Hb as [->|Hb]; [vm_compute in Hv; simplify_eq; discriminate|]). by apply elem_of_nil in Hb.
  - vm_compute. reflexivity.
Defined.

(** ** Replaying only the hot window *)

#[export] Instance replay_less_by : LessBy replay_less (fun f => (f_modTime f, f_name f)).
Proof. intros a b. unfold replay_less. kred. solve_less. Qed.

Lemma insert_all_index_of evs :
  NoDup (ev_EventID <$> evs) -> Forall (fun ev => ev_EventID ev <> "") evs ->
  foldl (fun idx ev => (Insert idx (Some ev)).1) NewRecentIndex evs = index_of (cloneEvent <$> evs).
Proof.
  intros Hnd Hne. induction evs as [|ev evs IH] using rev_ind; [done|].
  rewrite fmap_app in Hnd. apply NoDup_app in Hnd as (Hnd & Hni & _). apply Forall_app in Hne as [Hne Hev].
  apply Forall_inv in Hev. rewrite foldl_app, fmap_app. cbn [foldl]. rewrite IH by done.
  assert (Hids : ev_EventID <$> (cloneEvent <$> evs) = ev_EventID <$> evs)
    by (rewrite <- list_fmap_compose; by apply list_fmap_ext).
  rewrite Insert_new; [done|by rewrite Hids|done|].
  rewrite Hids. intros Hin. apply (Hni _ Hin). left.
Qed.

(** Files left out because of their age hold nothing the window would keep. *)
Definition old_files_stale (c : Codec) (d : disk) (since : Time) : Prop :=
  forall f ev line, f ∈ d -> Before (f_modTime f) (since - replayRotationSlack) = true ->
    line ∈ replayFileLines (f_bytes f) -> decode c line = Some ev -> Before (ev_TsEnd ev) since = true.

Lemma replayed_app c since l1 l2 : replayed c since (l1 ++ l2) = replayed c since l1 ++ replayed c since l2.
Proof. unfold replayed. by rewrite omap_app, List.filter_app. Qed.

Lemma replayed_window c since lines :
  since <> time_zero ->
  replayed c since lines = List.filter (keep since) (replayed c time_zero lines).
Proof.
  intros Hs. unfold replayed. rewrite (lfilter_all (fresh time_zero)) by done. apply filter_ext. intros ev.
  unfold fresh, keep, IsZero. by rewrite (proj2 (Z.eqb_neq _ _)).
Qed.

Lemma replayed_files c d since :
  NoDup (f_name <$> d) -> since <> time_zero -> old_files_stale c d since ->
  replayed c since (replay_files d (since - replayRotationSlack) ≫= fun f => replayFileLines (f_bytes f)) =
  replayed c since (replay_files d time_zero ≫= fun f => replayFileLines (f_bytes f)).
Proof.
  intros Hnd Hs Hstale. unfold replay_files. set (named := fun f => HasPrefix (f_name f) "events-" && HasSuffix (f_name f) ".jsonl").
  set (young := fun f => negb (negb (IsZero (since - replayRotationSlack)) && Before (f_modTime f) (since - replayRotationSlack))).
  assert (H0 : List.filter (fun f => named f && negb (negb (IsZero time_zero) && Before (f_modTime f) time_zero)) d
             = List.filter named d) by (apply filter_ext; intros f; by rewrite andb_true_r).
  assert (H1 : List.filter (fun f => named f && young f) d = List.filter young (List.filter named d))
    by by rewrite lfilter_lfilter.
  unfold named, young in H0, H1 |- *. rewrite H0, H1. clear H0 H1.
  rewrite (ssort_lfilter replay_less (fun f => (f_modTime f, f_name f))).
  2: { intros a b Ha Hb. intros Hk. simplify_eq. apply elem_of_lfilter in Ha as [Ha _], Hb as [Hb _].
       by apply (NoDup_fmap_inj_on f_name d). }
  assert (Hsub : forall f, f ∈ ssort replay_less (List.filter (fun f => HasPrefix (f_name f) "events-" && HasSuffix (f_name f) ".jsonl") d) -> f ∈ d).
  { intros f. rewrite elem_of_ssort, elem_of_lfilter. tauto. }
  revert Hsub. generalize (ssort replay_less (List.filter (fun f => HasPrefix (f_name f) "events-" && HasSuffix (f_name f) ".jsonl") d)) as l.
  induction l as [|f l IH]; intros Hsub; [done|]. cbn [List.filter].
  specialize (IH (fun x Hx => Hsub x (list_elem_of_further _ _ _ Hx))).
  destruct (negb (_ && Before (f_modTime f) _)) eqn:Ey; cbn [mbind list_bind]; rewrite ?replayed_app; [by f_equal|].
  change (list_bind _ _ (fun f => replayFileLines (f_bytes f)) l) with (l ≫= fun f => replayFileLines (f_bytes f)).
  apply negb_false_iff, andb_true_iff in Ey as [_ Hb].
  assert (Hnil : replayed c since (replayFileLines (f_bytes f)) = []); [|by rewrite IH, Hnil].
  rewrite replayed_window by done. apply lfilter_none. intros ev Hev.
  unfold replayed in Hev. apply elem_of_lfilter in Hev as [Hev _]. apply list_elem_of_omap in Hev as (line & Hline & Hdec).
  unfold keep. by rewrite (Hstale f ev line (Hsub f (list_elem_of_here _ _)) Hb Hline Hdec).
Qed.

Lemma ReplayWAL_index c d dd since :
  (ReplayWAL c d dd NewRecentIndex since).1.2 =
  foldl (fun idx ev => (Insert idx (Some ev)).1) NewRecentIndex
    (replayed c since (replay_files d (if IsZero since then since else since - replayRotationSlack)
                         ≫= fun f => replayFileLines (f_bytes f))).
Proof.
  unfold ReplayWAL, Replay.
  change (TimeAdd since (- replayRotationSlack)) with (since - replayRotationSlack).
  destruct (replay_lines_state c since dd NewRecentIndex (mkReplayResult 0 0 0) 0
    (replay_files d (if IsZero since then since else since - replayRotationSlack) ≫= fun f => replayFileLines (f_bytes f)))
    as (r & n & ->). done.
Qed.

(** Replaying only the hot window gives the index that replaying the whole log and
    then pruning at the start of the window would give, although it skips old files
    unread, when ids are logged once and skipped files hold only events past the window. *)
Theorem ReplayWAL_window (it : MapIter) (c : Codec) (d : disk) (dd : Dedup) (since : Time) :
  since <> time_zero -> NoDup (f_name <$> d) -> old_files_stale c d since ->
  NoDup (ev_EventID <$> replayed c time_zero (replay_files d time_zero ≫= fun f => replayFileLines (f_bytes f))) ->
  Forall (fun ev => ev_EventID ev <> "")
    (replayed c time_zero (replay_files d time_zero ≫= fun f => replayFileLines (f_bytes f))) ->
  (ReplayWAL c d dd NewRecentIndex since).1.2 =
  (PruneOlderThan it (ReplayWAL c d dd NewRecentIndex time_zero).1.2 since).1.
Proof.
  intros Hs Hn Hstale Hnd Hne. rewrite !ReplayWAL_index. unfold IsZero at 1. rewrite (proj2 (Z.eqb_neq _ _)) by done.
  rewrite replayed_files by done. change (if IsZero time_zero then time_zero else _) with time_zero.
  rewrite replayed_window by done. set (evs := replayed c time_zero _) in *.
  assert (Hids : forall l, ev_EventID <$> (cloneEvent <$> l) = ev_EventID <$> l)
    by (intros l; rewrite <- list_fmap_compose; by apply list_fmap_ext).
  rewrite !insert_all_index_of; [|done|done|by apply NoDup_fmap_lfilter|].
  - rewrite prune_index_of by (by rewrite ?Hids). simpl. by rewrite lfilter_fmap.
  - rewrite Forall_forall in *. intros ev [Hev _]%elem_of_lfilter. auto.
Qed.

Definition window_log : disk :=
  [ mkFile "events-1.jsonl" ("{a" +:+ nl) 10; mkFile "events-2.jsonl" ("{b" +:+ nl +:+ "oops" +:+ nl) (1000 * Second) ].

Lemma ReplayWAL_window_witness :
  (ReplayWAL sample_codec window_log (NewDedup 4) NewRecentIndex (301 * Second)).1.2 =
  (PruneOlderThan iter_reverse (ReplayWAL sample_codec window_log (NewDedup 4) NewRecentIndex time_zero).1.2 (301 * Second)).1.
Proof.
  apply ReplayWAL_window.
  - vm_compute. discriminate.
  - by_decide.
  - intros f ev line Hf _ Hline Hdec. unfold window_log in Hf.
    assert (He : decode sample_codec line = Some (sample_event "a" "t" "api" "ok" 100 200 "" None []) \/
                 decode sample_codec line = Some (sample_event "b" "t" "api" "ok" 100 200 "" None []) \/
                 decode sample_codec line = None).
    { apply elem_of_cons in Hf as [->|Hf]; [|apply list_elem_of_singleton in Hf as ->]; vm_compute in Hline.
      - apply list_elem_of_singleton in Hline as ->. left. reflexivity.
      - apply elem_of_cons in Hline as [->|Hline]; [right; left; reflexivity|].
        apply list_elem_of_singleton in Hline as ->. right; right. reflexivity. }
    destruct He as [He|[He|He]]; rewrite He in Hdec; simplify_eq; reflexivity.
  - by_decide.
  - vm_compute. repeat constructor; discriminate.
Defined.

(** ** Bodies of several lines *)

(** A codec that reads one object spread over two lines, and nothing shorter. *)
Definition two_lines : string := "{" +:+ nl +:+ "ab}".
Definition spread_codec : Codec := mkCodec
  (fun s => if String.eqb s two_lines then inl (VMap (Some {[ "event_id" := VStr "ab" ]})) else inr "unexpected end of JSON input")
  (fun _ => None)
  (fun _ => inl (sample_event "ab" "t" "api" "ok" 100 200 "" None [])).

(** A JSON body that spans several lines is accepted and visible in the index, but its
    log record spans several lines too, and a restart does not recover the event. *)
Theorem multiline_body_not_recovered :
  exists h' env w,
    IngestRaw spread_codec (fun _ => false) true (handler_on []) [two_lines] = (h', env, None) /\
    env_Accepted env = 1 /\ is_Some (byID (h_project h') !! "ab") /\ h_wal h' = Some w /\
    byID (ReplayWAL spread_codec (sc_disk w) (NewDedup 2) NewRecentIndex time_zero).1.2 = ∅.
Proof.
  eexists _, _, _. split; [vm_compute; reflexivity|]. split; [reflexivity|]. split; [eexists; vm_compute; reflexivity|].
  split; [reflexivity|]. vm_compute. reflexivity.
Qed.
