(* ===== verification/Incident.v ===== *)
(** Incidents and their store ([internal/incidents/types.go], [store.go], [id.go]): the
    record, copies of it, the [Store] interface the engine is written against, and the
    in-memory implementation.  A store is specified by the map of rows it holds. *)

From S2P Require Import Prelude GoRuntime GoFloat Types Family.
Open Scope Z_scope.

(** ** Data *)

Definition StatusActive : string := "active".
Definition StatusRecovering : string := "recovering".
Definition StatusResolved : string := "resolved".

Definition CauseDeploy : string := "deploy".
Definition CauseApp : string := "app".
Definition CauseDependency : string := "dependency".
Definition CauseRuntime : string := "runtime".
Definition CauseUnknown : string := "unknown".

Definition ConfidenceHigh : string := "high".
Definition ConfidenceMedium : string := "medium".
Definition ConfidenceLow : string := "low".

Definition EvidenceSignal : string := "signal".
Definition EvidenceDeployment : string := "deployment".
Definition EvidenceTrace : string := "trace".
Definition EvidenceRuntime : string := "runtime".
Definition EvidenceTraffic : string := "traffic".
Definition EvidenceLatency : string := "latency".

Definition CaptureOK : string := "ok".
Definition CapturePartial : string := "partial".
Definition CaptureMissing : string := "missing".

Record PropagationStep := mkPropagationStep {
  ps_Service : string; ps_Step : string; ps_StartMS : Z; ps_DurationMS : Z; ps_Status : string; ps_ErrorCode : string }.

Record PropagationEvidence := mkPropagationEvidence {
  pe_OriginService : string;
  pe_OriginStep : string;
  pe_Path : list PropagationStep;
  pe_SampleTraceID : string;
  pe_FirstSeenAt : option Time;
  pe_CapturedAt : Time;
  pe_CaptureStatus : string
}.

Record BlastEvidence := mkBlastEvidence {
  be_AffectedRequests : Z;
  be_AffectedUsers : option Z;
  be_AffectedServices : Z;
  be_TopServices : list string;
  be_SampledTraces : list string;
  be_CapturedAt : Time;
  be_CaptureStatus : string
}.

Record MatchedAlert := mkMatchedAlert {
  ma_SignalID : string; ma_AlertID : string; ma_Source : string; ma_Severity : string; ma_Reason : string;
  ma_ProviderURL : string; ma_EvidenceIDs : list string; ma_MatchedAt : Time; ma_Strategy : string }.

Record AlertEvidence := mkAlertEvidence {
  ae_Matches : list MatchedAlert; ae_CapturedAt : Time; ae_CaptureStatus : string }.

Record PropagationSnapshot := mkPropagationSnapshot {
  pns_Opening : option PropagationEvidence; pns_Latest : option PropagationEvidence }.
Record BlastSnapshot := mkBlastSnapshot { bls_Opening : option BlastEvidence; bls_Latest : option BlastEvidence }.
Record AlertSnapshot := mkAlertSnapshot { als_Opening : option AlertEvidence; als_Latest : option AlertEvidence }.

Record RuntimeEvidence := mkRuntimeEvidence {
  re_Subtype : string;
  re_Service : string;
  re_Reason : string;
  re_Severity : string;
  re_Source : string;
  re_SignalID : string;
  re_OccurredAt : Time;
  re_Metadata : option (gmap string value);
  re_CapturedAt : Time;
  re_CaptureStatus : string
}.

Record RuntimeSnapshot := mkRuntimeSnapshot {
  rs_Matches : list RuntimeEvidence; rs_Opening : option RuntimeEvidence; rs_Latest : option RuntimeEvidence }.

Record Evidence := mkEvidence {
  evd_Kind : string;
  evd_Title : string;
  evd_Detail : string;
  evd_Service : string;
  evd_SignalID : string;
  evd_DeployID : string;
  evd_TraceID : string;
  evd_OccurredAt : Time;
  evd_Fields : gmap string value
}.

Record Incident := mkIncident {
  inc_IncidentID : string;
  inc_Env : string;
  inc_Service : string;
  inc_ErrorFamily : ErrorFamily;
  inc_Status : string;
  inc_Cause : string;
  inc_Confidence : string;
  inc_Severity : Z;
  inc_StartedAt : Time;
  inc_UpdatedAt : Time;
  inc_LastSeenAt : Time;
  inc_RecoveringAt : option Time;
  inc_ResolvedAt : option Time;
  inc_AffectedRequests : Z;
  inc_AffectedUsers : option Z;
  inc_AffectedServices : Z;
  inc_TopServices : list string;
  inc_SampleTraces : list string;
  inc_Evidence : list Evidence;
  inc_NextChecks : list string;
  inc_InstrumentationWarnings : list string;
  inc_Lift : float64;
  inc_BaselineCount : Z;
  inc_CurrentCount : Z;
  inc_Propagation : option PropagationSnapshot;
  inc_Blast : option BlastSnapshot;
  inc_Alerts : option AlertSnapshot;
  inc_Runtime : option RuntimeSnapshot;
  inc_SuspectDeployID : string
}.

Record Deployment := mkDeployment {
  dep_ID : string;
  dep_Service : string;
  dep_Version : string;
  dep_Env : string;
  dep_FirstSeen : Time;
  dep_LastSeen : Time;
  dep_Metadata : gmap string string;
  dep_CommitSHA : string;
  dep_PRURL : string;
  dep_CommitAuthor : string
}.

(** The zero value of the record. *)
Definition zeroIncident : Incident :=
  mkIncident "" "" "" (mkErrorFamily "" "" "") "" "" "" 0 0 0 0 None None 0 None 0 [] [] [] [] [] (of_int 0) 0 0
    None None None None "".

(** Assignments the engine makes to one incident. *)
Definition with_lifecycle (i : Incident) (status : string) (recoveringAt resolvedAt : option Time) (updatedAt : Time) : Incident :=
  mkIncident (inc_IncidentID i) (inc_Env i) (inc_Service i) (inc_ErrorFamily i) status (inc_Cause i)
    (inc_Confidence i) (inc_Severity i) (inc_StartedAt i) updatedAt (inc_LastSeenAt i) recoveringAt resolvedAt
    (inc_AffectedRequests i) (inc_AffectedUsers i) (inc_AffectedServices i) (inc_TopServices i)
    (inc_SampleTraces i) (inc_Evidence i) (inc_NextChecks i) (inc_InstrumentationWarnings i) (inc_Lift i)
    (inc_BaselineCount i) (inc_CurrentCount i) (inc_Propagation i) (inc_Blast i) (inc_Alerts i) (inc_Runtime i)
    (inc_SuspectDeployID i).

Definition with_snapshots (i : Incident) (p : option PropagationSnapshot) (b : option BlastSnapshot)
    (a : option AlertSnapshot) (r : option RuntimeSnapshot) : Incident :=
  mkIncident (inc_IncidentID i) (inc_Env i) (inc_Service i) (inc_ErrorFamily i) (inc_Status i) (inc_Cause i)
    (inc_Confidence i) (inc_Severity i) (inc_StartedAt i) (inc_UpdatedAt i) (inc_LastSeenAt i)
    (inc_RecoveringAt i) (inc_ResolvedAt i) (inc_AffectedRequests i) (inc_AffectedUsers i)
    (inc_AffectedServices i) (inc_TopServices i) (inc_SampleTraces i) (inc_Evidence i) (inc_NextChecks i)
    (inc_InstrumentationWarnings i) (inc_Lift i) (inc_BaselineCount i) (inc_CurrentCount i) p b a r
    (inc_SuspectDeployID i).

Definition with_classification (i : Incident) (cause confidence : string) (evidence : list Evidence)
    (nextChecks warnings : list string) (suspect : string) : Incident :=
  mkIncident (inc_IncidentID i) (inc_Env i) (inc_Service i) (inc_ErrorFamily i) (inc_Status i) cause confidence
    (inc_Severity i) (inc_StartedAt i) (inc_UpdatedAt i) (inc_LastSeenAt i) (inc_RecoveringAt i)
    (inc_ResolvedAt i) (inc_AffectedRequests i) (inc_AffectedUsers i) (inc_AffectedServices i)
    (inc_TopServices i) (inc_SampleTraces i) evidence nextChecks warnings (inc_Lift i) (inc_BaselineCount i)
    (inc_CurrentCount i) (inc_Propagation i) (inc_Blast i) (inc_Alerts i) (inc_Runtime i) suspect.

(** ** Copies *)

(** The copies keep every value; slices and maps are rebuilt element by element. *)
Definition clonePropagationEvidence (p : PropagationEvidence) : PropagationEvidence :=
  mkPropagationEvidence (pe_OriginService p) (pe_OriginStep p) (id <$> pe_Path p) (pe_SampleTraceID p)
    (pe_FirstSeenAt p) (pe_CapturedAt p) (pe_CaptureStatus p).

Definition clonePropagationSnapshot (s : PropagationSnapshot) : PropagationSnapshot :=
  mkPropagationSnapshot (clonePropagationEvidence <$> pns_Opening s) (clonePropagationEvidence <$> pns_Latest s).

Definition cloneBlastEvidence (b : BlastEvidence) : BlastEvidence :=
  mkBlastEvidence (be_AffectedRequests b) (be_AffectedUsers b) (be_AffectedServices b) (id <$> be_TopServices b)
    (id <$> be_SampledTraces b) (be_CapturedAt b) (be_CaptureStatus b).

Definition cloneBlastSnapshot (s : BlastSnapshot) : BlastSnapshot :=
  mkBlastSnapshot (cloneBlastEvidence <$> bls_Opening s) (cloneBlastEvidence <$> bls_Latest s).

Definition cloneMatchedAlert (m : MatchedAlert) : MatchedAlert :=
  mkMatchedAlert (ma_SignalID m) (ma_AlertID m) (ma_Source m) (ma_Severity m) (ma_Reason m) (ma_ProviderURL m)
    (id <$> ma_EvidenceIDs m) (ma_MatchedAt m) (ma_Strategy m).

Definition cloneAlertEvidence (a : AlertEvidence) : AlertEvidence :=
  mkAlertEvidence (cloneMatchedAlert <$> ae_Matches a) (ae_CapturedAt a) (ae_CaptureStatus a).

Definition cloneAlertSnapshot (s : AlertSnapshot) : AlertSnapshot :=
  mkAlertSnapshot (cloneAlertEvidence <$> als_Opening s) (cloneAlertEvidence <$> als_Latest s).

Definition cloneRuntimeEvidence (r : RuntimeEvidence) : RuntimeEvidence :=
  mkRuntimeEvidence (re_Subtype r) (re_Service r) (re_Reason r) (re_Severity r) (re_Source r) (re_SignalID r)
    (re_OccurredAt r) (fmap (M:=gmap string) id <$> re_Metadata r) (re_CapturedAt r) (re_CaptureStatus r).

Definition cloneRuntimeSnapshot (s : RuntimeSnapshot) : RuntimeSnapshot :=
  mkRuntimeSnapshot (cloneRuntimeEvidence <$> rs_Matches s) (cloneRuntimeEvidence <$> rs_Opening s)
    (cloneRuntimeEvidence <$> rs_Latest s).

Definition cloneIncident (i : Incident) : Incident :=
  mkIncident (inc_IncidentID i) (inc_Env i) (inc_Service i) (inc_ErrorFamily i) (inc_Status i) (inc_Cause i)
    (inc_Confidence i) (inc_Severity i) (inc_StartedAt i) (inc_UpdatedAt i) (inc_LastSeenAt i)
    (inc_RecoveringAt i) (inc_ResolvedAt i) (inc_AffectedRequests i) (inc_AffectedUsers i)
    (inc_AffectedServices i) (id <$> inc_TopServices i) (id <$> inc_SampleTraces i) (id <$> inc_Evidence i)
    (id <$> inc_NextChecks i) (id <$> inc_InstrumentationWarnings i) (inc_Lift i) (inc_BaselineCount i)
    (inc_CurrentCount i) (clonePropagationSnapshot <$> inc_Propagation i) (cloneBlastSnapshot <$> inc_Blast i)
    (cloneAlertSnapshot <$> inc_Alerts i) (cloneRuntimeSnapshot <$> inc_Runtime i) (inc_SuspectDeployID i).

(** ** Identity *)

Definition idBucket : Duration := 5 * Minute.

Definition StableID (env : string) (family : ErrorFamily) (startedAt : Time) : string :=
  let bucket := FormatRFC3339 (Truncate startedAt idBucket) in
  let parts := [env; ef_Service family; FormatErrorFamily family; bucket] in
  "inc_" +:+ take_bytes 16 (Sha256.hex (Sha256.sum256 (Join "|" parts))).

(** ** The store interface *)

Definition incident_less (a b : Incident) : bool :=
  if negb (inc_Severity a =? inc_Severity b) then inc_Severity b <? inc_Severity a
  else if negb (TimeEqual (inc_StartedAt a) (inc_StartedAt b)) then After (inc_StartedAt a) (inc_StartedAt b)
  else String.ltb (inc_IncidentID a) (inc_IncidentID b).

Definition sortIncidents (rows : list Incident) : list Incident := ssort incident_less rows.

Definition open_row (inc : Incident) : bool := negb (String.eqb (inc_Status inc) StatusResolved).

Definition put_rows (rows : gmap string Incident) (incs : list Incident) : gmap string Incident :=
  foldl (fun m inc => <[inc_IncidentID inc := inc]> m) rows incs.

(** Every row is filed under its own id. *)
Definition ids_ok (m : gmap string Incident) : Prop := forall k i, m !! k = Some i -> inc_IncidentID i = k.

(** A later state of an incident: the environment, the family, the service and the start are
    the same, and a suspect deployment is not lost. *)
Definition same_key (inc old : Incident) : Prop := inc_Env inc = inc_Env old /\ inc_ErrorFamily inc = inc_ErrorFamily old.
Definition carries (old inc : Incident) : Prop :=
  same_key inc old /\ inc_Service inc = inc_Service old /\ inc_StartedAt inc = inc_StartedAt old /\
  (inc_SuspectDeployID old <> "" -> inc_SuspectDeployID inc <> "").

(** The rows after an incident is put: [kept old inc] is what becomes of the row [old] that
    was there. *)
Definition keep_row (kept : Incident -> Incident -> Incident) (m : gmap string Incident) (inc : Incident) : gmap string Incident :=
  <[inc_IncidentID inc := match m !! inc_IncidentID inc with Some old => kept old inc | None => inc end]> m.
Definition keep_rows (kept : Incident -> Incident -> Incident) (m : gmap string Incident) (incs : list Incident) : gmap string Incident :=
  foldl (keep_row kept) m incs.

(** A store: its operations may fail ([None]); [rows] is the map of incidents it holds by
    id, and the laws say what each operation does to it, for the incidents and times its
    columns can represent ([holds], [datable]).  An incident put over a row of its id may
    leave alone some of what the row says ([kept]), but not what a later state of the same
    incident carries on. *)
Class Store (S : Type) := {
  Upsert : S -> Incident -> option S;
  ReplaceNonResolved : S -> list Incident -> option S;
  Get : S -> string -> option Incident;
  ListActive : MapIter -> S -> option (list Incident);
  PruneResolvedOlderThan : MapIter -> S -> Time -> option (S * Z);
  rows : S -> gmap string Incident;
  store_ok : S -> Prop;
  holds : Incident -> Prop;
  datable : Time -> Prop;
  kept : Incident -> Incident -> Incident;
  store_ids : forall s, store_ok s -> ids_ok (rows s);
  Upsert_rows : forall s s' inc, store_ok s -> holds inc -> Upsert s inc = Some s' ->
    store_ok s' /\ rows s' = keep_row kept (rows s) inc;
  ReplaceNonResolved_rows : forall s s' incs, store_ok s -> Forall holds incs -> ReplaceNonResolved s incs = Some s' ->
    store_ok s' /\ rows s' = keep_rows kept (filter (fun kv => open_row kv.2 = false) (rows s)) incs;
  Get_rows : forall s id, store_ok s -> Get s id = rows s !! id;
  ListActive_rows : forall it s l, store_ok s ->
    ListActive it s = Some l -> l = sortIncidents (List.filter open_row (map_to_list (rows s)).*2);
  PruneResolved_rows : forall it s s' cutoff n, store_ok s -> datable cutoff -> PruneResolvedOlderThan it s cutoff = Some (s', n) ->
    store_ok s' /\
    rows s' = filter (fun kv => open_row kv.2 || match inc_ResolvedAt kv.2 with
                                                | Some t => negb (Before t cutoff)
                                                | None => true
                                                end = true) (rows s) /\
    n = Z.of_nat (size (rows s)) - Z.of_nat (size (rows s'));
  kept_id : forall old inc, inc_IncidentID (kept old inc) = inc_IncidentID inc;
  kept_status : forall old inc, inc_Status (kept old inc) = inc_Status inc;
  kept_again : forall old inc, kept (kept old inc) inc = kept old inc;
  kept_self : forall inc, kept inc inc = inc;
  kept_carried : forall old inc, carries old inc -> kept old inc = inc
}.

(** ** The in-memory store *)

Record MemoryStore := mkMemoryStore { ms_rows : gmap string Incident }.

Definition NewMemoryStore : MemoryStore := mkMemoryStore ∅.

Definition mem_Upsert (s : MemoryStore) (inc : Incident) : option MemoryStore :=
  Some (mkMemoryStore (<[inc_IncidentID inc := cloneIncident inc]> (ms_rows s))).

Definition mem_ReplaceNonResolved (s : MemoryStore) (incs : list Incident) : option MemoryStore :=
  let kept := filter (fun kv => open_row kv.2 = false) (ms_rows s) in
  Some (mkMemoryStore (foldl (fun m inc => <[inc_IncidentID inc := cloneIncident inc]> m) kept incs)).

Definition mem_Get (s : MemoryStore) (id : string) : option Incident := cloneIncident <$> (ms_rows s !! id).

Definition mem_ListActive (it : MapIter) (s : MemoryStore) : option (list Incident) :=
  Some (sortIncidents (cloneIncident <$> List.filter open_row (mrange it 10 (ms_rows s)).*2)).

Definition resolved_before (cutoff : Time) (inc : Incident) : bool :=
  negb (open_row inc) && match inc_ResolvedAt inc with Some t => Before t cutoff | None => false end.

Definition mem_PruneResolvedOlderThan (it : MapIter) (s : MemoryStore) (cutoff : Time) : option (MemoryStore * Z) :=
  let '(m, deleted) := foldl (fun '(m, deleted) '(id, inc) =>
    if resolved_before cutoff inc then (delete id m, deleted + 1) else (m, deleted))
    (ms_rows s, 0) (mrange it 11 (ms_rows s)) in
  Some (mkMemoryStore m, deleted).

(** ** Laws *)

Lemma list_fmap_id_ext {A} (f : A -> A) (l : list A) : (forall x, f x = x) -> f <$> l = l.
Proof. intros H. rewrite <- (list_fmap_id l) at 2. by apply list_fmap_ext. Qed.

Lemma option_fmap_id_ext {A} (f : A -> A) (o : option A) : (forall x, f x = x) -> f <$> o = o.
Proof. intros H. destruct o; simpl; by rewrite ?H. Qed.

Lemma clonePropagationEvidence_id p : clonePropagationEvidence p = p.
Proof. destruct p. unfold clonePropagationEvidence; simpl. by rewrite list_fmap_id. Qed.
Lemma cloneBlastEvidence_id b : cloneBlastEvidence b = b.
Proof. destruct b. unfold cloneBlastEvidence; simpl. by rewrite !list_fmap_id. Qed.
Lemma cloneMatchedAlert_id m : cloneMatchedAlert m = m.
Proof. destruct m. unfold cloneMatchedAlert; simpl. by rewrite list_fmap_id. Qed.
Lemma cloneAlertEvidence_id a : cloneAlertEvidence a = a.
Proof. destruct a. unfold cloneAlertEvidence; simpl. by rewrite (list_fmap_id_ext _ _ cloneMatchedAlert_id). Qed.
Lemma cloneRuntimeEvidence_id r : cloneRuntimeEvidence r = r.
Proof.
  destruct r as [? ? ? ? ? ? ? m ? ?]. unfold cloneRuntimeEvidence; simpl. do 2 f_equal.
  destruct m as [m|]; [|done]. simpl. by rewrite map_fmap_id.
Qed.

(** A copy of an incident is that incident. *)
Lemma cloneIncident_id i : cloneIncident i = i.
Proof.
  destruct i. unfold cloneIncident; simpl. rewrite !list_fmap_id. f_equal; apply option_fmap_id_ext; intros [];
    unfold clonePropagationSnapshot, cloneBlastSnapshot, cloneAlertSnapshot, cloneRuntimeSnapshot; simpl;
    rewrite ?(list_fmap_id_ext _ _ cloneRuntimeEvidence_id), ?(option_fmap_id_ext _ _ clonePropagationEvidence_id),
      ?(option_fmap_id_ext _ _ cloneBlastEvidence_id), ?(option_fmap_id_ext _ _ cloneAlertEvidence_id),
      ?(option_fmap_id_ext _ _ cloneRuntimeEvidence_id); done.
Qed.

#[export] Instance incident_less_by :
  LessBy incident_less (fun i => (down (inc_Severity i), (down (inc_StartedAt i), inc_IncidentID i))).
Proof. intros a b. unfold incident_less, TimeEqual, After. kred. solve_less. Qed.

Lemma put_rows_clone m incs :
  foldl (fun m inc => <[inc_IncidentID inc := cloneIncident inc]> m) m incs = put_rows m incs.
Proof.
  unfold put_rows. revert m. induction incs as [|i incs IH]; intros m; [done|]. cbn [foldl].
  by rewrite cloneIncident_id, IH.
Qed.

(** Rows listed in any order are sorted to the same list. *)
Lemma sortIncidents_perm l1 l2 : NoDup (inc_IncidentID <$> l1) -> l1 ≡ₚ l2 -> sortIncidents l1 = sortIncidents l2.
Proof.
  intros Hnd Hp. apply (ssort_perm_eq incident_less (fun i => (down (inc_Severity i), (down (inc_StartedAt i), inc_IncidentID i)))); [|done].
  intros a b Ha Hb Hk. simplify_eq. by apply (NoDup_fmap_inj_on inc_IncidentID l1).
Qed.

Lemma ids_ok_insert m inc : ids_ok m -> ids_ok (<[inc_IncidentID inc := inc]> m).
Proof. intros H k i. rewrite lookup_insert_Some. intros [[<- <-]|[_ Hk]]; [done|by apply H]. Qed.

Lemma ids_ok_put m incs : ids_ok m -> ids_ok (put_rows m incs).
Proof.
  unfold put_rows. revert m. induction incs as [|i incs IH]; intros m H; [done|]. cbn [foldl].
  by apply IH, ids_ok_insert.
Qed.

Lemma ids_ok_filter m (P : string * Incident -> Prop) `{!forall x, Decision (P x)} : ids_ok m -> ids_ok (filter P m).
Proof. intros Hm id i Hk. apply map_lookup_filter_Some in Hk as [Hk _]. by apply Hm. Qed.

Lemma ids_ok_keep kept m inc : (forall old, inc_IncidentID (kept old inc) = inc_IncidentID inc) -> ids_ok m -> ids_ok (keep_row kept m inc).
Proof.
  intros Hk H k i. unfold keep_row. rewrite lookup_insert_Some. intros [[<- <-]|[_ Hl]]; [|by apply H].
  by destruct (m !! _).
Qed.

(** A store that overwrites keeps nothing of the row that was there. *)
Lemma keep_rows_put m incs : keep_rows (fun _ inc => inc) m incs = put_rows m incs.
Proof.
  unfold keep_rows, put_rows. revert m. induction incs as [|i incs IH]; intros m; [done|]. cbn [foldl]. rewrite IH.
  unfold keep_row. by destruct (m !! _).
Qed.

Lemma NoDup_row_ids it site m : ids_ok m -> NoDup (inc_IncidentID <$> (mrange it site m).*2).
Proof.
  intros Hok. rewrite <- list_fmap_compose. erewrite list_fmap_ext; [apply (NoDup_fst_mrange it site m)|].
  intros j [k i] Hj. apply list_elem_of_lookup_2, elem_of_mrange in Hj. by apply Hok.
Qed.

Section Prune.
Context (p : Incident -> bool).

Definition prune_step (acc : gmap string Incident * Z) (kv : string * Incident) : gmap string Incident * Z :=
  if p kv.2 then (delete kv.1 acc.1, acc.2 + 1) else acc.

Lemma prune_fold (acc : gmap string Incident) l n :
  NoDup l.*1 -> (forall k i, (k, i) ∈ l -> acc !! k = Some i) ->
  (forall k i, acc !! k = Some i -> (k, i) ∈ l \/ p i = false) ->
  let r := foldl prune_step (acc, n) l in
  r.1 = filter (fun kv => p kv.2 = false) acc /\ r.2 = n + Z.of_nat (size acc) - Z.of_nat (size r.1).
Proof.
  revert acc n. induction l as [|[k i] l IH]; intros acc n Hnd Hin Hcov; cbn [foldl].
  - split; [|simpl; lia]. symmetry. apply map_eq. intros k. rewrite map_lookup_filter.
    destruct (acc !! k) as [i|] eqn:E; simpl; [|done]. destruct (Hcov k i E) as [H|H]; [by apply elem_of_nil in H|].
    by rewrite option_guard_True.
  - apply NoDup_cons in Hnd as [Hni Hnd].
    change (prune_step (acc, n) (k, i)) with (if p i then (delete k acc, n + 1) else (acc, n)).
    assert (Hk : acc !! k = Some i) by (apply Hin; left).
    assert (Hne : forall k' i', (k', i') ∈ l -> k' <> k).
    { intros k' i' H ->. apply Hni. apply (list_elem_of_fmap_2 fst) in H. done. }
    destruct (p i) eqn:Ep.
    + destruct (IH (delete k acc) (n + 1) Hnd) as [H1 H2].
      * intros k' i' H. rewrite lookup_delete_ne by (intros ->; by destruct (Hne _ _ H)). apply Hin. by right.
      * intros k' i' H. destruct (decide (k' = k)) as [->|Hd]; [by rewrite lookup_delete_eq in H|].
        rewrite lookup_delete_ne in H by done. destruct (Hcov k' i' H) as [Hc|Hc]; [|by right].
        apply elem_of_cons in Hc as [Hc|Hc]; [by simplify_eq|by left].
      * split.
        -- rewrite H1. apply map_eq. intros k'. rewrite !map_lookup_filter.
           destruct (decide (k' = k)) as [->|Hd]; [|by rewrite lookup_delete_ne].
           rewrite lookup_delete_eq, Hk. simpl. rewrite option_guard_False; [done|congruence].
        -- rewrite H2, map_size_delete, Hk. assert (0 < size acc)%nat; [|lia].
           destruct (size acc) eqn:Es; [|lia]. apply map_size_empty_inv in Es. by rewrite Es, lookup_empty in Hk.
    + apply IH; [done| |].
      * intros k' i' H. apply Hin. by right.
      * intros k' i' H. destruct (Hcov k' i' H) as [Hc|Hc]; [|by right].
        apply elem_of_cons in Hc as [Hc|Hc]; [simplify_eq; by right|by left].
Qed.
End Prune.

Lemma open_keep cutoff inc :
  resolved_before cutoff inc = false <->
  open_row inc || match inc_ResolvedAt inc with Some t => negb (Before t cutoff) | None => true end = true.
Proof. unfold resolved_before. destruct (open_row inc); simpl; [done|]. destruct (inc_ResolvedAt inc) as [t|]; [|done]. by destruct (Before t cutoff). Qed.

Lemma mem_Prune_rows it s s' cutoff n :
  mem_PruneResolvedOlderThan it s cutoff = Some (s', n) ->
  ms_rows s' = filter (fun kv => resolved_before cutoff kv.2 = false) (ms_rows s) /\
  n = Z.of_nat (size (ms_rows s)) - Z.of_nat (size (ms_rows s')).
Proof.
  unfold mem_PruneResolvedOlderThan. intros H.
  pose proof (prune_fold (resolved_before cutoff) (ms_rows s) (mrange it 11 (ms_rows s)) 0) as Hf. cbv zeta in Hf.
  assert (Heq : foldl (prune_step (resolved_before cutoff)) (ms_rows s, 0) (mrange it 11 (ms_rows s)) =
    foldl (fun '(m, deleted) '(id, inc) => if resolved_before cutoff inc then (delete id m, deleted + 1) else (m, deleted))
      (ms_rows s, 0) (mrange it 11 (ms_rows s))).
  { clear. generalize (mrange it 11 (ms_rows s)) as l, (ms_rows s, 0) as acc.
    induction l as [|[k i] l IH]; intros [m d]; [done|]. cbn [foldl]. by rewrite <- IH. }
  rewrite Heq in Hf. destruct (foldl _ (ms_rows s, 0) _) as [m d]. simplify_eq. simpl in *.
  destruct Hf as [H1 H2]; [apply NoDup_fst_mrange| | |split; [done|lia]].
  - intros k i Hki. by apply elem_of_mrange in Hki.
  - intros k i Hki. left. by apply elem_of_mrange.
Qed.

#[export] Instance MemoryStore_Store : Store MemoryStore.
Proof.
  refine {| Upsert := mem_Upsert; ReplaceNonResolved := mem_ReplaceNonResolved; Get := mem_Get;
            ListActive := mem_ListActive; PruneResolvedOlderThan := mem_PruneResolvedOlderThan; rows := ms_rows;
            store_ok s := ids_ok (ms_rows s); holds _ := True; datable _ := True; kept _ inc := inc |}; try done.
  - intros s s' inc Hok _ H. unfold mem_Upsert in H. simplify_eq. simpl. rewrite cloneIncident_id.
    split; [by apply ids_ok_insert|]. unfold keep_row. by destruct (ms_rows s !! _).
  - intros s s' incs Hok _ H. unfold mem_ReplaceNonResolved in H. simplify_eq. simpl. rewrite put_rows_clone, keep_rows_put.
    split; [|done]. by apply ids_ok_put, ids_ok_filter.
  - intros s id _. unfold mem_Get. apply option_fmap_id_ext, cloneIncident_id.
  - intros it s l Hok H. unfold mem_ListActive in H. simplify_eq. rewrite (list_fmap_id_ext _ _ cloneIncident_id).
    apply sortIncidents_perm; [by apply NoDup_fmap_lfilter, NoDup_row_ids|].
    apply lfilter_perm. by rewrite mrange_perm.
  - intros it s s' cutoff n Hok _ H. apply mem_Prune_rows in H as [-> ->]. split; [by apply ids_ok_filter|]. split; [|done].
    apply map_filter_ext. intros k i _. simpl. by rewrite open_keep.
Defined.

(** Listing the open incidents of the in-memory store gives the same list whatever
    order its map is visited in: exactly the rows that are not resolved, by severity,
    then start, then id; and the retention sweep removes only rows resolved before the
    cutoff, counting them. *)
Theorem MemoryStore_listing (it it' : MapIter) (s : MemoryStore) (cutoff : Time) :
  ids_ok (ms_rows s) ->
  ListActive it s = ListActive it' s /\
  (forall inc, (exists l, ListActive it s = Some l /\ inc ∈ l) <->
     ms_rows s !! inc_IncidentID inc = Some inc /\ inc_Status inc <> StatusResolved) /\
  (forall s' n, PruneResolvedOlderThan it s cutoff = Some (s', n) ->
     ListActive it s' = ListActive it s /\ n = Z.of_nat (size (ms_rows s)) - Z.of_nat (size (ms_rows s'))).
Proof.
  intros Hok.
  assert (Hlist : forall i m, ids_ok (ms_rows m) -> ListActive i m =
    Some (sortIncidents (List.filter open_row (map_to_list (ms_rows m)).*2))).
  { intros i m Hm. simpl. unfold mem_ListActive. f_equal. rewrite (list_fmap_id_ext _ _ cloneIncident_id).
    apply sortIncidents_perm; [by apply NoDup_fmap_lfilter, NoDup_row_ids|]. apply lfilter_perm. by rewrite mrange_perm. }
  rewrite !Hlist by done. split; [done|]. split.
  - intros inc. split.
    + intros (l & [= <-] & Hin). unfold sortIncidents in Hin. rewrite elem_of_ssort, elem_of_lfilter in Hin.
      destruct Hin as [Hin Ho]. apply list_elem_of_fmap in Hin as ([k i] & -> & Hin). apply elem_of_map_to_list in Hin.
      simpl in *. rewrite (Hok _ _ Hin). split; [done|]. unfold open_row in Ho. by apply negb_true_iff, String.eqb_neq in Ho.
    + intros [Hl Hs]. eexists. split; [done|]. unfold sortIncidents. rewrite elem_of_ssort, elem_of_lfilter. split.
      * apply list_elem_of_fmap. exists (inc_IncidentID inc, inc). split; [done|]. by apply elem_of_map_to_list.
      * unfold open_row. by apply negb_true_iff, String.eqb_neq.
  - intros s' n H. pose proof (mem_Prune_rows _ _ _ _ _ H) as [Hr Hn]. split; [|done].
    assert (Hok' : ids_ok (ms_rows s')).
    { intros k i. rewrite Hr, map_lookup_filter_Some. intros [Hk _]. by apply Hok. }
    rewrite Hlist by done. f_equal. apply sortIncidents_perm.
    + apply NoDup_fmap_lfilter. by apply (NoDup_row_ids iter_canonical 0).
    + apply NoDup_Permutation.
      * eapply NoDup_fmap_1, NoDup_fmap_lfilter. by apply (NoDup_row_ids iter_canonical 0).
      * eapply NoDup_fmap_1, NoDup_fmap_lfilter. by apply (NoDup_row_ids iter_canonical 0).
      * intros i. rewrite !elem_of_lfilter, !list_elem_of_fmap. rewrite Hr. split.
        -- intros [([k j] & -> & Hkj) Ho]. split; [|done]. exists (k, j). split; [done|].
           apply elem_of_map_to_list in Hkj. apply map_lookup_filter_Some in Hkj as [? _]. by apply elem_of_map_to_list.
        -- intros [([k j] & -> & Hkj) Ho]. split; [|done]. exists (k, j). split; [done|].
           apply elem_of_map_to_list in Hkj. apply elem_of_map_to_list, map_lookup_filter_Some. split; [done|].
           unfold resolved_before. by rewrite Ho.
Qed.

Definition sample_incident (id status : string) (severity : Z) (startedAt : Time) : Incident :=
  mkIncident id "prod" "api" (mkErrorFamily "api" "charge" "PMT_502") status CauseUnknown ConfidenceLow severity
    startedAt startedAt startedAt None (if String.eqb status StatusResolved then Some startedAt else None) 1 None 1
    ["api"] ["t1"] [] [] [] (of_int 1) 0 5 None None None None "".

Definition sample_store : MemoryStore :=
  mkMemoryStore (put_rows ∅ [sample_incident "i1" StatusActive 3 100; sample_incident "i2" StatusResolved 9 50;
                             sample_incident "i3" StatusRecovering 7 80]).

Lemma sample_store_ok : ids_ok (ms_rows sample_store).
Proof.
  intros k i. unfold sample_store, put_rows. simpl.
  rewrite !lookup_insert. repeat case_decide; intros; by simplify_eq.
Qed.

Lemma MemoryStore_listing_witness :
  ListActive iter_canonical sample_store = ListActive iter_reverse sample_store /\
  fmap (M:=option) (fmap (M:=list) inc_IncidentID) (ListActive iter_reverse sample_store) = Some ["i3"; "i1"].
Proof.
  split; [exact (proj1 (MemoryStore_listing iter_canonical iter_reverse sample_store 60 sample_store_ok))|].
  vm_compute. reflexivity.
Defined.
