(* ===== verification/Capture.v ===== *)
(** Evidence capture ([internal/incidents/capture.go]): what the engine records about one
    incident at a tick, and how the opening and the latest captures are kept across
    ticks.  Pointers are options; the event slices hold no nil. *)

From S2P Require Import Prelude GoRuntime GoFloat Types Family Incident.
Open Scope Z_scope.

(** ** First failure of a trace *)

Definition family_step (family : ErrorFamily) (ev : Event) : bool :=
  match ev_Anchor ev with Some a => String.eqb (an_Step a) (ef_Step family) | None => false end.

Definition family_code (family : ErrorFamily) (ev : Event) : bool :=
  match ev_Anchor ev with Some a => String.eqb (an_ErrorCode a) (ef_ErrorCode family) | None => false end.

(** [!has || t.Before(best)] as one update of an optional minimum. *)
Definition earlier (best : option Time) (t : Time) : option Time :=
  match best with
  | None => Some t
  | Some b => if Before t b then Some t else Some b
  end.

(** One event against the earliest strict match and the earliest loose one so far. *)
Definition pick_event (family : ErrorFamily) (acc : option Time * option Time) (ev : Event)
    : option Time * option Time :=
  let '(strict, loose) := acc in
  if negb (family_step family ev) then (strict, loose)
  else (if family_code family ev then earlier strict (ev_TsStart ev) else strict, earlier loose (ev_TsStart ev)).

Definition pickAnchorTsStart (events : list Event) (family : ErrorFamily) : option Time :=
  let '(strict, loose) := foldl (pick_event family) (None, None) events in
  match strict with Some t => Some t | None => loose end.

(** ** Blast radius and propagation *)

Definition newBlastEvidence (b : BlastRadiusResponse) (capturedAt : Time) (status : string) : BlastEvidence :=
  mkBlastEvidence (br_AffectedRequests b) (br_AffectedUsers b) (br_AffectedServices b) (br_TopServices b)
    (br_SampleTraces b) capturedAt status.

Definition newPropagationEvidence (story : option StoryResponse) (sampleTraceID : string)
    (firstSeenAt : option Time) (capturedAt : Time) : PropagationEvidence :=
  match story with
  | None => mkPropagationEvidence "" "" [] sampleTraceID None capturedAt CaptureMissing
  | Some st =>
    let '(status, originStep) :=
      match sr_Anchor st with Some a => (CaptureOK, sa_Step a) | None => (CapturePartial, "") end in
    let status := if (length (sr_Path st) =? 0)%nat then CapturePartial else status in
    let status := match firstSeenAt with None => CapturePartial | Some _ => status end in
    let path := (fun s => mkPropagationStep (sr_Service st) (ss_Name s) (ss_StartMS s) (ss_DurationMS s)
                            (ss_Status s) (ss_ErrorCode s)) <$> sr_Path st in
    mkPropagationEvidence (sr_Service st) originStep path sampleTraceID firstSeenAt capturedAt status
  end.

Definition updatePropagationSnapshot (prior : option PropagationSnapshot) (fresh : option PropagationEvidence)
    : PropagationSnapshot :=
  let prior := default (mkPropagationSnapshot None None) prior in
  let opening := match pns_Opening prior, fresh with
                 | None, Some e => if String.eqb (pe_CaptureStatus e) CaptureOK then Some e else None
                 | o, _ => o
                 end in
  mkPropagationSnapshot opening fresh.

Definition updateBlastSnapshot (prior : option BlastSnapshot) (fresh : option BlastEvidence) : BlastSnapshot :=
  let prior := default (mkBlastSnapshot None None) prior in
  let opening := match bls_Opening prior, fresh with
                 | None, Some e => if String.eqb (be_CaptureStatus e) CaptureOK then Some e else None
                 | o, _ => o
                 end in
  mkBlastSnapshot opening fresh.

(** ** Alerts *)

Definition signalMetaString (m : gmap string value) (key : string) : string := as_string (m !! key).

(** The time a signal is filed under: its own timestamp or, without one, its arrival. *)
Definition signal_time (sig : Signal) : Time :=
  if IsZero (sig_Timestamp sig) then sig_ReceivedAt sig else sig_Timestamp sig.

Definition clamp_window (matchWindow : Duration) : Duration :=
  let w := if matchWindow <=? 0 then 15 * Minute else matchWindow in
  if 24 * Hour <? w then 24 * Hour else w.

Definition matchAlertSignalToIncident (sig : Signal) (inc : Incident) (matchWindow : Duration) (now : Time)
    : bool * string :=
  if negb (String.eqb (sig_Type sig) TypeAlert) then (false, "")
  else
    let ts := signal_time sig in
    let lo := TimeAdd (inc_StartedAt inc) (dur_neg matchWindow) in
    if negb (IsZero ts) && (Before ts lo || After ts now) then (false, "")
    else
      let id := signalMetaString (sig_Metadata sig) "incident_id" in
      if negb (String.eqb id "") then
        if String.eqb id (inc_IncidentID inc) then (true, "incident_id") else (false, "")
      else if negb (String.eqb (sig_Env sig) "") && negb (String.eqb (inc_Env inc) "")
              && negb (String.eqb (sig_Env sig) (inc_Env inc)) then (false, "")
      else if negb (String.eqb (sig_Service sig) "")
              && negb (String.eqb (sig_Service sig) (ef_Service (inc_ErrorFamily inc))) then (false, "")
      else
        let code := signalMetaString (sig_Metadata sig) "error_code" in
        if negb (String.eqb code "") && String.eqb code (ef_ErrorCode (inc_ErrorFamily inc)) then
          let step := signalMetaString (sig_Metadata sig) "step" in
          if String.eqb step "" || String.eqb step (ef_Step (inc_ErrorFamily inc)) then (true, "family")
          else (false, "")
        else (false, "").

Definition matchedAlertFromSignal (sig : Signal) (strategy : string) : MatchedAlert :=
  let evidenceIDs := if String.eqb (sig_SignalID sig) "" then [] else [sig_SignalID sig] in
  mkMatchedAlert (sig_SignalID sig) (signalMetaString (sig_Metadata sig) "alert_id") (sig_Source sig)
    (sig_Severity sig) (sig_Reason sig) (signalMetaString (sig_Metadata sig) "provider_url") evidenceIDs
    (signal_time sig) strategy.

Definition captureAlertEvidenceFromSignals (rows : list Signal) (inc : Incident) (capturedAt : Time)
    (matchWindow : Duration) : AlertEvidence :=
  let matchWindow := clamp_window matchWindow in
  let matched := rows ≫= fun sig =>
    let '(ok, strategy) := matchAlertSignalToIncident sig inc matchWindow capturedAt in
    if ok then [matchedAlertFromSignal sig strategy] else [] in
  let status := if (0 <? length matched)%nat then CaptureOK else CaptureMissing in
  mkAlertEvidence matched capturedAt status.

Definition updateAlertSnapshot (prior : option AlertSnapshot) (fresh : option AlertEvidence) : AlertSnapshot :=
  let prior := default (mkAlertSnapshot None None) prior in
  let opening := match als_Opening prior, fresh with
                 | None, Some e => if String.eqb (ae_CaptureStatus e) CaptureOK then Some e else None
                 | o, _ => o
                 end in
  mkAlertSnapshot opening fresh.

(** ** Runtime signals *)

Definition matchRuntimeSignalToIncident (sig : Signal) (inc : Incident) (lo hi : Time) : bool :=
  if negb (String.eqb (sig_Type sig) TypeRuntime) && negb (String.eqb (sig_Type sig) TypeHealthcheck) then false
  else if negb (String.eqb (sig_Env sig) "") && negb (String.eqb (inc_Env inc) "")
          && negb (String.eqb (sig_Env sig) (inc_Env inc)) then false
  else if negb (String.eqb (sig_Service sig) (inc_Service inc)) then false
  else
    let ts := signal_time sig in
    if Before ts lo || After ts hi then false else true.

Definition runtimeSeverityRank (s : string) : Z :=
  if String.eqb s SeverityCritical then 3
  else if String.eqb s SeverityWarning then 2
  else if String.eqb s SeverityInfo then 1
  else 0.

Definition runtime_less (a b : RuntimeEvidence) : bool :=
  let ra := runtimeSeverityRank (re_Severity a) in
  let rb := runtimeSeverityRank (re_Severity b) in
  if negb (ra =? rb) then rb <? ra
  else if negb (TimeEqual (re_OccurredAt a) (re_OccurredAt b)) then Before (re_OccurredAt a) (re_OccurredAt b)
  else String.ltb (re_SignalID a) (re_SignalID b).

Definition sortRuntimeMatches (m : list RuntimeEvidence) : list RuntimeEvidence := ssort runtime_less m.

Definition runtimeEvidenceFromSignal (sig : Signal) (capturedAt : Time) : RuntimeEvidence :=
  let meta := if (0 <? size (sig_Metadata sig))%nat then Some (sig_Metadata sig) else None in
  mkRuntimeEvidence (signalMetaString (sig_Metadata sig) "subtype") (sig_Service sig) (sig_Reason sig)
    (sig_Severity sig) (sig_Source sig) (sig_SignalID sig) (signal_time sig) meta capturedAt CaptureOK.

Definition captureRuntimeEvidence (rows : list Signal) (inc : Incident) (capturedAt : Time)
    (matchWindow : Duration) : list RuntimeEvidence :=
  let matchWindow := clamp_window matchWindow in
  let lo := TimeAdd (inc_StartedAt inc) (dur_neg matchWindow) in
  sortRuntimeMatches ((fun sig => runtimeEvidenceFromSignal sig capturedAt) <$>
    List.filter (fun sig => matchRuntimeSignalToIncident sig inc lo capturedAt) rows).

(** One row of the fresh capture against the provenance kept so far. *)
Definition runtime_history (acc : option RuntimeEvidence * option RuntimeEvidence) (e : RuntimeEvidence)
    : option RuntimeEvidence * option RuntimeEvidence :=
  let '(opening, latest) := acc in
  (match opening with
   | None => Some e
   | Some o => if Before (re_OccurredAt e) (re_OccurredAt o) then Some e else Some o
   end,
   match latest with
   | None => Some e
   | Some l => if After (re_OccurredAt e) (re_OccurredAt l) then Some e else Some l
   end).

Definition updateRuntimeSnapshot (prior : option RuntimeSnapshot) (fresh : list RuntimeEvidence)
    : option RuntimeSnapshot :=
  if (length fresh =? 0)%nat then
    match prior with
    | None => None
    | Some p => Some (mkRuntimeSnapshot [] (rs_Opening p) (rs_Latest p))
    end
  else
    let start := match prior with Some p => (rs_Opening p, rs_Latest p) | None => (None, None) end in
    let '(opening, latest) := foldl runtime_history start fresh in
    Some (mkRuntimeSnapshot fresh opening latest).

(** ** Keeping the first good capture *)

#[export] Instance runtime_less_by :
  LessBy runtime_less (fun e => (down (runtimeSeverityRank (re_Severity e)), (re_OccurredAt e, re_SignalID e))).
Proof. intros a b. unfold runtime_less, TimeEqual, Before. cbv zeta. kred. solve_less. Qed.

(** The shape the three snapshot updates share: the opening is the first good capture,
    the latest is the last one. *)
Section FirstGood.
Context {E : Type} (good : E -> bool).

Definition keep_opening (opening fresh : option E) : option E :=
  match opening, fresh with
  | None, Some e => if good e then Some e else None
  | o, _ => o
  end.

Definition first_good (captures : list (option E)) : option E := head (List.filter good (omap id captures)).

Lemma keep_opening_first (captures : list (option E)) (fresh : option E) :
  keep_opening (first_good captures) fresh = first_good (captures ++ [fresh]).
Proof.
  unfold first_good. rewrite omap_app, List.filter_app. destruct (List.filter good (omap id captures)); [|done].
  destruct fresh as [e|]; [|done]. simpl. by destruct (good e).
Qed.
End FirstGood.

Definition good_propagation (e : PropagationEvidence) : bool := String.eqb (pe_CaptureStatus e) CaptureOK.
Definition good_blast (e : BlastEvidence) : bool := String.eqb (be_CaptureStatus e) CaptureOK.
Definition good_alerts (e : AlertEvidence) : bool := String.eqb (ae_CaptureStatus e) CaptureOK.

(** Across any series of captures, the opening propagation, blast radius and alert
    evidence of an incident is the first complete capture, never replaced afterwards, and
    the latest is the last capture, complete or not. *)
Theorem snapshots_history (ps : list (option PropagationEvidence)) (bs : list (option BlastEvidence))
    (als : list (option AlertEvidence)) (p : option PropagationEvidence) (b : option BlastEvidence)
    (a : option AlertEvidence) :
  foldl (fun s e => Some (updatePropagationSnapshot s e)) None (ps ++ [p])
    = Some (mkPropagationSnapshot (first_good good_propagation (ps ++ [p])) p) /\
  foldl (fun s e => Some (updateBlastSnapshot s e)) None (bs ++ [b])
    = Some (mkBlastSnapshot (first_good good_blast (bs ++ [b])) b) /\
  foldl (fun s e => Some (updateAlertSnapshot s e)) None (als ++ [a])
    = Some (mkAlertSnapshot (first_good good_alerts (als ++ [a])) a).
Proof.
  split_and!.
  - revert p. induction ps as [|e l IH] using rev_ind; intros p; rewrite <- (keep_opening_first _ _ p); [done|].
    rewrite foldl_snoc, IH. by destruct (first_good _ (l ++ [e])).
  - revert b. induction bs as [|e l IH] using rev_ind; intros b; rewrite <- (keep_opening_first _ _ b); [done|].
    rewrite foldl_snoc, IH. by destruct (first_good _ (l ++ [e])).
  - revert a. induction als as [|e l IH] using rev_ind; intros a; rewrite <- (keep_opening_first _ _ a); [done|].
    rewrite foldl_snoc, IH. by destruct (first_good _ (l ++ [e])).
Qed.

(** ** Optional minima *)

(** [m] is the least of [l], absent when there is none. *)
Definition least_time (m : option Time) (l : list Time) : Prop :=
  match m with
  | None => l = []
  | Some t => t ∈ l /\ forall u, u ∈ l -> t <= u
  end.

Lemma least_time_earlier m l t : least_time m l -> least_time (earlier m t) (l ++ [t]).
Proof.
  destruct m as [b|]; simpl.
  - intros [Hb Hl]. unfold Before. destruct (t <? b) eqn:E; simpl; (split; [rewrite elem_of_app, list_elem_of_singleton; tauto|]);
      intros u; rewrite elem_of_app, list_elem_of_singleton; intros [Hu| ->]; try apply Hl in Hu; lia.
  - intros ->. simpl. split; [by left|]. intros u Hu%list_elem_of_singleton. lia.
Qed.

(** The first-failure time of a family in a trace is the earliest start among the
    events anchored at the family's step with its error code; without any such event, the
    earliest among those anchored at its step; and it is absent only when there is none. *)
Theorem pickAnchorTsStart_spec (events : list Event) (family : ErrorFamily) :
  let loose := List.filter (family_step family) events in
  let strict := List.filter (family_code family) loose in
  least_time (pickAnchorTsStart events family) (ev_TsStart <$> (if (length strict =? 0)%nat then loose else strict)).
Proof.
  cbv zeta. unfold pickAnchorTsStart.
  set (step := pick_event family).
  assert (H : forall evs, least_time (foldl step (None, None) evs).2 (ev_TsStart <$> List.filter (family_step family) evs) /\
    least_time (foldl step (None, None) evs).1
      (ev_TsStart <$> List.filter (family_code family) (List.filter (family_step family) evs))).
  { intros evs. induction evs as [|ev evs [IH1 IH2]] using rev_ind; [done|].
    rewrite foldl_snoc, !List.filter_app. simpl. destruct (foldl step (None, None) evs) as [s l]. simpl in *.
    destruct (family_step family ev); simpl; [|by rewrite !app_nil_r].
    rewrite !fmap_app. simpl. split; [by apply least_time_earlier|].
    destruct (family_code family ev); simpl; [by apply least_time_earlier|by rewrite app_nil_r]. }
  destruct (H events) as [H1 H2]. destruct (foldl step (None, None) events) as [s l]. simpl in *.
  destruct (List.filter (family_code family) _) as [|e es]; simpl.
  - destruct s as [t|]; [|done]. destruct H2 as [H2 _]. by apply elem_of_nil in H2.
  - by destruct s.
Qed.

(** ** What is captured *)

(** The window of a capture: from the incident's start, less the clamped width. *)
Definition window_start (inc : Incident) (matchWindow : Duration) : Time :=
  TimeAdd (inc_StartedAt inc) (dur_neg (clamp_window matchWindow)).

Lemma clamp_window_range w : 0 < clamp_window w <= 24 * Hour.
Proof. unfold clamp_window, Hour, Minute, Second. repeat case_match; lia. Qed.

Lemma window_start_eq inc w : window_start inc w = inc_StartedAt inc - clamp_window w.
Proof.
  unfold window_start, TimeAdd, dur_neg. pose proof (clamp_window_range w). rewrite wrap64_id; [lia|].
  unfold in_int64, min_int64, max_int64, Hour, Minute, Second in *. lia.
Qed.

(** A runtime signal correlates: same service, no conflicting environment, filed within
    the window. *)
Definition correlates (sig : Signal) (inc : Incident) (lo hi : Time) : Prop :=
  (sig_Type sig = TypeRuntime \/ sig_Type sig = TypeHealthcheck) /\
  sig_Service sig = inc_Service inc /\
  (sig_Env sig = "" \/ inc_Env inc = "" \/ sig_Env sig = inc_Env inc) /\
  lo <= signal_time sig <= hi.

Lemma matchRuntime_eq sig inc lo hi :
  matchRuntimeSignalToIncident sig inc lo hi =
  (String.eqb (sig_Type sig) TypeRuntime || String.eqb (sig_Type sig) TypeHealthcheck) &&
  (String.eqb (sig_Service sig) (inc_Service inc) &&
   ((String.eqb (sig_Env sig) "" || (String.eqb (inc_Env inc) "" || String.eqb (sig_Env sig) (inc_Env inc))) &&
    ((lo <=? signal_time sig) && (signal_time sig <=? hi)))).
Proof.
  unfold matchRuntimeSignalToIncident, Before, After. cbv zeta. rewrite !Z.leb_antisym.
  destruct (String.eqb _ TypeRuntime), (String.eqb _ TypeHealthcheck), (String.eqb _ ""), (String.eqb _ ""),
    (String.eqb (sig_Env sig) _), (String.eqb (sig_Service sig) _), (signal_time sig <? lo), (hi <? signal_time sig);
    reflexivity.
Qed.

Lemma matchRuntime_correlates sig inc lo hi :
  matchRuntimeSignalToIncident sig inc lo hi = true <-> correlates sig inc lo hi.
Proof.
  rewrite matchRuntime_eq. unfold correlates.
  by rewrite !andb_true_iff, !orb_true_iff, !String.eqb_eq, !Z.leb_le.
Qed.

(** The runtime evidence of a capture is exactly the correlating runtime and
    healthcheck signals of the window, one row each, most severe first; and the order in
    which the signals were listed does not matter when their ids differ. *)
Theorem captureRuntimeEvidence_spec (rows rows' : list Signal) (inc : Incident) (at_ : Time) (w : Duration) :
  NoDup (sig_SignalID <$> rows) -> rows ≡ₚ rows' ->
  captureRuntimeEvidence rows inc at_ w = captureRuntimeEvidence rows' inc at_ w /\
  NoDup (re_SignalID <$> captureRuntimeEvidence rows inc at_ w) /\
  (forall e, e ∈ captureRuntimeEvidence rows inc at_ w <->
     exists sig, sig ∈ rows /\ correlates sig inc (inc_StartedAt inc - clamp_window w) at_ /\
                 e = runtimeEvidenceFromSignal sig at_) /\
  forall l1 a l2 b, captureRuntimeEvidence rows inc at_ w = l1 ++ a :: l2 -> b ∈ l2 ->
    runtimeSeverityRank (re_Severity b) <= runtimeSeverityRank (re_Severity a).
Proof.
  intros Hnd Hp. unfold captureRuntimeEvidence, sortRuntimeMatches.
  change (TimeAdd (inc_StartedAt inc) (dur_neg (clamp_window w))) with (window_start inc w).
  set (keep := fun sig => matchRuntimeSignalToIncident sig inc (window_start inc w) at_).
  set (row := fun sig => runtimeEvidenceFromSignal sig at_).
  assert (Hids : NoDup (re_SignalID <$> (row <$> List.filter keep rows))).
  { rewrite <- list_fmap_compose. by apply (NoDup_fmap_lfilter sig_SignalID). }
  split_and!.
  - apply (ssort_perm_eq runtime_less (fun e => (down (runtimeSeverityRank (re_Severity e)), (re_OccurredAt e, re_SignalID e)))).
    + intros a b Ha Hb Hk. apply (f_equal (fun k => snd (snd k))) in Hk.
      by apply (NoDup_fmap_inj_on re_SignalID (row <$> List.filter keep rows)).
    + by apply fmap_Permutation, lfilter_perm.
  - by rewrite ssort_perm.
  - intros e. rewrite elem_of_ssort, list_elem_of_fmap. setoid_rewrite elem_of_lfilter. unfold keep.
    setoid_rewrite matchRuntime_correlates. rewrite window_start_eq.
    split; intros (sig & H); exists sig; tauto.
  - intros l1 a l2 b Hl Hb. pose proof (ssort_sorted runtime_less
      (fun e => (down (runtimeSeverityRank (re_Severity e)), (re_OccurredAt e, re_SignalID e)))
      (row <$> List.filter keep rows)) as Hs.
    unfold ssorted in Hs. rewrite Hl in Hs. apply StronglySorted_app_1_r, StronglySorted_inv in Hs as [_ Hs].
    rewrite Forall_forall in Hs. apply Hs in Hb. unfold runtime_less in Hb. cbv zeta in Hb.
    destruct (Z.eqb_spec (runtimeSeverityRank (re_Severity b)) (runtimeSeverityRank (re_Severity a))); [lia|].
    simpl in Hb. lia.
Qed.

(** [o] is an element of [l] that no other precedes (follows) in time, absent when [l] is
    empty. *)
Definition earliest_row (o : option RuntimeEvidence) (l : list RuntimeEvidence) : Prop :=
  match o with
  | None => l = []
  | Some e => e ∈ l /\ forall x, x ∈ l -> re_OccurredAt e <= re_OccurredAt x
  end.
Definition latest_row (o : option RuntimeEvidence) (l : list RuntimeEvidence) : Prop :=
  match o with
  | None => l = []
  | Some e => e ∈ l /\ forall x, x ∈ l -> re_OccurredAt x <= re_OccurredAt e
  end.

Lemma runtime_history_step opening latest l e :
  earliest_row opening l -> latest_row latest l ->
  let '(o, lt) := runtime_history (opening, latest) e in
  earliest_row o (l ++ [e]) /\ latest_row lt (l ++ [e]).
Proof.
  unfold runtime_history, Before, After. intros Ho Hl. split.
  - destruct opening as [o|]; simpl in *.
    + destruct Ho as [Ho Hmin]. destruct (Z.ltb_spec (re_OccurredAt e) (re_OccurredAt o)); simpl;
        (split; [rewrite elem_of_app, list_elem_of_singleton; tauto|]); intros x;
        rewrite elem_of_app, list_elem_of_singleton; intros [Hx| ->]; try apply Hmin in Hx; lia.
    + subst l. simpl. split; [by left|]. intros x Hx%list_elem_of_singleton. subst. lia.
  - destruct latest as [o|]; simpl in *.
    + destruct Hl as [Hl Hmax]. destruct (Z.ltb_spec (re_OccurredAt o) (re_OccurredAt e)); simpl;
        (split; [rewrite elem_of_app, list_elem_of_singleton; tauto|]); intros x;
        rewrite elem_of_app, list_elem_of_singleton; intros [Hx| ->]; try apply Hmax in Hx; lia.
    + subst l. simpl. split; [by left|]. intros x Hx%list_elem_of_singleton. subst. lia.
Qed.

Lemma runtime_history_fold fresh : forall opening latest l,
  earliest_row opening l -> latest_row latest l ->
  let '(o, lt) := foldl runtime_history (opening, latest) fresh in
  earliest_row o (l ++ fresh) /\ latest_row lt (l ++ fresh).
Proof.
  induction fresh as [|e fresh IH]; intros opening latest l Ho Hl; [by rewrite !app_nil_r|]. cbn [foldl].
  pose proof (runtime_history_step _ _ _ e Ho Hl) as Hs. destruct (runtime_history (opening, latest) e) as [o lt].
  destruct Hs as [Hs1 Hs2]. rewrite cons_middle, app_assoc. by apply IH.
Qed.

(** Across any series of captures the runtime snapshot shows exactly the rows of the
    last one, its opening is an earliest row ever captured and its latest a most recent
    one; there is no snapshot only when nothing was ever captured. *)
Theorem runtime_snapshot_history (captures : list (list RuntimeEvidence)) (fresh : list RuntimeEvidence) :
  match foldl updateRuntimeSnapshot None (captures ++ [fresh]) with
  | None => concat (captures ++ [fresh]) = []
  | Some s => rs_Matches s = fresh /\ concat (captures ++ [fresh]) <> [] /\
              earliest_row (rs_Opening s) (concat (captures ++ [fresh])) /\
              latest_row (rs_Latest s) (concat (captures ++ [fresh]))
  end.
Proof.
  revert fresh. induction captures as [|prev captures IH] using rev_ind; intros fresh.
  - simpl. rewrite app_nil_r. unfold updateRuntimeSnapshot. destruct fresh as [|e fresh]; [done|]. cbn [length Nat.eqb].
    pose proof (runtime_history_fold (e :: fresh) None None [] eq_refl eq_refl) as H.
    destruct (foldl _ _ _) as [o lt]. simpl. destruct H. by split_and!.
  - specialize (IH prev). rewrite foldl_snoc. rewrite concat_app. cbn [concat]. rewrite app_nil_r.
    destruct (foldl _ None (captures ++ [prev])) as [s|]; unfold updateRuntimeSnapshot.
    + destruct IH as (_ & Hne & Ho & Hl). destruct fresh as [|e fresh]; [by rewrite app_nil_r|]. cbn [length Nat.eqb].
      pose proof (runtime_history_fold (e :: fresh) _ _ _ Ho Hl) as H.
      destruct (foldl runtime_history _ _) as [o lt]. simpl in *. destruct H. split_and!; try done. by destruct (concat _).
    + rewrite IH. destruct fresh as [|e fresh]; [done|]. cbn [length Nat.eqb].
      pose proof (runtime_history_fold (e :: fresh) None None [] eq_refl eq_refl) as H.
      destruct (foldl runtime_history _ _) as [o lt]. simpl in *. destruct H. by split_and!.
Qed.

(** The alert evidence of a capture holds one row per alert signal that matches, in the
    order listed, and is complete exactly when there is one; an alert that names an
    incident matches that incident alone, however well it fits the family of another. *)
Theorem captureAlertEvidence_spec (rows : list Signal) (inc : Incident) (at_ : Time) (w : Duration) :
  let matched := fun sig => (matchAlertSignalToIncident sig inc (clamp_window w) at_).1 in
  ma_SignalID <$> ae_Matches (captureAlertEvidenceFromSignals rows inc at_ w) =
    sig_SignalID <$> List.filter matched rows /\
  (ae_CaptureStatus (captureAlertEvidenceFromSignals rows inc at_ w) = CaptureOK <->
     exists sig, sig ∈ rows /\ matched sig = true) /\
  forall sig, matched sig = true ->
    sig_Type sig = TypeAlert /\
    (signal_time sig = time_zero \/ inc_StartedAt inc - clamp_window w <= signal_time sig <= at_) /\
    let named := signalMetaString (sig_Metadata sig) "incident_id" in
    named = "" \/ named = inc_IncidentID inc.
Proof.
  cbv zeta. set (matched := fun sig => _). split_and!.
  - unfold captureAlertEvidenceFromSignals. cbn [ae_Matches]. induction rows as [|sig rows IH]; [done|].
    cbn [List.filter mbind list_bind]. rewrite fmap_app, IH. unfold matched.
    destruct (matchAlertSignalToIncident sig inc (clamp_window w) at_) as [[] st]; done.
  - unfold captureAlertEvidenceFromSignals. cbn [ae_CaptureStatus]. set (out := rows ≫= _).
    assert (Hout : (0 <? length out)%nat = existsb matched rows).
    { unfold out, matched. clear. induction rows as [|sig rows IH]; cbn [mbind list_bind existsb]; [done|].
      destruct (matchAlertSignalToIncident sig inc (clamp_window w) at_) as [[] st]; [done|]. simpl. exact IH. }
    rewrite Hout. setoid_rewrite list_elem_of_In. rewrite <- existsb_exists.
    by destruct (existsb matched rows).
  - intros sig. unfold matched, matchAlertSignalToIncident, Before, After. cbv zeta.
    fold (window_start inc w). rewrite window_start_eq.
    destruct (String.eqb_spec (sig_Type sig) TypeAlert) as [->|]; [|done]. cbn [negb].
    unfold IsZero. intros H. split; [done|].
    destruct (Z.eqb_spec (signal_time sig) 0), (Z.ltb_spec (signal_time sig) (inc_StartedAt inc - clamp_window w)),
      (Z.ltb_spec at_ (signal_time sig)); cbn [negb andb orb] in H; try discriminate; (split; [unfold time_zero; lia|]);
      destruct (String.eqb_spec (signalMetaString (sig_Metadata sig) "incident_id") "") as [->|]; (try by left); right;
      destruct (String.eqb_spec (signalMetaString (sig_Metadata sig) "incident_id") (inc_IncidentID inc)); done.
Qed.

Definition sample_runtime_rows : list Signal :=
  [sample_signal "s1" TypeRuntime "checkout" SeverityWarning (unix_epoch + 10 * Second) ∅;
   sample_signal "s2" TypeHealthcheck "checkout" SeverityCritical (unix_epoch + 20 * Second) ∅].

Definition open_incident : Incident :=
  mkIncident "inc_1" "prod" "checkout" (mkErrorFamily "checkout" "pay" "TIMEOUT") StatusActive "" "" 5
    (unix_epoch + 30 * Second) 0 0 None None 0 None 0 [] [] [] [] [] (of_int 0) 0 0 None None None None "".

(** The two rows are captured, the critical one first, in either order of listing. *)
Lemma captureRuntimeEvidence_spec_witness :
  captureRuntimeEvidence sample_runtime_rows open_incident (unix_epoch + 40 * Second) 0 =
  captureRuntimeEvidence (reverse sample_runtime_rows) open_incident (unix_epoch + 40 * Second) 0 /\
  re_SignalID <$> captureRuntimeEvidence sample_runtime_rows open_incident (unix_epoch + 40 * Second) 0 = ["s2"; "s1"].
Proof.
  split; [|vm_compute; reflexivity].
  apply (captureRuntimeEvidence_spec sample_runtime_rows (reverse sample_runtime_rows)).
  - apply (bool_decide_unpack _). vm_compute. exact I.
  - symmetry. apply reverse_Permutation.
Defined.
