(* ===== verification/NextChecks.v ===== *)
(** Suggested next checks ([internal/incidents/nextchecks.go]): the lines of advice an
    incident carries, each printed only when the data it names was captured. *)

From S2P Require Import Prelude GoRuntime GoFloat Types Family Incident.
Open Scope Z_scope.

Record NextCheckContext := mkNextCheckContext {
  nc_Service : string;
  nc_ErrorCode : string;
  nc_Step : string;
  nc_SampleTraceID : string;
  nc_Downstream : string;
  nc_DepSignalID : string;
  nc_DepSignalReason : string;
  nc_DeployVersion : string;
  nc_DeployFirstSeen : Time;
  nc_DeploySignalID : string;
  nc_RuntimeSignalID : string;
  nc_RuntimeReason : string;
  nc_RuntimeSubtype : string;
  nc_AlertSignalID : string;
  nc_AlertID : string;
  nc_AlertSource : string;
  nc_AlertProviderURL : string;
  nc_MissingServiceVersion : bool;
  nc_MissingDependencySignal : bool;
  nc_HasPartialTrace : bool
}.

(** [s != ""]. *)
Definition present (s : string) : bool := negb (String.eqb s "").

Definition backtick (value fallback : string) : string :=
  if String.eqb value "" then fallback else "`" +:+ value +:+ "`".

Definition shortRef (id : string) : string :=
  if (String.length id <=? 12)%nat then id else take_bytes 12 id +:+ "…".

Definition alertCheckLine (ctx : NextCheckContext) : string :=
  let id := if String.eqb (nc_AlertID ctx) "" then shortRef (nc_AlertSignalID ctx) else nc_AlertID ctx in
  let source := nc_AlertSource ctx in
  if present (nc_AlertProviderURL ctx) && present source
  then "Open matched alert `" +:+ id +:+ "` in " +:+ source +:+ " (" +:+ nc_AlertProviderURL ctx +:+ ")."
  else if present source then "Open matched alert `" +:+ id +:+ "` from " +:+ source +:+ "."
  else if present (nc_AlertProviderURL ctx)
  then "Open matched alert `" +:+ id +:+ "` (" +:+ nc_AlertProviderURL ctx +:+ ")."
  else "Open matched alert `" +:+ id +:+ "`.".

Definition alert_lines (ctx : NextCheckContext) : list string :=
  if present (nc_AlertSignalID ctx) then [alertCheckLine ctx] else [].

Definition deployChecks (ctx : NextCheckContext) : list string :=
  let service := backtick (nc_Service ctx) "" in
  (if present (nc_DeployVersion ctx) && negb (IsZero (nc_DeployFirstSeen ctx)) && present service
   then ["Compare incident onset with deploy `" +:+ nc_DeployVersion ctx +:+ "` on " +:+ service +:+
         ", first seen at " +:+ FormatRFC3339 (nc_DeployFirstSeen ctx) +:+ "."]
   else if present (nc_DeployVersion ctx) && present service
   then ["Compare incident onset with deploy `" +:+ nc_DeployVersion ctx +:+ "` on " +:+ service +:+ "."]
   else if present (nc_DeployVersion ctx)
   then ["Compare incident onset with deploy `" +:+ nc_DeployVersion ctx +:+ "`."]
   else []) ++
  (if present (nc_DeploySignalID ctx) then
     if present service
     then ["Review deploy signal `" +:+ shortRef (nc_DeploySignalID ctx) +:+ "` on " +:+ service +:+ "."]
     else ["Review deploy signal `" +:+ shortRef (nc_DeploySignalID ctx) +:+ "`."]
   else []) ++
  (if present (nc_SampleTraceID ctx) && present service
   then ["Inspect sampled trace `" +:+ shortRef (nc_SampleTraceID ctx) +:+ "` on " +:+ service +:+
         " for the deployed-version marker."]
   else []) ++
  (if present (nc_Downstream ctx)
   then ["Also verify downstream " +:+ backtick (nc_Downstream ctx) "" +:+ " — it was implicated in the same window."]
   else []).

Definition dependencyChecks (ctx : NextCheckContext) : list string :=
  let downstream := backtick (nc_Downstream ctx) "" in
  let step := backtick (nc_Step ctx) "" in
  (if present (nc_SampleTraceID ctx) && present downstream then
     if present step
     then ["Inspect sampled trace `" +:+ shortRef (nc_SampleTraceID ctx) +:+ "` at " +:+ step +:+
           " for the failing call to " +:+ downstream +:+ "."]
     else ["Inspect sampled trace `" +:+ shortRef (nc_SampleTraceID ctx) +:+ "` for the failing call to " +:+
           downstream +:+ "."]
   else []) ++
  (if present (nc_DepSignalID ctx) && present (nc_DepSignalReason ctx) && present downstream
   then ["Review dependency signal `" +:+ shortRef (nc_DepSignalID ctx) +:+ "`: `" +:+ nc_DepSignalReason ctx +:+
         "` on " +:+ downstream +:+ "."]
   else []) ++
  (if present (nc_DeployVersion ctx) then
     let line := "Also verify recent deploy " +:+ backtick (nc_DeployVersion ctx) "" in
     let line := if present (nc_Service ctx) then line +:+ " on " +:+ backtick (nc_Service ctx) "" else line in
     [line +:+ "."]
   else []) ++
  alert_lines ctx.

Definition runtimeChecks (ctx : NextCheckContext) : list string :=
  let service := backtick (nc_Service ctx) "" in
  let subtype := ToLower (nc_RuntimeSubtype ctx) in
  (if present (nc_RuntimeSignalID ctx) && present (nc_RuntimeReason ctx) && present service
   then ["Review runtime signal `" +:+ shortRef (nc_RuntimeSignalID ctx) +:+ "`: `" +:+ nc_RuntimeReason ctx +:+
         "` on " +:+ service +:+ "."]
   else []) ++
  (if present service then
     if Contains subtype "oom" || Contains subtype "memory"
     then ["Inspect memory usage for " +:+ service +:+ " around the runtime event."]
     else if Contains subtype "readiness" || Contains subtype "liveness" || Contains subtype "probe"
     then ["Review readiness/liveness probe history for " +:+ service +:+ " around the runtime event."]
     else if Contains subtype "crashloop" || Contains subtype "restart"
     then ["Check " +:+ service +:+ " restart history around the runtime event."]
     else []
   else []) ++
  (if present (nc_SampleTraceID ctx) && present service
   then ["Inspect sampled trace `" +:+ shortRef (nc_SampleTraceID ctx) +:+ "` on " +:+ service +:+
         " overlapping the runtime event."]
   else []) ++
  alert_lines ctx.

Definition appChecks (ctx : NextCheckContext) : list string :=
  let step := backtick (nc_Step ctx) "" in
  let errCode := backtick (nc_ErrorCode ctx) "" in
  (if present (nc_SampleTraceID ctx) && present step && present errCode
   then ["Inspect sampled trace `" +:+ shortRef (nc_SampleTraceID ctx) +:+ "` at " +:+ step +:+ " for " +:+ errCode +:+ "."]
   else if present (nc_SampleTraceID ctx) && present step
   then ["Inspect sampled trace `" +:+ shortRef (nc_SampleTraceID ctx) +:+ "` at " +:+ step +:+ "."]
   else if present (nc_SampleTraceID ctx)
   then ["Inspect sampled trace `" +:+ shortRef (nc_SampleTraceID ctx) +:+ "`."]
   else []) ++
  alert_lines ctx.

Definition unknownChecks (ctx : NextCheckContext) : list string :=
  (if present (nc_SampleTraceID ctx)
   then ["Inspect sampled trace `" +:+ shortRef (nc_SampleTraceID ctx) +:+ "` to confirm the failure mode."]
   else []) ++
  alert_lines ctx.

Definition appendGapChecks (out : list string) (ctx : NextCheckContext) : list string :=
  out ++
  (if nc_MissingServiceVersion ctx && present (nc_Service ctx)
   then ["Add `service.version` to events from `" +:+ nc_Service ctx +:+ "` to enable deploy correlation."]
   else []) ++
  (if nc_MissingDependencySignal ctx then
     if present (nc_Service ctx) && present (nc_Downstream ctx)
     then ["Add dependency signals for `" +:+ nc_Service ctx +:+ "` → `" +:+ nc_Downstream ctx +:+
           "` to confirm the downstream cause."]
     else if present (nc_Downstream ctx)
     then ["Add dependency signals for `" +:+ nc_Downstream ctx +:+ "` to confirm the downstream cause."]
     else if present (nc_Service ctx)
     then ["Add dependency signals for `" +:+ nc_Service ctx +:+ "` to confirm the downstream cause."]
     else []
   else []) ++
  (if nc_HasPartialTrace ctx
   then ["Some events arrived without complete span fan-out — verify trace propagation in the SDK middleware."]
   else []).

Definition NextChecks (cause confidence : string) (ctx : NextCheckContext) : list string :=
  let out := if String.eqb cause CauseDeploy then deployChecks ctx
             else if String.eqb cause CauseDependency then dependencyChecks ctx
             else if String.eqb cause CauseRuntime then runtimeChecks ctx
             else if String.eqb cause CauseApp then appChecks ctx
             else unknownChecks ctx in
  let out := appendGapChecks out ctx in
  if (length out =? 0)%nat
  then ["Crux has no evidence-backed checks for this incident yet. Verify ingest is receiving events and signals for this service."]
  else out.

(** ** No empty references *)

(** Reading a line left to right, [ticks prev s] fails at the first two adjacent back
    quotes; otherwise it says whether the line ends with one. *)
Fixpoint ticks (prev : bool) (s : string) : option bool :=
  match s with
  | EmptyString => Some prev
  | String c s' => if Ascii.eqb c "`" then if prev then None else ticks true s' else ticks false s'
  end.

(** A string without back quotes. *)
Fixpoint plain (s : string) : bool :=
  match s with
  | EmptyString => true
  | String c s' => negb (Ascii.eqb c "`") && plain s'
  end.

Lemma ticks_app p a b : ticks p (a +:+ b) = ticks p a ≫= fun q => ticks q b.
Proof.
  revert p. induction a as [|c a IH]; intros p; [done|]. rewrite string_app_cons. simpl.
  destruct (Ascii.eqb c "`"), p; rewrite ?IH; done.
Qed.

Lemma ticks_plain p s : plain s = true -> ticks p s = Some (p && String.eqb s "").
Proof.
  revert p. induction s as [|c s IH]; intros p; simpl; [by rewrite andb_true_r|]. rewrite andb_true_iff.
  intros [Hc Hs]. apply negb_true_iff in Hc. rewrite Hc, (IH false Hs), andb_false_r. done.
Qed.

Lemma ticks_Contains p s : is_Some (ticks p s) -> Contains s "``" = false.
Proof.
  revert p. induction s as [|c s IH]; intros p H; [done|]. cbn [Contains ticks] in *.
  apply orb_false_iff. split.
  - cbn [String.prefix]. destruct (Ascii.ascii_dec "`" c) as [<-|]; [|done]. destruct s as [|c' s]; [done|].
    cbn [String.prefix]. destruct (Ascii.ascii_dec "`" c') as [<-|]; [|done]. simpl in H. by destruct p, H.
  - destruct (Ascii.eqb c "`"); [destruct p; [by destruct H|]|]; by eapply IH.
Qed.

Lemma plain_app a b : plain (a +:+ b) = plain a && plain b.
Proof. induction a as [|c a IH]; [done|]. rewrite string_app_cons. simpl. by rewrite IH, andb_assoc. Qed.

Lemma plain_substring n m s : plain s = true -> plain (String.substring n m s) = true.
Proof.
  revert n m. induction s as [|c s IH]; intros [|n] [|m]; simpl; rewrite ?andb_true_iff; try done;
    intros [Hc Hs]; [split; [done|]|..]; by apply IH.
Qed.

Lemma plain_zeros k : plain (String.string_of_list_ascii (repeat "0"%char k)) = true.
Proof. by induction k. Qed.

Lemma plain_pretty_N_go x s : plain s = true -> plain (pretty_N_go x s) = true.
Proof.
  revert s. induction (N.lt_wf_0 x) as [x _ IH]. intros s Hs. destruct (decide (0 < x)%N) as [Hx|Hx].
  - rewrite pretty_N_go_step by done. apply IH; [by apply N.div_lt|]. simpl. rewrite Hs, andb_true_r.
    unfold pretty_N_char. by repeat case_match.
  - assert (x = 0%N) as -> by lia. by rewrite pretty_N_go_0.
Qed.

Lemma plain_pretty_N (x : N) : plain (pretty x) = true.
Proof. unfold pretty, pretty_N. case_decide; [done|]. by apply plain_pretty_N_go. Qed.

Lemma plain_pretty_Z (z : Z) : plain (pretty z) = true.
Proof. destruct z; [done| |]; unfold pretty, pretty_Z; rewrite ?plain_app; apply plain_pretty_N. Qed.

Lemma plain_pad_int w n : plain (pad_int w n) = true.
Proof. unfold pad_int. cbv zeta. rewrite !plain_app, plain_zeros, plain_pretty_Z. by destruct (n <? 0). Qed.

Lemma plain_FormatRFC3339 t : plain (FormatRFC3339 t) = true.
Proof.
  unfold FormatRFC3339. destruct (civil_of_days _) as [[y m] d]. cbv zeta.
  by rewrite !plain_app, !plain_pad_int.
Qed.

Lemma ticks_field p s : plain s = true -> present s = true -> ticks p s = Some false.
Proof.
  intros Hp Hs. rewrite ticks_plain by done. unfold present in Hs. apply negb_true_iff in Hs.
  by rewrite Hs, andb_false_r.
Qed.

Lemma present_ne s : s <> "" -> present s = true.
Proof. intros H. unfold present. by destruct (String.eqb_spec s ""). Qed.

Lemma present_backtick s : present (backtick s "") = present s.
Proof. unfold present, backtick. destruct (String.eqb_spec s "") as [->|]; [done|]. by rewrite string_app_cons. Qed.

Lemma ticks_backtick s : plain s = true -> present s = true -> ticks false (backtick s "") = Some true.
Proof.
  intros Hp Hs. unfold backtick. unfold present in Hs. destruct (String.eqb s "") eqn:E; [done|].
  rewrite ticks_app. simpl. rewrite ticks_app, (ticks_field _ s); [done|done|]. unfold present. by rewrite E.
Qed.

Lemma plain_shortRef s : plain s = true -> plain (shortRef s) = true.
Proof.
  intros Hs. unfold shortRef. case_if; [done|]. rewrite plain_app. unfold take_bytes.
  by rewrite plain_substring.
Qed.

Lemma present_shortRef s : present s = true -> present (shortRef s) = true.
Proof.
  unfold shortRef. case_if; [done|]. intros _. unfold present.
  destruct (take_bytes 12 s); [done|]. by rewrite string_app_cons.
Qed.

Definition ctx_fields (ctx : NextCheckContext) : list string :=
  [nc_Service ctx; nc_ErrorCode ctx; nc_Step ctx; nc_SampleTraceID ctx; nc_Downstream ctx; nc_DepSignalID ctx;
   nc_DepSignalReason ctx; nc_DeployVersion ctx; nc_DeploySignalID ctx; nc_RuntimeSignalID ctx;
   nc_RuntimeReason ctx; nc_AlertSignalID ctx; nc_AlertID ctx; nc_AlertSource ctx; nc_AlertProviderURL ctx].

Definition line_ok (line : string) : Prop := is_Some (ticks false line).

Ltac field_facts :=
  first [ assumption | apply plain_shortRef; assumption | apply present_shortRef; assumption
        | apply present_ne; assumption | reflexivity ].

(** [solve_lines] reads the lines a check may emit, guards first. *)
Ltac solve_lines :=
  repeat case_if; bool_prop; rewrite ?present_backtick in *;
  repeat first [apply Forall_nil_2 | apply Forall_cons_2]; unfold line_ok;
  repeat first [ rewrite ticks_app
               | rewrite ticks_field by field_facts
               | rewrite ticks_backtick by field_facts
               | rewrite (ticks_plain _ _ (plain_FormatRFC3339 _))
               | progress cbn [mbind option_bind ticks Ascii.eqb Bool.eqb] ];
  try (eexists; reflexivity).

(** [plain_fields field_plain] adds that every field of the context is plain. *)
Ltac plain_fields field_plain :=
  match type of field_plain with forall s, s ∈ ctx_fields ?ctx -> _ =>
    let H := fresh in assert (H : Forall (fun s => plain s = true) (ctx_fields ctx)) by
      (apply Forall_forall; exact field_plain);
    unfold ctx_fields in H; rewrite !Forall_cons in H;
    repeat match type of H with _ /\ _ => destruct H as [? H] end
  end.

Section Lines.
Context (ctx : NextCheckContext) (Hplain : Forall (fun s => plain s = true) (ctx_fields ctx)).

Lemma field_plain s : s ∈ ctx_fields ctx -> plain s = true.
Proof. rewrite Forall_forall in Hplain. apply Hplain. Qed.

Lemma alert_lines_ok : Forall line_ok (alert_lines ctx).
Proof. unfold alert_lines, alertCheckLine. cbv zeta. plain_fields field_plain. solve_lines. Qed.

Lemma deployChecks_ok : Forall line_ok (deployChecks ctx).
Proof. unfold deployChecks. cbv zeta. plain_fields field_plain. rewrite !Forall_app. split_and!; solve_lines. Qed.

Lemma dependencyChecks_ok : Forall line_ok (dependencyChecks ctx).
Proof.
  unfold dependencyChecks. cbv zeta. plain_fields field_plain.
  rewrite !Forall_app. split_and!; [| | |apply alert_lines_ok]; solve_lines.
Qed.

Lemma runtimeChecks_ok : Forall line_ok (runtimeChecks ctx).
Proof.
  unfold runtimeChecks. cbv zeta. plain_fields field_plain.
  rewrite !Forall_app. split_and!; [| | |apply alert_lines_ok]; solve_lines.
Qed.

Lemma appChecks_ok : Forall line_ok (appChecks ctx).
Proof.
  unfold appChecks. cbv zeta. plain_fields field_plain.
  rewrite !Forall_app. split_and!; [|apply alert_lines_ok]; solve_lines.
Qed.

Lemma unknownChecks_ok : Forall line_ok (unknownChecks ctx).
Proof.
  unfold unknownChecks. plain_fields field_plain.
  rewrite !Forall_app. split_and!; [|apply alert_lines_ok]; solve_lines.
Qed.

Lemma appendGapChecks_ok out : Forall line_ok out -> Forall line_ok (appendGapChecks out ctx).
Proof.
  intros Ho. unfold appendGapChecks. plain_fields field_plain.
  rewrite !Forall_app. split_and!; [exact Ho| | |]; solve_lines.
Qed.
End Lines.

(** Whatever the cause, an incident carries at least one next check, and no check prints
    an empty back-quoted reference: a line is left out, or shortened, when the data it
    would name was not captured. *)
Theorem NextChecks_references (cause confidence : string) (ctx : NextCheckContext) :
  Forall (fun s => plain s = true) (ctx_fields ctx) ->
  NextChecks cause confidence ctx <> [] /\
  Forall (fun line => Contains line "``" = false) (NextChecks cause confidence ctx).
Proof.
  intros Hp. assert (Hok : Forall line_ok (NextChecks cause confidence ctx)).
  { unfold NextChecks. cbv zeta. case_if; [repeat constructor; by eexists|]. apply appendGapChecks_ok; [done|].
    repeat case_if; auto using deployChecks_ok, dependencyChecks_ok, runtimeChecks_ok, appChecks_ok, unknownChecks_ok. }
  split.
  - unfold NextChecks. cbv zeta. case_if; [done|]. intros Hn. rewrite Hn in *. done.
  - eapply Forall_impl; [exact Hok|]. intros line. apply ticks_Contains.
Qed.

Lemma NextChecks_references_witness :
  let ctx := mkNextCheckContext "checkout" "TIMEOUT" "pay" "0123456789abcdef" "payments" "" "" "v2" 0 "" "" "" "" "" "" ""
               "" true true false in
  Forall (fun s => plain s = true) (ctx_fields ctx) /\
  (NextChecks CauseDependency ConfidenceMedium ctx <> [] /\
   Forall (fun line => Contains line "``" = false) (NextChecks CauseDependency ConfidenceMedium ctx)).
Proof.
  cbv zeta. assert (H : Forall (fun s => plain s = true) (ctx_fields (mkNextCheckContext "checkout" "TIMEOUT" "pay"
    "0123456789abcdef" "payments" "" "" "v2" 0 "" "" "" "" "" "" "" "" true true false))) by by_decide.
  split; [exact H|]. apply NextChecks_references. exact H.
Defined.
