(* ===== verification/Classifier.v ===== *)
(** The cause classifier ([internal/incidents/classifier.go]): which evidence an incident
    carries and which cause it is given, from its trace events, the signals and the
    deployments around it.  Pointers into the input slices are options. *)

From S2P Require Import Prelude GoRuntime GoFloat Types Family Incident Capture NextChecks.
Open Scope Z_scope.

(** ** Data *)

Record ClassificationInput := mkClassificationInput {
  ci_Incident : Incident;
  ci_Events : list Event;
  ci_Signals : list Signal;
  ci_Deployments : list Deployment;
  ci_Now : Time
}.

Record Classification := mkClassification {
  cl_Cause : string;
  cl_Confidence : string;
  cl_Evidence : list Evidence;
  cl_NextChecks : list string;
  cl_InstrumentationWarnings : list string;
  cl_SuspectDeployID : string
}.

(** ** Reading events and signals *)

Definition stringField (m : gmap string value) (key : string) : string := as_string (m !! key).

Definition containsString (haystack : list string) (needle : string) : bool :=
  existsb (fun s => String.eqb s needle) haystack.

Definition hasSignalType (sigs : list Signal) (typ : string) : bool :=
  existsb (fun sig => String.eqb (sig_Type sig) typ) sigs.

Definition sampleVersion (events : list Event) : string :=
  default "" (head (List.filter (fun v => negb (String.eqb v "")) (ev_Version <$> events))).

(** The service called by the first failing step, in event and step order, that the anchor
    of its event names. *)
Definition failing_call (a : Anchor) (s : Step) : option string :=
  if String.eqb (st_Name s) (an_Step a) && String.eqb (st_Status s) StepStatusError
  then dn_Service <$> st_Downstream s else None.

Definition firstFailingDownstream (events : list Event) : string :=
  default "" (head (events ≫= fun ev =>
    match ev_Anchor ev with None => [] | Some a => omap (failing_call a) (ev_Steps ev) end)).

Definition sampleTraceID (input : ClassificationInput) : string :=
  let from_events := default "" (head (List.filter (fun t => negb (String.eqb t "")) (ev_TraceID <$> ci_Events input))) in
  match inc_SampleTraces (ci_Incident input) with
  | t :: _ => if negb (String.eqb t "") then t else from_events
  | [] => from_events
  end.

Definition severityRank (s : string) : Z :=
  if String.eqb s SeverityCritical then 3
  else if String.eqb s SeverityWarning then 2
  else if String.eqb s SeverityInfo then 1
  else 0.

(** ** Timing *)

Definition absDuration (d : Duration) : Duration := if d <? 0 then dur_neg d else d.

Definition closerToOnset (a b onset : Time) : bool :=
  absDuration (TimeSub onset a) <? absDuration (TimeSub onset b).

Definition deployBeatsDependency (deployAt depAt onset : Time) : bool :=
  let deployPrecedes := negb (After deployAt onset) in
  let depPrecedes := negb (After depAt onset) in
  if negb (IsZero deployAt) && negb (IsZero depAt) && negb (Bool.eqb deployPrecedes depPrecedes)
  then deployPrecedes
  else closerToOnset deployAt depAt onset.

(** ** Matching *)

Definition matchingDependencySignal (input : ClassificationInput) : option Signal :=
  let downstream := firstFailingDownstream (ci_Events input) in
  if String.eqb downstream "" then None
  else head (List.filter (fun sig => String.eqb (sig_Type sig) TypeDependency && String.eqb (sig_Service sig) downstream)
               (ci_Signals input)).

Definition matchingDeployment (input : ClassificationInput) : option Deployment :=
  let version := sampleVersion (ci_Events input) in
  let env := inc_Env (ci_Incident input) in
  head (List.filter (fun dep =>
    if negb (String.eqb (dep_Env dep) "") && negb (String.eqb env "") && negb (String.eqb (dep_Env dep) env) then false
    else if negb (String.eqb (dep_Service dep) (inc_Service (ci_Incident input))) then false
    else if negb (String.eqb version "") && negb (String.eqb (dep_Version dep) "")
            && negb (String.eqb (dep_Version dep) version) then false
    else true) (ci_Deployments input)).

Definition matchingSignal (input : ClassificationInput) (typ : string) : option Signal :=
  let version := sampleVersion (ci_Events input) in
  head (List.filter (fun sig =>
    if negb (String.eqb (sig_Type sig) typ) || negb (String.eqb (sig_Service sig) (inc_Service (ci_Incident input))) then false
    else if String.eqb version "" then true
    else let sigVersion := stringField (sig_Metadata sig) "version" in
         String.eqb sigVersion "" || String.eqb sigVersion version) (ci_Signals input)).

Definition signal_less (a b : Signal) : bool :=
  let ra := severityRank (sig_Severity a) in
  let rb := severityRank (sig_Severity b) in
  if negb (ra =? rb) then rb <? ra
  else if negb (TimeEqual (sig_Timestamp a) (sig_Timestamp b)) then Before (sig_Timestamp a) (sig_Timestamp b)
  else String.ltb (sig_SignalID a) (sig_SignalID b).

Definition runtime_lookback : Duration := 15 * Minute.

(** The end of the runtime window. *)
Definition runtime_until (input : ClassificationInput) : Time :=
  let start := inc_StartedAt (ci_Incident input) in
  let hi := if IsZero (ci_Now input) then inc_UpdatedAt (ci_Incident input) else ci_Now input in
  if Before hi start then TimeAdd start Minute else hi.

Definition matchingRuntimeSignals (input : ClassificationInput) : list Signal :=
  let lo := TimeAdd (inc_StartedAt (ci_Incident input)) (dur_neg runtime_lookback) in
  ssort signal_less (List.filter (fun sig =>
    matchRuntimeSignalToIncident sig (ci_Incident input) lo (runtime_until input)) (ci_Signals input)).

Definition matchingAlerts (input : ClassificationInput) : list Signal :=
  let inc := ci_Incident input in
  let lo := TimeAdd (inc_StartedAt inc) (dur_neg (15 * Minute)) in
  let hi := if IsZero (ci_Now input) then inc_UpdatedAt inc else ci_Now input in
  List.filter (fun sig =>
    if negb (String.eqb (sig_Type sig) TypeAlert) then false
    else if negb (String.eqb (inc_Env inc) "") && negb (String.eqb (sig_Env sig) (inc_Env inc)) then false
    else if negb (String.eqb (sig_Service sig) (inc_Service inc)) then false
    else if Before (sig_Timestamp sig) lo || After (sig_Timestamp sig) hi then false
    else true) (ci_Signals input).

Definition better_alert (best cand : Signal) : Signal :=
  let bestRank := severityRank (sig_Severity best) in
  let rank := severityRank (sig_Severity cand) in
  if (bestRank <? rank) || ((rank =? bestRank) && After (sig_Timestamp cand) (sig_Timestamp best)) then cand else best.

Definition pickTopAlert (alerts : list Signal) : option Signal :=
  match alerts with [] => None | a :: rest => Some (foldl better_alert a rest) end.

(** ** Evidence rows *)

Definition or_else (s fallback : string) : string := if String.eqb s "" then fallback else s.

Definition collectTraceEvidence (events : list Event) : list Evidence :=
  take 1 (omap (fun ev => (fun a =>
    mkEvidence EvidenceTrace "First failing trace sample" (an_Step a +:+ "/" +:+ an_ErrorCode a) (ev_Service ev)
      "" "" (ev_TraceID ev) (ev_TsStart ev) ∅) <$> ev_Anchor ev) events).

Definition alertLabel (sig : Signal) : string :=
  or_else (sig_Severity sig) "info" +:+ ": " +:+ or_else (sig_Reason sig) "external alert" +:+
  " (" +:+ or_else (sig_Source sig) "alert" +:+ ")".

Definition dependencyLabel (sig : Signal) : string :=
  "Dependency " +:+ or_else (sig_Service sig) "downstream" +:+ ": " +:+ or_else (sig_Reason sig) "dependency signal".

Definition deployLabel (sig : Signal) : string :=
  let detail := or_else (or_else (stringField (sig_Metadata sig) "version") (sig_Reason sig)) "deploy event" in
  "Deploy " +:+ or_else (sig_Service sig) "service" +:+ ": " +:+ detail.

Definition deploymentLabel (dep : Deployment) : string :=
  "Deploy " +:+ or_else (dep_Service dep) "service" +:+ ": " +:+ or_else (dep_Version dep) "new revision".

Definition runtimeLabel (sig : Signal) : string :=
  let line := "Runtime " +:+ or_else (sig_Service sig) "service" +:+ ": " +:+ or_else (sig_Reason sig) "runtime event" in
  if negb (String.eqb (sig_Source sig) "") then line +:+ " (" +:+ sig_Source sig +:+ ")" else line.

Definition deploymentEvidence (dep : Deployment) : Evidence :=
  mkEvidence EvidenceDeployment (deploymentLabel dep) (dep_Version dep) (dep_Service dep) "" (dep_ID dep) ""
    (dep_FirstSeen dep) ∅.

Definition runtimeEvidence (sig : Signal) : Evidence :=
  mkEvidence EvidenceRuntime (runtimeLabel sig) (sig_Reason sig) (sig_Service sig) (sig_SignalID sig) "" ""
    (signal_time sig)
    (<["subtype" := VStr (stringField (sig_Metadata sig) "subtype")]>
     (<["source" := VStr (sig_Source sig)]> (<["severity" := VStr (sig_Severity sig)]> ∅))).

Definition signalEvidence (sig : Signal) (title : string) : Evidence :=
  let fields := <["type" := VStr (sig_Type sig)]> (<["severity" := VStr (sig_Severity sig)]>
                  (<["source" := VStr (sig_Source sig)]> ∅)) in
  let alertID := stringField (sig_Metadata sig) "alert_id" in
  let fields := if negb (String.eqb alertID "") then <["alert_id" := VStr alertID]> fields else fields in
  let providerURL := stringField (sig_Metadata sig) "provider_url" in
  let fields := if negb (String.eqb providerURL "") then <["provider_url" := VStr providerURL]> fields else fields in
  mkEvidence EvidenceSignal title (sig_Reason sig) (sig_Service sig) (sig_SignalID sig) "" "" (sig_Timestamp sig) fields.

Definition downstream_evidence (downstream : string) (onset : Time) : Evidence :=
  mkEvidence EvidenceTrace ("First failing step calls `" +:+ downstream +:+ "`") downstream downstream "" "" "" onset ∅.

(** ** Normalising the rows *)

Definition evidence_less (a b : Evidence) : bool :=
  if negb (TimeEqual (evd_OccurredAt a) (evd_OccurredAt b)) then Before (evd_OccurredAt a) (evd_OccurredAt b)
  else if negb (String.eqb (evd_Kind a) (evd_Kind b)) then String.ltb (evd_Kind a) (evd_Kind b)
  else String.ltb (evd_Title a) (evd_Title b).

Definition evidence_key (ev : Evidence) : string :=
  evd_Kind ev +:+ "|" +:+ evd_Title ev +:+ "|" +:+ evd_SignalID ev +:+ "|" +:+ evd_DeployID ev +:+ "|" +:+ evd_TraceID ev.

Fixpoint dedup_rows (seen : gset string) (rows : list Evidence) : list Evidence :=
  match rows with
  | [] => []
  | ev :: rows' =>
    if decide (evidence_key ev ∈ seen) then dedup_rows seen rows'
    else ev :: dedup_rows ({[evidence_key ev]} ∪ seen) rows'
  end.

(** Rows the cap never drops. *)
Definition keep_kind (ev : Evidence) : bool :=
  String.eqb (evd_Kind ev) EvidenceRuntime || String.eqb (evd_Kind ev) EvidenceDeployment.

Fixpoint fill_rows (budget : Z) (rows : list Evidence) : list Evidence :=
  match rows with
  | [] => []
  | ev :: rows' =>
    if keep_kind ev then ev :: fill_rows budget rows'
    else if 0 <? budget then ev :: fill_rows (budget - 1) rows'
    else fill_rows budget rows'
  end.

Definition normalizeEvidence (evidence : list Evidence) (limit : Z) : list Evidence :=
  let deduped := dedup_rows ∅ (ssort evidence_less evidence) in
  if (limit <=? 0) || (Z.of_nat (length deduped) <=? limit) then deduped
  else
    let budget := limit - Z.of_nat (length (List.filter keep_kind deduped)) in
    fill_rows budget deduped.

Definition unique_step (acc : gset string * list string) (s : string) : gset string * list string :=
  let '(seen, out) := acc in
  let s := TrimSpace s in
  if String.eqb s "" then (seen, out)
  else if decide (s ∈ seen) then (seen, out)
  else ({[s]} ∪ seen, out ++ [s]).

Definition uniqueStrings (l : list string) : list string :=
  ssort String.ltb (foldl unique_step (∅, []) l).2.

Definition instrumentationWarnings (events : list Event) (sigs : list Signal) : list string :=
  (if String.eqb (sampleVersion events) "" then ["missing_service_version"] else []) ++
  (if negb (String.eqb (firstFailingDownstream events) "") && negb (hasSignalType sigs TypeDependency)
   then ["missing_dependency_signal"] else []) ++
  (if existsb (fun ev => String.eqb (ev_Status ev) StatusPartial) events then ["partial_trace"] else []).

(** ** Classification *)

Definition classification (cause confidence : string) (evidence : list Evidence) (warnings : list string)
    (ctx : NextCheckContext) (suspectDeployID : string) : Classification :=
  mkClassification cause confidence (normalizeEvidence evidence 12) (NextChecks cause confidence ctx)
    (uniqueStrings warnings) suspectDeployID.

(** What the correlation of one input found. *)
Record Correlation := mkCorrelation {
  co_depSig : option Signal;
  co_downstream : string;
  co_deployment : option Deployment;
  co_deploySig : option Signal;
  co_alerts : list Signal;
  co_runtime : list Signal
}.

Definition correlate (input : ClassificationInput) : Correlation :=
  let deployment := matchingDeployment input in
  mkCorrelation (matchingDependencySignal input) (firstFailingDownstream (ci_Events input)) deployment
    (match deployment with Some _ => None | None => matchingSignal input TypeDeploy end)
    (matchingAlerts input) (matchingRuntimeSignals input).

(** The row of the failing dependency. *)
Definition dependency_rows (input : ClassificationInput) (co : Correlation) : list Evidence :=
  match co_depSig co with
  | Some sig => [signalEvidence sig (dependencyLabel sig)]
  | None => if negb (String.eqb (co_downstream co) "")
            then [downstream_evidence (co_downstream co) (inc_StartedAt (ci_Incident input))] else []
  end.

(** The evidence rows of an input, in the order they are collected. *)
Definition evidence_rows (input : ClassificationInput) (co : Correlation) : list Evidence :=
  collectTraceEvidence (ci_Events input) ++
  ((fun sig => signalEvidence sig (alertLabel sig)) <$> co_alerts co) ++
  (runtimeEvidence <$> co_runtime co) ++
  dependency_rows input co ++
  match co_deployment co, co_deploySig co with
  | Some dep, _ => [deploymentEvidence dep]
  | None, Some sig => [signalEvidence sig (deployLabel sig)]
  | None, None => []
  end.

(** When the deploy, if any, happened; zero when it is not known. *)
Definition deploy_at (co : Correlation) : Time :=
  match co_deployment co, co_deploySig co with
  | Some dep, _ => dep_FirstSeen dep
  | None, Some sig => sig_Timestamp sig
  | None, None => time_zero
  end.

Definition has_deploy (co : Correlation) : bool :=
  match co_deployment co, co_deploySig co with None, None => false | _, _ => true end.

(** The context of the next checks; the runtime fields are filled in for a runtime cause. *)
Definition check_context (input : ClassificationInput) (co : Correlation) (rt : option Signal) : NextCheckContext :=
  let inc := ci_Incident input in
  let warnings := instrumentationWarnings (ci_Events input) (ci_Signals input) in
  let top := pickTopAlert (co_alerts co) in
  let of_top (f : Signal -> string) := default "" (f <$> top) in
  let of_rt (f : Signal -> string) := default "" (f <$> rt) in
  let '(downstream, depID, depReason) :=
    match co_depSig co with
    | Some sig => (sig_Service sig, sig_SignalID sig, sig_Reason sig)
    | None => (co_downstream co, "", "")
    end in
  let '(version, deploySignalID) :=
    match co_deployment co, co_deploySig co with
    | Some dep, _ => (dep_Version dep, "")
    | None, Some sig => (stringField (sig_Metadata sig) "version", sig_SignalID sig)
    | None, None => ("", "")
    end in
  mkNextCheckContext (inc_Service inc) (ef_ErrorCode (inc_ErrorFamily inc)) (ef_Step (inc_ErrorFamily inc))
    (sampleTraceID input) downstream depID depReason version (deploy_at co) deploySignalID
    (of_rt sig_SignalID) (of_rt sig_Reason) (of_rt (fun sig => stringField (sig_Metadata sig) "subtype"))
    (of_top sig_SignalID) (of_top (fun sig => stringField (sig_Metadata sig) "alert_id")) (of_top sig_Source)
    (of_top (fun sig => stringField (sig_Metadata sig) "provider_url"))
    (containsString warnings "missing_service_version") (containsString warnings "missing_dependency_signal")
    (containsString warnings "partial_trace").

Definition Classify (input : ClassificationInput) : Classification :=
  let co := correlate input in
  let inc := ci_Incident input in
  let warnings := instrumentationWarnings (ci_Events input) (ci_Signals input) in
  let suspectDeployID := default "" (dep_ID <$> co_deployment co) in
  let hasDeploy := has_deploy co in
  let mk cause confidence rt :=
    classification cause confidence (evidence_rows input co) warnings (check_context input co rt) suspectDeployID in
  match co_depSig co with
  | Some depSig =>
    if hasDeploy && deployBeatsDependency (deploy_at co) (sig_Timestamp depSig) (inc_StartedAt inc)
    then mk CauseDeploy ConfidenceHigh None
    else mk CauseDependency ConfidenceHigh None
  | None =>
    if hasDeploy then mk CauseDeploy ConfidenceHigh None
    else if negb (String.eqb (co_downstream co) "") then mk CauseDependency ConfidenceMedium None
    else match co_runtime co with
         | top :: _ => mk CauseRuntime ConfidenceHigh (Some top)
         | [] => if negb (length (ci_Events input) =? 0)%nat
                    && negb (String.eqb (ef_Step (inc_ErrorFamily inc)) "")
                    && String.eqb (firstFailingDownstream (ci_Events input)) ""
                 then mk CauseApp ConfidenceMedium None
                 else mk CauseUnknown ConfidenceLow None
         end
  end.

(** ** Normalised evidence *)

#[export] Instance evidence_less_by : LessBy evidence_less (fun e => (evd_OccurredAt e, (evd_Kind e, evd_Title e))).
Proof.
  intros a b. unfold evidence_less, TimeEqual, Before. kred.
  destruct (Z.eqb_spec (evd_OccurredAt a) (evd_OccurredAt b)) as [->|], (String.eqb_spec (evd_Kind a) (evd_Kind b)) as [->|];
    cbn [negb]; solve_less.
Qed.

Lemma StronglySorted_sublist {A} (R : relation A) (l1 l2 : list A) :
  sublist l1 l2 -> StronglySorted R l2 -> StronglySorted R l1.
Proof.
  induction 1 as [|x l1 l2 Hs IH|x l1 l2 Hs IH]; intros H; [done| |]; apply StronglySorted_inv in H as [H Hall]; [|auto].
  constructor; [auto|]. rewrite Forall_forall in *. intros y Hy. apply Hall. by eapply elem_of_sublist.
Qed.

Lemma dedup_sublist seen rows : sublist (dedup_rows seen rows) rows.
Proof.
  revert seen. induction rows as [|ev rows IH]; intros seen; [done|]. simpl.
  case_decide; [apply sublist_cons|apply sublist_skip]; apply IH.
Qed.

Lemma dedup_fresh seen rows ev : ev ∈ dedup_rows seen rows -> evidence_key ev ∉ seen.
Proof.
  revert seen. induction rows as [|e rows IH]; intros seen; simpl; [by intros ?%elem_of_nil|].
  case_decide as Hd; [by apply IH|]. intros [->|H]%elem_of_cons; [done|]. apply IH in H. set_solver.
Qed.

Lemma dedup_NoDup seen rows : NoDup (evidence_key <$> dedup_rows seen rows).
Proof.
  revert seen. induction rows as [|e rows IH]; intros seen; simpl; [constructor|].
  case_decide; [apply IH|]. rewrite fmap_cons. constructor; [|apply IH].
  intros (ev & Hk & Hev)%list_elem_of_fmap. apply dedup_fresh in Hev. set_solver.
Qed.

Lemma dedup_cover seen rows ev :
  ev ∈ rows -> evidence_key ev ∈ seen \/ exists ev', ev' ∈ dedup_rows seen rows /\ evidence_key ev' = evidence_key ev.
Proof.
  revert seen. induction rows as [|e rows IH]; intros seen; [by intros ?%elem_of_nil|]. cbn [dedup_rows].
  intros [->|H]%elem_of_cons.
  - case_decide; [by left|]. right. exists e. split; [left|done].
  - case_decide; [by apply IH|]. destruct (IH ({[evidence_key e]} ∪ seen) H) as [Hk|(ev' & Hev & Hk)].
    + apply elem_of_union in Hk as [Hk%elem_of_singleton|Hk]; [|by left]. right. exists e. split; [left|done].
    + right. exists ev'. split; [by right|done].
Qed.

Lemma fill_sublist b rows : sublist (fill_rows b rows) rows.
Proof.
  revert b. induction rows as [|ev rows IH]; intros b; [done|]. simpl.
  repeat case_if; [apply sublist_skip|apply sublist_skip|apply sublist_cons]; apply IH.
Qed.

Lemma fill_keeps b rows ev : keep_kind ev = true -> ev ∈ rows -> ev ∈ fill_rows b rows.
Proof.
  intros Hk. revert b. induction rows as [|e rows IH]; intros b; [done|]. simpl.
  intros [->|H]%elem_of_cons; [rewrite Hk; left|]. repeat case_if; try right; by apply IH.
Qed.

Lemma fill_length b rows :
  Z.of_nat (length (fill_rows b rows)) <= Z.of_nat (length (List.filter keep_kind rows)) + Z.max 0 b.
Proof.
  revert b. induction rows as [|e rows IH]; intros b; simpl; [lia|].
  destruct (keep_kind e); [cbn [length]; specialize (IH b); lia|].
  destruct (Z.ltb_spec 0 b); [cbn [length]; specialize (IH (b - 1)); lia|apply IH].
Qed.

Lemma normalize_sublist evidence limit : sublist (normalizeEvidence evidence limit) (ssort evidence_less evidence).
Proof.
  unfold normalizeEvidence. cbv zeta. case_if; [apply dedup_sublist|].
  etrans; [apply fill_sublist|apply dedup_sublist].
Qed.

Lemma normalize_elem evidence limit ev : ev ∈ normalizeEvidence evidence limit -> ev ∈ evidence.
Proof. intros H. eapply elem_of_sublist in H; [|apply normalize_sublist]. by rewrite elem_of_ssort in H. Qed.

Fixpoint no_bar (s : string) : bool :=
  match s with EmptyString => true | String c s' => negb (Ascii.eqb c "|") && no_bar s' end.

(** The first bar ends the kind of a key. *)
Lemma bar_split a b x y : no_bar a = true -> no_bar b = true -> a +:+ "|" +:+ x = b +:+ "|" +:+ y -> a = b /\ x = y.
Proof.
  revert b. induction a as [|c a IH]; intros [|d b]; rewrite ?string_app_cons, ?string_app_nil_l; simpl;
    rewrite ?andb_true_iff, ?negb_true_iff.
  - intros _ _ H. by injection H as ->.
  - intros _ [Hd _] H. injection H as <- _. done.
  - intros [Hc _] _ H. injection H as -> _. done.
  - intros [_ Ha] [_ Hb] H. injection H as -> H. by destruct (IH b Ha Hb H) as [-> ->].
Qed.

Lemma no_bar_bar a s : no_bar (a +:+ String "|" s) = false.
Proof.
  induction a as [|c a IH]; [by rewrite string_app_nil_l|]. rewrite string_app_cons. simpl.
  by rewrite IH, andb_false_r.
Qed.

(** Two titles that may hold bars, closed by ids that do not. *)
Lemma bar_split_last a b s t : no_bar s = true -> no_bar t = true -> a +:+ "|" +:+ s = b +:+ "|" +:+ t -> a = b /\ s = t.
Proof.
  revert b. induction a as [|c a IH]; intros [|d b] Hs Ht; rewrite ?string_app_cons, ?string_app_nil_l.
  - intros H. by injection H as ->.
  - intros H. injection H as <- ->. by rewrite no_bar_bar in Hs.
  - intros H. injection H as -> <-. by rewrite no_bar_bar in Ht.
  - intros H. injection H as -> H. by destruct (IH b Hs Ht H) as [-> ->].
Qed.

Definition kinds_ok (rows : list Evidence) : Prop := forall e, e ∈ rows -> no_bar (evd_Kind e) = true.

Lemma key_kind a b : no_bar (evd_Kind a) = true -> no_bar (evd_Kind b) = true ->
  evidence_key a = evidence_key b -> evd_Kind a = evd_Kind b.
Proof. intros Ha Hb H. unfold evidence_key in H. by apply bar_split in H as [H _]. Qed.

(** A row the cap never drops is in the result, or a row of the same key is. *)
Lemma normalize_keep evidence limit ev :
  kinds_ok evidence -> keep_kind ev = true -> ev ∈ evidence ->
  exists ev', ev' ∈ normalizeEvidence evidence limit /\ evidence_key ev' = evidence_key ev /\ evd_Kind ev' = evd_Kind ev.
Proof.
  intros Hk Hkeep Hev. unfold normalizeEvidence. cbv zeta.
  destruct (dedup_cover ∅ (ssort evidence_less evidence) ev) as [H|(ev' & Hin & Hkey)]; [by rewrite elem_of_ssort|set_solver|].
  assert (Hkind : evd_Kind ev' = evd_Kind ev).
  { apply key_kind; [|by apply Hk|done]. apply Hk. eapply elem_of_sublist in Hin; [|apply dedup_sublist].
    by rewrite elem_of_ssort in Hin. }
  exists ev'. split; [|done]. case_if; [done|]. apply fill_keeps; [|done]. unfold keep_kind in *. by rewrite Hkind.
Qed.

Lemma lfilter_sublist_length {A} (p : A -> bool) (l1 l2 : list A) :
  sublist l1 l2 -> (length (List.filter p l1) <= length (List.filter p l2))%nat.
Proof. induction 1 as [|x l1 l2 Hs IH|x l1 l2 Hs IH]; simpl; [done| |]; destruct (p x); simpl; lia. Qed.

Lemma normalize_length evidence limit : 0 < limit ->
  Z.of_nat (length (normalizeEvidence evidence limit)) <= Z.max limit (Z.of_nat (length (List.filter keep_kind evidence))).
Proof.
  intros Hl.
  assert (Hlen : (length (List.filter keep_kind (dedup_rows ∅ (ssort evidence_less evidence))) <=
                  length (List.filter keep_kind evidence))%nat).
  { etrans; [apply lfilter_sublist_length, dedup_sublist|]. rewrite (lfilter_perm _ _ _ (ssort_perm _ _)). lia. }
  unfold normalizeEvidence. cbv zeta. case_if; [bool_prop; destruct (Z.leb_spec limit 0); [lia|]; simpl in E; lia|].
  etrans; [apply fill_length|]. lia.
Qed.

(** The evidence of an incident is in time order without repeats; the cap drops no
    runtime or deployment row, lets through at most [limit] rows besides what those need,
    and drops nothing at all when there are no more than [limit] rows. *)
Theorem normalizeEvidence_spec (evidence : list Evidence) (limit : Z) :
  kinds_ok evidence -> 0 < limit ->
  let out := normalizeEvidence evidence limit in
  NoDup (evidence_key <$> out) /\ StronglySorted (fun a b => evidence_less b a = false) out /\
  (forall ev, ev ∈ out -> ev ∈ evidence) /\
  Z.of_nat (length out) <= Z.max limit (Z.of_nat (length (List.filter keep_kind evidence))) /\
  forall ev, ev ∈ evidence -> keep_kind ev = true \/ Z.of_nat (length evidence) <= limit ->
    exists ev', ev' ∈ out /\ evidence_key ev' = evidence_key ev.
Proof.
  intros Hk Hl. cbv zeta.
  split_and!.
  - unfold normalizeEvidence. cbv zeta. case_if; [apply dedup_NoDup|].
    eapply sublist_NoDup; [apply (dedup_NoDup ∅)|apply fmap_sublist, fill_sublist].
  - eapply StronglySorted_sublist; [apply normalize_sublist|].
    apply (ssort_sorted evidence_less (fun e => (evd_OccurredAt e, (evd_Kind e, evd_Title e)))).
  - intros ev. apply normalize_elem.
  - by apply normalize_length.
  - intros ev Hev [Hkeep|Hsmall].
    + destruct (normalize_keep evidence limit ev Hk Hkeep Hev) as (ev' & ? & ? & ?). by exists ev'.
    + unfold normalizeEvidence. cbv zeta.
      destruct (dedup_cover ∅ (ssort evidence_less evidence) ev) as [H|H]; [by rewrite elem_of_ssort|set_solver|].
      case_if; [done|]. exfalso. pose proof (sublist_length _ _ (dedup_sublist ∅ (ssort evidence_less evidence))) as Hd.
      rewrite ssort_length in Hd. bool_prop. lia.
Qed.

(** ** What an incident is told *)

Lemma Classify_Evidence input :
  cl_Evidence (Classify input) = normalizeEvidence (evidence_rows input (correlate input)) 12.
Proof. unfold Classify. cbv zeta. by repeat case_match. Qed.

Lemma Classify_Suspect input : cl_SuspectDeployID (Classify input) = default "" (dep_ID <$> matchingDeployment input).
Proof.
  unfold Classify. cbv zeta. change (matchingDeployment input) with (co_deployment (correlate input)).
  destruct (correlate input) as [depSig down dep sig al rt]. simpl. destruct depSig, dep, sig; simpl; repeat case_if; try done;
    by destruct rt; repeat case_if.
Qed.

(** The rows of each origin, as one membership. *)
Lemma elem_of_evidence_rows input co e :
  e ∈ evidence_rows input co ->
  evd_Kind e = EvidenceTrace \/ evd_Kind e = EvidenceSignal \/
  (exists sig, sig ∈ co_runtime co /\ e = runtimeEvidence sig) \/
  (exists dep, co_deployment co = Some dep /\ e = deploymentEvidence dep).
Proof.
  unfold evidence_rows. rewrite !elem_of_app. intros [H|[H|[H|[H|H]]]].
  - left. unfold collectTraceEvidence in H. eapply elem_of_sublist in H; [|apply sublist_take].
    apply list_elem_of_omap in H as (ev & _ & H). destruct (ev_Anchor ev); simplify_eq/=. done.
  - right; left. apply list_elem_of_fmap in H as (sig & -> & _). done.
  - right; right; left. apply list_elem_of_fmap in H as (sig & -> & H). by exists sig.
  - unfold dependency_rows in H. destruct (co_depSig co) as [sig|]; [apply list_elem_of_singleton in H as ->; tauto|].
    case_match; [apply list_elem_of_singleton in H as ->; by left|by apply elem_of_nil in H].
  - destruct (co_deployment co) as [dep|]; [apply list_elem_of_singleton in H as ->; do 3 right; by exists dep|].
    destruct (co_deploySig co) as [sig|]; [apply list_elem_of_singleton in H as ->; tauto|by apply elem_of_nil in H].
Qed.

Lemma evidence_rows_kinds input co : kinds_ok (evidence_rows input co).
Proof. intros e He. apply elem_of_evidence_rows in He as [->|[->|[(s & _ & ->)|(d & _ & ->)]]]; done. Qed.

Lemma elem_of_matchingRuntime input sig :
  sig ∈ matchingRuntimeSignals input <->
  sig ∈ ci_Signals input /\
  correlates sig (ci_Incident input) (inc_StartedAt (ci_Incident input) - 15 * Minute) (runtime_until input).
Proof.
  unfold matchingRuntimeSignals. rewrite elem_of_ssort, elem_of_lfilter, matchRuntime_correlates.
  replace (TimeAdd _ (dur_neg runtime_lookback)) with (inc_StartedAt (ci_Incident input) - 15 * Minute);
    [tauto|reflexivity].
Qed.

Lemma keep_rows_length input co :
  (length (List.filter keep_kind (evidence_rows input co)) <= S (length (co_runtime co)))%nat.
Proof.
  unfold evidence_rows. rewrite !List.filter_app, !length_app.
  rewrite (lfilter_none _ (collectTraceEvidence _)), (lfilter_none _ (_ <$> co_alerts co)), (lfilter_none _ (dependency_rows input co)).
  - simpl. pose proof (List.filter_length_le keep_kind (runtimeEvidence <$> co_runtime co)) as H1.
    rewrite length_fmap in H1. destruct (co_deployment co); simpl; [lia|]. destruct (co_deploySig co); simpl; lia.
  - intros e H. unfold dependency_rows in H. destruct (co_depSig co); [by apply list_elem_of_singleton in H as ->|].
    case_match; [by apply list_elem_of_singleton in H as ->|by apply elem_of_nil in H].
  - intros e (sig & -> & _)%list_elem_of_fmap. done.
  - intros e H. unfold collectTraceEvidence in H. eapply elem_of_sublist in H; [|apply sublist_take].
    apply list_elem_of_omap in H as (ev & _ & H). by destruct (ev_Anchor ev); simplify_eq/=.
Qed.

Lemma runtime_key_inj a b : no_bar (sig_SignalID a) = true -> no_bar (sig_SignalID b) = true ->
  evidence_key (runtimeEvidence a) = evidence_key (runtimeEvidence b) ->
  runtimeLabel a = runtimeLabel b /\ sig_SignalID a = sig_SignalID b.
Proof.
  intros Ha Hb H. unfold evidence_key, runtimeEvidence in H. cbn [evd_Kind evd_Title evd_SignalID evd_DeployID evd_TraceID] in H.
  rewrite !string_app_nil_l in H. apply bar_split in H as [_ H]; [|done|done].
  change ("|" +:+ "|" +:+ "") with "||" in H.
  rewrite <- !(string_app_assoc "|" _ "||"), <- !(string_app_assoc _ _ "||") in H.
  apply string_app_inj_r in H. by apply bar_split_last.
Qed.

(** An incident's evidence shows every correlating runtime signal, by id and label, and
    the suspect deployment, whatever cause is chosen and however many rows compete for
    the cap of twelve. *)
Theorem Classify_evidence (input : ClassificationInput) :
  (forall sig, sig ∈ ci_Signals input -> no_bar (sig_SignalID sig) = true) ->
  let rows := cl_Evidence (Classify input) in
  (forall sig, sig ∈ ci_Signals input ->
     correlates sig (ci_Incident input) (inc_StartedAt (ci_Incident input) - 15 * Minute) (runtime_until input) ->
     exists e, e ∈ rows /\ evd_Kind e = EvidenceRuntime /\ evd_SignalID e = sig_SignalID sig /\ evd_Title e = runtimeLabel sig) /\
  (forall dep, matchingDeployment input = Some dep ->
     deploymentEvidence dep ∈ rows /\ cl_SuspectDeployID (Classify input) = dep_ID dep) /\
  Z.of_nat (length rows) <= Z.max 12 (1 + Z.of_nat (length (matchingRuntimeSignals input))).
Proof.
  intros Hids. cbv zeta. rewrite Classify_Evidence. set (rows := evidence_rows input (correlate input)).
  assert (Hk : kinds_ok rows) by apply evidence_rows_kinds.
  split_and!.
  - intros sig Hsig Hc.
    assert (Hrt : sig ∈ matchingRuntimeSignals input) by (by apply elem_of_matchingRuntime).
    assert (Hin : runtimeEvidence sig ∈ rows).
    { unfold rows, evidence_rows. rewrite !elem_of_app. right; right; left. by apply list_elem_of_fmap_2. }
    destruct (normalize_keep rows 12 (runtimeEvidence sig) Hk eq_refl Hin) as (e & He & Hkey & Hkind).
    exists e. split; [done|]. pose proof (normalize_elem _ _ _ He) as Hr.
    apply elem_of_evidence_rows in Hr as [Hr|[Hr|[(s & Hs & ->)|(d & _ & ->)]]]; try (rewrite Hr in Hkind; discriminate Hkind); [|discriminate Hkind].
    apply elem_of_matchingRuntime in Hs as [Hs _].
    apply runtime_key_inj in Hkey as [Hl Hi]; [|by apply Hids..]. done.
  - intros dep Hdep. rewrite Classify_Suspect, Hdep. split; [|done].
    assert (Hin : deploymentEvidence dep ∈ rows).
    { unfold rows, evidence_rows. rewrite !elem_of_app. do 4 right. simpl. rewrite Hdep. left. }
    destruct (normalize_keep rows 12 (deploymentEvidence dep) Hk eq_refl Hin) as (e & He & Hkey & Hkind).
    pose proof (normalize_elem _ _ _ He) as Hr.
    apply elem_of_evidence_rows in Hr as [Hr|[Hr|[(s & _ & ->)|(d & Hd & ->)]]]; try (rewrite Hr in Hkind; discriminate Hkind); [discriminate Hkind|].
    simpl in Hd. by simplify_eq.
  - etrans; [apply normalize_length; lia|]. pose proof (keep_rows_length input (correlate input)) as Hlen.
    simpl co_runtime in Hlen. unfold rows. lia.
Qed.

(** ** Which cause wins *)

(** Within 292 years of the onset, so that a difference of times is exact. *)
Definition near (onset t : Time) : Prop := Z.abs (onset - t) < 2 ^ 63 - 1.

Lemma absDuration_near onset t : near onset t -> absDuration (TimeSub onset t) = Z.abs (onset - t).
Proof.
  unfold near, absDuration, TimeSub, dur_neg, min_int64, max_int64. intros H.
  rewrite Z.min_r, Z.max_r by lia. destruct (Z.ltb_spec (onset - t) 0); [|lia].
  rewrite wrap64_id; [lia|]. unfold in_int64, min_int64, max_int64. lia.
Qed.

(** A zero time is as far from the onset as can be. *)
Lemma absDuration_zero onset : 2 ^ 63 <= onset -> absDuration (TimeSub onset time_zero) = 2 ^ 63 - 1.
Proof.
  intros H. unfold absDuration, TimeSub, time_zero, min_int64, max_int64. rewrite Z.min_l, Z.max_r by lia.
  destruct (Z.ltb_spec (2 ^ 63 - 1) 0); lia.
Qed.

(** The rule for a deploy at [d] against a dependency signal at [s]. *)
Definition deploy_wins (d s onset : Time) : Prop :=
  d <> time_zero /\
  (s = time_zero \/ (d <= onset /\ onset < s) \/
   ((d <= onset <-> s <= onset) /\ Z.abs (onset - d) < Z.abs (onset - s))).

Lemma deployBeats_spec d s onset :
  2 ^ 63 <= onset -> (d <> time_zero -> near onset d) -> (s <> time_zero -> near onset s) ->
  deployBeatsDependency d s onset = true <-> deploy_wins d s onset.
Proof.
  intros Ho Hd Hs. unfold deployBeatsDependency, deploy_wins, closerToOnset, IsZero, After. cbv zeta.
  change 0 with time_zero. destruct (Z.eqb_spec d time_zero) as [->|Hdz]; cbn [negb andb].
  - rewrite absDuration_zero by done. split; [|tauto]. intros H. apply Z.ltb_lt in H. exfalso.
    destruct (Z.eqb_spec s time_zero) as [->|Hsz]; [rewrite absDuration_zero in H by done; lia|].
    rewrite absDuration_near in H by auto. specialize (Hs Hsz). unfold near in Hs. lia.
  - rewrite (absDuration_near onset d) by auto. specialize (Hd Hdz). unfold near in Hd.
    destruct (Z.eqb_spec s time_zero) as [->|Hsz]; cbn [negb andb].
    + rewrite absDuration_zero by done. rewrite Z.ltb_lt. split; [tauto|lia].
    + rewrite (absDuration_near onset s) by auto.
      destruct (Z.ltb_spec onset d), (Z.ltb_spec onset s); cbn [negb Bool.eqb]; rewrite ?Z.ltb_lt;
        (split; [|lia]); intros; (split; [done|]); lia.
Qed.

(** C8: when a dependency signal and a deploy both correlate, the deploy is blamed exactly
    when it has a time and either the signal has none, or the deploy precedes the onset
    and the signal follows it, or both are on the same side and the deploy is strictly
    closer; otherwise the dependency is.  The cause is unknown only when no deploy, no
    dependency signal, no failing downstream and no runtime signal correlate. *)
Theorem Classify_cause (input : ClassificationInput) :
  let co := correlate input in
  let onset := inc_StartedAt (ci_Incident input) in
  2 ^ 63 <= onset -> (deploy_at co <> time_zero -> near onset (deploy_at co)) ->
  (forall sig, co_depSig co = Some sig -> sig_Timestamp sig <> time_zero -> near onset (sig_Timestamp sig)) ->
  (forall sig, co_depSig co = Some sig ->
     (cl_Cause (Classify input) = CauseDeploy <-> has_deploy co = true /\ deploy_wins (deploy_at co) (sig_Timestamp sig) onset) /\
     (cl_Cause (Classify input) = CauseDeploy \/ cl_Cause (Classify input) = CauseDependency) /\
     cl_Confidence (Classify input) = ConfidenceHigh) /\
  (co_depSig co = None -> has_deploy co = true -> cl_Cause (Classify input) = CauseDeploy) /\
  (cl_Cause (Classify input) = CauseUnknown ->
     co_depSig co = None /\ has_deploy co = false /\ co_downstream co = "" /\ co_runtime co = []).
Proof.
  cbv zeta. intros Ho Hd Hs. unfold Classify. cbv zeta. split_and!.
  - intros sig Hsig. rewrite Hsig. specialize (Hs sig Hsig).
    pose proof (deployBeats_spec _ _ _ Ho Hd Hs) as Hb. rewrite <- Hb.
    destruct (has_deploy (correlate input)), (deployBeatsDependency _ _ _); cbn [andb]; (split; [|by split; auto]);
      split; try done; try (by intros [? ?]); discriminate.
  - intros -> ->. done.
  - destruct (co_depSig (correlate input)) as [sig|]; [case_if; discriminate|].
    destruct (has_deploy (correlate input)); [discriminate|].
    destruct (String.eqb_spec (co_downstream (correlate input)) "") as [Hdn|]; cbn [negb]; [|discriminate].
    destruct (co_runtime (correlate input)); [|discriminate]. by rewrite Hdn.
Qed.

(** A deploy more than 292 years after the onset beats a dependency signal one second
    after it: the difference of times saturates at the least integer, whose absolute value
    the code takes to be itself. *)
Theorem deployBeatsDependency_far_future :
  let onset := unix_epoch in
  deployBeatsDependency (onset + 300 * 365 * 24 * Hour) (onset + Second) onset = true /\
  absDuration (TimeSub onset (onset + 300 * 365 * 24 * Hour)) < 0.
Proof. vm_compute. split; reflexivity. Qed.

(** ** Witnesses *)

Definition sample_deployment : Deployment :=
  mkDeployment "dep_1" "checkout" "v2" "prod" (unix_epoch + 35 * Second) 0 ∅ "" "" "".

Definition flood : list Signal :=
  (fun n => sample_signal ("s" +:+ pretty n) TypeRuntime "checkout" SeverityWarning (unix_epoch + n * Second) ∅) <$>
    [1; 2; 3; 4; 5; 6; 7; 8; 9; 10; 11; 12; 13; 14].

Definition flood_input : ClassificationInput :=
  mkClassificationInput open_incident [] flood [sample_deployment] (unix_epoch + 60 * Second).

(** Fourteen runtime signals and a deployment: all fifteen rows are shown. *)
Lemma Classify_evidence_witness :
  length (cl_Evidence (Classify flood_input)) = 15%nat /\
  deploymentEvidence sample_deployment ∈ cl_Evidence (Classify flood_input).
Proof.
  split; [vm_compute; reflexivity|].
  apply (fun H => proj1 (proj1 (proj2 (Classify_evidence flood_input H)) sample_deployment eq_refl)).
  assert (H : Forall (fun sig => no_bar (sig_SignalID sig) = true) (ci_Signals flood_input)) by by_decide.
  intros sig Hsig. by apply (proj1 (Forall_forall _ _) H).
Defined.

Definition row_at (kind title : string) (t : Time) : Evidence := mkEvidence kind title "" "" "" "" "" t ∅.

Lemma normalizeEvidence_spec_witness :
  let rows := [row_at EvidenceSignal "b" 2; row_at EvidenceRuntime "a" 3; row_at EvidenceSignal "b" 2; row_at EvidenceSignal "c" 1] in
  evd_Title <$> normalizeEvidence rows 2 = ["c"; "a"] /\
  NoDup (evidence_key <$> normalizeEvidence rows 2).
Proof.
  split; [vm_compute; reflexivity|]. apply normalizeEvidence_spec; [|lia].
  set (rows := [_; _; _; _]).
  assert (H : Forall (fun e => no_bar (evd_Kind e) = true) rows) by by_decide.
  intros e He. by apply (proj1 (Forall_forall _ _) H).
Defined.

Definition calling_event : Event :=
  sample_event "e1" "t1" "checkout" StatusError (unix_epoch + 30 * Second) (unix_epoch + 31 * Second) ""
    (Some (mkAnchor "pay" "TIMEOUT" "")) [mkStep "pay" "s2" 0 10 StepStatusError (Some (mkDownstream "bank" "" "")) None].

Definition rivals_input : ClassificationInput :=
  mkClassificationInput open_incident [calling_event]
    [sample_signal "d1" TypeDependency "bank" SeverityWarning (unix_epoch + 20 * Second) ∅] [sample_deployment]
    (unix_epoch + 60 * Second).

(** The dependency failed ten seconds before the onset, the deploy came five seconds after
    it: the dependency is blamed though the deploy is closer. *)
Lemma Classify_cause_witness :
  cl_Cause (Classify rivals_input) = CauseDependency /\
  ~ (has_deploy (correlate rivals_input) = true /\
     deploy_wins (deploy_at (correlate rivals_input)) (unix_epoch + 20 * Second) (inc_StartedAt (ci_Incident rivals_input))).
Proof.
  split; [vm_compute; reflexivity|]. intros H.
  assert (Hc : cl_Cause (Classify rivals_input) = CauseDeploy).
  { assert (H1 : 2 ^ 63 <= inc_StartedAt (ci_Incident rivals_input)) by (vm_compute; discriminate).
    assert (H2 : near (inc_StartedAt (ci_Incident rivals_input)) (deploy_at (correlate rivals_input))) by (vm_compute; reflexivity).
    assert (H3 : forall sig, co_depSig (correlate rivals_input) = Some sig -> sig_Timestamp sig <> time_zero ->
                   near (inc_StartedAt (ci_Incident rivals_input)) (sig_Timestamp sig)).
    { intros sig Hsig _. vm_compute in Hsig. injection Hsig as <-. vm_compute. reflexivity. }
    destruct (Classify_cause rivals_input H1 (fun _ => H2) H3) as [Hc _].
    apply (proj1 (Hc _ ltac:(vm_compute; reflexivity))). exact H. }
  vm_compute in Hc. discriminate Hc.
Defined.
