(* ===== verification/Detect.v ===== *)
(** What the incident engine measures ([internal/incidents/interfaces.go] and the helpers of
    [engine.go]): the read interface it needs and the adapter that gives it the hot index
    ([cmd/ingest/main.go]), its configuration, medians, lift, severity and samples. *)

From S2P Require Import Prelude GoRuntime GoFloat Types Family Index TraceGraph Reader Derived Incident Capture.
Open Scope Z_scope.

(** ** The interface the engine reads through *)

(** The engine's own filter, narrower than the reader's. *)
Record Filter := mkFilter {
  fl_Service : string;
  fl_Statuses : gset string;
  fl_ErrorCode : string;
  fl_Since : Time;
  fl_Until : Time
}.

(** A read that panics is [None]; the capture paths recover from it, the others do not and
    are not meant to panic. *)
Class IncidentReader (R : Type) := {
  read_Errors : R -> Filter -> Z -> list ErrorRow;
  read_BlastRadius : R -> Filter -> BlastKey -> option BlastRadiusResponse;
  read_SearchEvents : R -> Filter -> Z -> list Event;
  read_TraceStory : R -> string -> option (option StoryResponse);
  read_TraceEvents : R -> string -> option (option (list Event));
  read_ServiceStats : R -> Filter -> Z -> Z -> list ServiceStatsRow
}.

Definition toV2SearchFilter (f : Filter) : SearchFilter :=
  mkSearchFilter (fl_Service f) (fl_Statuses f) (fl_ErrorCode f) "" (fl_Since f) (fl_Until f) false.

(** The hot index behind the interface. *)
Record incidentReaderAdapter := mkReaderAdapter { ra_iter : MapIter; ra_reader : Reader }.

#[export] Instance adapter_reader : IncidentReader incidentReaderAdapter := {|
  read_Errors a f limit := xr_Rows (Errors (ra_iter a) (ra_reader a) (toV2SearchFilter f) None limit);
  read_BlastRadius a f key :=
    Some (BlastRadius (ra_iter a) (ra_reader a) (toV2SearchFilter f) (mkBlastKeyMode key false));
  read_SearchEvents a f limit := es_Events (SearchEvents (ra_iter a) (ra_reader a) (toV2SearchFilter f) None limit);
  read_TraceStory a id := Some (TraceStoryByTraceID (ra_iter a) (ra_reader a) id);
  read_TraceEvents a id := Some (tg_Events <$> GetTrace (ra_iter a) (ra_reader a) id);
  read_ServiceStats a f percentile limit :=
    (fun r => mkServiceStatsRow (sv_Service r) (sv_Count r) (sv_LatencyMS r)) <$>
      ServiceStats (ra_iter a) (ra_reader a) (toV2SearchFilter f) percentile limit
|}.

(** Signals and deployments come from stores that may refuse. *)
Inductive QueryError := ErrUnavailable | ErrQuery.

Class SignalStore (S : Type) := { query_signals : S -> string -> Time -> Time -> Z -> list Signal + QueryError }.
Class DeploySource (D : Type) := { deployments_in_window : D -> Time -> Time -> string -> option (list Deployment) }.

(** ** Configuration *)

Record TrafficAnomalyConfig := mkTrafficAnomalyConfig {
  ta_Enabled : bool; ta_DropFactor : float64; ta_SurgeFactor : float64; ta_MinVolume : Z; ta_SustainedTicks : Z }.

Record LatencyAnomalyConfig := mkLatencyAnomalyConfig {
  la_Enabled : bool; la_Percentile : Z; la_Factor : float64; la_MinRequests : Z; la_MinMS : Z; la_SustainedTicks : Z }.

Record Config := mkConfig {
  cfg_TickInterval : Duration;
  cfg_Window : Duration;
  cfg_MinCount : Z;
  cfg_MinLift : float64;
  cfg_MinRate : float64;
  cfg_ResolveAfter : Duration;
  cfg_DeployCorrelationWindow : Duration;
  cfg_SampleLimit : Z;
  cfg_TrafficAnomaly : TrafficAnomalyConfig;
  cfg_LatencyAnomaly : LatencyAnomalyConfig
}.

Definition no_traffic : TrafficAnomalyConfig := mkTrafficAnomalyConfig false (of_int 0) (of_int 0) 0 0.
Definition no_latency : LatencyAnomalyConfig := mkLatencyAnomalyConfig false 0 (of_int 0) 0 0 0.

Definition DefaultConfig : Config :=
  mkConfig (30 * Second) (10 * Minute) 5 (of_int 3) (of_int 0) (2 * Minute) (15 * Minute) 5 no_traffic no_latency.

Definition withDefaults (c : Config) : Config :=
  let d := DefaultConfig in
  let or_default (v dv : Z) := if v <=? 0 then dv else v in
  mkConfig (or_default (cfg_TickInterval c) (cfg_TickInterval d)) (or_default (cfg_Window c) (cfg_Window d))
    (or_default (cfg_MinCount c) (cfg_MinCount d))
    (if fleb (cfg_MinLift c) (of_int 0) then cfg_MinLift d else cfg_MinLift c) (cfg_MinRate c)
    (or_default (cfg_ResolveAfter c) (cfg_ResolveAfter d))
    (or_default (cfg_DeployCorrelationWindow c) (cfg_DeployCorrelationWindow d))
    (or_default (cfg_SampleLimit c) (cfg_SampleLimit d)) (cfg_TrafficAnomaly c) (cfg_LatencyAnomaly c).

Definition failedStatuses : gset string := {[StatusError; StatusTimeout; StatusPartial; StatusAborted]}.

(** ** Measures *)

Definition computeLift (current baseline : Z) : float64 :=
  if baseline <=? 0 then of_int current else fdiv (of_int current) (of_int baseline).

(** The counts of the three prior windows, newest first; a window that was not read is 0. *)
Definition median3 (c : Z * Z * Z) : Z :=
  let '(a, b, d) := c in List.nth 1 (ssort Z.ltb [a; b; d]) 0.

Definition set3 (c : Z * Z * Z) (i : nat) (v : Z) : Z * Z * Z :=
  let '(a, b, d) := c in
  match i with O => (v, b, d) | S O => (a, v, d) | _ => (a, b, v) end.

(** The lower middle of a non-empty slice. *)
Definition medianInts (vs : list Z) : Z := List.nth (Nat.div (length vs - 1) 2) (ssort Z.ltb vs) 0.

Definition severity (count services : Z) (lift : float64) : Z :=
  let score := wrap64 (1 + Z.quot count 5 + services) in
  let score := if fleb (of_int 10) lift then wrap64 (score + 3)
               else if fleb (of_int 3) lift then wrap64 (score + 2)
               else score in
  to_int (fmin (of_int 10) (of_int score)).

Definition zero_byte : string := String (ascii_of_nat 0) "".

Definition familyKey (f : ErrorFamily) : string :=
  ef_Service f +:+ zero_byte +:+ ef_Step f +:+ zero_byte +:+ ef_ErrorCode f.

Definition earliestEventTime (events : list Event) (fallback : Time) : Time :=
  foldl (fun out ev => if IsZero out || Before (ev_TsStart ev) out then ev_TsStart ev else out) fallback events.

Definition firstEventEnv (events : list Event) : string :=
  default "unknown" (head (List.filter (fun e => negb (String.eqb e "")) (ev_Env <$> events))).

Definition filterEventsByTrace (events : list Event) (traceID : string) : list Event :=
  List.filter (fun ev => String.eqb (ev_TraceID ev) traceID) events.

Definition trafficLift (current baseline : Z) (surge : bool) : float64 :=
  if surge then fdiv (of_int current) (fmax (of_int baseline) (of_int 1))
  else fdiv (of_int baseline) (fmax (of_int current) (of_int 1)).

Definition Minutes (d : Duration) : float64 :=
  fadd (of_int (Z.quot d Minute)) (fdiv (of_int (Z.rem d Minute)) (of_int (60 * Second))).

(** ** Samples *)

Definition ascending_less (a b : Event) : bool :=
  if negb (TimeEqual (ev_TsStart a) (ev_TsStart b)) then Before (ev_TsStart a) (ev_TsStart b)
  else String.ltb (ev_TraceID a) (ev_TraceID b).

Definition recent_less (a b : Event) : bool :=
  if negb (TimeEqual (ev_TsStart a) (ev_TsStart b)) then After (ev_TsStart a) (ev_TsStart b)
  else String.ltb (ev_TraceID a) (ev_TraceID b).

(** The loop over recent events: it stops as soon as the list reaches the limit. *)
Fixpoint add_recent (limit : Z) (seen : gset string) (out : list string) (events : list Event) : list string :=
  match events with
  | [] => out
  | ev :: events' =>
    if String.eqb (ev_TraceID ev) "" then add_recent limit seen out events'
    else if decide (ev_TraceID ev ∈ seen) then add_recent limit seen out events'
    else
      let out := out ++ [ev_TraceID ev] in
      if Z.of_nat (length out) =? limit then out
      else add_recent limit ({[ev_TraceID ev]} ∪ seen) out events'
  end.

Definition first_sample (events : list Event) : list string :=
  take 1 (List.filter (fun t => negb (String.eqb t "")) (ev_TraceID <$> ssort ascending_less events)).

Definition stableSamples (existing : list string) (events : list Event) (limit : Z) : list string :=
  if limit <=? 0 then []
  else
    let out := if (length existing =? 0)%nat then first_sample events else existing in
    let out := add_recent limit (list_to_set out) out (ssort recent_less events) in
    if limit <? Z.of_nat (length out) then take (Z.to_nat limit) out else out.

(** ** The measures are what they should be *)

(** The severity of an incident is its score, a point for each five failures and each
    affected service plus a bonus for a large lift, capped at ten; it lies from 1 to 10. *)
Theorem severity_range (count services : Z) (lift : float64) :
  0 <= count < 2 ^ 50 -> 0 <= services < 2 ^ 50 ->
  severity count services lift =
    Z.min 10 (1 + count / 5 + services + (if fleb (of_int 10) lift then 3 else if fleb (of_int 3) lift then 2 else 0)) /\
  1 <= severity count services lift <= 10.
Proof.
  intros Hc Hs. unfold severity. cbv zeta. rewrite Z.quot_div_nonneg by lia.
  assert (Hq : 0 <= count / 5 <= count) by (split; [apply Z.div_pos; lia|apply Z.div_le_upper_bound; lia]).
  rewrite (wrap64_id (1 + count / 5 + services)) by (unfold in_int64, min_int64, max_int64; lia).
  rewrite !wrap64_id by (unfold in_int64, min_int64, max_int64; lia).
  destruct (fleb (of_int 10) lift), (fleb (of_int 3) lift);
    rewrite fmin_of_int, to_int_of_int by lia; lia.
Qed.

Lemma severity_range_witness :
  severity 12 3 (of_int 4) = 8 /\ 1 <= severity 12 3 (of_int 4) <= 10.
Proof. split; [vm_compute; reflexivity|]. apply (severity_range 12 3 (of_int 4)); lia. Defined.

(** The baseline of three windows does not depend on their order, and one anomalous
    window cannot move it past the other two: it lies between any two of the counts. *)
Theorem median3_robust (a b c : Z) :
  (median3 (a, b, c) = median3 (b, a, c) /\ median3 (a, b, c) = median3 (a, c, b)) /\
  (Z.min a b <= median3 (a, b, c) <= Z.max a b) /\
  (Z.min a c <= median3 (a, b, c) <= Z.max a c) /\
  (Z.min b c <= median3 (a, b, c) <= Z.max b c).
Proof.
  unfold median3. cbn [ssort foldr sinsert].
  repeat (match goal with |- context [Z.ltb ?x ?y] => destruct (Z.ltb_spec x y) end; cbn [sinsert List.nth]); lia.
Qed.

(** ** Samples *)

#[export] Instance ascending_less_by : LessBy ascending_less (fun e => (ev_TsStart e, ev_TraceID e)).
Proof. intros a b. unfold ascending_less, TimeEqual, Before. kred. solve_less. Qed.

Section AddRecent.
Context (limit : Z).

Lemma add_recent_prefix seen out evs : exists more, add_recent limit seen out evs = out ++ more /\
  forall t, t ∈ more -> t <> "" /\ t ∈ ev_TraceID <$> evs.
Proof.
  revert seen out. induction evs as [|ev evs IH]; intros seen out; [exists []; rewrite app_nil_r; set_solver|].
  cbn [add_recent]. destruct (String.eqb_spec (ev_TraceID ev) "") as [|Hne].
  { destruct (IH seen out) as (more & -> & Hm). exists more. split; [done|]. intros t Ht. destruct (Hm t Ht). set_solver. }
  case_decide.
  { destruct (IH seen out) as (more & -> & Hm). exists more. split; [done|]. intros t Ht. destruct (Hm t Ht). set_solver. }
  cbv zeta. case_if.
  { exists [ev_TraceID ev]. split; [done|]. intros t ->%list_elem_of_singleton. split; [done|]. rewrite fmap_cons. left. }
  destruct (IH ({[ev_TraceID ev]} ∪ seen) (out ++ [ev_TraceID ev])) as (more & -> & Hm).
  exists (ev_TraceID ev :: more). split; [by rewrite <- app_assoc|].
  intros t [->|Ht]%elem_of_cons; [split; [done|]; rewrite fmap_cons; left|]. destruct (Hm t Ht). set_solver.
Qed.

Lemma add_recent_NoDup seen out evs :
  (forall t, t ∈ out -> t ∈ seen) -> NoDup out -> NoDup (add_recent limit seen out evs).
Proof.
  revert seen out. induction evs as [|ev evs IH]; intros seen out Hsub Hnd; [done|]. cbn [add_recent].
  case_if; [by apply IH|]. case_decide as Hd; [by apply IH|]. cbv zeta.
  assert (Hnd' : NoDup (out ++ [ev_TraceID ev])).
  { apply NoDup_app. split_and!; [done| |apply NoDup_singleton].
    intros t Ht ->%list_elem_of_singleton. by apply Hd, Hsub. }
  case_if; [done|]. apply IH; [|done]. intros t [Ht|Ht%list_elem_of_singleton]%elem_of_app; set_solver.
Qed.

Lemma add_recent_full seen out evs t :
  (forall u, u ∈ seen -> u ∈ out) -> Z.of_nat (length (add_recent limit seen out evs)) <> limit ->
  t <> "" -> t ∈ ev_TraceID <$> evs -> t ∈ add_recent limit seen out evs.
Proof.
  intros Hseen Hlen Hne. revert seen out Hseen Hlen.
  induction evs as [|ev evs IH]; intros seen out Hseen Hlen; [by intros ?%elem_of_nil|].
  rewrite fmap_cons. cbn [add_recent] in *. intros [->|Ht]%elem_of_cons.
  - destruct (String.eqb_spec (ev_TraceID ev) "") as [|_]; [done|]. case_decide as Hd.
    + destruct (add_recent_prefix seen out evs) as (more & -> & _). set_solver.
    + cbv zeta. case_if; [set_solver|].
      destruct (add_recent_prefix ({[ev_TraceID ev]} ∪ seen) (out ++ [ev_TraceID ev]) evs) as (more & -> & _). set_solver.
  - case_if; [by apply IH|]. case_decide; [by apply IH|]. cbv zeta in *. case_if; [bool_prop; done|].
    apply IH; set_solver.
Qed.
End AddRecent.

(** The sample traces of an incident stay put: those it already has come first, in
    order, up to the limit; new ones are traces of the current events, none twice; room
    that is left over means that every trace of the events is there; and an incident
    without samples starts with the trace of an earliest event. *)
Theorem stableSamples_spec (existing : list string) (events : list Event) (limit : Z) :
  0 < limit -> NoDup existing ->
  let out := stableSamples existing events limit in
  let ids := ev_TraceID <$> events in
  Z.of_nat (length out) <= limit /\ NoDup out /\ take (Z.to_nat limit) existing `prefix_of` out /\
  (forall t, t ∈ out -> t ∈ existing \/ (t <> "" /\ t ∈ ids)) /\
  (Z.of_nat (length out) < limit -> forall t, t ∈ ids -> t <> "" -> t ∈ out) /\
  (existing = [] -> head out = head (first_sample events)).
Proof.
  intros Hl Hnd. cbv zeta. unfold stableSamples. destruct (Z.leb_spec limit 0) as [|_]; [lia|]. cbv zeta.
  set (start := if (length existing =? 0)%nat then first_sample events else existing).
  assert (Hfirst : forall t, t ∈ first_sample events -> t <> "" /\ t ∈ ev_TraceID <$> events).
  { intros t Ht. eapply elem_of_sublist in Ht; [|apply sublist_take]. apply elem_of_lfilter in Ht as [Ht Hne].
    split; [intros ->; done|]. by rewrite ssort_perm in Ht. }
  assert (Hstart : NoDup start /\ (existing <> [] -> start = existing) /\ (existing = [] -> start = first_sample events)).
  { unfold start. destruct existing as [|x l]; simpl; [|by split_and!]. split_and!; try done.
    unfold first_sample. destruct (List.filter _ _) as [|t ts]; simpl; [constructor|]. rewrite take_0. apply NoDup_singleton. }
  destruct Hstart as (Hnds & Hne & He).
  destruct (add_recent_prefix limit (list_to_set start) start (ssort recent_less events)) as (more & Hout & Hmore).
  assert (Hndo : NoDup (start ++ more)) by (rewrite <- Hout; apply add_recent_NoDup; set_solver).
  assert (Hfull : Z.of_nat (length (start ++ more)) <> limit -> forall t, t ∈ ev_TraceID <$> events -> t <> "" -> t ∈ start ++ more).
  { intros Hn t Ht Hte. rewrite <- Hout in *. apply add_recent_full; [set_solver|done|done|by rewrite ssort_perm]. }
  rewrite Hout. clearbody start. clear Hout.
  assert (Hcut : forall o, o = (if limit <? Z.of_nat (length (start ++ more)) then take (Z.to_nat limit) (start ++ more) else start ++ more) ->
    o = take (Z.to_nat limit) (start ++ more)).
  { intros o ->. destruct (Z.ltb_spec limit (Z.of_nat (length (start ++ more)))); [done|]. rewrite take_ge; [done|lia]. }
  rewrite (Hcut _ eq_refl). split_and!.
  - rewrite length_take. lia.
  - eapply sublist_NoDup; [exact Hndo|apply sublist_take].
  - destruct (decide (existing = [])) as [->|Hx]; [rewrite take_nil; apply prefix_nil|].
    rewrite (Hne Hx), take_app. apply prefix_app_r. done.
  - intros t Ht. eapply elem_of_sublist in Ht; [|apply sublist_take]. apply elem_of_app in Ht as [Ht|Ht].
    + destruct (decide (existing = [])) as [Hx|Hx]; [right; apply Hfirst; by rewrite <- He|left; by rewrite <- Hne].
    + right. destruct (Hmore t Ht) as [? Hi]. by rewrite ssort_perm in Hi.
  - intros Hlt t Ht Hte. rewrite length_take in Hlt. rewrite take_ge by lia. apply Hfull; [lia|done|done].
  - intros ->. rewrite He by done. assert (Hz : exists n, Z.to_nat limit = S n) by (exists (Z.to_nat limit - 1)%nat; lia).
    destruct Hz as [n ->]. destruct (first_sample events) as [|t ts] eqn:Ef; [|done]. simpl.
    destruct more as [|t more]; [done|]. exfalso. destruct (Hmore t ltac:(left)) as [Hte Ht].
    rewrite ssort_perm in Ht. unfold first_sample in Ef.
    assert (Hin : t ∈ List.filter (fun t => negb (String.eqb t "")) (ev_TraceID <$> ssort ascending_less events)).
    { apply elem_of_lfilter. rewrite ssort_perm. split; [done|]. by destruct (String.eqb_spec t ""). }
    destruct (List.filter _ _); [by apply elem_of_nil in Hin|done].
Qed.

Lemma stableSamples_spec_witness :
  let evs := [sample_event "e1" "t1" "a" StatusError 10 20 "" None []; sample_event "e2" "t2" "a" StatusError 30 40 "" None []] in
  stableSamples ["t9"] evs 2 = ["t9"; "t2"] /\ NoDup (stableSamples ["t9"] evs 2).
Proof.
  split; [vm_compute; reflexivity|].
  refine (proj1 (proj2 (stableSamples_spec ["t9"] _ 2 _ _))); [lia|apply NoDup_singleton].
Defined.
