(* ===== verification/Engine.v ===== *)
(** The incident engine ([internal/incidents/engine.go] and [rebuild.go]): one cycle derives
    incident rows from the reader, the signals and the deployments, and applies them to
    the store and the in-memory cache.  The reader, the stores and the sources are the
    interfaces of [Detect] and [Incident].  Mutexes guard the cache and ticks are serial,
    so a cycle is one step; metrics, which the engine never reads back, are left out. *)

From S2P Require Import Prelude GoRuntime GoFloat Types Family Index Reader Incident Capture NextChecks Classifier Detect.
Open Scope Z_scope.

(** ** Data *)

Inductive EngineError := ErrSignals | ErrDeploys | ErrStore.

(** What the notifier is told. *)
Inductive Notice := Opened (inc : Incident) | Resolved (inc : Incident).

Record derivedRow := mkDerivedRow { dr_Incident : Incident; dr_Existed : bool }.

Record Engine (R Sg D S : Type) := mkEngine {
  e_reader : R;
  e_signals : option Sg;
  e_deploys : option D;
  e_store : S;
  e_cfg : Config;
  e_notifier : bool;
  e_active : gmap string Incident;
  e_pendingTraffic : gmap string Z
}.
Arguments mkEngine {R Sg D S}.
Arguments e_reader {R Sg D S}.
Arguments e_signals {R Sg D S}.
Arguments e_deploys {R Sg D S}.
Arguments e_store {R Sg D S}.
Arguments e_cfg {R Sg D S}.
Arguments e_notifier {R Sg D S}.
Arguments e_active {R Sg D S}.
Arguments e_pendingTraffic {R Sg D S}.

Definition NewEngine {R Sg D S} (reader : R) (signals : option Sg) (deploys : option D) (store : S) (cfg : Config)
    : Engine R Sg D S :=
  mkEngine reader signals deploys store (withDefaults cfg) false ∅ ∅.

Definition set_active {R Sg D S} (e : Engine R Sg D S) (active : gmap string Incident) : Engine R Sg D S :=
  mkEngine (e_reader e) (e_signals e) (e_deploys e) (e_store e) (e_cfg e) (e_notifier e) active (e_pendingTraffic e).

Definition set_store {R Sg D S} (e : Engine R Sg D S) (store : S) : Engine R Sg D S :=
  mkEngine (e_reader e) (e_signals e) (e_deploys e) store (e_cfg e) (e_notifier e) (e_active e) (e_pendingTraffic e).

Definition set_pending {R Sg D S} (e : Engine R Sg D S) (pending : gmap string Z) : Engine R Sg D S :=
  mkEngine (e_reader e) (e_signals e) (e_deploys e) (e_store e) (e_cfg e) (e_notifier e) (e_active e) pending.

(** ** The seed *)

Definition same_family (env : string) (family : ErrorFamily) (inc : Incident) : bool :=
  String.eqb (inc_Env inc) env && bool_decide (inc_ErrorFamily inc = family) && open_row inc.

Definition findByFamilyIn (it : MapIter) (site : nat) (seed : gmap string Incident) (env : string)
    (family : ErrorFamily) : option Incident :=
  cloneIncident <$> head (List.filter (same_family env family) (mrange it site seed).*2).

Definition getCachedIn (seed : gmap string Incident) (id : string) : option Incident := cloneIncident <$> (seed !! id).

(** The start and identity of the incident a family opens or continues: the id it is
    stored under, and the row it continues, if any. *)
Definition resolve_identity (it : MapIter) (seed : gmap string Incident) (env : string) (family : ErrorFamily)
    (startedAt : Time) : Time * string * option Incident :=
  let startedAt := match findByFamilyIn it 20 seed env family with
                   | Some existing => inc_StartedAt existing
                   | None => startedAt
                   end in
  let id := StableID env family startedAt in
  match getCachedIn seed id with
  | Some existing => (startedAt, id, Some existing)
  | None => match findByFamilyIn it 21 seed env family with
            | Some prior => (startedAt, inc_IncidentID prior, Some prior)
            | None => (startedAt, id, None)
            end
  end.

Definition trafficDrop : string := "drop".
Definition trafficSurge : string := "surge".
Definition trafficStep : string := "<traffic>".
Definition errorCodeTrafficDrop : string := "TRAFFIC_DROP".
Definition errorCodeTrafficSurge : string := "TRAFFIC_SURGE".
Definition latencyStep : string := "<latency>".
Definition errorCodeLatencySpike : string := "LATENCY_SPIKE".
Definition serviceStatsReadLimit : Z := 500.

Definition trafficEvidence (service dir : string) (current baseline : Z) (now : Time) : Evidence :=
  let verb := if String.eqb dir trafficSurge then "surged" else "dropped" in
  mkEvidence EvidenceTraffic ("Request volume " +:+ verb) service service "" "" "" now
    (<["direction" := VStr dir]> (<["current" := VInt current]> (<["baseline" := VInt baseline]> ∅))).

Definition latencyEvidence (service : string) (percentile currentMS baselineMS : Z) (now : Time) : Evidence :=
  mkEvidence EvidenceLatency "Tail latency spiked" service service "" "" "" now
    (<["percentile" := VInt percentile]> (<["current_ms" := VInt currentMS]> (<["baseline_ms" := VInt baselineMS]> ∅))).

(** The last assignments of both builders: the class of the incident, then the suspect
    deploy, carried forward and refreshed when this cycle matched one. *)
Definition apply_class (inc existing : Incident) (class : Classification) (lead : list Evidence) : Incident :=
  with_classification inc (cl_Cause class) (cl_Confidence class) (lead ++ cl_Evidence class) (cl_NextChecks class)
    (cl_InstrumentationWarnings class)
    (if negb (String.eqb (cl_SuspectDeployID class) "") then cl_SuspectDeployID class else inc_SuspectDeployID existing).

(** ** Deriving *)

Section Derive.
Context {R Sg D : Type} `{!IncidentReader R, !SignalStore Sg, !DeploySource D}.
Context (it : MapIter) (cfg : Config) (signals : option Sg) (deploys : option D).

Definition querySignals (env : string) (since until : Time) : list Signal + EngineError :=
  match signals with
  | None => inl []
  | Some s => match query_signals s env since until 200 with
              | inl sigs => inl sigs
              | inr ErrUnavailable => inl []
              | inr ErrQuery => inr ErrSignals
              end
  end.

Definition queryDeploys (service : string) (since until : Time) : list Deployment + EngineError :=
  match deploys with
  | None => inl []
  | Some d => match deployments_in_window d since until service with Some l => inl l | None => inr ErrDeploys end
  end.

Definition sampleEventsFromReader (reader : R) (f : ErrorFamily) (since until : Time) (limit : Z) : list Event :=
  List.filter (fun ev => match ev_Anchor ev with Some a => String.eqb (an_Step a) (ef_Step f) | None => false end)
    (read_SearchEvents reader (mkFilter (ef_Service f) failedStatuses (ef_ErrorCode f) since until) limit).

(** [blast.SampleTraces[0]], its story and the first failure seen in it. *)
Definition capture_propagation (reader : R) (events : list Event) (family : ErrorFamily)
    (blast : BlastRadiusResponse) (now : Time) : PropagationEvidence :=
  match br_SampleTraces blast with
  | [] => newPropagationEvidence None "" None now
  | sampleTraceID :: _ =>
    let story := match read_TraceStory reader sampleTraceID with Some (Some s) => Some s | _ => None end in
    let traceEvts := filterEventsByTrace events sampleTraceID in
    let traceEvts := if (length traceEvts =? 0)%nat
                     then match read_TraceEvents reader sampleTraceID with Some (Some evts) => evts | _ => [] end
                     else traceEvts in
    newPropagationEvidence story sampleTraceID (pickAnchorTsStart traceEvts family) now
  end.

(** The status of a fresh row is active, so the guards on a resolved one always pass. *)
Definition buildIncidentFromSeed (seed : gmap string Incident) (reader : R) (row : ErrorRow)
    (baselineCount : Z) (lift : float64) (since now : Time) : (Incident * bool) + EngineError :=
  let family := row_ErrorFamily row in
  let window := cfg_DeployCorrelationWindow cfg in
  let events := sampleEventsFromReader reader family since now 200 in
  let env := firstEventEnv events in
  let '(startedAt, id, prior) := resolve_identity it seed env family (earliestEventTime events now) in
  let existing := default zeroIncident prior in
  let key := mkBlastKey (ef_Service family) (ef_Step family) (ef_ErrorCode family) in
  let '(blast, blastOK) :=
    match read_BlastRadius reader (mkFilter "" ∅ "" since now) key with
    | Some b => (b, true)
    | None => (mkBlastRadiusResponse (mkBlastKey "" "" "") "" "" 0 None 0 [] [], false)
    end in
  let signalSince := TimeAdd now (dur_neg window) in
  let alertSince := TimeAdd startedAt (dur_neg window) in
  let signalSince := if Before alertSince signalSince then alertSince else signalSince in
  match querySignals env signalSince now with
  | inr err => inr err
  | inl sigs =>
    match queryDeploys (ef_Service family) (TimeAdd now (dur_neg window)) now with
    | inr err => inr err
    | inl deps =>
      let startedAt := match prior with Some p => inc_StartedAt p | None => startedAt end in
      let inc := mkIncident id env (ef_Service family) family StatusActive "" ""
        (severity (row_Count row) (br_AffectedServices blast) lift) startedAt now now None None
        (br_AffectedRequests blast) (row_AffectedUsers row) (br_AffectedServices blast) (br_TopServices blast)
        (stableSamples (inc_SampleTraces existing) events (cfg_SampleLimit cfg)) [] [] [] lift baselineCount
        (row_Count row) None None None None "" in
      let blastStatus := if blastOK then CaptureOK else CaptureMissing in
      let inc := with_snapshots inc
        (Some (updatePropagationSnapshot (inc_Propagation existing) (Some (capture_propagation reader events family blast now))))
        (Some (updateBlastSnapshot (inc_Blast existing) (Some (newBlastEvidence blast now blastStatus)))) None None in
      let inc := with_snapshots inc (inc_Propagation inc) (inc_Blast inc)
        (Some (updateAlertSnapshot (inc_Alerts existing) (Some (captureAlertEvidenceFromSignals sigs inc now window))))
        (updateRuntimeSnapshot (inc_Runtime existing) (captureRuntimeEvidence sigs inc now window)) in
      let class := Classify (mkClassificationInput inc events sigs deps now) in
      inl (apply_class inc existing class [], match prior with Some _ => true | None => false end)
    end
  end.

Definition buildAnomalyIncident (seed : gmap string Incident) (env : string) (family : ErrorFamily)
    (current baseline : Z) (lift : float64) (leadEvidence : Evidence) (now : Time) : (Incident * bool) + EngineError :=
  let window := cfg_DeployCorrelationWindow cfg in
  let '(startedAt, id, prior) := resolve_identity it seed env family now in
  let existing := default zeroIncident prior in
  match querySignals env (TimeAdd now (dur_neg window)) now with
  | inr err => inr err
  | inl sigs =>
    match queryDeploys (ef_Service family) (TimeAdd now (dur_neg window)) now with
    | inr err => inr err
    | inl deps =>
      let startedAt := match prior with Some p => inc_StartedAt p | None => startedAt end in
      let inc := mkIncident id env (ef_Service family) family StatusActive "" ""
        (severity (Z.max current baseline) 1 lift) startedAt now now None None 0 None 0 [] [] [] [] []
        lift baseline current None None None None "" in
      let inc := with_snapshots inc None None
        (Some (updateAlertSnapshot (inc_Alerts existing) (Some (captureAlertEvidenceFromSignals sigs inc now window))))
        (updateRuntimeSnapshot (inc_Runtime existing) (captureRuntimeEvidence sigs inc now window)) in
      let class := Classify (mkClassificationInput inc [] sigs deps now) in
      inl (apply_class inc existing class [leadEvidence], match prior with Some _ => true | None => false end)
    end
  end.

Definition buildTrafficIncident (seed : gmap string Incident) (service env dir : string) (current baseline : Z)
    (now : Time) : (Incident * bool) + EngineError :=
  let surge := String.eqb dir trafficSurge in
  let code := if surge then errorCodeTrafficSurge else errorCodeTrafficDrop in
  buildAnomalyIncident seed env (mkErrorFamily service trafficStep code) current baseline
    (trafficLift current baseline surge) (trafficEvidence service dir current baseline now) now.

Definition buildLatencyIncident (seed : gmap string Incident) (service env : string)
    (percentile currentMS baselineMS : Z) (now : Time) : (Incident * bool) + EngineError :=
  buildAnomalyIncident seed env (mkErrorFamily service latencyStep errorCodeLatencySpike) currentMS baselineMS
    (fdiv (of_int currentMS) (fmax (of_int baselineMS) (of_int 1)))
    (latencyEvidence service percentile currentMS baselineMS now) now.

Definition trafficEnv (reader : R) (service : string) (now : Time) : string :=
  firstEventEnv (read_SearchEvents reader
    (mkFilter service ∅ "" (TimeAdd now (wrap64 (-4 * cfg_Window cfg))) now) 1).

(** *** Error families *)

Definition window_start_of (now : Time) (i : Z) : Time := TimeAdd now (wrap64 (- i * cfg_Window cfg)).

(** Per-family counts of the three prior windows, newest first. *)
Definition baseline_window (reader : R) (now : Time) (m : gmap string (Z * Z * Z)) (i : nat) : gmap string (Z * Z * Z) :=
  let until := window_start_of now (Z.of_nat i + 1) in
  let since := window_start_of now (Z.of_nat i + 2) in
  foldl (fun m row => let key := familyKey (row_ErrorFamily row) in
                      <[key := set3 (default (0, 0, 0) (m !! key)) i (row_Count row)]> m)
    m (read_Errors reader (mkFilter "" failedStatuses "" since until) 200).

Definition baselineByFamily (reader : R) (now : Time) : gmap string (Z * Z * Z) :=
  foldl (baseline_window reader now) ∅ [0; 1; 2]%nat.

(** Whether a family's count opens or continues an incident, and its baseline and lift. *)
Definition family_measure (baseline : gmap string (Z * Z * Z)) (row : ErrorRow) : option (Z * float64) :=
  if row_Count row <? cfg_MinCount cfg then None
  else if fltb (of_int 0) (cfg_MinRate cfg)
          && fltb (of_int (row_Count row)) (fmul (cfg_MinRate cfg) (Minutes (cfg_Window cfg))) then None
  else
    let baselineCount := median3 (default (0, 0, 0) (baseline !! familyKey (row_ErrorFamily row))) in
    let lift := computeLift (row_Count row) baselineCount in
    if (0 <? baselineCount) && fltb lift (cfg_MinLift cfg) then None
    else Some (baselineCount, lift).

Fixpoint family_loop (seed : gmap string Incident) (reader : R) (baseline : gmap string (Z * Z * Z))
    (currentStart now : Time) (rows : list ErrorRow) (seen : gset string) (out : list derivedRow)
    : (gset string * list derivedRow) + EngineError :=
  match rows with
  | [] => inl (seen, out)
  | row :: rows' =>
    match family_measure baseline row with
    | None => family_loop seed reader baseline currentStart now rows' seen out
    | Some (baselineCount, lift) =>
      match buildIncidentFromSeed seed reader row baselineCount lift currentStart now with
      | inr err => inr err
      | inl (inc, existed) =>
        family_loop seed reader baseline currentStart now rows' ({[inc_IncidentID inc]} ∪ seen)
          (out ++ [mkDerivedRow inc existed])
      end
    end
  end.

(** *** Volume anomalies *)

Definition counts_of (rows : list ServiceStatsRow) : gmap string Z :=
  foldl (fun m row => <[sv_Service row := sv_Count row]> m) ∅ rows.

Definition baselineByService (baseStats : list (list ServiceStatsRow)) : gmap string (Z * Z * Z) :=
  foldl (fun m '(i, rows) =>
      foldl (fun m row => <[sv_Service row := set3 (default (0, 0, 0) (m !! sv_Service row)) i (sv_Count row)]> m) m rows)
    ∅ (imap (fun i rows => (i, rows)) baseStats).

(** The names of both windows, sorted. *)
Definition services_of {A B} (current : gmap string A) (baseline : gmap string B) : list string :=
  let svcSet : gmap string unit := union ((fun _ => ()) <$> current) ((fun _ => ()) <$> baseline) in
  ssort String.ltb (mrange it 22 svcSet).*1.

(** The direction a volume moved in, if it moved far enough. *)
Definition traffic_dir (cur baseline : Z) : option string :=
  let ta := cfg_TrafficAnomaly cfg in
  if fleb (of_int cur) (fmul (ta_DropFactor ta) (of_int baseline)) then Some trafficDrop
  else if fltb (of_int 0) (ta_SurgeFactor ta) && fleb (fmul (ta_SurgeFactor ta) (of_int baseline)) (of_int cur)
  then Some trafficSurge
  else None.

(** What one cycle does to the counters of a service, and the direction that has lasted
    long enough, if any. *)
Definition traffic_gate (pending : gmap string Z) (svc : string) (cur baseline : Z) : gmap string Z * option string :=
  let ta := cfg_TrafficAnomaly cfg in
  let dropKey := svc +:+ "|drop" in
  let surgeKey := svc +:+ "|surge" in
  if baseline <? ta_MinVolume ta then (delete surgeKey (delete dropKey pending), None)
  else match traffic_dir cur baseline with
       | None => (delete surgeKey (delete dropKey pending), None)
       | Some dir =>
         let key := svc +:+ "|" +:+ dir in
         let other := if String.eqb dir trafficDrop then surgeKey else dropKey in
         let pending := delete other pending in
         let pending := <[key := default 0 (pending !! key) + 1]> pending in
         (pending, if default 0 (pending !! key) <? ta_SustainedTicks ta then None else Some dir)
       end.

Fixpoint traffic_loop (seed : gmap string Incident) (reader : R) (current : gmap string Z)
    (baseline : gmap string (Z * Z * Z)) (now : Time) (services : list string) (pending : gmap string Z)
    (seen : gset string) (out : list derivedRow) : gmap string Z * ((gset string * list derivedRow) + EngineError) :=
  match services with
  | [] => (pending, inl (seen, out))
  | svc :: services' =>
    let base := median3 (default (0, 0, 0) (baseline !! svc)) in
    let cur := default 0 (current !! svc) in
    match traffic_gate pending svc cur base with
    | (pending, None) => traffic_loop seed reader current baseline now services' pending seen out
    | (pending, Some dir) =>
      let env := trafficEnv reader svc now in
      match buildTrafficIncident seed svc env dir cur base now with
      | inr err => (pending, inr err)
      | inl (inc, existed) =>
        traffic_loop seed reader current baseline now services' pending ({[inc_IncidentID inc]} ∪ seen)
          (out ++ [mkDerivedRow inc existed])
      end
    end
  end.

Definition deriveTrafficAnomalies (now : Time) (seed : gmap string Incident) (reader : R)
    (curStats : list ServiceStatsRow) (baseStats : list (list ServiceStatsRow)) (pending : gmap string Z)
    (seen : gset string) : gmap string Z * ((gset string * list derivedRow) + EngineError) :=
  let current := counts_of curStats in
  let baseline := baselineByService baseStats in
  traffic_loop seed reader current baseline now (services_of current baseline) pending seen [].

(** *** Latency anomalies *)

Definition lats_of (rows : list ServiceStatsRow) : gmap string (Z * Z) :=
  foldl (fun m row => <[sv_Service row := (sv_LatencyMS row, sv_Count row)]> m) ∅ rows.

Definition latency_baseline (baseStats : list (list ServiceStatsRow)) : gmap string (list (Z * Z)) :=
  foldl (fun m row => <[sv_Service row := default [] (m !! sv_Service row) ++ [(sv_LatencyMS row, sv_Count row)]]> m)
    ∅ (concat baseStats).

(** The baseline latency a service is measured against, when the samples suffice and the
    current latency is anomalous. *)
Definition latency_anomaly (cur : Z * Z) (base : list (Z * Z)) : option Z :=
  let la := cfg_LatencyAnomaly cfg in
  if cur.2 <? la_MinRequests la then None
  else
    let qualifying := (List.filter (fun b => la_MinRequests la <=? b.2) base).*1 in
    if (length qualifying <? 2)%nat then None
    else
      let base := medianInts qualifying in
      if (0 <? base) && fleb (fmul (la_Factor la) (of_int base)) (of_int cur.1)
         && ((la_MinMS la =? 0) || (la_MinMS la <=? cur.1))
      then Some base else None.

Definition latency_gate (pending : gmap string Z) (svc : string) (cur : Z * Z) (base : list (Z * Z))
    : gmap string Z * option Z :=
  let key := svc +:+ "|latency" in
  match latency_anomaly cur base with
  | None => (delete key pending, None)
  | Some b =>
    let pending := <[key := default 0 (pending !! key) + 1]> pending in
    (pending, if default 0 (pending !! key) <? la_SustainedTicks (cfg_LatencyAnomaly cfg) then None else Some b)
  end.

Fixpoint latency_loop (seed : gmap string Incident) (reader : R) (current : gmap string (Z * Z))
    (baseline : gmap string (list (Z * Z))) (now : Time) (services : list string) (pending : gmap string Z)
    (seen : gset string) (out : list derivedRow) : gmap string Z * ((gset string * list derivedRow) + EngineError) :=
  match services with
  | [] => (pending, inl (seen, out))
  | svc :: services' =>
    let cur := default (0, 0) (current !! svc) in
    match latency_gate pending svc cur (default [] (baseline !! svc)) with
    | (pending, None) => latency_loop seed reader current baseline now services' pending seen out
    | (pending, Some base) =>
      let env := trafficEnv reader svc now in
      match buildLatencyIncident seed svc env (la_Percentile (cfg_LatencyAnomaly cfg)) cur.1 base now with
      | inr err => (pending, inr err)
      | inl (inc, existed) =>
        latency_loop seed reader current baseline now services' pending ({[inc_IncidentID inc]} ∪ seen)
          (out ++ [mkDerivedRow inc existed])
      end
    end
  end.

Definition deriveLatencyAnomalies (now : Time) (seed : gmap string Incident) (reader : R)
    (curStats : list ServiceStatsRow) (baseStats : list (list ServiceStatsRow)) (pending : gmap string Z)
    (seen : gset string) : gmap string Z * ((gset string * list derivedRow) + EngineError) :=
  let current := lats_of curStats in
  let baseline := latency_baseline baseStats in
  latency_loop seed reader current baseline now (services_of current baseline) pending seen [].

(** *** Incidents that are no longer seen *)

Definition missing_row (now : Time) (inc : Incident) : list derivedRow :=
  if String.eqb (inc_Status inc) StatusActive
  then [mkDerivedRow (with_lifecycle (cloneIncident inc) StatusRecovering (Some now) (inc_ResolvedAt inc) now) true]
  else if String.eqb (inc_Status inc) StatusRecovering then
    if cfg_ResolveAfter cfg <=? TimeSub now (inc_LastSeenAt inc)
    then [mkDerivedRow (with_lifecycle (cloneIncident inc) StatusResolved (inc_RecoveringAt inc) (Some now) now) true]
    else []
  else [].

Definition deriveMissing (seed : gmap string Incident) (seen : gset string) (now : Time) : list derivedRow :=
  (mrange it 23 seed).*2 ≫= fun inc =>
    if decide (inc_IncidentID inc ∈ seen) then [] else missing_row now inc.

(** *** A cycle *)

(** Volume and latency anomalies, over one set of statistics. *)
Definition derive_anomalies (now : Time) (seed : gmap string Incident) (reader : R) (pending : gmap string Z)
    (seen : gset string) (out : list derivedRow) : gmap string Z * ((gset string * list derivedRow) + EngineError) :=
  let ta := ta_Enabled (cfg_TrafficAnomaly cfg) in
  let la := la_Enabled (cfg_LatencyAnomaly cfg) in
  if ta || la then
    let pct := if la then la_Percentile (cfg_LatencyAnomaly cfg) else 0 in
    let stats since until := read_ServiceStats reader (mkFilter "" ∅ "" since until) pct serviceStatsReadLimit in
    let curStats := stats (window_start_of now 1) now in
    let baseStats := (fun i => stats (window_start_of now (i + 2)) (window_start_of now (i + 1))) <$> [0; 1; 2] in
    let '(pending, r) := if ta then deriveTrafficAnomalies now seed reader curStats baseStats pending seen
                         else (pending, inl (seen, [])) in
    match r with
    | inr err => (pending, inr err)
    | inl (seen, trafficRows) =>
      let out := out ++ trafficRows in
      let '(pending, r) := if la then deriveLatencyAnomalies now seed reader curStats baseStats pending seen
                           else (pending, inl (seen, [])) in
      match r with
      | inr err => (pending, inr err)
      | inl (seen, latencyRows) => (pending, inl (seen, out ++ latencyRows))
      end
    end
  else (pending, inl (seen, out)).

Definition derive (now : Time) (seed : gmap string Incident) (reader : R) (pending : gmap string Z)
    : gmap string Z * (list derivedRow + EngineError) :=
  let currentStart := window_start_of now 1 in
  let current := read_Errors reader (mkFilter "" failedStatuses "" currentStart now) 200 in
  match family_loop seed reader (baselineByFamily reader now) currentStart now current ∅ [] with
  | inr err => (pending, inr err)
  | inl (seen, out) =>
    match derive_anomalies now seed reader pending seen out with
    | (pending, inr err) => (pending, inr err)
    | (pending, inl (seen, out)) => (pending, inl (out ++ deriveMissing seed seen now))
    end
  end.
End Derive.

(** ** Applying *)

Section Apply.
Context {R Sg D S : Type} `{!IncidentReader R, !SignalStore Sg, !DeploySource D, !Store S}.

Definition remember (e : Engine R Sg D S) (inc : Incident) : Engine R Sg D S :=
  set_active e (<[inc_IncidentID inc := cloneIncident inc]> (e_active e)).
Definition forget (e : Engine R Sg D S) (id : string) : Engine R Sg D S := set_active e (delete id (e_active e)).

Definition SnapshotActive (e : Engine R Sg D S) : gmap string Incident := cloneIncident <$> e_active e.

(** One row whose upsert succeeded: the cache, then the notifier. *)
Definition apply_row (e : Engine R Sg D S) (dr : derivedRow) : Engine R Sg D S * list Notice :=
  let inc := dr_Incident dr in
  if String.eqb (inc_Status inc) StatusResolved
  then (forget e (inc_IncidentID inc), if e_notifier e then [Resolved inc] else [])
  else if String.eqb (inc_Status inc) StatusRecovering then (remember e inc, [])
  else (remember e inc, if negb (dr_Existed dr) && e_notifier e then [Opened inc] else []).

Fixpoint ApplyLive (e : Engine R Sg D S) (rows : list derivedRow) : Engine R Sg D S * list Notice * option EngineError :=
  match rows with
  | [] => (e, [], None)
  | dr :: rows' =>
    match Upsert (e_store e) (dr_Incident dr) with
    | None => (e, [], Some ErrStore)
    | Some store =>
      let '(e, notices) := apply_row (set_store e store) dr in
      let '(e, more, err) := ApplyLive e rows' in
      (e, notices ++ more, err)
    end
  end.

Definition load_active (rows : list Incident) : gmap string Incident :=
  foldl (fun m inc => <[inc_IncidentID inc := cloneIncident inc]> m) ∅ rows.

Definition Bootstrap (it : MapIter) (e : Engine R Sg D S) : Engine R Sg D S * option EngineError :=
  match ListActive it (e_store e) with
  | None => (e, Some ErrStore)
  | Some rows => (set_active e (foldl (fun m inc => <[inc_IncidentID inc := inc]> m) ∅ rows), None)
  end.

Definition ApplyRebuild (it : MapIter) (e : Engine R Sg D S) (rows : list derivedRow)
    : Engine R Sg D S * option EngineError :=
  match ReplaceNonResolved (e_store e) (dr_Incident <$> rows) with
  | None => (e, Some ErrStore)
  | Some store =>
    let e := set_store e store in
    match ListActive it store with
    | None => (e, Some ErrStore)
    | Some active => (set_active e (load_active active), None)
    end
  end.

Definition engine_derive (it : MapIter) (now : Time) (e : Engine R Sg D S) (reader : R) : Engine R Sg D S * (list derivedRow + EngineError) :=
  let '(pending, r) := derive it (e_cfg e) (e_signals e) (e_deploys e) now (SnapshotActive e) reader (e_pendingTraffic e) in
  (set_pending e pending, r).

Definition Tick (it : MapIter) (now : Time) (e : Engine R Sg D S) : Engine R Sg D S * list Notice * option EngineError :=
  match engine_derive it now e (e_reader e) with
  | (e, inr err) => (e, [], Some err)
  | (e, inl rows) => ApplyLive e rows
  end.

Definition Rebuild (it : MapIter) (now : Time) (e : Engine R Sg D S) (reader : R) : Engine R Sg D S * option EngineError :=
  match engine_derive it now e reader with
  | (e, inr err) => (e, Some err)
  | (e, inl rows) => ApplyRebuild it e rows
  end.

Definition Active (it : MapIter) (e : Engine R Sg D S) : option (list Incident) :=
  sortIncidents <$> ListActive it (e_store e).

Definition TopActive (it : MapIter) (e : Engine R Sg D S) : option (option Incident) := head <$> Active it e.
End Apply.
