(* ===== verification/EngineSpec.v ===== *)
(** What the incident engine promises: the lifecycle of an incident as a step relation that
    every derived row follows, the cache as a view of the store, and notifications as the
    changes of the active set. *)

From S2P Require Import Prelude GoRuntime GoFloat Types Family Index Reader Incident Capture NextChecks Classifier Detect Engine.
Open Scope Z_scope.

(** A signal store and a deploy source for concrete runs that use neither. *)
#[export] Instance no_signal_store : SignalStore unit := {| query_signals _ _ _ _ _ := inl [] |}.
#[export] Instance no_deploy_source : DeploySource unit := {| deployments_in_window _ _ _ _ := Some [] |}.

(** ** The lifecycle *)

(** Ids name families: a row filed under the id of an environment and a family is theirs,
    which holds as long as no two hashes collide; and a row is of its family's service. *)
Definition honest_ids (seed : gmap string Incident) : Prop :=
  forall env family st old, seed !! StableID env family st = Some old -> inc_Env old = env /\ inc_ErrorFamily old = family.
Definition own_service (inc : Incident) : Prop := inc_Service inc = ef_Service (inc_ErrorFamily inc).

(** One row of a cycle against the incidents known before it. *)
Inductive transition (cfg : Config) (now : Time) (seed : gmap string Incident) : derivedRow -> Prop :=
| t_open inc :
    seed !! inc_IncidentID inc = None ->
    (forall k old, seed !! k = Some old -> same_family (inc_Env inc) (inc_ErrorFamily inc) old = false) ->
    inc_Status inc = StatusActive -> inc_LastSeenAt inc = now -> inc_RecoveringAt inc = None -> own_service inc ->
    transition cfg now seed (mkDerivedRow inc false)
| t_update inc old :
    seed !! inc_IncidentID inc = Some old -> inc_StartedAt inc = inc_StartedAt old ->
    (inc_SuspectDeployID old <> "" -> inc_SuspectDeployID inc <> "") ->
    inc_Status inc = StatusActive -> inc_LastSeenAt inc = now -> inc_RecoveringAt inc = None -> own_service inc ->
    (honest_ids seed -> same_key inc old) ->
    transition cfg now seed (mkDerivedRow inc true)
| t_recover old :
    seed !! inc_IncidentID old = Some old -> inc_Status old = StatusActive ->
    transition cfg now seed
      (mkDerivedRow (with_lifecycle old StatusRecovering (Some now) (inc_ResolvedAt old) now) true)
| t_resolve old :
    seed !! inc_IncidentID old = Some old -> inc_Status old = StatusRecovering ->
    cfg_ResolveAfter cfg <= TimeSub now (inc_LastSeenAt old) ->
    transition cfg now seed
      (mkDerivedRow (with_lifecycle old StatusResolved (inc_RecoveringAt old) (Some now) now) true).

(** A fresh row: the first two transitions. *)
Definition fresh (cfg : Config) (now : Time) (seed : gmap string Incident) (dr : derivedRow) : Prop :=
  transition cfg now seed dr /\ inc_Status (dr_Incident dr) = StatusActive.

Lemma findByFamily_spec it site seed env family :
  match findByFamilyIn it site seed env family with
  | Some p => exists k, seed !! k = Some p /\ same_family env family p = true
  | None => forall k old, seed !! k = Some old -> same_family env family old = false
  end.
Proof.
  unfold findByFamilyIn. rewrite (option_fmap_id_ext _ _ cloneIncident_id).
  destruct (head _) as [p|] eqn:E.
  - destruct (List.filter _ _) as [|x l] eqn:F; [done|]. simplify_eq/=.
    assert (Hp : p ∈ List.filter (same_family env family) (mrange it site seed).*2) by (rewrite F; left).
    apply elem_of_lfilter in Hp as [Hp Hs]. apply list_elem_of_fmap in Hp as ([k i] & -> & Hk).
    exists k. split; [by apply elem_of_mrange in Hk|done].
  - intros k old Hk. destruct (same_family env family old) eqn:Hs; [|done].
    assert (Hin : old ∈ List.filter (same_family env family) (mrange it site seed).*2).
    { apply elem_of_lfilter. split; [|done]. apply (list_elem_of_fmap_2 snd _ (k, old)). by apply elem_of_mrange. }
    destruct (List.filter _ _); [by apply elem_of_nil in Hin|done].
Qed.

Lemma resolve_identity_spec it seed env family st :
  ids_ok seed ->
  let '(st', id, prior) := resolve_identity it seed env family st in
  match prior with
  | Some p => seed !! id = Some p /\ (honest_ids seed -> inc_Env p = env /\ inc_ErrorFamily p = family)
  | None => seed !! id = None /\ forall k old, seed !! k = Some old -> same_family env family old = false
  end.
Proof.
  intros Hok. unfold resolve_identity. cbv zeta. 
  set (st' := match findByFamilyIn it 20 seed env family with Some existing => inc_StartedAt existing | None => st end).
  unfold getCachedIn. rewrite (option_fmap_id_ext _ _ cloneIncident_id).
  destruct (seed !! StableID env family st') as [p|] eqn:E; [split; [done|]; intros Hid; by apply (Hid _ _ st')|].
  pose proof (findByFamily_spec it 21 seed env family) as H. destruct (findByFamilyIn it 21 seed env family) as [p|]; [|done].
  destruct H as (k & Hk & Hs). rewrite (Hok k p Hk). split; [done|]. intros _. unfold same_family in Hs. by bool_prop.
Qed.

Section Spec.
Context {R Sg D : Type} `{!IncidentReader R, !SignalStore Sg, !DeploySource D}.
Context (it : MapIter) (cfg : Config) (signals : option Sg) (deploys : option D).
Context (now : Time) (seed : gmap string Incident) (Hseed : ids_ok seed).

Lemma apply_class_row inc existing class lead (prior : option Incident) :
  existing = default zeroIncident prior ->
  inc_Status inc = StatusActive -> inc_LastSeenAt inc = now -> inc_RecoveringAt inc = None -> own_service inc ->
  match prior with
  | Some p => (seed !! inc_IncidentID inc = Some p /\ (honest_ids seed -> inc_Env p = inc_Env inc /\ inc_ErrorFamily p = inc_ErrorFamily inc)) /\
              inc_StartedAt inc = inc_StartedAt p
  | None => seed !! inc_IncidentID inc = None /\
            forall k old, seed !! k = Some old -> same_family (inc_Env inc) (inc_ErrorFamily inc) old = false
  end ->
  fresh cfg now seed (mkDerivedRow (apply_class inc existing class lead) (match prior with Some _ => true | None => false end)).
Proof.
  intros -> Hst Hls Hrec Hsv Hp. split; [|done]. destruct prior as [p|]; destruct Hp as [Hp1 Hp2]; simpl.
  - destruct Hp1 as [Hp1 Hkey]. apply (t_update _ _ _ _ p); try done; simpl.
    + intros Hs. by destruct (String.eqb_spec (cl_SuspectDeployID class) "").
    + intros Hid. destruct (Hkey Hid) as [E1 E2]. by split.
  - apply t_open; done.
Qed.

Lemma build_fresh reader row base lift since inc existed :
  buildIncidentFromSeed it cfg signals deploys seed reader row base lift since now = inl (inc, existed) ->
  fresh cfg now seed (mkDerivedRow inc existed).
Proof.
  unfold buildIncidentFromSeed. cbv zeta. intros H.
  pose proof (resolve_identity_spec it seed (firstEventEnv (sampleEventsFromReader reader (row_ErrorFamily row) since now 200))
    (row_ErrorFamily row) (earliestEventTime (sampleEventsFromReader reader (row_ErrorFamily row) since now 200) now) Hseed) as Hid.
  destruct (resolve_identity _ _ _ _ _) as [[st id] prior].
  destruct (match read_BlastRadius _ _ _ with Some _ => _ | None => _ end) as [blast bok].
  destruct (querySignals _ _ _ _) as [sigs|]; [|done]. destruct (queryDeploys _ _ _ _) as [deps|]; [|done].
  injection H as <- <-. apply apply_class_row; try done. by destruct prior.
Qed.

Lemma build_anomaly_fresh env family cur base lift lead inc existed :
  buildAnomalyIncident it cfg signals deploys seed env family cur base lift lead now = inl (inc, existed) ->
  fresh cfg now seed (mkDerivedRow inc existed).
Proof.
  unfold buildAnomalyIncident. cbv zeta. intros H.
  pose proof (resolve_identity_spec it seed env family now Hseed) as Hid.
  destruct (resolve_identity _ _ _ _ _) as [[st id] prior].
  destruct (querySignals _ _ _ _) as [sigs|]; [|done]. destruct (queryDeploys _ _ _ _) as [deps|]; [|done].
  injection H as <- <-. apply apply_class_row; try done. by destruct prior.
Qed.

Definition row_ids (rows : list derivedRow) : list string := (fun dr => inc_IncidentID (dr_Incident dr)) <$> rows.

(** The rows so far are fresh, and the ids seen are those seen before and theirs. *)
Definition rows_ok (before seen : gset string) (out : list derivedRow) : Prop :=
  Forall (fresh cfg now seed) out /\ forall id, id ∈ seen <-> id ∈ before \/ id ∈ row_ids out.

Lemma rows_ok_nil seen : rows_ok seen seen [].
Proof. split; [constructor|]. intros id. simpl. rewrite elem_of_nil. tauto. Qed.

Lemma rows_ok_snoc before seen out inc existed :
  rows_ok before seen out -> fresh cfg now seed (mkDerivedRow inc existed) ->
  rows_ok before ({[inc_IncidentID inc]} ∪ seen) (out ++ [mkDerivedRow inc existed]).
Proof.
  intros [Ho Hs] Hf. split; [by apply Forall_app; split; [|constructor]|]. intros id. unfold row_ids in *.
  rewrite fmap_app, elem_of_app, elem_of_union, elem_of_singleton, Hs. simpl. rewrite list_elem_of_singleton. tauto.
Qed.

Lemma rows_ok_app b s1 s2 l1 l2 : rows_ok b s1 l1 -> rows_ok s1 s2 l2 -> rows_ok b s2 (l1 ++ l2).
Proof.
  intros [H1 E1] [H2 E2]. split; [by apply Forall_app|]. intros id. unfold row_ids in *.
  rewrite E2, E1, fmap_app, elem_of_app. tauto.
Qed.

Lemma family_loop_ok b reader baseline since rows : forall seen out seen' out',
  family_loop it cfg signals deploys seed reader baseline since now rows seen out = inl (seen', out') ->
  rows_ok b seen out -> rows_ok b seen' out'.
Proof.
  induction rows as [|row rows IH]; intros seen out seen' out' H Ho; simpl in H; [by injection H as <- <-|].
  destruct (family_measure cfg baseline row) as [[base lift]|]; [|by eapply IH].
  destruct (buildIncidentFromSeed _ _ _ _ _ _ _ _ _ _ _) as [[inc existed]|] eqn:Hb; [|done].
  eapply IH; [exact H|]. apply rows_ok_snoc; [done|]. by eapply build_fresh.
Qed.

Lemma traffic_loop_ok b reader current baseline services : forall pending seen out pending' seen' out',
  traffic_loop it cfg signals deploys seed reader current baseline now services pending seen out = (pending', inl (seen', out')) ->
  rows_ok b seen out -> rows_ok b seen' out'.
Proof.
  induction services as [|svc services IH]; intros pending seen out pending' seen' out' H Ho; simpl in H; [by injection H as <- <- <-|].
  destruct (traffic_gate _ _ _ _ _) as [p [dir|]]; [|by eapply IH].
  unfold buildTrafficIncident in H. cbv zeta in H.
  destruct (buildAnomalyIncident _ _ _ _ _ _ _ _ _ _ _ _) as [[inc existed]|] eqn:Hb; [|done].
  eapply IH; [exact H|]. apply rows_ok_snoc; [done|]. by eapply build_anomaly_fresh.
Qed.

Lemma latency_loop_ok b reader current baseline services : forall pending seen out pending' seen' out',
  latency_loop it cfg signals deploys seed reader current baseline now services pending seen out = (pending', inl (seen', out')) ->
  rows_ok b seen out -> rows_ok b seen' out'.
Proof.
  induction services as [|svc services IH]; intros pending seen out pending' seen' out' H Ho; simpl in H; [by injection H as <- <- <-|].
  destruct (latency_gate _ _ _ _ _) as [p [ms|]]; [|by eapply IH].
  unfold buildLatencyIncident in H. cbv zeta in H.
  destruct (buildAnomalyIncident _ _ _ _ _ _ _ _ _ _ _ _) as [[inc existed]|] eqn:Hb; [|done].
  eapply IH; [exact H|]. apply rows_ok_snoc; [done|]. by eapply build_anomaly_fresh.
Qed.

Lemma derive_anomalies_ok b reader pending seen out pending' seen' out' :
  derive_anomalies it cfg signals deploys now seed reader pending seen out = (pending', inl (seen', out')) ->
  rows_ok b seen out -> rows_ok b seen' out'.
Proof.
  unfold derive_anomalies. cbv zeta. intros H Ho.
  destruct (ta_Enabled _ || la_Enabled _); [|by injection H as <- <- <-].
  set (t := if ta_Enabled _ then _ else _) in H.
  assert (Ht : forall p s rows, t = (p, inl (s, rows)) -> rows_ok seen s rows).
  { intros p s rows E. unfold t in E. destruct (ta_Enabled _); [|injection E as <- <- <-; apply rows_ok_nil].
    eapply traffic_loop_ok; [exact E|apply rows_ok_nil]. }
  destruct t as [p [[s rows]|err]]; [|done]. specialize (Ht _ _ _ eq_refl).
  pose proof (rows_ok_app _ _ _ _ _ Ho Ht) as Hot. destruct (la_Enabled _) in H.
  - destruct (deriveLatencyAnomalies _ _ _ _ _ _ _ _ _ _ _) as [p2 [[s2 rows2]|]] eqn:El; [|done].
    injection H as <- <- <-. eapply rows_ok_app; [exact Hot|]. unfold deriveLatencyAnomalies in El.
    eapply latency_loop_ok; [exact El|apply rows_ok_nil].
  - injection H as <- <- <-. by rewrite app_nil_r.
Qed.

Lemma missing_transition inc dr : seed !! inc_IncidentID inc = Some inc -> dr ∈ missing_row cfg now inc -> transition cfg now seed dr.
Proof.
  unfold missing_row. rewrite cloneIncident_id. intros Hin.
  destruct (String.eqb_spec (inc_Status inc) StatusActive) as [Ha|]; [intros ->%list_elem_of_singleton; by constructor|].
  destruct (String.eqb_spec (inc_Status inc) StatusRecovering) as [Hr|]; [|by intros ?%elem_of_nil].
  destruct (Z.leb_spec (cfg_ResolveAfter cfg) (TimeSub now (inc_LastSeenAt inc))); [|by intros ?%elem_of_nil].
  intros ->%list_elem_of_singleton. by constructor.
Qed.

Lemma elem_of_deriveMissing seen dr :
  dr ∈ deriveMissing it cfg seed seen now <->
  (exists inc, seed !! inc_IncidentID inc = Some inc /\ (inc_IncidentID inc ∉ seen) /\ dr ∈ missing_row cfg now inc).
Proof.
  unfold deriveMissing. rewrite list_elem_of_bind. split.
  - intros (inc & Hd & Hin). apply list_elem_of_fmap in Hin as ([k i] & -> & Hk). apply elem_of_mrange in Hk.
    simpl in *. case_decide; [by apply elem_of_nil in Hd|]. exists i.
    split_and!; [by rewrite (Hseed k i Hk)|done|done].
  - intros (inc & Hk & Hs & Hd). exists inc. rewrite decide_False by done. split; [done|].
    apply (list_elem_of_fmap_2 snd _ (inc_IncidentID inc, inc)). by apply elem_of_mrange.
Qed.

(** The rows of what was not seen: none is active, each of another incident, none of one
    that was seen. *)
Lemma missing_row_id inc : row_ids (missing_row cfg now inc) `sublist_of` [inc_IncidentID inc].
Proof. unfold missing_row. rewrite cloneIncident_id. repeat case_match; simpl; repeat constructor. Qed.

Lemma deriveMissing_ids seen :
  NoDup (row_ids (deriveMissing it cfg seed seen now)) /\
  (forall id, id ∈ row_ids (deriveMissing it cfg seed seen now) -> (id ∉ seen) /\ is_Some (seed !! id)).
Proof.
  split.
  - eapply sublist_NoDup; [apply (NoDup_row_ids it 23 seed Hseed)|]. unfold deriveMissing, row_ids.
    induction (mrange it 23 seed).*2 as [|i l IH]; [constructor|]. rewrite bind_cons, fmap_app. apply (sublist_app _ [inc_IncidentID i]); [|exact IH].
    case_decide; [apply sublist_nil_l|apply missing_row_id].
  - intros id Hin. apply list_elem_of_fmap in Hin as (dr & -> & Hd). apply elem_of_deriveMissing in Hd as (inc & Hk & Hs & Hd).
    assert (inc_IncidentID (dr_Incident dr) ∈ [inc_IncidentID inc]) as ->%list_elem_of_singleton; [|by eauto].
    eapply elem_of_sublist; [|apply (missing_row_id inc)]. by apply (list_elem_of_fmap_2 (fun dr => inc_IncidentID (dr_Incident dr))).
Qed.

Lemma deriveMissing_status seen dr : dr ∈ deriveMissing it cfg seed seen now ->
  inc_Status (dr_Incident dr) <> StatusActive /\ dr_Existed dr = true.
Proof.
  intros (inc & _ & _ & Hd)%elem_of_deriveMissing. unfold missing_row in Hd. rewrite cloneIncident_id in Hd.
  repeat case_match; try (by apply elem_of_nil in Hd); apply list_elem_of_singleton in Hd as ->; by split.
Qed.

(** A cycle: fresh rows, then the rows of what was not seen again. *)
Lemma derive_rows reader pending pending' rows :
  derive it cfg signals deploys now seed reader pending = (pending', inl rows) ->
  exists out seen, rows = out ++ deriveMissing it cfg seed seen now /\ rows_ok ∅ seen out.
Proof.
  unfold derive. cbv zeta. intros H. destruct (family_loop _ _ _ _ _ _ _ _ _ _ _ _) as [[seen out]|] eqn:Ef; [|done].
  eapply family_loop_ok in Ef; [|apply (rows_ok_nil ∅)].
  destruct (derive_anomalies _ _ _ _ _ _ _ _ _ _) as [p [[s out']|]] eqn:Ea; [|done].
  eapply derive_anomalies_ok in Ea; [|exact Ef]. injection H as <- <-. by exists out', s.
Qed.

Lemma derive_transition reader pending pending' rows :
  derive it cfg signals deploys now seed reader pending = (pending', inl rows) -> Forall (transition cfg now seed) rows.
Proof.
  intros H. apply derive_rows in H as (out & seen & -> & Hf & _). apply Forall_app. split.
  - eapply Forall_impl; [exact Hf|]. by intros dr [H _].
  - apply Forall_forall. intros dr (inc & Hk & _ & Hd)%elem_of_deriveMissing. by eapply missing_transition.
Qed.
End Spec.

(** The rows of incidents that are over or on their way. *)
Definition fading (rows : list derivedRow) : list derivedRow :=
  List.filter (fun dr => negb (String.eqb (inc_Status (dr_Incident dr)) StatusActive)) rows.

Lemma fading_all rows : (forall dr, dr ∈ rows -> inc_Status (dr_Incident dr) <> StatusActive) -> fading rows = rows.
Proof.
  unfold fading. induction rows as [|dr rows IH]; intros H; [done|]. simpl.
  rewrite (proj2 (String.eqb_neq _ _)) by (apply H; left). simpl. f_equal. apply IH. intros d Hd. apply H. by right.
Qed.

Lemma fading_none rows : (forall dr, dr ∈ rows -> inc_Status (dr_Incident dr) = StatusActive) -> fading rows = [].
Proof.
  unfold fading. induction rows as [|dr rows IH]; intros H; [done|]. simpl.
  rewrite (H dr) by left. simpl. apply IH. intros d Hd. apply H. by right.
Qed.

(** C2: every row a cycle derives takes one incident through one step of its lifecycle: it
    opens when no open incident of its family and environment is known, it stays active
    with its start, its identity, any suspect deployment and, as long as no two families
    hash to one id, its environment and family kept, it starts recovering
    when it is no longer seen, and it is resolved once unseen for the configured time;
    no active incident, and none due to be resolved, is left without a row; and an
    incident that is seen again has no other row, and one that is not has one at most.
    The incidents known before are those of the cache, each under its own id. *)
Theorem derive_transitions {R Sg D} `{!IncidentReader R, !SignalStore Sg, !DeploySource D} (it : MapIter) (cfg : Config)
    (signals : option Sg) (deploys : option D) (now : Time) (seed : gmap string Incident) (reader : R)
    (pending pending' : gmap string Z) (rows : list derivedRow) :
  ids_ok seed ->
  derive it cfg signals deploys now seed reader pending = (pending', inl rows) ->
  Forall (transition cfg now seed) rows /\
  (forall inc, seed !! inc_IncidentID inc = Some inc ->
    inc_Status inc = StatusActive \/
    (inc_Status inc = StatusRecovering /\ cfg_ResolveAfter cfg <= TimeSub now (inc_LastSeenAt inc)) ->
    inc_IncidentID inc ∈ row_ids rows) /\
  NoDup (row_ids (fading rows)) /\
  (forall dr, dr ∈ rows -> inc_Status (dr_Incident dr) = StatusActive -> inc_IncidentID (dr_Incident dr) ∉ row_ids (fading rows)).
Proof.
  intros Hok H. split; [by eapply derive_transition|].
  apply derive_rows in H as (out & seen & -> & Hout & Hseen); [|done].
  assert (fading (out ++ deriveMissing it cfg seed seen now) = deriveMissing it cfg seed seen now) as Hfad.
  { unfold fading. rewrite List.filter_app. fold (fading out) (fading (deriveMissing it cfg seed seen now)). rewrite fading_none, fading_all; [done| |].
    - intros dr Hd. by apply deriveMissing_status in Hd as [? _].
    - intros dr Hd. rewrite Forall_forall in Hout. by apply Hout. }
  destruct (deriveMissing_ids it cfg now seed Hok seen) as [Hnd Hns]. rewrite Hfad. split; [|split; [done|]].
  - intros inc Hk Hst. unfold row_ids in *. rewrite fmap_app, elem_of_app.
    destruct (decide (inc_IncidentID inc ∈ seen)) as [Hs|Hs].
    + apply Hseen in Hs as [Hs|Hs]; [by apply elem_of_empty in Hs|by left].
    + right. apply list_elem_of_fmap.
      assert (Hm : exists dr, dr ∈ missing_row cfg now inc /\ inc_IncidentID (dr_Incident dr) = inc_IncidentID inc).
      { unfold missing_row. rewrite cloneIncident_id.
        destruct Hst as [->|[-> Hr]]; simpl; [eexists; split; [left|done]|].
        apply Z.leb_le in Hr. rewrite Hr. eexists; split; [left|done]. }
      destruct Hm as (dr & Hd & Hid). exists dr. split; [done|]. apply elem_of_deriveMissing; [done|]. by exists inc.
  - intros dr [Hd|Hd]%elem_of_app Ha Hin; [|by apply deriveMissing_status in Hd as [? _]].
    apply Hns in Hin as [Hin _]. apply Hin, Hseen. right. by apply (list_elem_of_fmap_2 (fun dr => inc_IncidentID (dr_Incident dr))).
Qed.

(** ** The cache *)

Section Cache.
Context {R Sg D S : Type} `{!IncidentReader R, !SignalStore Sg, !DeploySource D, !Store S}.
Implicit Types e : Engine R Sg D S.

(** The open rows of a store. *)
Definition open_rows (s : S) : gmap string Incident := filter (fun kv => open_row kv.2 = true) (rows s).

(** The cache is the open part of the store, each row under its own id. *)
Definition engine_ok e : Prop := store_ok (e_store e) /\ e_active e = open_rows (e_store e).

(** The cache has the ids of the open part of the store, and putting a row of the cache
    again would change nothing: the two differ at most in what the store leaves alone when
    it puts an incident over another one. *)
Definition coherent e : Prop :=
  store_ok (e_store e) /\ ids_ok (e_active e) /\
  forall id, match e_active e !! id, open_rows (e_store e) !! id with
             | Some c, Some r => kept r c = r
             | None, None => True
             | _, _ => False
             end.

Lemma engine_ok_active e : engine_ok e -> ids_ok (e_active e).
Proof. intros [H ->]. by apply ids_ok_filter, store_ids. Qed.

Lemma engine_ok_coherent e : engine_ok e -> coherent e.
Proof.
  intros H. split; [by destruct H|]. split; [by apply engine_ok_active|]. intros id. destruct H as [_ ->].
  destruct (open_rows _ !! id); [apply kept_self|done].
Qed.

(** A store that overwrites: the two are the same. *)
Lemma coherent_ok e : (forall old inc, kept old inc = inc) -> coherent e -> engine_ok e.
Proof.
  intros Hk (Hok & _ & H). split; [done|]. apply map_eq. intros id. specialize (H id).
  destruct (e_active e !! id), (open_rows (e_store e) !! id); try done. by rewrite <- H, Hk.
Qed.

Lemma open_rows_keep s s' inc : rows s' = keep_row kept (rows s) inc -> forall id,
  open_rows s' !! id = if decide (id = inc_IncidentID inc)
                       then (if open_row inc then Some (match rows s !! id with Some old => kept old inc | None => inc end) else None)
                       else open_rows s !! id.
Proof.
  intros Hr id. unfold open_rows. rewrite !map_lookup_filter, Hr. unfold keep_row. destruct (decide (id = inc_IncidentID inc)) as [->|Hne].
  - rewrite lookup_insert_eq. simpl.
    assert (open_row (match rows s !! inc_IncidentID inc with Some old => kept old inc | None => inc end) = open_row inc) as ->
      by (unfold open_row; destruct (rows s !! _); by rewrite ?kept_status).
    destruct (open_row inc); [by rewrite option_guard_True|by rewrite option_guard_False].
  - by rewrite lookup_insert_ne.
Qed.

(** What a row does to the cache. *)
Lemma apply_row_active e dr : forall id,
  e_active (apply_row e dr).1 !! id = if decide (id = inc_IncidentID (dr_Incident dr))
                                      then (if open_row (dr_Incident dr) then Some (dr_Incident dr) else None)
                                      else e_active e !! id.
Proof.
  intros id. unfold apply_row, open_row. cbv zeta.
  destruct (String.eqb_spec (inc_Status (dr_Incident dr)) StatusResolved) as [Hst|Hst]; cbn [negb];
    [|destruct (String.eqb _ StatusRecovering)]; simpl; rewrite ?cloneIncident_id;
    destruct (decide (id = _)) as [->|Hne]; by rewrite ?lookup_insert_eq, ?lookup_delete_eq, ?lookup_insert_ne, ?lookup_delete_ne by done.
Qed.

Lemma apply_row_rest e dr : e_store (apply_row e dr).1 = e_store e /\ e_notifier (apply_row e dr).1 = e_notifier e.
Proof. unfold apply_row. cbv zeta. by repeat case_match. Qed.

Lemma apply_row_ids e dr : ids_ok (e_active e) -> ids_ok (e_active (apply_row e dr).1).
Proof. intros H k i. rewrite apply_row_active. repeat case_match; [by intros [= <-]|done|by apply H]. Qed.

Lemma apply_row_coherent e store dr :
  coherent e -> holds (dr_Incident dr) -> Upsert (e_store e) (dr_Incident dr) = Some store ->
  coherent (apply_row (set_store e store) dr).1.
Proof.
  intros (Hok & Hids & H) Hh Hu. destruct (Upsert_rows _ _ _ Hok Hh Hu) as [Hok' Hr].
  split; [by rewrite (proj1 (apply_row_rest _ _))|]. split; [by apply apply_row_ids|]. intros id.
  rewrite apply_row_active, (proj1 (apply_row_rest _ _)). cbn [set_store e_store e_active]. rewrite (open_rows_keep _ _ _ Hr).
  destruct (decide (id = _)); [|apply H]. destruct (open_row _); [|done].
  destruct (rows _ !! id); [apply kept_again|apply kept_self].
Qed.

(** Nothing is left alone of the row an incident carries on. *)
Definition carries_in (m : gmap string Incident) (inc : Incident) : Prop :=
  forall old, m !! inc_IncidentID inc = Some old -> carries old inc.

Lemma keep_carried m inc : carries_in m inc -> keep_row kept m inc = <[inc_IncidentID inc := inc]> m.
Proof. intros H. unfold keep_row. destruct (m !! _) as [old|] eqn:E; [|done]. by rewrite kept_carried by (by apply H). Qed.

Lemma apply_row_ok e store dr :
  engine_ok e -> holds (dr_Incident dr) -> carries_in (rows (e_store e)) (dr_Incident dr) ->
  Upsert (e_store e) (dr_Incident dr) = Some store -> engine_ok (apply_row (set_store e store) dr).1.
Proof.
  intros [Hok Ha] Hh Hc Hu. destruct (Upsert_rows _ _ _ Hok Hh Hu) as [Hok' Hr].
  split; [by rewrite (proj1 (apply_row_rest _ _))|]. apply map_eq. intros id.
  rewrite apply_row_active, (proj1 (apply_row_rest _ _)). cbn [set_store e_store e_active]. rewrite (open_rows_keep _ _ _ Hr).
  destruct (decide (id = _)) as [->|]; [|by rewrite Ha]. destruct (open_row _); [|done].
  destruct (rows _ !! _) eqn:E; [|done]. by rewrite kept_carried by (by apply Hc).
Qed.

Lemma ApplyLive_ids drs : forall e e' notices err, ids_ok (e_active e) -> ApplyLive e drs = (e', notices, err) -> ids_ok (e_active e').
Proof.
  induction drs as [|dr drs IH]; intros e e' notices err Hok H; simpl in H; [by simplify_eq|].
  destruct (Upsert (e_store e) (dr_Incident dr)) as [store|] eqn:Hu; [|by simplify_eq].
  pose proof (apply_row_ids (set_store e store) dr Hok) as Hok'.
  destruct (apply_row (set_store e store) dr) as [e1 n1]. destruct (ApplyLive e1 drs) as [[e2 n2] er2] eqn:Hl.
  simplify_eq. by eapply IH.
Qed.

Lemma ApplyLive_coherent drs : forall e e' notices err, coherent e -> Forall holds (dr_Incident <$> drs) ->
  ApplyLive e drs = (e', notices, err) -> coherent e'.
Proof.
  induction drs as [|dr drs IH]; intros e e' notices err Hok Hh H; simpl in H; [by simplify_eq|].
  apply Forall_cons in Hh as [Hh0 Hh].
  destruct (Upsert (e_store e) (dr_Incident dr)) as [store|] eqn:Hu; [|by simplify_eq].
  pose proof (apply_row_coherent e store dr Hok Hh0 Hu) as Hok'.
  destruct (apply_row (set_store e store) dr) as [e1 n1]. destruct (ApplyLive e1 drs) as [[e2 n2] er2] eqn:Hl.
  simplify_eq. by eapply IH.
Qed.

(** The rows of a tick are each of another id and carry on what the store has under it. *)
Lemma ApplyLive_ok drs : forall e e' notices err, engine_ok e -> Forall holds (dr_Incident <$> drs) ->
  NoDup (row_ids drs) -> (forall dr, dr ∈ drs -> carries_in (rows (e_store e)) (dr_Incident dr)) ->
  ApplyLive e drs = (e', notices, err) -> engine_ok e'.
Proof.
  induction drs as [|dr drs IH]; intros e e' notices err Hok Hh Hnd Hc H; simpl in H; [by simplify_eq|].
  apply Forall_cons in Hh as [Hh0 Hh]. unfold row_ids in Hnd. rewrite fmap_cons in Hnd. apply NoDup_cons in Hnd as [Hni Hnd].
  destruct (Upsert (e_store e) (dr_Incident dr)) as [store|] eqn:Hu; [|by simplify_eq].
  pose proof (apply_row_ok e store dr Hok Hh0 (Hc dr ltac:(left)) Hu) as Hok'.
  pose proof (proj1 (apply_row_rest (set_store e store) dr)) as Hst.
  destruct (apply_row (set_store e store) dr) as [e1 n1]. destruct (ApplyLive e1 drs) as [[e2 n2] er2] eqn:Hl.
  cbn [fst set_store e_store] in Hst, Hok'. injection H as -> _ _. eapply IH; [exact Hok'|done|done| |exact Hl]. intros d Hd. rewrite Hst.
  destruct (Upsert_rows _ _ _ (proj1 Hok) Hh0 Hu) as [_ Hr]. intros old. rewrite Hr. unfold keep_row. rewrite lookup_insert_ne; [apply Hc; by right|].
  intros Heq. apply Hni. rewrite Heq. by apply (list_elem_of_fmap_2 (fun dr => inc_IncidentID (dr_Incident dr))).
Qed.

(** Loading the listed rows of a store gives its open rows. *)
Lemma load_rows (f : Incident -> Incident) it s l :
  (forall i, f i = i) -> store_ok s -> ListActive it s = Some l ->
  foldl (fun m inc => <[inc_IncidentID inc := f inc]> m) ∅ l = open_rows s.
Proof.
  intros Hf Hsk Hl. rewrite (ListActive_rows it s l Hsk Hl). pose proof (store_ids s Hsk) as Hok.
  assert (Hfold : forall l' m, foldl (fun m inc => <[inc_IncidentID inc := f inc]> m) m l' = put_rows m l').
  { induction l' as [|i l' IH]; intros m; [done|]. unfold put_rows. cbn [foldl]. rewrite Hf. apply IH. }
  rewrite Hfold. set (l' := sortIncidents _).
  assert (Hmem : forall i, i ∈ l' <-> rows s !! inc_IncidentID i = Some i /\ open_row i = true).
  { intros i. unfold l', sortIncidents. rewrite elem_of_ssort, elem_of_lfilter, list_elem_of_fmap. split.
    - intros [([k j] & -> & Hk) Ho]. apply elem_of_map_to_list in Hk. simpl. by rewrite (Hok k j Hk).
    - intros [Hk Ho]. split; [|done]. exists (inc_IncidentID i, i). split; [done|]. by apply elem_of_map_to_list. }
  assert (Hput : forall l'' m k, (put_rows m l'') !! k =
    match last (List.filter (fun i => String.eqb (inc_IncidentID i) k) l'') with Some i => Some i | None => m !! k end).
  { clear. induction l'' as [|i l'' IH] using rev_ind; intros m k; [done|]. unfold put_rows in *.
    rewrite foldl_snoc, List.filter_app. simpl. destruct (String.eqb_spec (inc_IncidentID i) k) as [<-|Hne].
    - by rewrite lookup_insert_eq, last_snoc.
    - by rewrite lookup_insert_ne, app_nil_r, IH. }
  apply map_eq. intros k. rewrite Hput. destruct (last _) as [i|] eqn:El.
  - apply last_Some_elem_of in El. apply elem_of_lfilter in El as [Hi Hk]. apply String.eqb_eq in Hk as <-.
    apply Hmem in Hi as [Hi Ho]. symmetry. apply map_lookup_filter_Some. done.
  - apply last_None in El. rewrite lookup_empty. symmetry. apply map_lookup_filter_None. right. intros i Hk Ho.
    pose proof (Hok k i Hk) as Hid. simpl in Ho.
    assert (Hin : i ∈ List.filter (fun i => String.eqb (inc_IncidentID i) k) l').
    { apply elem_of_lfilter. split; [apply Hmem; by rewrite Hid|]. by rewrite Hid, String.eqb_refl. }
    rewrite El in Hin. by apply elem_of_nil in Hin.
Qed.
End Cache.

Section Reach.
Context {R Sg D S : Type} `{!IncidentReader R, !SignalStore Sg, !DeploySource D, !Store S}.

(** An engine that was bootstrapped over a store in order and then ran any series of ticks,
    failed ones included, and rebuilds that returned no error; [ok] is what is assumed of
    the rows each of them derived. *)
Inductive running (ok : Engine R Sg D S -> list derivedRow -> Prop) : Engine R Sg D S -> Prop :=
| run_boot it e e' : store_ok (e_store e) -> Bootstrap it e = (e', None) -> running ok e'
| run_tick it now e e' notices err :
    running ok e -> (forall drs, (engine_derive it now e (e_reader e)).2 = inl drs -> ok e drs) ->
    Tick it now e = (e', notices, err) -> running ok e'
| run_rebuild it now reader e e' :
    running ok e -> (forall drs, (engine_derive it now e reader).2 = inl drs -> ok e drs) ->
    Rebuild it now e reader = (e', None) -> running ok e'.

(** Nothing is assumed. *)
Definition anyhow (e : Engine R Sg D S) (drs : list derivedRow) : Prop := True.

(** The store can represent each incident. *)
Definition fitting (e : Engine R Sg D S) (drs : list derivedRow) : Prop := Forall holds (dr_Incident <$> drs).

(** No id is taken twice: not by two families, not in one cycle, not by a new incident when
    the store still has a resolved one under it. *)
Definition unreopened (e : Engine R Sg D S) (drs : list derivedRow) : Prop :=
  fitting e drs /\ NoDup (row_ids drs) /\ honest_ids (e_active e) /\
  (forall k inc, e_active e !! k = Some inc -> own_service inc) /\
  (forall dr old, dr ∈ drs -> rows (e_store e) !! inc_IncidentID (dr_Incident dr) = Some old -> open_row old = true).

Lemma running_impl (ok ok' : Engine R Sg D S -> list derivedRow -> Prop) e :
  (forall e drs, ok e drs -> ok' e drs) -> running ok e -> running ok' e.
Proof.
  intros Hi. induction 1 as [it e e' Hok Hb|it now e e' notices err _ IH Hr Ht|it now reader e e' _ IH Hr Ht].
  - by eapply run_boot.
  - eapply run_tick; [exact IH|by eauto|exact Ht].
  - eapply run_rebuild; [exact IH|by eauto|exact Ht].
Qed.

Lemma SnapshotActive_id (e : Engine R Sg D S) : SnapshotActive e = e_active e.
Proof. unfold SnapshotActive. rewrite <- (map_fmap_id (e_active e)) at 2. apply map_fmap_ext. intros k i _. apply cloneIncident_id. Qed.

Lemma engine_derive_rest it now (e : Engine R Sg D S) reader :
  let e1 := (engine_derive it now e reader).1 in e_store e1 = e_store e /\ e_active e1 = e_active e /\ e_notifier e1 = e_notifier e.
Proof. unfold engine_derive. by destruct (derive _ _ _ _ _ _ _ _). Qed.

Lemma load_ids l : ids_ok (load_active l).
Proof.
  unfold load_active. rewrite put_rows_clone. apply ids_ok_put. intros k i Hk. by rewrite lookup_empty in Hk.
Qed.

(** Every row of the cache is under its own id, come what may. *)
Lemma running_ids ok (e : Engine R Sg D S) : running ok e -> ids_ok (e_active e).
Proof.
  induction 1 as [it e e' Hok Hb|it now e e' notices err _ IH _ Ht|it now reader e e' _ IH _ Hr].
  - unfold Bootstrap in Hb. destruct (ListActive it (e_store e)) as [l|] eqn:Hl; [|done]. simplify_eq.
    apply (ids_ok_put ∅). intros k i Hk. by rewrite lookup_empty in Hk.
  - unfold Tick, engine_derive in Ht. destruct (derive _ _ _ _ _ _ _ _) as [p [drs|]]; simplify_eq; [|done].
    eapply ApplyLive_ids; [|exact Ht]. done.
  - unfold Rebuild, engine_derive in Hr. destruct (derive _ _ _ _ _ _ _ _) as [p [drs|]]; [|done].
    unfold ApplyRebuild in Hr. simpl in Hr. destruct (ReplaceNonResolved _ _) as [store|] eqn:Hs; [|done].
    destruct (ListActive it store) as [l|] eqn:Hl; [|done]. simplify_eq. apply load_ids.
Qed.

(** After start-up and after a rebuild the cache has just been loaded. *)
Lemma Bootstrap_ok it (e e' : Engine R Sg D S) : store_ok (e_store e) -> Bootstrap it e = (e', None) -> engine_ok e'.
Proof.
  intros Hok Hb. unfold Bootstrap in Hb. destruct (ListActive it (e_store e)) as [l|] eqn:Hl; [|done]. simplify_eq.
  split; [done|]. by apply (load_rows (fun i => i) it).
Qed.

Lemma Rebuild_ok it now reader (e e' : Engine R Sg D S) : store_ok (e_store e) ->
  (forall drs, (engine_derive it now e reader).2 = inl drs -> fitting e drs) -> Rebuild it now e reader = (e', None) -> engine_ok e'.
Proof.
  intros Hok Hf Hr. unfold Rebuild in Hr. pose proof (engine_derive_rest it now e reader) as (Es & _). 
  destruct (engine_derive it now e reader) as [e1 [drs|]]; [|done]. simpl in Es. specialize (Hf drs eq_refl).
  unfold ApplyRebuild in Hr. rewrite Es in Hr. destruct (ReplaceNonResolved _ _) as [store|] eqn:Hs; [|done].
  destruct (ListActive it _) as [l|] eqn:Hl; [|done]. simplify_eq.
  destruct (ReplaceNonResolved_rows _ _ _ Hok Hf Hs) as [Hok' _]. split; [done|]. simpl.
  unfold load_active. apply (load_rows cloneIncident it); [apply cloneIncident_id|done|done].
Qed.

Lemma running_coherent (e : Engine R Sg D S) : running fitting e -> coherent e.
Proof.
  induction 1 as [it e e' Hok Hb|it now e e' notices err _ IH Hf Ht|it now reader e e' _ IH Hf Hr].
  - by eapply engine_ok_coherent, Bootstrap_ok.
  - unfold Tick in Ht. pose proof (engine_derive_rest it now e (e_reader e)) as (Es & Ea & _).
    destruct (engine_derive it now e (e_reader e)) as [e1 [drs|]]; simpl in Es, Ea.
    + eapply ApplyLive_coherent; [|by apply Hf|exact Ht]. unfold coherent. by rewrite Es, Ea.
    + simplify_eq. unfold coherent. by rewrite Es, Ea.
  - eapply engine_ok_coherent, Rebuild_ok; [|exact Hf|exact Hr]. by destruct IH.
Qed.

(** The rows of a cycle carry on the rows of the store. *)
Lemma derived_carries (e : Engine R Sg D S) it now reader drs :
  engine_ok e -> (engine_derive it now e reader).2 = inl drs -> unreopened e drs ->
  forall dr, dr ∈ drs -> carries_in (rows (e_store e)) (dr_Incident dr).
Proof.
  intros Hok Hd (_ & _ & Hhon & Hsv & Hfresh) dr Hdr old Hold. pose proof (engine_ok_active e Hok) as Hact. destruct Hok as [_ Hok].
  unfold engine_derive in Hd. rewrite SnapshotActive_id in Hd. destruct (derive _ _ _ _ _ _ _ _) as [pending r] eqn:E. simpl in Hd. subst r.
  pose proof (derive_transition it _ _ _ now _ Hact _ _ _ _ E) as Htr. apply (proj1 (Forall_forall _ _)) with (x := dr) in Htr; [|done].
  assert (e_active e !! inc_IncidentID (dr_Incident dr) = Some old) as Ha.
  { rewrite Hok. apply map_lookup_filter_Some. split; [done|]. by eapply Hfresh. }
  destruct Htr as [inc Hn _ _ _ _ _|inc old' Hs Hst Hsus _ _ _ Hown Hkey|old' Hs _|old' Hs _ _]; simpl in *; [congruence| | |]; rewrite Ha in Hs; injection Hs as <-; [|done|done].
  split; [by apply Hkey|]. split; [|done]. pose proof (Hsv _ _ Ha) as Hown'. unfold own_service in *. destruct (Hkey Hhon) as [_ Ef]. congruence.
Qed.

Lemma running_ok (e : Engine R Sg D S) : running unreopened e -> engine_ok e.
Proof.
  induction 1 as [it e e' Hok Hb|it now e e' notices err _ IH Hf Ht|it now reader e e' _ IH Hf Hr].
  - by eapply Bootstrap_ok.
  - unfold Tick in Ht. pose proof (engine_derive_rest it now e (e_reader e)) as (Es & Ea & _).
    pose proof (derived_carries e it now (e_reader e)) as Hc.
    destruct (engine_derive it now e (e_reader e)) as [e1 [drs|]]; simpl in Es, Ea; [|simplify_eq; unfold engine_ok; by rewrite Es, Ea].
    specialize (Hf drs eq_refl). eapply ApplyLive_ok; [|by apply Hf|by apply Hf| |exact Ht]; [unfold engine_ok; by rewrite Es, Ea|].
    rewrite Es. by apply Hc.
  - eapply Rebuild_ok; [by destruct IH| |exact Hr]. intros drs Hd. by apply Hf.
Qed.

(** C11: the cache follows the store.  After start-up over a store in order, whatever ticks
    and rebuilds follow and wherever store errors cut a tick short, the cache holds an
    incident exactly when the store has it open, with everything the store takes from the
    incident it is given; and as long as no id is taken twice (by two families, twice in
    one cycle, or by a new incident while the store still has a resolved one under it) and
    open incidents are of the service of their family, as derived ones are, the
    cache holds exactly the open rows of the store.  The rebuilds are those that return no
    error, and every derived incident is one the store can represent. *)
Theorem running_cache (e : Engine R Sg D S) :
  (running fitting e -> coherent e) /\ (running unreopened e -> engine_ok e).
Proof. split; [apply running_coherent|apply running_ok]. Qed.

(** A row that fits the cache: it existed iff the cache has it, and only known rows are
    resolved. *)
Definition fits (active : gmap string Incident) (dr : derivedRow) : Prop :=
  (dr_Existed dr = true <-> is_Some (active !! inc_IncidentID (dr_Incident dr))) /\
  (inc_Status (dr_Incident dr) = StatusActive \/ dr_Existed dr = true).

Lemma transition_fits cfg now active dr : transition cfg now active dr -> fits active dr.
Proof.
  destruct 1 as [inc Hn _ Ha _ _ _|inc old Hs _ _ Ha _ _ _ _|old Hs _|old Hs _ _]; unfold fits; simpl;
    (split; [|tauto]); rewrite ?Hn, ?Hs; split; try done; try (by intros [? ?]); by eexists.
Qed.

Definition opened_ids (notices : list Notice) : list string :=
  notices ≫= fun n => match n with Opened i => [inc_IncidentID i] | Resolved _ => [] end.
Definition resolved_ids (notices : list Notice) : list string :=
  notices ≫= fun n => match n with Opened _ => [] | Resolved i => [inc_IncidentID i] end.

Lemma opened_ids_app n1 n2 : opened_ids (n1 ++ n2) = opened_ids n1 ++ opened_ids n2.
Proof. apply bind_app. Qed.
Lemma resolved_ids_app n1 n2 : resolved_ids (n1 ++ n2) = resolved_ids n1 ++ resolved_ids n2.
Proof. apply bind_app. Qed.

(** The notices of a step are the changes it makes to the active set. *)
Definition changes (before after : gmap string Incident) (opened resolved : list string) : Prop :=
  NoDup opened /\ NoDup resolved /\
  forall id, (id ∈ opened <-> before !! id = None /\ is_Some (after !! id)) /\
             (id ∈ resolved <-> is_Some (before !! id) /\ after !! id = None).

Lemma stays (o : option Incident) : ~ (o = None /\ is_Some o) /\ ~ (is_Some o /\ o = None).
Proof. destruct o; split; intros [H1 H2]; try done; by destruct H2 || by destruct H1. Qed.

Lemma changes_refl m : changes m m [] [].
Proof.
  split_and!; [constructor|constructor|]. intros id. rewrite !elem_of_nil. pose proof (stays (m !! id)). tauto.
Qed.

Lemma changes_open m id v : m !! id = None -> changes m (<[id := v]> m) [id] [].
Proof.
  intros Hm. split_and!; [apply NoDup_singleton|constructor|]. intros k. rewrite elem_of_nil, list_elem_of_singleton.
  destruct (decide (k = id)) as [->|Hne].
  - rewrite Hm, lookup_insert_eq. split; [by split; eauto|]. split; [done|]. by intros [[? ?] _].
  - rewrite lookup_insert_ne by done. pose proof (stays (m !! k)). tauto.
Qed.

Lemma changes_update m id v : is_Some (m !! id) -> changes m (<[id := v]> m) [] [].
Proof.
  intros [w Hm]. split_and!; [constructor|constructor|]. intros k. rewrite elem_of_nil.
  destruct (decide (k = id)) as [->|Hne].
  - rewrite Hm, lookup_insert_eq. split; split; try done; by intros [? ?].
  - rewrite lookup_insert_ne by done. pose proof (stays (m !! k)). tauto.
Qed.

Lemma changes_resolve m id : is_Some (m !! id) -> changes m (delete id m) [] [id].
Proof.
  intros [w Hm]. split_and!; [constructor|apply NoDup_singleton|]. intros k. rewrite elem_of_nil, list_elem_of_singleton.
  destruct (decide (k = id)) as [->|Hne].
  - rewrite Hm, lookup_delete_eq. destruct (stays (Some w)) as [H1 H2]. split; split; try done; intros [? ?]; done.
  - rewrite lookup_delete_ne by done. pose proof (stays (m !! k)). tauto.
Qed.

(** Steps on different ids compose. *)
Lemma changes_app m m1 m2 o1 r1 o2 r2 id0 :
  changes m m1 o1 r1 -> changes m1 m2 o2 r2 ->
  (forall id, id <> id0 -> m1 !! id = m !! id) -> m2 !! id0 = m1 !! id0 ->
  changes m m2 (o1 ++ o2) (r1 ++ r2).
Proof.
  intros (Ho1 & Hr1 & H1) (Ho2 & Hr2 & H2) Hother Hid0.
  assert (H1n : forall id, id <> id0 -> (id ∉ o1) /\ (id ∉ r1)).
  { intros id Hne. destruct (H1 id) as [-> ->]. rewrite (Hother id Hne).
    exact (stays (m !! id)). }
  assert (H2n : (id0 ∉ o2) /\ (id0 ∉ r2)).
  { destruct (H2 id0) as [-> ->]. rewrite Hid0.
    exact (stays (m1 !! id0)). }
  split_and!.
  - apply NoDup_app. split_and!; [done| |done]. intros id Hi Hi2. destruct (decide (id = id0)) as [->|Hne]; [tauto|].
    pose proof (H1n id Hne). tauto.
  - apply NoDup_app. split_and!; [done| |done]. intros id Hi Hi2. destruct (decide (id = id0)) as [->|Hne]; [tauto|].
    pose proof (H1n id Hne). tauto.
  - intros id. rewrite !elem_of_app. destruct (decide (id = id0)) as [->|Hne].
    + rewrite Hid0. destruct (H1 id0) as [<- <-]. tauto.
    + rewrite <- (Hother id Hne). destruct (H2 id) as [<- <-]. pose proof (H1n id Hne). tauto.
Qed.

(** A row of one id changes that id only. *)
Lemma apply_row_changes (e : Engine R Sg D S) store dr :
  e_notifier e = true -> fits (e_active e) dr ->
  let '(e1, n1) := apply_row (set_store e store) dr in
  (forall id, id <> inc_IncidentID (dr_Incident dr) -> e_active e1 !! id = e_active e !! id) /\ e_notifier e1 = true /\
  changes (e_active e) (e_active e1) (opened_ids n1) (resolved_ids n1).
Proof.
  intros Hn [Hex Hst]. unfold apply_row. cbv zeta. set (inc := dr_Incident dr) in *.
  destruct (String.eqb_spec (inc_Status inc) StatusResolved) as [Hres|Hres]; simpl; rewrite Hn.
  - split_and!; [intros id Hne; by rewrite lookup_delete_ne|done|]. apply changes_resolve, Hex.
    destruct Hst as [Ha|]; [by rewrite Ha in Hres|done].
  - assert (Hother : forall id, id <> inc_IncidentID inc ->
      <[inc_IncidentID inc := cloneIncident inc]> (e_active e) !! id = e_active e !! id)
      by (intros id Hne; by rewrite lookup_insert_ne).
    destruct (String.eqb_spec (inc_Status inc) StatusRecovering) as [Hrec|Hrec]; [|destruct (dr_Existed dr) eqn:Ee]; simpl;
      split_and!; try done.
    + apply changes_update, Hex. destruct Hst as [Ha|]; [by rewrite Ha in Hrec|done].
    + apply changes_update. by apply Hex.
    + apply changes_open. destruct (e_active e !! inc_IncidentID inc) eqn:El; [|done]. exfalso.
      assert (false = true) by (apply Hex; by eexists). done.
Qed.

Lemma ApplyLive_changes drs : forall (e e' : Engine R Sg D S) notices err,
  e_notifier e = true -> NoDup (row_ids drs) -> Forall (fits (e_active e)) drs ->
  ApplyLive e drs = (e', notices, err) ->
  (forall id, id ∉ row_ids drs -> e_active e' !! id = e_active e !! id) /\
  changes (e_active e) (e_active e') (opened_ids notices) (resolved_ids notices).
Proof.
  induction drs as [|dr drs IH]; intros e e' notices err Hn Hnd Hf H; simpl in H; [simplify_eq; split; [done|apply changes_refl]|].
  destruct (Upsert (e_store e) (dr_Incident dr)) as [store|]; [|simplify_eq; split; [done|apply changes_refl]].
  unfold row_ids in *. rewrite fmap_cons in *. apply NoDup_cons in Hnd as [Hni Hnd]. apply Forall_cons in Hf as [Hf0 Hf].
  pose proof (apply_row_changes e store dr Hn Hf0) as Hrow. destruct (apply_row (set_store e store) dr) as [e1 n1].
  destruct Hrow as (Hother & Hn1 & Hc1). destruct (ApplyLive e1 drs) as [[e2 n2] er2] eqn:Hl. simplify_eq.
  destruct (IH e1 e' n2 err Hn1 Hnd) as [Hkeep Hc2]; [|done|].
  - rewrite Forall_forall in *. intros d Hd. specialize (Hf d Hd). unfold fits in *. rewrite Hother; [done|].
    intros Heq. apply Hni. rewrite <- Heq. by apply (list_elem_of_fmap_2 (fun dr => inc_IncidentID (dr_Incident dr))).
  - split.
    + intros id Hid. apply not_elem_of_cons in Hid as [Hne Hid]. rewrite Hkeep by done. by apply Hother.
    + rewrite opened_ids_app, resolved_ids_app. eapply changes_app; [exact Hc1|exact Hc2|exact Hother|by apply Hkeep].
Qed.

(** The notices name the incidents that were opened and those that were closed; a closed
    one is named once. *)
Definition announces (before after : gmap string Incident) (opened resolved : list string) : Prop :=
  NoDup resolved /\
  forall id, (id ∈ opened <-> before !! id = None /\ is_Some (after !! id)) /\
             (id ∈ resolved <-> is_Some (before !! id) /\ after !! id = None).

Lemma ApplyLive_app l1 l2 (e : Engine R Sg D S) :
  ApplyLive e (l1 ++ l2) =
  match ApplyLive e l1 with
  | (e1, n1, None) => let '(e2, n2, err) := ApplyLive e1 l2 in (e2, n1 ++ n2, err)
  | (e1, n1, Some err) => (e1, n1, Some err)
  end.
Proof.
  revert e. induction l1 as [|dr l1 IH]; intros e; cbn [app ApplyLive].
  - by destruct (ApplyLive e l2) as [[e2 n2] err].
  - destruct (Upsert _ _) as [store|]; [|done]. destruct (apply_row _ _) as [e1 n1]. rewrite IH.
    destruct (ApplyLive e1 l1) as [[e2 n2] [err|]]; [done|]. destruct (ApplyLive e2 l2) as [[e3 n3] err]. by rewrite app_assoc.
Qed.

(** Fresh rows only open incidents, possibly twice. *)
Lemma ApplyLive_fresh (a0 : gmap string Incident) drs : forall (e e' : Engine R Sg D S) ns err,
  e_notifier e = true -> Forall (fits a0) drs -> Forall (fun dr => inc_Status (dr_Incident dr) = StatusActive) drs ->
  ApplyLive e drs = (e', ns, err) ->
  e_notifier e' = true /\ resolved_ids ns = [] /\
  (forall id, is_Some (e_active e !! id) -> is_Some (e_active e' !! id)) /\
  ((forall id, is_Some (a0 !! id) -> is_Some (e_active e !! id)) ->
   forall id, (id ∈ opened_ids ns \/ (a0 !! id = None /\ is_Some (e_active e !! id))) <-> a0 !! id = None /\ is_Some (e_active e' !! id)).
Proof.
  assert (forall id : string, id ∉ @nil string) as Hnil by (intros id ?%elem_of_nil; done).
  induction drs as [|dr drs IH]; intros e e' ns err Hn Hf Ha H; simpl in H.
  { simplify_eq. split_and!; try done. intros _ id. specialize (Hnil id). unfold opened_ids. simpl. tauto. }
  destruct (Upsert (e_store e) (dr_Incident dr)) as [store|]; [|simplify_eq; split_and!; try done; intros _ id; specialize (Hnil id); unfold opened_ids; simpl; tauto].
  apply Forall_cons in Hf as [[Hex _] Hf]. apply Forall_cons in Ha as [Ha0 Ha].
  unfold apply_row in H. cbv zeta in H. rewrite Ha0 in H. cbn [String.eqb StatusActive StatusResolved StatusRecovering Ascii.eqb Bool.eqb] in H.
  set (e1 := remember (set_store e store) (dr_Incident dr)) in *.
  assert (forall id, e_active e1 !! id = if decide (id = inc_IncidentID (dr_Incident dr)) then Some (dr_Incident dr) else e_active e !! id) as He1.
  { intros id. unfold e1. simpl. rewrite cloneIncident_id. destruct (decide _) as [->|]; by rewrite ?lookup_insert_eq, ?lookup_insert_ne by done. }
  destruct (ApplyLive e1 drs) as [[e2 n2] er2] eqn:Hl. simplify_eq.
  destruct (IH e1 e' n2 err Hn Hf Ha Hl) as (Hn' & Hr & Hgrow & Hopen). cbn [set_store e_notifier].
  rewrite Hn, andb_true_r. rewrite resolved_ids_app, Hr, app_nil_r. split; [done|]. split; [by destruct (dr_Existed dr)|].
  assert (forall id, is_Some (e_active e !! id) -> is_Some (e_active e1 !! id)) as Hstep.
  { intros id Hid. rewrite He1. case_decide; [by eexists|done]. }
  split; [by auto|]. intros Hsub id. rewrite <- Hopen by auto. rewrite opened_ids_app, elem_of_app, He1. 
  assert ((id ∈ opened_ids (if negb (dr_Existed dr) then [Opened (dr_Incident dr)] else [])) <->
          id = inc_IncidentID (dr_Incident dr) /\ a0 !! id = None) as ->.
  { destruct (dr_Existed dr) eqn:Ee; unfold opened_ids; simpl.
    - split; [by intros ?%elem_of_nil|]. intros [-> Hno]. destruct (proj1 Hex eq_refl) as [? Hs]. congruence.
    - rewrite list_elem_of_singleton. split; [|by intros [-> _]]. intros ->. split; [done|].
      destruct (a0 !! _); [|done]. assert (false = true); [apply Hex; by eexists|done]. }
  case_decide as Hid; [|tauto]. assert (is_Some (Some (dr_Incident dr))) by by eexists. tauto.
Qed.

(** Rows of known incidents open none. *)
Lemma ApplyLive_known drs : forall (e e' : Engine R Sg D S) ns err,
  Forall (fun dr => dr_Existed dr = true) drs -> ApplyLive e drs = (e', ns, err) -> opened_ids ns = [].
Proof.
  induction drs as [|dr drs IH]; intros e e' ns err Hf H; simpl in H; [by simplify_eq|].
  destruct (Upsert _ _) as [store|]; [|by simplify_eq]. apply Forall_cons in Hf as [Hf0 Hf].
  assert (opened_ids (apply_row (set_store e store) dr).2 = []) as Ho.
  { unfold apply_row. cbv zeta. rewrite Hf0. repeat case_match; done. }
  destruct (apply_row _ _) as [e1 n1]. destruct (ApplyLive e1 drs) as [[e2 n2] er2] eqn:Hl. simplify_eq.
  rewrite opened_ids_app. rewrite (IH _ _ _ _ Hf Hl), app_nil_r. exact Ho.
Qed.

(** An incident is announced by its row. *)
Lemma ApplyLive_opened drs : forall (e e' : Engine R Sg D S) ns err,
  ApplyLive e drs = (e', ns, err) -> opened_ids ns `sublist_of` row_ids drs.
Proof.
  induction drs as [|dr drs IH]; intros e e' ns err H; simpl in H; [simplify_eq; apply sublist_nil_l|].
  destruct (Upsert _ _) as [store|]; [|simplify_eq; apply sublist_nil_l].
  assert (opened_ids (apply_row (set_store e store) dr).2 `sublist_of` [inc_IncidentID (dr_Incident dr)]) as Ho.
  { unfold apply_row. cbv zeta. repeat case_match; simpl; repeat constructor. }
  destruct (apply_row _ _) as [e1 n1]. destruct (ApplyLive e1 drs) as [[e2 n2] er2] eqn:Hl. simplify_eq.
  rewrite opened_ids_app. apply (sublist_app _ [_]); [exact Ho|by eapply IH].
Qed.

(** Fresh rows, then rows of incidents that are known, each of another. *)
Lemma ApplyLive_announces out missing (e e' : Engine R Sg D S) ns err :
  e_notifier e = true -> Forall (fits (e_active e)) (out ++ missing) ->
  Forall (fun dr => inc_Status (dr_Incident dr) = StatusActive) out ->
  Forall (fun dr => dr_Existed dr = true) missing -> NoDup (row_ids missing) ->
  ApplyLive e (out ++ missing) = (e', ns, err) ->
  announces (e_active e) (e_active e') (opened_ids ns) (resolved_ids ns).
Proof.
  intros Hn Hf Ha Hm Hnd H. apply Forall_app in Hf as [Hf1 Hf2]. rewrite ApplyLive_app in H.
  destruct (ApplyLive e out) as [[e1 n1] er1] eqn:E1.
  destruct (ApplyLive_fresh (e_active e) out e e1 n1 er1 Hn Hf1 Ha E1) as (Hn1 & Hr1 & Hgrow & Hopen).
  assert (forall id, id ∈ opened_ids n1 <-> e_active e !! id = None /\ is_Some (e_active e1 !! id)) as Ho1.
  { intros id. rewrite <- (Hopen ltac:(done) id). pose proof (stays (e_active e !! id)). tauto. }
  assert (forall id : string, id ∉ @nil string) as Hnil by (intros id ?%elem_of_nil; done).
  assert (forall id, e_active e1 !! id = None -> e_active e !! id = None) as Hdom.
  { intros id Hno. destruct (e_active e !! id) eqn:Ee; [|done]. destruct (Hgrow id) as [? Hs]; [by eexists|congruence]. }
  destruct er1 as [er1|]; [simplify_eq|].
  { rewrite Hr1. split; [constructor|]. intros id. split; [apply Ho1|]. split; [by intros ?%elem_of_nil|]. intros [[i Hi] Hno]. rewrite (Hdom id Hno) in Hi. done. }
  destruct (ApplyLive e1 missing) as [[e2 n2] er2] eqn:E2. simplify_eq.
  assert (Forall (fits (e_active e1)) missing) as Hf2'.
  { rewrite Forall_forall in *. intros dr Hdr. destruct (Hf2 dr Hdr) as [Hex _]. pose proof (Hm dr Hdr) as Hk. split; [|by right].
    split; [|done]. intros _. apply Hgrow. by apply Hex. }
  destruct (ApplyLive_changes missing e1 e' n2 err Hn1 Hnd Hf2' E2) as [Hkeep (_ & Hr2 & Hc)].
  rewrite opened_ids_app, resolved_ids_app, Hr1, (ApplyLive_known missing e1 e' n2 err Hm E2), app_nil_r. split; [done|]. intros id.
  assert (id ∈ row_ids missing -> is_Some (e_active e !! id)) as Hin.
  { intros Hid. apply list_elem_of_fmap in Hid as (dr & -> & Hdr). rewrite Forall_forall in Hf2, Hm. apply (Hf2 dr Hdr). by apply Hm. }
  destruct (Hc id) as [_ Hres]. rewrite Ho1. cbn [app]. rewrite Hres.
  destruct (decide (id ∈ row_ids missing)) as [Hi|Hi].
  - destruct (Hin Hi) as [v Hv]. split; [rewrite Hv; split; intros [? ?]; done|]. split; intros [_ ?]; (split; [|done]); [by eexists|].
    apply Hgrow. by eexists.
  - rewrite (Hkeep id Hi). split; [done|]. pose proof (stays (e_active e1 !! id)). split; [tauto|]. intros [[v Hv] Hno].
    rewrite (Hdom id Hno) in Hv. done.
Qed.

Lemma tick_announces ok (it : MapIter) (now : Time) (e e' : Engine R Sg D S) (notices : list Notice)
    (err : option EngineError) :
  running ok e -> e_notifier e = true -> Tick it now e = (e', notices, err) ->
  announces (e_active e) (e_active e') (opened_ids notices) (resolved_ids notices) /\
  (forall drs, (engine_derive it now e (e_reader e)).2 = inl drs -> opened_ids notices `sublist_of` row_ids drs).
Proof.
  intros Hrun Hn Ht. pose proof (running_ids ok e Hrun) as Hids. unfold Tick, engine_derive in *. rewrite SnapshotActive_id in *.
  assert (announces (e_active e) (e_active e) [] []) as Hsame.
  { split; [constructor|]. intros id. rewrite !elem_of_nil. pose proof (stays (e_active e !! id)). tauto. }
  destruct (derive _ _ _ _ _ _ _ _) as [p [drs|]] eqn:Hd; [|simplify_eq; split; [exact Hsame|by intros]].
  split; [|intros ? [= <-]; by eapply ApplyLive_opened].
  pose proof (derive_transition _ _ _ _ _ _ Hids _ _ _ _ Hd) as Htr. apply derive_rows in Hd as (out & seen & -> & [Hout _]); [|done].
  eapply (ApplyLive_announces out _ (set_pending e p)); [done| | | | |exact Ht].
  - eapply Forall_impl; [exact Htr|]. intros dr. apply transition_fits.
  - eapply Forall_impl; [exact Hout|]. by intros dr [_ ?].
  - apply Forall_forall. intros dr Hdr. by apply (deriveMissing_status it (e_cfg e) now (e_active e) Hids) in Hdr as [_ ?].
  - by apply deriveMissing_ids.
Qed.

(** C5: the notifications of a tick are exactly the changes of the set of open incidents,
    for an engine with a notifier however it ran before: an incident is announced as opened
    exactly when it was not open before and is now, and as resolved, once, exactly when it
    was and is no longer; this holds for the rows that were stored when a store error cuts
    the tick short.  An incident is announced as opened once as long as the cycle derived
    no two rows under one id. *)
Theorem Tick_notices (it : MapIter) (now : Time) (e e' : Engine R Sg D S) (notices : list Notice)
    (err : option EngineError) :
  running anyhow e -> e_notifier e = true -> Tick it now e = (e', notices, err) ->
  announces (e_active e) (e_active e') (opened_ids notices) (resolved_ids notices) /\
  (forall drs, (engine_derive it now e (e_reader e)).2 = inl drs -> NoDup (row_ids drs) -> NoDup (opened_ids notices)).
Proof.
  intros Hrun Hn Ht. destruct (tick_announces anyhow it now e e' notices err Hrun Hn Ht) as [Ha Hs]. split; [exact Ha|].
  intros drs Hd Hnd. by eapply sublist_NoDup; [|apply Hs].
Qed.
End Reach.

(** ** Concrete runs *)

Definition quiet_reader : incidentReaderAdapter := mkReaderAdapter iter_canonical None.

Definition recovering_incident : Incident :=
  with_lifecycle open_incident StatusRecovering (Some (unix_epoch + 40 * Second)) None (unix_epoch + 40 * Second).

Definition store_of (inc : Incident) : MemoryStore := mkMemoryStore {[inc_IncidentID inc := inc]}.

(** An engine just started over a store of one incident, with nothing to read. *)
Definition started (inc : Incident) : Engine incidentReaderAdapter unit unit MemoryStore :=
  mkEngine quiet_reader None None (store_of inc) DefaultConfig true {[inc_IncidentID inc := inc]} ∅.

Lemma started_running ok inc : open_row inc = true -> running ok (started inc).
Proof.
  intros Ho. apply (run_boot ok iter_canonical (mkEngine quiet_reader None None (store_of inc) DefaultConfig true ∅ ∅)).
  - intros k i Hk. simpl in Hk. apply lookup_singleton_Some in Hk as [<- <-]. done.
  - unfold Bootstrap. simpl. unfold mem_ListActive. simpl. rewrite map_to_list_singleton. simpl.
    rewrite Ho. simpl. by rewrite cloneIncident_id, insert_empty.
Qed.

Lemma derive_transitions_witness :
  exists rows, derive (Sg:=unit) (D:=unit) iter_canonical DefaultConfig None None (unix_epoch + Minute)
      {["inc_1" := open_incident]} quiet_reader ∅ = (∅, inl rows) /\
    (inc_Status ∘ dr_Incident) <$> rows = [StatusRecovering] /\
    Forall (transition DefaultConfig (unix_epoch + Minute) {["inc_1" := open_incident]}) rows /\ NoDup (row_ids (fading rows)).
Proof.
  eexists. split; [vm_compute; reflexivity|]. split; [reflexivity|].
  edestruct (derive_transitions (Sg:=unit) (D:=unit) iter_canonical DefaultConfig None None (unix_epoch + Minute)
           {["inc_1" := open_incident]} quiet_reader ∅ ∅) as (Ht & _ & Hn & _); [| |split; [exact Ht|exact Hn]].
  - intros k i Hk. apply lookup_singleton_Some in Hk as [<- <-]. reflexivity.
  - vm_compute. reflexivity.
Defined.

Lemma running_cache_witness : engine_ok (started open_incident).
Proof. apply running_cache. apply started_running. reflexivity. Defined.

(** A recovering incident unseen for an hour is resolved and announced. *)
Lemma Tick_notices_witness :
  exists e' notices, Tick iter_canonical (unix_epoch + Hour) (started recovering_incident) = (e', notices, None) /\
    resolved_ids notices = ["inc_1"] /\
    announces (e_active (started recovering_incident)) (e_active e') (opened_ids notices) (resolved_ids notices).
Proof.
  eexists _, _. split; [vm_compute; reflexivity|]. split; [reflexivity|].
  eapply (Tick_notices iter_canonical (unix_epoch + Hour) (started recovering_incident)).
  - apply started_running. reflexivity.
  - reflexivity.
  - vm_compute. reflexivity.
Defined.

(** A rebuild loses a recovering incident that is not yet due to be resolved: the cycle
    derives no row for it, and replacing the open rows deletes it from the store, neither
    resolved nor announced; a tick at the same moment keeps it. *)
Theorem Rebuild_drops_recovering :
  exists e' e'' notices,
    running anyhow (started recovering_incident) /\
    rows (e_store (started recovering_incident)) !! "inc_1" = Some recovering_incident /\
    TimeSub (inc_LastSeenAt recovering_incident + Minute) (inc_LastSeenAt recovering_incident) < cfg_ResolveAfter DefaultConfig /\
    Rebuild iter_canonical (inc_LastSeenAt recovering_incident + Minute) (started recovering_incident) quiet_reader = (e', None) /\
    rows (e_store e') !! "inc_1" = None /\ e_active e' = ∅ /\
    Tick iter_canonical (inc_LastSeenAt recovering_incident + Minute) (started recovering_incident) = (e'', notices, None) /\
    rows (e_store e'') !! "inc_1" = Some recovering_incident.
Proof.
  eexists _, _, _. split; [by apply started_running|]. split_and!; try (vm_compute; reflexivity).
Qed.
