(* ===== verification/Sustained.v ===== *)
(** The sustained-anomaly gate of the traffic detector: across any series of cycles, a
    volume anomaly has a row exactly when it has lasted for the configured number of
    consecutive cycles, whatever the other services do. *)

From S2P Require Import Prelude GoRuntime GoFloat Types Family Index Reader Incident Capture NextChecks Classifier Detect Engine EngineSpec.
Open Scope Z_scope.

(** The counter of a service and a direction. *)
Definition tkey (svc dir : string) : string := svc +:+ "|" +:+ dir.

Definition is_dir (d : string) : Prop := d = trafficDrop \/ d = trafficSurge.

Lemma is_dir_no_bar d : is_dir d -> no_bar d = true.
Proof. by intros [->| ->]. Qed.

Lemma tkey_inj s1 s2 d1 d2 : is_dir d1 -> is_dir d2 -> tkey s1 d1 = tkey s2 d2 -> s1 = s2 /\ d1 = d2.
Proof. intros H1 H2. apply bar_split_last; by apply is_dir_no_bar. Qed.

Definition traffic_family (svc dir : string) : ErrorFamily :=
  mkErrorFamily svc trafficStep (if String.eqb dir trafficSurge then errorCodeTrafficSurge else errorCodeTrafficDrop).

Lemma traffic_family_inj s1 s2 d1 d2 :
  is_dir d1 -> is_dir d2 -> traffic_family s1 d1 = traffic_family s2 d2 -> s1 = s2 /\ d1 = d2.
Proof. by intros [->| ->] [->| ->] [= ->]. Qed.

Section Gate.
Context (cfg : Config).

(** The direction one cycle sees a service move in: none below the volume floor. *)
Definition direction (cur base : Z) : option string :=
  if base <? ta_MinVolume (cfg_TrafficAnomaly cfg) then None else traffic_dir cfg cur base.

Lemma direction_is_dir cur base d : direction cur base = Some d -> is_dir d.
Proof.
  unfold direction, traffic_dir, is_dir. cbv zeta. intros H.
  repeat (match type of H with (if ?b then _ else _) = _ => destruct b end); simplify_eq; tauto.
Qed.

(** The next count of a direction. *)
Definition next_count (count : option Z) (seen : option string) (d : string) : option Z :=
  if bool_decide (seen = Some d) then Some (default 0 count + 1) else None.

Lemma traffic_gate_pending pending svc cur base s d :
  is_dir d ->
  (traffic_gate cfg pending svc cur base).1 !! tkey s d =
  if bool_decide (s = svc) then next_count (pending !! tkey s d) (direction cur base) d else pending !! tkey s d.
Proof.
  intros Hd. pose proof (direction_is_dir cur base) as Hdir. revert Hdir. unfold traffic_gate, direction, next_count. cbv zeta.
  change (svc +:+ "|drop") with (tkey svc trafficDrop). change (svc +:+ "|surge") with (tkey svc trafficSurge).
  assert (Hdel : delete (tkey svc trafficSurge) (delete (tkey svc trafficDrop) pending) !! tkey s d =
                 if bool_decide (s = svc) then None else pending !! tkey s d).
  { destruct (bool_decide_reflect (s = svc)) as [->|Hne].
    - destruct Hd as [->| ->]; rewrite !lookup_delete_None; tauto.
    - rewrite !lookup_delete_ne; [done| |]; intros H; apply tkey_inj in H as [H _]; unfold is_dir; auto. }
  destruct (base <? _); [intros _; exact Hdel|].
  destruct (traffic_dir cfg cur base) as [d'|]; [|intros _; exact Hdel].
  intros Hdir. specialize (Hdir d' eq_refl). fold (tkey svc d'). simpl.
  set (other := if String.eqb d' trafficDrop then tkey svc trafficSurge else tkey svc trafficDrop).
  assert (Hoth : other = tkey svc (if String.eqb d' trafficDrop then trafficSurge else trafficDrop)) by (by destruct Hdir as [->| ->]).
  destruct (bool_decide_reflect (s = svc)) as [->|Hne].
  - destruct (bool_decide_reflect (Some d' = Some d)) as [[= ->]|Hdd].
    + rewrite lookup_insert_eq, lookup_delete_ne; [done|]. rewrite Hoth.
      intros H. apply tkey_inj in H as [_ H]; destruct Hdir as [->| ->]; unfold is_dir; simpl; auto; done.
    + rewrite lookup_insert_ne by (intros H; apply tkey_inj in H as [_ ->]; done).
      rewrite Hoth. destruct Hdir as [->| ->], Hd as [->| ->]; try done; apply lookup_delete_eq.
  - rewrite lookup_insert_ne by (intros H; apply tkey_inj in H as [-> _]; done).
    rewrite lookup_delete_ne; [done|]. rewrite Hoth. intros H.
    apply tkey_inj in H as [-> _]; [done|destruct (String.eqb _ _); unfold is_dir; auto|done].
Qed.

(** The gate opens for a direction seen often enough in a row. *)
Definition gate_opens (count : option Z) (seen : option string) (d : string) : Prop :=
  seen = Some d /\ ta_SustainedTicks (cfg_TrafficAnomaly cfg) <= default 0 count + 1.

Lemma traffic_gate_opens pending svc cur base d :
  (traffic_gate cfg pending svc cur base).2 = Some d <-> gate_opens (pending !! tkey svc d) (direction cur base) d.
Proof.
  unfold gate_opens. pose proof (direction_is_dir cur base) as Hdir. revert Hdir. unfold traffic_gate, direction. cbv zeta.
  change (svc +:+ "|drop") with (tkey svc trafficDrop). change (svc +:+ "|surge") with (tkey svc trafficSurge).
  destruct (base <? _); [split; [done|by intros [? _]]|].
  destruct (traffic_dir cfg cur base) as [d'|]; [|split; [done|by intros [? _]]].
  intros Hdir. specialize (Hdir d' eq_refl). fold (tkey svc d'). simpl. rewrite lookup_insert_eq. simpl.
  assert (Hk : delete (if String.eqb d' trafficDrop then tkey svc trafficSurge else tkey svc trafficDrop) pending !! tkey svc d' = pending !! tkey svc d').
  { destruct Hdir as [->| ->]; simpl; rewrite lookup_delete_ne; try done; intros H; by apply tkey_inj in H as [_ ?]; unfold is_dir; auto. }
  rewrite Hk. destruct (Z.ltb_spec (default 0 (pending !! tkey svc d') + 1) (ta_SustainedTicks (cfg_TrafficAnomaly cfg))).
  - split; [done|]. intros [[= <-] ?]. lia.
  - split; [intros [= <-]; done|]. by intros [? _].
Qed.
End Gate.

(** ** A cycle *)

Section Loop.
Context {R Sg D : Type} `{!IncidentReader R, !SignalStore Sg, !DeploySource D}.
Context (it : MapIter) (cfg : Config) (signals : option Sg) (deploys : option D).

Definition has_row (svc d : string) (rows : list derivedRow) : Prop :=
  exists dr, dr ∈ rows /\ inc_ErrorFamily (dr_Incident dr) = traffic_family svc d.

Lemma build_traffic_family seed svc env dir cur base now inc existed :
  buildTrafficIncident it cfg signals deploys seed svc env dir cur base now = inl (inc, existed) ->
  inc_ErrorFamily inc = traffic_family svc dir.
Proof.
  unfold buildTrafficIncident, buildAnomalyIncident. cbv zeta. destruct (resolve_identity _ _ _ _ _) as [[st id] prior].
  destruct (querySignals _ _ _ _) as [sigs|]; [|done]. destruct (queryDeploys _ _ _ _) as [deps|]; [|done].
  by intros [= <- _].
Qed.

Lemma has_row_snoc svc d rows inc existed :
  has_row svc d (rows ++ [mkDerivedRow inc existed]) <-> has_row svc d rows \/ inc_ErrorFamily inc = traffic_family svc d.
Proof.
  unfold has_row. split.
  - intros (dr & [H|H%list_elem_of_singleton]%elem_of_app & Hf); [left; by exists dr|subst; by right].
  - intros [(dr & H & Hf)|Hf]; [exists dr; split; [apply elem_of_app; by left|done]|].
    exists (mkDerivedRow inc existed). split; [apply elem_of_app; right; by left|done].
Qed.

Section Measures.
Context (current : gmap string Z) (baseline : gmap string (Z * Z * Z)).

(** What a cycle measures of a service. *)
Definition measure (svc : string) : option string :=
  direction cfg (default 0 (current !! svc)) (median3 (default (0, 0, 0) (baseline !! svc))).

Lemma traffic_loop_spec seed reader now services : forall pending seen out pending' seen' out' s d,
  is_dir d -> NoDup services ->
  traffic_loop it cfg signals deploys seed reader current baseline now services pending seen out
    = (pending', inl (seen', out')) ->
  pending' !! tkey s d =
    (if bool_decide (s ∈ services) then next_count (pending !! tkey s d) (measure s) d else pending !! tkey s d) /\
  (has_row s d out' <->
     has_row s d out \/ (s ∈ services /\ gate_opens cfg (pending !! tkey s d) (measure s) d)).
Proof.
  induction services as [|svc services IH]; intros pending seen out pending' seen' out' s d Hd Hnd H; simpl in H.
  { injection H as <- <- <-. split; [done|]. split; [tauto|]. intros [?|[Hs _]]; [done|by apply elem_of_nil in Hs]. }
  apply NoDup_cons in Hnd as [Hni Hnd].
  pose proof (traffic_gate_pending cfg pending svc (default 0 (current !! svc)) (median3 (default (0, 0, 0) (baseline !! svc))) s d Hd) as Hp.
  pose proof (traffic_gate_opens cfg pending svc (default 0 (current !! svc)) (median3 (default (0, 0, 0) (baseline !! svc))) d) as Hg.
  fold (measure svc) in Hp, Hg.
  assert (Hcount : forall p' : gmap string Z, p' !! tkey s d = (if bool_decide (s = svc) then next_count (pending !! tkey s d) (measure svc) d else pending !! tkey s d) ->
    (if bool_decide (s ∈ services) then next_count (p' !! tkey s d) (measure s) d else p' !! tkey s d) =
    (if bool_decide (s ∈ svc :: services) then next_count (pending !! tkey s d) (measure s) d else pending !! tkey s d)).
  { intros p' Hp'. destruct (bool_decide_reflect (s = svc)) as [->|Hne].
    - rewrite bool_decide_false by done. rewrite bool_decide_true by left. done.
    - rewrite Hp'. rewrite (bool_decide_ext (s ∈ svc :: services) (s ∈ services)); [done|]. rewrite elem_of_cons. tauto. }
  destruct (traffic_gate _ _ _ _ _) as [p1 [dir|]] eqn:Et; simpl in Hp, Hg.
  - destruct (buildTrafficIncident _ _ _ _ _ _ _ _ _ _ _) as [[inc existed]|] eqn:Hb; [|done].
    apply build_traffic_family in Hb.
    assert (Hdir : is_dir dir).
    { assert (Hg' : gate_opens cfg (pending !! tkey svc dir) (measure svc) dir) by (apply traffic_gate_opens; by rewrite Et).
      destruct Hg' as [Hm _]. by eapply direction_is_dir. }
    destruct (IH _ _ _ _ _ _ s d Hd Hnd H) as [-> Hr]. split; [by apply Hcount|]. rewrite Hr, has_row_snoc, elem_of_cons, Hb, Hp.
    destruct (bool_decide_reflect (s = svc)) as [->|Hne].
    + assert (Hfam : traffic_family svc dir = traffic_family svc d <-> Some dir = Some d).
      { split; [intros Hf; apply traffic_family_inj in Hf as [_ ->]; done|by intros [= ->]]. }
      rewrite Hfam, Hg. tauto.
    + assert (Hfam : traffic_family svc dir <> traffic_family s d).
      { intros Hf. apply traffic_family_inj in Hf as [-> _]; done. }
      tauto.
  - destruct (IH _ _ _ _ _ _ s d Hd Hnd H) as [-> Hr]. split; [by apply Hcount|]. rewrite Hr, elem_of_cons, Hp.
    destruct (bool_decide_reflect (s = svc)) as [->|Hne]; [|tauto].
    assert (Hno : ~ gate_opens cfg (pending !! tkey svc d) (measure svc) d) by (by rewrite <- Hg). tauto.
Qed.
End Measures.

Lemma services_of_NoDup {A B} (m1 : gmap string A) (m2 : gmap string B) : NoDup (services_of it m1 m2).
Proof. unfold services_of. rewrite ssort_perm. apply NoDup_fst_mrange. Qed.

(** *** A series of cycles *)

Record TrafficCycle := mkTrafficCycle {
  tc_now : Time; tc_seed : gmap string Incident; tc_reader : R; tc_seen : gset string;
  tc_cur : list ServiceStatsRow; tc_base : list (list ServiceStatsRow) }.

Definition run_cycle (c : TrafficCycle) (pending : gmap string Z)
    : gmap string Z * ((gset string * list derivedRow) + EngineError) :=
  deriveTrafficAnomalies it cfg signals deploys (tc_now c) (tc_seed c) (tc_reader c) (tc_cur c) (tc_base c) pending (tc_seen c).

(** The counters after a series of cycles; none when one of them fails. *)
Fixpoint run_cycles (cs : list TrafficCycle) (pending : gmap string Z) : option (gmap string Z) :=
  match cs with
  | [] => Some pending
  | c :: cs' => match run_cycle c pending with (p, inl _) => run_cycles cs' p | (_, inr _) => None end
  end.

Definition cycle_measure (svc : string) (c : TrafficCycle) : option string :=
  measure (counts_of (tc_cur c)) (baselineByService (tc_base c)) svc.

(** The service has statistics in one of the windows of the cycle. *)
Definition listed (svc : string) (c : TrafficCycle) : Prop :=
  svc ∈ services_of it (counts_of (tc_cur c)) (baselineByService (tc_base c)).

(** How many of the last cycles, in a row, saw the direction. *)
Definition streak (d : string) (ms : list (option string)) : Z :=
  foldl (fun n m => if bool_decide (m = Some d) then n + 1 else 0) 0 ms.

Lemma streak_nonneg d ms : 0 <= streak d ms.
Proof.
  unfold streak. induction ms as [|m ms IH] using rev_ind; [done|]. rewrite foldl_snoc. case_bool_decide; lia.
Qed.

(** A streak of [k] or more is a run of [k] equal measures at the end. *)
Lemma streak_suffix d ms k : k <= streak d ms <->
  exists ms1 ms2, ms = ms1 ++ ms2 /\ Forall (fun m => m = Some d) ms2 /\ k <= Z.of_nat (length ms2).
Proof.
  unfold streak. revert k. induction ms as [|m ms IH] using rev_ind; intros k.
  - simpl. split; [intros H; exists [], []; by split_and!|]. intros (ms1 & ms2 & H & _ & Hk).
    symmetry in H. apply app_nil in H as [-> ->]. done.
  - rewrite foldl_snoc. case_bool_decide as Hm.
    + split.
      * intros Hk. destruct (proj1 (IH (k - 1))) as (ms1 & ms2 & -> & Hf & Hl); [lia|].
        exists ms1, (ms2 ++ [m]). split_and!; [by rewrite app_assoc|apply Forall_app; split; [done|by constructor]|].
        rewrite length_app. simpl. lia.
      * intros (ms1 & ms2 & H & Hf & Hl). destruct ms2 as [|x ms2' _] using rev_ind; [pose proof (streak_nonneg d ms) as Hn; unfold streak in Hn; simpl in Hl; lia|].
        rewrite app_assoc in H. apply app_inj_tail in H as [-> ->]. apply Forall_app in Hf as [Hf _].
        rewrite length_app in Hl. simpl in Hl. assert (k - 1 <= foldl (fun n m => if bool_decide (m = Some d) then n + 1 else 0) 0 (ms1 ++ ms2')); [|lia].
        apply IH. exists ms1, ms2'. split_and!; [done|done|lia].
    + split; [intros Hk; exists (ms ++ [m]), []; by rewrite app_nil_r|].
      intros (ms1 & ms2 & H & Hf & Hl). destruct ms2 as [|x ms2' _] using rev_ind; [done|].
      rewrite app_assoc in H. apply app_inj_tail in H as [_ ->]. apply Forall_app in Hf as [_ Hf].
      apply Forall_cons in Hf as [Hf _]. congruence.
Qed.

Lemma run_cycles_snoc cs c pending :
  run_cycles (cs ++ [c]) pending =
  match run_cycles cs pending with
  | Some p => match run_cycle c p with (p', inl _) => Some p' | (_, inr _) => None end
  | None => None
  end.
Proof.
  revert pending. induction cs as [|c' cs IH]; intros pending; [done|]. simpl.
  destruct (run_cycle c' pending) as [p [r|]]; [apply IH|done].
Qed.

Lemma run_cycle_spec c p p' seen' rows svc d :
  is_dir d -> listed svc c -> run_cycle c p = (p', inl (seen', rows)) ->
  p' !! tkey svc d = next_count (p !! tkey svc d) (cycle_measure svc c) d /\
  (has_row svc d rows <-> gate_opens cfg (p !! tkey svc d) (cycle_measure svc c) d).
Proof.
  intros Hd Hl H. unfold run_cycle, deriveTrafficAnomalies in H. cbv zeta in H. unfold listed in Hl.
  destruct (traffic_loop_spec _ _ _ _ _ _ _ _ _ _ _ _ svc d Hd (services_of_NoDup _ _) H) as [Hp Hr].
  rewrite bool_decide_true in Hp by done. split; [done|]. rewrite Hr. split; [|by right].
  intros [(dr & Hdr & _)|[_ ?]]; [by apply elem_of_nil in Hdr|done].
Qed.

(** The counter of a direction is its streak. *)
Lemma run_cycles_streak cs p svc d :
  is_dir d -> run_cycles cs ∅ = Some p -> Forall (listed svc) cs ->
  default 0 (p !! tkey svc d) = streak d (cycle_measure svc <$> cs).
Proof.
  intros Hd. revert p. induction cs as [|c cs IH] using rev_ind; intros p Hrun Hl.
  - simpl in Hrun. simplify_eq. by rewrite lookup_empty.
  - apply Forall_app in Hl as [Hl Hc]. apply Forall_cons in Hc as [Hc _]. rewrite run_cycles_snoc in Hrun.
    destruct (run_cycles cs ∅) as [p0|]; [|done]. destruct (run_cycle c p0) as [p1 [[seen rows]|]] eqn:Ec; [|done].
    injection Hrun as <-. destruct (run_cycle_spec c p0 p1 seen rows svc d Hd Hc Ec) as [-> _].
    specialize (IH p0 eq_refl Hl). unfold streak in *. rewrite fmap_app, foldl_app. simpl. rewrite <- IH.
    unfold next_count. by case_bool_decide.
Qed.

(** C10: after any series of cycles in which a service had statistics, a cycle reports a
    volume anomaly of the service exactly when the service moved in that direction in
    that cycle and in enough cycles just before it, without a break. *)
Theorem traffic_sustained (cs : list TrafficCycle) (c : TrafficCycle) (p p' : gmap string Z) (seen' : gset string)
    (rows : list derivedRow) (svc d : string) :
  is_dir d -> run_cycles cs ∅ = Some p -> run_cycle c p = (p', inl (seen', rows)) -> Forall (listed svc) (cs ++ [c]) ->
  has_row svc d rows <->
  exists earlier lasting, cycle_measure svc <$> (cs ++ [c]) = earlier ++ lasting /\
    Forall (fun m => m = Some d) lasting /\ lasting <> [] /\
    ta_SustainedTicks (cfg_TrafficAnomaly cfg) <= Z.of_nat (length lasting).
Proof.
  intros Hd Hrun Hc Hl. apply Forall_app in Hl as [Hl Hlc]. apply Forall_cons in Hlc as [Hlc _].
  destruct (run_cycle_spec c p p' seen' rows svc d Hd Hlc Hc) as [_ ->]. unfold gate_opens.
  rewrite (run_cycles_streak cs p svc d Hd Hrun Hl). set (sustained := ta_SustainedTicks _).
  set (ms := cycle_measure svc <$> cs). rewrite fmap_app. fold ms. simpl. set (m := cycle_measure svc c).
  assert (Hst : (m = Some d /\ sustained <= streak d ms + 1) <-> Z.max 1 sustained <= streak d (ms ++ [m])).
  { pose proof (streak_nonneg d ms) as Hn. unfold streak in *. rewrite foldl_snoc. case_bool_decide; [|split; [by intros [? _]|lia]].
    split; [intros [_ ?]; lia|intros ?; split; [done|lia]]. }
  rewrite Hst, streak_suffix. split; intros (ms1 & ms2 & He & Hf & H); exists ms1, ms2; split_and!; try done.
  - intros ->. simpl in H. lia.
  - lia.
  - destruct H as [Hne Hs]. destruct ms2; [done|]. simpl in *. lia.
Qed.
End Loop.

(** ** A concrete run *)

Definition sustained_cfg : Config :=
  mkConfig 0 (10 * Minute) 5 (of_int 3) (of_int 0) (2 * Minute) (15 * Minute) 5
    (mkTrafficAnomalyConfig true (flit 1 2) (of_int 0) 10 2) no_latency.

Definition drop_cycle : @TrafficCycle incidentReaderAdapter :=
  mkTrafficCycle (unix_epoch + Hour) ∅ quiet_reader ∅ [mkServiceStatsRow "checkout" 10 0]
    [[mkServiceStatsRow "checkout" 100 0]; [mkServiceStatsRow "checkout" 90 0]; [mkServiceStatsRow "checkout" 110 0]].

Definition run_drop := run_cycle (Sg:=unit) (D:=unit) iter_canonical sustained_cfg None None drop_cycle.

(** A drop to a tenth of the baseline is reported in the second cycle that sees it. *)
Lemma traffic_sustained_witness :
  exists p p' seen rows, run_drop ∅ = (p, inl (∅, [])) /\ run_drop p = (p', inl (seen, rows)) /\
    has_row "checkout" trafficDrop rows.
Proof.
  eexists _, _, _, _. split_and!; [vm_compute; reflexivity|vm_compute; reflexivity|].
  eapply (traffic_sustained (Sg:=unit) (D:=unit) iter_canonical sustained_cfg None None [drop_cycle] drop_cycle).
  - by left.
  - vm_compute. reflexivity.
  - vm_compute. reflexivity.
  - do 2 (apply Forall_cons; split; [unfold listed; by_decide|]). constructor.
  - exists [], [Some trafficDrop; Some trafficDrop]. split_and!; [vm_compute; reflexivity|by repeat constructor|done|vm_compute; discriminate].
Defined.
