(* ===== verification/Transport.v ===== *)
(** The HTTP delivery client of the SDK ([pkg/transport/http]): the bounded two-class
    queue, the delivery loop with its retries, the classification of responses and the
    counters.  [world] is the client together with its loop; [act] is one atomic action
    of a caller or of the loop. *)

From S2P Require Import Prelude GoRuntime Types.
Open Scope Z_scope.

Definition defaultMaxRetries : Z := 5.
Definition defaultBackoffMin : Duration := 100 * Millisecond.
Definition defaultBackoffMax : Duration := 5 * Second.

Record Config := mkConfig {
  cf_BatchMode : bool;
  cf_MaxBatch : Z;
  cf_MaxBatchSize : Z;
  cf_BatchAgeMs : Z;
  cf_OkBudgetPct : Z;
  cf_InFlightCap : Z;
  cf_MaxRetries : Z
}.

Definition or_default (v d : Z) : Z := if v <=? 0 then d else v.

(** The defaulting at the top of [New]. *)
Definition New_config (cfg : Config) : Config :=
  mkConfig (cf_BatchMode cfg) (or_default (cf_MaxBatch cfg) 256)
    (or_default (cf_MaxBatchSize cfg) (Z.shiftl 1 20)) (or_default (cf_BatchAgeMs cfg) 50)
    (or_default (cf_OkBudgetPct cfg) 70) (or_default (cf_InFlightCap cfg) (Z.shiftl 10 20))
    (or_default (cf_MaxRetries cfg) defaultMaxRetries).

Record queuedEvent := mkQueued { qe_ev : Event; qe_size : Z; qe_attempts : Z }.

Inductive batchClass := classOK | classPriority.

Record queuedBatch := mkBatch { qb_class : batchClass; qb_events : list queuedEvent }.

(** [deliveryResult]: how one POST ended. *)
Record deliveryResult := mkResult { dr_success : bool; dr_retryable : bool; dr_retryAfter : Duration }.

(** The queue's fields with the client's counters, which [dropFn = c.recordDrop] and
    [flushFn = c.flushBatch] update. *)
Record client := mkClient {
  okQ : list queuedEvent;
  prioQ : list queuedEvent;
  okBytes : Z;
  prioBytes : Z;
  closing : bool;
  dropped : Z;
  failures : Z;
  rejected : Z;
  deprecated : Z
}.

Definition newQueue : client := mkClient [] [] 0 0 false 0 0 0 0.

Definition set_ok (c : client) (q : list queuedEvent) (b : Z) : client :=
  mkClient q (prioQ c) b (prioBytes c) (closing c) (dropped c) (failures c) (rejected c) (deprecated c).
Definition set_prio (c : client) (q : list queuedEvent) (b : Z) : client :=
  mkClient (okQ c) q (okBytes c) b (closing c) (dropped c) (failures c) (rejected c) (deprecated c).
Definition set_closing (c : client) : client :=
  mkClient (okQ c) (prioQ c) (okBytes c) (prioBytes c) true (dropped c) (failures c) (rejected c) (deprecated c).

(** The counters ([atomic.Int64]). *)
Definition recordDrop (n : Z) (c : client) : client :=
  if n <=? 0 then c else
  mkClient (okQ c) (prioQ c) (okBytes c) (prioBytes c) (closing c)
    (wrap64 (dropped c + n)) (failures c) (rejected c) (deprecated c).
Definition recordFailure (n : Z) (c : client) : client :=
  if n <=? 0 then c else
  mkClient (okQ c) (prioQ c) (okBytes c) (prioBytes c) (closing c)
    (dropped c) (wrap64 (failures c + n)) (rejected c) (deprecated c).
Definition recordRejected (n : Z) (c : client) : client :=
  if n <=? 0 then c else
  mkClient (okQ c) (prioQ c) (okBytes c) (prioBytes c) (closing c)
    (dropped c) (failures c) (wrap64 (rejected c + n)) (deprecated c).
Definition recordResponseHeaders (deprecation sunset : string) (c : client) : client :=
  if String.eqb deprecation "" && String.eqb sunset "" then c else
  mkClient (okQ c) (prioQ c) (okBytes c) (prioBytes c) (closing c)
    (dropped c) (failures c) (rejected c) (wrap64 (deprecated c + 1)).

Definition is_none {A} (o : option A) : bool := match o with None => true | _ => false end.
Arguments recordDrop : simpl never.
Arguments recordFailure : simpl never.

Definition nonempty {A} (l : list A) : bool := match l with [] => false | _ => true end.

Definition sizes (l : list queuedEvent) : Z := foldr (fun e z => qe_size e + z) 0 l.

(** A size total as the loops of the code accumulate it. *)
Definition sum_sizes (l : list queuedEvent) : Z := fold_left (fun b e => wrap64 (b + qe_size e)) l 0.

(** *** Dropping *)

Definition dropOKLocked (c : client) : client :=
  match okQ c with
  | [] => c
  | e :: rest => recordDrop 1 (set_ok c rest (wrap64 (okBytes c - qe_size e)))
  end.

Definition dropPriorityLocked (c : client) : client :=
  match prioQ c with
  | [] => c
  | e :: rest => recordDrop 1 (set_prio c rest (wrap64 (prioBytes c - qe_size e)))
  end.

Definition dropPriorityTailLocked (c : client) : client :=
  match last (prioQ c) with
  | None => c
  | Some e => recordDrop 1 (set_prio c (removelast (prioQ c)) (wrap64 (prioBytes c - qe_size e)))
  end.

Definition totalBytesLocked (c : client) : Z := wrap64 (okBytes c + prioBytes c).

(** [for over(q) && len(queue) > 0 { drop }], with the queue's length as fuel. *)
Fixpoint drop_loop (over : client -> bool) (queue : client -> list queuedEvent) (drop : client -> client)
    (fuel : nat) (c : client) : client :=
  match fuel with
  | O => c
  | S fuel => if over c && nonempty (queue c) then drop_loop over queue drop fuel (drop c) else c
  end.

Definition drop_ok_while (over : client -> bool) (c : client) : client :=
  drop_loop over okQ dropOKLocked (length (okQ c)) c.
Definition drop_prio_while (over : client -> bool) (c : client) : client :=
  drop_loop over prioQ dropPriorityLocked (length (prioQ c)) c.
Definition drop_tail_while (over : client -> bool) (c : client) : client :=
  drop_loop over prioQ dropPriorityTailLocked (length (prioQ c)) c.

(** *** Enqueueing *)

Definition okCap (cfg : Config) : Z := Z.quot (wrap64 (cf_InFlightCap cfg * cf_OkBudgetPct cfg)) 100.

Definition ok_over (cfg : Config) (size : Z) (c : client) : bool := okCap cfg <? wrap64 (okBytes c + size).
Definition total_over (cfg : Config) (size : Z) (c : client) : bool :=
  cf_InFlightCap cfg <? wrap64 (totalBytesLocked c + size).

Definition enqueueOKLocked (cfg : Config) (ev : Event) (size : Z) (c : client) : bool * client :=
  if okCap cfg <? size then (false, c) else
  let c := drop_ok_while (ok_over cfg size) c in
  if ok_over cfg size c then (false, c) else
  (true, set_ok c (okQ c ++ [mkQueued ev size 0]) (wrap64 (okBytes c + size))).

Definition enqueuePriorityLocked (cfg : Config) (ev : Event) (size : Z) (c : client) : bool * client :=
  if cf_InFlightCap cfg <? size then (false, c) else
  let c := drop_ok_while (total_over cfg size) c in
  let c := drop_prio_while (total_over cfg size) c in
  if total_over cfg size c then (false, c) else
  (true, set_prio c (prioQ c ++ [mkQueued ev size 0]) (wrap64 (prioBytes c + size))).

Section Marshal.
(** [json.Marshal] of an event: its text, or nothing when it fails. *)
Context (marshal : Event -> option string).

Definition estimateEventSize (ev : Event) : Z :=
  match marshal ev with None => 0 | Some raw => Z.of_nat (String.length raw) + 1 end.

Definition enqueue (cfg : Config) (ev : Event) (c : client) : bool * client :=
  let size := estimateEventSize ev in
  if closing c then (false, c) else
  if IsPriority (ev_Status ev) then enqueuePriorityLocked cfg ev size c
  else enqueueOKLocked cfg ev size c.

(** [Submit] in batch mode, for a non-nil event and a configured URL. *)
Definition Submit (cfg : Config) (ev : Event) (c : client) : bool * client :=
  match enqueue cfg ev c with
  | (true, c) => (true, c)
  | (false, c) => (false, recordDrop 1 c)
  end.
End Marshal.

(** *** Taking batches *)

(** The inner loop of [takeFromLocked]: how many events go into the batch. *)
Fixpoint batch_len (cfg : Config) (src : list queuedEvent) (n batchBytes : Z) : nat * Z :=
  match src with
  | [] => (O, batchBytes)
  | next :: rest =>
    if negb (n <? cf_MaxBatch cfg) then (O, batchBytes) else
    if (0 <? n) && (cf_MaxBatchSize cfg <? wrap64 (batchBytes + qe_size next)) then (O, batchBytes) else
    let '(k, b) := batch_len cfg rest (n + 1) (wrap64 (batchBytes + qe_size next)) in (S k, b)
  end.

(** [takeFromLocked]: the batch, the queue left and its byte count. *)
Definition takeFromLocked (cfg : Config) (src : list queuedEvent) (totalBytes : Z) (force : bool)
  : list queuedEvent * list queuedEvent * Z :=
  if negb (nonempty src) then ([], src, totalBytes) else
  if negb force && (Z.of_nat (length src) <? cf_MaxBatch cfg) && (totalBytes <? cf_MaxBatchSize cfg)
  then ([], src, totalBytes) else
  let '(n, batchBytes) := batch_len cfg src 0 0 in
  (take n src, drop n src, wrap64 (totalBytes - batchBytes)).

Definition takeOneLocked (cfg : Config) (force : bool) (c : client) : queuedBatch * client :=
  let '(batch, q, b) := takeFromLocked cfg (prioQ c) (prioBytes c) force in
  let c := set_prio c q b in
  if nonempty batch then (mkBatch classPriority batch, c) else
  let '(batch, q, b) := takeFromLocked cfg (okQ c) (okBytes c) force in
  let c := set_ok c q b in
  if nonempty batch then (mkBatch classOK batch, c) else (mkBatch classOK [], c).

Fixpoint take_loop (cfg : Config) (force : bool) (fuel : nat) (c : client) : option (list queuedBatch * client) :=
  match fuel with
  | O => None
  | S fuel =>
    let '(batch, c) := takeOneLocked cfg force c in
    if negb (nonempty (qb_events batch)) then Some ([], c) else
    '(out, c) ← take_loop cfg force fuel c; Some (batch :: out, c)
  end.

Definition queued (c : client) : nat := length (okQ c) + length (prioQ c).

Definition takeReadyBatches (cfg : Config) (force : bool) (c : client) : option (list queuedBatch * client) :=
  take_loop cfg force (S (queued c)) c.

(** *** One POST *)

Definition isRetryableStatus (code : Z) : bool := (code =? 429) || (500 <=? code).

(** What a POST meets: whether the request could be built, and the response if one came. *)
Record response := mkResponse {
  rs_StatusCode : Z;
  rs_Deprecation : string;
  rs_Sunset : string;
  rs_RetryAfter : string;
  rs_Body : string
}.
Record network := mkNetwork { nw_request_ok : bool; nw_response : option response; nw_now : Time }.

Section Http.
(** [json.Marshal] of an event; [json.Unmarshal] of an envelope, down to the length of
    its rejected list; [http.ParseTime]. *)
Context (marshal : Event -> option string) (unmarshal_rejected : string -> option Z)
  (ParseTime : string -> option Time).

Definition recordEnvelope (body : string) (c : client) : client :=
  let body := TrimSpace body in
  if String.eqb body "" then c else
  match unmarshal_rejected body with None => c | Some n => recordRejected n c end.

Definition retryAfter (now : Time) (raw : string) : Duration :=
  let raw := TrimSpace raw in
  if String.eqb raw "" then 0 else
  match Atoi raw with
  | Some seconds => wrap64 (seconds * Second)
  | None =>
    match ParseTime raw with
    | Some t => let d := TimeSub t now in if 0 <? d then d else 0
    | None => 0
    end
  end.

Definition is_2xx (code : Z) : bool := (200 <=? code) && (code <? 300).

(** The encoding loop of [flushBatch]: whether anything was written. *)
Fixpoint encode_all (batch : list Event) (c : client) : bool * client :=
  match batch with
  | [] => (false, c)
  | ev :: rest =>
    match marshal ev with
    | None => encode_all rest (recordDrop 1 c)
    | Some _ => let '(_, c) := encode_all rest c in (true, c)
    end
  end.

Definition flushBatch (nw : network) (batch : list Event) (c : client) : deliveryResult * client :=
  if negb (nonempty batch) then (mkResult true false 0, c) else
  let '(written, c) := encode_all batch c in
  if negb written then (mkResult true false 0, c) else
  if negb (nw_request_ok nw) then (mkResult false false 0, recordDrop (Z.of_nat (length batch)) c) else
  match nw_response nw with
  | None => (mkResult false true 0, recordFailure (Z.of_nat (length batch)) c)
  | Some resp =>
    if is_2xx (rs_StatusCode resp) then
      (mkResult true false 0,
       recordEnvelope (rs_Body resp) (recordResponseHeaders (rs_Deprecation resp) (rs_Sunset resp) c))
    else if isRetryableStatus (rs_StatusCode resp) then
      (mkResult false true (retryAfter (nw_now nw) (rs_RetryAfter resp)),
       recordFailure (Z.of_nat (length batch)) c)
    else (mkResult false false 0, recordDrop (Z.of_nat (length batch)) c)
  end.

(** [submitSingle], for a non-nil event and a configured URL. *)
Definition submitSingle (nw : network) (ev : Event) (c : client) : bool * client :=
  match marshal ev with
  | None => (false, recordDrop 1 c)
  | Some _ =>
    if negb (nw_request_ok nw) then (false, recordDrop 1 c) else
    match nw_response nw with
    | None => (false, recordFailure 1 c)
    | Some resp =>
      if is_2xx (rs_StatusCode resp) then
        let before := rejected c in
        let c := recordEnvelope (rs_Body resp)
                   (recordResponseHeaders (rs_Deprecation resp) (rs_Sunset resp) c) in
        (rejected c =? before, c)
      else if isRetryableStatus (rs_StatusCode resp) then (false, recordFailure 1 c)
      else (false, recordDrop 1 c)
    end
  end.

(** *** Delivery and retry *)

Definition backoff (events : list queuedEvent) : Duration :=
  let maxAttempt := fold_left (fun m ev => if m <? qe_attempts ev then qe_attempts ev else m) events 1 in
  let d := wrap64 (Z.shiftl defaultBackoffMin (maxAttempt - 1)) in
  if defaultBackoffMax <? d then defaultBackoffMax else d.

(** The retry loop of [deliver]: events out of attempts are dropped. *)
Fixpoint retry_events (cfg : Config) (events : list queuedEvent) (c : client) : list queuedEvent * client :=
  match events with
  | [] => ([], c)
  | ev :: rest =>
    let ev := mkQueued (qe_ev ev) (qe_size ev) (wrap64 (qe_attempts ev + 1)) in
    if cf_MaxRetries cfg <? qe_attempts ev then retry_events cfg rest (recordDrop 1 c) else
    let '(kept, c) := retry_events cfg rest c in (ev :: kept, c)
  end.

(** [deliver] up to its sleep: the batch to put back and how long to sleep first, if
    any.  The result of the POST is kept for the account of what was delivered. *)
Definition deliver (cfg : Config) (nw : network) (batch : queuedBatch) (c : client)
  : deliveryResult * option (queuedBatch * Duration) * client :=
  let events := qe_ev <$> qb_events batch in
  let '(result, c) := flushBatch nw events c in
  if dr_success result then (result, None, c) else
  if negb (dr_retryable result) then (result, None, c) else
  let '(kept, c) := retry_events cfg (qb_events batch) c in
  if negb (nonempty kept) then (result, None, c) else
  if closing c then (result, None, recordDrop (Z.of_nat (length kept)) c) else
  let pause := if 0 <? dr_retryAfter result then dr_retryAfter result else backoff kept in
  (result, Some (mkBatch (qb_class batch) kept, pause), c).

Definition requeueFront (cfg : Config) (batch : queuedBatch) (c : client) : bool * client :=
  if closing c then (false, c) else
  let bytes := sum_sizes (qb_events batch) in
  match qb_class batch with
  | classPriority =>
    let c := drop_ok_while (total_over cfg bytes) c in
    let c := drop_tail_while (total_over cfg bytes) c in
    if total_over cfg bytes c then (false, c) else
    (true, set_prio c (qb_events batch ++ prioQ c) (wrap64 (prioBytes c + bytes)))
  | classOK =>
    let c := drop_ok_while (ok_over cfg bytes) c in
    if ok_over cfg bytes c then (false, c) else
    (true, set_ok c (qb_events batch ++ okQ c) (wrap64 (okBytes c + bytes)))
  end.

(** [deliver] after its sleep. *)
Definition redeliver (cfg : Config) (batch : queuedBatch) (c : client) : client :=
  match requeueFront cfg batch c with
  | (true, c) => c
  | (false, c) => recordDrop (Z.of_nat (length (qb_events batch))) c
  end.

(** ** The client and its delivery loop *)

(** [w_pending] are the batches the loop took and has yet to deliver, [w_sleeping] the
    batch it will put back when it wakes.  [w_submitted] and [w_delivered] count events
    handed to [Submit] and events in batches a POST succeeded for; no code reads them. *)
Record world := mkWorld {
  w_client : client;
  w_pending : list queuedBatch;
  w_sleeping : option queuedBatch;
  w_stopping : bool;
  w_drained : bool;
  w_submitted : Z;
  w_delivered : Z
}.

Definition world0 : world := mkWorld newQueue [] None false false 0 0.

(** An action of a caller or of the loop ([run]); the locked sections make each atomic,
    and a POST touches only the counters before [deliver] looks at [closing]. *)
Inductive action :=
| ASubmit (ev : Event)
| AShutdown
| AWake (force : bool)
| AStop
| ADeliver (nw : network)
| AResume
| AExit.

Definition idle (w : world) : bool :=
  negb (nonempty (w_pending w)) && is_none (w_sleeping w) && negb (w_stopping w).

Definition do_take (cfg : Config) (force stop : bool) (w : world) : option world :=
  '(out, c) ← takeReadyBatches cfg force (w_client w);
  Some (mkWorld c out None stop (w_drained w) (w_submitted w) (w_delivered w)).

(** One action, or nothing when it is not enabled. *)
Definition act (cfg : Config) (a : action) (w : world) : option world :=
  match a with
  | ASubmit ev =>
    Some (mkWorld (Submit marshal cfg ev (w_client w)).2 (w_pending w) (w_sleeping w) (w_stopping w)
            (w_drained w) (w_submitted w + 1) (w_delivered w))
  | AShutdown =>
    Some (mkWorld (set_closing (w_client w)) (w_pending w) (w_sleeping w) (w_stopping w)
            (w_drained w) (w_submitted w) (w_delivered w))
  | AWake force => if idle w then do_take cfg force false w else None
  | AStop => if idle w && closing (w_client w) then do_take cfg true true w else None
  | ADeliver nw =>
    match w_sleeping w, w_pending w with
    | None, b :: rest =>
      let '(result, retry, c) := deliver cfg nw b (w_client w) in
      Some (mkWorld c rest (fst <$> retry) (w_stopping w) (w_drained w) (w_submitted w)
              (w_delivered w + (if dr_success result then Z.of_nat (length (qb_events b)) else 0)))
    | _, _ => None
    end
  | AResume =>
    b ← w_sleeping w;
    Some (mkWorld (redeliver cfg b (w_client w)) (w_pending w) None (w_stopping w) (w_drained w)
            (w_submitted w) (w_delivered w))
  | AExit =>
    if w_stopping w && negb (nonempty (w_pending w)) && is_none (w_sleeping w) && negb (w_drained w) then
      Some (mkWorld (w_client w) [] None true true (w_submitted w) (w_delivered w))
    else None
  end.

(** The worlds that actions lead to when each event submitted satisfies [P]. *)
Definition submits (P : Event -> Prop) (a : action) : Prop :=
  match a with ASubmit ev => P ev | _ => True end.

Inductive reachable (cfg : Config) (P : Event -> Prop) : world -> Prop :=
| reach_init : reachable cfg P world0
| reach_act w a w' : reachable cfg P w -> submits P a -> act cfg a w = Some w' -> reachable cfg P w'.

Fixpoint acts (cfg : Config) (l : list action) (w : world) : option world :=
  match l with [] => Some w | a :: l => w ← act cfg a w; acts cfg l w end.

(** The steps of the loop that get on with the work: not the calls of others, and not a wake
    that found nothing to take; [w] is the world after the step. *)
Definition busy (a : action) (w : world) : bool :=
  match a with ASubmit _ | AShutdown => false | AWake _ => nonempty (w_pending w) | _ => true end.

Fixpoint busy_steps (cfg : Config) (l : list action) (w : world) : nat :=
  match l with
  | [] => 0
  | a :: l => match act cfg a w with Some w' => (if busy a w' then 1 else 0) + busy_steps cfg l w' | None => 0 end
  end.

(** A step a closing client's loop can always take: in its select the stop channel is ready,
    whatever else is. *)
Definition ready_action (nw : network) (w : world) : action :=
  if negb (is_none (w_sleeping w)) then AResume
  else if nonempty (w_pending w) then ADeliver nw
  else if w_stopping w then AExit else AStop.
End Http.

(** ** Accounting *)

Lemma okQ_recordDrop n c : okQ (recordDrop n c) = okQ c.
Proof. unfold recordDrop. by case_if. Qed.
Lemma prioQ_recordDrop n c : prioQ (recordDrop n c) = prioQ c.
Proof. unfold recordDrop. by case_if. Qed.
Lemma okBytes_recordDrop n c : okBytes (recordDrop n c) = okBytes c.
Proof. unfold recordDrop. by case_if. Qed.
Lemma prioBytes_recordDrop n c : prioBytes (recordDrop n c) = prioBytes c.
Proof. unfold recordDrop. by case_if. Qed.
Lemma closing_recordDrop n c : closing (recordDrop n c) = closing c.
Proof. unfold recordDrop. by case_if. Qed.
Create Rewrite HintDb client.
#[export] Hint Rewrite okQ_recordDrop prioQ_recordDrop okBytes_recordDrop prioBytes_recordDrop
  closing_recordDrop : client.
Ltac client_simpl :=
  autorewrite with client;
  cbn [okQ prioQ okBytes prioBytes closing dropped set_ok set_prio set_closing length].

(** What the counters leave alone: the queue. *)
Definition same_queue (c c' : client) : Prop :=
  okQ c' = okQ c /\ prioQ c' = prioQ c /\ okBytes c' = okBytes c /\ prioBytes c' = prioBytes c /\
  closing c' = closing c.

#[export] Instance same_queue_equiv : Equivalence same_queue.
Proof.
  unfold same_queue. split; red; intros; deex; repeat split; congruence.
Qed.

Lemma recordDrop_queue n c : same_queue c (recordDrop n c).
Proof. unfold same_queue. by client_simpl. Qed.

Lemma dropped_recordDrop n c : 0 <= n -> eq64 (dropped (recordDrop n c)) (dropped c + n).
Proof.
  intros Hn. unfold recordDrop. case_if; simpl; [|apply eq64_wrap].
  bool_prop. replace n with 0 by lia. by rewrite Z.add_0_r.
Qed.

Lemma sizes_app l1 l2 : sizes (l1 ++ l2) = sizes l1 + sizes l2.
Proof. induction l1 as [|e l IH]; simpl; [done|]. rewrite IH. lia. Qed.

Definition size_ok (e : queuedEvent) : Prop := 0 <= qe_size e.

Lemma sizes_nonneg l : Forall size_ok l -> 0 <= sizes l.
Proof. unfold size_ok. induction 1; simpl; lia. Qed.

Lemma sizes_split n l : sizes l = sizes (take n l) + sizes (drop n l).
Proof. rewrite <- sizes_app. by rewrite take_drop. Qed.

Lemma sum_sizes_exact l : Forall size_ok l -> sizes l <= max_int64 -> sum_sizes l = sizes l.
Proof.
  intros Hl Hb. unfold sum_sizes. cut (forall b, 0 <= b -> b + sizes l <= max_int64 ->
    fold_left (fun b e => wrap64 (b + qe_size e)) l b = b + sizes l).
  { intros H. rewrite H; lia. }
  clear Hb. induction Hl as [|e l He Hl IH]; intros b Hb Hs; simpl in *; [lia|].
  pose proof (sizes_nonneg _ Hl). unfold size_ok in He. rewrite wrap64_id.
  - rewrite IH; lia.
  - unfold in_int64, min_int64, max_int64 in *. apply andb_true_iff; split; apply Z.leb_le; lia.
Qed.

(** A configuration [New] produces for caps below 2^56 and a budget of at most 100%. *)
Record cfg_ok (cfg : Config) : Prop := {
  ok_batch : 0 < cf_MaxBatch cfg;
  ok_pct : 0 < cf_OkBudgetPct cfg <= 100;
  ok_cap : 0 < cf_InFlightCap cfg <= 2 ^ 56;
  ok_retries : 0 < cf_MaxRetries cfg < 2 ^ 32
}.

Lemma okCap_le cfg : cfg_ok cfg -> 0 <= okCap cfg <= cf_InFlightCap cfg.
Proof.
  intros [_ Hp Hc _]. unfold okCap.
  assert (0 <= cf_InFlightCap cfg * cf_OkBudgetPct cfg <= cf_InFlightCap cfg * 100) by nia.
  rewrite wrap64_id.
  - rewrite Z.quot_div_nonneg by lia. split; [apply Z.div_pos; lia|].
    apply Z.div_le_upper_bound; lia.
  - unfold in_int64, min_int64, max_int64. apply andb_true_iff; split; apply Z.leb_le; lia.
Qed.

(** The queue's invariant: each byte count is the total of its list, and each class
    keeps within its own cap. *)
Record wf (cfg : Config) (c : client) : Prop := {
  wf_okBytes : okBytes c = sizes (okQ c);
  wf_prioBytes : prioBytes c = sizes (prioQ c);
  wf_okQ : Forall size_ok (okQ c);
  wf_prioQ : Forall size_ok (prioQ c);
  wf_okCap : okBytes c <= okCap cfg;
  wf_prioCap : prioBytes c <= cf_InFlightCap cfg
}.

Lemma wf_same cfg c c' : same_queue c c' -> wf cfg c -> wf cfg c'.
Proof. intros (Ho & Hp & Hob & Hpb & _) [H1 H2 H3 H4 H5 H6]. split; congruence. Qed.

(** Sums within the caps do not wrap. *)
Lemma wrap64_small z : 0 <= z <= 2 ^ 60 -> wrap64 z = z.
Proof.
  intros H. apply wrap64_id. unfold in_int64, min_int64, max_int64.
  apply andb_true_iff; split; apply Z.leb_le; lia.
Qed.

Lemma wf_bounds cfg c : cfg_ok cfg -> wf cfg c ->
  0 <= okBytes c <= 2 ^ 56 /\ 0 <= prioBytes c <= 2 ^ 56 /\ totalBytesLocked c = okBytes c + prioBytes c.
Proof.
  intros Hc [H1 H2 H3 H4 H5 H6]. pose proof (okCap_le _ Hc). pose proof (ok_cap _ Hc).
  pose proof (sizes_nonneg _ H3). pose proof (sizes_nonneg _ H4).
  unfold totalBytesLocked. rewrite wrap64_small; lia.
Qed.

(** Dropped events and queued events, counted together. *)
Definition account (c : client) : Z := dropped c + Z.of_nat (queued c).

Lemma dropOK_spec cfg c e rest : cfg_ok cfg -> wf cfg c -> okQ c = e :: rest ->
  wf cfg (dropOKLocked c) /\ okQ (dropOKLocked c) = rest /\ prioQ (dropOKLocked c) = prioQ c /\
  closing (dropOKLocked c) = closing c /\ eq64 (dropped (dropOKLocked c)) (dropped c + 1).
Proof.
  intros Hc Hw Hq. pose proof (wf_bounds _ _ Hc Hw) as (Hb & _). unfold dropOKLocked. rewrite Hq. cbv beta match.
  split; [|split; [|split; [|split]]]; client_simpl; try done.
  - eapply wf_same; [apply recordDrop_queue|]. destruct Hw as [H1 H2 H3 H4 H5 H6].
    rewrite Hq in H1, H3. inversion H3 as [|? ? He Hr]; subst. simpl in H1. unfold size_ok in He.
    pose proof (sizes_nonneg _ Hr). rewrite (wrap64_small (okBytes c - qe_size e)) by lia.
    split; simpl; try done; lia.
  - by rewrite dropped_recordDrop by lia.
Qed.

Lemma dropPriority_spec cfg c e rest : cfg_ok cfg -> wf cfg c -> prioQ c = e :: rest ->
  wf cfg (dropPriorityLocked c) /\ prioQ (dropPriorityLocked c) = rest /\
  okQ (dropPriorityLocked c) = okQ c /\ closing (dropPriorityLocked c) = closing c /\
  eq64 (dropped (dropPriorityLocked c)) (dropped c + 1).
Proof.
  intros Hc Hw Hq. pose proof (wf_bounds _ _ Hc Hw) as (_ & Hb & _). unfold dropPriorityLocked. rewrite Hq. cbv beta match.
  split; [|split; [|split; [|split]]]; client_simpl; try done.
  - eapply wf_same; [apply recordDrop_queue|]. destruct Hw as [H1 H2 H3 H4 H5 H6].
    rewrite Hq in H2, H4. inversion H4 as [|? ? He Hr]; subst. simpl in H2. unfold size_ok in He.
    pose proof (sizes_nonneg _ Hr). rewrite (wrap64_small (prioBytes c - qe_size e)) by lia.
    split; simpl; try done; lia.
  - by rewrite dropped_recordDrop by lia.
Qed.

Lemma dropTail_spec cfg c l e : cfg_ok cfg -> wf cfg c -> prioQ c = l ++ [e] ->
  wf cfg (dropPriorityTailLocked c) /\ prioQ (dropPriorityTailLocked c) = l /\
  okQ (dropPriorityTailLocked c) = okQ c /\ closing (dropPriorityTailLocked c) = closing c /\
  eq64 (dropped (dropPriorityTailLocked c)) (dropped c + 1).
Proof.
  intros Hc Hw Hq. pose proof (wf_bounds _ _ Hc Hw) as (_ & Hb & _). unfold dropPriorityTailLocked.
  rewrite Hq, last_snoc, removelast_last. cbv beta match.
  split; [|split; [|split; [|split]]]; client_simpl; try done.
  - eapply wf_same; [apply recordDrop_queue|]. destruct Hw as [H1 H2 H3 H4 H5 H6].
    rewrite Hq in H2, H4. rewrite sizes_app in H2. apply Forall_app in H4 as [Hr He].
    inversion He as [|? ? He' _]; subst. simpl in H2. unfold size_ok in He'.
    pose proof (sizes_nonneg _ Hr). rewrite (wrap64_small (prioBytes c - qe_size e)) by lia.
    split; simpl; try done; lia.
  - by rewrite dropped_recordDrop by lia.
Qed.

(** *** The dropping loops *)

Lemma drop_loop_ind over queue drop (P : client -> Prop) :
  (forall c, P c -> over c = true -> queue c <> [] -> P (drop c)) ->
  forall fuel c, P c -> P (drop_loop over queue drop fuel c).
Proof.
  intros Hd. induction fuel as [|fuel IH]; intros c HP; simpl; [done|]. case_if; [|done].
  apply IH, Hd; bool_prop; try done. by destruct (queue c).
Qed.

Lemma drop_loop_exit over queue drop :
  (forall c, queue c <> [] -> (length (queue (drop c)) < length (queue c))%nat) ->
  forall fuel c, (length (queue c) <= fuel)%nat ->
  over (drop_loop over queue drop fuel c) = false \/ queue (drop_loop over queue drop fuel c) = [].
Proof.
  intros Hd. induction fuel as [|fuel IH]; intros c Hf; simpl.
  - right. destruct (queue c); [done|simpl in Hf; lia].
  - case_if.
    + apply IH. apply andb_true_iff in E as [_ E]. assert (queue c <> []) as Hq by (by destruct (queue c)).
      specialize (Hd _ Hq). lia.
    + apply andb_false_iff in E as [E|E]; [by left|right]. by destruct (queue c).
Qed.

Lemma drop_head_shorter c : okQ c <> [] -> (length (okQ (dropOKLocked c)) < length (okQ c))%nat.
Proof.
  intros H. unfold dropOKLocked. destruct (okQ c) as [|e r] eqn:E; [done|]. client_simpl. lia.
Qed.

Lemma drop_prio_shorter c : prioQ c <> [] -> (length (prioQ (dropPriorityLocked c)) < length (prioQ c))%nat.
Proof.
  intros H. unfold dropPriorityLocked. destruct (prioQ c) as [|e r] eqn:E; [done|].
  client_simpl. lia.
Qed.

Lemma drop_tail_shorter c : prioQ c <> [] -> (length (prioQ (dropPriorityTailLocked c)) < length (prioQ c))%nat.
Proof.
  intros H. unfold dropPriorityTailLocked. destruct (exists_last H) as (l & e & ->).
  rewrite last_snoc, removelast_last. client_simpl. rewrite length_app. simpl. lia.
Qed.

(** What a dropping loop leaves: its first [n] entries are gone, each counted as
    dropped, and either the loop's test is over or the queue is empty. *)
Definition shed_ok (cfg : Config) (c c' : client) (n : nat) : Prop :=
  wf cfg c' /\ okQ c' = drop n (okQ c) /\ prioQ c' = prioQ c /\ closing c' = closing c /\
  (n <= length (okQ c))%nat /\ eq64 (dropped c') (dropped c + Z.of_nat n).

Definition shed_prio (cfg : Config) (c c' : client) (n : nat) : Prop :=
  wf cfg c' /\ prioQ c' = drop n (prioQ c) /\ okQ c' = okQ c /\ closing c' = closing c /\
  (n <= length (prioQ c))%nat /\ eq64 (dropped c') (dropped c + Z.of_nat n).

Definition shed_tail (cfg : Config) (c c' : client) (n : nat) : Prop :=
  wf cfg c' /\ prioQ c' = take (length (prioQ c) - n) (prioQ c) /\ okQ c' = okQ c /\ closing c' = closing c /\
  (n <= length (prioQ c))%nat /\ eq64 (dropped c') (dropped c + Z.of_nat n).

Lemma drop_cons_step {A} n (l : list A) e r :
  drop n l = e :: r -> drop (S n) l = r /\ (S n <= length l)%nat.
Proof.
  intros H. split.
  - by rewrite <- Nat.add_1_r, <- drop_drop, H.
  - destruct (decide (S n <= length l)%nat); [done|]. rewrite drop_ge in H by lia. done.
Qed.

Lemma dropped_step n c d : eq64 c (d + Z.of_nat n) -> eq64 (c + 1) (d + Z.of_nat (S n)).
Proof. intros ->. by replace (d + Z.of_nat n + 1) with (d + Z.of_nat (S n)) by lia. Qed.

Ltac shed := refine (conj _ (conj _ (conj _ (conj _ (conj _ _))))).

Lemma shed_refl cfg c : wf cfg c -> shed_ok cfg c c 0 /\ shed_prio cfg c c 0 /\ shed_tail cfg c c 0.
Proof.
  intros Hw. split; [|split]; shed; try done; try lia; try by rewrite Z.add_0_r.
  by rewrite take_ge by lia.
Qed.

Section Loops.
Context (cfg : Config) (Hc : cfg_ok cfg).

Lemma drop_ok_while_spec over c : wf cfg c ->
  exists n, shed_ok cfg c (drop_ok_while over c) n /\
    (n = 0%nat \/ exists c1, shed_ok cfg c c1 (n - 1) /\ over c1 = true) /\
    (over (drop_ok_while over c) = false \/ okQ (drop_ok_while over c) = []).
Proof.
  intros Hw. pose proof (drop_loop_exit over okQ dropOKLocked drop_head_shorter _ c (le_n _)) as He.
  unfold drop_ok_while in *. set (P := fun c' => exists n, shed_ok cfg c c' n /\
    (n = 0%nat \/ exists c1, shed_ok cfg c c1 (n - 1) /\ over c1 = true)).
  cut (P (drop_loop over okQ dropOKLocked (length (okQ c)) c)).
  { intros (n & Hn & Hm). by exists n. }
  clear He. apply drop_loop_ind; [|exists 0%nat; split; [by apply shed_refl|by left]].
  intros c1 (n & Hs & _) Hov Hne. pose proof Hs as (Hw1 & Ho & Hp & Hcl & Hn & Hd).
  destruct (okQ c1) as [|e r] eqn:E; [done|]. symmetry in Ho. apply drop_cons_step in Ho as [Ho Hl].
  destruct (dropOK_spec _ _ _ _ Hc Hw1 E) as (Hw2 & Ho2 & Hp2 & Hcl2 & Hd2).
  exists (S n). split; [|right; exists c1; by rewrite Nat.sub_1_r].
  shed; try congruence; try done.
  rewrite Hd2. by apply dropped_step.
Qed.

Lemma drop_prio_while_spec over c : wf cfg c ->
  exists n, shed_prio cfg c (drop_prio_while over c) n /\
    (n = 0%nat \/ exists c1, shed_prio cfg c c1 (n - 1) /\ over c1 = true) /\
    (over (drop_prio_while over c) = false \/ prioQ (drop_prio_while over c) = []).
Proof.
  intros Hw. pose proof (drop_loop_exit over prioQ dropPriorityLocked drop_prio_shorter _ c (le_n _)) as He.
  unfold drop_prio_while in *.
  set (P := fun c' => exists n, shed_prio cfg c c' n /\
    (n = 0%nat \/ exists c1, shed_prio cfg c c1 (n - 1) /\ over c1 = true)).
  cut (P (drop_loop over prioQ dropPriorityLocked (length (prioQ c)) c)).
  { intros (n & Hn & Hm). by exists n. }
  clear He. apply drop_loop_ind; [|exists 0%nat; split; [by apply shed_refl|by left]].
  intros c1 (n & Hs & _) Hov Hne. pose proof Hs as (Hw1 & Ho & Hp & Hcl & Hn & Hd).
  destruct (prioQ c1) as [|e r] eqn:E; [done|]. symmetry in Ho. apply drop_cons_step in Ho as [Ho Hl].
  destruct (dropPriority_spec _ _ _ _ Hc Hw1 E) as (Hw2 & Ho2 & Hp2 & Hcl2 & Hd2).
  exists (S n). split; [|right; exists c1; by rewrite Nat.sub_1_r].
  shed; try congruence; try done.
  rewrite Hd2. by apply dropped_step.
Qed.

Lemma drop_tail_while_spec over c : wf cfg c ->
  exists n, shed_tail cfg c (drop_tail_while over c) n /\
    (over (drop_tail_while over c) = false \/ prioQ (drop_tail_while over c) = []).
Proof.
  intros Hw. pose proof (drop_loop_exit over prioQ dropPriorityTailLocked drop_tail_shorter _ c (le_n _)) as He.
  unfold drop_tail_while in *.
  cut (exists n, shed_tail cfg c (drop_loop over prioQ dropPriorityTailLocked (length (prioQ c)) c) n).
  { intros [n Hn]. by exists n. }
  clear He. apply drop_loop_ind;
    [|exists 0%nat; by apply shed_refl].
  intros c1 (n & Hw1 & Ho & Hp & Hcl & Hn & Hd) _ Hne.
  destruct (exists_last Hne) as (l & e & E).
  destruct (dropTail_spec _ _ _ _ Hc Hw1 E) as (Hw2 & Ho2 & Hp2 & Hcl2 & Hd2).
  rewrite E in Ho. pose proof (f_equal length Ho) as Hlen. rewrite length_app, length_take in Hlen. simpl in Hlen.
  exists (S n). shed; try congruence; try lia; try done.
  - rewrite Ho2. replace (length (prioQ c) - S n)%nat with (Nat.min (length (prioQ c) - S n) (length (prioQ c) - n))%nat by lia.
    rewrite <- take_take, <- Ho. rewrite take_app_le by lia. by rewrite take_ge by lia.
  - rewrite Hd2. by apply dropped_step.
Qed.
End Loops.

(** *** Enqueueing *)

Lemma account_shed_ok cfg c c' n : shed_ok cfg c c' n -> eq64 (account c') (account c).
Proof.
  intros (_ & Ho & Hp & _ & Hn & Hd). unfold account, queued. rewrite Hd, Ho, Hp, length_drop.
  by replace (dropped c + Z.of_nat n + Z.of_nat (length (okQ c) - n + length (prioQ c)))
    with (dropped c + Z.of_nat (length (okQ c) + length (prioQ c))) by lia.
Qed.

Lemma account_shed_prio cfg c c' n : shed_prio cfg c c' n -> eq64 (account c') (account c).
Proof.
  intros (_ & Hp & Ho & _ & Hn & Hd). unfold account, queued. rewrite Hd, Ho, Hp, length_drop.
  by replace (dropped c + Z.of_nat n + Z.of_nat (length (okQ c) + (length (prioQ c) - n)))
    with (dropped c + Z.of_nat (length (okQ c) + length (prioQ c))) by lia.
Qed.

Lemma account_shed_tail cfg c c' n : shed_tail cfg c c' n -> eq64 (account c') (account c).
Proof.
  intros (_ & Hp & Ho & _ & Hn & Hd). unfold account, queued. rewrite Hd, Ho, Hp, length_take.
  by replace (dropped c + Z.of_nat n + Z.of_nat (length (okQ c) + Nat.min (length (prioQ c) - n) (length (prioQ c))))
    with (dropped c + Z.of_nat (length (okQ c) + length (prioQ c))) by lia.
Qed.

Lemma ok_over_exact cfg c size : cfg_ok cfg -> wf cfg c -> 0 <= size <= 2 ^ 57 ->
  ok_over cfg size c = (okCap cfg <? okBytes c + size).
Proof.
  intros Hc Hw Hs. destruct (wf_bounds _ _ Hc Hw) as (Hb & _ & _). unfold ok_over. by rewrite wrap64_small by lia.
Qed.

Lemma total_over_exact cfg c size : cfg_ok cfg -> wf cfg c -> 0 <= size <= 2 ^ 57 ->
  total_over cfg size c = (cf_InFlightCap cfg <? okBytes c + prioBytes c + size).
Proof.
  intros Hc Hw Hs. destruct (wf_bounds _ _ Hc Hw) as (Hb & Hb' & Ht). unfold total_over.
  rewrite Ht. by rewrite wrap64_small by lia.
Qed.

(** Room is made exactly when the new bytes fit the cap of their class on their own. *)
Lemma make_ok_room cfg c size : cfg_ok cfg -> wf cfg c -> 0 <= size <= okCap cfg ->
  ok_over cfg size (drop_ok_while (ok_over cfg size) c) = false.
Proof.
  intros Hc Hw Hs. pose proof (okCap_le _ Hc). pose proof (ok_cap _ Hc).
  destruct (drop_ok_while_spec cfg Hc (ok_over cfg size) c Hw) as (n & (Hw' & _) & _ & [He|He]); [done|].
  rewrite ok_over_exact by (done || lia). destruct Hw' as [H1 _ _ _ _ _]. rewrite H1, He. simpl.
  apply Z.ltb_ge. lia.
Qed.

Lemma append_ok cfg c l : cfg_ok cfg -> wf cfg c -> Forall size_ok l -> okBytes c + sizes l <= okCap cfg ->
  forall q, q ≡ₚ l ++ okQ c -> wf cfg (set_ok c q (wrap64 (okBytes c + sizes l))).
Proof.
  intros Hc Hw Hl Hs q Hq. pose proof (okCap_le _ Hc). pose proof (ok_cap _ Hc).
  destruct (wf_bounds _ _ Hc Hw) as (Hb & Hb' & Ht). destruct Hw as [H1 H2 H3 H4 H5 H6].
  pose proof (sizes_nonneg _ Hl). rewrite wrap64_small by lia.
  assert (sizes q = sizes (l ++ okQ c)) as E.
  { clear -Hq. induction Hq; simpl; lia. }
  rewrite sizes_app in E. split; simpl; try done; [lia|]. rewrite Hq. by apply Forall_app.
Qed.

Lemma append_prio cfg c l : cfg_ok cfg -> wf cfg c -> Forall size_ok l ->
  okBytes c + prioBytes c + sizes l <= cf_InFlightCap cfg ->
  forall q, q ≡ₚ l ++ prioQ c -> wf cfg (set_prio c q (wrap64 (prioBytes c + sizes l))).
Proof.
  intros Hc Hw Hl Hs q Hq. pose proof (ok_cap _ Hc).
  destruct (wf_bounds _ _ Hc Hw) as (Hb & Hb' & Ht). destruct Hw as [H1 H2 H3 H4 H5 H6].
  pose proof (sizes_nonneg _ Hl). rewrite wrap64_small by lia.
  assert (sizes q = sizes (l ++ prioQ c)) as E.
  { clear -Hq. induction Hq; simpl; lia. }
  rewrite sizes_app in E. split; simpl; try done; try lia. rewrite Hq. by apply Forall_app.
Qed.

(** An ok event is taken when it fits the ok budget alone; the oldest ok events make
    room for it, no more of them than needed, and priority events are left alone. *)
Lemma enqueueOK_spec cfg ev size c : cfg_ok cfg -> wf cfg c -> 0 <= size ->
  if size <=? okCap cfg then
    exists n, (enqueueOKLocked cfg ev size c).1 = true /\
      wf cfg (enqueueOKLocked cfg ev size c).2 /\
      okQ (enqueueOKLocked cfg ev size c).2 = drop n (okQ c) ++ [mkQueued ev size 0] /\
      prioQ (enqueueOKLocked cfg ev size c).2 = prioQ c /\
      closing (enqueueOKLocked cfg ev size c).2 = closing c /\
      eq64 (account (enqueueOKLocked cfg ev size c).2) (account c + 1) /\
      (n = 0%nat \/ okCap cfg < sizes (drop (n - 1) (okQ c)) + size)
  else enqueueOKLocked cfg ev size c = (false, c).
Proof.
  intros Hc Hw Hs. unfold enqueueOKLocked. rewrite Z.ltb_antisym.
  destruct (size <=? okCap cfg) eqn:E; simpl; [|done]. bool_prop.
  pose proof (okCap_le _ Hc). pose proof (ok_cap _ Hc).
  rewrite make_ok_room by done. simpl.
  pose proof (make_ok_room _ _ _ Hc Hw (conj Hs E)) as Hroom.
  destruct (drop_ok_while_spec cfg Hc (ok_over cfg size) c Hw) as (n & Hsh & Hmin & _).
  set (c1 := drop_ok_while _ c) in *. pose proof (account_shed_ok _ _ _ _ Hsh) as Ha.
  destruct Hsh as (Hw1 & Ho & Hp & Hcl & Hn & Hd). exists n.
  rewrite ok_over_exact in Hroom by (done || lia). bool_prop.
  split; [done|split; [|split; [by rewrite Ho|split; [done|split; [done|split]]]]].
  - pose proof (append_ok cfg c1 [mkQueued ev size 0] Hc Hw1) as Hap. simpl in Hap.
    rewrite Z.add_0_r in Hap. apply Hap; [by repeat constructor|lia|]. by rewrite Permutation_app_comm.
  - rewrite <- Ha. unfold account, queued. simpl. rewrite length_app. simpl.
    by replace (dropped c1 + Z.of_nat (length (okQ c1) + 1 + length (prioQ c1)))
      with (dropped c1 + Z.of_nat (length (okQ c1) + length (prioQ c1)) + 1) by lia.
  - destruct Hmin as [Hm|(c2 & (Hw2 & Ho2 & _) & Hov)]; [by left|right].
    rewrite ok_over_exact in Hov by (done || lia). bool_prop.
    rewrite (wf_okBytes _ _ Hw2), Ho2 in Hov. lia.
Qed.

(** A priority event is taken when it fits the whole cap alone.  Ok events make room
    first: a queued priority event is dropped only when no ok event is left, and in both
    queues no more than needed. *)
Lemma enqueuePriority_spec cfg ev size c : cfg_ok cfg -> wf cfg c -> 0 <= size ->
  if size <=? cf_InFlightCap cfg then
    exists n m, (enqueuePriorityLocked cfg ev size c).1 = true /\
      wf cfg (enqueuePriorityLocked cfg ev size c).2 /\
      okQ (enqueuePriorityLocked cfg ev size c).2 = drop n (okQ c) /\
      prioQ (enqueuePriorityLocked cfg ev size c).2 = drop m (prioQ c) ++ [mkQueued ev size 0] /\
      closing (enqueuePriorityLocked cfg ev size c).2 = closing c /\
      eq64 (account (enqueuePriorityLocked cfg ev size c).2) (account c + 1) /\
      (n = 0%nat \/ cf_InFlightCap cfg < sizes (drop (n - 1) (okQ c)) + sizes (prioQ c) + size) /\
      (m = 0%nat \/ drop n (okQ c) = [] /\ cf_InFlightCap cfg < sizes (drop (m - 1) (prioQ c)) + size)
  else enqueuePriorityLocked cfg ev size c = (false, c).
Proof.
  intros Hc Hw Hs. unfold enqueuePriorityLocked. rewrite Z.ltb_antisym.
  destruct (size <=? cf_InFlightCap cfg) eqn:E; simpl; [|done]. bool_prop. pose proof (ok_cap _ Hc).
  destruct (drop_ok_while_spec cfg Hc (total_over cfg size) c Hw) as (n & Hsh & Hmin & He).
  set (c1 := drop_ok_while _ c) in *. pose proof (account_shed_ok _ _ _ _ Hsh) as Ha.
  destruct Hsh as (Hw1 & Ho & Hp & Hcl & Hn & Hd).
  destruct (drop_prio_while_spec cfg Hc (total_over cfg size) c1 Hw1) as (m & Hsh2 & Hmin2 & He2).
  set (c2 := drop_prio_while _ c1) in *. pose proof (account_shed_prio _ _ _ _ Hsh2) as Ha2.
  destruct Hsh2 as (Hw2 & Hp2 & Ho2 & Hcl2 & Hn2 & Hd2).
  assert (m = 0%nat \/ okQ c1 = []) as Hall.
  { destruct Hmin2 as [?|(c3 & (Hw3 & Hp3 & Ho3 & _) & Hov)]; [by left|right].
    destruct He as [He|He]; [|done]. exfalso.
    rewrite total_over_exact in He, Hov by (done || lia). bool_prop.
    rewrite (wf_okBytes _ _ Hw3), (wf_prioBytes _ _ Hw3), Ho3, Hp3 in Hov.
    rewrite (wf_okBytes _ _ Hw1), (wf_prioBytes _ _ Hw1), (sizes_split (m - 1) (prioQ c1)) in He.
    pose proof (sizes_nonneg (take (m - 1) (prioQ c1)) (Forall_take _ _ _ (wf_prioQ _ _ Hw1))). lia. }
  assert (okBytes c2 + prioBytes c2 + size <= cf_InFlightCap cfg) as Hfit.
  { destruct He2 as [He2|He2]; [rewrite total_over_exact in He2 by (done || lia); bool_prop; lia|].
    rewrite (wf_okBytes _ _ Hw2), (wf_prioBytes _ _ Hw2), He2, Ho2. simpl. destruct Hall as [->|Hall].
    - rewrite drop_0 in Hp2. destruct He as [He|He]; [|rewrite He; simpl; lia].
      rewrite total_over_exact in He by (done || lia). bool_prop.
      rewrite (wf_okBytes _ _ Hw1), (wf_prioBytes _ _ Hw1), <- Hp2, He2 in He. simpl in He. lia.
    - rewrite Hall. simpl. lia. }
  rewrite total_over_exact by (done || lia). rewrite (proj2 (Z.ltb_ge _ _) Hfit). exists n, m. simpl.
  split; [done|split; [|split; [congruence|split; [by rewrite Hp2, Hp|split; [congruence|split; [|split]]]]]].
  - pose proof (append_prio cfg c2 [mkQueued ev size 0] Hc Hw2) as Hap. simpl in Hap.
    rewrite Z.add_0_r in Hap. apply Hap; [by repeat constructor|lia|]. by rewrite Permutation_app_comm.
  - rewrite <- Ha, <- Ha2. unfold account, queued. simpl. rewrite length_app. simpl.
    by replace (dropped c2 + Z.of_nat (length (okQ c2) + (length (prioQ c2) + 1)))
      with (dropped c2 + Z.of_nat (length (okQ c2) + length (prioQ c2)) + 1) by lia.
  - destruct Hmin as [Hm|(c3 & (Hw3 & Ho3 & Hp3 & _) & Hov)]; [by left|right].
    rewrite total_over_exact in Hov by (done || lia). bool_prop.
    rewrite (wf_okBytes _ _ Hw3), (wf_prioBytes _ _ Hw3), Ho3, Hp3 in Hov. lia.
  - destruct Hmin2 as [Hm|(c3 & (Hw3 & Hp3 & Ho3 & _) & Hov)]; [by left|].
    destruct Hall as [Hall|Hall]; [by left|right]. split; [congruence|].
    rewrite total_over_exact in Hov by (done || lia). bool_prop.
    rewrite (wf_okBytes _ _ Hw3), (wf_prioBytes _ _ Hw3), Ho3, Hp3, Hall, Hp in Hov. simpl in Hov. lia.
Qed.

(** What every operation of the queue keeps, and how it moves the account of events. *)
Definition keeps (cfg : Config) (c c' : client) (k : Z) : Prop :=
  wf cfg c' /\ closing c' = closing c /\ eq64 (account c') (account c + k).

Lemma Forall_drop_snoc {A} (P : A -> Prop) n l x : Forall P l -> P x -> Forall P (drop n l ++ [x]).
Proof. intros. apply Forall_app. split; [by apply Forall_drop|by constructor]. Qed.

Lemma account_recordDrop n c : 0 <= n -> eq64 (account (recordDrop n c)) (account c + n).
Proof.
  intros Hn. unfold account, queued. client_simpl. rewrite dropped_recordDrop by done.
  by replace (dropped c + n + Z.of_nat (length (okQ c) + length (prioQ c)))
    with (dropped c + Z.of_nat (length (okQ c) + length (prioQ c)) + n) by lia.
Qed.

Lemma estimateEventSize_nonneg marshal ev : 0 <= estimateEventSize marshal ev.
Proof. unfold estimateEventSize. destruct (marshal ev); lia. Qed.

(** Each event of a queue satisfies [Q]. *)
Definition all_queued (Q : queuedEvent -> Prop) (c : client) : Prop := Forall Q (okQ c) /\ Forall Q (prioQ c).

Lemma Submit_keeps cfg marshal ev c (Q : queuedEvent -> Prop) : cfg_ok cfg -> wf cfg c -> all_queued Q c ->
  Q (mkQueued ev (estimateEventSize marshal ev) 0) ->
  keeps cfg c (Submit marshal cfg ev c).2 1 /\ all_queued Q (Submit marshal cfg ev c).2.
Proof.
  intros Hc Hw HQ He. pose proof (estimateEventSize_nonneg marshal ev) as Hs.
  assert (keeps cfg c (recordDrop 1 c) 1 /\ all_queued Q (recordDrop 1 c)) as Hfail.
  { split; [split; [|split]|].
    - eapply wf_same; [apply recordDrop_queue|done].
    - by client_simpl.
    - by apply account_recordDrop.
    - unfold all_queued. by client_simpl. }
  unfold Submit, enqueue. destruct (closing c) eqn:Ecl; [done|]. destruct (IsPriority (ev_Status ev)).
  - pose proof (enqueuePriority_spec cfg ev _ c Hc Hw Hs) as H.
    destruct (_ <=? _) in H; [|by rewrite H].
    destruct (enqueuePriorityLocked _ _ _ c) as [b c']. simpl in H.
    destruct H as (n & m & -> & Hw' & Ho & Hp & Hcl & Ha & _). simpl.
    split; [done|].
    destruct HQ. split; simpl; rewrite ?Ho, ?Hp; [by apply Forall_drop|by apply Forall_drop_snoc].
  - pose proof (enqueueOK_spec cfg ev _ c Hc Hw Hs) as H.
    destruct (_ <=? _) in H; [|by rewrite H].
    destruct (enqueueOKLocked _ _ _ c) as [b c']. simpl in H.
    destruct H as (n & -> & Hw' & Ho & Hp & Hcl & Ha & _). simpl.
    split; [done|].
    destruct HQ. split; simpl; rewrite ?Ho, ?Hp; [by apply Forall_drop_snoc|done].
Qed.

(** *** Taking *)

(** [batch_len] takes a prefix: at most [MaxBatch] events, within the byte limit unless
    the batch is a single event; and it stops only at a limit or at the end. *)
Lemma batch_len_spec cfg src n b : Forall size_ok src -> 0 <= n -> 0 <= b -> b + sizes src <= 2 ^ 60 ->
  (batch_len cfg src n b).2 = b + sizes (take (batch_len cfg src n b).1 src) /\
  ((batch_len cfg src n b).1 <= length src)%nat /\
  (n <= cf_MaxBatch cfg -> n + Z.of_nat (batch_len cfg src n b).1 <= cf_MaxBatch cfg) /\
  ((batch_len cfg src n b).1 = 0%nat \/ n + Z.of_nat (batch_len cfg src n b).1 = 1 \/
   (batch_len cfg src n b).2 <= cf_MaxBatchSize cfg) /\
  ((batch_len cfg src n b).1 = length src \/ cf_MaxBatch cfg <= n + Z.of_nat (batch_len cfg src n b).1 \/
   exists next, src !! (batch_len cfg src n b).1 = Some next /\
     cf_MaxBatchSize cfg < (batch_len cfg src n b).2 + qe_size next).
Proof.
  intros Hs. revert n b. induction Hs as [|e l He Hl IH]; intros n b Hn Hb Hsum; simpl.
  - repeat split; try lia; auto; lia.
  - simpl in Hsum. unfold size_ok in He. pose proof (sizes_nonneg _ Hl).
    rewrite wrap64_small by lia. case_if; simpl; [repeat split; auto; bool_prop; lia|].
    apply negb_false_iff, Z.ltb_lt in E. case_if; simpl.
    { bool_prop. repeat split; auto; try lia. right. right. exists e. split; [done|lia]. }
    specialize (IH (n + 1) (b + qe_size e) ltac:(lia) ltac:(lia) ltac:(lia)).
    destruct (batch_len cfg l (n + 1) (b + qe_size e)) as [k b'] eqn:Ek. simpl in *.
    destruct IH as (H1 & H2 & H3 & H4 & H5). split; [lia|split; [lia|split; [lia|split]]].
    + right. destruct H4 as [->|[?|?]]; [|lia|by right]. simpl in H1.
      apply andb_false_iff in E0 as [E0|E0]; bool_prop; [left; lia|right; lia].
    + destruct H5 as [?|[?|(x & ? & ?)]]; [left; lia|right; left; lia|right; right; by exists x].
Qed.

Lemma batch_len_pos cfg e src : 0 < cf_MaxBatch cfg -> (batch_len cfg (e :: src) 0 0).1 <> 0%nat.
Proof.
  intros H. simpl. rewrite (proj2 (Z.ltb_lt _ _) H). simpl.
  by destruct (batch_len cfg src _ _).
Qed.

(** The limits every batch obeys. *)
Definition limited (cfg : Config) (l : list queuedEvent) : Prop :=
  l <> [] /\ Z.of_nat (length l) <= cf_MaxBatch cfg /\ (length l = 1%nat \/ sizes l <= cf_MaxBatchSize cfg).

(** A queue the loop leaves alone: empty, or below both thresholds and not forced. *)
Definition not_ready (cfg : Config) (force : bool) (src : list queuedEvent) : Prop :=
  src = [] \/ force = false /\ Z.of_nat (length src) < cf_MaxBatch cfg /\ sizes src < cf_MaxBatchSize cfg.

Lemma takeFrom_spec cfg src force : 0 < cf_MaxBatch cfg -> Forall size_ok src -> sizes src <= 2 ^ 56 ->
  exists b q, takeFromLocked cfg src (sizes src) force = (b, q, sizes q) /\ src = b ++ q /\
    (b = [] /\ not_ready cfg force src \/ limited cfg b /\ ~ not_ready cfg force src).
Proof.
  intros Hm Hs Hb. unfold takeFromLocked. destruct src as [|e rest]; [exists [], []; split; [done|split; [done|]]; left; by split; [|left]|].
  set (src := e :: rest) in *. change (nonempty src) with true. simpl negb. cbv iota.
  destruct (negb force && _ && _) eqn:E.
  { exists [], src. split; [done|split; [done|left]]. split; [done|right].
    apply andb_true_iff in E as [E E2]. apply andb_true_iff in E as [E0 E1]. bool_prop. done. }
  pose proof (batch_len_spec cfg src 0 0 Hs ltac:(lia) ltac:(lia) ltac:(lia)) as (H1 & H2 & H3 & H4 & _).
  pose proof (batch_len_pos cfg e rest Hm) as Hne. fold src in Hne.
  destruct (batch_len cfg src 0 0) as [n b]. cbn [fst snd] in *. exists (take n src), (drop n src).
  rewrite take_drop. split; [|split; [done|right]].
  - f_equal. rewrite H1, (sizes_split n src). pose proof (sizes_nonneg _ (Forall_drop _ n _ Hs)).
    pose proof (sizes_nonneg _ (Forall_take _ n _ Hs)). rewrite (sizes_split n src) in Hb.
    rewrite wrap64_small by lia. lia.
  - split; [split; [|split]|].
    + intros Ht. apply (f_equal length) in Ht. rewrite length_take in Ht. simpl length in Ht.
      subst src. simpl length in *. lia.
    + rewrite length_take. lia.
    + rewrite length_take. destruct H4 as [?|[?|?]]; [done|left; lia|right; lia].
    + intros [?|(-> & Hl1 & Hl2)]; [done|]. apply Z.ltb_lt in Hl1, Hl2. by rewrite Hl1, Hl2 in E.
Qed.

Lemma wf_set_prio cfg c b q : wf cfg c -> prioQ c = b ++ q -> wf cfg (set_prio c q (sizes q)).
Proof.
  intros [H1 H2 H3 H4 H5 H6] Hq. rewrite Hq in H2, H4. rewrite sizes_app in H2.
  apply Forall_app in H4 as [Hb H4]. pose proof (sizes_nonneg _ Hb). split; simpl; try done; lia.
Qed.

Lemma wf_set_ok cfg c b q : wf cfg c -> okQ c = b ++ q -> wf cfg (set_ok c q (sizes q)).
Proof.
  intros [H1 H2 H3 H4 H5 H6] Hq. rewrite Hq in H1, H3. rewrite sizes_app in H1.
  apply Forall_app in H3 as [Hb H3]. pose proof (sizes_nonneg _ Hb). split; simpl; try done; lia.
Qed.

(** What a run of the taking loop returns: the priority queue's batches [ps] first, then
    the ok queue's [os], each a prefix of what was left of its queue, until neither queue
    is ready. *)
Definition taken (cfg : Config) (force : bool) (c c' : client) (ps os : list (list queuedEvent)) : Prop :=
  prioQ c = concat ps ++ prioQ c' /\ okQ c = concat os ++ okQ c' /\
  Forall (limited cfg) (ps ++ os) /\ not_ready cfg force (prioQ c') /\ not_ready cfg force (okQ c') /\
  (not_ready cfg force (prioQ c) -> ps = []) /\
  wf cfg c' /\ closing c' = closing c /\ dropped c' = dropped c.

Definition batches (ps os : list (list queuedEvent)) : list queuedBatch :=
  (mkBatch classPriority <$> ps) ++ (mkBatch classOK <$> os).

Lemma take_loop_spec cfg force : cfg_ok cfg -> forall fuel c, wf cfg c -> (queued c < fuel)%nat ->
  exists ps os c', take_loop cfg force fuel c = Some (batches ps os, c') /\ taken cfg force c c' ps os.
Proof.
  intros Hc. pose proof (ok_batch _ Hc) as Hm. induction fuel as [|fuel IH]; intros c Hw Hf; [lia|].
  destruct (wf_bounds _ _ Hc Hw) as (Hb1 & Hb2 & _). pose proof Hw as [H1 H2 H3 H4 _ _].
  simpl. unfold takeOneLocked.
  destruct (takeFrom_spec cfg (prioQ c) force Hm H4 ltac:(lia)) as (b & q & E & Hq & Hcase).
  rewrite H2, E. pose proof (wf_set_prio _ _ _ _ Hw Hq) as Hw1.
  destruct Hcase as [[-> Hnr]|[Hl Hr]]; simpl.
  - simpl in Hq. subst q.
    destruct (takeFrom_spec cfg (okQ c) force Hm H3 ltac:(lia)) as (b & q & E' & Hq & Hcase).
    rewrite H1, E'. pose proof (wf_set_ok _ _ _ _ Hw1 Hq) as Hw2.
    destruct Hcase as [[-> Hnr']|[Hl Hr]]; simpl.
    + exists [], [], (set_ok (set_prio c (prioQ c) (sizes (prioQ c))) q (sizes q)).
      split; [done|]. simpl in Hq. subst q. repeat split; simpl; try done; try apply Hw2.
    + destruct Hl as (Hne & Hl). destruct b as [|x b]; [done|]. simpl.
      destruct (IH _ Hw2) as (ps & os & c' & Hrun & Ht).
      { unfold queued in *. simpl. rewrite Hq, length_app in Hf. simpl in Hf. lia. }
      destruct Ht as (T1 & T2 & T3 & T4 & T5 & T6 & T7 & T8 & T9). simpl in *.
      specialize (T6 Hnr). subst ps. rewrite Hrun. simpl.
      exists [], ((x :: b) :: os), c'. split; [done|]. unfold taken. simpl.
      split; [done|split; [|split; [|by repeat (split; [done|])]]].
      * rewrite Hq. simpl. rewrite T2. by rewrite app_assoc.
      * constructor; [by split|done].
  - pose proof Hl as (Hne & _). destruct b as [|x b]; [done|]. simpl.
    destruct (IH _ Hw1) as (ps & os & c' & Hrun & Ht).
    { unfold queued in *. simpl. rewrite Hq, length_app in Hf. simpl in Hf. lia. }
    destruct Ht as (T1 & T2 & T3 & T4 & T5 & T6 & T7 & T8 & T9). simpl in *. rewrite Hrun. simpl.
    exists ((x :: b) :: ps), os, c'. split; [done|]. unfold taken. simpl.
    split; [|split; [done|split; [by constructor|]]].
    + rewrite Hq. simpl. rewrite T1. by rewrite app_assoc.
    + by repeat (split; [done|]).
Qed.

(** *** Delivering *)

Definition class_cap (cfg : Config) (k : batchClass) : Z :=
  match k with classOK => okCap cfg | classPriority => cf_InFlightCap cfg end.

Definition encodable (marshal : Event -> option string) (ev : Event) : Prop := marshal ev <> None.

(** An event on its way: it can be encoded, and it was posted at most [MaxRetries] times. *)
Definition underway (cfg : Config) (marshal : Event -> option string) (e : queuedEvent) : Prop :=
  encodable marshal (qe_ev e) /\ 0 <= qe_attempts e <= cf_MaxRetries cfg /\ size_ok e.

Definition batch_good (cfg : Config) (marshal : Event -> option string) (b : queuedBatch) : Prop :=
  qb_events b <> [] /\ Forall (underway cfg marshal) (qb_events b) /\
  sizes (qb_events b) <= class_cap cfg (qb_class b).

Lemma underway_sizes cfg marshal l : Forall (underway cfg marshal) l -> Forall size_ok l.
Proof. intros H. eapply Forall_impl; [exact H|]. by intros e (_ & _ & He). Qed.

Section Deliver.
Context (cfg : Config) (Hc : cfg_ok cfg).
Context (marshal : Event -> option string) (unmarshal_rejected : string -> option Z)
  (ParseTime : string -> option Time).

Lemma same_queue_counters c :
  (forall n, same_queue c (recordFailure n c) /\ dropped (recordFailure n c) = dropped c) /\
  (forall body, same_queue c (recordEnvelope unmarshal_rejected body c) /\
     dropped (recordEnvelope unmarshal_rejected body c) = dropped c) /\
  (forall d s, same_queue c (recordResponseHeaders d s c) /\ dropped (recordResponseHeaders d s c) = dropped c).
Proof.
  unfold same_queue, recordEnvelope, recordFailure, recordResponseHeaders.
  split; [|split]; intros *; [by case_if| |by case_if]. case_if; [done|].
  destruct (unmarshal_rejected _); [|done]. unfold recordRejected. by case_if.
Qed.

Lemma encode_all_encodable l c : Forall (encodable marshal) l -> encode_all marshal l c = (nonempty l, c).
Proof.
  unfold encodable. induction 1 as [|ev l H Hl IH]; simpl; [done|].
  destruct (marshal ev); [|done]. by rewrite IH.
Qed.

(** A POST of encodable events either delivers them, or drops them all, or changes
    nothing but the failure counter. *)
Lemma flushBatch_spec nw l c : l <> [] -> Forall (encodable marshal) l ->
  let '(r, c') := flushBatch marshal unmarshal_rejected ParseTime nw l c in
  same_queue c c' /\
  eq64 (dropped c') (dropped c + (if dr_success r || dr_retryable r then 0 else Z.of_nat (length l))).
Proof.
  intros Hne Hl. unfold flushBatch. destruct l as [|ev l]; [done|]. set (l0 := ev :: l) in *.
  rewrite (encode_all_encodable _ _ Hl). cbn [negb nonempty l0].
  assert (forall c1, same_queue c c1 -> dropped c1 = dropped c ->
    same_queue c c1 /\ eq64 (dropped c1) (dropped c + 0)) as Hz.
  { intros c1 H1 H2. split; [done|]. by rewrite H2, Z.add_0_r. }
  destruct (nw_request_ok nw); cbn [negb dr_success dr_retryable orb].
  2:{ split; [apply recordDrop_queue|]. rewrite dropped_recordDrop by lia. done. }
  destruct (nw_response nw) as [resp|]; [|apply Hz; apply same_queue_counters]. case_if; [|case_if].
  - cbn [dr_success dr_retryable orb]. apply Hz.
    + etransitivity; [apply (proj2 (proj2 (same_queue_counters c)))|apply same_queue_counters].
    + rewrite (proj2 (proj1 (proj2 (same_queue_counters _)) _)). apply same_queue_counters.
  - cbn [dr_success dr_retryable orb]. apply Hz; apply same_queue_counters.
  - cbn [dr_success dr_retryable orb]. split; [apply recordDrop_queue|]. rewrite dropped_recordDrop by lia. done.
Qed.

Lemma retry_events_spec l c : Forall (underway cfg marshal) l ->
  let '(kept, c') := retry_events cfg l c in
  same_queue c c' /\ Forall (underway cfg marshal) kept /\ sizes kept <= sizes l /\
  eq64 (dropped c' + Z.of_nat (length kept)) (dropped c + Z.of_nat (length l)).
Proof.
  intros Hl. revert c. induction Hl as [|e l (He & Ha & Hs) Hl IH]; intros c; simpl; [done|].
  pose proof (ok_retries _ Hc). rewrite wrap64_small by lia. unfold size_ok in Hs. case_if.
  - specialize (IH (recordDrop 1 c)). destruct (retry_events cfg l (recordDrop 1 c)) as [kept c'].
    destruct IH as (H1 & H2 & H3 & H4). split; [|split; [done|split; [lia|]]].
    + etransitivity; [apply recordDrop_queue|done].
    + rewrite H4, dropped_recordDrop by lia.
      by replace (dropped c + 1 + Z.of_nat (length l)) with (dropped c + Z.of_nat (S (length l))) by lia.
  - specialize (IH c). destruct (retry_events cfg l c) as [kept c']. destruct IH as (H1 & H2 & H3 & H4).
    bool_prop. split; [done|split; [|split; [simpl; lia|]]].
    + constructor; [|done]. split; [done|]. simpl. split; [lia|done].
    + simpl. replace (dropped c' + Z.of_nat (S (length kept))) with (dropped c' + Z.of_nat (length kept) + 1) by lia.
      rewrite H4. by replace (dropped c + Z.of_nat (length l) + 1) with (dropped c + Z.of_nat (S (length l))) by lia.
Qed.

Lemma account_same c c' k : same_queue c c' -> eq64 (dropped c') (dropped c + k) ->
  eq64 (account c') (account c + k).
Proof.
  intros (Ho & Hp & _) Hd. unfold account, queued. rewrite Ho, Hp, Hd.
  by replace (dropped c + k + Z.of_nat (length (okQ c) + length (prioQ c)))
    with (dropped c + Z.of_nat (length (okQ c) + length (prioQ c)) + k) by lia.
Qed.

Definition batch_count (o : option queuedBatch) : Z :=
  match o with None => 0 | Some b => Z.of_nat (length (qb_events b)) end.

(** One delivery accounts for each event of its batch: delivered, dropped or kept for a
    retry; a closing client keeps none. *)
Lemma deliver_spec nw b c : batch_good cfg marshal b ->
  let '(r, retry, c') := deliver marshal unmarshal_rejected ParseTime cfg nw b c in
  same_queue c c' /\
  eq64 (account c' + batch_count (fst <$> retry) + (if dr_success r then Z.of_nat (length (qb_events b)) else 0))
       (account c + Z.of_nat (length (qb_events b))) /\
  match retry with
  | None => True
  | Some (b', _) => batch_good cfg marshal b' /\ qb_class b' = qb_class b /\ closing c = false
  end.
Proof.
  intros (Hne & Hu & Hs). unfold deliver.
  pose proof (flushBatch_spec nw (qe_ev <$> qb_events b) c) as Hf.
  destruct (flushBatch _ _ _ _ _ c) as [r c1]. destruct Hf as [Hq Hd].
  { by destruct (qb_events b). }
  { rewrite Forall_fmap. eapply Forall_impl; [exact Hu|]. by intros e [H _]. }
  rewrite length_fmap in Hd. apply (account_same _ _ _ Hq) in Hd. destruct (dr_success r) eqn:Es; simpl in *; rewrite ?Es.
  { split; [done|split; [|done]]. by rewrite Hd, !Z.add_0_r. }
  destruct (dr_retryable r); simpl in *; rewrite ?Es.
  2:{ split; [done|split; [|done]]. by rewrite Hd, !Z.add_0_r. }
  pose proof (retry_events_spec _ c1 Hu) as Hr. destruct (retry_events _ _ c1) as [kept c2].
  destruct Hr as (Hq2 & Hk & Hks & Hd2).
  assert (same_queue c c2) as Hq3 by by etransitivity.
  assert (eq64 (account c2 + Z.of_nat (length kept)) (account c + Z.of_nat (length (qb_events b)))) as Ha.
  { rewrite Z.add_0_r in Hd. rewrite <- Hd. unfold account, queued. destruct Hq2 as (-> & -> & _).
    rewrite <- !Z.add_assoc, (Z.add_comm (Z.of_nat (_ + _)) (Z.of_nat (length kept))).
    rewrite (Z.add_comm (Z.of_nat (_ + _)) (Z.of_nat (length (qb_events b)))), !Z.add_assoc. by rewrite Hd2. }
  destruct kept as [|x kept]; simpl; rewrite ?Es.
  { split; [done|split; [|done]]. cbn [length Z.of_nat] in Ha. by rewrite !Z.add_0_r in *. }
  assert (closing c2 = closing c) as Hcl by apply Hq3.
  destruct (closing c2) eqn:E; cbn [fmap option_fmap option_map batch_count qb_events]; rewrite ?Es.
  { split; [etransitivity; [exact Hq3|apply recordDrop_queue]|split; [|done]].
    rewrite !Z.add_0_r, account_recordDrop by lia. done. }
  split; [done|split; [|split; [|done]]].
  - by rewrite Z.add_0_r.
  - split; [done|split; [done|]]. simpl in *. lia.
Qed.

(** Putting a batch back finds room for it unless the client is closing. *)
Lemma redeliver_spec b c : wf cfg c -> batch_good cfg marshal b -> all_queued (underway cfg marshal) c ->
  keeps cfg c (redeliver cfg b c) (Z.of_nat (length (qb_events b))) /\
  all_queued (underway cfg marshal) (redeliver cfg b c) /\
  (closing c = true -> same_queue c (redeliver cfg b c)).
Proof.
  intros Hw (Hne & Hu & Hs) HQ. unfold redeliver, requeueFront. destruct (closing c) eqn:Ecl.
  { split; [split; [|split]|split; [|intros _; apply recordDrop_queue]].
    - eapply wf_same; [apply recordDrop_queue|done].
    - by client_simpl.
    - by apply account_recordDrop; lia.
    - unfold all_queued. by client_simpl. }
  pose proof (underway_sizes _ _ _ Hu) as Hsz. pose proof (sizes_nonneg _ Hsz).
  pose proof (okCap_le _ Hc). pose proof (ok_cap _ Hc). destruct HQ as [HQ1 HQ2].
  rewrite sum_sizes_exact; [|done|unfold max_int64; destruct (qb_class b); simpl in Hs; lia].
  destruct (qb_class b); simpl in Hs.
  - pose proof (make_ok_room _ _ _ Hc Hw (conj H Hs)) as Hroom. rewrite Hroom.
    destruct (drop_ok_while_spec cfg Hc (ok_over cfg (sizes (qb_events b))) c Hw) as (n & Hsh & _ & _).
    set (c1 := drop_ok_while _ c) in *. pose proof (account_shed_ok _ _ _ _ Hsh) as Ha.
    destruct Hsh as (Hw1 & Ho & Hp & Hcl & _). rewrite ok_over_exact in Hroom by (done || lia). bool_prop.
    split; [split; [|split]|split; [|done]]; simpl.
    + apply append_ok; done || lia.
    + congruence.
    + rewrite <- Ha. unfold account, queued. simpl. rewrite length_app.
      by replace (dropped c1 + Z.of_nat (length (qb_events b) + length (okQ c1) + length (prioQ c1)))
        with (dropped c1 + Z.of_nat (length (okQ c1) + length (prioQ c1)) + Z.of_nat (length (qb_events b))) by lia.
    + split; simpl; rewrite ?Ho, ?Hp; [|done]. apply Forall_app. split; [done|by apply Forall_drop].
  - destruct (drop_ok_while_spec cfg Hc (total_over cfg (sizes (qb_events b))) c Hw) as (n & Hsh & _ & He).
    set (c1 := drop_ok_while _ c) in *. pose proof (account_shed_ok _ _ _ _ Hsh) as Ha.
    destruct Hsh as (Hw1 & Ho & Hp & Hcl & _).
    destruct (drop_tail_while_spec cfg Hc (total_over cfg (sizes (qb_events b))) c1 Hw1) as (m & Hsh2 & He2).
    set (c2 := drop_tail_while _ c1) in *. pose proof (account_shed_tail _ _ _ _ Hsh2) as Ha2.
    assert (okQ c1 = [] \/ m = 0%nat) as Hm.
    { destruct He as [He|He]; [right|by left]. unfold c2, drop_tail_while in Hsh2.
      destruct (length (prioQ c1)) eqn:El; simpl in Hsh2.
      - destruct Hsh2 as (_ & _ & _ & _ & Hn & _). lia.
      - rewrite He in Hsh2. simpl in Hsh2. destruct Hsh2 as (_ & Hp2 & _ & _ & Hn & _).
        apply (f_equal length) in Hp2. rewrite length_take in Hp2. lia. }
    destruct Hsh2 as (Hw2 & Hp2 & Ho2 & Hcl2 & Hn2 & Hd2).
    assert (okBytes c2 + prioBytes c2 + sizes (qb_events b) <= cf_InFlightCap cfg) as Hfit.
    { destruct He2 as [He2|He2]; [rewrite total_over_exact in He2 by (done || lia); bool_prop; lia|].
      rewrite (wf_okBytes _ _ Hw2), (wf_prioBytes _ _ Hw2), He2, Ho2. simpl. destruct Hm as [-> | ->]; [simpl; lia|].
      rewrite Nat.sub_0_r, take_ge in Hp2 by lia. destruct He as [He| ->]; [|simpl; lia].
      rewrite total_over_exact in He by (done || lia). bool_prop.
      rewrite (wf_okBytes _ _ Hw1), (wf_prioBytes _ _ Hw1), <- Hp2, He2 in He. simpl in He. lia. }
    rewrite total_over_exact by (done || lia). rewrite (proj2 (Z.ltb_ge _ _) Hfit).
    split; [split; [|split]|split; [|done]]; simpl.
    + apply append_prio; done || lia.
    + congruence.
    + rewrite <- Ha, <- Ha2. unfold account, queued. simpl. rewrite length_app.
      by replace (dropped c2 + Z.of_nat (length (okQ c2) + (length (qb_events b) + length (prioQ c2))))
        with (dropped c2 + Z.of_nat (length (okQ c2) + length (prioQ c2)) + Z.of_nat (length (qb_events b))) by lia.
    + split; simpl; rewrite ?Ho2, ?Ho, ?Hp2, ?Hp; [by apply Forall_drop|].
      apply Forall_app. split; [done|by apply Forall_take].
Qed.
End Deliver.

(** ** The loop *)

Section World.
Context (cfg : Config) (Hc : cfg_ok cfg).
Context (marshal : Event -> option string) (unmarshal_rejected : string -> option Z)
  (ParseTime : string -> option Time).

Abbreviation act := (act marshal unmarshal_rejected ParseTime cfg).
Abbreviation busy_steps := (busy_steps marshal unmarshal_rejected ParseTime cfg).
Abbreviation acts := (acts marshal unmarshal_rejected ParseTime cfg).
Abbreviation reachable := (reachable marshal unmarshal_rejected ParseTime cfg (encodable marshal)).
Abbreviation batch_good := (batch_good cfg marshal).

Fixpoint pending_count (l : list queuedBatch) : Z :=
  match l with [] => 0 | b :: l => Z.of_nat (length (qb_events b)) + pending_count l end.

(** Where each event handed to [Submit] is. *)
Definition located (w : world) : Z :=
  account (w_client w) + pending_count (w_pending w) + batch_count (w_sleeping w) + w_delivered w.

Record winv (w : world) : Prop := {
  wi_wf : wf cfg (w_client w);
  wi_queued : all_queued (underway cfg marshal) (w_client w);
  wi_pending : Forall batch_good (w_pending w);
  wi_sleeping : forall b, w_sleeping w = Some b -> batch_good b /\ w_stopping w = false;
  wi_stopping : w_stopping w = true -> closing (w_client w) = true /\ queued (w_client w) = 0%nat;
  wi_drained : w_drained w = true -> w_stopping w = true /\ w_pending w = [];
  wi_located : eq64 (w_submitted w) (located w)
}.

Lemma batches_good force c c' ps os : wf cfg c -> all_queued (underway cfg marshal) c ->
  taken cfg force c c' ps os ->
  Forall batch_good (batches ps os) /\ all_queued (underway cfg marshal) c' /\
  eq64 (account c' + pending_count (batches ps os)) (account c).
Proof.
  intros [H1 H2 H3 H4 H5 H6] [HQ1 HQ2] (T1 & T2 & T3 & _ & _ & _ & _ & _ & Td).
  assert (forall k ls, Forall (limited cfg) ls -> Forall (underway cfg marshal) (concat ls) ->
    sizes (concat ls) <= class_cap cfg k -> Forall batch_good (mkBatch k <$> ls)) as Hgood.
  { intros k ls Hl Hu Hs. induction Hl as [|l ls (Hne & _) Hl IH]; simpl in *; [constructor|].
    apply Forall_app in Hu as [Hu1 Hu2]. rewrite sizes_app in Hs.
    pose proof (sizes_nonneg _ (underway_sizes _ _ _ Hu1)). pose proof (sizes_nonneg _ (underway_sizes _ _ _ Hu2)).
    constructor; [|apply IH; [done|lia]]. split; [done|split; [done|simpl; lia]]. }
  assert (forall k ls, pending_count (mkBatch k <$> ls) = Z.of_nat (length (concat ls))) as Hcount.
  { intros k ls. induction ls as [|l ls IH]; [done|]. rewrite fmap_cons. simpl. rewrite IH, length_app. lia. }
  assert (forall l1 l2, pending_count (l1 ++ l2) = pending_count l1 + pending_count l2) as Happ.
  { intros l1 l2. induction l1 as [|b l IH]; simpl; lia. }
  rewrite T1 in H2, H4, HQ2. rewrite T2 in H1, H3, HQ1. rewrite sizes_app in H1, H2.
  apply Forall_app in T3 as [T3a T3b].
  apply Forall_app in H3 as [H3a H3b], H4 as [H4a H4b], HQ1 as [Q1a Q1b], HQ2 as [Q2a Q2b].
  pose proof (sizes_nonneg _ H3b). pose proof (sizes_nonneg _ H4b).
  split; [|split; [done|]].
  - apply Forall_app. split; apply Hgood; try done; simpl; lia.
  - unfold batches. rewrite Happ, !Hcount. unfold account, queued. rewrite T1, T2, !length_app, Td.
    by replace (dropped c + Z.of_nat (length (okQ c') + length (prioQ c')) + (Z.of_nat (length (concat ps)) + Z.of_nat (length (concat os))))
      with (dropped c + Z.of_nat (length (concat os) + length (okQ c') + (length (concat ps) + length (prioQ c')))) by lia.
Qed.

Lemma take_inv force stop w : winv w -> w_pending w = [] -> w_sleeping w = None -> w_drained w = false ->
  (stop = true -> closing (w_client w) = true /\ force = true) ->
  exists w', do_take cfg force stop w = Some w' /\ winv w'.
Proof.
  intros [I1 I2 I3 I4 I5 I6 I7] Hp Hs Hd Hstop. unfold do_take, takeReadyBatches.
  destruct (take_loop_spec cfg force Hc (S (queued (w_client w))) _ I1 ltac:(lia)) as (ps & os & c' & Hrun & Ht).
  rewrite Hrun. simpl. eexists. split; [done|].
  destruct (batches_good _ _ _ _ _ I1 I2 Ht) as (Hg & Hq & Ha).
  destruct Ht as (_ & _ & _ & Hn1 & Hn2 & _ & Hw & Hcl & _). rewrite Hd in *. split; simpl; try done.
  - intros Hst. destruct (Hstop Hst) as [Hc' Hf]. split; [congruence|]. unfold queued.
    destruct Hn1 as [->|[? _]]; [|congruence]. destruct Hn2 as [->|[? _]]; [done|congruence].
  - etransitivity; [exact I7|]. unfold located. rewrite Hp, Hs. simpl.
    by rewrite <- Ha, !Z.add_0_r.
Qed.
Lemma idle_inv w : winv w -> idle w = true ->
  w_pending w = [] /\ w_sleeping w = None /\ w_drained w = false.
Proof.
  intros I Hi. unfold idle in Hi. bool_prop. split; [by destruct (w_pending w)|].
  split; [by destruct (w_sleeping w)|]. destruct (w_drained w) eqn:E; [|done].
  destruct (wi_drained _ I E) as [Hs _]. congruence.
Qed.

Lemma Submit_closing ev c : closing c = true -> (Submit marshal cfg ev c).2 = recordDrop 1 c.
Proof. intros H. unfold Submit, enqueue. by rewrite H. Qed.

Lemma submit_inv ev w w' : winv w -> encodable marshal ev -> act (ASubmit ev) w = Some w' -> winv w'.
Proof.
  intros [I1 I2 I3 I4 I5 I6 I7] He [= <-].
  destruct (Submit_keeps cfg marshal ev _ (underway cfg marshal) Hc I1 I2) as [(Hw & Hcl & Ha) Hq].
  { split; [done|]. simpl. pose proof (ok_retries _ Hc). split; [lia|apply estimateEventSize_nonneg]. }
  split; simpl; try done.
  - intros Hs. destruct (I5 Hs) as [Hclo Hz]. rewrite Hcl, (Submit_closing _ _ Hclo). split; [done|].
    unfold queued. by client_simpl.
  - unfold located at 1. simpl. rewrite Ha, I7. unfold located.
    by replace (account (w_client w) + 1 + pending_count (w_pending w) + batch_count (w_sleeping w) + w_delivered w)
      with (account (w_client w) + pending_count (w_pending w) + batch_count (w_sleeping w) + w_delivered w + 1) by lia.
Qed.

Lemma deliver_inv nw w w' : winv w -> act (ADeliver nw) w = Some w' -> winv w'.
Proof.
  intros [I1 I2 I3 I4 I5 I6 I7]. simpl. destruct (w_sleeping w) as [?|] eqn:Es; [done|].
  destruct (w_pending w) as [|b rest] eqn:Ep; [done|]. inversion I3 as [|? ? Hb Hrest]; subst.
  pose proof (deliver_spec cfg Hc marshal unmarshal_rejected ParseTime nw b (w_client w) Hb) as Hd.
  destruct (deliver _ _ _ _ _ _ _) as [[r retry] c']. destruct Hd as (Hsq & Ha & Hr). intros [= <-].
  assert (queued c' = queued (w_client w)) as Hqd by (unfold queued; by destruct Hsq as (-> & -> & _)).
  assert (closing c' = closing (w_client w)) as Hcl by apply Hsq.
  split; simpl; try done.
  - by eapply wf_same.
  - unfold all_queued. by destruct Hsq as (-> & -> & _).
  - intros b' Hb'. destruct retry as [[b1 d]|]; [|done]. simpl in Hb'. simplify_eq.
    destruct Hr as (Hg & _ & Hnc). split; [done|]. destruct (w_stopping w); [|done].
    destruct I5; [done|congruence].
  - intros Hs. rewrite Hqd, Hcl. auto.
  - intros Hdr. destruct (I6 Hdr). done.
  - etransitivity; [exact I7|]. unfold located. rewrite Es, Ep. simpl.
    rewrite <- Z.add_assoc in Ha.
    replace (account (w_client w) + (Z.of_nat (length (qb_events b)) + pending_count rest) + 0 + w_delivered w)
      with (account (w_client w) + Z.of_nat (length (qb_events b)) + (pending_count rest + w_delivered w)) by lia.
    rewrite <- Ha.
    match goal with |- eq64 ?x ?y => replace x with y by lia end. done.
Qed.

Lemma act_inv a w w' : winv w -> submits (encodable marshal) a -> act a w = Some w' -> winv w'.
Proof.
  intros I. destruct a as [ev| |force| |nw| |]; intros Hsub Ha.
  - by eapply submit_inv.
  - simpl in Ha. simplify_eq. destruct I as [I1 I2 I3 I4 I5 I6 I7]. split; simpl; try done.
    + by destruct I1.
    + intros H. by destruct (I5 H).
  - simpl in Ha. case_match eqn:E; [|done]. destruct (idle_inv _ I E) as (H1 & H2 & H3).
    destruct (take_inv force false w I H1 H2 H3) as (w1 & Hd & HI); [done|]. by simplify_eq.
  - simpl in Ha. case_match eqn:E; [|done]. apply andb_true_iff in E as [E Ecl].
    destruct (idle_inv _ I E) as (H1 & H2 & H3).
    destruct (take_inv true true w I H1 H2 H3) as (w1 & Hd & HI); [done|]. by simplify_eq.
  - by eapply deliver_inv.
  - simpl in Ha. destruct I as [I1 I2 I3 I4 I5 I6 I7]. destruct (w_sleeping w) as [b|] eqn:Es; [|done].
    simpl in Ha. simplify_eq. destruct (I4 b eq_refl) as [Hb Hst].
    destruct (redeliver_spec cfg Hc marshal b (w_client w) I1 Hb I2) as [(Hw & Hcl & Hacc) [Hq _]].
    split; simpl; try done.
    + intros; congruence.
    + etransitivity; [exact I7|]. unfold located. rewrite Es. simpl. rewrite Hacc.
      match goal with |- eq64 ?x ?y => replace x with y by lia end. done.
  - simpl in Ha. case_match eqn:E; [|done]. simplify_eq. bool_prop. destruct I as [I1 I2 I3 I4 I5 I6 I7].
    assert (w_pending w = []) as Hp by by destruct (w_pending w).
    assert (w_sleeping w = None) as Hs by by destruct (w_sleeping w).
    split; simpl; try done; [auto|]. etransitivity; [exact I7|]. unfold located. by rewrite Hp, Hs.
Qed.

Lemma reachable_inv w : reachable w -> winv w.
Proof.
  induction 1 as [|w a w' _ IH Hs Ha]; [|by eapply act_inv].
  pose proof (okCap_le _ Hc). pose proof (ok_cap _ Hc). split; try done. split; simpl; try done; lia.
Qed.

(** *** Closing down *)

(** The work left once the client is closing. *)
Definition closing_measure (w : world) : nat :=
  if w_drained w then 0 else
  (if w_stopping w then 1 else 2 * queued (w_client w) + 2) + length (w_pending w) + (if is_none (w_sleeping w) then 0 else 1).

Lemma batches_count force c c' ps os : taken cfg force c c' ps os -> (length (batches ps os) <= queued c)%nat.
Proof.
  intros (T1 & T2 & T3 & _). unfold batches, queued. rewrite length_app, !length_fmap, T1, T2, !length_app.
  assert (forall ls, Forall (limited cfg) ls -> (length ls <= length (concat ls))%nat) as H.
  { induction 1 as [|l ls (Hne & _) _ IH]; simpl; [lia|]. rewrite length_app. destruct l; [done|simpl; lia]. }
  apply Forall_app in T3 as [Ha Hb]. apply H in Ha, Hb. lia.
Qed.

Lemma take_count force c c' ps os : taken cfg force c c' ps os -> (length (batches ps os) + queued c' <= queued c)%nat.
Proof.
  intros (T1 & T2 & T3 & _). unfold batches, queued. rewrite length_app, !length_fmap, T1, T2, !length_app.
  assert (forall ls, Forall (limited cfg) ls -> (length ls <= length (concat ls))%nat) as H.
  { induction 1 as [|l ls (Hne & _) _ IH]; simpl; [lia|]. rewrite length_app. destruct l; [done|simpl; lia]. }
  apply Forall_app in T3 as [Ha Hb]. apply H in Ha, Hb. lia.
Qed.

(** Taking, for an idle loop. *)
Lemma take_measure force stop w w' : winv w -> idle w = true -> closing (w_client w) = true ->
  do_take cfg force stop w = Some w' ->
  closing (w_client w') = true /\ (closing_measure w' + (if stop || nonempty (w_pending w') then 1 else 0) <= closing_measure w)%nat.
Proof.
  intros I Hi Hcl Ht. destruct (idle_inv _ I Hi) as (H1 & H2 & H3). unfold do_take, takeReadyBatches in Ht.
  destruct (take_loop_spec cfg force Hc (S (queued (w_client w))) _ (wi_wf _ I) ltac:(lia)) as (ps & os & c' & Hrun & Hk).
  rewrite Hrun in Ht. simpl in Ht. injection Ht as <-. pose proof (take_count _ _ _ _ _ Hk) as Hn.
  destruct Hk as (_ & _ & _ & _ & _ & _ & _ & Hc' & _). split; [simpl; congruence|]. unfold idle in Hi. bool_prop.
  unfold closing_measure. simpl. rewrite H1, H2, H3. simpl. assert (w_stopping w = false) as -> by by destruct (w_stopping w).
  destruct stop; cbn [orb]; [lia|]. destruct (batches ps os); simpl in *; lia.
Qed.

(** No action of a closing client adds to the work, and the busy ones take some away. *)
Lemma act_measure a w w' : winv w -> submits (encodable marshal) a -> closing (w_client w) = true -> act a w = Some w' ->
  closing (w_client w') = true /\ (closing_measure w' + (if busy a w' then 1 else 0) <= closing_measure w)%nat.
Proof.
  intros I Hs Hcl Ha. destruct a as [ev| |force| |nw| |]; simpl in Ha; cbn [busy].
  - injection Ha as <-. simpl. rewrite (Submit_closing _ _ Hcl). unfold closing_measure, queued. simpl. client_simpl. split; [done|lia].
  - injection Ha as <-. split; [done|]. unfold closing_measure, queued. simpl. lia.
  - destruct (idle w) eqn:Ei; [|done]. destruct (take_measure force false w w' I Ei Hcl Ha) as [H1 H2]. done.
  - destruct (idle w) eqn:Ei; [|done]. rewrite Hcl in Ha. cbn [andb] in Ha. destruct (take_measure true true w w' I Ei Hcl Ha) as [H1 H2]. done.
  - destruct (w_sleeping w) as [?|] eqn:Es; [done|]. destruct (w_pending w) as [|b rest] eqn:Ep; [done|].
    pose proof (wi_pending _ I) as Hp. rewrite Ep in Hp. inversion Hp as [|? ? Hb Hrest]; subst.
    pose proof (deliver_spec cfg Hc marshal unmarshal_rejected ParseTime nw b (w_client w) Hb) as Hdl.
    destruct (deliver marshal unmarshal_rejected ParseTime cfg nw b (w_client w)) as [[r retry] c'] eqn:Edl.
    destruct Hdl as (Hsq & _ & Hr). injection Ha as <-.
    destruct retry as [[b1 d1]|]; [destruct Hr as (_ & _ & Hr); congruence|].
    assert (w_drained w = false) as Hd by (destruct (w_drained w) eqn:Ed; [destruct (wi_drained _ I Ed); congruence|done]).
    split; [simpl; by rewrite (proj2 (proj2 (proj2 (proj2 Hsq))))|]. unfold closing_measure, queued. simpl. rewrite Hd, Ep, Es. destruct Hsq as (-> & -> & _). simpl. lia.
  - destruct (w_sleeping w) as [b|] eqn:Es; [|done]. simpl in Ha. injection Ha as <-. destruct (wi_sleeping _ I b Es) as [Hb Hst].
    destruct (redeliver_spec cfg Hc marshal b _ (wi_wf _ I) Hb (wi_queued _ I)) as [_ [_ Hsq]]. specialize (Hsq Hcl).
    assert (w_drained w = false) as Hd by (destruct (w_drained w) eqn:Ed; [destruct (wi_drained _ I Ed); congruence|done]).
    split; [simpl; by rewrite (proj2 (proj2 (proj2 (proj2 Hsq))))|]. unfold closing_measure, queued. simpl. rewrite Hd, Es. destruct Hsq as (-> & -> & _). simpl. lia.
  - destruct (w_stopping w) eqn:Est; [|done]. destruct (nonempty (w_pending w)) eqn:Ep; [done|]. destruct (w_sleeping w) eqn:Es; [done|].
    destruct (w_drained w) eqn:Ed; [done|]. simpl in Ha. injection Ha as <-. split; [done|]. unfold closing_measure. simpl. rewrite Ed, Est, Es. lia.
Qed.

Lemma acts_measure l : forall w w', winv w -> Forall (submits (encodable marshal)) l -> closing (w_client w) = true -> acts l w = Some w' ->
  winv w' /\ closing (w_client w') = true /\ (closing_measure w' + busy_steps l w <= closing_measure w)%nat.
Proof.
  induction l as [|a l IH]; intros w w' I Hs Hcl Ha; cbn [Transport.acts Transport.busy_steps] in *; [simplify_eq; split; [done|split; [done|lia]]|].
  apply Forall_cons in Hs as [Hs0 Hs]. apply bind_Some in Ha as (w1 & Ha1 & Ha). rewrite Ha1.
  destruct (act_measure a w w1 I Hs0 Hcl Ha1) as [Hcl1 H1]. destruct (IH w1 w' (act_inv a w w1 I Hs0 Ha1) Hs Hcl1 Ha) as (I' & Hcl' & H2).
  split; [done|split; [done|lia]].
Qed.

(** Until it has left, the loop has something to do. *)
Lemma closing_ready nw w : winv w -> closing (w_client w) = true -> w_drained w = false ->
  exists w', act (ready_action nw w) w = Some w' /\ busy (ready_action nw w) w' = true.
Proof.
  intros I Hcl Hd. unfold ready_action. destruct (w_sleeping w) as [b|] eqn:Es; simpl negb; cbv iota.
  - eexists. split; [simpl; by rewrite Es|done].
  - destruct (w_pending w) as [|b rest] eqn:Ep; simpl nonempty; cbv iota.
    + destruct (w_stopping w) eqn:Est.
      * eexists. split; [simpl; by rewrite Est, Es, Ep, Hd|done].
      * assert (idle w = true) as Hi by (unfold idle; by rewrite Es, Ep, Est).
        destruct (take_inv true true w I Ep Es Hd) as (w1 & Hk & _); [done|]. exists w1. split; [simpl; by rewrite Hi, Hcl|done].
    + destruct (deliver marshal unmarshal_rejected ParseTime cfg nw b (w_client w)) as [[r retry] c'] eqn:Edl.
      eexists. split; [simpl; by rewrite Es, Ep, Edl|done].
Qed.
End World.

(** ** What the client promises *)

Lemma acts_reachable marshal un pt cfg P l : forall w w', reachable marshal un pt cfg P w ->
  Forall (submits P) l -> acts marshal un pt cfg l w = Some w' -> reachable marshal un pt cfg P w'.
Proof.
  induction l as [|a l IH]; intros w w' Hr Hs Ha; simpl in Ha; [by simplify_eq|].
  inversion Hs; subst. destruct (act marshal un pt cfg a w) as [w1|] eqn:E; [|done].
  eapply IH; [by eapply reach_act|done|done].
Qed.

(** Nothing is lost silently.  In every world the client and its loop can reach with
    events that encode, each event handed to [Submit] is queued, in a batch about to be
    posted or put back, delivered, or counted by [Dropped] (up to the wrap of the counter);
    and once the loop has left, delivered and dropped account for all of them. *)
Theorem Submit_accounts cfg marshal un pt w : cfg_ok cfg ->
  reachable marshal un pt cfg (encodable marshal) w ->
  eq64 (w_submitted w)
    (dropped (w_client w) + Z.of_nat (queued (w_client w)) + pending_count (w_pending w)
     + batch_count (w_sleeping w) + w_delivered w) /\
  (w_drained w = true -> eq64 (w_submitted w) (dropped (w_client w) + w_delivered w)).
Proof.
  intros Hc Hr. destruct (reachable_inv cfg Hc _ _ _ w Hr) as [_ _ _ Hs Hst Hd Hl]. split; [done|].
  intros Hdr. destruct (Hd Hdr) as [Hst' Hp]. destruct (Hst Hst') as [_ Hq].
  assert (w_sleeping w = None) as Hsl.
  { destruct (w_sleeping w) as [b|]; [|done]. destruct (Hs b eq_refl). congruence. }
  unfold located, account in Hl. rewrite Hp, Hsl, Hq in Hl. simpl in Hl. by rewrite !Z.add_0_r in Hl.
Qed.

(** The queue keeps its bounds in every reachable world: the byte counts are the
    totals of the queued sizes, ok bytes stay within the ok budget, priority bytes within
    the cap, and no queued or taken event was posted more than [MaxRetries] times. *)
Theorem queue_bounds cfg marshal un pt w : cfg_ok cfg ->
  reachable marshal un pt cfg (encodable marshal) w ->
  okBytes (w_client w) = sizes (okQ (w_client w)) /\ prioBytes (w_client w) = sizes (prioQ (w_client w)) /\
  okBytes (w_client w) <= okCap cfg /\ prioBytes (w_client w) <= cf_InFlightCap cfg /\
  Forall (fun e => 0 <= qe_attempts e <= cf_MaxRetries cfg)
    (okQ (w_client w) ++ prioQ (w_client w) ++ concat (qb_events <$> w_pending w)).
Proof.
  intros Hc Hr. destruct (reachable_inv cfg Hc _ _ _ w Hr) as [[H1 H2 _ _ H5 H6] [Q1 Q2] Hp _ _ _ _].
  repeat (split; [done|]). rewrite !Forall_app. assert (forall l, Forall (underway cfg marshal) l ->
    Forall (fun e => 0 <= qe_attempts e <= cf_MaxRetries cfg) l) as Himp.
  { intros l Hl. eapply Forall_impl; [exact Hl|]. by intros e (_ & H & _). }
  split; [auto|split; [auto|]]. apply Himp.
  induction Hp as [|b l (_ & Hb & _) _ IH]; [constructor|]. rewrite fmap_cons. simpl. by apply Forall_app.
Qed.

(** C27: [Shutdown] finishes, whichever ready case select picks.  From any reachable world of
    a closing client, and whatever the callers, the clock and each POST do afterwards, the
    loop gets on with its work at most a number of times fixed by what it holds; until it has
    left, it has a step to take that is one of these, for the stop channel stays ready; and
    once it has left, nothing is queued, pending or asleep.  All that can hold it up is
    select picking, while stop is ready, a tick or a notification that finds nothing to
    take, over and over.  This is for a configuration [New] makes with a cap of at most 2^56
    bytes, an ok budget of at most 100% and fewer than 2^32 retries, and for events that encode. *)
Theorem Shutdown_drains cfg marshal un pt w : cfg_ok cfg ->
  reachable marshal un pt cfg (encodable marshal) w -> closing (w_client w) = true ->
  forall l w', Forall (submits (encodable marshal)) l -> acts marshal un pt cfg l w = Some w' ->
  (busy_steps marshal un pt cfg l w <= 2 * queued (w_client w) + length (w_pending w) + 3)%nat /\
  (w_drained w' = false -> forall nw, exists w'',
     act marshal un pt cfg (ready_action nw w') w' = Some w'' /\ busy (ready_action nw w') w'' = true) /\
  (w_drained w' = true -> queued (w_client w') = 0%nat /\ w_pending w' = [] /\ w_sleeping w' = None).
Proof.
  intros Hc Hr Hcl l w' Hs Ha. pose proof (reachable_inv cfg Hc _ _ _ w Hr) as I.
  destruct (acts_measure cfg Hc marshal un pt l w w' I Hs Hcl Ha) as (I' & Hcl' & Hm). split; [|split].
  - unfold closing_measure in Hm. destruct (w_drained w), (w_drained w'), (w_stopping w), (is_none (w_sleeping w)); lia.
  - intros Hd nw. by eapply closing_ready.
  - intros Hd. destruct (wi_drained _ _ _ I' Hd) as [Hst Hp]. destruct (wi_stopping _ _ _ I' Hst) as [_ Hq]. split; [done|]. split; [done|].
    destruct (w_sleeping w') as [b|] eqn:Es; [|done]. destruct (wi_sleeping _ _ _ I' b Es). congruence.
Qed.

(** Failures outlive successes.  [Submit] drops queued events from the oldest on, and
    it drops a priority event only for another priority event, only once no ok event is
    left, and only while the cap would otherwise be exceeded; an ok event never displaces
    a priority event. *)
Theorem Submit_priority_last cfg marshal ev c : cfg_ok cfg -> wf cfg c ->
  exists n m new_ok new_prio,
    okQ (Submit marshal cfg ev c).2 = drop n (okQ c) ++ new_ok /\
    prioQ (Submit marshal cfg ev c).2 = drop m (prioQ c) ++ new_prio /\
    (m = 0%nat \/ IsPriority (ev_Status ev) = true /\ okQ (Submit marshal cfg ev c).2 = [] /\
      cf_InFlightCap cfg < sizes (drop (m - 1) (prioQ c)) + estimateEventSize marshal ev).
Proof.
  intros Hc Hw. pose proof (estimateEventSize_nonneg marshal ev) as Hs.
  assert (exists n m new_ok new_prio,
    okQ c = drop n (okQ c) ++ new_ok /\ prioQ c = drop m (prioQ c) ++ new_prio /\ m = 0%nat) as Hsame.
  { exists 0%nat, 0%nat, [], []. by rewrite !drop_0, !app_nil_r. }
  unfold Submit, enqueue. destruct (closing c) eqn:Ecl; simpl.
  { client_simpl. destruct Hsame as (n & m & a & b & ? & ? & ?). exists n, m, a, b. auto. }
  destruct (IsPriority (ev_Status ev)).
  - pose proof (enqueuePriority_spec cfg ev _ c Hc Hw Hs) as H. destruct (_ <=? _) in H.
    + destruct (enqueuePriorityLocked _ _ _ c) as [b c']. simpl in *.
      destruct H as (n & m & -> & _ & Ho & Hp & _ & _ & _ & Hm). simpl.
      exists n, m, [], [mkQueued ev (estimateEventSize marshal ev) 0]. rewrite app_nil_r.
      split; [done|split; [done|]]. destruct Hm as [?|[? ?]]; [by left|right]. rewrite Ho. done.
    + rewrite H. client_simpl. destruct Hsame as (n & m & a & b & ? & ? & ?). exists n, m, a, b. auto.
  - pose proof (enqueueOK_spec cfg ev _ c Hc Hw Hs) as H. destruct (_ <=? _) in H.
    + destruct (enqueueOKLocked _ _ _ c) as [b c']. simpl in *.
      destruct H as (n & -> & _ & Ho & Hp & _). simpl.
      exists n, 0%nat, [mkQueued ev (estimateEventSize marshal ev) 0], []. rewrite app_nil_r, drop_0. auto.
    + rewrite H. client_simpl. destruct Hsame as (n & m & a & b & ? & ? & ?). exists n, m, a, b. auto.
Qed.

(** The taking loop ends, and what it takes is in order: the priority queue's batches,
    then the ok queue's, each queue's batches being consecutive pieces of it from the
    front, none empty, none over [MaxBatch] events or (beyond one event) over
    [MaxBatchSize] bytes; a forced take leaves both queues empty. *)
Theorem takeReadyBatches_spec cfg force c : cfg_ok cfg -> wf cfg c ->
  exists ps os c', takeReadyBatches cfg force c = Some (batches ps os, c') /\
    prioQ c = concat ps ++ prioQ c' /\ okQ c = concat os ++ okQ c' /\ Forall (limited cfg) (ps ++ os) /\
    not_ready cfg force (prioQ c') /\ not_ready cfg force (okQ c') /\
    (force = true -> queued c' = 0%nat).
Proof.
  intros Hc Hw. destruct (take_loop_spec cfg force Hc (S (queued c)) c Hw ltac:(lia)) as (ps & os & c' & Hrun & Ht).
  destruct Ht as (T1 & T2 & T3 & T4 & T5 & _). exists ps, os, c'. repeat (split; [done|]).
  intros ->. unfold queued. destruct T4 as [->|[? _]]; [|done]. by destruct T5 as [->|[? _]].
Qed.

(** The attempt [backoff] looks at is the largest of the batch, and at least one. *)
Lemma max_attempt_spec (l : list queuedEvent) m0 :
  let m := fold_left (fun m ev => if m <? qe_attempts ev then qe_attempts ev else m) l m0 in
  m0 <= m /\ (forall e, e ∈ l -> qe_attempts e <= m) /\ (m = m0 \/ exists e, e ∈ l /\ qe_attempts e = m).
Proof.
  revert m0. induction l as [|e l IH]; intros m0; simpl.
  - split; [lia|split; [intros e He; by apply elem_of_nil in He|by left]].
  - destruct (IH (if m0 <? qe_attempts e then qe_attempts e else m0)) as (H1 & H2 & H3).
    set (m := fold_left _ l _) in *. destruct (Z.ltb_spec m0 (qe_attempts e)).
    + split; [lia|split].
      * intros x Hx. apply elem_of_cons in Hx as [->|Hx]; [lia|by apply H2].
      * right. destruct H3 as [H3|(x & Hx & H3)]; [exists e; split; [left|done]|exists x; split; [by right|done]].
    + split; [lia|split].
      * intros x Hx. apply elem_of_cons in Hx as [->|Hx]; [lia|by apply H2].
      * destruct H3 as [H3|(x & Hx & H3)]; [by left|right]. exists x; split; [by right|done].
Qed.

(** The pause before a retry doubles with the attempt from 100 ms up to 5 s, for
    batches posted at most 37 times; beyond that the shift leaves [int64]. *)
Theorem backoff_doubles events : (forall e, e ∈ events -> qe_attempts e <= 37) ->
  exists m, 1 <= m <= 37 /\ (forall e, e ∈ events -> qe_attempts e <= m) /\
    backoff events = Z.min defaultBackoffMax (defaultBackoffMin * 2 ^ (m - 1)) /\
    defaultBackoffMin <= backoff events <= defaultBackoffMax.
Proof.
  intros Hb. unfold backoff. pose proof (max_attempt_spec events 1) as (H1 & H2 & H3).
  set (m := fold_left _ events 1) in *. exists m.
  assert (m <= 37) as Hm by (destruct H3 as [->|(e & He & <-)]; [lia|by apply Hb]).
  assert (1 <= 2 ^ (m - 1) <= 2 ^ 36) as Hp.
  { split; [apply (Z.pow_le_mono_r 2 0); lia|apply Z.pow_le_mono_r; lia]. }
  rewrite Z.shiftl_mul_pow2 by lia.
  assert (defaultBackoffMin = 100000000) as -> by done. assert (defaultBackoffMax = 5000000000) as -> by done.
  rewrite wrap64_id by (unfold in_int64, min_int64, max_int64; apply andb_true_iff; split; apply Z.leb_le; lia).
  split; [lia|split; [done|]]. destruct (Z.ltb_spec 5000000000 (100000000 * 2 ^ (m - 1))); lia.
Qed.

(** The cap on everything in flight is not one: an ok event is admitted by the ok budget
    alone, beside priority events that fill the cap. *)
Lemma total_exceeds_cap : exists cfg c, cfg_ok cfg /\ wf cfg c /\ cf_InFlightCap cfg < okBytes c + prioBytes c.
Proof.
  set (ev := sample_event "e" "t" "s" "ok" 0 0 "" None []).
  exists (New_config (mkConfig true 0 0 0 0 100 0)).
  exists (mkClient [mkQueued ev 70 0] [mkQueued ev 100 0] 70 100 false 0 0 0 0).
  split; [split; vm_compute; split; congruence|]. split; [|done].
  split; try done; repeat constructor; unfold size_ok; simpl; lia.
Qed.

(** Past the thirty-eighth attempt the doubling shift wraps and the pause is negative. *)
Lemma backoff_wraps : backoff [mkQueued (sample_event "e" "t" "s" "ok" 0 0 "" None []) 1 38] < 0.
Proof. vm_compute. reflexivity. Qed.

(** An event that cannot be encoded is dropped twice when its batch is refused. *)
Lemma unencodable_counted_twice :
  let bad := sample_event "bad" "t" "s" "ok" 0 0 "" None [] in
  let good := sample_event "good" "t" "s" "ok" 0 0 "" None [] in
  let marshal := fun ev => if String.eqb (ev_EventID ev) "bad" then None else Some "{}" in
  let refused := mkNetwork true (Some (mkResponse 400 "" "" "" "")) 0 in
  dropped (flushBatch marshal (fun _ => None) (fun _ => None) refused [bad; good] newQueue).2 = 3.
Proof. vm_compute. reflexivity. Qed.

(** *** A concrete client *)

Definition demo_config : Config := New_config (mkConfig true 2 0 0 0 0 1).
Definition demo_marshal (ev : Event) : option string := Some "{}".
Definition demo_event (status : string) : Event := sample_event "e" "t" "s" status 0 0 "" None [].
Definition demo_net : network := mkNetwork true None 0.
Definition demo_run : list action :=
  [ASubmit (demo_event "ok"); ASubmit (demo_event "error"); ASubmit (demo_event "ok");
   AWake true; ADeliver demo_net; AShutdown].
Abbreviation demo_acts := (acts demo_marshal (fun _ => None) (fun _ => None) demo_config).

Lemma demo_cfg_ok : cfg_ok demo_config.
Proof. split; vm_compute; split; congruence. Qed.

Definition demo_world : world := default world0 (demo_acts demo_run world0).

Lemma transport_demo_runs : demo_acts demo_run world0 = Some demo_world.
Proof. vm_compute. reflexivity. Qed.

Lemma demo_reachable : reachable demo_marshal (fun _ => None) (fun _ => None) demo_config (encodable demo_marshal) demo_world.
Proof.
  apply (acts_reachable _ _ _ _ _ demo_run world0); [apply reach_init| |exact transport_demo_runs].
  repeat (constructor; [done|]). constructor.
Qed.

Lemma Submit_accounts_witness : eq64 (w_submitted demo_world)
  (dropped (w_client demo_world) + Z.of_nat (queued (w_client demo_world)) + pending_count (w_pending demo_world)
   + batch_count (w_sleeping demo_world) + w_delivered demo_world).
Proof. exact (proj1 (Submit_accounts _ _ _ _ _ demo_cfg_ok demo_reachable)). Defined.

Lemma queue_bounds_witness : okBytes (w_client demo_world) <= okCap demo_config.
Proof. exact (proj1 (proj2 (proj2 (queue_bounds _ _ _ _ _ demo_cfg_ok demo_reachable)))). Defined.

(** The rest of a batch, an event submitted too late, a tick that finds nothing, and the
    stop. *)
Definition demo_closing : list action := [AResume; ADeliver demo_net; ASubmit (demo_event "ok"); AWake true; AStop; AExit].

Lemma Shutdown_drains_witness : exists w',
  acts demo_marshal (fun _ => None) (fun _ => None) demo_config demo_closing demo_world = Some w' /\ w_drained w' = true /\
  queued (w_client w') = 0%nat.
Proof.
  destruct (acts demo_marshal (fun _ => None) (fun _ => None) demo_config demo_closing demo_world) as [w'|] eqn:E; [|vm_compute in E; discriminate E].
  destruct (Shutdown_drains _ _ _ _ demo_world demo_cfg_ok demo_reachable) with (l := demo_closing) (w' := w') as (_ & _ & H).
  - vm_compute. reflexivity.
  - repeat (apply Forall_cons; split; [done|]). by apply Forall_nil.
  - exact E.
  - exists w'. assert (w_drained w' = true) as Hd by (vm_compute in E; injection E as <-; reflexivity).
    split; [reflexivity|]. split; [exact Hd|]. apply (H Hd).
Defined.

Definition demo_queue : client :=
  mkClient [mkQueued (demo_event "ok") 3 0] [mkQueued (demo_event "error") 5 0] 3 5 false 0 0 0 0.

Lemma demo_queue_wf : wf demo_config demo_queue.
Proof. split; try done; repeat constructor; unfold size_ok; simpl; lia. Qed.

Lemma Submit_priority_last_witness : exists n m new_ok new_prio,
  okQ (Submit demo_marshal demo_config (demo_event "error") demo_queue).2 = drop n (okQ demo_queue) ++ new_ok /\
  prioQ (Submit demo_marshal demo_config (demo_event "error") demo_queue).2 = drop m (prioQ demo_queue) ++ new_prio.
Proof.
  destruct (Submit_priority_last _ demo_marshal (demo_event "error") _ demo_cfg_ok demo_queue_wf)
    as (n & m & a & b & H1 & H2 & _). exists n, m, a, b. split; [exact H1|exact H2].
Defined.

Lemma takeReadyBatches_spec_witness : exists ps os c',
  takeReadyBatches demo_config true demo_queue = Some (batches ps os, c') /\ queued c' = 0%nat.
Proof.
  destruct (takeReadyBatches_spec _ true _ demo_cfg_ok demo_queue_wf) as (ps & os & c' & H & _ & _ & _ & _ & _ & Hq).
  exists ps, os, c'. split; [exact H|exact (Hq eq_refl)].
Defined.

Lemma backoff_doubles_witness : exists m, backoff [mkQueued (demo_event "ok") 3 2]
  = Z.min defaultBackoffMax (defaultBackoffMin * 2 ^ (m - 1)).
Proof.
  destruct (backoff_doubles [mkQueued (demo_event "ok") 3 2]) as (m & _ & _ & H & _).
  { intros e He. apply elem_of_cons in He as [->|He]; [simpl; lia|by apply elem_of_nil in He]. }
  exists m. exact H.
Defined.
