(* ===== verification/Request.v ===== *)
(** The request buffer of the Go SDK ([pkg/waylog/v2]: request.go, step.go, logger.go,
    errors.go, assemble.go, explain.go): what a request records, how it sheds detail under
    pressure, and the wide event it becomes.  An operation takes the request and the
    SDK's counters and returns them; [None] is a Go panic. *)

From S2P Require Import Prelude GoRuntime Types.
Open Scope Z_scope.

Definition CodeTimeout : string := "WAYLOG_TIMEOUT".
Definition CodeAborted : string := "WAYLOG_ABORTED".
Definition CodePanic : string := "WAYLOG_PANIC".
Definition CodePartial : string := "WAYLOG_PARTIAL".

(** ** Data *)

Record Error := mkError { e_Code : string; e_Reason : string; e_Cause : string }.

(** A non-nil Go [error] as the SDK sees it: its text, and what [errors.As] finds for an
    error-pointer target: nothing, or a pointer, which may be nil. *)
Record goerr := mkGoerr { ge_text : string; ge_as : option (option Error) }.

Record activeStep := mkActive {
  as_name : string;
  as_spanID : string;
  as_downstream : option Downstream;
  as_startedAt : Time;
  as_startMS : Z
}.

Record stepBuf := mkStepBuf {
  sb_name : string;
  sb_spanID : string;
  sb_startMS : Z;
  sb_durationMS : Z;
  sb_status : string;
  sb_downstream : option Downstream;
  sb_err : option Error
}.

Record logBuf := mkLogBuf {
  lb_tsOffsetMS : Z;
  lb_level : string;
  lb_msg : string;
  lb_fields : gmap string value;
  lb_stepName : string
}.

Record errEntry := mkErrEntry { ee_code : string; ee_reason : string }.

(** The fields of [request] fixed by [Begin]. *)
Record identity := mkIdentity {
  id_eventID : string;
  id_tsStart : Time;
  id_traceID : string;
  id_spanID : string;
  id_parentSpanID : string;
  id_maxSteps : Z;
  id_maxLogs : Z;
  id_maxBytes : Z
}.

Record request := mkRequest {
  r_id : identity;
  stepStack : list activeStep;
  steps : list stepBuf;
  logs : list logBuf;
  fields : gmap string value;
  errs : list errEntry;
  bufBytes : Z;
  suppressed : bool;
  sealed : bool;
  headerOnly : bool;
  finalStatus : string;
  anchorStep : string;
  anchorCode : string;
  anchorFromStepPanic : bool;
  panicStepHint : string
}.

Definition newRequest (i : identity) : request :=
  mkRequest i [] [] [] ∅ [] 0 false false false "" "" "" false "".

Definition set_stack (r : request) (v : list activeStep) : request :=
  mkRequest (r_id r) v (steps r) (logs r) (fields r) (errs r) (bufBytes r) (suppressed r) (sealed r)
    (headerOnly r) (finalStatus r) (anchorStep r) (anchorCode r) (anchorFromStepPanic r) (panicStepHint r).
Definition set_buffer (r : request) (ss : list stepBuf) (ls : list logBuf) (b : Z) (h : bool) : request :=
  mkRequest (r_id r) (stepStack r) ss ls (fields r) (errs r) b (suppressed r) (sealed r)
    h (finalStatus r) (anchorStep r) (anchorCode r) (anchorFromStepPanic r) (panicStepHint r).
Definition set_fields (r : request) (v : gmap string value) : request :=
  mkRequest (r_id r) (stepStack r) (steps r) (logs r) v (errs r) (bufBytes r) (suppressed r) (sealed r)
    (headerOnly r) (finalStatus r) (anchorStep r) (anchorCode r) (anchorFromStepPanic r) (panicStepHint r).
Definition set_errs (r : request) (v : list errEntry) : request :=
  mkRequest (r_id r) (stepStack r) (steps r) (logs r) (fields r) v (bufBytes r) (suppressed r) (sealed r)
    (headerOnly r) (finalStatus r) (anchorStep r) (anchorCode r) (anchorFromStepPanic r) (panicStepHint r).
Definition set_sealed (r : request) : request :=
  mkRequest (r_id r) (stepStack r) (steps r) (logs r) (fields r) (errs r) (bufBytes r) (suppressed r) true
    (headerOnly r) (finalStatus r) (anchorStep r) (anchorCode r) (anchorFromStepPanic r) (panicStepHint r).
Definition set_final (r : request) (v : string) : request :=
  mkRequest (r_id r) (stepStack r) (steps r) (logs r) (fields r) (errs r) (bufBytes r) (suppressed r) (sealed r)
    (headerOnly r) v (anchorStep r) (anchorCode r) (anchorFromStepPanic r) (panicStepHint r).
Definition set_anchor (r : request) (step code : string) (panic : bool) : request :=
  mkRequest (r_id r) (stepStack r) (steps r) (logs r) (fields r) (errs r) (bufBytes r) (suppressed r) (sealed r)
    (headerOnly r) (finalStatus r) step code panic (panicStepHint r).
Definition set_hint (r : request) (v : string) : request :=
  mkRequest (r_id r) (stepStack r) (steps r) (logs r) (fields r) (errs r) (bufBytes r) (suppressed r) (sealed r)
    (headerOnly r) (finalStatus r) (anchorStep r) (anchorCode r) (anchorFromStepPanic r) v.

(** The counters of [sdk] that requests touch ([atomic.Int64]). *)
Inductive counter :=
| CEmitted | CSuppressed | CStepsDropped | CLogsDropped | CBytesDropped | CBufferOverflows
| CReservedRejected | CSuppressFailed | CLateAfterEmit | CEventsDropped.
#[export] Instance counter_eq : EqDecision counter.
Proof. solve_decision. Defined.

Definition counts : Type := counter -> Z.
Definition zero_counts : counts := fun _ => 0.
Definition bump (k : counter) (n : Z) (c : counts) : counts :=
  fun k' => if decide (k' = k) then wrap64 (c k + n) else c k'.

(** An operation's state. *)
Definition st : Type := request * counts.

(** ** Sizes *)

Definition slen (s : string) : Z := Z.of_nat (String.length s).

Definition stepBytes (s : stepBuf) : Z :=
  32 + slen (sb_name s) + slen (sb_spanID s) +
  match sb_downstream s with
  | Some d => slen (dn_Service d) + slen (dn_Endpoint d) + slen (dn_Kind d) + 24
  | None => 0
  end +
  match sb_err s with
  | Some e => 16 + slen (e_Code e) + slen (e_Reason e) + slen (e_Cause e)
  | None => 0
  end.

(** The sum over a log's fields, which does not depend on the order of the range. *)
Definition field_bytes (kv : string * value) : Z :=
  slen kv.1 + 8 + match kv.2 with VStr s => slen s | _ => 0 end.
Fixpoint fields_bytes (l : list (string * value)) : Z :=
  match l with [] => 0 | kv :: l => field_bytes kv + fields_bytes l end.
Definition logBytes (l : logBuf) : Z :=
  24 + slen (lb_level l) + slen (lb_msg l) + fields_bytes (map_to_list (lb_fields l)).

(** ** Errors *)

Definition isReserved (code : string) : bool :=
  String.eqb code CodeTimeout || String.eqb code CodeAborted || String.eqb code CodePanic || String.eqb code CodePartial.

Definition recordReservedRejection (c : counts) : counts := bump CReservedRejected 1 c.

Definition NewError (code : string) (opts : list (Error -> Error)) (c : counts) : option Error * counts :=
  if isReserved code then (None, recordReservedRejection c) else
  (Some (fold_left (fun e opt => opt e) opts (mkError code "" "")), c).

Definition WithReason (reason : string) (e : Error) : Error := mkError (e_Code e) reason (e_Cause e).
Definition WithCause (cause : string) (e : Error) : Error := mkError (e_Code e) (e_Reason e) cause.

(** The method [Error] of an error pointer, which may be nil. *)
Definition Error_text (e : option Error) : string :=
  match e with
  | None => ""
  | Some e => if String.eqb (e_Reason e) "" then e_Code e else e_Code e +:+ ": " +:+ e_Reason e
  end.

(** An error pointer returned as an [error]: never a nil interface, even when the pointer is. *)
Definition as_goerr (e : option Error) : goerr := mkGoerr (Error_text e) (Some e).

Definition toStepError (e : Error) : StepError := mkStepError (e_Code e) (e_Reason e) (e_Cause e).

(** ** The buffer *)

Definition recordErrorLocked (code reason : string) (r : request) : request :=
  if String.eqb code "" then r else
  if existsb (fun e => String.eqb (ee_code e) code) (errs r) then r else
  set_errs r (errs r ++ [mkErrEntry code reason]).

(** The loop of [dropOkLogsLocked] over the logs left, [b] bytes in the buffer. *)
Fixpoint drop_info (l : list logBuf) (b : Z) (c : counts) : list logBuf * Z * counts :=
  match l with
  | [] => ([], b, c)
  | x :: l =>
    if String.eqb (lb_level x) "info" then
      drop_info l (b - logBytes x) (bump CBytesDropped (logBytes x) (bump CLogsDropped 1 c))
    else let '(kept, b, c) := drop_info l b c in (x :: kept, b, c)
  end.

Definition dropOkLogsLocked '((r, c) : st) : st :=
  let '(kept, b, c) := drop_info (logs r) (bufBytes r) c in
  (set_buffer r (steps r) kept b (headerOnly r), c).

(** An ok step that is not the anchor's. *)
Definition droppable (anchor : string) (s : stepBuf) : bool :=
  String.eqb (sb_status s) StepStatusOK && negb (String.eqb (sb_name s) anchor).

Fixpoint drop_ok (anchor : string) (l : list stepBuf) (b : Z) (c : counts) : list stepBuf * Z * counts :=
  match l with
  | [] => ([], b, c)
  | x :: l =>
    if droppable anchor x then
      drop_ok anchor l (b - stepBytes x) (bump CBytesDropped (stepBytes x) (bump CStepsDropped 1 c))
    else let '(kept, b, c) := drop_ok anchor l b c in (x :: kept, b, c)
  end.

Definition dropOkStepsLocked '((r, c) : st) : st :=
  let '(kept, b, c) := drop_ok (anchorStep r) (steps r) (bufBytes r) c in
  (set_buffer r kept (logs r) b (headerOnly r), c).

(** The first element that satisfies [p], and the list without it. *)
Fixpoint remove_first {A} (p : A -> bool) (l : list A) : option (A * list A) :=
  match l with
  | [] => None
  | x :: l => if p x then Some (x, l) else '(y, rest) ← remove_first p l; Some (y, x :: rest)
  end.

Definition evictOldestOkStepLocked '((r, c) : st) : bool * st :=
  match remove_first (droppable (anchorStep r)) (steps r) with
  | Some (s, rest) =>
    (true, (set_buffer r rest (logs r) (bufBytes r - stepBytes s) (headerOnly r), bump CStepsDropped 1 c))
  | None => (false, (r, c))
  end.

Definition evictOldestInfoLogLocked '((r, c) : st) : bool * st :=
  match remove_first (fun l => String.eqb (lb_level l) "info") (logs r) with
  | Some (l, rest) =>
    (true, (set_buffer r (steps r) rest (bufBytes r - logBytes l) (headerOnly r), bump CLogsDropped 1 c))
  | None => (false, (r, c))
  end.

Definition degradeToHeaderOnlyLocked '((r, c) : st) : st :=
  if headerOnly r then (r, c) else
  let c := bump CBufferOverflows 1 c in
  let c := fold_left (fun c l => bump CBytesDropped (logBytes l) c) (logs r) c in
  let c := fold_left (fun c s => bump CBytesDropped (stepBytes s) c) (steps r) c in
  (set_buffer r [] [] 0 true, c).

(** The head of [addStepLocked]: the error list and the anchor. *)
Definition noteStepError (s : stepBuf) (r : request) : request :=
  if String.eqb (sb_status s) StepStatusError then
    match sb_err s with
    | Some e =>
      let r := recordErrorLocked (e_Code e) (e_Reason e) r in
      if String.eqb (anchorStep r) "" then
        set_anchor r (sb_name s) (e_Code e)
          (String.eqb (panicStepHint r) (sb_name s) && String.eqb (e_Code e) "ERR")
      else r
    | None => r
    end
  else r.

Definition over_bytes (r : request) (bytes : Z) : bool := id_maxBytes (r_id r) <? bufBytes r + bytes.

(** The tail of [addStepLocked], once the bytes fit. *)
Definition pushStepBuf (s : stepBuf) '((r, c) : st) : st :=
  let push '((r, c) : st) : st :=
    (set_buffer r (steps r ++ [s]) (logs r) (bufBytes r + stepBytes s) (headerOnly r), c) in
  if Z.of_nat (length (steps r)) <? id_maxSteps (r_id r) then push (r, c) else
  if String.eqb (sb_status s) StepStatusOK then (r, bump CStepsDropped 1 c) else
  let '(evicted, (r, c)) := evictOldestOkStepLocked (r, c) in
  if evicted then push (r, c) else (r, bump CStepsDropped 1 c).

Definition addStepLocked (s : stepBuf) '((r, c) : st) : st :=
  let r := noteStepError s r in
  if headerOnly r then (r, bump CStepsDropped 1 c) else
  let bytes := stepBytes s in
  if over_bytes r bytes then
    let '(r, c) := dropOkLogsLocked (r, c) in
    let '(r, c) := if over_bytes r bytes then dropOkStepsLocked (r, c) else (r, c) in
    if over_bytes r bytes then
      if String.eqb (sb_status s) StepStatusOK then
        (r, bump CBytesDropped bytes (bump CStepsDropped 1 c))
      else let '(r, c) := degradeToHeaderOnlyLocked (r, c) in (r, bump CStepsDropped 1 c)
    else pushStepBuf s (r, c)
  else pushStepBuf s (r, c).

Definition pushLogBuf (l : logBuf) '((r, c) : st) : st :=
  let push '((r, c) : st) : st :=
    (set_buffer r (steps r) (logs r ++ [l]) (bufBytes r + logBytes l) (headerOnly r), c) in
  if Z.of_nat (length (logs r)) <? id_maxLogs (r_id r) then push (r, c) else
  if String.eqb (lb_level l) "info" then (r, bump CLogsDropped 1 c) else
  let '(evicted, (r, c)) := evictOldestInfoLogLocked (r, c) in
  if evicted then push (r, c) else (r, bump CLogsDropped 1 c).

Definition addLogLocked (l : logBuf) '((r, c) : st) : st :=
  if headerOnly r then (r, bump CLogsDropped 1 c) else
  let bytes := logBytes l in
  if over_bytes r bytes then
    let '(r, c) := dropOkLogsLocked (r, c) in
    if over_bytes r bytes then
      if String.eqb (lb_level l) "info" then
        (r, bump CBytesDropped bytes (bump CLogsDropped 1 c))
      else let '(r, c) := degradeToHeaderOnlyLocked (r, c) in (r, bump CLogsDropped 1 c)
    else pushLogBuf l (r, c)
  else pushLogBuf l (r, c).

Arguments addStepLocked : simpl never.
Arguments addLogLocked : simpl never.

(** ** Steps *)

(** The name of the innermost active step; the stack's last entry is its top. *)
Definition top_name (stack : list activeStep) (none : string) : string :=
  match last stack with Some a => as_name a | None => none end.

Definition activeStepLocked (r : request) : string := top_name (stepStack r) "request".

Definition rememberPanicStep (name : string) (r : request) : request :=
  if String.eqb (panicStepHint r) "" then set_hint r name else r.

Definition pushStep (name : string) (startedAt : Time) (startMS : Z) (r : request) : request :=
  set_stack r (stepStack r ++ [mkActive name "" None startedAt startMS]).

(** [popStackLocked]: the top when it has the name, else the last entry that has it. *)
Definition popStackLocked (name : string) (stack : list activeStep) : activeStep * list activeStep :=
  match last stack with
  | Some top =>
    if String.eqb (as_name top) name then (top, removelast stack) else
    match remove_first (fun a => String.eqb (as_name a) name) (rev stack) with
    | Some (top, rest) => (top, rev rest)
    | None => (mkActive name "" None 0 0, stack)
    end
  | None => (mkActive name "" None 0 0, stack)
  end.

(** The error [closeStep] records for what [fn] returned; [None] is the nil dereference
    of [asWaylog.Code]. *)
Definition step_error (e : goerr) (c : counts) : option (Error * counts) :=
  let werr := mkError "ERR" (ge_text e) "" in
  match ge_as e with
  | None => Some (werr, c)
  | Some None => None
  | Some (Some w) => if isReserved (e_Code w) then Some (werr, recordReservedRejection c) else Some (w, c)
  end.

Definition closeStep (name : string) (startMS durationMS : Z) (fnErr : option goerr) '((r, c) : st) : option st :=
  '(status, werr, c) ←
    match fnErr with
    | None => Some (StepStatusOK, None, c)
    | Some e => '(w, c) ← step_error e c; Some (StepStatusError, Some w, c)
    end;
  let '(active, stack) := popStackLocked name (stepStack r) in
  let r := set_stack r stack in
  if suppressed r || sealed r then Some (r, c) else
  Some (addStepLocked (mkStepBuf name (as_spanID active) startMS durationMS status (as_downstream active) werr) (r, c)).

Arguments closeStep : simpl never.

(** What [fn] did: it returned, or panicked with a value that prints as [text]. *)
Inductive outcome := Returned (err : option goerr) | Panicked (text : string).

(** [Step]: [fn] runs between the push and the close, which a panic passes through too.
    The clock readings are those of the two calls. *)
Definition Step (name : string) (startedAt : Time) (startMS durationMS : Z)
    (fn : st -> option (outcome * st)) '((r, c) : st) : option (outcome * st) :=
  if String.eqb name "" then fn (r, c) else
  '(out, (r, c)) ← fn (pushStep name startedAt startMS r, c);
  match out with
  | Panicked text =>
    s ← closeStep name startMS durationMS (Some (mkGoerr ("panic: " +:+ text) None)) (rememberPanicStep name r, c);
    Some (Panicked text, s)
  | Returned err => s ← closeStep name startMS durationMS err (r, c); Some (Returned err, s)
  end.

Definition Fail (err : option Error) '((r, c) : st) : st :=
  match err with
  | None => (r, c)
  | Some e =>
    if String.eqb (e_Code e) "" then (r, c) else
    if isReserved (e_Code e) then (r, recordReservedRejection c) else
    if suppressed r then (r, bump CSuppressFailed 1 c) else
    if sealed r then (r, c) else
    let r := recordErrorLocked (e_Code e) (e_Reason e) r in
    if String.eqb (anchorStep r) "" then (set_anchor r (activeStepLocked r) (e_Code e) false, c) else (r, c)
  end.

Definition Suppress (r : request) : request :=
  if suppressed r then r else
  mkRequest (r_id r) (stepStack r) [] [] (fields r) [] 0 true (sealed r) false "" "" "" false "".

(** ** Logs and fields *)

Definition mergeFields (more : list (gmap string value)) : gmap string value :=
  fold_left (fun out m => m ∪ out) more ∅.

Definition error_fields (err : option Error) (m : gmap string value) : gmap string value :=
  match err with
  | None => m
  | Some e =>
    let m := <["error.code" := VStr (e_Code e)]> m in
    let m := if String.eqb (e_Reason e) "" then m else <["error.reason" := VStr (e_Reason e)]> m in
    if String.eqb (e_Cause e) "" then m else <["error.cause" := VStr (e_Cause e)]> m
  end.

Definition appendLog (now : Time) (level msg : string) (err : option Error) (more : list (gmap string value))
    '((r, c) : st) : st :=
  let merged := error_fields err (mergeFields more) in
  if suppressed r || sealed r then (r, c) else
  let stepName := top_name (stepStack r) "" in
  let r := match err with Some e => recordErrorLocked (e_Code e) (e_Reason e) r | None => r end in
  addLogLocked (mkLogBuf (Z.quot (TimeSub now (id_tsStart (r_id r))) 1000000) level msg merged stepName) (r, c).

Definition SetField (key : string) (v : value) (r : request) : request :=
  if String.eqb key "" then r else
  if suppressed r || sealed r then r else set_fields r (<[key := v]> (fields r)).

(** [r.fields["http"].(map[string]any)], or a fresh map. *)
Definition http_fields (r : request) : gmap string value :=
  match fields r !! "http" with Some (VMap (Some m)) => m | _ => ∅ end.

Definition SetHTTPStatus (status : Z) (r : request) : request :=
  if suppressed r || sealed r then r else
  set_fields r (<["http" := VMap (Some (<["status" := VInt status]> (http_fields r)))]> (fields r)).

Definition SetHTTPRoute (route : string) (r : request) : request :=
  if String.eqb route "" then r else
  if suppressed r || sealed r then r else
  set_fields r (<["http" := VMap (Some (<["route" := VStr route]> (http_fields r)))]> (fields r)).

Definition RecordOutgoingSpan (clientSpan service endpoint : string) (r : request) : request :=
  if String.eqb clientSpan "" then r else
  if suppressed r || sealed r then r else
  match last (stepStack r) with
  | None => r
  | Some top =>
    set_stack r (removelast (stepStack r) ++
      [mkActive (as_name top) clientSpan (Some (mkDownstream service endpoint "rpc")) (as_startedAt top) (as_startMS top)])
  end.

(** ** The end of a request *)

Inductive lifecycleKind := lifecycleNormal | lifecyclePanic | lifecycleAborted | lifecycleTimeout.

Definition markLifecycleLocked (status code : string) (r : request) : request :=
  if suppressed r then r else
  let r := set_final r status in
  let a := activeStepLocked r in
  if String.eqb code CodePanic && String.eqb a "request" && negb (String.eqb (panicStepHint r) "")
  then set_anchor (set_hint r "") (panicStepHint r) code false
  else set_anchor r a code false.

Definition flush_one (now : Time) (s : st) (a : activeStep) : st :=
  let durMS := Z.quot (TimeSub now (as_startedAt a)) 1000000 in
  let durMS := if durMS <? 0 then 0 else durMS in
  addStepLocked (mkStepBuf (as_name a) (as_spanID a) (as_startMS a) durMS StepStatusOK (as_downstream a) None) s.

Definition flushActiveStepsLocked (now : Time) '((r, c) : st) : st :=
  let '(r, c) := fold_left (flush_one now) (stepStack r) (r, c) in (set_stack r [], c).

Definition applyLifecycleLocked (now : Time) (k : lifecycleKind) '((r, c) : st) : st :=
  if suppressed r then (r, c) else
  match k with
  | lifecycleNormal => (r, c)
  | lifecyclePanic =>
    let r := if String.eqb (anchorStep r) "" || anchorFromStepPanic r
             then markLifecycleLocked StatusError CodePanic r else set_final r StatusError in
    flushActiveStepsLocked now (recordErrorLocked CodePanic "runtime panic recovered" r, c)
  | lifecycleTimeout =>
    let r := if String.eqb (anchorStep r) "" then markLifecycleLocked StatusTimeout CodeTimeout r
             else set_final r StatusTimeout in
    flushActiveStepsLocked now (r, c)
  | lifecycleAborted =>
    let r := if String.eqb (anchorStep r) "" then markLifecycleLocked StatusAborted CodeAborted r else r in
    flushActiveStepsLocked now (r, c)
  end.

Definition snapshotStatusLocked (r : request) : string :=
  if suppressed r then StatusSuppressed else
  if negb (String.eqb (finalStatus r) "") then finalStatus r else
  if negb (String.eqb (anchorStep r) "") then StatusError else StatusOK.

Definition event_step (s : stepBuf) : Types.Step :=
  mkStep (sb_name s) (sb_spanID s) (sb_startMS s) (sb_durationMS s) (sb_status s) (sb_downstream s)
    (toStepError <$> sb_err s).

Definition event_log (l : logBuf) : Log := mkLog (lb_tsOffsetMS l) (lb_level l) (lb_msg l) (lb_fields l).

Definition event_error (e : errEntry) : ErrorRef := mkErrorRef (ee_code e) (ee_reason e).

(** The configuration fields an event and the rate limit read. *)
Record SdkConfig := mkSdkConfig {
  cfg_Service : string;
  cfg_Env : string;
  cfg_Version : string;
  cfg_MaxEventsPerSec : Z;
  cfg_Redactor : option (gmap string value -> gmap string value)
}.

Definition event_anchor (r : request) : option Anchor :=
  if negb (String.eqb (anchorStep r) "") && negb (String.eqb (anchorCode r) "")
  then Some (mkAnchor (anchorStep r) (anchorCode r) "") else None.

(** [assembleLocked]: the detail a status and the degraded mode leave out is empty. *)
Definition assembleLocked (cfg : SdkConfig) (tsEnd : Time) (r : request) : Event :=
  let i := r_id r in
  let status := snapshotStatusLocked r in
  let ev anchor ss ls es :=
    mkEvent "2.0" (id_eventID i) (id_tsStart i) tsEnd (Z.quot (TimeSub tsEnd (id_tsStart i)) 1000000) "http"
      (cfg_Service cfg) (cfg_Env cfg) (cfg_Version cfg) (id_traceID i) (id_spanID i) (id_parentSpanID i)
      status anchor ss ls (fields r) es in
  if String.eqb status StatusSuppressed then ev None [] [] [] else
  if headerOnly r then ev (event_anchor r) [] [] [] else
  ev (event_anchor r) (event_step <$> steps r) (event_log <$> logs r) (event_error <$> errs r).

Definition redact (cfg : SdkConfig) (ev : Event) : Event :=
  match cfg_Redactor cfg with
  | Some f =>
    if decide (ev_Fields ev = ∅) then ev else
    mkEvent (ev_SchemaVersion ev) (ev_EventID ev) (ev_TsStart ev) (ev_TsEnd ev) (ev_DurationMS ev) (ev_Kind ev)
      (ev_Service ev) (ev_Env ev) (ev_Version ev) (ev_TraceID ev) (ev_SpanID ev) (ev_ParentSpanID ev)
      (ev_Status ev) (ev_Anchor ev) (ev_Steps ev) (ev_Logs ev) (f (ev_Fields ev)) (ev_Errors ev)
  | None => ev
  end.

(** The sealing half of [finalize]: the event, or nothing when one was already made. *)
Definition seal (cfg : SdkConfig) (k : lifecycleKind) (mark tsEnd : Time) '((r, c) : st) : option Event * st :=
  if sealed r then (None, (r, bump CLateAfterEmit 1 c)) else
  let '(r, c) := applyLifecycleLocked mark k (r, c) in
  let ev := assembleLocked cfg tsEnd r in
  let r := if decide (fields r = ∅) then r else
    match cfg_Redactor cfg with Some _ => r | None => set_fields r ∅ end in
  (Some (redact cfg ev), (set_sealed r, c)).

(** ** Explain *)

Record ExplainResult := mkExplain {
  ex_TraceID : string;
  ex_Service : string;
  ex_Route : string;
  ex_Status : string;
  ex_Anchor : string * string;
  ex_Path : list (string * Z * Z * string * string * string);
  ex_Logs : list (Z * string * string * string);
  ex_Downstream : list (string * string * string)
}.

Definition routeFromFields (f : gmap string value) : string :=
  match f !! "http" with Some (VMap (Some m)) => as_string (m !! "route") | _ => "" end.

Definition explain_step (s : stepBuf) : string * Z * Z * string * string * string :=
  (sb_name s, sb_startMS s, sb_durationMS s, sb_status s,
   from_option e_Code "" (sb_err s), from_option e_Reason "" (sb_err s)).

Definition explain_edge (s : stepBuf) : option (string * string * string) :=
  d ← sb_downstream s; Some (sb_name s, dn_Service d, dn_Endpoint d).

Definition Explain (cfg : SdkConfig) (r : request) : ExplainResult :=
  mkExplain (id_traceID (r_id r)) (cfg_Service cfg) (routeFromFields (fields r)) (snapshotStatusLocked r)
    (anchorStep r, anchorCode r) (explain_step <$> steps r)
    ((fun l => (lb_tsOffsetMS l, lb_level l, lb_msg l, lb_stepName l)) <$> logs r)
    (omap explain_edge (steps r)).

(** ** A request's life *)

Inductive op :=
| OPush (name : string) (startedAt : Time) (startMS : Z)
| OClose (name : string) (startMS durationMS : Z) (err : option goerr)
| ORememberPanic (name : string)
| OFail (err : option Error)
| OSuppress
| OLog (now : Time) (level msg : string) (err : option Error) (more : list (gmap string value))
| OSetField (key : string) (v : value)
| OHTTPStatus (status : Z)
| OHTTPRoute (route : string)
| OSpan (clientSpan service endpoint : string).

Definition run_op (o : op) '((r, c) : st) : option st :=
  match o with
  | OPush name t ms => Some (pushStep name t ms r, c)
  | OClose name ms dur err => closeStep name ms dur err (r, c)
  | ORememberPanic name => Some (rememberPanicStep name r, c)
  | OFail err => Some (Fail err (r, c))
  | OSuppress => Some (Suppress r, c)
  | OLog now level msg err more => Some (appendLog now level msg err more (r, c))
  | OSetField key v => Some (SetField key v r, c)
  | OHTTPStatus status => Some (SetHTTPStatus status r, c)
  | OHTTPRoute route => Some (SetHTTPRoute route r, c)
  | OSpan span service endpoint => Some (RecordOutgoingSpan span service endpoint r, c)
  end.

Definition run_ops (l : list op) (s : st) : option st := fold_left (fun s o => s ← s; run_op o s) l (Some s).
