(* ===== verification/Schema.v ===== *)
(** The JSON Schema of a schema-2.0 event ([pkg/event/v2/v2.0.schema.json]) as a predicate
    on events in their encoded form: a field Go omits when empty is absent.  Formats are
    annotations, which the compiler of [event.go] leaves unchecked. *)

From S2P Require Import Prelude GoRuntime Types.
Open Scope Z_scope.

Definition is_lower_hex (c : ascii) : bool :=
  let n := nat_of_ascii c in ((48 <=? n) && (n <=? 57) || (97 <=? n) && (n <=? 102))%nat.

Fixpoint all_chars (p : ascii -> bool) (s : string) : bool :=
  match s with EmptyString => true | String c s => p c && all_chars p s end.

(** The patterns of 32 hexadecimal digits, and of 16 or none. *)
Definition hex32 (s : string) : bool := (String.length s =? 32)%nat && all_chars is_lower_hex s.
Definition hex16_opt (s : string) : bool :=
  String.eqb s "" || (String.length s =? 16)%nat && all_chars is_lower_hex s.

Definition status_enum (s : string) : bool := IsPriority s || String.eqb s StatusOK || String.eqb s StatusSuppressed.

Definition anchor_ok (a : Anchor) : bool := negb (String.eqb (an_Step a) "") && negb (String.eqb (an_ErrorCode a) "").

Definition step_ok (s : Step) : bool :=
  negb (String.eqb (st_Name s) "") && hex16_opt (st_SpanID s) && (0 <=? st_StartMS s) && (0 <=? st_DurationMS s) &&
  (String.eqb (st_Status s) StepStatusOK || String.eqb (st_Status s) StepStatusError) &&
  match st_Downstream s with Some _ => negb (String.eqb (st_SpanID s) "") | None => true end.

Definition log_ok (l : Log) : bool :=
  (0 <=? lg_TsOffsetMS l) &&
  (String.eqb (lg_Level l) "info" || String.eqb (lg_Level l) LogLevelWarn || String.eqb (lg_Level l) LogLevelError).

Definition conforms (ev : Event) : bool :=
  String.eqb (ev_SchemaVersion ev) "2.0" && (0 <=? ev_DurationMS ev) && String.eqb (ev_Kind ev) "http" &&
  negb (String.eqb (ev_Service ev) "") && negb (String.eqb (ev_Env ev) "") &&
  hex32 (ev_TraceID ev) && hex16_opt (ev_SpanID ev) && hex16_opt (ev_ParentSpanID ev) &&
  status_enum (ev_Status ev) &&
  match ev_Anchor ev with Some a => anchor_ok a | None => negb (IsPriority (ev_Status ev)) end &&
  forallb step_ok (ev_Steps ev) && forallb log_ok (ev_Logs ev).

(** ** Hexadecimal text *)

Lemma hex_digit_ok d : 0 <= d < 16 -> exists c, Sha256.hex_digit d = String c "" /\ is_lower_hex c = true.
Proof.
  intros H. destruct (Z_of_nat_complete d ltac:(lia)) as [n ->].
  do 16 (destruct n as [|n]; [by eexists|]). lia.
Qed.

Lemma all_chars_app p a b : all_chars p (a +:+ b) = all_chars p a && all_chars p b.
Proof. induction a as [|c a IH]; [done|]. rewrite string_app_cons. simpl. by rewrite IH, andb_assoc. Qed.

Lemma hex_ok b : Forall (fun z => 0 <= z < 256) b ->
  String.length (Sha256.hex b) = (2 * length b)%nat /\ all_chars is_lower_hex (Sha256.hex b) = true.
Proof.
  unfold Sha256.hex. induction 1 as [|z b Hz _ [IHl IHc]]; [done|]. cbn [foldr].
  destruct (hex_digit_ok (z / 16)) as (c1 & -> & H1); [split; [apply Z.div_pos; lia|apply Z.div_lt_upper_bound; lia]|].
  destruct (hex_digit_ok (z mod 16)) as (c2 & -> & H2); [apply Z.mod_pos_bound; lia|].
  rewrite !string_app_cons, !string_app_nil_l. simpl. rewrite H1, H2, IHl. split; [lia|exact IHc].
Qed.
