(* ===== verification/RequestSpec.v ===== *)
(** What a request buffer promises: its bounds, its anchor, and that the event it becomes
    is one the server accepts. *)

From S2P Require Import Prelude GoRuntime Types Schema Request.
Open Scope Z_scope.

(** ** The buffer's accounting *)

Fixpoint steps_bytes (l : list stepBuf) : Z :=
  match l with [] => 0 | s :: l => stepBytes s + steps_bytes l end.
Fixpoint logs_bytes (l : list logBuf) : Z :=
  match l with [] => 0 | x :: l => logBytes x + logs_bytes l end.

Lemma stepBytes_pos s : 0 < stepBytes s.
Proof. unfold stepBytes, slen. destruct (sb_downstream s), (sb_err s); lia. Qed.

Lemma fields_bytes_nonneg l : 0 <= fields_bytes l.
Proof.
  induction l as [|[k v] l IH]; simpl; [lia|]. unfold field_bytes, slen. simpl. destruct v; lia.
Qed.

Lemma logBytes_pos l : 0 < logBytes l.
Proof. unfold logBytes, slen. pose proof (fields_bytes_nonneg (map_to_list (lb_fields l))). lia. Qed.

Lemma steps_bytes_app l1 l2 : steps_bytes (l1 ++ l2) = steps_bytes l1 + steps_bytes l2.
Proof. induction l1; simpl; lia. Qed.
Lemma logs_bytes_app l1 l2 : logs_bytes (l1 ++ l2) = logs_bytes l1 + logs_bytes l2.
Proof. induction l1; simpl; lia. Qed.
Lemma steps_bytes_nonneg l : 0 <= steps_bytes l.
Proof. induction l as [|s l IH]; simpl; [lia|]. pose proof (stepBytes_pos s). lia. Qed.
Lemma logs_bytes_nonneg l : 0 <= logs_bytes l.
Proof. induction l as [|s l IH]; simpl; [lia|]. pose proof (logBytes_pos s). lia. Qed.

(** Steps, logs and byte count within the limits of [i]. *)
Definition within (i : identity) (ss : list stepBuf) (ls : list logBuf) (b : Z) : Prop :=
  b = steps_bytes ss + logs_bytes ls /\ b <= id_maxBytes i /\
  Z.of_nat (length ss) <= id_maxSteps i /\ Z.of_nat (length ls) <= id_maxLogs i.

Definition bounded (r : request) : Prop := within (r_id r) (steps r) (logs r) (bufBytes r).

Definition limits_ok (i : identity) : Prop := 0 <= id_maxSteps i /\ 0 <= id_maxLogs i /\ 0 <= id_maxBytes i.

Lemma drop_info_spec l b c : exists kept b' c', drop_info l b c = (kept, b', c') /\
  sublist kept l /\ b' = b - (logs_bytes l - logs_bytes kept) /\
  (forall x, x ∈ kept -> String.eqb (lb_level x) "info" = false).
Proof.
  revert b c. induction l as [|x l IH]; intros b c; simpl.
  - exists [], b, c. split; [done|split; [done|split; [simpl; lia|]]]. intros y Hy. by apply elem_of_nil in Hy.
  - destruct (String.eqb (lb_level x) "info") eqn:E.
    + destruct (IH (b - logBytes x) (bump CBytesDropped (logBytes x) (bump CLogsDropped 1 c))) as (k & b' & c' & -> & H1 & H2 & H3).
      exists k, b', c'. split; [done|split; [by apply sublist_cons|split; [lia|done]]].
    + destruct (IH b c) as (k & b' & c' & -> & H1 & H2 & H3). exists (x :: k), b', c'.
      split; [done|split; [by apply sublist_skip|split; [simpl; lia|]]].
      intros y Hy. apply elem_of_cons in Hy as [->|Hy]; auto.
Qed.

Lemma drop_ok_spec a l b c : exists kept b' c', drop_ok a l b c = (kept, b', c') /\
  sublist kept l /\ b' = b - (steps_bytes l - steps_bytes kept) /\
  (forall x, x ∈ kept -> droppable a x = false).
Proof.
  revert b c. induction l as [|x l IH]; intros b c; simpl.
  - exists [], b, c. split; [done|split; [done|split; [simpl; lia|]]]. intros y Hy. by apply elem_of_nil in Hy.
  - destruct (droppable a x) eqn:E.
    + destruct (IH (b - stepBytes x) (bump CBytesDropped (stepBytes x) (bump CStepsDropped 1 c))) as (k & b' & c' & -> & H1 & H2 & H3).
      exists k, b', c'. split; [done|split; [by apply sublist_cons|split; [lia|done]]].
    + destruct (IH b c) as (k & b' & c' & -> & H1 & H2 & H3). exists (x :: k), b', c'.
      split; [done|split; [by apply sublist_skip|split; [simpl; lia|]]].
      intros y Hy. apply elem_of_cons in Hy as [->|Hy]; auto.
Qed.

Lemma remove_first_spec {A} (p : A -> bool) (l : list A) :
  match remove_first p l with
  | Some (x, rest) => sublist rest l /\ l ≡ₚ x :: rest /\ p x = true
  | None => forall x, x ∈ l -> p x = false
  end.
Proof.
  induction l as [|x l IH]; simpl; [intros x Hx; by apply elem_of_nil in Hx|].
  destruct (p x) eqn:E; [split; [by apply sublist_cons|done]|].
  destruct (remove_first p l) as [[y rest]|]; simpl.
  - destruct IH as (H1 & H2 & H3). split; [by apply sublist_skip|split; [|done]].
    rewrite H2. apply Permutation_swap.
  - intros y Hy. apply elem_of_cons in Hy as [->|Hy]; auto.
Qed.

Lemma steps_bytes_perm l1 l2 : l1 ≡ₚ l2 -> steps_bytes l1 = steps_bytes l2.
Proof. induction 1; simpl; lia. Qed.
Lemma logs_bytes_perm l1 l2 : l1 ≡ₚ l2 -> logs_bytes l1 = logs_bytes l2.
Proof. induction 1; simpl; lia. Qed.

(** What an insertion leaves of a buffer: pieces of what it held, and the new entries. *)
Record sheds (r : request) (ss : list stepBuf) (ls : list logBuf) (r' : request) : Prop := {
  sh_eq : exists b h, r' = set_buffer r (steps r') (logs r') b h;
  sh_steps : sublist (steps r') (steps r ++ ss);
  sh_logs : sublist (logs r') (logs r ++ ls);
  sh_bounded : limits_ok (r_id r) -> bounded r -> bounded r'
}.

Lemma set_buffer_self r : r = set_buffer r (steps r) (logs r) (bufBytes r) (headerOnly r).
Proof. by destruct r. Qed.

Lemma sheds_refl r ss ls : sheds r ss ls r.
Proof.
  split; [|by apply sublist_inserts_r|by apply sublist_inserts_r|done].
  exists (bufBytes r), (headerOnly r). apply set_buffer_self.
Qed.

Lemma dropOkLogs_spec r c : exists r' c', dropOkLogsLocked (r, c) = (r', c') /\ sheds r [] [] r' /\
  headerOnly r' = headerOnly r /\ steps r' = steps r.
Proof.
  simpl. destruct (drop_info_spec (logs r) (bufBytes r) c) as (k & b & c' & -> & Hs & Hb & _).
  eexists _, c'. split; [done|]. split; [|done]. split; simpl.
  - by eexists _, _.
  - by rewrite app_nil_r.
  - by rewrite app_nil_r.
  - intros _ (H1 & H2 & H3 & H4). pose proof (sublist_length _ _ Hs).
    unfold bounded, within; simpl. pose proof (steps_bytes_nonneg (steps r)). pose proof (logs_bytes_nonneg k).
    assert (logs_bytes k <= logs_bytes (logs r)).
    { clear -Hs. induction Hs as [|x l1 l2 _ IH|x l1 l2 _ IH]; simpl; try lia. pose proof (logBytes_pos x). lia. }
    lia.
Qed.

Lemma dropOkSteps_spec r c : exists r' c', dropOkStepsLocked (r, c) = (r', c') /\ sheds r [] [] r' /\
  headerOnly r' = headerOnly r /\ logs r' = logs r /\ (forall x, x ∈ steps r' -> droppable (anchorStep r) x = false).
Proof.
  simpl. destruct (drop_ok_spec (anchorStep r) (steps r) (bufBytes r) c) as (k & b & c' & -> & Hs & Hb & Hk).
  eexists _, c'. split; [done|]. split; [|done]. split; simpl.
  - by eexists _, _.
  - by rewrite app_nil_r.
  - by rewrite app_nil_r.
  - intros _ (H1 & H2 & H3 & H4). pose proof (sublist_length _ _ Hs).
    unfold bounded, within; simpl. pose proof (steps_bytes_nonneg k). pose proof (logs_bytes_nonneg (logs r)).
    assert (steps_bytes k <= steps_bytes (steps r)).
    { clear -Hs. induction Hs as [|x l1 l2 _ IH|x l1 l2 _ IH]; simpl; try lia. pose proof (stepBytes_pos x). lia. }
    lia.
Qed.

Lemma sheds_trans r r1 r2 ss ls : sheds r [] [] r1 -> sheds r1 ss ls r2 -> sheds r ss ls r2.
Proof.
  intros [(b1 & h1 & E1) S1 L1 B1] [(b2 & h2 & E2) S2 L2 B2]. rewrite app_nil_r in S1, L1. split.
  - exists b2, h2. rewrite E2, E1. done.
  - etransitivity; [exact S2|]. by apply sublist_app.
  - etransitivity; [exact L2|]. by apply sublist_app.
  - intros Hl Hb. apply B2; [|by apply B1]. by rewrite E1.
Qed.

Lemma over_bytes_false r b : over_bytes r b = false -> bufBytes r + b <= id_maxBytes (r_id r).
Proof. unfold over_bytes. intros H. by apply Z.ltb_ge in H. Qed.

(** The buffer is full for a step: no room, and nothing it may push out. *)
Definition steps_full (r : request) : Prop :=
  id_maxSteps (r_id r) <= Z.of_nat (length (steps r)) /\
  forall x, x ∈ steps r -> droppable (anchorStep r) x = false.

Lemma pushStepBuf_spec s r c : over_bytes r (stepBytes s) = false ->
  exists r' c', pushStepBuf s (r, c) = (r', c') /\ sheds r [s] [] r' /\ headerOnly r' = headerOnly r /\
    ((exists kept, steps r' = kept ++ [s]) \/ sb_status s = StepStatusOK \/ r' = r /\ steps_full r).
Proof.
  intros Hov. apply over_bytes_false in Hov. unfold pushStepBuf.
  destruct (Z.ltb_spec (Z.of_nat (length (steps r))) (id_maxSteps (r_id r))) as [Hlt|Hge].
  { eexists _, c. split; [done|split; [|split; [done|left; by eexists]]]. split; simpl.
    - by eexists _, _.
    - done.
    - by rewrite app_nil_r.
    - intros _ (H1 & H2 & H3 & H4). unfold bounded, within. simpl. rewrite steps_bytes_app, length_app. simpl. lia. }
  destruct (String.eqb_spec (sb_status s) StepStatusOK) as [Hok|_].
  { eexists r, _. split; [done|split; [apply sheds_refl|split; [done|auto]]]. }
  unfold evictOldestOkStepLocked.
  pose proof (remove_first_spec (droppable (anchorStep r)) (steps r)) as Hr.
  destruct (remove_first _ (steps r)) as [[x rest]|].
  - destruct Hr as (Hs & Hp & _). pose proof (Permutation_length Hp) as Hl. simpl in Hl.
    eexists _, _. split; [done|split; [|split; [done|left; by eexists]]]. split; simpl.
    + by eexists _, _.
    + by apply sublist_app.
    + by rewrite app_nil_r.
    + intros _ (H1 & H2 & H3 & H4). unfold bounded, within. simpl. rewrite steps_bytes_app, length_app. simpl.
      apply steps_bytes_perm in Hp. simpl in Hp. pose proof (stepBytes_pos x). lia.
  - eexists r, _. split; [done|split; [apply sheds_refl|split; [done|]]]. right. right. by split.
Qed.

Lemma degrade_spec r c ss ls : headerOnly r = false -> exists c',
  degradeToHeaderOnlyLocked (r, c) = (set_buffer r [] [] 0 true, c') /\ sheds r ss ls (set_buffer r [] [] 0 true).
Proof.
  intros H. simpl. rewrite H. eexists. split; [done|]. split; simpl.
  - by eexists _, _.
  - apply sublist_nil_l.
  - apply sublist_nil_l.
  - intros (H1 & H2 & H3) _. unfold bounded, within. simpl. lia.
Qed.

(** Recording a step keeps the buffer's bounds, sheds only what pressure requires, and
    records an error step unless the request degrades or nothing may make way for it. *)
Lemma addStep_spec s r c : exists r' c', addStepLocked s (r, c) = (r', c') /\
  sheds (noteStepError s r) [s] [] r' /\
  ((exists kept, steps r' = kept ++ [s]) \/ sb_status s = StepStatusOK \/ headerOnly r' = true \/
   steps_full r').
Proof.
  unfold addStepLocked. cbv zeta. set (r0 := noteStepError s r).
  destruct (headerOnly r0) eqn:Eh.
  { eexists r0, _. split; [done|split; [apply sheds_refl|auto]]. }
  assert (forall r1 c1, sheds r0 [] [] r1 -> over_bytes r1 (stepBytes s) = false ->
    exists r' c', pushStepBuf s (r1, c1) = (r', c') /\ sheds r0 [s] [] r' /\
    ((exists kept, steps r' = kept ++ [s]) \/ sb_status s = StepStatusOK \/ headerOnly r' = true \/ steps_full r')) as Hpush.
  { intros r1 c1 Hs Hov. destruct (pushStepBuf_spec s r1 c1 Hov) as (r' & c' & E & Hs' & Hh & Hcase).
    exists r', c'. split; [done|split; [by eapply sheds_trans|]].
    destruct Hcase as [H|[H|[-> H]]]; [by left|right; by left|right; right; by right]. }
  destruct (over_bytes r0 (stepBytes s)) eqn:Eo; [|apply Hpush; [apply sheds_refl|done]].
  destruct (dropOkLogs_spec r0 c) as (r1 & c1 & -> & Hs1 & Hh1 & _).
  assert (exists r2 c2, (if over_bytes r1 (stepBytes s) then dropOkStepsLocked (r1, c1) else (r1, c1)) = (r2, c2)
    /\ sheds r0 [] [] r2 /\ headerOnly r2 = false) as (r2 & c2 & -> & Hs2 & Hh2).
  { case_if.
    - destruct (dropOkSteps_spec r1 c1) as (r2 & c2 & -> & Hs2 & Hh2 & _).
      exists r2, c2. split; [done|split; [by eapply sheds_trans|congruence]].
    - exists r1, c1. split; [done|split; [done|congruence]]. }
  destruct (over_bytes r2 (stepBytes s)) eqn:Eo2; [|by apply Hpush].
  destruct (String.eqb_spec (sb_status s) StepStatusOK) as [Hok|_].
  { eexists r2, _. split; [done|split; [|auto]]. eapply sheds_trans; [exact Hs2|apply sheds_refl]. }
  destruct (degrade_spec r2 c2 [s] [] Hh2) as (c3 & -> & Hs3).
  eexists _, _. split; [done|split; [by eapply sheds_trans|]]. right. right. by left.
Qed.

Lemma addLog_spec l r c : exists r' c', addLogLocked l (r, c) = (r', c') /\ sheds r [] [l] r'.
Proof.
  unfold addLogLocked. destruct (headerOnly r) eqn:Eh.
  { eexists r, _. split; [done|apply sheds_refl]. }
  assert (forall r1 c1, sheds r [] [] r1 -> over_bytes r1 (logBytes l) = false ->
    exists r' c', pushLogBuf l (r1, c1) = (r', c') /\ sheds r [] [l] r') as Hpush.
  { intros r1 c1 Hs Hov. apply over_bytes_false in Hov.
    cut (exists r' c', pushLogBuf l (r1, c1) = (r', c') /\ sheds r1 [] [l] r').
    { intros (r' & c' & E & H). exists r', c'. split; [done|by eapply sheds_trans]. }
    clear Hs. unfold pushLogBuf.
    destruct (Z.ltb_spec (Z.of_nat (length (logs r1))) (id_maxLogs (r_id r1))) as [Hlt|Hge].
    { eexists _, c1. split; [done|]. split; simpl.
      - by eexists _, _.
      - by rewrite app_nil_r.
      - done.
      - intros _ (H1 & H2 & H3 & H4). unfold bounded, within. simpl. rewrite logs_bytes_app, length_app. simpl. lia. }
    destruct (String.eqb (lb_level l) "info"); [eexists r1, _; split; [done|apply sheds_refl]|].
    unfold evictOldestInfoLogLocked.
    pose proof (remove_first_spec (fun l => String.eqb (lb_level l) "info") (logs r1)) as Hr.
    destruct (remove_first _ (logs r1)) as [[x rest]|]; [|eexists r1, _; split; [done|apply sheds_refl]].
    destruct Hr as (Hs & Hp & _). pose proof (Permutation_length Hp) as Hl. simpl in Hl.
    eexists _, _. split; [done|]. split; simpl.
    - by eexists _, _.
    - by rewrite app_nil_r.
    - by apply sublist_app.
    - intros _ (H1 & H2 & H3 & H4). unfold bounded, within. simpl. rewrite logs_bytes_app, length_app. simpl.
      apply logs_bytes_perm in Hp. simpl in Hp. pose proof (logBytes_pos x). lia. }
  destruct (over_bytes r (logBytes l)) eqn:Eo; [|apply Hpush; [apply sheds_refl|done]].
  destruct (dropOkLogs_spec r c) as (r1 & c1 & -> & Hs1 & Hh1 & _).
  destruct (over_bytes r1 (logBytes l)) eqn:Eo1; [|by apply Hpush].
  case_if; [eexists r1, _; split; [done|eapply sheds_trans; [exact Hs1|apply sheds_refl]]|].
  destruct (degrade_spec r1 c1 [] [l] ltac:(congruence)) as (c2 & -> & Hs2).
  eexists _, _. split; [done|]. by eapply sheds_trans.
Qed.

(** ** Errors and anchor *)

Definition codes_ok (r : request) : Prop :=
  NoDup (ee_code <$> errs r) /\ Forall (fun e => ee_code e <> "") (errs r).

Lemma recordError_spec code reason r : exists es, recordErrorLocked code reason r = set_errs r es /\
  (NoDup (ee_code <$> errs r) /\ Forall (fun e => ee_code e <> "") (errs r) ->
   NoDup (ee_code <$> es) /\ Forall (fun e => ee_code e <> "") es) /\
  (code <> "" -> code ∈ ee_code <$> es).
Proof.
  unfold recordErrorLocked. destruct (String.eqb_spec code "") as [->|Hne].
  { exists (errs r). split; [by destruct r|done]. }
  destruct (existsb _ (errs r)) eqn:E.
  - exists (errs r). split; [by destruct r|split; [done|intros _]].
    apply existsb_exists in E as (e & He & Hc). apply String.eqb_eq in Hc. apply list_elem_of_fmap.
    exists e. split; [done|by apply list_elem_of_In].
  - eexists. split; [done|]. rewrite fmap_app. split.
    + intros [Hn Hf]. split; [|by apply Forall_app; split; [|constructor]].
      apply NoDup_app. split; [done|split; [|apply NoDup_singleton]].
      intros x Hx Hx'. apply list_elem_of_singleton in Hx' as ->. apply list_elem_of_fmap in Hx as (e & Hc & He).
      cut (existsb (fun e => String.eqb (ee_code e) code) (errs r) = true); [congruence|].
      apply existsb_exists. exists e. split; [by apply list_elem_of_In|]. simpl in Hc. rewrite Hc. apply String.eqb_refl.
    + intros _. apply elem_of_app. right. by apply list_elem_of_singleton.
Qed.

Definition set_note (r : request) (es : list errEntry) (a cd : string) (p : bool) : request :=
  set_anchor (set_errs r es) a cd p.

(** The codes of the error list and the anchor after a step is noted. *)
Lemma noteStepError_spec s r : exists es a cd p, noteStepError s r = set_note r es a cd p /\
  (codes_ok r -> codes_ok (noteStepError s r)) /\
  (anchorStep r <> "" -> a = anchorStep r /\ cd = anchorCode r /\ p = anchorFromStepPanic r) /\
  (anchorStep r = "" -> a = anchorStep r /\ cd = anchorCode r \/
     exists e, sb_err s = Some e /\ a = sb_name s /\ cd = e_Code e).
Proof.
  assert (exists es a cd p, r = set_note r es a cd p /\ (codes_ok r -> codes_ok r) /\
    (anchorStep r <> "" -> a = anchorStep r /\ cd = anchorCode r /\ p = anchorFromStepPanic r) /\
    (anchorStep r = "" -> a = anchorStep r /\ cd = anchorCode r \/
     exists e, sb_err s = Some e /\ a = sb_name s /\ cd = e_Code e)) as Hsame.
  { exists (errs r), (anchorStep r), (anchorCode r), (anchorFromStepPanic r). split; [by destruct r|auto]. }
  unfold noteStepError. case_if; [|done]. destruct (sb_err s) as [e|]; [|done]. clear Hsame.
  destruct (recordError_spec (e_Code e) (e_Reason e) r) as (es & -> & Hok & _). simpl.
  destruct (String.eqb_spec (anchorStep r) "") as [Ha|Ha].
  - eexists es, _, _, _. split; [done|split; [done|split; [done|]]]. intros _. right. by exists e.
  - exists es, (anchorStep r), (anchorCode r), (anchorFromStepPanic r).
    split; [by destruct r|split; [done|split; [done|auto]]].
Qed.

(** ** Invariants of a request's life *)

Lemma run_ops_ind (P : request -> Prop) (Q : op -> Prop) :
  (forall o r c r' c', P r -> Q o -> run_op o (r, c) = Some (r', c') -> P r') ->
  forall l r c r' c', P r -> Forall Q l -> run_ops l (r, c) = Some (r', c') -> P r'.
Proof.
  intros Hstep l. unfold run_ops.
  assert (forall l, fold_left (fun s o => s ← s; run_op o s) l (@None st) = None) as Hnone.
  { clear. induction l; auto. }
  induction l as [|o l IH]; intros r c r' c' HP HQ Hrun.
  - simpl in Hrun. by simplify_eq.
  - inversion HQ; subst. cbn [fold_left mbind option_bind] in Hrun.
    destruct (run_op o (r, c)) as [[r1 c1]|] eqn:E; [eauto|]. by rewrite Hnone in Hrun.
Qed.

(** The shapes an operation's result can have: a new step, a new log, or a change that
    leaves the buffer alone or empties it. *)
Definition clears (r r' : request) : Prop := steps r' = [] /\ logs r' = [] /\ bufBytes r' = 0.
Definition same_buffer (r r' : request) : Prop :=
  steps r' = steps r /\ logs r' = logs r /\ bufBytes r' = bufBytes r.

Lemma bounded_same r r' : r_id r' = r_id r -> same_buffer r r' -> bounded r -> bounded r'.
Proof. unfold bounded. intros -> (-> & -> & ->). done. Qed.

Lemma set_note_buffer r es a cd p : same_buffer r (set_note r es a cd p) /\ r_id (set_note r es a cd p) = r_id r.
Proof. done. Qed.

Lemma sheds_frame r ss ls r' : sheds r ss ls r' ->
  r_id r' = r_id r /\ stepStack r' = stepStack r /\ fields r' = fields r /\ errs r' = errs r /\
  suppressed r' = suppressed r /\ sealed r' = sealed r /\ finalStatus r' = finalStatus r /\
  anchorStep r' = anchorStep r /\ anchorCode r' = anchorCode r /\ panicStepHint r' = panicStepHint r /\
  anchorFromStepPanic r' = anchorFromStepPanic r.
Proof. intros [(b & h & ->) _ _ _]. done. Qed.

(** One step or log recorded: the facts its users need. *)
Lemma addStep_life s r c : limits_ok (r_id r) -> bounded r -> codes_ok r ->
  exists r' c', addStepLocked s (r, c) = (r', c') /\ bounded r' /\ codes_ok r' /\
    r_id r' = r_id r /\ stepStack r' = stepStack r /\ suppressed r' = suppressed r /\ sealed r' = sealed r /\
    finalStatus r' = finalStatus r /\ panicStepHint r' = panicStepHint r /\ fields r' = fields r /\
    sublist (steps r') (steps r ++ [s]) /\ sublist (logs r') (logs r) /\
    (anchorStep r <> "" -> anchorStep r' = anchorStep r /\ anchorCode r' = anchorCode r /\
       anchorFromStepPanic r' = anchorFromStepPanic r) /\
    (anchorStep r = "" -> anchorStep r' = anchorStep r /\ anchorCode r' = anchorCode r \/
       exists e, sb_err s = Some e /\ anchorStep r' = sb_name s /\ anchorCode r' = e_Code e).
Proof.
  intros Hl Hb Hc. destruct (addStep_spec s r c) as (r' & c' & E & Hs & _).
  destruct (noteStepError_spec s r) as (es & a & cd & p & En & Hok & Ha1 & Ha2).
  pose proof (sheds_frame _ _ _ _ Hs) as (F1 & F2 & F3 & F4 & F5 & F6 & F7 & F8 & F9 & F10 & F11).
  destruct Hs as [_ S1 S2 S3]. specialize (Hok Hc).
  exists r', c'. unfold codes_ok in *. rewrite F1, F2, F3, F4, F5, F6, F7, F8, F9, F10, F11.
  rewrite En in *. simpl in *. rewrite app_nil_r in S2.
  split; [done|]. split; [by apply S3|]. repeat (split; [done|]). done.
Qed.

Lemma addLog_life l r c : limits_ok (r_id r) -> bounded r ->
  exists r' c', addLogLocked l (r, c) = (r', c') /\ bounded r' /\
    r_id r' = r_id r /\ stepStack r' = stepStack r /\ suppressed r' = suppressed r /\ sealed r' = sealed r /\
    finalStatus r' = finalStatus r /\ errs r' = errs r /\
    sublist (steps r') (steps r) /\ sublist (logs r') (logs r ++ [l]) /\
    anchorStep r' = anchorStep r /\ anchorCode r' = anchorCode r.
Proof.
  intros Hl Hb. destruct (addLog_spec l r c) as (r' & c' & E & Hs).
  pose proof (sheds_frame _ _ _ _ Hs) as (F1 & F2 & F3 & F4 & F5 & F6 & F7 & F8 & F9 & F10 & F11).
  destruct Hs as [_ S1 S2 S3]. rewrite app_nil_r in S1.
  exists r', c'. split; [done|]. split; [by apply S3|]. repeat (split; [done|]). done.
Qed.

(** What holds of any open request, whatever the application does with it. *)
Record life (i : identity) (r : request) : Prop := {
  lf_id : r_id r = i;
  lf_bounded : bounded r;
  lf_codes : codes_ok r;
  lf_open : sealed r = false;
  lf_final : finalStatus r = ""
}.

Lemma step_error_spec e c : match step_error e c with
  | None => ge_as e = Some None
  | Some (w, _) => w = mkError "ERR" (ge_text e) "" \/ ge_as e = Some (Some w)
  end.
Proof. unfold step_error. destruct (ge_as e) as [[w|]|]; [|done|by left]. case_if; [by left|by right]. Qed.

Section Life.
Context (i : identity) (Hi : limits_ok i).

Lemma life_new : life i (newRequest i).
Proof.
  destruct Hi as (H1 & H2 & H3). split; try done; try by split; constructor.
Qed.

Lemma life_frame r r' : r_id r' = r_id r -> same_buffer r r' -> errs r' = errs r -> sealed r' = sealed r ->
  finalStatus r' = finalStatus r -> life i r -> life i r'.
Proof.
  intros E1 E2 E3 E4 E5 [H1 H2 H3 H4 H5]. split; try congruence.
  - by eapply bounded_same.
  - unfold codes_ok. by rewrite E3.
Qed.

Lemma life_addStep s r c r' c' : addStepLocked s (r, c) = (r', c') -> life i r -> life i r'.
Proof.
  intros E [H1 H2 H3 H4 H5].
  destruct (addStep_life s r c) as (r1 & c1 & E1 & F1 & F2 & F3 & F4 & F5 & F6 & F7 & _); [congruence|done|done|].
  rewrite E in E1. simplify_eq. split; try done; congruence.
Qed.

Lemma life_addLog l r c r' c' : addLogLocked l (r, c) = (r', c') -> life i r -> life i r'.
Proof.
  intros E [H1 H2 H3 H4 H5].
  destruct (addLog_life l r c) as (r1 & c1 & E1 & F1 & F2 & F3 & F4 & F5 & F6 & F7 & _); [congruence|done|].
  rewrite E in E1. simplify_eq. split; try done; try congruence. unfold codes_ok. by rewrite F7.
Qed.

Lemma life_recordError code reason r : life i r -> life i (recordErrorLocked code reason r).
Proof.
  intros [H1 H2 H3 H4 H5]. destruct (recordError_spec code reason r) as (es & -> & Hes & _).
  split; try done. by apply Hes.
Qed.

Lemma closeStep_inv name ms dur err r c r' c' : closeStep name ms dur err (r, c) = Some (r', c') ->
  exists w c1, match err with
    | None => w = None
    | Some e => exists w0, w = Some w0 /\ (w0 = mkError "ERR" (ge_text e) "" \/ ge_as e = Some (Some w0))
    end /\
    let '(a, stack) := popStackLocked name (stepStack r) in
    if suppressed r || sealed r then r' = set_stack r stack
    else addStepLocked (mkStepBuf name (as_spanID a) ms dur (match err with Some _ => StepStatusError | None => StepStatusOK end)
           (as_downstream a) w) (set_stack r stack, c1) = (r', c').
Proof.
  unfold closeStep. destruct err as [e|]; simpl.
  - pose proof (step_error_spec e c) as He. destruct (step_error e c) as [[w c1]|]; [|done]. simpl.
    destruct (popStackLocked name (stepStack r)) as [a stack]. intros H. exists (Some w), c1.
    split; [by exists w|]. simpl in H. destruct (suppressed r || sealed r); by simplify_eq.
  - destruct (popStackLocked name (stepStack r)) as [a stack]. intros H. exists None, c. split; [done|].
    simpl in H. destruct (suppressed r || sealed r); by simplify_eq.
Qed.

Lemma life_op o r c r' c' : life i r -> run_op o (r, c) = Some (r', c') -> life i r'.
Proof.
  intros L. destruct o; simpl.
  - intros [= <- _]. by apply (life_frame r).
  - intros H. apply closeStep_inv in H as (w & c1 & _ & H).
    destruct (popStackLocked name (stepStack r)) as [a stack].
    assert (life i (set_stack r stack)) as L' by by apply (life_frame r).
    destruct (suppressed r || sealed r); [by subst|]. by eapply life_addStep.
  - intros [= <- _]. unfold rememberPanicStep. case_if; [|done]. by apply (life_frame r).
  - destruct err as [e|]; [|by intros [= <- _]].
    case_if; [by intros [= <- _]|]. case_if; [by intros [= <- _]|]. case_if; [by intros [= <- _]|].
    case_if; [by intros [= <- _]|]. pose proof (life_recordError (e_Code e) (e_Reason e) _ L) as L'.
    case_if; intros [= <- _]; [|done]. by apply (life_frame (recordErrorLocked (e_Code e) (e_Reason e) r)).
  - intros [= <- _]. unfold Suppress. case_if; [done|]. destruct L as [H1 H2 H3 H4 H5]. split; simpl; try done.
    + subst i. destruct Hi as (L1 & L2 & L3). unfold bounded, within. simpl. lia.
    + by split; constructor.
  - case_if; [by intros [= <- _]|].
    destruct err as [e|]; intros [= H]; (eapply life_addLog; [exact H|]); [by apply life_recordError|done].
  - intros [= <- _]. unfold SetField. case_if; [done|]. case_if; [done|]. by apply (life_frame r).
  - intros [= <- _]. unfold SetHTTPStatus. case_if; [done|]. by apply (life_frame r).
  - intros [= <- _]. unfold SetHTTPRoute. case_if; [done|]. case_if; [done|]. by apply (life_frame r).
  - intros [= <- _]. unfold RecordOutgoingSpan. case_if; [done|]. case_if; [done|].
    destruct (last (stepStack r)); [|done]. by apply (life_frame r).
Qed.

Lemma life_ops l c r' c' : run_ops l (newRequest i, c) = Some (r', c') -> life i r'.
Proof.
  intros H. eapply (run_ops_ind (life i) (fun _ => True)); [|apply life_new| |exact H].
  - intros o r c1 r1 c2 L _ Ho. by eapply life_op.
  - by apply Forall_true.
Qed.

(** ** Operations whose arguments the schema allows *)

Definition active_good (a : activeStep) : Prop :=
  as_name a <> "" /\ hex16_opt (as_spanID a) = true /\ 0 <= as_startMS a /\
  (as_downstream a <> None -> as_spanID a <> "").

Definition level_ok (s : string) : bool := String.eqb s "info" || String.eqb s "warn" || String.eqb s "error".

Definition op_good (o : op) : Prop :=
  match o with
  | OPush name _ ms => name <> "" /\ 0 <= ms
  | OClose name ms dur err =>
    name <> "" /\ 0 <= ms /\ 0 <= dur /\
    match err with Some e => match ge_as e with Some (Some w) => e_Code w <> "" | _ => True end | None => True end
  | OLog now level _ _ _ => id_tsStart i <= now /\ level_ok level = true
  | OSpan span _ _ => hex16_opt span = true
  | _ => True
  end.

Record conf (r : request) : Prop := {
  cf_stack : Forall active_good (stepStack r);
  cf_steps : Forall (fun s => step_ok (event_step s) = true) (steps r);
  cf_logs : Forall (fun l => log_ok (event_log l) = true) (logs r);
  cf_anchor : anchorStep r = "" <-> anchorCode r = ""
}.

Lemma popStack_Forall (P : activeStep -> Prop) name stack : Forall P stack -> P (mkActive name "" None 0 0) ->
  P (popStackLocked name stack).1 /\ Forall P (popStackLocked name stack).2.
Proof.
  intros Hs Hd. unfold popStackLocked. destruct (last stack) as [top|] eqn:El; [|done].
  apply last_Some in El as [l ->]. apply Forall_app in Hs as [Hl Ht]. inversion Ht; subst.
  case_if; [by rewrite removelast_last|].
  pose proof (remove_first_spec (fun a => String.eqb (as_name a) name) (rev (l ++ [top]))) as Hr.
  assert (Forall P (rev (l ++ [top]))) as Hrev.
  { rewrite <- Permutation_rev. by apply Forall_app. }
  destruct (remove_first _ _) as [[x rest]|]; simpl.
  - destruct Hr as (_ & Hp & _). rewrite Hp in Hrev. inversion Hrev; subst. split; [done|].
    by rewrite <- Permutation_rev.
  - split; [done|]. by apply Forall_app.
Qed.

Lemma sublist_Forall {A} (P : A -> Prop) l1 l2 : sublist l1 l2 -> Forall P l2 -> Forall P l1.
Proof. intros Hs Hf. rewrite Forall_forall in *. intros x Hx. apply Hf. by eapply elem_of_sublist. Qed.

Lemma conf_addStep s r c r' c' : addStepLocked s (r, c) = (r', c') -> life i r -> conf r ->
  step_ok (event_step s) = true -> (forall e, sb_err s = Some e -> e_Code e <> "") -> conf r'.
Proof.
  intros E [H1 H2 H3 H4 H5] [C1 C2 C3 C4] Hs He.
  destruct (addStep_life s r c) as (r1 & c1 & E1 & F); [congruence|done|done|].
  rewrite E in E1. simplify_eq. destruct F as (_ & _ & _ & F4 & _ & _ & _ & _ & _ & F5 & F6 & F7 & F8). split.
  - by rewrite F4.
  - eapply sublist_Forall; [exact F5|]. apply Forall_app. by split; [|constructor].
  - by eapply sublist_Forall.
  - destruct (decide (anchorStep r = "")) as [Ha|Ha].
    + destruct (F8 Ha) as [[-> ->]|(e & Hse & -> & ->)]; [done|].
      assert (sb_name s <> "") as Hn.
      { unfold step_ok in Hs. simpl in Hs. bool_prop. intros Hn.
        repeat match goal with H : (_ && _)%bool = true |- _ => apply andb_true_iff in H as [? ?] end. bool_prop. done. }
      specialize (He _ Hse). split; intros; congruence.
    + destruct (F7 Ha) as (-> & -> & _). done.
Qed.
Lemma conf_addLog l r c r' c' : addLogLocked l (r, c) = (r', c') -> r_id r = i -> bounded r -> conf r ->
  log_ok (event_log l) = true -> conf r'.
Proof.
  intros E H1 H2 [C1 C2 C3 C4] Hl.
  destruct (addLog_life l r c) as (r1 & c1 & E1 & F); [congruence|done|].
  rewrite E in E1. simplify_eq. destruct F as (_ & _ & F3 & _ & _ & _ & _ & F4 & F5 & F6 & F7). split.
  - by rewrite F3.
  - by eapply sublist_Forall.
  - eapply sublist_Forall; [exact F5|]. apply Forall_app. by split; [|constructor].
  - by rewrite F6, F7.
Qed.

Lemma conf_frame r r' : stepStack r' = stepStack r -> steps r' = steps r -> logs r' = logs r ->
  anchorStep r' = anchorStep r -> anchorCode r' = anchorCode r -> conf r -> conf r'.
Proof. intros E1 E2 E3 E4 E5 [C1 C2 C3 C4]. split; congruence. Qed.

Lemma conf_recordError code reason r : conf r -> conf (recordErrorLocked code reason r).
Proof. intros C. destruct (recordError_spec code reason r) as (es & -> & _). by apply (conf_frame r). Qed.

Lemma top_name_good r none : conf r -> none <> "" -> top_name (stepStack r) none <> "".
Proof.
  intros [C _ _ _] Hn. unfold top_name. destruct (last (stepStack r)) as [a|] eqn:El; [|done].
  apply last_Some in El as [l El]. rewrite El in C. apply Forall_app in C as [_ C]. inversion C; subst.
  by destruct H1.
Qed.

Lemma conf_set_anchor r step code p : conf r -> step <> "" -> code <> "" -> conf (set_anchor r step code p).
Proof. intros [C1 C2 C3 C4] Hs Hc. split; simpl; try done. Qed.

Lemma step_ok_intro name span ms dur status d w :
  name <> "" -> hex16_opt span = true -> 0 <= ms -> 0 <= dur -> (status = StepStatusOK \/ status = StepStatusError) ->
  (d <> None -> span <> "") -> step_ok (event_step (mkStepBuf name span ms dur status d w)) = true.
Proof.
  intros Hn Hh Hms Hd Hst Hsp. unfold step_ok. simpl. rewrite Hh.
  apply String.eqb_neq in Hn as ->. rewrite (proj2 (Z.leb_le _ _) Hms), (proj2 (Z.leb_le _ _) Hd). simpl.
  replace (String.eqb status StepStatusOK || String.eqb status StepStatusError)%bool with true by (by destruct Hst as [-> | ->]).
  simpl. destruct d; [|done]. apply negb_true_iff, String.eqb_neq, Hsp. done.
Qed.

Lemma conf_op o r c r' c' : life i r -> conf r -> op_good o -> run_op o (r, c) = Some (r', c') -> conf r'.
Proof.
  intros L C G. pose proof L as [H1 H2 H3 H4 H5]. destruct o; simpl in *.
  - intros [= <- _]. destruct C as [C1 C2 C3 C4]. destruct G. split; simpl; try done.
    apply Forall_app. split; [done|]. constructor; [|constructor]. by split.
  - intros H. apply closeStep_inv in H as (w & c1 & Hw & H). destruct G as (G1 & G2 & G3 & G4).
    destruct (popStack_Forall active_good name (stepStack r)) as [Ha Hst]; [apply C|by repeat split|].
    destruct (popStackLocked name (stepStack r)) as [a stack]. simpl in Ha, Hst.
    assert (conf (set_stack r stack)) as C' by (destruct C as [C1 C2 C3 C4]; by split).
    destruct (suppressed r || sealed r); [by subst|].
    eapply conf_addStep; [exact H|by apply (life_frame r)|exact C'| |].
    + destruct Ha as (_ & Ha2 & _ & Ha4). apply step_ok_intro; try done. by destruct err; [right|left].
    + intros e He. simpl in He. destruct err as [g|]; [|by subst].
      destruct Hw as (w0 & -> & Hw). simplify_eq. destruct Hw as [-> | Hw]; [done|]. by rewrite Hw in G4.
  - intros [= <- _]. unfold rememberPanicStep. case_if; [|done]. by apply (conf_frame r).
  - destruct err as [e|]; [|by intros [= <- _]].
    case_if; [by intros [= <- _]|]. case_if; [by intros [= <- _]|]. case_if; [by intros [= <- _]|].
    case_if; [by intros [= <- _]|]. pose proof (conf_recordError (e_Code e) (e_Reason e) _ C) as C'.
    case_if; intros [= <- _]; [|done]. bool_prop. apply conf_set_anchor; [done| |done].
    by apply top_name_good.
  - intros [= <- _]. unfold Suppress. case_if; [done|]. destruct C as [C1 C2 C3 C4]. by split; simpl.
  - case_if; [by intros [= <- _]|]. destruct G as [G1 G2].
    assert (forall m n, log_ok (event_log (mkLogBuf (Z.quot (TimeSub now (id_tsStart i)) 1000000) level m n
      (top_name (stepStack r) ""))) = true) as Hlog.
    { intros m n. unfold log_ok. simpl. apply andb_true_iff. split; [|done]. apply Z.leb_le, Z.quot_pos; [|lia].
      unfold TimeSub, min_int64, max_int64. lia. }
    destruct err as [e|]; intros [= H].
    + eapply conf_addLog; [exact H| | |by apply conf_recordError|].
      * by destruct (life_recordError (e_Code e) (e_Reason e) _ L).
      * by destruct (life_recordError (e_Code e) (e_Reason e) _ L).
      * destruct (life_recordError (e_Code e) (e_Reason e) _ L) as [-> _ _ _ _]. apply Hlog.
    + eapply conf_addLog; [exact H|done|done|done|]. rewrite H1. apply Hlog.
  - intros [= <- _]. unfold SetField. case_if; [done|]. case_if; [done|]. by apply (conf_frame r).
  - intros [= <- _]. unfold SetHTTPStatus. case_if; [done|]. by apply (conf_frame r).
  - intros [= <- _]. unfold SetHTTPRoute. case_if; [done|]. case_if; [done|]. by apply (conf_frame r).
  - intros [= <- _]. unfold RecordOutgoingSpan. case_if; [done|]. case_if; [done|].
    destruct (last (stepStack r)) as [top|] eqn:El; [|done]. apply last_Some in El as [l El].
    destruct C as [C1 C2 C3 C4]. split; simpl; try done. rewrite El in *. rewrite removelast_last.
    apply Forall_app in C1 as [Cl Ct]. inversion Ct as [|? ? (T1 & T2 & T3 & T4) _]; subst.
    apply Forall_app. split; [done|]. constructor; [|constructor]. bool_prop. by repeat split.
Qed.

Lemma life_conf_ops l c r' c' : Forall op_good l -> run_ops l (newRequest i, c) = Some (r', c') ->
  life i r' /\ conf r'.
Proof.
  intros Hl H. eapply (run_ops_ind (fun r => life i r /\ conf r) op_good); [| |exact Hl|exact H].
  - intros o r c1 r1 c2 [L C] G Ho. split; [by eapply life_op|by eapply conf_op].
  - split; [by apply life_new|]. by split; simpl.
Qed.

(** ** What the operations leave alone *)

(** The parts of a request that only the calls made for them change. *)
Definition kept (r r' : request) : Prop :=
  r_id r' = r_id r /\ sealed r' = sealed r /\ suppressed r' = suppressed r /\ fields r' = fields r.

#[export] Instance kept_refl : Reflexive kept.
Proof. by intros r. Qed.
#[export] Instance kept_trans : Transitive kept.
Proof. intros r1 r2 r3 (A1 & A2 & A3 & A4) (B1 & B2 & B3 & B4). unfold kept. by rewrite B1, B2, B3, B4, A1, A2, A3, A4. Qed.

Lemma kept_addStep s r c r' c' : addStepLocked s (r, c) = (r', c') -> kept r r'.
Proof.
  intros E. destruct (addStep_spec s r c) as (r1 & c1 & E1 & Hs & _). rewrite E in E1. simplify_eq.
  destruct (noteStepError_spec s r) as (es & a & cd & p & En & _). rewrite En in Hs.
  unfold kept. by apply sheds_frame in Hs as (-> & _ & -> & _ & -> & -> & _).
Qed.

Lemma kept_addLog l r c r' c' : addLogLocked l (r, c) = (r', c') -> kept r r'.
Proof.
  intros E. destruct (addLog_spec l r c) as (r1 & c1 & E1 & Hs). rewrite E in E1. simplify_eq.
  unfold kept. by apply sheds_frame in Hs as (-> & _ & -> & _ & -> & -> & _).
Qed.

Lemma kept_recordError code reason r : kept r (recordErrorLocked code reason r).
Proof. by destruct (recordError_spec code reason r) as (es & -> & _). Qed.

(** The fields after an operation. *)
Definition fields_after (o : op) (r : request) : gmap string value :=
  match o with
  | OSetField key v => fields (SetField key v r)
  | OHTTPStatus status => fields (SetHTTPStatus status r)
  | OHTTPRoute route => fields (SetHTTPRoute route r)
  | _ => fields r
  end.

Lemma op_frame o r c r' c' : run_op o (r, c) = Some (r', c') ->
  r_id r' = r_id r /\ sealed r' = sealed r /\ fields r' = fields_after o r /\
  suppressed r' = match o with OSuppress => true | _ => suppressed r end.
Proof.
  assert (forall r', kept r r' -> r_id r' = r_id r /\ sealed r' = sealed r /\ fields r' = fields r /\ suppressed r' = suppressed r) as K.
  { by intros r1 (-> & -> & -> & ->). }
  destruct o; cbn [run_op fields_after].
  - intros [= <- _]. done.
  - intros E. apply K. apply closeStep_inv in E as (w & c1 & _ & E). destruct (popStackLocked name (stepStack r)) as [a stack].
    destruct (suppressed r || sealed r); [by subst|]. by apply kept_addStep in E.
  - intros [= <- _]. apply K. unfold rememberPanicStep. by case_if.
  - intros E. apply K. revert E. simpl. destruct err as [e|]; [|by intros [= <- _]].
    case_if; [by intros [= <- _]|]. case_if; [by intros [= <- _]|]. case_if; [by intros [= <- _]|].
    case_if; [by intros [= <- _]|]. pose proof (kept_recordError (e_Code e) (e_Reason e) r) as He.
    case_if; intros [= <- _]; [|exact He]. destruct He as (A1 & A2 & A3 & A4). by split_and!.
  - intros [= <- _]. unfold Suppress. destruct (suppressed r) eqn:E; done.
  - intros E. apply K. revert E. unfold appendLog. case_if; [by intros [= <- _]|]. destruct err as [e|]; intros [= Ha]; apply kept_addLog in Ha; [|done].
    by etransitivity; [apply kept_recordError|].
  - intros [= <- _]. unfold SetField. case_if; [done|]. by case_if.
  - intros [= <- _]. unfold SetHTTPStatus. by case_if.
  - intros [= <- _]. unfold SetHTTPRoute. case_if; [done|]. by case_if.
  - intros [= <- _]. apply K. unfold RecordOutgoingSpan. case_if; [done|]. case_if; [done|].
    by destruct (last (stepStack r)).
Qed.

Lemma kept_flush now l : forall r c r' c', fold_left (flush_one now) l (r, c) = (r', c') -> kept r r'.
Proof.
  induction l as [|a l IH]; intros r c r' c'; [by intros [= <- _]|]. cbn [fold_left].
  destruct (flush_one now (r, c) a) as [r1 c1] eqn:E. intros H%IH. unfold flush_one in E. apply kept_addStep in E. by etransitivity.
Qed.

Lemma kept_flushActive now r c r' c' : flushActiveStepsLocked now (r, c) = (r', c') -> kept r r'.
Proof.
  unfold flushActiveStepsLocked. destruct (fold_left (flush_one now) (stepStack r) (r, c)) as [r1 c1] eqn:E.
  intros [= <- _]. by apply kept_flush in E.
Qed.

Lemma kept_mark status code r : kept r (markLifecycleLocked status code r).
Proof. unfold markLifecycleLocked. repeat case_match; done. Qed.

Lemma kept_lifecycle now k r c r' c' : applyLifecycleLocked now k (r, c) = (r', c') -> kept r r'.
Proof.
  unfold applyLifecycleLocked. destruct (suppressed r) eqn:Es; [by intros [= <- _]|].
  destruct k; [by intros [= <- _]| | |]; intros H%kept_flushActive; (etransitivity; [|exact H]).
  - etransitivity; [|apply kept_recordError]. case_match; [apply kept_mark|done].
  - case_match; [apply kept_mark|done].
  - case_match; [apply kept_mark|done].
Qed.

(** What an event takes over from its request. *)
Lemma seal_takes cfg k mark tsEnd r c ev s : seal cfg k mark tsEnd (r, c) = (Some ev, s) ->
  sealed r = false /\ ev_EventID ev = id_eventID (r_id r) /\ ev_TraceID ev = id_traceID (r_id r) /\
  ev_SpanID ev = id_spanID (r_id r) /\ ev_ParentSpanID ev = id_parentSpanID (r_id r) /\
  (cfg_Redactor cfg = None -> ev_Fields ev = fields r).
Proof.
  unfold seal. destruct (sealed r) eqn:Es; [done|]. destruct (applyLifecycleLocked mark k (r, c)) as [r1 c1] eqn:E.
  apply kept_lifecycle in E as (E1 & E2 & E3 & E4). intros [= <- _]. rewrite <- E1, <- E4.
  assert (forall ev, ev_EventID (redact cfg ev) = ev_EventID ev /\ ev_TraceID (redact cfg ev) = ev_TraceID ev /\
    ev_SpanID (redact cfg ev) = ev_SpanID ev /\ ev_ParentSpanID (redact cfg ev) = ev_ParentSpanID ev /\
    (cfg_Redactor cfg = None -> ev_Fields (redact cfg ev) = ev_Fields ev)) as Hr.
  { intros ev0. unfold redact. destruct (cfg_Redactor cfg); [by case_decide|done]. }
  destruct (Hr (assembleLocked cfg tsEnd r1)) as (-> & -> & -> & -> & H5).
  unfold assembleLocked in *. cbv zeta in *. split; [done|]. repeat case_if; split_and!; done.
Qed.

Lemma seal_suppressed cfg k mark tsEnd r c ev s : seal cfg k mark tsEnd (r, c) = (Some ev, s) -> suppressed r = true ->
  ev_Status ev = StatusSuppressed.
Proof.
  unfold seal. destruct (sealed r); [done|]. destruct (applyLifecycleLocked mark k (r, c)) as [r1 c1] eqn:E.
  apply kept_lifecycle in E as (_ & _ & E3 & _). intros [= <- _] Hs. rewrite Hs in E3.
  assert (forall ev, ev_Status (redact cfg ev) = ev_Status ev) as -> by (intros ev0; unfold redact; destruct (cfg_Redactor cfg); [by case_decide|done]).
  unfold assembleLocked, snapshotStatusLocked. rewrite E3. reflexivity.
Qed.

(** ** Sealing *)

(** An open request whose final status may be set: then it is a failure with an anchor. *)
Record ending (r : request) : Prop := {
  en_id : r_id r = i;
  en_bounded : bounded r;
  en_codes : codes_ok r;
  en_final : finalStatus r = "" \/ IsPriority (finalStatus r) = true /\ anchorStep r <> "";
  en_conf : conf r
}.

Lemma ending_addStep s r c r' c' : addStepLocked s (r, c) = (r', c') -> ending r ->
  step_ok (event_step s) = true -> sb_err s = None ->
  ending r' /\ stepStack r' = stepStack r /\ suppressed r' = suppressed r.
Proof.
  intros E [H1 H2 H3 H4 C] Hs He.
  destruct (addStep_life s r c) as (r1 & c1 & E1 & F); [congruence|done|done|].
  rewrite E in E1. injection E1 as <- <-.
  destruct F as (F1 & F2 & F3 & F4 & F5 & _ & F6 & _ & _ & G1 & G2 & G3 & G4).
  assert (anchorStep r' = anchorStep r /\ anchorCode r' = anchorCode r) as [Ea Ec].
  { destruct (decide (anchorStep r = "")) as [Ha|Ha].
    - destruct (G4 Ha) as [?|(e & Hse & _)]; [done|congruence].
    - by destruct (G3 Ha) as (? & ? & _). }
  split; [|done]. destruct C as [C1 C2 C3 C4]. split; [congruence|done|done|by rewrite F6, Ea|].
  split.
  - by rewrite F4.
  - eapply sublist_Forall; [exact G1|]. apply Forall_app. by split; [|constructor].
  - by eapply sublist_Forall.
  - by rewrite Ea, Ec.
Qed.

Lemma ending_flush now l : forall r c, ending r -> Forall active_good l ->
  exists r' c', fold_left (flush_one now) l (r, c) = (r', c') /\ ending r' /\ suppressed r' = suppressed r.
Proof.
  induction l as [|a l IH]; intros r c He Hl; [by exists r, c|].
  inversion Hl as [|? ? (A1 & A2 & A3 & A4) Hl']; subst. cbn [fold_left]. unfold flush_one at 2. cbv zeta.
  set (dur := Z.quot _ _). set (d := if dur <? 0 then 0 else dur).
  assert (0 <= d) as Hd by (unfold d; destruct (Z.ltb_spec dur 0); lia).
  destruct (addStepLocked _ (r, c)) as [r1 c1] eqn:E.
  destruct (ending_addStep _ _ _ _ _ E He) as (He1 & Hst & Hsup); [apply step_ok_intro; auto|done|].
  destruct (IH r1 c1 He1 Hl') as (r2 & c2 & Hf & He2 & Hs2). exists r2, c2. split; [done|split; [done|congruence]].
Qed.

Lemma ending_flushActive now r c : ending r -> exists r' c',
  flushActiveStepsLocked now (r, c) = (r', c') /\ ending r' /\ suppressed r' = suppressed r.
Proof.
  intros He. destruct (ending_flush now (stepStack r) r c He (cf_stack _ (en_conf _ He))) as (r1 & c1 & Hf & He1 & Hs1).
  unfold flushActiveStepsLocked. rewrite Hf. eexists _, c1. split; [done|split; [|done]].
  destruct He1 as [H1 H2 H3 H4 [C1 C2 C3 C4]]. split; try done.
Qed.

Lemma ending_mark status code r : ending r -> suppressed r = false -> IsPriority status = true -> code <> "" ->
  ending (markLifecycleLocked status code r) /\ suppressed (markLifecycleLocked status code r) = false.
Proof.
  intros [H1 H2 H3 H4 C] Hs Hp Hc. unfold markLifecycleLocked. rewrite Hs.
  assert (activeStepLocked r <> "") as Ha by by apply top_name_good.
  assert (conf (set_final r status)) as C' by by apply (conf_frame r).
  case_if.
  - apply andb_true_iff in E as [_ E]. apply negb_true_iff, String.eqb_neq in E. simpl in E.
    split; [|done]. split; try done; [right; by split|].
    apply conf_set_anchor; [|done|done]. by apply (conf_frame r).
  - split; [|done]. split; try done; [right; by split|]. by apply conf_set_anchor.
Qed.

Lemma ending_recordError code reason r : ending r -> ending (recordErrorLocked code reason r) /\
  suppressed (recordErrorLocked code reason r) = suppressed r.
Proof.
  intros [H1 H2 H3 H4 C]. pose proof (conf_recordError code reason r C) as C'.
  destruct (recordError_spec code reason r) as (es & E & Hes & _). rewrite E in *.
  split; [|done]. split; try done. by apply Hes.
Qed.

Lemma ending_final status r : ending r -> IsPriority status = true -> anchorStep r <> "" -> ending (set_final r status).
Proof. intros [H1 H2 H3 H4 C] Hp Ha. split; try done; [by right|by apply (conf_frame r)]. Qed.

(** Names the request after the lifecycle's own anchor was set or not. *)
Ltac name_marked r1 :=
  match goal with |- context [if ?b then markLifecycleLocked ?x ?y ?r else ?z] =>
    set (r1 := if b then markLifecycleLocked x y r else z) end.

Lemma applyLifecycle_ending now k r c : ending r -> exists r' c',
  applyLifecycleLocked now k (r, c) = (r', c') /\ ending r' /\ suppressed r' = suppressed r.
Proof.
  intros He. unfold applyLifecycleLocked. destruct (suppressed r) eqn:Es; [by exists r, c|]. destruct k.
  - by exists r, c.
  - cbv zeta. name_marked r1.
    assert (ending r1 /\ suppressed r1 = false) as [He1 Hs1].
    { unfold r1. destruct (String.eqb_spec (anchorStep r) "") as [Ha|Ha]; simpl; [by apply ending_mark|].
      case_if; [by apply ending_mark|]. split; [by apply ending_final|done]. }
    destruct (ending_recordError CodePanic "runtime panic recovered" r1 He1) as [He2 Hs2].
    destruct (ending_flushActive now _ c He2) as (r' & c' & Hf & He' & Hs').
    exists r', c'. split; [done|split; [done|congruence]].
  - name_marked r1.
    assert (ending r1 /\ suppressed r1 = false) as [He1 Hs1].
    { unfold r1. case_if; [by apply ending_mark|done]. }
    destruct (ending_flushActive now _ c He1) as (r' & c' & Hf & He' & Hs').
    exists r', c'. split; [done|split; [done|congruence]].
  - name_marked r1.
    assert (ending r1 /\ suppressed r1 = false) as [He1 Hs1].
    { unfold r1. destruct (String.eqb_spec (anchorStep r) "") as [Ha|Ha]; [by apply ending_mark|].
      split; [by apply ending_final|done]. }
    destruct (ending_flushActive now _ c He1) as (r' & c' & Hf & He' & Hs').
    exists r', c'. split; [done|split; [done|congruence]].
Qed.
End Life.

(** ** What a request promises *)

Lemma ending_of_life i r : life i r -> conf r -> ending i r.
Proof. intros [H1 H2 H3 H4 H5] C. split; try done. by left. Qed.

(** The schema's demands on what [Begin] and [Init] were given. *)
Definition begin_good (cfg : SdkConfig) (i : identity) (tsEnd : Time) : bool :=
  negb (String.eqb (cfg_Service cfg) "") && negb (String.eqb (cfg_Env cfg) "") &&
  hex32 (id_traceID i) && hex16_opt (id_spanID i) && hex16_opt (id_parentSpanID i) && (id_tsStart i <=? tsEnd).

Lemma snapshot_anchored i r : ending i r ->
  match event_anchor r with Some a => anchor_ok a | None => negb (IsPriority (snapshotStatusLocked r)) end = true /\
  status_enum (snapshotStatusLocked r) = true.
Proof.
  intros [_ _ _ H4 [_ _ _ C4]]. unfold event_anchor, snapshotStatusLocked, anchor_ok, status_enum.
  destruct (String.eqb_spec (anchorStep r) "") as [Ha|Ha], (String.eqb_spec (anchorCode r) "") as [Hc|Hc];
    simpl; try by tauto.
  - destruct (suppressed r); [done|]. destruct H4 as [-> | [_ ?]]; [done|congruence].
  - apply String.eqb_neq in Ha as ->, Hc as ->. split; [done|]. destruct (suppressed r); [done|].
    destruct H4 as [-> | [Hp _]]; [done|]. case_if; [by rewrite Hp|done].
Qed.

Lemma forallb_map {A B} (p : B -> bool) (f : A -> B) (l : list A) :
  Forall (fun x => p (f x) = true) l -> forallb p (f <$> l) = true.
Proof. induction 1 as [|x l Hx _ IH]; [done|]. rewrite fmap_cons. simpl. by rewrite Hx. Qed.

Lemma assemble_conforms cfg i r tsEnd : ending i r -> begin_good cfg i tsEnd = true ->
  conforms (assembleLocked cfg tsEnd r) = true.
Proof.
  intros En Hg. destruct (snapshot_anchored i r En) as [Han Hst]. pose proof (en_conf _ _ En) as [_ C2 C3 _].
  unfold begin_good in Hg. apply andb_true_iff in Hg as [Hg Hts]. apply andb_true_iff in Hg as [Hg Hpar].
  apply andb_true_iff in Hg as [Hg Hspan]. apply andb_true_iff in Hg as [Hg Htr]. apply andb_true_iff in Hg as [Hsv Hev].
  apply Z.leb_le in Hts.
  assert ((0 <=? Z.quot (TimeSub tsEnd (id_tsStart i)) 1000000) = true) as Hdur.
  { apply Z.leb_le, Z.quot_pos; [|lia]. unfold TimeSub, min_int64, max_int64. lia. }
  assert (forall a ss ls es fs st, status_enum st = true ->
    match a with Some x => anchor_ok x | None => negb (IsPriority st) end = true ->
    forallb step_ok ss = true -> forallb log_ok ls = true ->
    conforms (mkEvent "2.0" (id_eventID i) (id_tsStart i) tsEnd (Z.quot (TimeSub tsEnd (id_tsStart i)) 1000000) "http"
      (cfg_Service cfg) (cfg_Env cfg) (cfg_Version cfg) (id_traceID i) (id_spanID i) (id_parentSpanID i)
      st a ss ls fs es) = true) as Hgo.
  { intros a ss ls es fs st H1 H2 H3 H4. unfold conforms.
    cbn [ev_SchemaVersion ev_DurationMS ev_Kind ev_Service ev_Env ev_TraceID ev_SpanID ev_ParentSpanID ev_Status ev_Anchor ev_Steps ev_Logs].
    by rewrite Hdur, Hsv, Hev, Htr, Hspan, Hpar, H1, H2, H3, H4. }
  unfold assembleLocked. rewrite (en_id _ _ En). case_if; [|case_if]; apply Hgo; try done.
  - apply String.eqb_eq in E as ->. done.
  - by apply forallb_map.
  - by apply forallb_map.
Qed.

Lemma redact_conforms cfg ev : conforms (redact cfg ev) = conforms ev.
Proof. unfold redact. destruct (cfg_Redactor cfg); [|done]. by destruct (decide _). Qed.

(** C25: What the SDK emits the server accepts.  Whatever a request went through, if its
    steps were named, its error codes were not empty, its ids had the right shape and its
    clock did not run backwards, then sealing it by any lifecycle yields an event that
    satisfies the schema (a failed status always has an anchor), and only one: sealing
    again yields none and counts a late completion. *)
Theorem finalize_conforms cfg i l c r c' k mark tsEnd : limits_ok i -> begin_good cfg i tsEnd = true ->
  Forall (op_good i) l -> run_ops l (newRequest i, c) = Some (r, c') ->
  exists ev r' c'', seal cfg k mark tsEnd (r, c') = (Some ev, (r', c'')) /\ conforms ev = true /\
    forall k2 mark2 end2, seal cfg k2 mark2 end2 (r', c'') = (None, (r', bump CLateAfterEmit 1 c'')).
Proof.
  intros Hl Hg Hops Hrun. destruct (life_conf_ops i Hl l c r c' Hops Hrun) as [L C].
  destruct (applyLifecycle_ending i Hl mark k r c' (ending_of_life _ _ L C)) as (r1 & c1 & E1 & En1 & _).
  unfold seal at 1. rewrite (lf_open _ _ L), E1. eexists _, _, c1. split; [done|split].
  - rewrite redact_conforms. by eapply assemble_conforms.
  - intros k2 mark2 end2. done.
Qed.

(** A request never outgrows its limits: whatever the application calls, with whatever
    arguments, the byte count is the size of the buffered steps and logs, it stays within
    [MaxBufferBytes], steps and logs stay within their caps, and the error list names each
    code once. *)
Theorem request_bounded i l c r c' : limits_ok i -> run_ops l (newRequest i, c) = Some (r, c') ->
  bufBytes r = steps_bytes (steps r) + logs_bytes (logs r) /\ bufBytes r <= id_maxBytes i /\
  Z.of_nat (length (steps r)) <= id_maxSteps i /\ Z.of_nat (length (logs r)) <= id_maxLogs i /\
  NoDup (ee_code <$> errs r).
Proof.
  intros Hl Hrun. destruct (life_ops i Hl _ _ _ _ Hrun) as [Hid Hb [Hn _] _ _].
  unfold bounded, within in Hb. rewrite Hid in Hb. tauto.
Qed.

(** A failing step is not lost.  Closing a step with an error anchors the request if it
    was not, and the step is the last one buffered, unless the request fell back to its
    header or the buffer is full of steps that may not make way: failed ones, and ones
    that bear the anchor's name. *)
Theorem failing_step_recorded i name ms dur e r c r' c' : limits_ok i -> life i r -> suppressed r = false ->
  closeStep name ms dur (Some e) (r, c) = Some (r', c') ->
  (exists kept s, steps r' = kept ++ [s] /\ sb_name s = name /\ sb_status s = StepStatusError /\ sb_err s <> None) \/
  headerOnly r' = true \/ steps_full r'.
Proof.
  intros Hl L Hs H. apply closeStep_inv in H as (w & c1 & Hw & H). destruct Hw as (w0 & -> & _).
  destruct (popStackLocked name (stepStack r)) as [a stack]. rewrite Hs, (lf_open _ _ L) in H. simpl in H.
  destruct (addStep_spec (mkStepBuf name (as_spanID a) ms dur StepStatusError (as_downstream a) (Some w0))
    (set_stack r stack) c1) as (r1 & c2 & E & _ & Hcase).
  rewrite H in E. injection E as <- <-. destruct Hcase as [[kept Hk]|[?|[?|?]]]; [left|done|by right; left|by right; right].
  eexists kept, _. by split; [exact Hk|].
Qed.

Lemma addStep_anchor i s r c r' c' : limits_ok i -> life i r -> anchorStep r <> "" ->
  addStepLocked s (r, c) = (r', c') -> anchorStep r' = anchorStep r /\ anchorCode r' = anchorCode r.
Proof.
  intros Hl [H1 H2 H3 _ _] Ha E. destruct (addStep_life s r c) as (r1 & c1 & E1 & F); [congruence|done|done|].
  rewrite E in E1. injection E1 as <- <-. destruct F as (_ & _ & _ & _ & _ & _ & _ & _ & _ & _ & _ & F & _).
  by destruct (F Ha) as (? & ? & _).
Qed.

Lemma addLog_anchor l r c r' c' : addLogLocked l (r, c) = (r', c') ->
  anchorStep r' = anchorStep r /\ anchorCode r' = anchorCode r.
Proof.
  intros E. destruct (addLog_spec l r c) as (r1 & c1 & E1 & Hs). rewrite E in E1. injection E1 as <- <-.
  by destruct (sheds_frame _ _ _ _ Hs) as (_ & _ & _ & _ & _ & _ & _ & ? & ? & _).
Qed.

(** The first failure stays the anchor: no operation of a running request but
    [Suppress] changes an anchor once it is set. *)
Theorem anchor_is_first i o r c r' c' : limits_ok i -> life i r -> o <> OSuppress -> anchorStep r <> "" ->
  run_op o (r, c) = Some (r', c') -> anchorStep r' = anchorStep r /\ anchorCode r' = anchorCode r.
Proof.
  intros Hl L Hne Ha. pose proof L as [H1 H2 H3 H4 H5]. destruct o; simpl; try done.
  - by intros [= <- _].
  - intros H. apply closeStep_inv in H as (w & c1 & _ & H).
    destruct (popStackLocked name (stepStack r)) as [a stack].
    destruct (suppressed r || sealed r); [by subst|].
    refine (addStep_anchor i _ (set_stack r stack) _ _ _ Hl _ Ha H). by apply (life_frame i r).
  - intros [= <- _]. unfold rememberPanicStep. by case_if.
  - destruct err as [e|]; [|by intros [= <- _]].
    case_if; [by intros [= <- _]|]. case_if; [by intros [= <- _]|]. case_if; [by intros [= <- _]|].
    case_if; [by intros [= <- _]|].
    destruct (recordError_spec (e_Code e) (e_Reason e) r) as (es & -> & _). simpl.
    apply String.eqb_neq in Ha as ->. by intros [= <- _].
  - case_if; [by intros [= <- _]|]. destruct err as [e|]; intros [= H]; apply addLog_anchor in H as [-> ->]; [|done].
    by destruct (recordError_spec (e_Code e) (e_Reason e) r) as (es & -> & _).
  - intros [= <- _]. unfold SetField. case_if; [done|]. by case_if.
  - intros [= <- _]. unfold SetHTTPStatus. by case_if.
  - intros [= <- _]. unfold SetHTTPRoute. case_if; [done|]. by case_if.
  - intros [= <- _]. unfold RecordOutgoingSpan. case_if; [done|]. case_if; [done|].
    by destruct (last (stepStack r)).
Qed.

(** ** Panics *)

(** A step around a panic: what the function did before calling it, its name and its clock. *)
Record around := mkAround { lv_before : list op; lv_name : string; lv_start : Time; lv_ms : Z; lv_dur : Z }.

(** Nested steps around a panic, outermost first, and what the innermost function did before
    it panicked. *)
Fixpoint nest (levels : list around) (last : list op) (text : string) (s : st) : option (outcome * st) :=
  match levels with
  | [] => s ← run_ops last s; Some (Panicked text, s)
  | v :: levels => s ← run_ops (lv_before v) s; Step (lv_name v) (lv_start v) (lv_ms v) (lv_dur v) (nest levels last text) s
  end.

(** What happens in a function that neither fails, nor suppresses the request: logs, fields,
    the status and route, outgoing calls, and steps that return without an error. *)
Definition harmless (o : op) : bool :=
  match o with OLog _ _ _ _ _ | OSetField _ _ | OHTTPStatus _ | OHTTPRoute _ | OSpan _ _ _ => true | _ => false end.

Inductive uneventful : list op -> Prop :=
| un_nil : uneventful []
| un_op o l : harmless o = true -> uneventful l -> uneventful (o :: l)
| un_step name t ms ms' dur inner l : uneventful inner -> uneventful l ->
    uneventful (OPush name t ms :: inner ++ OClose name ms' dur None :: l).

Lemma run_ops_none l : fold_left (fun s o => s ← s; run_op o s) l (@None st) = None.
Proof. induction l; auto. Qed.

Lemma run_ops_cons o l s : run_ops (o :: l) s = s ← run_op o s; run_ops l s.
Proof. unfold run_ops. cbn [fold_left mbind option_bind]. destruct (run_op o s) as [s'|]; [done|]. apply run_ops_none. Qed.

Lemma run_ops_app l1 l2 s : run_ops (l1 ++ l2) s = s ← run_ops l1 s; run_ops l2 s.
Proof.
  revert s. induction l1 as [|o l1 IH]; intros s; [done|]. cbn [app]. rewrite !run_ops_cons.
  destruct (run_op o s) as [s'|]; [apply IH|done].
Qed.

(** What uneventful operations leave as it was. *)
Record steady (i : identity) (r r' : request) : Prop := {
  sy_life : life i r';
  sy_sup : suppressed r' = suppressed r;
  sy_anchor : anchorStep r' = anchorStep r;
  sy_hint : panicStepHint r' = panicStepHint r;
  sy_names : as_name <$> stepStack r' = as_name <$> stepStack r
}.

Lemma steady_trans i r1 r2 r3 : steady i r1 r2 -> steady i r2 r3 -> steady i r1 r3.
Proof. intros [_ A2 A3 A4 A5] [B1 B2 B3 B4 B5]. split; [done|congruence..]. Qed.

Lemma names_top (stack : list activeStep) names name : as_name <$> stack = names ++ [name] ->
  exists low a, stack = low ++ [a] /\ as_name a = name /\ as_name <$> low = names.
Proof.
  destruct stack as [|a low _] using rev_ind; intros H; [by destruct names|]. rewrite fmap_app in H. apply app_inj_2 in H as [H1 H2]; [|done].
  injection H2 as H2. by exists low, a.
Qed.

Lemma popStack_named low a : popStackLocked (as_name a) (low ++ [a]) = (a, low).
Proof. unfold popStackLocked. rewrite last_snoc. simpl. by rewrite String.eqb_refl, removelast_last. Qed.

Lemma RecordOutgoingSpan_names span service endpoint r :
  as_name <$> stepStack (RecordOutgoingSpan span service endpoint r) = as_name <$> stepStack r.
Proof.
  unfold RecordOutgoingSpan. case_if; [done|]. case_if; [done|]. destruct (last (stepStack r)) as [top|] eqn:El; [|done].
  apply last_Some in El as [low ->]. rewrite removelast_last. simpl. by rewrite !fmap_app.
Qed.

Lemma harmless_steady i o r c : limits_ok i -> life i r -> harmless o = true -> exists r' c', run_op o (r, c) = Some (r', c') /\ steady i r r'.
Proof.
  intros Hl L Ho. assert (forall r' c', run_op o (r, c) = Some (r', c') -> suppressed r' = suppressed r -> anchorStep r' = anchorStep r ->
    panicStepHint r' = panicStepHint r -> as_name <$> stepStack r' = as_name <$> stepStack r ->
    exists r' c', run_op o (r, c) = Some (r', c') /\ steady i r r') as Hgo.
  { intros r' c' E H1 H2 H3 H4. exists r', c'. split; [done|]. split; try done. by eapply life_op. }
  destruct o; try done; cbn [run_op] in *.
  - destruct (appendLog now level msg err more (r, c)) as [r' c'] eqn:E. pose proof E as E0. unfold appendLog in E.
    assert (forall r1 x, addLogLocked x (r1, c) = (r', c') -> suppressed r1 = suppressed r -> anchorStep r1 = anchorStep r ->
      panicStepHint r1 = panicStepHint r -> stepStack r1 = stepStack r ->
      suppressed r' = suppressed r /\ anchorStep r' = anchorStep r /\ panicStepHint r' = panicStepHint r /\ stepStack r' = stepStack r) as Hadd.
    { intros r1 x Ex H1 H2 H3 H4. destruct (addLog_spec x r1 c) as (r2 & c2 & E2 & Hs). rewrite Ex in E2. injection E2 as <- <-.
      pose proof (sheds_frame _ _ _ _ Hs) as (F1 & F2 & F3 & F4 & F5 & F6 & F7 & F8 & F9 & F10 & F11). repeat split; congruence. }
    assert (suppressed r' = suppressed r /\ anchorStep r' = anchorStep r /\ panicStepHint r' = panicStepHint r /\ stepStack r' = stepStack r) as (H1 & H2 & H3 & H4).
    { cbv zeta in E. destruct (suppressed r || sealed r); [by injection E as <- _|]. destruct err as [e|]; [|by eapply Hadd].
      destruct (recordError_spec (e_Code e) (e_Reason e) r) as (es & Ees & _). eapply Hadd; [exact E|..]; by rewrite Ees. }
    apply (Hgo r' c'); [done|done|done|done|by rewrite H4].
  - eapply Hgo; [reflexivity|..]; unfold SetField; by repeat case_if.
  - eapply Hgo; [reflexivity|..]; unfold SetHTTPStatus; by repeat case_if.
  - eapply Hgo; [reflexivity|..]; unfold SetHTTPRoute; by repeat case_if.
  - eapply Hgo; [reflexivity|..|apply RecordOutgoingSpan_names]; unfold RecordOutgoingSpan; repeat case_if; try done; by destruct (last (stepStack r)).
Qed.

Lemma uneventful_steady i l : limits_ok i -> uneventful l -> forall r c, life i r -> suppressed r = false ->
  exists r' c', run_ops l (r, c) = Some (r', c') /\ steady i r r'.
Proof.
  intros Hl. induction 1 as [|o l Ho _ IH|name t ms ms' dur inner l _ IH1 _ IH2]; intros r c L Hs.
  - exists r, c. split; [done|]. by split.
  - rewrite run_ops_cons. destruct (harmless_steady i o r c Hl L Ho) as (r1 & c1 & E1 & S1). rewrite E1. cbn [mbind option_bind].
    destruct (IH r1 c1) as (r2 & c2 & E2 & S2); [by destruct S1|by rewrite (sy_sup _ _ _ S1)|]. exists r2, c2. split; [done|]. by eapply steady_trans.
  - rewrite run_ops_cons. cbn [run_op mbind option_bind]. rewrite run_ops_app. set (r0 := pushStep name t ms r).
    assert (life i r0) as L0 by by apply (life_frame i r).
    destruct (IH1 r0 c L0 Hs) as (r1 & c1 & E1 & S1). rewrite E1. cbn [mbind option_bind]. rewrite run_ops_cons. cbn [run_op].
    destruct S1 as [A1 A2 A3 A4 A5]. change (stepStack r0) with (stepStack r ++ [mkActive name "" None t ms]) in A5. rewrite fmap_app in A5. cbn in A5.
    destruct (names_top _ _ _ A5) as (low & a & Est & Ea & Elow). 
    assert (exists r2 c2, closeStep name ms' dur None (r1, c1) = Some (r2, c2) /\ steady i r r2) as (r2 & c2 & E2 & S2).
    { unfold closeStep. cbn [mbind option_bind]. rewrite Est, <- Ea, popStack_named.
      replace (suppressed (set_stack r1 low)) with false by (change (false = suppressed r1); rewrite A2; by symmetry).
      replace (sealed (set_stack r1 low)) with false by (symmetry; apply (lf_open _ _ A1)). cbn [orb].
      assert (life i (set_stack r1 low)) as L1 by by apply (life_frame i r1).
      destruct (addStepLocked _ (set_stack r1 low, c1)) as [r2 c2] eqn:E. exists r2, c2. split; [done|].
      destruct (addStep_spec (mkStepBuf (as_name a) (as_spanID a) ms' dur StepStatusOK (as_downstream a) None) (set_stack r1 low) c1) as (r3 & c3 & E3 & Hsh & _).
      rewrite E in E3. injection E3 as <- <-. pose proof (sheds_frame _ _ _ _ Hsh) as (F1 & F2 & F3 & F4 & F5 & F6 & F7 & F8 & F9 & F10 & F11).
      unfold noteStepError in F2, F5, F8, F10. simpl in F2, F5, F8, F10.
      split; [by eapply life_addStep|..]; [rewrite F5; by rewrite A2|rewrite F8; by rewrite A3|rewrite F10; by rewrite A4|by rewrite F2]. }
    rewrite E2. cbn [mbind option_bind]. destruct (IH2 r2 c2) as (r3 & c3 & E3 & S3); [by destruct S2|by rewrite (sy_sup _ _ _ S2)|].
    exists r3, c3. split; [done|]. by eapply steady_trans.
Qed.

(** The state after a panic passed through the steps opened since [r]. *)
Record panicked (i : identity) (r : request) (name : string) (r' : request) : Prop := {
  pk_life : life i r';
  pk_stack : as_name <$> stepStack r' = as_name <$> stepStack r;
  pk_step : anchorStep r' = name;
  pk_code : anchorCode r' = "ERR";
  pk_flag : anchorFromStepPanic r' = true;
  pk_hint : panicStepHint r' = name;
  pk_sup : suppressed r' = false
}.

Lemma close_panicking name ms dur text r c low a :
  suppressed r = false -> sealed r = false -> stepStack r = low ++ [a] -> as_name a = name ->
  closeStep name ms dur (Some (mkGoerr text None)) (r, c)
  = Some (addStepLocked (mkStepBuf name (as_spanID a) ms dur StepStatusError (as_downstream a) (Some (mkError "ERR" text ""))) (set_stack r low, c)).
Proof.
  intros Hs Ho Hst <-. unfold closeStep. simpl. rewrite Hst, popStack_named. simpl. by rewrite Hs, Ho.
Qed.

Lemma addStep_panicking i name span ms dur down text r c : limits_ok i -> life i r -> suppressed r = false -> name <> "" ->
  (anchorStep r = "" /\ panicStepHint r = name \/
   anchorStep r <> "" /\ anchorStep r = panicStepHint r /\ anchorCode r = "ERR" /\ anchorFromStepPanic r = true) ->
  exists r' c', addStepLocked (mkStepBuf name span ms dur StepStatusError down (Some (mkError "ERR" text ""))) (r, c) = (r', c') /\
    panicked i r (panicStepHint r) r'.
Proof.
  intros Hl L Hs Hn Hcase. pose proof L as [H1 H2 H3 H4 H5].
  set (s := mkStepBuf _ _ _ _ _ _ _). destruct (addStepLocked s (r, c)) as [r' c'] eqn:E. exists r', c'. split; [done|].
  destruct (addStep_spec s r c) as (r1 & c1 & E1 & Hsh & _). rewrite E in E1. injection E1 as <- <-.
  pose proof (sheds_frame _ _ _ _ Hsh) as (F1 & F2 & F3 & F4 & F5 & F6 & F7 & F8 & F9 & F10 & F11).
  unfold noteStepError in F2, F5, F8, F9, F10, F11. simpl in F2, F5, F8, F9, F10, F11.
  destruct (recordError_spec "ERR" text r) as (es & Ees & _). rewrite Ees in *. simpl in *.
  assert (life i r') as L' by by eapply life_addStep.
  destruct Hcase as [[Ha Hh]|(Ha & Hh & Hc & Hf)].
  - rewrite Ha in *. simpl in *. rewrite Hh, String.eqb_refl in F11. simpl in F11. split; congruence.
  - apply String.eqb_neq in Ha. rewrite Ha in *. simpl in *. split; congruence.
Qed.

Lemma nest_panics i last text : limits_ok i -> uneventful last -> forall levels v r c, life i r -> suppressed r = false ->
  anchorStep r = "" -> panicStepHint r = "" ->
  Forall (fun v => uneventful (lv_before v) /\ lv_name v <> "") (levels ++ [v]) ->
  exists r' c', nest (levels ++ [v]) last text (r, c) = Some (Panicked text, (r', c')) /\ panicked i r (lv_name v) r'.
Proof.
  intros Hl Hlast. induction levels as [|n levels IH]; intros v r c L Hs Ha Hh Hn; cbn [app nest].
  - apply Forall_singleton in Hn as [Hb Hn]. destruct (uneventful_steady i _ Hl Hb r c L Hs) as (r1 & c1 & E1 & [A1 A2 A3 A4 A5]).
    rewrite E1. cbn [mbind option_bind]. unfold Step. apply String.eqb_neq in Hn as Hne. rewrite Hne.
    assert (life i (pushStep (lv_name v) (lv_start v) (lv_ms v) r1)) as L1 by by apply (life_frame i r1).
    destruct (uneventful_steady i _ Hl Hlast (pushStep (lv_name v) (lv_start v) (lv_ms v) r1) c1 L1) as (r2 & c2 & E2 & [B1 B2 B3 B4 B5]); [simpl; congruence|].
    rewrite E2. simpl. simpl in B5. rewrite fmap_app in B5. destruct (names_top _ _ _ B5) as (low & a & Est & Ea & Elow). simpl in B2, B3, B4.
    unfold rememberPanicStep. rewrite B4, A4, Hh. simpl.
    erewrite (close_panicking _ _ _ _ _ _ low a); [|simpl; congruence|apply (lf_open _ _ B1)|done|done].
    destruct (addStep_panicking i (lv_name v) (as_spanID a) (lv_ms v) (lv_dur v) (as_downstream a) ("panic: " +:+ text) (set_stack (set_hint r2 (lv_name v)) low) c2)
      as (r' & c' & E & Hp); [done|by apply (life_frame i r2)|simpl; congruence|done|left; simpl; split; congruence|].
    rewrite E. simpl. exists r', c'. split; [done|]. destruct Hp as [Q1 Q2 Q3 Q4 Q5 Q6 Q7]. simpl in *. split; congruence.
  - apply Forall_cons in Hn as [[Hb Hne0] Hn]. destruct (uneventful_steady i _ Hl Hb r c L Hs) as (r0 & c0 & E0 & [A1 A2 A3 A4 A5]).
    rewrite E0. cbn [mbind option_bind]. unfold Step. apply String.eqb_neq in Hne0 as Hne. rewrite Hne.
    destruct (IH v (pushStep (lv_name n) (lv_start n) (lv_ms n) r0) c0) as (r1 & c1 & -> & [P1 P2 P3 P4 P5 P6 P7]);
      [by apply (life_frame i r0)|simpl; congruence..|done|].
    simpl. simpl in P2. rewrite fmap_app in P2. destruct (names_top _ _ _ P2) as (low & a & Est & Ea & Elow).
    unfold rememberPanicStep. rewrite P6.
    assert (lv_name v <> "") as Hname by (apply Forall_app in Hn as [_ Hn]; by apply Forall_singleton in Hn as [_ ?]).
    apply String.eqb_neq in Hname as Hname'. rewrite Hname'.
    erewrite (close_panicking _ _ _ _ _ _ low a); [|done|apply (lf_open _ _ P1)|done|done].
    destruct (addStep_panicking i (lv_name n) (as_spanID a) (lv_ms n) (lv_dur n) (as_downstream a) ("panic: " +:+ text) (set_stack r1 low) c1)
      as (r' & c' & E & Hp); [done|by apply (life_frame i r1)|done|done| |].
    { right. simpl. rewrite P3, P6. done. }
    rewrite E. simpl. exists r', c'. split; [done|]. destruct Hp as [Q1 Q2 Q3 Q4 Q5 Q6 Q7]. simpl in *.
    split; congruence.
Qed.

Definition panic_note (r : request) (name : string) : request :=
  recordErrorLocked CodePanic "runtime panic recovered"
    (set_anchor (set_hint (set_final r StatusError) "") name CodePanic false).

(** C28: A panic is blamed on the step it started in.  When a function panics inside any
    nesting of steps of a request that had not failed or panicked and is not suppressed, and the
    middleware finalizes the request as panicked, the event is an error anchored at the
    innermost step with code [WAYLOG_PANIC], however many steps the panic unwound through,
    whatever the functions did before it short of failing or suppressing the request (logs,
    fields, the status, calls, steps that returned without an error), and whatever the
    buffers dropped.  The steps are named, the outermost is not itself inside a step, and the
    limits of the request are not negative. *)
Theorem panic_anchors_innermost cfg i text levels v last r c mark tsEnd : limits_ok i -> life i r ->
  suppressed r = false -> anchorStep r = "" -> panicStepHint r = "" -> stepStack r = [] ->
  Forall (fun v => uneventful (lv_before v) /\ lv_name v <> "") (levels ++ [v]) -> uneventful last ->
  exists r1 c1 ev s, nest (levels ++ [v]) last text (r, c) = Some (Panicked text, (r1, c1)) /\
    seal cfg lifecyclePanic mark tsEnd (r1, c1) = (Some ev, s) /\
    ev_Anchor ev = Some (mkAnchor (lv_name v) CodePanic "") /\ ev_Status ev = StatusError.
Proof.
  intros Hl L Hs Ha Hh Hst Hn Hlast. set (name := lv_name v).
  destruct (nest_panics i last text Hl Hlast levels v r c L Hs Ha Hh Hn) as (r1 & c1 & E & [P1 P2 P3 P4 P5 P6 P7]). fold name in P3, P6.
  rewrite Hst in P2. apply fmap_nil_inv in P2.
  assert (name <> "") as Hname by (apply Forall_app in Hn as [_ Hn]; by apply Forall_singleton in Hn as [_ ?]).
  apply String.eqb_neq in Hname as Hname'.
  assert (applyLifecycleLocked mark lifecyclePanic (r1, c1) = (set_stack (panic_note r1 name) [], c1)) as Hap.
  { unfold applyLifecycleLocked. rewrite P7, P5, orb_true_r. unfold markLifecycleLocked. rewrite P7. simpl.
    unfold activeStepLocked. simpl. rewrite P2. simpl. rewrite P6, Hname'. simpl.
    unfold flushActiveStepsLocked, panic_note.
    destruct (recordError_spec CodePanic "runtime panic recovered"
      (set_anchor (set_hint (set_final r1 StatusError) "") name CodePanic false)) as (es & -> & _).
    simpl. by rewrite P2. }
  exists r1, c1. unfold seal. rewrite (lf_open _ _ P1), Hap. eexists _, _. split; [done|split; [done|]].
  assert (forall ev, ev_Anchor (redact cfg ev) = ev_Anchor ev /\ ev_Status (redact cfg ev) = ev_Status ev) as Hred.
  { intros ev. unfold redact. destruct (cfg_Redactor cfg); [|done]. by destruct (decide _). }
  rewrite (proj1 (Hred _)), (proj2 (Hred _)). unfold panic_note.
  destruct (recordError_spec CodePanic "runtime panic recovered"
    (set_anchor (set_hint (set_final r1 StatusError) "") name CodePanic false)) as (es & -> & _).
  unfold assembleLocked, snapshotStatusLocked, event_anchor. simpl. rewrite P7, Hname'. simpl. by destruct (headerOnly r1).
Qed.

(** [Explain] shows the event a normal finish would emit: the same trace, service,
    status, anchor, steps with their errors, downstream edges and logs. *)
Theorem Explain_matches_event cfg i r c mark tsEnd : life i r -> conf r -> suppressed r = false -> headerOnly r = false ->
  exists ev s, seal cfg lifecycleNormal mark tsEnd (r, c) = (Some ev, s) /\
    let x := Explain cfg r in
    ex_TraceID x = ev_TraceID ev /\ ex_Service x = ev_Service ev /\ ex_Status x = ev_Status ev /\
    ex_Anchor x = from_option (fun a => (an_Step a, an_ErrorCode a)) ("", "") (ev_Anchor ev) /\
    ex_Path x = (fun s => (st_Name s, st_StartMS s, st_DurationMS s, st_Status s,
       from_option se_Code "" (st_Error s), from_option se_Reason "" (st_Error s))) <$> ev_Steps ev /\
    (fst <$> ex_Logs x) = (fun l => (lg_TsOffsetMS l, lg_Level l, lg_Msg l)) <$> ev_Logs ev /\
    ex_Downstream x = omap (fun s => d ← st_Downstream s; Some (st_Name s, dn_Service d, dn_Endpoint d)) (ev_Steps ev).
Proof.
  intros L C Hs Hh. destruct L as [_ _ _ Ho Hf]. destruct C as [_ _ _ Ha].
  unfold seal. rewrite Ho. unfold applyLifecycleLocked. rewrite Hs.
  eexists _, _. split; [done|]. cbv zeta.
  assert (forall ev, ev_Anchor (redact cfg ev) = ev_Anchor ev /\ ev_Status (redact cfg ev) = ev_Status ev /\
    ev_TraceID (redact cfg ev) = ev_TraceID ev /\ ev_Service (redact cfg ev) = ev_Service ev /\
    ev_Steps (redact cfg ev) = ev_Steps ev /\ ev_Logs (redact cfg ev) = ev_Logs ev) as Hred.
  { intros ev. unfold redact. destruct (cfg_Redactor cfg); [|done]. by destruct (decide _). }
  destruct (Hred (assembleLocked cfg tsEnd r)) as (-> & -> & -> & -> & -> & ->).
  unfold assembleLocked, snapshotStatusLocked. rewrite Hs, Hf, Hh. cbn [String.eqb negb].
  replace (String.eqb (if negb (String.eqb (anchorStep r) "") then StatusError else StatusOK) StatusSuppressed)
    with false by (by destruct (negb _)).
  cbn [ev_TraceID ev_Service ev_Status ev_Anchor ev_Steps ev_Logs]. unfold Explain, snapshotStatusLocked. rewrite Hs, Hf.
  cbn [ex_TraceID ex_Service ex_Status ex_Anchor ex_Path ex_Logs ex_Downstream].
  split; [done|split; [done|split; [done|split; [|split; [|split]]]]].
  - unfold event_anchor. destruct (String.eqb_spec (anchorStep r) "") as [E|E].
    + simpl. rewrite E. f_equal. by apply Ha.
    + destruct (String.eqb_spec (anchorCode r) "") as [E'|E']; [by apply Ha in E'|done].
  - rewrite <- list_fmap_compose. apply list_fmap_ext. intros j s _. unfold explain_step. simpl. by destruct (sb_err s).
  - by rewrite <- !list_fmap_compose.
  - clear. induction (steps r) as [|s l IH]; [done|]. rewrite fmap_cons. cbn [omap list_omap].
    change (explain_edge s) with (d ← sb_downstream s; Some (sb_name s, dn_Service d, dn_Endpoint d)).
    cbn [event_step st_Downstream st_Name]. destruct (sb_downstream s) as [d|]; simpl; [f_equal|]; exact IH.
Qed.

(** ** What the model shows to be wrong *)

(** A step that fails with the error [NewError] returns for a reserved code crashes the
    SDK: the nil pointer is not a nil error. *)
Lemma nil_error_panics code ms dur name c : isReserved code = true ->
  forall r c2, closeStep name ms dur (Some (as_goerr (NewError code [] c).1)) (r, c2) = None.
Proof. intros H r c2. unfold NewError. by rewrite H. Qed.

(** When every buffered step is an ok step of the anchor's own name, the anchor's failing
    step is the one dropped. *)
Lemma anchor_step_dropped :
  let i := mkIdentity "e" 0 "" "" "" 2 10 10000 in
  let fail := mkGoerr "boom" None in
  option_map (fun s => (anchorStep s.1, sb_status <$> steps s.1))
    (run_ops [OClose "db" 0 1 None; OClose "db" 1 1 None; OClose "db" 2 1 (Some fail)] (newRequest i, zero_counts))
  = Some ("db", ["ok"; "ok"]).
Proof. vm_compute. reflexivity. Qed.

(** A step that fails with an error of empty code makes an event with a failed status and
    no anchor, which the schema refuses. *)
Lemma empty_code_refused :
  let i := mkIdentity "e" 0 "0123456789abcdef0123456789abcdef" "" "" 10 10 10000 in
  let cfg := mkSdkConfig "svc" "prod" "" 0 None in
  let ev := s ← run_ops [OClose "db" 0 1 (Some (as_goerr (Some (mkError "" "boom" ""))))] (newRequest i, zero_counts);
            (seal cfg lifecycleNormal 0 5 s).1 in
  option_map (fun ev => (ev_Status ev, ev_Anchor ev, conforms ev)) ev = Some ("error", None, false).
Proof. vm_compute. reflexivity. Qed.

(** ** A concrete request *)

Definition demo_id : identity :=
  mkIdentity "e" 0 "0123456789abcdef0123456789abcdef" "0123456789abcdef" "" 4 4 1000.
Definition demo_cfg : SdkConfig := mkSdkConfig "checkout" "prod" "" 0 None.
Definition demo_ops : list op :=
  [OPush "charge" 0 0; OSpan "fedcba9876543210" "payments" "POST /pay"; OLog 1000000 "warn" "slow" None [];
   OClose "charge" 0 3 (Some (as_goerr (Some (mkError "E_CARD" "declined" ""))))].

Lemma demo_limits : limits_ok demo_id.
Proof. by repeat split. Qed.

Definition demo_state : st := default (newRequest demo_id, zero_counts) (run_ops demo_ops (newRequest demo_id, zero_counts)).

Lemma request_demo_runs : run_ops demo_ops (newRequest demo_id, zero_counts) = Some (demo_state.1, demo_state.2).
Proof.
  unfold demo_state. destruct (run_ops demo_ops (newRequest demo_id, zero_counts)) as [s|] eqn:E.
  - simpl. by destruct s.
  - exfalso. apply (f_equal (fun o => match o with Some _ => true | None => false end)) in E. vm_compute in E. discriminate E.
Qed.

Lemma demo_ops_good : Forall (op_good demo_id) demo_ops.
Proof. repeat constructor; simpl; try done; lia. Qed.

Lemma demo_request_life : life demo_id (newRequest demo_id).
Proof. apply life_new, demo_limits. Qed.

Lemma finalize_conforms_witness : exists ev s,
  seal demo_cfg lifecycleTimeout 9000000 9000000 (demo_state.1, demo_state.2) = (Some ev, s) /\ conforms ev = true.
Proof.
  destruct (finalize_conforms demo_cfg demo_id demo_ops zero_counts demo_state.1 demo_state.2 lifecycleTimeout 9000000 9000000
    demo_limits eq_refl demo_ops_good request_demo_runs) as (ev & r' & c' & H & Hc & _).
  exists ev, (r', c'). split; [exact H|exact Hc].
Defined.

Lemma request_bounded_witness : bufBytes demo_state.1 <= 1000.
Proof. exact (proj1 (proj2 (request_bounded demo_id demo_ops zero_counts _ _ demo_limits request_demo_runs))). Defined.

Lemma failing_step_recorded_witness : exists r' c',
  closeStep "charge" 0 3 (Some (mkGoerr "declined" None)) (newRequest demo_id, zero_counts) = Some (r', c') /\
  ((exists kept s, steps r' = kept ++ [s] /\ sb_name s = "charge" /\ sb_status s = StepStatusError /\ sb_err s <> None) \/
   headerOnly r' = true \/ steps_full r').
Proof.
  destruct (closeStep "charge" 0 3 (Some (mkGoerr "declined" None)) (newRequest demo_id, zero_counts)) as [[r' c']|] eqn:E.
  - exists r', c'. split; [reflexivity|].
    exact (failing_step_recorded demo_id _ _ _ _ _ _ _ _ demo_limits demo_request_life eq_refl E).
  - exfalso. apply (f_equal (fun o => match o with Some _ => true | None => false end)) in E. vm_compute in E. discriminate E.
Defined.

Lemma anchor_is_first_witness :
  let r := set_anchor (newRequest demo_id) "charge" "E_CARD" false in
  anchorStep (Fail (Some (mkError "E_LATE" "" "")) (r, zero_counts)).1 = "charge".
Proof.
  intros r. assert (life demo_id r) as L by exact (life_frame demo_id (newRequest demo_id) r eq_refl (conj eq_refl (conj eq_refl eq_refl)) eq_refl eq_refl eq_refl demo_request_life).
  destruct (Fail (Some (mkError "E_LATE" "" "")) (r, zero_counts)) as [r' c'] eqn:E.
  refine (proj1 (anchor_is_first demo_id (OFail (Some (mkError "E_LATE" "" ""))) r zero_counts r' c' demo_limits L _ _ (f_equal Some E))).
  - discriminate.
  - discriminate.
Defined.

(** A call and a step that succeeded come before the panic. *)
Lemma panic_anchors_innermost_witness : exists r1 c1 ev s,
  nest [mkAround [OSetField "cart" (VStr "c1")] "checkout" 0 0 9; mkAround [OSpan "fedcba9876543210" "payments" "POST /pay"] "charge" 1 1 3]
    [OPush "lookup" 1 1; OLog 1 "info" "found" None []; OClose "lookup" 1 1 None] "boom" (newRequest demo_id, zero_counts) = Some (Panicked "boom", (r1, c1)) /\
  seal demo_cfg lifecyclePanic 5 5 (r1, c1) = (Some ev, s) /\
  ev_Anchor ev = Some (mkAnchor "charge" CodePanic "") /\ ev_Status ev = StatusError.
Proof.
  apply (panic_anchors_innermost demo_cfg demo_id "boom" [mkAround [OSetField "cart" (VStr "c1")] "checkout" 0 0 9]
    (mkAround [OSpan "fedcba9876543210" "payments" "POST /pay"] "charge" 1 1 3) [OPush "lookup" 1 1; OLog 1 "info" "found" None []; OClose "lookup" 1 1 None]
    (newRequest demo_id) zero_counts 5 5 demo_limits demo_request_life eq_refl eq_refl eq_refl eq_refl).
  - apply Forall_cons. split; [split; [apply un_op; [reflexivity|apply un_nil]|discriminate]|]. apply Forall_singleton.
    split; [apply un_op; [reflexivity|apply un_nil]|discriminate].
  - apply (un_step "lookup" 1 1 1 1 [OLog 1 "info" "found" None []] []); [apply un_op; [reflexivity|apply un_nil]|apply un_nil].
Defined.

Lemma Explain_matches_event_witness : exists ev s,
  seal demo_cfg lifecycleNormal 5 5 (newRequest demo_id, zero_counts) = (Some ev, s) /\
  ex_Status (Explain demo_cfg (newRequest demo_id)) = ev_Status ev.
Proof.
  assert (conf (newRequest demo_id)) as C by (split; simpl; [constructor|constructor|constructor|tauto]).
  destruct (Explain_matches_event demo_cfg demo_id (newRequest demo_id) zero_counts 5 5 demo_request_life C eq_refl eq_refl)
    as (ev & s & H & _ & _ & Hs & _).
  exists ev, s. split; [exact H|exact Hs].
Defined.
