(* ===== verification/Sdk.v ===== *)
(** The Go SDK around its requests ([pkg/waylog/v2]: request.go, assemble.go, waylog.go,
    signal.go): requests by pointer, the active set, the rate limit, delivery through a
    [Sink], identifiers and the bounding of signal text. *)

From S2P Require Import Prelude GoRuntime Types Schema Transport Request RequestSpec.
Open Scope Z_scope.

(** ** Delivery *)

(** What the SDK needs of the place its events go: accepted or not, or [None] for an
    error.  The HTTP client of [Transport] is one instance, a local writer another. *)
Class Sink (S : Type) := { sink_deliver : Event -> S -> option bool * S }.

#[export] Instance transport_sink (marshal : Event -> option string) (cfg : Transport.Config) : Sink client := {|
  sink_deliver := fun ev c => let '(ok, c) := Submit marshal cfg ev c in (Some ok, c)
|}.

(** [emit]: a line of JSON; a failed encoding or write is an error. *)
Definition emit (marshal : Event -> option string) (write_ok : string -> bool) (ev : Event) (out : list string)
  : option bool * list string :=
  match marshal ev with
  | None => (None, out)
  | Some raw => if write_ok raw then (Some true, out ++ [raw]) else (None, out)
  end.

#[export] Instance local_sink (marshal : Event -> option string) (write_ok : string -> bool) : Sink (list string) := {|
  sink_deliver := emit marshal write_ok
|}.

(** The rate limiter's fields. *)
Record rate := mkRate { rateSecond : Z; rateCount : Z }.

(** [allowEvent] at Unix second [now]. *)
Definition allowEvent (max : Z) (now : Z) (ev : Event) (s : rate) : bool * rate :=
  if (max <=? 0) || IsPriority (ev_Status ev) then (true, s) else
  let s := if rateSecond s =? now then s else mkRate now 0 in
  if max <=? rateCount s then (false, s) else (true, mkRate (rateSecond s) (rateCount s + 1)).

(** ** The SDK's state *)

Section Sdk.
Context {S : Type} `{Sink S}.

Record sdk := mkSdk {
  k_cfg : SdkConfig;
  k_limits : Z * Z * Z;
  k_counts : counts;
  k_rate : rate;
  k_requests : gmap positive request;
  k_active : gset positive;
  k_sink : S
}.

Definition set_request (s : sdk) (p : positive) (r : request) (c : counts) : sdk :=
  mkSdk (k_cfg s) (k_limits s) c (k_rate s) (<[p := r]> (k_requests s)) (k_active s) (k_sink s).

Record BeginOptions := mkBegin { bo_TraceID : string; bo_SpanID : string; bo_ParentSpanID : string; bo_Now : Time }.

Definition or_else (s d : string) : string := if String.eqb s "" then d else s.

(** [Begin] allocates the request [p]; [eventID], [traceID] and [spanID] are what the id
    generators return, [clock] what [time.Now] does. *)
Definition Begin (p : positive) (opts : BeginOptions) (eventID traceID spanID : string) (clock : Time) (s : sdk) : sdk :=
  let '(maxSteps, maxLogs, maxBytes) := k_limits s in
  let now := if IsZero (bo_Now opts) then clock else bo_Now opts in
  let r := newRequest (mkIdentity eventID now (or_else (bo_TraceID opts) traceID) (or_else (bo_SpanID opts) spanID)
             (bo_ParentSpanID opts) maxSteps maxLogs maxBytes) in
  mkSdk (k_cfg s) (k_limits s) (k_counts s) (k_rate s) (<[p := r]> (k_requests s)) ({[p]} ∪ k_active s) (k_sink s).

(** An operation on the request a context carries; a context without one is left alone. *)
Definition on_request (p : positive) (o : op) (s : sdk) : option sdk :=
  match k_requests s !! p with
  | None => Some s
  | Some r => '(r, c) ← run_op o (r, k_counts s); Some (set_request s p r c)
  end.

Definition deliver (now : Z) (ev : Event) (s : sdk) : option bool * sdk :=
  let '(ok, rt) := allowEvent (cfg_MaxEventsPerSec (k_cfg s)) now ev (k_rate s) in
  if negb ok then
    (Some false, mkSdk (k_cfg s) (k_limits s) (bump CEventsDropped 1 (k_counts s)) rt (k_requests s) (k_active s) (k_sink s))
  else
    let '(res, sk) := sink_deliver ev (k_sink s) in
    (res, mkSdk (k_cfg s) (k_limits s) (k_counts s) rt (k_requests s) (k_active s) sk).

Inductive finalError := ErrNoActiveRequest | ErrDeliver.

Definition count_when (b : bool) (k : counter) (s : sdk) : sdk :=
  if b then mkSdk (k_cfg s) (k_limits s) (bump k 1 (k_counts s)) (k_rate s) (k_requests s) (k_active s) (k_sink s) else s.

(** [finalize]: the event, if one was made, with the error, if there was one. *)
Definition finalize (p : positive) (k : lifecycleKind) (mark tsEnd : Time) (now : Z) (s : sdk)
  : (option Event * option finalError) * sdk :=
  match k_requests s !! p with
  | None => ((None, Some ErrNoActiveRequest), s)
  | Some r =>
    let '(oev, (r, c)) := seal (k_cfg s) k mark tsEnd (r, k_counts s) in
    let s := set_request s p r c in
    match oev with
    | None => ((None, None), s)
    | Some ev =>
      let s := mkSdk (k_cfg s) (k_limits s) (k_counts s) (k_rate s) (k_requests s) (k_active s ∖ {[p]}) (k_sink s) in
      let '(res, s) := deliver now ev s in
      match res with
      | None => ((Some ev, Some ErrDeliver), s)
      | Some accepted =>
        let s := count_when accepted CEmitted s in
        let s := count_when (accepted && String.eqb (ev_Status ev) StatusSuppressed) CSuppressed s in
        ((Some ev, None), s)
      end
    end
  end.

(** A call into the SDK. *)
Inductive call :=
| KBegin (p : positive) (opts : BeginOptions) (eventID traceID spanID : string) (clock : Time)
| KOp (p : positive) (o : op)
| KFinalize (p : positive) (k : lifecycleKind) (mark tsEnd : Time) (now : Z).

Definition do_call (a : call) (s : sdk) : option sdk :=
  match a with
  | KBegin p opts e t sp clock => if decide (is_Some (k_requests s !! p)) then None else Some (Begin p opts e t sp clock s)
  | KOp p o => on_request p o s
  | KFinalize p k mark tsEnd now => Some (finalize p k mark tsEnd now s).2
  end.

Fixpoint do_calls (l : list call) (s : sdk) : option sdk :=
  match l with [] => Some s | a :: l => s ← do_call a s; do_calls l s end.
End Sdk.
Arguments sdk : clear implicits.

(** ** Identifiers *)

(** [hex.Encode] of bytes given as integers. *)
Definition hex_bytes (b : list Z) : string := Sha256.hex b.

Definition newUUIDv4 (b : list Z) : string :=
  let b := <[6%nat := Z.lor (Z.land (Sha256.nthZ b 6) 15) 64]> b in
  let b := <[8%nat := Z.lor (Z.land (Sha256.nthZ b 8) 63) 128]> b in
  hex_bytes (take 4 b) +:+ "-" +:+ hex_bytes (take 2 (drop 4 b)) +:+ "-" +:+ hex_bytes (take 2 (drop 6 b)) +:+ "-" +:+
  hex_bytes (take 2 (drop 8 b)) +:+ "-" +:+ hex_bytes (take 6 (drop 10 b)).

(** [randomHex]: the id of [n] bytes. *)
Definition randomHex (n : nat) (b : list Z) : string := hex_bytes (take n b).

(** [seedFromTime], for when the random source fails. *)
Definition seedFromTime (nano : Z) (n : nat) : list Z :=
  (fun i => Z.land (Z.shiftr nano (Z.of_nat (i mod 8 * 8))) 255) <$> seq 0 n.

(** ** Signals *)

Definition maxSignalReasonLen : nat := 512.
Definition maxSignalMessageLen : nat := 4096.

Definition is_continuation (c : ascii) : bool := Z.land (Z.of_nat (nat_of_ascii c)) 192 =? 128.

(** The loop of [boundString]: step back off continuation bytes. *)
Fixpoint rune_cut (s : string) (n : nat) : nat :=
  match n with
  | O => O
  | S m => match String.get n s with
           | Some c => if is_continuation c then rune_cut s m else n
           | None => n
           end
  end.

Definition boundString (s : string) (n : nat) : string :=
  if (String.length s <=? n)%nat then s else take_bytes (rune_cut s n) s.

Record SdkSignal := mkSdkSignal {
  sg_Type : string;
  sg_Service : string;
  sg_Env : string;
  sg_Severity : string;
  sg_Reason : string;
  sg_Message : string;
  sg_Source : string;
  sg_Timestamp : Time
}.

(** The defaults and bounds [postSignalWithConfig] applies before it posts. *)
Definition prepareSignal (cfg : SdkConfig) (clock : Time) (sig : SdkSignal) : SdkSignal :=
  mkSdkSignal (sg_Type sig) (or_else (sg_Service sig) (cfg_Service cfg)) (or_else (sg_Env sig) (cfg_Env cfg))
    (sg_Severity sig) (boundString (sg_Reason sig) maxSignalReasonLen) (boundString (sg_Message sig) maxSignalMessageLen)
    (sg_Source sig) (if IsZero (sg_Timestamp sig) then clock else sg_Timestamp sig).

(** [postPanicSignal]: the signal for a recovered value that prints as [text]. *)
Definition panicSignal (cfg : SdkConfig) (recovered : option string) : SdkSignal :=
  let reason := match recovered with None => "panic" | Some text => "panic: " +:+ TrimSpace text end in
  mkSdkSignal "runtime" (cfg_Service cfg) (cfg_Env cfg) "critical" reason reason "go-sdk" 0.

(** ** The rate limit *)

Fixpoint run_rate (max : Z) (l : list (Z * Event)) (s : rate) : list bool :=
  match l with
  | [] => []
  | (now, ev) :: l => let '(ok, s) := allowEvent max now ev s in ok :: run_rate max l s
  end.

(** Of the events offered, how many ordinary ones second [t] let through. *)
Fixpoint admitted (t : Z) (l : list (Z * Event)) (oks : list bool) : Z :=
  match l, oks with
  | (now, ev) :: l, ok :: oks =>
    (if ok && negb (IsPriority (ev_Status ev)) && (now =? t) then 1 else 0) + admitted t l oks
  | _, _ => 0
  end.

Fixpoint nondecreasing (from : Z) (l : list (Z * Event)) : Prop :=
  match l with [] => True | (now, _) :: l => from <= now /\ nondecreasing now l end.

Lemma nondecreasing_weaken a b l : a <= b -> nondecreasing b l -> nondecreasing a l.
Proof. destruct l as [|[now ev] l]; simpl; [done|]. intros ? [? ?]. split; [lia|done]. Qed.

Lemma admitted_after t max l : forall from s, nondecreasing from l -> t < from -> admitted t l (run_rate max l s) = 0.
Proof.
  induction l as [|[now ev] l IH]; intros from s Hn Ht; simpl; [done|]. destruct Hn as [Hf Hn].
  destruct (allowEvent max now ev s) as [ok s']. simpl.
  rewrite (IH now); [|done|lia]. rewrite (proj2 (Z.eqb_neq now t)) by lia. by rewrite andb_false_r.
Qed.

Lemma allowEvent_cases max now ev s : 0 < max ->
  (IsPriority (ev_Status ev) = true /\ allowEvent max now ev s = (true, s)) \/
  (IsPriority (ev_Status ev) = false /\
   let n := if rateSecond s =? now then rateCount s else 0 in
   allowEvent max now ev s = if max <=? n then (false, mkRate now n) else (true, mkRate now (n + 1))).
Proof.
  intros Hm. unfold allowEvent. rewrite (proj2 (Z.leb_gt max 0)) by lia. simpl.
  destruct (IsPriority (ev_Status ev)); [by left|right; split; [done|]]. cbv zeta.
  destruct (Z.eqb_spec (rateSecond s) now) as [<-|Hne]; [by destruct s|done].
Qed.

(** The budget left in second [t] for a limiter that never saw a later second. *)
Lemma rate_budget t max l : 0 < max -> forall s, nondecreasing (rateSecond s) l -> 0 <= rateCount s ->
  admitted t l (run_rate max l s) <= Z.max 0 (if rateSecond s =? t then max - rateCount s else max).
Proof.
  intros Hm. induction l as [|[now ev] l IH]; intros s Hn Hc; simpl; [lia|]. destruct Hn as [Hf Hn].
  destruct (allowEvent_cases max now ev s Hm) as [[Hp E]|[Hp E]]; rewrite E; simpl; rewrite Hp; simpl.
  - pose proof (IH s (nondecreasing_weaken _ _ _ Hf Hn) Hc). rewrite ?andb_false_r. simpl. lia.
  - set (n := if rateSecond s =? now then rateCount s else 0) in *.
    assert (0 <= n) as Hn0 by (unfold n; case_if; lia).
    assert (now = t -> n = if rateSecond s =? t then rateCount s else 0) as Hnt by (intros <-; done).
    assert (rateSecond s <> now -> rateSecond s = t -> admitted t l (run_rate max l (mkRate now (n + 1))) = 0 /\
      admitted t l (run_rate max l (mkRate now n)) = 0) as Hpast.
    { intros H1 H2. split; apply (admitted_after t max l now); (done || lia). }
    destruct (Z.leb_spec max n) as [Hge|Hlt]; simpl.
    + pose proof (IH (mkRate now n) Hn Hn0) as H. simpl in H.
      destruct (Z.eqb_spec now t) as [Hnow|Hnow].
      * specialize (Hnt Hnow). destruct (Z.eqb_spec (rateSecond s) t); lia.
      * destruct (Z.eqb_spec (rateSecond s) t) as [Hst|Hst]; [|lia].
        destruct Hpast; [congruence|done|]. lia.
    + pose proof (IH (mkRate now (n + 1)) Hn ltac:(simpl; lia)) as H. simpl in H.
      destruct (Z.eqb_spec now t) as [Hnow|Hnow]; simpl.
      * specialize (Hnt Hnow). destruct (Z.eqb_spec (rateSecond s) t); lia.
      * destruct (Z.eqb_spec (rateSecond s) t) as [Hst|Hst]; [|lia].
        destruct Hpast; [congruence|done|]. lia.
Qed.

Lemma rate_priority max l : forall s i now ev, 0 < max -> l !! i = Some (now, ev) -> IsPriority (ev_Status ev) = true ->
  run_rate max l s !! i = Some true.
Proof.
  induction l as [|[now' ev'] l IH]; intros s i now ev Hm Hi Hp; [done|]. simpl.
  destruct (allowEvent max now' ev' s) as [ok s'] eqn:E. destruct i as [|i]; simpl in *; [|eauto].
  simplify_eq. destruct (allowEvent_cases max now ev s Hm) as [[_ E']|[Hp' _]]; [|congruence].
  rewrite E' in E. by simplify_eq.
Qed.

(** The rate limit holds and spares failures: with a clock that does not run backwards,
    no second lets more than [MaxEventsPerSec] ordinary events through, and every failed
    event passes. *)
Theorem rate_limit max l t : 0 < max -> nondecreasing 0 l ->
  admitted t l (run_rate max l (mkRate 0 0)) <= max /\
  forall i now ev, l !! i = Some (now, ev) -> IsPriority (ev_Status ev) = true ->
    run_rate max l (mkRate 0 0) !! i = Some true.
Proof.
  intros Hm Hl. split.
  - pose proof (rate_budget t max l Hm (mkRate 0 0) Hl ltac:(simpl; lia)) as H.
    cbn [rateSecond rateCount] in H. destruct (0 =? t); lia.
  - intros i now ev. by apply rate_priority.
Qed.

Lemma rate_limit_witness :
  let ok := sample_event "e" "t" "s" "ok" 0 0 "" None [] in
  admitted 7 [(7, ok); (7, ok); (8, ok)] (run_rate 1 [(7, ok); (7, ok); (8, ok)] (mkRate 0 0)) <= 1.
Proof.
  intros ok. refine (proj1 (rate_limit 1 [(7, ok); (7, ok); (8, ok)] 7 _ _)); [lia|simpl; lia].
Defined.

(** ** Whole runes *)

Fixpoint concat_str (l : list string) : string :=
  match l with [] => "" | s :: l => s +:+ concat_str l end.

(** A rune's encoding: a byte that starts a rune and the bytes that continue it. *)
Definition rune_bytes (s : string) : Prop :=
  exists c rest, s = String c rest /\ is_continuation c = false /\ all_chars is_continuation rest = true.

Lemma get_app_l a b n : (n < String.length a)%nat -> String.get n (a +:+ b) = String.get n a.
Proof.
  revert n. induction a as [|c a IH]; intros n Hn; simpl in Hn; [lia|].
  rewrite string_app_cons. destruct n; simpl; [done|]. apply IH. lia.
Qed.

Lemma get_app_r a b n : String.get (String.length a + n) (a +:+ b) = String.get n b.
Proof. induction a as [|c a IH]; [by rewrite string_app_nil_l|]. rewrite string_app_cons. simpl. exact IH. Qed.

Lemma get_all_chars p s n c : all_chars p s = true -> String.get n s = Some c -> p c = true.
Proof.
  revert n. induction s as [|d s IH]; intros n Ha Hg; [done|]. simpl in Ha. apply andb_true_iff in Ha as [Hd Ha].
  destruct n; simpl in Hg; [by simplify_eq|eauto].
Qed.

Lemma get_Some n s : (n < String.length s)%nat -> exists c, String.get n s = Some c.
Proof.
  revert n. induction s as [|d s IH]; intros n Hn; simpl in Hn; [lia|]. destruct n; simpl; [by eexists|apply IH; lia].
Qed.

(** Inside the encoding after [pre] the cut goes back to its first byte. *)
Lemma rune_cut_back pre s post k : rune_bytes s -> (k < String.length s)%nat ->
  rune_cut (pre +:+ s +:+ post) (String.length pre + k) = String.length pre.
Proof.
  intros (c & rest & -> & Hc & Hr). induction k as [|k IH]; intros Hk.
  - rewrite Nat.add_0_r. destruct (String.length pre) as [|m] eqn:El; [done|]. cbn [rune_cut].
    rewrite <- El, <- (Nat.add_0_r (String.length pre)), get_app_r. simpl. rewrite Hc. done.
  - rewrite Nat.add_succ_r. cbn [rune_cut]. rewrite <- Nat.add_succ_r, get_app_r.
    rewrite string_app_cons. simpl. simpl in Hk.
    destruct (get_Some k rest ltac:(lia)) as [d Hd]. rewrite get_app_l by lia. rewrite Hd.
    rewrite (get_all_chars _ _ _ _ Hr Hd). apply IH. simpl. lia.
Qed.

Lemma rune_cut_spec runes : Forall rune_bytes runes -> forall pre n,
  (String.length pre <= n < String.length (pre +:+ concat_str runes))%nat ->
  exists done_ r rest, runes = done_ ++ r :: rest /\
    rune_cut (pre +:+ concat_str runes) n = String.length (pre +:+ concat_str done_) /\
    (String.length (pre +:+ concat_str done_) <= n < String.length (pre +:+ concat_str done_ +:+ r))%nat.
Proof.
  induction 1 as [|r rest Hr Hrest IH]; intros pre n Hn; simpl in *.
  - rewrite string_app_nil_r in Hn. lia.
  - destruct (decide (n < String.length pre + String.length r)%nat) as [Hlt|Hge].
    + exists [], r, rest. split; [done|]. simpl. rewrite string_app_nil_r.
      replace n with (String.length pre + (n - String.length pre))%nat at 1 by lia.
      rewrite rune_cut_back by (done || lia). rewrite string_app_nil_l, string_length_app. lia.
    + destruct (IH (pre +:+ r) n) as (d & x & rs & -> & Hcut & Hlen).
      { rewrite string_app_assoc, string_length_app. lia. }
      exists (r :: d), x, rs. split; [done|]. simpl. rewrite !string_app_assoc in Hcut, Hlen. rewrite !string_app_assoc. done.
Qed.

(** [boundString] never splits a character: cut to [n] bytes, a text made of whole runes
    becomes the longest run of its leading runes that fits. *)
Theorem boundString_whole_runes runes n : Forall rune_bytes runes ->
  exists kept rest, runes = kept ++ rest /\ boundString (concat_str runes) n = concat_str kept /\
    (String.length (concat_str kept) <= n)%nat /\
    (forall r rest', rest = r :: rest' -> (n < String.length (concat_str kept +:+ r))%nat).
Proof.
  intros Hr. unfold boundString. destruct (Nat.leb_spec (String.length (concat_str runes)) n) as [Hle|Hgt].
  - exists runes, []. rewrite app_nil_r. split; [done|split; [done|split; [lia|done]]].
  - destruct (rune_cut_spec runes Hr "" n) as (d & x & rs & -> & Hcut & Hlen); [rewrite string_app_nil_l; simpl; lia|].
    rewrite !string_app_nil_l in *. rewrite Hcut. exists d, (x :: rs). split; [done|].
    assert (forall l1 l2, concat_str (l1 ++ l2) = concat_str l1 +:+ concat_str l2) as Happ.
    { intros l1 l2. induction l1 as [|s l1 IH]; simpl; [by rewrite string_app_nil_l|]. by rewrite IH, string_app_assoc. }
    rewrite Happ, take_bytes_app. split; [done|split; [lia|]]. intros r rest' [= -> ->]. lia.
Qed.

Lemma boundString_whole_runes_witness :
  boundString (concat_str ["a"; bytes_string [195; 169]%nat; "b"]) 2 = concat_str ["a"].
Proof.
  destruct (boundString_whole_runes ["a"; bytes_string [195; 169]%nat; "b"] 2) as (kept & rest & H1 & H2 & H3 & H4).
  - apply Forall_forall. intros s Hs. repeat (apply elem_of_cons in Hs as [->|Hs]).
    + by exists "a"%char, "".
    + by eexists _, _.
    + by exists "b"%char, "".
    + by apply elem_of_nil in Hs.
  - destruct kept as [|a [|b kept]]; simplify_eq/=. exact H2.
Defined.

(** ** Generated identifiers *)

Lemma hex_bytes_ok b : Forall (fun z => 0 <= z < 256) b ->
  String.length (hex_bytes b) = (2 * length b)%nat /\ all_chars is_lower_hex (hex_bytes b) = true.
Proof. apply hex_ok. Qed.

Lemma randomHex_ok n b : (n <= length b)%nat -> Forall (fun z => 0 <= z < 256) b ->
  String.length (randomHex n b) = (2 * n)%nat /\ all_chars is_lower_hex (randomHex n b) = true.
Proof.
  intros Hn Hb. destruct (hex_bytes_ok (take n b)) as [Hl Hc]; [by apply Forall_take|].
  unfold randomHex. rewrite Hl, length_take. split; [f_equal; lia|done].
Qed.

(** The ids the SDK makes are ids the server accepts: from any sixteen and eight random
    bytes (or bytes of the clock when the random source fails) [Begin] gives a request
    whose trace and span ids have the schema's shape, and keeps the caller's own. *)
Theorem Begin_ids_conform {S} (s : sdk S) p opts eventID b16 b8 clock :
  (length b16 = 16)%nat -> (length b8 = 8)%nat ->
  Forall (fun z => 0 <= z < 256) b16 -> Forall (fun z => 0 <= z < 256) b8 ->
  exists r, k_requests (Begin p opts eventID (randomHex 16 b16) (randomHex 8 b8) clock s) !! p = Some r /\
    p ∈ k_active (Begin p opts eventID (randomHex 16 b16) (randomHex 8 b8) clock s) /\ sealed r = false /\
    (if String.eqb (bo_TraceID opts) "" then hex32 (id_traceID (r_id r)) = true
     else id_traceID (r_id r) = bo_TraceID opts) /\
    (if String.eqb (bo_SpanID opts) "" then hex16_opt (id_spanID (r_id r)) = true /\ id_spanID (r_id r) <> ""
     else id_spanID (r_id r) = bo_SpanID opts).
Proof.
  intros H16 H8 B16 B8. unfold Begin. destruct (k_limits s) as [[ms ml] mb]. cbn [k_requests k_active].
  rewrite lookup_insert_eq. eexists. split; [done|split; [set_solver|split; [done|]]].
  cbn [r_id newRequest id_traceID id_spanID]. unfold or_else.
  destruct (randomHex_ok 16 b16) as [L16 C16]; [lia|done|]. destruct (randomHex_ok 8 b8) as [L8 C8]; [lia|done|]. split.
  - case_if; [|done]. unfold hex32. by rewrite L16, C16.
  - case_if; [|done]. unfold hex16_opt. rewrite L8, C8, orb_true_r. split; [done|]. intros Hz. by rewrite Hz in L8.
Qed.

Lemma seedFromTime_bytes nano n : length (seedFromTime nano n) = n /\ Forall (fun z => 0 <= z < 256) (seedFromTime nano n).
Proof.
  unfold seedFromTime. rewrite length_fmap, length_seq. split; [done|].
  apply Forall_fmap, Forall_forall. intros i _. simpl.
  change 255 with (Z.ones 8). rewrite Z.land_ones by lia. apply Z.mod_pos_bound. lia.
Qed.

(** ** The active set *)

Lemma sealed_op o r c r' c' : run_op o (r, c) = Some (r', c') -> sealed r' = sealed r.
Proof. by intros (_ & H & _)%op_frame. Qed.

Section Active.
Context {S : Type} `{Sink S}.

(** The active set is the set of the requests not sealed yet. *)
Definition tracked (s : sdk S) : Prop :=
  forall p, p ∈ k_active s <-> exists r, k_requests s !! p = Some r /\ sealed r = false.

Lemma deliver_frame now ev (s : sdk S) : k_requests (deliver now ev s).2 = k_requests s /\
  k_active (deliver now ev s).2 = k_active s /\
  (IsPriority (ev_Status ev) = true -> (deliver now ev s).1 = (sink_deliver ev (k_sink s)).1 /\
     k_sink (deliver now ev s).2 = (sink_deliver ev (k_sink s)).2).
Proof.
  unfold deliver. destruct (allowEvent _ _ _ _) as [ok rt] eqn:E. destruct ok; simpl.
  - by destruct (sink_deliver ev (k_sink s)).
  - split; [done|split; [done|]]. intros Hp. unfold allowEvent in E. by rewrite Hp, orb_true_r in E.
Qed.

Lemma count_when_frame b k (s : sdk S) : k_requests (count_when b k s) = k_requests s /\
  k_active (count_when b k s) = k_active s /\ k_sink (count_when b k s) = k_sink s.
Proof. by destruct b. Qed.

Lemma seal_result cfg k mark tsEnd r c oev r' c' : seal cfg k mark tsEnd (r, c) = (oev, (r', c')) ->
  sealed r' = true /\ (oev = None <-> sealed r = true) /\ (sealed r = true -> r' = r).
Proof.
  unfold seal. destruct (sealed r) eqn:E; [by intros [= <- <- <-]|].
  destruct (applyLifecycleLocked mark k (r, c)) as [r1 c1]. by intros [= <- <- <-].
Qed.

(** What [finalize] does to the requests and the active set. *)
Lemma finalize_frame p k mark tsEnd now (s : sdk S) r : k_requests s !! p = Some r ->
  exists r', sealed r' = true /\ k_requests (finalize p k mark tsEnd now s).2 = <[p := r']> (k_requests s) /\
    k_active (finalize p k mark tsEnd now s).2 = (if sealed r then k_active s else k_active s ∖ {[p]}).
Proof.
  intros Hr. unfold finalize. rewrite Hr.
  destruct (seal (k_cfg s) k mark tsEnd (r, k_counts s)) as [oev [r' c']] eqn:E.
  pose proof (seal_result _ _ _ _ _ _ _ _ _ E) as (H1 & H2 & _). exists r'. split; [done|].
  destruct oev as [ev|].
  - assert (sealed r = false) as ->.
    { destruct (sealed r); [|done]. by specialize (proj2 H2 eq_refl). }
    destruct (deliver now ev _) as [res s2] eqn:Ed.
    match type of Ed with deliver now ev ?s1 = _ => pose proof (deliver_frame now ev s1) as (F1 & F2 & _) end.
    rewrite Ed in F1, F2. simpl in F1, F2.
    destruct res as [acc|]; simpl; [|by rewrite F1, F2].
    pose proof (count_when_frame acc CEmitted s2) as (G1 & G2 & _).
    pose proof (count_when_frame (acc && String.eqb (ev_Status ev) StatusSuppressed) CSuppressed (count_when acc CEmitted s2))
      as (G3 & G4 & _). by rewrite G3, G4, G1, G2, F1, F2.
  - rewrite (proj1 H2 eq_refl). done.
Qed.

Lemma tracked_call a s s' : tracked s -> do_call a s = Some s' -> tracked s'.
Proof.
  intros T. destruct a as [p opts e t sp clock|p o|p k mark tsEnd now]; simpl.
  - destruct (decide _) as [Hp|Hp]; [done|]. intros [= <-]. unfold Begin. destruct (k_limits s) as [[ms ml] mb].
    intros q. simpl. rewrite elem_of_union, elem_of_singleton, (T q). destruct (decide (p = q)) as [<-|Hne].
    + rewrite lookup_insert_eq. split; [intros _; by eexists|by left].
    + rewrite lookup_insert_ne by done. split; [intros [->|?]; done|by right].
  - unfold on_request. destruct (k_requests s !! p) as [r|] eqn:Hr; [|by intros [= <-]].
    destruct (run_op o (r, k_counts s)) as [[r' c']|] eqn:E; [|done]. intros [= <-]. apply sealed_op in E.
    intros q. simpl. rewrite (T q). destruct (decide (p = q)) as [<-|Hne].
    + rewrite lookup_insert_eq, Hr. split; intros (r1 & [= <-] & Hs); eexists; (split; [done|congruence]).
    + by rewrite lookup_insert_ne by done.
  - intros [= <-]. destruct (k_requests s !! p) as [r|] eqn:Hr; [|unfold finalize; by rewrite Hr].
    destruct (finalize_frame p k mark tsEnd now s r Hr) as (r' & Hs & Hq & Ha). intros q. rewrite Hq, Ha.
    destruct (decide (p = q)) as [<-|Hne].
    + rewrite lookup_insert_eq. destruct (sealed r) eqn:Er.
      * rewrite (T p), Hr. split; intros (r1 & [= <-] & Hs1); congruence.
      * split; [set_solver|]. intros (r1 & [= <-] & Hs1). congruence.
    + rewrite lookup_insert_ne by done. rewrite <- (T q). destruct (sealed r); set_solver.
Qed.
End Active.

(** The active set is exact: after any calls on a fresh SDK (begins of new requests,
    operations, finalizations, in any order) a request is active exactly while it is not
    sealed, so [Shutdown], which waits for the set to empty, waits for every request. *)
Theorem active_until_finalized {S} `{Sink S} cfg limits sink l s :
  do_calls l (mkSdk cfg limits zero_counts (mkRate 0 0) ∅ ∅ sink) = Some s ->
  forall p, p ∈ k_active s <-> exists r, k_requests s !! p = Some r /\ sealed r = false.
Proof.
  intros Hrun. change (tracked s).
  assert (forall l s0, tracked s0 -> do_calls l s0 = Some s -> tracked s) as Hall.
  { clear. induction l as [|a l IH]; intros s0 T Hd; simpl in Hd; [by simplify_eq|].
    destruct (do_call a s0) as [s1|] eqn:E; [|done]. eapply IH; [by eapply tracked_call|done]. }
  eapply Hall; [|exact Hrun]. intros p. simpl. split; [set_solver|]. intros (r & Hr & _). by rewrite lookup_empty in Hr.
Qed.

(** An event is delivered once.  Finalizing an open request makes an event, takes the
    request out of the active set and, when the event is a failure or the rate limit lets
    it by, offers it to the sink; finalizing the request again makes none and leaves the
    sink alone. *)
Theorem finalize_delivers_once {S} `{Sink S} p k mark tsEnd now (s : sdk S) r :
  k_requests s !! p = Some r -> sealed r = false ->
  exists ev err s', finalize p k mark tsEnd now s = ((Some ev, err), s') /\ (p ∉ k_active s') /\
    (IsPriority (ev_Status ev) = true -> k_sink s' = (sink_deliver ev (k_sink s)).2 /\
       (err = None <-> (sink_deliver ev (k_sink s)).1 <> None)) /\
    forall k2 mark2 end2 now2, exists s'', finalize p k2 mark2 end2 now2 s' = ((None, None), s'') /\
      k_sink s'' = k_sink s'.
Proof.
  intros Hr Ho. destruct (finalize_frame p k mark tsEnd now s r Hr) as (r' & Hs & Hq & Ha). rewrite Ho in Ha.
  destruct (finalize p k mark tsEnd now s) as [[oev err] s'] eqn:E. cbn [snd] in Hq, Ha.
  assert (forall k2 mark2 end2 now2, exists s'', finalize p k2 mark2 end2 now2 s' = ((None, None), s'') /\
    k_sink s'' = k_sink s') as Hagain.
  { intros k2 m2 e2 n2. unfold finalize. rewrite Hq, lookup_insert_eq. unfold seal. rewrite Hs. by eexists. }
  unfold finalize in E. rewrite Hr in E. destruct (seal _ k mark tsEnd _) as [oe [r1 c1]] eqn:Es.
  pose proof (seal_result _ _ _ _ _ _ _ _ _ Es) as (_ & Hn & _).
  destruct oe as [ev|]; [|by rewrite (proj1 Hn eq_refl) in Ho].
  destruct (deliver now ev _) as [res s2] eqn:Ed.
  match type of Ed with deliver now ev ?s1 = _ => pose proof (deliver_frame now ev s1) as (_ & _ & F3) end.
  rewrite Ed in F3. cbn [fst snd k_sink set_request] in F3.
  exists ev, err, s'. destruct res as [acc|]; injection E as <- <- <-.
  - split; [done|split; [rewrite Ha; set_solver|split; [|done]]]. intros Hp. destruct (F3 Hp) as [F4 F5].
    pose proof (count_when_frame acc CEmitted s2) as (_ & _ & G1).
    pose proof (count_when_frame (acc && String.eqb (ev_Status ev) StatusSuppressed) CSuppressed (count_when acc CEmitted s2))
      as (_ & _ & G2). rewrite G2, G1, F5. split; [done|]. by rewrite <- F4.
  - split; [done|split; [rewrite Ha; set_solver|split; [|done]]]. intros Hp. destruct (F3 Hp) as [F4 F5].
    rewrite F5. split; [done|]. rewrite <- F4. done.
Qed.

(** ** A concrete SDK *)

Definition demo_sdk : sdk (list string) :=
  mkSdk (mkSdkConfig "checkout" "prod" "" 0 None) (4, 4, 1000) zero_counts (mkRate 0 0) ∅ ∅ [].
#[local] Instance demo_sink : Sink (list string) := local_sink (fun ev => Some (ev_EventID ev)) (fun _ => true).

Definition demo_calls : list call :=
  [KBegin 1%positive (mkBegin "" "" "" 0) "e1" "t1" "s1" 5; KBegin 2%positive (mkBegin "" "" "" 0) "e2" "t2" "s2" 6;
   KOp 1%positive (OFail (Some (mkError "E" "" ""))); KFinalize 2%positive lifecycleNormal 9 9 0].

Definition demo_after : sdk (list string) := default demo_sdk (do_calls demo_calls demo_sdk).

Lemma demo_calls_run : do_calls demo_calls demo_sdk = Some demo_after.
Proof.
  unfold demo_after. destruct (do_calls demo_calls demo_sdk) as [s|] eqn:E; [reflexivity|].
  apply (f_equal (fun o => match o with Some _ => true | None => false end)) in E. vm_compute in E. discriminate E.
Qed.

Lemma active_until_finalized_witness :
  1%positive ∈ k_active demo_after <-> exists r, k_requests demo_after !! 1%positive = Some r /\ sealed r = false.
Proof.
  apply (active_until_finalized (mkSdkConfig "checkout" "prod" "" 0 None) (4, 4, 1000) [] demo_calls demo_after demo_calls_run).
Defined.

Lemma finalize_delivers_once_witness : exists r ev err s',
  k_requests demo_after !! 1%positive = Some r /\
  finalize 1%positive lifecycleNormal 9 9 0 demo_after = ((Some ev, err), s') /\ (1%positive ∉ k_active s').
Proof.
  assert (exists r, k_requests demo_after !! 1%positive = Some r /\ sealed r = false) as (r & Hr & Ho).
  { destruct (k_requests demo_after !! 1%positive) as [r|] eqn:E.
    - exists r. split; [reflexivity|]. apply (f_equal (option_map sealed)) in E. vm_compute in E. by injection E.
    - exfalso. apply (f_equal (option_map sealed)) in E. vm_compute in E. discriminate E. }
  destruct (finalize_delivers_once 1%positive lifecycleNormal 9 9 0 demo_after r Hr Ho) as (ev & err & s' & H1 & H2 & _).
  exists r, ev, err, s'. split; [exact Hr|split; [exact H1|exact H2]].
Defined.

Lemma Begin_ids_conform_witness : exists r,
  k_requests (Begin 1%positive (mkBegin "" "" "" 0) "e" (randomHex 16 (replicate 16 171)) (randomHex 8 (replicate 8 7)) 5 demo_sdk)
    !! 1%positive = Some r /\ hex32 (id_traceID (r_id r)) = true.
Proof.
  destruct (Begin_ids_conform demo_sdk 1%positive (mkBegin "" "" "" 0) "e" (replicate 16 171) (replicate 8 7) 5)
    as (r & H1 & _ & _ & H2 & _).
  - reflexivity.
  - reflexivity.
  - apply Forall_replicate. lia.
  - apply Forall_replicate. lia.
  - exists r. split; [exact H1|exact H2].
Defined.
