(* ===== verification/Idempotency.v ===== *)
(** The idempotency cache of the first-generation endpoints ([internal/ingest/dedup.go]):
    cached responses in LRU order, one executor per key, waiters that share its result.
    Each locked section is one function of the cache; [sys] interleaves the calls that
    use it. *)

From S2P Require Import Prelude GoRuntime Types.
Open Scope Z_scope.

Definition dedupMaxEntries : Z := 1000.

Record APIError := mkAPIError { ae_Code : string; ae_Message : string; ae_Retryable : bool }.

(** A cached or shared response; [de_ptr] is its address, which the code compares. *)
Record dedupEntry := mkDedupEntry {
  de_ptr : positive;
  de_Status : Z;
  de_Data : option value;
  de_Err : option APIError;
  de_DurationMs : Z;
  de_BodyHash : list Z;
  de_ExpiresAt : Time
}.

Record inflight := mkInflight { if_bodyHash : list Z; if_done : bool; if_entry : option dedupEntry }.

(** [DedupCache]: the list element of a key is identified by the key, so [order] is the
    LRU list and [entries] what its elements hold; [flights] are the [inflight] objects by
    address, [next] the next free address. *)
Record DedupCache := mkDedupCache {
  entries : gmap string dedupEntry;
  order : list string;
  pending : gmap string positive;
  flights : gmap positive inflight;
  next : positive
}.

Definition NewDedupCache : DedupCache := mkDedupCache ∅ [] ∅ ∅ 1%positive.

Definition zero_sep : string := String (ascii_of_nat 0) "".

Definition dedupCacheKey (method path principal idempotencyKey : string) : string :=
  Sha256.hex (Sha256.sum256 (method +:+ zero_sep +:+ path +:+ zero_sep +:+ principal +:+ zero_sep +:+ idempotencyKey)).

Definition dedupTTL (status : Z) : Duration :=
  if status =? 200 then 5 * Minute
  else if status =? 400 then 5 * Minute
  else if status =? 404 then 30 * Second
  else if status =? 422 then 5 * Minute
  else 0.

Definition isCacheable (status : Z) : bool := 0 <? dedupTTL status.

(** [order.Remove] of the element of a key, and [MoveToBack]. *)
Definition remove_key (k : string) (l : list string) : list string := List.filter (fun x => negb (String.eqb x k)) l.
Definition move_to_back (k : string) (l : list string) : list string := remove_key k l ++ [k].

Definition delete_entry (k : string) (c : DedupCache) : DedupCache :=
  mkDedupCache (delete k (entries c)) (remove_key k (order c)) (pending c) (flights c) (next c).

(** [evictExpired]: from the front of the list to its end. *)
Fixpoint evict_loop (now : Time) (l : list string) (c : DedupCache) : DedupCache :=
  match l with
  | [] => c
  | k :: l =>
    evict_loop now l
      match entries c !! k with
      | Some e => if Before (de_ExpiresAt e) now then delete_entry k c else c
      | None => c
      end
  end.
Definition evictExpired (now : Time) (c : DedupCache) : DedupCache := evict_loop now (order c) c.

(** The size loop of [storeLocked], over the list's elements. *)
Fixpoint make_room (l : list string) (c : DedupCache) : DedupCache :=
  match l with
  | [] => c
  | front :: l => if dedupMaxEntries <=? Z.of_nat (length (order c)) then make_room l (delete_entry front c) else c
  end.

Definition storeLocked (k : string) (e : dedupEntry) (c : DedupCache) : DedupCache :=
  match entries c !! k with
  | Some _ => mkDedupCache (<[k := e]> (entries c)) (move_to_back k (order c)) (pending c) (flights c) (next c)
  | None =>
    let c := make_room (order c) c in
    mkDedupCache (<[k := e]> (entries c)) (order c ++ [k]) (pending c) (flights c) (next c)
  end.

Definition bump_next (c : DedupCache) : DedupCache :=
  mkDedupCache (entries c) (order c) (pending c) (flights c) (Pos.succ (next c)).

(** [Store]. *)
Definition Store (k : string) (hash : list Z) (now : Time) (status : Z) (data : option value) (err : option APIError)
    (c : DedupCache) : DedupCache :=
  let ttl := dedupTTL status in
  if ttl =? 0 then c else
  storeLocked k (mkDedupEntry (next c) status data err 0 hash (TimeAdd now ttl)) (bump_next c).

(** One locked pass of [AcquireOrWait]. *)
Inductive acquired :=
| Conflict
| Hit (raw : dedupEntry)
| Owner (flight : positive)
| Wait (flight : positive).

Definition acquire_pending (k : string) (hash : list Z) (c : DedupCache) : acquired * DedupCache :=
  match pending c !! k with
  | Some id => (Wait id, c)
  | None =>
    (Owner (next c),
     mkDedupCache (entries c) (order c) (<[k := next c]> (pending c))
       (<[next c := mkInflight hash false None]> (flights c)) (Pos.succ (next c)))
  end.

Definition acquire (now : Time) (k : string) (hash : list Z) (c : DedupCache) : acquired * DedupCache :=
  match entries c !! k with
  | Some e =>
    if After (de_ExpiresAt e) now then
      if negb (bool_decide (de_BodyHash e = hash)) then (Conflict, c) else
      (Hit e, mkDedupCache (entries c) (move_to_back k (order c)) (pending c) (flights c) (next c))
    else acquire_pending k hash (delete_entry k c)
  | None => acquire_pending k hash c
  end.

(** The second locked section after a copy that failed: drop the entry unless it was
    replaced meanwhile. *)
Definition drop_raw (k : string) (raw : dedupEntry) (c : DedupCache) : DedupCache :=
  match entries c !! k with
  | Some e => if Pos.eqb (de_ptr e) (de_ptr raw) then delete_entry k c else c
  | None => c
  end.

Definition Complete (k : string) (hash : list Z) (now : Time) (status : Z) (data : option value)
    (err : option APIError) (durationMs : Z) (c : DedupCache) : DedupCache :=
  match pending c !! k with
  | None => c
  | Some id =>
    let entry := mkDedupEntry (next c) status data err durationMs hash
                   (if isCacheable status then TimeAdd now (dedupTTL status) else time_zero) in
    let c := bump_next c in
    let fl := match flights c !! id with Some fl => fl | None => mkInflight hash false None end in
    let c := mkDedupCache (entries c) (order c) (pending c) (<[id := mkInflight (if_bodyHash fl) true (Some entry)]> (flights c)) (next c) in
    let c := if isCacheable status then storeLocked k entry c else c in
    mkDedupCache (entries c) (order c) (delete k (pending c)) (flights c) (next c)
  end.

(** [deepCopyEntry]: [copy] is the round trip of the data through JSON, which may fail. *)
Definition deepCopyEntry (copy : value -> option value) (fresh : positive) (e : dedupEntry) : option dedupEntry :=
  let cp d := mkDedupEntry fresh (de_Status e) d (de_Err e) (de_DurationMs e) (de_BodyHash e) (de_ExpiresAt e) in
  match de_Data e with
  | None => Some (cp None)
  | Some d => d' ← copy d; Some (cp (Some d'))
  end.

Definition Size (c : DedupCache) : nat := length (order c).

(** ** The calls that share a cache *)

(** A request with an idempotency key, from its first pass to its answer. *)
Inductive caller :=
| Acquiring (key : string) (hash : list Z)
| Copying (key : string) (hash : list Z) (raw : dedupEntry)
| Waiting (key : string) (hash : list Z) (flight : positive)
| Executing (key : string) (hash : list Z)
| Answered (key : string) (hash : list Z) (entry : dedupEntry)
| Refused (key : string) (hash : list Z)
| Aborted (key : string) (hash : list Z)
| Finished (key : string) (hash : list Z).

(** [s_executed] records the responses executors completed, by key and body. *)
Record sys := mkSys {
  s_cache : DedupCache;
  s_callers : gmap positive caller;
  s_executed : list (string * list Z * dedupEntry)
}.

Definition set_caller (s : sys) (p : positive) (x : caller) (c : DedupCache) : sys :=
  mkSys c (<[p := x]> (s_callers s)) (s_executed s).

Inductive event :=
| ECall (p : positive) (key : string) (hash : list Z)
| EAcquire (p : positive) (now : Time)
| ECopy (p : positive)
| EWake (p : positive)
| ECancel (p : positive)
| EComplete (p : positive) (now : Time) (status : Z) (data : option value) (err : option APIError) (durationMs : Z)
| EEvict (now : Time).

Section Calls.
Context (copy : value -> option value).

(** What a caller does with a response: the copy is its answer. *)
Definition wake (key : string) (hash : list Z) (fl : inflight) (fresh : positive) : caller :=
  if negb (bool_decide (if_bodyHash fl = hash)) then Refused key hash else
  match if_entry fl with
  | Some e => match deepCopyEntry copy fresh e with Some cp => Answered key hash cp | None => Executing key hash end
  | None => Executing key hash
  end.

Definition step (ev : event) (s : sys) : option sys :=
  let c := s_cache s in
  match ev with
  | ECall p key hash => match s_callers s !! p with Some _ => None | None => Some (set_caller s p (Acquiring key hash) c) end
  | EAcquire p now =>
    match s_callers s !! p with
    | Some (Acquiring key hash) =>
      let '(a, c) := acquire now key hash c in
      Some (set_caller s p
        match a with
        | Conflict => Refused key hash
        | Hit raw => Copying key hash raw
        | Owner _ => Executing key hash
        | Wait id => Waiting key hash id
        end c)
    | _ => None
    end
  | ECopy p =>
    match s_callers s !! p with
    | Some (Copying key hash raw) =>
      match deepCopyEntry copy (next c) raw with
      | Some cp => Some (set_caller s p (Answered key hash cp) (bump_next c))
      | None => Some (set_caller s p (Acquiring key hash) (drop_raw key raw c))
      end
    | _ => None
    end
  | EWake p =>
    match s_callers s !! p with
    | Some (Waiting key hash id) =>
      fl ← flights c !! id;
      if if_done fl then Some (set_caller s p (wake key hash fl (next c)) (bump_next c)) else None
    | _ => None
    end
  | ECancel p =>
    match s_callers s !! p with
    | Some (Waiting key hash id) => Some (set_caller s p (Aborted key hash) c)
    | _ => None
    end
  | EComplete p now status data err durationMs =>
    match s_callers s !! p with
    | Some (Executing key hash) =>
      let entry := mkDedupEntry (next c) status data err durationMs hash
                     (if isCacheable status then TimeAdd now (dedupTTL status) else time_zero) in
      Some (mkSys (Complete key hash now status data err durationMs c)
              (<[p := Finished key hash]> (s_callers s)) ((key, hash, entry) :: s_executed s))
    | _ => None
    end
  | EEvict now => Some (mkSys (evictExpired now c) (s_callers s) (s_executed s))
  end.

Inductive reachable : sys -> Prop :=
| reach_init : reachable (mkSys NewDedupCache ∅ [])
| reach_step ev s s' : reachable s -> step ev s = Some s' -> reachable s'.
End Calls.

(** ** The cache's shape *)

(** The list holds each cached key once, and no more than the limit. *)
Record cwf (c : DedupCache) : Prop := {
  cw_nodup : NoDup (order c);
  cw_keys : forall k, k ∈ order c <-> is_Some (entries c !! k);
  cw_size : Z.of_nat (length (order c)) <= dedupMaxEntries
}.

Lemma elem_of_remove_key k x l : x ∈ remove_key k l <-> x ∈ l /\ x <> k.
Proof. unfold remove_key. rewrite elem_of_lfilter, negb_true_iff, String.eqb_neq. done. Qed.

Lemma remove_key_length k l : NoDup l -> (length (remove_key k l) + (if decide (k ∈ l) then 1 else 0) = length l)%nat.
Proof.
  induction 1 as [|x l Hx Hn IH]; simpl; [by destruct (decide (k ∈ [])) as [H%elem_of_nil|]|].
  destruct (String.eqb_spec x k) as [->|Hne]; simpl.
  - destruct (decide (k ∈ k :: l)) as [_|H]; [|destruct H; by left].
    destruct (decide (k ∈ l)); [done|]. fold (remove_key k l). lia.
  - fold (remove_key k l). rewrite <- IH.
    destruct (decide (k ∈ l)) as [H1|H1], (decide (k ∈ x :: l)) as [H2|H2]; try lia.
    + destruct H2. by right.
    + apply elem_of_cons in H2 as [->|H2]; done.
Qed.

Lemma cwf_delete k c : cwf c -> cwf (delete_entry k c).
Proof.
  intros [H1 H2 H3]. split; simpl.
  - by apply NoDup_lfilter.
  - intros x. rewrite elem_of_remove_key, H2. destruct (decide (k = x)) as [<-|Hne].
    + rewrite lookup_delete_eq. split; [by intros []|by intros []].
    + rewrite lookup_delete_ne by done. split; [by intros []|by split].
  - pose proof (remove_key_length k _ H1). lia.
Qed.

Lemma cwf_touch k c : cwf c -> is_Some (entries c !! k) ->
  forall e, cwf (mkDedupCache (<[k := e]> (entries c)) (move_to_back k (order c)) (pending c) (flights c) (next c)).
Proof.
  intros [H1 H2 H3] Hk e. pose proof (proj2 (H2 k) Hk) as Hin. split; simpl.
  - unfold move_to_back. apply NoDup_app. split; [by apply NoDup_lfilter|split; [|apply NoDup_singleton]].
    intros x Hx ->%list_elem_of_singleton. apply elem_of_remove_key in Hx as [_ ?]. done.
  - intros x. unfold move_to_back. rewrite elem_of_app, list_elem_of_singleton, elem_of_remove_key, H2.
    destruct (decide (k = x)) as [<-|Hne].
    + rewrite lookup_insert_eq. split; [by eexists|by right].
    + rewrite lookup_insert_ne by done. split; [intros [[? ?]| ->]; done|intros ?; left; by split].
  - unfold move_to_back. rewrite length_app. simpl. pose proof (remove_key_length k _ H1) as Hl.
    destruct (decide (k ∈ order c)); [lia|done].
Qed.

(** What the locked sections leave alone while they edit the cache. *)
Definition same_flights (c c' : DedupCache) : Prop :=
  pending c' = pending c /\ flights c' = flights c /\ next c' = next c.

Lemma evict_loop_spec now l c : cwf c -> cwf (evict_loop now l c) /\ same_flights c (evict_loop now l c) /\
  (forall k e, entries (evict_loop now l c) !! k = Some e -> entries c !! k = Some e).
Proof.
  revert c. induction l as [|k l IH]; intros c Hw; simpl; [by (split; [done|split; [by repeat split|done]])|].
  assert (cwf match entries c !! k with Some e => if Before (de_ExpiresAt e) now then delete_entry k c else c | None => c end
    /\ same_flights c match entries c !! k with Some e => if Before (de_ExpiresAt e) now then delete_entry k c else c | None => c end
    /\ forall k' e', entries match entries c !! k with Some e => if Before (de_ExpiresAt e) now then delete_entry k c else c | None => c end !! k' = Some e'
       -> entries c !! k' = Some e') as (W1 & F1 & E1).
  { destruct (entries c !! k) as [e|]; [|by (split; [done|split; [by repeat split|done]])]. case_if; [|by (split; [done|split; [by repeat split|done]])].
    split; [by apply cwf_delete|split; [done|]]. intros k' e'. simpl.
    destruct (decide (k = k')) as [<-|Hne]; [by rewrite lookup_delete_eq|by rewrite lookup_delete_ne by done]. }
  destruct (IH _ W1) as (W2 & (F2 & F3 & F4) & E2). destruct F1 as (G1 & G2 & G3).
  split; [done|split; [|by eauto]]. unfold same_flights. split; [congruence|split; congruence].
Qed.

Lemma make_room_spec l c : cwf c -> (order c = l \/ Z.of_nat (length (order c)) < dedupMaxEntries) ->
  cwf (make_room l c) /\ same_flights c (make_room l c) /\
  Z.of_nat (length (order (make_room l c))) < dedupMaxEntries /\
  (forall k e, entries (make_room l c) !! k = Some e -> entries c !! k = Some e).
Proof.
  revert c. induction l as [|k l IH]; intros c Hw Hl; simpl.
  - split; [done|split; [done|split; [|done]]]. destruct Hl as [->|?]; [unfold dedupMaxEntries; simpl; lia|done].
  - destruct (Z.leb_spec dedupMaxEntries (Z.of_nat (length (order c)))) as [Hge|Hlt]; [|by (split; [done|split; [by repeat split|split; done]])].
    destruct Hl as [Hl|?]; [|lia]. pose proof (cw_nodup _ Hw) as Hn. rewrite Hl in Hn. inversion Hn as [|? ? Hk Hn']; subst.
    assert (order (delete_entry k c) = l) as Ho.
    { simpl. rewrite Hl. unfold remove_key. simpl. rewrite String.eqb_refl. simpl. apply lfilter_all.
      intros x Hx. apply negb_true_iff, String.eqb_neq. intros ->. done. }
    destruct (IH (delete_entry k c) (cwf_delete _ _ Hw) (or_introl Ho)) as (W & (F1 & F2 & F3) & Hs & E).
    split; [done|split; [done|split; [done|]]]. intros k' e' Hk'. apply E in Hk'. simpl in Hk'.
    destruct (decide (k = k')) as [<-|Hne]; [by rewrite lookup_delete_eq in Hk'|by rewrite lookup_delete_ne in Hk' by done].
Qed.

Lemma storeLocked_spec k e c : cwf c -> cwf (storeLocked k e c) /\ same_flights c (storeLocked k e c) /\
  (forall k' e', entries (storeLocked k e c) !! k' = Some e' -> k' = k /\ e' = e \/ entries c !! k' = Some e') /\
  entries (storeLocked k e c) !! k = Some e.
Proof.
  intros Hw. unfold storeLocked. destruct (entries c !! k) as [e0|] eqn:E.
  - split; [apply cwf_touch; [done|by eexists]|split; [done|split]]; simpl.
    + intros k' e'. destruct (decide (k = k')) as [<-|Hne].
      * rewrite lookup_insert_eq. intros [= <-]. by left.
      * rewrite lookup_insert_ne by done. by right.
    + apply lookup_insert_eq.
  - destruct (make_room_spec (order c) c Hw (or_introl eq_refl)) as (W & F & Hs & He).
    assert (entries (make_room (order c) c) !! k = None) as Hk.
    { destruct (entries (make_room (order c) c) !! k) as [e1|] eqn:E1; [|done]. apply He in E1. congruence. }
    split; [|split; [done|split]]; simpl.
    + destruct W as [W1 W2 W3]. split; simpl.
      * apply NoDup_app. split; [done|split; [|apply NoDup_singleton]].
        intros x Hx ->%list_elem_of_singleton. apply W2 in Hx. rewrite Hk in Hx. by destruct Hx.
      * intros x. rewrite elem_of_app, list_elem_of_singleton, W2. destruct (decide (k = x)) as [<-|Hne].
        -- rewrite lookup_insert_eq, Hk. split; [by eexists|by right].
        -- rewrite lookup_insert_ne by done. split; [intros [?| ->]; done|by left].
      * rewrite length_app. simpl. lia.
    + intros k' e'. destruct (decide (k = k')) as [<-|Hne].
      * rewrite lookup_insert_eq. intros [= <-]. by left.
      * rewrite lookup_insert_ne by done. right. by apply He.
    + apply lookup_insert_eq.
Qed.

(** A cache that differs only in its flights. *)
Lemma cwf_flights c p f n : cwf c -> cwf (mkDedupCache (entries c) (order c) p f n).
Proof. intros [H1 H2 H3]. by split. Qed.

Lemma acquire_cwf now k hash c : cwf c -> cwf (acquire now k hash c).2.
Proof.
  intros Hw. assert (forall c, cwf c -> cwf (acquire_pending k hash c).2) as Hp.
  { intros c0 H0. unfold acquire_pending. destruct (pending c0 !! k); [done|]. by apply cwf_flights. }
  unfold acquire. destruct (entries c !! k) as [e|] eqn:E; [|by apply Hp].
  case_if; [|by apply Hp, cwf_delete]. case_if; [done|]. simpl.
  pose proof (cwf_touch k c Hw (ex_intro _ e E) e) as Ht. rewrite insert_id in Ht by done. exact Ht.
Qed.

Lemma Complete_cwf k hash now status data err d c : cwf c -> cwf (Complete k hash now status data err d c).
Proof.
  intros Hw. unfold Complete. destruct (pending c !! k) as [id|]; [|done].
  destruct (isCacheable status); cbv zeta; apply cwf_flights; [apply storeLocked_spec|]; by apply (cwf_flights c).
Qed.

Lemma drop_raw_cwf k raw c : cwf c -> cwf (drop_raw k raw c).
Proof.
  intros Hw. unfold drop_raw. destruct (entries c !! k); [|done]. case_if; [by apply cwf_delete|done].
Qed.

(** The idempotency cache stays small and consistent: after any interleaving of calls,
    completions and evictions its list holds each cached key exactly once, and never more
    than a thousand of them. *)
Theorem cache_bounded copy s : reachable copy s ->
  NoDup (order (s_cache s)) /\ (forall k, k ∈ order (s_cache s) <-> is_Some (entries (s_cache s) !! k)) /\
  Z.of_nat (Size (s_cache s)) <= dedupMaxEntries.
Proof.
  intros Hr. cut (cwf (s_cache s)); [by intros []|]. induction Hr as [|ev s s' _ IH Hs].
  - split; simpl; [constructor| |unfold dedupMaxEntries; lia]. intros k. rewrite lookup_empty. split; [by intros H%elem_of_nil|by intros []].
  - destruct ev as [p key hash|p now|p|p|p|p now status data err d|now]; simpl in Hs.
    + destruct (s_callers s !! p); [done|]. by simplify_eq.
    + destruct (s_callers s !! p) as [[key hash| | | | | | |]|]; try done.
      pose proof (acquire_cwf now key hash _ IH) as Ha. destruct (acquire now key hash (s_cache s)) as [a c]. by simplify_eq.
    + destruct (s_callers s !! p) as [[|key hash raw| | | | | |]|]; try done.
      destruct (deepCopyEntry _ _ raw); simplify_eq; simpl; [by apply cwf_flights|by apply drop_raw_cwf].
    + destruct (s_callers s !! p) as [[| |key hash id| | | | |]|]; try done.
      destruct (flights (s_cache s) !! id) as [fl|]; [|done]. simpl in Hs. case_match; [|done]. simplify_eq. by apply cwf_flights.
    + destruct (s_callers s !! p) as [[| |key hash id| | | | |]|]; try done. by simplify_eq.
    + destruct (s_callers s !! p) as [[| | |key hash| | | |]|]; try done. simplify_eq. by apply Complete_cwf.
    + simplify_eq. simpl. by apply evict_loop_spec.
Qed.

(** ** One executor per key *)

(** What a cached entry, an open flight and a caller mean for each other while copies of
    responses never fail. *)
Record calls_ok (s : sys) : Prop := {
  co_next : forall id fl, flights (s_cache s) !! id = Some fl -> (id < next (s_cache s))%positive;
  co_pend : forall k id, pending (s_cache s) !! k = Some id -> exists h p,
    flights (s_cache s) !! id = Some (mkInflight h false None) /\ s_callers s !! p = Some (Executing k h);
  co_inj : forall k k' id, pending (s_cache s) !! k = Some id -> pending (s_cache s) !! k' = Some id -> k = k';
  co_exec : forall p k h, s_callers s !! p = Some (Executing k h) -> exists id,
    pending (s_cache s) !! k = Some id /\ flights (s_cache s) !! id = Some (mkInflight h false None);
  co_unique : forall p p' k h h', s_callers s !! p = Some (Executing k h) -> s_callers s !! p' = Some (Executing k h') -> p = p';
  co_wait : forall p k h id, s_callers s !! p = Some (Waiting k h id) ->
    pending (s_cache s) !! k = Some id \/
    exists h' e, flights (s_cache s) !! id = Some (mkInflight h' true (Some e)) /\ (k, h', e) ∈ s_executed s;
  co_entries : forall k e, entries (s_cache s) !! k = Some e -> (k, de_BodyHash e, e) ∈ s_executed s;
  co_copying : forall p k h raw, s_callers s !! p = Some (Copying k h raw) -> (k, h, raw) ∈ s_executed s
}.

(** A step of a caller that holds no slot, before and after, and that leaves the flights
    alone. *)
Definition slotless (x : caller) : bool := match x with Executing _ _ | Waiting _ _ _ => false | _ => true end.

Lemma calls_ok_caller s p x c :
  calls_ok s -> (forall k h, s_callers s !! p <> Some (Executing k h)) -> slotless x = true ->
  (forall k h raw, x = Copying k h raw -> (k, h, raw) ∈ s_executed s) ->
  pending c = pending (s_cache s) -> flights c = flights (s_cache s) -> (next (s_cache s) <= next c)%positive ->
  (forall k e, entries c !! k = Some e -> entries (s_cache s) !! k = Some e) ->
  calls_ok (set_caller s p x c).
Proof.
  intros [H1 H2 H3 H4 H5 H6 H7 H8] Hp Hx Hc Ep Ef En Ee.
  assert (forall q y, <[p := x]> (s_callers s) !! q = Some y -> (q = p /\ y = x) \/ s_callers s !! q = Some y) as Hq.
  { intros q y. destruct (decide (p = q)) as [<-|Hne]; [rewrite lookup_insert_eq; intros [= <-]; by left|].
    rewrite lookup_insert_ne by done. by right. }
  split; simpl; rewrite ?Ep, ?Ef.
  - intros id fl Hf. apply H1 in Hf. lia.
  - intros k id Hk. destruct (H2 k id Hk) as (h & q & Hf & Hq'). exists h, q. split; [done|].
    rewrite lookup_insert_ne; [done|]. intros <-. by destruct (Hp k h).
  - exact H3.
  - intros q k h [[-> <-]|Hq']%Hq; [done|by eauto].
  - intros q q' k h h' [[-> <-]|Hq1]%Hq; [done|]. intros [[-> <-]|Hq2]%Hq; [done|by eauto].
  - intros q k h id [[-> <-]|Hq']%Hq; [done|by eauto].
  - intros k e He. by apply H7, Ee.
  - intros q k h raw [[-> He]|Hq']%Hq; [by apply Hc|by eauto].
Qed.

(** Taking the pending slot of a key: the caller owns it or waits for its owner. *)
Lemma calls_ok_pending s p k h c0 :
  calls_ok s -> s_callers s !! p = Some (Acquiring k h) ->
  pending c0 = pending (s_cache s) -> flights c0 = flights (s_cache s) -> next c0 = next (s_cache s) ->
  (forall k e, entries c0 !! k = Some e -> entries (s_cache s) !! k = Some e) ->
  calls_ok (set_caller s p match (acquire_pending k h c0).1 with Wait id => Waiting k h id | _ => Executing k h end
              (acquire_pending k h c0).2).
Proof.
  intros [H1 H2 H3 H4 H5 H6 H7 H8] Hp Ep Ef En Ee.
  assert (forall x q y, <[p := x]> (s_callers s) !! q = Some y -> (q = p /\ y = x) \/ (q <> p /\ s_callers s !! q = Some y)) as Hq.
  { intros x q y. destruct (decide (p = q)) as [<-|Hne]; [rewrite lookup_insert_eq; intros [= <-]; by left|].
    rewrite lookup_insert_ne by done. right. by split. }
  assert (forall k' h' q x, s_callers s !! q = Some (Executing k' h') -> <[p := x]> (s_callers s) !! q = Some (Executing k' h')) as Hkeep.
  { intros k' h' q x Hq'. rewrite lookup_insert_ne; [done|]. intros <-. congruence. }
  unfold acquire_pending. rewrite Ep. destruct (pending (s_cache s) !! k) as [id|] eqn:E; simpl.
  - split; simpl; rewrite ?Ep, ?Ef, ?En; try done.
    + intros k' id' Hk. destruct (H2 k' id' Hk) as (h' & q & Hf & Hq'). exists h', q. by auto.
    + intros q k' h' [[-> ?]|[_ Hq']]%Hq; [done|by eauto].
    + intros q q' k' h' h'' [[-> ?]|[_ Hq1]]%Hq; [done|]. intros [[-> ?]|[_ Hq2]]%Hq; [done|by eauto].
    + intros q k' h' id' [[-> [= -> -> ->]]|[_ Hq']]%Hq; [by left|by eauto].
    + intros k' e He. by apply H7, Ee.
    + intros q k' h' raw [[-> ?]|[_ Hq']]%Hq; [done|by eauto].
  - assert (forall id fl, flights (s_cache s) !! id = Some fl ->
      <[next c0 := mkInflight h false None]> (flights (s_cache s)) !! id = Some fl) as Hfl.
    { intros id fl Hf. rewrite lookup_insert_ne; [done|]. intros <-. apply H1 in Hf. lia. }
    assert (forall k', pending (s_cache s) !! k' <> Some (next c0)) as Hfresh.
    { intros k' Hk. destruct (H2 _ _ Hk) as (? & ? & Hf & _). apply H1 in Hf. lia. }
    split; simpl; rewrite ?Ep, ?Ef.
    + intros id fl. destruct (decide (next c0 = id)) as [<-|Hne]; [intros _; lia|].
      rewrite lookup_insert_ne by done. intros Hf%H1. lia.
    + intros k' id. destruct (decide (k = k')) as [<-|Hne].
      * rewrite lookup_insert_eq. intros [= <-]. exists h, p. by rewrite !lookup_insert_eq.
      * rewrite lookup_insert_ne by done. intros Hk. destruct (H2 k' id Hk) as (h' & q & Hf & Hq'). exists h', q. by auto.
    + intros k1 k2 id. destruct (decide (k = k1)) as [<-|Hn1], (decide (k = k2)) as [<-|Hn2];
        rewrite ?lookup_insert_eq, ?lookup_insert_ne by done; try done.
      * intros [= <-] Hk. by destruct (Hfresh k2).
      * intros Hk [= <-]. by destruct (Hfresh k1).
      * apply H3.
    + intros q k' h' [[-> [= -> ->]]|[Hne Hq']]%Hq.
      * exists (next c0). by rewrite !lookup_insert_eq.
      * destruct (H4 _ _ _ Hq') as (id & Hk & Hf). exists id. rewrite lookup_insert_ne by congruence. by auto.
    + intros q q' k' h1 h2 [[-> [= -> ->]]|[Hn1 Hq1]]%Hq [[-> [= ->]]|[Hn2 Hq2]]%Hq; try done.
      * destruct (H4 _ _ _ Hq2) as (id & Hk & _). congruence.
      * subst. destruct (H4 _ _ _ Hq1) as (id & Hk & _). congruence.
      * by eauto.
    + intros q k' h' id [[-> ?]|[_ Hq']]%Hq; [done|]. destruct (H6 _ _ _ _ Hq') as [Hk|(h1 & e & Hf & He)].
      * left. rewrite lookup_insert_ne by congruence. done.
      * right. exists h1, e. by auto.
    + intros k' e He. by apply H7, Ee.
    + intros q k' h' raw [[-> ?]|[_ Hq']]%Hq; [done|by eauto].
Qed.

(** What [Complete] leaves, for the owner of a slot. *)
Lemma Complete_spec k h now status data err d c id :
  cwf c -> pending c !! k = Some id -> flights c !! id = Some (mkInflight h false None) ->
  let entry := mkDedupEntry (next c) status data err d h
                 (if isCacheable status then TimeAdd now (dedupTTL status) else time_zero) in
  let c' := Complete k h now status data err d c in
  pending c' = delete k (pending c) /\ flights c' = <[id := mkInflight h true (Some entry)]> (flights c) /\
  next c' = Pos.succ (next c) /\
  (forall k' e, entries c' !! k' = Some e -> k' = k /\ e = entry \/ entries c !! k' = Some e).
Proof.
  intros Hw Hp Hf entry. unfold Complete. rewrite Hp. fold entry. cbn [bump_next flights]. rewrite Hf. cbn [if_bodyHash].
  set (c1 := mkDedupCache (entries c) (order c) (pending c) (<[id := mkInflight h true (Some entry)]> (flights c)) (Pos.succ (next c))).
  assert (cwf c1) as Hw1 by by apply (cwf_flights c).
  destruct (storeLocked_spec k entry c1 Hw1) as (_ & (F1 & F2 & F3) & He & _).
  destruct (isCacheable status); simpl.
  - fold c1. rewrite F1, F2, F3. split; [done|split; [done|split; [done|]]]. exact He.
  - split; [done|split; [done|split; [done|]]]. by right.
Qed.

Lemma calls_ok_complete s p k h now status data err d :
  calls_ok s -> cwf (s_cache s) -> s_callers s !! p = Some (Executing k h) ->
  calls_ok (mkSys (Complete k h now status data err d (s_cache s)) (<[p := Finished k h]> (s_callers s))
    ((k, h, mkDedupEntry (next (s_cache s)) status data err d h
       (if isCacheable status then TimeAdd now (dedupTTL status) else time_zero)) :: s_executed s)).
Proof.
  intros [H1 H2 H3 H4 H5 H6 H7 H8] Hw Hp. destruct (H4 _ _ _ Hp) as (id & Hk & Hf).
  destruct (Complete_spec k h now status data err d _ id Hw Hk Hf) as (Ep & Ef & En & Ee).
  assert (forall q y, <[p := Finished k h]> (s_callers s) !! q = Some y -> (q = p /\ y = Finished k h) \/ (q <> p /\ s_callers s !! q = Some y)) as Hq.
  { intros q y. destruct (decide (p = q)) as [<-|Hne]; [rewrite lookup_insert_eq; intros [= <-]; by left|].
    rewrite lookup_insert_ne by done. right. by split. }
  assert (forall k' id', k <> k' -> pending (s_cache s) !! k' = Some id' -> id' <> id) as Hother.
  { intros k' id' Hne Hk' ->. by apply Hne, (H3 k k' id). }
  split; simpl; rewrite ?Ep, ?Ef, ?En.
  - intros id' fl. destruct (decide (id = id')) as [<-|Hne]; [intros _; apply H1 in Hf; lia|].
    rewrite lookup_insert_ne by done. intros Hf'%H1. lia.
  - intros k' id'. destruct (decide (k = k')) as [<-|Hne]; [by rewrite lookup_delete_eq|].
    rewrite lookup_delete_ne by done. intros Hk'. destruct (H2 k' id' Hk') as (h' & q & Hf' & Hq'). exists h', q.
    rewrite !lookup_insert_ne; [done|intros <-; congruence|]. by apply not_eq_sym, (Hother k').
  - intros k1 k2 id'. destruct (decide (k = k1)) as [<-|Hn1]; [by rewrite lookup_delete_eq|].
    destruct (decide (k = k2)) as [<-|Hn2]; [by rewrite lookup_delete_eq|]. rewrite !lookup_delete_ne by done. apply H3.
  - intros q k' h' [[-> ?]|[Hne Hq']]%Hq; [done|]. destruct (H4 _ _ _ Hq') as (id' & Hk' & Hf').
    assert (k <> k') as Hkk. { intros <-. by destruct (Hne (H5 _ _ _ _ _ Hq' Hp)). }
    exists id'. rewrite lookup_delete_ne by done. rewrite lookup_insert_ne by (by apply not_eq_sym, (Hother k')). done.
  - intros q q' k' h1 h2 [[-> ?]|[_ Hq1]]%Hq [[-> ?]|[_ Hq2]]%Hq; try done. by eauto.
  - intros q k' h' id' [[-> ?]|[_ Hq']]%Hq; [done|]. destruct (H6 _ _ _ _ Hq') as [Hk'|(h1 & e & Hf' & He)].
    + destruct (decide (k = k')) as [<-|Hne]; [|left; by rewrite lookup_delete_ne].
      right. simplify_eq. eexists _, _. rewrite lookup_insert_eq. split; [done|by left].
    + right. exists h1, e. rewrite lookup_insert_ne by (intros ->; congruence). split; [done|by right].
  - intros k' e [[-> ->]|He]%Ee; [by left|right; by apply H7].
  - intros q k' h' raw [[-> ?]|[_ Hq']]%Hq; [done|right; by eauto].
Qed.

Section Faithful.
Context (copy : value -> option value) (copies : forall v, is_Some (copy v)).

Lemma deepCopyEntry_total fresh e : is_Some (deepCopyEntry copy fresh e).
Proof.
  clear -copies. unfold deepCopyEntry. destruct (de_Data e) as [v|]; [|by eexists]. destruct (copies v) as [v' ->]. by eexists.
Qed.

(** What a caller that has left was told. *)
Definition told (s : sys) : Prop := forall p k h,
  (forall e, s_callers s !! p = Some (Answered k h e) -> exists fresh e0, (k, h, e0) ∈ s_executed s /\ deepCopyEntry copy fresh e0 = Some e) /\
  (s_callers s !! p = Some (Refused k h) -> exists h' e, h' <> h /\ (k, h', e) ∈ s_executed s).

Lemma told_caller s p x c :
  told s ->
  (forall k h e, x = Answered k h e -> exists fresh e0, (k, h, e0) ∈ s_executed s /\ deepCopyEntry copy fresh e0 = Some e) ->
  (forall k h, x = Refused k h -> exists h' e, h' <> h /\ (k, h', e) ∈ s_executed s) ->
  told (set_caller s p x c).
Proof.
  clear. intros Ht Ha Hr q k h. destruct (decide (p = q)) as [<-|Hne]; simpl.
  - rewrite lookup_insert_eq. split; [intros e [= ->]; by apply (Ha k h)|intros [= ->]; by apply (Hr k h)].
  - rewrite lookup_insert_ne by done. exact (Ht q k h).
Qed.

Definition sys_ok (s : sys) : Prop := cwf (s_cache s) /\ calls_ok s /\ told s.

Lemma acquire_ok s p k h now : sys_ok s -> s_callers s !! p = Some (Acquiring k h) ->
  sys_ok (let '(a, c) := acquire now k h (s_cache s) in
    set_caller s p match a with
                   | Conflict => Refused k h | Hit raw => Copying k h raw
                   | Owner _ => Executing k h | Wait id => Waiting k h id end c).
Proof.
  clear. intros (Hw & Hc & Ht) Hp. pose proof (acquire_cwf now k h _ Hw) as Hw'.
  assert (forall c0, pending c0 = pending (s_cache s) -> flights c0 = flights (s_cache s) -> next c0 = next (s_cache s) ->
    (forall k e, entries c0 !! k = Some e -> entries (s_cache s) !! k = Some e) ->
    calls_ok (let '(a, c) := acquire_pending k h c0 in set_caller s p match a with
      | Conflict => Refused k h | Hit raw => Copying k h raw | Owner _ => Executing k h | Wait id => Waiting k h id end c)
    /\ told (let '(a, c) := acquire_pending k h c0 in set_caller s p match a with
      | Conflict => Refused k h | Hit raw => Copying k h raw | Owner _ => Executing k h | Wait id => Waiting k h id end c)) as Hpend.
  { intros c0 E1 E2 E3 E4. pose proof (calls_ok_pending s p k h c0 Hc Hp E1 E2 E3 E4) as H. revert H.
    unfold acquire_pending. destruct (pending c0 !! k); simpl; intros H; (split; [exact H|by apply told_caller]). }
  revert Hw'. unfold acquire. destruct (entries (s_cache s) !! k) as [e|] eqn:E.
  - pose proof (co_entries _ Hc _ _ E) as Hin. destruct (After (de_ExpiresAt e) now).
    + destruct (bool_decide_reflect (de_BodyHash e = h)) as [<-|Hne]; simpl; intros Hw'; split; try done.
      * split; [|by apply told_caller]. apply calls_ok_caller; try done; [by rewrite Hp|by intros ??? [= <- <- <-]].
      * split; [apply calls_ok_caller; try done; by rewrite Hp|].
        apply told_caller; [done|done|]. intros ?? [= <- <-]. by exists (de_BodyHash e), e.
    + intros Hw'. destruct (Hpend (delete_entry k (s_cache s))) as [A B]; try done.
      { intros k' e'. simpl. destruct (decide (k = k')) as [<-|Hne]; [by rewrite lookup_delete_eq|by rewrite lookup_delete_ne by done]. }
      split; [|by split]. revert Hw'. by destruct (acquire_pending _ _ _).
  - intros Hw'. destruct (Hpend (s_cache s)) as [A B]; try done. split; [|by split]. revert Hw'. by destruct (acquire_pending _ _ _).
Qed.

Lemma reachable_ok s : reachable copy s -> sys_ok s.
Proof using copies.
  intros Hr. induction Hr as [|ev s s' _ IH Hs].
  { split; [split; simpl; [constructor| |unfold dedupMaxEntries; lia]; intros k; rewrite lookup_empty; split; [by intros H%elem_of_nil|by intros []]|].
    split; [split; simpl; intros *; rewrite ?lookup_empty; done|]. intros p k h. simpl. by rewrite lookup_empty. }
  assert (IH' := IH). destruct IH' as (Hw & Hc & Ht). destruct ev as [p key hash|p now|p|p|p|p now status data err d|now]; simpl in Hs.
  - destruct (s_callers s !! p) as [x|] eqn:Hp; [done|]. simplify_eq. split; [done|split; [|by apply told_caller]].
    apply calls_ok_caller; try done. by rewrite Hp.
  - destruct (s_callers s !! p) as [[key hash| | | | | | |]|] eqn:Hp; try done.
    pose proof (acquire_ok s p key hash now IH Hp) as Ha. destruct (acquire now key hash (s_cache s)) as [a c]. by simplify_eq.
  - destruct (s_callers s !! p) as [[|key hash raw| | | | | |]|] eqn:Hp; try done.
    destruct (deepCopyEntry_total (next (s_cache s)) raw) as [e He]. rewrite He in Hs. simplify_eq.
    split; [by apply (cwf_flights (s_cache s))|split].
    + apply calls_ok_caller; try done; [by rewrite Hp|simpl; lia].
    + apply told_caller; [done| |done]. intros ??? [= <- <- <-]. eexists _, raw. split; [by apply (co_copying _ Hc p)|done].
  - destruct (s_callers s !! p) as [[| |key hash id| | | | |]|] eqn:Hp; try done.
    destruct (flights (s_cache s) !! id) as [fl|] eqn:Hf; [|done]. simpl in Hs. destruct (if_done fl) eqn:Hd; [|done]. simplify_eq.
    destruct (co_wait _ Hc _ _ _ _ Hp) as [Hk|(h' & e & Hf' & He)].
    { destruct (co_pend _ Hc _ _ Hk) as (? & ? & ? & _). by simplify_eq. }
    simplify_eq. split; [by apply (cwf_flights (s_cache s))|]. unfold wake. simpl.
    destruct (deepCopyEntry_total (next (s_cache s)) e) as [e' He']. rewrite He'.
    destruct (bool_decide_reflect (h' = hash)) as [<-|Hne]; simpl; (split; [apply calls_ok_caller; try done; [by rewrite Hp|simpl; lia]|]).
    + apply told_caller; [done| |done]. intros ??? [= <- <- <-]. eexists _, e. done.
    + apply told_caller; [done|done|]. intros ?? [= <- <-]. by exists h', e.
  - destruct (s_callers s !! p) as [[| |key hash id| | | | |]|] eqn:Hp; try done. simplify_eq.
    split; [done|split; [|by apply told_caller]]. apply calls_ok_caller; try done. by rewrite Hp.
  - destruct (s_callers s !! p) as [[| | |key hash| | | |]|] eqn:Hp; try done. simplify_eq.
    split; [by apply Complete_cwf|split; [by apply calls_ok_complete|]].
    intros q k h. simpl. destruct (decide (p = q)) as [<-|Hne]; [by rewrite lookup_insert_eq|]. rewrite lookup_insert_ne by done.
    destruct (Ht q k h) as [Ha Hr]. split.
    + intros e (f & e0 & He & Hd)%Ha. exists f, e0. split; [by right|done].
    + intros (h' & e0 & Hh & He)%Hr. exists h', e0. split; [done|by right].
  - simplify_eq. destruct (evict_loop_spec now (order (s_cache s)) _ Hw) as (W & (F1 & F2 & F3) & E).
    split; [done|split; [|done]]. destruct Hc as [H1 H2 H3 H4 H5 H6 H7 H8].
    split; simpl; unfold evictExpired; rewrite ?F1, ?F2, ?F3; try done. intros k e He. by apply H7, E.
Qed.

(** C32: Single flight.  While the copies of responses succeed, at any moment at most one
    call executes the request of a key, and a call that waits for that key either waits for
    a call that is still executing it, or can take its result at once: nobody is left
    waiting for a slot no call holds. *)
Theorem single_flight s : reachable copy s ->
  (forall p p' k h h', s_callers s !! p = Some (Executing k h) -> s_callers s !! p' = Some (Executing k h') -> p = p' /\ h = h') /\
  (forall p k h id, s_callers s !! p = Some (Waiting k h id) ->
     (exists p' h', s_callers s !! p' = Some (Executing k h')) \/ is_Some (step copy (EWake p) s)).
Proof using copies.
  intros (_ & Hc & _)%reachable_ok. split.
  - intros p p' k h h' H1 H2. pose proof (co_unique _ Hc _ _ _ _ _ H1 H2) as <-. split; [done|congruence].
  - intros p k h id Hp. destruct (co_wait _ Hc _ _ _ _ Hp) as [Hk|(h' & e & Hf & He)].
    + left. destruct (co_pend _ Hc _ _ Hk) as (h' & p' & _ & Hp'). eauto.
    + right. simpl. rewrite Hp, Hf. simpl. by eexists.
Qed.

(** A replayed response is the response of the same request: while copies succeed, a
    call that is answered from the cache or by a call it waited for gets a copy of a
    response that some call executed for the same key and the same body, and a call is
    refused as conflicting only when the key was executed with another body. *)
Theorem replay_faithful s : reachable copy s -> forall p k h,
  (forall e, s_callers s !! p = Some (Answered k h e) ->
     exists fresh e0, (k, h, e0) ∈ s_executed s /\ deepCopyEntry copy fresh e0 = Some e) /\
  (s_callers s !! p = Some (Refused k h) -> exists h' e, h' <> h /\ (k, h', e) ∈ s_executed s).
Proof using copies. intros (_ & _ & Ht)%reachable_ok p k h. exact (Ht p k h). Qed.
End Faithful.

(** ** A run *)

Fixpoint steps (copy : value -> option value) (l : list event) (s : sys) : option sys :=
  match l with
  | [] => Some s
  | ev :: l => s' ← step copy ev s; steps copy l s'
  end.

Lemma steps_reachable copy l s s' : reachable copy s -> steps copy l s = Some s' -> reachable copy s'.
Proof.
  revert s. induction l as [|ev l IH]; intros s Hr Hs; simpl in Hs; [by simplify_eq|].
  destruct (step copy ev s) as [s1|] eqn:E; [|done]. eapply IH; [|exact Hs]. by eapply reach_step.
Qed.

(** Two calls with one body and one with another: the first executes, the others wait. *)
Definition demo_events : list event :=
  [ECall 1 "k" [7]; EAcquire 1 0; ECall 2 "k" [7]; EAcquire 2 1; ECall 3 "k" [8]; EAcquire 3 2;
   EComplete 1 10 200 (Some (VStr "pong")) None 10; EWake 2; EWake 3].

Definition demo_at (n : nat) : sys := default (mkSys NewDedupCache ∅ []) (steps Some (take n demo_events) (mkSys NewDedupCache ∅ [])).

Lemma flight_demo_reachable n : (n <= 9)%nat -> reachable Some (demo_at n).
Proof.
  intros Hn. assert (exists s, steps Some (take n demo_events) (mkSys NewDedupCache ∅ []) = Some s) as [s Hs].
  { do 10 (destruct n as [|n]; [eexists; vm_compute; reflexivity|]). lia. }
  unfold demo_at. rewrite Hs. simpl. eapply steps_reachable; [apply reach_init|exact Hs].
Qed.

Lemma cache_bounded_witness : order (s_cache (demo_at 9)) = ["k"] /\ Z.of_nat (Size (s_cache (demo_at 9))) <= dedupMaxEntries.
Proof.
  split; [vm_compute; reflexivity|]. apply (cache_bounded Some). apply flight_demo_reachable. lia.
Defined.

Lemma single_flight_witness :
  s_callers (demo_at 6) !! 2%positive = Some (Waiting "k" [7] 1) /\
  ((exists p' h', s_callers (demo_at 6) !! p' = Some (Executing "k" h')) \/ is_Some (step Some (EWake 2) (demo_at 6))).
Proof.
  assert (s_callers (demo_at 6) !! 2%positive = Some (Waiting "k" [7] 1)) as H by (vm_compute; reflexivity).
  split; [exact H|]. apply (single_flight Some (fun v => mk_is_Some _ v eq_refl) (demo_at 6)) with (p := 2%positive) (h := [7]) (id := 1%positive);
    [apply flight_demo_reachable; lia|exact H].
Defined.

Lemma replay_faithful_witness :
  s_callers (demo_at 9) !! 3%positive = Some (Refused "k" [8]) /\ exists h' e, h' <> [8] /\ ("k", h', e) ∈ s_executed (demo_at 9).
Proof.
  assert (s_callers (demo_at 9) !! 3%positive = Some (Refused "k" [8])) as H by (vm_compute; reflexivity).
  split; [exact H|]. apply (replay_faithful Some (fun v => mk_is_Some _ v eq_refl) (demo_at 9) (flight_demo_reachable 9 ltac:(lia)) 3%positive "k" [8]).
  exact H.
Defined.

(** When a shared response cannot be copied, its waiters execute the request again without
    holding its slot, so a key can run twice at once. *)
Theorem copy_failure_executes_twice : exists s, reachable (fun _ => None) s /\
  exists p p' h h', p <> p' /\ s_callers s !! p = Some (Executing "k" h) /\ s_callers s !! p' = Some (Executing "k" h').
Proof.
  eexists. split.
  - eapply (steps_reachable _ [ECall 1 "k" [7]; EAcquire 1 0; ECall 2 "k" [7]; EAcquire 2 1; ECall 3 "k" [7]; EAcquire 3 2;
      EComplete 1 10 500 (Some (VStr "x")) None 10; EWake 2; EWake 3]); [apply reach_init|vm_compute; reflexivity].
  - exists 2%positive, 3%positive, [7], [7]. split; [done|split; vm_compute; reflexivity].
Qed.
