(* ===== verification/GoText.v ===== *)
(** Text operations of Go's [strings], [strconv] and [unicode/utf8] that the plan code uses,
    with the round trips it relies on, and structural induction on values of type [any]. *)

From S2P Require Import Prelude GoRuntime GoFloat.
Open Scope Z_scope.

(** ** Substrings *)

(** [s[n:]]. *)
Fixpoint drop_bytes (n : nat) (s : string) : string :=
  match n, s with
  | O, _ => s
  | S n, String _ s => drop_bytes n s
  | S _, EmptyString => ""
  end.

(** [strings.Index]. *)
Fixpoint StrIndex (s sub : string) : option nat :=
  if HasPrefix s sub then Some O
  else match s with
       | EmptyString => None
       | String _ s => S <$> StrIndex s sub
       end.

(** [strings.ReplaceAll] with a non-empty pattern; [skip] bytes belong to a match that was
    already replaced. *)
Fixpoint replace_skip (old new : string) (skip : nat) (s : string) : string :=
  match s with
  | EmptyString => ""
  | String c s' =>
    match skip with
    | S k => replace_skip old new k s'
    | O => if HasPrefix s old then new +:+ replace_skip old new (String.length old - 1) s'
           else String c (replace_skip old new O s')
    end
  end.
Definition ReplaceAll (s old new : string) : string := replace_skip old new O s.

(** [strings.Split] at a one-byte separator. *)
Fixpoint Split (s : string) (sep : ascii) : list string :=
  match s with
  | EmptyString => [""]
  | String c s =>
    if Ascii.eqb c sep then "" :: Split s sep
    else match Split s sep with
         | [] => [String c ""]
         | t :: l => String c t :: l
         end
  end.

Example ReplaceAll_ex : ReplaceAll "a~~b" "~" "~0" = "a~0~0b" /\ ReplaceAll "x~1~01" "~1" "/" = "x/~01".
Proof. vm_compute. done. Qed.
Example Split_ex : Split "a//b" "/"%char = ["a"; ""; "b"] /\ Split "" "/"%char = [""].
Proof. vm_compute. done. Qed.
Example StrIndex_ex : StrIndex "abcabc" "ca" = Some 2%nat /\ StrIndex "abc" "x" = None.
Proof. vm_compute. done. Qed.

Fixpoint has_byte (c : ascii) (s : string) : bool :=
  match s with EmptyString => false | String d s => Ascii.eqb d c || has_byte c s end.

Lemma has_byte_app c a b : has_byte c (a +:+ b) = has_byte c a || has_byte c b.
Proof. induction a as [|x a IH]; [done|]. rewrite string_app_cons. simpl. rewrite IH. by rewrite orb_assoc. Qed.

Lemma drop_bytes_app a b : drop_bytes (String.length a) (a +:+ b) = b.
Proof. induction a as [|x a IH]; [done|]. rewrite string_app_cons. simpl. exact IH. Qed.

Lemma take_bytes_length n s : (n <= String.length s)%nat -> String.length (take_bytes n s) = n.
Proof. unfold take_bytes. revert s. induction n as [|n IH]; intros [|c s] Hn; simpl in *; try lia. rewrite IH; lia. Qed.

Lemma take_bytes_0 s : take_bytes 0 s = "".
Proof. by destruct s. Qed.

Lemma HasPrefix_app p s : HasPrefix (p +:+ s) p = true.
Proof. induction p as [|c p IH]; [by destruct s|]. rewrite string_app_cons. unfold HasPrefix in *. simpl. by destruct (ascii_dec c c). Qed.

Lemma HasPrefix_elim s p : HasPrefix s p = true -> s = p +:+ drop_bytes (String.length p) s.
Proof.
  unfold HasPrefix. revert s. induction p as [|c p IH]; intros [|d s]; simpl; try done.
  destruct (ascii_dec c d) as [->|]; [|done]. intros H. rewrite string_app_cons. f_equal. by apply IH.
Qed.

Lemma HasPrefix_Contains s p : HasPrefix s p = true -> Contains s p = true.
Proof. unfold HasPrefix. intros H. destruct s; simpl in *; by rewrite H. Qed.

Lemma drop_bytes_length n s : String.length (drop_bytes n s) = (String.length s - n)%nat.
Proof. revert s. induction n as [|n IH]; intros [|c s]; simpl; done || apply IH. Qed.

Lemma StrIndex_bound s sub n : StrIndex s sub = Some n -> (n + String.length sub <= String.length s)%nat.
Proof.
  revert n. induction s as [|c s IH]; intros n; cbn [StrIndex].
  - destruct sub as [|c sub]; [by intros [= <-]|done].
  - destruct (HasPrefix (String c s) sub) eqn:E.
    + intros [= <-]. apply HasPrefix_elim in E. apply (f_equal String.length) in E. rewrite string_length_app in E. cbn [String.length] in *. lia.
    + destruct (StrIndex s sub) as [m|]; [|done]. cbn [fmap option_fmap option_map]. intros [= <-]. specialize (IH m eq_refl). cbn [String.length]. lia.
Qed.

(** The first occurrence of a pattern lies past a text that has none of its first byte. *)
Lemma StrIndex_after c p a b : has_byte c a = false -> StrIndex (a +:+ String c p +:+ b) (String c p) = Some (String.length a).
Proof.
  induction a as [|x a IH]; intros H.
  - rewrite string_app_nil_l. pose proof (HasPrefix_app (String c p) b) as Hp.
    destruct (String c p +:+ b) as [|y l]; cbn [StrIndex]; by rewrite Hp.
  - cbn [has_byte] in H. apply orb_false_iff in H as [H1 H2]. rewrite string_app_cons. cbn [StrIndex].
    assert (HasPrefix (String x (a +:+ String c p +:+ b)) (String c p) = false) as ->.
    { unfold HasPrefix. simpl. destruct (ascii_dec c x) as [->|]; [by rewrite Ascii.eqb_refl in H1|done]. }
    by rewrite (IH H2).
Qed.

Lemma Split_cons a b sep : has_byte sep a = false -> Split (a +:+ String sep b) sep = a :: Split b sep.
Proof.
  induction a as [|x a IH]; intros H.
  - rewrite string_app_nil_l. cbn [Split]. by rewrite Ascii.eqb_refl.
  - cbn [has_byte] in H. apply orb_false_iff in H as [H1 H2]. rewrite string_app_cons. cbn [Split]. by rewrite H1, IH.
Qed.

Lemma Split_none a sep : has_byte sep a = false -> Split a sep = [a].
Proof.
  induction a as [|x a IH]; intros H; [done|].
  cbn [has_byte] in H. apply orb_false_iff in H as [H1 H2]. cbn [Split]. by rewrite H1, IH.
Qed.

Lemma Split_Join sep l : l <> [] -> Forall (fun s => has_byte sep s = false) l -> Split (Join (String sep "") l) sep = l.
Proof.
  intros Hl H. induction H as [|s l Hs H IH]; [done|]. destruct l as [|t l]; [by apply Split_none|].
  change (Join (String sep "") (s :: t :: l)) with (s +:+ String sep "" +:+ Join (String sep "") (t :: l)).
  rewrite string_app_cons, string_app_nil_l, Split_cons by done. by rewrite IH.
Qed.

(** What is before the first occurrence of a byte and what is after it. *)
Lemma cut_unique sep a b a' b' : has_byte sep a = false -> has_byte sep a' = false ->
  a +:+ String sep b = a' +:+ String sep b' -> a = a' /\ b = b'.
Proof.
  revert a'. induction a as [|x a IH]; intros [|x' a']; rewrite ?string_app_cons, ?string_app_nil_l; cbn [has_byte]; intros Ha Ha' H; simplify_eq.
  - done.
  - by rewrite Ascii.eqb_refl in Ha'.
  - by rewrite Ascii.eqb_refl in Ha.
  - apply orb_false_iff in Ha as [_ Ha], Ha' as [_ Ha']. by destruct (IH a' Ha Ha' ltac:(done)) as [-> ->].
Qed.

(** ** [TrimSpace] *)

Lemma rev_app_spec a b : String.rev_app a b = String.rev a +:+ b.
Proof.
  unfold String.rev. revert b. induction a as [|c a IH]; intros b; [done|]. cbn [String.rev_app].
  rewrite IH, (IH (String c "")), string_app_assoc, string_app_cons. by rewrite string_app_nil_l.
Qed.

Lemma rev_cons c a : String.rev (String c a) = String.rev a +:+ String c "".
Proof. unfold String.rev at 1. cbn [String.rev_app]. apply rev_app_spec. Qed.

Lemma rev_string_app a b : String.rev (a +:+ b) = String.rev b +:+ String.rev a.
Proof.
  induction a as [|c a IH]; [by rewrite string_app_nil_l, string_app_nil_r|].
  by rewrite string_app_cons, !rev_cons, IH, string_app_assoc.
Qed.

Lemma rev_involutive a : String.rev (String.rev a) = a.
Proof. induction a as [|c a IH]; [done|]. rewrite rev_cons, rev_string_app, IH. change (String.rev (String c "")) with (String c ""). by rewrite string_app_cons, string_app_nil_l. Qed.

Lemma HasPrefix_split s p : HasPrefix s p = true -> s = p +:+ drop_prefix p s.
Proof.
  intros Hp. rewrite (HasPrefix_elim s p Hp) at 1. f_equal. unfold drop_prefix. generalize (String.length p) as n. clear Hp.
  induction s as [|c s IH]; intros [|n]; try done.
  - simpl. f_equal. specialize (IH O). simpl in IH. by rewrite Nat.sub_0_r in IH.
  - simpl. apply IH.
Qed.

Lemma trim_left_stop fuel runes s : List.find (fun r => HasPrefix s r) runes = None -> trim_left fuel runes s = s.
Proof. intros H. destruct fuel; [done|]. cbn [trim_left]. by rewrite H. Qed.

Lemma trim_left_done fuel runes s : (String.length s <= fuel)%nat -> Forall (fun r => r <> "") runes ->
  List.find (fun r => HasPrefix (trim_left fuel runes s) r) runes = None.
Proof.
  intros Hlen Hr. revert s Hlen. induction fuel as [|fuel IH]; intros s Hlen; cbn [trim_left].
  - destruct s; [|simpl in Hlen; lia]. clear Hlen. induction Hr as [|r rs Hr _ IH]; [done|]. simpl. by destruct r.
  - destruct (List.find (fun r => HasPrefix s r) runes) as [r|] eqn:E; [|exact E]. apply IH.
    apply List.find_some in E as [Hin Hp]. apply list_elem_of_In in Hin. rewrite Forall_forall in Hr. specialize (Hr r Hin).
    apply HasPrefix_split in Hp. apply (f_equal String.length) in Hp. rewrite string_length_app in Hp. destruct r; [done|]. simpl in Hp. lia.
Qed.

Lemma trim_left_suffix fuel runes s : exists p, s = p +:+ trim_left fuel runes s.
Proof.
  revert s. induction fuel as [|fuel IH]; intros s; cbn [trim_left]; [by exists ""|].
  destruct (List.find (fun r => HasPrefix s r) runes) as [r|] eqn:E; [|by exists ""].
  apply List.find_some in E as [_ Hp]. destruct (IH (drop_prefix r s)) as [p Hs]. exists (r +:+ p). rewrite string_app_assoc, <- Hs. by apply HasPrefix_split.
Qed.

Lemma find_prefix_app runes s x : List.find (fun r => HasPrefix (s +:+ x) r) runes = None -> List.find (fun r => HasPrefix s r) runes = None.
Proof.
  induction runes as [|r runes IH]; [done|]. simpl. destruct (HasPrefix (s +:+ x) r) eqn:E; [done|].
  destruct (HasPrefix s r) eqn:E'; [|exact IH]. apply HasPrefix_split in E'. rewrite E', string_app_assoc, HasPrefix_app in E. done.
Qed.

(** Trimmed text has no space left to trim. *)
Lemma TrimSpace_idem s : TrimSpace (TrimSpace s) = TrimSpace s.
Proof.
  assert (Forall (fun r => r <> "") all_space_runes) as Hr by (by repeat constructor).
  assert (Forall (fun r => r <> "") (String.rev <$> all_space_runes)) as Hr' by (by repeat constructor).
  set (l := trim_left (String.length s) all_space_runes s). set (t := TrimSpace s).
  assert (t = String.rev (trim_left (String.length l) (String.rev <$> all_space_runes) (String.rev l))) as Ht by done.
  destruct (trim_left_suffix (String.length l) (String.rev <$> all_space_runes) (String.rev l)) as [p Hp].
  assert (List.find (fun r => HasPrefix t r) all_space_runes = None) as H1.
  { apply (find_prefix_app _ t (String.rev p)). rewrite Ht, <- rev_string_app, <- Hp, rev_involutive. by apply trim_left_done. }
  assert (List.find (fun r => HasPrefix (String.rev t) r) (String.rev <$> all_space_runes) = None) as H2.
  { rewrite Ht, rev_involutive. apply trim_left_done; [|done]. clear. induction l as [|c l IH]; [done|]. rewrite rev_cons, string_length_app. simpl. lia. }
  unfold TrimSpace at 1. rewrite (trim_left_stop _ _ t H1), (trim_left_stop _ _ (String.rev t) H2). apply rev_involutive.
Qed.

(** ** Positions of a byte *)

(** [strings.IndexByte] and [strings.LastIndexByte]. *)
Fixpoint IndexByte (s : string) (c : ascii) : option nat :=
  match s with
  | EmptyString => None
  | String d s => if Ascii.eqb d c then Some O else S <$> IndexByte s c
  end.

Fixpoint LastIndexByte (s : string) (c : ascii) : option nat :=
  match s with
  | EmptyString => None
  | String d s => match LastIndexByte s c with
                  | Some n => Some (S n)
                  | None => if Ascii.eqb d c then Some O else None
                  end
  end.

(** [strings.EqualFold] with a pattern that has no letter of a wider fold ([k] and [s] do). *)
Definition EqualFold (s pattern : string) : bool :=
  String.eqb (String.string_of_list_ascii (lower_byte <$> String.list_ascii_of_string s)) pattern.

(** ** Decimal numbers *)

(** [strconv.Itoa]. *)
Definition Itoa (z : Z) : string := pretty z.

Lemma pretty_N_char_digit x : digit_value (pretty_N_char (x mod 10)) = Some (Z.of_N (x mod 10)).
Proof.
  pose proof (N.mod_lt x 10 ltac:(lia)) as H. set (d := (x mod 10)%N) in *. clearbody d.
  assert (d = 0 \/ d = 1 \/ d = 2 \/ d = 3 \/ d = 4 \/ d = 5 \/ d = 6 \/ d = 7 \/ d = 8 \/ d = 9)%N as Hd by lia.
  by repeat destruct Hd as [->|Hd]; [..|subst].
Qed.

Lemma pretty_N_go_value x s : digits_value 0 (pretty_N_go x s) = digits_value (Z.of_N x) s.
Proof.
  revert s. induction (N.lt_wf_0 x) as [x _ IH]; intros s.
  destruct (decide (0 < x)%N) as [Hx|Hx].
  - rewrite pretty_N_go_step by done. rewrite IH by by apply N.div_lt. simpl. rewrite pretty_N_char_digit. simpl. f_equal.
    rewrite N2Z.inj_div, N2Z.inj_mod. pose proof (Z.div_mod (Z.of_N x) 10 ltac:(lia)). simpl in *. lia.
  - assert (x = 0)%N as -> by lia. by rewrite pretty_N_go_0.
Qed.

(** Every byte of a decimal number is a digit. *)
Fixpoint all_digits (s : string) : bool :=
  match s with
  | EmptyString => true
  | String c s => match digit_value c with Some _ => true | None => false end && all_digits s
  end.

Lemma pretty_N_go_all_digits x s : all_digits s = true -> all_digits (pretty_N_go x s) = true.
Proof.
  revert s. induction (N.lt_wf_0 x) as [x _ IH]; intros s Hs.
  destruct (decide (0 < x)%N) as [Hx|Hx].
  - rewrite pretty_N_go_step by done. apply IH; [by apply N.div_lt|]. simpl. by rewrite pretty_N_char_digit.
  - assert (x = 0)%N as -> by lia. by rewrite pretty_N_go_0.
Qed.

Lemma Itoa_nonneg z : 0 <= z -> all_digits (Itoa z) = true /\ digits_value 0 (Itoa z) = Some z /\ Itoa z <> "".
Proof.
  intros Hz. destruct z as [|p|p]; [done| |lia]. change (Itoa (Z.pos p)) with (pretty_N_go (N.pos p) "").
  assert (digits_value 0 (pretty_N_go (N.pos p) "") = Some (Z.pos p)) as E by by rewrite pretty_N_go_value.
  split; [by apply pretty_N_go_all_digits|split; [exact E|]]. intros H. by rewrite H in E.
Qed.

Lemma all_digits_no_byte c s : digit_value c = None -> all_digits s = true -> has_byte c s = false.
Proof.
  intros Hc. induction s as [|d s IH]; simpl; [done|]. intros [H1 H2]%andb_true_iff. rewrite IH by done.
  destruct (Ascii.eqb_spec d c) as [->|]; [|done]. by rewrite Hc in H1.
Qed.

(** A non-negative [int] reads back from its decimal text. *)
Lemma Atoi_Itoa z : 0 <= z <= max_int64 -> Atoi (Itoa z) = Some z.
Proof.
  intros [H1 H2]. destruct (Itoa_nonneg z H1) as (Hd & Hv & Hne).
  assert (in_int64 z = true) as Hr by (unfold in_int64, min_int64; apply andb_true_iff; split; apply Z.leb_le; lia).
  unfold Atoi. destruct (Itoa z) as [|c s] eqn:E; [done|].
  assert ((match String c s with String "-" s' => (-1, s') | String "+" s' => (1, s') | _ => (1, String c s) end) = (1, String c s)) as ->.
  { simpl in Hd. apply andb_true_iff in Hd as [Hd _]. destruct c as [[] [] [] [] [] [] [] []]; try done. }
  cbn [String.eqb]. rewrite Hv. cbn [mbind option_bind]. by rewrite !Z.mul_1_l, Hr.
Qed.

(** ** Times and durations as text *)

(** [t.UTC().Format(time.RFC3339Nano)]: the fraction of the second without trailing zeros. *)
Definition FormatRFC3339Nano (t : Time) : string :=
  let base := FormatRFC3339 t in
  let f := trim_zeros (pad_int 9 (t mod Second)) in
  take_bytes (String.length base - 1) base +:+ (if String.eqb f "" then "" else "." +:+ f) +:+ "Z".

Example FormatRFC3339Nano_ex :
  FormatRFC3339Nano (unix_epoch + 1500 * Millisecond) = "1970-01-01T00:00:01.5Z" /\ FormatRFC3339Nano unix_epoch = "1970-01-01T00:00:00Z".
Proof. vm_compute. done. Qed.

(** The digits of a fixed-width field. *)
Definition fixed_digits (n : nat) (s : string) : option (Z * string) :=
  let field := take_bytes n s in
  if (String.length field =? n)%nat then v ← (if String.eqb field "" then None else digits_value 0 field); Some (v, drop_bytes n s) else None.

Definition expect (c : ascii) (s : string) : option string :=
  match s with String d s => if Ascii.eqb d c then Some s else None | EmptyString => None end.

Definition leap_year (y : Z) : bool := (y mod 4 =? 0) && (negb (y mod 100 =? 0) || (y mod 400 =? 0)).
Definition days_in (m y : Z) : Z :=
  if m =? 2 then if leap_year y then 29 else 28 else if bool_decide (m ∈ [4; 6; 9; 11]) then 30 else 31.

(** The day number of a civil date, the inverse of [civil_of_days]. *)
Definition days_of_civil (y m d : Z) : Z :=
  let y' := if m <=? 2 then y - 1 else y in
  let era := y' / 400 in
  let yoe := y' mod 400 in
  let mp := if 2 <? m then m - 3 else m + 9 in
  let doy := (153 * mp + 2) / 5 + d - 1 in
  era * 146097 + (yoe * 365 + yoe / 4 - yoe / 100 + doy) - 306.

(** The leading digits of a text. *)
Fixpoint digit_span (s : string) : nat :=
  match s with String c s => match digit_value c with Some _ => S (digit_span s) | None => O end | EmptyString => O end.

(** Nanoseconds of a fraction, of which no more than nine digits count. *)
Definition fraction_nanos (digits : string) : option Z :=
  let d := take_bytes (Nat.min 9 (String.length digits)) digits in
  v ← digits_value 0 d; Some (v * 10 ^ (9 - Z.of_nat (String.length d))).

(** The zone: seconds east of UTC. *)
Definition parse_zone (s : string) : option Z :=
  match s with
  | EmptyString => None
  | String c rest =>
    if Ascii.eqb c "Z"%char then if String.eqb rest "" then Some 0 else None
    else if Ascii.eqb c "+"%char || Ascii.eqb c "-"%char then
      '(hh, s) ← fixed_digits 2 rest; s ← expect ":"%char s; '(mm, s) ← fixed_digits 2 s;
      if negb (String.eqb s "") || (24 <? hh) || (60 <? mm) then None
      else Some ((if Ascii.eqb c "-"%char then -1 else 1) * (hh * 3600 + mm * 60))
    else None
  end.

(** [time.Parse(time.RFC3339Nano, s)]: the hour may have one digit and the fraction may
    follow a comma. *)
Definition ParseRFC3339Nano (s : string) : option Time :=
  '(y, s) ← fixed_digits 4 s; s ← expect "-"%char s; '(mo, s) ← fixed_digits 2 s; s ← expect "-"%char s; '(d, s) ← fixed_digits 2 s;
  s ← expect "T"%char s;
  '(h, s) ← (match fixed_digits 2 s with Some r => Some r | None => fixed_digits 1 s end);
  s ← expect ":"%char s; '(mi, s) ← fixed_digits 2 s; s ← expect ":"%char s; '(sec, s) ← fixed_digits 2 s;
  '(ns, s) ← (match s with
              | String c rest =>
                if (Ascii.eqb c "."%char || Ascii.eqb c ","%char) && (0 <? digit_span rest)%nat
                then ns ← fraction_nanos (take_bytes (digit_span rest) rest); Some (ns, drop_bytes (digit_span rest) rest)
                else Some (0, s)
              | EmptyString => Some (0, s)
              end);
  zone ← parse_zone s;
  if (mo <? 1) || (12 <? mo) || (d <? 1) || (days_in mo y <? d) || (23 <? h) || (59 <? mi) || (59 <? sec) then None
  else Some (((days_of_civil y mo d * 86400 + h * 3600 + mi * 60 + sec - zone) * Second) + ns).

Example ParseRFC3339Nano_ex :
  (ParseRFC3339Nano <$> ["1970-01-01T00:00:01.5Z"; "1970-01-01T02:00:00+02:00"; "2023-02-29T00:00:00Z"; "1970-01-01T0:00:00,25Z"; "0001-01-01T00:00:00Z"; "1970-01-01"])
  = [Some (unix_epoch + 1500 * Millisecond); Some unix_epoch; None; Some (unix_epoch + 250 * Millisecond); Some 0; None].
Proof. vm_compute. done. Qed.
Example ParseRFC3339Nano_leap : ParseRFC3339Nano "2024-02-29T12:00:01Z" = Some (unix_epoch + 1709208001 * Second).
Proof. vm_compute. done. Qed.

(** [time.ParseDuration].  [leadingInt] fails past 2^63, [leadingFraction] stops taking
    digits there. *)
Fixpoint leadingInt (x : Z) (s : string) : option (Z * string) :=
  match s with
  | EmptyString => Some (x, s)
  | String c s' =>
    match digit_value c with
    | None => Some (x, s)
    | Some d =>
      if 2 ^ 63 / 10 <? x then None
      else if 2 ^ 63 <? x * 10 + d then None else leadingInt (x * 10 + d) s'
    end
  end.

Fixpoint leadingFraction (overflow : bool) (x : Z) (scale : float64) (s : string) : Z * float64 * string :=
  match s with
  | EmptyString => (x, scale, s)
  | String c s' =>
    match digit_value c with
    | None => (x, scale, s)
    | Some d =>
      if overflow then leadingFraction true x scale s'
      else if (2 ^ 63 - 1) / 10 <? x then leadingFraction true x scale s'
      else if 2 ^ 63 <? x * 10 + d then leadingFraction true x scale s'
      else leadingFraction false (x * 10 + d) (fmul scale (of_int 10)) s'
    end
  end.

Fixpoint unit_length (s : string) : nat :=
  match s with
  | EmptyString => O
  | String c s => if Ascii.eqb c "."%char then O else match digit_value c with Some _ => O | None => S (unit_length s) end
  end.

Definition duration_unit (u : string) : option Z :=
  if String.eqb u "ns" then Some Nanosecond
  else if String.eqb u "us" then Some 1000
  else if String.eqb u (String (ascii_of_nat 194) (String (ascii_of_nat 181) "s")) then Some 1000
  else if String.eqb u (String (ascii_of_nat 206) (String (ascii_of_nat 188) "s")) then Some 1000
  else if String.eqb u "ms" then Some Millisecond
  else if String.eqb u "s" then Some Second
  else if String.eqb u "m" then Some Minute
  else if String.eqb u "h" then Some Hour
  else None.

Definition is_number_start (c : ascii) : bool := Ascii.eqb c "."%char || match digit_value c with Some _ => true | None => false end.

(** One number with its unit; every round consumes its unit, so the length is fuel enough. *)
Fixpoint duration_loop (fuel : nat) (d : Z) (s : string) : option Z :=
  match s with
  | EmptyString => Some d
  | String c _ =>
    match fuel with
    | O => None
    | S fuel =>
      if negb (is_number_start c) then None else
      '(v, s1) ← leadingInt 0 s;
      let pre := negb (String.length s1 =? String.length s)%nat in
      let '(f, scale, s2, post) :=
        match s1 with
        | String "." s' => let '(f, scale, s2) := leadingFraction false 0 (of_int 1) s' in
                           (f, scale, s2, negb (String.length s2 =? String.length s')%nat)
        | _ => (0, of_int 1, s1, false)
        end in
      if negb pre && negb post then None else
      let i := unit_length s2 in
      if (i =? 0)%nat then None else
      u ← duration_unit (take_bytes i s2);
      if 2 ^ 63 / u <? v then None else
      let v := v * u in
      let v := if 0 <? f then v + to_int (fmul (of_int f) (fdiv (of_int u) scale)) else v in
      if 2 ^ 63 <? v then None else
      let d := (d + v) mod 2 ^ 64 in
      if 2 ^ 63 <? d then None else duration_loop fuel d (drop_bytes i s2)
    end
  end.

Definition ParseDuration (s : string) : option Duration :=
  let '(neg, s) := match s with
                   | String "-" s' => (true, s')
                   | String "+" s' => (false, s')
                   | _ => (false, s)
                   end in
  if String.eqb s "0" then Some 0
  else if String.eqb s "" then None
  else d ← duration_loop (String.length s) 0 s;
       if (neg : bool) then Some (wrap64 (- wrap64 d))
       else if 2 ^ 63 - 1 <? d then None else Some d.

Example ParseDuration_ex : (ParseDuration <$> ["15m"; "1h30m"; "-1.5s"; "0"; "5"; ""; "1x"; "300ms"; ".5h"])
  = [Some (15 * Minute); Some (90 * Minute); Some (- (1500 * Millisecond)); Some 0; None; None; None; Some (300 * Millisecond); Some (30 * Minute)].
Proof. vm_compute. reflexivity. Qed.

(** ** UTF-8 *)

(** The bytes that may follow a first byte, as ranges ([utf8.ValidString]). *)
Definition utf8_first (n : nat) : option (list (nat * nat)) :=
  if (n <? 128)%nat then Some []
  else if (n <? 194)%nat then None
  else if (n <? 224)%nat then Some [(128, 191)]%nat
  else if (n =? 224)%nat then Some [(160, 191); (128, 191)]%nat
  else if (n =? 237)%nat then Some [(128, 159); (128, 191)]%nat
  else if (n <? 240)%nat then Some [(128, 191); (128, 191)]%nat
  else if (n =? 240)%nat then Some [(144, 191); (128, 191); (128, 191)]%nat
  else if (n <? 244)%nat then Some [(128, 191); (128, 191); (128, 191)]%nat
  else if (n =? 244)%nat then Some [(128, 143); (128, 191); (128, 191)]%nat
  else None.

Fixpoint utf8_from (expected : list (nat * nat)) (s : string) : bool :=
  match s with
  | EmptyString => match expected with [] => true | _ => false end
  | String c s =>
    let n := nat_of_ascii c in
    match expected with
    | (lo, hi) :: expected => (lo <=? n)%nat && (n <=? hi)%nat && utf8_from expected s
    | [] => match utf8_first n with Some expected => utf8_from expected s | None => false end
    end
  end.
Definition Utf8Valid (s : string) : bool := utf8_from [] s.

Example Utf8Valid_ex : (Utf8Valid <$> ["plain"; bytes_string [226; 130; 172]%nat; bytes_string [255]%nat; bytes_string [226; 130]%nat; bytes_string [237; 160; 128]%nat])
  = [true; true; false; false; false].
Proof. vm_compute. reflexivity. Qed.

Fixpoint ascii_text (s : string) : bool :=
  match s with EmptyString => true | String c s => (nat_of_ascii c <? 128)%nat && ascii_text s end.

Lemma ascii_text_app a b : ascii_text (a +:+ b) = ascii_text a && ascii_text b.
Proof. induction a as [|c a IH]; [done|]. rewrite string_app_cons. cbn [ascii_text]. by rewrite IH, andb_assoc. Qed.

Lemma ascii_text_utf8 s : ascii_text s = true -> Utf8Valid s = true.
Proof.
  unfold Utf8Valid. induction s as [|c s IH]; [done|]. cbn [ascii_text utf8_from]. intros H. apply andb_true_iff in H as [Hc Hs].
  unfold utf8_first. rewrite Hc. by apply IH.
Qed.

Lemma digits_value_ascii acc s v : digits_value acc s = Some v -> ascii_text s = true.
Proof.
  revert acc. induction s as [|c s IH]; intros acc; [done|]. cbn [digits_value ascii_text]. destruct (digit_value c) as [d|] eqn:Ec; [|done].
  cbn [mbind option_bind]. intros H. rewrite (IH _ H), andb_true_r. clear -Ec. destruct c as [[] [] [] [] [] [] [] []]; done.
Qed.

(** ** Values *)

(** A measure that decreases inside lists and maps. *)
Fixpoint value_size (v : value) : nat :=
  match v with
  | VList l => S (list_sum (value_size <$> l))
  | VMap (Some m) => S (map_fold (fun _ n acc => (n + acc)%nat) O (value_size <$> m))
  | _ => O
  end.

(** How many lists and maps are inside each other. *)
Fixpoint nesting (v : value) : nat :=
  match v with
  | VList l => S (list_max (nesting <$> l))
  | VMap (Some m) => S (map_fold (fun _ n acc => Nat.max n acc) O (nesting <$> m))
  | _ => O
  end.

Lemma map_fold_size (m : gmap string nat) k n :
  m !! k = Some n -> (n <= map_fold (fun _ n acc => (n + acc)%nat) O m)%nat.
Proof.
  intros H. rewrite (map_fold_delete_L (fun _ n acc => (n + acc)%nat) O k n m); [lia| |done].
  intros. lia.
Qed.

Lemma list_sum_elem (l : list nat) n : n ∈ l -> (n <= list_sum l)%nat.
Proof. induction 1; simpl; lia. Qed.

(** Induction through the lists and maps inside a value. *)
Lemma value_induction (P : value -> Prop) :
  (forall v, match v with VList _ | VMap (Some _) => False | _ => True end -> P v) ->
  (forall l, (forall v, v ∈ l -> P v) -> P (VList l)) ->
  (forall m, (forall k v, m !! k = Some v -> P v) -> P (VMap (Some m))) ->
  forall v, P v.
Proof.
  intros HB HL HM v. remember (value_size v) as n eqn:En. revert v En.
  induction (lt_wf n) as [n _ IH]. intros v ->. destruct v as [| | | | |l|[m|]]; try by apply HB.
  - apply HL. intros v Hv. eapply IH; [|done]. simpl. apply (list_elem_of_fmap_2 value_size) in Hv.
    apply list_sum_elem in Hv. lia.
  - apply HM. intros k v Hk. eapply IH; [|done]. simpl.
    pose proof (map_fold_size (value_size <$> m) k (value_size v)) as H. rewrite lookup_fmap, Hk in H. specialize (H eq_refl). lia.
Qed.
