(* ===== verification/PlanRef.v ===== *)
(** References between the steps of a plan ([internal/ingest/plan_ref.go]): their grammar,
    how they are found in the parameters of a step, checked against the schema of the
    output they name, resolved, and put back in place.  JSON text is a string; its
    decoding and encoding are the class [Json]. *)

From S2P Require Import Prelude GoRuntime GoText.
Open Scope Z_scope.

(** ** JSON *)

(** [json.Unmarshal] into [any], into [map[string]json.RawMessage] and into
    [[]json.RawMessage], and [json.Marshal] of an [any] and of a raw map. *)
Class Json := {
  Unmarshal : string -> option value;
  UnmarshalObject : string -> option (gmap string string);
  UnmarshalArray : string -> option (list string);
  Marshal : value -> option string;
  MarshalObject : gmap string string -> option string
}.

(** What decoding an [any] can give: text and keys are valid UTF-8, maps are never nil,
    slices have an [int] length, and numbers are [float64] (never [int]), named by the
    digits they are written with. *)
Inductive decoded `{J : Json} : value -> Prop :=
| decoded_null : decoded VNull
| decoded_bool b : decoded (VBool b)
| decoded_num digits : Unmarshal digits = Some (VNum digits) -> decoded (VNum digits)
| decoded_str s : Utf8Valid s = true -> decoded (VStr s)
| decoded_list l : (forall v, v ∈ l -> decoded v) -> Z.of_nat (length l) <= max_int64 -> decoded (VList l)
| decoded_map m : (forall k v, m !! k = Some v -> Utf8Valid k = true /\ decoded v) -> decoded (VMap (Some m)).

(** Decoding refuses text nested deeper than this. *)
Definition maxNestingDepth : Z := 10000.
Definition shallow (v : value) : Prop := Z.of_nat (nesting v) <= maxNestingDepth.

Class JsonLaws (J : Json) : Prop := {
  json_decoded : forall s v, Unmarshal s = Some v -> decoded v;
  json_marshal : forall v s, decoded v -> shallow v -> Marshal v = Some s -> Unmarshal s = Some v;
  json_object : forall s m, Unmarshal s = Some (VMap (Some m)) ->
    exists raws, UnmarshalObject s = Some raws /\ forall k, (raws !! k ≫= Unmarshal) = m !! k /\ (raws !! k = None <-> m !! k = None);
  json_array : forall s l, Unmarshal s = Some (VList l) ->
    exists raws, UnmarshalArray s = Some raws /\ Forall2 (fun raw v => Unmarshal raw = Some v) raws l
}.

(** ** References *)

Inductive PathSegment :=
| SegField (Field : string)
| SegIndex (Index : Z).

Record Ref := mkRef { ref_StepID : string; ref_Path : list PathSegment }.

Record FoundRef := mkFoundRef { fr_Pointer : string; fr_Ref : Ref }.

Inductive PlanRefError :=
(* INVALID_PLAN_REF *)
| ErrPrefix (s : string)
| ErrMissingClose (s : string)
| ErrEmptyStep (s : string)
| ErrNoResult (s : string)
| ErrTrailingDot (s : string)
| ErrFieldName (s : string)
| ErrMissingBracket (s : string)
| ErrIndexText (indexStr s : string)
| ErrUnexpected (c : ascii) (s : string)
| ErrMixedRef (pointer s : string)
| ErrSchema
| ErrCombiner (stepID combiner : string)
| ErrNonObject (field type_ stepID : string)
| ErrUnknownField (field stepID : string)
| ErrFieldSchema (field stepID : string)
| ErrNonArray (type_ stepID : string)
(* REF_RESOLVE_FAILED *)
| ErrStepMissing (stepID : string)
| ErrNull (stepID : string)
| ErrNotObject (field stepID : string)
| ErrFieldMissing (field stepID : string)
| ErrNotArray (stepID : string)
| ErrOutOfBounds (index len : Z) (stepID : string)
(* FindRefs and ResolveParams *)
| ErrParams
| ErrResolved
| ErrSet (pointer : string)
| ErrMarshal.

(** [(T, error)]. *)
Abbreviation result A := (PlanRefError + A)%type.

Definition quote : string := String (ascii_of_nat 34) "".
Definition refPrefix : string := "$steps[" +:+ quote.
Definition refClose : string := quote +:+ "]".

Definition isFieldChar (c : ascii) (first : bool) : bool :=
  let n := nat_of_ascii c in
  if (65 <=? n)%nat && (n <=? 90)%nat || (97 <=? n)%nat && (n <=? 122)%nat || (n =? 95)%nat then true
  else if negb first && ((48 <=? n)%nat && (n <=? 57)%nat) then true
  else false.

(** The number of leading field characters. *)
Fixpoint field_length (s : string) (first : bool) : nat :=
  match s with
  | EmptyString => O
  | String c s => if isFieldChar c first then S (field_length s false) else O
  end.

(** [parsePath]; each round consumes a byte, so [fuel] is the length of the text. *)
Fixpoint parse_path_loop (fuel : nat) (s original : string) (segments : list PathSegment) : result (list PathSegment) :=
  match s with
  | EmptyString => inr segments
  | String c rest =>
    match fuel with
    | O => inr segments
    | S fuel =>
      if Ascii.eqb c "."%char then
        if String.eqb rest "" then inl (ErrTrailingDot original) else
        let n := field_length rest true in
        if (n =? 0)%nat then inl (ErrFieldName original) else
        parse_path_loop fuel (drop_bytes n rest) original (segments ++ [SegField (take_bytes n rest)])
      else if Ascii.eqb c "["%char then
        match StrIndex rest "]" with
        | None => inl (ErrMissingBracket original)
        | Some e =>
          let indexStr := take_bytes e rest in
          match Atoi indexStr with
          | Some idx =>
            if idx <? 0 then inl (ErrIndexText indexStr original) else
            parse_path_loop fuel (drop_bytes (e + 1) rest) original (segments ++ [SegIndex idx])
          | None => inl (ErrIndexText indexStr original)
          end
        end
      else inl (ErrUnexpected c original)
    end
  end.
Definition parsePath (s original : string) : result (list PathSegment) :=
  parse_path_loop (String.length s) s original [].

Definition ParseRef (s : string) : result Ref :=
  if negb (HasPrefix s refPrefix) then inl (ErrPrefix s) else
  let rest := drop_bytes (String.length refPrefix) s in
  match StrIndex rest refClose with
  | None => inl (ErrMissingClose s)
  | Some e =>
    let stepID := take_bytes e rest in
    if String.eqb stepID "" then inl (ErrEmptyStep s) else
    let rest := drop_bytes (e + 2) rest in
    if negb (HasPrefix rest ".result") then inl (ErrNoResult s) else
    let rest := drop_bytes (String.length ".result") rest in
    if String.eqb rest "" then inr (mkRef stepID []) else
    match parsePath rest s with
    | inl err => inl err
    | inr path => inr (mkRef stepID path)
    end
  end.

Definition jsonPointerEscape (s : string) : string := ReplaceAll (ReplaceAll s "~" "~0") "/" "~1".
Definition jsonPointerUnescape (s : string) : string := ReplaceAll (ReplaceAll s "~1" "/") "~0" "~".

(** ** Finding references *)

Section Walk.
Context (it : MapIter).

Definition walker : Type := string -> list FoundRef -> result (list FoundRef).

Fixpoint walk_entries (pointer : string) (l : list (string * walker)) (refs : list FoundRef) : result (list FoundRef) :=
  match l with
  | [] => inr refs
  | (k, child) :: l =>
    match child (pointer +:+ "/" +:+ jsonPointerEscape k) refs with
    | inl err => inl err
    | inr refs => walk_entries pointer l refs
    end
  end.

Fixpoint walk_items (pointer : string) (i : Z) (l : list walker) (refs : list FoundRef) : result (list FoundRef) :=
  match l with
  | [] => inr refs
  | child :: l =>
    match child (pointer +:+ "/" +:+ Itoa i) refs with
    | inl err => inl err
    | inr refs => walk_items pointer (i + 1) l refs
    end
  end.

Definition walk_string (val : string) : walker := fun pointer refs =>
  if Contains val refPrefix then
    if negb (HasPrefix val refPrefix) then inl (ErrMixedRef pointer val)
    else match ParseRef val with
         | inl err => inl err
         | inr ref => inr (refs ++ [mkFoundRef pointer ref])
         end
  else inr refs.

Fixpoint walkForRefs (v : value) : walker :=
  match v with
  | VStr val => walk_string val
  | VMap (Some m) => let children := walkForRefs <$> m in fun pointer refs => walk_entries pointer (mrange it 40 children) refs
  | VList l => let children := walkForRefs <$> l in fun pointer refs => walk_items pointer 0 children refs
  | _ => fun _ refs => inr refs
  end.

Definition FindRefs `{Json} (params : string) : result (list FoundRef) :=
  match Unmarshal params with
  | None => inl ErrParams
  | Some root => walkForRefs root "" []
  end.
End Walk.

(** ** Checking a path against a schema *)

Definition has_combiner (schema : gmap string value) : option string :=
  List.find (fun c => match schema !! c with Some _ => true | None => false end) ["oneOf"; "anyOf"; "allOf"].

(** [x.(map[string]any)]. *)
Definition as_map (v : option value) : option (gmap string value) :=
  match v with
  | Some (VMap (Some m)) => Some m
  | Some (VMap None) => Some ∅
  | _ => None
  end.

Fixpoint validateSchemaPath (schema : gmap string value) (path : list PathSegment) (stepID : string) : option PlanRefError :=
  match has_combiner schema with
  | Some combiner => Some (ErrCombiner stepID combiner)
  | None =>
    match path with
    | [] => None
    | seg :: rest =>
      let schemaType := as_string (schema !! "type") in
      match seg with
      | SegField field =>
        if negb (String.eqb schemaType "") && negb (String.eqb schemaType "object") then Some (ErrNonObject field schemaType stepID) else
        match as_map (schema !! "properties") with
        | None => None
        | Some props =>
          match props !! field with
          | None => Some (ErrUnknownField field stepID)
          | Some child =>
            match as_map (Some child) with
            | None => Some (ErrFieldSchema field stepID)
            | Some childSchema => validateSchemaPath childSchema rest stepID
            end
          end
        end
      | SegIndex _ =>
        if negb (String.eqb schemaType "") && negb (String.eqb schemaType "array") then Some (ErrNonArray schemaType stepID) else
        match as_map (schema !! "items") with
        | None => None
        | Some items => validateSchemaPath items rest stepID
        end
      end
    end
  end.

(** [json.Unmarshal] into a [map[string]any]: [null] leaves it nil. *)
Definition UnmarshalMap `{Json} (s : string) : option (gmap string value) :=
  match Unmarshal s with
  | Some (VMap (Some m)) => Some m
  | Some VNull => Some ∅
  | _ => None
  end.

Definition ValidateRefPath `{Json} (ref : Ref) (outputSchema : string) : option PlanRefError :=
  match ref_Path ref with
  | [] => None
  | path =>
    match UnmarshalMap outputSchema with
    | None => Some ErrSchema
    | Some schema => validateSchemaPath schema path (ref_StepID ref)
    end
  end.

(** ** Resolving references *)

Section Resolve.
Context `{Json}.

Fixpoint walkJSON (data : string) (path : list PathSegment) (stepID : string) : result string :=
  if String.eqb data "null" then inl (ErrNull stepID) else
  match path with
  | [] => inr data
  | SegField field :: rest =>
    match UnmarshalObject data with
    | None => inl (ErrNotObject field stepID)
    | Some obj =>
      match obj !! field with
      | None => inl (ErrFieldMissing field stepID)
      | Some child => walkJSON child rest stepID
      end
    end
  | SegIndex index :: rest =>
    match UnmarshalArray data with
    | None => inl (ErrNotArray stepID)
    | Some arr =>
      match (if index <? 0 then None else arr !! Z.to_nat index) with
      | None => inl (ErrOutOfBounds index (Z.of_nat (length arr)) stepID)
      | Some child => walkJSON child rest stepID
      end
    end
  end.

Definition ResolveRef (ref : Ref) (results : gmap string string) : result string :=
  match results !! ref_StepID ref with
  | None => inl (ErrStepMissing (ref_StepID ref))
  | Some data =>
    match ref_Path ref with
    | [] => inr data
    | path => walkJSON data path (ref_StepID ref)
    end
  end.

(** [setNested] on a decoded tree, which no other name refers to; assigning to a nil map
    would panic, but decoding never gives one. *)
Fixpoint setNested (node : value) (tokens : list string) (val : value) : option value :=
  match tokens with
  | [] => Some val
  | token :: rest =>
    let token := jsonPointerUnescape token in
    match node with
    | VMap (Some m) =>
      match rest with
      | [] => Some (VMap (Some (<[token := val]> m)))
      | _ => child ← setNested (default VNull (m !! token)) rest val; Some (VMap (Some (<[token := child]> m)))
      end
    | VList l =>
      match Atoi token with
      | Some idx =>
        if (idx <? 0) || (Z.of_nat (length l) <=? idx) then None else
        match rest with
        | [] => Some (VList (<[Z.to_nat idx := val]> l))
        | _ => child ← setNested (default VNull (l !! Z.to_nat idx)) rest val; Some (VList (<[Z.to_nat idx := child]> l))
        end
      | None => None
      end
    | _ => None
    end
  end.

Definition setAtPointer (root : value) (pointer : string) (val : value) : option value :=
  if String.eqb pointer "" then Some val else setNested root (Split (drop_bytes 1 pointer) "/"%char) val.

Fixpoint resolve_loop (refs : list FoundRef) (results : gmap string string) (root : value) : result value :=
  match refs with
  | [] => inr root
  | fr :: refs =>
    match ResolveRef (fr_Ref fr) results with
    | inl err => inl err
    | inr resolved =>
      match Unmarshal resolved with
      | None => inl ErrResolved
      | Some resolvedVal =>
        match setAtPointer root (fr_Pointer fr) resolvedVal with
        | None => inl (ErrSet (fr_Pointer fr))
        | Some root => resolve_loop refs results root
        end
      end
    end
  end.

Definition ResolveParams (params : string) (refs : list FoundRef) (results : gmap string string) : result string :=
  match refs with
  | [] => inr params
  | _ =>
    match Unmarshal params with
    | None => inl ErrParams
    | Some root =>
      match resolve_loop refs results root with
      | inl err => inl err
      | inr root => match Marshal root with Some out => inr out | None => inl ErrMarshal end
      end
    end
  end.
End Resolve.

(** ** Pointers *)

(** Escaping works byte by byte. *)
Fixpoint escape_bytes (s : string) : string :=
  match s with
  | EmptyString => ""
  | String c s =>
    if Ascii.eqb c "~"%char then "~0" +:+ escape_bytes s
    else if Ascii.eqb c "/"%char then "~1" +:+ escape_bytes s
    else String c (escape_bytes s)
  end.

Lemma HasPrefix_byte c s d : HasPrefix (String c s) (String d "") = Ascii.eqb c d.
Proof.
  unfold HasPrefix. simpl. destruct (ascii_dec d c) as [->|]; [by rewrite Ascii.eqb_refl; destruct s|].
  symmetry. by apply Ascii.eqb_neq, not_eq_sym.
Qed.

Lemma replace_byte_step d new c s :
  replace_skip (String d "") new 0 (String c s)
  = if Ascii.eqb c d then new +:+ replace_skip (String d "") new 0 s else String c (replace_skip (String d "") new 0 s).
Proof. cbn [replace_skip String.length Nat.sub]. by rewrite HasPrefix_byte. Qed.

Lemma jsonPointerEscape_bytes s : jsonPointerEscape s = escape_bytes s.
Proof.
  unfold jsonPointerEscape, ReplaceAll. induction s as [|c s IH]; [done|].
  rewrite replace_byte_step. cbn [escape_bytes]. destruct (Ascii.eqb_spec c "~"%char) as [->|Hn].
  - rewrite !string_app_cons, !string_app_nil_l, !replace_byte_step. cbn [Ascii.eqb Bool.eqb]. by rewrite IH.
  - rewrite replace_byte_step, IH. by destruct (Ascii.eqb c "/"%char).
Qed.

Lemma escape_no_slash s : has_byte "/"%char (jsonPointerEscape s) = false.
Proof.
  rewrite jsonPointerEscape_bytes. induction s as [|c s IH]; [done|]. cbn [escape_bytes].
  destruct (Ascii.eqb_spec c "~"%char) as [->|]; [by rewrite has_byte_app, IH|].
  destruct (Ascii.eqb c "/"%char) eqn:E; [by rewrite has_byte_app, IH|]. cbn [has_byte]. by rewrite E, IH.
Qed.

(** The first replacement of unescaping restores the slashes. *)
Fixpoint tilde_bytes (s : string) : string :=
  match s with
  | EmptyString => ""
  | String c s => if Ascii.eqb c "~"%char then "~0" +:+ tilde_bytes s else String c (tilde_bytes s)
  end.

Lemma HasPrefix_two c s d e : HasPrefix (String c s) (String d (String e "")) = Ascii.eqb c d && HasPrefix s (String e "").
Proof.
  unfold HasPrefix. simpl. destruct (ascii_dec d c) as [->|]; [by rewrite Ascii.eqb_refl|].
  rewrite (proj2 (Ascii.eqb_neq c d)); [done|congruence].
Qed.

Lemma unescape_slashes s : ReplaceAll (escape_bytes s) "~1" "/" = tilde_bytes s.
Proof.
  unfold ReplaceAll. induction s as [|c s IH]; [done|]. cbn [escape_bytes tilde_bytes].
  destruct (Ascii.eqb_spec c "~"%char) as [->|Hn].
  - rewrite !string_app_cons, !string_app_nil_l. cbn [replace_skip String.length Nat.sub].
    rewrite !HasPrefix_two, HasPrefix_byte. cbn -[escape_bytes tilde_bytes replace_skip]. by rewrite IH.
  - destruct (Ascii.eqb_spec c "/"%char) as [->|Hs].
    + rewrite !string_app_cons, !string_app_nil_l. cbn [replace_skip String.length Nat.sub].
      rewrite !HasPrefix_two, HasPrefix_byte. cbn -[escape_bytes tilde_bytes replace_skip]. by rewrite IH.
    + cbn [replace_skip]. rewrite HasPrefix_two, (proj2 (Ascii.eqb_neq _ _) Hn). cbn [andb]. by rewrite IH.
Qed.

Lemma unescape_tildes s : ReplaceAll (tilde_bytes s) "~0" "~" = s.
Proof.
  unfold ReplaceAll. induction s as [|c s IH]; [done|]. cbn [tilde_bytes].
  destruct (Ascii.eqb_spec c "~"%char) as [->|Hn].
  - rewrite !string_app_cons, !string_app_nil_l. cbn [replace_skip String.length Nat.sub].
    rewrite !HasPrefix_two, HasPrefix_byte. cbn -[tilde_bytes replace_skip]. by rewrite IH.
  - cbn [replace_skip]. rewrite HasPrefix_two, (proj2 (Ascii.eqb_neq _ _) Hn). cbn [andb]. by rewrite IH.
Qed.

Lemma unescape_escape s : jsonPointerUnescape (jsonPointerEscape s) = s.
Proof. unfold jsonPointerUnescape. by rewrite jsonPointerEscape_bytes, unescape_slashes, unescape_tildes. Qed.

Lemma replace_absent old new c s :
  has_byte c s = false -> (forall s, HasPrefix s old = true -> exists s', s = String c s') -> ReplaceAll s old new = s.
Proof.
  intros H Ho. unfold ReplaceAll. induction s as [|d s IH]; [done|]. cbn [has_byte] in H. apply orb_false_iff in H as [H1 H2].
  cbn [replace_skip]. destruct (HasPrefix (String d s) old) eqn:E; [|by rewrite IH].
  destruct (Ho _ E) as [s' [= -> ->]]. by rewrite Ascii.eqb_refl in H1.
Qed.

Lemma prefix_head c p s : HasPrefix s (String c p) = true -> exists s', s = String c s'.
Proof. intros H%HasPrefix_elim. rewrite string_app_cons in H. by eexists. Qed.

Lemma unescape_digits i : 0 <= i -> jsonPointerUnescape (Itoa i) = Itoa i.
Proof.
  intros Hi. pose proof (all_digits_no_byte "~"%char _ eq_refl (proj1 (Itoa_nonneg i Hi))) as H.
  unfold jsonPointerUnescape. rewrite (replace_absent "~1" "/" "~"%char) by (done || apply prefix_head).
  apply (replace_absent "~0" "~" "~"%char); [done|apply prefix_head].
Qed.

(** A pointer is a path of escaped tokens. *)
Fixpoint render (path : list string) : string :=
  match path with [] => "" | t :: path => "/" +:+ t +:+ render path end.

Definition plain (t : string) : Prop := has_byte "/"%char t = false.

Lemma Split_render t path : plain t -> Forall plain path -> Split (t +:+ render path) "/"%char = t :: path.
Proof.
  intros Ht Hp. revert t Ht. induction Hp as [|u path Hu Hp IH]; intros t Ht; cbn [render].
  - rewrite string_app_nil_r. by apply Split_none.
  - rewrite !string_app_cons, string_app_nil_l. rewrite Split_cons by done. by rewrite IH.
Qed.

Lemma setAtPointer_render root path val : Forall plain path -> setAtPointer root (render path) val = setNested root path val.
Proof.
  intros Hp. unfold setAtPointer. destruct Hp as [|t path Ht Hp]; [done|]. cbn [render].
  rewrite string_app_cons, string_app_nil_l. simpl String.eqb. cbn [drop_bytes]. by rewrite Split_render.
Qed.

(** ** What the walk finds *)

(** The children of a node, by escaped token. *)
Fixpoint walk_tokens (pointer : string) (l : list (string * walker)) (refs : list FoundRef) : result (list FoundRef) :=
  match l with
  | [] => inr refs
  | (t, child) :: l =>
    match child (pointer +:+ "/" +:+ t) refs with
    | inl err => inl err
    | inr refs => walk_tokens pointer l refs
    end
  end.

Definition escaped (l : list (string * walker)) : list (string * walker) := (fun '(k, w) => (jsonPointerEscape k, w)) <$> l.
Definition numbered (i : nat) (l : list walker) : list (string * walker) := imap (fun j w => (Itoa (Z.of_nat (i + j)), w)) l.

Lemma walk_entries_tokens ptr l refs : walk_entries ptr l refs = walk_tokens ptr (escaped l) refs.
Proof. revert refs. induction l as [|[k w] l IH]; intros refs; simpl; [done|]. destruct (w _ refs); [done|apply IH]. Qed.

Lemma numbered_cons i w l : numbered i (w :: l) = (Itoa (Z.of_nat i), w) :: numbered (S i) l.
Proof.
  unfold numbered. simpl. rewrite Nat.add_0_r. f_equal. apply imap_ext. intros j x _. simpl. by rewrite Nat.add_succ_r.
Qed.

Lemma walk_items_tokens ptr i l refs : walk_items ptr (Z.of_nat i) l refs = walk_tokens ptr (numbered i l) refs.
Proof.
  revert i refs. induction l as [|w l IH]; intros i refs; [done|]. rewrite numbered_cons. simpl.
  destruct (w _ refs); [done|]. rewrite <- IH. f_equal. lia.
Qed.

(** A walk adds what it finds to what was found before. *)
Definition additive (w : walker) : Prop := forall ptr refs,
  w ptr refs = match w ptr [] with inl err => inl err | inr new => inr (refs ++ new) end.

Lemma walk_tokens_additive l : Forall (fun tw => additive tw.2) l -> additive (fun ptr => walk_tokens ptr l).
Proof.
  intros Hl ptr refs. revert refs. induction Hl as [|[t w] l Hw Hl IH]; intros refs; simpl; [by rewrite app_nil_r|].
  simpl in Hw. rewrite Hw. destruct (w (ptr +:+ "/" +:+ t) []) as [e|new]; [done|].
  rewrite (IH (refs ++ new)), (IH new). destruct (walk_tokens ptr l []); [done|]. by rewrite app_assoc.
Qed.

Lemma walk_tokens_news ptr l out : Forall (fun tw => additive tw.2) l ->
  walk_tokens ptr l [] = inr out <-> exists news, Forall2 (fun tw new => tw.2 (ptr +:+ "/" +:+ tw.1) [] = inr new) l news /\ out = concat news.
Proof.
  intros Hl. revert out. induction Hl as [|[t w] l Hw Hl IH]; intros out; simpl.
  - split; [intros [= <-]; by exists []|]. intros (news & Hn & ->). by inversion Hn.
  - pose proof (walk_tokens_additive l Hl ptr) as Ha. simpl in Ha. split.
    + destruct (w _ []) as [e|new] eqn:E; [done|]. rewrite Ha. destruct (walk_tokens ptr l []) as [e|new2]; [done|].
      intros [= <-]. destruct (proj1 (IH new2) eq_refl) as (news & Hn & ->). exists (new :: news). split; [by constructor|done].
    + intros (news & Hn & ->). inversion Hn as [|? new ? news' E Hn']; subst. simpl in E. rewrite E, Ha.
      rewrite (proj2 (IH (concat news'))); [done|]. by exists news'.
Qed.

Section Walks.
Context (it : MapIter).

Lemma children_additive v : additive (walkForRefs it v).
Proof.
  induction v as [v Hv|l IH|m IH] using value_induction; intros ptr refs.
  - destruct v as [| | | |s|l|[m|]]; try done; simpl; try by rewrite app_nil_r.
    unfold walk_string. repeat case_if; try (by rewrite app_nil_r); [done|]. by destruct (ParseRef s).
  - simpl. rewrite !(walk_items_tokens ptr 0). apply (walk_tokens_additive (numbered 0 (walkForRefs it <$> l))).
    apply Forall_lookup. intros j tw. unfold numbered. rewrite list_lookup_imap, list_lookup_fmap.
    destruct (l !! j) as [v|] eqn:E; [|done]. intros [= <-]. simpl. apply IH. by eapply list_elem_of_lookup_2.
  - simpl. rewrite !walk_entries_tokens. apply (walk_tokens_additive (escaped (mrange it 40 (walkForRefs it <$> m)))).
    apply Forall_forall. intros tw Hin. apply list_elem_of_fmap in Hin as ([k w] & -> & Hin). simpl.
    apply elem_of_mrange in Hin. rewrite lookup_fmap in Hin. destruct (m !! k) as [v|] eqn:E; [|done]. simplify_eq/=. by eapply IH.
Qed.
End Walks.
#[export] Hint Resolve children_additive : go.

(** ** Substitution *)

(** What [ResolveParams] is for: every string that is a reference gives way to the value
    it names, and nothing else changes. *)
Fixpoint subst (f : Ref -> value) (v : value) : value :=
  match v with
  | VStr s => if HasPrefix s refPrefix then match ParseRef s with inr ref => f ref | inl _ => v end else v
  | VList l => VList (subst f <$> l)
  | VMap (Some m) => VMap (Some (subst f <$> m))
  | _ => v
  end.

(** A series of assignments. *)
Definition sets (v : value) (l : list (list string * value)) : option value :=
  foldl (fun acc '(path, val) => v ← acc; setNested v path val) (Some v) l.

Lemma sets_app v l1 l2 : sets v (l1 ++ l2) = v' ← sets v l1; sets v' l2.
Proof.
  unfold sets. rewrite foldl_app. destruct (foldl _ (Some v) l1) as [v'|]; [done|]. simpl.
  induction l2 as [|[p x] l2 IH]; [done|]. exact IH.
Qed.

Lemma sets_cons v p x l : sets v ((p, x) :: l) = v' ← setNested v p x; sets v' l.
Proof. exact (sets_app v [(p, x)] l). Qed.

Definition fill (f : Ref -> value) (l : list (list string * Ref)) : list (list string * value) := (fun '(p, r) => (p, f r)) <$> l.
Definition under (t : string) (l : list (list string * Ref)) : list (list string * Ref) := (fun '(p, r) => (t :: p, r)) <$> l.
Definition found (ptr : string) (l : list (list string * Ref)) : list FoundRef := (fun '(p, r) => mkFoundRef (ptr +:+ render p) r) <$> l.

Lemma found_under ptr t l : found (ptr +:+ "/" +:+ t) l = found ptr (under t l).
Proof.
  unfold found, under. rewrite <- list_fmap_compose. apply list_fmap_ext. intros _ [p r] _. simpl.
  by rewrite !string_app_cons, !string_app_assoc, !string_app_cons, !string_app_nil_l.
Qed.

(** Assignments below one key of a map, or one index of a list. *)
Lemma setNested_key m k c p val : m !! k = Some c ->
  setNested (VMap (Some m)) (jsonPointerEscape k :: p) val = c' ← setNested c p val; Some (VMap (Some (<[k := c']> m))).
Proof. intros Hk. cbn [setNested]. rewrite unescape_escape, Hk. by destruct p. Qed.

Lemma sets_key f m k c l : m !! k = Some c ->
  sets (VMap (Some m)) (fill f (under (jsonPointerEscape k) l)) = c' ← sets c (fill f l); Some (VMap (Some (<[k := c']> m))).
Proof.
  revert m c. induction l as [|[p r] l IH]; intros m c Hk; [simpl; by rewrite insert_id|].
  cbn [fill under fmap list_fmap]. fold (under (jsonPointerEscape k) l) (fill f l). fold (fill f (under (jsonPointerEscape k) l)). rewrite !sets_cons. rewrite (setNested_key _ _ c) by done.
  destruct (setNested c p (f r)) as [c1|]; [|done]. cbn [mbind option_bind].
  rewrite (IH _ c1) by apply lookup_insert_eq. destruct (sets c1 (fill f l)) as [c2|]; [|done]. cbn [mbind option_bind].
  by rewrite insert_insert_eq.
Qed.

Lemma setNested_item l j c p val : l !! j = Some c -> Z.of_nat (length l) <= max_int64 ->
  setNested (VList l) (Itoa (Z.of_nat j) :: p) val = c' ← setNested c p val; Some (VList (<[j := c']> l)).
Proof.
  intros Hj Hl. pose proof (lookup_lt_Some _ _ _ Hj) as Hlt. cbn [setNested].
  rewrite unescape_digits by lia. rewrite Atoi_Itoa by lia.
  destruct (Z.ltb_spec (Z.of_nat j) 0); [lia|]. destruct (Z.leb_spec (Z.of_nat (length l)) (Z.of_nat j)); [lia|].
  cbn [orb]. rewrite Nat2Z.id, Hj. by destruct p.
Qed.

Lemma sets_item f xs j c l : xs !! j = Some c -> Z.of_nat (length xs) <= max_int64 ->
  sets (VList xs) (fill f (under (Itoa (Z.of_nat j)) l)) = c' ← sets c (fill f l); Some (VList (<[j := c']> xs)).
Proof.
  revert xs c. induction l as [|[p r] l IH]; intros xs c Hj Hl; [simpl; by rewrite list_insert_id|].
  cbn [fill under fmap list_fmap]. fold (under (Itoa (Z.of_nat j)) l) (fill f l). fold (fill f (under (Itoa (Z.of_nat j)) l)). rewrite !sets_cons. rewrite (setNested_item _ _ c) by done.
  destruct (setNested c p (f r)) as [c1|]; [|done]. cbn [mbind option_bind].
  rewrite (IH _ c1); [|by apply list_lookup_insert_eq, (lookup_lt_Some _ _ _ Hj)|by rewrite length_insert].
  destruct (sets c1 (fill f l)) as [c2|]; [|done]. cbn [mbind option_bind]. by rewrite list_insert_insert_eq.
Qed.

(** The walk of a node finds [leaves], and assigning to them is the substitution. *)
Definition good (w : walker) (v : value) : Prop := forall ptr new, w ptr [] = inr new ->
  exists leaves, new = found ptr leaves /\ Forall (fun l => Forall plain l.1) leaves /\
  forall f, sets v (fill f leaves) = Some (subst f v).

Lemma found_app ptr l1 l2 : found ptr (l1 ++ l2) = found ptr l1 ++ found ptr l2.
Proof. apply fmap_app. Qed.

Lemma under_plain t l : plain t -> Forall (fun l => Forall plain l.1) l -> Forall (fun l => Forall plain l.1) (under t l).
Proof. intros Ht Hl. unfold under. apply Forall_fmap. eapply Forall_impl; [exact Hl|]. intros [p r] Hp. simpl in *. by constructor. Qed.

Lemma map_good (m : gmap string value) (L : list (string * walker)) ptr news :
  NoDup L.*1 -> (forall k w, (k, w) ∈ L -> exists c, m !! k = Some c /\ good w c) ->
  Forall2 (fun tw new => tw.2 (ptr +:+ "/" +:+ tw.1) [] = inr new) (escaped L) news ->
  exists leaves, concat news = found ptr leaves /\ Forall (fun l => Forall plain l.1) leaves /\
  forall f m0, (forall k, k ∈ L.*1 -> m0 !! k = m !! k) ->
    exists m', sets (VMap (Some m0)) (fill f leaves) = Some (VMap (Some m')) /\
    forall k, m' !! k = if decide (k ∈ L.*1) then subst f <$> m !! k else m0 !! k.
Proof.
  revert news. induction L as [|[k w] L IH]; intros news HL Hg Hn; inversion Hn as [|? new ? news' Hw Hn']; subst.
  - exists []. split; [done|split; [constructor|]]. intros f m0 _. exists m0. split; [done|]. intros k. by destruct (decide _) as [H%elem_of_nil|].
  - apply NoDup_cons in HL as [Hk HL]. destruct (Hg k w) as (c & Hc & Hgood); [by left|].
    destruct (Hgood _ _ Hw) as (l1 & -> & Hp1 & Hs1).
    destruct (IH news' HL) as (l2 & E2 & Hp2 & Hs2); [intros k' w' Hin; apply Hg; by right|done|].
    exists (under (jsonPointerEscape k) l1 ++ l2). split; [by rewrite found_app, <- found_under, <- E2|].
    split; [apply Forall_app; split; [by apply under_plain; [apply escape_no_slash|]|done]|].
    intros f m0 Hm0. unfold fill. rewrite fmap_app. fold (fill f (under (jsonPointerEscape k) l1)) (fill f l2).
    rewrite sets_app, (sets_key f m0 k c) by (rewrite Hm0; [done|by left]). rewrite Hs1. cbn [mbind option_bind].
    destruct (Hs2 f (<[k := subst f c]> m0)) as (m' & Hm' & Hl).
    { intros k' Hk'. rewrite lookup_insert_ne by (intros ->; done). apply Hm0. by right. }
    exists m'. split; [done|]. intros k'. rewrite Hl. cbn [fmap list_fmap fst].
    destruct (decide (k' ∈ L.*1)) as [Hin|Hin]; [by rewrite decide_True by by right|].
    destruct (decide (k = k')) as [<-|Hne]; [rewrite lookup_insert_eq, decide_True by (by left); by rewrite Hc|].
    rewrite lookup_insert_ne by done. rewrite decide_False; [done|]. intros [->|?]%elem_of_cons; done.
Qed.

Lemma list_good ws xs i ptr news :
  Forall2 good ws xs -> Forall2 (fun tw new => tw.2 (ptr +:+ "/" +:+ tw.1) [] = inr new) (numbered i ws) news ->
  exists leaves, concat news = found ptr leaves /\ Forall (fun l => Forall plain l.1) leaves /\
  forall f pre, length pre = i -> Z.of_nat (length (pre ++ xs)) <= max_int64 ->
    sets (VList (pre ++ xs)) (fill f leaves) = Some (VList (pre ++ (subst f <$> xs))).
Proof.
  intros Hg. revert i news. induction Hg as [|w c ws xs Hc Hg IH]; intros i news Hn.
  - inversion Hn; subst. exists []. split; [done|split; [constructor|done]].
  - rewrite numbered_cons in Hn. inversion Hn as [|? new ? news' Hw Hn']; subst.
    destruct (Hc _ _ Hw) as (l1 & -> & Hp1 & Hs1). destruct (IH _ _ Hn') as (l2 & E2 & Hp2 & Hs2).
    exists (under (Itoa (Z.of_nat i)) l1 ++ l2). split; [cbn [concat]; by rewrite found_app, <- found_under, <- E2|].
    split; [apply Forall_app; split; [apply under_plain; [|done]|done]|].
    { apply all_digits_no_byte; [done|]. apply Itoa_nonneg. lia. }
    intros f pre <- Hlen. unfold fill. rewrite fmap_app. fold (fill f (under (Itoa (Z.of_nat (length pre))) l1)) (fill f l2).
    rewrite sets_app, (sets_item f _ _ c) by (done || by apply list_lookup_middle). rewrite Hs1. cbn [mbind option_bind].
    rewrite (insert_app_r_alt pre) by lia. rewrite Nat.sub_diag. cbn [insert list_insert].
    cbn [fmap list_fmap]. rewrite (cons_middle _ pre xs), (cons_middle _ pre (subst f <$> xs)), !app_assoc.
    apply Hs2; [rewrite length_app; simpl; lia|]. rewrite !length_app in *. simpl in *. lia.
Qed.

Lemma walkForRefs_good `{J : Json} it v : decoded v -> good (walkForRefs it v) v.
Proof.
  induction v as [v Hv|l IH|m IH] using value_induction; intros Hd ptr new Hw.
  - destruct v as [| | | |s|l|[m|]]; try done; simpl in Hw; try (simplify_eq; exists []; split; [done|split; [constructor|done]]).
    unfold walk_string in Hw. destruct (Contains s refPrefix) eqn:Hc.
    + destruct (HasPrefix s refPrefix) eqn:Hp; [|done]. simpl in Hw. destruct (ParseRef s) as [e|ref] eqn:Er; [done|]. simplify_eq.
      exists [([], ref)]. split; [by unfold found; simpl; rewrite string_app_nil_r|]. split; [by repeat constructor|].
      intros f. simpl. by rewrite Hp, Er.
    + simplify_eq. exists []. split; [done|split; [constructor|]]. intros f. simpl.
      destruct (HasPrefix s refPrefix) eqn:Hp; [|done]. apply HasPrefix_Contains in Hp. congruence.
  - inversion Hd as [| | | |? Hl Hlen|]; subst. simpl in Hw. rewrite (walk_items_tokens ptr 0) in Hw.
    apply walk_tokens_news in Hw as (news & Hn & ->).
    + destruct (list_good (walkForRefs it <$> l) l 0 ptr news) as (leaves & E & Hp & Hs); [|done|].
      { apply Forall2_fmap_l, Forall_Forall2_diag, Forall_forall. intros v Hv. by apply IH, Hl. }
      exists leaves. split; [done|split; [done|]]. intros f. exact (Hs f [] eq_refl Hlen).
    + apply Forall_lookup. intros j tw. unfold numbered. rewrite list_lookup_imap, list_lookup_fmap.
      destruct (l !! j); [|done]. intros [= <-]. apply children_additive.
  - inversion Hd as [| | | | |? Hm]; subst. simpl in Hw. rewrite walk_entries_tokens in Hw.
    assert (forall k w, (k, w) ∈ mrange it 40 (walkForRefs it <$> m) -> exists c, m !! k = Some c /\ w = walkForRefs it c) as Hin.
    { intros k w Hin. apply elem_of_mrange in Hin. rewrite lookup_fmap in Hin. destruct (m !! k) as [c|]; [|done]. simplify_eq/=. by exists c. }
    apply walk_tokens_news in Hw as (news & Hn & ->).
    + destruct (map_good m (mrange it 40 (walkForRefs it <$> m)) ptr news) as (leaves & E & Hp & Hs); [apply NoDup_fst_mrange| |done|].
      { intros k w Hkw. destruct (Hin k w Hkw) as (c & Hc & ->). exists c. split; [done|]. eapply IH; [done|by eapply Hm]. }
      exists leaves. split; [done|split; [done|]]. intros f. destruct (Hs f m) as (m' & Hm' & Hl); [done|].
      rewrite Hm'. simpl. do 3 f_equal. apply map_eq. intros k. rewrite Hl, lookup_fmap. destruct (decide _) as [|Hnot]; [done|].
      destruct (m !! k) as [c|] eqn:E'; [|done]. destruct Hnot. apply list_elem_of_fmap. exists (k, walkForRefs it c).
      split; [done|]. apply elem_of_mrange. by rewrite lookup_fmap, E'.
    + apply Forall_forall. intros tw Htw. apply list_elem_of_fmap in Htw as ([k w] & -> & Hkw).
      destruct (Hin k w Hkw) as (c & _ & ->). apply children_additive.
Qed.

(** The walk finds the same references whatever order it takes the keys of a map in. *)
Lemma Forall2_perm_l {A B} (P : A -> B -> Prop) l1 l2 k1 :
  l1 ≡ₚ l2 -> Forall2 P l1 k1 -> exists k2, k1 ≡ₚ k2 /\ Forall2 P l2 k2.
Proof.
  intros Hp. revert k1. induction Hp as [|x l1 l2 _ IH|x y l|l1 l2 l3 _ IH1 _ IH2]; intros k1 Hf.
  - inversion Hf; subst. by exists [].
  - inversion Hf as [|? b ? k Hx Hf']; subst. destruct (IH _ Hf') as (k2 & Hk & Hf2). exists (b :: k2). split; [by constructor|by constructor].
  - inversion Hf as [|? b ? k Hx Hf']; subst. inversion Hf' as [|? b' ? k' Hy Hf'']; subst.
    exists (b' :: b :: k'). split; [constructor|by repeat constructor].
  - destruct (IH1 _ Hf) as (k2 & H1 & Hf2). destruct (IH2 _ Hf2) as (k3 & H2 & Hf3). exists k3. split; [by rewrite H1|done].
Qed.

Lemma concat_perm {A} (l1 l2 : list (list A)) : l1 ≡ₚ l2 -> concat l1 ≡ₚ concat l2.
Proof.
  induction 1 as [|x l1 l2 _ IH|x y l|l1 l2 l3 _ IH1 _ IH2]; simpl; [done|by rewrite IH| |by rewrite IH1].
  rewrite !app_assoc. by rewrite (Permutation_app_comm y x).
Qed.

Lemma concat_perm_pointwise {A} (l1 l2 : list (list A)) : Forall2 Permutation l1 l2 -> concat l1 ≡ₚ concat l2.
Proof. induction 1 as [|x y l1 l2 Hx _ IH]; simpl; [done|]. by rewrite Hx, IH. Qed.

Definition alike (w1 w2 : walker) : Prop := forall ptr out1, w1 ptr [] = inr out1 -> exists out2, w2 ptr [] = inr out2 /\ out1 ≡ₚ out2.

Lemma walk_tokens_alike ptr l1 l2 out1 :
  Forall (fun tw => additive tw.2) l1 -> Forall (fun tw => additive tw.2) l2 ->
  Forall2 (fun tw1 tw2 => tw1.1 = tw2.1 /\ alike tw1.2 tw2.2) l1 l2 -> walk_tokens ptr l1 [] = inr out1 ->
  exists out2, walk_tokens ptr l2 [] = inr out2 /\ out1 ≡ₚ out2.
Proof.
  intros A1 A2 Hl (news & Hn & ->)%walk_tokens_news; [|done].
  assert (exists news2, Forall2 (fun tw new => tw.2 (ptr +:+ "/" +:+ tw.1) [] = inr new) l2 news2 /\ Forall2 Permutation news news2) as (news2 & Hn2 & Hp).
  { clear A1 A2. revert news Hn. induction Hl as [|[t w1] [t' w2] l1 l2 [Ht Hw] Hl IH]; intros news Hn; inversion Hn as [|? new ? news' E Hn']; subst.
    - by exists [].
    - simpl in *. subst t'. destruct (Hw _ _ E) as (new2 & E2 & P2). destruct (IH _ Hn') as (news2 & H1 & H2).
      exists (new2 :: news2). split; by constructor. }
  exists (concat news2). split; [|by apply concat_perm_pointwise]. apply walk_tokens_news; [done|]. by exists news2.
Qed.

Lemma escaped_additive it (m : gmap string value) (L : list (string * walker)) :
  (forall k w, (k, w) ∈ L -> exists c, m !! k = Some c /\ w = walkForRefs it c) -> Forall (fun tw => additive tw.2) (escaped L).
Proof.
  intros H. apply Forall_forall. intros tw Htw. apply list_elem_of_fmap in Htw as ([k w] & -> & Hkw).
  destruct (H k w Hkw) as (c & _ & ->). apply children_additive.
Qed.

Lemma numbered_additive it i l : Forall (fun tw => additive tw.2) (numbered i (walkForRefs it <$> l)).
Proof.
  apply Forall_lookup. intros j tw. unfold numbered. rewrite list_lookup_imap, list_lookup_fmap.
  destruct (l !! j); [|done]. intros [= <-]. apply children_additive.
Qed.

Lemma walkForRefs_alike it1 it2 v : alike (walkForRefs it1 v) (walkForRefs it2 v).
Proof.
  induction v as [v Hv|l IH|m IH] using value_induction; intros ptr out1 Hw.
  - destruct v as [| | | |s|l|[m|]]; try done; by eexists.
  - simpl in *. rewrite (walk_items_tokens ptr 0) in *. revert Hw. apply walk_tokens_alike; [apply numbered_additive..|].
    apply Forall2_same_length_lookup_2; [unfold numbered; by rewrite !length_imap, !length_fmap|].
    intros j x y. unfold numbered. rewrite !list_lookup_imap, !list_lookup_fmap. destruct (l !! j) as [v|] eqn:E; [|done].
    intros [= <-] [= <-]. split; [done|]. apply IH. by eapply list_elem_of_lookup_2.
  - simpl in *. rewrite walk_entries_tokens in *.
    assert (forall it k w, (k, w) ∈ mrange it 40 (walkForRefs it <$> m) -> exists c, m !! k = Some c /\ w = walkForRefs it c) as Hin.
    { intros it k w Hin. apply elem_of_mrange in Hin. rewrite lookup_fmap in Hin. destruct (m !! k) as [c|]; [|done]. simplify_eq/=. by exists c. }
    set (L := map_to_list m).
    assert (forall it, mrange it 40 (walkForRefs it <$> m) ≡ₚ (fun '(k, c) => (k, walkForRefs it c)) <$> L) as HL.
    { intros it. rewrite mrange_perm. unfold L. rewrite map_to_list_fmap. apply Permutation_refl', list_fmap_ext. by intros _ [k c] _. }
    assert (forall it, escaped (mrange it 40 (walkForRefs it <$> m)) ≡ₚ (fun '(k, c) => (jsonPointerEscape k, walkForRefs it c)) <$> L) as HE.
    { intros it. unfold escaped. rewrite HL, <- list_fmap_compose. apply Permutation_refl'. apply list_fmap_ext. by intros _ [k c] _. }
    apply walk_tokens_news in Hw as (news & Hn & ->); [|by eapply escaped_additive, Hin].
    destruct (Forall2_perm_l _ _ _ _ (HE it1) Hn) as (news1 & P1 & H1).
    destruct (walk_tokens_alike ptr ((fun '(k, c) => (jsonPointerEscape k, walkForRefs it1 c)) <$> L)
      ((fun '(k, c) => (jsonPointerEscape k, walkForRefs it2 c)) <$> L) (concat news1)) as (out2 & E2 & P2).
    + apply Forall_fmap, Forall_forall. intros [k c] _. apply children_additive.
    + apply Forall_fmap, Forall_forall. intros [k c] _. apply children_additive.
    + apply Forall2_fmap, Forall_Forall2_diag, Forall_forall. intros [k c] Hkc. split; [done|]. simpl. eapply IH.
      by apply elem_of_map_to_list.
    + apply walk_tokens_news; [apply Forall_fmap, Forall_forall; intros [k c] _; apply children_additive|]. by exists news1.
    + apply walk_tokens_news in E2 as (news2 & Hn2 & ->); [|apply Forall_fmap, Forall_forall; intros [k c] _; apply children_additive].
      symmetry in HE. destruct (Forall2_perm_l _ _ _ _ (HE it2) Hn2) as (news3 & P3 & H3).
      exists (concat news3). split; [apply walk_tokens_news; [by eapply escaped_additive, Hin|]; by exists news3|].
      rewrite (concat_perm _ _ P1), P2. by apply concat_perm.
Qed.

(** ** Resolving in place *)

Section Substitution.
Context `{J : Json} {L : JsonLaws J}.

(** The value a reference names. *)
Definition named (results : gmap string string) (ref : Ref) : value :=
  match ResolveRef ref results with
  | inr t => default VNull (Unmarshal t)
  | inl _ => VNull
  end.

Definition resolvable (results : gmap string string) (fr : FoundRef) : Prop :=
  exists t v, ResolveRef (fr_Ref fr) results = inr t /\ Unmarshal t = Some v.

Lemma named_decoded results ref : decoded (named results ref).
Proof using L.
  unfold named. destruct (ResolveRef ref results) as [|t]; [constructor|].
  destruct (Unmarshal t) as [v|] eqn:E; [by eapply json_decoded|constructor].
Qed.

Lemma subst_decoded f v : (forall r, decoded (f r)) -> decoded v -> decoded (subst f v).
Proof.
  clear. intros Hf. induction v as [v Hv|l IH|m IH] using value_induction; intros Hd.
  - destruct v as [| | | |s|l|[m|]]; try done. simpl. case_if; [|done]. destruct (ParseRef s); [done|apply Hf].
  - inversion Hd as [| | | |? Hl Hlen|]; subst. simpl. apply decoded_list; [|by rewrite length_fmap].
    intros x (y & -> & Hy)%list_elem_of_fmap. by apply IH, Hl.
  - inversion Hd as [| | | | |? Hm]; subst. simpl. apply decoded_map. intros k x. rewrite lookup_fmap.
    destruct (m !! k) as [y|] eqn:E; [|done]. intros [= <-]. destruct (Hm k y E) as [Hk Hy]. split; [done|]. by eapply IH.
Qed.

Lemma resolve_loop_spec results leaves root :
  Forall (fun l => Forall plain l.1) leaves ->
  match resolve_loop (found "" leaves) results root with
  | inr v => sets root (fill (named results) leaves) = Some v /\ Forall (resolvable results) (found "" leaves)
  | inl err => sets root (fill (named results) leaves) = None \/
               (err = ErrResolved /\ exists fr t, fr ∈ found "" leaves /\ ResolveRef (fr_Ref fr) results = inr t /\ Unmarshal t = None) \/
               exists fr, fr ∈ found "" leaves /\ ResolveRef (fr_Ref fr) results = inl err
  end.
Proof.
  clear L. intros Hp. revert root. induction Hp as [|[p r] leaves Hp Hps IH]; intros root; [by split|].
  cbn [found fmap list_fmap resolve_loop fr_Ref fr_Pointer]. fold (found "" leaves). rewrite string_app_nil_l.
  destruct (ResolveRef r results) as [e|t] eqn:Er; [right; right; eexists; split; [by left|done]|].
  destruct (Unmarshal t) as [v|] eqn:Eu; [|right; left; split; [done|]; do 2 eexists; split; [by left|done]].
  rewrite setAtPointer_render by done. cbn [fill fmap list_fmap]. fold (fill (named results) leaves). rewrite sets_cons.
  assert (named results r = v) as -> by (unfold named; by rewrite Er, Eu).
  destruct (setNested root p v) as [root'|] eqn:Es; [|by left]. cbn [mbind option_bind]. specialize (IH root').
  destruct (resolve_loop (found "" leaves) results root') as [err|v'].
  - destruct IH as [IH|[(-> & fr & t' & Hfr & E)|(fr & Hfr & E)]]; [by left| |].
    + right; left. split; [done|]. exists fr, t'. split; [by right|done].
    + right; right. exists fr. split; [by right|done].
  - destruct IH as [IH1 IH2]. split; [done|]. constructor; [|done]. exists t, v. done.
Qed.

Lemma ResolveParams_spec it params refs results :
  FindRefs it params = inr refs ->
  match ResolveParams params refs results with
  | inr out => exists root, Unmarshal params = Some root /\ Forall (resolvable results) refs /\
               match refs with [] => out = params | _ => Marshal (subst (named results) root) = Some out end /\
               (shallow (subst (named results) root) -> Unmarshal out = Some (subst (named results) root))
  | inl err => (err = ErrMarshal /\ exists root, Unmarshal params = Some root /\ Marshal (subst (named results) root) = None) \/
               (err = ErrResolved /\ exists fr t, fr ∈ refs /\ ResolveRef (fr_Ref fr) results = inr t /\ Unmarshal t = None) \/
               exists fr, fr ∈ refs /\ ResolveRef (fr_Ref fr) results = inl err
  end.
Proof using L.
  unfold FindRefs. destruct (Unmarshal params) as [root|] eqn:Eu; [|done]. intros Hw.
  pose proof (json_decoded _ _ Eu) as Hd.
  destruct (walkForRefs_good it root Hd "" refs Hw) as (leaves & -> & Hp & Hs). specialize (Hs (named results)).
  unfold ResolveParams. destruct (found "" leaves) as [|fr frs] eqn:Ef.
  - destruct leaves; [|done]. exists root. change (Some root = Some (subst (named results) root)) in Hs.
    split; [done|split; [constructor|split; [done|congruence]]].
  - rewrite Eu. pose proof (resolve_loop_spec results leaves root Hp) as Hr. rewrite Ef in Hr.
    destruct (resolve_loop (fr :: frs) results root) as [err|v].
    + destruct Hr as [Hr|[Hr|Hr]]; [congruence|by right; left|by right; right].
    + destruct Hr as [Hv Hall]. assert (v = subst (named results) root) as -> by congruence.
      destruct (Marshal (subst (named results) root)) as [out|] eqn:Em; [|left; split; [done|by exists root]].
      exists root. split; [done|split; [done|split; [done|]]]. intros Hn.
      eapply json_marshal; [|done|done]. apply subst_decoded; [apply named_decoded|done].
Qed.

(** C33: [ResolveParams] substitutes: given the references [FindRefs] finds in the parameters
    of a step, in whatever order it met the keys, it answers with the encoding of the value
    the parameters decode to, with every reference replaced by the value it names in the
    results and every other part of that value kept; without references it answers with the
    parameters themselves.  That encoding decodes back to the substituted value when the
    substitution nests no deeper than the 10000 levels a decoder accepts.  It fails only
    when a reference does not resolve in the results, the text it resolves to is not JSON,
    or the substituted value cannot be encoded.  A decoded number is a [float64], so a
    number beyond its precision is kept as the [float64] it was decoded to.  Of
    [encoding/json] this uses that decoding gives valid UTF-8 and that a decoded value
    within that depth reads back from its encoding. *)
Theorem ResolveParams_substitutes it params refs results :
  FindRefs it params = inr refs ->
  match ResolveParams params refs results with
  | inr out => exists root, Unmarshal params = Some root /\ Forall (resolvable results) refs /\
               match refs with [] => out = params | _ => Marshal (subst (named results) root) = Some out end /\
               (shallow (subst (named results) root) -> Unmarshal out = Some (subst (named results) root))
  | inl err => (err = ErrMarshal /\ exists root, Unmarshal params = Some root /\ Marshal (subst (named results) root) = None) \/
               (err = ErrResolved /\ exists fr t, fr ∈ refs /\ ResolveRef (fr_Ref fr) results = inr t /\ Unmarshal t = None) \/
               exists fr, fr ∈ refs /\ ResolveRef (fr_Ref fr) results = inl err
  end.
Proof using L. apply ResolveParams_spec. Qed.
End Substitution.

(** ** The grammar of references *)

(** The loop of [parsePath] consumes a byte in every round: more fuel changes nothing. *)
Lemma parse_path_fuel f1 f2 s original segs : (String.length s <= f1)%nat -> (String.length s <= f2)%nat ->
  parse_path_loop f1 s original segs = parse_path_loop f2 s original segs.
Proof.
  revert f2 s segs. induction f1 as [|f1 IH]; intros f2 [|c s] segs H1 H2; [by destruct f2|simpl in *; lia|by destruct f2|].
  destruct f2 as [|f2]; [simpl in *; lia|]. cbn [parse_path_loop String.length] in *.
  repeat match goal with |- context [if ?b then _ else _] => destruct b end; try done.
  - apply IH; rewrite drop_bytes_length; lia.
  - destruct (StrIndex s "]") as [e|] eqn:E; [|done]. apply StrIndex_bound in E. destruct (Atoi _); [|done].
    case_if; [done|]. apply IH; rewrite drop_bytes_length; lia.
Qed.

Definition identifier (f : string) : Prop := f <> "" /\ field_length f true = String.length f.

Definition segment_ok (seg : PathSegment) : Prop :=
  match seg with SegField f => identifier f | SegIndex i => 0 <= i <= max_int64 end.

Definition format_segment (seg : PathSegment) : string :=
  match seg with SegField f => "." +:+ f | SegIndex i => "[" +:+ Itoa i +:+ "]" end.
Definition format_path (path : list PathSegment) : string := foldr (fun seg s => format_segment seg +:+ s) "" path.
Definition FormatRef (r : Ref) : string := refPrefix +:+ ref_StepID r +:+ refClose +:+ ".result" +:+ format_path (ref_Path r).

Lemma format_path_head path : format_path path = "" \/ exists s, format_path path = String "."%char s \/ format_path path = String "["%char s.
Proof.
  destruct path as [|[f|i] path]; [by left|right|right]; eexists; [left|right]; simpl; by rewrite !string_app_cons, !string_app_nil_l.
Qed.

Lemma field_length_app f s first : field_length f first = String.length f -> field_length s false = O ->
  field_length (f +:+ s) (if (String.length f =? 0)%nat then false else first) = String.length f.
Proof.
  revert first. induction f as [|c f IH]; intros first Hf Hs; [done|].
  rewrite string_app_cons. cbn [field_length String.length Nat.eqb] in *. destruct (isFieldChar c first); [|done].
  injection Hf as Hf. specialize (IH false Hf Hs). f_equal. by destruct f.
Qed.

Lemma take_fields f path : identifier f ->
  field_length (f +:+ format_path path) true = String.length f.
Proof.
  intros [Hne Hf]. pose proof (field_length_app f (format_path path) true Hf) as H.
  destruct f as [|c f]; [done|]. apply H. by destruct (format_path_head path) as [->|[s [-> | ->]]].
Qed.

Lemma parsePath_format fuel path original segs : Forall segment_ok path -> (String.length (format_path path) <= fuel)%nat ->
  parse_path_loop fuel (format_path path) original segs = inr (segs ++ path).
Proof.
  intros Hp. revert fuel segs. induction Hp as [|[f|i] path Hs Hp IH]; intros fuel segs Hf; [simpl; rewrite app_nil_r; by destruct fuel| |].
  - simpl in Hs. cbn [format_path foldr format_segment] in *. fold (format_path path) in *. rewrite !string_app_cons, string_app_nil_l in *.
    destruct fuel as [|fuel]; [simpl in Hf; lia|]. cbn [String.length] in Hf. rewrite string_length_app in Hf.
    cbn [parse_path_loop]. cbn [Ascii.eqb Bool.eqb]. destruct (String.eqb_spec (f +:+ format_path path) "") as [E|_].
    { destruct Hs as [Hne _]. destruct f; [done|]. by rewrite string_app_cons in E. }
    rewrite take_fields by done. destruct Hs as [Hne _]. destruct f as [|c f]; [done|]. cbn [String.length Nat.eqb].
    change (S (String.length f)) with (String.length (String c f)). rewrite drop_bytes_app, take_bytes_app.
    rewrite IH by lia. by rewrite <- app_assoc.
  - simpl in Hs. cbn [format_path foldr format_segment] in *. fold (format_path path) in *.
    rewrite string_app_assoc, !string_app_cons, string_app_nil_l, string_app_assoc in *.
    destruct fuel as [|fuel]; [simpl in Hf; lia|]. cbn [String.length] in Hf. rewrite string_length_app, string_app_cons, string_app_nil_l in Hf. cbn [String.length] in Hf.
    cbn [parse_path_loop]. cbn [Ascii.eqb Bool.eqb].
    destruct (Itoa_nonneg i) as (Hd & _ & _); [lia|].
    rewrite (StrIndex_after "]"%char "" (Itoa i) (format_path path)) by by apply all_digits_no_byte.
    rewrite take_bytes_app, Atoi_Itoa by done. destruct (Z.ltb_spec i 0); [lia|].
    assert (drop_bytes (String.length (Itoa i) + 1) (Itoa i +:+ "]" +:+ format_path path) = format_path path) as ->.
    { rewrite <- (drop_bytes_app (Itoa i +:+ "]") (format_path path)) at 2. rewrite string_length_app, string_app_assoc. done. }
    rewrite IH by lia. by rewrite <- app_assoc.
Qed.

Definition ref_ok (r : Ref) : Prop :=
  ref_StepID r <> "" /\ has_byte (ascii_of_nat 34) (ref_StepID r) = false /\ Forall segment_ok (ref_Path r).

(** References read back: the text of a reference to a step, written as the grammar
    says, parses to that reference, whatever its path of fields and indexes is. *)
Theorem ParseRef_FormatRef r : ref_ok r -> ParseRef (FormatRef r) = inr r.
Proof.
  intros (Hne & Hq & Hp). unfold ParseRef, FormatRef. rewrite HasPrefix_app. cbn [negb]. rewrite drop_bytes_app.
  change refClose with (String (ascii_of_nat 34) "]").
  rewrite (StrIndex_after (ascii_of_nat 34) "]" (ref_StepID r)) by done. rewrite take_bytes_app.
  destruct (String.eqb_spec (ref_StepID r) ""); [done|].
  assert (forall s, drop_bytes (String.length (ref_StepID r) + 2) (ref_StepID r +:+ String (ascii_of_nat 34) "]" +:+ s) = s) as Hdrop.
  { intros s. rewrite <- (drop_bytes_app (ref_StepID r +:+ String (ascii_of_nat 34) "]") s) at 2.
    rewrite string_length_app, string_app_assoc. done. }
  rewrite Hdrop, HasPrefix_app. cbn [negb]. rewrite drop_bytes_app.
  destruct r as [id path]. simpl in *. destruct path as [|seg path]; [done|].
  destruct (String.eqb_spec (format_path (seg :: path)) "") as [E|_].
  { by destruct seg; simpl in E; rewrite !string_app_cons in E. }
  unfold parsePath. by rewrite parsePath_format.
Qed.

(** What a parsed reference looks like: the step has a name, fields are identifiers and
    indexes are non-negative, so [walkJSON] never indexes before a slice. *)
Lemma field_length_bound s first : (field_length s first <= String.length s)%nat.
Proof. revert first. induction s as [|c s IH]; intros first; simpl; [done|]. case_if; [specialize (IH false)|]; lia. Qed.

Lemma take_field s first : String.length (take_bytes (field_length s first) s) = field_length s first /\
  field_length (take_bytes (field_length s first) s) first = field_length s first.
Proof.
  revert first. induction s as [|c s IH]; intros first; [done|]. cbn [field_length].
  destruct (isFieldChar c first) eqn:E; [|by rewrite take_bytes_0]. destruct (IH false) as [H1 H2].
  unfold take_bytes in *. cbn [String.substring String.length field_length]. by rewrite E, H1, H2.
Qed.

Lemma Atoi_range s v : Atoi s = Some v -> in_int64 v = true.
Proof.
  unfold Atoi. destruct (match s with String "-" s' => (-1, s') | String "+" s' => (1, s') | _ => (1, s) end) as [sg body].
  case_if; [done|]. destruct (digits_value 0 body) as [d|]; [|done]. cbn [mbind option_bind]. case_if; [|done]. by intros [= <-].
Qed.

Lemma parse_path_ok fuel s original segs path : Forall segment_ok segs ->
  parse_path_loop fuel s original segs = inr path -> Forall segment_ok path.
Proof.
  revert s segs. induction fuel as [|fuel IH]; intros [|c s] segs Hs; cbn [parse_path_loop]; try (by intros [= <-]).
  destruct (Ascii.eqb c "."%char); [|destruct (Ascii.eqb c "["%char); [|done]].
  - case_if; [done|]. destruct (Nat.eqb_spec (field_length s true) 0) as [|Hn]; [done|]. apply IH, Forall_app. split; [done|].
    constructor; [|done]. destruct (take_field s true) as [H1 H2]. split; [|congruence]. intros H. by rewrite H in H1.
  - destruct (StrIndex s "]") as [e|]; [|done]. destruct (Atoi (take_bytes e s)) as [idx|] eqn:Ea; [|done].
    destruct (Z.ltb_spec idx 0); [done|]. apply IH, Forall_app. split; [done|]. constructor; [|done]. simpl.
    apply Atoi_range in Ea. unfold in_int64 in Ea. bool_prop. lia.
Qed.

Lemma ParseRef_ok s r : ParseRef s = inr r -> ref_StepID r <> "" /\ Forall segment_ok (ref_Path r).
Proof.
  unfold ParseRef. case_if; [done|]. destruct (StrIndex _ refClose) as [e|]; [|done].
  destruct (String.eqb_spec (take_bytes e (drop_bytes (String.length refPrefix) s)) "") as [|Hne]; [done|].
  case_if; [done|]. case_if; [intros [= <-]; by split|].
  destruct (parsePath _ s) as [err|path] eqn:Ep; [done|]. intros [= <-]. split; [done|]. by eapply parse_path_ok.
Qed.

(** ** An example *)

(** JSON text with its quotes written ['], to keep it readable. *)
Definition q (s : string) : string := ReplaceAll s "'" quote.

Definition demo_ref : string := Eval vm_compute in q "$steps['a'].result.id".
Definition demo_params : string := Eval vm_compute in q "{'incident':'$steps[\'a\'].result.id'}".
Definition demo_result : string := Eval vm_compute in q "{'id':'i-1'}".
Definition demo_resolved : string := Eval vm_compute in q "{'incident':'i-1'}".

Definition demo_id_text : string := Eval vm_compute in q "'i-1'".
Definition demo_ref_text : string := Eval vm_compute in q "'$steps[\'a\'].result.id'".

Definition demo_texts : list (string * value) :=
  [(demo_params, VMap (Some {["incident" := VStr demo_ref]}));
   (demo_result, VMap (Some {["id" := VStr "i-1"]}));
   (demo_resolved, VMap (Some {["incident" := VStr "i-1"]}));
   (demo_id_text, VStr "i-1"); (demo_ref_text, VStr demo_ref); ("{}", VMap (Some ∅))].

Definition demo_objects : list (string * gmap string string) :=
  [(demo_params, {["incident" := demo_ref_text]}); (demo_result, {["id" := demo_id_text]});
   (demo_resolved, {["incident" := demo_id_text]}); ("{}", ∅)].

Definition assoc {A} (l : list (string * A)) (s : string) : option A := snd <$> List.find (fun p => String.eqb p.1 s) l.

(** A codec that knows the texts of the example and no others. *)
#[export] Instance demo_json : Json := {
  Unmarshal := assoc demo_texts;
  UnmarshalObject := assoc demo_objects;
  UnmarshalArray := fun _ => None;
  Marshal := fun v => match v with
    | VMap (Some m) => match map_to_list m with
                       | [(k, VStr x)] => if negb (String.eqb x "i-1") then None
                                       else if String.eqb k "incident" then Some demo_resolved
                                       else if String.eqb k "id" then Some demo_result else None
                       | _ => None
                       end
    | _ => None
    end;
  MarshalObject := fun _ => None
}.

Lemma assoc_in {A} (l : list (string * A)) s v : assoc l s = Some v -> (s, v) ∈ l.
Proof.
  unfold assoc. destruct (List.find _ l) as [[k x]|] eqn:E; [|done]. apply List.find_some in E as [H1 H2].
  simpl in *. intros [= ->]. apply String.eqb_eq in H2 as ->. by apply list_elem_of_In.
Qed.

Lemma singleton_decoded `{J : Json} k s : Utf8Valid k = true -> Utf8Valid s = true -> decoded (VMap (Some {[k := VStr s]})).
Proof. intros Hk Hs. apply decoded_map. intros k' v [<- <-]%lookup_singleton_Some. split; [done|by constructor]. Qed.

Lemma singleton_object (dec : string -> option value) k t v k' : dec t = Some v ->
  (({[k := t]} : gmap string string) !! k' ≫= dec) = ({[k := v]} : gmap string value) !! k' /\
  (({[k := t]} : gmap string string) !! k' = None <-> ({[k := v]} : gmap string value) !! k' = None).
Proof.
  intros Ht. destruct (decide (k = k')) as [<-|Hne]; [by rewrite !lookup_singleton_eq|by rewrite !lookup_singleton_ne].
Qed.

#[export] Instance demo_json_laws : JsonLaws demo_json.
Proof.
  split.
  - intros s v H%assoc_in. unfold demo_texts in H. rewrite !elem_of_cons in H.
    destruct H as [H|[H|[H|[H|[H|[H|[]%elem_of_nil]]]]]]; simplify_eq; try (by apply singleton_decoded); by constructor.
  - intros v s _ _. simpl. destruct v as [| | | | |l|[m|]]; try done.
    destruct (map_to_list m) as [|[k x] [|]] eqn:E; [done| |by destruct x]. destruct x as [| | | |x| |]; try done.
    destruct (String.eqb_spec x "i-1") as [->|]; [|done]. cbn [negb].
    assert (m = {[k := VStr "i-1"]}) as -> by (rewrite <- (list_to_map_to_list m), E; simpl; by rewrite insert_empty).
    destruct (String.eqb_spec k "incident") as [->|]; [intros [= <-]; reflexivity|].
    destruct (String.eqb_spec k "id") as [->|]; [intros [= <-]; reflexivity|done].
  - intros s m H%assoc_in. unfold demo_texts in H. rewrite !elem_of_cons in H.
    destruct H as [H|[H|[H|[H|[H|[H|[]%elem_of_nil]]]]]]; simplify_eq.
    + exists {["incident" := demo_ref_text]}. split; [reflexivity|]. intros k. by apply singleton_object.
    + exists {["id" := demo_id_text]}. split; [reflexivity|]. intros k. by apply singleton_object.
    + exists {["incident" := demo_id_text]}. split; [reflexivity|]. intros k. by apply singleton_object.
    + exists ∅. split; [reflexivity|]. intros k. by rewrite !lookup_empty.
  - intros s l H%assoc_in. unfold demo_texts in H. rewrite !elem_of_cons in H.
    destruct H as [H|[H|[H|[H|[H|[H|[]%elem_of_nil]]]]]]; simplify_eq.
Qed.

Definition demo_found : list FoundRef := [mkFoundRef "/incident" (mkRef "a" [SegField "id"])].

Lemma ResolveParams_substitutes_witness :
  FindRefs iter_canonical demo_params = inr demo_found /\
  ResolveParams demo_params demo_found {["a" := demo_result]} = inr demo_resolved /\
  exists root, Unmarshal demo_params = Some root /\ Unmarshal demo_resolved = Some (subst (named {["a" := demo_result]}) root).
Proof.
  assert (FindRefs iter_canonical demo_params = inr demo_found) as H by (vm_compute; reflexivity).
  assert (ResolveParams demo_params demo_found {["a" := demo_result]} = inr demo_resolved) as Hr by (vm_compute; reflexivity).
  split; [exact H|split; [exact Hr|]].
  pose proof (ResolveParams_substitutes iter_canonical demo_params demo_found {["a" := demo_result]} H) as Ht.
  rewrite Hr in Ht. destruct Ht as (root & H1 & _ & _ & H2). exists root. split; [exact H1|apply H2].
  assert (Some root = Some (VMap (Some {["incident" := VStr demo_ref]}))) as E by (rewrite <- H1; reflexivity).
  injection E as ->. unfold shallow. vm_compute. discriminate.
Defined.

Lemma ParseRef_FormatRef_witness :
  FormatRef (mkRef "a" [SegField "rows"; SegIndex 3]) = q "$steps['a'].result.rows[3]" /\
  ParseRef (FormatRef (mkRef "a" [SegField "rows"; SegIndex 3])) = inr (mkRef "a" [SegField "rows"; SegIndex 3]).
Proof.
  split; [vm_compute; reflexivity|]. apply ParseRef_FormatRef. split; [discriminate|split; [reflexivity|]].
  constructor; [split; [discriminate|reflexivity]|]. constructor; [vm_compute; split; discriminate|constructor].
Defined.
