(* ===== verification/Registry.v ===== *)
(** The tool registry ([internal/tools/registry.go], [errors.go]): registration with the
    [$ref] pointers of output schemas inlined, lookup, and calls that turn errors and
    panics of a handler into structured errors. *)

From S2P Require Import Prelude GoRuntime GoText PlanRef.
Open Scope Z_scope.

Definition CodeInvalidParams : string := "INVALID_PARAMS".
Definition CodeNotFound : string := "NOT_FOUND".
Definition CodeEmptyResult : string := "EMPTY_RESULT".
Definition CodeTimeout : string := "TIMEOUT".
Definition CodeInternal : string := "INTERNAL".
Definition CodeGraphEmpty : string := "GRAPH_EMPTY".

Record ToolError := mkToolError { te_Code : string; te_Message : string; te_Retryable : bool }.

(** [ToolError.Error]. *)
Definition ToolError_Error (e : ToolError) : string := "[" +:+ te_Code e +:+ "] " +:+ te_Message e.

(** An [error] with its text: one with a [*ToolError] in its chain, or any other. *)
Inductive toolerr :=
| IsToolError (e : ToolError) (text : string)
| OtherError (text : string).

Definition error_text (err : toolerr) : string := match err with IsToolError _ text | OtherError text => text end.

(** A [*ToolError] that nothing wraps. *)
Definition bare (e : ToolError) : toolerr := IsToolError e (ToolError_Error e).

Definition AsToolError (err : toolerr) : option ToolError :=
  match err with IsToolError e _ => Some e | OtherError _ => None end.

(** What a handler did. *)
Inductive outcome :=
| Returned (result : value)
| Failed (err : toolerr)
| Panicked (text : string).

(** [refName]. *)
Definition refName (ref : string) : string := if HasPrefix ref "#/$defs/" then drop_bytes (String.length "#/$defs/") ref else "".

(** A map of results, when all of them are there. *)
Definition collect {A} (m : gmap string (option A)) : option (gmap string A) :=
  if bool_decide (map_Forall (fun _ o => is_Some o) m) then Some (omap id m) else None.

(** [v["$ref"].(string)]. *)
Definition ref_field (m : gmap string value) : option string :=
  match m !! "$ref" with Some (VStr s) => Some s | _ => None end.

Definition object_schema : value := VMap (Some {["type" := VStr "object"]}).

Section Inline.
Context (defs : gmap string value).

(** [walkInline]: [fuel] bounds the number of definitions under expansion; [None] when it
    runs out. *)
Fixpoint walkInline (fuel : nat) (expanding : gset string) : value -> option value :=
  fix go (node : value) : option value :=
    match node with
    | VMap (Some m) =>
      match ref_field m with
      | Some ref =>
        let name := refName ref in
        if String.eqb name "" then Some node
        else if bool_decide (name ∈ expanding) then Some object_schema
        else match defs !! name with
             | None => Some node
             | Some def =>
               match fuel with
               | O => None
               | S fuel => walkInline fuel ({[name]} ∪ expanding) def
               end
             end
      | None => out ← collect (go <$> m); Some (VMap (Some out))
      end
    | VList l => out ← mapM id (go <$> l); Some (VList out)
    | _ => Some node
    end.
End Inline.

(** [inlineRefs] answers the schema or an error; the assertion that the inlined root is a
    map panics when it is not. *)
Inductive inline_result :=
| Inlined (schema : string)
| InlineError
| InlinePanic.

Definition inlineRefs `{Json} (schema : string) : inline_result :=
  match UnmarshalMap schema with
  | None => InlineError
  | Some root =>
    match as_map (root !! "$defs") with
    | None => Inlined schema
    | Some defs =>
      match walkInline defs (size defs) ∅ (VMap (Some root)) with
      | Some (VMap (Some root)) =>
        match Marshal (VMap (Some (delete "$defs" root))) with
        | Some out => Inlined out
        | None => InlineError
        end
      | _ => InlinePanic
      end
    end
  end.

Section Registry.
Context {W : Type} `{J : Json}.

Record Tool := mkTool {
  tl_Name : string;
  tl_Description : string;
  tl_Version : string;
  tl_InputSchema : string;
  tl_OutputSchema : string;
  tl_Handler : option (W -> string -> W * outcome);
  tl_Examples : list string
}.

Definition Registry : Type := gmap string Tool.
Definition NewRegistry : Registry := ∅.

Inductive RegisterError := ErrNameRequired | ErrHandlerRequired (name : string) | ErrRegistered (name : string) | ErrInline (name : string) | PanicInline.

Definition with_output (t : Tool) (schema : string) : Tool :=
  mkTool (tl_Name t) (tl_Description t) (tl_Version t) (tl_InputSchema t) schema (tl_Handler t) (tl_Examples t).

Definition Register (t : Tool) (r : Registry) : RegisterError + Registry :=
  if String.eqb (tl_Name t) "" then inl ErrNameRequired else
  match tl_Handler t with
  | None => inl (ErrHandlerRequired (tl_Name t))
  | Some _ =>
    match r !! tl_Name t with
    | Some _ => inl (ErrRegistered (tl_Name t))
    | None =>
      if String.eqb (tl_OutputSchema t) "" then inr (<[tl_Name t := t]> r) else
      match inlineRefs (tl_OutputSchema t) with
      | Inlined schema => inr (<[tl_Name t := with_output t schema]> r)
      | InlineError => inl (ErrInline (tl_Name t))
      | InlinePanic => inl PanicInline
      end
    end
  end.

(** [Registry.Tool]. *)
Definition lookupTool (r : Registry) (name : string) : option Tool := r !! name.

Definition tool_less (a b : Tool) : bool := String.ltb (tl_Name a) (tl_Name b).
Definition List (it : MapIter) (r : Registry) : list Tool := ssort tool_less (mrange it 41 r).*2.

Definition Call (r : Registry) (w : W) (name params : string) : W * (toolerr + value) :=
  match r !! name with
  | None => (w, inl (bare (mkToolError CodeNotFound ("unknown tool: " +:+ name) false)))
  | Some t =>
    match tl_Handler t with
    | None => (w, inl (bare (mkToolError CodeInternal "panic: runtime error: invalid memory address or nil pointer dereference" true)))
    | Some handler =>
      let '(w, o) := handler w params in
      (w, match o with
          | Returned v => inr v
          | Failed err =>
            match AsToolError err with
            | Some _ => inl err
            | None => inl (bare (mkToolError CodeInternal (error_text err) false))
            end
          | Panicked text => inl (bare (mkToolError CodeInternal ("panic: " +:+ text) true))
          end)
    end
  end.
End Registry.
Arguments Tool : clear implicits.
Arguments Registry : clear implicits.

(** ** Inlining ends *)

Lemma collect_Some {A} (m : gmap string (option A)) : map_Forall (fun _ o => is_Some o) m ->
  exists out, collect m = Some out /\ forall k, Some <$> out !! k = m !! k.
Proof.
  intros H. unfold collect. rewrite bool_decide_eq_true_2 by done. eexists. split; [done|]. intros k.
  rewrite lookup_omap. destruct (m !! k) as [o|] eqn:E; [|done]. destruct (H k o E) as [x ->]. done.
Qed.

Lemma collect_inv {A} (m : gmap string (option A)) out : collect m = Some out -> forall k, Some <$> out !! k = m !! k.
Proof.
  intros H. destruct (decide (map_Forall (fun _ o => is_Some o) m)) as [Hf|Hf].
  - destruct (collect_Some m Hf) as (out' & E & Hk). congruence.
  - unfold collect in H. by rewrite bool_decide_eq_false_2 in H.
Qed.

Lemma expanding_room (defs : gmap string value) (expanding : gset string) name :
  expanding ⊆ dom defs -> name ∉ expanding -> is_Some (defs !! name) ->
  {[name]} ∪ expanding ⊆ dom defs /\ (size expanding < size defs)%nat /\ size ({[name]} ∪ expanding) = S (size expanding).
Proof.
  intros Hs Hn Hd. assert ({[name]} ∪ expanding ⊆ dom defs) as Hs' by (apply elem_of_dom in Hd; set_solver).
  assert (size ({[name]} ∪ expanding) = S (size expanding)) as Hsz by (rewrite size_union by set_solver; by rewrite size_singleton).
  split; [done|split; [|done]]. apply subseteq_size in Hs'. rewrite size_dom in Hs'. lia.
Qed.

(** What inlining leaves no reference to a definition in, except below a node whose own
    [$ref] names none, which is kept as it stands. *)
Inductive inlined (defs : gmap string value) : value -> Prop :=
| inlined_leaf v : match v with VList _ | VMap (Some _) => False | _ => True end -> inlined defs v
| inlined_list l : (forall v, v ∈ l -> inlined defs v) -> inlined defs (VList l)
| inlined_map m : ref_field m = None -> (forall k v, m !! k = Some v -> inlined defs v) -> inlined defs (VMap (Some m))
| inlined_other m ref : ref_field m = Some ref -> (refName ref = "" \/ defs !! refName ref = None) -> inlined defs (VMap (Some m)).

Lemma walkInline_map defs fuel expanding m : walkInline defs fuel expanding (VMap (Some m)) =
  match ref_field m with
  | Some ref =>
    let name := refName ref in
    if String.eqb name "" then Some (VMap (Some m))
    else if bool_decide (name ∈ expanding) then Some object_schema
    else match defs !! name with
         | None => Some (VMap (Some m))
         | Some def => match fuel with O => None | S fuel => walkInline defs fuel ({[name]} ∪ expanding) def end
         end
  | None => out ← collect (walkInline defs fuel expanding <$> m); Some (VMap (Some out))
  end.
Proof. by destruct fuel. Qed.

Lemma walkInline_list defs fuel expanding l : walkInline defs fuel expanding (VList l) =
  out ← mapM id (walkInline defs fuel expanding <$> l); Some (VList out).
Proof. by destruct fuel. Qed.

Lemma object_inlined defs : inlined defs object_schema.
Proof.
  apply inlined_map; [done|]. intros k v Hk. apply lookup_singleton_Some in Hk as [_ <-]. by apply inlined_leaf.
Qed.

(** Definitions are schemas: objects or booleans, not bare strings. *)
Definition schemas (defs : gmap string value) : Prop := forall k s, defs !! k <> Some (VStr s).

Lemma walkInline_total defs fuel expanding v : schemas defs -> expanding ⊆ dom defs -> (size defs <= fuel + size expanding)%nat ->
  exists v', walkInline defs fuel expanding v = Some v' /\ inlined defs v' /\ (forall s, v' = VStr s -> v = VStr s).
Proof.
  intros Hd. revert expanding v. induction fuel as [fuel IHf] using lt_wf_ind. intros expanding v He Hf.
  induction v as [v Hv|l IH|m IH] using value_induction.
  - exists v. destruct v as [| | | |s|l|[m|]]; try done; (split; [by destruct fuel|split; [by apply inlined_leaf|done]]).
  - rewrite walkInline_list.
    assert (exists l', mapM id (walkInline defs fuel expanding <$> l) = Some l' /\ forall v, v ∈ l' -> inlined defs v) as (l' & -> & Hl').
    { clear IHf. induction l as [|x l IHl]; [exists []; split; [done|by intros v ?%elem_of_nil]|].
      destruct (IH x) as (x' & Ex & Hx & _); [by left|]. destruct IHl as (l' & El & Hl'); [intros y Hy; apply IH; by right|].
      exists (x' :: l'). cbn [fmap list_fmap mapM id]. rewrite Ex. cbn [mbind option_bind]. rewrite El. split; [done|].
      intros y [->|Hy]%elem_of_cons; [done|by apply Hl']. }
    eexists. split; [done|]. split; [by apply inlined_list|done].
  - rewrite walkInline_map. destruct (ref_field m) as [ref|] eqn:Er; cbv zeta.
    + destruct (String.eqb_spec (refName ref) "") as [Hn|Hn].
      { eexists. split; [done|split; [eapply inlined_other; [done|by left]|done]]. }
      destruct (bool_decide_reflect (refName ref ∈ expanding)) as [Hin|Hin].
      { eexists. split; [done|split; [apply object_inlined|done]]. }
      destruct (defs !! refName ref) as [def|] eqn:Ed.
      * destruct (expanding_room defs expanding (refName ref) He Hin) as (H1 & H2 & H3); [by eexists|].
        destruct fuel as [|fuel]; [lia|]. destruct (IHf fuel ltac:(lia) ({[refName ref]} ∪ expanding) def H1 ltac:(lia)) as (v' & E & Hi & Hs).
        exists v'. split; [done|split; [done|]]. intros s Hv'. apply Hs in Hv'. subst def. by apply Hd in Ed.
      * eexists. split; [done|split; [eapply inlined_other; [done|by right]|done]].
    + destruct (collect_Some (walkInline defs fuel expanding <$> m)) as (out & -> & Ho).
      { intros k o Hk. rewrite lookup_fmap in Hk. destruct (m !! k) as [v|] eqn:Em; [|done]. simplify_eq/=.
        destruct (IH k v Em) as (v' & -> & _). by eexists. }
      eexists. split; [done|split; [|done]]. assert (forall k v', out !! k = Some v' -> inlined defs v' /\ exists v, m !! k = Some v /\ (forall s, v' = VStr s -> v = VStr s)) as Hout.
      { intros k v' Hk. specialize (Ho k). rewrite Hk, lookup_fmap in Ho. destruct (m !! k) as [v|] eqn:Em; [|done]. simpl in Ho.
        destruct (IH k v Em) as (v'' & E & Hi & Hs). rewrite E in Ho. simplify_eq. split; [done|]. by exists v. }
      apply inlined_map; [|intros k v' Hk; by apply (Hout k)].
      unfold ref_field in *. destruct (out !! "$ref") as [x|] eqn:Ex; [|done]. destruct (Hout _ _ Ex) as (_ & v & Hm & Hs).
      destruct x; try done. by rewrite Hm, (Hs _ eq_refl) in Er.
Qed.

(** Inlining the references of an output schema ends, however the definitions refer to
    each other, and leaves no reference to a definition behind: as many expansions as there
    are definitions are enough, because a definition is not expanded inside itself. *)
Theorem walkInline_inlines defs v : schemas defs ->
  exists v', walkInline defs (size defs) ∅ v = Some v' /\ inlined defs v'.
Proof.
  intros Hd. destruct (walkInline_total defs (size defs) ∅ v Hd) as (v' & H1 & H2 & _); [set_solver|lia|]. by exists v'.
Qed.

(** A recursive definition of a tree. *)
Definition node_defs : gmap string value :=
  {["node" := VMap (Some {["children" := VMap (Some {["$ref" := VStr "#/$defs/node"]})]})]}.

Lemma walkInline_inlines_witness :
  walkInline node_defs (size node_defs) ∅ (VMap (Some {["$ref" := VStr "#/$defs/node"]}))
  = Some (VMap (Some {["children" := object_schema]})) /\
  exists v', walkInline node_defs (size node_defs) ∅ (VMap (Some {["$ref" := VStr "#/$defs/node"]})) = Some v' /\ inlined node_defs v'.
Proof.
  split; [vm_compute; reflexivity|]. apply walkInline_inlines. intros k s Hk. unfold node_defs in Hk. apply lookup_singleton_Some in Hk as [_ Hk]. discriminate Hk.
Defined.

(** A registered tool is found under its name, and no other entry changes. *)
Lemma Register_spec {W} `{J : Json} (t : Tool W) r r' : Register t r = inr r' ->
  tl_Name t <> "" /\ is_Some (tl_Handler t) /\ r !! tl_Name t = None /\
  exists t', tl_Name t' = tl_Name t /\ tl_Handler t' = tl_Handler t /\ r' = <[tl_Name t := t']> r.
Proof.
  unfold Register. destruct (String.eqb_spec (tl_Name t) "") as [|Hn]; [done|]. destruct (tl_Handler t) as [h|] eqn:Eh; [|done].
  destruct (r !! tl_Name t) eqn:Er; [done|].
  case_if; [intros [= <-]; split; [done|split; [by eexists|split; [done|by exists t]]]|].
  destruct (inlineRefs (tl_OutputSchema t)) as [schema| |]; [|done|done]. intros [= <-].
  split; [done|split; [by eexists|split; [done|]]]. by exists (with_output t schema).
Qed.
