(* ===== verification/Plan.v ===== *)
(** Execution plans ([internal/ingest/plan.go] and the plan part of [handler.go]): template
    expansion, validation of the steps against the tool registry, and execution with
    progress events.  The plan store is reached through its calls ([plan_call]). *)

From S2P Require Import Prelude GoRuntime GoText PlanRef Registry Idempotency.
Open Scope Z_scope.

Record PlanStep := mkPlanStep { ps_ID : string; ps_Tool : string; ps_Params : string }.

Record PlanExecuteRequest := mkPlanExecuteRequest { pr_Steps : list PlanStep; pr_Template : string; pr_Params : option string }.

(** The text of an error, with the error it was made from. *)
Inductive message :=
| RefMessage (err : PlanRefError)
| TextMessage (text : string).

Record PlanStepError := mkPlanStepError { pe_Code : string; pe_Message : message; pe_Retryable : bool }.

Record PlanStepResult := mkPlanStepResult {
  sr_ID : string; sr_Index : Z; sr_Tool : string; sr_Result : option value; sr_Error : option PlanStepError; sr_DurationMs : Z
}.

Record PlanResult := mkPlanResult {
  pl_PlanID : string; pl_Steps : list PlanStepResult; pl_Completed : Z; pl_Total : Z; pl_Status : string;
  pl_HaltedAt : option Z; pl_Error : option PlanStepError
}.

(** [PlanEvent], with its JSON payload as the fields it is made of. *)
Inductive PlanEvent :=
| StepStart (index : Z) (id tool : string)
| StepComplete (index : Z) (id tool : string) (durationMs : Z) (error : option PlanStepError)
| Done (status : string) (completed total : Z) (haltedAt : option Z).

(** What the executor asks of the plan store. *)
Inductive plan_call :=
| Publish (ev : PlanEvent)
| CompletePlan (result : PlanResult).

(** ** Templates *)

Record triage_params := mkTriageParams { tp_IncidentID : string; tp_Window : string; tp_Snapshot : bool }.

(** [json.Unmarshal] into the parameters of the triage template, and [json.Marshal] of
    them. *)
Class TriageJson := {
  UnmarshalTriage : string -> option triage_params;
  MarshalTriage : triage_params -> option string
}.

Inductive ExpandError := ErrBothForms | ErrUnknownTemplate (t : string) | ErrNeedsIncident | ErrTriageParams.

Definition expandTriagePlan `{TriageJson} (raw : option string) : ExpandError + list PlanStep :=
  match raw with
  | None | Some "" => inl ErrNeedsIncident
  | Some raw =>
    match UnmarshalTriage raw with
    | None => inl ErrTriageParams
    | Some params =>
      if String.eqb (TrimSpace (tp_IncidentID params)) "" then inl ErrNeedsIncident else
      match MarshalTriage params with
      | None => inl ErrTriageParams
      | Some stepParams => inr [mkPlanStep "triage" "triage_incident" stepParams]
      end
    end
  end.

Definition ExpandPlanRequest `{TriageJson} (req : PlanExecuteRequest) : ExpandError + list PlanStep :=
  if negb (length (pr_Steps req) =? 0)%nat && negb (String.eqb (TrimSpace (pr_Template req)) "") then inl ErrBothForms
  else if String.eqb (TrimSpace (pr_Template req)) "" then inr (pr_Steps req)
  else if String.eqb (TrimSpace (pr_Template req)) "triage" then expandTriagePlan (pr_Params req)
  else inl (ErrUnknownTemplate (pr_Template req)).

Definition statusForHalt (haltedIdx : Z) : string := if haltedIdx =? 0 then "failed" else "partial".

(** ** Validation *)

Inductive PlanError :=
| NoSteps
| TooManySteps (n : Z)
| IDRequired (i : Z)
| ToolRequired (i : Z)
| UnknownTool (id tool : string)
| DuplicateID (id : string)
| BadRef (id : string) (err : PlanRefError)
| UnknownStep (id ref : string)
| ForwardRef (id ref : string) (refIdx i : Z)
| BadPath (id : string) (err : PlanRefError)
| UnknownParameter (id key : string)
| UnencodableParams (id : string).

Section Plan.
Context {W : Type} `{J : Json} (it : MapIter) (reg : Registry W).

(** The structural pass over the steps. *)
Fixpoint structure_loop (i : Z) (seenIDs : gset string) (steps : list PlanStep) (errs : list PlanError) : list PlanError :=
  match steps with
  | [] => errs
  | step :: steps =>
    let errs := if String.eqb (ps_ID step) "" then errs ++ [IDRequired i] else errs in
    let errs := if String.eqb (ps_Tool step) "" then errs ++ [ToolRequired i]
                else match lookupTool reg (ps_Tool step) with
                     | None => errs ++ [UnknownTool (ps_ID step) (ps_Tool step)]
                     | Some _ => errs
                     end in
    if negb (String.eqb (ps_ID step) "") then
      let errs := if bool_decide (ps_ID step ∈ seenIDs) then errs ++ [DuplicateID (ps_ID step)] else errs in
      structure_loop (i + 1) ({[ps_ID step]} ∪ seenIDs) steps errs
    else structure_loop (i + 1) seenIDs steps errs
  end.

Definition index_steps (steps : list PlanStep) : gmap string nat :=
  foldl (fun m '(i, step) => <[ps_ID step := i]> m) ∅ (imap pair steps).

(** [len(params) == 0]. *)
Definition step_params (step : PlanStep) : string := if String.eqb (ps_Params step) "" then "{}" else ps_Params step.

Definition check_ref (steps : list PlanStep) (idxByID : gmap string nat) (i : nat) (step : PlanStep) (fr : FoundRef) : list PlanError :=
  let ref := fr_Ref fr in
  match idxByID !! ref_StepID ref with
  | None => [UnknownStep (ps_ID step) (ref_StepID ref)]
  | Some refIdx =>
    if (i <=? refIdx)%nat then [ForwardRef (ps_ID step) (ref_StepID ref) (Z.of_nat refIdx) (Z.of_nat i)] else
    let schema := match steps !! refIdx ≫= (fun s => lookupTool reg (ps_Tool s)) with Some t => tl_OutputSchema t | None => "" end in
    if String.eqb schema "" then [] else
    match ValidateRefPath ref schema with Some err => [BadPath (ps_ID step) err] | None => [] end
  end.

Definition validateParamsAgainstSchema (id params schema : string) : option PlanError :=
  match UnmarshalMap schema with
  | None => None
  | Some schemaObj =>
    match schemaObj !! "additionalProperties" with
    | Some (VBool false) =>
      let props := default ∅ (as_map (schemaObj !! "properties")) in
      match UnmarshalObject params with
      | None => None
      | Some paramObj =>
        match List.find (fun kv => match props !! kv.1 with Some _ => false | None => true end) (mrange it 42 paramObj) with
        | Some (k, _) => Some (UnknownParameter id k)
        | None => None
        end
      end
    | _ => None
    end
  end.

(** The top-level fields that hold a reference. *)
Definition ref_fields (refPointers : gset string) : gset string :=
  list_to_set ((fun ptr => jsonPointerUnescape (default "" (head (Split (drop_bytes 1 ptr) "/"%char))))
    <$> List.filter (fun ptr => HasPrefix ptr "/") (elements refPointers)).

Definition validateNonRefParams (id params : string) (refPointers : gset string) (inputSchema : string) : option PlanError :=
  if bool_decide (refPointers = ∅) then validateParamsAgainstSchema id params inputSchema else
  match UnmarshalObject params with
  | None => None
  | Some obj =>
    let stripped := filter (fun kv => kv.1 ∉ ref_fields refPointers) obj in
    match MarshalObject stripped with
    | None => Some (UnencodableParams id)
    | Some strippedJSON => validateParamsAgainstSchema id strippedJSON inputSchema
    end
  end.

Definition check_step (steps : list PlanStep) (idxByID : gmap string nat) (i : nat) (step : PlanStep) : list PlanError :=
  let params := step_params step in
  match FindRefs it params with
  | inl err => [BadRef (ps_ID step) err]
  | inr refs =>
    let schema := match lookupTool reg (ps_Tool step) with Some t => tl_InputSchema t | None => "" end in
    (refs ≫= check_ref steps idxByID i step) ++
    (if String.eqb schema "" then []
     else match validateNonRefParams (ps_ID step) params (list_to_set (fr_Pointer <$> refs)) schema with
          | Some err => [err]
          | None => []
          end)
  end.

Definition ValidatePlan (steps : list PlanStep) : list PlanError :=
  if (length steps =? 0)%nat then [NoSteps]
  else if (10 <? length steps)%nat then [TooManySteps (Z.of_nat (length steps))]
  else match structure_loop 0 ∅ steps [] with
       | [] => concat (imap (check_step steps (index_steps steps)) steps)
       | errs => errs
       end.

(** ** Execution *)

(** [publishStepComplete] and [completePlan] do nothing without a plan in the store. *)
Definition publishStepComplete (stored : bool) (sr : PlanStepResult) : list plan_call :=
  if stored then [Publish (StepComplete (sr_Index sr) (sr_ID sr) (sr_Tool sr) (sr_DurationMs sr) (sr_Error sr))] else [].
Definition completePlan (stored : bool) (result : PlanResult) : list plan_call := if stored then [CompletePlan result] else [].

Definition haltPlan (stored : bool) (planID : string) (total : Z) (done : list PlanStepResult) (sr : PlanStepResult) (i : Z)
    : PlanResult * list plan_call :=
  let result := mkPlanResult planID (done ++ [sr]) i total (statusForHalt i) (Some i) (sr_Error sr) in
  (result, publishStepComplete stored sr ++ completePlan stored result).

(** The parameters a tool is called with. *)
Definition resolve_step (step : PlanStep) (outputs : gmap string string) : PlanRefError + string :=
  let params := step_params step in
  match FindRefs it params with
  | inl err => inl err
  | inr [] => inr params
  | inr refs => ResolveParams params refs outputs
  end.

(** The error of a step whose tool failed. *)
Definition step_error (err : toolerr) : PlanStepError :=
  match AsToolError err with
  | Some te => mkPlanStepError (te_Code te) (TextMessage (error_text err)) (te_Retryable te)
  | None => mkPlanStepError "TOOL_ERROR" (TextMessage (error_text err)) false
  end.

(** The loop over the steps; [ms] is the duration measured for each step, and what cannot
    be encoded becomes an empty output. *)
Fixpoint execute_loop (stored : bool) (planID : string) (total : Z) (ms : Z -> Z) (i : Z) (steps : list PlanStep)
    (w : W) (outputs : gmap string string) (done : list PlanStepResult) : W * PlanResult * list plan_call :=
  match steps with
  | [] =>
    let result := mkPlanResult planID done total total "complete" None None in
    (w, result, completePlan stored result)
  | step :: steps =>
    let start := if stored then [Publish (StepStart i (ps_ID step) (ps_Tool step))] else [] in
    match resolve_step step outputs with
    | inl err =>
      let sr := mkPlanStepResult (ps_ID step) i (ps_Tool step) None (Some (mkPlanStepError "REF_RESOLVE_FAILED" (RefMessage err) false)) (ms i) in
      let '(result, calls) := haltPlan stored planID total done sr i in
      (w, result, start ++ calls)
    | inr params =>
      let '(w, called) := Call reg w (ps_Tool step) params in
      match called with
      | inl err =>
        let sr := mkPlanStepResult (ps_ID step) i (ps_Tool step) None (Some (step_error err)) (ms i) in
        let '(result, calls) := haltPlan stored planID total done sr i in
        (w, result, start ++ calls)
      | inr v =>
        let sr := mkPlanStepResult (ps_ID step) i (ps_Tool step) (Some v) None (ms i) in
        let '(w, result, calls) :=
          execute_loop stored planID total ms (i + 1) steps w (<[ps_ID step := default "" (Marshal v)]> outputs) (done ++ [sr]) in
        (w, result, start ++ publishStepComplete stored sr ++ calls)
      end
    end
  end.

(** [planID] is the stored plan's, or empty when there is no store; [fresh] the ID made for
    the result then. *)
Definition executePlanWithProgress (planID fresh : string) (ms : Z -> Z) (steps : list PlanStep) (w : W) : W * PlanResult * list plan_call :=
  execute_loop (negb (String.eqb planID "")) (if String.eqb planID "" then fresh else planID) (Z.of_nat (length steps)) ms 0 steps w ∅ [].
End Plan.

(** ** What validation establishes *)

Section Validated.
Context {W : Type} `{J : Json}.

Lemma app_nil_inv {A} (l k : list A) : l ++ k = [] -> l = [] /\ k = [].
Proof. destruct l; [by split|done]. Qed.

Lemma structure_loop_mono (reg : Registry W) i seen steps errs : structure_loop reg i seen steps errs = [] -> errs = [].
Proof.
  clear. revert i seen errs. induction steps as [|s steps IH]; intros i seen errs; simpl; [done|].
  set (e1 := if String.eqb (ps_ID s) "" then _ else errs).
  set (e2 := if String.eqb (ps_Tool s) "" then _ else _).
  assert (e2 = [] -> e1 = []) as H2.
  { unfold e2. case_if; [by destruct e1|]. destruct (lookupTool reg (ps_Tool s)); [done|by destruct e1]. }
  assert (e1 = [] -> errs = []) as H1 by (unfold e1; case_if; [by destruct errs|done]).
  clearbody e1 e2. case_if; [|intros H%IH; auto]. case_if; intros H%IH; [by destruct e2|auto].
Qed.

(** What the structural pass accepts. *)
Lemma structure_loop_ok (reg : Registry W) i seen steps : structure_loop reg i seen steps [] = [] ->
  Forall (fun s => ps_ID s <> "" /\ is_Some (lookupTool reg (ps_Tool s))) steps /\ NoDup (ps_ID <$> steps) /\
  Forall (fun s => ps_ID s ∉ seen) steps.
Proof.
  clear. revert i seen. induction steps as [|s steps IH]; intros i seen H; [split; [constructor|split; constructor]|]. simpl in H.
  destruct (String.eqb_spec (ps_ID s) "") as [|Hid]; [by destruct (String.eqb (ps_Tool s) ""), (lookupTool reg (ps_Tool s)); simpl in H; apply structure_loop_mono in H|].
  simpl in H. destruct (String.eqb (ps_Tool s) ""); [apply structure_loop_mono in H; by destruct (bool_decide _)|].
  destruct (lookupTool reg (ps_Tool s)) as [t|] eqn:Et; [|apply structure_loop_mono in H; by destruct (bool_decide _)].
  destruct (bool_decide_reflect (ps_ID s ∈ seen)) as [|Hs]; [by apply structure_loop_mono in H|].
  apply IH in H as (H1 & H2 & H3). split; [constructor; [by split|done]|split].
  - cbn [fmap list_fmap]. constructor; [|done]. intros (x & Hx & Hin)%list_elem_of_fmap. rewrite Forall_forall in H3.
    specialize (H3 x Hin). rewrite <- Hx in H3. set_solver.
  - constructor; [done|]. eapply Forall_impl; [exact H3|]. simpl. set_solver.
Qed.

Lemma index_steps_lookup steps id j : index_steps steps !! id = Some j -> exists s, steps !! j = Some s /\ ps_ID s = id.
Proof.
  clear. unfold index_steps.
  assert (forall (l : list (nat * PlanStep)) (m : gmap string nat), (forall id j, m !! id = Some j -> exists s, steps !! j = Some s /\ ps_ID s = id) ->
    (forall j s, (j, s) ∈ l -> steps !! j = Some s) ->
    foldl (fun m '(i, step) => <[ps_ID step := i]> m) m l !! id = Some j -> exists s, steps !! j = Some s /\ ps_ID s = id) as H.
  { induction l as [|[i s] l IH]; intros m Hm Hl; simpl; [apply Hm|]. apply IH; [|intros j' s' Hin; apply Hl; by right].
    intros id' j'. destruct (decide (ps_ID s = id')) as [<-|Hne]; [rewrite lookup_insert_eq; intros [= <-]; exists s; split; [apply Hl; by left|done]|].
    rewrite lookup_insert_ne by done. apply Hm. }
  apply H; [intros id' j'; by rewrite lookup_empty|]. intros i s Hin. apply list_elem_of_lookup in Hin as [n Hn].
  rewrite list_lookup_imap in Hn. destruct (steps !! n) as [x|] eqn:E; [|done]. by simplify_eq/=.
Qed.

Lemma concat_nil {A} (l : list (list A)) i x : concat l = [] -> l !! i = Some x -> x = [].
Proof.
  clear. revert i. induction l as [|y l IH]; intros i H Hi; [done|]. simpl in H. apply app_nil_inv in H as [-> H].
  destruct i as [|i]; [by simplify_eq/=|by eapply IH].
Qed.

Lemma mbind_nil {A B} (f : A -> list B) l x : l ≫= f = [] -> x ∈ l -> f x = [].
Proof.
  clear. induction l as [|y l IH]; intros H Hx; [by apply elem_of_nil in Hx|]. simpl in H. apply app_nil_inv in H as [H1 H2].
  apply elem_of_cons in Hx as [->|Hx]; [done|by apply IH].
Qed.

Lemma ValidatePlan_spec (it : MapIter) (reg : Registry W) steps : ValidatePlan it reg steps = [] ->
  (1 <= length steps <= 10)%nat /\ NoDup (ps_ID <$> steps) /\
  Forall (fun s => ps_ID s <> "" /\ is_Some (lookupTool reg (ps_Tool s))) steps /\
  forall i step, steps !! i = Some step -> exists refs, FindRefs it (step_params step) = inr refs /\
    forall fr, fr ∈ refs -> exists j step' tool, (j < i)%nat /\ steps !! j = Some step' /\ ps_ID step' = ref_StepID (fr_Ref fr) /\
      lookupTool reg (ps_Tool step') = Some tool /\
      (tl_OutputSchema tool = "" \/ ValidateRefPath (fr_Ref fr) (tl_OutputSchema tool) = None).
Proof.
  unfold ValidatePlan. intros H. destruct (Nat.eqb_spec (length steps) 0) as [|Hne]; [done|]. destruct (Nat.ltb_spec 10 (length steps)); [done|].
  destruct (structure_loop reg 0 ∅ steps []) as [|e es] eqn:Es; [|done]. apply structure_loop_ok in Es as (H1 & H2 & _).
  split; [lia|split; [done|split; [done|]]]. intros i step Hi.
  assert (check_step it reg steps (index_steps steps) i step = []) as Hc.
  { eapply (concat_nil _ i); [done|]. by rewrite list_lookup_imap, Hi. }
  unfold check_step in Hc. destruct (FindRefs it (step_params step)) as [|refs]; [done|]. exists refs. split; [done|].
  intros fr Hfr. apply app_nil_inv in Hc as [Hc _]. apply (mbind_nil _ _ fr) in Hc; [|done].
  unfold check_ref in Hc. destruct (index_steps steps !! ref_StepID (fr_Ref fr)) as [j|] eqn:Ej; [|done].
  apply index_steps_lookup in Ej as (step' & Hj & Hid). destruct (Nat.leb_spec i j); [done|].
  rewrite Hj in Hc. cbn [mbind option_bind] in Hc. rewrite Forall_lookup in H1. destruct (H1 _ _ Hj) as (_ & tool & Ht).
  rewrite Ht in Hc. exists j, step', tool. do 4 (split; [done|]).
  destruct (String.eqb_spec (tl_OutputSchema tool) ""); [by left|right]. by destruct (ValidateRefPath _ _).
Qed.

(** A plan that validates is well formed: it has one to ten steps with names of their
    own and registered tools, and every reference in the parameters of a step is to an
    earlier step, along a path the output schema of that step's tool allows. *)
Theorem ValidatePlan_sound (it : MapIter) (reg : Registry W) steps : ValidatePlan it reg steps = [] ->
  (1 <= length steps <= 10)%nat /\ NoDup (ps_ID <$> steps) /\
  Forall (fun s => ps_ID s <> "" /\ is_Some (lookupTool reg (ps_Tool s))) steps /\
  forall i step, steps !! i = Some step -> exists refs, FindRefs it (step_params step) = inr refs /\
    forall fr, fr ∈ refs -> exists j step' tool, (j < i)%nat /\ steps !! j = Some step' /\ ps_ID step' = ref_StepID (fr_Ref fr) /\
      lookupTool reg (ps_Tool step') = Some tool /\
      (tl_OutputSchema tool = "" \/ ValidateRefPath (fr_Ref fr) (tl_OutputSchema tool) = None).
Proof. apply ValidatePlan_spec. Qed.

(** ** What execution does *)

(** The progress of the steps that ran. *)
Definition progress (done : list PlanStepResult) : list plan_call :=
  done ≫= fun sr => [Publish (StepStart (sr_Index sr) (sr_ID sr) (sr_Tool sr));
                     Publish (StepComplete (sr_Index sr) (sr_ID sr) (sr_Tool sr) (sr_DurationMs sr) (sr_Error sr))].

(** The results match the steps they are for. *)
Definition ran (i : Z) (steps : list PlanStep) (rs : list PlanStepResult) : Prop :=
  forall k sr, rs !! k = Some sr -> exists s, steps !! k = Some s /\ sr_ID sr = ps_ID s /\ sr_Tool sr = ps_Tool s /\ sr_Index sr = i + Z.of_nat k.

Definition succeeded (sr : PlanStepResult) : Prop := sr_Error sr = None /\ is_Some (sr_Result sr).

(** A plan that ran to the end, or up to the step that failed. *)
Definition outcome_ok (i : Z) (total : Z) (steps : list PlanStep) (done : list PlanStepResult) (result : PlanResult) : Prop :=
  exists rs, pl_Steps result = done ++ rs /\ ran i steps rs /\ pl_Total result = total /\
  ((length rs = length steps /\ Forall succeeded rs /\ pl_Status result = "complete" /\ pl_Completed result = total /\
    pl_HaltedAt result = None /\ pl_Error result = None) \/
   (exists good sr err, rs = good ++ [sr] /\ Forall succeeded good /\ sr_Error sr = Some err /\
    pl_Error result = Some err /\ pl_HaltedAt result = Some (i + Z.of_nat (length good)) /\
    pl_Completed result = i + Z.of_nat (length good) /\ pl_Status result = statusForHalt (i + Z.of_nat (length good)))).

Lemma ran_cons i s steps sr rs : sr_ID sr = ps_ID s -> sr_Tool sr = ps_Tool s -> sr_Index sr = i ->
  ran (i + 1) steps rs -> ran i (s :: steps) (sr :: rs).
Proof.
  clear. intros H1 H2 H3 Hr [|k] x; [intros [= <-]; exists s; repeat split; try done; lia|].
  intros Hk. destruct (Hr k x Hk) as (y & Hy & E1 & E2 & E3). exists y. repeat split; try done. lia.
Qed.

Lemma execute_loop_spec (it : MapIter) (reg : Registry W) planID total ms i steps w outputs done w' result calls :
  execute_loop it reg true planID total ms i steps w outputs done = (w', result, calls) ->
  outcome_ok i total steps done result /\ exists rs, pl_Steps result = done ++ rs /\ calls = progress rs ++ [CompletePlan result].
Proof.
  revert i w outputs done w' result calls. induction steps as [|s steps IH]; intros i w outputs dn w' result calls H; simpl in H.
  - simplify_eq. split; [exists []; split; [by rewrite app_nil_r|split; [by intros ? ?|split; [done|left; by repeat split]]]|].
    exists []. by rewrite app_nil_r.
  - destruct (resolve_step it s outputs) as [err|params].
    + simplify_eq. split.
      * eexists [_]. split; [done|split; [by apply ran_cons; try done; intros ? ?|split; [done|right]]].
        eexists [], _, _. split; [done|split; [constructor|split; [done|]]]. simpl. by rewrite Z.add_0_r.
      * eexists [_]. split; [done|]. done.
    + destruct (Call reg w (ps_Tool s) params) as [w1 [te|v]].
      * simplify_eq. split.
        -- eexists [_]. split; [done|split; [by apply ran_cons; try done; intros ? ?|split; [done|right]]].
           eexists [], _, _. split; [done|split; [constructor|split; [done|]]]. simpl. by rewrite Z.add_0_r.
        -- eexists [_]. split; [done|]. done.
      * destruct (execute_loop it reg true planID total ms (i + 1) steps w1 _ _) as [[w2 result2] calls2] eqn:E. simplify_eq.
        destruct (IH _ _ _ _ _ _ _ E) as [(rs & H1 & H2 & H3 & H4) (rs' & H5 & ->)].
        rewrite H1 in H5. apply app_inv_head in H5 as <-. split.
        -- exists ([mkPlanStepResult (ps_ID s) i (ps_Tool s) (Some v) None (ms i)] ++ rs). split; [by rewrite H1, app_assoc|].
           split; [by apply ran_cons|split; [done|]]. destruct H4 as [(L & F & R)|(good & sr & err & -> & F & R1 & R2 & R3 & R4 & R5)].
           ++ left. split; [simpl; lia|split; [constructor; [by split|done]|done]].
           ++ right. exists (mkPlanStepResult (ps_ID s) i (ps_Tool s) (Some v) None (ms i) :: good), sr, err.
              assert (i + Z.of_nat (S (length good)) = i + 1 + Z.of_nat (length good)) as E1 by lia.
              cbn [length]. rewrite E1. split; [done|split; [constructor; [by split|done]|done]].
        -- exists ([mkPlanStepResult (ps_ID s) i (ps_Tool s) (Some v) None (ms i)] ++ rs). split; [by rewrite H1, app_assoc|done].
Qed.
End Validated.

(** ** A validated plan fails only on its data *)

(** The failures of a reference that depend on what the earlier steps returned. *)
Definition data_error (err : PlanRefError) : bool :=
  match err with
  | ErrNull _ | ErrNotObject _ _ | ErrFieldMissing _ _ | ErrNotArray _ | ErrOutOfBounds _ _ _ | ErrResolved | ErrMarshal => true
  | _ => false
  end.

Section Resolved.
Context {W : Type} `{J : Json} {L : JsonLaws J}.

Lemma walkJSON_data_error data path id err : walkJSON data path id = inl err -> data_error err = true.
Proof.
  clear. revert data. induction path as [|[f|i] path IH]; intros data; simpl; (case_if; [by intros [= <-]|]); [done| |].
  - destruct (UnmarshalObject data) as [obj|]; [|by intros [= <-]]. destruct (obj !! f); [apply IH|by intros [= <-]].
  - destruct (UnmarshalArray data) as [arr|]; [|by intros [= <-]].
    destruct (if i <? 0 then None else arr !! Z.to_nat i); [apply IH|by intros [= <-]].
Qed.

Lemma ResolveRef_data_error ref results err : is_Some (results !! ref_StepID ref) -> ResolveRef ref results = inl err -> data_error err = true.
Proof.
  clear. intros [data Hd]. unfold ResolveRef. rewrite Hd. destruct (ref_Path ref) as [|seg path]; [done|]. apply walkJSON_data_error.
Qed.

Lemma resolve_step_data_error it step outputs refs err :
  FindRefs it (step_params step) = inr refs -> (forall fr, fr ∈ refs -> is_Some (outputs !! ref_StepID (fr_Ref fr))) ->
  resolve_step it step outputs = inl err -> data_error err = true.
Proof using L.
  intros Hf Hr. unfold resolve_step. rewrite Hf. destruct refs as [|fr refs]; [done|]. intros He.
  pose proof (ResolveParams_spec it (step_params step) (fr :: refs) outputs Hf) as H. rewrite He in H.
  destruct H as [[-> _]|[[-> _]|(fr' & Hin & H)]]; [done|done|]. by eapply ResolveRef_data_error, H; auto.
Qed.

(** The references of a step, found in whatever order, are to the steps of [known]. *)
Definition refs_known (known : gset string) (step : PlanStep) : Prop := forall it,
  exists refs, FindRefs it (step_params step) = inr refs /\ forall fr, fr ∈ refs -> ref_StepID (fr_Ref fr) ∈ known.

Lemma refs_known_any it known step refs :
  FindRefs it (step_params step) = inr refs -> (forall fr, fr ∈ refs -> ref_StepID (fr_Ref fr) ∈ known) -> refs_known known step.
Proof.
  clear. intros Hf Hk it'. unfold FindRefs in *. destruct (Unmarshal (step_params step)) as [root|]; [|done].
  destruct (walkForRefs_alike it it' root "" refs Hf) as (refs' & E & P). exists refs'. split; [done|].
  intros fr Hin. apply Hk. by rewrite P.
Qed.

Definition only_data (sr : PlanStepResult) : Prop := forall err, sr_Error sr = Some err ->
  match pe_Message err with RefMessage e => data_error e = true | TextMessage _ => True end.

Lemma execute_loop_data it (reg : Registry W) stored planID total ms i steps w outputs done w' result calls :
  (forall k s, steps !! k = Some s -> refs_known (dom outputs ∪ list_to_set (ps_ID <$> take k steps)) s) ->
  Forall only_data done ->
  execute_loop it reg stored planID total ms i steps w outputs done = (w', result, calls) -> Forall only_data (pl_Steps result).
Proof using L.
  revert i w outputs done w' result calls. induction steps as [|s steps IH]; intros i w outputs dn w' result calls Hk Hd H; simpl in H; [by simplify_eq|].
  destruct (resolve_step it s outputs) as [err|params] eqn:Er.
  - simplify_eq. simpl. apply Forall_app. split; [done|]. constructor; [|constructor]. intros e [= <-]. simpl.
    destruct (Hk 0%nat s eq_refl it) as (refs & Hf & Hin). eapply resolve_step_data_error; [exact Hf| |exact Er].
    intros fr Hfr. apply Hin in Hfr. simpl in Hfr. apply elem_of_dom. set_solver.
  - destruct (Call reg w (ps_Tool s) params) as [w1 [te|v]].
    + simplify_eq. simpl. apply Forall_app. split; [done|]. constructor; [|constructor]. intros e [= <-]. by destruct te.
    + destruct (execute_loop it reg stored planID total ms (i + 1) steps w1 _ _) as [[w2 result2] calls2] eqn:E. simplify_eq.
      eapply IH; [| |exact E].
      * intros k x Hx. specialize (Hk (S k) x Hx). intros it'. destruct (Hk it') as (refs & Hf & Hin). exists refs. split; [done|].
        intros fr Hfr. apply Hin in Hfr. cbn [take fmap list_fmap list_to_set] in Hfr. rewrite dom_insert. set_solver.
      * apply Forall_app. split; [done|]. constructor; [|constructor]. by intros e [= <-].
Qed.

Lemma ValidatePlan_known it (reg : Registry W) steps : ValidatePlan it reg steps = [] ->
  forall k s, steps !! k = Some s -> refs_known (list_to_set (ps_ID <$> take k steps)) s.
Proof.
  clear. intros H k s Hk. destruct (ValidatePlan_spec it reg steps H) as (_ & _ & _ & Hr). destruct (Hr k s Hk) as (refs & Hf & Hin).
  eapply refs_known_any; [exact Hf|]. intros fr Hfr. destruct (Hin fr Hfr) as (j & s' & tool & Hj & Hs' & <- & _).
  apply elem_of_list_to_set, (list_elem_of_fmap_2 ps_ID). apply (list_elem_of_lookup_2 _ j). by rewrite lookup_take_lt.
Qed.

(** C35: A validated plan never refers to a step that has not run: when it stops because
    parameters could not be resolved, every reference was well formed and the steps they
    name had run, and either what such a step returned has no value at the path, or the
    text found there is not JSON, or the parameters with the values put in cannot be
    encoded.  Validation and execution may meet the keys of the parameters in different
    orders. *)
Theorem validated_plan_resolves it1 it2 (reg : Registry W) planID fresh ms steps w w' result calls :
  ValidatePlan it1 reg steps = [] ->
  executePlanWithProgress it2 reg planID fresh ms steps w = (w', result, calls) ->
  forall sr err e, sr ∈ pl_Steps result -> sr_Error sr = Some err -> pe_Message err = RefMessage e -> data_error e = true.
Proof using L.
  intros Hv Hx sr err e Hin He Hm. unfold executePlanWithProgress in Hx.
  assert (Forall only_data (pl_Steps result)) as Hall.
  { eapply execute_loop_data; [|constructor|exact Hx]. intros k s Hk. rewrite dom_empty_L, union_empty_l_L. by eapply ValidatePlan_known. }
  rewrite Forall_forall in Hall. specialize (Hall sr Hin err He). by rewrite Hm in Hall.
Qed.

(** The outcome of a plan is told exactly: the steps that ran are reported in order
    under their own names; a plan is complete when all of them succeeded, and otherwise
    stopped at its first failure, whose error, index and count it reports; and the progress
    published is a start and a completion for each of those steps, then the result, which
    for a validated plan never exceeds the 21 events the store keeps. *)
Theorem executePlan_reports it1 it2 (reg : Registry W) planID fresh ms steps w w' result calls :
  ValidatePlan it1 reg steps = [] -> planID <> "" ->
  executePlanWithProgress it2 reg planID fresh ms steps w = (w', result, calls) ->
  outcome_ok 0 (Z.of_nat (length steps)) steps [] result /\
  calls = progress (pl_Steps result) ++ [CompletePlan result] /\ (length calls <= 21)%nat.
Proof.
  clear L. intros Hv Hp Hx. unfold executePlanWithProgress in Hx. destruct (String.eqb_spec planID ""); [done|]. cbn [negb] in Hx.
  apply execute_loop_spec in Hx as (Ho & rs & Hs & Hc). simpl in Hs. rewrite <- Hs in Hc. split; [done|split; [done|]].
  destruct (ValidatePlan_spec it1 reg steps Hv) as (Hlen & _). destruct Ho as (rs' & H1 & Hran & _). simpl in H1. subst rs' rs calls.
  rewrite length_app. simpl.
  assert (length (pl_Steps result) <= length steps)%nat as Hle.
  { destruct (Nat.le_gt_cases (length (pl_Steps result)) (length steps)) as [|Hgt]; [done|].
    destruct (lookup_lt_is_Some_2 (pl_Steps result) (length steps) Hgt) as [sr Hsr]. destruct (Hran _ _ Hsr) as (s & Hk & _).
    apply lookup_lt_Some in Hk. lia. }
  assert (length (progress (pl_Steps result)) = 2 * length (pl_Steps result))%nat as ->; [|lia].
  unfold progress. clear. induction (pl_Steps result) as [|sr l IH]; [done|]. cbn [mbind list_bind]. rewrite length_app, IH. simpl. lia.
Qed.
End Resolved.

(** ** An example *)

(** A tool that finds an incident, and one that looks it up. *)
Definition demo_tool (name : string) (h : unit -> string -> unit * outcome) : Tool unit := mkTool name "" "1" "" "" (Some h) [].
Definition demo_registry : Registry unit :=
  {["find" := demo_tool "find" (fun w _ => (w, Returned (VMap (Some {["id" := VStr "i-1"]}))));
    "show" := demo_tool "show" (fun w params => (w, if String.eqb params demo_resolved then Returned (VStr "shown")
                                                     else Failed (OtherError "no such incident")))]}.
Definition demo_steps : list PlanStep := [mkPlanStep "a" "find" ""; mkPlanStep "b" "show" demo_params].

Definition demo_run (planID : string) : unit * PlanResult * list plan_call :=
  executePlanWithProgress iter_canonical demo_registry planID "x" (fun _ => 5) demo_steps tt.

Lemma demo_valid : ValidatePlan iter_reverse demo_registry demo_steps = [].
Proof. vm_compute. reflexivity. Qed.

Lemma ValidatePlan_sound_witness : (1 <= length demo_steps <= 10)%nat /\ NoDup (ps_ID <$> demo_steps).
Proof.
  destruct (ValidatePlan_sound iter_reverse demo_registry demo_steps demo_valid) as (H1 & H2 & _). split; [exact H1|exact H2].
Defined.

Lemma executePlan_reports_witness :
  pl_Status (demo_run "p").1.2 = "complete" /\ pl_Completed (demo_run "p").1.2 = 2 /\ (length (demo_run "p").2 <= 21)%nat.
Proof.
  split; [vm_compute; reflexivity|split; [vm_compute; reflexivity|]].
  destruct (demo_run "p") as [[w r] calls] eqn:E.
  destruct (executePlan_reports iter_reverse iter_canonical demo_registry "p" "x" (fun _ => 5) demo_steps tt w r calls demo_valid) as (_ & _ & H).
  - discriminate.
  - exact E.
  - exact H.
Defined.

(** The second step asks for a field the first does not return. *)
Definition broken_registry : Registry unit :=
  <["find" := demo_tool "find" (fun w _ => (w, Returned (VMap (Some {["incident" := VStr "i-1"]}))))]> demo_registry.

Definition broken_step : PlanStepResult :=
  mkPlanStepResult "b" 1 "show" None (Some (mkPlanStepError "REF_RESOLVE_FAILED" (RefMessage (ErrFieldMissing "id" "a")) false)) 5.

Lemma validated_plan_resolves_witness :
  broken_step ∈ pl_Steps (executePlanWithProgress iter_canonical broken_registry "p" "x" (fun _ => 5) demo_steps tt).1.2 /\
  data_error (ErrFieldMissing "id" "a") = true.
Proof.
  assert (broken_step ∈ pl_Steps (executePlanWithProgress iter_canonical broken_registry "p" "x" (fun _ => 5) demo_steps tt).1.2) as Hin.
  { assert (pl_Steps (executePlanWithProgress iter_canonical broken_registry "p" "x" (fun _ => 5) demo_steps tt).1.2 !! 1%nat = Some broken_step) as E
      by (vm_compute; reflexivity). exact (list_elem_of_lookup_2 _ _ _ E). }
  split; [exact Hin|].
  destruct (executePlanWithProgress iter_canonical broken_registry "p" "x" (fun _ => 5) demo_steps tt) as [[w r] calls] eqn:E.
  eapply (validated_plan_resolves iter_reverse iter_canonical broken_registry "p" "x" (fun _ => 5) demo_steps tt w r calls);
    [vm_compute; reflexivity|exact E|exact Hin|reflexivity|reflexivity].
Defined.
