(* ===== verification/PlanStore.v ===== *)
(** The plan store ([internal/ingest/plan_store.go]): progress logs, subscribers and their
    channels.  Each locked section is one step; replays and fan-outs, which send after the
    lock is released, are tasks that interleave with everything else. *)

From S2P Require Import Prelude GoRuntime Plan.
Open Scope Z_scope.

Definition planStoreTTL : Duration := 5 * Minute.
Definition planStoreMaxSize : nat := 100.
Definition planEventMaxLog : nat := 21.

(** A channel of capacity [planEventMaxLog+1]: all it was ever sent, how much of that was
    received, and whether it is closed. *)
Record chan := mkChan { ch_sent : list PlanEvent; ch_read : nat; ch_closed : bool }.
Definition new_chan : chan := mkChan [] O false.
Definition chan_full (c : chan) : bool := (S planEventMaxLog <=? length (ch_sent c) - ch_read c)%nat.

Record PlanEntry := mkPlanEntry {
  en_Status : string;
  en_Result : option PlanResult;
  en_Events : list PlanEvent;
  en_CreatedAt : Time;
  en_CompletedAt : option Time;
  en_subscribers : gmap Z positive;
  en_nextSubID : Z
}.

(** What a goroutine still has to send: a replay to one subscriber, or one event to the
    subscribers a [Publish] or a [Complete] found; [closing] when the channels are closed
    afterwards. *)
Inductive task :=
| Replay (ch : positive) (evs : list PlanEvent) (completed : bool)
| Fanout (chs : list positive) (ev : PlanEvent) (closing : bool).

(** [sends] and [closes] record a send on, and a close of, a closed channel that nothing
    recovers from. *)
Record PlanStore := mkPlanStore {
  st_entries : gmap string PlanEntry;
  st_order : list string;
  st_closed : bool;
  st_chans : gmap positive chan;
  st_nextChan : positive;
  st_tasks : gmap positive task;
  st_nextTask : positive;
  st_badSend : bool;
  st_badClose : bool
}.

Definition NewPlanStore : PlanStore := mkPlanStore ∅ [] false ∅ 1 ∅ 1 false false.

(** ** Record updates *)

Definition set_entries (f : gmap string PlanEntry -> gmap string PlanEntry) (s : PlanStore) : PlanStore :=
  mkPlanStore (f (st_entries s)) (st_order s) (st_closed s) (st_chans s) (st_nextChan s) (st_tasks s) (st_nextTask s) (st_badSend s) (st_badClose s).
Definition set_order (o : list string) (s : PlanStore) : PlanStore :=
  mkPlanStore (st_entries s) o (st_closed s) (st_chans s) (st_nextChan s) (st_tasks s) (st_nextTask s) (st_badSend s) (st_badClose s).
Definition set_shut (s : PlanStore) : PlanStore :=
  mkPlanStore (st_entries s) (st_order s) true (st_chans s) (st_nextChan s) (st_tasks s) (st_nextTask s) (st_badSend s) (st_badClose s).
Definition set_chan (ch : positive) (c : chan) (s : PlanStore) : PlanStore :=
  mkPlanStore (st_entries s) (st_order s) (st_closed s) (<[ch := c]> (st_chans s)) (st_nextChan s) (st_tasks s) (st_nextTask s) (st_badSend s) (st_badClose s).
Definition set_tasks (f : gmap positive task -> gmap positive task) (s : PlanStore) : PlanStore :=
  mkPlanStore (st_entries s) (st_order s) (st_closed s) (st_chans s) (st_nextChan s) (f (st_tasks s)) (st_nextTask s) (st_badSend s) (st_badClose s).
Definition bad_send (s : PlanStore) : PlanStore :=
  mkPlanStore (st_entries s) (st_order s) (st_closed s) (st_chans s) (st_nextChan s) (st_tasks s) (st_nextTask s) true (st_badClose s).
Definition bad_close (s : PlanStore) : PlanStore :=
  mkPlanStore (st_entries s) (st_order s) (st_closed s) (st_chans s) (st_nextChan s) (st_tasks s) (st_nextTask s) (st_badSend s) true.

(** [make(chan PlanEvent, n)], and [go]. *)
Definition alloc_chan (s : PlanStore) : PlanStore :=
  mkPlanStore (st_entries s) (st_order s) (st_closed s) (<[st_nextChan s := new_chan]> (st_chans s)) (Pos.succ (st_nextChan s))
    (st_tasks s) (st_nextTask s) (st_badSend s) (st_badClose s).
Definition spawn (t : task) (s : PlanStore) : PlanStore :=
  mkPlanStore (st_entries s) (st_order s) (st_closed s) (st_chans s) (st_nextChan s)
    (<[st_nextTask s := t]> (st_tasks s)) (Pos.succ (st_nextTask s)) (st_badSend s) (st_badClose s).

Definition with_subscribers (subs : gmap Z positive) (next : Z) (e : PlanEntry) : PlanEntry :=
  mkPlanEntry (en_Status e) (en_Result e) (en_Events e) (en_CreatedAt e) (en_CompletedAt e) subs next.

(** [append], up to the bound of the log. *)
Definition log_event (ev : PlanEvent) (e : PlanEntry) : PlanEntry :=
  mkPlanEntry (en_Status e) (en_Result e)
    (if (length (en_Events e) <? planEventMaxLog)%nat then en_Events e ++ [ev] else en_Events e)
    (en_CreatedAt e) (en_CompletedAt e) (en_subscribers e) (en_nextSubID e).

(** ** Channels *)

Definition close_chan (ch : positive) (s : PlanStore) : PlanStore :=
  match st_chans s !! ch with
  | Some c => if ch_closed c then bad_close s else set_chan ch (mkChan (ch_sent c) (ch_read c) true) s
  | None => bad_close s
  end.

Definition close_all (chs : list positive) (s : PlanStore) : PlanStore := foldr close_chan s chs.

Definition subscriber_chans (e : PlanEntry) : list positive := (map_to_list (en_subscribers e)).*2.

(** [case ch <- ev: default:] on an open channel. *)
Definition offer (ch : positive) (c : chan) (ev : PlanEvent) (s : PlanStore) : PlanStore :=
  if chan_full c then s else set_chan ch (mkChan (ch_sent c ++ [ev]) (ch_read c) false) s.

(** ** Locked sections *)

Section Store.
Context (it : MapIter).

(** Remove the first occurrence. *)
Fixpoint remove_first (id : string) (l : list string) : list string :=
  match l with
  | [] => []
  | x :: l => if String.eqb x id then l else x :: remove_first id l
  end.

Definition deleteLocked (id : string) (s : PlanStore) : PlanStore :=
  match st_entries s !! id with
  | None => s
  | Some e => set_order (remove_first id (st_order s)) (set_entries (delete id) (close_all (subscriber_chans e) s))
  end.

(** The oldest order entry that is stale or completed. *)
Definition evictable (s : PlanStore) (id : string) : bool :=
  match st_entries s !! id with
  | None => true
  | Some e => negb (String.eqb (en_Status e) "running")
  end.

(** [evictLocked]; each round shortens the order, whose length bounds the rounds. *)
Fixpoint evict_rounds (fuel : nat) (s : PlanStore) : PlanStore :=
  match fuel with
  | O => s
  | S fuel =>
    if (planStoreMaxSize <=? size (st_entries s))%nat then
      match List.find (evictable s) (st_order s) with
      | Some id => evict_rounds fuel (set_order (remove_first id (st_order s)) (set_entries (delete id) s))
      | None =>
        match st_order s with
        | id :: rest => deleteLocked id (set_order rest s)
        | [] => s
        end
      end
    else s
  end.
Definition evictLocked (s : PlanStore) : PlanStore := evict_rounds (S (length (st_order s))) s.

Definition new_entry (now : Time) : PlanEntry := mkPlanEntry "running" None [] now None ∅ 0.

Definition Create (id : string) (now : Time) (s : PlanStore) : PlanStore :=
  if st_closed s then s else
  let s := evictLocked s in
  set_order (st_order s ++ [id]) (set_entries <[id := new_entry now]> s).

Definition expired (e : PlanEntry) (now : Time) : bool :=
  match en_CompletedAt e with Some at_ => planStoreTTL <? TimeSub now at_ | None => false end.

Definition Get (id : string) (now : Time) (s : PlanStore) : PlanStore * option PlanEntry :=
  match st_entries s !! id with
  | None => (s, None)
  | Some e => if expired e now then (deleteLocked id s, None) else (s, Some e)
  end.

(** The channel and subscriber ID it answers, with the replay started. *)
Definition Subscribe (id : string) (now : Time) (s : PlanStore) : PlanStore * option (positive * Z) :=
  match st_entries s !! id with
  | None => (s, None)
  | Some e =>
    if st_closed s then (s, None)
    else if expired e now then (deleteLocked id s, None)
    else
      let ch := st_nextChan s in
      let subID := en_nextSubID e in
      let completed := negb (String.eqb (en_Status e) "running") in
      let subs := if completed then en_subscribers e else <[subID := ch]> (en_subscribers e) in
      let s := set_entries <[id := with_subscribers subs (subID + 1) e]> (alloc_chan s) in
      (spawn (Replay ch (en_Events e) completed) s, Some (ch, subID))
  end.

Definition Unsubscribe (id : string) (subID : Z) (s : PlanStore) : PlanStore :=
  match st_entries s !! id with
  | None => s
  | Some e =>
    match en_subscribers e !! subID with
    | None => s
    | Some ch => close_chan ch (set_entries <[id := with_subscribers (delete subID (en_subscribers e)) (en_nextSubID e) e]> s)
    end
  end.

Definition Publish (id : string) (ev : PlanEvent) (s : PlanStore) : PlanStore :=
  match st_entries s !! id with
  | None => s
  | Some e => spawn (Fanout (mrange it 43 (en_subscribers e)).*2 ev false) (set_entries <[id := log_event ev e]> s)
  end.

(** The status and the payload [Complete] makes from a result. *)
Definition complete_status (result : PlanResult) : string :=
  if negb (String.eqb (pl_Status result) "") then pl_Status result
  else match pl_HaltedAt result with Some _ => "partial" | None => "complete" end.
Definition done_event (result : PlanResult) : PlanEvent :=
  Done (complete_status result) (pl_Completed result) (pl_Total result) (pl_HaltedAt result).

Definition Complete (id : string) (now : Time) (result : PlanResult) (s : PlanStore) : PlanStore :=
  match st_entries s !! id with
  | None => s
  | Some e =>
    let e' := log_event (done_event result) e in
    let e' := mkPlanEntry (complete_status result) (Some result) (en_Events e') (en_CreatedAt e') (Some now) ∅ (en_nextSubID e') in
    spawn (Fanout (mrange it 44 (en_subscribers e)).*2 (done_event result) true) (set_entries <[id := e']> s)
  end.

(** [Close] leaves the entries with no subscribers. *)
Definition Close (s : PlanStore) : PlanStore :=
  if st_closed s then s else
  let s := close_all (map_to_list (st_entries s) ≫= fun kv => subscriber_chans kv.2) (set_shut s) in
  set_entries (fmap (fun e => with_subscribers ∅ (en_nextSubID e) e)) s.

(** ** Tasks *)

(** One send or close of a task, or its end; [None] while it is blocked. *)
Definition run_task (t : positive) (s : PlanStore) : option PlanStore :=
  match st_tasks s !! t with
  | None => None
  | Some (Replay ch evs completed) =>
    match st_chans s !! ch with
    | None => None
    | Some c =>
      match evs with
      | ev :: evs =>
        if ch_closed c then Some (set_tasks (delete t) s)
        else if chan_full c then None
        else Some (set_tasks <[t := Replay ch evs completed]> (offer ch c ev s))
      | [] =>
        let s := set_tasks (delete t) s in
        Some (if completed && negb (ch_closed c) then close_chan ch s else s)
      end
    end
  | Some (Fanout [] ev closing) => Some (set_tasks (delete t) s)
  | Some (Fanout (ch :: chs) ev closing) =>
    match st_chans s !! ch with
    | None => None
    | Some c =>
      if ch_closed c then Some (bad_send (set_tasks (delete t) s))
      else
        let s := set_tasks <[t := Fanout chs ev closing]> (offer ch c ev s) in
        Some (if closing then close_chan ch s else s)
    end
  end.

(** A receive. *)
Definition receive (ch : positive) (s : PlanStore) : option PlanStore :=
  match st_chans s !! ch with
  | Some c => if (ch_read c <? length (ch_sent c))%nat then Some (set_chan ch (mkChan (ch_sent c) (S (ch_read c)) (ch_closed c)) s) else None
  | None => None
  end.

Inductive store_op :=
| OpCreate (id : string) (now : Time)
| OpGet (id : string) (now : Time)
| OpSubscribe (id : string) (now : Time)
| OpUnsubscribe (id : string) (subID : Z)
| OpPublish (id : string) (ev : PlanEvent)
| OpComplete (id : string) (now : Time) (result : PlanResult)
| OpClose
| OpTask (t : positive)
| OpReceive (ch : positive).

(** A new plan has an ID of its own. *)
Definition store_step (op : store_op) (s : PlanStore) : option PlanStore :=
  match op with
  | OpCreate id now => match st_entries s !! id with Some _ => None | None => if bool_decide (id ∈ st_order s) then None else Some (Create id now s) end
  | OpGet id now => Some (Get id now s).1
  | OpSubscribe id now => Some (Subscribe id now s).1
  | OpUnsubscribe id subID => Some (Unsubscribe id subID s)
  | OpPublish id ev => Some (Publish id ev s)
  | OpComplete id now result => Some (Complete id now result s)
  | OpClose => Some (Close s)
  | OpTask t => run_task t s
  | OpReceive ch => receive ch s
  end.

Inductive store_reachable : PlanStore -> Prop :=
| store_init : store_reachable NewPlanStore
| store_next op s s' : store_reachable s -> store_step op s = Some s' -> store_reachable s'.
End Store.

(** ** Who closes a channel *)

(** The channels a task is going to close. *)
Definition closes (t : task) : list positive :=
  match t with
  | Replay ch _ true => [ch]
  | Fanout chs _ true => chs
  | _ => []
  end.

Inductive owner :=
| BySub (id : string) (k : Z)
| ByTask (t : positive) (i : nat).

Definition owns (s : PlanStore) (o : owner) (ch : positive) : Prop :=
  match o with
  | BySub id k => exists e, st_entries s !! id = Some e /\ en_subscribers e !! k = Some ch
  | ByTask t i => exists tk, st_tasks s !! t = Some tk /\ reverse (closes tk) !! i = Some ch
  end.

Definition open_chan (s : PlanStore) (ch : positive) : Prop := exists c, st_chans s !! ch = Some c /\ ch_closed c = false.

(** Every channel that will be closed is open and has one owner. *)
Record owned_ok (s : PlanStore) : Prop := {
  ow_open : forall o ch, owns s o ch -> open_chan s ch;
  ow_unique : forall o1 o2 ch, owns s o1 ch -> owns s o2 ch -> o1 = o2;
  ow_chan : forall ch c, st_chans s !! ch = Some c -> (ch < st_nextChan s)%positive;
  ow_task : forall t tk, st_tasks s !! t = Some tk -> (t < st_nextTask s)%positive;
  ow_good : st_badClose s = false
}.

Lemma close_all_frame chs s :
  st_entries (close_all chs s) = st_entries s /\ st_tasks (close_all chs s) = st_tasks s /\
  st_nextChan (close_all chs s) = st_nextChan s /\ st_nextTask (close_all chs s) = st_nextTask s /\
  st_order (close_all chs s) = st_order s /\ st_closed (close_all chs s) = st_closed s.
Proof.
  induction chs as [|ch chs IH]; [done|]. simpl. unfold close_chan. destruct (st_chans _ !! ch) as [c|]; [|exact IH].
  destruct (ch_closed c); exact IH.
Qed.

Lemma close_all_spec chs s : NoDup chs -> (forall ch, ch ∈ chs -> open_chan s ch) ->
  st_badClose (close_all chs s) = st_badClose s /\
  (forall ch, ch ∉ chs -> st_chans (close_all chs s) !! ch = st_chans s !! ch) /\
  (forall ch c, st_chans (close_all chs s) !! ch = Some c -> is_Some (st_chans s !! ch)).
Proof.
  intros Hn Ho. induction Hn as [|ch chs Hch Hn IH]; [split; [done|split; [done|by eexists]]|].
  destruct IH as (B & F & S); [intros x Hx; apply Ho; by right|]. simpl. unfold close_chan.
  destruct (Ho ch) as (c & Hc & Hopen); [by left|]. rewrite F, Hc, Hopen by done. simpl. split; [done|split].
  - intros x Hx. rewrite lookup_insert_ne by (intros ->; apply Hx; by left). apply F. intros Hin. apply Hx. by right.
  - intros x c'. destruct (decide (ch = x)) as [<-|Hne]; [by rewrite Hc; eexists|]. rewrite lookup_insert_ne by done. apply S.
Qed.

(** Giving up the ownership of some channels and closing them. *)
Lemma owned_close s s1 chs : owned_ok s ->
  (forall o ch, owns s1 o ch -> owns s o ch /\ ch ∉ chs) ->
  NoDup chs -> (forall ch, ch ∈ chs -> exists o, owns s o ch) ->
  st_chans s1 = st_chans s -> st_nextChan s1 = st_nextChan s -> st_nextTask s1 = st_nextTask s ->
  (forall t tk, st_tasks s1 !! t = Some tk -> (t < st_nextTask s)%positive) -> st_badClose s1 = st_badClose s ->
  owned_ok (close_all chs s1).
Proof.
  intros [H1 H2 H3 H4 H5] Ho Hn Hown E1 E2 E3 Ht E5.
  assert (forall ch, ch ∈ chs -> open_chan s1 ch) as Hopen.
  { intros ch Hin. destruct (Hown ch Hin) as [o Hoo]. unfold open_chan. rewrite E1. by apply (H1 o). }
  destruct (close_all_spec chs s1 Hn Hopen) as (B & F & S). destruct (close_all_frame chs s1) as (G1 & G2 & G3 & G4 & _).
  assert (forall o ch, owns (close_all chs s1) o ch -> owns s o ch /\ ch ∉ chs) as Ho'.
  { intros o ch Hoo. apply Ho. destruct o; simpl in *; by rewrite ?G1, ?G2 in Hoo. }
  split.
  - intros o ch (Hoo & Hnin)%Ho'. destruct (H1 _ _ Hoo) as (c & Hc & Hop). exists c. by rewrite F, E1.
  - intros o1 o2 ch [? _]%Ho' [? _]%Ho'. eauto.
  - intros ch c [c' Hc]%S. rewrite G3, E2. apply (H3 ch c'). by rewrite <- E1.
  - intros t tk. rewrite G2, G4, E3. apply Ht.
  - by rewrite B, E5.
Qed.

(** Changes that close nothing and keep each owner's channel open. *)
Lemma owned_keep s s1 : owned_ok s ->
  (forall o ch, owns s1 o ch -> exists o', owns s o' ch) ->
  (forall o1 o2 ch, owns s1 o1 ch -> owns s1 o2 ch -> o1 = o2) ->
  (forall ch, open_chan s ch -> open_chan s1 ch) ->
  (forall ch c, st_chans s1 !! ch = Some c -> (ch < st_nextChan s1)%positive) ->
  (forall t tk, st_tasks s1 !! t = Some tk -> (t < st_nextTask s1)%positive) ->
  st_badClose s1 = st_badClose s -> owned_ok s1.
Proof.
  intros [H1 H2 H3 H4 H5] Ho Hu Hop Hc Ht Hb. split; try done; [|congruence].
  intros o ch Hoo. destruct (Ho o ch Hoo) as [o' Ho']. eauto.
Qed.

(** Channels of one entry. *)
Lemma subscriber_chans_elem e ch : ch ∈ subscriber_chans e <-> exists k, en_subscribers e !! k = Some ch.
Proof.
  unfold subscriber_chans. rewrite list_elem_of_fmap. split.
  - intros ([k x] & -> & H%elem_of_map_to_list). by exists k.
  - intros [k Hk]. exists (k, ch). by rewrite elem_of_map_to_list.
Qed.

Lemma NoDup_chans (l : list (Z * positive)) : NoDup l ->
  (forall k1 k2 ch, (k1, ch) ∈ l -> (k2, ch) ∈ l -> k1 = k2) -> NoDup l.*2.
Proof.
  induction 1 as [|[k ch] l Hx Hn IH]; intros Hi; simpl; [constructor|]. constructor.
  - intros ([k' x] & Hc & Hin)%list_elem_of_fmap. simpl in Hc. subst x. assert (k = k') as -> by (eapply Hi; [by left|by right]). done.
  - apply IH. intros k1 k2 x Hk1 Hk2. eapply Hi; by right.
Qed.

Lemma subscriber_chans_NoDup s id e : owned_ok s -> st_entries s !! id = Some e -> NoDup (subscriber_chans e).
Proof.
  intros Hs He. apply NoDup_chans; [apply NoDup_map_to_list|]. intros k1 k2 ch H1%elem_of_map_to_list H2%elem_of_map_to_list.
  assert (BySub id k1 = BySub id k2) as H by (eapply (ow_unique _ Hs _ _ ch); by exists e). by simplify_eq.
Qed.

Lemma set_entries_close_all f chs s : set_entries f (close_all chs s) = close_all chs (set_entries f s).
Proof.
  induction chs as [|ch chs IH]; [done|]. simpl. unfold close_chan.
  assert (st_chans (close_all chs (set_entries f s)) = st_chans (close_all chs s)) as -> by by rewrite <- IH.
  destruct (st_chans (close_all chs s) !! ch) as [c|]; [|by rewrite <- IH]. destruct (ch_closed c); by rewrite <- IH.
Qed.

Lemma set_order_close_all o chs s : set_order o (close_all chs s) = close_all chs (set_order o s).
Proof.
  induction chs as [|ch chs IH]; [done|]. simpl. unfold close_chan.
  assert (st_chans (close_all chs (set_order o s)) = st_chans (close_all chs s)) as -> by by rewrite <- IH.
  destruct (st_chans (close_all chs s) !! ch) as [c|]; [|by rewrite <- IH]. destruct (ch_closed c); by rewrite <- IH.
Qed.

Lemma owned_order o s : owned_ok s -> owned_ok (set_order o s).
Proof. intros Hs. by apply (owned_close s (set_order o s) []); try done; [split; [done|by intros ?%elem_of_nil]|constructor|intros ? ?%elem_of_nil|apply Hs]. Qed.

Lemma owned_delete id s : owned_ok s -> owned_ok (deleteLocked id s).
Proof.
  intros Hs. unfold deleteLocked. destruct (st_entries s !! id) as [e|] eqn:He; [|done].
  rewrite set_entries_close_all, set_order_close_all. eapply (owned_close s); try done.
  - intros o ch Ho. assert (owns s o ch) as Ho'.
    { destruct o as [id' k|]; [|done]. destruct Ho as (e' & He' & Hk). exists e'. split; [|done].
      simpl in He'. by apply lookup_delete_Some in He' as [_ ?]. }
    split; [done|]. intros [k Hk]%subscriber_chans_elem.
    assert (o = BySub id k) as -> by (eapply (ow_unique _ Hs _ _ ch); [done|by exists e]).
    destruct Ho as (e' & He' & _). simpl in He'. by rewrite lookup_delete_eq in He'.
  - by eapply subscriber_chans_NoDup.
  - intros ch [k Hk]%subscriber_chans_elem. exists (BySub id k). by exists e.
  - apply Hs.
Qed.

Lemma owned_drop_entry id s : owned_ok s ->
  owned_ok (set_order (remove_first id (st_order s)) (set_entries (delete id) s)).
Proof.
  intros Hs. apply owned_order. eapply (owned_close s _ []); try done; [|constructor|intros ? ?%elem_of_nil; done|apply Hs].
  intros o ch Ho. split; [|by intros ?%elem_of_nil]. destruct o as [id' k|]; [|done]. destruct Ho as (e' & He' & Hk). exists e'.
  split; [|done]. simpl in He'. by apply lookup_delete_Some in He' as [_ ?].
Qed.

Lemma owned_evict fuel s : owned_ok s -> owned_ok (evict_rounds fuel s).
Proof.
  revert s. induction fuel as [|fuel IH]; intros s Hs; simpl; [done|]. case_if; [|done].
  destruct (List.find (evictable s) (st_order s)) as [id|]; [by apply IH, owned_drop_entry|].
  destruct (st_order s) as [|id rest]; [done|]. by apply owned_delete, owned_order.
Qed.

(** Changing an entry without adding subscribers, or adding one that has none. *)
Lemma owned_entry id e s : owned_ok s ->
  (en_subscribers e = ∅ \/ exists e0, st_entries s !! id = Some e0 /\ en_subscribers e = en_subscribers e0) ->
  owned_ok (set_entries <[id := e]> s).
Proof.
  intros Hs He. assert (forall o ch, owns (set_entries <[id := e]> s) o ch -> owns s o ch) as Ho.
  { intros [id' k|t i] ch; [|done]. simpl. intros (e' & He' & Hk). destruct (decide (id = id')) as [<-|Hne].
    - rewrite lookup_insert_eq in He'. simplify_eq. destruct He as [He|(e0 & E0 & E)]; [by rewrite He, lookup_empty in Hk|].
      exists e0. by rewrite <- E.
    - rewrite lookup_insert_ne in He' by done. by exists e'. }
  apply (owned_keep s); try done; [intros o ch H; eauto| |apply Hs..].
  intros o1 o2 ch H1%Ho H2%Ho. by eapply (ow_unique _ Hs).
Qed.

(** Starting a task whose channels to close are given up by an entry. *)
Lemma owned_spawn tk s : owned_ok s -> closes tk = [] -> owned_ok (spawn tk s).
Proof.
  intros Hs Hc. assert (forall o ch, owns (spawn tk s) o ch -> owns s o ch) as Ho.
  { intros [id' k|t i] ch; [done|]. simpl. intros (tk' & Htk & Hi). destruct (decide (st_nextTask s = t)) as [<-|Hne].
    - rewrite lookup_insert_eq in Htk. simplify_eq. by rewrite Hc in Hi.
    - rewrite lookup_insert_ne in Htk by done. by exists tk'. }
  apply (owned_keep s); try done; [intros o ch H; eauto| |apply Hs|].
  - intros o1 o2 ch H1%Ho H2%Ho. by eapply (ow_unique _ Hs).
  - simpl. intros t tk'. destruct (decide (st_nextTask s = t)) as [<-|Hne]; [intros _; lia|].
    rewrite lookup_insert_ne by done. intros H%(ow_task _ Hs). lia.
Qed.

Lemma owned_alloc s : owned_ok s -> owned_ok (alloc_chan s) /\ open_chan (alloc_chan s) (st_nextChan s) /\
  (forall o, ~ owns (alloc_chan s) o (st_nextChan s)).
Proof.
  intros Hs. assert (forall o, ~ owns (alloc_chan s) o (st_nextChan s)) as Hno.
  { intros o Ho. destruct (ow_open _ Hs o (st_nextChan s)) as (c & Hc & _); [by destruct o|]. apply (ow_chan _ Hs) in Hc. lia. }
  assert (forall ch, open_chan s ch -> open_chan (alloc_chan s) ch) as Hop.
  { intros ch (c & Hc & Hopen). exists c. simpl. rewrite lookup_insert_ne; [done|]. intros <-. apply (ow_chan _ Hs) in Hc. lia. }
  split; [|split; [|done]].
  - apply (owned_keep s); try done; [intros o ch H; exists o; by destruct o| | |apply Hs].
    + intros o1 o2 ch H1 H2. eapply (ow_unique _ Hs _ _ ch); [by destruct o1|by destruct o2].
    + simpl. intros ch c. destruct (decide (st_nextChan s = ch)) as [<-|Hne]; [intros _; lia|].
      rewrite lookup_insert_ne by done. intros H%(ow_chan _ Hs). lia.
  - exists new_chan. simpl. by rewrite lookup_insert_eq.
Qed.

(** A fresh open channel finds its owner: a subscription, or the replay of a finished plan. *)
Lemma owned_add s s1 o0 ch0 : owned_ok s -> open_chan s ch0 -> (forall o, ~ owns s o ch0) ->
  (forall o ch, owns s1 o ch -> owns s o ch \/ (o = o0 /\ ch = ch0)) ->
  st_chans s1 = st_chans s -> st_nextChan s1 = st_nextChan s -> st_badClose s1 = st_badClose s ->
  (forall t tk, st_tasks s1 !! t = Some tk -> (t < st_nextTask s1)%positive) -> owned_ok s1.
Proof.
  intros Hs Hopen Hno Ho E1 E2 E3 Ht. split; try done.
  - intros o ch [H%(ow_open _ Hs)|[-> ->]]%Ho; unfold open_chan; by rewrite E1.
  - intros o1 o2 ch H1%Ho H2%Ho. destruct H1 as [H1|[-> ->]], H2 as [H2|[-> E]]; [by eapply (ow_unique _ Hs)|subst; by apply Hno in H1|by apply Hno in H2|done].
  - intros ch c. rewrite E1, E2. apply Hs.
  - rewrite E3. apply Hs.
Qed.

Lemma owned_subscribe id now s : owned_ok s -> owned_ok (Subscribe id now s).1.
Proof.
  intros Hs. unfold Subscribe. destruct (st_entries s !! id) as [e|] eqn:He; [|done]. case_if; [done|]. case_if; [by apply owned_delete|].
  destruct (owned_alloc s Hs) as (Ha & Hopen & Hno). destruct (negb (String.eqb (en_Status e) "running")); cbn [fst].
  - (* the replay owns the channel *)
    assert (owned_ok (set_entries <[id := with_subscribers (en_subscribers e) (en_nextSubID e + 1) e]> (alloc_chan s))) as Hb.
    { apply owned_entry; [done|]. right. by exists e. }
    eapply (owned_add _ _ (ByTask (st_nextTask s) 0) (st_nextChan s) Hb); try done.
    + intros o Ho. apply (Hno o). destruct o as [id' k|]; [|done]. destruct Ho as (e' & He' & Hk). simpl in He'.
      destruct (decide (id = id')) as [<-|Hne]; [rewrite lookup_insert_eq in He'; simplify_eq; by exists e|].
      rewrite lookup_insert_ne in He' by done. by exists e'.
    + intros [id' k|t i] ch; [by left|]. simpl. intros (tk & Htk & Hi). destruct (decide (st_nextTask s = t)) as [<-|Hne].
      * rewrite lookup_insert_eq in Htk. simplify_eq. simpl in Hi. destruct i as [|i]; [|done]. simplify_eq/=. by right.
      * rewrite lookup_insert_ne in Htk by done. left. by exists tk.
    + simpl. intros t tk. destruct (decide (st_nextTask s = t)) as [<-|Hne]; [intros _; lia|].
      rewrite lookup_insert_ne by done. intros H%(ow_task _ Hs). lia.
  - apply owned_spawn; [|done]. eapply (owned_add _ _ (BySub id (en_nextSubID e)) (st_nextChan s) Ha); try done; [|apply Ha].
    intros [id' k|t i] ch; [|by left]. simpl. intros (e' & He' & Hk). destruct (decide (id = id')) as [<-|Hne].
    + rewrite lookup_insert_eq in He'. simplify_eq. simpl in Hk. destruct (decide (en_nextSubID e = k)) as [<-|Hk'].
      * rewrite lookup_insert_eq in Hk. simplify_eq. by right.
      * rewrite lookup_insert_ne in Hk by done. left. by exists e.
    + rewrite lookup_insert_ne in He' by done. left. by exists e'.
Qed.

Lemma owned_unsubscribe id k s : owned_ok s -> owned_ok (Unsubscribe id k s).
Proof.
  intros Hs. unfold Unsubscribe. destruct (st_entries s !! id) as [e|] eqn:He; [|done]. destruct (en_subscribers e !! k) as [ch|] eqn:Hk; [|done].
  apply (owned_close s _ [ch]); try done; [| |intros x ->%list_elem_of_singleton; exists (BySub id k); by exists e|apply Hs].
  - intros o x Ho. assert (owns s o x /\ o <> BySub id k) as [Ho' Hne].
    { destruct o as [id' k'|]; [|done]. destruct Ho as (e' & He' & Hk'). simpl in He'. destruct (decide (id = id')) as [<-|Hne].
      - rewrite lookup_insert_eq in He'. simplify_eq. simpl in Hk'. apply lookup_delete_Some in Hk' as [Hne Hk'].
        split; [by exists e|]. intros [= ->]. done.
      - rewrite lookup_insert_ne in He' by done. split; [by exists e'|]. intros [= -> _]. done. }
    split; [done|]. intros ->%list_elem_of_singleton. apply Hne. eapply (ow_unique _ Hs); [done|by exists e].
  - apply NoDup_singleton.
Qed.

Section Steps.
Context (it : MapIter).

Lemma owned_publish id ev s : owned_ok s -> owned_ok (Publish it id ev s).
Proof.
  intros Hs. unfold Publish. destruct (st_entries s !! id) as [e|] eqn:He; [|done]. apply owned_spawn; [|done].
  apply owned_entry; [done|]. right. by exists e.
Qed.

Lemma owned_complete id now result s : owned_ok s -> owned_ok (Complete it id now result s).
Proof.
  intros Hs. unfold Complete. destruct (st_entries s !! id) as [e|] eqn:He; [|done].
  set (chs := (mrange it 44 (en_subscribers e)).*2). set (e' := mkPlanEntry _ _ _ _ _ _ _).
  assert (forall i ch, reverse chs !! i = Some ch -> exists k, en_subscribers e !! k = Some ch) as Hin.
  { intros i ch Hi. apply list_elem_of_lookup_2, elem_of_reverse, list_elem_of_fmap in Hi as ([k x] & -> & Hkx). exists k. by apply elem_of_mrange in Hkx. }
  assert (NoDup chs) as Hnd.
  { apply NoDup_chans; [apply (NoDup_fmap_1 fst), NoDup_fst_mrange|]. intros k1 k2 ch H1%elem_of_mrange H2%elem_of_mrange.
    assert (BySub id k1 = BySub id k2) as H by (eapply (ow_unique _ Hs _ _ ch); by exists e). by simplify_eq. }
  assert (forall o ch, owns (spawn (Fanout chs (done_event result) true) (set_entries <[id := e']> s)) o ch ->
    (owns s o ch /\ forall k, o <> BySub id k) \/ (exists i, o = ByTask (st_nextTask s) i /\ reverse chs !! i = Some ch)) as Ho.
  { intros [id' k|t i] ch; simpl.
    - intros (x & Hx & Hk). left. destruct (decide (id = id')) as [<-|Hne].
      + rewrite lookup_insert_eq in Hx. simplify_eq.
      + rewrite lookup_insert_ne in Hx by done. split; [by exists x|]. intros k' [= -> _]. done.
    - intros (tk & Htk & Hi). destruct (decide (st_nextTask s = t)) as [<-|Hne].
      + rewrite lookup_insert_eq in Htk. simplify_eq. right. by exists i.
      + rewrite lookup_insert_ne in Htk by done. left. split; [by exists tk|done]. }
  apply (owned_keep s); try done; [| |apply Hs|].
  - intros o ch [[H _]|(i & -> & Hi)]%Ho; [by exists o|]. destruct (Hin i ch Hi) as [k Hk]. exists (BySub id k). by exists e.
  - intros o1 o2 ch [[H1 N1]|(i & -> & Hi)]%Ho [[H2 N2]|(j & -> & Hj)]%Ho.
    + by eapply (ow_unique _ Hs).
    + destruct (Hin j ch Hj) as [k Hk]. destruct (N1 k). eapply (ow_unique _ Hs); [done|by exists e].
    + destruct (Hin i ch Hi) as [k Hk]. destruct (N2 k). eapply (ow_unique _ Hs); [done|by exists e].
    + f_equal. eapply (NoDup_lookup (reverse chs)); [by rewrite reverse_Permutation|done|done].
  - simpl. intros t tk. destruct (decide (st_nextTask s = t)) as [<-|Hne]; [intros _; lia|].
    rewrite lookup_insert_ne by done. intros H%(ow_task _ Hs). lia.
Qed.

Lemma all_chans_NoDup (l : list (string * PlanEntry)) : NoDup l.*1 -> Forall (fun kv => NoDup (subscriber_chans kv.2)) l ->
  (forall kv1 kv2 ch, kv1 ∈ l -> kv2 ∈ l -> ch ∈ subscriber_chans kv1.2 -> ch ∈ subscriber_chans kv2.2 -> kv1.1 = kv2.1) ->
  NoDup (l ≫= fun kv => subscriber_chans kv.2).
Proof.
  intros Hn Hf Hi. induction Hf as [|kv l Hkv Hf IH]; [constructor|]. cbn [fmap list_fmap] in Hn. apply NoDup_cons in Hn as [Hk Hn].
  cbn [mbind list_bind]. apply NoDup_app. split; [done|split; [|apply IH; [done|intros; eapply Hi; try done; by right]]].
  intros ch Hch (kv2 & Hc & Hin)%list_elem_of_bind. apply Hk. rewrite (Hi kv kv2 ch); [by apply list_elem_of_fmap_2|by left|by right|done|done].
Qed.

Lemma owned_close_store s : owned_ok s -> owned_ok (Close s).
Proof.
  intros Hs. unfold Close. case_if; [done|]. rewrite set_entries_close_all. apply (owned_close s); try done; [| | |apply Hs].
  - intros [id k|t i] ch; simpl.
    + intros (x & Hx & Hk). rewrite lookup_fmap in Hx. destruct (st_entries s !! id); [|done]. simplify_eq/=.
    + intros Ho. split; [done|]. intros ([id e] & Hc & Hin)%list_elem_of_bind. apply subscriber_chans_elem in Hc as [k Hk].
      apply elem_of_map_to_list in Hin. assert (ByTask t i = BySub id k); [|done]. eapply (ow_unique _ Hs); [done|by exists e].
  - apply all_chans_NoDup; [apply NoDup_fst_map_to_list| |].
    + apply Forall_forall. intros [id e] Hin%elem_of_map_to_list. by eapply subscriber_chans_NoDup.
    + intros [id1 e1] [id2 e2] ch Hin1%elem_of_map_to_list Hin2%elem_of_map_to_list [k1 Hk1]%subscriber_chans_elem [k2 Hk2]%subscriber_chans_elem.
      assert (BySub id1 k1 = BySub id2 k2) as H by (eapply (ow_unique _ Hs _ _ ch); [by exists e1|by exists e2]). by simplify_eq.
  - intros ch ([id e] & Hc & Hin)%list_elem_of_bind. apply subscriber_chans_elem in Hc as [k Hk]. apply elem_of_map_to_list in Hin.
    exists (BySub id k). by exists e.
Qed.

(** Sending or receiving leaves the owners alone. *)
Lemma owned_chan ch c s : owned_ok s -> (exists c0, st_chans s !! ch = Some c0 /\ ch_closed c0 = ch_closed c) -> owned_ok (set_chan ch c s).
Proof.
  intros Hs (c0 & Hc0 & E). assert (forall o x, owns (set_chan ch c s) o x -> owns s o x) as Ho by by intros [].
  apply (owned_keep s); try done; [intros o x H; eauto| | | |apply Hs].
  - intros o1 o2 x H1%Ho H2%Ho. by eapply (ow_unique _ Hs).
  - intros x (cx & Hcx & Hopen). unfold open_chan. simpl. destruct (decide (ch = x)) as [<-|Hne].
    + rewrite lookup_insert_eq. exists c. simplify_eq. split; [done|congruence].
    + rewrite lookup_insert_ne by done. by exists cx.
  - simpl. intros x cx. destruct (decide (ch = x)) as [<-|Hne]; [intros _; by eapply (ow_chan _ Hs)|].
    rewrite lookup_insert_ne by done. apply Hs.
Qed.

Lemma owned_offer ch c ev s : owned_ok s -> st_chans s !! ch = Some c -> ch_closed c = false -> owned_ok (offer ch c ev s).
Proof. intros Hs Hc Ho. unfold offer. case_if; [done|]. apply owned_chan; [done|]. by exists c. Qed.

(** A task going on with no more to close than before. *)
Lemma owned_tasks f s : owned_ok s ->
  (forall t tk, f (st_tasks s) !! t = Some tk -> exists tk0, st_tasks s !! t = Some tk0 /\ (closes tk = closes tk0 \/ closes tk = [])) ->
  owned_ok (set_tasks f s).
Proof.
  intros Hs Hf. assert (forall o ch, owns (set_tasks f s) o ch -> owns s o ch) as Ho.
  { intros [id k|t i] ch; [done|]. simpl. intros (tk & Htk & Hi). destruct (Hf t tk Htk) as (tk0 & H0 & [E|E]); [exists tk0; by rewrite <- E|by rewrite E in Hi]. }
  apply (owned_keep s); try done; [intros o ch H; eauto| |apply Hs|].
  - intros o1 o2 ch H1%Ho H2%Ho. by eapply (ow_unique _ Hs).
  - intros t tk Htk. destruct (Hf t tk Htk) as (tk0 & H0 & _). by apply (ow_task _ Hs) in H0.
Qed.

Lemma delete_tasks t s tk : delete t (st_tasks s) !! tk = None \/ delete t (st_tasks s) !! tk = st_tasks s !! tk.
Proof. destruct (decide (t = tk)) as [<-|Hne]; [left; apply lookup_delete_eq|right; by apply lookup_delete_ne]. Qed.

Lemma owned_end t s : owned_ok s -> owned_ok (set_tasks (delete t) s).
Proof. intros Hs. apply owned_tasks; [done|]. intros x tk [_ Hx]%lookup_delete_Some. exists tk. by split; [|left]. Qed.

(** A fan-out that closes takes the first channel off its list and closes it. *)
Lemma owned_fanout_close t ch chs ev s : owned_ok s -> st_tasks s !! t = Some (Fanout (ch :: chs) ev true) ->
  owned_ok (close_chan ch (set_tasks <[t := Fanout chs ev true]> s)).
Proof.
  intros Hs Ht. apply (owned_close s _ [ch]); try done.
  - assert (forall i x, reverse (ch :: chs) !! i = Some x -> owns s (ByTask t i) x) as Hown by (intros i x Hi; by eexists).
    intros o x Ho. assert (owns s o x /\ forall i, o = ByTask t i -> (i < length chs)%nat) as [Ho' Hi].
    { destruct o as [|t' i]; [by split|]. destruct Ho as (tk & Htk & Hi). simpl in Htk. destruct (decide (t = t')) as [<-|Hne].
      - rewrite lookup_insert_eq in Htk. simplify_eq. cbn [closes] in Hi. pose proof (lookup_lt_Some _ _ _ Hi) as Hlt.
        rewrite length_reverse in Hlt. split; [|by intros ? [= <-]]. apply Hown. rewrite reverse_cons.
        by apply lookup_app_l_Some.
      - rewrite lookup_insert_ne in Htk by done. split; [by exists tk|]. intros j [= <- _]. done. }
    split; [done|]. intros ->%list_elem_of_singleton.
    assert (owns s (ByTask t (length chs)) ch) as Hl.
    { apply Hown. rewrite reverse_cons, lookup_app_r by (by rewrite length_reverse). by rewrite length_reverse, Nat.sub_diag. }
    pose proof (ow_unique _ Hs _ _ _ Ho' Hl) as ->. specialize (Hi _ eq_refl). lia.
  - apply NoDup_singleton.
  - intros x ->%list_elem_of_singleton. exists (ByTask t (length chs)). eexists. split; [done|]. cbn [closes].
    rewrite reverse_cons, lookup_app_r by (by rewrite length_reverse). by rewrite length_reverse, Nat.sub_diag.
  - simpl. intros t' tk. destruct (decide (t = t')) as [<-|Hne]; [intros _; by eapply (ow_task _ Hs)|].
    rewrite lookup_insert_ne by done. apply Hs.
Qed.

Lemma owned_run t s s' : owned_ok s -> run_task t s = Some s' -> owned_ok s'.
Proof.
  intros Hs. unfold run_task. destruct (st_tasks s !! t) as [[ch evs completed|[|ch chs] ev closing]|] eqn:Ht; [| |  |done].
  - destruct (st_chans s !! ch) as [c|] eqn:Hc; [|done]. destruct evs as [|ev evs].
    + intros [= <-]. destruct (completed && negb (ch_closed c)) eqn:E; [|by apply owned_end].
      apply andb_true_iff in E as [-> E]. apply (owned_close s _ [ch]); try done.
      * intros o x Ho. assert (owns s o x /\ o <> ByTask t 0) as [Ho' Hne].
        { destruct o as [|t' i]; [by split|]. destruct Ho as (tk & Htk & Hi). simpl in Htk. apply lookup_delete_Some in Htk as [Hne Htk].
          split; [by exists tk|]. intros [= -> _]. done. }
        split; [done|]. intros ->%list_elem_of_singleton. apply Hne. eapply (ow_unique _ Hs); [done|by eexists].
      * apply NoDup_singleton.
      * intros x ->%list_elem_of_singleton. exists (ByTask t 0). by eexists.
      * simpl. intros t' tk [_ Htk]%lookup_delete_Some. by apply (ow_task _ Hs) in Htk.
    + destruct (ch_closed c) eqn:Ec; [intros [= <-]; by apply owned_end|]. case_if; [done|]. intros [= <-].
      apply owned_tasks; [by apply owned_offer|]. intros t' tk.
      assert (st_tasks (offer ch c ev s) = st_tasks s) as -> by (unfold offer; by case_if).
      destruct (decide (t = t')) as [<-|Hne]; [rewrite lookup_insert_eq; intros [= <-]; eexists; split; [done|by left]|].
      rewrite lookup_insert_ne by done. intros Htk. exists tk. by split; [|left].
  - intros [= <-]. by apply owned_end.
  - destruct (st_chans s !! ch) as [c|] eqn:Hc; [|done]. destruct (ch_closed c) eqn:Ec.
    { intros [= <-]. destruct (owned_end t s Hs). by split. }
    intros [= <-]. assert (st_tasks (offer ch c ev s) = st_tasks s) as Et by (unfold offer; by case_if).
    pose proof (owned_offer ch c ev s Hs Hc Ec) as Ho. destruct closing.
    + apply owned_fanout_close; [done|]. by rewrite Et.
    + apply owned_tasks; [done|]. rewrite Et. intros t' tk. destruct (decide (t = t')) as [<-|Hne].
      * rewrite lookup_insert_eq. intros [= <-]. eexists. split; [done|by left].
      * rewrite lookup_insert_ne by done. intros Htk. exists tk. by split; [|left].
Qed.

Lemma owned_init : owned_ok NewPlanStore.
Proof.
  split; simpl; try done.
  - intros [id k|t i] ch; simpl; [intros (x & Hx & _)|intros (x & Hx & _)]; by rewrite lookup_empty in Hx.
  - intros [id k|t i] o2 ch; simpl; intros (x & Hx & _); by rewrite lookup_empty in Hx.
Qed.

Lemma owned_step op s s' : owned_ok s -> store_step it op s = Some s' -> owned_ok s'.
Proof.
  intros Hs. destruct op as [id now|id now|id now|id k|id ev|id now r| |t|ch]; simpl.
  - destruct (st_entries s !! id); [done|]. case_if; [done|]. intros [= <-]. unfold Create. case_if; [done|].
    apply owned_order, owned_entry; [by apply owned_evict|by left].
  - intros [= <-]. unfold Get. destruct (st_entries s !! id) as [e|]; [|done]. case_if; [by apply owned_delete|done].
  - intros [= <-]. by apply owned_subscribe.
  - intros [= <-]. by apply owned_unsubscribe.
  - intros [= <-]. by apply owned_publish.
  - intros [= <-]. by apply owned_complete.
  - intros [= <-]. by apply owned_close_store.
  - by apply owned_run.
  - unfold receive. destruct (st_chans s !! ch) as [c|] eqn:Hc; [|done]. case_if; [|done]. intros [= <-].
    apply owned_chan; [done|]. by exists c.
Qed.

(** No channel of the plan store is closed twice, in any interleaving of creations,
    subscriptions, publications, completions, shutdown, replays and fan-outs: whoever
    closes a channel owns it alone.  So every registered subscriber's channel is open, and
    the fan-out of a completion never panics: the channels it has left are open. *)
Theorem store_closes_once s : store_reachable it s ->
  st_badClose s = false /\
  (forall id e k ch, st_entries s !! id = Some e -> en_subscribers e !! k = Some ch -> open_chan s ch) /\
  (forall t chs ev ch, st_tasks s !! t = Some (Fanout chs ev true) -> ch ∈ chs -> open_chan s ch).
Proof.
  intros Hr. assert (owned_ok s) as Hs by (induction Hr; [apply owned_init|by eapply owned_step]).
  split; [apply Hs|split].
  - intros id e k ch He Hk. apply (ow_open _ Hs (BySub id k)). by exists e.
  - intros t chs ev ch Ht Hin. apply elem_of_reverse, list_elem_of_lookup in Hin as [i Hi]. apply (ow_open _ Hs (ByTask t i)). by eexists.
Qed.

(** ** The size of the store *)

(** The order lists the stored plans, each once, and there are at most a hundred. *)
Record sized (s : PlanStore) : Prop := {
  sz_nodup : NoDup (st_order s);
  sz_keys : forall id, id ∈ st_order s <-> is_Some (st_entries s !! id);
  sz_max : (size (st_entries s) <= planStoreMaxSize)%nat
}.

Lemma remove_first_elem id l x : NoDup l -> x ∈ remove_first id l <-> x ∈ l /\ x <> id.
Proof.
  induction 1 as [|y l Hy Hn IH]; simpl; [split; [by intros ?%elem_of_nil|by intros [?%elem_of_nil _]]|].
  destruct (String.eqb_spec y id) as [->|Hne].
  - split; [intros Hx; split; [by right|intros ->; done]|]. intros [[->|Hx]%elem_of_cons Hne]; done.
  - rewrite elem_of_cons, IH, elem_of_cons. split; [intros [->|[H1 H2]]; [split; [by left|done]|split; [by right|done]]|].
    intros [[->|H1] H2]; [by left|by right].
Qed.

Lemma remove_first_NoDup id l : NoDup l -> NoDup (remove_first id l).
Proof.
  induction 1 as [|y l Hy Hn IH]; simpl; [constructor|]. case_if; [done|]. constructor; [|done].
  intros Hin. apply Hy. apply remove_first_elem in Hin; [by destruct Hin|done].
Qed.

Lemma remove_first_absent id l : id ∉ l -> remove_first id l = l.
Proof.
  induction l as [|y l IH]; simpl; intros H; [done|]. destruct (String.eqb_spec y id) as [->|]; [destruct H; by left|].
  rewrite IH; [done|]. intros Hin. apply H. by right.
Qed.

Lemma sized_same s s' : sized s -> st_order s' = st_order s -> dom (st_entries s') = dom (st_entries s) -> sized s'.
Proof.
  intros [H1 H2 H3] E1 E2. split; [by rewrite E1| |rewrite <- size_dom, E2, size_dom; done].
  intros id. rewrite E1, H2, <- !elem_of_dom, E2. done.
Qed.

Lemma sized_drop id s : sized s -> is_Some (st_entries s !! id) ->
  sized (set_order (remove_first id (st_order s)) (set_entries (delete id) s)) /\
  (size (delete id (st_entries s)) < size (st_entries s))%nat.
Proof.
  intros [H1 H2 H3] [e He]. assert (size (delete id (st_entries s)) < size (st_entries s))%nat as Hlt.
  { pose proof (map_size_insert_None id e (delete id (st_entries s)) (lookup_delete_eq _ _)) as Hz.
    rewrite insert_delete_id in Hz by done. lia. }
  split; [|done]. split; simpl; [by apply remove_first_NoDup| |lia].
  intros x. rewrite remove_first_elem by done. rewrite H2. destruct (decide (id = x)) as [<-|Hne].
  - rewrite lookup_delete_eq. split; [by intros [_ []]|by intros []].
  - rewrite lookup_delete_ne by done. split; [by intros []|by split].
Qed.

Lemma sized_delete id s : sized s -> sized (deleteLocked id s).
Proof.
  intros Hs. unfold deleteLocked. destruct (st_entries s !! id) as [e|] eqn:He; [|done].
  rewrite set_entries_close_all, set_order_close_all. destruct (sized_drop id s Hs) as [Hd _]; [by eexists|].
  destruct (close_all_frame (subscriber_chans e) (set_order (remove_first id (st_order s)) (set_entries (delete id) s))) as (F1 & _ & _ & _ & F2 & _).
  eapply sized_same; [exact Hd|by rewrite F2|by rewrite F1].
Qed.

Lemma evict_room fuel s : sized s -> (length (st_order s) < fuel)%nat ->
  sized (evict_rounds fuel s) /\ (size (st_entries (evict_rounds fuel s)) < planStoreMaxSize)%nat /\
  (forall id, st_entries s !! id = None -> st_entries (evict_rounds fuel s) !! id = None).
Proof.
  revert s. induction fuel as [|fuel IH]; intros s Hs Hf; [lia|]. cbn [evict_rounds].
  destruct (Nat.leb_spec planStoreMaxSize (size (st_entries s))) as [Hge|]; [|by (split; [exact Hs|split])].
  destruct (List.find (evictable s) (st_order s)) as [id|] eqn:Ef.
  - apply List.find_some in Ef as [Hin _]. apply list_elem_of_In, (sz_keys _ Hs) in Hin as Hsome.
    destruct (sized_drop id s Hs Hsome) as [Hd _]. destruct (IH _ Hd) as (W & S & N).
    { simpl. clear -Hin Hf. apply list_elem_of_In in Hin. revert Hin Hf. generalize (st_order s) as l. intros l Hin.
      assert (S (length (remove_first id l)) = length l) as Hl; [|lia].
      induction l as [|y l IH]; [done|]. simpl. destruct (String.eqb_spec y id) as [|Hne]; [done|]. simpl. rewrite IH; [done|].
      by destruct Hin. }
    split; [done|split; [done|]]. intros x Hx. apply N. simpl. by rewrite lookup_delete_None; right.
  - destruct (st_order s) as [|id rest] eqn:Eo.
    + exfalso. assert (st_entries s = ∅) as E.
      { apply map_empty. intros id. apply eq_None_not_Some. intros Hid%(sz_keys _ Hs). rewrite Eo in Hid. by apply elem_of_nil in Hid. }
      rewrite E, map_size_empty in Hge. unfold planStoreMaxSize in Hge. lia.
    + assert (is_Some (st_entries s !! id)) as Hid by (apply (sz_keys _ Hs); rewrite Eo; by left).
      destruct (sized_drop id s Hs Hid) as [Hd Hlt]. unfold deleteLocked. destruct Hid as [e He]. simpl. rewrite He.
      pose proof (sz_nodup _ Hs) as Hn. rewrite Eo in Hn. apply NoDup_cons in Hn as [Hnin Hn].
      rewrite set_entries_close_all, set_order_close_all. simpl in *. rewrite Eo in Hd. simpl in Hd. rewrite String.eqb_refl in Hd.
      rewrite remove_first_absent by done.
      set (s1 := set_order rest (set_entries (delete id) (set_order rest s))).
      destruct (close_all_frame (subscriber_chans e) s1) as (F1 & _ & _ & _ & F2 & _). split; [|split].
      * eapply sized_same; [exact Hd|by rewrite F2|by rewrite F1].
      * rewrite F1. simpl. pose proof (sz_max _ Hs). lia.
      * intros x Hx. rewrite F1. simpl. by rewrite lookup_delete_None; right.
Qed.

Lemma sized_step op s s' : sized s -> store_step it op s = Some s' -> sized s'.
Proof.
  intros Hs. destruct op as [id now|id now|id now|id k|id ev|id now r| |t|ch]; simpl.
  - destruct (st_entries s !! id) eqn:He; [done|]. destruct (bool_decide_reflect (id ∈ st_order s)) as [|Hno]; [done|]. intros [= <-].
    unfold Create. case_if; [done|]. destruct (evict_room (S (length (st_order s))) s Hs) as (W & Z & N); [lia|].
    unfold evictLocked. set (s1 := evict_rounds _ s) in *. specialize (N id He).
    assert (id ∉ st_order s1) as Hnin by (intros [? H]%(sz_keys _ W); congruence).
    destruct W as [W1 W2 W3]. split; simpl.
    + apply NoDup_app. split; [done|split; [|apply NoDup_singleton]]. intros x Hx ->%list_elem_of_singleton. done.
    + intros x. rewrite elem_of_app, list_elem_of_singleton, W2. destruct (decide (id = x)) as [<-|Hne].
      * rewrite lookup_insert_eq. split; [by eexists|by right].
      * rewrite lookup_insert_ne by done. split; [intros [?| ->]; done|by left].
    + rewrite map_size_insert_None by done. lia.
  - intros [= <-]. unfold Get. destruct (st_entries s !! id) as [e|]; [|done]. case_if; [by apply sized_delete|done].
  - intros [= <-]. unfold Subscribe. destruct (st_entries s !! id) as [e|] eqn:He; [|done]. case_if; [done|]. case_if; [by apply sized_delete|].
    apply (sized_same s); [done|done|]. simpl. rewrite dom_insert_lookup_L; [done|by eexists].
  - intros [= <-]. unfold Unsubscribe. destruct (st_entries s !! id) as [e|] eqn:He; [|done]. destruct (en_subscribers e !! k) as [ch|]; [|done].
    change (close_chan ch ?x) with (close_all [ch] x).
    destruct (close_all_frame [ch] (set_entries <[id := with_subscribers (delete k (en_subscribers e)) (en_nextSubID e) e]> s)) as (F1 & _ & _ & _ & F2 & _).
    apply (sized_same s); [done|by rewrite F2|rewrite F1]. simpl. rewrite dom_insert_lookup_L; [done|by eexists].
  - intros [= <-]. unfold Publish. destruct (st_entries s !! id) as [e|] eqn:He; [|done].
    apply (sized_same s); [done|done|]. simpl. rewrite dom_insert_lookup_L; [done|by eexists].
  - intros [= <-]. unfold Complete. destruct (st_entries s !! id) as [e|] eqn:He; [|done].
    apply (sized_same s); [done|done|]. simpl. rewrite dom_insert_lookup_L; [done|by eexists].
  - intros [= <-]. unfold Close. case_if; [done|]. rewrite set_entries_close_all.
    set (chs := map_to_list (st_entries s) ≫= fun kv => subscriber_chans kv.2). set (s1 := set_entries _ (set_shut s)).
    destruct (close_all_frame chs s1) as (F1 & _ & _ & _ & F2 & _).
    apply (sized_same s); [done|by rewrite F2|rewrite F1]. simpl. by rewrite dom_fmap_L.
  - intros H. assert (st_order s' = st_order s /\ st_entries s' = st_entries s) as [E1 E2]; [|by apply (sized_same s); [|done|by rewrite E2]].
    revert H. unfold run_task, close_chan, offer. repeat (case_match; try done); intros [= <-]; done.
  - unfold receive. destruct (st_chans s !! ch); [|done]. case_if; [|done]. intros [= <-]. by apply (sized_same s).
Qed.

(** The plan store holds at most a hundred plans: creating one when it is full makes
    room first, by dropping the oldest finished plan, or the oldest one when all are still
    running; and its order lists exactly the plans it holds. *)
Theorem store_bounded s : store_reachable it s ->
  (size (st_entries s) <= planStoreMaxSize)%nat /\ NoDup (st_order s) /\ forall id, id ∈ st_order s <-> is_Some (st_entries s !! id).
Proof.
  intros Hr. assert (sized s) as [H1 H2 H3]; [|done]. induction Hr; [|by eapply sized_step].
  split; simpl; [constructor| |rewrite map_size_empty; unfold planStoreMaxSize; lia].
  intros id. rewrite lookup_empty. split; [by intros ?%elem_of_nil|by intros []].
Qed.
End Steps.

(** ** What a subscriber is sent *)

(** The events a task still owes a channel, and those all tasks owe it. *)
Definition owed_by (ch : positive) (tk : task) : list PlanEvent :=
  match tk with
  | Replay c evs _ => if decide (c = ch) then evs else []
  | Fanout chs ev _ => (fun _ => ev) <$> List.filter (Pos.eqb ch) chs
  end.
Definition owed_in (tasks : gmap positive task) (ch : positive) : list PlanEvent := (map_to_list tasks).*2 ≫= owed_by ch.
Definition owed (s : PlanStore) (ch : positive) : list PlanEvent := owed_in (st_tasks s) ch.

#[local] Instance bind_perm {A B} (f : A -> list B) : Proper ((≡ₚ) ==> (≡ₚ)) (mbind f).
Proof. intros l1 l2 H. by apply bind_Permutation. Qed.

Lemma owed_insert t tk tasks ch : tasks !! t = None -> owed_in (<[t := tk]> tasks) ch ≡ₚ owed_by ch tk ++ owed_in tasks ch.
Proof. intros H. unfold owed_in. by rewrite map_to_list_insert. Qed.

Lemma owed_delete t tk tasks ch : tasks !! t = Some tk -> owed_in tasks ch ≡ₚ owed_by ch tk ++ owed_in (delete t tasks) ch.
Proof. intros H. unfold owed_in. by rewrite <- (map_to_list_delete tasks t tk). Qed.

Lemma owed_update t tk tk' tasks ch : tasks !! t = Some tk -> owed_in (<[t := tk']> tasks) ch ≡ₚ owed_by ch tk' ++ owed_in (delete t tasks) ch.
Proof. intros H. rewrite <- insert_delete_eq. apply owed_insert, lookup_delete_eq. Qed.

Lemma owed_absent ch chs : ch ∉ chs -> List.filter (Pos.eqb ch) chs = [].
Proof.
  induction chs as [|x chs IH]; simpl; intros H; [done|]. destruct (Pos.eqb_spec ch x) as [->|]; [destruct H; by left|].
  apply IH. intros Hin. apply H. by right.
Qed.

Lemma owed_once ch chs : NoDup chs -> ch ∈ chs -> List.filter (Pos.eqb ch) chs = [ch].
Proof.
  induction 1 as [|x chs Hx Hn IH]; intros Hin; [by apply elem_of_nil in Hin|]. simpl. destruct (Pos.eqb_spec ch x) as [->|Hne].
  - by rewrite owed_absent.
  - apply IH. by apply elem_of_cons in Hin as [->|].
Qed.

(** The channel of a subscriber was sent, or is owed, exactly the events of the log. *)
Record told_ok (s : PlanStore) : Prop := {
  to_known : forall ch, owed s ch <> [] -> (ch < st_nextChan s)%positive;
  to_told : st_badSend s = false -> forall id e k ch, st_entries s !! id = Some e -> en_subscribers e !! k = Some ch ->
    (length (en_Events e) < planEventMaxLog)%nat ->
    exists c, st_chans s !! ch = Some c /\ ch_sent c ++ owed s ch ≡ₚ en_Events e
}.

(** Steps that only drop entries or subscribers, close channels or receive. *)
Lemma told_less s s' : told_ok s -> st_tasks s' = st_tasks s -> st_nextChan s' = st_nextChan s -> st_badSend s' = st_badSend s ->
  (forall id e k ch, st_entries s' !! id = Some e -> en_subscribers e !! k = Some ch ->
     exists e0, st_entries s !! id = Some e0 /\ en_subscribers e0 !! k = Some ch /\ en_Events e0 = en_Events e) ->
  (forall ch c, st_chans s !! ch = Some c -> exists c', st_chans s' !! ch = Some c' /\ ch_sent c' = ch_sent c) -> told_ok s'.
Proof.
  intros [H1 H2] E1 E2 E3 He Hc. split; unfold owed in *; rewrite E1, ?E2; [done|].
  intros Hb id e k ch Hid Hk Hl. destruct (He id e k ch Hid Hk) as (e0 & H3 & H4 & H5). rewrite E3 in Hb. rewrite <- H5 in *.
  destruct (H2 Hb id e0 k ch H3 H4 Hl) as (c & Hch & Hp). destruct (Hc ch c Hch) as (c' & Hc' & E). exists c'. by rewrite E.
Qed.

Lemma close_chan_sent ch s x c : st_chans s !! x = Some c -> exists c', st_chans (close_chan ch s) !! x = Some c' /\ ch_sent c' = ch_sent c.
Proof.
  intros Hx. unfold close_chan. destruct (st_chans s !! ch) as [c0|] eqn:E; [|by exists c]. case_if; [by exists c|]. simpl.
  destruct (decide (ch = x)) as [<-|Hne]; [rewrite lookup_insert_eq; simplify_eq; by eexists|rewrite lookup_insert_ne by done; by exists c].
Qed.

Lemma close_all_sent chs s x c : st_chans s !! x = Some c ->
  (exists c', st_chans (close_all chs s) !! x = Some c' /\ ch_sent c' = ch_sent c).
Proof.
  intros Hx. induction chs as [|ch chs IH]; [by exists c|]. destruct IH as (c1 & H1 & E1). simpl.
  destruct (close_chan_sent ch _ x c1 H1) as (c2 & H2 & E2). exists c2. split; [done|congruence].
Qed.

Lemma close_all_badSend chs s : st_badSend (close_all chs s) = st_badSend s.
Proof.
  induction chs as [|ch chs IH]; [done|]. simpl. unfold close_chan. destruct (st_chans _ !! ch) as [c|]; [|done]. by case_if.
Qed.

Lemma told_close ch s : told_ok s -> told_ok (close_chan ch s).
Proof.
  intros Hs. destruct (close_all_frame [ch] s) as (G1 & G2 & G3 & _). pose proof (close_all_badSend [ch] s) as G4.
  change (close_all [ch] s) with (close_chan ch s) in *. apply (told_less s); try done.
  - rewrite G1. intros id e k x Hx Hk. by exists e.
  - intros x c. apply close_chan_sent.
Qed.

Lemma told_close_all chs s : told_ok s -> told_ok (close_all chs s).
Proof. intros Hs. induction chs as [|ch chs IH]; [done|]. by apply told_close. Qed.

Lemma told_entries s f : told_ok s ->
  (forall id e k ch, f (st_entries s) !! id = Some e -> en_subscribers e !! k = Some ch ->
     exists e0, st_entries s !! id = Some e0 /\ en_subscribers e0 !! k = Some ch /\ en_Events e0 = en_Events e) ->
  told_ok (set_entries f s).
Proof. intros Hs Hf. apply (told_less s); try done. intros ch c Hc. by exists c. Qed.

Lemma told_order o s : told_ok s -> told_ok (set_order o s).
Proof. intros [H1 H2]. by split. Qed.

Lemma told_delete id s : told_ok s -> told_ok (deleteLocked id s).
Proof.
  intros Hs. unfold deleteLocked. destruct (st_entries s !! id) as [e|]; [|done]. apply told_order, told_entries; [by apply told_close_all|].
  intros x e0 k ch [_ Hx]%lookup_delete_Some Hk. by exists e0.
Qed.

Lemma told_evict fuel s : told_ok s -> told_ok (evict_rounds fuel s).
Proof.
  revert s. induction fuel as [|fuel IH]; intros s Hs; cbn [evict_rounds]; [done|]. case_if; [|done].
  destruct (List.find (evictable s) (st_order s)) as [id|].
  - apply IH, told_order, told_entries; [done|]. intros x e0 k ch [_ Hx]%lookup_delete_Some Hk. by exists e0.
  - destruct (st_order s); [done|]. by apply told_delete, told_order.
Qed.

Section Told.
Context (it : MapIter).

(** A new task owes each channel [new ch], and the logs grow by the same events. *)
Lemma told_spawn s tk e' id : owned_ok s -> told_ok s ->
  (forall ch, owed_by ch tk <> [] -> (ch < st_nextChan s)%positive) ->
  (forall id' e k ch, <[id := e']> (st_entries s) !! id' = Some e -> en_subscribers e !! k = Some ch -> (length (en_Events e) < planEventMaxLog)%nat ->
     exists e0 k0, st_entries s !! id' = Some e0 /\ en_subscribers e0 !! k0 = Some ch /\ (length (en_Events e0) < planEventMaxLog)%nat /\
     en_Events e = en_Events e0 ++ owed_by ch tk) ->
  told_ok (spawn tk (set_entries <[id := e']> s)).
Proof.
  intros Ho [H1 H2] Hk He. assert (st_tasks s !! st_nextTask s = None) as Hn.
  { apply eq_None_not_Some. intros [x Hx]. apply (ow_task _ Ho) in Hx. lia. }
  split; simpl.
  - intros ch Hne. destruct (owed_by ch tk) eqn:E; [|apply Hk; by rewrite E]. apply H1. intros Hz. apply Hne.
    apply Permutation_nil_r. unfold owed. cbn [st_tasks spawn set_entries]. rewrite owed_insert by done. rewrite E. unfold owed in Hz. by rewrite Hz.
  - intros Hb id' e k ch Hid Hsub Hl. destruct (He id' e k ch Hid Hsub Hl) as (e0 & k0 & H3 & H4 & H5 & ->).
    destruct (H2 Hb id' e0 k0 ch H3 H4 H5) as (c & Hc & Hp). exists c. split; [done|].
    unfold owed. cbn [st_tasks spawn set_entries]. rewrite owed_insert by done. rewrite <- Hp. unfold owed. solve_Permutation.
Qed.

Lemma owned_subs_chan s id e k ch : owned_ok s -> st_entries s !! id = Some e -> en_subscribers e !! k = Some ch -> (ch < st_nextChan s)%positive.
Proof. intros Hs He Hk. destruct (ow_open _ Hs (BySub id k) ch) as (c & Hc & _); [by exists e|]. by eapply (ow_chan _ Hs). Qed.

Lemma fan_chans s id e n : owned_ok s -> st_entries s !! id = Some e ->
  NoDup (mrange it n (en_subscribers e)).*2 /\ (forall ch, ch ∈ (mrange it n (en_subscribers e)).*2 <-> exists k, en_subscribers e !! k = Some ch).
Proof.
  intros Hs He. split.
  - apply NoDup_chans; [apply (NoDup_fmap_1 fst), NoDup_fst_mrange|]. intros k1 k2 ch H1%elem_of_mrange H2%elem_of_mrange.
    assert (BySub id k1 = BySub id k2) as H by (eapply (ow_unique _ Hs _ _ ch); by exists e). by simplify_eq.
  - intros ch. rewrite list_elem_of_fmap. split.
    + intros ([k x] & -> & Hin%elem_of_mrange). by exists k.
    + intros [k Hk]. exists (k, ch). by rewrite elem_of_mrange.
Qed.

Lemma told_publish id ev s : owned_ok s -> told_ok s -> told_ok (Publish it id ev s).
Proof.
  intros Ho Hs. unfold Publish. destruct (st_entries s !! id) as [e|] eqn:He; [|done].
  destruct (fan_chans s id e 43 Ho He) as [Hn Hin]. apply told_spawn; [done|done| |].
  - intros ch Hne. simpl in Hne. destruct (decide (ch ∈ (mrange it 43 (en_subscribers e)).*2)) as [[k Hk]%Hin|Hx]; [by eapply owned_subs_chan|].
    by rewrite owed_absent in Hne.
  - intros id' x k ch Hx Hk Hl. destruct (decide (id = id')) as [<-|Hne].
    + rewrite lookup_insert_eq in Hx. simplify_eq. exists e, k. simpl in *. split; [done|split; [done|]].
      destruct (Nat.ltb_spec (length (en_Events e)) planEventMaxLog) as [Hlt|Hge]; [|lia]. split; [done|].
      rewrite owed_once; [done|done|]. apply Hin. by exists k.
    + rewrite lookup_insert_ne in Hx by done. exists x, k. do 3 (split; [done|]). simpl. rewrite owed_absent; [by rewrite app_nil_r|].
      intros [k' Hk']%Hin. assert (BySub id k' = BySub id' k) as H; [|by simplify_eq]. eapply (ow_unique _ Ho _ _ ch); [by exists e|by exists x].
Qed.

Lemma told_complete id now r s : owned_ok s -> told_ok s -> told_ok (Complete it id now r s).
Proof.
  intros Ho Hs. unfold Complete. destruct (st_entries s !! id) as [e|] eqn:He; [|done].
  destruct (fan_chans s id e 44 Ho He) as [Hn Hin]. apply told_spawn; [done|done| |].
  - intros ch Hne. simpl in Hne. destruct (decide (ch ∈ (mrange it 44 (en_subscribers e)).*2)) as [[k Hk]%Hin|Hx]; [by eapply owned_subs_chan|].
    by rewrite owed_absent in Hne.
  - intros id' x k ch Hx Hk Hl. destruct (decide (id = id')) as [<-|Hne].
    + rewrite lookup_insert_eq in Hx. by simplify_eq.
    + rewrite lookup_insert_ne in Hx by done. exists x, k. do 3 (split; [done|]). simpl. rewrite owed_absent; [by rewrite app_nil_r|].
      intros [k' Hk']%Hin. assert (BySub id k' = BySub id' k) as H; [|by simplify_eq]. eapply (ow_unique _ Ho _ _ ch); [by exists e|by exists x].
Qed.

Lemma told_subscribe id now s : owned_ok s -> told_ok s -> told_ok (Subscribe id now s).1.
Proof.
  intros Ho Hs. unfold Subscribe. destruct (st_entries s !! id) as [e|] eqn:He; [|done]. case_if; [done|]. case_if; [by apply told_delete|].
  cbn [fst]. destruct Hs as [H1 H2].
  assert (st_tasks s !! st_nextTask s = None) as Hn.
  { apply eq_None_not_Some. intros [x Hx]. apply (ow_task _ Ho) in Hx. lia. }
  assert (owed s (st_nextChan s) = []) as Hfresh.
  { destruct (owed s (st_nextChan s)) eqn:Eo; [done|]. assert (st_nextChan s < st_nextChan s)%positive; [|lia]. apply H1. by rewrite Eo. }
  set (tk := Replay _ _ _). split; simpl.
  - intros ch Hne. destruct (decide (st_nextChan s = ch)) as [<-|Hd]; [lia|]. assert (ch < st_nextChan s)%positive; [|lia].
    apply H1. intros Hz. apply Hne. apply Permutation_nil_r. unfold owed. cbn [st_tasks spawn set_entries alloc_chan]. rewrite owed_insert by done.
    unfold tk, owed in *. simpl. by rewrite decide_False, Hz.
  - intros Hb id' x k ch Hx Hk Hl. unfold owed. cbn [st_tasks spawn set_entries alloc_chan].
    assert (forall e0 k0, st_entries s !! id' = Some e0 -> en_subscribers e0 !! k0 = Some ch -> (length (en_Events e0) < planEventMaxLog)%nat -> en_Events x = en_Events e0 ->
      exists c, <[st_nextChan s := new_chan]> (st_chans s) !! ch = Some c /\ ch_sent c ++ owed_in (<[st_nextTask s := tk]> (st_tasks s)) ch ≡ₚ en_Events x) as Hold.
    { intros e0 k0 H3 H4 H5 Eev. pose proof (owned_subs_chan _ _ _ _ _ Ho H3 H4) as Hlt. destruct (H2 Hb id' e0 k0 ch H3 H4 H5) as (c & Hc & Hp).
      exists c. rewrite lookup_insert_ne by lia. split; [done|]. rewrite owed_insert by done. unfold tk. simpl. rewrite decide_False by lia.
      by rewrite Eev. }
    destruct (decide (id = id')) as [<-|Hne].
    + rewrite lookup_insert_eq in Hx. simplify_eq. simpl in Hk, Hl. destruct (negb (String.eqb (en_Status e) "running")); [by eapply Hold|].
      destruct (decide (en_nextSubID e = k)) as [<-|Hk'].
      * rewrite lookup_insert_eq in Hk. simplify_eq. exists new_chan. rewrite lookup_insert_eq. split; [done|].
        rewrite owed_insert by done. unfold tk. simpl. rewrite decide_True by done. unfold owed in Hfresh. by rewrite Hfresh, app_nil_r.
      * rewrite lookup_insert_ne in Hk by done. by eapply Hold.
    + rewrite lookup_insert_ne in Hx by done. by eapply Hold.
Qed.

(** A task that goes on, or ends, after one send. *)
Lemma told_move s s' : told_ok s -> st_entries s' = st_entries s -> st_nextChan s' = st_nextChan s ->
  (st_badSend s' = false -> st_badSend s = false) ->
  (forall x, owed s' x <> [] -> owed s x <> []) ->
  (st_badSend s' = false -> forall id e k x c, st_entries s !! id = Some e -> en_subscribers e !! k = Some x ->
     st_chans s !! x = Some c -> (length (ch_sent c) < planEventMaxLog)%nat ->
     exists c', st_chans s' !! x = Some c' /\ ch_sent c' ++ owed s' x ≡ₚ ch_sent c ++ owed s x) -> told_ok s'.
Proof.
  intros [H1 H2] E1 E2 Hb Ho Hm. split; [intros x Hx; rewrite E2; by apply H1, Ho|].
  intros Hb' id e k x He Hk Hl. rewrite E1 in He. destruct (H2 (Hb Hb') id e k x He Hk Hl) as (c & Hc & Hp).
  assert (length (ch_sent c) < planEventMaxLog)%nat as Hlt.
  { apply Permutation_length in Hp. rewrite length_app in Hp. lia. }
  destruct (Hm Hb' id e k x c He Hk Hc Hlt) as (c' & Hc' & Hp'). exists c'. split; [done|]. by rewrite Hp'.
Qed.

Lemma owed_end t tk tasks x : tasks !! t = Some tk -> owed_in (delete t tasks) x <> [] -> owed_in tasks x <> [].
Proof.
  intros Ht Hne Hz. apply Hne. pose proof (owed_delete t tk tasks x Ht) as Hp. rewrite Hz in Hp. symmetry in Hp. apply Permutation_nil_r in Hp.
  by apply app_eq_nil in Hp as [_ ?].
Qed.

Lemma owed_less t tk tk' tasks x : tasks !! t = Some tk -> (owed_by x tk' <> [] -> owed_by x tk <> []) ->
  owed_in (<[t := tk']> tasks) x <> [] -> owed_in tasks x <> [].
Proof.
  intros Ht Hl Hne Hz. apply Hne. pose proof (owed_delete t tk tasks x Ht) as Hp. rewrite Hz in Hp. symmetry in Hp. apply Permutation_nil_r in Hp.
  apply app_eq_nil in Hp as [Hp1 Hp2]. apply Permutation_nil_r. rewrite (owed_update t tk) by done. rewrite Hp2, app_nil_r.
  destruct (owed_by x tk') as [|ev l]; [done|]. by destruct Hl.
Qed.

Lemma registered_open s id e k x c : owned_ok s -> st_entries s !! id = Some e -> en_subscribers e !! k = Some x -> st_chans s !! x = Some c -> ch_closed c = false.
Proof. intros Ho He Hk Hc. destruct (ow_open _ Ho (BySub id k) x) as (c' & Hc' & Hop); [by exists e|]. congruence. Qed.

Lemma told_end t tk s : told_ok s -> owned_ok s -> st_tasks s !! t = Some tk ->
  (forall id e k x, st_entries s !! id = Some e -> en_subscribers e !! k = Some x -> owed_by x tk = []) -> told_ok (set_tasks (delete t) s).
Proof.
  intros Hs Ho Ht Hx. apply (told_move s); try done.
  - intros x. by eapply owed_end.
  - intros _ id e k x c He Hk Hc _. exists c. split; [done|]. unfold owed. simpl. rewrite (owed_delete t tk (st_tasks s)) by done.
    by rewrite (Hx id e k x).
Qed.

Lemma told_send t tk tk' ch c ev s : told_ok s -> st_tasks s !! t = Some tk -> st_chans s !! ch = Some c ->
  (forall x, owed_by x tk ≡ₚ (if decide (ch = x) then [ev] else []) ++ owed_by x tk') ->
  told_ok (set_tasks <[t := tk']> (offer ch c ev s)).
Proof.
  intros Hs Ht Hc Hx.
  assert (st_tasks (offer ch c ev s) = st_tasks s /\ st_entries (offer ch c ev s) = st_entries s /\ st_nextChan (offer ch c ev s) = st_nextChan s /\
    st_badSend (offer ch c ev s) = st_badSend s) as (E1 & E2 & E3 & E4) by (unfold offer; by case_if).
  apply (told_move s); simpl; rewrite ?E2, ?E3, ?E4; try done.
  - intros x. unfold owed. simpl. rewrite E1. apply (owed_less t tk); [done|]. intros Hne Hz. pose proof (Hx x) as Hp. rewrite Hz in Hp.
    symmetry in Hp. apply Permutation_nil_r, app_eq_nil in Hp as [_ ?]. done.
  - intros _ id e k x cx He Hk Hcx Hl. unfold owed. simpl. rewrite E1.
    assert (owed_in (st_tasks s) x ≡ₚ owed_by x tk ++ owed_in (delete t (st_tasks s)) x) as Hp by by apply owed_delete.
    pose proof (owed_update t tk tk' (st_tasks s) x Ht) as Hu. unfold offer.
    destruct (decide (ch = x)) as [<-|Hne].
    + assert (cx = c) as -> by congruence. assert (chan_full c = false) as ->.
      { unfold chan_full. apply Nat.leb_gt. lia. }
      simpl. rewrite lookup_insert_eq. eexists. split; [done|]. simpl. rewrite Hu, Hp, (Hx ch), decide_True by done. solve_Permutation.
    + exists cx. split; [case_if; [done|simpl; by rewrite lookup_insert_ne]|]. rewrite Hu, Hp, (Hx x), decide_False by done. done.
Qed.

Lemma told_run t s s' : owned_ok s -> told_ok s -> run_task t s = Some s' -> told_ok s'.
Proof.
  intros Ho Hs. unfold run_task. destruct (st_tasks s !! t) as [[ch evs completed|[|ch chs] ev closing]|] eqn:Ht; [| | |done].
  - destruct (st_chans s !! ch) as [c|] eqn:Hc; [|done]. destruct evs as [|ev evs].
    + intros [= <-]. assert (told_ok (set_tasks (delete t) s)) as He.
      { apply (told_end t _ s Hs Ho Ht). intros id e k x _ _. simpl. by destruct (decide (ch = x)). }
      case_if; [by apply told_close|done].
    + destruct (ch_closed c) eqn:Ec.
      * intros [= <-]. apply (told_end t _ s Hs Ho Ht). intros id e k x He Hk. simpl. destruct (decide (ch = x)) as [<-|]; [|done].
        pose proof (registered_open _ _ _ _ _ _ Ho He Hk Hc). congruence.
      * case_if; [done|]. intros [= <-]. eapply told_send; [done|exact Ht|done|]. intros x. simpl. by destruct (decide (ch = x)).
  - intros [= <-]. by apply (told_end t _ s Hs Ho Ht).
  - destruct (st_chans s !! ch) as [c|] eqn:Hc; [|done]. destruct (ch_closed c).
    + intros [= <-]. destruct Hs as [H1 _]. split; [|done]. intros x Hx. apply H1. by eapply owed_end.
    + intros [= <-]. assert (told_ok (set_tasks <[t := Fanout chs ev closing]> (offer ch c ev s))) as Hm.
      { eapply told_send; [done|exact Ht|done|]. intros x. simpl. destruct (Pos.eqb_spec x ch) as [->|Hne]; [by rewrite decide_True|].
        by rewrite decide_False. }
      case_if; [by apply told_close|done].
Qed.

Lemma told_step op s s' : owned_ok s -> told_ok s -> store_step it op s = Some s' -> told_ok s'.
Proof.
  intros Ho Hs. destruct op as [id now|id now|id now|id k|id ev|id now r| |t|ch]; simpl.
  - destruct (st_entries s !! id); [done|]. case_if; [done|]. intros [= <-]. unfold Create. case_if; [done|].
    pose proof (told_evict (S (length (st_order s))) s Hs) as [H1 H2]. apply told_order. split; [exact H1|]. simpl. intros Hb id' e k ch He Hk.
    destruct (decide (id = id')) as [<-|Hne]; [rewrite lookup_insert_eq in He; by simplify_eq|]. rewrite lookup_insert_ne in He by done. by eapply H2.
  - intros [= <-]. unfold Get. destruct (st_entries s !! id); [|done]. case_if; [by apply told_delete|done].
  - intros [= <-]. by apply told_subscribe.
  - intros [= <-]. unfold Unsubscribe. destruct (st_entries s !! id) as [e|] eqn:He; [|done]. destruct (en_subscribers e !! k) as [ch|]; [|done].
    apply told_close, told_entries; [done|]. intros x e0 k' ch' Hx Hk. destruct (decide (id = x)) as [<-|Hne].
    + rewrite lookup_insert_eq in Hx. simplify_eq. simpl in Hk. apply lookup_delete_Some in Hk as [_ Hk]. by exists e.
    + rewrite lookup_insert_ne in Hx by done. by exists e0.
  - intros [= <-]. by apply told_publish.
  - intros [= <-]. by apply told_complete.
  - intros [= <-]. unfold Close. case_if; [done|]. set (chs := map_to_list (st_entries s) ≫= _).
    apply told_entries; [apply told_close_all; destruct Hs as [H1 H2]; by split|].
    intros x e k ch Hx Hk. rewrite lookup_fmap in Hx. destruct (st_entries (close_all chs (set_shut s)) !! x); [|done]. by simplify_eq/=.
  - by apply told_run.
  - unfold receive. destruct (st_chans s !! ch) as [c|] eqn:Hc; [|done]. case_if; [|done]. intros [= <-]. apply (told_less s); try done.
    + intros id e k x He Hk. by exists e.
    + intros x cx Hx. simpl. destruct (decide (ch = x)) as [<-|Hne]; [rewrite lookup_insert_eq; simplify_eq; by eexists|].
      rewrite lookup_insert_ne by done. by exists cx.
Qed.

(** C34: A subscriber of a running plan misses nothing: unless some publication has panicked,
    whenever it joined and however the sends of replays and publications interleave, what
    its channel was sent together with what tasks still owe it is the log of the plan, each
    event once (in some order), as long as the log has room. *)
Theorem subscriber_told s : store_reachable it s -> st_badSend s = false ->
  forall id e k ch, st_entries s !! id = Some e -> en_subscribers e !! k = Some ch -> (length (en_Events e) < planEventMaxLog)%nat ->
  exists c, st_chans s !! ch = Some c /\ ch_sent c ++ owed s ch ≡ₚ en_Events e.
Proof.
  intros Hr. assert (owned_ok s /\ told_ok s) as [_ [_ H]]; [|exact H]. induction Hr as [|op s s' Hr [IH1 IH2] Hstep].
  - split; [apply owned_init|]. split; simpl.
    + intros ch Hne. by destruct Hne.
    + intros _ id e k ch He. by rewrite lookup_empty in He.
  - split; [by eapply owned_step|by eapply told_step].
Qed.
End Told.

(** ** Runs *)

Fixpoint store_run (it : MapIter) (l : list store_op) (s : PlanStore) : option PlanStore :=
  match l with
  | [] => Some s
  | op :: l => s' ← store_step it op s; store_run it l s'
  end.

Lemma store_run_reachable it l s s' : store_reachable it s -> store_run it l s = Some s' -> store_reachable it s'.
Proof.
  revert s. induction l as [|op l IH]; intros s Hr Hs; simpl in Hs; [by simplify_eq|].
  destruct (store_step it op s) as [s1|] eqn:E; [|done]. eapply IH; [|exact Hs]. by eapply store_next.
Qed.

Definition demo_ev (i : Z) : PlanEvent := StepStart i "a" "find".

Definition demo_ops : list store_op :=
  [OpCreate "p" 0; OpPublish "p" (demo_ev 0); OpTask 1; OpSubscribe "p" 1; OpPublish "p" (demo_ev 1); OpTask 3].
Definition demo_store : PlanStore := default NewPlanStore (store_run iter_canonical demo_ops NewPlanStore).

Lemma demo_store_reachable : store_reachable iter_canonical demo_store.
Proof.
  eapply store_run_reachable; [apply store_init|]. unfold demo_store. destruct (store_run iter_canonical demo_ops NewPlanStore) as [s|] eqn:E; [exact E|].
  apply (f_equal (fun o => match o with Some _ => true | None => false end)) in E. vm_compute in E. discriminate E.
Qed.

Lemma store_closes_once_witness : st_badClose demo_store = false /\ open_chan demo_store 1.
Proof.
  destruct (store_closes_once iter_canonical demo_store demo_store_reachable) as (H1 & H2 & _). split; [exact H1|].
  apply (H2 "p" (default (new_entry 0) (st_entries demo_store !! "p")) 0); vm_compute; reflexivity.
Defined.

Lemma store_bounded_witness : (size (st_entries demo_store) <= planStoreMaxSize)%nat /\ st_order demo_store = ["p"].
Proof.
  split; [|vm_compute; reflexivity]. apply (store_bounded iter_canonical). exact demo_store_reachable.
Defined.

(** The live event has overtaken the replay. *)
Lemma subscriber_told_witness : exists c, st_chans demo_store !! 1%positive = Some c /\ ch_sent c = [demo_ev 1] /\
  owed demo_store 1 = [demo_ev 0] /\ ch_sent c ++ owed demo_store 1 ≡ₚ [demo_ev 0; demo_ev 1].
Proof.
  exists (mkChan [demo_ev 1] 0 false). split; [vm_compute; reflexivity|split; [reflexivity|split; [vm_compute; reflexivity|]]].
  destruct (subscriber_told iter_canonical demo_store demo_store_reachable) with (id := "p") (e := default (new_entry 0) (st_entries demo_store !! "p"))
    (k := 0) (ch := 1%positive) as (c & Hc & Hp); [vm_compute; reflexivity..| |].
  - vm_compute. repeat constructor.
  - assert (c = mkChan [demo_ev 1] 0 false) as -> by (vm_compute in Hc; by injection Hc).
    replace (en_Events (default (new_entry 0) (st_entries demo_store !! "p"))) with [demo_ev 0; demo_ev 1] in Hp by (vm_compute; reflexivity).
    exact Hp.
Defined.

(** A subscriber that leaves between a publication's look at the subscribers and its sends
    makes the publication panic. *)
Lemma publish_panics : exists s, store_reachable iter_canonical s /\ st_badSend s = true.
Proof.
  eexists. split.
  - eapply (store_run_reachable _ [OpCreate "p" 0; OpSubscribe "p" 1; OpTask 1; OpPublish "p" (demo_ev 0); OpUnsubscribe "p" 0; OpTask 2]);
      [apply store_init|vm_compute; reflexivity].
  - vm_compute. reflexivity.
Qed.

(** A plan that completes while a subscriber's replay is under way closes the channel under
    it: the subscriber sees only the end. *)
Lemma completion_cuts_replay : exists s c, store_reachable iter_canonical s /\ st_tasks s = ∅ /\
  st_chans s !! 1%positive = Some c /\ ch_closed c = true /\ length (ch_sent c) = 1%nat /\
  (exists e, st_entries s !! "p" = Some e /\ length (en_Events e) = 2%nat).
Proof.
  eexists. eexists. split.
  - eapply (store_run_reachable _ [OpCreate "p" 0; OpPublish "p" (demo_ev 0); OpTask 1; OpSubscribe "p" 1;
      OpComplete "p" 2 (mkPlanResult "p" [] 0 1 "complete" None None); OpTask 3; OpTask 3; OpTask 2]); [apply store_init|vm_compute; reflexivity].
  - split; [vm_compute; reflexivity|split; [vm_compute; reflexivity|split; [reflexivity|split; [reflexivity|]]]].
    eexists. split; [vm_compute; reflexivity|reflexivity].
Qed.
