(* ===== verification/Triage.v ===== *)
(** Triage reports ([pkg/triage/report.go], [internal/triage]): the report, its validation,
    hash and evidence fingerprint, the engine that assembles it from its collaborators, and
    the adapters that give it the incident store, the reader and the signal store. *)

From S2P Require Import Prelude GoRuntime GoFloat GoText Types Incident Capture Detect.
Open Scope Z_scope.

(** ** The report ([pkg/triage/report.go]) *)

Record IncidentRef := mkIncidentRef { ir_ID : string; ir_Window : string }.

Record FamilyCount := mkFamilyCount { fc_Service : string; fc_Step : string; fc_ErrorCode : string; fc_Count : Z }.

Record BlastSummary := mkBlastSummary { bs_Requests : Z; bs_Users : Z; bs_Services : Z; bs_TopErrorFamilies : list FamilyCount }.

Record SuspectChange := mkSuspectChange {
  sc_DeployID : string; sc_Service : string; sc_Version : string; sc_CommitSHA : string; sc_PRURL : string;
  sc_CommitAuthor : string; sc_DeployedAt : string; sc_ErrorRateBefore : option float64; sc_ErrorRateAfter : option float64
}.

Record TraceSample := mkTraceSample { ts_TraceID : string; ts_Summary : string }.
Record SignalRef := mkSignalRef { sg_ID : string; sg_Type : string; sg_EvidenceIDs : list string }.
Record AlertRef := mkAlertRef {
  al_SignalID : string; al_AlertID : string; al_Source : string; al_Severity : string; al_Reason : string;
  al_ProviderURL : string; al_EvidenceIDs : list string
}.
Record RuntimeRef := mkRuntimeRef {
  rt_SignalID : string; rt_Subtype : string; rt_Service : string; rt_Source : string; rt_Severity : string;
  rt_Reason : string; rt_OccurredAt : string
}.
Record NextCheck := mkNextCheck { nc_ID : string; nc_Prompt : string }.

Record Report := mkReport {
  rp_SchemaVersion : string;
  rp_IncidentRef : IncidentRef;
  rp_BlastSnapshot : BlastSummary;
  rp_FirstFailure : string;
  rp_SuspectChange : option SuspectChange;
  rp_SampleTraces : list TraceSample;
  rp_Signals : list SignalRef;
  rp_Alerts : list AlertRef;
  rp_Runtime : list RuntimeRef;
  rp_NextChecks : list NextCheck;
  rp_Confidence : string;
  rp_GeneratedAt : string;
  rp_PlanRunID : string;
  rp_ReportHash : string;
  rp_EvidenceFingerprint : string
}.

Definition SchemaVersionV1 : string := "triage.v1".

Inductive ReportError := BadSchema | NoIncident | BadConfidence (c : string) | NoGeneratedAt.

Definition Validate (r : Report) : option ReportError :=
  if negb (String.eqb (rp_SchemaVersion r) SchemaVersionV1) then Some BadSchema
  else if String.eqb (ir_ID (rp_IncidentRef r)) "" then Some NoIncident
  else if negb (String.eqb (rp_Confidence r) ConfidenceLow || String.eqb (rp_Confidence r) ConfidenceMedium
                || String.eqb (rp_Confidence r) ConfidenceHigh) then Some (BadConfidence (rp_Confidence r))
  else if String.eqb (rp_GeneratedAt r) "" then Some NoGeneratedAt
  else None.

(** [json.Marshal] of a report, of a first-failure payload and of a story. *)
Record first_failure := mkFirstFailure {
  ff_OriginService : string; ff_OriginStep : string; ff_FirstFailingStep : string; ff_ErrorCode : string; ff_SampleTraceID : string }.

Class ReportJson := {
  MarshalReport : Report -> option string;
  MarshalFirstFailure : first_failure -> option string;
  MarshalStory : StoryResponse -> option string
}.

Definition without_rates (sc : SuspectChange) : SuspectChange :=
  mkSuspectChange (sc_DeployID sc) (sc_Service sc) (sc_Version sc) (sc_CommitSHA sc) (sc_PRURL sc) (sc_CommitAuthor sc)
    (sc_DeployedAt sc) None None.

(** The copy of a report its hash is taken of. *)
Definition canonical (r : Report) : Report :=
  mkReport (rp_SchemaVersion r) (rp_IncidentRef r) (rp_BlastSnapshot r) (rp_FirstFailure r)
    (without_rates <$> rp_SuspectChange r) (rp_SampleTraces r) (rp_Signals r) (rp_Alerts r) (rp_Runtime r)
    (rp_NextChecks r) (rp_Confidence r) "" "" "" "".

Definition sha256_text (s : string) : string := "sha256:" +:+ Sha256.hex (Sha256.sum256 s).

Definition CanonicalHash `{ReportJson} (r : Report) : option string := sha256_text <$> MarshalReport (canonical r).

(** The evidence of a report: what kind of thing, and its ID; empty IDs are left out. *)
Definition add (kind id : string) (s : gset string) : gset string :=
  if String.eqb id "" then s else {[kind +:+ ":" +:+ id]} ∪ s.

Definition evidence_keys (r : Report) : gset string :=
  let s := add "incident" (ir_ID (rp_IncidentRef r)) ∅ in
  let s := match rp_SuspectChange r with Some sc => add "deploy" (sc_DeployID sc) s | None => s end in
  let s := foldl (fun s x => add "signal" (sg_ID x) s) s (rp_Signals r) in
  let s := foldl (fun s x => add "alert" (al_SignalID x) s) s (rp_Alerts r) in
  let s := foldl (fun s x => add "runtime" (rt_SignalID x) s) s (rp_Runtime r) in
  foldl (fun s x => add "trace" (ts_TraceID x) s) s (rp_SampleTraces r).

Definition newline : string := String (ascii_of_nat 10) "".

(** [sort.Strings] of the keys, whatever order the range over the set gave them in. *)
Definition evidence_text (r : Report) : string := Join newline (ssort String.ltb (elements (evidence_keys r))).

Definition CanonicalEvidenceFingerprint (r : Report) : string := sha256_text (evidence_text r).

(** ** The engine ([internal/triage/engine.go], [options.go]) *)

Definition defaultWindow : Duration := 15 * Minute.

Record BuildOptions := mkBuildOptions { bo_Window : Duration; bo_Snapshot : bool; bo_Now : Time }.

Definition ParseBuildOptions (window : string) (snapshot : bool) (now : Time) : option BuildOptions :=
  if String.eqb window "" then Some (mkBuildOptions defaultWindow snapshot now) else
  w ← ParseDuration window; Some (mkBuildOptions w snapshot now).

Record IncidentSummary := mkIncidentSummary {
  is_ID : string; is_Window : string; is_Env : string; is_StartedAt : Time; is_UpdatedAt : Time;
  is_Service : string; is_Step : string; is_ErrorCode : string; is_Confidence : string; is_NextChecks : list string;
  is_Propagation : option PropagationSnapshot; is_Blast : option BlastSnapshot; is_Alerts : option AlertSnapshot;
  is_Runtime : option RuntimeSnapshot; is_SuspectDeployID : string
}.

Record FirstFailureResult := mkFirstFailureResult { fr_Payload : string; fr_SampleTraces : list TraceSample }.

Inductive TriageError :=
| ErrUnknownIncident (id : string)
| ErrLookup
| ErrBlast
| ErrStory
| ErrSignals
| ErrAlerts
| ErrNextChecks
| ErrSuspectChange
| ErrHash
| ErrInvalidReport (err : ReportError)
| TriagePanic.

Abbreviation outcome A := (TriageError + A)%type.

(** What the engine is wired to; nil is [None]. *)
Record Deps := mkDeps {
  d_Incidents : option (string -> outcome IncidentSummary);
  d_Blast : option (IncidentSummary -> BuildOptions -> outcome BlastSummary);
  d_Story : option (IncidentSummary -> BuildOptions -> outcome FirstFailureResult);
  d_Signals : option (IncidentSummary -> BuildOptions -> outcome (list SignalRef));
  d_Alerts : option (IncidentSummary -> BuildOptions -> outcome (list AlertRef));
  d_NextChecks : option (IncidentSummary -> outcome (list NextCheck));
  d_Deploy : option (IncidentSummary -> BuildOptions -> outcome (option SuspectChange))
}.

Record Engine := mkEngine {
  e_Incidents : string -> outcome IncidentSummary;
  e_Blast : IncidentSummary -> BuildOptions -> outcome BlastSummary;
  e_Story : IncidentSummary -> BuildOptions -> outcome FirstFailureResult;
  e_Signals : IncidentSummary -> BuildOptions -> outcome (list SignalRef);
  e_Alerts : option (IncidentSummary -> BuildOptions -> outcome (list AlertRef));
  e_NextChecks : IncidentSummary -> outcome (list NextCheck);
  e_Deploy : option (IncidentSummary -> BuildOptions -> outcome (option SuspectChange))
}.

Definition NewEngine (d : Deps) : option Engine :=
  match d_Incidents d, d_Blast d, d_Story d, d_Signals d, d_NextChecks d with
  | Some i, Some b, Some s, Some g, Some n => Some (mkEngine i b s g (d_Alerts d) n (d_Deploy d))
  | _, _, _, _, _ => None
  end.

Definition alertsFromSnapshot (s : option AlertSnapshot) : list AlertRef * bool :=
  match s ≫= als_Latest with
  | None => ([], false)
  | Some latest =>
    ((fun m =>
        let ids := if (length (ma_EvidenceIDs m) =? 0)%nat && negb (String.eqb (ma_SignalID m) "")
                   then [ma_SignalID m] else ma_EvidenceIDs m in
        mkAlertRef (ma_SignalID m) (ma_AlertID m) (ma_Source m) (ma_Severity m) (ma_Reason m) (ma_ProviderURL m) ids)
       <$> ae_Matches latest, true)
  end.

Definition runtimeFromSnapshot (s : option RuntimeSnapshot) : list RuntimeRef :=
  match s with
  | None => []
  | Some s =>
    (fun m => mkRuntimeRef (re_SignalID m) (re_Subtype m) (re_Service m) (re_Source m) (re_Severity m) (re_Reason m)
                (if IsZero (re_OccurredAt m) then "" else FormatRFC3339Nano (re_OccurredAt m))) <$> rs_Matches s
  end.

Definition with_hashes (r : Report) (hash fingerprint : string) : Report :=
  mkReport (rp_SchemaVersion r) (rp_IncidentRef r) (rp_BlastSnapshot r) (rp_FirstFailure r) (rp_SuspectChange r)
    (rp_SampleTraces r) (rp_Signals r) (rp_Alerts r) (rp_Runtime r) (rp_NextChecks r) (rp_Confidence r)
    (rp_GeneratedAt r) (rp_PlanRunID r) hash fingerprint.

Definition bind {A B} (o : outcome A) (f : A -> outcome B) : outcome B := match o with inl e => inl e | inr a => f a end.
Notation "'let?' x ':=' o 'in' f" := (bind o (fun x => f)) (at level 10, x pattern, o at level 100, f at level 200).

Definition Build `{ReportJson} (e : Engine) (now : Time) (incidentID : string) (opts : BuildOptions) : outcome Report :=
  let? inc := e_Incidents e incidentID in
  let opts := if bo_Snapshot opts then mkBuildOptions (bo_Window opts) true (is_UpdatedAt inc) else opts in
  let? blast := e_Blast e inc opts in
  let? story := e_Story e inc opts in
  let? sigs := e_Signals e inc opts in
  let '(alerts, fromSnapshot) := alertsFromSnapshot (is_Alerts inc) in
  let? alerts := match e_Alerts e with
                 | Some q => if fromSnapshot then inr alerts else q inc opts
                 | None => inr alerts
                 end in
  let? checks := e_NextChecks e inc in
  let? suspect := match e_Deploy e with Some q => q inc opts | None => inr None end in
  let r := mkReport SchemaVersionV1 (mkIncidentRef (is_ID inc) (DurationString (bo_Window opts))) blast (fr_Payload story)
             suspect (fr_SampleTraces story) sigs alerts (runtimeFromSnapshot (is_Runtime inc)) checks (is_Confidence inc)
             (FormatRFC3339Nano now) "" "" "" in
  match CanonicalHash r with
  | None => inl ErrHash
  | Some hash =>
    let r := with_hashes r hash (CanonicalEvidenceFingerprint r) in
    match Validate r with
    | Some err => inl (ErrInvalidReport err)
    | None => inr r
    end
  end.

(** ** Adapters ([internal/triage/adapter.go]) *)

Definition defaultWindowLabel : string := "15m".

Definition suspectDeploy (ev : list Evidence) : string :=
  match List.find (fun e => String.eqb (evd_Kind e) EvidenceDeployment && negb (String.eqb (evd_DeployID e) "")) ev with
  | Some e => evd_DeployID e
  | None => ""
  end.

Definition mapConfidence (c : string) : string :=
  if String.eqb c ConfidenceHigh then ConfidenceHigh
  else if String.eqb c ConfidenceLow then ConfidenceLow
  else ConfidenceMedium.

(** The incident reader answers an incident, that there is none, or another error. *)
Inductive lookup_error := NotFound | LookupFailed.
Definition IncidentGet : Type := string -> lookup_error + Incident.

Definition summary_of (inc : Incident) : IncidentSummary :=
  let suspectID := if String.eqb (inc_SuspectDeployID inc) "" then suspectDeploy (inc_Evidence inc) else inc_SuspectDeployID inc in
  mkIncidentSummary (inc_IncidentID inc) defaultWindowLabel (inc_Env inc) (inc_StartedAt inc) (inc_UpdatedAt inc)
    (ef_Service (inc_ErrorFamily inc)) (ef_Step (inc_ErrorFamily inc)) (ef_ErrorCode (inc_ErrorFamily inc))
    (mapConfidence (inc_Confidence inc)) (inc_NextChecks inc) (inc_Propagation inc) (inc_Blast inc) (inc_Alerts inc)
    (inc_Runtime inc) suspectID.

Definition GetIncident (get : IncidentGet) (id : string) : outcome IncidentSummary :=
  match get id with
  | inl NotFound => inl (ErrUnknownIncident id)
  | inl LookupFailed => inl ErrLookup
  | inr inc => inr (summary_of inc)
  end.

(** The bounds every query of a report uses. *)
Definition bounds_end (inc : IncidentSummary) (opts : BuildOptions) : Time :=
  if IsZero (bo_Now opts) then is_UpdatedAt inc else bo_Now opts.
Definition bounds_window (opts : BuildOptions) : Duration := if bo_Window opts <=? 0 then defaultWindow else bo_Window opts.

Definition blastFilter (inc : IncidentSummary) (opts : BuildOptions) : Filter :=
  let end_ := bounds_end inc opts in
  mkFilter (is_Service inc) ∅ (is_ErrorCode inc) (TimeAdd end_ (- bounds_window opts)) end_.

Section Adapters.
Context {R : Type} `{IncidentReader R} `{ReportJson} (reader : R) (get : IncidentGet).

Definition topErrorFamilies (f : Filter) : list FamilyCount :=
  (fun row => mkFamilyCount (ef_Service (row_ErrorFamily row)) (ef_Step (row_ErrorFamily row)) (ef_ErrorCode (row_ErrorFamily row)) (row_Count row))
    <$> read_Errors reader f 5.

Definition blastSnapshotFromReader (inc : IncidentSummary) (opts : BuildOptions) : outcome BlastSummary :=
  let f := blastFilter inc opts in
  match read_BlastRadius reader f (mkBlastKey (is_Service inc) (is_Step inc) (is_ErrorCode inc)) with
  | None => inl TriagePanic
  | Some br =>
    inr (mkBlastSummary (br_AffectedRequests br) (default 0 (br_AffectedUsers br)) (br_AffectedServices br) (topErrorFamilies f))
  end.

Definition BlastSnapshotOf (inc : IncidentSummary) (opts : BuildOptions) : outcome BlastSummary :=
  match is_Blast inc ≫= bls_Latest with
  | Some bl =>
    inr (mkBlastSummary (be_AffectedRequests bl) (default 0 (be_AffectedUsers bl)) (be_AffectedServices bl)
           (topErrorFamilies (blastFilter inc opts)))
  | None => blastSnapshotFromReader inc opts
  end.

Definition firstErrorStep (p : PropagationEvidence) : string * string :=
  match List.find (fun s => String.eqb (ps_Status s) "error") (pe_Path p) with
  | Some s => (ps_Step s, ps_ErrorCode s)
  | None => ("", "")
  end.

Definition arrow : string := bytes_string [226; 134; 146]%nat.

Definition storySummaryFromPath (p : PropagationEvidence) : string :=
  match last (pe_Path p) with
  | None => ""
  | Some s => pe_OriginService p +:+ "/" +:+ pe_OriginStep p +:+ " " +:+ arrow +:+ " " +:+ ps_Step s
  end.

Definition storySummary (s : StoryResponse) (inc : IncidentSummary) : string :=
  let svc := sr_Service s in
  let step := match sr_Anchor s with Some a => sa_Step a | None => "" end in
  let code := match sr_Anchor s with Some a => sa_ErrorCode a | None => "" end in
  let given x := negb (String.eqb x "") in
  if given svc && given step && given code then svc +:+ "/" +:+ step +:+ "/" +:+ code
  else if given svc && given code then svc +:+ " " +:+ code
  else if given svc then svc +:+ " failure"
  else if given code then code
  else if given (is_Service inc) && given (is_Step inc) && given (is_ErrorCode inc)
  then is_Service inc +:+ "/" +:+ is_Step inc +:+ "/" +:+ is_ErrorCode inc
  else if given (is_Service inc) && given (is_ErrorCode inc) then is_Service inc +:+ " " +:+ is_ErrorCode inc
  else "first failure".

Definition firstFailureFromSnapshot (inc : IncidentSummary) (p : PropagationEvidence) : outcome FirstFailureResult :=
  let '(firstFailing, errCode) := firstErrorStep p in
  match MarshalFirstFailure (mkFirstFailure (pe_OriginService p) (pe_OriginStep p) firstFailing errCode (pe_SampleTraceID p)) with
  | None => inl ErrStory
  | Some raw =>
    let samples := match is_Blast inc ≫= bls_Latest with
                   | Some bl => (fun id => mkTraceSample id (if String.eqb id (pe_SampleTraceID p) then storySummaryFromPath p else ""))
                                  <$> be_SampledTraces bl
                   | None => []
                   end in
    let samples := if (length samples =? 0)%nat && negb (String.eqb (pe_SampleTraceID p) "")
                   then [mkTraceSample (pe_SampleTraceID p) (storySummaryFromPath p)] else samples in
    inr (mkFirstFailureResult raw samples)
  end.

Definition firstFailureFromReader (inc : IncidentSummary) : outcome FirstFailureResult :=
  match get (is_ID inc) with
  | inl NotFound => inr (mkFirstFailureResult "" [])
  | inl LookupFailed => inl ErrStory
  | inr upstream =>
    match inc_SampleTraces upstream with
    | [] => inr (mkFirstFailureResult "" [])
    | traceID :: _ =>
      match read_TraceStory reader traceID with
      | None => inl TriagePanic
      | Some None => inr (mkFirstFailureResult "" [])
      | Some (Some resp) =>
        match MarshalStory resp with
        | None => inl ErrStory
        | Some payload => inr (mkFirstFailureResult payload [mkTraceSample (sr_TraceID resp) (storySummary resp inc)])
        end
      end
    end
  end.

Definition FirstFailureStory (inc : IncidentSummary) (opts : BuildOptions) : outcome FirstFailureResult :=
  match is_Propagation inc ≫= pns_Latest with
  | Some p => firstFailureFromSnapshot inc p
  | None => firstFailureFromReader inc
  end.
End Adapters.

(** [signals.Filter], as far as the adapter sets it, and a store of signals. *)
Record signal_filter := mkSignalFilter { sf_Env : string; sf_Service : string; sf_Types : list string; sf_Since : Time; sf_Until : Time; sf_Limit : Z }.
Definition SignalQuery : Type := signal_filter -> QueryError + list Signal.

Definition SignalsFor (store : SignalQuery) (inc : IncidentSummary) (opts : BuildOptions) : outcome (list SignalRef) :=
  let end_ := bounds_end inc opts in
  match store (mkSignalFilter (is_Env inc) "" [] (TimeAdd end_ (- bounds_window opts)) end_ 200) with
  | inl ErrUnavailable => inr []
  | inl ErrQuery => inl ErrSignals
  | inr rows => inr ((fun s => mkSignalRef (sig_SignalID s) (sig_Type s) [sig_SignalID s]) <$> rows)
  end.

Definition NewAlertQueryAdapter_window (matchWindow : option Duration) : Duration :=
  let window := match matchWindow with Some w => if 0 <? w then w else 15 * Minute | None => 15 * Minute end in
  if 24 * Hour <? window then 24 * Hour else window.

Definition stringField (m : gmap string value) (key : string) : string := as_string (m !! key).

Definition AlertsFor (store : SignalQuery) (alertMatchWindow : Duration) (inc : IncidentSummary) (opts : BuildOptions) : outcome (list AlertRef) :=
  let end_ := bounds_end inc opts in
  let since := if IsZero (is_StartedAt inc) then TimeAdd end_ (- bounds_window opts)
               else TimeAdd (is_StartedAt inc) (- alertMatchWindow) in
  match store (mkSignalFilter (is_Env inc) (is_Service inc) [TypeAlert] since (TimeAdd end_ alertMatchWindow) 200) with
  | inl ErrUnavailable => inr []
  | inl ErrQuery => inl ErrAlerts
  | inr rows =>
    inr ((fun s => mkAlertRef (sig_SignalID s) (stringField (sig_Metadata s) "alert_id") (sig_Source s) (sig_Severity s) (sig_Reason s)
                     (stringField (sig_Metadata s) "provider_url") [sig_SignalID s]) <$> rows)
  end.

Definition NextChecksOf (inc : IncidentSummary) : outcome (list NextCheck) :=
  inr (imap (fun i prompt => mkNextCheck ("check_" +:+ Itoa (Z.of_nat i)) prompt) (is_NextChecks inc)).

Record DeployRecord := mkDeployRecord {
  dr_ID : string; dr_Service : string; dr_Version : string; dr_CommitSHA : string; dr_PRURL : string; dr_CommitAuthor : string; dr_FirstSeen : Time }.

(** The deployment store: [None] is an error. *)
Record DeployStore := mkDeployStore {
  DeploymentByID : string -> option (option DeployRecord);
  DeployErrorRate : string -> Time -> option (option float64 * option float64)
}.

Definition SuspectChangeOf (store : DeployStore) (inc : IncidentSummary) (opts : BuildOptions) : outcome (option SuspectChange) :=
  if String.eqb (is_SuspectDeployID inc) "" then inr None else
  match DeploymentByID store (is_SuspectDeployID inc) with
  | Some (Some dep) =>
    let rates := default (None, None) (DeployErrorRate store (dr_Service dep) (dr_FirstSeen dep)) in
    inr (Some (mkSuspectChange (dr_ID dep) (dr_Service dep) (dr_Version dep) (dr_CommitSHA dep) (dr_PRURL dep) (dr_CommitAuthor dep)
                 (if IsZero (dr_FirstSeen dep) then "" else FormatRFC3339Nano (dr_FirstSeen dep)) rates.1 rates.2))
  | _ => inr None
  end.

(** The wiring of the server. *)
Definition wired {R} `{IncidentReader R} `{ReportJson} (reader : R) (get : IncidentGet) (store : SignalQuery) (match_window : option Duration)
    (deploys : option DeployStore) : Engine :=
  mkEngine (GetIncident get) (BlastSnapshotOf reader) (FirstFailureStory reader get) (SignalsFor store)
    (Some (AlertsFor store (NewAlertQueryAdapter_window match_window))) NextChecksOf (SuspectChangeOf <$> deploys).

(** ** What the engine builds *)

Lemma FormatRFC3339Nano_nonempty t : FormatRFC3339Nano t <> "".
Proof.
  unfold FormatRFC3339Nano. intros H. apply (f_equal String.length) in H. rewrite !string_length_app in H. simpl in H. lia.
Qed.

Lemma mapConfidence_valid c : String.eqb (mapConfidence c) ConfidenceLow || String.eqb (mapConfidence c) ConfidenceMedium
  || String.eqb (mapConfidence c) ConfidenceHigh = true.
Proof. unfold mapConfidence. by repeat case_if. Qed.

Section Built.
Context `{J : ReportJson}.

(** The steps of [Build] that do not depend on the time it runs at. *)
Definition gather (e : Engine) (incidentID : string) (opts : BuildOptions) : outcome (string -> Report) :=
  let? inc := e_Incidents e incidentID in
  let opts := if bo_Snapshot opts then mkBuildOptions (bo_Window opts) true (is_UpdatedAt inc) else opts in
  let? blast := e_Blast e inc opts in
  let? story := e_Story e inc opts in
  let? sigs := e_Signals e inc opts in
  let '(alerts, fromSnapshot) := alertsFromSnapshot (is_Alerts inc) in
  let? alerts := match e_Alerts e with
                 | Some q => if fromSnapshot then inr alerts else q inc opts
                 | None => inr alerts
                 end in
  let? checks := e_NextChecks e inc in
  let? suspect := match e_Deploy e with Some q => q inc opts | None => inr None end in
  inr (fun at_ => mkReport SchemaVersionV1 (mkIncidentRef (is_ID inc) (DurationString (bo_Window opts))) blast (fr_Payload story)
             suspect (fr_SampleTraces story) sigs alerts (runtimeFromSnapshot (is_Runtime inc)) checks (is_Confidence inc)
             at_ "" "" "").

Definition seal (r : Report) : outcome Report :=
  match CanonicalHash r with
  | None => inl ErrHash
  | Some hash =>
    let r := with_hashes r hash (CanonicalEvidenceFingerprint r) in
    match Validate r with Some err => inl (ErrInvalidReport err) | None => inr r end
  end.

Lemma Build_gather e now id opts : Build e now id opts = (let? f := gather e id opts in seal (f (FormatRFC3339Nano now))).
Proof.
  unfold Build, gather. destruct (e_Incidents e id) as [err|inc]; [done|]. cbn [bind].
  set (o := if bo_Snapshot opts then _ else _). clearbody o.
  destruct (e_Blast e inc o); [done|]. cbn [bind]. destruct (e_Story e inc o); [done|]. cbn [bind].
  destruct (e_Signals e inc o); [done|]. cbn [bind]. destruct (alertsFromSnapshot (is_Alerts inc)) as [al fs].
  destruct (match e_Alerts e with Some q => if fs then inr al else q inc o | None => inr al end); [done|]. cbn [bind].
  destruct (e_NextChecks e inc); [done|]. cbn [bind]. destruct (match e_Deploy e with Some q => q inc o | None => inr None end); done.
Qed.

(** A gathered report but for the time, and what fixes its identity. *)
Lemma gather_spec e id opts f : gather e id opts = inr f ->
  exists inc, e_Incidents e id = inr inc /\ forall at_, f at_ = mkReport SchemaVersionV1 (rp_IncidentRef (f "")) (rp_BlastSnapshot (f ""))
    (rp_FirstFailure (f "")) (rp_SuspectChange (f "")) (rp_SampleTraces (f "")) (rp_Signals (f "")) (rp_Alerts (f "")) (rp_Runtime (f ""))
    (rp_NextChecks (f "")) (is_Confidence inc) at_ "" "" "" /\ ir_ID (rp_IncidentRef (f at_)) = is_ID inc.
Proof.
  clear J. unfold gather. destruct (e_Incidents e id) as [err|inc]; [done|]. cbn [bind].
  set (o := if bo_Snapshot opts then _ else _). clearbody o.
  destruct (e_Blast e inc o); [done|]. cbn [bind]. destruct (e_Story e inc o); [done|]. cbn [bind].
  destruct (e_Signals e inc o); [done|]. cbn [bind]. destruct (alertsFromSnapshot (is_Alerts inc)) as [al fs].
  destruct (match e_Alerts e with Some q => if fs then inr al else q inc o | None => inr al end); [done|]. cbn [bind].
  destruct (e_NextChecks e inc); [done|]. cbn [bind]. destruct (match e_Deploy e with Some q => q inc o | None => inr None end); [done|].
  cbn [bind]. intros [= <-]. exists inc. by split.
Qed.

Lemma canonical_with_hashes r h fp : canonical (with_hashes r h fp) = canonical r.
Proof. done. Qed.

Lemma evidence_with_hashes r h fp : CanonicalEvidenceFingerprint (with_hashes r h fp) = CanonicalEvidenceFingerprint r.
Proof. done. Qed.

(** No collaborator answers that the report is invalid. *)
Definition checked {A} (o : outcome A) : Prop := match o with inl (ErrInvalidReport _) => False | _ => True end.

Lemma bind_checked {A B} (o : outcome A) (f : A -> outcome B) : checked o -> (forall a, checked (f a)) -> checked (bind o f).
Proof. intros Ho Hf. destruct o as [err|a]; [exact Ho|exact (Hf a)]. Qed.

Ltac checked_cases := repeat (case_match; simplify_eq/=); try exact I.

Lemma gather_checked {R} `{IncidentReader R} (reader : R) get store match_window deploys id opts :
  checked (gather (wired reader get store match_window deploys) id opts).
Proof.
  unfold gather. apply bind_checked; [simpl; unfold GetIncident; checked_cases|]. intros inc.
  set (o := if bo_Snapshot opts then _ else _). clearbody o. simpl.
  apply bind_checked; [unfold BlastSnapshotOf, blastSnapshotFromReader; checked_cases|]. intros blast.
  apply bind_checked; [unfold FirstFailureStory, firstFailureFromSnapshot, firstFailureFromReader; checked_cases|]. intros story.
  apply bind_checked; [unfold SignalsFor; checked_cases|]. intros sigs.
  destruct (alertsFromSnapshot (is_Alerts inc)) as [al fs].
  apply bind_checked; [destruct fs; unfold AlertsFor; checked_cases|]. intros alerts.
  apply bind_checked; [destruct deploys; simpl; unfold SuspectChangeOf; checked_cases|]. intros suspect. exact I.
Qed.

(** A triage report can be checked by whoever receives it: for an incident of the store,
    the wired engine answers an error of one of its collaborators or of the encoding, or a
    report that validates, is about that incident, and whose hash and evidence fingerprint
    are the ones anyone recomputes from the report itself. *)
Theorem wired_report_checks {R} `{IncidentReader R} (reader : R) get store match_window deploys now id opts inc :
  get id = inr inc -> inc_IncidentID inc <> "" ->
  match Build (wired reader get store match_window deploys) now id opts with
  | inl (ErrInvalidReport _) => False
  | inl _ => True
  | inr r => Validate r = None /\ ir_ID (rp_IncidentRef r) = inc_IncidentID inc /\
      CanonicalHash r = Some (rp_ReportHash r) /\ rp_EvidenceFingerprint r = CanonicalEvidenceFingerprint r
  end.
Proof.
  intros Hget Hid. rewrite Build_gather. set (e := wired reader get store match_window deploys).
  assert (e_Incidents e id = inr (summary_of inc)) as Hinc by (simpl; unfold GetIncident; by rewrite Hget).
  assert (checked (gather e id opts)) as Hno by apply gather_checked.
  destruct (gather e id opts) as [err|f] eqn:Eg; cbn [bind]; [by destruct err|].
  destruct (gather_spec e id opts f Eg) as (inc' & Hi & Hf). rewrite Hinc in Hi. simplify_eq.
  destruct (Hf (FormatRFC3339Nano now)) as [Hfr HID]. unfold seal.
  destruct (CanonicalHash (f (FormatRFC3339Nano now))) as [hash|] eqn:Eh; [|done].
  assert (Validate (with_hashes (f (FormatRFC3339Nano now)) hash (CanonicalEvidenceFingerprint (f (FormatRFC3339Nano now)))) = None) as Hv.
  { unfold Validate. simpl. rewrite HID, Hfr. simpl. rewrite (proj2 (String.eqb_neq _ _) Hid). rewrite mapConfidence_valid. simpl.
    by rewrite (proj2 (String.eqb_neq _ _) (FormatRFC3339Nano_nonempty now)). }
  rewrite Hv. split; [done|split; [exact HID|split; [|done]]]. exact Eh.
Qed.

Lemma Validate_with_hashes r h fp : Validate (with_hashes r h fp) = Validate r.
Proof. done. Qed.

(** A report with another time on it. *)
Definition made_at (at_ : string) (r : Report) : Report :=
  mkReport (rp_SchemaVersion r) (rp_IncidentRef r) (rp_BlastSnapshot r) (rp_FirstFailure r) (rp_SuspectChange r) (rp_SampleTraces r) (rp_Signals r)
    (rp_Alerts r) (rp_Runtime r) (rp_NextChecks r) (rp_Confidence r) at_ (rp_PlanRunID r) (rp_ReportHash r) (rp_EvidenceFingerprint r).

(** Two reports that are equal but for the time they were made. *)
Definition same_report (a b : Report) : Prop := b = made_at (rp_GeneratedAt b) a.

Lemma seal_made_at r at_ : rp_GeneratedAt r <> "" -> at_ <> "" ->
  match seal r, seal (made_at at_ r) with
  | inr r1, inr r2 => same_report r1 r2
  | inl e1, inl e2 => e1 = e2
  | _, _ => False
  end.
Proof.
  intros Hr Ha. unfold seal, CanonicalHash. change (canonical (made_at at_ r)) with (canonical r).
  destruct (MarshalReport (canonical r)) as [text|]; [|done]. cbn [fmap option_fmap option_map]. cbv zeta. rewrite !Validate_with_hashes.
  assert (Validate (made_at at_ r) = Validate r) as -> by (unfold Validate, made_at; cbn; by rewrite (proj2 (String.eqb_neq at_ "") Ha), (proj2 (String.eqb_neq _ "") Hr)).
  by destruct (Validate r).
Qed.

(** In snapshot mode a report is reproducible: built again at any later time, with the
    same collaborators, it is the same report but for the time it says it was generated, so
    its hash and its fingerprint are the same. *)
Theorem snapshot_reproducible e id now1 now2 o1 o2 :
  bo_Snapshot o1 = true -> bo_Snapshot o2 = true -> bo_Window o1 = bo_Window o2 ->
  match Build e now1 id o1, Build e now2 id o2 with
  | inr r1, inr r2 => same_report r1 r2
  | inl e1, inl e2 => e1 = e2
  | _, _ => False
  end.
Proof.
  intros H1 H2 Hw. rewrite !Build_gather. assert (gather e id o1 = gather e id o2) as -> by (unfold gather; by rewrite H1, H2, Hw).
  destruct (gather e id o2) as [err|f] eqn:Eg; [done|]. cbn [bind]. destruct (gather_spec e id o2 f Eg) as (inc & _ & Hf).
  assert (f (FormatRFC3339Nano now2) = made_at (FormatRFC3339Nano now2) (f (FormatRFC3339Nano now1))) as ->
    by (by rewrite (proj1 (Hf (FormatRFC3339Nano now2))), (proj1 (Hf (FormatRFC3339Nano now1)))).
  apply seal_made_at; [|apply FormatRFC3339Nano_nonempty]. rewrite (proj1 (Hf _)). apply FormatRFC3339Nano_nonempty.
Qed.
End Built.

(** The time range a report is evaluated over, in snapshot mode: it ends when the incident was
    last updated and starts one window before, wherever the incident started; a window that
    is not positive counts as the default. *)
Lemma snapshot_range inc opts : bo_Snapshot opts = true -> IsZero (is_UpdatedAt inc) = false ->
  let opts := if bo_Snapshot opts then mkBuildOptions (bo_Window opts) true (is_UpdatedAt inc) else opts in
  fl_Until (blastFilter inc opts) = is_UpdatedAt inc /\
  fl_Since (blastFilter inc opts) = TimeAdd (is_UpdatedAt inc) (- (if bo_Window opts <=? 0 then defaultWindow else bo_Window opts)).
Proof. intros Hs Hz. rewrite Hs. unfold blastFilter, bounds_end. simpl. by rewrite Hz. Qed.

(** ** Two reports *)

#[local] Instance quiet_reader : IncidentReader unit := {|
  read_Errors _ _ _ := []; read_BlastRadius _ _ key := Some (mkBlastRadiusResponse key "" "" 4 None 1 ["api"] []);
  read_SearchEvents _ _ _ := []; read_TraceStory _ _ := Some None; read_TraceEvents _ _ := Some None; read_ServiceStats _ _ _ _ := []
|}.

#[local] Instance plain_json : ReportJson := {|
  MarshalReport r := Some (ir_ID (rp_IncidentRef r) +:+ " " +:+ ir_Window (rp_IncidentRef r) +:+ " " +:+ rp_GeneratedAt r);
  MarshalFirstFailure f := Some (ff_OriginService f); MarshalStory s := Some (sr_TraceID s)
|}.

Definition one_incident : IncidentGet := fun id => if String.eqb id "inc_1" then inr (sample_incident "inc_1" StatusActive 3 (100 * Second)) else inl NotFound.
Definition one_signal : SignalQuery := fun f => match sf_Types f with [] => inr [sample_signal "sig_1" TypeRuntime "api" "high" 100 ∅] | _ => inr [] end.

Definition demo : Engine := wired tt one_incident one_signal None None.
Definition live (w : Duration) : BuildOptions := mkBuildOptions w false (200 * Second).
Definition frozen (w : Duration) : BuildOptions := mkBuildOptions w true (200 * Second).

Definition summary_line (o : outcome Report) : option (string * list string * list string) :=
  match o with
  | inr r => Some (ir_Window (rp_IncidentRef r), sg_ID <$> rp_Signals r, ts_TraceID <$> rp_SampleTraces r)
  | inl _ => None
  end.

Example demo_report : summary_line (Build demo (300 * Second) "inc_1" (live (15 * Minute))) = Some ("15m0s", ["sig_1"], []) /\
  Build demo 0 "inc_2" (live (15 * Minute)) = inl (ErrUnknownIncident "inc_2").
Proof. vm_compute. done. Qed.

(** A negative window is accepted and reported, but it is the default one that is evaluated. *)
Example negative_window :
  ParseBuildOptions "-5m" false 0 = Some (mkBuildOptions (- (5 * Minute)) false 0) /\
  bounds_window (live (- (5 * Minute))) = 15 * Minute /\
  summary_line (Build demo 0 "inc_1" (live (- (5 * Minute)))) = Some ("-5m0s", ["sig_1"], []).
Proof. vm_compute. done. Qed.

Lemma wired_report_checks_witness :
  one_incident "inc_1" = inr (sample_incident "inc_1" StatusActive 3 (100 * Second)) /\
  match Build demo (300 * Second) "inc_1" (live (15 * Minute)) with
  | inl (ErrInvalidReport _) => False
  | inl _ => True
  | inr r => Validate r = None /\ ir_ID (rp_IncidentRef r) = "inc_1" /\ CanonicalHash r = Some (rp_ReportHash r) /\
      rp_EvidenceFingerprint r = CanonicalEvidenceFingerprint r
  end.
Proof.
  split; [reflexivity|].
  exact (wired_report_checks tt one_incident one_signal None None (300 * Second) "inc_1" (live (15 * Minute)) _ eq_refl ltac:(discriminate)).
Defined.

Lemma snapshot_reproducible_witness :
  match Build demo 5 "inc_1" (frozen (15 * Minute)), Build demo 900 "inc_1" (mkBuildOptions (15 * Minute) true 7) with
  | inr r1, inr r2 => same_report r1 r2
  | inl e1, inl e2 => e1 = e2
  | _, _ => False
  end /\ summary_line (Build demo 5 "inc_1" (frozen (15 * Minute))) = Some ("15m0s", ["sig_1"], []).
Proof.
  split; [|vm_compute; reflexivity].
  exact (snapshot_reproducible demo "inc_1" 5 900 (frozen (15 * Minute)) (mkBuildOptions (15 * Minute) true 7) eq_refl eq_refl eq_refl).
Defined.

(** ** The evidence of a report *)

(** What a report cites: for each kind of thing, the IDs it names. *)
Inductive cites (r : Report) : string -> string -> Prop :=
| cites_incident : cites r "incident" (ir_ID (rp_IncidentRef r))
| cites_deploy sc : rp_SuspectChange r = Some sc -> cites r "deploy" (sc_DeployID sc)
| cites_signal x : x ∈ rp_Signals r -> cites r "signal" (sg_ID x)
| cites_alert x : x ∈ rp_Alerts r -> cites r "alert" (al_SignalID x)
| cites_runtime x : x ∈ rp_Runtime r -> cites r "runtime" (rt_SignalID x)
| cites_trace x : x ∈ rp_SampleTraces r -> cites r "trace" (ts_TraceID x).

Definition evidence_key (kind id : string) : string := kind +:+ ":" +:+ id.

Lemma elem_of_add k kind id s : k ∈ add kind id s <-> (id <> "" /\ k = evidence_key kind id) \/ k ∈ s.
Proof. unfold add, evidence_key. case_if; [apply String.eqb_eq in E; naive_solver|apply String.eqb_neq in E; set_solver]. Qed.

Lemma elem_of_add_all {A} (kind : string) (ids : A -> string) k (l : list A) s :
  k ∈ foldl (fun s x => add kind (ids x) s) s l <-> (exists x, x ∈ l /\ ids x <> "" /\ k = evidence_key kind (ids x)) \/ k ∈ s.
Proof.
  revert s. induction l as [|x l IH]; intros s; simpl; [set_solver|]. rewrite IH, elem_of_add. setoid_rewrite elem_of_cons. naive_solver.
Qed.

Lemma elem_of_evidence r k : k ∈ evidence_keys r <-> exists kind id, cites r kind id /\ id <> "" /\ k = evidence_key kind id.
Proof.
  unfold evidence_keys. rewrite !elem_of_add_all. split.
  - intros [(x & ? & ? & ->)|[(x & ? & ? & ->)|[(x & ? & ? & ->)|[(x & ? & ? & ->)|H]]]]; [by eauto 6 using cites..|].
    destruct (rp_SuspectChange r) as [sc|] eqn:E; rewrite ?elem_of_add, ?elem_of_empty in H; naive_solver eauto using cites.
  - intros (kind & id & [| sc E|x|x|x|x] & Hid & ->); try (by eauto 8).
    + do 4 right. destruct (rp_SuspectChange r); rewrite ?elem_of_add; auto.
    + do 4 right. rewrite E, elem_of_add. auto.
Qed.

Lemma cites_kind r kind id : cites r kind id -> has_byte ":" kind = false /\ has_byte (ascii_of_nat 10) kind = false.
Proof. by intros []. Qed.

Lemma evidence_key_inj r1 r2 k1 i1 k2 i2 : cites r1 k1 i1 -> cites r2 k2 i2 -> evidence_key k1 i1 = evidence_key k2 i2 -> k1 = k2 /\ i1 = i2.
Proof.
  intros H1%cites_kind H2%cites_kind H. apply (cut_unique ":"); [apply H1|apply H2|exact H].
Qed.

Definition one_line_ids (r : Report) : Prop := forall kind id, cites r kind id -> has_byte (ascii_of_nat 10) id = false.

Lemma evidence_text_elements r1 r2 : one_line_ids r1 -> one_line_ids r2 -> evidence_text r1 = evidence_text r2 -> evidence_keys r1 = evidence_keys r2.
Proof.
  assert (forall r, one_line_ids r -> Forall (fun s => has_byte (ascii_of_nat 10) s = false) (ssort String.ltb (elements (evidence_keys r)))) as Hline.
  { intros r Hr. apply Forall_forall. intros k. rewrite elem_of_ssort, elem_of_elements, elem_of_evidence. intros (kind & id & Hc & _ & ->).
    unfold evidence_key. rewrite !has_byte_app. rewrite (proj2 (cites_kind _ _ _ Hc)), (Hr _ _ Hc). done. }
  assert (forall r, "" ∉ ssort String.ltb (elements (evidence_keys r))) as Hne.
  { intros r. rewrite elem_of_ssort, elem_of_elements, elem_of_evidence. intros (kind & id & _ & _ & H). by destruct kind. }
  intros H1 H2. unfold evidence_text, newline. intros H. apply (f_equal (fun t => Split t (ascii_of_nat 10))) in H.
  specialize (Hline r1 H1) as L1. specialize (Hline r2 H2) as L2. pose proof (Hne r1) as N1. pose proof (Hne r2) as N2.
  assert (ssort String.ltb (elements (evidence_keys r1)) = ssort String.ltb (elements (evidence_keys r2))) as Hs.
  { destruct (ssort String.ltb (elements (evidence_keys r1))) as [|x1 l1]; destruct (ssort String.ltb (elements (evidence_keys r2))) as [|x2 l2];
      [done|rewrite (Split_Join _ (x2 :: l2)) in H by done|rewrite (Split_Join _ (x1 :: l1)) in H by done|by rewrite !Split_Join in H by done].
    - destruct N2. rewrite <- H. by left.
    - destruct N1. rewrite H. by left. }
  apply set_eq. intros k. rewrite <- !elem_of_elements, <- (elem_of_ssort String.ltb k (elements (evidence_keys r1))), Hs. by rewrite elem_of_ssort.
Qed.

(** The evidence fingerprint identifies the evidence: what it is the digest of is equal for
    two reports whose IDs span one line each if and only if they cite the same incident,
    deployment, signals, alerts, runtime events and traces, in whatever order and however
    often; and then the fingerprints are equal. *)
Theorem fingerprint_is_evidence r1 r2 : one_line_ids r1 -> one_line_ids r2 ->
  (evidence_text r1 = evidence_text r2 <-> (forall kind id, id <> "" -> cites r1 kind id <-> cites r2 kind id)) /\
  ((forall kind id, id <> "" -> cites r1 kind id <-> cites r2 kind id) -> CanonicalEvidenceFingerprint r1 = CanonicalEvidenceFingerprint r2).
Proof.
  intros H1 H2.
  assert ((forall kind id, id <> "" -> cites r1 kind id <-> cites r2 kind id) -> evidence_keys r1 = evidence_keys r2) as Hsame.
  { intros H. apply set_eq. intros k. rewrite !elem_of_evidence. naive_solver. }
  split; [split|].
  - intros Ht kind id Hid. pose proof (evidence_text_elements r1 r2 H1 H2 Ht) as He.
    assert (forall ra rb, evidence_keys ra = evidence_keys rb -> cites ra kind id -> cites rb kind id) as Hdir.
    { intros ra rb Hk Hc. assert (evidence_key kind id ∈ evidence_keys rb) as (kind' & id' & Hc' & _ & Hkey)%elem_of_evidence.
      { rewrite <- Hk. apply elem_of_evidence. eauto. }
      by destruct (evidence_key_inj _ _ _ _ _ _ Hc Hc' Hkey) as [-> ->]. }
    split; by eauto.
  - intros H. unfold evidence_text. by rewrite (Hsame H).
  - intros H. unfold CanonicalEvidenceFingerprint, evidence_text. by rewrite (Hsame H).
Qed.

Definition citing (signals : list string) (traces : list string) : Report :=
  mkReport SchemaVersionV1 (mkIncidentRef "inc_1" "15m0s") (mkBlastSummary 0 0 0 []) "" None ((fun t => mkTraceSample t "") <$> traces)
    ((fun s => mkSignalRef s TypeRuntime [s]) <$> signals) [] [] [] ConfidenceLow "now" "" "" "".

Lemma citing_one_line signals traces : Forall (fun s => has_byte (ascii_of_nat 10) s = false) (signals ++ traces) -> one_line_ids (citing signals traces).
Proof.
  intros H%Forall_app. destruct H as [Hs Ht]. rewrite Forall_forall in Hs, Ht. intros kind id Hc.
  inversion Hc as [|? [=]|x Hx|x Hx|x Hx|x Hx]; subst; [done|apply list_elem_of_fmap in Hx as (y & -> & Hy); by apply Hs|by apply elem_of_nil in Hx..|].
  apply list_elem_of_fmap in Hx as (y & -> & Hy). by apply Ht.
Qed.

Lemma fingerprint_is_evidence_witness :
  evidence_text (citing ["a"; "b"] ["t"]) = evidence_text (citing ["b"; "a"; "b"] ["t"; ""]) /\
  ~ (forall kind id, id <> "" -> cites (citing ["a"] []) kind id <-> cites (citing ["b"] []) kind id).
Proof.
  split; [vm_compute; reflexivity|]. intros H.
  pose proof (proj2 (proj1 (fingerprint_is_evidence (citing ["a"] []) (citing ["b"] [])
    (citing_one_line ["a"] [] ltac:(by repeat constructor)) (citing_one_line ["b"] [] ltac:(by repeat constructor)))) H) as He.
  vm_compute in He. discriminate He.
Defined.
