(* ===== verification/RateLimit.v ===== *)
(** The per-key rate limiter ([internal/ratelimit/ratelimit.go]): a bounded, least recently
    used store of token buckets, the key of a request, and the middleware.  The buckets are
    those of [golang.org/x/time/rate], a parameter. *)

From S2P Require Import Prelude GoRuntime GoFloat GoText.
Open Scope Z_scope.

(** ** Requests *)

(** What the middlewares read of an [http.Request]: the headers by canonical name, the session
    cookie, the form of a login and the peer's address; [None] is a form that does not parse. *)
Record HttpRequest := mkHttpRequest {
  rq_Method : string;
  rq_Header : string -> string;
  rq_Cookie : option string;
  rq_Form : option (string -> string);
  rq_RemoteAddr : string
}.

(** The host of [net.SplitHostPort]. *)
Definition SplitHost (s : string) : option string :=
  i ← LastIndexByte s ":"%char;
  if HasPrefix s "[" then
    end_ ← IndexByte s "]"%char;
    if negb (end_ + 1 =? i)%nat then None
    else if has_byte "["%char (drop_bytes 1 s) || has_byte "]"%char (drop_bytes (end_ + 1) s) then None
    else Some (take_bytes (end_ - 1) (drop_bytes 1 s))
  else
    let host := take_bytes i s in
    if has_byte ":"%char host || has_byte "["%char s || has_byte "]"%char s then None else Some host.

Example SplitHost_ex : (SplitHost <$> ["10.0.0.1:5123"; "[::1]:80"; "10.0.0.1"; "::1:80"; "[::1]"])
  = [Some "10.0.0.1"; Some "::1"; None; None; None].
Proof. vm_compute. done. Qed.

(** The token after the scheme of an Authorization header, when the scheme is Bearer. *)
Definition bearer (auth : string) : option string :=
  idx ← IndexByte auth " "%char;
  if (0 <? idx)%nat && EqualFold (take_bytes idx auth) "bearer" then Some (drop_bytes (idx + 1) auth) else None.

Definition keyFromRequest (r : HttpRequest) : string :=
  match (if String.eqb (rq_Header r "Authorization") "" then None else bearer (rq_Header r "Authorization")) with
  | Some token => token
  | None =>
    if negb (String.eqb (rq_Header r "X-Api-Key") "") then rq_Header r "X-Api-Key"
    else default (rq_RemoteAddr r) (SplitHost (rq_RemoteAddr r))
  end.

(** ** The limiter *)

Class TokenBucket (L : Type) := {
  NewLimiter : Z -> Z -> L;
  AllowN : L -> Time -> Z -> bool * L
}.

Definition maxKeys : Z := 10000.

(** A list element of the cache, which keeps its bucket while a call holds it. *)
Abbreviation element := positive.

Record Limiter (L : Type) := mkLimiter {
  lm_rps : Z;
  lm_lru : list element;
  lm_buckets : gmap string element;
  lm_heap : gmap element (string * L)
}.
Arguments mkLimiter {_}.
Arguments lm_rps {_}.
Arguments lm_lru {_}.
Arguments lm_buckets {_}.
Arguments lm_heap {_}.

Section Limiter.
Context {L : Type} `{TokenBucket L}.

Definition New (rps : Z) : option (Limiter L) :=
  if rps <=? 0 then None else Some (mkLimiter rps [] ∅ ∅).

Definition MoveToFront (el : element) (l : Limiter L) : Limiter L :=
  mkLimiter (lm_rps l) (el :: List.filter (fun x => negb (x =? el)%positive) (lm_lru l)) (lm_buckets l) (lm_heap l).

Definition PushFront (key : string) (lim : L) (l : Limiter L) : element * Limiter L :=
  let el := fresh (dom (lm_heap l)) in
  (el, mkLimiter (lm_rps l) (el :: lm_lru l) (<[key := el]> (lm_buckets l)) (<[el := (key, lim)]> (lm_heap l))).

Definition remove_oldest (l : Limiter L) : Limiter L :=
  match last (lm_lru l) with
  | None => l
  | Some oldest =>
    let buckets := match lm_heap l !! oldest with Some (key, _) => delete key (lm_buckets l) | None => lm_buckets l end in
    mkLimiter (lm_rps l) (removelast (lm_lru l)) buckets (lm_heap l)
  end.

(** The section of [Allow] under the lock: the bucket of the key. *)
Definition locate (key : string) (l : Limiter L) : element * Limiter L :=
  match lm_buckets l !! key with
  | Some el => (el, MoveToFront el l)
  | None =>
    let l := if maxKeys <=? Z.of_nat (length (lm_lru l)) then remove_oldest l else l in
    PushFront key (NewLimiter (lm_rps l) (lm_rps l)) l
  end.

(** The token is taken from the bucket after the lock is released. *)
Definition take_token (el : element) (now : Time) (l : Limiter L) : bool * Limiter L :=
  match lm_heap l !! el with
  | Some (key, lim) => let '(ok, lim) := AllowN lim now 1 in (ok, mkLimiter (lm_rps l) (lm_lru l) (lm_buckets l) (<[el := (key, lim)]> (lm_heap l)))
  | None => (true, l)
  end.

Definition Allow (l : option (Limiter L)) (key : string) (now : Time) : bool * option (Limiter L) :=
  match l with
  | None => (true, None)
  | Some l => let '(el, l) := locate key l in let '(ok, l) := take_token el now l in (ok, Some l)
  end.

Inductive limited := Next | TooManyRequests (retryAfter : string).

Definition Middleware (l : option (Limiter L)) (r : HttpRequest) (now : Time) : limited * option (Limiter L) :=
  match l with
  | None => (Next, None)
  | Some _ => let '(ok, l) := Allow l (keyFromRequest r) now in (if ok then Next else TooManyRequests "1", l)
  end.

(** ** What the limiter promises *)

(** The reference: the distinct keys of a history, most recently used first, and a bucket of
    its own for each key. *)
Definition touch (key : string) (recent : list string) : list string := key :: List.filter (fun k => negb (String.eqb k key)) recent.

Definition recency (keys : list string) : list string := foldl (fun recent key => touch key recent) [] keys.

Fixpoint run (l : option (Limiter L)) (ops : list (string * Time)) : list bool * option (Limiter L) :=
  match ops with
  | [] => ([], l)
  | (key, now) :: ops => let '(ok, l) := Allow l key now in let '(answers, l) := run l ops in (ok :: answers, l)
  end.

Fixpoint run_bucket (lim : L) (times : list Time) : list bool * L :=
  match times with
  | [] => ([], lim)
  | now :: times => let '(ok, lim) := AllowN lim now 1 in let '(answers, lim) := run_bucket lim times in (ok :: answers, lim)
  end.

Definition times_of (key : string) (ops : list (string * Time)) : list Time :=
  (List.filter (fun op => String.eqb op.1 key) ops).*2.

Definition answers_of (key : string) (ops : list (string * Time)) (answers : list bool) : list bool :=
  (List.filter (fun x => String.eqb x.1.1 key) (zip ops answers)).*2.

Definition capacity : nat := Z.to_nat maxKeys.

(** Whenever the key comes back it is among the [maxKeys] keys used last. *)
Definition hot (key : string) (ops : list (string * Time)) : Prop :=
  forall before now after, ops = before ++ (key, now) :: after -> key ∈ before.*1 ->
    key ∈ take capacity (recency before.*1).

(** The list, the map and the heap tell of the same keys. *)
Record ok (l : Limiter L) (keys : list string) : Prop := mkOk {
  ok_lru : Forall2 (fun el key => exists lim, lm_heap l !! el = Some (key, lim)) (lm_lru l) keys;
  ok_buckets : forall key el, lm_buckets l !! key = Some el <-> el ∈ lm_lru l /\ exists lim, lm_heap l !! el = Some (key, lim);
  ok_keys : NoDup keys
}.

Lemma capacity_Z : Z.of_nat capacity = maxKeys.
Proof. unfold capacity. rewrite Z2Nat.id; [done|]. unfold maxKeys. lia. Qed.

Lemma capacity_pos : (0 < capacity)%nat.
Proof. pose proof capacity_Z. unfold maxKeys in *. lia. Qed.

Lemma without_id (key : string) (l : list string) : key ∉ l -> List.filter (fun k => negb (String.eqb k key)) l = l.
Proof.
  induction l as [|x l IH]; intros Hn; [done|]. apply not_elem_of_cons in Hn as [Hx Hl]. simpl.
  destruct (String.eqb_spec x key); [congruence|]. simpl. by rewrite IH.
Qed.

Lemma without_take (key : string) n l : NoDup l -> key ∈ take n l ->
  List.filter (fun k => negb (String.eqb k key)) (take n l) = take (n - 1) (List.filter (fun k => negb (String.eqb k key)) l).
Proof.
  revert n. induction l as [|x l IH]; intros [|n] Hl Hin; [by apply elem_of_nil in Hin..|].
  apply NoDup_cons in Hl as [Hx Hl]. simpl. replace (n - 0)%nat with n by lia. destruct (String.eqb_spec x key) as [->|Hne]; simpl.
  - rewrite (without_id key l Hx). apply without_id. intros H'. by apply elem_of_take in H' as (i & ?%list_elem_of_lookup_2 & _).
  - apply elem_of_cons in Hin as [->|Hin]; [done|]. rewrite IH by done. destruct n as [|n]; [by apply elem_of_nil in Hin|].
    simpl. by rewrite Nat.sub_0_r.
Qed.

Lemma not_in_take (key : string) n l : key ∉ take (S n) l -> take n (List.filter (fun k => negb (String.eqb k key)) l) = take n l.
Proof.
  revert n. induction l as [|x l IH]; intros n Hn; [done|]. apply not_elem_of_cons in Hn as [Hx Hl]. simpl.
  destruct (String.eqb_spec x key); [congruence|]. simpl. destruct n as [|n]; [done|]. simpl. f_equal. by apply IH.
Qed.

(** The keys the cache keeps when one is used. *)
Definition next_keys (key : string) (keys : list string) : list string :=
  if decide (key ∈ keys) then touch key keys else key :: take (capacity - 1) keys.

Lemma next_keys_take key recent : NoDup recent -> next_keys key (take capacity recent) = take capacity (touch key recent).
Proof.
  intros Hr. pose proof capacity_pos as Hc. unfold next_keys, touch. destruct capacity as [|n]; [lia|]. rewrite firstn_cons.
  case_decide as Hin; f_equal.
  - rewrite without_take by done. simpl. by rewrite Nat.sub_0_r.
  - replace (S n - 1)%nat with n by lia. rewrite (not_in_take key n recent Hin). rewrite take_take. f_equal. lia.
Qed.

Lemma recency_snoc keys key : recency (keys ++ [key]) = touch key (recency keys).
Proof. unfold recency. by rewrite foldl_app. Qed.

Lemma touch_NoDup key recent : NoDup recent -> NoDup (touch key recent).
Proof.
  intros H'. apply NoDup_cons. split; [rewrite elem_of_lfilter; intros [_ Hk]; simpl in Hk; by rewrite String.eqb_refl in Hk|].
  by apply NoDup_lfilter.
Qed.

Lemma recency_NoDup keys : NoDup (recency keys).
Proof. induction keys as [|key keys IH] using rev_ind; [constructor|]. rewrite recency_snoc. by apply touch_NoDup. Qed.

Lemma elem_of_recency keys key : key ∈ recency keys <-> key ∈ keys.
Proof.
  induction keys as [|k keys IH] using rev_ind; [done|]. rewrite recency_snoc, elem_of_app, list_elem_of_singleton. unfold touch.
  rewrite elem_of_cons, elem_of_lfilter, IH. destruct (String.eqb_spec key k); naive_solver.
Qed.

Definition bucket_of (l : Limiter L) (key : string) : option L := lm_buckets l !! key ≫= fun el => snd <$> lm_heap l !! el.

Lemma ok_elem l keys el key : ok l keys -> el ∈ lm_lru l -> (exists lim, lm_heap l !! el = Some (key, lim)) -> key ∈ keys.
Proof.
  intros [Hl _ _] Hel [lim Hlim]. apply list_elem_of_lookup in Hel as [i Hi]. destruct (Forall2_lookup_l _ _ _ _ _ Hl Hi) as (k & Hk & lim' & Hlim').
  simplify_eq. by eapply list_elem_of_lookup_2.
Qed.

Lemma ok_find l keys key : ok l keys -> key ∈ keys <-> exists el, lm_buckets l !! key = Some el.
Proof.
  intros Hok. split.
  - intros Hk. apply list_elem_of_lookup in Hk as [i Hi]. destruct (Forall2_lookup_r _ _ _ _ _ (ok_lru _ _ Hok) Hi) as (el & Hel & Hlim).
    exists el. apply (ok_buckets _ _ Hok). split; [by eapply list_elem_of_lookup_2|done].
  - intros [el [Hel Hlim]%(ok_buckets _ _ Hok)]. by eapply ok_elem.
Qed.

Lemma ok_bucket l keys key el : ok l keys -> lm_buckets l !! key = Some el ->
  exists lim, lm_heap l !! el = Some (key, lim) /\ bucket_of l key = Some lim.
Proof.
  intros Hok Hel. pose proof (proj1 (ok_buckets _ _ Hok _ _) Hel) as [_ [lim Hlim]]. exists lim. split; [done|]. unfold bucket_of. by rewrite Hel; simpl; rewrite Hlim.
Qed.

(** Two elements of the list hold the same key only if they are the same. *)
Lemma ok_same l keys el el' key : ok l keys -> el ∈ lm_lru l -> el' ∈ lm_lru l ->
  (exists lim, lm_heap l !! el = Some (key, lim)) -> (exists lim, lm_heap l !! el' = Some (key, lim)) -> el = el'.
Proof.
  intros Hok H1 H2 L1 L2. pose proof (proj2 (ok_buckets _ _ Hok key el) (conj H1 L1)) as E1.
  pose proof (proj2 (ok_buckets _ _ Hok key el') (conj H2 L2)) as E2. congruence.
Qed.

Lemma ok_front l keys key el : ok l keys -> lm_buckets l !! key = Some el -> ok (MoveToFront el l) (touch key keys).
Proof.
  intros Hok Hel. pose proof (proj1 (ok_buckets _ _ Hok _ _) Hel) as [Hin Hlim]. split; simpl.
  - constructor; [done|].
    assert (forall els ks, Forall2 (fun el key => exists lim, lm_heap l !! el = Some (key, lim)) els ks -> Forall (fun el' => el' ∈ lm_lru l) els ->
      Forall2 (fun el key => exists lim, lm_heap l !! el = Some (key, lim)) (List.filter (fun x => negb (x =? el)%positive) els)
        (List.filter (fun k => negb (String.eqb k key)) ks)) as Hgen.
    { intros els' ks F. induction F as [|el' k els' ks Hk F IH]; intros HF; [constructor|]. apply Forall_cons in HF as [Hel' HF]. simpl.
      assert ((el' =? el)%positive = String.eqb k key) as ->.
      { destruct (String.eqb_spec k key) as [->|Hne].
        - apply Pos.eqb_eq. by eapply ok_same.
        - apply Pos.eqb_neq. intros ->. destruct Hk as [lk Hk], Hlim as [lim Hlim]. congruence. }
      destruct (String.eqb k key); simpl; [by apply IH|]. constructor; [done|by apply IH]. }
    apply Hgen; [apply Hok|by apply Forall_forall].
  - intros k el'. rewrite elem_of_cons, elem_of_lfilter, (ok_buckets _ _ Hok).
    destruct (Pos.eqb_spec el' el) as [->|Hne]; naive_solver.
  - apply touch_NoDup, Hok.
Qed.

Lemma ok_NoDup l keys : ok l keys -> NoDup (lm_lru l).
Proof.
  intros Hok. apply NoDup_alt. intros i j el Hi Hj.
  destruct (Forall2_lookup_l _ _ _ _ _ (ok_lru _ _ Hok) Hi) as (k & Hk & lim & Hlim).
  destruct (Forall2_lookup_l _ _ _ _ _ (ok_lru _ _ Hok) Hj) as (k' & Hk' & lim' & Hlim'). simplify_eq.
  by eapply NoDup_lookup; [apply Hok| |].
Qed.

Lemma ok_remove l keys : ok l keys -> ok (remove_oldest l) (removelast keys) /\
  (forall key, key ∈ removelast keys -> bucket_of (remove_oldest l) key = bucket_of l key).
Proof.
  intros Hok. pose proof (ok_NoDup _ _ Hok) as Hnd. pose proof (ok_keys _ _ Hok) as Hkeys. unfold remove_oldest.
  pose proof (ok_lru _ _ Hok) as Hl. destruct (last (lm_lru l)) as [oldest|] eqn:Elast.
  - apply last_Some in Elast as [els Els]. rewrite Els in Hl. apply Forall2_app_inv_l in Hl as (ks & [|k [|]] & Hks & Hlast & ->); [by inversion Hlast| |inversion Hlast as [|????? Hn]; by inversion Hn].
    inversion Hlast as [|???? [lim Hlim] _]; subst. rewrite Hlim, Els, !removelast_last. rewrite Els in Hnd.
    apply NoDup_app in Hnd as (Hnd & Hout & _). apply NoDup_app in Hkeys as (Hkeys & Hkout & _).
    assert (forall key el, key <> k -> el ∈ els ++ [oldest] -> (exists lim, lm_heap l !! el = Some (key, lim)) -> el ∈ els) as Hother.
    { intros key el Hne [?| ->%list_elem_of_singleton]%elem_of_app [lim' Hlim']; [done|congruence]. }
    split; [split; simpl; [done| |done]|].
    + intros key el. destruct (decide (key = k)) as [->|Hne].
      * rewrite lookup_delete_eq. split; [done|]. intros [Hel Hlim']. exfalso. apply (Hout el Hel). apply list_elem_of_singleton.
        eapply (ok_same l (ks ++ [k]) el oldest k Hok); [rewrite Els; set_solver..|done|by exists lim].
      * rewrite lookup_delete_ne by done. rewrite (ok_buckets _ _ Hok), Els. split; [|set_solver].
        intros [Hel Hlim']. split; [by eapply Hother|done].
    + intros key Hin. unfold bucket_of. simpl. rewrite lookup_delete_ne; [done|]. intros ->. apply (Hkout key Hin). by left.
  - apply last_None in Elast. rewrite Elast in Hl. inversion Hl; subst. done.
Qed.

Lemma ok_push l keys key lim : ok l keys -> key ∉ keys ->
  let '(el, l') := PushFront key lim l in
  ok l' (key :: keys) /\ lm_heap l' !! el = Some (key, lim) /\ lm_buckets l' !! key = Some el /\
  (forall k, k ∈ keys -> bucket_of l' k = bucket_of l k).
Proof.
  intros Hok Hk. unfold PushFront. set (el := fresh (dom (lm_heap l))).
  assert (lm_heap l !! el = None) as Hfresh by by apply not_elem_of_dom, is_fresh.
  assert (forall e k, (exists lim0, <[el:=(key, lim)]> (lm_heap l) !! e = Some (k, lim0)) <-> (e = el /\ k = key) \/ (e <> el /\ exists lim0, lm_heap l !! e = Some (k, lim0))) as Hheap.
  { intros e k. destruct (decide (e = el)) as [->|Hne]; [rewrite lookup_insert_eq|rewrite lookup_insert_ne by done]; naive_solver. }
  assert (forall e, e ∈ lm_lru l -> e <> el) as Hold.
  { intros e He ->. apply list_elem_of_lookup in He as [i Hi]. destruct (Forall2_lookup_l _ _ _ _ _ (ok_lru _ _ Hok) Hi) as (k & _ & lim' & Hlim'). congruence. }
  split; [split; simpl|split; [by simpl; rewrite lookup_insert_eq|split; [by simpl; rewrite lookup_insert_eq|]]].
  - constructor; [apply Hheap; auto|]. eapply Forall2_impl; [apply Hok|]. intros e k [lim' Hlim]. apply Hheap. right. split; [congruence|by exists lim'].
  - intros k e. rewrite elem_of_cons, Hheap. destruct (decide (k = key)) as [->|Hne].
    + rewrite lookup_insert_eq. split; [naive_solver|]. intros [He [[-> _]|[Hne Hlim]]]; [done|].
      destruct He as [->|He]; [done|]. exfalso. by apply Hk, (ok_elem l keys e).
    + rewrite lookup_insert_ne by done. rewrite (ok_buckets _ _ Hok). split; [|naive_solver]. intros [He Hlim]. pose proof (Hold e He). naive_solver.
  - apply NoDup_cons. split; [done|apply Hok].
  - intros k Hin. assert (k <> key) as Hne by congruence. apply (ok_find _ _ _ Hok) in Hin as [e He].
    unfold bucket_of. simpl. rewrite lookup_insert_ne by done. rewrite He. simpl.
    pose proof (proj1 (ok_buckets _ _ Hok _ _) He) as [Hel _]. by rewrite lookup_insert_ne by (intros ?; by apply (Hold e)).
Qed.

(** The bucket [Allow] takes a token from: the one the key has, or a full one. *)
Definition bucket_for (l : Limiter L) (keys : list string) (key : string) (lim : L) : Prop :=
  if decide (key ∈ keys) then bucket_of l key = Some lim else lim = NewLimiter (lm_rps l) (lm_rps l).

Lemma remove_rps l : lm_rps (remove_oldest l) = lm_rps l.
Proof. unfold remove_oldest. by case_match. Qed.

Lemma locate_spec l keys key : ok l keys -> (length keys <= capacity)%nat ->
  exists el l' lim, locate key l = (el, l') /\ ok l' (next_keys key keys) /\ lm_rps l' = lm_rps l /\ lm_heap l' !! el = Some (key, lim) /\
    lm_buckets l' !! key = Some el /\ bucket_for l keys key lim /\
    (forall k, k <> key -> k ∈ next_keys key keys -> bucket_of l' k = bucket_of l k).
Proof.
  intros Hok Hlen. unfold locate, next_keys, bucket_for. destruct (lm_buckets l !! key) as [el|] eqn:Eb.
  - destruct (ok_bucket _ _ _ _ Hok Eb) as (lim & Hlim & Hb). assert (key ∈ keys) as Hk by (apply (ok_find _ _ _ Hok); by exists el).
    destruct (decide (key ∈ keys)) as [_|]; [|done].
    exists el, (MoveToFront el l), lim. split; [done|]. split; [by apply (ok_front _ _ _ _ Hok Eb)|]. done.
  - assert (key ∉ keys) as Hk by (intros [el Hel]%(ok_find _ _ _ Hok); congruence). destruct (decide (key ∈ keys)) as [|_]; [done|].
    cbv zeta. set (l1 := if maxKeys <=? Z.of_nat (length (lm_lru l)) then remove_oldest l else l).
    assert (ok l1 (take (capacity - 1) keys) /\ lm_rps l1 = lm_rps l /\ forall k, k ∈ take (capacity - 1) keys -> bucket_of l1 k = bucket_of l k) as (Hok1 & Hrps & Hsame).
    { pose proof capacity_pos. pose proof capacity_Z as Hc. pose proof (Forall2_length _ _ _ (ok_lru _ _ Hok)) as Hll. unfold l1. rewrite Hll.
      destruct (Z.leb_spec maxKeys (Z.of_nat (length keys))).
      - assert (take (capacity - 1) keys = removelast keys) as ->.
        { rewrite removelast_firstn_len. f_equal. lia. }
        destruct (ok_remove l keys Hok) as [Hr Hs]. split; [done|split; [apply remove_rps|done]].
      - rewrite take_ge by lia. done. }
    assert (key ∉ take (capacity - 1) keys) as Hk1 by (intros (i & Hi%list_elem_of_lookup_2 & _)%elem_of_take; done).
    pose proof (ok_push l1 _ key (NewLimiter (lm_rps l1) (lm_rps l1)) Hok1 Hk1) as Hp.
    destruct (PushFront key (NewLimiter (lm_rps l1) (lm_rps l1)) l1) as [el l'] eqn:Ep. destruct Hp as (Hok' & Hel & Hbk & Hothers).
    assert (lm_rps l' = lm_rps l) as Hr' by (rewrite <- Hrps; apply (f_equal (fun p => lm_rps p.2)) in Ep; symmetry; exact Ep).
    exists el, l', (NewLimiter (lm_rps l) (lm_rps l)). rewrite Hrps in Hel.
    split; [done|split; [done|split; [done|split; [done|split; [done|split; [done|]]]]]].
    intros k Hne [->|Hin]%elem_of_cons; [done|]. by rewrite Hothers, Hsame.
Qed.

Lemma Allow_spec l keys key now : ok l keys -> (length keys <= capacity)%nat ->
  exists l' lim, Allow (Some l) key now = ((AllowN lim now 1).1, Some l') /\ ok l' (next_keys key keys) /\ lm_rps l' = lm_rps l /\
    bucket_for l keys key lim /\ bucket_of l' key = Some (AllowN lim now 1).2 /\
    (forall k, k <> key -> k ∈ next_keys key keys -> bucket_of l' k = bucket_of l k).
Proof.
  intros Hok Hlen. destruct (locate_spec l keys key Hok Hlen) as (el & l1 & lim & El & Hok1 & Hrps & Hheap & Hbk & Hfor & Hothers).
  unfold Allow. rewrite El. unfold take_token. rewrite Hheap. destruct (AllowN lim now 1) as [a lim'] eqn:Ea.
  set (l2 := mkLimiter _ _ _ _). exists l2, lim. rewrite Ea. split; [done|].
  assert (forall e k, (exists lim0, <[el:=(key, lim')]> (lm_heap l1) !! e = Some (k, lim0)) <-> (exists lim0, lm_heap l1 !! e = Some (k, lim0))) as Hsame.
  { intros e k. destruct (decide (e = el)) as [->|Hne]; [rewrite lookup_insert_eq, Hheap|rewrite lookup_insert_ne by done]; naive_solver. }
  split; [|split; [done|split; [done|split]]].
  - destruct Hok1 as [Hl Hb Hn]. split; simpl; [|intros k e; by rewrite Hb, Hsame|done].
    eapply Forall2_impl; [exact Hl|]. intros e k He. by apply Hsame.
  - unfold bucket_of, l2. simpl. rewrite Hbk. simpl. by rewrite lookup_insert_eq.
  - intros k Hne Hin. rewrite <- (Hothers k Hne Hin). unfold bucket_of, l2. simpl. destruct (lm_buckets l1 !! k) as [e|] eqn:Ek; [|done]. simpl.
    destruct (decide (e = el)) as [->|Hne']; [|by rewrite lookup_insert_ne].
    pose proof (proj1 (ok_buckets _ _ Hok1 _ _) Ek) as [_ [lk Hlk]]. congruence.
Qed.

(** ** A history of calls *)

Lemma run_snoc l ops op : run l (ops ++ [op]) =
  let '(answers, l) := run l ops in let '(ok, l) := Allow l op.1 op.2 in (answers ++ [ok], l).
Proof.
  revert l. induction ops as [|[key now] ops IH]; intros l; cbn [run app].
  - destruct op as [key now]. simpl. by destruct (Allow l key now).
  - destruct (Allow l key now) as [a l1]. rewrite IH. destruct (run l1 ops) as [answers l2]. by destruct (Allow l2 op.1 op.2).
Qed.

Lemma run_bucket_snoc lim times now : run_bucket lim (times ++ [now]) =
  let '(answers, lim) := run_bucket lim times in let '(ok, lim) := AllowN lim now 1 in (answers ++ [ok], lim).
Proof.
  revert lim. induction times as [|t times IH]; intros lim; cbn [run_bucket app].
  - by destruct (AllowN lim now 1).
  - destruct (AllowN lim t 1) as [a lim1]. rewrite IH. destruct (run_bucket lim1 times) as [answers lim2]. by destruct (AllowN lim2 now 1).
Qed.

Lemma lfilter_app_bool {A} (f : A -> bool) l1 l2 : List.filter f (l1 ++ l2) = List.filter f l1 ++ List.filter f l2.
Proof. apply List.filter_app. Qed.

Lemma times_of_snoc key ops op : times_of key (ops ++ [op]) = times_of key ops ++ (if String.eqb op.1 key then [op.2] else []).
Proof. unfold times_of. rewrite lfilter_app_bool, fmap_app. simpl. by destruct (String.eqb op.1 key). Qed.

Lemma answers_of_snoc key ops op answers a : length answers = length ops ->
  answers_of key (ops ++ [op]) (answers ++ [a]) = answers_of key ops answers ++ (if String.eqb op.1 key then [a] else []).
Proof.
  intros Hlen. unfold answers_of. rewrite zip_with_app by done. rewrite lfilter_app_bool, fmap_app. simpl. by destruct (String.eqb op.1 key).
Qed.

Lemma times_of_absent key ops : key ∉ ops.*1 -> times_of key ops = [].
Proof.
  induction ops as [|op ops IH]; intros Hn; [done|]. apply not_elem_of_cons in Hn as [Hne Hn]. unfold times_of. simpl.
  destruct (String.eqb_spec op.1 key); [congruence|by apply IH].
Qed.

Lemma hot_snoc key ops op : hot key (ops ++ [op]) ->
  hot key ops /\ (op.1 = key -> key ∈ ops.*1 -> key ∈ take capacity (recency ops.*1)).
Proof.
  intros Hh. split.
  - intros before now after -> Hin. apply (Hh before now (after ++ [op])); [by rewrite <- app_assoc|done].
  - intros <- Hin. destruct op as [k now]. by apply (Hh ops now []).
Qed.

(** What holds after a history: the cache keeps the keys used last, and the bucket of a hot key
    among them is as if it had been alone. *)
Record served (rps : Z) (ops : list (string * Time)) (answers : list bool) (l : Limiter L) : Prop := mkServed {
  served_ok : ok l (take capacity (recency ops.*1));
  served_rps : lm_rps l = rps;
  served_length : length answers = length ops;
  served_hot : forall key, hot key ops ->
    answers_of key ops answers = (run_bucket (NewLimiter rps rps) (times_of key ops)).1 /\
    (key ∈ take capacity (recency ops.*1) -> bucket_of l key = Some (run_bucket (NewLimiter rps rps) (times_of key ops)).2)
}.

Lemma next_keys_old key k keys : key <> k -> key ∈ next_keys k keys -> key ∈ keys.
Proof.
  unfold next_keys, touch. intros Hne. case_decide.
  - intros [->|Hin]%elem_of_cons; [done|]. by apply elem_of_lfilter in Hin as [Hin _].
  - intros [->|(i & Hi & _)%elem_of_take]%elem_of_cons; [done|by eapply list_elem_of_lookup_2].
Qed.

Lemma served_snoc rps ops answers l key now : served rps ops answers l ->
  let '(a, l') := Allow (Some l) key now in
  exists l2, l' = Some l2 /\ served rps (ops ++ [(key, now)]) (answers ++ [a]) l2.
Proof.
  intros [Hok Hrps Hlen Hhot].
  destruct (Allow_spec l _ key now Hok) as (l2 & lim & -> & Hok2 & Hrps2 & Hfor & Hnew & Hothers); [rewrite length_take; lia|].
  exists l2. split; [done|].
  assert (next_keys key (take capacity (recency ops.*1)) = take capacity (recency (ops ++ [(key, now)]).*1)) as Hnext.
  { rewrite fmap_app. simpl. rewrite recency_snoc. apply next_keys_take, recency_NoDup. }
  rewrite Hnext in Hok2, Hothers. split; [done|congruence|by rewrite !length_app, Hlen|]. intros k [Hh Hback]%hot_snoc.
  destruct (Hhot k Hh) as [Hans Hbk]. rewrite times_of_snoc, answers_of_snoc by done. simpl in *. destruct (String.eqb_spec key k) as [->|Hne].
  - assert (lim = (run_bucket (NewLimiter rps rps) (times_of k ops)).2) as Hl.
    { unfold bucket_for in Hfor. case_decide as Hin; [rewrite (Hbk Hin) in Hfor; by simplify_eq|].
      rewrite times_of_absent by (intros Hk; by apply Hin, Hback). by rewrite Hfor, Hrps. }
    rewrite run_bucket_snoc. destruct (run_bucket (NewLimiter rps rps) (times_of k ops)) as [as_ lim1]. simpl in *. subst lim1 as_.
    destruct (AllowN lim now 1) as [a lim2]. simpl. by split.
  - rewrite !app_nil_r. split; [done|]. intros Hin. rewrite (Hothers k); [|done|done]. apply Hbk.
    rewrite <- Hnext in Hin. by eapply next_keys_old.
Qed.

Lemma run_served rps ops : 0 < rps ->
  exists l, (run (New rps) ops).2 = Some l /\ served rps ops (run (New rps) ops).1 l.
Proof.
  intros Hrps. induction ops as [|[key now] ops IH] using rev_ind.
  - unfold New. destruct (Z.leb_spec rps 0); [lia|]. eexists. split; [reflexivity|].
    assert (take capacity (recency ([] : list (string * Time)).*1) = []) as Hnil by apply take_nil.
    split; rewrite ?Hnil; [split; [constructor| |constructor]|done|done|].
    + intros key el. cbn [lm_buckets]. rewrite lookup_empty. split; [done|]. by intros [?%elem_of_nil _].
    + intros key _. split; [done|]. by intros ?%elem_of_nil.
  - destruct IH as (l & Hl & Hs). rewrite run_snoc. destruct (run (New rps) ops) as [answers ol]. simpl in Hl, Hs. subst ol. cbn [fst snd].
    pose proof (served_snoc rps ops answers l key now Hs) as Hn. destruct (Allow (Some l) key now) as [a l']. by destruct Hn as (l2 & -> & Hs2); exists l2.
Qed.

(** C30: The rate limiter isolates its keys: over any history of calls it never holds more
    than [maxKeys] buckets, which are those of the keys used last, and a key that is among
    these whenever it comes back is answered exactly as a bucket of its own would answer it,
    whatever the other callers do. *)
Theorem limiter_isolates rps ops key : 0 < rps -> hot key ops ->
  exists l, (run (New rps) ops).2 = Some l /\
    Z.of_nat (length (lm_lru l)) <= maxKeys /\ Z.of_nat (size (lm_buckets l)) <= maxKeys /\
    (forall k, k ∈ dom (lm_buckets l) <-> k ∈ take capacity (recency ops.*1)) /\
    answers_of key ops (run (New rps) ops).1 = (run_bucket (NewLimiter rps rps) (times_of key ops)).1.
Proof.
  intros Hrps Hh. destruct (run_served rps ops Hrps) as (l & Hl & [Hok _ _ Hhot]). exists l. split; [done|].
  assert (forall k, k ∈ dom (lm_buckets l) <-> k ∈ take capacity (recency ops.*1)) as Hdom.
  { intros k. rewrite (ok_find _ _ _ Hok), elem_of_dom. done. }
  assert (length (take capacity (recency ops.*1)) <= capacity)%nat as Hlen by (rewrite length_take; lia).
  rewrite <- capacity_Z. split; [rewrite (Forall2_length _ _ _ (ok_lru _ _ Hok)); lia|].
  split; [|split; [exact Hdom|exact (proj1 (Hhot key Hh))]].
  assert (dom (lm_buckets l) = list_to_set (take capacity (recency ops.*1))) as Hset by (apply set_eq; intros k; by rewrite Hdom, elem_of_list_to_set).
  rewrite <- size_dom, Hset, size_list_to_set; [lia|apply Hok].
Qed.

(** With no more keys than the cache holds, every key is hot. *)
Lemma few_keys_hot key ops : (length (recency ops.*1) <= capacity)%nat -> hot key ops.
Proof.
  intros Hlen before now after -> Hin. apply elem_of_recency in Hin. rewrite take_ge; [done|]. etrans; [|exact Hlen].
  apply submseteq_length, NoDup_submseteq; [apply recency_NoDup|]. intros k. rewrite !elem_of_recency, fmap_app. set_solver.
Qed.
End Limiter.

(** A bucket that refills one token a second. *)
#[local] Instance simple_bucket : TokenBucket (Z * Time * Z) := {|
  NewLimiter r burst := (burst, 0, burst);
  AllowN b now n := let '(tokens, at_, burst) := b in
    let tokens := Z.min burst (tokens + (now - at_) / Second) in
    if n <=? tokens then (true, (tokens - n, now, burst)) else (false, (tokens, now, burst))
|}.

Definition two_callers : list (string * Time) := [("a", 1); ("b", 2); ("b", 3); ("b", 4); ("a", 5); ("b", 4 * Second)].

Lemma limiter_isolates_witness :
  answers_of "a" two_callers (run (New 2) two_callers).1 = (run_bucket (NewLimiter 2 2) [1; 5]).1 /\
  (run (New 2) two_callers).1 = [true; true; true; false; true; true].
Proof.
  split; [|vm_compute; reflexivity].
  destruct (limiter_isolates 2 two_callers "a" ltac:(done)) as (l & _ & _ & _ & _ & H); [|exact H].
  apply few_keys_hot. pose proof capacity_Z as Hc. unfold maxKeys in Hc. apply Nat2Z.inj_le. rewrite Hc. vm_compute. discriminate.
Defined.
