(* ===== verification/Access.v ===== *)
(** Access control ([internal/auth]): the configuration and its strictness in production, the
    key middleware, dashboard sessions and their signature, the dashboard gate, and what the
    server builds of them ([cmd/ingest/main.go]). *)

From S2P Require Import Prelude GoRuntime GoFloat GoText RateLimit.
Open Scope Z_scope.

(** ** Configuration ([config.go]) *)

Definition ProfileDemo : string := "demo".
Definition ProfileDev : string := "dev".
Definition ProfileProd : string := "prod".

Record AuthConfig := mkAuthConfig {
  ac_WriteKeys : list string;
  ac_ReadKeys : list string;
  ac_AgentKeys : list string;
  ac_WriteKeyEnv : string;
  ac_Profile : string;
  ac_DashboardMode : string;
  ac_DashboardUser : string;
  ac_DashboardPass : string;
  ac_DashboardKey : string;
  ac_SessionSecret : string
}.

Definition splitKeys (s : string) : list string :=
  let s := TrimSpace s in
  if String.eqb s "" then []
  else List.filter (fun p => negb (String.eqb p "")) (TrimSpace <$> Split s ","%char).

(** [strings.SplitN] with a limit: the last part keeps the separators. *)
Fixpoint SplitN (s : string) (sep : ascii) (n : nat) : list string :=
  match n with
  | O => []
  | S O => [s]
  | S n => match IndexByte s sep with
           | Some i => take_bytes i s :: SplitN (drop_bytes (i + 1) s) sep n
           | None => [s]
           end
  end.

Example SplitN_ex : SplitN "basic:u:p:q" ":"%char 3 = ["basic"; "u"; "p:q"] /\ SplitN "12" "."%char 2 = ["12"].
Proof. vm_compute. done. Qed.

Definition sum_string (l : list Z) : string := String.string_of_list_ascii ((fun z => ascii_of_nat (Z.to_nat z)) <$> l).

Definition DeriveSecret (credentials : string) : string := sum_string (Sha256.sum256 ("waylog-session:" +:+ credentials)).

Inductive ConfigError :=
| BadProfile (profile : string)
| BothWriteKeys
| BadBasic
| BadKey
| BadDashboardAuth (mode : string)
| SecretRequired
| ReadKeyWithoutDashboard
| MissingKeys (names : list string).

(** The dashboard's mode, user, password and key. *)
Definition dashboard_auth (dashAuth : string) : ConfigError + (string * string * string * string) :=
  if String.eqb dashAuth "" || String.eqb dashAuth "off" then inr ("off", "", "", "")
  else if HasPrefix dashAuth "basic:" then
    match SplitN dashAuth ":"%char 3 with
    | [_; user; pass] => if String.eqb user "" || String.eqb pass "" then inl BadBasic else inr ("basic", user, pass, "")
    | _ => inl BadBasic
    end
  else if HasPrefix dashAuth "key:" then
    let key := drop_prefix "key:" dashAuth in
    if String.eqb key "" then inl BadKey else inr ("key", "", "", key)
  else inl (BadDashboardAuth dashAuth).

Definition missing_names (write read agent : list string) : list string :=
  (if (length write =? 0)%nat then ["WAYLOG_WRITE_KEY"] else []) ++
  (if (length read =? 0)%nat then ["WAYLOG_READ_KEY"] else []) ++
  (if (length agent =? 0)%nat then ["WAYLOG_AGENT_KEY"] else []).

Definition ParseConfig (env : string -> string) : ConfigError + AuthConfig :=
  let profile := ToLower (TrimSpace (env "WAYLOG_PROFILE")) in
  let known := String.eqb profile ProfileDemo || String.eqb profile ProfileDev || String.eqb profile ProfileProd in
  if negb (String.eqb profile "" || known) then inl (BadProfile profile) else
  let profile := if String.eqb profile "" then ProfileDev else profile in
  let legacyKey := TrimSpace (env "WAYLOG_API_KEY") in
  let writeKey := TrimSpace (env "WAYLOG_WRITE_KEY") in
  if negb (String.eqb legacyKey "") && negb (String.eqb writeKey "") then inl BothWriteKeys else
  let '(writeKeys, writeKeyEnv) :=
    if negb (String.eqb writeKey "") then (splitKeys writeKey, "WAYLOG_WRITE_KEY")
    else if negb (String.eqb legacyKey "") then ([legacyKey], "WAYLOG_API_KEY") else ([], "") in
  let readKeys := splitKeys (env "WAYLOG_READ_KEY") in
  let agentKeys := splitKeys (env "WAYLOG_AGENT_KEY") in
  let dashAuth := TrimSpace (env "DASHBOARD_AUTH") in
  match dashboard_auth dashAuth with
  | inl err => inl err
  | inr (mode, user, pass, key) =>
    let sessionSecret := TrimSpace (env "DASHBOARD_SESSION_SECRET") in
    if negb (String.eqb mode "off") && String.eqb sessionSecret "" && String.eqb profile ProfileProd then inl SecretRequired else
    let secret := if String.eqb mode "off" then ""
                  else if String.eqb sessionSecret "" then DeriveSecret dashAuth else sessionSecret in
    if negb (length readKeys =? 0)%nat && String.eqb mode "off" then inl ReadKeyWithoutDashboard else
    let missing := missing_names writeKeys readKeys agentKeys in
    if String.eqb profile ProfileProd && negb (length missing =? 0)%nat then inl (MissingKeys missing)
    else inr (mkAuthConfig writeKeys readKeys agentKeys writeKeyEnv profile mode user pass key secret)
  end.

Definition weakKeyValues : list string := ["demo"; "changeme"; "change-me"; "password"; "secret"; "test"; "example"; "key"; "token"].

Definition isWeakKey (k : string) : bool :=
  let k := ToLower (TrimSpace k) in
  if String.eqb k "" then false
  else bool_decide (k ∈ weakKeyValues) || HasPrefix k "changeme" || HasPrefix k "change-me".

Definition weakKeySuffix : string :=
  " is a weak/placeholder value — fine for a local demo, but never expose this server with it".

(** One warning for each scope, whatever the number of its weak keys. *)
Definition WeakKeyWarnings (c : AuthConfig) : list string :=
  let check name keys := if existsb isWeakKey keys then [name +:+ weakKeySuffix] else [] in
  check (if String.eqb (ac_WriteKeyEnv c) "" then "WAYLOG_WRITE_KEY" else ac_WriteKeyEnv c) (ac_WriteKeys c) ++
  check "WAYLOG_READ_KEY" (ac_ReadKeys c) ++
  check "WAYLOG_AGENT_KEY" (ac_AgentKeys c) ++
  (if String.eqb (ac_DashboardMode c) "basic" && isWeakKey (ac_DashboardPass c) then ["DASHBOARD_AUTH basic password" +:+ weakKeySuffix] else []) ++
  (if String.eqb (ac_DashboardMode c) "key" && isWeakKey (ac_DashboardKey c) then ["DASHBOARD_AUTH key" +:+ weakKeySuffix] else []).

(** ** Sessions ([session.go]) *)

(** [hmac.New(sha256.New, key)]. *)
Definition hmac_sha256 (key msg : string) : list Z :=
  let key := if (64 <? String.length key)%nat then Sha256.sum256 key else Sha256.string_bytes key in
  let key := key ++ repeat 0 (64 - length key) in
  let inner := Sha256.sum256 (sum_string (Z.lxor 54 <$> key) +:+ msg) in
  Sha256.sum256 (sum_string (Z.lxor 92 <$> key) +:+ sum_string inner).

Example hmac_rfc4231 : Sha256.hex (hmac_sha256 "Jefe" "what do ya want for nothing?")
  = "5bdcc146bf60754e6a042426089575c75a003f089d2739839dec58b964ec3843".
Proof. vm_compute. reflexivity. Qed.

Record SessionManager := mkSessionManager { sm_secret : string; sm_maxAge : Duration; sm_Secure : bool }.

Definition sign (sm : SessionManager) (payload : string) : string := Sha256.hex (hmac_sha256 (sm_secret sm) payload).

(** The cookie's value. *)
Definition SetSession (sm : SessionManager) (now : Time) : string :=
  let payload := Itoa ((now - unix_epoch) / Second) in payload +:+ "." +:+ sign sm payload.

(** [time.Unix]: the seconds since year 1 are an [int64]. *)
Definition TimeUnix (ts : Z) : Time := wrap64 (ts + 62135596800) * Second.

Definition ValidSession (sm : SessionManager) (r : HttpRequest) (now : Time) : bool :=
  match rq_Cookie r with
  | None => false
  | Some v =>
    match SplitN v "."%char 2 with
    | [payload; sig] =>
      if negb (String.eqb (sign sm payload) sig) then false else
      match Atoi payload with
      | None => false
      | Some ts => TimeSub now (TimeUnix ts) <? sm_maxAge sm
      end
    | _ => false
    end
  end.

(** ** Middleware ([middleware.go]) *)

Definition extractToken (r : HttpRequest) : string :=
  match (if String.eqb (rq_Header r "Authorization") "" then None else bearer (rq_Header r "Authorization")) with
  | Some token => token
  | None => rq_Header r "X-Api-Key"
  end.

Definition ConstantTimeCompare (a b : string) : Z := if String.eqb a b then 1 else 0.

Definition matchesAny (token : string) (keys : list string) : bool :=
  foldl (fun m k => Z.lor m (ConstantTimeCompare token k)) 0 keys =? 1.

(** What a middleware does with a request: hands it on, answers itself, or sets the session
    cookie and then does one or the other. *)
Inductive reply :=
| Pass
| Unauthorized (challenge : string)
| BadForm
| LoginForm (mode : string)
| LoginFailed (mode : string)
| Redirect (url : string)
| WithSession (cookie : string) (then_ : reply).

Definition SessionChecker : Type := HttpRequest -> Time -> bool.

Definition KeyMiddleware (scope : string) (keys : list string) (sessionCheck : option SessionChecker) (r : HttpRequest) (now : Time) : reply :=
  if (length keys =? 0)%nat then Pass
  else if negb (String.eqb (extractToken r) "") && matchesAny (extractToken r) keys then Pass
  else match sessionCheck with
       | Some check => if check r now then Pass else Unauthorized scope
       | None => Unauthorized scope
       end.

(** ** The dashboard ([dashboard.go]) *)

Definition set_session (sm : option SessionManager) (now : Time) (r : reply) : reply :=
  match sm with Some sm => WithSession (SetSession sm now) r | None => r end.

Definition handleBasicLogin (r : HttpRequest) (cfg : AuthConfig) (sm : option SessionManager) (now : Time) : reply :=
  match rq_Form r with
  | None => BadForm
  | Some form =>
    let userOK := ConstantTimeCompare (form "username") (ac_DashboardUser cfg) =? 1 in
    let passOK := ConstantTimeCompare (form "password") (ac_DashboardPass cfg) =? 1 in
    if userOK && passOK then set_session sm now (Redirect "/ui/") else LoginFailed "basic"
  end.

Definition handleKeyLogin (r : HttpRequest) (cfg : AuthConfig) (sm : option SessionManager) (now : Time) : reply :=
  match rq_Form r with
  | None => BadForm
  | Some form =>
    if ConstantTimeCompare (form "key") (ac_DashboardKey cfg) =? 1 then set_session sm now (Redirect "/ui/") else LoginFailed "key"
  end.

(** A mode that is none of the three answers nothing, which the server sends as an empty page;
    [ParseConfig] makes no other mode. *)
Definition DashboardGate (cfg : AuthConfig) (sm : option SessionManager) (r : HttpRequest) (now : Time) : option reply :=
  if String.eqb (ac_DashboardMode cfg) "off" then Some Pass
  else if match sm with Some sm => ValidSession sm r now | None => false end then Some Pass
  else if String.eqb (ac_DashboardMode cfg) "basic" then
    Some (if String.eqb (rq_Method r) "POST" then handleBasicLogin r cfg sm now else LoginForm "basic")
  else if String.eqb (ac_DashboardMode cfg) "key" then
    let token := extractToken r in
    Some (if negb (String.eqb token "") && (ConstantTimeCompare token (ac_DashboardKey cfg) =? 1) then set_session sm now Pass
          else if String.eqb (rq_Method r) "POST" then handleKeyLogin r cfg sm now else LoginForm "key")
  else None.

Definition SessionCheckFunc (sm : option SessionManager) : option SessionChecker := ValidSession <$> sm.

Definition DefaultSessionMaxAge : Duration := 24 * Hour.

(** ** The server's wiring *)

Definition server_sessions (cfg : AuthConfig) : option SessionManager :=
  if String.eqb (ac_DashboardMode cfg) "off" then None
  else Some (mkSessionManager (ac_SessionSecret cfg) DefaultSessionMaxAge (String.eqb (ac_Profile cfg) ProfileProd)).

Definition writeKeyAuth (cfg : AuthConfig) := KeyMiddleware "write" (ac_WriteKeys cfg) None.
Definition readKeyAuth (cfg : AuthConfig) := KeyMiddleware "read" (ac_ReadKeys cfg) (SessionCheckFunc (server_sessions cfg)).
Definition agentKeyAuth (cfg : AuthConfig) := KeyMiddleware "agent" (ac_AgentKeys cfg) None.
Definition dashGate (cfg : AuthConfig) := DashboardGate cfg (server_sessions cfg).

(** ** Lemmas *)

Lemma matchesAny_in token keys : matchesAny token keys = true <-> token ∈ keys.
Proof.
  unfold matchesAny. assert (forall m, m = 0 \/ m = 1 -> (foldl (fun m k => Z.lor m (ConstantTimeCompare token k)) m keys =? 1) = true <-> m = 1 \/ token ∈ keys) as Hgen.
  { induction keys as [|k keys IH]; intros m Hm; simpl.
    - rewrite Z.eqb_eq, elem_of_nil. tauto.
    - unfold ConstantTimeCompare at 2. destruct (String.eqb_spec token k) as [->|Hne].
      + destruct Hm as [-> | ->]; (rewrite IH by (by right)); simpl; rewrite elem_of_cons; tauto.
      + rewrite Z.lor_0_r, IH by done. rewrite elem_of_cons. tauto. }
  rewrite Hgen by auto. naive_solver lia.
Qed.

Lemma splitKeys_nonempty s : "" ∉ splitKeys s.
Proof. unfold splitKeys. case_match; [by intros ?%elem_of_nil|]. rewrite elem_of_lfilter. by intros [_ ?]. Qed.

Definition session_ok (check : option SessionChecker) (r : HttpRequest) (now : Time) : bool :=
  match check with Some f => f r now | None => false end.

Lemma KeyMiddleware_pass scope keys check r now : keys <> [] -> "" ∉ keys ->
  KeyMiddleware scope keys check r now = Pass <-> (extractToken r ∈ keys \/ session_ok check r now = true).
Proof.
  intros Hne Hempty. unfold KeyMiddleware. assert ((length keys =? 0)%nat = false) as -> by by destruct keys.
  assert (match check with Some f => if f r now then Pass else Unauthorized scope | None => Unauthorized scope end = if session_ok check r now then Pass else Unauthorized scope) as ->.
  { by destruct check. }
  pose proof (matchesAny_in (extractToken r) keys) as Hm.
  destruct (String.eqb_spec (extractToken r) "") as [He|He]; cbn [negb andb].
  - rewrite He. destruct (session_ok check r now); naive_solver.
  - destruct (matchesAny (extractToken r) keys), (session_ok check r now); naive_solver.
Qed.

Lemma missing_none w r a : (length (missing_names w r a) =? 0)%nat = true -> w <> [] /\ r <> [] /\ a <> [].
Proof. unfold missing_names. by destruct w, r, a. Qed.

(** What the configuration of a production server guarantees. *)
Record closed_config (env : string -> string) (cfg : AuthConfig) : Prop := mkClosed {
  cc_write : ac_WriteKeys cfg <> [] /\ "" ∉ ac_WriteKeys cfg;
  cc_read : ac_ReadKeys cfg <> [] /\ "" ∉ ac_ReadKeys cfg;
  cc_agent : ac_AgentKeys cfg <> [] /\ "" ∉ ac_AgentKeys cfg;
  cc_secret : ac_SessionSecret cfg = TrimSpace (env "DASHBOARD_SESSION_SECRET") /\ ac_SessionSecret cfg <> "";
  cc_mode : (ac_DashboardMode cfg = "basic" /\ ac_DashboardUser cfg <> "" /\ ac_DashboardPass cfg <> "") \/
            (ac_DashboardMode cfg = "key" /\ ac_DashboardKey cfg <> "")
}.

Lemma dashboard_auth_modes s mode user pass key : dashboard_auth s = inr (mode, user, pass, key) ->
  mode = "off" \/ (mode = "basic" /\ user <> "" /\ pass <> "") \/ (mode = "key" /\ key <> "").
Proof.
  unfold dashboard_auth. case_match; [intros [= <- <- <- <-]; auto|]. case_match.
  - repeat (case_match; try done). intros [= <- <- <- <-]. bool_prop. right. left. tauto.
  - case_match; [|done]. case_match; [done|]. intros [= <- <- <- <-]. bool_prop. auto.
Qed.

Lemma ParseConfig_closed env cfg : ParseConfig env = inr cfg -> ac_Profile cfg = ProfileProd -> closed_config env cfg.
Proof.
  unfold ParseConfig. case_match; [done|]. set (profile := if String.eqb _ "" then ProfileDev else _). clearbody profile.
  case_match; [done|]. set (keys := if negb (String.eqb (TrimSpace (env "WAYLOG_WRITE_KEY")) "") then _ else _).
  assert ("" ∉ keys.1) as Hw.
  { unfold keys. case_match; [apply splitKeys_nonempty|]. case_match; [|by intros ?%elem_of_nil]. bool_prop. simpl. set_solver. }
  destruct keys as [writeKeys writeEnv]. destruct (dashboard_auth (TrimSpace (env "DASHBOARD_AUTH"))) as [|[[[mode user] pass] key]] eqn:Ed; [done|].
  apply dashboard_auth_modes in Ed. set (secret := if String.eqb mode "off" then "" else _).
  destruct (negb (String.eqb mode "off") && String.eqb (TrimSpace (env "DASHBOARD_SESSION_SECRET")) "" && String.eqb profile ProfileProd) eqn:E1; [done|].
  destruct (negb (length (splitKeys (env "WAYLOG_READ_KEY")) =? 0)%nat && String.eqb mode "off") eqn:E2; [done|].
  destruct (String.eqb profile ProfileProd && negb (length (missing_names writeKeys (splitKeys (env "WAYLOG_READ_KEY")) (splitKeys (env "WAYLOG_AGENT_KEY"))) =? 0)%nat) eqn:E3; [done|].
  intros [= <-] Hprod. simpl in Hprod. subst profile. cbn [andb String.eqb] in E3. rewrite String.eqb_refl in E1, E3. simpl in E3.
  apply negb_false_iff, missing_none in E3 as (W & R & A).
  assert (mode <> "off") as Hmode.
  { intros ->. destruct (splitKeys (env "WAYLOG_READ_KEY")); done. }
  assert (TrimSpace (env "DASHBOARD_SESSION_SECRET") <> "") as Hs.
  { intros Hs. rewrite Hs in E1. apply String.eqb_neq in Hmode. by rewrite Hmode in E1. }
  assert (secret = TrimSpace (env "DASHBOARD_SESSION_SECRET")) as Hsec.
  { unfold secret. apply String.eqb_neq in Hmode, Hs. by rewrite Hmode, Hs. }
  split; simpl; [by split|split; [done|apply splitKeys_nonempty]|split; [done|apply splitKeys_nonempty]|by rewrite Hsec|tauto].
Qed.

(** ** Sessions are signed and expire *)

Lemma IndexByte_app c a b : has_byte c a = false -> IndexByte (a +:+ String c b) c = Some (String.length a).
Proof.
  induction a as [|x a IH]; intros H; rewrite ?string_app_nil_l, ?string_app_cons; cbn [IndexByte].
  - by rewrite Ascii.eqb_refl.
  - cbn [has_byte] in H. apply orb_false_iff in H as [-> H]. by rewrite IH.
Qed.

Lemma IndexByte_Some c s i : IndexByte s c = Some i -> s = take_bytes i s +:+ String c (drop_bytes (i + 1) s) /\ has_byte c (take_bytes i s) = false.
Proof.
  revert i. induction s as [|x s IH]; intros i; [done|]. cbn [IndexByte]. destruct (Ascii.eqb_spec x c) as [->|Hne].
  - intros [= <-]. split; [|done]. rewrite string_app_nil_l. by destruct s.
  - destruct (IndexByte s c) as [j|] eqn:E; [|done]. intros [= <-]. destruct (IH j eq_refl) as [Hs Hb].
    change (take_bytes (S j) (String x s)) with (String x (take_bytes j s)). change (drop_bytes (S j + 1) (String x s)) with (drop_bytes (j + 1) s).
    rewrite string_app_cons, <- Hs. split; [done|]. cbn [has_byte]. rewrite Hb. destruct (Ascii.eqb_spec x c); done.
Qed.

Lemma SplitN_2 v sep a b : SplitN v sep 2 = [a; b] <-> v = a +:+ String sep b /\ has_byte sep a = false.
Proof.
  cbn [SplitN]. split.
  - destruct (IndexByte v sep) as [i|] eqn:E; [|done]. intros [= <- <-]. by apply IndexByte_Some.
  - intros [-> Ha]. rewrite IndexByte_app by done. rewrite take_bytes_app. do 2 f_equal.
    replace (String.length a + 1)%nat with (String.length (a +:+ String sep "")) by by rewrite string_length_app.
    replace (a +:+ String sep b) with ((a +:+ String sep "") +:+ b); [by rewrite drop_bytes_app|].
    by rewrite string_app_assoc, string_app_cons, string_app_nil_l.
Qed.

(** A session cookie is accepted exactly when it is a decimal time under the signature of
    the server's secret and that time is less than the maximum age ago. *)
Theorem session_signed sm r now : ValidSession sm r now = true <->
  exists payload ts, rq_Cookie r = Some (payload +:+ "." +:+ sign sm payload) /\ has_byte "." payload = false /\
    Atoi payload = Some ts /\ TimeSub now (TimeUnix ts) < sm_maxAge sm.
Proof.
  unfold ValidSession. split.
  - destruct (rq_Cookie r) as [v|]; [|done]. destruct (SplitN v "." 2) as [|payload [|sig [|]]] eqn:E; try done.
    apply SplitN_2 in E as [-> Hp]. destruct (String.eqb_spec (sign sm payload) sig) as [<-|]; [|done]. cbn [negb].
    destruct (Atoi payload) as [ts|] eqn:Et; [|done]. intros Hlt%Z.ltb_lt. exists payload, ts. by rewrite string_app_cons, string_app_nil_l.
  - intros (payload & ts & -> & Hp & Ht & Hlt). rewrite string_app_cons, string_app_nil_l.
    rewrite (proj2 (SplitN_2 _ _ payload (sign sm payload)) (conj eq_refl Hp)), String.eqb_refl. cbn [negb]. rewrite Ht. by apply Z.ltb_lt.
Qed.

(** A session handed out is accepted until the maximum age has passed since the second it was
    handed out in. *)
Lemma session_lifetime sm r issued now : unix_epoch <= issued -> issued / Second <= max_int64 ->
  rq_Cookie r = Some (SetSession sm issued) ->
  ValidSession sm r now = (TimeSub now (Truncate issued Second) <? sm_maxAge sm).
Proof.
  intros Hlo Hhi Hc. set (ts := (issued - unix_epoch) / Second).
  assert (unix_epoch = 62135596800 * Second) as Hu by done.
  assert (ts = issued / Second - 62135596800) as Hts by (unfold ts; rewrite Hu;
    replace (issued - 62135596800 * Second) with (issued + (-62135596800) * Second) by ring; rewrite Z.div_add by (unfold Second; lia); lia).
  pose proof (Z.div_le_mono unix_epoch issued Second ltac:(unfold Second; lia) Hlo) as Hdiv. rewrite Hu, Z.div_mul in Hdiv by (unfold Second; lia).
  destruct (Itoa_nonneg ts ltac:(lia)) as (Hd & _ & _).
  assert (has_byte "." (Itoa ts) = false) as Hdot by by apply all_digits_no_byte.
  assert (Atoi (Itoa ts) = Some ts) as Hat by (apply Atoi_Itoa; unfold max_int64 in *; lia).
  assert (TimeUnix ts = Truncate issued Second) as Ht.
  { unfold TimeUnix, Truncate. rewrite wrap64_id; [|unfold in_int64, min_int64, max_int64 in *; apply andb_true_iff; split; apply Z.leb_le; lia].
    destruct (Z.leb_spec Second 0); [unfold Second in *; lia|]. pose proof (Z.div_mod issued Second ltac:(unfold Second; lia)). lia. }
  unfold ValidSession. rewrite Hc. unfold SetSession. fold ts. rewrite string_app_cons, string_app_nil_l.
  rewrite (proj2 (SplitN_2 _ _ (Itoa ts) (sign sm (Itoa ts))) (conj eq_refl Hdot)), String.eqb_refl. cbn [negb]. by rewrite Hat, Ht.
Qed.

(** A login works until it expires: the cookie a login sets is accepted from then on for the
    maximum age, to the second, and no longer. *)
Theorem session_roundtrip sm r issued now : unix_epoch <= issued -> issued / Second <= max_int64 ->
  rq_Cookie r = Some (SetSession sm issued) -> 0 < sm_maxAge sm <= max_int64 -> issued <= now ->
  (now - Truncate issued Second < sm_maxAge sm -> ValidSession sm r now = true) /\
  (sm_maxAge sm <= now - Truncate issued Second -> ValidSession sm r now = false).
Proof.
  intros Hlo Hhi Hc Hm Hnow. rewrite (session_lifetime sm r issued now Hlo Hhi Hc). unfold TimeSub, min_int64, max_int64 in *.
  assert (Truncate issued Second <= issued) as Ht.
  { unfold Truncate. case_match; [lia|]. bool_prop. pose proof (Z.mod_pos_bound issued Second ltac:(lia)). lia. }
  split; intros H; [apply Z.ltb_lt|apply Z.ltb_ge]; lia.
Qed.

(** ** A production server is closed *)

(** The credentials of the configured dashboard mode. *)
Definition presents (cfg : AuthConfig) (r : HttpRequest) : Prop :=
  (ac_DashboardMode cfg = "basic" /\ ac_DashboardPass cfg <> "" /\
     exists form, rq_Form r = Some form /\ form "username" = ac_DashboardUser cfg /\ form "password" = ac_DashboardPass cfg) \/
  (ac_DashboardMode cfg = "key" /\ ac_DashboardKey cfg <> "" /\
     (extractToken r = ac_DashboardKey cfg \/ exists form, rq_Form r = Some form /\ form "key" = ac_DashboardKey cfg)).

Lemma ConstantTimeCompare_eq a b : (ConstantTimeCompare a b =? 1) = String.eqb a b.
Proof. unfold ConstantTimeCompare. by destruct (String.eqb a b). Qed.

Lemma gate_closed env cfg sm r now : closed_config env cfg ->
  (DashboardGate cfg (Some sm) r now = Some Pass -> ValidSession sm r now = true) /\
  (forall cookie next, DashboardGate cfg (Some sm) r now = Some (WithSession cookie next) -> cookie = SetSession sm now /\ presents cfg r).
Proof.
  intros Hc. pose proof (cc_mode _ _ Hc) as Hm. unfold DashboardGate, handleBasicLogin, handleKeyLogin, set_session, presents. rewrite !ConstantTimeCompare_eq.
  destruct Hm as [(-> & Hu & Hp)|(-> & Hk)]; cbn [String.eqb Ascii.eqb]; destruct (ValidSession sm r now); try done; (split; [|intros cookie next]).
  - cbn. repeat (case_match; try done).
  - cbn. repeat (case_match; try done). rewrite !ConstantTimeCompare_eq in *. intros [= <- _]. bool_prop. naive_solver.
  - cbn. repeat (case_match; try done).
  - cbn. repeat (case_match; try done); rewrite ?ConstantTimeCompare_eq in *; intros [= <- _]; bool_prop; naive_solver.
Qed.

(** C29: A production server is closed: under a configuration it accepts in the prod profile
    every scope has keys, none of them empty; the write and agent endpoints serve exactly the
    requests that present one of their keys, the read endpoints those and the requests with a
    session signed with the configured, non-empty secret; the dashboard opens to such sessions
    only, and a session is given only to who presents the dashboard's credentials. *)
Theorem production_is_closed env cfg r now : ParseConfig env = inr cfg -> ac_Profile cfg = ProfileProd ->
  let secret := TrimSpace (env "DASHBOARD_SESSION_SECRET") in
  let sm := mkSessionManager secret DefaultSessionMaxAge true in
  secret <> "" /\ ("" ∉ (ac_WriteKeys cfg ++ ac_ReadKeys cfg ++ ac_AgentKeys cfg)) /\
  (writeKeyAuth cfg r now = Pass <-> extractToken r ∈ ac_WriteKeys cfg) /\
  (agentKeyAuth cfg r now = Pass <-> extractToken r ∈ ac_AgentKeys cfg) /\
  (readKeyAuth cfg r now = Pass <-> (extractToken r ∈ ac_ReadKeys cfg \/ ValidSession sm r now = true)) /\
  (dashGate cfg r now = Some Pass -> ValidSession sm r now = true) /\
  (forall cookie next, dashGate cfg r now = Some (WithSession cookie next) -> cookie = SetSession sm now /\ presents cfg r).
Proof.
  intros Hp Hprod secret sm. pose proof (ParseConfig_closed env cfg Hp Hprod) as Hc.
  assert (server_sessions cfg = Some sm) as Hsm.
  { unfold server_sessions, sm, secret. rewrite <- (proj1 (cc_secret _ _ Hc)), Hprod. by destruct (cc_mode _ _ Hc) as [(-> & _)|(-> & _)]. }
  destruct (cc_write _ _ Hc) as [W W'], (cc_read _ _ Hc) as [R R'], (cc_agent _ _ Hc) as [A A'].
  unfold writeKeyAuth, agentKeyAuth, readKeyAuth, dashGate. rewrite !KeyMiddleware_pass, Hsm by done.
  split; [unfold secret; rewrite <- (proj1 (cc_secret _ _ Hc)); apply (cc_secret _ _ Hc)|].
  split; [set_solver|]. split; [simpl; naive_solver|split; [simpl; naive_solver|split; [done|]]].
  by apply (gate_closed env).
Qed.

Definition prod_env (name : string) : string :=
  if String.eqb name "WAYLOG_PROFILE" then " Prod" else
  if String.eqb name "WAYLOG_WRITE_KEY" then "w1, w2" else
  if String.eqb name "WAYLOG_READ_KEY" then "r1" else
  if String.eqb name "WAYLOG_AGENT_KEY" then "a1" else
  if String.eqb name "DASHBOARD_AUTH" then "basic:ops:pa:ss" else
  if String.eqb name "DASHBOARD_SESSION_SECRET" then "s3cret" else "".

Definition prod_cfg : AuthConfig := mkAuthConfig ["w1"; "w2"] ["r1"] ["a1"] "WAYLOG_WRITE_KEY" "prod" "basic" "ops" "pa:ss" "" "s3cret".

Definition header (name value : string) (cookie : option string) : HttpRequest :=
  mkHttpRequest "GET" (fun n => if String.eqb n name then value else "") cookie None "10.0.0.1:5123".

Definition prod_sm : SessionManager := mkSessionManager "s3cret" DefaultSessionMaxAge true.
Definition login_time : Time := unix_epoch + 1700000000 * Second + 5.

Example ParseConfig_prod : ParseConfig prod_env = inr prod_cfg /\
  ParseConfig (fun n => if String.eqb n "WAYLOG_READ_KEY" then " , " else prod_env n) = inl (MissingKeys ["WAYLOG_READ_KEY"]) /\
  ParseConfig (fun n => if String.eqb n "DASHBOARD_SESSION_SECRET" then "" else prod_env n) = inl SecretRequired /\
  WeakKeyWarnings prod_cfg = [].
Proof. vm_compute. done. Qed.

Lemma production_is_closed_witness :
  (writeKeyAuth prod_cfg (header "Authorization" "bearer w2" None) login_time = Pass <->
   extractToken (header "Authorization" "bearer w2" None) ∈ ac_WriteKeys prod_cfg) /\
  writeKeyAuth prod_cfg (header "Authorization" "bearer w2" None) login_time = Pass /\
  readKeyAuth prod_cfg (header "X-Api-Key" "w2" None) login_time = Unauthorized "read".
Proof.
  split; [|vm_compute; done].
  exact (proj1 (proj2 (proj2 (production_is_closed prod_env prod_cfg (header "Authorization" "bearer w2" None) login_time
    ltac:(vm_compute; reflexivity) eq_refl)))).
Defined.

Lemma session_roundtrip_witness :
  ValidSession prod_sm (header "" "" (Some (SetSession prod_sm login_time))) (login_time + Hour) = true /\
  ValidSession prod_sm (header "" "" (Some (SetSession prod_sm login_time))) (login_time + 24 * Hour) = false.
Proof.
  split.
  - apply (session_roundtrip prod_sm _ login_time (login_time + Hour)); [vm_compute; discriminate..|reflexivity|split; vm_compute; done|vm_compute; discriminate|vm_compute; reflexivity].
  - apply (session_roundtrip prod_sm _ login_time (login_time + 24 * Hour)); [vm_compute; discriminate..|reflexivity|split; vm_compute; done|vm_compute; discriminate|vm_compute; discriminate].
Defined.
