(* ===== verification/Alerts.v ===== *)
(** Signals and alerts coming in ([internal/signals/validate.go], [handler.go];
    [internal/alerts/alerts.go]): validation, the normalisation of the payloads of four alert
    providers, the incident an alert is said to match, and the two endpoints.  JSON decoding
    is the class [Json] of [PlanRef]; the signal store is a parameter of the endpoints. *)

From S2P Require Import Prelude GoRuntime GoFloat GoText PlanRef Types Incident Capture.
Open Scope Z_scope.

(** ** Validation ([validate.go]) *)

Definition CodeInvalidField : string := "invalid_field".
Definition CodeUnknownType : string := "unknown_type".
Definition CodeUnknownSeverity : string := "unknown_severity".
Definition CodeTimestampTooFarInFuture : string := "timestamp_too_far_in_future".

Record ValidationError := mkValidationError { ve_Code : string; ve_Field : string }.

Definition blank (s : string) : bool := String.eqb (TrimSpace s) "".

Definition Validate (s : Signal) (now : Time) (futureSkew : Duration) : option ValidationError :=
  let invalidField f := Some (mkValidationError CodeInvalidField f) in
  if blank (sig_Type s) then invalidField "type"
  else if negb (Type_Valid (sig_Type s)) then Some (mkValidationError CodeUnknownType "type")
  else if blank (sig_Source s) then invalidField "source"
  else if blank (sig_Service s) then invalidField "service"
  else if blank (sig_Env s) then invalidField "env"
  else if blank (sig_Severity s) then invalidField "severity"
  else if negb (Severity_Valid (sig_Severity s)) then Some (mkValidationError CodeUnknownSeverity "severity")
  else if blank (sig_Reason s) then invalidField "reason"
  else if IsZero (sig_Timestamp s) then invalidField "timestamp"
  else if (0 <? futureSkew) && After (sig_Timestamp s) (TimeAdd now futureSkew)
  then Some (mkValidationError CodeTimestampTooFarInFuture "timestamp")
  else None.

(** A signal with the id and the time of receipt the server gives it. *)
Definition with_receipt (s : Signal) (id : string) (at_ : Time) : Signal :=
  mkSignal id (sig_Type s) (sig_Source s) (sig_Service s) (sig_Env s) (sig_Severity s) (sig_Reason s) (sig_Message s)
    (sig_Resource s) (sig_Metadata s) (sig_Timestamp s) at_ (sig_Extra s).

(** [NewSignalID]: a UUID without its dashes. *)
Definition NewSignalID (uuid : string) : string := "sig_" +:+ ReplaceAll uuid "-" "".

(** ** Alert payloads ([alerts.go]) *)

Section Payload.
Context `{Json}.

Definition raw_object : Type := gmap string string.

Definition has (root : raw_object) (key : string) : bool := bool_decide (is_Some (root !! key)).

Definition getString (root : raw_object) (key : string) : string :=
  match root !! key ≫= Unmarshal with Some (VStr s) => TrimSpace s | _ => "" end.

(** [stringMapField] is [getString] on a map that may be nil. *)
Definition stringMapField (root : raw_object) (key : string) : string := getString root key.

Definition objectField (root : raw_object) (key : string) : raw_object := default ∅ (root !! key ≫= UnmarshalObject).

(** The first of an array of objects; an array with anything else in it is none. *)
Definition firstObject (root : raw_object) (key : string) : raw_object :=
  match root !! key with
  | None => ∅
  | Some raw =>
    match UnmarshalArray raw with
    | None => ∅
    | Some raws => match mapM UnmarshalObject raws with Some (o :: _) => o | _ => ∅ end
    end
  end.

Definition firstNonEmpty (values : list string) : string :=
  match List.find (fun v => negb (blank v)) values with Some v => TrimSpace v | None => "" end.

Fixpoint firstString (primary secondary : raw_object) (keys : list string) : string :=
  match keys with
  | [] => ""
  | key :: keys =>
    if negb (String.eqb (stringMapField primary key) "") then stringMapField primary key
    else if negb (String.eqb (stringMapField secondary key) "") then stringMapField secondary key
    else firstString primary secondary keys
  end.

Definition put (m : gmap string value) (key v : string) : gmap string value :=
  if String.eqb v "" then m else <[key := VStr v]> m.

Definition severityFromString (s : string) : string :=
  let s := ToLower (TrimSpace s) in
  if bool_decide (s ∈ ["critical"; "error"; "high"; "triggered"]) then SeverityCritical
  else if bool_decide (s ∈ ["info"; "resolved"; "ok"]) then SeverityInfo
  else SeverityWarning.

Definition timeField (root : raw_object) (key : string) (fallback : Time) : Time :=
  match root !! key ≫= Unmarshal with
  | Some (VStr s) => if String.eqb s "" then fallback else default fallback (ParseRFC3339Nano s)
  | _ => fallback
  end.

Definition getTime (root : raw_object) (key : string) (fallback : Time) : Time :=
  let t := timeField root key time_zero in if IsZero t then fallback else t.

Inductive NormalizeError := InvalidJSON | UnsupportedAlert | MissingFields.

Definition raw_source (source : string) : gmap string value := {[ "raw_source" := VStr source ]}.

Definition baseMeta (root : raw_object) (source : string) : gmap string value :=
  foldl (fun m key => put m key (getString root key)) (raw_source source)
    ["alert_id"; "error_code"; "trace_id"; "incident_id"; "provider_url"; "fingerprint"].

Definition finalize (source service env severity reason message : string) (ts : Time) (meta : gmap string value) : NormalizeError + Signal :=
  if blank service || blank env || blank reason then inl MissingFields
  else
    let severity := if String.eqb severity "" then SeverityWarning else severity in
    inr (mkSignal "" TypeAlert source service env severity reason message ∅ meta ts time_zero ∅).

Definition normalizeWaylog (root : raw_object) (now : Time) : NormalizeError + Signal :=
  let src := if String.eqb (getString root "source") "" then "waylog" else getString root "source" in
  finalize src (getString root "service") (getString root "env") (severityFromString (getString root "severity"))
    (getString root "reason") (getString root "message") (getTime root "timestamp" now) (baseMeta root src).

Definition normalizeAlertmanager (root : raw_object) (now : Time) : NormalizeError + Signal :=
  let alert := firstObject root "alerts" in
  let labels := objectField alert "labels" in
  let annotations := objectField alert "annotations" in
  let meta := raw_source "alertmanager" in
  let meta := put meta "alert_id" (firstString alert labels ["fingerprint"; "alertname"]) in
  let meta := put meta "fingerprint" (firstString alert labels ["fingerprint"]) in
  let meta := put meta "provider_url" (firstString alert annotations ["generatorURL"; "runbook_url"]) in
  let meta := put meta "error_code" (stringMapField labels "error_code") in
  let reason := firstNonEmpty [stringMapField annotations "summary"; stringMapField annotations "description"; stringMapField labels "alertname"] in
  finalize "alertmanager" (stringMapField labels "service") (stringMapField labels "env")
    (severityFromString (stringMapField labels "severity")) reason (stringMapField annotations "description") (timeField alert "startsAt" now) meta.

Definition normalizeGrafana (root : raw_object) (now : Time) : NormalizeError + Signal :=
  let alert := firstObject root "alerts" in
  let labels := objectField alert "labels" in
  let annotations := objectField alert "annotations" in
  let alert := if (size alert =? 0)%nat then root else alert in
  let meta := raw_source "grafana" in
  let meta := put meta "alert_id" (firstNonEmpty [getString root "ruleUID"; getString root "ruleId"; stringMapField labels "alertname"]) in
  let meta := put meta "fingerprint" (stringMapField alert "fingerprint") in
  let meta := put meta "provider_url" (firstString alert root ["dashboardURL"; "panelURL"; "generatorURL"; "ruleUrl"]) in
  let meta := put meta "error_code" (firstNonEmpty [stringMapField labels "error_code"; getString root "error_code"]) in
  let reason := firstNonEmpty [stringMapField annotations "summary"; getString root "title"; getString root "ruleName"; stringMapField labels "alertname"] in
  finalize "grafana" (firstNonEmpty [stringMapField labels "service"; getString root "service"])
    (firstNonEmpty [stringMapField labels "env"; getString root "env"])
    (severityFromString (firstNonEmpty [stringMapField labels "severity"; getString root "state"])) reason
    (stringMapField annotations "description") (timeField alert "startsAt" now) meta.

Definition normalizePagerDuty (root : raw_object) (now : Time) : NormalizeError + Signal :=
  let msg := firstObject root "messages" in
  let event := objectField msg "event" in
  let data := objectField event "data" in
  let data := if (size data =? 0)%nat then objectField root "incident" else data in
  let serviceObj := objectField data "service" in
  let meta := raw_source "pagerduty" in
  let meta := put meta "alert_id" (firstNonEmpty [stringMapField data "id"; stringMapField event "id"]) in
  let meta := put meta "provider_url" (stringMapField data "html_url") in
  let meta := put meta "error_code" (stringMapField data "error_code") in
  let meta := put meta "incident_id" (stringMapField data "incident_id") in
  let reason := firstNonEmpty [stringMapField data "title"; stringMapField data "summary"; stringMapField event "event_type"] in
  finalize "pagerduty" (firstNonEmpty [stringMapField data "service"; stringMapField serviceObj "summary"]) (stringMapField data "env")
    (severityFromString (firstNonEmpty [stringMapField data "urgency"; stringMapField data "severity"])) reason
    (stringMapField data "description") (timeField data "created_at" now) meta.

Definition isGrafanaAlertmanagerPayload (root : raw_object) : bool :=
  has root "orgId" || has root "orgID" ||
  let alert := firstObject root "alerts" in
  has alert "dashboardURL" || has alert "panelURL" || has alert "ruleURL" ||
  negb (String.eqb (stringMapField (objectField alert "labels") "grafana_folder") "") ||
  negb (String.eqb (stringMapField (objectField alert "annotations") "__dashboardUid__") "") ||
  negb (String.eqb (stringMapField (objectField alert "annotations") "__panelId__") "").

Definition Normalize (body : string) (now : Time) : NormalizeError + Signal :=
  match UnmarshalObject body with
  | None => inl InvalidJSON
  | Some root =>
    let source := getString root "source" in
    if negb (String.eqb source "") && negb (String.eqb source "waylog") then normalizeWaylog root now
    else if has root "ruleId" || has root "ruleUID" || has root "evalMatches" || isGrafanaAlertmanagerPayload root then normalizeGrafana root now
    else if has root "source" || has root "alert_id" then normalizeWaylog root now
    else if has root "alerts" && (has root "receiver" || has root "commonLabels") then normalizeAlertmanager root now
    else if has root "messages" || has root "event" then normalizePagerDuty root now
    else inl UnsupportedAlert
  end.
End Payload.

(** ** The incident an alert matches *)

Record MatchResult := mkMatchResult { mr_IncidentID : option string; mr_Strategy : string }.

(** The incident engine, as the handler sees it ([None] is an error), and the reader. *)
Record IncidentSource := mkIncidentSource { src_Active : option (list Incident); src_Get : string -> option Incident }.
Definition TraceResolver : Type := string -> option StoryResponse.

Definition NewHandler_window (matchWindow : Duration) : Duration := clamp_window matchWindow.

Definition active_candidate (env service errorCode : string) (ts : Time) (matchWindow : Duration) (inc : Incident) : bool :=
  String.eqb (inc_Status inc) StatusActive &&
  negb (negb (String.eqb env "") && negb (String.eqb (inc_Env inc) "") && negb (String.eqb (inc_Env inc) env)) &&
  (String.eqb (ef_Service (inc_ErrorFamily inc)) service && String.eqb (ef_ErrorCode (inc_ErrorFamily inc)) errorCode) &&
  (IsZero ts || negb (Before ts (TimeAdd (inc_StartedAt inc) (- matchWindow)) || After ts (TimeAdd (inc_UpdatedAt inc) matchWindow))).

Definition findActive (incs : IncidentSource) (matchWindow : Duration) (env service errorCode : string) (ts : Time) : option Incident :=
  rows ← src_Active incs; List.find (active_candidate env service errorCode ts matchWindow) rows.

Definition Match (incidents : option IncidentSource) (traces : option TraceResolver) (matchWindow : Duration) (sig : Signal) : MatchResult :=
  match incidents with
  | None => mkMatchResult None "none"
  | Some incs =>
    let meta key := signalMetaString (sig_Metadata sig) key in
    let by_id := if String.eqb (meta "incident_id") "" then None else src_Get incs (meta "incident_id") in
    match by_id with
    | Some inc => mkMatchResult (Some (inc_IncidentID inc)) "incident_id"
    | None =>
      let by_trace :=
        match traces with
        | Some story_of =>
          if String.eqb (meta "trace_id") "" then None else
          story ← story_of (meta "trace_id"); a ← sr_Anchor story;
          findActive incs matchWindow (sig_Env sig) (sr_Service story) (sa_ErrorCode a) (sig_Timestamp sig)
        | None => None
        end in
      match by_trace with
      | Some inc => mkMatchResult (Some (inc_IncidentID inc)) "trace_id"
      | None =>
        let by_family := if String.eqb (meta "error_code") "" then None
                         else findActive incs matchWindow (sig_Env sig) (sig_Service sig) (meta "error_code") (sig_Timestamp sig) in
        match by_family with
        | Some inc => mkMatchResult (Some (inc_IncidentID inc)) "family"
        | None => mkMatchResult None "none"
        end
      end
    end
  end.

(** ** The endpoints *)

Inductive InsertError := InsertUnavailable | InsertFailed.

(** What reading a request gives: its body, a body beyond the limit, or a broken one. *)
Inductive body := Body (text : string) | TooLarge | Broken.

Inductive answer (A : Type) := Created (a : A) | Rejected (status : Z) (code : string).
Arguments Created {A}.
Arguments Rejected {A}.

Section Endpoints.
Context {S : Type} (Insert : S -> Signal -> S * option InsertError) `{Json}.

Definition futureSkew : Duration := 5 * Minute.

(** [Handler.Alerts]: [t1], [t2] and [t3] are the readings of the clock. *)
Definition Alerts (incidents : option IncidentSource) (traces : option TraceResolver) (matchWindow : Duration)
    (method : string) (b : body) (uuid : string) (t1 t2 t3 : Time) (s : S) : S * answer (Signal * MatchResult) :=
  if negb (String.eqb method "POST") then (s, Rejected 405 "METHOD_NOT_ALLOWED") else
  match b with
  | TooLarge | Broken => (s, Rejected 400 "INVALID_JSON")
  | Body text =>
    match Normalize text t1 with
    | inl InvalidJSON => (s, Rejected 400 "INVALID_JSON")
    | inl UnsupportedAlert => (s, Rejected 400 "UNSUPPORTED_ALERT")
    | inl MissingFields => (s, Rejected 400 "MISSING_FIELDS")
    | inr sig =>
      let m := Match incidents traces matchWindow sig in
      let sig := with_receipt sig (NewSignalID uuid) t2 in
      match Validate sig t3 futureSkew with
      | Some _ => (s, Rejected 400 "MISSING_FIELDS")
      | None =>
        match Insert s sig with
        | (s, None) => (s, Created (sig, m))
        | (s, Some InsertUnavailable) => (s, Rejected 503 "SIGNALS_UNAVAILABLE")
        | (s, Some InsertFailed) => (s, Rejected 500 "INTERNAL")
        end
      end
    end
  end.

(** The decoder of a signal refuses a text with the code of a validation error or of JSON. *)
Definition SignalDecoder : Type := string -> string + Signal.

(** [Handler.Signals]. *)
Definition Signals (decode : SignalDecoder) (method : string) (b : body) (uuid : string) (now : Time) (s : S) : S * answer Signal :=
  if negb (String.eqb method "POST") then (s, Rejected 405 "unsupported_method") else
  match b with
  | TooLarge => (s, Rejected 413 "body_oversize")
  | Broken => (s, Rejected 400 "invalid_body")
  | Body text =>
    match decode text with
    | inl code => (s, Rejected 400 code)
    | inr sig =>
      match Validate sig now futureSkew with
      | Some err => (s, Rejected 400 (ve_Code err))
      | None =>
        let sig := with_receipt sig (NewSignalID uuid) now in
        match Insert s sig with
        | (s, None) => (s, Created sig)
        | (s, Some InsertUnavailable) => (s, Rejected 503 "durability_unavailable")
        | (s, Some InsertFailed) => (s, Rejected 500 "internal_error")
        end
      end
    end
  end.
End Endpoints.

(** ** What the endpoints promise *)

Lemma blank_trim s : blank (TrimSpace s) = blank s.
Proof. unfold blank. by rewrite TrimSpace_idem. Qed.

Lemma severityFromString_ok s : Severity_Valid (severityFromString s) = true /\ blank (severityFromString s) = false /\ severityFromString s <> "".
Proof. unfold severityFromString. repeat case_match; by vm_compute. Qed.

(** What normalisation makes: an alert with everything that validation asks for but the time. *)
Definition well_formed (sig : Signal) : Prop :=
  sig_Type sig = TypeAlert /\ blank (sig_Source sig) = false /\ blank (sig_Service sig) = false /\ blank (sig_Env sig) = false /\
  blank (sig_Reason sig) = false /\ blank (sig_Severity sig) = false /\ Severity_Valid (sig_Severity sig) = true.

Lemma finalize_well_formed source service env severity reason message ts meta sig : blank source = false ->
  finalize source service env (severityFromString severity) reason message ts meta = inr sig -> well_formed sig.
Proof.
  intros Hs. unfold finalize. destruct (severityFromString_ok severity) as (Hv & Hb & Hne%String.eqb_neq). rewrite Hne.
  case_match eqn:E; [done|]. intros [= <-]. bool_prop. unfold well_formed. simpl. tauto.
Qed.

Section Normalized.
Context `{Json}.

Lemma Normalize_well_formed text now sig : Normalize text now = inr sig -> well_formed sig.
Proof.
  assert (forall root, normalizeWaylog root now = inr sig -> well_formed sig) as Hw.
  { intros root. unfold normalizeWaylog. apply finalize_well_formed. case_if; [done|]. apply String.eqb_neq in E. unfold getString in *.
    repeat case_match; try done. rewrite blank_trim. unfold blank. by apply String.eqb_neq. }
  unfold Normalize. case_match; [|done]. repeat case_match; try done; try apply Hw; by apply finalize_well_formed.
Qed.

Lemma put_other m key v k : key <> k -> put m key v !! k = m !! k.
Proof. intros Hk. unfold put. case_if; [done|]. by rewrite lookup_insert_ne. Qed.

(** No provider's payload gives an alert a step. *)
Lemma Normalize_no_step text now sig : Normalize text now = inr sig -> signalMetaString (sig_Metadata sig) "step" = "".
Proof.
  assert (forall source service env severity reason message ts meta, meta !! "step" = None ->
    finalize source service env severity reason message ts meta = inr sig -> signalMetaString (sig_Metadata sig) "step" = "") as Hf.
  { intros source service env severity reason message ts meta Hm. unfold finalize. case_if; [done|]. intros [= <-]. unfold signalMetaString. simpl. by rewrite Hm. }
  assert (forall source, raw_source source !! "step" = None) as Hr by done.
  assert (forall root, normalizeWaylog root now = inr sig -> signalMetaString (sig_Metadata sig) "step" = "") as Hw.
  { intros root. apply Hf. unfold baseMeta. cbn [foldl]. by rewrite !put_other by done. }
  unfold Normalize. case_match; [|done]. repeat (case_if; [apply Hw || (apply Hf; by rewrite !put_other by done)|]). done.
Qed.

(** A well-formed alert is valid unless its time is missing or too far ahead. *)
Lemma Validate_well_formed sig id at_ now : well_formed sig ->
  Validate (with_receipt sig id at_) now futureSkew =
    if IsZero (sig_Timestamp sig) then Some (mkValidationError CodeInvalidField "timestamp")
    else if After (sig_Timestamp sig) (TimeAdd now futureSkew) then Some (mkValidationError CodeTimestampTooFarInFuture "timestamp") else None.
Proof.
  intros (Ht & Hs & Hv & He & Hr & Hb & Hsev). unfold Validate. simpl. rewrite Ht, Hs, Hv, He, Hr, Hb, Hsev. done.
Qed.

Context {S : Type} (Insert : S -> Signal -> S * option InsertError).

(** The alert endpoint stores what it acknowledges and nothing else: an alert answered as
    created is in the store once, is complete, has a severity of the three and a time that is
    neither missing nor more than five minutes ahead; an alert refused left the store
    untouched, unless it is the store that failed; and an alert that could be read at all is
    refused before the store for its time only. *)
Theorem alert_endpoint incidents traces w method b uuid t1 t2 t3 s :
  match Alerts Insert incidents traces w method b uuid t1 t2 t3 s with
  | (s', Created (sig, m)) =>
      Insert s sig = (s', None) /\ well_formed sig /\ sig_SignalID sig = NewSignalID uuid /\ sig_ReceivedAt sig = t2 /\
      sig_Timestamp sig <> 0 /\ sig_Timestamp sig <= t3 + futureSkew /\ m = Match incidents traces w sig
  | (s', Rejected 400 _) => s' = s /\ forall text sig, method = "POST" -> b = Body text -> Normalize text t1 = inr sig ->
      sig_Timestamp sig = 0 \/ t3 + futureSkew < sig_Timestamp sig
  | (s', Rejected 405 _) => s' = s
  | (s', Rejected _ _) => exists sig err, Insert s sig = (s', Some err) /\ well_formed sig
  end.
Proof.
  unfold Alerts. destruct (String.eqb_spec method "POST") as [->|]; [cbn [negb]|done].
  destruct b as [text| |]; [|by split; [|intros ???]..].
  destruct (Normalize text t1) as [[]|sig] eqn:En; [split; [done|]; intros ?? _ [= <-]; by rewrite En..|].
  pose proof (Normalize_well_formed _ _ _ En) as Hwf. rewrite (Validate_well_formed sig _ _ t3 Hwf).
  destruct (Z.eqb_spec (sig_Timestamp sig) 0) as [Hz|Hz].
  - unfold IsZero. rewrite Hz. split; [done|]. intros text' sig' _ [= <-]. rewrite En. intros [= <-]. auto.
  - unfold IsZero. apply Z.eqb_neq in Hz as Hz'. rewrite Hz'. destruct (After (sig_Timestamp sig) (TimeAdd t3 futureSkew)) eqn:Ea.
    + split; [done|]. intros text' sig' _ [= <-]. rewrite En. intros [= <-]. right. by apply Z.ltb_lt in Ea.
    + apply Z.ltb_ge in Ea. unfold TimeAdd in Ea. destruct (Insert s _) as [s' [[]|]] eqn:Ei; [by eexists _, _; split; [exact Ei|]..|].
      repeat (split; [done|]). done.
Qed.
End Normalized.

(** What a match says. *)
Definition matches_active (w : Duration) (env service code : string) (ts : Time) (inc : Incident) : Prop :=
  inc_Status inc = StatusActive /\ (env = "" \/ inc_Env inc = "" \/ inc_Env inc = env) /\
  ef_Service (inc_ErrorFamily inc) = service /\ ef_ErrorCode (inc_ErrorFamily inc) = code /\
  (ts = 0 \/ inc_StartedAt inc - w <= ts <= inc_UpdatedAt inc + w).

Lemma active_candidate_spec w env service code ts inc :
  active_candidate env service code ts w inc = true <-> matches_active w env service code ts inc.
Proof.
  unfold active_candidate, matches_active, IsZero, Before, After, TimeAdd. rewrite !andb_true_iff, orb_true_iff, !negb_true_iff, !andb_false_iff, orb_false_iff, !negb_false_iff.
  rewrite !String.eqb_eq, Z.eqb_eq, !Z.ltb_ge. replace (inc_StartedAt inc + - w) with (inc_StartedAt inc - w) by lia. tauto.
Qed.

Lemma findActive_spec incs w env service code ts inc : findActive incs w env service code ts = Some inc ->
  exists rows, src_Active incs = Some rows /\ inc ∈ rows /\ matches_active w env service code ts inc.
Proof.
  unfold findActive. destruct (src_Active incs) as [rows|]; [|done]. cbn [mbind option_bind]. intros Hf. exists rows. split; [done|].
  apply List.find_some in Hf as [Hin Hc]. split; [by apply list_elem_of_In|by apply active_candidate_spec].
Qed.

Lemma capture_attaches rows inc at_ w sig strategy : sig ∈ rows ->
  matchAlertSignalToIncident sig inc (clamp_window w) at_ = (true, strategy) ->
  let e := captureAlertEvidenceFromSignals rows inc at_ w in
  ae_CaptureStatus e = CaptureOK /\ matchedAlertFromSignal sig strategy ∈ ae_Matches e.
Proof.
  intros Hin Hm. cbv zeta. unfold captureAlertEvidenceFromSignals. cbn [ae_CaptureStatus ae_Matches].
  match goal with |- context [length ?l] => set (out := l) end.
  assert (matchedAlertFromSignal sig strategy ∈ out) as Ho by (unfold out; apply list_elem_of_bind; exists sig; split; [rewrite Hm; left|done]).
  split; [|done]. clearbody out. destruct out; [by apply elem_of_nil in Ho|done].
Qed.

(** The alert that [Match] found by its family fits the incident from then on. *)
Lemma family_match_fits incs traces window sig id :
  Match (Some incs) traces (clamp_window window) sig = mkMatchResult (Some id) "family" ->
  sig_Type sig = TypeAlert -> sig_Timestamp sig <> 0 ->
  signalMetaString (sig_Metadata sig) "incident_id" = "" -> signalMetaString (sig_Metadata sig) "step" = "" ->
  exists rows inc, src_Active incs = Some rows /\ inc ∈ rows /\ inc_IncidentID inc = id /\ inc_Status inc = StatusActive /\
    forall inc' at_, inc_Env inc' = inc_Env inc -> inc_ErrorFamily inc' = inc_ErrorFamily inc -> inc_StartedAt inc' = inc_StartedAt inc ->
      sig_Timestamp sig <= at_ -> matchAlertSignalToIncident sig inc' (clamp_window window) at_ = (true, "family").
Proof.
  intros Hm Htype Hts Hid Hstep. unfold Match in Hm. rewrite Hid in Hm. cbn [String.eqb] in Hm.
  destruct (match traces with Some _ => _ | None => None end); [done|].
  destruct (String.eqb_spec (signalMetaString (sig_Metadata sig) "error_code") "") as [|Hc]; [done|].
  destruct (findActive _ _ _ _ _ _) as [inc|] eqn:Ef; [|done]. injection Hm as <-.
  apply findActive_spec in Ef as (rows & Hrows & Hin & Hs & Henv & Hsvc & Hcode & Hwin). exists rows, inc. do 4 (split; [done|]).
  intros inc' at_ He Hf Hst Hat.
  pose proof (clamp_window_range window) as Hw. unfold matchAlertSignalToIncident, signal_time, IsZero, Before, After, TimeAdd, dur_neg.
  rewrite He, Hf, Hst, Htype, Hid, Hstep, Hsvc, Hcode, (proj2 (Z.eqb_neq _ _) Hts), wrap64_id by (unfold in_int64, min_int64, max_int64, Hour, Minute, Second in *; apply andb_true_iff; split; apply Z.leb_le; lia).
  rewrite (proj2 (Z.ltb_ge _ _)) by lia. rewrite (proj2 (Z.ltb_ge at_ _)) by lia. cbn [String.eqb negb andb orb].
  rewrite !String.eqb_refl, (proj2 (String.eqb_neq _ _) Hc).
  destruct (String.eqb_spec (sig_Env sig) ""), (String.eqb_spec (inc_Env inc) ""), (String.eqb_spec (sig_Env sig) (inc_Env inc)),
    (String.eqb_spec (sig_Service sig) ""); cbn; rewrite ?andb_false_r; try done; destruct Henv as [?|[?|?]]; congruence.
Qed.

(** C31: What the alert endpoint says of a match holds later.  When it answers that an alert
    was created and matches an incident by its error family, the alert is the one the store
    took, the incident is active in the source the endpoint asked, and, unless the alert
    names an incident of its own, every later capture of alert evidence for that incident
    attaches it by its family: a capture whose signals include the alert, at a time not
    before the alert's, with the window the endpoint was made with, whatever else has
    changed about the incident but its environment, family and start.  (A capture reads the
    newest 200 signals of its environment and window; one that does not read the alert says
    nothing of it.) *)
Theorem family_match_attached `{Json} {S : Type} (Insert : S -> Signal -> S * option InsertError) incs traces window method b uuid t1 t2 t3 s s' sig id :
  Alerts Insert (Some incs) traces (NewHandler_window window) method b uuid t1 t2 t3 s = (s', Created (sig, mkMatchResult (Some id) "family")) ->
  signalMetaString (sig_Metadata sig) "incident_id" = "" ->
  Insert s sig = (s', None) /\
  exists rows inc, src_Active incs = Some rows /\ inc ∈ rows /\ inc_IncidentID inc = id /\ inc_Status inc = StatusActive /\
    forall inc' signals at_, inc_Env inc' = inc_Env inc -> inc_ErrorFamily inc' = inc_ErrorFamily inc -> inc_StartedAt inc' = inc_StartedAt inc ->
      sig ∈ signals -> sig_Timestamp sig <= at_ ->
      let e := captureAlertEvidenceFromSignals signals inc' at_ window in
      ae_CaptureStatus e = CaptureOK /\ matchedAlertFromSignal sig "family" ∈ ae_Matches e.
Proof.
  intros Ha Hid. pose proof (alert_endpoint Insert (Some incs) traces (NewHandler_window window) method b uuid t1 t2 t3 s) as He. rewrite Ha in He.
  destruct He as (Hins & (Htype & _) & _ & _ & Hts & _ & Hm). split; [done|].
  assert (signalMetaString (sig_Metadata sig) "step" = "") as Hstep.
  { clear -Ha. unfold Alerts in Ha. destruct (negb _); [done|]. destruct b as [text| |]; [|done..]. destruct (Normalize text t1) as [[]|sig0] eqn:En; [done..|].
    apply Normalize_no_step in En. destruct (Validate _ _ _); [done|]. destruct (Insert _ _) as [? [[]|]]; [done..|]. by injection Ha as _ <- _. }
  destruct (family_match_fits incs traces window sig id (eq_sym Hm) Htype Hts Hid Hstep) as (rows & inc & H1 & H2 & H3 & H4 & Hfit).
  exists rows, inc. do 4 (split; [done|]). intros inc' signals at_ Henv Hfam Hst Hin Hat. apply capture_attaches; [done|]. by apply Hfit.
Qed.

(** ** An incident and its alerts *)

Definition paged (meta : gmap string value) : Signal :=
  mkSignal "" TypeAlert "pagerduty" "api" "prod" SeverityCritical "error rate" "" ∅ meta (105 * Second) 0 ∅.

Definition open_incidents : IncidentSource :=
  let inc := sample_incident "i1" StatusActive 3 (100 * Second) in
  mkIncidentSource (Some [inc]) (fun id => if String.eqb id "i1" then Some inc else None).

Definition with_code : gmap string value := {[ "error_code" := VStr "PMT_502" ]}.

(** A codec of one text, an alert of Waylog's own format. *)
Definition alert_fields : gmap string string :=
  {[ "source" := "waylog"; "service" := "api"; "env" := "prod"; "severity" := "critical"; "reason" := "error rate"; "error_code" := "PMT_502";
     "timestamp" := "0001-01-01T00:01:45Z" ]}.
#[local] Instance alert_json : Json := {
  Unmarshal s := Some (VStr s); UnmarshalObject _ := Some alert_fields; UnmarshalArray _ := None; Marshal _ := None; MarshalObject _ := None }.

Definition keep_all (s : list Signal) (sig : Signal) : list Signal * option InsertError := (s ++ [sig], None).

Definition alert_answer : list Signal * answer (Signal * MatchResult) :=
  Alerts keep_all (Some open_incidents) None (NewHandler_window 0) "POST" (Body "{}") "u-1" (106 * Second) (106 * Second) (106 * Second) [].

Lemma family_match_attached_witness :
  exists sig, alert_answer = ([sig], Created (sig, mkMatchResult (Some "i1") "family")) /\
    matchedAlertFromSignal sig "family" ∈
      ae_Matches (captureAlertEvidenceFromSignals [sig] (sample_incident "i1" StatusActive 3 (100 * Second)) (110 * Second) 0).
Proof.
  assert (exists sig, alert_answer = ([sig], Created (sig, mkMatchResult (Some "i1") "family"))) as [sig Ha]
    by (eexists; vm_compute; reflexivity).
  exists sig. split; [exact Ha|].
  assert (signalMetaString (sig_Metadata sig) "incident_id" = "" /\ sig_Timestamp sig <= 110 * Second) as [Hid Hts].
  { vm_compute in Ha. injection Ha as <-. split; [reflexivity|vm_compute; discriminate]. }
  destruct (family_match_attached keep_all open_incidents None 0 "POST" (Body "{}") "u-1" (106 * Second) (106 * Second) (106 * Second) [] [sig] sig "i1" Ha Hid)
    as (_ & rows & inc & Hrows & Hin & _ & _ & H).
  injection Hrows as <-. apply list_elem_of_singleton in Hin as ->.
  apply (H (sample_incident "i1" StatusActive 3 (100 * Second)) [sig] (110 * Second)); [reflexivity..|left|exact Hts].
Defined.

(** An alert that names an incident the server does not know is matched by its family, as the
    sender is told, but no capture ever attaches it. *)
Example unknown_id_never_attached w at_ :
  Match (Some open_incidents) None (NewHandler_window 0) (paged (<["incident_id" := VStr "gone"]> with_code)) = mkMatchResult (Some "i1") "family" /\
  (matchAlertSignalToIncident (paged (<["incident_id" := VStr "gone"]> with_code)) (sample_incident "i1" StatusActive 3 (100 * Second)) w at_).1 = false.
Proof. split; [by vm_compute|]. unfold matchAlertSignalToIncident. simpl. by case_match. Qed.

(** An alert matched through the story of its trace carries no error code, and is never attached. *)
Definition story_of_t1 : TraceResolver := fun t =>
  if String.eqb t "t1" then Some (mkStoryResponse "t1" "api" "" "error" (Some (mkStoryAnchor "charge" "PMT_502")) [] [] [] "") else None.

Example trace_match_never_attached w at_ :
  Match (Some open_incidents) (Some story_of_t1) (NewHandler_window 0) (paged {["trace_id" := VStr "t1"]}) = mkMatchResult (Some "i1") "trace_id" /\
  (matchAlertSignalToIncident (paged {["trace_id" := VStr "t1"]}) (sample_incident "i1" StatusActive 3 (100 * Second)) w at_).1 = false.
Proof. split; [by vm_compute|]. unfold matchAlertSignalToIncident. simpl. by case_match. Qed.
