(* ===== verification/Cursor.v ===== *)
(** The text of cursors ([internal/ingest/v2/cursor.go]): a cursor is a small JSON object in
    unpadded URL-safe base64.  Base64 is defined; the JSON of a cursor is the class
    [CursorJson], with the round trip of [encoding/json] as its law. *)

From S2P Require Import Prelude GoRuntime GoFloat GoText Types Family Index TraceGraph Reader.
Open Scope Z_scope.

(** ** Base64 ([encoding/base64], the URL alphabet) *)

Definition alphabet : string := "ABCDEFGHIJKLMNOPQRSTUVWXYZabcdefghijklmnopqrstuvwxyz0123456789-_".

Definition b64_char (v : Z) : ascii := default "A"%char (String.get (Z.to_nat v) alphabet).

Definition b64_value (c : ascii) : option Z :=
  let n := Z.of_nat (nat_of_ascii c) in
  if (65 <=? n) && (n <=? 90) then Some (n - 65)
  else if (97 <=? n) && (n <=? 122) then Some (n - 71)
  else if (48 <=? n) && (n <=? 57) then Some (n + 4)
  else if n =? 45 then Some 62
  else if n =? 95 then Some 63
  else None.

(** Bytes in groups of three, four characters a group, no padding. *)
Fixpoint b64_encode (l : list Z) : list ascii :=
  match l with
  | x :: y :: z :: rest =>
    b64_char (x / 4) :: b64_char (x mod 4 * 16 + y / 16) :: b64_char (y mod 16 * 4 + z / 64) :: b64_char (z mod 64) :: b64_encode rest
  | [x; y] => [b64_char (x / 4); b64_char (x mod 4 * 16 + y / 16); b64_char (y mod 16 * 4)]
  | [x] => [b64_char (x / 4); b64_char (x mod 4 * 16)]
  | [] => []
  end.

Definition pad_char : ascii := "="%char.

(** The decoder, on text without line breaks; the bits left over in a last group are not
    looked at. *)
Fixpoint b64_decode (padded : bool) (l : list ascii) : option (list Z) :=
  match l with
  | [] => Some []
  | a :: b :: c :: d :: rest =>
    va ← b64_value a; vb ← b64_value b;
    if padded && Ascii.eqb c pad_char then
      if Ascii.eqb d pad_char && match rest with [] => true | _ => false end then Some [va * 4 + vb / 16] else None
    else
      vc ← b64_value c;
      if padded && Ascii.eqb d pad_char then
        match rest with [] => Some [va * 4 + vb / 16; vb mod 16 * 16 + vc / 4] | _ => None end
      else
        vd ← b64_value d; tail ← b64_decode padded rest;
        Some (va * 4 + vb / 16 :: vb mod 16 * 16 + vc / 4 :: vc mod 4 * 64 + vd :: tail)
  | [a; b; c] =>
    if padded then None else
    va ← b64_value a; vb ← b64_value b; vc ← b64_value c; Some [va * 4 + vb / 16; vb mod 16 * 16 + vc / 4]
  | [a; b] => if padded then None else va ← b64_value a; vb ← b64_value b; Some [va * 4 + vb / 16]
  | [_] => None
  end.

Definition is_newline (c : ascii) : bool := Ascii.eqb c (ascii_of_nat 10) || Ascii.eqb c (ascii_of_nat 13).

Definition bytes_text (l : list Z) : string := String.string_of_list_ascii ((fun z => ascii_of_nat (Z.to_nat z)) <$> l).

Definition EncodeToString (raw : string) : string := String.string_of_list_ascii (b64_encode (Sha256.string_bytes raw)).

Definition DecodeString (padded : bool) (s : string) : option string :=
  bytes_text <$> b64_decode padded (List.filter (fun c => negb (is_newline c)) (String.list_ascii_of_string s)).

Example base64_ex :
  EncodeToString "light wor" = "bGlnaHQgd29y" /\ EncodeToString "light wo" = "bGlnaHQgd28" /\ EncodeToString "light w" = "bGlnaHQgdw" /\
  DecodeString true "bGlnaHQgdw==" = Some "light w" /\ DecodeString false "bGlnaHQgdw==" = None /\
  DecodeString true "bGlnaHQgd28=" = Some "light wo" /\ DecodeString false "bGln$" = None.
Proof. vm_compute. done. Qed.

(** ** Cursors *)

Class CursorJson := {
  MarshalEventCursor : EventCursor -> string;
  UnmarshalEventCursor : string -> option EventCursor;
  MarshalTraceCursor : TraceCursor -> string;
  UnmarshalTraceCursor : string -> option TraceCursor;
  MarshalErrorCursor : ErrorCursor -> string;
  UnmarshalErrorCursor : string -> option ErrorCursor
}.

(** [encoding/json] gives back integers and text in UTF-8, which [text] stands for. *)
Class CursorJsonLaws (J : CursorJson) (text : string -> Prop) : Prop := {
  event_cursor_json : forall c, in_int64 (ec_TsNano c) = true -> text (ec_EventID c) -> UnmarshalEventCursor (MarshalEventCursor c) = Some c;
  event_cursor_json_nonempty : forall c, MarshalEventCursor c <> "";
  trace_cursor_json : forall c, in_int64 (tc_TsNano c) = true -> text (tc_TraceID c) -> UnmarshalTraceCursor (MarshalTraceCursor c) = Some c;
  trace_cursor_json_nonempty : forall c, MarshalTraceCursor c <> "";
  error_cursor_json : forall c, in_int64 (xc_Count c) = true -> text (xc_Service c) -> text (xc_Step c) -> text (xc_ErrorCode c) ->
    UnmarshalErrorCursor (MarshalErrorCursor c) = Some c;
  error_cursor_json_nonempty : forall c, MarshalErrorCursor c <> ""
}.

Section Cursors.
Context `{J : CursorJson}.

Definition encodeCursor (raw : string) : string := EncodeToString raw.

Definition decodeCursor (s : string) : option string :=
  if String.eqb s "" then None
  else match DecodeString false s with Some raw => Some raw | None => DecodeString true s end.

Definition EncodeEventCursor (c : EventCursor) : string := encodeCursor (MarshalEventCursor c).
Definition EncodeTraceCursor (c : TraceCursor) : string := encodeCursor (MarshalTraceCursor c).
Definition EncodeErrorCursor (c : ErrorCursor) : string := encodeCursor (MarshalErrorCursor c).

Definition DecodeEventCursor (s : string) : option EventCursor :=
  raw ← decodeCursor s; c ← UnmarshalEventCursor raw;
  if (ec_TsNano c <? 0) || String.eqb (ec_EventID c) "" then None else Some c.

Definition DecodeTraceCursor (s : string) : option TraceCursor :=
  raw ← decodeCursor s; c ← UnmarshalTraceCursor raw;
  if (tc_TsNano c <? 0) || String.eqb (tc_TraceID c) "" then None else Some c.

Definition DecodeErrorCursor (s : string) : option ErrorCursor :=
  raw ← decodeCursor s; c ← UnmarshalErrorCursor raw;
  if (xc_Count c <? 0) || String.eqb (xc_Service c) "" || String.eqb (xc_Step c) "" || String.eqb (xc_ErrorCode c) "" then None else Some c.
End Cursors.

(** ** The round trip *)

Definition byte (z : Z) : Prop := 0 <= z < 256.

Lemma b64_value_char v : 0 <= v < 64 -> b64_value (b64_char v) = Some v.
Proof.
  intros Hv. assert (Forall (fun v => b64_value (b64_char v) = Some v) (seqZ 0 64)) as Hall.
  { apply Forall_forall. intros x Hx%elem_of_seqZ. revert x Hx. assert (forallb (fun x => bool_decide (b64_value (b64_char x) = Some x)) (seqZ 0 64) = true) as Hb by (vm_compute; reflexivity).
    intros x Hx. apply List.forallb_forall with (x := x) in Hb; [by apply bool_decide_eq_true in Hb|]. apply list_elem_of_In, elem_of_seqZ. lia. }
  rewrite Forall_forall in Hall. apply Hall, elem_of_seqZ. lia.
Qed.

(** A character of the alphabet is neither a line break nor padding. *)
Lemma b64_value_plain c v : b64_value c = Some v -> is_newline c = false.
Proof. destruct c as [[] [] [] [] [] [] [] []]; by vm_compute. Qed.

Definition plain (c : ascii) : Prop := is_newline c = false.

Lemma b64_char_plain v : 0 <= v < 64 -> plain (b64_char v).
Proof. intros Hv. eapply b64_value_plain, b64_value_char, Hv. Qed.

Ltac b64_ranges := unfold byte in *; Z.div_mod_to_equations; lia.

(** Induction by groups of three. *)
Lemma groups_ind (P : list Z -> Prop) : P [] -> (forall x, P [x]) -> (forall x y, P [x; y]) ->
  (forall x y z l, P l -> P (x :: y :: z :: l)) -> forall l, P l.
Proof.
  intros H0 H1 H2 H3 l. assert (P l /\ (forall x, P (x :: l)) /\ (forall x y, P (x :: y :: l))) as [? _]; [|done].
  induction l as [|a l (IH0 & IH1 & IH2)]; auto.
Qed.

Lemma b64_roundtrip l : Forall byte l -> b64_decode false (b64_encode l) = Some l /\ Forall plain (b64_encode l).
Proof.
  induction l as [|x|x y|x y z l IH] using groups_ind; intros Hl; repeat (apply Forall_cons in Hl as [? Hl]); cbn [b64_encode b64_decode andb].
  - by split.
  - rewrite !b64_value_char by b64_ranges. cbn [mbind option_bind]. split; [do 2 f_equal; b64_ranges|].
    repeat constructor; apply b64_char_plain; b64_ranges.
  - rewrite !b64_value_char by b64_ranges. cbn [mbind option_bind]. split; [do 2 f_equal; [b64_ranges|f_equal; b64_ranges]|].
    repeat constructor; apply b64_char_plain; b64_ranges.
  - destruct (IH Hl) as [E Hp]. rewrite !b64_value_char by b64_ranges. cbn [mbind option_bind]. rewrite E. cbn [mbind option_bind]. split.
    + f_equal. f_equal; [b64_ranges|]. f_equal; [b64_ranges|]. f_equal; b64_ranges.
    + repeat (constructor; [apply b64_char_plain; b64_ranges|]). exact Hp.
Qed.

Lemma string_bytes_byte s : Forall byte (Sha256.string_bytes s).
Proof.
  unfold Sha256.string_bytes. apply Forall_fmap, Forall_forall. intros c _. unfold byte, compose. pose proof (nat_ascii_bounded c). lia.
Qed.

Lemma bytes_text_bytes s : bytes_text (Sha256.string_bytes s) = s.
Proof.
  unfold bytes_text, Sha256.string_bytes. rewrite <- list_fmap_compose.
  rewrite (list_fmap_ext _ id) by (intros i c _; unfold compose; by rewrite Nat2Z.id, ascii_nat_embedding).
  rewrite list_fmap_id. apply String.string_of_list_ascii_of_string.
Qed.

Lemma DecodeString_EncodeToString s : DecodeString false (EncodeToString s) = Some s.
Proof.
  unfold DecodeString, EncodeToString. rewrite String.list_ascii_of_string_of_list_ascii.
  destruct (b64_roundtrip (Sha256.string_bytes s) (string_bytes_byte s)) as [E Hp].
  assert (List.filter (fun c => negb (is_newline c)) (b64_encode (Sha256.string_bytes s)) = b64_encode (Sha256.string_bytes s)) as ->.
  { revert Hp. generalize (b64_encode (Sha256.string_bytes s)) as l. clear. induction 1 as [|c l Hc _ IH]; [done|]. simpl. rewrite Hc. simpl. by rewrite IH. }
  rewrite E. simpl. by rewrite bytes_text_bytes.
Qed.

Lemma EncodeToString_nonempty s : s <> "" -> EncodeToString s <> "".
Proof.
  intros Hs He. pose proof (DecodeString_EncodeToString s) as H. rewrite He in H. vm_compute in H. congruence.
Qed.

Lemma decodeCursor_encodeCursor raw : raw <> "" -> decodeCursor (encodeCursor raw) = Some raw.
Proof.
  intros Hr. unfold decodeCursor, encodeCursor. rewrite (proj2 (String.eqb_neq _ _) (EncodeToString_nonempty raw Hr)).
  by rewrite DecodeString_EncodeToString.
Qed.

Section RoundTrip.
Context `{J : CursorJson} {text : string -> Prop} `{!CursorJsonLaws J text}.

Lemma DecodeEventCursor_encode c : 0 <= ec_TsNano c <= max_int64 -> ec_EventID c <> "" -> text (ec_EventID c) ->
  DecodeEventCursor (EncodeEventCursor c) = Some c.
Proof.
  intros Ht Hid Htext. unfold DecodeEventCursor, EncodeEventCursor. rewrite decodeCursor_encodeCursor by apply event_cursor_json_nonempty.
  cbn [mbind option_bind]. rewrite event_cursor_json; [|unfold in_int64, min_int64; apply andb_true_iff; split; apply Z.leb_le; lia|done].
  cbn [mbind option_bind]. rewrite (proj2 (Z.ltb_ge _ _)) by lia. by rewrite (proj2 (String.eqb_neq _ _) Hid).
Qed.

Lemma DecodeTraceCursor_encode c : 0 <= tc_TsNano c <= max_int64 -> tc_TraceID c <> "" -> text (tc_TraceID c) ->
  DecodeTraceCursor (EncodeTraceCursor c) = Some c.
Proof.
  intros Ht Hid Htext. unfold DecodeTraceCursor, EncodeTraceCursor. rewrite decodeCursor_encodeCursor by apply trace_cursor_json_nonempty.
  cbn [mbind option_bind]. rewrite trace_cursor_json; [|unfold in_int64, min_int64; apply andb_true_iff; split; apply Z.leb_le; lia|done].
  cbn [mbind option_bind]. rewrite (proj2 (Z.ltb_ge _ _)) by lia. by rewrite (proj2 (String.eqb_neq _ _) Hid).
Qed.

Lemma DecodeErrorCursor_encode c : 0 <= xc_Count c <= max_int64 -> xc_Service c <> "" -> xc_Step c <> "" -> xc_ErrorCode c <> "" ->
  text (xc_Service c) -> text (xc_Step c) -> text (xc_ErrorCode c) -> DecodeErrorCursor (EncodeErrorCursor c) = Some c.
Proof.
  intros Ht H1 H2 H3 T1 T2 T3. unfold DecodeErrorCursor, EncodeErrorCursor. rewrite decodeCursor_encodeCursor by apply error_cursor_json_nonempty.
  cbn [mbind option_bind]. rewrite error_cursor_json; [|unfold in_int64, min_int64; apply andb_true_iff; split; apply Z.leb_le; lia|done..].
  cbn [mbind option_bind]. rewrite (proj2 (Z.ltb_ge _ _)) by lia. by rewrite (proj2 (String.eqb_neq _ _) H1), (proj2 (String.eqb_neq _ _) H2), (proj2 (String.eqb_neq _ _) H3).
Qed.
End RoundTrip.
