(* ===== verification/ReadApi.v ===== *)
(** The read endpoints ([internal/ingest/v2/queryparams.go], [readhandler.go]): query
    parameters, time windows, limits and cursors of a request, and the handlers over the
    reader.  A query is its decoded values; the clock is an argument. *)

From S2P Require Import Prelude GoRuntime GoFloat GoText Types Family Index TraceGraph Reader Derived Cursor.
Open Scope Z_scope.

(** ** Query parameters ([queryparams.go]) *)

(** [url.Values], and its [Get]: the first value of a key. *)
Abbreviation Values := (gmap string (list string)).
Definition Get (q : Values) (key : string) : string := default "" (q !! key ≫= head).

Definition errorCodeBadRequest : string := "bad_request".
Definition errorCodeNotFound : string := "not_found".
Definition errorCodeOverLimit : string := "over_limit".

Record queryError := mkQueryError { qe_code : string; qe_detail : string }.

Definition bad (detail : string) : queryError := mkQueryError errorCodeBadRequest detail.
Definition over (detail : string) : queryError := mkQueryError errorCodeOverLimit detail.

Definition defaultListLimit : Z := 50.
Definition maxListLimit : Z := 200.

(** The first unknown key in the order of the range over the query. *)
Definition rejectUnknownParams (it : MapIter) (q : Values) (allowed : list string) : option queryError :=
  match List.find (fun kv => negb (bool_decide (kv.1 ∈ allowed))) (mrange it 20 q) with
  | Some (key, _) => Some (bad ("unknown query parameter: " +:+ key))
  | None => None
  end.

Definition parseLimit (q : Values) : queryError + Z :=
  let raw := Get q "limit" in
  if String.eqb raw "" then inr defaultListLimit else
  match Atoi raw with
  | None => inl (bad "invalid limit")
  | Some n =>
    if n <=? 0 then inl (bad "invalid limit")
    else if maxListLimit <? n then inl (over "limit must be <= 200") else inr n
  end.

(** [strconv.ParseBool]. *)
Definition ParseBool (s : string) : option bool :=
  if bool_decide (s ∈ ["1"; "t"; "T"; "TRUE"; "true"; "True"]) then Some true
  else if bool_decide (s ∈ ["0"; "f"; "F"; "FALSE"; "false"; "False"]) then Some false
  else None.

Definition parseIncludeSuppressed (q : Values) : queryError + bool :=
  let raw := Get q "include_suppressed" in
  if String.eqb raw "" then inr false else
  match ParseBool raw with Some v => inr v | None => inl (bad "invalid include_suppressed") end.

Definition statuses : list string := [StatusOK; StatusError; StatusTimeout; StatusPartial; StatusAborted; StatusSuppressed].

Fixpoint parse_statuses (parts : list string) (out : gset string) : queryError + gset string :=
  match parts with
  | [] => inr out
  | part :: parts =>
    let status := TrimSpace part in
    if bool_decide (status ∈ statuses) then parse_statuses parts ({[status]} ∪ out) else inl (bad "invalid status")
  end.

Definition parseStatusCSV (q : Values) : queryError + gset string :=
  let raw := Get q "status" in
  if String.eqb raw "" then inr ∅ else parse_statuses (Split raw ","%char) ∅.

Definition drop_suffix (n : nat) (s : string) : string := take_bytes (String.length s - n) s.

Definition parseReadDuration (raw : string) : option Duration :=
  if HasSuffix raw "d" then
    days ← Atoi (drop_suffix 1 raw); Some (wrap64 (wrap64 (days * 24) * Hour))
  else ParseDuration raw.

Definition parseTimeWindow (q : Values) (now : Time) (defaultWindow maxWindow : Duration) : queryError + (Time * Time) :=
  let defaultWindow := if defaultWindow <=? 0 then Hour else defaultWindow in
  let maxWindow := if maxWindow <=? 0 then defaultWindow else maxWindow in
  let rawSince := Get q "since" in
  let rawUntil := Get q "until" in
  if negb (String.eqb rawSince "") || negb (String.eqb rawUntil "") then
    match (if String.eqb rawUntil "" then Some now else ParseRFC3339Nano rawUntil) with
    | None => inl (bad "invalid until")
    | Some until =>
      let since :=
        if String.eqb rawSince "" then inr (TimeAdd until (- maxWindow))
        else match ParseRFC3339Nano rawSince with
             | None => inl (bad "invalid since")
             | Some since => if Before since (TimeAdd now (- maxWindow)) then inl (over "since is older than the hot window") else inr since
             end in
      match since with
      | inl err => inl err
      | inr since => if After since until then inl (bad "since must be <= until") else inr (since, until)
      end
    end
  else
    let window :=
      let raw := Get q "window" in
      if String.eqb raw "" then inr defaultWindow else
      match parseReadDuration raw with
      | None => inl (bad "invalid window")
      | Some parsed => if parsed <=? 0 then inl (bad "invalid window") else inr parsed
      end in
    match window with
    | inl err => inl err
    | inr window =>
      if maxWindow <? window then inl (over "window exceeds hot window") else inr (TimeAdd now (- window), now)
    end.

Definition statusIncludes (statuses : gset string) (status : string) : bool := bool_decide (status ∈ statuses).

(** ** Requests and answers ([readhandler.go]) *)

Record ReadRequest := mkReadRequest { rr_Method : string; rr_Path : string; rr_Query : Values }.

Inductive answer (A : Type) :=
| MethodNotAllowed
| ReadError (status : Z) (err : queryError)
| OK (a : A).
Arguments MethodNotAllowed {A}.
Arguments ReadError {A}.
Arguments OK {A}.

Definition singlePathTail (path prefix : string) : string :=
  if negb (HasPrefix path prefix) then "" else
  let tail := drop_prefix prefix path in
  if String.eqb tail "" || Contains tail "/" then "" else tail.

Definition allowedEventSearchParams : list string :=
  ["service"; "status"; "error_code"; "trace_id"; "since"; "until"; "window"; "include_suppressed"; "cursor"; "limit"].
Definition allowedRecentTracesParams : list string :=
  ["service"; "status"; "since"; "until"; "window"; "include_suppressed"; "cursor"; "limit"].
Definition allowedTraceStoryParams : list string := ["event_id"; "trace_id"].
Definition allowedErrorsParams : list string := ["service"; "status"; "since"; "until"; "window"; "cursor"; "limit"].
Definition allowedBlastRadiusParams : list string := ["service"; "step"; "error_code"; "error_family"; "since"; "until"; "window"].

Record ReadHandler := mkReadHandler { rh_reader : Reader; rh_maxWindow : Duration }.

(** [requireGET] and the check of the parameters come first everywhere. *)
Definition guarded {A} (it : MapIter) (r : ReadRequest) (allowed : list string) (k : answer A) : answer A :=
  if negb (String.eqb (rr_Method r) "GET") then MethodNotAllowed
  else match rejectUnknownParams it (rr_Query r) allowed with Some err => ReadError 400 err | None => k end.

Definition bind {A B} (o : queryError + A) (k : A -> answer B) : answer B :=
  match o with inl err => ReadError 400 err | inr a => k a end.

Definition EventByID (it : MapIter) (h : ReadHandler) (r : ReadRequest) : answer Event :=
  guarded it r [] (
    let eventID := singlePathTail (rr_Path r) "/v1/events/" in
    let notFound := ReadError 404 (mkQueryError errorCodeNotFound "") in
    if String.eqb eventID "" then notFound
    else match GetEvent (rh_reader h) eventID with Some ev => OK ev | None => notFound end).

Definition TraceByID (it : MapIter) (h : ReadHandler) (r : ReadRequest) : answer TraceGetResult :=
  guarded it r [] (
    let traceID := singlePathTail (rr_Path r) "/v1/traces/" in
    let notFound := ReadError 404 (mkQueryError errorCodeNotFound "") in
    if String.eqb traceID "" then notFound
    else match GetTrace it (rh_reader h) traceID with Some res => OK res | None => notFound end).

Definition TraceStory (it : MapIter) (h : ReadHandler) (r : ReadRequest) : answer StoryResponse :=
  guarded it r allowedTraceStoryParams (
    let eventID := Get (rr_Query r) "event_id" in
    let traceID := Get (rr_Query r) "trace_id" in
    if Bool.eqb (String.eqb eventID "") (String.eqb traceID "") then ReadError 400 (bad "exactly one of event_id or trace_id is required")
    else
      match (if negb (String.eqb eventID "") then TraceStoryByEventID (rh_reader h) eventID
             else TraceStoryByTraceID it (rh_reader h) traceID) with
      | Some story => OK story
      | None => ReadError 404 (mkQueryError errorCodeNotFound "")
      end).

(** The filter and the limit of a search, its cursor apart. *)
Definition search_params (h : ReadHandler) (q : Values) (now : Time) (defaultWindow : Duration) : queryError + (SearchFilter * Z) :=
  match parseLimit q with
  | inl err => inl err
  | inr limit =>
    match parseIncludeSuppressed q with
    | inl err => inl err
    | inr includeSuppressed =>
      match parseStatusCSV q with
      | inl err => inl err
      | inr statuses =>
        match parseTimeWindow q now defaultWindow (rh_maxWindow h) with
        | inl err => inl err
        | inr (since, until) =>
          inr (mkSearchFilter (Get q "service") statuses (Get q "error_code") (Get q "trace_id") since until
                 (includeSuppressed || statusIncludes statuses StatusSuppressed), limit)
        end
      end
    end
  end.

(** An optional cursor of the query, by its decoder. *)
Definition cursor_param {C} (decode : string -> option C) (q : Values) : queryError + option C :=
  let raw := Get q "cursor" in
  if String.eqb raw "" then inr None
  else match decode raw with Some c => inr (Some c) | None => inl (bad "invalid cursor") end.

Section Handlers.
Context `{CursorJson}.

Definition encodeOptionalEventCursor (cursor : option EventCursor) : option string := EncodeEventCursor <$> cursor.
Definition encodeOptionalTraceCursor (cursor : option TraceCursor) : option string := EncodeTraceCursor <$> cursor.
Definition encodeOptionalErrorCursor (cursor : option ErrorCursor) : option string := EncodeErrorCursor <$> cursor.

(** A page and the text of the next cursor. *)
Definition EventSearch (it : MapIter) (h : ReadHandler) (r : ReadRequest) (now : Time) : answer (list Event * option string) :=
  guarded it r allowedEventSearchParams (
    bind (search_params h (rr_Query r) now Hour) (fun '(filter, limit) =>
    bind (cursor_param DecodeEventCursor (rr_Query r)) (fun after =>
    let result := SearchEvents it (rh_reader h) filter after limit in
    OK (es_Events result, encodeOptionalEventCursor (es_NextCursor result))))).

Definition RecentTraces (it : MapIter) (h : ReadHandler) (r : ReadRequest) (now : Time) : answer (list TraceSummary * option string) :=
  guarded it r allowedRecentTracesParams (
    bind (search_params h (rr_Query r) now (24 * Hour)) (fun '(filter, limit) =>
    bind (cursor_param DecodeTraceCursor (rr_Query r)) (fun after =>
    let result := Reader.RecentTraces it (rh_reader h) filter after limit in
    OK (rt_Traces result, encodeOptionalTraceCursor (rt_NextCursor result))))).

Definition parseErrorStatuses (q : Values) : queryError + gset string :=
  match parseStatusCSV q with
  | inl err => inl err
  | inr statuses =>
    if forallb IsFailed (elements statuses) then inr statuses
    else inl (bad "status must be one of error, timeout, partial, aborted")
  end.

Definition errors_params (h : ReadHandler) (q : Values) (now : Time) : queryError + (SearchFilter * Z) :=
  match parseLimit q with
  | inl err => inl err
  | inr limit =>
    match parseErrorStatuses q with
    | inl err => inl err
    | inr statuses =>
      match parseTimeWindow q now Hour (rh_maxWindow h) with
      | inl err => inl err
      | inr (since, until) => inr (mkSearchFilter (Get q "service") statuses "" "" since until false, limit)
      end
    end
  end.

Definition Errors (it : MapIter) (h : ReadHandler) (r : ReadRequest) (now : Time) : answer (string * list ErrorRow * option string) :=
  guarded it r allowedErrorsParams (
    bind (errors_params h (rr_Query r) now) (fun '(filter, limit) =>
    bind (cursor_param DecodeErrorCursor (rr_Query r)) (fun after =>
    let result := Derived.Errors it (rh_reader h) filter after limit in
    OK (xr_Window result, xr_Rows result, encodeOptionalErrorCursor (xr_NextCursor result))))).
End Handlers.

Definition parseBlastKey (q : Values) : option BlastKeyMode :=
  let service := Get q "service" in
  let step := Get q "step" in
  let code := Get q "error_code" in
  let given s := negb (String.eqb s "") in
  if given service || given step then
    if given service && given step && given code then Some (mkBlastKeyMode (mkBlastKey service step code) false) else None
  else if given (Get q "error_family") then
    key ← ParseErrorFamily (Get q "error_family"); Some (mkBlastKeyMode key false)
  else if given code then Some (mkBlastKeyMode (mkBlastKey "" "" code) true) else None.

Definition BlastRadius (it : MapIter) (h : ReadHandler) (r : ReadRequest) (now : Time) : answer BlastRadiusResponse :=
  guarded it r allowedBlastRadiusParams (
    bind (parseTimeWindow (rr_Query r) now Hour (rh_maxWindow h)) (fun '(since, until) =>
    match parseBlastKey (rr_Query r) with
    | None => ReadError 400 (bad "invalid error family key")
    | Some key => OK (Derived.BlastRadius it (rh_reader h) (mkSearchFilter "" ∅ "" "" since until false) key)
    end)).

(** ** Time windows *)

(** The window of a read is bounded: whatever the query, an accepted window does not end
    before it starts, and it either reaches back no more than the largest window from the
    clock, or, when only its end is given, is exactly that long. *)
Theorem parseTimeWindow_bounds q now defaultWindow maxWindow since until :
  0 < maxWindow -> parseTimeWindow q now defaultWindow maxWindow = inr (since, until) ->
  since <= until /\ (now - maxWindow <= since \/ (Get q "since" = "" /\ Get q "until" <> "" /\ until - since = maxWindow)).
Proof.
  intros Hmax. unfold parseTimeWindow, Before, After, TimeAdd. rewrite (proj2 (Z.leb_gt maxWindow 0)) by lia. cbv zeta.
  destruct (negb (String.eqb (Get q "since") "") || negb (String.eqb (Get q "until") "")) eqn:Eg.
  - destruct (if String.eqb (Get q "until") "" then Some now else ParseRFC3339Nano (Get q "until")) as [u|] eqn:Eu; [|done].
    destruct (String.eqb_spec (Get q "since") "") as [Hs|Hs]; cbv iota.
    + destruct (Z.ltb_spec u (u + - maxWindow)) as [|Ea]; [done|]. intros [= <- <-]. cbn in Eg. bool_prop.
      split; [lia|right; split; [done|split; [done|lia]]].
    + destruct (ParseRFC3339Nano (Get q "since")) as [s|]; [|done]. destruct (Z.ltb_spec s (now + - maxWindow)); [done|].
      destruct (Z.ltb_spec u s); [done|]. intros [= <- <-]. split; [lia|left; lia].
  - set (w := if String.eqb (Get q "window") "" then _ else _). destruct w as [err|w'] eqn:Ew; [done|].
    destruct (Z.ltb_spec maxWindow w'); [done|]. intros [= <- <-]. assert (0 < w'); [|split; [lia|left; lia]].
    revert Ew. unfold w. case_match; [intros [= <-]; case_match; unfold Hour, Minute, Second in *; bool_prop; lia|].
    case_match; [|done]. case_match; [done|]. intros [= <-]. bool_prop. lia.
Qed.

(** A window in days is multiplied without a check for overflow: 213504 days are accepted as
    25 minutes. *)
Example long_window_wraps :
  parseTimeWindow {["window" := ["213504d"]]} (2000 * 365 * 24 * Hour) Hour (24 * Hour)
  = inr (2000 * 365 * 24 * Hour - 1526290448384, 2000 * 365 * 24 * Hour) /\
  parseTimeWindow {["window" := ["2d"]]} (2000 * 365 * 24 * Hour) Hour (24 * Hour) = inl (over "window exceeds hot window").
Proof. vm_compute. done. Qed.

(** The zero time as an end is no end at all to the filter, so every event is in the window. *)
Example zero_until_unbounded ev : 0 <= ev_TsStart ev ->
  match parseTimeWindow {["until" := ["0001-01-01T00:00:00Z"]]} (2000 * 365 * 24 * Hour) Hour (24 * Hour) with
  | inr (since, until) => until = 0 /\ eventWithinWindow ev (mkSearchFilter "" ∅ "" "" since until false) = true
  | inl _ => False
  end.
Proof.
  intros Hev. assert (parseTimeWindow {["until" := ["0001-01-01T00:00:00Z"]]} (2000 * 365 * 24 * Hour) Hour (24 * Hour) = inr (- (24 * Hour), 0)) as -> by (vm_compute; done).
  split; [done|]. unfold eventWithinWindow, Before, After, IsZero. simpl sf_Since. simpl sf_Until. rewrite (proj2 (Z.ltb_ge _ _)); [done|]. unfold Hour, Minute, Second. lia.
Qed.

(** ** Limits *)

Lemma parseLimit_range q n : parseLimit q = inr n -> 1 <= n <= maxListLimit.
Proof.
  unfold parseLimit, defaultListLimit, maxListLimit. destruct (String.eqb (Get q "limit") ""); [intros [= <-]; lia|].
  destruct (Atoi (Get q "limit")) as [m|]; [|done]. destruct (Z.leb_spec m 0); [done|]. destruct (Z.ltb_spec 200 m); [done|]. intros [= <-]. lia.
Qed.

Lemma search_params_limit h q now d f limit : search_params h q now d = inr (f, limit) -> 1 <= limit <= maxListLimit.
Proof.
  unfold search_params. destruct (parseLimit q) as [err|n] eqn:El; [done|]. apply parseLimit_range in El.
  destruct (parseIncludeSuppressed q); [done|]. destruct (parseStatusCSV q); [done|].
  destruct (parseTimeWindow q now d (rh_maxWindow h)) as [|[since until]]; [done|]. by intros [= _ <-].
Qed.

(** ** Paging over HTTP *)

Definition with_cursor (q : Values) (c : option string) : Values :=
  match c with None => q | Some c => <["cursor" := [c]]> q end.

Lemma Get_with_cursor q c key : key <> "cursor" -> Get (with_cursor q c) key = Get q key.
Proof. intros Hk. destruct c as [c|]; [|done]. unfold Get, with_cursor. by rewrite lookup_insert_ne. Qed.

Lemma Get_cursor q c : q !! "cursor" = None -> Get (with_cursor q c) "cursor" = default "" c.
Proof. intros Hq. destruct c as [c|]; unfold Get, with_cursor; [by rewrite lookup_insert_eq|by rewrite Hq]. Qed.

Lemma search_params_cursor h q c now d : search_params h (with_cursor q c) now d = search_params h q now d.
Proof.
  unfold search_params, parseLimit, parseIncludeSuppressed, parseStatusCSV, parseTimeWindow. by rewrite !Get_with_cursor by done.
Qed.

Lemma rejectUnknownParams_none it q (allowed : list string) : (forall k, is_Some (q !! k) -> k ∈ allowed) -> rejectUnknownParams it q allowed = None.
Proof.
  intros Hall. unfold rejectUnknownParams. destruct (List.find _ _) as [[k v]|] eqn:E; [|done].
  apply List.find_some in E as [Hin Hk]. apply list_elem_of_In, elem_of_mrange in Hin. apply negb_true_iff, bool_decide_eq_false in Hk.
  destruct Hk. simpl. apply Hall. by exists v.
Qed.

Lemma with_cursor_allowed q c (allowed : list string) : "cursor" ∈ allowed -> (forall k, is_Some (q !! k) -> k ∈ allowed) ->
  forall k, is_Some (with_cursor q c !! k) -> k ∈ allowed.
Proof.
  intros Hc Hall k. destruct c as [c|]; [|apply Hall]. unfold with_cursor. destruct (decide (k = "cursor")) as [->|Hne]; [done|].
  rewrite lookup_insert_ne by done. apply Hall.
Qed.

(** A client that is handed cursors as text sees what one handed the cursors sees. *)
Lemma client_encoded {A C} (good : C -> Prop) (enc : C -> string) (call : nat -> option C -> list A * option C)
    (call' : nat -> option string -> list A * option string) :
  (forall n c, (forall x, c = Some x -> good x) -> call' n (enc <$> c) = ((call n c).1, enc <$> (call n c).2)) ->
  (forall n c x, (call n c).2 = Some x -> good x) ->
  forall fuel n c, (forall x, c = Some x -> good x) -> client call' fuel n (enc <$> c) = client call fuel n c.
Proof.
  intros Henc Hgood fuel. induction fuel as [|fuel IH]; intros n c Hc; [done|]. cbn [client]. rewrite Henc by done.
  pose proof (Hgood n c) as Hn. destruct (call n c) as [out next]. cbn [fst snd] in *. destruct next as [x|]; [|done].
  cbn [fmap option_fmap option_map]. specialize (IH (S n) (Some x)). cbn [fmap option_fmap option_map] in IH. rewrite IH; [done|].
  intros y [= <-]. by apply Hn.
Qed.

(** An event the index may hold: it started after 1970 and its id is text. *)
Definition listed (text : string -> Prop) (ev : Event) : Prop :=
  nano_time (ev_TsStart ev) /\ unix_epoch <= ev_TsStart ev /\ ev_EventID ev <> "" /\ text (ev_EventID ev).

Definition good_cursor (text : string -> Prop) (c : EventCursor) : Prop :=
  0 <= ec_TsNano c <= max_int64 /\ ec_EventID c <> "" /\ text (ec_EventID c).

Lemma listed_cursor text ev : listed text ev -> good_cursor text (event_cursor ev).
Proof.
  intros (Hn & He & Hid & Ht). unfold good_cursor, event_cursor, UnixNano. simpl. unfold nano_time in Hn. rewrite wrap64_id by done.
  unfold in_int64 in Hn. bool_prop. split; [lia|done].
Qed.

Lemma page_last {A} (after : A -> bool) limit rows x : last (page_loop after limit rows []).1 = Some x -> x ∈ rows.
Proof.
  rewrite page_loop_spec by (simpl; lia). simpl. intros Hl. apply last_Some in Hl as [l Hl].
  assert (x ∈ take (limit - 0) (List.filter after rows)) as Hin by (rewrite Hl; apply elem_of_app; right; by left).
  apply elem_of_take in Hin as (i & Hi%list_elem_of_lookup_2 & _). by apply elem_of_lfilter in Hi as [? _].
Qed.

Lemma search_call_cursor text its evs f limit n c x : NoDup (ev_EventID <$> evs) -> Forall (listed text) evs ->
  (search_call its (Some (index_of evs)) f limit n c).2 = Some x -> good_cursor text x.
Proof.
  intros Hnd Hl. unfold search_call, SearchEvents. case_match; [done|]. simpl. rewrite search_rows_sorted by done.
  pose proof (page_last (fun ev => event_after ev c) (Z.to_nat limit) (ssort search_less (matching f evs))) as Hp.
  destruct (page_loop _ _ _ _) as [out more]. simpl in *. case_match; [|done]. destruct (last out) as [ev|]; [|done]. intros [= <-].
  apply listed_cursor. rewrite Forall_forall in Hl. apply Hl. specialize (Hp ev eq_refl). rewrite elem_of_ssort in Hp. by apply elem_of_lfilter in Hp as [? _].
Qed.

Section Paging.
Context `{J : CursorJson} {text : string -> Prop} `{!CursorJsonLaws J text}.

(** The [n]-th request of a client that follows [next_cursor]; an error ends its list. *)
Definition search_request (its : nat -> MapIter) (clock : nat -> Time) (h : ReadHandler) (q : Values) (n : nat) (c : option string)
    : list Event * option string :=
  match EventSearch (its n) h (mkReadRequest "GET" "/v1/events/search" (with_cursor q c)) (clock n) with
  | OK p => p
  | _ => ([], None)
  end.

Lemma search_request_call its clock r w q f limit n c :
  (forall k, is_Some (q !! k) -> k ∈ allowedEventSearchParams) -> q !! "cursor" = None ->
  (forall n, search_params (mkReadHandler r w) q (clock n) Hour = inr (f, limit)) ->
  (forall x, c = Some x -> good_cursor text x) ->
  search_request its clock (mkReadHandler r w) q n (EncodeEventCursor <$> c) =
    ((search_call its r f limit n c).1, EncodeEventCursor <$> (search_call its r f limit n c).2).
Proof.
  intros Hq Hc Hp Hgood. unfold search_request, EventSearch, guarded. cbn [rr_Method rr_Query rh_reader].
  rewrite rejectUnknownParams_none by (apply with_cursor_allowed; [set_solver|done]). rewrite search_params_cursor, Hp. cbn [bind].
  unfold cursor_param. rewrite Get_cursor by done. destruct c as [c|]; cbn [fmap option_fmap option_map default from_option id]; [|done].
  destruct (Hgood c eq_refl) as (Ht & Hid & Htext).
  assert (EncodeEventCursor c <> "") as Hne by (apply EncodeToString_nonempty, event_cursor_json_nonempty).
  rewrite (proj2 (String.eqb_neq _ _) Hne), DecodeEventCursor_encode by done. cbn [bind]. done.
Qed.

(** C12: Paging over HTTP is complete: a client that repeats a search with the cursor text of
    the previous answer, whatever the order of maps and the reading of the clock at each
    request, receives every event that matches the filter exactly once, newest first, as
    long as its parameters are known ones and read as the same filter each time. *)
Theorem search_over_http its clock evs w q f limit :
  NoDup (ev_EventID <$> evs) -> Forall (listed text) evs ->
  (forall k, is_Some (q !! k) -> k ∈ allowedEventSearchParams) -> q !! "cursor" = None ->
  (forall n, search_params (mkReadHandler (Some (index_of evs)) w) q (clock n) Hour = inr (f, limit)) ->
  client (search_request its clock (mkReadHandler (Some (index_of evs)) w) q) (S (length (matching f evs))) 0 None
  = Some (cloneEvent <$> ssort search_less (matching f evs)).
Proof.
  intros Hnd Hl Hq Hc Hp.
  assert (0 < limit) as Hlim.
  { specialize (Hp 0%nat). apply search_params_limit in Hp. lia. }
  change None with (EncodeEventCursor <$> @None EventCursor).
  rewrite (client_encoded (good_cursor text) EncodeEventCursor (search_call its (Some (index_of evs)) f limit)).
  - apply SearchEvents_pages; [done| |done]. eapply Forall_impl; [exact Hl|]. by intros ev [? _].
  - intros n c Hg. by apply search_request_call.
  - intros n c x. by apply search_call_cursor.
  - done.
Qed.
End Paging.

(** With both ends of the window given, the filter is the same as long as the start is within
    reach of the clock. *)
Lemma fixed_window q now defaultWindow maxWindow since until : 0 < maxWindow ->
  ParseRFC3339Nano (Get q "since") = Some since -> ParseRFC3339Nano (Get q "until") = Some until ->
  since <= until -> now - maxWindow <= since -> parseTimeWindow q now defaultWindow maxWindow = inr (since, until).
Proof.
  intros Hm Hs Hu Hle Hr. unfold parseTimeWindow, Before, After, TimeAdd. rewrite (proj2 (Z.leb_gt maxWindow 0)) by lia. cbv zeta.
  destruct (String.eqb_spec (Get q "since") "") as [He|_]; [by rewrite He in Hs|]. cbn [negb orb].
  destruct (String.eqb_spec (Get q "until") "") as [He|_]; [by rewrite He in Hu|]. rewrite Hu, Hs.
  rewrite (proj2 (Z.ltb_ge _ _)) by lia. rewrite (proj2 (Z.ltb_ge _ _)) by lia. done.
Qed.

(** ** A run *)

(** A JSON of numbers, for the examples. *)
Definition number_text {A} `{Countable A} (a : A) : string := Itoa (Z.pos (encode a)).
Definition text_number {A} `{Countable A} (s : string) : option A :=
  match digits_value 0 s with Some (Z.pos p) => decode p | _ => None end.

Lemma text_number_text {A} `{Countable A} (a : A) : text_number (number_text a) = Some a /\ number_text a <> "".
Proof.
  destruct (Itoa_nonneg (Z.pos (encode a)) ltac:(lia)) as (_ & Hv & Hne). unfold text_number, number_text. rewrite Hv. by rewrite decode_encode.
Qed.

#[local] Instance number_json : CursorJson := {|
  MarshalEventCursor c := number_text (ec_TsNano c, ec_EventID c);
  UnmarshalEventCursor s := (fun x => mkEventCursor x.1 x.2) <$> text_number (A := Z * string) s;
  MarshalTraceCursor c := number_text (tc_TsNano c, tc_TraceID c);
  UnmarshalTraceCursor s := (fun x => mkTraceCursor x.1 x.2) <$> text_number (A := Z * string) s;
  MarshalErrorCursor c := number_text (xc_Count c, (xc_Service c, (xc_Step c, xc_ErrorCode c)));
  UnmarshalErrorCursor s := (fun x => mkErrorCursor x.1 x.2.1 x.2.2.1 x.2.2.2) <$> text_number (A := Z * (string * (string * string))) s
|}.

#[local] Instance number_json_laws : CursorJsonLaws number_json (fun _ => True).
Proof.
  split; cbn [MarshalEventCursor UnmarshalEventCursor MarshalTraceCursor UnmarshalTraceCursor MarshalErrorCursor UnmarshalErrorCursor number_json];
    try (intros []; intros; apply text_number_text); intros []; intros; by rewrite (proj1 (text_number_text _)).
Qed.

Definition noon : Time := unix_epoch + 1700000000 * Second.

Definition three_events : list Event :=
  (fun x => sample_event x.1.1 x.1.2 "api" StatusOK x.2 (x.2 + 5) "" None [])
    <$> [("e1", "t1", noon); ("e2", "t1", noon + 5); ("e3", "t2", noon + 5)].

Definition two_a_page : Values :=
  {["limit" := ["2"]; "since" := ["2023-11-14T22:00:00Z"]; "until" := ["2023-11-14T23:00:00Z"]]}.

Definition noon_handler : ReadHandler := mkReadHandler (Some (index_of three_events)) (24 * Hour).
Definition ticking (n : nat) : Time := noon + Z.of_nat n * Minute.

Example noon_filter : search_params noon_handler two_a_page noon Hour
  = inr (mkSearchFilter "" ∅ "" "" (noon - 800 * Second) (noon + 2800 * Second) false, 2).
Proof. vm_compute. done. Qed.

Example noon_pages :
  (match EventSearch iter_reverse noon_handler (mkReadRequest "GET" "/v1/events/search" two_a_page) noon with
   | OK (evs, next) => (ev_EventID <$> evs, bool_decide (next = None)) | _ => ([], true) end) = (["e2"; "e3"], false) /\
  EventSearch iter_reverse noon_handler (mkReadRequest "GET" "/v1/events/search" (<["cursor" := ["?"]]> two_a_page)) noon
    = ReadError 400 (bad "invalid cursor") /\
  EventSearch iter_reverse noon_handler (mkReadRequest "GET" "/v1/events/search" (<["page" := ["2"]]> two_a_page)) noon
    = ReadError 400 (bad "unknown query parameter: page").
Proof. vm_compute. done. Qed.

Definition noon_hours : nat -> Time := fun n => noon + Z.of_nat (n mod 24) * Minute.

Lemma parseTimeWindow_bounds_witness :
  noon - 800 * Second <= noon + 2800 * Second /\
  (noon - 24 * Hour <= noon - 800 * Second \/
   (Get two_a_page "since" = "" /\ Get two_a_page "until" <> "" /\ (noon + 2800 * Second) - (noon - 800 * Second) = 24 * Hour)).
Proof. apply (parseTimeWindow_bounds two_a_page noon Hour (24 * Hour)); [done|]. vm_compute. done. Defined.

Lemma search_over_http_witness :
  (fmap (M := option) (fmap (M := list) ev_EventID)
    (client (search_request (fun _ => iter_reverse) noon_hours noon_handler two_a_page) 4 0 None)) = Some ["e2"; "e3"; "e1"].
Proof.
  set (f := mkSearchFilter "" ∅ "" "" (noon - 800 * Second) (noon + 2800 * Second) false).
  assert (length (matching f three_events) = 3%nat) as Hlen by (vm_compute; reflexivity).
  pose proof (search_over_http (text := fun _ => True) (fun _ => iter_reverse) noon_hours three_events (24 * Hour) two_a_page f 2) as H.
  rewrite Hlen in H. unfold noon_handler. rewrite H.
  - vm_compute. reflexivity.
  - by_decide.
  - repeat (constructor; [repeat split; vm_compute; done|]). constructor.
  - assert (set_Forall (fun k => k ∈ allowedEventSearchParams) (dom two_a_page)) as Hall by by_decide.
    intros k Hk. apply (Hall k). by apply elem_of_dom.
  - reflexivity.
  - intros n. unfold search_params. rewrite (fixed_window _ _ _ _ (noon - 800 * Second) (noon + 2800 * Second)); [vm_compute; reflexivity|done|vm_compute; reflexivity..|vm_compute; discriminate|].
    cbn [rh_maxWindow]. unfold noon_hours. pose proof (Nat.mod_upper_bound n 24 ltac:(done)). generalize dependent (n mod 24)%nat. intros m Hm. unfold Hour, Minute, Second. lia.
Defined.
