(* ===== verification/Convert.v ===== *)
(** OTLP spans to events ([internal/otel/convert/convert.go]).  The messages of the
    OTLP protocol are data: a nil message reads as the empty one, as their getters do.
    The text of a span kind, generated code, is the argument [kind_name]. *)

From S2P Require Import Prelude GoRuntime GoFloat GoText Types Schema.
Open Scope Z_scope.

(** ** The messages *)

(** The last constructor stands for arrays, maps, bytes and the unset value. *)
Inductive AnyValue :=
| StringValue (s : string)
| IntValue (z : Z)
| BoolValue (b : bool)
| DoubleValue (d : float64)
| OtherValue.

Record KeyValue := mkKeyValue { kv_Key : string; kv_Value : AnyValue }.

Inductive SpanKind := KindUnspecified | KindInternal | KindServer | KindClient | KindProducer | KindConsumer | KindOther (n : Z).

Inductive StatusCode := CodeUnset | CodeOk | CodeError.

Record SpanEvent := mkSpanEvent { sv_Name : string; sv_Attributes : list KeyValue }.

Record Span := mkSpan {
  sp_TraceId : list Z;
  sp_SpanId : list Z;
  sp_ParentSpanId : list Z;
  sp_Name : string;
  sp_Kind : SpanKind;
  sp_StartTimeUnixNano : Z;
  sp_EndTimeUnixNano : Z;
  sp_Attributes : list KeyValue;
  sp_Events : list SpanEvent;
  sp_Status : option (StatusCode * string)
}.

Record ResourceSpans := mkResourceSpans { rs_Resource : option (list KeyValue); rs_ScopeSpans : list (list Span) }.

Abbreviation ExportTraceServiceRequest := (list ResourceSpans) (only parsing).

(** ** Results *)

Definition DropMissingService : string := "missing_service".
Definition DropMissingTraceID : string := "missing_trace_id".
Definition DropInvalidSpan : string := "invalid_span".
Definition DropUnsupportedKind : string := "unsupported_kind".
Definition DropFutureTimestamp : string := "future_timestamp".

Record DropEntry := mkDropEntry { de_SpanName : string; de_Reason : string }.

Record Result := mkResult { res_Events : list Event; res_Dropped : Z; res_Drops : list DropEntry }.

(** ** Attributes *)

(** [GetStringValue]. *)
Definition string_value (v : AnyValue) : string := match v with StringValue s => s | _ => "" end.

(** [anyValue]: the scalar under an interface, none for the nil interface. *)
Definition anyValue (v : AnyValue) : option AnyValue := match v with OtherValue => None | _ => Some v end.

Definition first_attr (l : list KeyValue) (key : string) : string :=
  match List.find (fun kv => String.eqb (kv_Key kv) key) l with Some kv => string_value (kv_Value kv) | None => "" end.

Definition resourceAttr (r : option (list KeyValue)) (key : string) : string :=
  match r with None => "" | Some l => first_attr l key end.

Definition eventAttr (e : SpanEvent) (key : string) : string := first_attr (sv_Attributes e) key.

Definition spanAttrs (span : Span) : gmap string (option AnyValue) :=
  foldl (fun m kv => <[kv_Key kv := anyValue (kv_Value kv)]> m) ∅ (sp_Attributes span).

(** [attrs[key].(string)], empty when it is something else. *)
Definition attr_string (attrs : gmap string (option AnyValue)) (key : string) : string :=
  match attrs !! key with Some (Some (StringValue s)) => s | _ => "" end.

(** The first of some string attributes that is not empty. *)
Fixpoint first_string (attrs : gmap string (option AnyValue)) (keys : list string) : string :=
  match keys with
  | [] => ""
  | key :: keys => let v := attr_string attrs key in if negb (String.eqb v "") then v else first_string attrs keys
  end.

Definition allZeros (b : list Z) : bool := forallb (Z.eqb 0) b.

(** ** One span *)

Record resourceContext := mkResourceContext { rc_service : string; rc_version : string; rc_env : string }.

Definition extractResourceContext (r : option (list KeyValue)) : resourceContext :=
  let env := resourceAttr r "deployment.environment.name" in
  let env := if String.eqb env "" then resourceAttr r "deployment.environment" else env in
  let env := if String.eqb env "" then "unknown" else env in
  mkResourceContext (resourceAttr r "service.name") (resourceAttr r "service.version") env.

Definition isOTLPError (span : Span) : bool :=
  match sp_Status span with Some (CodeError, _) => true | _ => false end ||
  existsb (fun e => String.eqb (sv_Name e) "exception") (sp_Events span).

(** The status code, whether the span succeeded, whether it is HTTP. *)
Definition deriveHTTPOutcome (span : Span) (attrs : gmap string (option AnyValue)) : Z * bool * bool :=
  let guess :=
    let hasHTTP := bool_decide (is_Some (attrs !! "http.request.method")) || bool_decide (is_Some (attrs !! "http.route")) in
    if isOTLPError span then (500, false, hasHTTP) else (200, true, hasHTTP) in
  match attrs !! "http.response.status_code" with
  | Some (Some (IntValue code)) => if 0 <? code then (code, (code <? 500) && negb (isOTLPError span), true) else guess
  | _ => guess
  end.

Definition stepName (span : Span) (attrs : gmap string (option AnyValue)) : string :=
  let v := first_string attrs ["waylog.step"; "http.route"] in
  if negb (String.eqb v "") then v
  else if negb (String.eqb (sp_Name span) "") then sp_Name span else "otlp.span".

Definition errorReason (span : Span) : string :=
  match List.find (fun e => String.eqb (sv_Name e) "exception" && negb (String.eqb (eventAttr e "exception.message") "")) (sp_Events span) with
  | Some e => eventAttr e "exception.message"
  | None =>
    match sp_Status span with
    | Some (_, msg) => if negb (String.eqb msg "") then msg else "otlp span reported error"
    | None => "otlp span reported error"
    end
  end.

Definition errorInfo (span : Span) (attrs : gmap string (option AnyValue)) (statusCode : Z) : string * string :=
  let v := attr_string attrs "waylog.error_code" in
  if negb (String.eqb v "") then (v, errorReason span)
  else
    match List.find (fun e => String.eqb (sv_Name e) "exception" && negb (String.eqb (eventAttr e "exception.type") "")) (sp_Events span) with
    | Some e => (eventAttr e "exception.type", eventAttr e "exception.message")
    | None => if 0 <? statusCode then ("HTTP_" +:+ Itoa statusCode, errorReason span) else ("OTLP_ERROR", errorReason span)
    end.

Definition errorLogs (code reason : string) : list Log :=
  [mkLog 0 LogLevelError (if String.eqb reason "" then code else reason) {["error_code" := VStr code]}].

Definition TrimPrefix (s p : string) : string := if HasPrefix s p then drop_bytes (String.length p) s else s.

Definition stripHostPort (v : string) : string :=
  let host := TrimPrefix (TrimPrefix v "http://") "https://" in
  match LastIndexByte host ":"%char with
  | Some i => if (0 <? i)%nat then take_bytes i host else host
  | None => host
  end.

Definition resolveDownstream (attrs : gmap string (option AnyValue)) : string :=
  let v := first_string attrs ["peer.service"; "server.address"; "net.peer.name"] in
  if negb (String.eqb v "") then stripHostPort v else "".

Definition downstreamEndpoint (attrs : gmap string (option AnyValue)) : string :=
  first_string attrs ["http.route"; "url.path"; "http.target"].

Definition downstreamFromSpan (span : Span) (attrs : gmap string (option AnyValue)) : option Downstream :=
  match sp_Kind span with
  | KindClient | KindProducer =>
    let service := resolveDownstream attrs in
    if String.eqb service "" then None else Some (mkDownstream service (downstreamEndpoint attrs) "http")
  | _ => None
  end.

(** The hash of the ids with the version and variant bits of a UUID set. *)
Definition id_bytes (traceID spanID : string) : list Z :=
  let b := take 16 (Sha256.sum256 (traceID +:+ ":" +:+ spanID)) in
  let b := <[6%nat := Z.lor (Z.land (Sha256.nthZ b 6) 15) 80]> b in
  <[8%nat := Z.lor (Z.land (Sha256.nthZ b 8) 63) 128]> b.

Definition deterministicEventID (traceID spanID : string) : string :=
  let b := id_bytes traceID spanID in
  let part i j := Sha256.hex (take (j - i) (drop i b)) in
  Join "-" [part 0%nat 4%nat; part 4%nat 6%nat; part 6%nat 8%nat; part 8%nat 10%nat; part 10%nat 16%nat].

Section Convert.
Variable kind_name : SpanKind -> string.

Definition fields (span : Span) (attrs : gmap string (option AnyValue)) (statusCode : Z) : gmap string value :=
  let put key v m := if negb (String.eqb v "") then <[key := VStr v]> m else m in
  let httpFields : gmap string value := {["status" := VInt statusCode]} in
  let httpFields := put "method" (attr_string attrs "http.request.method") httpFields in
  let httpFields := put "route" (attr_string attrs "http.route") httpFields in
  <["http" := VMap (Some httpFields)]>
  {["otel" := VMap (Some (<["span_name" := VStr (sp_Name span)]> {["span_kind" := VStr (kind_name (sp_Kind span))]}))]}.

Definition convertSpan (span : Span) (rc : resourceContext) : Event + DropEntry :=
  if allZeros (sp_TraceId span) then inr (mkDropEntry (sp_Name span) DropMissingTraceID)
  else if allZeros (sp_SpanId span) then inr (mkDropEntry (sp_Name span) DropInvalidSpan)
  else
    let attrs := spanAttrs span in
    let '(statusCode, success, hasHTTP) := deriveHTTPOutcome span attrs in
    if negb hasHTTP then inr (mkDropEntry (sp_Name span) DropUnsupportedKind)
    else
      let traceID := Sha256.hex (sp_TraceId span) in
      let spanID := Sha256.hex (sp_SpanId span) in
      let parentSpanID := if allZeros (sp_ParentSpanId span) then "" else Sha256.hex (sp_ParentSpanId span) in
      let start := unix_epoch + wrap64 (sp_StartTimeUnixNano span) in
      let end_ := unix_epoch + wrap64 (sp_EndTimeUnixNano span) in
      let end_ := if Before end_ start then start else end_ in
      let durationMS := Milliseconds (TimeSub end_ start) in
      let name := stepName span attrs in
      let '(errorCode, errorReason) := errorInfo span attrs statusCode in
      let step := fun status err => mkStep name spanID 0 durationMS status (downstreamFromSpan span attrs) err in
      let event := fun status anchor step logs errors =>
        mkEvent "2.0" (deterministicEventID traceID spanID) start end_ durationMS "http" (rc_service rc) (rc_env rc) (rc_version rc)
          traceID spanID parentSpanID status anchor [step] logs (fields span attrs statusCode) errors in
      inl (if success then event StatusOK None (step StepStatusOK None) [] []
           else event StatusError (Some (mkAnchor name errorCode "otlp"))
                  (step StepStatusError (Some (mkStepError errorCode errorReason "otlp")))
                  (errorLogs errorCode errorReason) [mkErrorRef errorCode errorReason]).

(** ** A request *)

Definition drop_span (res : Result) (d : DropEntry) : Result :=
  mkResult (res_Events res) (res_Dropped res + 1) (res_Drops res ++ [d]).

Definition dropResourceSpans (res : Result) (rs : ResourceSpans) (reason : string) : Result :=
  foldl (fun res ss => foldl (fun res span => drop_span res (mkDropEntry (sp_Name span) reason)) res ss) res (rs_ScopeSpans rs).

Definition convert_resource (res : Result) (rs : ResourceSpans) : Result :=
  let rc := extractResourceContext (rs_Resource rs) in
  if String.eqb (rc_service rc) "" then dropResourceSpans res rs DropMissingService
  else
    foldl (fun res ss => foldl (fun res span =>
      match convertSpan span rc with
      | inr drop => drop_span res drop
      | inl ev => mkResult (res_Events res ++ [ev]) (res_Dropped res) (res_Drops res)
      end) res ss) res (rs_ScopeSpans rs).

Definition SpansToEvents (req : option ExportTraceServiceRequest) : Result :=
  foldl convert_resource (mkResult [] 0 []) (default [] req).
End Convert.

(** ** Identifiers *)

Definition is_bytes (l : list Z) : Prop := Forall (fun z => 0 <= z < 256) l.

Lemma round_length st kw : length st = 8%nat -> length (Sha256.round st kw) = 8%nat.
Proof. intros H. destruct st as [|? [|? [|? [|? [|? [|? [|? [|? []]]]]]]]]; done. Qed.

Lemma sum256_bytes s : length (Sha256.sum256 s) = 32%nat /\ is_bytes (Sha256.sum256 s).
Proof.
  assert (forall l st, length st = 8%nat -> length (foldl Sha256.round st l) = 8%nat) as Hr.
  { induction l as [|x l IH]; intros st Hst; [done|]. simpl. by apply IH, round_length. }
  assert (forall n h w, length h = 8%nat -> length (Sha256.blocks n h w) = 8%nat) as Hb.
  { induction n as [|n IH]; intros h w Hh; [done|]. simpl. destruct w; [done|]. apply IH. unfold Sha256.block.
    by rewrite length_zip_with, Hr, Hh. }
  assert (forall n z, length (Sha256.be_bytes n z) = n /\ is_bytes (Sha256.be_bytes n z)) as He.
  { induction n as [|n IH]; intros z; [split; [done|constructor]|]. cbn [Sha256.be_bytes length]. destruct (IH z) as [E F]. split; [by rewrite E|].
    constructor; [apply Z.mod_pos_bound; lia|exact F]. }
  unfold Sha256.sum256. set (w := Sha256.words_of _). specialize (Hb (length w) Sha256.h_init w eq_refl). revert Hb.
  generalize (Sha256.blocks (length w) Sha256.h_init w) as l. intros l Hl. split.
  - assert (length (flat_map (Sha256.be_bytes 4) l) = (length l * 4)%nat) as ->; [|by rewrite Hl].
    clear Hl. induction l as [|x l IH]; [done|]. cbn [flat_map]. rewrite length_app, (proj1 (He 4%nat x)), IH. simpl. lia.
  - clear Hl. induction l as [|x l IH]; [constructor|]. cbn [flat_map]. apply Forall_app. split; [apply He|exact IH].
Qed.

(** The shape of a name-based UUID: version 5, variant 1. *)
Fixpoint matches (template s : string) : bool :=
  match template, s with
  | EmptyString, EmptyString => true
  | String t template, String c s =>
    (if Ascii.eqb t "x"%char then is_lower_hex c
     else if Ascii.eqb t "y"%char then Ascii.eqb c "8"%char || Ascii.eqb c "9"%char || Ascii.eqb c "a"%char || Ascii.eqb c "b"%char
     else Ascii.eqb t c) && matches template s
  | _, _ => false
  end.

Definition uuid5 : string -> bool := matches "xxxxxxxx-xxxx-5xxx-yxxx-xxxxxxxxxxxx".

Lemma matches_app t1 t2 s1 s2 : matches t1 s1 = true -> matches (t1 +:+ t2) (s1 +:+ s2) = matches t2 s2.
Proof.
  revert s1. induction t1 as [|t t1 IH]; intros [|c s1]; try done. rewrite !string_app_cons. simpl.
  intros [Hc Hs]%andb_true_iff. rewrite Hc. by apply IH.
Qed.

Fixpoint xs (n : nat) : string := match n with O => "" | S n => String "x"%char (String "x"%char (xs n)) end.

Lemma matches_hex l : is_bytes l -> matches (xs (length l)) (Sha256.hex l) = true.
Proof.
  intros Hl. destruct (hex_ok l Hl) as [Hlen Hc]. revert Hlen Hc. generalize (Sha256.hex l) as s. clear Hl.
  induction l as [|x l IH]; intros s Hlen Hc; [by destruct s|]. destruct s as [|a [|b s]]; [done|simpl in Hlen; lia|].
  cbn [all_chars] in Hc. apply andb_true_iff in Hc as [Ha Hc]. apply andb_true_iff in Hc as [Hb Hc]. cbn [length xs matches].
  change (Ascii.eqb "x" "x") with true. cbn iota. rewrite Ha, Hb. apply IH; [simpl in Hlen; lia|done].
Qed.

(** A byte property that holds of all 256 bytes. *)
Lemma all_bytes (p : Z -> bool) b : forallb p (seqZ 0 256) = true -> 0 <= b < 256 -> p b = true.
Proof. intros Hall Hb. apply List.forallb_forall with (x := b) in Hall; [done|]. apply list_elem_of_In, elem_of_seqZ. lia. Qed.

Lemma deterministicEventID_uuid5 traceID spanID : uuid5 (deterministicEventID traceID spanID) = true.
Proof.
  unfold deterministicEventID, id_bytes. destruct (sum256_bytes (traceID +:+ ":" +:+ spanID)) as [Hlen Hb].
  revert Hlen Hb. generalize (Sha256.sum256 (traceID +:+ ":" +:+ spanID)) as l. intros l Hlen Hb.
  do 16 (destruct l as [|? l]; [done|]). clear Hlen. repeat (apply Forall_cons in Hb as [? Hb]). clear Hb.
  cbn [take Sha256.nthZ List.nth]. cbn [insert list_insert Nat.sub take drop Join]. rewrite !take_0.
  unfold Sha256.nthZ. cbn [List.nth].
  pose (p6 b := matches "5x" (Sha256.hex [Z.lor (Z.land b 15) 80])). pose (p8 b := matches "yx" (Sha256.hex [Z.lor (Z.land b 63) 128])).
  assert (forall b l, Sha256.hex (b :: l) = Sha256.hex [b] +:+ Sha256.hex l) as Hcons.
  { intros b l'. unfold Sha256.hex. cbn [foldr]. by rewrite !string_app_assoc, string_app_nil_l. }
  change uuid5 with (matches (xs 4 +:+ "-" +:+ xs 2 +:+ "-" +:+ "5x" +:+ xs 1 +:+ "-" +:+ "yx" +:+ xs 1 +:+ "-" +:+ xs 6)).
  rewrite (Hcons (Z.lor (Z.land _ 15) 80)), (Hcons (Z.lor (Z.land _ 63) 128)). rewrite !string_app_assoc.
  rewrite (matches_app (xs 4)) by (apply (matches_hex [_; _; _; _]); repeat constructor; lia).
  rewrite (matches_app "-") by done. rewrite (matches_app (xs 2)) by (apply (matches_hex [_; _]); repeat constructor; lia).
  rewrite (matches_app "-") by done. rewrite (matches_app "5x") by (apply (all_bytes p6); [vm_compute; reflexivity|done]).
  rewrite (matches_app (xs 1)) by (apply (matches_hex [_]); repeat constructor; lia).
  rewrite (matches_app "-") by done. rewrite (matches_app "yx") by (apply (all_bytes p8); [vm_compute; reflexivity|done]).
  rewrite (matches_app (xs 1)) by (apply (matches_hex [_]); repeat constructor; lia).
  rewrite (matches_app "-") by done. apply (matches_hex [_; _; _; _; _; _]); repeat constructor; lia.
Qed.

(** ** Events *)

(** A span whose ids have the widths of the protocol; its parent may be missing. *)
Definition well_sized (span : Span) : Prop :=
  is_bytes (sp_TraceId span) /\ is_bytes (sp_SpanId span) /\ is_bytes (sp_ParentSpanId span) /\
  length (sp_TraceId span) = 16%nat /\ length (sp_SpanId span) = 8%nat /\
  (allZeros (sp_ParentSpanId span) = true \/ length (sp_ParentSpanId span) = 8%nat).

(** What every converted event satisfies: it meets the published schema, its id is a UUID,
    it does not end before it starts, and it has one step, which failed exactly when the
    event did and is then the event's anchor. *)
Record converted (ev : Event) : Prop := {
  cv_schema : conforms ev = true;
  cv_id : uuid5 (ev_EventID ev) = true;
  cv_times : ev_TsStart ev <= ev_TsEnd ev;
  cv_step : exists step, ev_Steps ev = [step] /\ st_SpanID step = ev_SpanID ev /\ st_DurationMS step = ev_DurationMS ev /\
    match st_Error step with
    | None => ev_Status ev = StatusOK /\ st_Status step = StepStatusOK /\ ev_Anchor ev = None /\ ev_Errors ev = []
    | Some err => ev_Status ev = StatusError /\ st_Status step = StepStatusError /\
                  ev_Anchor ev = Some (mkAnchor (st_Name step) (se_Code err) "otlp") /\ ev_Errors ev = [mkErrorRef (se_Code err) (se_Reason err)]
    end
}.

Lemma stepName_nonempty span attrs : String.eqb (stepName span attrs) "" = false.
Proof. unfold stepName. case_if; [by apply negb_true_iff|]. case_if; [by apply negb_true_iff|done]. Qed.

Lemma errorInfo_nonempty span attrs statusCode : String.eqb (errorInfo span attrs statusCode).1 "" = false.
Proof.
  unfold errorInfo. case_if; [by apply negb_true_iff|]. destruct (List.find _ _) as [e|] eqn:Ef; [|by case_if].
  apply List.find_some in Ef as [_ Ef]. apply andb_true_iff in Ef as [_ Ef]. by apply negb_true_iff.
Qed.

Lemma Milliseconds_nonneg d : 0 <= d -> (0 <=? Milliseconds d) = true.
Proof. intros Hd. apply Z.leb_le. unfold Milliseconds. apply Z.quot_pos; [done|]. unfold Millisecond. lia. Qed.

Lemma env_nonempty r : String.eqb (rc_env (extractResourceContext r)) "" = false.
Proof. unfold extractResourceContext. cbn [rc_env]. by repeat case_if. Qed.

Lemma hex16_opt_hex l : is_bytes l -> length l = 8%nat -> hex16_opt (Sha256.hex l) = true /\ String.eqb (Sha256.hex l) "" = false.
Proof.
  intros Hb Hl. destruct (hex_ok l Hb) as [Hlen Hc]. unfold hex16_opt. rewrite Hlen, Hl, Hc, orb_true_r.
  split; [done|]. apply String.eqb_neq. intros E. by rewrite E, Hl in Hlen.
Qed.

Lemma convertSpan_converted kind_name span r ev :
  well_sized span -> String.eqb (rc_service (extractResourceContext r)) "" = false ->
  convertSpan kind_name span (extractResourceContext r) = inl ev -> converted ev.
Proof.
  intros (Ht & Hs & Hp & Lt & Ls & Lp) Hserv. pose proof (env_nonempty r) as Henv. revert Hserv Henv.
  generalize (extractResourceContext r) as rc. intros rc Hserv Henv. unfold convertSpan. case_if; [done|]. case_if; [done|]. cbv zeta.
  set (attrs := spanAttrs span). destruct (deriveHTTPOutcome span attrs) as [[statusCode success] hasHTTP]. case_if; [done|].
  pose proof (errorInfo_nonempty span attrs statusCode) as Hcode. destruct (errorInfo span attrs statusCode) as [code reason]. cbn [fst] in Hcode.
  set (start := unix_epoch + _). set (end_ := if Before _ start then start else _).
  assert (start <= end_) as Hle. { unfold end_, Before. case_if; bool_prop; lia. }
  assert ((0 <=? Milliseconds (TimeSub end_ start)) = true) as Hms.
  { apply Milliseconds_nonneg. unfold TimeSub, min_int64, max_int64. lia. }
  destruct (hex_ok _ Ht) as [Hl1 Hc1]. destruct (hex16_opt_hex _ Hs Ls) as [Hh Hne].
  assert (hex32 (Sha256.hex (sp_TraceId span)) = true) as Htrace. { unfold hex32. by rewrite Hl1, Lt, Hc1. }
  assert (hex16_opt (if allZeros (sp_ParentSpanId span) then "" else Sha256.hex (sp_ParentSpanId span)) = true) as Hparent.
  { case_if; [done|]. destruct Lp as [|Lp]; [congruence|]. by apply hex16_opt_hex. }
  intros [= <-]. split.
  - destruct success; unfold conforms, step_ok, anchor_ok; simpl;
      rewrite Hms, Hserv, Henv, Htrace, Hh, Hparent, Hne, stepName_nonempty, ?Hcode; simpl; by destruct (downstreamFromSpan span attrs).
  - destruct success; apply deterministicEventID_uuid5.
  - by destruct success.
  - destruct success; eexists; done.
Qed.

(** ** Requests *)

Definition request_spans (req : option ExportTraceServiceRequest) : list Span := default [] req ≫= fun rs => concat (rs_ScopeSpans rs).

Lemma foldl_concat {A B} (f : B -> A -> B) (ls : list (list A)) b : foldl (foldl f) b ls = foldl f b (concat ls).
Proof. revert b. induction ls as [|l ls IH]; intros b; [done|]. simpl. by rewrite foldl_app. Qed.

Section Requests.
Variable kind_name : SpanKind -> string.

(** What becomes of one span of a resource. *)
Definition convert_one (rs : ResourceSpans) (span : Span) : Event + DropEntry :=
  let rc := extractResourceContext (rs_Resource rs) in
  if String.eqb (rc_service rc) "" then inr (mkDropEntry (sp_Name span) DropMissingService) else convertSpan kind_name span rc.

Definition add_result (res : Result) (o : Event + DropEntry) : Result :=
  match o with inl ev => mkResult (res_Events res ++ [ev]) (res_Dropped res) (res_Drops res) | inr d => drop_span res d end.

Definition outcomes (req : option ExportTraceServiceRequest) : list (Event + DropEntry) :=
  default [] req ≫= fun rs => convert_one rs <$> concat (rs_ScopeSpans rs).

Lemma foldl_fmap {A B C} (f : C -> B -> C) (g : A -> B) (l : list A) c : foldl f c (g <$> l) = foldl (fun c x => f c (g x)) c l.
Proof. revert c. induction l as [|x l IH]; intros c; [done|]. simpl. apply IH. Qed.

Lemma convert_resource_outcomes res rs :
  convert_resource kind_name res rs = foldl add_result res (convert_one rs <$> concat (rs_ScopeSpans rs)).
Proof.
  unfold convert_resource, dropResourceSpans. rewrite foldl_fmap. unfold convert_one.
  destruct (String.eqb (rc_service (extractResourceContext (rs_Resource rs))) "").
  - exact (foldl_concat (fun res span => drop_span res (mkDropEntry (sp_Name span) DropMissingService)) (rs_ScopeSpans rs) res).
  - exact (foldl_concat (fun res span => add_result res (convertSpan kind_name span (extractResourceContext (rs_Resource rs)))) (rs_ScopeSpans rs) res).
Qed.

Definition events_of (l : list (Event + DropEntry)) : list Event := omap (fun o => match o with inl ev => Some ev | inr _ => None end) l.
Definition drops_of (l : list (Event + DropEntry)) : list DropEntry := omap (fun o => match o with inl _ => None | inr d => Some d end) l.

Lemma add_results res l : foldl add_result res l =
  mkResult (res_Events res ++ events_of l) (res_Dropped res + Z.of_nat (length (drops_of l))) (res_Drops res ++ drops_of l).
Proof.
  revert res. induction l as [|o l IH]; intros res; [destruct res; simpl; rewrite !app_nil_r; f_equal; lia|].
  simpl. rewrite IH. destruct o; simpl; rewrite <- !app_assoc; f_equal; lia.
Qed.

(** Conversion is span by span, in the order of the request. *)
Lemma SpansToEvents_outcomes req : SpansToEvents kind_name req =
  mkResult (events_of (outcomes req)) (Z.of_nat (length (drops_of (outcomes req)))) (drops_of (outcomes req)).
Proof.
  unfold SpansToEvents, outcomes. assert (forall res, foldl (convert_resource kind_name) res (default [] req) =
    foldl add_result res (default [] req ≫= fun rs => convert_one rs <$> concat (rs_ScopeSpans rs))) as ->.
  { induction (default [] req) as [|rs l IH]; intros res; [done|]. cbn [foldl mbind list_bind]. by rewrite foldl_app, IH, convert_resource_outcomes. }
  by rewrite add_results.
Qed.

Lemma outcomes_length req : (length (events_of (outcomes req)) + length (drops_of (outcomes req)))%nat = length (request_spans req).
Proof.
  assert (forall l : list (Event + DropEntry), (length (events_of l) + length (drops_of l))%nat = length l) as ->.
  { induction l as [|[?|?] l IH]; [done|simpl; lia|]. change (length (events_of l) + S (length (drops_of l)) = S (length l))%nat. lia. }
  unfold outcomes, request_spans. induction (default [] req) as [|rs l IH]; [done|].
  rewrite !bind_cons, !length_app, length_fmap. by rewrite IH.
Qed.

Lemma events_converted req :
  Forall well_sized (request_spans req) -> Forall converted (res_Events (SpansToEvents kind_name req)).
Proof.
  intros Hw. rewrite SpansToEvents_outcomes. cbn [res_Events]. apply Forall_forall. intros ev (o & Ho & Hev)%list_elem_of_omap.
  destruct o as [ev'|]; [|done]. injection Hev as ->. unfold outcomes in Ho. apply list_elem_of_bind in Ho as (rs & Ho & Hrs).
  apply list_elem_of_fmap in Ho as (span & Hone & Hspan). symmetry in Hone. unfold convert_one in Hone.
  destruct (String.eqb (rc_service (extractResourceContext (rs_Resource rs))) "") eqn:Es; [done|].
  apply (convertSpan_converted kind_name span (rs_Resource rs)); [|done|done]. rewrite Forall_forall in Hw. apply Hw.
  unfold request_spans. apply list_elem_of_bind. by exists rs.
Qed.

(** C24: Conversion yields well-formed events only: from spans whose ids have the protocol's
    widths, whatever else they carry, every event meets the published schema, has a UUID
    for an id, does not end before it starts, and has one step that failed exactly when the
    event failed and then is its anchor. *)
Theorem SpansToEvents_converted req :
  Forall well_sized (request_spans req) -> Forall converted (res_Events (SpansToEvents kind_name req)).
Proof. apply events_converted. Qed.
End Requests.

(** ** A request with one of each *)

Definition sample_kind (k : SpanKind) : string := match k with KindServer => "SPAN_KIND_SERVER" | KindClient => "SPAN_KIND_CLIENT" | _ => "" end.

Definition sample_trace : list Z := [170; 187; 204; 221; 238; 255; 0; 17; 34; 51; 68; 85; 102; 119; 136; 153].

Definition sample_span (name : string) (attrs : list KeyValue) : Span :=
  mkSpan sample_trace (take 8 sample_trace) [] name KindClient 1000000000 1050000000 attrs [] None.

Definition sample_resource (service : string) (spans : list Span) : ResourceSpans :=
  mkResourceSpans (Some [mkKeyValue "service.name" (StringValue service); mkKeyValue "service.version" (StringValue "1.2.3")]) [spans].

Definition sample_request : option ExportTraceServiceRequest := Some [
  sample_resource "checkout" [
    sample_span "GET" [mkKeyValue "http.route" (StringValue "/api/users")];
    sample_span "POST" [mkKeyValue "http.response.status_code" (IntValue 502); mkKeyValue "waylog.step" (StringValue "payment.charge");
                        mkKeyValue "waylog.error_code" (StringValue "PMT_502"); mkKeyValue "peer.service" (StringValue "http://payment:80")];
    sample_span "job" []];
  sample_resource "" [sample_span "lost" []]].

Example sample_converted :
  let res := SpansToEvents sample_kind sample_request in
  ((fun ev => (ev_EventID ev, ev_Status ev, an_Step <$> ev_Anchor ev, ev_DurationMS ev)) <$> res_Events res) =
    [("1c22dd2e-b3ff-5cdd-88d9-718092b34f2e", "ok", None, 50); ("1c22dd2e-b3ff-5cdd-88d9-718092b34f2e", "error", Some "payment.charge", 50)] /\
  ((fun ev => st_Downstream <$> ev_Steps ev) <$> res_Events res) = [[None]; [Some (mkDownstream "payment" "" "http")]] /\
  res_Drops res = [mkDropEntry "job" DropUnsupportedKind; mkDropEntry "lost" DropMissingService] /\ res_Dropped res = 2.
Proof. vm_compute. done. Qed.

Lemma SpansToEvents_converted_witness : Forall converted (res_Events (SpansToEvents sample_kind sample_request)).
Proof.
  apply SpansToEvents_converted. unfold request_spans, sample_request. cbn [default from_option id]. 
  repeat constructor; try (vm_compute; congruence); by left.
Defined.
