(* ===== verification/Otlp.v ===== *)
(** The OTLP endpoints ([internal/otel]: [handler.go], [deploys.go], [grpc.go]): the
    export of converted spans through the ingest handler, the deployments inferred from
    version changes, and the HTTP and gRPC transports around them.  Protobuf and gzip are
    arguments; the JSON of an event is the argument [marshal]; that it is one line and decodes
    to an event with its id is the class [EventJson]. *)

From S2P Require Import Prelude GoRuntime GoFloat GoText Types Schema Index Eventlog Ingest RateLimit Access Convert.
Open Scope Z_scope.

(** ** Deployments ([deploys.go]) *)

Record Deployment := mkDeployment {
  dp_ID : string; dp_Service : string; dp_Version : string; dp_Env : string;
  dp_FirstSeen : Time; dp_LastSeen : Time; dp_Metadata : gmap string string
}.

(** [DeployTracker]: its map from service and environment to the version last seen. *)
Abbreviation DeployTracker := (gmap string string) (only parsing).

Definition NewDeployTracker : DeployTracker := ∅.

Definition nul : string := String (ascii_of_nat 0) "".
Definition deploy_key (ev : Event) : string := ev_Service ev +:+ nul +:+ ev_Env ev.

Definition tracked (ev : Event) : bool := negb (String.eqb (ev_Service ev) "" || String.eqb (ev_Version ev) "").

(** One turn of the loop under the lock. *)
Definition observe_one (st : DeployTracker * list (string * string * string)) (ev : Event) : DeployTracker * list (string * string * string) :=
  let '(lastVersion, changes) := st in
  if negb (tracked ev) then st else
  let key := deploy_key ev in
  let last := lastVersion !! key in
  if String.eqb (default "" last) (ev_Version ev) then st
  else (<[key := ev_Version ev]> lastVersion,
        if bool_decide (is_Some last) then changes ++ [(ev_Service ev, ev_Env ev, ev_Version ev)] else changes).

Definition deployment_of (now : Time) (c : string * string * string) : Deployment :=
  let '(service, env, version) := c in
  mkDeployment ("otlp:" +:+ service +:+ ":" +:+ env +:+ ":" +:+ version) service version env now now {["source" := "otlp"]}.

(** [Observe]: the deployments it upserts, in order. *)
Definition Observe (t : option DeployTracker) (events : list Event) (now : Time) : option DeployTracker * list Deployment :=
  match t with
  | None => (None, [])
  | Some lastVersion =>
    let '(lastVersion, changes) := foldl observe_one (lastVersion, []) events in
    (Some lastVersion, deployment_of now <$> changes)
  end.

(** ** Export ([handler.go]) *)

Record ExportError := mkExportError { xe_StatusCode : Z; xe_Bucket : string; xe_Message : string }.

Record PartialSuccess := mkPartialSuccess { ps_RejectedSpans : Z; ps_ErrorMessage : string }.

Definition spanName (ev : Event) : string :=
  match ev_Fields ev !! "otel" with Some (VMap (Some m)) => as_string (m !! "span_name") | _ => "" end.

Definition is_future (now : Time) (ev : Event) : bool := After (ev_TsStart ev) (TimeAdd now (5 * Minute)).

(** The loop that keeps the events of the present. *)
Definition drop_future (now : Time) (res : Result) : Result :=
  let res' := foldl (fun acc ev =>
    if is_future now ev then drop_span acc (mkDropEntry (spanName ev) DropFutureTimestamp)
    else mkResult (res_Events acc ++ [ev]) (res_Dropped acc) (res_Drops acc)) (mkResult [] (res_Dropped res) (res_Drops res)) (res_Events res) in
  res'.

Definition partial_limit : nat := 5.

Definition buildPartialSuccessMessage (drops : list DropEntry) (rejects : list RejectedEvent) : string :=
  Join "; " (
    ((fun d => de_Reason d +:+ if negb (String.eqb (de_SpanName d) "") then " (span: " +:+ de_SpanName d +:+ ")" else "") <$> take partial_limit drops) ++
    ((fun e => rj_Reason e +:+ if negb (String.eqb (rj_Detail e) "") then " (" +:+ rj_Detail e +:+ ")" else "") <$> take partial_limit rejects)).

Section Otlp.
Context {W P : Type} `{!WAL W} `{!EventProjector P}.
Variable kind_name : SpanKind -> string.
Variable c : Codec.
Variable marshal : Event -> option string.

Definition marshalEvents (events : list Event) : option (list string) := mapM marshal events.

Record OtlpHandler := mkOtlpHandler { oh_v2Ingest : option (Handler W P); oh_deploys : option DeployTracker }.

Definition infrastructure : ExportError := mkExportError 503 "5xx" "infrastructure error".

(** The clock is read for the guard and again when deployments are recorded. *)
Definition Export (now later : Time) (cancelled : Z -> bool) (h : OtlpHandler) (req : option ExportTraceServiceRequest)
    : OtlpHandler * list Deployment * (ExportError + option PartialSuccess) :=
  let convResult := drop_future now (SpansToEvents kind_name req) in
  let respond env :=
    let totalRejected := res_Dropped convResult + Z.of_nat (length (env_Rejected env)) in
    if 0 <? totalRejected
    then Some (mkPartialSuccess totalRejected (buildPartialSuccessMessage (res_Drops convResult) (env_Rejected env)))
    else None in
  match res_Events convResult with
  | [] => (h, [], inr (respond newEnvelope))
  | _ =>
    match oh_v2Ingest h, marshalEvents (res_Events convResult) with
    | None, _ | _, None => (h, [], inl infrastructure)
    | Some ingest, Some bodies =>
      match IngestRaw c cancelled true ingest bodies with
      | (ingest, _, Some ErrContext) =>
        (mkOtlpHandler (Some ingest) (oh_deploys h), [], inl (mkExportError 503 "5xx" "request canceled"))
      | (ingest, _, Some _) => (mkOtlpHandler (Some ingest) (oh_deploys h), [], inl infrastructure)
      | (ingest, env, None) =>
        let '(deploys, upserts) := Observe (oh_deploys h) (res_Events convResult) later in
        (mkOtlpHandler (Some ingest) deploys, upserts, inr (respond env))
      end
    end
  end.
End Otlp.
Arguments OtlpHandler : clear implicits.

(** ** The HTTP transport *)

(** A body as it is read: its bytes, and whether reading ends without an error. *)
Record stream := mkStream { sm_bytes : string; sm_ok : bool }.

(** [io.ReadAll] of an [io.LimitReader]. *)
Definition read_limited (n : Z) (s : stream) : option string :=
  if n <=? Z.of_nat (String.length (sm_bytes s)) then Some (take_bytes (Z.to_nat n) (sm_bytes s))
  else if sm_ok s then Some (sm_bytes s) else None.

Record OtlpRequest := mkOtlpRequest { oq_Method : string; oq_ContentType : string; oq_ContentEncoding : string; oq_Body : stream }.

(** [mime.ParseMediaType], [gzip.NewReader], [proto.Unmarshal] and [proto.Marshal]. *)
Record Wire := mkWire {
  parse_media_type : string -> option string;
  gunzip : stream -> option stream;
  unmarshal_request : string -> option ExportTraceServiceRequest;
  marshal_response : option PartialSuccess -> option string
}.

(** A refusal with its status and text, or the bytes of a response. *)
Inductive otlp_answer := Refused (code : Z) (msg : string) | Responded (body : string).

Section Transport.
Context {W P : Type} `{!WAL W} `{!EventProjector P}.
Variable kind_name : SpanKind -> string.
Variable c : Codec.
Variable marshal : Event -> option string.
Variable wire : Wire.

(** The request read from the wire, or the refusal. *)
Definition read_request (maxBodyBytes : Z) (r : OtlpRequest) : otlp_answer + ExportTraceServiceRequest :=
  if negb (String.eqb (oq_Method r) "POST") then inl (Refused 405 "method not allowed")
  else if negb (bool_decide (parse_media_type wire (oq_ContentType r) = Some "application/x-protobuf"))
  then inl (Refused 415 "unsupported content type; expected application/x-protobuf")
  else
    let encoding := oq_ContentEncoding r in
    if negb (String.eqb encoding "") && negb (String.eqb encoding "gzip")
    then inl (Refused 415 "unsupported content encoding; only gzip is accepted")
    else
      match (if String.eqb encoding "gzip" then gunzip wire (oq_Body r) else Some (oq_Body r)) with
      | None => inl (Refused 400 "invalid gzip body")
      | Some reader =>
        match read_limited (maxBodyBytes + 1) reader with
        | None => inl (Refused 400 "failed to read body")
        | Some body =>
          if maxBodyBytes <? Z.of_nat (String.length body) then inl (Refused 413 "request body too large")
          else match unmarshal_request wire body with
               | None => inl (Refused 400 "invalid protobuf")
               | Some req => inr req
               end
        end
      end.

Definition ServeHTTP (maxBodyBytes : Z) (now later : Time) (cancelled : Z -> bool) (h : OtlpHandler W P) (r : OtlpRequest)
    : OtlpHandler W P * list Deployment * otlp_answer :=
  match read_request maxBodyBytes r with
  | inl refused => (h, [], refused)
  | inr req =>
    match Export kind_name c marshal now later cancelled h (Some req) with
    | (h, deployments, inl err) => (h, deployments, Refused (xe_StatusCode err) (xe_Message err))
    | (h, deployments, inr resp) =>
      (h, deployments, match marshal_response wire resp with Some b => Responded b | None => Refused 500 "failed to encode response" end)
    end
  end.

(** ** The gRPC transport ([grpc.go]) *)

Inductive GrpcCode := InvalidArgument | Unauthenticated | PermissionDenied | Unavailable | Internal | Unknown.

Definition grpcCode (statusCode : Z) : GrpcCode :=
  if (statusCode =? 400) || (statusCode =? 413) || (statusCode =? 415) then InvalidArgument
  else if statusCode =? 401 then Unauthenticated
  else if statusCode =? 403 then PermissionDenied
  else if statusCode =? 503 then Unavailable
  else if 500 <=? statusCode then Internal else Unknown.

Definition GrpcExport (now later : Time) (cancelled : Z -> bool) (h : OtlpHandler W P) (req : option ExportTraceServiceRequest)
    : OtlpHandler W P * list Deployment * ((GrpcCode * string) + option PartialSuccess) :=
  match Export kind_name c marshal now later cancelled h req with
  | (h, deployments, inl err) => (h, deployments, inl (grpcCode (xe_StatusCode err), xe_Message err))
  | (h, deployments, inr resp) => (h, deployments, inr resp)
  end.
End Transport.

(** The token of the first bearer value of the metadata, if there is any. *)
Fixpoint bearerToken (md : list string) : string :=
  match md with
  | [] => ""
  | auth :: md => match bearer auth with Some token => TrimSpace token | None => bearerToken md end
  end.

Definition matchesAnyToken (token : string) (keys : list string) : bool := matchesAny token keys.

(** [AuthUnaryInterceptor]: whether a call goes through to its handler. *)
Definition AuthUnaryInterceptor (writeKeys md : list string) : bool :=
  let keyBytes := List.filter (fun key => negb (String.eqb key "")) (TrimSpace <$> writeKeys) in
  if (length keyBytes =? 0)%nat then true
  else let token := bearerToken md in negb (String.eqb token "") && matchesAnyToken token keyBytes.

(** ** Deployments are version changes *)

Definition same_target (ev ev' : Event) : bool := String.eqb (ev_Service ev) (ev_Service ev') && String.eqb (ev_Env ev) (ev_Env ev').

(** The version a service had in an environment after some events. *)
Definition version_after (evs : list Event) (ev : Event) : option string :=
  ev_Version <$> last (List.filter (fun x => tracked x && same_target ev x) evs).

(** The change the [i]-th event of a stream is, if it is one: its service was seen before in
    its environment, last with another version. *)
Definition change_at (evs : list Event) (i : nat) : option (string * string * string) :=
  ev ← evs !! i;
  if negb (tracked ev) then None else
  prev ← version_after (take i evs) ev;
  if String.eqb prev (ev_Version ev) then None else Some (ev_Service ev, ev_Env ev, ev_Version ev).

Definition version_changes (evs : list Event) : list (string * string * string) := omap (change_at evs) (seq 0 (length evs)).

Definition plain_service (ev : Event) : Prop := has_byte (ascii_of_nat 0) (ev_Service ev) = false.

Lemma nul_app_inj a b x y : has_byte (ascii_of_nat 0) a = false -> has_byte (ascii_of_nat 0) b = false ->
  a +:+ nul +:+ x = b +:+ nul +:+ y -> a = b /\ x = y.
Proof.
  unfold nul. revert b. induction a as [|ch a IH]; intros [|d b] Ha Hb; rewrite ?string_app_cons, ?string_app_nil_l.
  - intros E. split; [done|]. by injection E.
  - intros E. injection E as <- _. simpl in Hb. done.
  - intros E. injection E as -> _. simpl in Ha. done.
  - intros E. injection E as -> E. simpl in Ha, Hb. destruct (Ascii.eqb d _); [done|]. apply IH in E as [-> ->]; done.
Qed.

Lemma same_target_key ev ev' : plain_service ev -> plain_service ev' -> same_target ev ev' = bool_decide (deploy_key ev = deploy_key ev').
Proof.
  intros H H'. apply eq_iff_eq_true. rewrite bool_decide_eq_true. unfold same_target, deploy_key. rewrite andb_true_iff, !String.eqb_eq.
  split; [intros [-> ->]; done|]. by apply nul_app_inj.
Qed.

Lemma change_at_app evs evs' i : (i < length evs)%nat -> change_at (evs ++ evs') i = change_at evs i.
Proof. intros Hi. unfold change_at. rewrite lookup_app_l, take_app_le by lia. done. Qed.

Lemma version_changes_snoc evs ev : version_changes (evs ++ [ev]) = version_changes evs ++ option_list (change_at (evs ++ [ev]) (length evs)).
Proof.
  unfold version_changes. rewrite length_app, seq_app, omap_app. cbn [length seq omap list_omap Nat.add]. f_equal.
  apply list_omap_ext, Forall2_same_length_lookup_2; [done|]. intros i x y Hx Hy. rewrite Hx in Hy. injection Hy as ->.
    apply lookup_seq in Hx as [-> Hi]. by rewrite change_at_app.
Qed.

(** What the tracker holds after a stream. *)
Definition tracks (evs : list Event) (m : gmap string string) : Prop :=
  forall ev, plain_service ev -> m !! deploy_key ev = version_after evs ev.

Lemma observe_one_spec evs ev m changes : Forall plain_service (evs ++ [ev]) -> tracks evs m ->
  (observe_one (m, changes) ev).2 = changes ++ option_list (change_at (evs ++ [ev]) (length evs)) /\
  tracks (evs ++ [ev]) (observe_one (m, changes) ev).1.
Proof.
  intros Hp Ht. apply Forall_app in Hp as [_ Hp]. apply Forall_inv in Hp.
  unfold change_at. rewrite list_lookup_middle, take_app_length by done. cbn [mbind option_bind]. unfold observe_one.
  assert (forall ev', version_after (evs ++ [ev]) ev' = if tracked ev && same_target ev' ev then Some (ev_Version ev) else version_after evs ev') as Hafter.
  { intros ev'. unfold version_after. rewrite List.filter_app. simpl. destruct (_ && _); [by rewrite last_snoc|by rewrite app_nil_r]. }
  destruct (tracked ev) eqn:Et; cbn [negb fst snd]; [|split; [by rewrite app_nil_r|intros ev' Hp'; by rewrite Hafter, Ht]].
  rewrite (Ht ev Hp). destruct (String.eqb_spec (default "" (version_after evs ev)) (ev_Version ev)) as [Hv|Hv].
  - assert (version_after evs ev = Some (ev_Version ev)) as Hsome.
    { destruct (version_after evs ev) as [v|]; simpl in Hv; [by rewrite Hv|]. unfold tracked in Et. rewrite <- Hv in Et. by rewrite orb_true_r in Et. }
    rewrite Hsome. cbn [mbind option_bind]. rewrite String.eqb_refl. cbn [fst snd]. split; [by rewrite app_nil_r|].
    intros ev' Hp'. rewrite Hafter, Ht by done. cbn [andb]. rewrite same_target_key by done. case_bool_decide as Hk; [|done].
    rewrite <- Hsome, <- (Ht ev Hp), <- (Ht ev' Hp'). by rewrite Hk.
  - cbn [fst snd]. split.
    + destruct (version_after evs ev) as [v|] eqn:Ev; simpl in Hv; cbn [mbind option_bind].
      * rewrite bool_decide_eq_true_2 by (by eexists). by rewrite (proj2 (String.eqb_neq _ _) Hv).
      * rewrite bool_decide_eq_false_2 by (intros [? ?]; done). by rewrite app_nil_r.
    + intros ev' Hp'. rewrite Hafter. cbn [andb]. rewrite same_target_key by done. case_bool_decide as Hk.
      * by rewrite Hk, lookup_insert_eq.
      * rewrite lookup_insert_ne by congruence. by apply Ht.
Qed.

Lemma observe_all evs evs' m : Forall plain_service (evs ++ evs') -> tracks evs m ->
  forall changes, version_changes (evs ++ evs') = version_changes evs ++ drop (length changes) (foldl observe_one (m, changes) evs').2 /\
  take (length changes) (foldl observe_one (m, changes) evs').2 = changes /\
  tracks (evs ++ evs') (foldl observe_one (m, changes) evs').1.
Proof.
  revert evs m. induction evs' as [|ev evs' IH]; intros evs m Hp Ht changes.
  - cbn [foldl fst snd]. by rewrite app_nil_r, drop_ge, app_nil_r, take_ge.
  - rewrite cons_middle, app_assoc in Hp |- *. pose proof Hp as [Hp1 _]%Forall_app.
    destruct (observe_one_spec evs ev m changes Hp1 Ht) as [Hc Hm]. cbn [foldl]. destruct (observe_one (m, changes) ev) as [m1 changes1]. cbn [fst snd] in *.
    destruct (IH (evs ++ [ev]) m1 Hp Hm changes1) as (H1 & H2 & H3). rewrite H1, version_changes_snoc. set (r := foldl _ _ evs') in *. clearbody r.
    assert (r.2 = changes ++ option_list (change_at (evs ++ [ev]) (length evs)) ++ drop (length changes1) r.2) as Hr.
    { rewrite <- (take_drop (length changes1) r.2) at 1. rewrite H2, Hc, app_assoc. done. }
    split; [|split; [|done]].
    + rewrite Hr at 2. by rewrite drop_app_length, app_assoc.
    + rewrite Hr. by rewrite take_app_length.
Qed.

Lemma Observe_Some m evs now : Observe (Some m) evs now =
  (Some (foldl observe_one (m, []) evs).1, deployment_of now <$> (foldl observe_one (m, []) evs).2).
Proof. unfold Observe. by destruct (foldl observe_one (m, []) evs). Qed.

(** A series of calls, each at its time. *)
Definition observe_run (t : option DeployTracker) (calls : list (list Event * Time)) : option DeployTracker * list Deployment :=
  foldl (fun st call => let '(t, ds) := Observe st.1 call.1 call.2 in (t, st.2 ++ ds)) (t, []) calls.

(** Deployments are the version changes of the stream of observed events: over any
    series of calls on a new tracker, the deployments recorded are, in order, those of the
    events whose service was seen before in its environment, last with another version; so
    the first version of a service is never recorded, and a stable one is recorded never. *)
Theorem observed_deployments calls : Forall plain_service (concat calls.*1) ->
  (fun d => (dp_Service d, dp_Env d, dp_Version d)) <$> (observe_run (Some NewDeployTracker) calls).2 = version_changes (concat calls.*1).
Proof.
  intros Hp. enough (exists m, (observe_run (Some NewDeployTracker) calls).1 = Some m /\ tracks (concat calls.*1) m /\
    (fun d => (dp_Service d, dp_Env d, dp_Version d)) <$> (observe_run (Some NewDeployTracker) calls).2 = version_changes (concat calls.*1)) by naive_solver.
  unfold observe_run. induction calls as [|[evs now] calls IH] using rev_ind; [by exists ∅|].
  rewrite fmap_app, concat_app in Hp |- *. pose proof Hp as [Hp1 _]%Forall_app. destruct (IH Hp1) as (m & Hm & Ht & Hds).
  rewrite foldl_app. cbn [foldl]. rewrite Hm, Observe_Some. cbn [fst snd]. simpl concat in *. rewrite app_nil_r in *.
  destruct (observe_all (concat calls.*1) evs m Hp Ht []) as (H1 & _ & H3). destruct (foldl observe_one (m, []) evs) as [m1 changes]. cbn [fst snd length drop] in *.
  exists m1. split; [done|split; [done|]]. rewrite fmap_app, Hds, H1, drop_0. f_equal. rewrite <- list_fmap_compose.
  rewrite <- (list_fmap_id changes) at 2. apply list_fmap_ext. by intros i [[? ?] ?].
Qed.

(** ** An export that is answered *)

Lemma drop_future_spec now res : drop_future now res =
  mkResult (List.filter (fun ev => negb (is_future now ev)) (res_Events res))
    (res_Dropped res + Z.of_nat (length (List.filter (is_future now) (res_Events res))))
    (res_Drops res ++ ((fun ev => mkDropEntry (spanName ev) DropFutureTimestamp) <$> List.filter (is_future now) (res_Events res))).
Proof.
  unfold drop_future. set (step := fun acc ev => if is_future now ev then _ else _).
  enough (forall evs acc n ds, foldl step (mkResult acc n ds) evs = mkResult (acc ++ List.filter (fun ev => negb (is_future now ev)) evs)
    (n + Z.of_nat (length (List.filter (is_future now) evs))) (ds ++ ((fun ev => mkDropEntry (spanName ev) DropFutureTimestamp) <$> List.filter (is_future now) evs))) as H
    by apply H.
  induction evs as [|ev evs IH]; intros acc n ds; cbn [foldl List.filter fmap list_fmap length].
  - by rewrite !app_nil_r, Z.add_0_r.
  - unfold step at 2. destruct (is_future now ev); cbn [negb fmap list_fmap length]; unfold drop_span; cbn [res_Events res_Dropped res_Drops]; rewrite IH; rewrite <- ?app_assoc; [|done].
    f_equal. lia.
Qed.

(** The events of an export, and the spans it turns away. *)
Definition kept (kind_name : SpanKind -> string) (now : Time) (req : option ExportTraceServiceRequest) : list Event :=
  List.filter (fun ev => negb (is_future now ev)) (res_Events (SpansToEvents kind_name req)).

Lemma kept_count kind_name now req :
  let res := drop_future now (SpansToEvents kind_name req) in
  res_Events res = kept kind_name now req /\ Z.of_nat (length (kept kind_name now req)) + res_Dropped res = Z.of_nat (length (request_spans req)).
Proof.
  cbv zeta. rewrite drop_future_spec. cbn [res_Events res_Dropped]. split; [done|]. unfold kept. rewrite SpansToEvents_outcomes. cbn [res_Events res_Dropped].
  rewrite <- (outcomes_length kind_name req), (lfilter_length_split (is_future now) (events_of (outcomes kind_name req))). lia.
Qed.

Definition not_crlf (ch : ascii) : bool := negb (is_crlf ch).

(** [json.Marshal] of a converted event: text without line breaks that decodes to an object
    and to an event with its id.  Whether it validates is left open. *)
Class EventJson (c : Codec) (marshal : Event -> option string) : Prop := {
  json_plain : forall ev b, converted ev -> marshal ev = Some b -> b <> "" /\ all_chars not_crlf b = true;
  json_decodes : forall ev b, converted ev -> marshal ev = Some b ->
    exists raw ev', unmarshal_any c b = inl raw /\ unmarshal_event c b = inl ev' /\ (rawIdentifiers raw).1 = ev_EventID ev /\ ev_EventID ev' = ev_EventID ev
}.

Lemma trim_plain s : all_chars not_crlf s = true -> trim_crlf s = s.
Proof.
  induction s as [|ch s IH]; [done|]. cbn [all_chars trim_crlf]. intros [Hc Hs]%andb_true_iff. rewrite (IH Hs).
  destruct s; [|done]. unfold not_crlf in Hc. by destruct (is_crlf ch).
Qed.

Lemma loggable_plain c s : s <> "" -> all_chars not_crlf s = true -> Z.of_nat (String.length (s +:+ nl)) <= maxReplayLineBytes ->
  (forall raw ev, unmarshal_any c s = inl raw -> unmarshal_event c s = inl ev -> (rawIdentifiers raw).1 = ev_EventID ev) ->
  loggable c s.
Proof.
  intros Hne Hp Hl Hid. pose proof (trim_plain s Hp) as Ht. split; [|intros raw ev Hr He; rewrite Ht; auto].
  unfold one_line, record_of. rewrite Ht. split; [|by split].
  intros pre post E. rewrite E, !all_chars_app in Hp. apply andb_true_iff in Hp as [_ [Hn _]%andb_true_iff]. done.
Qed.

Lemma evict_items fuel d : d_items (evict fuel d) ⊆ d_items d.
Proof.
  revert d. induction fuel as [|fuel IH]; intros d; [done|]. simpl. case_if; [|done]. destruct (last (d_order d)); [|done].
  etrans; [apply IH|]. simpl. set_solver.
Qed.

Lemma Add_items d ids x : x ∈ d_items (foldl Add d ids) -> x ∈ d_items d \/ x ∈ ids.
Proof.
  revert d. induction ids as [|id ids IH]; intros d; [by left|]. cbn [foldl]. intros [Hx|Hx]%IH; [|right; by right].
  unfold Add, addLocked in Hx. destruct (String.eqb id ""); [by left|]. destruct (bool_decide _); [by left|]. apply evict_items in Hx. simpl in Hx.
  apply elem_of_union in Hx as [->%elem_of_singleton|]; [right; left|by left].
Qed.

Section Acknowledged.
Context {W : Type} `{!WAL W} (c : Codec) (cap : Z).

(** The ids the cache knows are the ids of logged events. *)
Lemma synced_known (h : Handler W RecentIndex) w id : synced c cap h -> h_wal h = Some w -> id ∈ d_items (h_dedup h) -> id ∈ logged_ids c w.
Proof.
  intros (w' & Hw & _ & Hs) Hw' Hid. assert (w' = w) as -> by congruence. apply (f_equal fst) in Hs. cbn [fst recovered] in Hs. rewrite Hs in Hid.
  apply Add_items in Hid as [Hid|Hid]; [set_solver|]. unfold logged_ids. apply list_elem_of_fmap in Hid as (ev & -> & Hev).
  apply list_elem_of_fmap. exists ev. split; [done|]. unfold replayed in Hev. by apply elem_of_lfilter in Hev as [? _].
Qed.

(** A body that is valid is in the log once it has been handled without an error, and
    what was in the log stays. *)
Lemma logged_after (h h' : Handler W RecentIndex) w env env' cancelled i b :
  synced c cap h -> h_wal h = Some w -> loggable c b -> ingest_one c cancelled true h env i b = (h', env', None) ->
  exists w', h_wal h' = Some w' /\ (forall id, id ∈ logged_ids c w -> id ∈ logged_ids c w') /\
    (forall id ev, validateEvent c i b = Valid id ev -> id ∈ logged_ids c w').
Proof.
  intros Hs Hw Hlog Hone. pose proof (synced_known h w) as Hknown. unfold ingest_one in Hone. destruct (cancelled i); [done|].
  destruct (validateEvent c i b) as [id ev|r] eqn:Hv; [|simplify_eq; by exists w].
  destruct (decode_loggable _ _ _ _ _ Hlog Hv) as [Hdec Hid]. cbn [negb] in Hone. rewrite Hw in Hone.
  assert (wal_inv w) as Hinv. { destruct Hs as (w0 & Hw0 & Hi & _). by assert (w0 = w) as <- by congruence. }
  unfold AddIfNew in Hone. destruct (wal_write w b) as [w1 ok] eqn:Ew.
  assert (ok = true -> (forall x, x ∈ logged_ids c w -> x ∈ logged_ids c w1) /\ id ∈ logged_ids c w1) as Hok.
  { intros ->. destruct (wal_write_ok w b w1 Hinv (lg_line _ _ Hlog) Ew) as [_ Hl]. unfold logged_ids. rewrite Hl, omap_app, fmap_app. simpl. rewrite Hdec.
    split; [intros x Hx; apply elem_of_app; by left|]. apply elem_of_app. right. rewrite Hid. left. }
  destruct (String.eqb id ""); [|case_bool_decide as Hin].
  - destruct ok; simplify_eq/=. destruct (Hok eq_refl) as [H1 H2]. exists w1. split; [done|split; [done|]]. intros; by simplify_eq.
  - simplify_eq/=. exists w. split; [done|split; [done|]]. intros; simplify_eq. by apply Hknown.
  - destruct ok; simplify_eq/=. destruct (Hok eq_refl) as [H1 H2]. exists w1. split; [done|split; [done|]]. intros; by simplify_eq.
Qed.

Lemma all_logged (h h' : Handler W RecentIndex) w env env' cancelled i bodies :
  synced c cap h -> h_wal h = Some w -> Forall (loggable c) bodies -> ingest_loop c cancelled true h env i bodies = (h', env', None) ->
  exists w', h_wal h' = Some w' /\ (forall id, id ∈ logged_ids c w -> id ∈ logged_ids c w') /\
    (forall b id ev, b ∈ bodies -> (forall j, validateEvent c j b = Valid id ev) -> id ∈ logged_ids c w').
Proof.
  intros Hs Hw Hb. revert h w env i Hs Hw. induction Hb as [|b bodies Hb _ IH]; intros h w env i Hs Hw Heq; simpl in Heq.
  - simplify_eq. exists w. split; [done|split; [done|]]. by intros ? ? ? ?%elem_of_nil.
  - destruct (ingest_one c cancelled true h env i b) as [[h1 env1] [e|]] eqn:E; [done|].
    destruct (logged_after _ _ _ _ _ _ _ _ Hs Hw Hb E) as (w1 & Hw1 & Hm1 & Hi1).
    assert (synced c cap h1) as Hs1 by (by eapply synced_step).
    destruct (IH h1 w1 env1 (i + 1) Hs1 Hw1 Heq) as (w' & Hw' & Hm & Hi). exists w'. split; [done|]. split; [auto|].
    intros b' id ev [->|Hin]%elem_of_cons Hv; [|eauto]. apply Hm, (Hi1 id ev), Hv.
Qed.

(** The converted events that validation refuses. *)
Definition refused (marshal : Event -> option string) (ev : Event) : bool :=
  match marshal ev with Some b => match validateEvent c 0 b with Invalid _ => true | Valid _ _ => false end | None => false end.

Lemma rejections_count i marshal evs bodies : Forall2 (fun ev b => marshal ev = Some b) evs bodies ->
  length (rejections c i bodies) = length (List.filter (refused marshal) evs).
Proof.
  intros H. revert i. induction H as [|ev b evs bodies Hb _ IH]; intros i; [done|]. cbn [rejections List.filter]. unfold refused at 1. rewrite Hb.
  rewrite length_app, IH. destruct (validateEvent c i b) as [id ev'|r] eqn:E.
  - by rewrite (valid_any_index _ _ 0 _ _ _ E).
  - destruct (validateEvent c 0 b) as [id ev'|r'] eqn:E0; [by rewrite (valid_any_index _ _ i _ _ _ E0) in E|done].
Qed.
End Acknowledged.

Section Durable_export.
Context (c : Codec) (cap : Z) (kind_name : SpanKind -> string) (marshal : Event -> option string) `{!EventJson c marshal}.

Lemma marshalled_loggable ev b : converted ev -> marshal ev = Some b -> Z.of_nat (String.length (b +:+ nl)) <= maxReplayLineBytes -> loggable c b.
Proof.
  intros Hc Hb Hl. destruct (json_plain ev b Hc Hb) as [Hne Hp]. destruct (json_decodes ev b Hc Hb) as (raw & ev' & Hr & He & H1 & H2).
  apply loggable_plain; [done..|]. intros raw1 ev1 Hr1 He1.
  assert (raw1 = raw) as -> by congruence. assert (ev1 = ev') as -> by congruence. by rewrite H1, H2.
Qed.

Lemma unrefused_valid ev b : converted ev -> marshal ev = Some b -> refused c marshal ev = false ->
  exists ev', forall j, validateEvent c j b = Valid (ev_EventID ev) ev'.
Proof.
  intros Hc Hb. unfold refused. rewrite Hb. destruct (validateEvent c 0 b) as [id ev1|] eqn:E; [intros _|done]. exists ev1. intros j.
  assert (id = ev_EventID ev) as ->; [|by apply (valid_any_index _ 0)].
  apply validateEvent_valid in E as (raw1 & Hr1 & _ & _ & ->). destruct (json_decodes ev b Hc Hb) as (raw & ev' & Hr & _ & H1 & _).
  by assert (raw1 = raw) as -> by congruence.
Qed.

Lemma kept_converted now req : Forall well_sized (request_spans req) -> Forall converted (kept kind_name now req).
Proof.
  intros Hsized. apply Forall_forall. intros ev [Hev _]%elem_of_lfilter. pose proof (events_converted kind_name req Hsized) as Hall.
  rewrite Forall_forall in Hall. by apply Hall.
Qed.

Lemma converted_id ev : converted ev -> ev_EventID ev <> "".
Proof. intros Hc H. pose proof (cv_id _ Hc) as Hid. rewrite H in Hid. done. Qed.

Lemma answered_count n k msg : 0 <= n ->
  default 0 (ps_RejectedSpans <$> (if 0 <? n + Z.of_nat k then Some (mkPartialSuccess (n + Z.of_nat k) msg) else None)) = n + Z.of_nat k.
Proof. intros Hn. destruct (Z.ltb_spec 0 (n + Z.of_nat k)); simpl; lia. Qed.

Lemma Forall2_elem_l {A B} (P : A -> B -> Prop) l k x : Forall2 P l k -> x ∈ l -> exists y, y ∈ k /\ P x y.
Proof. intros H [i Hi]%list_elem_of_lookup. destruct (Forall2_lookup_l _ _ _ _ _ H Hi) as (y & Hy & HP). exists y. split; [by eapply list_elem_of_lookup_2|done]. Qed.

Lemma Forall2_elem_r {A B} (P : A -> B -> Prop) l k y : Forall2 P l k -> y ∈ k -> exists x, x ∈ l /\ P x y.
Proof. intros H [i Hi]%list_elem_of_lookup. destruct (Forall2_lookup_r _ _ _ _ _ H Hi) as (x & Hx & HP). exists x. split; [by eapply list_elem_of_lookup_2|done]. Qed.

(** What a batch of marshalled events leaves behind. *)
Lemma bodies_recovered h h' log cancelled evs bodies env :
  h_wal h = Some log -> synced c cap h -> Forall converted evs -> Forall2 (fun ev b => marshal ev = Some b) evs bodies ->
  (forall ev b, ev ∈ evs -> marshal ev = Some b -> Z.of_nat (String.length (b +:+ nl)) <= maxReplayLineBytes) ->
  IngestRaw c cancelled true h bodies = (h', env, None) ->
  length (env_Rejected env) = length (List.filter (refused c marshal) evs) /\ synced c cap h' /\
  forall ev, ev ∈ evs -> refused c marshal ev = false -> is_Some (byID (h_project h') !! ev_EventID ev).
Proof.
  intros Hw Hs Hconv Hm Hlen Hrun. rewrite Forall_forall in Hconv.
  assert (Forall (loggable c) bodies) as Hlog.
  { apply Forall_forall. intros b Hb. destruct (Forall2_elem_r _ _ _ _ Hm Hb) as (ev & Hev & Hmb). eapply marshalled_loggable; eauto. }
  assert (synced c cap h') as Hs' by by eapply synced_loop.
  split; [|split; [done|]].
  - unfold IngestRaw in Hrun. pose proof (ingest_loop_accounts _ _ _ _ _ _ _ _ _ Hrun) as (_ & Hrej & _). rewrite Hrej. by apply rejections_count.
  - intros ev Hev Hr. destruct (Forall2_elem_l _ _ _ _ Hm Hev) as (b & Hb & Hmb).
    destruct (unrefused_valid ev b (Hconv ev Hev) Hmb Hr) as [ev' Hv].
    destruct (all_logged c cap h h' log _ _ _ _ _ Hs Hw Hlog Hrun) as (w' & Hw' & _ & Hin). specialize (Hin b _ _ Hb Hv).
    destruct Hs' as (w1 & Hw1 & _ & Hrec). assert (w1 = w') as -> by congruence. apply (f_equal snd) in Hrec. cbn [snd recovered] in Hrec. rewrite Hrec.
    apply index_all_dom. right. split; [|by apply converted_id, Hconv]. unfold logged_ids in Hin.
    apply list_elem_of_fmap in Hin as (e & -> & He). apply (list_elem_of_fmap_2 ev_EventID). unfold replayed. by apply elem_of_lfilter.
Qed.

(** C23: An OTLP export that is answered is durable.  Take a handler whose memory is what
    [ReplayWAL] makes of its log directory, and a request whose span and trace ids have the
    protocol's widths.  When it is answered, the rejected spans of the answer and the
    converted events that are of the present and pass validation add up to the spans of the
    request; [ReplayWAL] of the directory as it is then makes the very memory the handler
    then has; and it brings back every converted event of the present that validation does
    not refuse.  An answer without a partial success therefore means that every span was
    converted and is brought back.  The JSON of each event is text on one line that decodes
    to an event with its id, and with its newline is not longer than a replay reads; no
    write of the log is torn, whatever else fails; and file times follow creation. *)
Theorem Export_acknowledged now later cancelled (o o' : OtlpHandler scripted RecentIndex) h log req ds resp :
  oh_v2Ingest o = Some h -> h_wal h = Some log -> scripted_inv log -> replay_ordered (sc_disk log) ->
  (ReplayWAL c (sc_disk log) (NewDedup cap) NewRecentIndex time_zero).1 = (h_dedup h, h_project h) ->
  Forall well_sized (request_spans req) ->
  (forall ev b, ev ∈ kept kind_name now req -> marshal ev = Some b -> Z.of_nat (String.length (b +:+ nl)) <= maxReplayLineBytes) ->
  Export kind_name c marshal now later cancelled o req = (o', ds, inr resp) ->
  Z.of_nat (length (List.filter (fun ev => negb (refused c marshal ev)) (kept kind_name now req))) + default 0 (ps_RejectedSpans <$> resp)
    = Z.of_nat (length (request_spans req)) /\
  (exists h' log', oh_v2Ingest o' = Some h' /\ h_wal h' = Some log' /\ scripted_inv log' /\
    (replay_ordered (sc_disk log') ->
      let after := (ReplayWAL c (sc_disk log') (NewDedup cap) NewRecentIndex time_zero).1 in
      after = (h_dedup h', h_project h') /\
      forall ev, ev ∈ kept kind_name now req -> refused c marshal ev = true \/ is_Some (byID after.2 !! ev_EventID ev))) /\
  (resp = None -> length (kept kind_name now req) = length (request_spans req) /\ forall ev, ev ∈ kept kind_name now req -> refused c marshal ev = false).
Proof using EventJson0.
  intros Hh Hw Hi Hord Hr Hsized Hlen Hx. rewrite ReplayWAL_recovered in Hr by done.
  assert (synced c cap h) as Hs by by exists log. destruct (kept_count kind_name now req) as [Hk Hn].
  set (res := drop_future now (SpansToEvents kind_name req)) in *.
  assert (0 <= res_Dropped res) as Hd by (unfold res; rewrite drop_future_spec, SpansToEvents_outcomes; cbn [res_Dropped]; lia).
  pose proof (lfilter_length_split (refused c marshal) (kept kind_name now req)) as Hsplit.
  enough (exists h' n, oh_v2Ingest o' = Some h' /\ synced c cap h' /\ n = length (List.filter (refused c marshal) (kept kind_name now req)) /\
    (forall ev, ev ∈ kept kind_name now req -> refused c marshal ev = false -> is_Some (byID (h_project h') !! ev_EventID ev)) /\
    default 0 (ps_RejectedSpans <$> resp) = res_Dropped res + Z.of_nat n) as (h' & n & Hh' & (log' & Hw' & Hi' & Hs') & -> & Hrec & Hresp).
  { split; [lia|split].
    - exists h', log'. split_and!; try done. intros Hord'. cbv zeta. rewrite ReplayWAL_recovered by done. change (log_lines (sc_disk log')) with (wal_lines log'). rewrite <- Hs'. split; [done|].
      intros ev Hev. destruct (refused c marshal ev) eqn:E; [by left|right]. by apply Hrec.
    - intros ->. cbn in Hresp. split; [lia|]. intros ev Hev. destruct (refused c marshal ev) eqn:E; [|done].
      assert (ev ∈ List.filter (refused c marshal) (kept kind_name now req)) as Hin by by apply elem_of_lfilter.
      destruct (List.filter _ _); [by apply elem_of_nil in Hin|]. cbn [length] in Hresp. lia. }
  pose proof (kept_converted now req Hsized) as Hconv. unfold Export in Hx. fold res in Hx. rewrite Hk in Hx.
  destruct (kept kind_name now req) as [|ev0 evs] eqn:Ekept.
  - injection Hx as <- <- <-. exists h, O. split_and!; try done; [by intros ? ?%elem_of_nil|]. by apply answered_count.
  - rewrite <- Ekept in *. clear Ekept ev0 evs. rewrite Hh in Hx. destruct (marshalEvents marshal (kept kind_name now req)) as [bodies|] eqn:Em; [|done].
    apply mapM_Some in Em. destruct (IngestRaw c cancelled true h bodies) as [[h' env] [[]|]] eqn:Ei; try done.
    destruct (Observe (oh_deploys o) (kept kind_name now req) later) as [t ups]. injection Hx as <- <- <-.
    destruct (bodies_recovered h h' log cancelled _ bodies env Hw Hs Hconv Em Hlen Ei) as (Hrej & Hs' & Hrec).
    exists h', (length (env_Rejected env)). split_and!; try done. by apply answered_count.
Qed.
End Durable_export.

(** ** Runs *)

(** A codec for concrete runs: the JSON of an event is a brace and its id. *)
Definition id_codec : Codec := mkCodec
  (fun s => match s with String "{"%char id => inl (VMap (Some {["event_id" := VStr id]})) | _ => inr "invalid character" end)
  (fun _ => None)
  (fun s => inl (sample_event (drop_bytes 1 s) "t" "api" "ok" 100 200 "" None [])).

Definition id_json (ev : Event) : option string := Some ("{" +:+ ev_EventID ev).

Lemma lower_hex_not_crlf ch : is_lower_hex ch = true -> not_crlf ch = true.
Proof. by destruct ch as [[] [] [] [] [] [] [] []]. Qed.

Lemma matches_plain t s : matches t s = true -> all_chars not_crlf t = true -> all_chars not_crlf s = true /\ String.length s = String.length t.
Proof.
  revert s. induction t as [|x t IH]; intros [|ch s]; try done. cbn [matches all_chars String.length].
  intros [Hx Hm]%andb_true_iff [Ht Hp]%andb_true_iff. destruct (IH _ Hm Hp) as [-> ->]. split; [|done]. rewrite andb_true_r.
  destruct (Ascii.eqb x "x"); [by apply lower_hex_not_crlf|]. destruct (Ascii.eqb x "y").
  - rewrite !orb_true_iff, !Ascii.eqb_eq in Hx. by destruct Hx as [[[->| ->]| ->]| ->].
  - apply Ascii.eqb_eq in Hx as <-. done.
Qed.

#[local] Instance id_json_laws : EventJson id_codec id_json.
Proof.
  split; intros ev b Hc [= <-]; pose proof (cv_id _ Hc) as Hid; unfold uuid5 in Hid; destruct (matches_plain _ _ Hid eq_refl) as [Hp Hl].
  - split; [done|]. by rewrite all_chars_app, Hp.
  - eexists _, _. split; [reflexivity|split; [reflexivity|]]. done.
Qed.

Definition fresh_handler : Handler scripted RecentIndex := mkHandler (NewDedup 16) (Some (fresh_log ticks)) NewRecentIndex.

Definition day : Time := unix_epoch + 24 * Hour.

Definition sample_export (c : Codec) (h : OtlpHandler scripted RecentIndex) (req : option ExportTraceServiceRequest) :=
  Export sample_kind c id_json day day (fun _ => false) h req.

(** Two spans are acknowledged and come back after a restart; the other two are rejected. *)
Lemma Export_acknowledged_witness :
  let r := sample_export id_codec (mkOtlpHandler (Some fresh_handler) (Some NewDeployTracker)) sample_request in
  length (kept sample_kind day sample_request) = 2%nat /\
  exists h' log', oh_v2Ingest r.1.1 = Some h' /\ h_wal h' = Some log' /\
    forall ev, ev ∈ kept sample_kind day sample_request ->
      is_Some (byID (ReplayWAL id_codec (sc_disk log') (NewDedup 16) NewRecentIndex time_zero).1.2 !! ev_EventID ev).
Proof.
  intros r. split; [vm_compute; reflexivity|].
  set (resp := Some (mkPartialSuccess 2 "unsupported_kind (span: job); missing_service (span: lost)")).
  assert (r = (r.1.1, r.1.2, inr resp)) as Hr by (vm_compute; reflexivity).
  destruct (Export_acknowledged id_codec 16 sample_kind id_json day day (fun _ => false)
    (mkOtlpHandler (Some fresh_handler) (Some NewDeployTracker)) r.1.1 fresh_handler (fresh_log ticks) sample_request r.1.2 resp eq_refl eq_refl) as (_ & (h' & log' & Hh & Hw & _ & H) & _);
    [apply fresh_log_inv; repeat constructor| |vm_compute; reflexivity| | |exact Hr|].
  - let d := eval vm_compute in (sc_disk (fresh_log ticks)) in change (replay_ordered d). split; unfold ssorted; repeat constructor.
  - unfold request_spans, sample_request. cbn [default from_option id]. repeat constructor; try (vm_compute; congruence); by left.
  - intros ev b Hev Hb. assert (Forall (fun ev => (String.length (ev_EventID ev) <= 100)%nat) (kept sample_kind day sample_request)) as Hs
      by (vm_compute; repeat constructor). rewrite Forall_forall in Hs. specialize (Hs ev Hev). injection Hb as <-.
    rewrite !string_length_app. unfold maxReplayLineBytes. simpl. lia.
  - exists h', log'. split; [exact Hh|split; [exact Hw|]]. intros ev Hev.
    assert (exists l, h_wal h' = Some l /\ replay_ordered (sc_disk l)) as (l & Hl & Hord).
    { let o := eval vm_compute in (oh_v2Ingest r.1.1) in change (oh_v2Ingest r.1.1) with o in Hh. injection Hh as <-. eexists. split; [reflexivity|].
      match goal with |- replay_ordered ?d => let d' := eval vm_compute in d in change (replay_ordered d') end. split; unfold ssorted; repeat constructor. }
    assert (l = log') as -> by congruence. destruct (H Hord) as [_ Hrec]. destruct (Hrec ev Hev) as [Href|Hin]; [|exact Hin].
    exfalso. assert (Forall (fun ev => refused id_codec id_json ev = false) (kept sample_kind day sample_request)) as Hnone by (vm_compute; repeat constructor).
    rewrite Forall_forall in Hnone. by rewrite (Hnone ev Hev) in Href.
Defined.

Definition versioned (version : string) (spans : list Span) : option ExportTraceServiceRequest :=
  Some [mkResourceSpans (Some [mkKeyValue "service.name" (StringValue "api"); mkKeyValue "service.version" (StringValue version)]) [spans]].

(** Three exports: a first version, the same again, a new one. *)
Lemma observed_deployments_witness :
  let evs v := res_Events (SpansToEvents sample_kind (versioned v [sample_span "GET" [mkKeyValue "http.route" (StringValue "/")]])) in
  (fun d => (dp_Service d, dp_Env d, dp_Version d)) <$>
    (observe_run (Some NewDeployTracker) [(evs "1", day); (evs "1", day + Hour); (evs "2", day + 2 * Hour)]).2 = [("api", "unknown", "2")].
Proof.
  intros evs. rewrite (observed_deployments [(evs "1", day); (evs "1", day + Hour); (evs "2", day + 2 * Hour)]).
  - vm_compute. reflexivity.
  - unfold evs. vm_compute. repeat constructor.
Defined.

(** A span whose trace id is too short for the schema. *)
Definition short_span : Span := mkSpan [1] [2] [] "GET" KindServer 0 0 [mkKeyValue "http.route" (StringValue "/")] [] None.

Definition strict_codec : Codec := mkCodec (unmarshal_any id_codec) (fun _ => Some "trace_id") (unmarshal_event id_codec).

(** The tracker is given every converted event, not only those that were ingested: two
    exports whose events are all rejected, with nothing logged, record a deployment. *)
Theorem rejected_spans_deploy :
  exists h1 h2 d resp1 resp2,
    sample_export strict_codec (mkOtlpHandler (Some fresh_handler) (Some NewDeployTracker)) (versioned "1" [short_span]) = (h1, [], inr (Some resp1)) /\
    sample_export strict_codec h1 (versioned "2" [short_span]) = (h2, [d], inr (Some resp2)) /\
    ps_RejectedSpans resp1 = 1 /\ ps_RejectedSpans resp2 = 1 /\ oh_v2Ingest h2 = Some fresh_handler /\ dp_Version d = "2".
Proof.
  eexists _, _, _, _, _. split; [vm_compute; reflexivity|]. split; [vm_compute; reflexivity|]. by vm_compute.
Qed.

(** A request that holds spans of two versions records the older one when it is sent again,
    although every event of the second call is a duplicate. *)
Theorem resent_spans_deploy :
  let span n := mkSpan sample_trace (n :: take 7 sample_trace) [] "GET" KindServer 0 0 [mkKeyValue "http.route" (StringValue "/")] [] None in
  let req := Some (default [] (versioned "1" [span 1]) ++ default [] (versioned "2" [span 2])) in
  exists h1 h2 d1 d2,
    sample_export id_codec (mkOtlpHandler (Some fresh_handler) (Some NewDeployTracker)) req = (h1, [d1], inr None) /\
    sample_export id_codec h1 req = (h2, [d2; d1], inr None) /\
    oh_v2Ingest h2 = oh_v2Ingest h1 /\ dp_Version d1 = "2" /\ dp_Version d2 = "1".
Proof.
  cbv zeta. eexists _, _, _, _. split; [vm_compute; reflexivity|]. split; [vm_compute; reflexivity|]. by vm_compute.
Qed.

(** ** Transports *)

Lemma read_limited_spec n s b : 0 <= n -> read_limited (n + 1) s = Some b -> Z.of_nat (String.length b) <= n ->
  b = sm_bytes s /\ sm_ok s = true /\ Z.of_nat (String.length (sm_bytes s)) <= n.
Proof.
  intros Hn. unfold read_limited. destruct (Z.leb_spec (n + 1) (Z.of_nat (String.length (sm_bytes s)))) as [Hl|Hl].
  - intros [= <-]. rewrite take_bytes_length by lia. lia.
  - destruct (sm_ok s); [|done]. intros [= <-]. by intros.
Qed.

(** A request that is processed was read to its end, without an error, within the limit:
    no request is processed cut short. *)
Theorem read_request_whole wire maxBodyBytes r req : 0 <= maxBodyBytes -> read_request wire maxBodyBytes r = inr req ->
  exists reader, (oq_ContentEncoding r = "" /\ reader = oq_Body r \/ oq_ContentEncoding r = "gzip" /\ gunzip wire (oq_Body r) = Some reader) /\
    sm_ok reader = true /\ Z.of_nat (String.length (sm_bytes reader)) <= maxBodyBytes /\ unmarshal_request wire (sm_bytes reader) = Some req.
Proof.
  intros Hmax. unfold read_request. destruct (negb (String.eqb (oq_Method r) "POST")); [done|].
  destruct (negb (bool_decide _)); [done|]. cbv zeta. destruct (String.eqb_spec (oq_ContentEncoding r) "gzip") as [Hg|Hg].
  2: destruct (String.eqb_spec (oq_ContentEncoding r) "") as [He|He]; [|done].
  all: rewrite ?Hg, ?He; cbn [String.eqb Ascii.eqb Bool.eqb negb andb].
  1: destruct (gunzip wire (oq_Body r)) as [reader|] eqn:Egz; [|done].
  all: destruct (read_limited _ _) as [body|] eqn:Er; [|done].
  all: destruct (Z.ltb_spec maxBodyBytes (Z.of_nat (String.length body))) as [|Hl]; [done|].
  all: destruct (unmarshal_request wire body) as [req'|] eqn:Eu; [|done]; intros [= <-].
  all: apply read_limited_spec in Er as (-> & Hok & Hlen); [|done..].
  all: eexists; split; [auto|done].
Qed.

Lemma AuthUnaryInterceptor_pass writeKeys md :
  let keys := List.filter (fun key => negb (String.eqb key "")) (TrimSpace <$> writeKeys) in
  keys <> [] -> AuthUnaryInterceptor writeKeys md = true <-> bearerToken md ∈ keys.
Proof.
  intros keys Hne. unfold AuthUnaryInterceptor, matchesAnyToken. fold keys. assert ((length keys =? 0)%nat = false) as -> by by destruct keys.
  pose proof (matchesAny_in (bearerToken md) keys) as Hm. destruct (String.eqb_spec (bearerToken md) "") as [He|He]; cbn [negb andb]; [|done].
  rewrite He. split; [done|]. unfold keys. rewrite elem_of_lfilter. by intros [_ ?].
Qed.
