(* ===== verification/IngestHttp.v ===== *)
(** The v2 ingest endpoint ([internal/ingest/v2]: [parse.go], the HTTP part of [handler.go]):
    reading a body within its limit, choosing its framing, and answering with an envelope
    or a refusal.  Gzip and media types are the code of other packages: [Encodings]. *)

From S2P Require Import Prelude GoRuntime GoFloat GoText Types Index Eventlog Ingest.
Open Scope Z_scope.

(** ** Reading ([parse.go]) *)

(** How a reader ends: at its end, by the limit of [http.MaxBytesReader], or otherwise. *)
Inductive ending := Eof | TooLarge | ReadError (msg : string).

Record reader := mkReader { rd_bytes : string; rd_end : ending }.

Definition maxBodyBytes : Z := 2 ^ 20.

Definition ReasonBodyOversize : string := "body_oversize".
Definition ReasonUnsupportedContentType : string := "unsupported_content_type".
Definition ReasonUnsupportedEncoding : string := "unsupported_content_encoding".
Definition ReasonInvalidBody : string := "invalid_body".

Definition len (s : string) : Z := Z.of_nat (String.length s).

(** [http.MaxBytesReader]. *)
Definition MaxBytesReader (r : reader) (n : Z) : reader :=
  if n <? len (rd_bytes r) then mkReader (take_bytes (Z.to_nat n) (rd_bytes r)) TooLarge else r.

(** [io.ReadAll] of an [io.LimitReader]: what is past the limit, an error included, is not seen. *)
Definition ReadAll (r : reader) (limit : Z) : string + ending :=
  if limit <=? len (rd_bytes r) then inl (take_bytes (Z.to_nat limit) (rd_bytes r))
  else match rd_end r with Eof => inl (rd_bytes r) | e => inr e end.

(** [gzip.NewReader] over a reader, and [mime.ParseMediaType]; errors are their messages. *)
Record Encodings := mkEncodings {
  gunzip : reader -> reader + string;
  ParseMediaType : string -> string + string
}.

Record IngestRequest := mkIngestRequest { iq_Method : string; iq_ContentEncoding : string; iq_ContentType : string; iq_Body : reader }.

Section Http.
Variable enc : Encodings.

Definition requestBodyReader (r : IngestRequest) (body : reader) : reader + requestError :=
  let encoding := TrimSpace (iq_ContentEncoding r) in
  if String.eqb encoding "" || EqualFold encoding "identity" then inl body
  else if negb (EqualFold encoding "gzip") then inr (mkRequestError 400 ReasonUnsupportedEncoding ("unsupported content encoding " +:+ encoding))
  else match gunzip enc body with
       | inl gz => inl gz
       | inr err => inr (mkRequestError 400 ReasonInvalidBody err)
       end.

Definition requestMediaType (r : IngestRequest) : string + requestError :=
  let raw := TrimSpace (iq_ContentType r) in
  if String.eqb raw "" then inr (mkRequestError 400 ReasonInvalidBody "missing content type")
  else match ParseMediaType enc raw with
       | inl mediaType => inl (ToLower mediaType)
       | inr err => inr (mkRequestError 400 ReasonInvalidBody err)
       end.

Definition oversize : requestError := mkRequestError 413 ReasonBodyOversize "request body exceeds 1 MB".

Definition parseRequestBody (r : IngestRequest) : list string + requestError :=
  match requestBodyReader r (MaxBytesReader (iq_Body r) maxBodyBytes) with
  | inr err => inr err
  | inl rd =>
    match ReadAll rd (maxBodyBytes + 1) with
    | inr TooLarge => inr oversize
    | inr (ReadError msg) => inr (mkRequestError 400 ReasonInvalidBody msg)
    | inr Eof => inr (mkRequestError 400 ReasonInvalidBody "")
    | inl body =>
      if maxBodyBytes <? len body then inr oversize
      else
        match requestMediaType r with
        | inr err => inr err
        | inl mediaType =>
          if String.eqb mediaType "application/json" then inl [body]
          else if String.eqb mediaType "application/x-ndjson" then parseNDJSON body
          else inr (mkRequestError 415 ReasonUnsupportedContentType ("unsupported content type " +:+ mediaType))
        end
    end
  end.

(** ** Answering ([handler.go]) *)

(** [Unavailable] carries [Retry-After: 1]. *)
Inductive answer := MethodNotAllowed | Envelope (status : Z) (env : IngestEnvelope) | Unavailable (msg : string).

Definition writeError (err : requestError) : answer :=
  Envelope (re_status err) (add_rejected newEnvelope (mkRejectedEvent 0 "" (re_reason err) (re_detail err))).

Definition unavailable (e : IngestError) : answer :=
  Unavailable match e with
              | ErrDurability => "durability unavailable"
              | ErrProjection => "projection unavailable"
              | ErrContext => "ingest unavailable"
              end.

Section Endpoint.
Context {W P : Type} `{!WAL W} `{!EventProjector P}.
Variable c : Codec.

Definition handle (durable : bool) (cancelled : Z -> bool) (h : Handler W P) (r : IngestRequest) : Handler W P * answer :=
  if negb (String.eqb (iq_Method r) "POST") then (h, MethodNotAllowed)
  else
    match parseRequestBody r with
    | inr err => (h, writeError err)
    | inl events =>
      match IngestRaw c cancelled durable h events with
      | (h, _, Some e) => (h, unavailable e)
      | (h, env, None) => (h, Envelope 200 env)
      end
    end.

Definition Events := handle true.
Definition Validate := handle false.
End Endpoint.
End Http.

(** [New]: a handler of what the configuration gives, or of fresh parts. *)
Definition New {W} (dedup : option Dedup) (wal : option W) (index : option RecentIndex) : Handler W RecentIndex :=
  mkHandler (default (NewDedup DefaultDedupCapacity) dedup) wal (default NewRecentIndex index).

(** ** A dry run predicts *)

Section DryRun.
Context {W P : Type} `{!WAL W} `{!EventProjector P} (enc : Encodings) (c : Codec).

Lemma dry_loop (h : Handler W P) env i bodies h' env' :
  ingest_loop c (fun _ => false) false h env i bodies = (h', env', None) -> h' = h /\ env_Duplicate env' = env_Duplicate env.
Proof.
  revert env i. induction bodies as [|b bodies IH]; intros env i; simpl; [by intros [= -> ->]|].
  unfold ingest_one. destruct (validateEvent c i b); simpl; intros H; apply IH in H as [-> ->]; done.
Qed.

Lemma dry_loop_answers (h : Handler W P) env i bodies : exists env', ingest_loop c (fun _ => false) false h env i bodies = (h, env', None).
Proof.
  revert env i. induction bodies as [|b bodies IH]; intros env i; simpl; [by eexists|].
  unfold ingest_one. by destruct (validateEvent c i b); simpl.
Qed.

Lemma refusal_status r err : parseRequestBody enc r = inr err -> re_status err = 400 \/ re_status err = 413 \/ re_status err = 415.
Proof.
  unfold parseRequestBody. destruct (requestBodyReader enc r _) as [rd|e] eqn:Er.
  - destruct (ReadAll rd _) as [body|[]]; [|intros [= <-]; auto..]. destruct (maxBodyBytes <? len body); [intros [= <-]; auto|].
    destruct (requestMediaType enc r) as [mt|e] eqn:Em.
    + destruct (String.eqb mt _); [done|]. destruct (String.eqb mt _); [|intros [= <-]; auto].
      unfold parseNDJSON. rewrite ndjson_loop_spec by (simpl; unfold maxBatchItems; lia). cbv zeta. destruct (_ <=? _)%nat; [done|]. intros [= <-]. auto.
    + intros [= <-]. revert Em. unfold requestMediaType. destruct (String.eqb _ ""); [intros [= <-]; auto|]. destruct (ParseMediaType enc _); [done|]. intros [= <-]. auto.
  - intros [= <-]. revert Er. unfold requestBodyReader. destruct (String.eqb _ "" || _); [done|]. destruct (negb _); [intros [= <-]; auto|].
    destruct (gunzip enc _); [done|]. intros [= <-]. auto.
Qed.

(** The dry run predicts the ingestion: on the same request it changes nothing and
    either gives the refusal that ingestion gives, or an envelope whose rejections are
    those of ingestion and whose accepted events are the ones ingestion accepts or finds
    to be duplicates, unless ingestion is unavailable. *)
Theorem Validate_predicts (h h' : Handler W P) r a : Events enc c (fun _ => false) h r = (h', a) ->
  (Validate enc c (fun _ => false) h r).1 = h /\
  match (Validate enc c (fun _ => false) h r).2 with
  | Envelope 200 dry =>
    match a with
    | Envelope status env => status = 200 /\ env_Rejected env = env_Rejected dry /\ env_Duplicate dry = 0 /\
        env_Accepted env + env_Duplicate env = env_Accepted dry
    | Unavailable _ => True
    | MethodNotAllowed => False
    end
  | refusal => a = refusal /\ h' = h
  end.
Proof.
  unfold Events, Validate, handle. destruct (negb _); [by intros [= <- <-]|].
  destruct (parseRequestBody enc r) as [bodies|err] eqn:Ep.
  - unfold IngestRaw. destruct (dry_loop_answers h newEnvelope 0 bodies) as [dry Hdry]. rewrite Hdry. cbn [fst snd].
    intros Hev. split; [done|].
    destruct (ingest_loop c (fun _ => false) true h newEnvelope 0 bodies) as [[h1 env] [e|]] eqn:Eloop; injection Hev as <- <-; [done|].
    destruct (ingest_loop_accounts _ _ _ _ _ _ _ _ _ Hdry) as (S1 & R1 & _). destruct (ingest_loop_accounts _ _ _ _ _ _ _ _ _ Eloop) as (S2 & R2 & _).
    destruct (dry_loop _ _ _ _ _ _ Hdry) as [_ Hd]. simpl in *. rewrite R1, R2 in *. split; [done|split; [done|split; [done|lia]]].
  - intros [= <- <-]. cbn [fst snd]. split; [done|]. unfold writeError.
    destruct (refusal_status r err Ep) as [-> | [-> | ->]]; done.
Qed.
End DryRun.

(** ** Compressed bodies *)

Lemma requestMediaType_header enc r r' : iq_ContentType r = iq_ContentType r' -> requestMediaType enc r = requestMediaType enc r'.
Proof. unfold requestMediaType. by intros ->. Qed.

(** Compression is transparent: a gzip body within the limit, which decompresses to a body
    read to its end, is answered as that body sent plain would be, also when the plain body
    is beyond the limit. *)
Theorem gzip_transparent {W P} `{!WAL W} `{!EventProjector P} enc c durable cancelled (h : Handler W P) r raw plain :
  EqualFold (TrimSpace (iq_ContentEncoding r)) "gzip" = true -> iq_Body r = mkReader raw Eof -> len raw <= maxBodyBytes ->
  gunzip enc (mkReader raw Eof) = inl (mkReader plain Eof) ->
  handle enc c durable cancelled h r =
  handle enc c durable cancelled h (mkIngestRequest (iq_Method r) "" (iq_ContentType r) (mkReader plain Eof)).
Proof.
  intros Hg Hb Hl Hz. unfold handle. cbn [iq_Method]. destruct (negb _); [done|].
  enough (parseRequestBody enc r = parseRequestBody enc (mkIngestRequest (iq_Method r) "" (iq_ContentType r) (mkReader plain Eof))) as -> by done.
  unfold parseRequestBody, requestBodyReader. rewrite Hg, Hb. cbn [iq_ContentEncoding iq_Body].
  assert (String.eqb (TrimSpace (iq_ContentEncoding r)) "" = false /\ EqualFold (TrimSpace (iq_ContentEncoding r)) "identity" = false) as [-> ->].
  { revert Hg. unfold EqualFold. set (e := TrimSpace _). clearbody e. intros Hg%String.eqb_eq. rewrite Hg. split; [|done].
    destruct (String.eqb_spec e "") as [->|]; done. }
  change (String.eqb (TrimSpace "") "" || EqualFold (TrimSpace "") "identity") with true. cbn [negb orb].
  unfold MaxBytesReader. cbn [rd_bytes]. rewrite (proj2 (Z.ltb_ge _ _)) by done. rewrite Hz.
  rewrite (requestMediaType_header enc (mkIngestRequest _ _ _ _) r) by done. unfold ReadAll.
  destruct (Z.ltb_spec maxBodyBytes (len plain)) as [Hlong|Hshort]; cbn [rd_bytes rd_end].
  - assert (len (take_bytes (Z.to_nat maxBodyBytes) plain) = maxBodyBytes) as Hlen1. { unfold len in *. rewrite take_bytes_length; lia. }
    rewrite Hlen1. rewrite (proj2 (Z.leb_le _ _)) by lia. rewrite (proj2 (Z.leb_gt _ _)) by lia.
    assert (len (take_bytes (Z.to_nat (maxBodyBytes + 1)) plain) = maxBodyBytes + 1) as ->. { unfold len in *. rewrite take_bytes_length; lia. }
    by rewrite (proj2 (Z.ltb_lt _ _)) by lia.
  - rewrite (proj2 (Z.leb_gt _ _)) by lia. rewrite (proj2 (Z.ltb_ge _ _)) by lia. done.
Qed.

(** ** Runs *)

(** A gzip of the letter z before the plain text, and media types without parameters. *)
Definition sample_encodings : Encodings := mkEncodings
  (fun r => match rd_bytes r with String "z"%char s => inl (mkReader s (rd_end r)) | _ => inr "gzip: invalid header" end)
  (fun s => inl s).

Definition ndjson_request (encoding : string) (body : string) : IngestRequest :=
  mkIngestRequest "POST" encoding "application/x-ndjson" (mkReader body Eof).

Definition three_lines : string := "{a" +:+ nl +:+ " {! " +:+ nl +:+ nl +:+ "{a".

Example answers_ex :
  let run durable r := (handle sample_encodings sample_codec durable (fun _ => false) (handler_on []) r).2 in
  let status a := match a with Envelope s env => (s, env_Accepted env, env_Duplicate env, rj_Reason <$> env_Rejected env) | _ => (0, 0, 0, []) end in
  status (run true (ndjson_request "" three_lines)) = (200, 1, 1, [ReasonSchemaValidationFailed]) /\
  status (run false (ndjson_request " GZip" ("z" +:+ three_lines))) = (200, 2, 0, [ReasonSchemaValidationFailed]) /\
  status (run true (ndjson_request "br" three_lines)) = (400, 0, 0, [ReasonUnsupportedEncoding]) /\
  status (run true (mkIngestRequest "POST" "" "text/plain" (mkReader "" Eof))) = (415, 0, 0, [ReasonUnsupportedContentType]) /\
  run true (mkIngestRequest "GET" "" "" (mkReader "" Eof)) = MethodNotAllowed /\
  (handle sample_encodings sample_codec true (fun _ => false) (mkHandler (NewDedup 2) None NewRecentIndex : Handler scripted RecentIndex)
     (ndjson_request "" "{a")).2 = Unavailable "durability unavailable".
Proof. vm_compute. done. Qed.

Lemma Validate_predicts_witness :
  let r := ndjson_request "" three_lines in
  match (Validate sample_encodings sample_codec (fun _ => false) (handler_on []) r).2 with
  | Envelope 200 dry => env_Accepted dry = 2 /\ length (env_Rejected dry) = 1%nat /\
      (Validate sample_encodings sample_codec (fun _ => false) (handler_on []) r).1 = handler_on []
  | _ => False
  end.
Proof.
  intros r. set (x := Events sample_encodings sample_codec (fun _ => false) (handler_on []) r).
  pose proof (Validate_predicts sample_encodings sample_codec (handler_on []) x.1 r x.2 (surjective_pairing x)) as [H1 H2].
  assert ((Validate sample_encodings sample_codec (fun _ => false) (handler_on []) r).2 =
    Envelope 200 (mkIngestEnvelope 2 0 [mkRejectedEvent 1 "!" ReasonSchemaValidationFailed "schema"] ∅)) as E by (vm_compute; reflexivity).
  rewrite E. split; [reflexivity|]. split; [reflexivity|exact H1].
Defined.
