(* ===== verification/GoTime.v ===== *)
(** Calendar time as text: dates and day numbers are inverse, padded decimal fields read
    back, and so do the stamps of log file names ([time.Format] and [time.Parse] with the
    layout 20060102-150405). *)

From S2P Require Import Prelude GoRuntime GoFloat GoText Eventlog.
Open Scope Z_scope.

(** ** Calendar dates *)

Definition valid_date (y m d : Z) : bool := (1 <=? m) && (m <=? 12) && (1 <=? d) && (d <=? days_in m y).

(** The year of the period of 400 years that starts in March, and the day in it. *)
Lemma year_of_era doe : 0 <= doe < 146097 ->
  let yoe := (doe - doe / 1460 + doe / 36524 - doe / 146096) / 365 in
  let doy := doe - (365 * yoe + yoe / 4 - yoe / 100) in
  0 <= yoe < 400 /\ 0 <= doy <= 365 /\ (doy = 365 -> (yoe + 1) mod 4 = 0 /\ ((yoe + 1) mod 100 <> 0 \/ (yoe + 1) mod 400 = 0)).
Proof. intros H. cbv zeta. Z.div_mod_to_equations; lia. Qed.

(** Month and day of a day of such a year, checked for each of its 366 days. *)
Definition month_ok (doy : Z) : bool :=
  let mp := (5 * doy + 2) / 153 in
  let d := doy - (153 * mp + 2) / 5 + 1 in
  let m := if mp <? 10 then mp + 3 else mp - 9 in
  (1 <=? m) && (m <=? 12) && (1 <=? d) &&
  (d <=? if m =? 2 then if doy =? 365 then 29 else 28 else if bool_decide (m ∈ [4; 6; 9; 11]) then 30 else 31) &&
  ((153 * (if 2 <? m then m - 3 else m + 9) + 2) / 5 + d - 1 =? doy).

Lemma months_ok doy : 0 <= doy <= 365 -> month_ok doy = true.
Proof.
  assert (forallb month_ok (seqZ 0 366) = true) as Hall by (vm_compute; reflexivity). rewrite List.forallb_forall in Hall.
  intros H. apply Hall, list_elem_of_In, elem_of_seqZ. lia.
Qed.

Lemma civil_era doe : 0 <= doe < 146097 -> let '(y, m, d) := civil_of_days (doe - 306) in
  days_of_civil y m d = doe - 306 /\ valid_date y m d = true /\ 0 <= y <= 400.
Proof.
  intros Hdoe. destruct (year_of_era doe Hdoe) as (Hy & Hd & Hleap). unfold civil_of_days. replace (doe - 306 + 306) with doe by lia.
  rewrite (Z.div_small doe 146097), (Z.mod_small doe 146097) by done. cbv zeta in *. set (yoe := (doe - doe / 1460 + doe / 36524 - doe / 146096) / 365) in *.
  set (doy := doe - (365 * yoe + yoe / 4 - yoe / 100)) in *. assert (doe = doy + (365 * yoe + yoe / 4 - yoe / 100)) as Hdoe' by (unfold doy; lia).
  clearbody doy yoe. pose proof (months_ok doy Hd) as Hm. unfold month_ok in Hm. cbv zeta in Hm.
  set (d := doy - (153 * ((5 * doy + 2) / 153) + 2) / 5 + 1) in *. set (m := if (5 * doy + 2) / 153 <? 10 then _ else _) in *. clearbody d m.
  apply andb_true_iff in Hm as [Hm E]. apply Z.eqb_eq in E. apply andb_true_iff in Hm as [Hm Hlen].
  assert ((d <=? days_in m (yoe + 0 * 400 + (if m <=? 2 then 1 else 0))) = true) as Hdays.
  { unfold days_in. destruct (Z.eqb_spec m 2) as [->|]; [|done]. cbn [Z.leb Z.compare Pos.compare Pos.compare_cont].
    destruct (Z.eqb_spec doy 365) as [E365|]; [|case_if; bool_prop; apply Z.leb_le; lia].
    destruct (Hleap E365) as [H4 H100]. assert (leap_year (yoe + 0 * 400 + 1) = true) as ->; [|done].
    unfold leap_year. replace (yoe + 0 * 400 + 1) with (yoe + 1) by lia. rewrite H4. cbn [Z.eqb andb]. apply orb_true_iff.
    destruct H100 as [H|H]; [left; by apply negb_true_iff, Z.eqb_neq|right; by apply Z.eqb_eq]. }
  split; [|split; [|case_if; lia]].
  - unfold days_of_civil. assert ((if m <=? 2 then yoe + 0 * 400 + (if m <=? 2 then 1 else 0) - 1 else yoe + 0 * 400 + (if m <=? 2 then 1 else 0)) = yoe) as -> by (case_if; lia).
    rewrite (Z.div_small yoe 400), (Z.mod_small yoe 400) by done. cbv zeta. lia.
  - unfold valid_date. rewrite Hdays, andb_true_r. exact Hm.
Qed.

Lemma civil_of_days_shift d k : civil_of_days (d + 146097 * k) = (let '(y, m, dd) := civil_of_days d in (y + 400 * k, m, dd)).
Proof.
  unfold civil_of_days. replace (d + 146097 * k + 306) with (d + 306 + k * 146097) by lia.
  rewrite Z.mod_add, Z.div_add by done. cbv zeta. f_equal. f_equal. lia.
Qed.

Lemma days_of_civil_shift y m d k : days_of_civil (y + 400 * k) m d = days_of_civil y m d + 146097 * k.
Proof.
  unfold days_of_civil. cbv zeta. set (y' := if m <=? 2 then y - 1 else y).
  assert ((if m <=? 2 then y + 400 * k - 1 else y + 400 * k) = y' + k * 400) as -> by (unfold y'; case_if; lia).
  rewrite Z.mod_add, Z.div_add by done. lia.
Qed.

Lemma days_in_shift m y k : days_in m (y + 400 * k) = days_in m y.
Proof.
  unfold days_in, leap_year. replace (y + 400 * k) with (y + 100 * k * 4) at 1 by lia. replace (y + 400 * k) with (y + 4 * k * 100) at 1 by lia.
  replace (y + 400 * k) with (y + k * 400) by lia. by rewrite !Z.mod_add by done.
Qed.

(** A day number reads back from its date, and the date is a date. *)
Lemma civil_roundtrip n : let '(y, m, d) := civil_of_days n in
  days_of_civil y m d = n /\ valid_date y m d = true /\ 400 * ((n + 306) / 146097) <= y <= 400 * ((n + 306) / 146097) + 400.
Proof.
  set (k := (n + 306) / 146097). set (doe := (n + 306) mod 146097).
  assert (0 <= doe < 146097) as Hdoe by (apply Z.mod_pos_bound; lia).
  assert (n = doe - 306 + 146097 * k) as Hn by (pose proof (Z.div_mod (n + 306) 146097 ltac:(lia)); unfold doe, k; lia).
  pose proof (civil_era doe Hdoe) as Hok. rewrite Hn, civil_of_days_shift. destruct (civil_of_days (doe - 306)) as [[y m] d].
  destruct Hok as (H1 & H2 & H3). rewrite days_of_civil_shift. unfold valid_date in *. rewrite days_in_shift. split; [lia|split; [done|lia]].
Qed.

(** ** Fields *)

Lemma pretty_N_go_length k x s : (x < 10 ^ N.of_nat k)%N -> (String.length (pretty_N_go x s) <= k + String.length s)%nat.
Proof.
  revert x s. induction k as [|k IH]; intros x s Hx.
  - assert (x = 0)%N as -> by (simpl in Hx; lia). rewrite pretty_N_go_0. lia.
  - destruct (decide (0 < x)%N) as [Hp|Hp]; [|assert (x = 0)%N as -> by lia; rewrite pretty_N_go_0; lia].
    rewrite pretty_N_go_step by done. etrans; [apply IH|simpl; lia]. apply N.Div0.div_lt_upper_bound.
    rewrite Nat2N.inj_succ, N.pow_succ_r in Hx by lia. lia.
Qed.

Lemma pretty_length (k : nat) v : 0 <= v < 10 ^ Z.of_nat k -> (0 < k)%nat -> (String.length (pretty v) <= k)%nat.
Proof.
  intros [H1 H2] Hk. destruct v as [|p|p]; [simpl; lia| |lia]. change (pretty (Z.pos p)) with (pretty_N_go (N.pos p) "").
  etrans; [apply (pretty_N_go_length k)|simpl; lia]. apply N2Z.inj_lt. rewrite N2Z.inj_pow, nat_N_Z. exact H2.
Qed.

Lemma digits_value_app acc a b : digits_value acc (a +:+ b) = v ← digits_value acc a; digits_value v b.
Proof.
  revert acc. induction a as [|c a IH]; intros acc; [done|]. rewrite string_app_cons. cbn [digits_value].
  destruct (digit_value c) as [z|]; [apply IH|done].
Qed.

Lemma digits_value_zeros k s : digits_value 0 (String.string_of_list_ascii (repeat "0"%char k) +:+ s) = digits_value 0 s.
Proof. induction k as [|k IH]; [by rewrite string_app_nil_l|]. exact IH. Qed.

Lemma zeros_length k : String.length (String.string_of_list_ascii (repeat "0"%char k)) = k.
Proof. induction k as [|k IH]; [done|]. simpl. by rewrite IH. Qed.

Lemma pad_int_spec (k : nat) v : 0 <= v < 10 ^ Z.of_nat k -> (0 < k)%nat ->
  String.length (pad_int k v) = k /\ digits_value 0 (pad_int k v) = Some v.
Proof.
  intros Hv Hk. pose proof (pretty_length k v Hv Hk) as Hl. unfold pad_int. rewrite Z.abs_eq by lia. rewrite (proj2 (Z.ltb_ge v 0)) by lia.
  rewrite string_app_nil_l. split; [rewrite string_length_app, zeros_length; lia|]. rewrite digits_value_zeros. exact (proj1 (proj2 (Itoa_nonneg v ltac:(lia)))).
Qed.

(** A padded field reads back, whatever follows it. *)
Lemma fixed_digits_pad (k : nat) v s : 0 <= v < 10 ^ Z.of_nat k -> (0 < k)%nat -> fixed_digits k (pad_int k v +:+ s) = Some (v, s).
Proof.
  intros Hv Hk. destruct (pad_int_spec k v Hv Hk) as [Hl Hd]. unfold fixed_digits.
  pose proof (take_bytes_app (pad_int k v) s) as Ht. pose proof (drop_bytes_app (pad_int k v) s) as Hr. rewrite Hl in Ht, Hr.
  rewrite Ht, Hr, Hl, Nat.eqb_refl. destruct (String.eqb_spec (pad_int k v) "") as [E|_].
  - rewrite E in Hl. simpl in Hl. lia.
  - by rewrite Hd.
Qed.

(** ** Stamps *)

Definition parse_fraction (s : string) : option (Z * string) :=
  match s with
  | String c rest =>
    if (Ascii.eqb c "."%char || Ascii.eqb c ","%char) && (0 <? digit_span rest)%nat
    then ns ← fraction_nanos (take_bytes (digit_span rest) rest); Some (ns, drop_bytes (digit_span rest) rest)
    else Some (0, s)
  | EmptyString => Some (0, s)
  end.

(** [time.Parse("20060102-150405", s)]. *)
Definition ParseStamp (s : string) : option Time :=
  '(y, s) ← fixed_digits 4 s; '(mo, s) ← fixed_digits 2 s; '(d, s) ← fixed_digits 2 s; s ← expect "-"%char s;
  '(h, s) ← (match fixed_digits 2 s with Some r => Some r | None => fixed_digits 1 s end);
  '(mi, s) ← fixed_digits 2 s; '(sec, s) ← fixed_digits 2 s; '(ns, s) ← parse_fraction s;
  if negb (String.eqb s "") then None
  else if (mo <? 1) || (12 <? mo) || (d <? 1) || (days_in mo y <? d) || (23 <? h) || (59 <? mi) || (59 <? sec) then None
  else Some ((days_of_civil y mo d * 86400 + h * 3600 + mi * 60 + sec) * Second + ns).

(** The fields of a stamp, for the years of four digits. *)
Definition four_digit_years (t : Time) : Prop := 0 <= t < 3652059 * 86400 * Second.

(** The civil fields of such a time are in range and determine it. *)
Lemma civil_fields t : four_digit_years t ->
  let '(y, m, d) := civil_of_days (t / Second / 86400) in
  let s := t / Second mod 86400 in
  (0 <= y <= 9999 /\ 1 <= m <= 12 /\ 1 <= d <= days_in m y /\ d <= 31 /\ 0 <= s / 3600 <= 23 /\ 0 <= s / 60 mod 60 <= 59 /\ 0 <= s mod 60 <= 59) /\
  (days_of_civil y m d * 86400 + s / 3600 * 3600 + s / 60 mod 60 * 60 + s mod 60) * Second = t - t mod Second.
Proof.
  unfold four_digit_years. intros Ht. pose proof (civil_roundtrip (t / Second / 86400)) as Hc.
  destruct (civil_of_days (t / Second / 86400)) as [[y m] d]. destruct Hc as (Hdays & Hvalid & Hy). unfold valid_date in Hvalid.
  assert (0 <= t / Second / 86400 <= 3652058) as Hn by (unfold Second in *; Z.div_mod_to_equations; lia).
  assert (0 <= y <= 9999) as Hy'.
  { split; [Z.div_mod_to_equations; lia|]. destruct (decide (y = 10000)) as [->|]; [|Z.div_mod_to_equations; lia].
    exfalso. revert Hdays. bool_prop. unfold days_of_civil. destruct (Z.leb_spec m 2); destruct (Z.ltb_spec 2 m); try lia; Z.div_mod_to_equations; lia. }
  assert (days_in m y <= 31) as H31 by (unfold days_in; repeat case_if; lia). bool_prop. cbv zeta.
  set (s := t / Second mod 86400). assert (0 <= s < 86400) as Hs by (apply Z.mod_pos_bound; lia).
  assert (0 <= s / 3600 <= 23 /\ 0 <= s / 60 mod 60 <= 59 /\ 0 <= s mod 60 <= 59) as (Hh & Hmi & Hsec) by (Z.div_mod_to_equations; lia).
  split; [repeat split; lia|]. rewrite Hdays. subst s. unfold Second in *. Z.div_mod_to_equations; lia.
Qed.

Lemma FormatStamp_fields t : four_digit_years t -> exists y m d h mi sec,
  FormatStamp t = (pad_int 4 y +:+ pad_int 2 m +:+ pad_int 2 d) +:+ "-" +:+ (pad_int 2 h +:+ pad_int 2 mi +:+ pad_int 2 sec) /\
  (0 <= y <= 9999 /\ 1 <= m <= 12 /\ 1 <= d <= days_in m y /\ d <= 31 /\ 0 <= h <= 23 /\ 0 <= mi <= 59 /\ 0 <= sec <= 59) /\
  (days_of_civil y m d * 86400 + h * 3600 + mi * 60 + sec) * Second = t - t mod Second.
Proof.
  intros Ht. pose proof (civil_fields t Ht) as Hc. unfold FormatStamp. destruct (civil_of_days (t / Second / 86400)) as [[y m] d].
  cbv zeta in *. do 6 eexists. split; [by rewrite !string_app_assoc|exact Hc].
Qed.

(** A stamp reads back to the second. *)
Lemma ParseStamp_FormatStamp t : four_digit_years t -> ParseStamp (FormatStamp t) = Some (t - t mod Second).
Proof.
  intros Ht. destruct (FormatStamp_fields t Ht) as (y & m & d & h & mi & sec & -> & Hr & Hsum). unfold ParseStamp.
  rewrite !string_app_assoc, fixed_digits_pad by (simpl; lia). cbn [mbind option_bind].
  do 2 (rewrite fixed_digits_pad by (simpl; lia); cbn [mbind option_bind]). rewrite string_app_cons, string_app_nil_l.
  cbn [expect Ascii.eqb Bool.eqb mbind option_bind]. do 2 (rewrite fixed_digits_pad by (simpl; lia); cbn [mbind option_bind]).
  rewrite <- (string_app_nil_r (pad_int 2 sec)), fixed_digits_pad by (simpl; lia). cbn [mbind option_bind parse_fraction String.eqb negb].
  rewrite !(proj2 (Z.ltb_ge _ _)) by lia. cbn [orb]. f_equal. lia.
Qed.

Lemma digits_value_no_dash acc s v : digits_value acc s = Some v -> has_byte "-"%char s = false.
Proof.
  revert acc. induction s as [|c s IH]; intros acc; [done|]. cbn [digits_value has_byte]. destruct (digit_value c) as [z|] eqn:Ec; [|done].
  intros H. rewrite (IH _ H), orb_false_r. by destruct (Ascii.eqb_spec c "-") as [->|].
Qed.

Lemma pad_int_no_dash (k : nat) v : 0 <= v < 10 ^ Z.of_nat k -> (0 < k)%nat -> has_byte "-"%char (pad_int k v) = false.
Proof. intros Hv Hk. eapply digits_value_no_dash, (pad_int_spec k v Hv Hk). Qed.

(** The last dash of a stamp is the one before the time, and the date before it is no stamp. *)
Lemma FormatStamp_parts t : four_digit_years t -> exists date time, FormatStamp t = date +:+ String "-" time /\
  has_byte "-"%char time = false /\ ParseStamp date = None.
Proof.
  intros Ht. destruct (FormatStamp_fields t Ht) as (y & m & d & h & mi & sec & -> & Hr & _).
  exists (pad_int 4 y +:+ pad_int 2 m +:+ pad_int 2 d), (pad_int 2 h +:+ pad_int 2 mi +:+ pad_int 2 sec). split; [done|]. split.
  - rewrite !has_byte_app, !pad_int_no_dash by (simpl; lia). done.
  - unfold ParseStamp. do 2 (rewrite fixed_digits_pad by (simpl; lia); cbn [mbind option_bind]).
    rewrite <- (string_app_nil_r (pad_int 2 d)), fixed_digits_pad by (simpl; lia). done.
Qed.

Lemma LastIndexByte_last a b c : has_byte c b = false -> LastIndexByte (a +:+ String c b) c = Some (String.length a).
Proof.
  intros Hb. assert (LastIndexByte b c = None) as Hn.
  { induction b as [|x b IH]; [done|]. cbn [has_byte LastIndexByte] in *. apply orb_false_iff in Hb as [Hx Hb]. by rewrite (IH Hb), Hx. }
  induction a as [|x a IH]; [rewrite string_app_nil_l; cbn [LastIndexByte]; by rewrite Hn, Ascii.eqb_refl|].
  rewrite string_app_cons. cbn [LastIndexByte]. by rewrite IH.
Qed.
