(* ===== verification/Retention.v ===== *)
(** Retention of the event logs ([internal/eventlog/retention.go], which the server runs on
    the v2 log too) and of resolved incidents ([internal/incidents/retention.go]): what is
    deleted and what is kept, over the disk of [Eventlog] and the store of [Incident]. *)

From S2P Require Import Prelude GoRuntime GoFloat GoText Types Eventlog GoTime Incident.
Open Scope Z_scope.

Definition trim_prefix (s p : string) : string := if HasPrefix s p then drop_bytes (String.length p) s else s.
Definition trim_suffix (s p : string) : string := if HasSuffix s p then take_bytes (String.length s - String.length p) s else s.

Definition parseFileTimestamp (name : string) : option Time :=
  let name := trim_suffix (trim_prefix name "events-") ".jsonl" in
  let name :=
    match LastIndexByte name "-"%char with
    | Some i => if (0 <? i)%nat && bool_decide (is_Some (ParseStamp (take_bytes i name))) then take_bytes i name else name
    | None => name
    end in
  ParseStamp name.

Example parseFileTimestamp_ex : (parseFileTimestamp <$> ["events-20260220-091300.jsonl"; "events-20260220-091300-12.jsonl"; "events-20260230-091300.jsonl"; "events-a-b.jsonl"])
  = [Some (unix_epoch + 1771578780 * Second); Some (unix_epoch + 1771578780 * Second); None; None].
Proof. vm_compute. done. Qed.

(** ** Pruning the log *)

(** The file is an inactive log file with a stamp before the cutoff. *)
Definition prunable (cutoff : Time) (activeFile : option string) (name : string) : bool :=
  HasSuffix name ".jsonl" && HasPrefix name "events-" && negb (bool_decide (activeFile = Some name)) &&
  match parseFileTimestamp name with Some ts => Before ts cutoff | None => false end.

(** One directory entry; [fails] says whose removal is refused, which ends the loop. *)
Definition prune_entry (cutoff : Time) (activeFile : option string) (fails : string -> bool) (st : disk * Z * bool) (name : string) : disk * Z * bool :=
  let '(d, deleted, ok) := st in
  if negb ok then st
  else if negb (prunable cutoff activeFile name) then st
  else if fails name then (d, deleted, false)
  else (List.filter (fun f => negb (String.eqb (f_name f) name)) d, deleted + 1, true).

(** [PruneOlderThan]: [os.ReadDir] lists the directory by name. *)
Definition PruneOlderThan (d : disk) (now : Time) (maxAge : Duration) (activeFile : option string) (fails : string -> bool) : disk * Z * bool :=
  foldl (prune_entry (TimeAdd now (- maxAge)) activeFile fails) (d, 0, true) (ssort String.ltb (f_name <$> d)).

(** ** Resolved incidents *)

Section Incidents.
Context {S : Type} `{!Store S}.

(** One tick of [RunRetention], and its ticks in turn; an error changes nothing. *)
Definition retention_tick (it : MapIter) (retention : Duration) (s : S) (now : Time) : S :=
  match PruneResolvedOlderThan it s (TimeAdd now (- retention)) with Some (s, _) => s | None => s end.

Definition RunRetention (it : MapIter) (retention interval : Duration) (s : S) (ticks : list Time) : S :=
  if (retention <=? 0) || (interval <=? 0) then s else foldl (retention_tick it retention) s ticks.
End Incidents.

(** ** What pruning deletes *)

Lemma trim_prefix_app p s : trim_prefix (p +:+ s) p = s.
Proof. unfold trim_prefix. by rewrite HasPrefix_app, drop_bytes_app. Qed.

Lemma trim_suffix_app s p : trim_suffix (s +:+ p) p = s.
Proof.
  unfold trim_suffix, HasSuffix. rewrite rev_string_app. change (String.prefix (String.rev p) _) with (HasPrefix (String.rev p +:+ String.rev s) (String.rev p)).
  rewrite HasPrefix_app, string_length_app. replace (String.length s + String.length p - String.length p)%nat with (String.length s) by lia.
  apply take_bytes_app.
Qed.

(** The stamp in a name the writer makes is the time the file was made, to the second. *)
Lemma parseFileTimestamp_file_name t seq : four_digit_years t -> 0 <= seq -> parseFileTimestamp (file_name (FormatStamp t) seq) = Some (t - t mod Second).
Proof.
  intros Ht Hseq. destruct (FormatStamp_parts t Ht) as (date & time & Hs & Htime & Hdate). unfold parseFileTimestamp, file_name.
  destruct (Z.ltb_spec 0 seq) as [Hp|Hp]; rewrite trim_prefix_app.
  - replace (FormatStamp t +:+ "-" +:+ pretty seq +:+ ".jsonl") with ((FormatStamp t +:+ String "-" (pretty seq)) +:+ ".jsonl") by (by rewrite string_app_assoc, string_app_cons).
    rewrite trim_suffix_app, LastIndexByte_last by (apply (digits_value_no_dash 0 _ seq), (Itoa_nonneg seq Hseq)).
    rewrite take_bytes_app, ParseStamp_FormatStamp by done. rewrite (bool_decide_eq_true_2 (is_Some _)) by (by eexists).
    assert ((0 <? String.length (FormatStamp t))%nat = true) as ->.
    { apply Nat.ltb_lt. rewrite Hs, string_length_app. simpl. lia. }
    cbn [andb]. by apply ParseStamp_FormatStamp.
  - rewrite trim_suffix_app. assert (LastIndexByte (FormatStamp t) "-"%char = Some (String.length date)) as -> by (rewrite Hs; by apply LastIndexByte_last).
    assert (take_bytes (String.length date) (FormatStamp t) = date) as -> by (rewrite Hs; apply take_bytes_app).
    rewrite Hdate. rewrite bool_decide_eq_false_2 by (by intros []). rewrite andb_false_r. by apply ParseStamp_FormatStamp.
Qed.

Lemma HasSuffix_app s p : HasSuffix (s +:+ p) p = true.
Proof. unfold HasSuffix. rewrite rev_string_app. apply HasPrefix_app. Qed.

Lemma prunable_file_name cutoff active t seq : four_digit_years t -> 0 <= seq -> let name := file_name (FormatStamp t) seq in
  prunable cutoff active name = negb (bool_decide (active = Some name)) && (t - t mod Second <? cutoff).
Proof.
  intros Ht Hseq name. unfold prunable. assert (parseFileTimestamp name = Some (t - t mod Second)) as -> by by apply parseFileTimestamp_file_name.
  assert (HasSuffix name ".jsonl" = true /\ HasPrefix name "events-" = true) as [-> ->]; [|done]. unfold name, file_name. destruct (0 <? seq).
  - split; [|apply HasPrefix_app]. rewrite <- !string_app_assoc. apply HasSuffix_app.
  - split; [|apply HasPrefix_app]. rewrite <- !string_app_assoc. apply HasSuffix_app.
Qed.

Lemma prune_entries cutoff active d l n : foldl (prune_entry cutoff active (fun _ => false)) (d, n, true) l =
  (List.filter (fun f => negb (prunable cutoff active (f_name f) && bool_decide (f_name f ∈ l))) d,
   n + Z.of_nat (length (List.filter (prunable cutoff active) l)), true).
Proof.
  revert d n. induction l as [|name l IH]; intros d n; cbn [foldl List.filter length].
  - rewrite lfilter_all; [by rewrite Z.add_0_r|]. intros f _. rewrite bool_decide_eq_false_2 by (by intros ?%elem_of_nil). by rewrite andb_false_r.
  - unfold prune_entry at 2. cbn [negb]. destruct (prunable cutoff active name) eqn:Ep; cbn [negb length]; rewrite IH.
    + f_equal. f_equal; [|lia]. rewrite lfilter_lfilter. apply filter_ext. intros f. destruct (String.eqb_spec (f_name f) name) as [->|Hne].
      * rewrite Ep, (bool_decide_eq_true_2 (name ∈ name :: l)) by left. done.
      * cbn [negb andb]. do 3 f_equal. apply bool_decide_ext. rewrite elem_of_cons. naive_solver.
    + f_equal. f_equal. apply filter_ext. intros f. destruct (decide (f_name f = name)) as [->|Hne]; [by rewrite Ep|].
      do 3 f_equal. apply bool_decide_ext. rewrite elem_of_cons. naive_solver.
Qed.

Lemma lfilter_length_perm {A} (f : A -> bool) (l1 l2 : list A) : l1 ≡ₚ l2 -> length (List.filter f l1) = length (List.filter f l2).
Proof. intros H. by rewrite (lfilter_perm f _ _ H). Qed.

(** When every removal works, the files left are those that are not to be pruned. *)
Lemma PruneOlderThan_files d now maxAge active :
  PruneOlderThan d now maxAge active (fun _ => false) =
  (List.filter (fun f => negb (prunable (now - maxAge) active (f_name f))) d,
   Z.of_nat (length (List.filter (prunable (now - maxAge) active) (f_name <$> d))), true).
Proof.
  unfold PruneOlderThan. change (TimeAdd now (- maxAge)) with (now - maxAge). rewrite prune_entries, Z.add_0_l. f_equal. f_equal.
  - apply List.filter_ext_in. intros f Hf%list_elem_of_In. rewrite bool_decide_eq_true_2; [by rewrite andb_true_r|].
    rewrite elem_of_ssort. apply list_elem_of_fmap. by exists f.
  - f_equal. apply lfilter_length_perm, ssort_perm.
Qed.

(** Retention goes by the age of the file: on a disk of log files, each named by the
    writer at the time it was made, pruning deletes exactly the inactive files made before
    the retention period, to the second, counts them, and leaves every other file as it is;
    the file being written is never deleted. *)
Theorem PruneOlderThan_by_age (made : string -> Time) (seq : string -> Z) d now maxAge active :
  Forall (fun f => f_name f = file_name (FormatStamp (made (f_name f))) (seq (f_name f)) /\ four_digit_years (made (f_name f)) /\ 0 <= seq (f_name f)) d ->
  let old f := negb (bool_decide (active = Some (f_name f))) && (made (f_name f) - made (f_name f) mod Second <? now - maxAge) in
  PruneOlderThan d now maxAge active (fun _ => false) = (List.filter (fun f => negb (old f)) d, Z.of_nat (length (List.filter old d)), true).
Proof.
  intros Hd old. rewrite PruneOlderThan_files.
  assert (forall f, f ∈ d -> prunable (now - maxAge) active (f_name f) = old f) as Hp.
  { intros f Hf. rewrite Forall_forall in Hd. destruct (Hd f Hf) as (Hn & Hy & Hs).
    pose proof (prunable_file_name (now - maxAge) active _ _ Hy Hs) as Hp. by rewrite <- Hn in Hp. }
  f_equal. f_equal.
  - apply List.filter_ext_in. intros f Hf%list_elem_of_In. by rewrite Hp.
  - f_equal. rewrite <- (List.filter_ext_in (fun f => prunable (now - maxAge) active (f_name f)) old) by (intros f Hf%list_elem_of_In; by apply Hp).
    rewrite lfilter_fmap, length_fmap. done.
Qed.

Definition y2026 : Time := unix_epoch + 1771578780 * Second.

Definition sample_made (name : string) : Time := if String.eqb name "events-20260220-091300.jsonl" then y2026 else y2026 + 100 * Hour.
Definition sample_seq (name : string) : Z := if String.eqb name "events-20260224-131300-1.jsonl" then 1 else 0.

Definition sample_disk : disk := (fun n => mkFile n "" y2026) <$> ["events-20260220-091300.jsonl"; "events-20260224-131300.jsonl"; "events-20260224-131300-1.jsonl"].

Lemma PruneOlderThan_by_age_witness :
  f_name <$> (PruneOlderThan sample_disk (y2026 + 101 * Hour) (72 * Hour) (Some "events-20260224-131300-1.jsonl") (fun _ => false)).1.1
    = ["events-20260224-131300.jsonl"; "events-20260224-131300-1.jsonl"].
Proof.
  rewrite (PruneOlderThan_by_age sample_made sample_seq); [vm_compute; reflexivity|].
  repeat (constructor; [split; [vm_compute; reflexivity|split; vm_compute; [split; congruence|congruence]]|]). constructor.
Defined.

(** The age of a file is not the age of what it holds: a record acknowledged five minutes ago
    is deleted with a retention of three days, because the file it went to, rotated since,
    had been opened eighty hours ago; the next restart does not replay it. *)
Theorem retention_loses_fresh_record :
  exists d w, WriteRaw [mkFile (file_name (FormatStamp y2026) 0) "" y2026] (mkWriter true 4 (Some (file_name (FormatStamp y2026) 0)) 0 0 true)
      (all_ok (y2026 + 80 * Hour)) "{}x" = (d, w, true) /\
    log_lines d = ["{}x"] /\
    log_lines (PruneOlderThan d (y2026 + 80 * Hour + 5 * Minute) (72 * Hour) (w_active w) (fun _ => false)).1.1 = [].
Proof. eexists _, _. split; [vm_compute; reflexivity|]. by vm_compute. Qed.

(** ** What the incident sweep deletes *)

Section Sweep.
Context {S : Type} `{!Store S}.

Definition expired (retention : Duration) (now : Time) (inc : Incident) : Prop :=
  inc_Status inc = StatusResolved /\ exists t, inc_ResolvedAt inc = Some t /\ t < now - retention.

Lemma retention_tick_ok it retention s now : store_ok s -> datable (TimeAdd now (- retention)) -> store_ok (retention_tick it retention s now).
Proof.
  intros Hok Hd. unfold retention_tick. destruct (PruneResolvedOlderThan it s _) as [[s' n]|] eqn:Ep; [|done].
  by apply (PruneResolved_rows _ _ _ _ _ Hok Hd) in Ep as [? _].
Qed.

Lemma retention_tick_rows it retention s now id inc : store_ok s -> datable (TimeAdd now (- retention)) ->
  rows (retention_tick it retention s now) !! id = Some inc -> rows s !! id = Some inc.
Proof.
  intros Hok Hd. unfold retention_tick. destruct (PruneResolvedOlderThan it s _) as [[s' n]|] eqn:Ep; [|done].
  rewrite (proj1 (proj2 (PruneResolved_rows _ _ _ _ _ Hok Hd Ep))), map_lookup_filter_Some. tauto.
Qed.

Lemma retention_tick_kept it retention s now id inc : store_ok s -> datable (TimeAdd now (- retention)) ->
  rows s !! id = Some inc -> ~ expired retention now inc ->
  rows (retention_tick it retention s now) !! id = Some inc.
Proof.
  intros Hok Hd Hin Hne. unfold retention_tick. destruct (PruneResolvedOlderThan it s _) as [[s' n]|] eqn:Ep; [|done].
  rewrite (proj1 (proj2 (PruneResolved_rows _ _ _ _ _ Hok Hd Ep))), map_lookup_filter_Some. split; [done|]. cbn [snd].
  unfold open_row. destruct (String.eqb_spec (inc_Status inc) StatusResolved) as [Hr|]; [|done]. cbn [negb orb].
  destruct (inc_ResolvedAt inc) as [t|] eqn:Et; [|done]. apply negb_true_iff, Z.ltb_ge. unfold TimeAdd.
  destruct (decide (t < now - retention)) as [Hlt|]; [|lia]. destruct Hne. split; [done|]. by exists t.
Qed.

(** Retention touches resolved incidents only: whatever the ticks and their failures, the
    rows left are rows that were there, and a row that is gone was resolved longer ago
    than the retention period at one of the ticks. *)
Theorem RunRetention_sweeps it retention interval s ticks id :
  store_ok s -> Forall (fun now => datable (TimeAdd now (- retention))) ticks ->
  (forall inc, rows (RunRetention it retention interval s ticks) !! id = Some inc -> rows s !! id = Some inc) /\
  (forall inc, rows s !! id = Some inc -> Forall (fun now => ~ expired retention now inc) ticks ->
     rows (RunRetention it retention interval s ticks) !! id = Some inc).
Proof.
  unfold RunRetention. intros Hok Hd. destruct (_ || _); [done|]. revert s Hok. induction Hd as [|now ticks Hnow Hd IH]; intros s Hok; [done|]. cbn [foldl].
  destruct (IH (retention_tick it retention s now)) as [IH1 IH2]; [by apply retention_tick_ok|]. split.
  - intros inc H%IH1. by apply retention_tick_rows in H.
  - intros inc Hin Hne. apply Forall_cons in Hne as [Hn Hne]. apply IH2; [|done]. by apply retention_tick_kept.
Qed.
End Sweep.
