(* ===== verification/Llm.v ===== *)
(** The question loop of the language-model endpoint ([internal/llm]: [types.go],
    [errors.go], [ask.go]) and the choice of a provider from the environment
    ([provider.go]).  A provider and the tools are functions of their own states. *)

From S2P Require Import Prelude GoRuntime GoText PlanRef Registry.
Open Scope Z_scope.

(** ** Types *)

Record ToolDefinition := mkToolDefinition { td_Name : string; td_Description : string; td_InputSchema : string }.

(** Raw JSON is its text; the last three fields are the provider's own. *)
Record ToolCall := mkToolCall {
  tc_Name : string; tc_Arguments : string;
  tc_ProviderID : string; tc_ProviderRawItems : list string; tc_ProviderRawIncluded : bool
}.

Record ToolResult := mkToolResult { tr_Name : string; tr_Result : value }.

Record Turn := mkTurn { tn_Role : string; tn_Text : string; tn_ToolCall : option ToolCall; tn_ToolResult : option ToolResult }.

Record Result := mkResult { rs_Text : string; rs_ToolCalls : list ToolCall }.

Record ProviderError := mkProviderError { pv_Provider : string; pv_StatusCode : Z; pv_Retryable : bool; pv_Message : string }.

Definition ProviderError_Error (e : ProviderError) : string :=
  pv_Provider e +:+ ": " +:+ pv_Message e +:+ (if 0 <? pv_StatusCode e then " (status " +:+ Itoa (pv_StatusCode e) +:+ ")" else "").

(** An [error] as the endpoint tells them apart: a provider's, a tool's, the end of the
    request's context, any other. *)
Inductive llm_error :=
| ErrProvider (e : ProviderError)
| ErrTool (e : ToolError) (text : string)
| ErrContext (text : string)
| ErrText (text : string).

Definition Error (e : llm_error) : string :=
  match e with
  | ErrProvider e => ProviderError_Error e
  | ErrTool _ text | ErrContext text | ErrText text => text
  end.

(** What [Generate] did; the clients slice strings, so it can panic. *)
Inductive generated := Generated (r : Result) | GenerateFailed (e : llm_error) | GeneratePanicked.

Record AskOptions := mkAskOptions { ao_MaxSteps : Z; ao_ErrorStrategy : string }.

(** A nil result is [VNull]. *)
Record ToolCallRecord := mkToolCallRecord { rc_Name : string; rc_Params : string; rc_Result : value; rc_Error : string; rc_DurationMs : Z }.

(** ** The loop ([ask.go]) *)

Definition assistant_turn (call : ToolCall) : Turn := mkTurn "assistant" "" (Some call) None.
Definition tool_turn (name : string) (result : value) : Turn := mkTurn "tool" "" None (Some (mkToolResult name result)).
Definition error_result (text : string) : value := VMap (Some {["error" := VStr text]}).

(** The three results of [Ask], or a panic. *)
Inductive asked :=
| Answered (text : string) (records : list ToolCallRecord)
| AskFailed (records : list ToolCallRecord) (e : llm_error)
| AskPanicked.

Section Ask.
Context {P W : Type}.
Definition Provider : Type := P -> string -> list ToolDefinition -> list Turn -> P * generated.
Definition ToolExecutor : Type := W -> string -> string -> W * (llm_error + value).

Section Loop.
Variable generate : Provider.
Variable exec : ToolExecutor.
Variable ms : nat -> Z.
Variables (prompt : string) (tools : list ToolDefinition) (strategy : string).

(** The calls of one answer; [ms] is the time each call took. *)
Fixpoint call_tools (calls : list ToolCall) (w : W) (history : list Turn) (records : list ToolCallRecord)
    : W * list Turn * list ToolCallRecord * option llm_error :=
  match calls with
  | [] => (w, history, records, None)
  | call :: calls =>
    let history := history ++ [assistant_turn call] in
    let '(w, called) := exec w (tc_Name call) (tc_Arguments call) in
    let rec_ := fun result err => mkToolCallRecord (tc_Name call) (tc_Arguments call) result err (ms (length records)) in
    match called with
    | inl callErr =>
      let records := records ++ [rec_ VNull (Error callErr)] in
      if String.eqb strategy "continue"
      then call_tools calls w (history ++ [tool_turn (tc_Name call) (error_result (Error callErr))]) records
      else (w, history, records, Some callErr)
    | inr result => call_tools calls w (history ++ [tool_turn (tc_Name call) result]) (records ++ [rec_ result ""])
    end
  end.

Fixpoint ask_loop (maxSteps : nat) (p : P) (w : W) (history : list Turn) (records : list ToolCallRecord) : P * W * asked :=
  match maxSteps with
  | O => (p, w, AskFailed records (ErrText "tool calling exceeded max steps"))
  | S maxSteps =>
    let '(p, res) := generate p prompt tools history in
    match res with
    | GeneratePanicked => (p, w, AskPanicked)
    | GenerateFailed err => (p, w, AskFailed records err)
    | Generated res =>
      match rs_ToolCalls res with
      | [] => (p, w, if String.eqb (rs_Text res) "" then AskFailed records (ErrText "llm returned empty response") else Answered (rs_Text res) records)
      | calls =>
        match call_tools calls w history records with
        | (w, _, records, Some callErr) => (p, w, AskFailed records callErr)
        | (w, history, records, None) => ask_loop maxSteps p w history records
        end
      end
    end
  end.
End Loop.

Definition steps_of (opts : AskOptions) : Z := if ao_MaxSteps opts <=? 0 then 5 else ao_MaxSteps opts.
Definition strategy_of (opts : AskOptions) : string := if String.eqb (ao_ErrorStrategy opts) "" then "abort" else ao_ErrorStrategy opts.

Definition Ask (provider : option Provider) (exec : option ToolExecutor) (ms : nat -> Z) (p : P) (w : W)
    (tools : list ToolDefinition) (prompt : string) (opts : AskOptions) : P * W * asked :=
  match provider, exec with
  | None, _ => (p, w, AskFailed [] (ErrText "llm provider required"))
  | _, None => (p, w, AskFailed [] (ErrText "tool executor required"))
  | Some generate, Some exec =>
    if String.eqb prompt "" then (p, w, AskFailed [] (ErrText "prompt required"))
    else ask_loop generate exec ms prompt tools (strategy_of opts) (Z.to_nat (steps_of opts)) p w [] []
  end.
End Ask.
Arguments Provider : clear implicits.
Arguments ToolExecutor : clear implicits.

(** ** The choice of a provider ([provider.go]) *)

(** The clients, with their defaults ([gemini.go], [anthropic.go], [openai.go]). *)
Inductive Client :=
| GeminiClient (APIKey Model BaseURL ToolMode : string)
| AnthropicClient (APIKey Model BaseURL : string)
| OpenAIClient (APIKey Model BaseURL : string).

Record Selection := mkSelection {
  se_Provider : string; se_Model : string; se_ToolMode : string; se_Configured : bool; se_AskEnabled : bool; se_Impl : option Client
}.

Definition defaultGeminiModel : string := "gemini-2.5-flash".
Definition defaultGeminiBaseURL : string := "https://generativelanguage.googleapis.com/v1beta".
Definition defaultAnthropicModel : string := "claude-sonnet-4-6".
Definition defaultAnthropicBaseURL : string := "https://api.anthropic.com/v1".
Definition defaultOpenAIModel : string := "gpt-4o-mini".
Definition defaultOpenAIBaseURL : string := "https://api.openai.com/v1".

Section Select.
Variable Getenv : string -> string.

(** The first variable that is set, or the default. *)
Fixpoint first_env (names : list string) (def : string) : string :=
  match names with
  | [] => def
  | name :: names => let v := TrimSpace (Getenv name) in if negb (String.eqb v "") then v else first_env names def
  end.

Definition geminiKeyFromEnv : string := first_env ["GEMINI_API_KEY"; "GOOGLE_API_KEY"] "".

Definition buildGemini (key : string) (configured : bool) : Selection :=
  let model := first_env ["WAYLOG_LLM_MODEL"; "GEMINI_MODEL"] defaultGeminiModel in
  let base := first_env ["GEMINI_API_BASE"] defaultGeminiBaseURL in
  let mode := first_env ["GEMINI_TOOL_MODE"] "text" in
  mkSelection "gemini" model mode configured true (Some (GeminiClient key model base mode)).

Definition buildAnthropic (key : string) (configured : bool) : Selection :=
  let model := first_env ["WAYLOG_LLM_MODEL"; "ANTHROPIC_MODEL"] defaultAnthropicModel in
  mkSelection "anthropic" model "" configured true (Some (AnthropicClient key model (first_env ["ANTHROPIC_API_BASE"] defaultAnthropicBaseURL))).

Definition buildOpenAI (key : string) (configured : bool) : Selection :=
  let model := first_env ["WAYLOG_LLM_MODEL"; "OPENAI_MODEL"] defaultOpenAIModel in
  mkSelection "openai" model "" configured true (Some (OpenAIClient key model (first_env ["OPENAI_API_BASE"] defaultOpenAIBaseURL))).

Definition disabled (provider : string) (configured : bool) : Selection := mkSelection provider "" "" configured false None.

(** [None]: the error names an unknown provider. *)
Definition SelectFromEnv : option Selection :=
  let raw := ToLower (TrimSpace (Getenv "WAYLOG_LLM_PROVIDER")) in
  let gemini := geminiKeyFromEnv in
  let anthropic := TrimSpace (Getenv "ANTHROPIC_API_KEY") in
  let openai := TrimSpace (Getenv "OPENAI_API_KEY") in
  if String.eqb raw "" then
    Some (if negb (String.eqb gemini "") then buildGemini gemini true
          else if negb (String.eqb anthropic "") then buildAnthropic anthropic true
          else if negb (String.eqb openai "") then buildOpenAI openai true
          else disabled "none" false)
  else if String.eqb raw "none" then Some (disabled "none" true)
  else if String.eqb raw "gemini" then Some (if String.eqb gemini "" then disabled "gemini" false else buildGemini gemini true)
  else if String.eqb raw "anthropic" then Some (if String.eqb anthropic "" then disabled "anthropic" false else buildAnthropic anthropic true)
  else if String.eqb raw "openai" then Some (if String.eqb openai "" then disabled "openai" false else buildOpenAI openai true)
  else None.
End Select.

Definition key_of (c : Client) : string :=
  match c with GeminiClient k _ _ _ | AnthropicClient k _ _ | OpenAIClient k _ _ => k end.

(** Asking is enabled exactly when there is a client, which has a key. *)
Theorem SelectFromEnv_keyed Getenv sel : SelectFromEnv Getenv = Some sel ->
  match se_Impl sel with Some c => se_AskEnabled sel = true /\ se_Configured sel = true /\ key_of c <> "" | None => se_AskEnabled sel = false end.
Proof.
  unfold SelectFromEnv. cbv zeta. repeat (case_if; bool_prop); intros H; simplify_eq; simpl; done.
Qed.

(** ** What the loop promises *)

(** The questions put to a provider, and the calls made to an executor, kept beside their states. *)
Definition logged {P} (generate : Provider P) : Provider (P * list (list Turn)) := fun p prompt tools history =>
  let '(p', res) := generate p.1 prompt tools history in (p', p.2 ++ [history], res).
Definition traced {W} (exec : ToolExecutor W) : ToolExecutor (W * list (string * string)) := fun w name params =>
  let '(w', res) := exec w.1 name params in (w', w.2 ++ [(name, params)], res).

Definition record_call (r : ToolCallRecord) : string * string := (rc_Name r, rc_Params r).

(** A history that is a dialogue: each call of the model is followed at once by the result of
    that call, which is the one its record keeps. *)
Inductive dialogue : list Turn -> list ToolCallRecord -> Prop :=
| dialogue_nil : dialogue [] []
| dialogue_snoc h recs call r result : dialogue h recs -> record_call r = (tc_Name call, tc_Arguments call) ->
    result = rc_Result r \/ result = error_result (rc_Error r) ->
    dialogue (h ++ [assistant_turn call; tool_turn (tc_Name call) result]) (recs ++ [r]).

Definition no_error (r : ToolCallRecord) : Prop := rc_Error r = "".

(** Every question repeats the one before it and adds to it. *)
Definition grows (log : list (list Turn)) : Prop :=
  forall i h h', log !! i = Some h -> log !! S i = Some h' -> exists extra, extra <> [] /\ h' = h ++ extra.

Section Spec.
Context {P W : Type} (generate : Provider P) (exec : ToolExecutor W) (ms : nat -> Z) (prompt : string) (tools : list ToolDefinition) (strategy : string).

Lemma traced_call w runs name params : traced exec (w, runs) name params =
  ((exec w name params).1, runs ++ [(name, params)], (exec w name params).2).
Proof. unfold traced. cbn [fst snd]. by destruct (exec w name params). Qed.

Lemma call_tools_spec calls w runs history records w' runs' history' records' err :
  call_tools (traced exec) ms strategy calls (w, runs) history records = (w', runs', history', records', err) ->
  dialogue history records -> runs = record_call <$> records ->
  runs' = record_call <$> records' /\
  (err = None -> dialogue history' records' /\ (exists extra, history' = history ++ extra /\ (calls <> [] -> extra <> [])) /\
                 (strategy <> "continue" -> Forall no_error records -> Forall no_error records')).
Proof.
  revert w runs history records. induction calls as [|call calls IH]; intros w runs history records; cbn [call_tools].
  - intros [= <- <- <- <- <-] Hd ->. split; [done|]. intros _. split; [done|split; [exists []; by rewrite app_nil_r|done]].
  - rewrite traced_call. destruct (exec w (tc_Name call) (tc_Arguments call)) as [w1 [e|v]]; cbn [fst snd].
    + destruct (String.eqb_spec strategy "continue") as [->|Hs].
      * intros H Hd ->. rewrite <- app_assoc in H. apply IH in H as [Hr Hn]; [| |by rewrite fmap_app].
        2: { apply dialogue_snoc; [done|done|by right]. }
        split; [done|]. intros He. destruct (Hn He) as (H1 & (extra & -> & _) & H3). split; [done|split].
        -- eexists. rewrite <- app_assoc. split; [done|]. done.
        -- by intros [].
      * intros [= <- <- <- <- <-] Hd ->. split; [by rewrite fmap_app|done].
    + intros H Hd ->. rewrite <- app_assoc in H. apply IH in H as [Hr Hn]; [| |by rewrite fmap_app].
      2: { apply dialogue_snoc; [done|done|by left]. }
      split; [done|]. intros He. destruct (Hn He) as (H1 & (extra & -> & _) & H3). split; [done|split].
      * eexists. rewrite <- app_assoc. split; [done|]. done.
      * intros Hs Hf. apply H3; [done|]. apply Forall_app. split; [done|by constructor].
Qed.

Lemma call_tools_mono calls w runs history records w' runs' history' records' err :
  call_tools (traced exec) ms strategy calls (w, runs) history records = (w', runs', history', records', err) -> runs `prefix_of` runs'.
Proof.
  revert w runs history records. induction calls as [|call calls IH]; intros w runs history records; cbn [call_tools]; [by intros [= <- <- <- <- <-]|].
  rewrite traced_call. destruct (exec w (tc_Name call) (tc_Arguments call)) as [w1 [e|v]]; cbn [fst snd].
  - destruct (String.eqb strategy "continue"); [|intros [= <- <- <- <- <-]; by apply prefix_app_r].
    intros H%IH. etrans; [|exact H]. by apply prefix_app_r.
  - intros H%IH. etrans; [|exact H]. by apply prefix_app_r.
Qed.

(** What a run of the loop adds. *)
Lemma ask_loop_spec n p log w runs history records p' log' w' runs' a :
  ask_loop (logged generate) (traced exec) ms prompt tools strategy n (p, log) (w, runs) history records = ((p', log'), (w', runs'), a) ->
  dialogue history records -> runs = record_call <$> records -> (strategy <> "continue" -> Forall no_error records) ->
  exists more, log' = log ++ more /\ (length more <= n)%nat /\ grows more /\ (forall h, head more = Some h -> h = history) /\
  Forall (fun h => exists recs, dialogue h recs /\ record_call <$> recs `prefix_of` runs') more /\ runs `prefix_of` runs' /\
  match a with
  | Answered text recs => text <> "" /\ runs' = record_call <$> recs /\ (exists h, last more = Some h /\ dialogue h recs) /\
                          (strategy <> "continue" -> Forall no_error recs)
  | AskFailed recs _ => runs' = record_call <$> recs
  | AskPanicked => True
  end.
Proof.
  revert p log w runs history records. induction n as [|n IH]; intros p log w runs history records; cbn [ask_loop].
  - intros [= <- <- <- <- <-] Hd -> _. exists []. split; [by rewrite app_nil_r|]. split; [done|]. split; [intros ? ? ? [=]|]. done.
  - unfold logged at 1. cbn [fst snd]. destruct (generate p prompt tools history) as [p1 [res|e|]].
    + destruct (rs_ToolCalls res) as [|call calls] eqn:Ecalls.
      * intros [= <- <- <- <- <-] Hd -> Hs. exists [history]. split; [done|]. split; [simpl; lia|].
        split; [by intros [|i] ? ? ? ?|]. split; [by intros h [= <-]|]. split; [constructor; [by exists records|constructor]|].
        split; [done|]. destruct (String.eqb_spec (rs_Text res) ""); [done|]. by split; [|split; [|split; [exists history|]]].
      * destruct (call_tools (traced exec) ms strategy (call :: calls) (w, runs) history records) as [[[[w1 runs1] history1] records1] err] eqn:Ec.
        intros H Hd -> Hs. pose proof (call_tools_mono _ _ _ _ _ _ _ _ _ _ Ec) as Hp. pose proof (call_tools_spec _ _ _ _ _ _ _ _ _ _ Ec Hd eq_refl) as [Hr Hn].
        destruct err as [e|].
        -- simplify_eq. exists [history]. split; [done|]. split; [simpl; lia|]. split; [by intros [|i] ? ? ? ?|].
           split; [by intros h [= <-]|]. split; [constructor; [exists records; by split|constructor]|]. done.
        -- destruct (Hn eq_refl) as (Hd1 & (extra & -> & He) & Hs1).
           apply IH in H as (more & -> & Hl & Hg & Hh & Hf & Hp' & Ha); [|done|done|auto].
           exists (history :: more). split; [by rewrite <- app_assoc|]. split; [simpl; lia|]. split.
           { intros [|i] h h' H0 H1; [|by apply (Hg i)]. injection H0 as <-. change (more !! 0%nat = Some h') in H1. rewrite <- head_lookup in H1.
             apply Hh in H1 as ->. exists extra. split; [by apply He|done]. }
           split; [by intros h [= <-]|]. split.
           { constructor; [|done]. exists records. split; [done|]. by etrans. }
           split; [by etrans|]. destruct a as [text recs|recs e|]; [|done|done].
           destruct Ha as (H1 & H2 & (h & H3 & H4) & H5). split; [done|]. split; [done|]. split; [|done]. exists h. split; [|done].
           by destruct more as [|x more]; [|rewrite last_cons, H3].
    + intros [= <- <- <- <- <-] Hd -> _. exists [history]. split; [done|]. split; [simpl; lia|]. split; [by intros [|i] ? ? ? ?|].
      split; [by intros h [= <-]|]. split; [constructor; [by exists records|constructor]|]. done.
    + intros [= <- <- <- <- <-] Hd -> _. exists [history]. split; [done|]. split; [simpl; lia|]. split; [by intros [|i] ? ? ? ?|].
      split; [by intros h [= <-]|]. split; [constructor; [by exists records|constructor]|]. done.
Qed.
End Spec.

Lemma ask_loop_length {P W} (generate : Provider P) (exec : ToolExecutor W) ms prompt tools strategy n p log w history records p' log' w' a :
  ask_loop (logged generate) exec ms prompt tools strategy n (p, log) w history records = ((p', log'), w', a) -> (length log' <= length log + n)%nat.
Proof.
  revert p log w history records. induction n as [|n IH]; intros p log w history records; cbn [ask_loop]; [intros [= <- <- <- <-]; lia|].
  unfold logged at 1. cbn [fst snd]. destruct (generate p prompt tools history) as [p1 res]. intros H.
  assert (length (log ++ [history]) = S (length log)) as Hl by (rewrite length_app; simpl; lia).
  destruct res as [res|e|]; [|by injection H as <- <- <- <-; lia..]. destruct (rs_ToolCalls res); [by injection H as <- <- <- <-; lia|].
  destruct (call_tools _ _ _ _ _ _ _) as [[[w1 h1] records1] [e|]]; [by injection H as <- <- <- <-; lia|]. apply IH in H. lia.
Qed.

(** ** The rounds of a conversation *)

(** The turns of one answer: each of its calls with its result. *)
Definition round_turns (calls : list ToolCall) (results : list value) : list Turn :=
  concat (zip_with (fun call v => [assistant_turn call; tool_turn (tc_Name call) v]) calls results).

(** A history made of rounds whose answers satisfy [R]. *)
Definition in_rounds (R : Result -> Prop) (h : list Turn) : Prop :=
  exists rounds : list (Result * list value),
    Forall (fun r => R r.1 /\ rs_ToolCalls r.1 <> [] /\ length r.2 = length (rs_ToolCalls r.1)) rounds /\
    h = rounds ≫= fun r => round_turns (rs_ToolCalls r.1) r.2.

Lemma call_tools_turns {W} (exec : ToolExecutor W) ms strategy calls w history records w' history' records' :
  call_tools exec ms strategy calls w history records = (w', history', records', None) ->
  exists results, length results = length calls /\ history' = history ++ round_turns calls results.
Proof.
  revert w history records. induction calls as [|call calls IH]; intros w history records; cbn [call_tools].
  - intros [= <- <- <-]. exists []. by rewrite app_nil_r.
  - destruct (exec w (tc_Name call) (tc_Arguments call)) as [w1 [e|v]]; cbv beta iota zeta.
    + destruct (String.eqb strategy "continue"); [|done]. intros H%IH. destruct H as (results & Hl & ->).
      exists (error_result (Error e) :: results). split; [simpl; by rewrite Hl|]. by rewrite <- !app_assoc.
    + intros H%IH. destruct H as (results & Hl & ->). exists (v :: results). split; [simpl; by rewrite Hl|]. by rewrite <- !app_assoc.
Qed.

Lemma ask_loop_rounds {P W} (generate : Provider P) (exec : ToolExecutor W) ms prompt tools strategy (R : Result -> Prop) n p log w history records p' log' w' a :
  (forall p history, match (generate p prompt tools history).2 with Generated r => R r | _ => True end) ->
  ask_loop (logged generate) exec ms prompt tools strategy n (p, log) w history records = ((p', log'), w', a) ->
  in_rounds R history -> Forall (in_rounds R) log -> Forall (in_rounds R) log'.
Proof.
  intros Hg. revert p log w history records. induction n as [|n IH]; intros p log w history records; cbn [ask_loop]; [by intros [= <- <- <- <-]|].
  unfold logged at 1. cbn [fst snd]. specialize (Hg p history). destruct (generate p prompt tools history) as [p1 res]. cbn [snd] in Hg.
  intros H Hh Hl. assert (Forall (in_rounds R) (log ++ [history])) as Hl' by (apply Forall_app; split; [done|by constructor]).
  destruct res as [res|e|]; [|by simplify_eq..]. destruct (rs_ToolCalls res) as [|call calls] eqn:Ec; [by simplify_eq|].
  destruct (call_tools exec ms strategy (call :: calls) w history records) as [[[w1 history1] records1] [e|]] eqn:Et; [by simplify_eq|].
  apply call_tools_turns in Et as (results & Hr & ->). eapply IH; [exact H| |done].
  destruct Hh as (rounds & Hf & ->). exists (rounds ++ [(res, results)]). split.
  - apply Forall_app. split; [done|]. constructor; [|constructor]. cbn [fst snd]. rewrite Ec. by split.
  - rewrite bind_app. cbn [mbind list_bind fst snd]. by rewrite Ec, app_nil_r.
Qed.

(** Every question of a conversation is made of the rounds before it. *)
Lemma Ask_rounds {P W} (generate : Provider P) (exec : ToolExecutor W) ms (R : Result -> Prop) p w tools prompt opts p' log w' a :
  (forall p history, match (generate p prompt tools history).2 with Generated r => R r | _ => True end) ->
  Ask (Some (logged generate)) (Some exec) ms (p, []) w tools prompt opts = ((p', log), w', a) -> Forall (in_rounds R) log.
Proof.
  intros Hg. unfold Ask. destruct (String.eqb prompt ""); [by intros [= <- <- <- <-]|].
  intros H. eapply ask_loop_rounds; [exact Hg|exact H| |constructor]. exists []. by split.
Qed.

Definition pair_turns (p : ToolCall * value) : list Turn := [assistant_turn p.1; tool_turn (tc_Name p.1) p.2].

Lemma in_rounds_pairs R h : in_rounds R h -> exists pairs, h = pairs ≫= pair_turns.
Proof.
  intros (rounds & _ & ->). exists (rounds ≫= fun r => zip (rs_ToolCalls r.1) r.2). induction rounds as [|[r vs] rounds IH]; [done|].
  rewrite !bind_cons, bind_app, IH. f_equal. cbn [fst snd]. revert vs. induction (rs_ToolCalls r) as [|c cs IHc]; intros [|v vs]; try done.
  unfold round_turns. cbn [zip zip_with concat]. rewrite bind_cons. by rewrite <- IHc.
Qed.

(** Asking is a bounded conversation: whatever the provider answers and the tools return,
    the provider is asked no more often than the limit on steps; each question repeats the
    one before it and adds to it, and is a dialogue in which every tool call is followed at
    once by its own result; the records name exactly the calls that were run, in order; and
    an answer is a text that is not empty, given on the last question, after no failed call
    unless failures are to be continued. *)
Theorem Ask_conversation {P W} (generate : Provider P) (exec : ToolExecutor W) ms p w tools prompt opts p' log w' runs a :
  Ask (Some (logged generate)) (Some (traced exec)) ms (p, []) (w, []) tools prompt opts = ((p', log), (w', runs), a) ->
  Z.of_nat (length log) <= steps_of opts /\ grows log /\
  Forall (fun h => exists recs, dialogue h recs /\ record_call <$> recs `prefix_of` runs) log /\
  match a with
  | Answered text recs => text <> "" /\ runs = record_call <$> recs /\ (exists h, last log = Some h /\ dialogue h recs) /\
                          (strategy_of opts <> "continue" -> Forall no_error recs)
  | AskFailed recs _ => runs = record_call <$> recs
  | AskPanicked => True
  end.
Proof.
  assert (0 < steps_of opts) as Hs by (unfold steps_of; destruct (Z.leb_spec (ao_MaxSteps opts) 0); lia).
  unfold Ask. destruct (String.eqb prompt "").
  - intros [= <- <- <- <- <-]. split; [simpl; lia|]. split; [by intros ? ? ? [=]|done].
  - intros H. apply ask_loop_spec in H as (more & -> & Hl & Hg & _ & Hf & _ & Ha); [|constructor|done|constructor].
    split; [simpl; lia|]. done.
Qed.

(** A provider that calls a tool once, then answers with the number of turns it was shown. *)
Definition shy : Provider nat := fun n prompt tools history =>
  (S n, Generated (if (n =? 0)%nat then mkResult "" [mkToolCall "find" "{}" "" [] false] else mkResult (Itoa (Z.of_nat (length history))) [])).
Definition tool_box : ToolExecutor Z := fun w name params => (w + 1, if String.eqb name "find" then inr (VNum "3") else inl (ErrText "unknown")).

Lemma Ask_conversation_witness :
  Ask (Some (logged shy)) (Some (traced tool_box)) (fun _ => 7) (O, []) (0, []) [] "how many?" (mkAskOptions 4 "") =
    (2%nat, [[]; [assistant_turn (mkToolCall "find" "{}" "" [] false); tool_turn "find" (VNum "3")]], (1, [("find", "{}")]),
     Answered "2" [mkToolCallRecord "find" "{}" (VNum "3") "" 7]) /\
  (2 <= steps_of (mkAskOptions 4 "") /\ grows [[]; [assistant_turn (mkToolCall "find" "{}" "" [] false); tool_turn "find" (VNum "3")]]).
Proof.
  match goal with |- ?E /\ _ => assert E as H by (vm_compute; reflexivity) end.
  split; [exact H|]. apply Ask_conversation in H as (H1 & H2 & _). split; [exact H1|exact H2].
Defined.
