(* ===== verification/Providers.v ===== *)
(** The OpenAI and Anthropic clients ([internal/llm/openai.go], [anthropic.go]): the request
    built from a conversation, the exchange, and the answer read back.  The text of a request
    and the decoding of a response are parameters, as is the network. *)

From S2P Require Import Prelude GoRuntime GoText PlanRef Registry Llm.
Open Scope Z_scope.

(** ** The exchange *)

(** What a POST came to: a request that cannot be made, one that fails on the way, or a
    status with a body, unless reading it fails. *)
Inductive exchange := NoRequest (msg : string) | TransportError (msg : string) | Responded (status : Z) (body : string + string).

(** The part of the three [Generate] methods that follows the exchange; [inl] is the text of
    a read error. *)
Definition read_exchange (provider : string) (parse : string -> generated) (x : exchange) : generated :=
  match x with
  | NoRequest msg => GenerateFailed (ErrText msg)
  | TransportError msg | Responded _ (inl msg) => GenerateFailed (ErrProvider (mkProviderError provider 0 true msg))
  | Responded status (inr body) =>
    if (status <? 200) || (300 <=? status)
    then GenerateFailed (ErrProvider (mkProviderError provider status ((status =? 429) || (500 <=? status)) body))
    else parse body
  end.

(** [strings.TrimRight(s, "/")]. *)
Definition trim_slashes (s : string) : string := String.rev (trim_left (String.length s) ["/"] (String.rev s)).

(** [http.Client.Do] on a URL, headers and a body. *)
Definition Network (N : Type) : Type := N -> string -> list (string * string) -> string -> N * exchange.

Definition object_type_schema : string := "{" +:+ quote +:+ "type" +:+ quote +:+ ":" +:+ quote +:+ "object" +:+ quote +:+ "}".

(** ** Anthropic ([anthropic.go]) *)

Record anthropicTool := mkAnthropicTool { at_Name : string; at_Description : string; at_InputSchema : string }.

(** A content block: [text], [tool_use] or [tool_result]; other types are kept by name. *)
Inductive anthropicContentBlock :=
| TextBlock (text : string)
| ToolUse (id name input : string)
| ToolResultBlock (toolUseID content : string)
| OtherBlock (type_ : string).

Inductive anthropicContent := PlainText (text : string) | Blocks (blocks : list anthropicContentBlock).

Record anthropicMessage := mkAnthropicMessage { am_Role : string; am_Content : anthropicContent }.

Record anthropicRequest := mkAnthropicRequest {
  ar_Model : string; ar_MaxTokens : Z; ar_Messages : list anthropicMessage; ar_Tools : list anthropicTool
}.

(** [json.Marshal] of a request, and [json.Unmarshal] of a response into its blocks. *)
Class AnthropicJson := {
  EncodeAnthropic : anthropicRequest -> option string;
  DecodeAnthropic : string -> option (list anthropicContentBlock)
}.

Section Anthropic.
Context `{J : Json} `{AJ : AnthropicJson}.

Definition anthropicVersion : string := "2023-06-01".

Definition anthropic_tool (t : ToolDefinition) : anthropicTool :=
  mkAnthropicTool (td_Name t) (td_Description t) (if String.eqb (td_InputSchema t) "" then object_type_schema else td_InputSchema t).

(** The loop over the history: [nextToolID] and [lastToolID] are its state. *)
Fixpoint anthropic_turns (nextToolID : Z) (lastToolID : string) (history : list Turn) : llm_error + list anthropicMessage :=
  match history with
  | [] => inr []
  | turn :: history =>
    match tn_ToolCall turn, tn_ToolResult turn with
    | Some call, _ =>
      let toolID := "toolu_waylog_" +:+ Itoa nextToolID in
      let input := if String.eqb (tc_Arguments call) "" then "{}" else tc_Arguments call in
      match anthropic_turns (nextToolID + 1) toolID history with
      | inl err => inl err
      | inr msgs => inr (mkAnthropicMessage "assistant" (Blocks [ToolUse toolID (tc_Name call) input]) :: msgs)
      end
    | None, Some result =>
      let toolID := if String.eqb lastToolID "" then "toolu_waylog_0" else lastToolID in
      match Marshal (tr_Result result) with
      | None => inl (ErrText "anthropic: marshal tool result")
      | Some payload =>
        match anthropic_turns nextToolID lastToolID history with
        | inl err => inl err
        | inr msgs => inr (mkAnthropicMessage "user" (Blocks [ToolResultBlock toolID payload]) :: msgs)
        end
      end
    | None, None =>
      match anthropic_turns nextToolID lastToolID history with
      | inl err => inl err
      | inr msgs => inr (if negb (String.eqb (tn_Text turn) "") then mkAnthropicMessage "assistant" (PlainText (tn_Text turn)) :: msgs else msgs)
      end
    end
  end.

Definition anthropic_request (model prompt : string) (tools : list ToolDefinition) (history : list Turn) : llm_error + anthropicRequest :=
  match anthropic_turns 1 "" history with
  | inl err => inl err
  | inr msgs =>
    inr (mkAnthropicRequest (if String.eqb model "" then defaultAnthropicModel else model) 1024
           (mkAnthropicMessage "user" (PlainText prompt) :: msgs) (anthropic_tool <$> tools))
  end.

Definition parseAnthropicResponse (body : string) : generated :=
  match DecodeAnthropic body with
  | None => GenerateFailed (ErrText "anthropic: invalid response")
  | Some blocks =>
    Generated (foldl (fun out block =>
      match block with
      | TextBlock text => mkResult (rs_Text out +:+ text) (rs_ToolCalls out)
      | ToolUse _ name input =>
        mkResult (rs_Text out) (rs_ToolCalls out ++ [mkToolCall name (if String.eqb input "" then "{}" else input) "" [] false])
      | _ => out
      end) (mkResult "" []) blocks)
  end.

Definition AnthropicGenerate {N} (net : Network N) (apiKey model baseURL : string) : Provider N := fun n prompt tools history =>
  if String.eqb apiKey "" then (n, GenerateFailed (ErrText "anthropic api key required")) else
  match anthropic_request model prompt tools history with
  | inl err => (n, GenerateFailed err)
  | inr req =>
    match EncodeAnthropic req with
    | None => (n, GenerateFailed (ErrText "anthropic: marshal request"))
    | Some body =>
      let baseURL := if String.eqb baseURL "" then defaultAnthropicBaseURL else baseURL in
      let '(n, x) := net n (trim_slashes baseURL +:+ "/messages")
        [("Content-Type", "application/json"); ("x-api-key", apiKey); ("anthropic-version", anthropicVersion)] body in
      (n, read_exchange "anthropic" parseAnthropicResponse x)
    end
  end.
End Anthropic.

(** ** OpenAI ([openai.go]) *)

Inductive openAIInput :=
| RawItem (raw : string)
| InputMessage (role content : string)
| FunctionCallInput (callID name arguments : string)
| FunctionOutputInput (callID output : string).

Record openAITool := mkOpenAITool { ot_Name : string; ot_Description : string; ot_Parameters : string }.

Record openAIRequest := mkOpenAIRequest { or_Model : string; or_Input : list openAIInput; or_Tools : list openAITool }.

(** The parts of a message's content, as their types and texts. *)
Record openAIOutputItem := mkOpenAIOutputItem {
  oi_Type : string; oi_CallID : string; oi_Name : string; oi_Arguments : string; oi_Content : list (string * string)
}.

Record openAIResponse := mkOpenAIResponse { op_OutputText : string; op_Output : list string }.

Class OpenAIJson := {
  EncodeOpenAI : openAIRequest -> option string;
  DecodeOpenAI : string -> option openAIResponse;
  DecodeOutputItem : string -> option openAIOutputItem
}.

Section OpenAI.
Context `{J : Json} `{OJ : OpenAIJson}.

Definition openai_tool (t : ToolDefinition) : openAITool :=
  mkOpenAITool (td_Name t) (td_Description t) (if String.eqb (td_InputSchema t) "" then object_type_schema else td_InputSchema t).

Definition cons_input (items : list openAIInput) (rest : llm_error + list openAIInput) : llm_error + list openAIInput :=
  match rest with inl err => inl err | inr rest => inr (items ++ rest) end.

Fixpoint openai_turns (nextCallID : Z) (lastCallID : string) (history : list Turn) : llm_error + list openAIInput :=
  match history with
  | [] => inr []
  | turn :: history =>
    match tn_ToolCall turn, tn_ToolResult turn with
    | Some call, _ =>
      let callID := if negb (String.eqb (tc_ProviderID call) "") then tc_ProviderID call else "call_waylog_" +:+ Itoa nextCallID in
      let rest := openai_turns (nextCallID + 1) callID history in
      match tc_ProviderRawItems call with
      | [] =>
        if negb (tc_ProviderRawIncluded call)
        then cons_input [FunctionCallInput callID (tc_Name call) (if String.eqb (tc_Arguments call) "" then "{}" else tc_Arguments call)] rest
        else rest
      | items => cons_input (RawItem <$> items) rest
      end
    | None, Some result =>
      let callID := if String.eqb lastCallID "" then "call_waylog_0" else lastCallID in
      match Marshal (tr_Result result) with
      | None => inl (ErrText "openai: marshal tool result")
      | Some payload => cons_input [FunctionOutputInput callID payload] (openai_turns nextCallID lastCallID history)
      end
    | None, None =>
      let rest := openai_turns nextCallID lastCallID history in
      if negb (String.eqb (tn_Text turn) "") then cons_input [InputMessage "assistant" (tn_Text turn)] rest else rest
    end
  end.

Definition openai_request (model prompt : string) (tools : list ToolDefinition) (history : list Turn) : llm_error + openAIRequest :=
  match openai_turns 1 "" history with
  | inl err => inl err
  | inr items =>
    inr (mkOpenAIRequest (if String.eqb model "" then defaultOpenAIModel else model) (InputMessage "user" prompt :: items) (openai_tool <$> tools))
  end.

(** The loop over the output items; the first call carries them all. *)
Fixpoint openai_items (rawItems : list string) (rawAttached : bool) (output : list string) (out : Result) : option Result :=
  match output with
  | [] => Some out
  | raw :: output =>
    match DecodeOutputItem raw with
    | None => None
    | Some item =>
      if String.eqb (oi_Type item) "function_call" then
        let args := if String.eqb (oi_Arguments item) "" then "{}" else oi_Arguments item in
        let call := if negb rawAttached then mkToolCall (oi_Name item) args (oi_CallID item) rawItems false
                    else mkToolCall (oi_Name item) args (oi_CallID item) [] true in
        openai_items rawItems true output (mkResult (rs_Text out) (rs_ToolCalls out ++ [call]))
      else if String.eqb (oi_Type item) "message" && String.eqb (rs_Text out) "" then
        let text := foldl (fun text part => if String.eqb part.1 "output_text" || String.eqb part.1 "text" then text +:+ part.2 else text)
                      (rs_Text out) (oi_Content item) in
        openai_items rawItems rawAttached output (mkResult text (rs_ToolCalls out))
      else openai_items rawItems rawAttached output out
    end
  end.

Definition parseOpenAIResponse (body : string) : generated :=
  match DecodeOpenAI body with
  | None => GenerateFailed (ErrText "openai: invalid response")
  | Some resp =>
    match openai_items (op_Output resp) false (op_Output resp) (mkResult (op_OutputText resp) []) with
    | None => GenerateFailed (ErrText "openai: invalid output item")
    | Some out => Generated out
    end
  end.

Definition OpenAIGenerate {N} (net : Network N) (apiKey model baseURL : string) : Provider N := fun n prompt tools history =>
  if String.eqb apiKey "" then (n, GenerateFailed (ErrText "openai api key required")) else
  match openai_request model prompt tools history with
  | inl err => (n, GenerateFailed err)
  | inr req =>
    match EncodeOpenAI req with
    | None => (n, GenerateFailed (ErrText "openai: marshal request"))
    | Some body =>
      let baseURL := if String.eqb baseURL "" then defaultOpenAIBaseURL else baseURL in
      let '(n, x) := net n (trim_slashes baseURL +:+ "/responses")
        [("Content-Type", "application/json"); ("Authorization", "Bearer " +:+ apiKey)] body in
      (n, read_exchange "openai" parseOpenAIResponse x)
    end
  end.
End OpenAI.

(** ** What the requests are worth *)

(** A result of the history that has no JSON text. *)
Definition unencodable `{J : Json} (h : list Turn) : Prop :=
  exists turn result, turn ∈ h /\ tn_ToolResult turn = Some result /\ Marshal (tr_Result result) = None.

Lemma unencodable_cons `{J : Json} turn h : unencodable h -> unencodable (turn :: h).
Proof. intros (t & r & Ht & H). exists t, r. split; [by right|done]. Qed.

(** The ids of the tool uses of a conversation, when every one is answered by the next
    message and the two sides alternate. *)
Fixpoint answered_uses (msgs : list anthropicMessage) : option (list string) :=
  match msgs with
  | [] => Some []
  | mkAnthropicMessage ra (Blocks [ToolUse id _ _]) :: mkAnthropicMessage rb (Blocks [ToolResultBlock id' _]) :: msgs =>
    if String.eqb ra "assistant" && String.eqb rb "user" && String.eqb id id' then cons id <$> answered_uses msgs else None
  | _ => None
  end.

(** What the messages endpoint asks of a conversation: it opens with the user, the sides
    alternate, each tool use is answered by the next message, and ids are not used twice. *)
Definition valid_messages (prompt : string) (msgs : list anthropicMessage) : Prop :=
  match msgs with
  | [] => False
  | first :: msgs => first = mkAnthropicMessage "user" (PlainText prompt) /\ exists ids, answered_uses msgs = Some ids /\ NoDup ids
  end.

Section AnthropicSpec.
Context `{J : Json}.

Lemma anthropic_turns_error k last h e : anthropic_turns k last h = inl e -> unencodable h.
Proof.
  revert k last e. induction h as [|turn h IH]; intros k last e; [done|]. cbn [anthropic_turns].
  destruct (tn_ToolCall turn) as [call|].
  - destruct (anthropic_turns _ _ h) eqn:E; [|done]. intros _. eapply unencodable_cons, IH, E.
  - destruct (tn_ToolResult turn) as [result|] eqn:Er.
    + destruct (Marshal (tr_Result result)) eqn:Em; [|intros _; exists turn, result; by split; [left|]].
      destruct (anthropic_turns _ _ h) eqn:E; [|done]. intros _. eapply unencodable_cons, IH, E.
    + destruct (anthropic_turns _ _ h) eqn:E; [|by destruct (negb _)]. intros _. eapply unencodable_cons, IH, E.
Qed.

Definition anthropic_id (k : Z) : string := "toolu_waylog_" +:+ Itoa k.

Lemma anthropic_turns_pairs k last pairs msgs : anthropic_turns k last (pairs ≫= pair_turns) = inr msgs ->
  answered_uses msgs = Some (anthropic_id <$> seqZ k (Z.of_nat (length pairs))).
Proof.
  revert k last msgs. induction pairs as [|[call v] pairs IH]; intros k last msgs; [by intros [= <-]|].
  rewrite bind_cons. unfold pair_turns at 1. cbn [app fst snd anthropic_turns assistant_turn tool_turn tn_ToolCall tn_ToolResult].
  fold (anthropic_id k). destruct (Marshal _); [|done]. destruct (anthropic_turns _ _ _) eqn:E; [done|]. intros [= <-].
  replace (if String.eqb (anthropic_id k) "" then "toolu_waylog_0" else anthropic_id k) with (anthropic_id k) by done.
  cbn [answered_uses]. rewrite !String.eqb_refl. cbn [andb].
  apply IH in E as ->. cbn [length]. rewrite Nat2Z.inj_succ, (seqZ_cons k) by lia. cbn [fmap option_fmap option_map list_fmap]. rewrite Z.pred_succ. by rewrite Z.add_1_r.
Qed.

Lemma anthropic_ids_NoDup k n : NoDup (anthropic_id <$> seqZ k n).
Proof. apply NoDup_fmap_2; [|apply NoDup_seqZ]. intros a b. unfold anthropic_id, Itoa. simpl. intros [= H]. apply (inj pretty). exact H. Qed.
End AnthropicSpec.

(** ** OpenAI's calls are answered by their ids *)

Section OpenAISpec.
Context `{J : Json} `{OJ : OpenAIJson}.

(** The ids of the function calls among output items. *)
Definition call_ids (raws : list string) : list string :=
  omap (fun raw => item ← DecodeOutputItem raw; if String.eqb (oi_Type item) "function_call" then Some (oi_CallID item) else None) raws.

Lemma openai_turns_error k last h e : openai_turns k last h = inl e -> unencodable h.
Proof.
  assert (forall items r e, cons_input items r = inl e -> r = inl e) as Hc by (by intros ? [] ?).
  revert k last e. induction h as [|turn h IH]; intros k last e; [done|]. cbn [openai_turns].
  destruct (tn_ToolCall turn) as [call|].
  - destruct (tc_ProviderRawItems call); [destruct (negb (tc_ProviderRawIncluded call))|]; intros H; try apply Hc in H; eapply unencodable_cons, IH, H.
  - destruct (tn_ToolResult turn) as [result|] eqn:Er.
    + destruct (Marshal (tr_Result result)) eqn:Em; [|intros _; exists turn, result; by split; [left|]].
      intros H%Hc. eapply unencodable_cons, IH, H.
    + destruct (negb (String.eqb (tn_Text turn) "")); intros H; try apply Hc in H; eapply unencodable_cons, IH, H.
Qed.

(** The calls of an answer: the first carries the raw items, the others are among them. *)
Definition attached (raws : list string) (calls : list ToolCall) : Prop :=
  match calls with
  | [] => True
  | call :: calls => tc_ProviderRawItems call = raws /\
      Forall (fun c => tc_ProviderRawItems c = [] /\ tc_ProviderRawIncluded c = true) calls
  end.

Lemma openai_items_spec raws was output out out' : openai_items raws was output out = Some out' ->
  attached raws (rs_ToolCalls out) -> (was = false <-> rs_ToolCalls out = []) ->
  attached raws (rs_ToolCalls out') /\ tc_ProviderID <$> rs_ToolCalls out' = (tc_ProviderID <$> rs_ToolCalls out) ++ call_ids output.
Proof.
  revert was out. induction output as [|raw output IH]; intros was out; cbn [openai_items]; [intros [= <-] Ha _; by rewrite app_nil_r|].
  unfold call_ids. cbn [omap list_omap]. fold (call_ids output). destruct (DecodeOutputItem raw) as [item|]; [|done]. cbn [mbind option_bind].
  destruct (String.eqb (oi_Type item) "function_call").
  - intros H Ha Hw. apply IH in H as [H1 H2]; cbn [rs_ToolCalls] in *.
    + split; [done|]. rewrite H2, fmap_app, <- app_assoc. by destruct was.
    + destruct was; cbn [negb].
      * destruct (rs_ToolCalls out) as [|c cs]; [by specialize (proj2 Hw eq_refl)|]. destruct Ha as [Ha Hf]. split; [done|].
        apply Forall_app. split; [done|by constructor].
      * rewrite (proj1 Hw) by done. by split.
    + split; [done|]. by destruct (rs_ToolCalls out).
  - intros H Ha Hw. destruct (String.eqb (oi_Type item) "message" && String.eqb (rs_Text out) ""); by apply IH in H.
Qed.

Lemma openai_included k last calls results tail items :
  Forall (fun c => tc_ProviderRawItems c = [] /\ tc_ProviderRawIncluded c = true) calls -> Forall (fun c => tc_ProviderID c <> "") calls ->
  length results = length calls -> openai_turns k last (round_turns calls results ++ tail) = inr items ->
  exists payloads k' last' rest, length payloads = length calls /\ openai_turns k' last' tail = inr rest /\
    items = zip_with FunctionOutputInput (tc_ProviderID <$> calls) payloads ++ rest.
Proof.
  revert k last results items. induction calls as [|call calls IH]; intros k last [|v results] items Hf Hid Hl H; try done.
  - exists [], k, last, items. done.
  - apply Forall_cons in Hf as [[Hr Hi] Hf]. apply Forall_cons in Hid as [Hid0 Hid]. simpl in Hl.
    unfold round_turns in H. cbn [zip_with concat app openai_turns assistant_turn tool_turn tn_ToolCall tn_ToolResult] in H.
    rewrite Hr, Hi in H. cbn [negb] in H. destruct (String.eqb_spec (tc_ProviderID call) ""); [done|]. cbn [negb] in H.
    destruct (Marshal _) as [payload|]; [|done]. destruct (openai_turns _ _ (_ ++ tail)) as [e|items'] eqn:E; [done|]. injection H as <-.
    apply IH in E as (payloads & k' & last' & rest & H1 & H2 & ->); [|done|done|lia].
    exists (payload :: payloads), k', last', rest. split; [simpl; lia|split; [done|]].
    destruct (String.eqb_spec (tc_ProviderID call) ""); done.
Qed.

Lemma openai_round k last raws calls results tail items : attached raws calls -> raws <> [] -> calls <> [] ->
  Forall (fun c => tc_ProviderID c <> "") calls -> length results = length calls ->
  openai_turns k last (round_turns calls results ++ tail) = inr items ->
  exists payloads k' last' rest, length payloads = length calls /\ openai_turns k' last' tail = inr rest /\
    items = (RawItem <$> raws) ++ zip_with FunctionOutputInput (tc_ProviderID <$> calls) payloads ++ rest.
Proof.
  destruct calls as [|call calls]; [done|]. destruct results as [|v results]; [done|]. intros [Hr Hf] Hraws _ Hid Hl H.
  apply Forall_cons in Hid as [Hid0 Hid]. simpl in Hl.
  unfold round_turns in H. cbn [zip_with concat app openai_turns assistant_turn tool_turn tn_ToolCall tn_ToolResult] in H.
  destruct (String.eqb_spec (tc_ProviderID call) "") as [|Hne]; [done|]. cbn [negb] in H. rewrite Hr in H. destruct raws as [|raw raws]; [done|].
  destruct (Marshal _) as [payload|]; [|done]. destruct (openai_turns _ _ (_ ++ tail)) as [e|items'] eqn:E; [done|]. injection H as <-.
  apply openai_included in E as (payloads & k' & last' & rest & H1 & H2 & ->); [|done|done|lia].
  exists (payload :: payloads), k', last', rest. split; [simpl; lia|split; [done|]].
  destruct (String.eqb_spec (tc_ProviderID call) ""); done.
Qed.

(** An answer that was read from a response. *)
Definition read_back (r : Result) : Prop :=
  exists resp, openai_items (op_Output resp) false (op_Output resp) (mkResult (op_OutputText resp) []) = Some r.

Lemma call_ids_nonempty raws : (forall raw item, DecodeOutputItem raw = Some item -> oi_Type item = "function_call" -> oi_CallID item <> "") ->
  Forall (fun id => id <> "") (call_ids raws).
Proof.
  intros Hids. apply Forall_forall. intros id Hin. apply list_elem_of_omap in Hin as (raw & _ & Hraw).
  destruct (DecodeOutputItem raw) as [item|] eqn:Ed; [|done]. cbn [mbind option_bind] in Hraw.
  destruct (String.eqb_spec (oi_Type item) "function_call"); [|done]. injection Hraw as <-. by eapply Hids.
Qed.

Lemma openai_rounds (rounds : list (Result * list value)) k last items :
  (forall raw item, DecodeOutputItem raw = Some item -> oi_Type item = "function_call" -> oi_CallID item <> "") ->
  Forall (fun r => read_back r.1 /\ rs_ToolCalls r.1 <> [] /\ length r.2 = length (rs_ToolCalls r.1)) rounds ->
  openai_turns k last (rounds ≫= fun r => round_turns (rs_ToolCalls r.1) r.2) = inr items ->
  exists done : list (list string * list string), Forall (fun r => call_ids r.1 <> [] /\ length r.2 = length (call_ids r.1)) done /\
    items = (done ≫= fun r => (RawItem <$> r.1) ++ zip_with FunctionOutputInput (call_ids r.1) r.2).
Proof.
  intros Hids. revert k last items. induction rounds as [|[r vs] rounds IH]; intros k last items Hf; [intros [= <-]; by exists []|].
  apply Forall_cons in Hf as [([resp Hr] & Hne & Hl) Hf]. cbn [fst snd] in *. rewrite bind_cons. cbn [fst snd].
  apply openai_items_spec in Hr as [Ha Hi]; [|done|done]. cbn [rs_ToolCalls fmap list_fmap app] in Hi.
  assert (call_ids (op_Output resp) <> []) as Hc by (rewrite <- Hi; by destruct (rs_ToolCalls r)).
  assert (op_Output resp <> []) as Ho by (intros Ho; by rewrite Ho in Hc).
  assert (Forall (fun c => tc_ProviderID c <> "") (rs_ToolCalls r)) as Hid.
  { apply (Forall_fmap tc_ProviderID (fun id => id <> "")). rewrite Hi. by apply call_ids_nonempty. }
  intros H. apply (openai_round _ _ (op_Output resp)) in H as (payloads & k' & last' & rest & H1 & H2 & ->); [|done..].
  destruct (IH _ _ _ Hf H2) as (dn & Hd & ->). exists ((op_Output resp, payloads) :: dn). split.
  - constructor; [|done]. cbn [fst snd]. split; [done|]. by rewrite H1, <- Hi, length_fmap.
  - rewrite bind_cons. cbn [fst snd]. by rewrite Hi, <- app_assoc.
Qed.
End OpenAISpec.

Section Conversations.
Context `{J : Json} {N W : Type} (net : Network N) (exec : ToolExecutor W) (ms : nat -> Z).

Lemma read_exchange_inv provider parse x r : read_exchange provider parse x = Generated r -> exists body, parse body = Generated r.
Proof. destruct x as [| |status [|body]]; try done. unfold read_exchange. destruct (_ || _); [done|]. by exists body. Qed.

(** Every request to Anthropic is a conversation its endpoint takes: in whatever way the
    model answers and the tools return, each question of [Ask] becomes messages that open
    with the prompt and then alternate, each tool use with an id of its own and answered by
    the very next message; a question has no request only when a tool's result has no JSON
    text. *)
Theorem anthropic_conversation `{AJ : AnthropicJson} key model base n w tools prompt opts n' log w' a :
  Ask (Some (logged (AnthropicGenerate net key model base))) (Some exec) ms (n, []) w tools prompt opts = ((n', log), w', a) ->
  Forall (fun h => match anthropic_request model prompt tools h with
                   | inl _ => unencodable h
                   | inr req => valid_messages prompt (ar_Messages req)
                   end) log.
Proof.
  intros H. apply (Ask_rounds _ _ _ (fun _ => True)) in H.
  2: { intros p history. by destruct (AnthropicGenerate _ _ _ _ _ _ _ _).2. }
  eapply Forall_impl; [exact H|]. intros h Hh. apply in_rounds_pairs in Hh as [pairs ->]. unfold anthropic_request.
  destruct (anthropic_turns 1 "" _) as [e|msgs] eqn:E; [by eapply anthropic_turns_error|].
  apply anthropic_turns_pairs in E. cbn [ar_Messages valid_messages]. split; [done|]. eexists. split; [exact E|]. apply anthropic_ids_NoDup.
Qed.

(** Every request to OpenAI replays its answers and answers their calls: when function
    calls carry their ids, each question of [Ask] becomes the prompt followed, for every
    earlier answer, by the items of that answer as they came, once, and then one output for
    each of its function calls, in order, under that call's id. *)
Theorem openai_conversation `{OJ : OpenAIJson} key model base n w tools prompt opts n' log w' a :
  (forall raw item, DecodeOutputItem raw = Some item -> oi_Type item = "function_call" -> oi_CallID item <> "") ->
  Ask (Some (logged (OpenAIGenerate net key model base))) (Some exec) ms (n, []) w tools prompt opts = ((n', log), w', a) ->
  Forall (fun h => match openai_request model prompt tools h with
                   | inl _ => unencodable h
                   | inr req => exists rounds : list (list string * list string),
                       Forall (fun r => call_ids r.1 <> [] /\ length r.2 = length (call_ids r.1)) rounds /\
                       or_Input req = InputMessage "user" prompt ::
                         (rounds ≫= fun r => (RawItem <$> r.1) ++ zip_with FunctionOutputInput (call_ids r.1) r.2)
                   end) log.
Proof.
  intros Hids H. apply (Ask_rounds _ _ _ read_back) in H.
  2: { intros p history. destruct (_.2) as [r| |] eqn:E; [|done..]. unfold OpenAIGenerate in E. destruct (String.eqb key ""); [done|].
       destruct (openai_request _ _ _ _); [done|]. destruct (EncodeOpenAI _); [|done]. destruct (net _ _ _ _) as [n1 x]. cbn [snd] in E.
       apply read_exchange_inv in E as [body E]. unfold parseOpenAIResponse in E. destruct (DecodeOpenAI body) as [resp|]; [|done].
       destruct (openai_items _ _ _ _) eqn:Ei; [|done]. injection E as <-. by exists resp. }
  eapply Forall_impl; [exact H|]. intros h (rounds & Hf & ->). unfold openai_request.
  destruct (openai_turns 1 "" _) as [e|items] eqn:E; [by eapply openai_turns_error|]. cbn [or_Input].
  eapply openai_rounds in E as (dn & Hd & ->); [|exact Hids|exact Hf]. by exists dn.
Qed.
End Conversations.

(** ** Two conversations *)

(** Responses are named by the network that answers them; a number is its own JSON text. *)
#[local] Instance toy_json : Json :=
  { Unmarshal s := Some (VNum s); UnmarshalObject _ := None; UnmarshalArray _ := None;
    Marshal v := match v with VNum d => Some d | _ => None end; MarshalObject _ := None }.

#[local] Instance toy_openai : OpenAIJson :=
  { EncodeOpenAI req := Some (Itoa (Z.of_nat (length (or_Input req))));
    DecodeOpenAI body := if String.eqb body "calls" then Some (mkOpenAIResponse "" ["reasoning"; "a"; "b"])
                         else if String.eqb body "text" then Some (mkOpenAIResponse "three" []) else None;
    DecodeOutputItem raw := Some (if String.eqb raw "reasoning" then mkOpenAIOutputItem "reasoning" "" "" "" []
                                  else mkOpenAIOutputItem "function_call" ("id_" +:+ raw) "find" "{}" []) }.

#[local] Instance toy_anthropic : AnthropicJson :=
  { EncodeAnthropic req := Some (Itoa (Z.of_nat (length (ar_Messages req))));
    DecodeAnthropic body := if String.eqb body "calls" then Some [TextBlock "let me see"; ToolUse "x" "find" ""; ToolUse "y" "find" "{}"]
                            else if String.eqb body "text" then Some [TextBlock "three"] else None }.

Definition toy_network : Network nat := fun n url headers body => (S n, Responded 200 (inr (if (n =? 0)%nat then "calls" else "text"))).

Definition openai_log : list (list Turn) :=
  let a := mkToolCall "find" "{}" "id_a" ["reasoning"; "a"; "b"] false in
  let b := mkToolCall "find" "{}" "id_b" [] true in
  [[]; [assistant_turn a; tool_turn "find" (VNum "3"); assistant_turn b; tool_turn "find" (VNum "3")]].

Lemma openai_conversation_witness :
  (match openai_request "" "how many?" [] (default [] (openai_log !! 1%nat)) with
   | inr req => or_Input req = [InputMessage "user" "how many?"; RawItem "reasoning"; RawItem "a"; RawItem "b"; FunctionOutputInput "id_a" "3"; FunctionOutputInput "id_b" "3"]
   | inl _ => False
   end) /\
  Forall (fun h => match openai_request "" "how many?" [] h with
                   | inl _ => unencodable h
                   | inr req => exists rounds : list (list string * list string),
                       Forall (fun r => call_ids r.1 <> [] /\ length r.2 = length (call_ids r.1)) rounds /\
                       or_Input req = InputMessage "user" "how many?" ::
                         (rounds ≫= fun r => (RawItem <$> r.1) ++ zip_with FunctionOutputInput (call_ids r.1) r.2)
                   end) openai_log.
Proof.
  split; [vm_compute; reflexivity|].
  assert (Ask (Some (logged (OpenAIGenerate toy_network "key" "" ""))) (Some tool_box) (fun _ => 7) (O, []) 0 [] "how many?" (mkAskOptions 4 "") =
    ((2%nat, openai_log), 2, Answered "three" [mkToolCallRecord "find" "{}" (VNum "3") "" 7; mkToolCallRecord "find" "{}" (VNum "3") "" 7])) as H by (vm_compute; reflexivity).
  apply openai_conversation in H; [exact H|]. intros raw item [= <-]. destruct (String.eqb raw "reasoning"); [done|]. by intros _ [=].
Defined.

Definition anthropic_log : list (list Turn) :=
  let a := mkToolCall "find" "{}" "" [] false in
  [[]; [assistant_turn a; tool_turn "find" (VNum "3"); assistant_turn a; tool_turn "find" (VNum "3")]].

Lemma anthropic_conversation_witness :
  (match anthropic_request "" "how many?" [] (default [] (anthropic_log !! 1%nat)) with
   | inr req => am_Role <$> ar_Messages req = ["user"; "assistant"; "user"; "assistant"; "user"]
   | inl _ => False
   end) /\
  Forall (fun h => match anthropic_request "" "how many?" [] h with
                   | inl _ => unencodable h
                   | inr req => valid_messages "how many?" (ar_Messages req)
                   end) anthropic_log.
Proof.
  split; [vm_compute; reflexivity|].
  assert (Ask (Some (logged (AnthropicGenerate toy_network "key" "" ""))) (Some tool_box) (fun _ => 7) (O, []) 0 [] "how many?" (mkAskOptions 4 "") =
    ((2%nat, anthropic_log), 2, Answered "three" [mkToolCallRecord "find" "{}" (VNum "3") "" 7; mkToolCallRecord "find" "{}" (VNum "3") "" 7])) as H by (vm_compute; reflexivity).
  apply anthropic_conversation in H. exact H.
Defined.
