(* ===== verification/Gemini.v ===== *)
(** The Gemini client ([internal/llm/gemini.go]): its two modes, the prompts of the text
    mode, the tool calls read out of text, the identifiers taken from a prompt, and schemas
    as the service accepts them.  The text of JSON and the network are parameters. *)

From S2P Require Import Prelude GoRuntime GoText PlanRef Registry Llm Providers.
Open Scope Z_scope.

(** ** Text *)

Definition newline : string := String (ascii_of_nat 10) "".
Definition code_fence : string := "```".

(** [strings.LastIndex]. *)
Fixpoint StrLastIndex (s sub : string) : option nat :=
  match s with
  | EmptyString => if String.eqb sub "" then Some O else None
  | String _ rest => match StrLastIndex rest sub with Some n => Some (S n) | None => if HasPrefix s sub then Some O else None end
  end.

(** [strings.Fields]; a round drops a space rune or takes a byte. *)
Fixpoint fields_loop (fuel : nat) (s word : string) : list string :=
  let flush := if String.eqb word "" then [] else [word] in
  match fuel with
  | O => flush
  | S fuel =>
    match s with
    | EmptyString => flush
    | String c rest =>
      match List.find (fun r => HasPrefix s r) all_space_runes with
      | Some r => flush ++ fields_loop fuel (drop_prefix r s) ""
      | None => fields_loop fuel rest (word +:+ String c "")
      end
    end
  end.
Definition Fields (s : string) : list string := fields_loop (S (String.length s)) s "".

Example Fields_ex : Fields "  a bc  d " = ["a"; "bc"; "d"].
Proof. vm_compute. done. Qed.

(** [trimToken]: its cutset is made of ASCII characters. *)
Definition token_cutset : list string :=
  (fun n => String (ascii_of_nat n) "") <$> [32; 9; 10; 13; 34; 39; 96; 46; 44; 59; 58; 40; 41; 91; 93; 123; 125; 60; 62]%nat.
Definition trimToken (token : string) : string :=
  let l := trim_left (String.length token) token_cutset token in
  String.rev (trim_left (String.length l) token_cutset (String.rev l)).

Definition isHexByte (c : ascii) : bool :=
  let n := nat_of_ascii c in
  (48 <=? n)%nat && (n <=? 57)%nat || (97 <=? n)%nat && (n <=? 102)%nat || (65 <=? n)%nat && (n <=? 70)%nat.

Definition isHex (s : string) : bool :=
  if (String.length s <? 16)%nat then false else forallb isHexByte (String.list_ascii_of_string s).

Definition isUUID (s : string) : bool :=
  if negb (String.length s =? 36)%nat then false
  else forallb (fun ic : nat * ascii =>
         if bool_decide (ic.1 ∈ [8; 13; 18; 23]%nat) then Ascii.eqb ic.2 "-"%char else isHexByte ic.2) (imap pair (String.list_ascii_of_string s)).

Example isUUID_ex : (isUUID <$> ["f81d4fae-7dec-11d0-a765-00a0c91e6bf6"; "f81d4fae7dec11d0a76500a0c91e6bf6aaaa"]) = [true; false].
Proof. vm_compute. done. Qed.

(** ** The request and the response *)

Record geminiFunctionCall := mkGeminiFunctionCall { gf_Name : string; gf_Args : option (gmap string value) }.

Record geminiPart := mkGeminiPart { gp_Text : string; gp_FunctionCall : option geminiFunctionCall; gp_FunctionResponse : option (string * value) }.

Record geminiContent := mkGeminiContent { gc_Role : string; gc_Parts : list geminiPart }.

Record geminiFunctionDecl := mkGeminiFunctionDecl { gd_Name : string; gd_Description : string; gd_Parameters : string }.

(** Each group of tools is the list of its declarations; the temperature is always 0.2. *)
Record geminiRequest := mkGeminiRequest { gr_Contents : list geminiContent; gr_Tools : list (list geminiFunctionDecl) }.

Definition text_part (text : string) : geminiPart := mkGeminiPart text None None.

(** [json.Marshal] of a request, [json.Unmarshal] of a response into the parts of its
    candidates, and of a tool call into its name and arguments. *)
Class GeminiJson := {
  EncodeGemini : geminiRequest -> option string;
  DecodeGemini : string -> option (list (list geminiPart));
  DecodeToolCall : string -> option (string * string)
}.

(** ** Identifiers in a prompt *)

Section Gemini.
Context `{J : Json} `{GJ : GeminiJson}.

(** [strings.ToLower]: a rune and its lower case can differ in length. *)
Variable lower : string -> string.

(** [s[i:]], which panics past the end. *)
Definition slice_from (s : string) (i : nat) : option string := if (String.length s <? i)%nat then None else Some (drop_bytes i s).

(** The token after the keyword when it passes the test; [None] is a panic. *)
Definition extract_after (test : string -> bool) (prompt keyword : string) : option string :=
  match StrIndex (lower prompt) keyword with
  | None => Some ""
  | Some idx =>
    rest ← slice_from prompt (idx + String.length keyword);
    match Fields rest with
    | [] => Some ""
    | field :: _ => let candidate := trimToken field in Some (if test candidate then candidate else "")
    end
  end.

Definition extractHexIDAfterKeyword := extract_after isHex.
Definition extractUUIDAfterKeyword := extract_after isUUID.

Definition extract_first (test : string -> bool) (prompt : string) : string :=
  default "" (List.find test (trimToken <$> Fields prompt)).

Definition extractFirstHexID := extract_first isHex.
Definition extractFirstUUID := extract_first isUUID.

Definition extractTraceID (prompt : string) : option string :=
  id ← extractUUIDAfterKeyword prompt "trace";
  if negb (String.eqb id "") then Some id else
  id ← extractHexIDAfterKeyword prompt "trace";
  if negb (String.eqb id "") then Some id else
  let id := extractFirstUUID prompt in
  Some (if negb (String.eqb id "") then id else extractFirstHexID prompt).

(** What becomes of the arguments: replaced, left as they are, or a panic. *)
Inductive filled := Filled (args : string) | Unfilled | FillPanicked.

(** Decoding null leaves a nil map, which cannot be written to. *)
Definition fillToolArgsFromPrompt (tool raw prompt : string) : filled :=
  match (if String.eqb raw "" then Some (Some ∅) else match Unmarshal raw with
         | Some (VMap m) => Some m
         | Some VNull => Some None
         | _ => None
         end) with
  | None => Unfilled
  | Some args =>
    let set :=
      if String.eqb tool "explain_request" then
        match extractTraceID prompt with
        | None => None
        | Some val =>
          if String.eqb val "" then Some args
          else match args with
               | Some m => Some (Some (match m !! "trace_id" with Some _ => m | None => <["trace_id" := VStr val]> m end))
               | None => None
               end
        end
      else Some args in
    match set with
    | None => FillPanicked
    | Some args =>
      match args with
      | Some m => if bool_decide (m = ∅) then Unfilled else match Marshal (VMap (Some m)) with Some out => Filled out | None => Unfilled end
      | None => Unfilled
      end
    end
  end.

(** ** Tools *)

Definition toolExists (name : string) (tools : list ToolDefinition) : bool := existsb (fun t => String.eqb (td_Name t) name) tools.

Definition filterToolsForPrompt (tools : list ToolDefinition) (prompt : string) : list ToolDefinition :=
  let p := lower prompt in
  let add name := match List.find (fun t => String.eqb (td_Name t) name) tools with Some t => [t] | None => [] end in
  let any := existsb (Contains p) in
  if any ["report"] then add "render_triage_report"
  else if any ["triage"; "incident"] then add "triage_incident"
  else if any ["impact"; "affected"; "blast"; "radius"] then add "blast_radius"
  else if any ["trace"; "explain"; "info"; "root cause"; "why did"; "why is"] then add "explain_request"
  else [].

(** [strings.TrimRight] of the newline after the last tool. *)
Definition buildToolList (tools : list ToolDefinition) : string :=
  match tools with
  | [] => "- (no tools available)"
  | _ =>
    let text := String.concat "" ((fun t => "- " +:+ td_Name t +:+ (if negb (String.eqb (td_Description t) "") then ": " +:+ td_Description t else "") +:+ newline) <$> tools) in
    String.rev (trim_left (String.length text) [newline] (String.rev text))
  end.

(** ** The text mode *)

Definition hasToolResult (history : list Turn) : bool := existsb (fun turn => match tn_ToolResult turn with Some _ => true | None => false end) history.

Definition buildAnswerPrompt (prompt : string) (history : list Turn) : string :=
  "User question: " +:+ prompt +:+ newline +:+ newline +:+ "Tool results:" +:+ newline +:+
  String.concat "" ((fun turn => match tn_ToolResult turn with
                                 | None => ""
                                 | Some r => "- " +:+ tr_Name r +:+ ": " +:+ default "" (Marshal (tr_Result r)) +:+ newline
                                 end) <$> history) +:+
  newline +:+ "Provide a concise, structured answer." +:+ newline +:+
  "Format:" +:+ newline +:+
  "Title line summarizing the result." +:+ newline +:+
  "One short explanatory sentence after the title." +:+ newline +:+
  "Then sections with labels and bullet points using `- key: value`." +:+ newline +:+
  "Keep IDs on their own bullet lines for easy copy." +:+ newline +:+
  "If available, include the request type (flow/event) and service path." +:+ newline +:+
  "Do not include raw tool JSON in the response." +:+ newline.

(** The JSON form of a call, as the prompt shows it. *)
Definition call_form (name arguments : string) : string :=
  "{" +:+ quote +:+ "name" +:+ quote +:+ ":" +:+ quote +:+ name +:+ quote +:+ "," +:+ quote +:+ "arguments" +:+ quote +:+ ":" +:+ arguments +:+ "}".

Definition buildTextPrompt (prompt : string) (history : list Turn) (tools : list ToolDefinition) : string :=
  if hasToolResult history then buildAnswerPrompt prompt history else
  "User said: " +:+ prompt +:+ newline +:+
  "Choose exactly one tool from the list below and return ONLY JSON in the form " +:+ call_form "tool_name" "{...}" +:+ "." +:+ newline +:+
  "If none apply, return " +:+ call_form "NO_TOOL" "{}" +:+ "." +:+ newline +:+ newline +:+
  "Available tools:" +:+ newline +:+ buildToolList tools.

Definition stripCodeFences (s : string) : string :=
  let s := TrimSpace s in
  if HasPrefix s code_fence then
    let s := TrimSpace (drop_prefix code_fence s) in
    let s := match StrIndex s newline with Some i => drop_bytes (i + 1) s | None => s end in
    let s := match StrLastIndex s code_fence with Some j => take_bytes j s | None => s end in
    TrimSpace s
  else TrimSpace s.

Definition parseToolCallFromText (text : string) : llm_error + (string * string) :=
  let raw := TrimSpace text in
  if String.eqb raw "" then inl (ErrText "empty tool call response") else
  let raw := stripCodeFences raw in
  match StrIndex raw "{", StrLastIndex raw "}" with
  | Some start, Some end_ =>
    if (end_ <=? start)%nat then inl (ErrText "no json object found in tool call response") else
    match DecodeToolCall (take_bytes (end_ + 1 - start) (drop_bytes start raw)) with
    | None => inl (ErrText "invalid tool call json")
    | Some (name, arguments) =>
      if String.eqb name "" then inl (ErrText "tool call missing name")
      else inr (name, if String.eqb arguments "" then "{}" else arguments)
    end
  | _, _ => inl (ErrText "no json object found in tool call response")
  end.

Definition no_tool_text : string :=
  "I couldn't map that to a tool. Try: " +:+ quote +:+ "show top errors" +:+ quote +:+ ", " +:+ quote +:+ "summarize trace <trace-id>" +:+ quote +:+
  ", or " +:+ quote +:+ "explain request <request-id>" +:+ quote +:+ ".".

Definition parseGeminiTextResponse (body prompt : string) (history : list Turn) (tools : list ToolDefinition) : generated :=
  match DecodeGemini body with
  | None => GenerateFailed (ErrText "gemini: invalid response")
  | Some [] | Some ([] :: _) => GenerateFailed (ErrText "gemini: no candidates")
  | Some ((part :: _) :: _) =>
    if hasToolResult history then Generated (mkResult (TrimSpace (gp_Text part)) []) else
    match parseToolCallFromText (gp_Text part) with
    | inl err => GenerateFailed err
    | inr (name, args) =>
      if String.eqb name "NO_TOOL" then Generated (mkResult no_tool_text [])
      else if negb (toolExists name tools) then GenerateFailed (ErrText ("unsupported tool requested: " +:+ name))
      else match fillToolArgsFromPrompt name args prompt with
           | FillPanicked => GeneratePanicked
           | Filled args => Generated (mkResult "" [mkToolCall name args "" [] false])
           | Unfilled => Generated (mkResult "" [mkToolCall name args "" [] false])
           end
    end
  end.

(** ** The function mode *)

(** [stripAdditionalProperties]. *)
Fixpoint stripAdditionalProperties (v : value) : value :=
  match v with
  | VMap (Some m) => VMap (Some (delete "additionalProperties" (stripAdditionalProperties <$> m)))
  | VList l => VList (stripAdditionalProperties <$> l)
  | v => v
  end.

Definition sanitizeGeminiSchema (raw : string) : string :=
  if String.eqb raw "" then raw
  else match Unmarshal raw with
       | None => raw
       | Some v => default raw (Marshal (stripAdditionalProperties v))
       end.

(** Arguments that are no object are an error; null is a nil map. *)
Definition decodeArgs (raw : string) : option (option (gmap string value)) :=
  if String.eqb raw "" then Some (Some ∅)
  else match Unmarshal raw with Some (VMap m) => Some m | Some VNull => Some None | _ => None end.

Definition gemini_turn (turn : Turn) : option (list geminiContent) :=
  match tn_ToolCall turn, tn_ToolResult turn with
  | Some call, _ =>
    args ← decodeArgs (tc_Arguments call);
    Some [mkGeminiContent "model" [mkGeminiPart "" (Some (mkGeminiFunctionCall (tc_Name call) args)) None]]
  | None, Some r => Some [mkGeminiContent "tool" [mkGeminiPart "" None (Some (tr_Name r, tr_Result r))]]
  | None, None => Some (if negb (String.eqb (tn_Text turn) "") then [mkGeminiContent "model" [text_part (tn_Text turn)]] else [])
  end.

Definition gemini_decl (t : ToolDefinition) : geminiFunctionDecl :=
  mkGeminiFunctionDecl (td_Name t) (td_Description t) (sanitizeGeminiSchema (td_InputSchema t)).

Definition gemini_request (prompt : string) (tools : list ToolDefinition) (history : list Turn) (mode : string) : option geminiRequest :=
  if String.eqb mode "text" then
    Some (mkGeminiRequest [mkGeminiContent "user" [text_part (buildTextPrompt prompt history tools)]] [])
  else
    turns ← mapM gemini_turn history;
    Some (mkGeminiRequest (mkGeminiContent "user" [text_part prompt] :: concat turns)
            (if String.eqb mode "function" && negb (length tools =? 0)%nat then [gemini_decl <$> tools] else [])).

Definition parseGeminiResponse (body : string) : generated :=
  match DecodeGemini body with
  | None => GenerateFailed (ErrText "gemini: invalid response")
  | Some [] => GenerateFailed (ErrText "gemini: no candidates")
  | Some (parts :: _) =>
    Generated (foldl (fun out part =>
      let out := mkResult (rs_Text out +:+ gp_Text part) (rs_ToolCalls out) in
      match gp_FunctionCall part with
      | None => out
      | Some call => mkResult (rs_Text out) (rs_ToolCalls out ++ [mkToolCall (gf_Name call) (default "" (Marshal (VMap (gf_Args call)))) "" [] false])
      end) (mkResult "" []) parts)
  end.

(** ** Generate *)

Definition mode_of (toolMode : string) : string :=
  let mode := lower (TrimSpace toolMode) in if String.eqb mode "" then "text" else mode.

Definition tools_for (mode : string) (tools : list ToolDefinition) (prompt : string) : list ToolDefinition :=
  if String.eqb mode "text" then match filterToolsForPrompt tools prompt with [] => tools | few => few end else tools.

Definition gemini_url (apiKey model baseURL : string) : string :=
  (if String.eqb baseURL "" then defaultGeminiBaseURL else baseURL) +:+ "/models/" +:+
  (if String.eqb model "" then defaultGeminiModel else model) +:+ ":generateContent?key=" +:+ apiKey.

Definition GeminiGenerate {N} (net : Network N) (apiKey model baseURL toolMode : string) : Provider N := fun n prompt tools history =>
  if String.eqb apiKey "" then (n, GenerateFailed (ErrText "gemini api key required")) else
  let mode := mode_of toolMode in
  let tools := tools_for mode tools prompt in
  match gemini_request prompt tools history mode with
  | None => (n, GenerateFailed (ErrText "invalid tool args"))
  | Some req =>
    match EncodeGemini req with
    | None => (n, GenerateFailed (ErrText "gemini: marshal request"))
    | Some body =>
      let '(n, x) := net n (gemini_url apiKey model baseURL) [("Content-Type", "application/json")] body in
      (n, read_exchange "gemini" (if String.eqb mode "text" then fun body => parseGeminiTextResponse body prompt history tools else parseGeminiResponse) x)
    end
  end.
End Gemini.

(** ** The text mode is one question and one answer *)

Section TextMode.
Context `{J : Json} `{GJ : GeminiJson} (lower : string -> string) {N W : Type} (net : Network N) (exec : ToolExecutor W) (ms : nat -> Z).
Context (key model base toolMode : string) (text_mode : mode_of lower toolMode = "text").

Lemma filter_tools_sub tools prompt name : toolExists name (tools_for lower "text" tools prompt) = true -> toolExists name tools = true.
Proof.
  unfold tools_for. change (String.eqb "text" "text") with true. cbv iota.
  assert (forall n t, t ∈ (match List.find (fun t => String.eqb (td_Name t) n) tools with Some t => [t] | None => [] end) -> t ∈ tools) as Hadd.
  { intros n t. destruct (List.find _ tools) eqn:E; [|by intros ?%elem_of_nil]. intros ->%list_elem_of_singleton.
    apply List.find_some in E as [E _]. by apply list_elem_of_In. }
  assert (forall t, t ∈ filterToolsForPrompt lower tools prompt -> t ∈ tools) as Hall.
  { intros t. unfold filterToolsForPrompt. repeat (case_if; [apply Hadd|]). by intros ?%elem_of_nil. }
  destruct (filterToolsForPrompt lower tools prompt) as [|t ts]; [done|]. unfold toolExists. rewrite !existsb_exists.
  intros (x & Hx & Hn). exists x. split; [|done]. apply list_elem_of_In, Hall. by apply list_elem_of_In.
Qed.

(** What a turn in text mode can be. *)
Lemma text_turn n prompt tools h r : (GeminiGenerate lower net key model base toolMode n prompt tools h).2 = Generated r ->
  rs_ToolCalls r = [] \/ (hasToolResult h = false /\ exists call, rs_ToolCalls r = [call] /\ toolExists (tc_Name call) tools = true).
Proof using text_mode.
  unfold GeminiGenerate. rewrite text_mode. destruct (String.eqb key ""); [done|]. destruct (gemini_request _ _ _ _); [|done].
  destruct (EncodeGemini _); [|done]. destruct (net _ _ _ _) as [n1 x]. cbn [snd]. change (String.eqb "text" "text") with true. cbv iota.
  intros H. apply read_exchange_inv in H as [body H]. unfold parseGeminiTextResponse in H.
  destruct (DecodeGemini body) as [[|[|part parts] rest]|]; [done|done| |done]. destruct (hasToolResult h); [injection H as <-; by left|].
  destruct (parseToolCallFromText _) as [|[name args]]; [done|]. destruct (String.eqb name "NO_TOOL"); [injection H as <-; by left|].
  destruct (toolExists name (tools_for lower "text" tools prompt)) eqn:Et; [|done]. apply filter_tools_sub in Et. cbn [negb] in H. right. split; [done|].
  destruct (fillToolArgsFromPrompt _ _ _ _); [| |done]; injection H as <-; by eexists.
Qed.

Definition settled (tools : list ToolDefinition) (log : list (list Turn)) (runs : list (string * string)) : Prop :=
  (length log <= 2)%nat /\ (length runs <= 1)%nat /\ Forall (fun run => toolExists run.1 tools = true) runs.

#[local] Ltac settle := intros [= <- <- <- <- <-]; split; [simpl; lia|split; [simpl; lia|by repeat constructor]].

(** The second question. *)
Lemma text_answer n1 w1 tools prompt call v steps strategy records n' log w' runs a : toolExists (tc_Name call) tools = true ->
  ask_loop (logged (GeminiGenerate lower net key model base toolMode)) (traced exec) ms prompt tools strategy steps (n1, [[]])
    (w1, [(tc_Name call, tc_Arguments call)]) [assistant_turn call; tool_turn (tc_Name call) v] records = ((n', log), (w', runs), a) ->
  settled tools log runs.
Proof using text_mode.
  intros Hex. destruct steps as [|steps]; cbn [ask_loop]; [settle|].
  unfold logged at 1. cbn [fst snd]. set (h := [assistant_turn call; _]). pose proof (text_turn n1 prompt tools h) as Hh.
  destruct (GeminiGenerate _ _ _ _ _ _ n1 prompt tools h) as [n2 res]. cbn [snd] in Hh.
  destruct res as [res| |]; [|settle..]. destruct (Hh res eq_refl) as [->|[Hno _]]; [settle|done].
Qed.

(** In text mode a question is settled in two exchanges: whatever the model writes, [Ask]
    puts at most two questions to it and runs at most one tool, which is one of those it
    was offered. *)
Theorem text_mode_settles n w tools prompt opts n' log w' runs a :
  Ask (Some (logged (GeminiGenerate lower net key model base toolMode))) (Some (traced exec)) ms (n, []) (w, []) tools prompt opts = ((n', log), (w', runs), a) ->
  (length log <= 2)%nat /\ (length runs <= 1)%nat /\ Forall (fun run => toolExists run.1 tools = true) runs.
Proof using text_mode.
  unfold Ask. destruct (String.eqb prompt ""); [settle|]. destruct (Z.to_nat (steps_of opts)) as [|steps]; cbn [ask_loop]; [settle|].
  unfold logged at 1. cbn [fst snd]. pose proof (text_turn n prompt tools []) as Ht.
  destruct (GeminiGenerate _ _ _ _ _ _ n prompt tools []) as [n1 res]. cbn [snd] in Ht. destruct res as [res| |]; [|settle..].
  destruct (Ht res eq_refl) as [->|(_ & call & -> & Hex)]; [settle|].
  cbn [call_tools]. rewrite traced_call. destruct (exec w (tc_Name call) (tc_Arguments call)) as [w1 called]. cbn [fst snd app].
  destruct called as [e|v]; [destruct (String.eqb (strategy_of opts) "continue"); [|settle]|]; by apply text_answer.
Qed.
End TextMode.

(** ** Schemas *)

(** No object of the value has the key. *)
Inductive without (key : string) : value -> Prop :=
| without_leaf v : match v with VList _ | VMap (Some _) => False | _ => True end -> without key v
| without_list l : (forall v, v ∈ l -> without key v) -> without key (VList l)
| without_map m : m !! key = None -> (forall k v, m !! k = Some v -> without key v) -> without key (VMap (Some m)).

(** A schema sent to Gemini has no [additionalProperties] at any depth. *)
Theorem stripAdditionalProperties_without v : without "additionalProperties" (stripAdditionalProperties v).
Proof.
  induction v as [v Hv|l IH|m IH] using value_induction.
  - destruct v as [| | | | | |[]]; done || by constructor.
  - cbn [stripAdditionalProperties]. apply without_list. intros v (x & -> & Hx)%list_elem_of_fmap. by apply IH.
  - cbn [stripAdditionalProperties]. apply without_map; [apply lookup_delete_eq|]. intros k v [_ Hk]%lookup_delete_Some.
    rewrite lookup_fmap in Hk. apply fmap_Some in Hk as (x & Hx & ->). by eapply IH.
Qed.

(** ** A run, and what can go wrong *)

#[local] Instance toy_json : Json :=
  { Unmarshal s := if String.eqb s "null" then Some VNull else if String.eqb s "{}" then Some (VMap (Some ∅)) else None;
    UnmarshalObject _ := None; UnmarshalArray _ := None;
    Marshal v := match v with VNum d => Some d | VMap (Some m) => Some ("trace_id=" +:+ as_string (m !! "trace_id")) | _ => None end;
    MarshalObject _ := None }.

(** A response is its text; a call is a name and arguments between braces. *)
#[local] Instance toy_gemini : GeminiJson :=
  { EncodeGemini req := Some (Itoa (Z.of_nat (length (gr_Contents req))));
    DecodeGemini body := Some [[text_part body]];
    DecodeToolCall raw := if String.eqb raw "{explain}" then Some ("explain_request", "{}")
                          else if String.eqb raw "{explain null}" then Some ("explain_request", "null") else None }.

Definition toy_network : Network nat := fun n url headers body =>
  (S n, Responded 200 (inr (if (n =? 0)%nat then "```json" +:+ newline +:+ "{explain}" +:+ newline +:+ "```" else "It failed."))).
Definition explain_tool : ToolDefinition := mkToolDefinition "explain_request" "Explain a request" "".
Definition trace_prompt : string := "why did trace 0123456789abcdef fail?".
Definition explain_box : ToolExecutor Z := fun w name params => (w + 1, inr (VNum "3")).

Definition gemini_log : list (list Turn) :=
  [[]; [assistant_turn (mkToolCall "explain_request" "trace_id=0123456789abcdef" "" [] false); tool_turn "explain_request" (VNum "3")]].

Lemma text_mode_settles_witness :
  mode_of ToLower " TEXT" = "text" /\
  settled [explain_tool] gemini_log [("explain_request", "trace_id=0123456789abcdef")].
Proof.
  assert (mode_of ToLower " TEXT" = "text") as Hm by (vm_compute; reflexivity). split; [exact Hm|].
  assert (Ask (Some (logged (GeminiGenerate ToLower toy_network "key" "" "" " TEXT"))) (Some (traced explain_box)) (fun _ => 7) (O, []) (0, [])
    [explain_tool] trace_prompt (mkAskOptions 4 "") =
    ((2%nat, gemini_log), (1, [("explain_request", "trace_id=0123456789abcdef")]),
     Answered "It failed." [mkToolCallRecord "explain_request" "trace_id=0123456789abcdef" (VNum "3") "" 7])) as H by (vm_compute; reflexivity).
  apply text_mode_settles in H; [exact H|exact Hm].
Defined.

(** A model that calls the tool with null for its arguments crashes the request: null leaves
    a nil map, and the trace of the prompt is written to it. *)
Theorem null_arguments_panic :
  parseGeminiTextResponse ToLower "{explain null}" trace_prompt [] [explain_tool] = GeneratePanicked.
Proof. vm_compute. reflexivity. Qed.

(** [strings.ToLower] where U+023A, two bytes, becomes U+2C65, three bytes. *)
Fixpoint lower_023a (s : string) : string :=
  match s with
  | String a (String b rest as s0) =>
    if String.eqb (String a (String b "")) (bytes_string [200; 186]%nat) then bytes_string [226; 177; 165]%nat +:+ lower_023a rest
    else String (lower_byte a) (lower_023a s0)
  | String a "" => String (lower_byte a) ""
  | EmptyString => ""
  end.

(** An offset into the lowered prompt is used in the prompt itself: after a letter that
    grows when lowered it can be past the end, and the slice panics. *)
Theorem lowered_offset_panics : extractTraceID lower_023a (bytes_string [200; 186]%nat +:+ " trace") = None.
Proof. vm_compute. reflexivity. Qed.

(** The key is part of the URL and the error of a failed exchange quotes its URL, as
    [net/http] does: so the error that [Ask] returns, which is shown to the caller, contains
    the key. *)
Theorem transport_error_reveals_key `{J : Json} `{GJ : GeminiJson} {N} (net : Network N) lower key model base mode n prompt tools h e :
  (forall n url headers body n' msg, net n url headers body = (n', TransportError msg) ->
     exists cause, msg = "Post " +:+ quote +:+ url +:+ quote +:+ ": " +:+ cause) ->
  (forall n url headers body, exists msg, (net n url headers body).2 = TransportError msg) ->
  (GeminiGenerate lower net key model base mode n prompt tools h).2 = GenerateFailed (ErrProvider e) ->
  exists before after, Error (ErrProvider e) = before +:+ key +:+ after.
Proof.
  intros Hquote Hdown. unfold GeminiGenerate. destruct (String.eqb key ""); [done|]. destruct (gemini_request _ _ _ _); [|done].
  destruct (EncodeGemini _) as [body|]; [|done]. destruct (net _ _ _ _) as [n1 x] eqn:En. cbn [snd].
  destruct (Hdown n (gemini_url key model base) [("Content-Type", "application/json")] body) as [msg Hmsg].
  rewrite En in Hmsg. cbn [snd] in Hmsg. subst x. apply Hquote in En as [cause ->]. cbn [read_exchange]. intros [= <-].
  unfold Error, ProviderError_Error, gemini_url. cbn [pv_Provider pv_Message pv_StatusCode]. change (0 <? 0) with false. cbv iota.
  set (b := if String.eqb base "" then _ else _). set (m := if String.eqb model "" then _ else _). clearbody b m.
  exists ("gemini" +:+ ": " +:+ "Post " +:+ quote +:+ b +:+ "/models/" +:+ m +:+ ":generateContent?key="), (quote +:+ ": " +:+ cause).
  rewrite string_app_nil_r, !string_app_assoc. reflexivity.
Qed.
