(* ===== verification/Server.v ===== *)
(** The agent endpoints of the first-generation server ([internal/ingest/handler.go],
    [envelope.go]): direct tool calls, questions and plans, with the envelope they answer in,
    the idempotency cache they share and the safety net that releases a slot.  JSON decoding,
    media types and the texts of plan errors (their quoting and the messages of
    [encoding/json]) are parameters; the metrics, the log lines and the deadline that [Ask]
    puts on its context are left out. *)

From S2P Require Import Prelude GoRuntime GoText IngestHttp PlanRef Registry Plan Llm Providers Gemini RateLimit Idempotency.
Open Scope Z_scope.

(** ** The envelope ([envelope.go]) *)

Definition apiVersion : string := "2026-03-02".

Record APIMeta := mkAPIMeta { mt_RequestID : string; mt_DurationMs : Z; mt_DataStatus : string; mt_Cached : bool }.

(** A request as the handlers read it: [aq_Envelope] is the query parameter, [aq_RequestID]
    what the correlation middleware put in the context, the body a reader. *)
Record ApiRequest := mkApiRequest { aq_http : HttpRequest; aq_Path : string; aq_Envelope : string; aq_RequestID : string; aq_Body : reader }.

(** What is written: an error as text, data as JSON, or both in the envelope. *)
Inductive written :=
| ErrorBody (msg : string)
| JsonBody (data : option value)
| EnvelopeBody (data : option value) (meta : APIMeta) (err : option APIError).

(** A response with the headers the code sets. *)
Record Response := mkResponse { rp_Status : Z; rp_Header : list (string * string); rp_Body : written }.

Definition envelope_header : list (string * string) :=
  [("Content-Type", "application/json"); ("Waylog-API-Version", apiVersion); ("Vary", "Accept")].
Definition json_header : list (string * string) := [("Content-Type", "application/json")].

Definition writeJSON (status : Z) (data : option value) (meta : APIMeta) (apiErr : option APIError) : Response :=
  mkResponse status envelope_header (EnvelopeBody data meta apiErr).

Definition writeError (status : Z) (code msg : string) (retryable : bool) (meta : APIMeta) : Response :=
  writeJSON status None meta (Some (mkAPIError code msg retryable)).

Section Envelope.
(** [mime.ParseMediaType]: the type and its parameters. *)
Variable ParseMedia : string -> option (string * gmap string string).

Definition wantsEnvelope (r : ApiRequest) : bool :=
  if String.eqb (aq_Envelope r) "v2" then true
  else
    let accept := rq_Header (aq_http r) "Accept" in
    if String.eqb accept "" then false
    else existsb (fun token =>
           match ParseMedia (TrimSpace token) with
           | Some (mediaType, params) => String.eqb mediaType "application/json" && bool_decide (params !! "envelope" = Some "v2")
           | None => false
           end) (Split accept ","%char).

Definition respondError (r : ApiRequest) (status : Z) (code msg : string) (retryable : bool) (meta : APIMeta) : Response :=
  if wantsEnvelope r then writeError status code msg retryable meta else mkResponse status [] (ErrorBody msg).

(** The last lines of the handlers. *)
Definition respondData (r : ApiRequest) (data : option value) (meta : APIMeta) : Response :=
  if wantsEnvelope r then writeJSON 200 data meta None else mkResponse 200 json_header (JsonBody data).

Definition replayDedupEntry (r : ApiRequest) (entry : dedupEntry) (reqID : string) : Response :=
  let meta := mkAPIMeta reqID (de_DurationMs entry) (match de_Err entry with Some _ => "error" | None => "complete" end) true in
  if wantsEnvelope r then writeJSON (de_Status entry) (de_Data entry) meta (de_Err entry)
  else match de_Err entry with
       | Some err => mkResponse (de_Status entry) [] (ErrorBody (ae_Message err))
       | None => mkResponse (de_Status entry) json_header (JsonBody (de_Data entry))
       end.
End Envelope.

(** ** The caller ([handler.go]) *)

Definition clientIP (r : HttpRequest) (trustProxy : bool) : string :=
  let xff := rq_Header r "X-Forwarded-For" in
  if trustProxy && negb (String.eqb xff "") then TrimSpace (default "" (head (Split xff ","%char)))
  else default (rq_RemoteAddr r) (SplitHost (rq_RemoteAddr r)).

Definition toolErrorToHTTPStatus (te : ToolError) : Z :=
  let code := te_Code te in
  if String.eqb code CodeInvalidParams then 400
  else if String.eqb code CodeNotFound then 404
  else if String.eqb code CodeEmptyResult then 200
  else if String.eqb code CodeTimeout then 504
  else if String.eqb code CodeInternal then 500
  else if String.eqb code CodeGraphEmpty then 503
  else 500.

Definition allowedErrorLabels : list string :=
  [CodeInvalidParams; CodeNotFound; CodeEmptyResult; CodeTimeout; CodeInternal; CodeGraphEmpty;
   "PROVIDER_ERROR"; "PAYLOAD_TOO_LARGE"; "CONFLICT"; "SERVICE_UNAVAILABLE"; "METHOD_NOT_ALLOWED"; "UNAUTHORIZED"].

Definition normalizeErrorCode (err : llm_error) : string :=
  match err with
  | ErrProvider _ => "PROVIDER_ERROR"
  | ErrTool te _ => if bool_decide (te_Code te ∈ allowedErrorLabels) then te_Code te else "INTERNAL"
  | ErrContext _ => "TIMEOUT"
  | ErrText _ => "INTERNAL"
  end.

(** ** The server *)

(** What [AcquireOrWait] returned; a wait is aborted by a deadline or by the client. *)
Inductive acquisition := Execute | Replay (entry : dedupEntry) | Conflicting | WaitAborted (deadline : bool).

(** A call of [Complete]: the key and hash it is made with, and the response. *)
Record completion := mkCompletion { cp_key : string; cp_hash : list Z; cp_Status : Z; cp_Data : option value; cp_Err : option APIError; cp_DurationMs : Z }.

Section Server.
Context {N W : Type} `{J : Json}.

(** The fields of [Server] the endpoints read: [sv_dedup] says whether there is a cache,
    [sv_planStore] whether there is a plan store. *)
Record Server := mkServer {
  sv_maxBodyBytes : Z;
  sv_registry : option (Registry W);
  sv_askProvider : option (Provider N);
  sv_askMaxStepsDefault : Z;
  sv_askMaxStepsMax : Z;
  sv_dedup : bool;
  sv_agentKey : string;
  sv_trustProxy : bool;
  sv_planStore : bool
}.

(** The defaults of [NewServer]. *)
Definition NewServer (cfg : Server) : Server :=
  let maxBody := if sv_maxBodyBytes cfg =? 0 then 2 ^ 20 else sv_maxBodyBytes cfg in
  let def := if sv_askMaxStepsDefault cfg <=? 0 then 5 else sv_askMaxStepsDefault cfg in
  let max := if sv_askMaxStepsMax cfg <=? 0 then 8 else sv_askMaxStepsMax cfg in
  let max := if max <? def then def else max in
  mkServer maxBody (sv_registry cfg) (sv_askProvider cfg) def max (sv_dedup cfg) (sv_agentKey cfg) (sv_trustProxy cfg) (sv_planStore cfg).

Definition dedupPrincipal (s : Server) (r : HttpRequest) : string :=
  if negb (String.eqb (sv_agentKey s) "") then Sha256.hex (Sha256.sum256 (sv_agentKey s)) else clientIP r (sv_trustProxy s).

Definition idempotency_key (r : ApiRequest) : string := rq_Header (aq_http r) "Idempotency-Key".

(** Whether the request goes through the cache, and the key it has there. *)
Definition deduplicated (s : Server) (r : ApiRequest) : bool := negb (String.eqb (idempotency_key r) "") && sv_dedup s.
Definition cache_key (s : Server) (r : ApiRequest) : string :=
  dedupCacheKey (rq_Method (aq_http r)) (aq_Path r) (dedupPrincipal s (aq_http r)) (idempotency_key r).

Definition complete_with (s : Server) (r : ApiRequest) (body : string) (status : Z) (data : option value) (err : option APIError) (durationMs : Z) : completion :=
  mkCompletion (cache_key s r) (Sha256.sum256 body) status data err durationMs.

(** What a handler did: to the tools' state, to the cache, and the response, if it wrote one. *)
Abbreviation handled := (N * W * list completion * option Response)%type.

Variable ParseMedia : string -> option (string * gmap string string).

Definition plain_meta (r : ApiRequest) : APIMeta := mkAPIMeta (aq_RequestID r) 0 "" false.

(** The idempotency block of the handlers, with its deferred safety net: [execute] is the
    rest of the handler, given whether it holds a slot. *)
Definition with_dedup (s : Server) (r : ApiRequest) (body : string) (acq : acquisition) (n : N) (w : W)
    (refuse : acquisition -> option Response) (execute : bool -> handled) : handled :=
  if deduplicated s r then
    match acq with
    | Execute =>
      let '(n, w, cps, resp) := execute true in
      (n, w, match cps with
             | [] => [complete_with s r body 500 None (Some (mkAPIError "INTERNAL" "executor failed before completion" true)) 0]
             | cps => cps
             end, resp)
    | acq => (n, w, [], refuse acq)
    end
  else execute false.

(** The refusals of [ToolCall] and [Ask]. *)
Definition refuse_call (r : ApiRequest) (acq : acquisition) : option Response :=
  match acq with
  | WaitAborted true => Some (respondError ParseMedia r 504 "TIMEOUT" "request timeout while waiting for inflight request" true (plain_meta r))
  | WaitAborted false => None
  | Conflicting => Some (respondError ParseMedia r 409 "CONFLICT" "idempotency key conflict: same key, different body" false (plain_meta r))
  | Replay entry => Some (replayDedupEntry ParseMedia r entry (aq_RequestID r))
  | Execute => None
  end.

(** [Complete], when the handler holds the slot. *)
Definition completing (executor : bool) (cp : completion) : list completion := if executor then [cp] else [].

(** A refusal after the slot was taken: the cache and the client are told the same. *)
Definition refuse_with (s : Server) (r : ApiRequest) (body : string) (executor : bool) (status : Z) (code msg : string) (retryable : bool)
    (durationMs : Z) (meta : APIMeta) : list completion * option Response :=
  (completing executor (complete_with s r body status None (Some (mkAPIError code msg retryable)) durationMs),
   Some (respondError ParseMedia r status code msg retryable meta)).

(** [http.MaxBytesReader] and [io.ReadAll]. *)
Definition read_body (s : Server) (r : ApiRequest) : string + Response :=
  let reader := MaxBytesReader (aq_Body r) (sv_maxBodyBytes s) in
  match rd_end reader with
  | Eof => inl (rd_bytes reader)
  | TooLarge => inr (respondError ParseMedia r 413 "PAYLOAD_TOO_LARGE" "request body too large" false (plain_meta r))
  | ReadError _ => inr (respondError ParseMedia r 400 "INVALID_PARAMS" "failed to read body" false (plain_meta r))
  end.

(** ** Tool calls *)

(** [json.Unmarshal] into a [json.RawMessage] only checks the syntax. *)
Variable ValidJson : string -> bool.

Definition tool_params (r : ApiRequest) (body : string) : string + Response :=
  let trimmed := TrimSpace body in
  if String.eqb trimmed "" then inl "{}"
  else if negb (HasPrefix trimmed "{")
  then inr (respondError ParseMedia r 400 "INVALID_PARAMS" "params must be a JSON object" false (plain_meta r))
  else if negb (ValidJson trimmed) then inr (respondError ParseMedia r 400 "INVALID_PARAMS" "invalid json body" false (plain_meta r))
  else inl trimmed.

Definition tool_prefix : string := "/v1/tools/".
Definition tool_name (path : string) : string := if HasPrefix path tool_prefix then drop_bytes (String.length tool_prefix) path else path.

Definition tool_execute (s : Server) (r : ApiRequest) (body toolName params : string) (registry : Registry W) (ms : Z) (n : N) (w : W) (executor : bool) : handled :=
  let '(w, called) := Call registry w toolName params in
  match called with
  | inl err =>
    let te := default (mkToolError CodeInternal (error_text err) false) (AsToolError err) in
    let status := toolErrorToHTTPStatus te in
    let '(cps, resp) := refuse_with s r body executor status (te_Code te) (te_Message te) (te_Retryable te) ms (mkAPIMeta (aq_RequestID r) ms "error" false) in
    (n, w, cps, resp)
  | inr result =>
    (n, w, completing executor (complete_with s r body 200 (Some result) None ms),
     Some (respondData ParseMedia r (Some result) (mkAPIMeta (aq_RequestID r) ms "complete" false)))
  end.

Definition ToolCall (s : Server) (r : ApiRequest) (acq : acquisition) (ms : Z) (n : N) (w : W) : handled :=
  let refuse resp := (n, w, [], Some resp) in
  if negb (String.eqb (rq_Method (aq_http r)) "POST")
  then refuse (respondError ParseMedia r 405 "METHOD_NOT_ALLOWED" "method not allowed" false (plain_meta r))
  else if String.eqb (tool_name (aq_Path r)) ""
  then refuse (respondError ParseMedia r 400 "INVALID_PARAMS" "tool name required" false (plain_meta r))
  else match sv_registry s with
  | None => refuse (respondError ParseMedia r 500 "INTERNAL" "tool registry unavailable" true (plain_meta r))
  | Some registry =>
    match read_body s r with
    | inr resp => refuse resp
    | inl body =>
      match tool_params r body with
      | inr resp => refuse resp
      | inl params => with_dedup s r body acq n w (refuse_call r) (tool_execute s r body (tool_name (aq_Path r)) params registry ms n w)
      end
    end
  end.

(** ** The list of tools *)

Definition optional (name value_ : string) : list (string * value) := if String.eqb value_ "" then [] else [(name, VStr value_)].

(** A raw schema is part of the JSON as it is. *)
Definition raw_schema (name schema : string) : list (string * value) := if String.eqb schema "" then [] else [(name, default VNull (Unmarshal schema))].

Definition tool_entry (t : Tool W) : value :=
  VMap (Some (list_to_map ([("name", VStr (tl_Name t)); ("description", VStr (tl_Description t))] ++ optional "version" (tl_Version t) ++
    raw_schema "input_schema" (tl_InputSchema t) ++ raw_schema "output_schema" (tl_OutputSchema t) ++
    match tl_Examples t with [] => [] | l => [("examples", VList (VStr <$> l))] end))).

Definition Tools (it : MapIter) (s : Server) (r : ApiRequest) : Response :=
  if negb (String.eqb (rq_Method (aq_http r)) "GET") then respondError ParseMedia r 405 "METHOD_NOT_ALLOWED" "method not allowed" false (plain_meta r)
  else match sv_registry s with
  | None => respondError ParseMedia r 500 "INTERNAL" "tool registry unavailable" true (plain_meta r)
  | Some registry =>
    let entries := tool_entry <$> Registry.List it registry in
    respondData ParseMedia r (Some (VMap (Some {["tools" := VList entries; "count" := VInt (Z.of_nat (length entries))]})))
      (mkAPIMeta (aq_RequestID r) 0 "complete" false)
  end.

(** ** Questions *)

Record askRequest := mkAskRequest { ak_Prompt : string; ak_MaxSteps : Z; ak_ErrorStrategy : string; ak_TimeoutMs : Z }.

Variable DecodeAsk : string -> option askRequest.
Variable Getenv : string -> string.
Variable lower Quote : string -> string.
Variable net : Network N.
Context `{AJ : AnthropicJson} `{OJ : OpenAIJson} `{GJ : GeminiJson}.

Definition client_provider (c : Client) : Provider N :=
  match c with
  | GeminiClient key model base mode => GeminiGenerate lower net key model base mode
  | AnthropicClient key model base => AnthropicGenerate net key model base
  | OpenAIClient key model base => OpenAIGenerate net key model base
  end.

Definition not_configured : string := "LLM provider not configured; set WAYLOG_LLM_PROVIDER and provider credentials".

(** The provider, its model and its tool mode. *)
Definition askProviderFromEnv : string + (Provider N * string * string) :=
  match SelectFromEnv Getenv with
  | None => inl ("unknown LLM provider " +:+ Quote (ToLower (TrimSpace (Getenv "WAYLOG_LLM_PROVIDER"))) +:+ "; supported: none, gemini, anthropic, openai")
  | Some sel =>
    match se_Impl sel with
    | Some c => if se_AskEnabled sel then inr (client_provider c, se_Model sel, se_ToolMode sel) else inl not_configured
    | None => inl not_configured
    end
  end.

Definition ask_provider (s : Server) : string + (Provider N * string * string) :=
  match sv_askProvider s with Some p => inr (p, "", "") | None => askProviderFromEnv end.

Definition tool_definition (t : Tool W) : ToolDefinition := mkToolDefinition (tl_Name t) (tl_Description t) (tl_InputSchema t).

(** The limit on steps: what the request asks for, between one and the server's maximum. *)
Definition ask_steps (s : Server) (req : askRequest) : Z :=
  let maxSteps := if 0 <? ak_MaxSteps req then ak_MaxSteps req else sv_askMaxStepsDefault s in
  let maxSteps := if maxSteps <? 1 then 1 else maxSteps in
  if sv_askMaxStepsMax s <? maxSteps then sv_askMaxStepsMax s else maxSteps.

(** The deadline put on the conversation, in milliseconds. *)
Definition ask_timeout (req : askRequest) : Z :=
  let timeoutMs := if ak_TimeoutMs req <=? 0 then 30000 else ak_TimeoutMs req in
  let timeoutMs := if timeoutMs <? 5000 then 5000 else timeoutMs in
  if 60000 <? timeoutMs then 60000 else timeoutMs.

(** The tools as the loop calls them. *)
Definition registry_executor (registry : Registry W) : ToolExecutor W := fun w name params =>
  match Call registry w name params with
  | (w, inl (IsToolError te text)) => (w, inl (ErrTool te text))
  | (w, inl (OtherError text)) => (w, inl (ErrText text))
  | (w, inr v) => (w, inr v)
  end.

Definition decodeJSONRaw (raw : string) : value := if String.eqb raw "" then VNull else default (VStr raw) (Unmarshal raw).

(** [fmt.Sprintf("%v")] of what cannot be encoded is a parameter. *)
Variable Sprint : value -> string.
Definition normalizeJSONValue (v : value) : value :=
  match v with
  | VNull => VNull
  | v => match Marshal v with None => VStr (Sprint v) | Some b => default (VStr b) (Unmarshal b) end
  end.

Definition unless_null (name : string) (v : value) : list (string * value) := match v with VNull => [] | v => [(name, v)] end.

Definition ask_step (i : nat) (rec_ : ToolCallRecord) : value :=
  VMap (Some (list_to_map ([("index", VInt (Z.of_nat i + 1)); ("tool", VStr (rc_Name rec_)); ("duration_ms", VInt (rc_DurationMs rec_))] ++
    unless_null "params" (decodeJSONRaw (rc_Params rec_)) ++ unless_null "result" (normalizeJSONValue (rc_Result rec_)) ++ optional "error" (rc_Error rec_)))).

Definition ask_response (answer model toolMode : string) (durationMs : Z) (records : list ToolCallRecord) : value :=
  VMap (Some (list_to_map ([("answer", VStr answer); ("duration_ms", VInt durationMs)] ++ optional "model" model ++ optional "tool_mode" toolMode ++
    match records with [] => [] | _ => [("steps", VList (imap ask_step records))] end))).

(** The handler after the cache; [clock] is [time.Since(start)], read once or twice, and [ms]
    the time of each tool call. *)
Definition ask_execute (it : MapIter) (s : Server) (r : ApiRequest) (body : string) (req : askRequest) (clock ms : nat -> Z) (n : N) (w : W) (executor : bool) : handled :=
  match ask_provider s with
  | inl err =>
    let '(cps, resp) := refuse_with s r body executor 503 "SERVICE_UNAVAILABLE" err true 0 (plain_meta r) in (n, w, cps, resp)
  | inr (provider, model, toolMode) =>
    match sv_registry s with
    | None =>
      let '(cps, resp) := refuse_with s r body executor 500 "INTERNAL" "tool registry unavailable" true 0 (plain_meta r) in (n, w, cps, resp)
    | Some registry =>
      let defs := tool_definition <$> Registry.List it registry in
      let '(n, w, answer) := Llm.Ask (Some provider) (Some (registry_executor registry)) ms n w defs (ak_Prompt req) (mkAskOptions (ask_steps s req) (ak_ErrorStrategy req)) in
      match answer with
      | AskPanicked => (n, w, [], None)
      | AskFailed _ err =>
        let '(cps, resp) := refuse_with s r body executor 502 (normalizeErrorCode err) ("ask failed: " +:+ Llm.Error err) true (clock O)
                              (mkAPIMeta (aq_RequestID r) (clock 1%nat) "error" false) in
        (n, w, cps, resp)
      | Llm.Answered text records =>
        let data := ask_response text model toolMode (clock O) records in
        (n, w, completing executor (complete_with s r body 200 (Some data) None (clock 1%nat)),
         Some (respondData ParseMedia r (Some data) (mkAPIMeta (aq_RequestID r) (clock 2%nat) "complete" false)))
      end
    end
  end.

Definition Ask (it : MapIter) (s : Server) (r : ApiRequest) (acq : acquisition) (clock ms : nat -> Z) (n : N) (w : W) : handled :=
  let refuse resp := (n, w, [], Some resp) in
  if negb (String.eqb (rq_Method (aq_http r)) "POST")
  then refuse (respondError ParseMedia r 405 "METHOD_NOT_ALLOWED" "method not allowed" false (plain_meta r))
  else match read_body s r with
  | inr resp => refuse resp
  | inl body =>
    match DecodeAsk body with
    | None => refuse (respondError ParseMedia r 400 "INVALID_PARAMS" "invalid json" false (plain_meta r))
    | Some req =>
      let req := mkAskRequest (TrimSpace (ak_Prompt req)) (ak_MaxSteps req) (ak_ErrorStrategy req) (ak_TimeoutMs req) in
      if String.eqb (ak_Prompt req) "" then refuse (respondError ParseMedia r 400 "INVALID_PARAMS" "prompt is required" false (plain_meta r))
      else with_dedup s r body acq n w (refuse_call r) (ask_execute it s r body req clock ms n w)
    end
  end.

(** ** Plans *)

(** [json.Unmarshal] of a plan, or its error, and the texts of the errors of a plan. *)
Class PlanTexts := {
  DecodePlan : string -> string + PlanExecuteRequest;
  expand_text : ExpandError -> string;
  plan_error_text : PlanError -> string;
  ref_error_text : PlanRefError -> string
}.
Context `{TJ : TriageJson} `{PT : PlanTexts}.

Definition step_error (e : PlanStepError) : value :=
  VMap (Some {["code" := VStr (pe_Code e);
               "message" := VStr (match pe_Message e with RefMessage err => ref_error_text err | TextMessage t => t end);
               "retryable" := VBool (pe_Retryable e)]}).

Definition step_value (sr : PlanStepResult) : value :=
  VMap (Some (list_to_map ([("id", VStr (sr_ID sr)); ("index", VInt (sr_Index sr)); ("tool", VStr (sr_Tool sr));
    ("error", default VNull (step_error <$> sr_Error sr)); ("duration_ms", VInt (sr_DurationMs sr))] ++
    unless_null "result" (default VNull (sr_Result sr))))).

Definition plan_value (p : PlanResult) : value :=
  VMap (Some (list_to_map ([("plan_id", VStr (pl_PlanID p)); ("steps", VList (step_value <$> pl_Steps p)); ("completed", VInt (pl_Completed p));
    ("total", VInt (pl_Total p)); ("status", VStr (pl_Status p))] ++
    match pl_HaltedAt p with Some i => [("halted_at", VInt i)] | None => [] end ++
    match pl_Error p with Some e => [("error", step_error e)] | None => [] end))).

(** The identifiers the server makes: of a plan in the store, and of one without. *)
Record PlanIDs := mkPlanIDs { id_stored : string; id_fresh : string }.

Definition refuse_plan (r : ApiRequest) (acq : acquisition) : option Response :=
  match acq with
  | WaitAborted _ => Some (respondError ParseMedia r 503 "TIMEOUT" "request timeout waiting for idempotent result" true (plain_meta r))
  | Conflicting => Some (respondError ParseMedia r 409 "IDEMPOTENCY_CONFLICT" "same idempotency key with different body" false (plain_meta r))
  | Replay entry => Some (replayDedupEntry ParseMedia r entry (aq_RequestID r))
  | Execute => None
  end.

Definition with_header (name value_ : string) (resp : Response) : Response :=
  mkResponse (rp_Status resp) ((name, value_) :: rp_Header resp) (rp_Body resp).

(** [survives]: whether the sends of the plan store go through, which panic on a channel
    closed meanwhile; [calls] is what the executor asked of that store. *)
Definition plan_execute (it : MapIter) (s : Server) (r : ApiRequest) (body : string) (ids : PlanIDs) (clock ms : Z -> Z) (survives : list plan_call -> bool)
    (n : N) (w : W) (executor : bool) : handled :=
  let refuse status code msg retryable dur :=
    let '(cps, resp) := refuse_with s r body executor status code msg retryable dur (plain_meta r) in (n, w, cps, resp) in
  match DecodePlan body with
  | inl err => refuse 400 "BAD_REQUEST" ("invalid JSON: " +:+ err) false (clock 0)
  | inr req =>
    match sv_registry s with
    | None => refuse 500 "INTERNAL" "tool registry not configured" true (clock 0)
    | Some registry =>
      match ExpandPlanRequest req with
      | inl err => refuse 400 "INVALID_PLAN" (expand_text err) false (clock 0)
      | inr steps =>
        match ValidatePlan it registry steps with
        | [] =>
          let planID := if sv_planStore s then id_stored ids else "" in
          let '(w, result, calls) := executePlanWithProgress it registry planID (id_fresh ids) ms steps w in
          if negb (survives calls) then (n, w, [], None) else
          let data := plan_value result in
          let resp := respondData ParseMedia r (Some data) (mkAPIMeta (aq_RequestID r) (clock 0) "complete" false) in
          (n, w, completing executor (complete_with s r body 200 (Some data) None (clock 0)),
           Some (if negb (String.eqb (pl_PlanID result) "") then with_header "X-Plan-ID" (pl_PlanID result) resp else resp))
        | errs => refuse 400 "INVALID_PLAN" (Join "; " (plan_error_text <$> errs)) false (clock 0)
        end
      end
    end
  end.

Definition PlanExecute (it : MapIter) (s : Server) (r : ApiRequest) (acq : acquisition) (ids : PlanIDs) (clock ms : Z -> Z) (survives : list plan_call -> bool)
    (n : N) (w : W) : handled :=
  let refuse resp := (n, w, [], Some resp) in
  if negb (String.eqb (rq_Method (aq_http r)) "POST")
  then refuse (respondError ParseMedia r 405 "METHOD_NOT_ALLOWED" "method not allowed" false (plain_meta r))
  else match IngestHttp.ReadAll (aq_Body r) (sv_maxBodyBytes s) with
  | inr _ => refuse (respondError ParseMedia r 400 "BAD_REQUEST" "failed to read body" false (plain_meta r))
  | inl body => with_dedup s r body acq n w (refuse_plan r) (plan_execute it s r body ids clock ms survives n w)
  end.

(** ** What an executor leaves behind *)

(** The three endpoints that share the cache, with what they are run with. *)
Inductive endpoint :=
| ToolEndpoint (ms : Z)
| AskEndpoint (it : MapIter) (clock ms : nat -> Z)
| PlanEndpoint (it : MapIter) (ids : PlanIDs) (clock ms : Z -> Z) (survives : list plan_call -> bool).

Definition serve (e : endpoint) (s : Server) (r : ApiRequest) (acq : acquisition) (n : N) (w : W) : handled :=
  match e with
  | ToolEndpoint ms => ToolCall s r acq ms n w
  | AskEndpoint it clock ms => Ask it s r acq clock ms n w
  | PlanEndpoint it ids clock ms survives => PlanExecute it s r acq ids clock ms survives n w
  end.

(** The body of a request that gets as far as the idempotency block. *)
Definition accepted (e : endpoint) (s : Server) (r : ApiRequest) : option string :=
  if negb (String.eqb (rq_Method (aq_http r)) "POST") then None else
  match e with
  | ToolEndpoint _ =>
    if String.eqb (tool_name (aq_Path r)) "" then None else
    match sv_registry s with
    | None => None
    | Some _ =>
      match read_body s r with
      | inl body => match tool_params r body with inl _ => Some body | inr _ => None end
      | inr _ => None
      end
    end
  | AskEndpoint _ _ _ =>
    match read_body s r with
    | inl body => match DecodeAsk body with Some req => if String.eqb (TrimSpace (ak_Prompt req)) "" then None else Some body | None => None end
    | inr _ => None
    end
  | PlanEndpoint _ _ _ _ _ => match IngestHttp.ReadAll (aq_Body r) (sv_maxBodyBytes s) with inl body => Some body | inr _ => None end
  end.

(** The body a request asks the cache with. *)
Definition asks_cache (e : endpoint) (s : Server) (r : ApiRequest) : option string := if deduplicated s r then accepted e s r else None.

(** What a response shows, up to the metadata of its envelope: data as its JSON text. *)
Inductive shown := ShownError (msg : string) | ShownJson (text : option (option string)) | ShownEnvelope (text : option (option string)) (err : option APIError).

Definition content (rsp : Response) : Z * shown :=
  (rp_Status rsp, match rp_Body rsp with
                  | ErrorBody msg => ShownError msg
                  | JsonBody d => ShownJson (Marshal <$> d)
                  | EnvelopeBody d _ err => ShownEnvelope (Marshal <$> d) err
                  end).

(** The entry a completion makes, whatever its address and expiry. *)
Definition entry_of (cp : completion) (e : dedupEntry) : Prop :=
  de_Status e = cp_Status cp /\ de_Data e = cp_Data cp /\ de_Err e = cp_Err cp /\ de_DurationMs e = cp_DurationMs cp.

(** A completion and a response that say the same; a handler that crashed wrote nothing. *)
Definition agree (r : ApiRequest) (cp : completion) (resp : option Response) : Prop :=
  match resp with
  | Some rsp => forall e reqID, entry_of cp e -> content (replayDedupEntry ParseMedia r e reqID) = content rsp
  | None => cp_Status cp = 500
  end.

Definition completes (s : Server) (r : ApiRequest) (body : string) (cps : list completion) (resp : option Response) : Prop :=
  exists cp, cps = [cp] /\ cp_key cp = cache_key s r /\ cp_hash cp = Sha256.sum256 body /\ agree r cp resp.

Lemma refuse_with_completes s r body status code msg retryable dur meta cps resp :
  refuse_with s r body true status code msg retryable dur meta = (cps, resp) -> completes s r body cps resp.
Proof.
  intros [= <- <-]. eexists. split; [reflexivity|]. split; [done|]. split; [done|]. intros e reqID (H1 & H2 & H3 & _).
  unfold replayDedupEntry, respondError. rewrite H1, H2, H3. by destruct (wantsEnvelope ParseMedia r).
Qed.

Lemma respond_completes s r body data dur meta :
  completes s r body (completing true (complete_with s r body 200 data None dur)) (Some (respondData ParseMedia r data meta)).
Proof.
  eexists. split; [reflexivity|]. split; [done|]. split; [done|]. intros e reqID (H1 & H2 & H3 & _).
  unfold replayDedupEntry, respondData. rewrite H1, H2, H3. by destruct (wantsEnvelope ParseMedia r).
Qed.

Lemma with_dedup_spec s r body acq n w refuse execute n' w' cps resp :
  (forall n' w' cps resp, execute true = (n', w', cps, resp) -> completes s r body cps resp \/ (cps = [] /\ resp = None)) ->
  (forall n' w' cps resp, execute false = (n', w', cps, resp) -> cps = []) ->
  with_dedup s r body acq n w refuse execute = (n', w', cps, resp) ->
  match acq with Execute => if deduplicated s r then completes s r body cps resp else cps = [] | _ => cps = [] end.
Proof.
  intros He Hf. unfold with_dedup. destruct (deduplicated s r); [|intros H; apply Hf in H; by destruct acq].
  destruct acq; [|by intros [= <- <- <- <-]..]. destruct (execute true) as [[[n1 w1] cps1] resp1] eqn:E. intros [= <- <- <- <-].
  destruct (He _ _ _ _ eq_refl) as [(cp & -> & H)|[-> ->]]; [exists cp; by split|]. eexists. split; [reflexivity|]. done.
Qed.

Definition crashed (cps : list completion) (resp : option Response) : Prop := cps = [] /\ resp = None.

Lemma tool_execute_ok s r body name params reg ms n w b n' w' cps resp :
  tool_execute s r body name params reg ms n w b = (n', w', cps, resp) -> if b then completes s r body cps resp else cps = [].
Proof.
  unfold tool_execute. destruct (Call reg w name params) as [w1 [te|v]].
  - destruct (refuse_with _ _ _ _ _ _ _ _ _ _) as [cps1 resp1] eqn:E. intros [= <- <- <- <-].
    destruct b; [by eapply refuse_with_completes|]. by injection E as <- _.
  - intros [= <- <- <- <-]. destruct b; [apply respond_completes|done].
Qed.

Lemma ask_execute_ok it s r body req clock ms n w b n' w' cps resp :
  ask_execute it s r body req clock ms n w b = (n', w', cps, resp) -> if b then completes s r body cps resp \/ crashed cps resp else cps = [].
Proof.
  assert (forall status code msg retryable dur meta cps resp, refuse_with s r body b status code msg retryable dur meta = (cps, resp) ->
    if b then completes s r body cps resp \/ crashed cps resp else cps = []) as Hrefuse.
  { intros * E. destruct b; [left; by eapply refuse_with_completes|]. by injection E as <- _. }
  unfold ask_execute. destruct (ask_provider s) as [err|[[provider model] mode]].
  { destruct (refuse_with _ _ _ _ _ _ _ _ _ _) eqn:E. intros [= <- <- <- <-]. by eapply Hrefuse. }
  destruct (sv_registry s) as [registry|]; [|destruct (refuse_with _ _ _ _ _ _ _ _ _ _) eqn:E; intros [= <- <- <- <-]; by eapply Hrefuse].
  destruct (Llm.Ask _ _ _ _ _ _ _ _) as [[n1 w1] [text records|records err|]].
  - intros [= <- <- <- <-]. destruct b; [left; apply respond_completes|done].
  - destruct (refuse_with _ _ _ _ _ _ _ _ _ _) eqn:E. intros [= <- <- <- <-]. by eapply Hrefuse.
  - intros [= <- <- <- <-]. destruct b; [by right|done].
Qed.

Lemma agree_header name v r cp rsp : agree r cp (Some rsp) -> agree r cp (Some (with_header name v rsp)).
Proof. done. Qed.

Lemma plan_execute_ok it s r body ids clock ms survives n w b n' w' cps resp :
  plan_execute it s r body ids clock ms survives n w b = (n', w', cps, resp) -> if b then completes s r body cps resp \/ crashed cps resp else cps = [].
Proof.
  assert (forall status code msg retryable dur, (let '(cps, resp) := refuse_with s r body b status code msg retryable dur (plain_meta r) in (n, w, cps, resp)) = (n', w', cps, resp) ->
    if b then completes s r body cps resp \/ crashed cps resp else cps = []) as Hrefuse.
  { intros *. destruct (refuse_with _ _ _ _ _ _ _ _ _ _) eqn:E. intros [= <- <- <- <-]. destruct b; [left; by eapply refuse_with_completes|]. by injection E as <- _. }
  unfold plan_execute. destruct (DecodePlan body) as [err|req]; [apply Hrefuse|]. destruct (sv_registry s) as [registry|]; [|apply Hrefuse].
  destruct (ExpandPlanRequest req) as [err|steps]; [apply Hrefuse|]. destruct (ValidatePlan it registry steps); [|apply Hrefuse].
  destruct (executePlanWithProgress _ _ _ _ _ _ _) as [[w1 result] calls]. destruct (survives calls); cbn [negb].
  - intros [= <- <- <- <-]. destruct b; [left|done]. destruct (respond_completes s r body (Some (plan_value result)) (clock 0) (mkAPIMeta (aq_RequestID r) (clock 0) "complete" false))
      as (cp & H1 & H2 & H3 & H4). exists cp. split; [done|]. split; [done|]. split; [done|]. by destruct (String.eqb (pl_PlanID result) "").
  - intros [= <- <- <- <-]. destruct b; [by right|done].
Qed.

Lemma serve_completes e s r acq n w n' w' cps resp : serve e s r acq n w = (n', w', cps, resp) ->
  match asks_cache e s r, acq with Some body, Execute => completes s r body cps resp | _, _ => cps = [] end.
Proof.
  assert (forall body refuse execute, accepted e s r = Some body ->
    (forall n' w' cps resp, execute true = (n', w', cps, resp) -> completes s r body cps resp \/ crashed cps resp) ->
    (forall n' w' cps resp, execute false = (n', w', cps, resp) -> cps = []) ->
    with_dedup s r body acq n w refuse execute = (n', w', cps, resp) ->
    match asks_cache e s r, acq with Some body, Execute => completes s r body cps resp | _, _ => cps = [] end) as Hd.
  { intros body refuse execute Ha H1 H2 H. apply with_dedup_spec in H; [|done|done]. unfold asks_cache. rewrite Ha. by destruct acq, (deduplicated s r). }
  assert (forall rsp, accepted e s r = None -> (n, w, [], Some rsp) = (n', w', cps, resp) ->
    match asks_cache e s r, acq with Some body, Execute => completes s r body cps resp | _, _ => cps = [] end) as Hn.
  { intros rsp Ha [= _ _ <- _]. unfold asks_cache. rewrite Ha. by destruct (deduplicated s r). }
  revert Hd Hn. unfold accepted. destruct e as [ms|it clock ms|it ids clock ms survives]; cbn [serve]; [unfold ToolCall|unfold Ask|unfold PlanExecute];
    (destruct (negb (String.eqb (rq_Method (aq_http r)) "POST")); [intros _ Hn; by apply Hn|]).
  - destruct (String.eqb (tool_name (aq_Path r)) ""); [intros _ Hn; by apply Hn|]. destruct (sv_registry s) as [registry|]; [|intros _ Hn; by apply Hn].
    destruct (read_body s r) as [body|rsp]; [|intros _ Hn; by apply Hn]. destruct (tool_params r body) as [params|rsp]; [|intros _ Hn; by apply Hn].
    intros Hd _. apply Hd; [done| |]; intros * E; apply tool_execute_ok in E; [by left|done].
  - destruct (read_body s r) as [body|rsp]; [|intros _ Hn; by apply Hn]. destruct (DecodeAsk body) as [req|]; [|intros _ Hn; by apply Hn].
    cbv zeta. cbn [ak_Prompt]. destruct (String.eqb (TrimSpace (ak_Prompt req)) ""); [intros _ Hn; by apply Hn|].
    intros Hd _. apply Hd; [done| |]; intros * E; by apply ask_execute_ok in E.
  - destruct (IngestHttp.ReadAll _ _) as [body|err]; [|intros _ Hn; by apply Hn].
    intros Hd _. apply Hd; [done| |]; intros * E; by apply plan_execute_ok in E.
Qed.

(** ** The server over its cache *)

(** [deepCopyEntry]'s copy of the data of a response. *)
Definition json_copy (v : value) : option value := text ← Marshal v; Unmarshal text.

Lemma Complete_pending k h now status data err d c : pending (Complete k h now status data err d c) !! k = None.
Proof.
  unfold Complete. destruct (pending c !! k) as [id|] eqn:E; [|done]. cbv zeta. cbn [pending]. apply lookup_delete_eq.
Qed.

(** A slot is always released: once a call of one of the endpoints executes, then
    whatever the tools, the model or the plan do, a crash of the handler included, it makes
    exactly one completion, which the cache takes; no call holds the key afterwards, and
    every call that waited for it can go on. *)
Theorem slot_released e s r body n w n' w' cps resp y p now :
  (forall v, is_Some (json_copy v)) -> reachable json_copy y ->
  s_callers y !! p = Some (Executing (cache_key s r) (Sha256.sum256 body)) -> asks_cache e s r = Some body ->
  serve e s r Execute n w = (n', w', cps, resp) ->
  exists cp y', cps = [cp] /\ step json_copy (EComplete p now (cp_Status cp) (cp_Data cp) (cp_Err cp) (cp_DurationMs cp)) y = Some y' /\
    pending (s_cache y') !! cache_key s r = None /\
    forall q h id, s_callers y' !! q = Some (Waiting (cache_key s r) h id) -> is_Some (step json_copy (EWake q) y').
Proof.
  intros Hcopies Hy Hp Ha Hs. apply serve_completes in Hs. rewrite Ha in Hs. destruct Hs as (cp & -> & _).
  set (ev := EComplete p now (cp_Status cp) (cp_Data cp) (cp_Err cp) (cp_DurationMs cp)).
  assert (exists y', step json_copy ev y = Some y' /\ pending (s_cache y') !! cache_key s r = None) as (y' & Hy' & Hn).
  { unfold ev, step. rewrite Hp. eexists. split; [reflexivity|]. apply Complete_pending. }
  exists cp, y'. split; [done|split; [done|split; [done|]]]. intros q h id Hq.
  destruct (reachable_ok json_copy Hcopies y') as (_ & Hc & _); [by eapply reach_step|].
  destruct (co_wait _ Hc _ _ _ _ Hq) as [Hk|(h' & ent & Hf & He)]; [congruence|]. simpl. rewrite Hq, Hf. simpl. by eexists.
Qed.

(** Runs of the server: the cache's own steps, and the calls that execute, with the request,
    the body, the completion and the response of each. *)
Inductive server_run (s : Server) : sys -> list (ApiRequest * string * completion * option Response) -> Prop :=
| run_start : server_run s (mkSys NewDedupCache ∅ []) []
| run_cache ev y y' log : server_run s y log -> match ev with EComplete _ _ _ _ _ _ => False | _ => True end ->
    step json_copy ev y = Some y' -> server_run s y' log
| run_execute e p r body n w n' w' cp resp now y y' log : server_run s y log ->
    s_callers y !! p = Some (Executing (cache_key s r) (Sha256.sum256 body)) -> asks_cache e s r = Some body ->
    serve e s r Execute n w = (n', w', [cp], resp) ->
    step json_copy (EComplete p now (cp_Status cp) (cp_Data cp) (cp_Err cp) (cp_DurationMs cp)) y = Some y' ->
    server_run s y' ((r, body, cp, resp) :: log).

Lemma server_run_reachable s y log : server_run s y log -> reachable json_copy y.
Proof. induction 1; [apply reach_init|by eapply reach_step|by eapply reach_step]. Qed.

Lemma step_executed copy ev y y' : step copy ev y = Some y' -> match ev with EComplete _ _ _ _ _ _ => False | _ => True end -> s_executed y' = s_executed y.
Proof.
  unfold step. destruct ev; intros H Hev; try done; try (destruct (s_callers y !! p) as [[]|]; simplify_eq; done).
  - destruct (s_callers y !! p) as [[]|]; try done. destruct (acquire _ _ _ _) as [a c]. by simplify_eq.
  - destruct (s_callers y !! p) as [[]|]; try done. destruct (deepCopyEntry _ _ _); by simplify_eq.
  - destruct (s_callers y !! p) as [[]|]; try done. destruct (flights _ !! _) as [fl|]; [|done]. simpl in H. destruct (if_done fl); by simplify_eq.
  - by injection H as <-.
Qed.

(** Every response in the cache's history was made by a call of the log. *)
Lemma server_run_executed s y log : server_run s y log -> forall k h ent, (k, h, ent) ∈ s_executed y ->
  exists r body cp resp, (r, body, cp, resp) ∈ log /\ k = cache_key s r /\ h = Sha256.sum256 body /\ entry_of cp ent /\ agree r cp resp.
Proof.
  induction 1 as [|ev y y' log _ IH Hev Hs|e p r body n w n' w' cp resp now y y' log _ IH Hp Ha Hsv Hs]; intros k h ent Hin.
  - by apply elem_of_nil in Hin.
  - rewrite (step_executed _ _ _ _ Hs Hev) in Hin. by apply IH.
  - unfold step in Hs. rewrite Hp in Hs. injection Hs as <-. cbn [s_executed] in Hin. apply elem_of_cons in Hin as [[= -> -> ->]|Hin].
    + apply serve_completes in Hsv. rewrite Ha in Hsv. destruct Hsv as (cp' & [= <-] & _ & _ & Hag).
      exists r, body, cp, resp. split; [by left|]. done.
    + apply IH in Hin as (r0 & body0 & cp0 & resp0 & Hin & H). exists r0, body0, cp0, resp0. split; [by right|done].
Qed.

(** Decoding the data and encoding it again gives the same text. *)
Definition stable (data : option value) : Prop := forall v v', data = Some v -> json_copy v = Some v' -> Marshal v' = Marshal v.

(** C36: A replay is the response: in any run of the server, a call that is answered from the
    cache is answered for a request that was executed under the same key with a body of the
    same hash; what a client is then sent shows the same status, data and error as the
    response of that execution, written for the same format, or the failure recorded for an
    execution that crashed.  The data must survive a round trip through JSON. *)
Theorem replay_is_response s y log p k h ent :
  (forall v, is_Some (json_copy v)) -> server_run s y log -> s_callers y !! p = Some (Answered k h ent) ->
  exists r body cp resp, (r, body, cp, resp) ∈ log /\ k = cache_key s r /\ h = Sha256.sum256 body /\
    (stable (cp_Data cp) -> match resp with
     | Some rsp => forall r' reqID, wantsEnvelope ParseMedia r' = wantsEnvelope ParseMedia r ->
                     content (replayDedupEntry ParseMedia r' ent reqID) = content rsp
     | None => de_Status ent = 500
     end).
Proof.
  intros Hcopies Hrun Hp. destruct (reachable_ok json_copy Hcopies y (server_run_reachable _ _ _ Hrun)) as (_ & _ & Ht).
  destruct (Ht p k h) as [Htold _]. destruct (Htold _ Hp) as (fresh & e0 & Hin & Hcopy).
  destruct (server_run_executed _ _ _ Hrun _ _ _ Hin) as (r & body & cp & resp & Hlog & -> & -> & (E1 & E2 & E3 & E4) & Hag).
  exists r, body, cp, resp. split; [done|split; [done|split; [done|]]]. intros Hst.
  assert (de_Status ent = de_Status e0 /\ de_Err ent = de_Err e0 /\ Marshal <$> de_Data ent = Marshal <$> de_Data e0) as (C1 & C2 & C3).
  { unfold deepCopyEntry in Hcopy. destruct (de_Data e0) as [v|] eqn:Ed; [|by injection Hcopy as <-].
    destruct (json_copy v) as [v'|] eqn:Ev; [|done]. injection Hcopy as <-. split; [done|split; [done|]]. cbn [de_Data fmap option_fmap option_map].
    f_equal. apply Hst; [by rewrite <- E2|done]. }
  destruct resp as [rsp|]; [|by rewrite C1, E1]. intros r' reqID Hw. rewrite <- (Hag e0 reqID) by done.
  unfold replayDedupEntry, content, writeJSON. rewrite Hw, C1, C2. destruct (wantsEnvelope ParseMedia r); cbn [rp_Status rp_Body]; [by rewrite C3|].
  destruct (de_Err e0); cbn [rp_Status rp_Body]; [done|by rewrite C3].
Qed.
End Server.
Arguments Server : clear implicits.

(** ** The cost of a question *)

Lemma ask_steps_range {N W} (s : Server N W) req : 1 <= sv_askMaxStepsMax s -> 1 <= ask_steps s req <= sv_askMaxStepsMax s.
Proof.
  intros H. unfold ask_steps. destruct (Z.ltb_spec 0 (ak_MaxSteps req)).
  - destruct (Z.ltb_spec (ak_MaxSteps req) 1); [lia|]. destruct (Z.ltb_spec (sv_askMaxStepsMax s) (ak_MaxSteps req)); lia.
  - destruct (Z.ltb_spec (sv_askMaxStepsDefault s) 1); [destruct (Z.ltb_spec (sv_askMaxStepsMax s) 1)|destruct (Z.ltb_spec (sv_askMaxStepsMax s) (sv_askMaxStepsDefault s))]; lia.
Qed.

(** C37: A question costs at most the server's limit: whatever steps a request asks for, and
    whatever the model and the tools do, the model of a new server is asked no more often
    than the server's maximum, which is at least one. *)
Theorem ask_cost_bounded {N W} `{J : Json} `{AJ : AnthropicJson} `{OJ : OpenAIJson} `{GJ : GeminiJson} ParseMedia DecodeAsk Getenv lower Quote
    (net : Network (N * list (list Turn))) Sprint it (cfg : Server (N * list (list Turn)) W) (model : Provider N) r acq clock ms n w n' log w' cps resp :
  sv_askProvider cfg = Some (logged model) ->
  Ask ParseMedia DecodeAsk Getenv lower Quote net Sprint it (NewServer cfg) r acq clock ms (n, []) w = ((n', log), w', cps, resp) ->
  1 <= sv_askMaxStepsMax (NewServer cfg) /\ Z.of_nat (length log) <= sv_askMaxStepsMax (NewServer cfg).
Proof.
  intros Hp. set (s := NewServer cfg). assert (1 <= sv_askMaxStepsMax s) as Hmax.
  { unfold s, NewServer. cbn [sv_askMaxStepsMax]. repeat (case_if; bool_prop); lia. }
  intros H. split; [done|]. revert H. assert (sv_askProvider s = Some (logged model)) as Hps by done. clearbody s.
  assert (forall body req b n' log w' cps resp, ask_execute ParseMedia Getenv lower Quote net Sprint it s r body req clock ms (n, []) w b = ((n', log), w', cps, resp) ->
    Z.of_nat (length log) <= sv_askMaxStepsMax s) as Hexec.
  { intros body req b n0 log0 w0 cps0 resp0. unfold ask_execute, ask_provider. rewrite Hps.
    destruct (sv_registry s) as [registry|]; [|destruct (refuse_with _ _ _ _ _ _ _ _ _ _); intros [= <- <- <- <- <-]; simpl; lia].
    destruct (Llm.Ask _ _ _ _ _ _ _ _) as [[[n1 log1] w1] answer] eqn:E. intros H.
    assert (log0 = log1) as ->.
    { destruct answer; [|destruct (refuse_with _ _ _ _ _ _ _ _ _ _)|]; by injection H. }
    unfold Llm.Ask in E. destruct (String.eqb (ak_Prompt req) ""); [injection E as <- <- <- <-; simpl; lia|].
    apply ask_loop_length in E. unfold steps_of in E. cbn [ao_MaxSteps length] in E. pose proof (ask_steps_range s req Hmax).
    destruct (Z.leb_spec (ask_steps s req) 0); lia. }
  unfold Ask. destruct (negb _); [intros [= <- <- <- <- <-]; simpl; lia|]. destruct (read_body _ s r) as [body|rsp]; [|intros [= <- <- <- <- <-]; simpl; lia].
  destruct (DecodeAsk body) as [req|]; [|intros [= <- <- <- <- <-]; simpl; lia]. cbv zeta. destruct (String.eqb _ ""); [intros [= <- <- <- <- <-]; simpl; lia|].
  unfold with_dedup. destruct (deduplicated s r); [|apply Hexec]. destruct acq; [|intros [= <- <- <- <- <-]; simpl; lia..].
  destruct (ask_execute _ _ _ _ _ _ _ _ _ _ _ _ _ _ _ true) as [[[[n1 log1] w1] cps1] resp1] eqn:E. apply Hexec in E. by intros [= <- <- <- <- <-].
Qed.

(** ** A run of the server *)

(** A text is its own JSON; an object that is not empty is abbreviated. *)
#[local] Instance toy_json : Json :=
  { Unmarshal s := Some (if String.eqb s "{}" then VMap (Some ∅) else VStr s);
    UnmarshalObject s := if String.eqb s "{}" then Some ∅ else None; UnmarshalArray _ := None;
    Marshal v := Some (match v with VStr s => s | VMap (Some m) => if bool_decide (m = ∅) then "{}" else "{...}" | _ => "?" end);
    MarshalObject _ := Some "{}" }.

#[local] Instance toy_anthropic : AnthropicJson := { EncodeAnthropic _ := None; DecodeAnthropic _ := None }.
#[local] Instance toy_openai : OpenAIJson := { EncodeOpenAI _ := None; DecodeOpenAI _ := None; DecodeOutputItem _ := None }.
#[local] Instance toy_gemini : GeminiJson := { EncodeGemini _ := None; DecodeGemini _ := None; DecodeToolCall _ := None }.
#[local] Instance toy_triage : TriageJson := { UnmarshalTriage _ := None; MarshalTriage _ := None }.
#[local] Instance toy_texts : PlanTexts :=
  { DecodePlan body := if String.eqb body "plan" then inr (mkPlanExecuteRequest [mkPlanStep "a" "ping" ""] "" None) else inl "invalid character";
    expand_text _ := "expand"; plan_error_text _ := "invalid"; ref_error_text _ := "ref" }.

Definition no_media (token : string) : option (string * gmap string string) := None.
Definition ping : Tool Z := mkTool "ping" "" "" "" "" (Some (fun w params => (w + 1, Returned (VStr "pong")))) [].

Definition toy_server (provider : option (Provider (nat * list (list Turn)))) : Server (nat * list (list Turn)) Z :=
  NewServer (mkServer 4 (Some {["ping" := ping]}) provider 0 0 true "" false false).

Definition toy_request (path key body : string) : ApiRequest :=
  mkApiRequest (mkHttpRequest "POST" (fun h => if String.eqb h "Idempotency-Key" then key else "") None None "10.0.0.1:80") path "" "req" (mkReader body Eof).

Definition toy_serve (provider : option (Provider (nat * list (list Turn)))) (e : endpoint) (r : ApiRequest) (acq : acquisition) :=
  serve no_media (fun _ => true) (fun body => Some (mkAskRequest body 100 "continue" 0)) (fun _ => "") id id
    (fun n _ _ _ => (n, NoRequest "offline")) (fun _ => "") e (toy_server provider) r acq (O, []) 0.

Definition ping_request : ApiRequest := toy_request "/v1/tools/ping" "k" "{}".
Definition ping_key : string := cache_key (toy_server None) ping_request.
Definition ping_hash : list Z := Sha256.sum256 "{}".
Definition ping_events : list event :=
  [ECall 1 ping_key ping_hash; EAcquire 1 0; ECall 2 ping_key ping_hash; EAcquire 2 1; EComplete 1 10 200 (Some (VStr "pong")) None 10; EWake 2].
Definition ping_at (n : nat) : sys := default (mkSys NewDedupCache ∅ []) (steps json_copy (take n ping_events) (mkSys NewDedupCache ∅ [])).
Definition pong : Response := mkResponse 200 json_header (JsonBody (Some (VStr "pong"))).
Definition ping_completion : completion := mkCompletion ping_key ping_hash 200 (Some (VStr "pong")) None 10.

Lemma toy_copies v : is_Some (json_copy v).
Proof. unfold json_copy. simpl. by eexists. Qed.

Lemma ping_served : toy_serve None (ToolEndpoint 10) ping_request Execute = (O, [], 1, [ping_completion], Some pong).
Proof. vm_compute. reflexivity. Qed.

Lemma ping_reachable n : (n <= 6)%nat -> reachable json_copy (ping_at n).
Proof.
  intros Hn. eapply (steps_reachable json_copy (take n ping_events) (mkSys NewDedupCache ∅ [])); [apply reach_init|].
  unfold ping_at. do 7 (destruct n as [|n]; [vm_compute; reflexivity|]). lia.
Qed.

Lemma slot_released_witness :
  s_callers (ping_at 4) !! 2%positive = Some (Waiting ping_key ping_hash 1) /\
  exists cp y', [ping_completion] = [cp] /\ step json_copy (EComplete 1 10 (cp_Status cp) (cp_Data cp) (cp_Err cp) (cp_DurationMs cp)) (ping_at 4) = Some y' /\
    pending (s_cache y') !! ping_key = None /\
    forall q h id, s_callers y' !! q = Some (Waiting ping_key h id) -> is_Some (step json_copy (EWake q) y').
Proof.
  split; [vm_compute; reflexivity|]. unfold ping_key.
  refine (slot_released no_media _ _ _ _ _ _ _ _ (toy_server None) ping_request "{}" _ _ _ _ _ _ (ping_at 4) 1 10 toy_copies _ _ _ ping_served);
    [apply ping_reachable; lia|vm_compute; reflexivity|vm_compute; reflexivity].
Defined.

Lemma ping_step n ev : (n < 6)%nat -> ping_events !! n = Some ev -> step json_copy ev (ping_at n) = Some (ping_at (S n)).
Proof. intros Hn. do 6 (destruct n as [|n]; [intros [= <-]; vm_compute; reflexivity|]). lia. Qed.

Abbreviation toy_run provider := (server_run no_media (fun _ => true) (fun body => Some (mkAskRequest body 100 "continue" 0)) (fun _ => "") id id
  (fun n _ _ _ => (n, NoRequest "offline")) (fun _ => "") (toy_server provider)).

Lemma ping_run : toy_run None (ping_at 6) [(ping_request, "{}", ping_completion, Some pong)].
Proof.
  assert (forall n, (n <= 4)%nat -> toy_run None (ping_at n) []) as H4.
  { induction n as [|n IH]; intros Hn; [apply run_start|]. destruct (ping_events !! n) as [ev|] eqn:E.
    - eapply run_cache; [apply IH; lia| |apply ping_step; [lia|exact E]]. do 4 (destruct n as [|n]; [by injection E as <-|]). lia.
    - apply lookup_ge_None in E. simpl in E. lia. }
  eapply (run_cache _ _ _ _ _ _ _ _ _ (EWake 2)); [|exact I|apply (ping_step 5); [lia|reflexivity]].
  eapply (run_execute _ _ _ _ _ _ _ _ _ (ToolEndpoint 10) 1%positive ping_request "{}" (O, []) 0 _ _ ping_completion (Some pong) 10); [apply (H4 4%nat); lia| | |apply ping_served|].
  - vm_compute. reflexivity.
  - vm_compute. reflexivity.
  - apply (ping_step 4); [lia|reflexivity].
Qed.

Definition ping_entry : dedupEntry := mkDedupEntry 3 200 (Some (VStr "pong")) None 10 ping_hash (5 * Minute + 10).

Lemma replay_is_response_witness :
  s_callers (ping_at 6) !! 2%positive = Some (Answered ping_key ping_hash ping_entry) /\
  exists r body cp resp, (r, body, cp, resp) ∈ [(ping_request, "{}", ping_completion, Some pong)] /\
    ping_key = cache_key (toy_server None) r /\ ping_hash = Sha256.sum256 body /\
    (stable (cp_Data cp) -> match resp with
     | Some rsp => forall r' reqID, wantsEnvelope no_media r' = wantsEnvelope no_media r -> content (replayDedupEntry no_media r' ping_entry reqID) = content rsp
     | None => de_Status ping_entry = 500
     end).
Proof.
  assert (s_callers (ping_at 6) !! 2%positive = Some (Answered ping_key ping_hash ping_entry)) as H by (vm_compute; reflexivity).
  split; [exact H|]. refine (replay_is_response no_media _ _ _ _ _ _ _ (toy_server None) (ping_at 6) _ 2 ping_key ping_hash ping_entry toy_copies ping_run H).
Defined.

(** A model that never stops calling the tool. *)
Definition restless : Provider nat := fun n prompt tools history => (S n, Generated (mkResult "" [mkToolCall "ping" "{}" "" [] false])).

Lemma ask_cost_bounded_witness :
  length ((toy_serve (Some (logged restless)) (AskEndpoint iter_canonical (fun _ => 5) (fun _ => 5)) (toy_request "/v1/ask" "" "why?") Execute).1.1.1.2) = 8%nat /\
  Z.of_nat 8 <= sv_askMaxStepsMax (toy_server (Some (logged restless))).
Proof.
  assert (length ((toy_serve (Some (logged restless)) (AskEndpoint iter_canonical (fun _ => 5) (fun _ => 5)) (toy_request "/v1/ask" "" "why?") Execute).1.1.1.2) = 8%nat) as H
    by (vm_compute; reflexivity).
  split; [exact H|]. rewrite <- H. unfold toy_serve, serve.
  destruct (Ask no_media (fun body => Some (mkAskRequest body 100 "continue" 0)) (fun _ => "") id id (fun n _ _ _ => (n, NoRequest "offline")) (fun _ => "") iter_canonical
    (toy_server (Some (logged restless))) (toy_request "/v1/ask" "" "why?") Execute (fun _ => 5) (fun _ => 5) (O, []) 0) as [[[[n' log] w'] cps] resp] eqn:E.
  exact (proj2 (ask_cost_bounded _ _ _ _ _ _ _ _ (mkServer 4 (Some {["ping" := ping]}) (Some (logged restless)) 0 0 true "" false false) restless _ _ _ _ _ _ _ _ _ _ _ eq_refl E)).
Defined.

(** ** What the server does not do *)

(** A plan longer than the limit is cut there and executed, where a tool call of the same
    length is refused. *)
Theorem long_plan_executed :
  (exists n w cps rsp, toy_serve None (PlanEndpoint iter_canonical (mkPlanIDs "p" "f") (fun _ => 5) (fun _ => 5) (fun _ => true))
     (toy_request "/v1/plans/execute" "" "plan, and more") Execute = (n, w, cps, Some rsp) /\ rp_Status rsp = 200) /\
  (exists n w cps rsp, toy_serve None (ToolEndpoint 5) (toy_request "/v1/tools/ping" "" "{}, and more") Execute = (n, w, cps, Some rsp) /\ rp_Status rsp = 413).
Proof. split; (eexists _, _, _, _; split; [vm_compute; reflexivity|reflexivity]). Qed.

(** With agent keys configured, every caller has the same principal, whatever its key: two
    agents that choose the same idempotency key are taken for one. *)
Theorem agents_share_principal {N W} (s : Server N W) r r' : sv_agentKey s <> "" -> dedupPrincipal s r = dedupPrincipal s r'.
Proof. intros H. unfold dedupPrincipal. by destruct (String.eqb_spec (sv_agentKey s) ""). Qed.
