(* ===== verification/TraceContext.v ===== *)
(** Trace identity across services ([pkg/trace/trace.go], [pkg/waylog/http/transport.go] and
    the identity part of [middleware.go]): the [traceparent] header, generated identifiers,
    the identity a request is given, and the outgoing calls that carry it on. *)

From S2P Require Import Prelude GoRuntime GoText Types TraceGraph Schema Transport Request RequestSpec Sdk Convert.
Open Scope Z_scope.

(** ** Identifiers *)

Definition isLowerHex (value : string) (length : nat) : bool :=
  (String.length value =? length)%nat && all_chars is_lower_hex value.

(** [NormalizeTraceID], [NormalizeSpanID]: 32 and 16 digits. *)
Definition normalize (length : nat) (value : string) : option string :=
  let v := ToLower (TrimSpace value) in if negb (isLowerHex v length) then None else Some v.
Definition NormalizeTraceID : string -> option string := normalize 32.
Definition NormalizeSpanID : string -> option string := normalize 16.

(** [fillFallback] at a time in nanoseconds, with the global counter: the bytes and the counter. *)
Definition fillFallback (n : nat) (nanos counter : Z) : list Z * Z :=
  let counter := (counter + 1) mod 2 ^ 64 in
  (take n (Sha256.sum256 (Itoa nanos +:+ "-" +:+ Itoa counter)), counter).

(** Two readings of the random source, [None] for an error, then the fallback. *)
Definition random_bytes (n : nat) (first second : option (list Z)) (nanos counter : Z) : list Z * Z :=
  match first, second with
  | Some buf, _ => (buf, counter)
  | None, Some buf => (buf, counter)
  | None, None => fillFallback n nanos counter
  end.

Definition new_id (n : nat) (first second : option (list Z)) (nanos counter : Z) : string * Z :=
  let '(buf, counter) := random_bytes n first second nanos counter in (ToLower (hex_bytes buf), counter).
Definition NewTraceID := new_id 16.
Definition NewSpanID := new_id 8.

(** ** The [traceparent] header *)

Definition ParseTraceparent (header : string) : option (string * string * string) :=
  match Split header "-"%char with
  | [version; traceID; parentSpanID; flags] =>
    let version := ToLower version in
    let traceID := ToLower traceID in
    let parentSpanID := ToLower parentSpanID in
    let flags := ToLower flags in
    if negb (isLowerHex version 2) then None
    else if negb (isLowerHex traceID 32) then None
    else if negb (isLowerHex parentSpanID 16) then None
    else if negb (isLowerHex flags 2) then None
    else Some (traceID, parentSpanID, flags)
  | _ => None
  end.

Definition FormatTraceparent (traceID spanID flags : string) : string :=
  let flags := if String.eqb flags "" then "01" else flags in
  "00-" +:+ ToLower traceID +:+ "-" +:+ ToLower spanID +:+ "-" +:+ ToLower flags.

(** [resolveTraceContext]: trace, span and parent span; the generators' results are
    arguments. *)
Definition resolveTraceContext (Get : string -> string) (newTraceID newSpanID : string) : string * string * string :=
  let header := Get "traceparent" in
  match (if negb (String.eqb header "") then ParseTraceparent header else None) with
  | Some (t, parent, _) => (t, newSpanID, parent)
  | None =>
    let traceID := default "" (NormalizeTraceID (Get "x-trace-id")) in
    let parentSpanID := default "" (NormalizeSpanID (Get "x-span-id")) in
    let traceID := if String.eqb traceID "" then default "" (NormalizeTraceID (Get "x-request-id")) else traceID in
    let traceID := if String.eqb traceID "" then newTraceID else traceID in
    (traceID, newSpanID, parentSpanID)
  end.

(** ** Outgoing calls *)

Section Outgoing.
Context {S : Type}.

Definition TraceID (p : positive) (s : sdk S) : string := from_option (fun r => id_traceID (r_id r)) "" (k_requests s !! p).
Definition SpanID (p : positive) (s : sdk S) : string := from_option (fun r => id_spanID (r_id r)) "" (k_requests s !! p).

(** [Header.Set] on the clone of the request. *)
Definition set_header (name value_ : string) (header : string -> string) : string -> string :=
  fun n => if String.eqb n name then value_ else header n.

(** [RoundTrip] up to the call of the base transport: the SDK and the headers sent. *)
Definition RoundTrip (p : positive) (downstreamHint method path clientSpan : string) (header : string -> string) (s : sdk S)
    : sdk S * (string -> string) :=
  let traceID := TraceID p s in
  let parentSpan := SpanID p s in
  if String.eqb traceID "" || String.eqb parentSpan "" then (s, header) else
  (default s (on_request p (OSpan clientSpan downstreamHint (method +:+ " " +:+ path)) s),
   set_header "traceparent" (FormatTraceparent traceID clientSpan "01") header).
End Outgoing.

(** ** Hexadecimal text is its own lower case *)

Lemma hex_byte c : is_lower_hex c = true ->
  c <> ascii_of_nat 196 /\ c <> ascii_of_nat 226 /\ lower_byte c = c /\ Ascii.eqb c "-"%char = false.
Proof.
  intros H. destruct c as [[] [] [] [] [] [] [] []]; try discriminate H; split_and!; try discriminate; reflexivity.
Qed.

Lemma ToLower_hex s : all_chars is_lower_hex s = true -> ToLower s = s.
Proof.
  induction s as [|a s IH]; [done|]. cbn [all_chars]. intros [Ha Hs]%andb_prop. specialize (IH Hs).
  destruct (hex_byte a Ha) as (H1 & H2 & H3 & _). destruct s as [|b [|c s]].
  - cbn [ToLower]. by rewrite H3.
  - cbn [ToLower]. replace (String.eqb _ _) with false.
    + cbn [all_chars] in Hs. apply andb_prop in Hs as [Hb _]. by rewrite H3, (proj1 (proj2 (proj2 (hex_byte b Hb)))).
    + symmetry. apply String.eqb_neq. by intros [= ?].
  - cbn [ToLower] in *. replace (String.eqb (String a (String b "")) _) with false.
    2:{ symmetry. apply String.eqb_neq. by intros [= ?]. }
    replace (String.eqb (String a (String b (String c ""))) _) with false.
    2:{ symmetry. apply String.eqb_neq. by intros [= ?]. }
    rewrite H3. f_equal. exact IH.
Qed.

Lemma hex_no_dash s : all_chars is_lower_hex s = true -> has_byte "-"%char s = false.
Proof.
  induction s as [|a s IH]; [done|]. cbn [all_chars has_byte]. intros [Ha Hs]%andb_prop.
  by rewrite (proj2 (proj2 (proj2 (hex_byte a Ha)))), IH.
Qed.

Lemma isLowerHex_spec s n : isLowerHex s n = true <-> String.length s = n /\ all_chars is_lower_hex s = true.
Proof. unfold isLowerHex. by rewrite andb_true_iff, Nat.eqb_eq. Qed.

Lemma isLowerHex_lower s n : isLowerHex s n = true -> ToLower s = s.
Proof. intros [_ H]%isLowerHex_spec. by apply ToLower_hex. Qed.

Lemma hex_nonempty s n : isLowerHex s (S n) = true -> s <> "".
Proof. intros [H _]%isLowerHex_spec ->. done. Qed.

Lemma isLowerHex_hex32 s : isLowerHex s 32 = true -> hex32 s = true.
Proof. done. Qed.

Lemma isLowerHex_hex16 s : isLowerHex s 16 = true -> hex16_opt s = true.
Proof. unfold isLowerHex, hex16_opt. intros ->. apply orb_true_r. Qed.

Lemma normalize_hex n value v : normalize n value = Some v -> isLowerHex v n = true.
Proof. unfold normalize. destruct (isLowerHex _ n) eqn:E; [|done]. by intros [= <-]. Qed.

Lemma new_id_hex n first second nanos counter : (n <= 32)%nat ->
  Forall (fun buf => length buf = n /\ Forall (fun z => 0 <= z < 256) buf) (option_list first ++ option_list second) ->
  isLowerHex (new_id n first second nanos counter).1 (2 * n) = true.
Proof.
  intros Hn H. unfold new_id. destruct (random_bytes n first second nanos counter) as [buf c] eqn:E. cbn [fst].
  assert (length buf = n /\ Forall (fun z => 0 <= z < 256) buf) as [Hl Hb].
  { destruct first as [b1|]; [simpl in E; simplify_eq; by inversion_clear H|].
    destruct second as [b2|]; [simpl in E; simplify_eq; by inversion_clear H|]. simpl in E. unfold fillFallback in E. simplify_eq.
    destruct (sum256_bytes (Itoa nanos +:+ "-" +:+ Itoa ((counter + 1) mod 2 ^ 64))) as [Hl Hb].
    split; [rewrite length_take; lia|by apply Forall_take]. }
  destruct (hex_bytes_ok buf Hb) as [H1 H2]. rewrite (ToLower_hex _ H2). apply isLowerHex_spec. by rewrite H1, Hl.
Qed.

(** The header is read back: what [FormatTraceparent] writes for identifiers of the right
    shape, [ParseTraceparent] returns. *)
Lemma traceparent_roundtrip t s f : isLowerHex t 32 = true -> isLowerHex s 16 = true -> isLowerHex f 2 = true ->
  ParseTraceparent (FormatTraceparent t s f) = Some (t, s, f).
Proof.
  intros Ht Hs Hf. unfold FormatTraceparent, ParseTraceparent. pose proof (hex_nonempty _ _ Hf) as Hne.
  apply String.eqb_neq in Hne as ->. cbv zeta.
  rewrite (isLowerHex_lower _ _ Ht), (isLowerHex_lower _ _ Hs), (isLowerHex_lower _ _ Hf).
  change ("00-" +:+ t +:+ "-" +:+ s +:+ "-" +:+ f) with (Join "-" ["00"; t; s; f]).
  pose proof (proj2 (proj1 (isLowerHex_spec _ _) Ht)) as Ct. pose proof (proj2 (proj1 (isLowerHex_spec _ _) Hs)) as Cs.
  pose proof (proj2 (proj1 (isLowerHex_spec _ _) Hf)) as Cf.
  assert (Forall (fun s => has_byte "-"%char s = false) ["00"; t; s; f]) as Hd.
  { repeat (apply Forall_cons; split; [first [done|by apply hex_no_dash]|]). by apply Forall_nil. }
  rewrite (Split_Join "-"%char ["00"; t; s; f]) by (exact Hd || done).
  rewrite (isLowerHex_lower _ _ Ht), (isLowerHex_lower _ _ Hs), (isLowerHex_lower _ _ Hf), Ht, Hs, Hf. done.
Qed.

Lemma ParseTraceparent_hex header t s f : ParseTraceparent header = Some (t, s, f) ->
  isLowerHex t 32 = true /\ isLowerHex s 16 = true /\ isLowerHex f 2 = true.
Proof.
  unfold ParseTraceparent. destruct (Split header "-"%char) as [|a [|b [|c [|d [|e l]]]]]; try done. cbv zeta.
  destruct (isLowerHex (ToLower a) 2); [|done]. destruct (isLowerHex (ToLower b) 32) eqn:H1; [|done].
  destruct (isLowerHex (ToLower c) 16) eqn:H2; [|done]. destruct (isLowerHex (ToLower d) 2) eqn:H3; [|done].
  cbn [negb]. by intros [= <- <- <-].
Qed.

(** Whatever headers a request carries, the trace and span ids it is given have the shape of
    the published schema, and so does the parent's, which may be absent. *)
Theorem resolved_ids_conform Get newTrace newSpan t s p : isLowerHex newTrace 32 = true -> isLowerHex newSpan 16 = true ->
  resolveTraceContext Get newTrace newSpan = (t, s, p) ->
  hex32 t = true /\ hex16_opt s = true /\ s <> "" /\ hex16_opt p = true.
Proof.
  intros Ht Hs. unfold resolveTraceContext. set (parsed := if negb (String.eqb _ _) then _ else _).
  destruct parsed as [[[t0 p0] f0]|] eqn:E.
  - intros [= <- <- <-]. subst parsed. case_match; [|done]. apply ParseTraceparent_hex in E as (H1 & H2 & _).
    split_and!; [done|by apply isLowerHex_hex16|by eapply hex_nonempty|by apply isLowerHex_hex16].
  - cbv zeta. intros [= <- <- <-]. split_and!; [|by apply isLowerHex_hex16|by eapply hex_nonempty|].
    + assert (forall v, default "" (NormalizeTraceID v) = "" \/ hex32 (default "" (NormalizeTraceID v)) = true) as Hn.
      { intros v. destruct (NormalizeTraceID v) as [w|] eqn:Ew; [right|by left]. by apply normalize_hex in Ew. }
      pose proof (Hn (Get "x-trace-id")) as Ha. pose proof (Hn (Get "x-request-id")) as Hb. clear Hn.
      set (a := default "" (NormalizeTraceID (Get "x-trace-id"))) in *. set (b := default "" (NormalizeTraceID (Get "x-request-id"))) in *.
      clearbody a b. destruct (String.eqb_spec a "") as [Ea|Ea]; destruct (String.eqb_spec b "") as [Eb|Eb]; simpl.
      * done.
      * destruct (String.eqb_spec b ""); [done|]. by destruct Hb.
      * destruct (String.eqb_spec a ""); [done|]. by destruct Ha.
      * destruct (String.eqb_spec a ""); [done|]. by destruct Ha.
    + destruct (NormalizeSpanID (Get "x-span-id")) as [w|] eqn:Ew; [|done]. apply normalize_hex in Ew. by apply isLowerHex_hex16.
Qed.

(** ** One call, two events, one edge *)

(** An outgoing call inside a step: the step carries the client span and its downstream, and
    nothing else of the request changes. *)
Lemma RoundTrip_spec {S} p hint method path span header (s : sdk S) r top :
  k_requests s !! p = Some r -> suppressed r = false -> sealed r = false -> last (stepStack r) = Some top ->
  id_traceID (r_id r) <> "" -> id_spanID (r_id r) <> "" -> span <> "" ->
  let called := mkActive (as_name top) span (Some (mkDownstream hint (method +:+ " " +:+ path) "rpc")) (as_startedAt top) (as_startMS top) in
  RoundTrip p hint method path span header s =
    (set_request s p (set_stack r (removelast (stepStack r) ++ [called])) (k_counts s),
     set_header "traceparent" (FormatTraceparent (id_traceID (r_id r)) span "01") header).
Proof.
  intros Hr Hs Hse Hl Ht Hsp Hne. unfold RoundTrip, TraceID, SpanID. rewrite Hr. cbn [from_option].
  apply String.eqb_neq in Ht as ->, Hsp as ->, Hne. cbn [orb]. cbv zeta. unfold on_request. rewrite Hr. cbn [run_op mbind option_bind].
  unfold RecordOutgoingSpan. by rewrite Hne, Hs, Hse, Hl.
Qed.

Lemma resolve_formatted header traceID span newTrace newSpan : isLowerHex traceID 32 = true -> isLowerHex span 16 = true ->
  resolveTraceContext (set_header "traceparent" (FormatTraceparent traceID span "01") header) newTrace newSpan = (traceID, newSpan, span).
Proof.
  intros Ht Hs. unfold resolveTraceContext, set_header. cbv zeta. rewrite String.eqb_refl.
  assert (String.eqb (FormatTraceparent traceID span "01") "" = false) as -> by reflexivity.
  cbn [negb]. by rewrite (traceparent_roundtrip traceID span "01" Ht Hs eq_refl).
Qed.

(** The spans an event's steps made calls under. *)
Definition call_spans (ev : Event) : list string := st_SpanID <$> ev_Steps ev.

Lemma owners_of_steps ev l : forall so : gmap string Event, forall span, span <> "" ->
  foldl (fun so step => if negb (String.eqb (st_SpanID step) "") then <[st_SpanID step := ev]> so else so) so l !! span =
  if bool_decide (span ∈ st_SpanID <$> l) then Some ev else so !! span.
Proof.
  induction l as [|st l IH]; intros so span Hne; [done|]. cbn [foldl fmap list_fmap]. rewrite (IH _ _ Hne).
  case_bool_decide as H1; [by rewrite bool_decide_eq_true_2 by (by right)|].
  destruct (String.eqb_spec (st_SpanID st) "") as [E|E]; cbn [negb].
  - rewrite bool_decide_eq_false_2; [done|]. rewrite elem_of_cons. by intros [->|].
  - destruct (decide (span = st_SpanID st)) as [->|Hs].
    + rewrite lookup_insert_eq, bool_decide_eq_true_2; [done|by left].
    + rewrite lookup_insert_ne by done. rewrite bool_decide_eq_false_2; [done|]. rewrite elem_of_cons. by intros [->|].
Qed.

Lemma pair_linked it a b : ev_EventID a <> "" -> ev_EventID b <> "" -> ev_EventID a <> ev_EventID b -> ev_ParentSpanID a = "" ->
  ev_ParentSpanID b <> "" -> ev_ParentSpanID b ∈ call_spans a -> ev_ParentSpanID b ∉ call_spans b ->
  forall events, events = [a; b] \/ events = [b; a] ->
  usable (buildTraceGraph it events) = true /\ parents (buildTraceGraph it events) !! ev_EventID b = Some (ev_EventID a).
Proof.
  intros Ha Hb Hab Hpa Hpb Hin Hout events Hev. apply String.eqb_neq in Ha, Hb, Hab.
  assert ((graph_owners events).2 !! ev_ParentSpanID b = Some a) as Ho.
  { unfold graph_owners. destruct Hev as [-> | ->]; cbn [foldl]; rewrite ?Ha, ?Hb; cbn beta iota; rewrite ?Ha, ?Hb; cbn [snd]; rewrite !owners_of_steps by done;
      unfold call_spans in *; by rewrite ?(bool_decide_eq_false_2 _ Hout), ?(bool_decide_eq_true_2 _ Hin). }
  unfold buildTraceGraph. destruct (graph_owners events) as [ids so]. cbn [snd] in Ho.
  assert (graph_edges so events ∅ ∅ 0 = (<[ev_EventID a := [b]]> ∅, <[ev_EventID b := ev_EventID a]> ∅, 1%nat, true)) as ->.
  { apply String.eqb_neq in Hpb. destruct Hev as [-> | ->]; cbn [graph_edges]; rewrite Ha, Hb, Hpa, Hpb, Ho; cbn [orb String.eqb];
      rewrite Hab; rewrite lookup_empty; done. }
  cbn. split; [done|]. by rewrite lookup_insert_eq.
Qed.

(** A span only one event has belongs to that event. *)
Lemma owner_unique events span a : span <> "" -> ev_EventID a <> "" -> a ∈ events -> span ∈ call_spans a ->
  (forall ev, ev ∈ events -> span ∈ call_spans ev -> ev = a) -> (graph_owners events).2 !! span = Some a.
Proof.
  intros Hne Ha. unfold graph_owners. induction events as [|e events IH] using rev_ind; intros Hin Hs Hu; [by apply elem_of_nil in Hin|].
  rewrite foldl_snoc. assert (forall ev, ev ∈ events -> span ∈ call_spans ev -> ev = a) as Hu' by (intros ev He; apply Hu; apply elem_of_app; by left).
  assert (a ∈ events -> (foldl (fun '(byEventID, spanOwner) ev =>
    if String.eqb (ev_EventID ev) "" then (byEventID, spanOwner)
    else (<[ev_EventID ev := ev]> byEventID,
          foldl (fun so step => if negb (String.eqb (st_SpanID step) "") then <[st_SpanID step := ev]> so else so)
            spanOwner (ev_Steps ev))) (∅, ∅) events).2 !! span = Some a) as Hold by auto.
  destruct (foldl _ (∅, ∅) events) as [byID so]. cbn [snd] in Hold. destruct (String.eqb_spec (ev_EventID e) "") as [He|He]; cbn [snd].
  - apply elem_of_app in Hin as [Hin|Hin]; [by apply Hold|]. apply list_elem_of_singleton in Hin as ->. done.
  - rewrite owners_of_steps by done. fold (call_spans e). case_bool_decide as Hc.
    + f_equal. apply Hu; [|done]. apply elem_of_app. right. by left.
    + apply elem_of_app in Hin as [Hin|Hin]; [by apply Hold|]. apply list_elem_of_singleton in Hin as ->. done.
Qed.

(** Edges that were all found include that of each event with a parent. *)
Lemma edge_found so b p : so !! ev_ParentSpanID b = Some p -> ev_EventID b <> "" -> ev_ParentSpanID b <> "" ->
  forall events ch pa n ch' pa' n', graph_edges so events ch pa n = (ch', pa', n', true) ->
  (forall ev, ev ∈ events -> ev_EventID ev = ev_EventID b -> ev = b) ->
  b ∈ events \/ pa !! ev_EventID b = Some (ev_EventID p) -> pa' !! ev_EventID b = Some (ev_EventID p).
Proof.
  intros Hp Hb Hpb. apply String.eqb_neq in Hb as Hb', Hpb as Hpb'.
  induction events as [|e events IH]; intros ch pa n ch' pa' n' H Hu Hor; cbn [graph_edges] in H.
  { simplify_eq. destruct Hor as [Hin|]; [by apply elem_of_nil in Hin|done]. }
  assert (forall ev, ev ∈ events -> ev_EventID ev = ev_EventID b -> ev = b) as Hu' by (intros ev He; apply Hu; by right).
  assert (e = b \/ e <> b) as [->|Hne] by (destruct (decide (ev_EventID e = ev_EventID b)) as [E|E]; [left; apply Hu; [left|done]|right; congruence]).
  - rewrite Hb', Hpb', Hp in H. cbn [orb] in H. destruct (String.eqb (ev_EventID p) _); [done|]. eapply IH; [exact H|done|]. right. by rewrite lookup_insert_eq.
  - assert (b ∈ events \/ pa !! ev_EventID b = Some (ev_EventID p)) as Hor'.
    { destruct Hor as [Hin|]; [|by right]. apply elem_of_cons in Hin as [Hin|]; [by destruct Hne|by left]. }
    destruct (String.eqb (ev_EventID e) "" || _); [by eapply IH|]. destruct (so !! ev_ParentSpanID e) as [q|]; [|done]. destruct (String.eqb (ev_EventID q) _); [done|].
    eapply IH; [exact H|done|]. destruct Hor' as [|Hpa]; [by left|right]. rewrite lookup_insert_ne; [done|].
    intros E. apply Hne, Hu; [left|done].
Qed.

Lemma trace_linked it events a b : ev_EventID a <> "" -> ev_EventID b <> "" -> ev_ParentSpanID b <> "" -> a ∈ events -> b ∈ events ->
  ev_ParentSpanID b ∈ call_spans a -> (forall ev, ev ∈ events -> ev_ParentSpanID b ∈ call_spans ev -> ev = a) ->
  (forall ev, ev ∈ events -> ev_EventID ev = ev_EventID b -> ev = b) ->
  usable (buildTraceGraph it events) = true -> parents (buildTraceGraph it events) !! ev_EventID b = Some (ev_EventID a).
Proof.
  intros Ha Hb Hpb Hina Hinb Hs Hu Hub. pose proof (owner_unique events (ev_ParentSpanID b) a Hpb Ha Hina Hs Hu) as Ho.
  unfold buildTraceGraph. destruct (graph_owners events) as [ids so]. cbn [snd] in Ho.
  destruct (graph_edges so events ∅ ∅ 0) as [[[ch pa] n] ok] eqn:He. destruct (negb ok || _) eqn:Eok; [done|]. intros _. cbn.
  apply orb_false_iff in Eok as [Eok _]. apply negb_false_iff in Eok as ->. eapply edge_found; [exact Ho|done|done|exact He|done|by left].
Qed.

(** C40: A call links the two events it joins.  A request that is neither suppressed nor sealed
    calls another service from within a step, under a span of its own, and the callee's request
    is begun with the identity read from the header the call sent; trace and span ids are
    lower-case hex of their lengths.  If the caller's event, whenever and however it is made,
    still has the step, the callee's event belongs to the same trace and names the call's span
    as its parent.  In the graph of any trace that has the two events, no other event with
    the call's span, and ids that are not empty and name one event each, there is the edge
    from caller to callee if the graph is usable at all; and the graph of the two alone is
    usable when the caller has no parent itself. *)
Theorem call_linked {S} it p hint method path span header (s : sdk S) r top s' header' newTrace newSpan t sp par
    rA cA cfgA kA markA endA evA sA rB cB cfgB kB markB endB evB sB events :
  k_requests s !! p = Some r -> suppressed r = false -> sealed r = false -> last (stepStack r) = Some top ->
  isLowerHex (id_traceID (r_id r)) 32 = true -> id_spanID (r_id r) <> "" -> isLowerHex span 16 = true ->
  RoundTrip p hint method path span header s = (s', header') ->
  resolveTraceContext header' newTrace newSpan = (t, sp, par) ->
  r_id rA = r_id r -> seal cfgA kA markA endA (rA, cA) = (Some evA, sA) ->
  id_traceID (r_id rB) = t -> id_parentSpanID (r_id rB) = par -> seal cfgB kB markB endB (rB, cB) = (Some evB, sB) ->
  ev_EventID evA <> "" -> ev_EventID evB <> "" -> ev_EventID evA <> ev_EventID evB -> evA ∈ events -> evB ∈ events ->
  span ∈ call_spans evA -> (forall ev, ev ∈ events -> span ∈ call_spans ev -> ev = evA) ->
  (forall ev, ev ∈ events -> ev_EventID ev = ev_EventID evB -> ev = evB) ->
  ev_TraceID evB = ev_TraceID evA /\ ev_ParentSpanID evB = span /\
  (usable (buildTraceGraph it events) = true -> parents (buildTraceGraph it events) !! ev_EventID evB = Some (ev_EventID evA)) /\
  (id_parentSpanID (r_id r) = "" -> events = [evA; evB] \/ events = [evB; evA] -> usable (buildTraceGraph it events) = true).
Proof.
  intros Hr Hsu Hse Hl Ht Hsp Hspan HR Hres HA HsA HtB HpB HsB Ha Hb Hab Hia Hib Hin Hu Hub.
  rewrite (RoundTrip_spec p hint method path span header s r top Hr Hsu Hse Hl (hex_nonempty _ _ Ht) Hsp (hex_nonempty _ _ Hspan)) in HR.
  injection HR as _ <-. rewrite (resolve_formatted _ _ _ _ _ Ht Hspan) in Hres. injection Hres as <- <- <-.
  apply seal_takes in HsA as (_ & _ & TA & _ & PA & _). apply seal_takes in HsB as (_ & _ & TB & _ & PB & _).
  rewrite HA in TA, PA. rewrite HtB in TB. rewrite HpB in PB. split; [congruence|split; [done|]].
  pose proof (hex_nonempty _ _ Hspan) as Hne. split.
  - apply trace_linked; rewrite ?PB; done.
  - intros Hroot Hev. apply (pair_linked it evA evB); rewrite ?PA, ?PB; try done. intros Hc. apply Hab. f_equal. symmetry. by apply Hu.
Qed.

(** ** Concrete calls *)

#[local] Instance collector : Sink (list Event) := {| sink_deliver := fun ev out => (Some true, out ++ [ev]) |}.

Definition shop : sdk (list Event) := mkSdk (mkSdkConfig "shop" "prod" "" 0 None) (8, 8, 4096) zero_counts (mkRate 0 0) ∅ ∅ [].

Definition trace_7 : string := "00000000000000000000000000000007".
Definition span_of (i : nat) : string := "000000000000000" +:+ Itoa (Z.of_nat i).
Definition no_headers : string -> string := fun _ => "".

(** A request with a step inside, calls made before the step and calls made within it. *)
Definition calls_of (n k : nat) (s : sdk (list Event)) : sdk (list Event) :=
  foldl (fun s i => (RoundTrip 1%positive "stock" "GET" "/items" (span_of i) no_headers s).1) s (seq n k).
Definition shop_run (outside inside : nat) : list Event :=
  let s := Begin 1%positive (mkBegin trace_7 (span_of 9) "" 5) "shop-1" "" "" 5 shop in
  let s := calls_of 0 outside s in
  let s := default s (on_request 1%positive (OPush "load" 6 0) s) in
  let s := calls_of outside inside s in
  let s := default s (on_request 1%positive (OClose "load" 0 1 None) s) in
  k_sink (finalize 1%positive lifecycleNormal 9 9 0 s).2.

(** The requests the calls make of the other service, from the headers they carry. *)
Definition stock_run (i : nat) : list Event :=
  let header := (RoundTrip 1%positive "stock" "GET" "/items" (span_of i) no_headers
                   (Begin 1%positive (mkBegin trace_7 (span_of 9) "" 5) "shop-1" "" "" 5 shop)).2 in
  let '(t, sp, par) := resolveTraceContext header (span_of 8 +:+ span_of 8) (span_of 8) in
  k_sink (finalize 1%positive lifecycleNormal 9 9 0
            (Begin 1%positive (mkBegin t sp par 6) ("stock-" +:+ Itoa (Z.of_nat i)) "" "" 6 shop)).2.

Definition calls_trace (outside inside : nat) : list Event := shop_run outside inside ++ (seq 0 (outside + inside) ≫= stock_run).

(** A trace can be ordered by its links while every step makes one call.  A second call in a
    step replaces the span the step carried for the first, and a call made outside any step
    is carried by none; the event of the first callee then has a parent no event knows, the
    graph of the whole trace is unusable, and [OrderTrace] falls back to timestamps. *)
Theorem second_call_unlinks :
  (OrderTrace iter_canonical (calls_trace 0 1)).2 = LinkageCausal /\
  (OrderTrace iter_canonical (calls_trace 0 2)).2 = LinkageTimestampFallback /\
  (OrderTrace iter_canonical (calls_trace 1 1)).2 = LinkageTimestampFallback /\
  usable (buildTraceGraph iter_canonical (calls_trace 0 2)) = false.
Proof. vm_compute. split_and!; reflexivity. Qed.

(** The W3C format forbids version ff and identifiers of zeros; all three are accepted. *)
Theorem invalid_traceparent_accepted :
  ParseTraceparent "ff-00000000000000000000000000000000-0000000000000000-00" =
  Some ("00000000000000000000000000000000", "0000000000000000", "00").
Proof. vm_compute. reflexivity. Qed.

Definition shop_call : sdk (list Event) :=
  default shop (on_request 1%positive (OPush "load" 6 0) (Begin 1%positive (mkBegin trace_7 (span_of 9) "" 5) "shop-1" "" "" 5 shop)).
Definition request_of (s : sdk (list Event)) : request := default (newRequest (mkIdentity "" 0 "" "" "" 0 0 0)) (k_requests s !! 1%positive).
Definition shop_called : sdk (list Event) := (RoundTrip 1%positive "stock" "GET" "/items" (span_of 1) no_headers shop_call).1.
Definition shop_closed : request := request_of (default shop (on_request 1%positive (OClose "load" 0 1 None) shop_called)).
Definition stock_begun : request := request_of (Begin 1%positive (mkBegin trace_7 (span_of 8) (span_of 1) 6) "stock-1" "" "" 6 shop).
Definition event_of (r : request) : Event :=
  default (sample_event "" "" "" "" 0 0 "" None []) (seal (k_cfg shop) lifecycleNormal 9 9 (r, zero_counts)).1.

Lemma sealed_pair (x : option Event * st) (ev : Event) : x.1 = Some ev -> x = (Some ev, x.2).
Proof. by destruct x as [oe s]; intros [= ->]. Qed.

Lemma call_linked_witness :
  ev_TraceID (event_of stock_begun) = trace_7 /\ ev_ParentSpanID (event_of stock_begun) = span_of 1 /\
  parents (buildTraceGraph iter_canonical [event_of shop_closed; event_of stock_begun]) !! "stock-1" = Some "shop-1".
Proof.
  assert (k_requests shop_call !! 1%positive = Some (request_of shop_call)) as Hr by (vm_compute; reflexivity).
  assert (last (stepStack (request_of shop_call)) = Some (mkActive "load" "" None 6 0)) as Hl by (vm_compute; reflexivity).
  assert (resolveTraceContext (RoundTrip 1%positive "stock" "GET" "/items" (span_of 1) no_headers shop_call).2 trace_7 (span_of 8) =
    (trace_7, span_of 8, span_of 1)) as Hres by (vm_compute; reflexivity).
  assert ((seal (k_cfg shop) lifecycleNormal 9 9 (shop_closed, zero_counts)).1 = Some (event_of shop_closed)) as HA by (vm_compute; reflexivity).
  assert ((seal (k_cfg shop) lifecycleNormal 9 9 (stock_begun, zero_counts)).1 = Some (event_of stock_begun)) as HB by (vm_compute; reflexivity).
  assert (span_of 1 ∈ call_spans (event_of shop_closed)) as Hin by (apply (bool_decide_unpack _); vm_compute; exact I).
  assert (span_of 1 ∉ call_spans (event_of stock_begun)) as Hout by (apply (bool_decide_unpack _); vm_compute; exact I).
  assert (forall ev, ev ∈ [event_of shop_closed; event_of stock_begun] -> ev = event_of shop_closed \/ ev = event_of stock_begun) as Hev.
  { intros ev [->|He]%elem_of_cons; [by left|right]. by apply list_elem_of_singleton in He. }
  destruct (call_linked iter_canonical 1%positive "stock" "GET" "/items" (span_of 1) no_headers shop_call (request_of shop_call) _ _ _
    trace_7 (span_of 8) _ _ _ shop_closed _ _ _ _ _ _ _ stock_begun _ _ _ _ _ _ _ [event_of shop_closed; event_of stock_begun]
    Hr eq_refl eq_refl Hl eq_refl ltac:(discriminate) eq_refl (surjective_pairing _) Hres eq_refl (sealed_pair _ _ HA) eq_refl eq_refl
    (sealed_pair _ _ HB) ltac:(discriminate) ltac:(discriminate) ltac:(discriminate) ltac:(by left) ltac:(right; by left) Hin)
    as (H1 & H2 & H3 & H4).
  - intros ev [->| ->]%Hev Hs; [reflexivity|by destruct Hout].
  - intros ev [->| ->]%Hev He; [vm_compute in He; discriminate He|reflexivity].
  - split; [exact H1|split; [exact H2|]]. exact (H3 (H4 eq_refl (or_introl eq_refl))).
Defined.
