(* ===== verification/Middleware.v ===== *)
(** The HTTP middleware of the SDK ([pkg/waylog/http/middleware.go] and the adapters for gin,
    chi and echo): the writer that records the status of a response, and the end of a
    request, which the handler's goroutine and a watchdog timer race for.  Each step of a
    goroutine is a step of the model; the writer below is a log of the calls made on it. *)

From S2P Require Import Prelude GoRuntime GoText Types Schema Transport Request RequestSpec Sdk TraceContext.
Open Scope Z_scope.

(** ** The response writer *)

(** The calls an [http.ResponseWriter] receives; [USet] is a header set on the map its
    [Header] returns. *)
Inductive sent := USet (name value : string) | UHeader (code : Z) | UBody (body : string) | UFlush.

Record statusWriter := mkStatusWriter { sw_status : Z; sw_wroteHeader : bool; sw_sent : list sent }.

Definition wrapResponseWriter : statusWriter := mkStatusWriter 200 false [].

(** What a handler does with its writer. *)
Inductive action := AHeader (name value : string) | AWriteHeader (code : Z) | AWrite (body : string) | AReadFrom (body : string) | AFlush.

Section Writer.
Context {S : Type} (p : positive).
(** Whether the writer below is an [http.Flusher]. *)
Variable flusher : bool.

Definition pass (u : sent) (w : statusWriter) : statusWriter := mkStatusWriter (sw_status w) (sw_wroteHeader w) (sw_sent w ++ [u]).

Definition WriteHeader (statusCode : Z) (w : statusWriter) (s : sdk S) : statusWriter * sdk S :=
  if sw_wroteHeader w then (w, s) else
  (mkStatusWriter statusCode true (sw_sent w ++ [UHeader statusCode]), default s (on_request p (OHTTPStatus statusCode) s)).

Definition first_header (w : statusWriter) (s : sdk S) : statusWriter * sdk S :=
  if negb (sw_wroteHeader w) then WriteHeader 200 w s else (w, s).

Definition Write (b : string) (w : statusWriter) (s : sdk S) : statusWriter * sdk S :=
  let '(w, s) := first_header w s in (pass (UBody b) w, s).

(** [ReadFrom]: what the reader holds reaches the writer below either way. *)
Definition ReadFrom (b : string) (w : statusWriter) (s : sdk S) : statusWriter * sdk S :=
  let '(w, s) := first_header w s in (pass (UBody b) w, s).

Definition Flush (w : statusWriter) (s : sdk S) : statusWriter * sdk S :=
  let '(w, s) := first_header w s in (if flusher then pass UFlush w else w, s).

Definition act (a : action) (w : statusWriter) (s : sdk S) : statusWriter * sdk S :=
  match a with
  | AHeader name value => (pass (USet name value) w, s)
  | AWriteHeader code => WriteHeader code w s
  | AWrite b => Write b w s
  | AReadFrom b => ReadFrom b w s
  | AFlush => Flush w s
  end.
End Writer.

(** ** One request *)

(** Where the handler's goroutine is: in the handler, before the exchange of [sealed], before
    its finalization, before the deferred [Stop] of the timer, or done. *)
Inductive main_pc := Running | Delivering (k : lifecycleKind) (recovered : option string)
  | Finalizing (k : lifecycleKind) (recovered : option string) | Stopping | Done.

(** Where the watchdog is: off, waiting, fired, past the exchange, stopped, or done. *)
Inductive timer_pc := Disabled | Armed | Fired | TimerFinalizing (k : lifecycleKind) | Stopped | Expired.

(** An event made for the request: how, and what had been sent by then. *)
Record made := mkMade { md_kind : lifecycleKind; md_event : Event; md_sent : list sent }.

Record exchange (S : Type) := mkExchange {
  x_sdk : sdk S;
  x_writer : statusWriter;
  x_sealed : bool;
  x_main : main_pc;
  x_timer : timer_pc;
  x_made : list made;
  x_signals : list SdkSignal
}.
Arguments mkExchange {S}.
Arguments x_sdk {S}. Arguments x_writer {S}. Arguments x_sealed {S}. Arguments x_main {S}.
Arguments x_timer {S}. Arguments x_made {S}. Arguments x_signals {S}.

(** [routePattern]. *)
Definition routePattern (pattern path : string) : string := if negb (String.eqb pattern "") then pattern else path.

Inductive label :=
| LAct (a : action)
| LOp (o : op)
| LReturn (cancelled : bool)
| LPanic (recovered : string)
| LSwap
| LFinalize (mark tsEnd : Time) (now : Z)
| LStop
| LFire
| LTimerSwap
| LTimerFinalize (mark tsEnd : Time) (now : Z)
| LOther (c : call).

Definition call_request (c : call) : positive := match c with KBegin p _ _ _ _ _ => p | KOp p _ => p | KFinalize p _ _ _ _ => p end.

Section Exchange.
Context {S : Type} `{K : Sink S} (p : positive) (flusher hooks : bool).

(** [ServeHTTP] up to the call of the handler; [age] is [MaxRequestAge]. *)
Definition ServeHTTP (Get : string -> string) (method route pattern path : string) (newTraceID newSpanID eventID : string)
    (clock : Time) (age : Z) (s : sdk S) : exchange S :=
  let '(traceID, spanID, parentSpanID) := resolveTraceContext Get newTraceID newSpanID in
  let s := Begin p (mkBegin traceID spanID parentSpanID 0) eventID "" "" clock s in
  let route := if String.eqb route "" then routePattern pattern path else route in
  let s := default s (on_request p (OSetField "http"
             (VMap (Some (<["method" := VStr method]> (<["route" := VStr route]> {["status" := VInt 200]}))))) s) in
  mkExchange s wrapResponseWriter false Running (if 0 <? age then Armed else Disabled) [] [].

Definition set_main (x : exchange S) (m : main_pc) : exchange S :=
  mkExchange (x_sdk x) (x_writer x) (x_sealed x) m (x_timer x) (x_made x) (x_signals x).
Definition set_timer (x : exchange S) (t : timer_pc) : exchange S :=
  mkExchange (x_sdk x) (x_writer x) (x_sealed x) (x_main x) t (x_made x) (x_signals x).
Definition set_x_sdk (x : exchange S) (s : sdk S) : exchange S :=
  mkExchange s (x_writer x) (x_sealed x) (x_main x) (x_timer x) (x_made x) (x_signals x).
Definition set_writer (x : exchange S) '((w, s) : statusWriter * sdk S) : exchange S :=
  mkExchange s w (x_sealed x) (x_main x) (x_timer x) (x_made x) (x_signals x).

(** The exchange of [deliver]: who loses it finalizes plainly. *)
Definition swap (x : exchange S) (k : lifecycleKind) : lifecycleKind * exchange S :=
  if x_sealed x then (lifecycleNormal, x) else
  (k, mkExchange (x_sdk x) (x_writer x) true (x_main x) (x_timer x) (x_made x) (x_signals x)).

(** [Finalize], [FinalizeTimeout], [FinalizeAborted] and [FinalizePanic], which also posts a
    signal when the runtime hooks are on. *)
Definition finalize_as (k : lifecycleKind) (recovered : option string) (mark tsEnd : Time) (now : Z) (x : exchange S) : exchange S :=
  let '((oev, _), s) := finalize p k mark tsEnd now (x_sdk x) in
  let made := match oev with Some ev => [mkMade k ev (sw_sent (x_writer x))] | None => [] end in
  let signals := match oev, k with Some _, lifecyclePanic => if hooks then [panicSignal (k_cfg s) recovered] else [] | _, _ => [] end in
  mkExchange s (x_writer x) (x_sealed x) (x_main x) (x_timer x) (x_made x ++ made) (x_signals x ++ signals).

(** One step; [None] when the goroutine that would take it is elsewhere.  The handler, and
    goroutines it left behind, may call the SDK at any time, on this request and others. *)
Definition step (l : label) (x : exchange S) : option (exchange S) :=
  match l, x_main x, x_timer x with
  | LAct a, Running, _ => Some (set_writer x (act p flusher a (x_writer x) (x_sdk x)))
  | LOp o, _, _ => s ← on_request p o (x_sdk x); Some (set_x_sdk x s)
  | LReturn cancelled, Running, _ => Some (set_main x (Delivering (if cancelled then lifecycleAborted else lifecycleNormal) None))
  | LPanic recovered, Running, _ =>
    let x := if negb (sw_wroteHeader (x_writer x)) then set_writer x (WriteHeader p 500 (x_writer x) (x_sdk x)) else x in
    Some (set_main x (Delivering lifecyclePanic (Some recovered)))
  | LSwap, Delivering k recovered, _ => let '(k, x) := swap x k in Some (set_main x (Finalizing k recovered))
  | LFinalize mark tsEnd now, Finalizing k recovered, _ => Some (set_main (finalize_as k recovered mark tsEnd now x) Stopping)
  | LStop, Stopping, t => Some (set_timer (set_main x Done) (match t with Armed => Stopped | t => t end))
  | LFire, _, Armed => Some (set_timer x Fired)
  | LTimerSwap, _, Fired => let '(k, x) := swap x lifecycleTimeout in Some (set_timer x (TimerFinalizing k))
  | LTimerFinalize mark tsEnd now, _, TimerFinalizing k => Some (set_timer (finalize_as k None mark tsEnd now x) Expired)
  | LOther c, _, _ => if decide (call_request c = p) then None else s ← do_call c (x_sdk x); Some (set_x_sdk x s)
  | _, _, _ => None
  end.

Fixpoint run (l : list label) (x : exchange S) : option (exchange S) :=
  match l with [] => Some x | a :: l => x ← step a x; run l x end.
End Exchange.

(** Both goroutines have ended. *)
Definition finished {S} (x : exchange S) : Prop :=
  x_main x = Done /\ match x_timer x with Disabled | Stopped | Expired => True | _ => False end.

(** ** What a step does to the request *)

Section Steps.
Context {S : Type} `{K : Sink S}.

Lemma on_request_inv p o (s s' : sdk S) r : k_requests s !! p = Some r -> on_request p o s = Some s' ->
  exists r' c', run_op o (r, k_counts s) = Some (r', c') /\ s' = set_request s p r' c'.
Proof.
  intros Hr. unfold on_request. rewrite Hr. destruct (run_op o (r, k_counts s)) as [[r' c']|]; [|done].
  intros [= <-]. by exists r', c'.
Qed.

Lemma on_request_status p code (s : sdk S) r : k_requests s !! p = Some r ->
  default s (on_request p (OHTTPStatus code) s) = set_request s p (SetHTTPStatus code r) (k_counts s).
Proof. intros Hr. unfold on_request. by rewrite Hr. Qed.

Lemma deliver_cfg now ev (s : sdk S) : k_cfg (deliver now ev s).2 = k_cfg s.
Proof. unfold deliver. destruct (allowEvent _ _ _ _) as [[] rt]; [|done]. simpl. by destruct (sink_deliver ev (k_sink s)). Qed.

Lemma finalize_cfg p k mark tsEnd now (s : sdk S) : k_cfg (finalize p k mark tsEnd now s).2 = k_cfg s.
Proof.
  unfold finalize. destruct (k_requests s !! p) as [r|]; [|done]. destruct (seal _ _ _ _ _) as [[ev|] [r' c']]; [|done].
  destruct (deliver now ev _) as [res s2] eqn:E. match type of E with deliver _ _ ?s1 = _ => pose proof (deliver_cfg now ev s1) as H end.
  rewrite E in H. simpl in H. destruct res as [[]|]; simpl; [by destruct (String.eqb _ _)|done|done].
Qed.

(** A call on another request. *)
Lemma do_call_other c p (s s' : sdk S) : call_request c <> p -> do_call c s = Some s' ->
  k_requests s' !! p = k_requests s !! p /\ k_cfg s' = k_cfg s.
Proof.
  destruct c as [q opts e t sp clock|q o|q k mark tsEnd now]; cbn [call_request do_call]; intros Hq.
  - case_decide; [done|]. intros [= <-]. unfold Begin. destruct (k_limits s) as [[ms ml] mb]. simpl. by rewrite lookup_insert_ne.
  - unfold on_request. destruct (k_requests s !! q) as [r|]; [|by intros [= <-]].
    destruct (run_op o (r, k_counts s)) as [[r' c']|]; [|done]. intros [= <-]. simpl. by rewrite lookup_insert_ne.
  - intros [= <-]. split; [|apply finalize_cfg]. destruct (k_requests s !! q) as [r|] eqn:Hr.
    + destruct (finalize_frame q k mark tsEnd now s r Hr) as (r' & _ & -> & _). by rewrite lookup_insert_ne.
    + unfold finalize. by rewrite Hr.
Qed.

(** Finalizing makes an event of an open request and none of a sealed one. *)
Lemma finalize_made p k mark tsEnd now (s : sdk S) r : k_requests s !! p = Some r ->
  exists oev err s' r', finalize p k mark tsEnd now s = ((oev, err), s') /\ k_requests s' !! p = Some r' /\ sealed r' = true /\
    match oev with
    | Some ev => sealed r = false /\ exists c1 s1, seal (k_cfg s) k mark tsEnd (r, c1) = (Some ev, s1)
    | None => sealed r = true /\ r' = r
    end.
Proof.
  intros Hr. destruct (finalize_frame p k mark tsEnd now s r Hr) as (r' & Hs & Hq & _).
  destruct (finalize p k mark tsEnd now s) as [[oev err] s'] eqn:E. cbn [snd] in Hq. exists oev, err, s', r'.
  split; [done|]. rewrite Hq, lookup_insert_eq. split; [done|split; [done|]].
  unfold finalize in E. rewrite Hr in E. destruct (seal _ k mark tsEnd _) as [oe [r1 c1]] eqn:Es.
  pose proof (seal_result _ _ _ _ _ _ _ _ _ Es) as (_ & Hn & Hsame). destruct oe as [ev|].
  - assert (sealed r = false) as Ho by (destruct (sealed r); [by specialize (proj2 Hn eq_refl)|done]).
    destruct (deliver now ev _) as [res s2]. destruct res as [acc|]; injection E as <- <- <-; (split; [done|by eauto]).
  - injection E as <- <- <-. specialize (proj1 Hn eq_refl) as H1. split; [done|]. simpl in Hq.
    apply (f_equal (fun m => m !! p)) in Hq. rewrite !lookup_insert_eq in Hq. simplify_eq. by apply Hsame.
Qed.
End Steps.

(** ** The race *)

(** How the handler ended, if it did. *)
Definition ending_label (a : label) : option lifecycleKind :=
  match a with
  | LReturn cancelled => Some (if cancelled then lifecycleAborted else lifecycleNormal)
  | LPanic _ => Some lifecyclePanic
  | _ => None
  end.
Definition ending (l : list label) : option lifecycleKind := head (omap ending_label l).

Definition unfired (t : timer_pc) : bool := match t with Disabled | Armed | Stopped => true | _ => false end.

(** What holds at every point of a run. *)
Record good {S} (p : positive) (l : list label) (x : exchange S) : Prop := {
  gd_request : exists r, k_requests (x_sdk x) !! p = Some r /\
    (if sealed r then exists m, x_made x = [m] else x_made x = []) /\
    match x_main x with Stopping | Done => sealed r = true | _ => True end /\
    match x_timer x with Expired => sealed r = true | _ => True end;
  gd_tracked : tracked (x_sdk x);
  gd_sent : Forall (fun m => md_sent m `prefix_of` sw_sent (x_writer x)) (x_made x);
  gd_fired : LFire ∉ l -> unfired (x_timer x) = true;
  gd_ending : ending l = match x_main x with Running => None | Delivering k _ => Some k | _ => ending l end;
  gd_ended : match x_main x with Running => True | _ => is_Some (ending l) end;
  gd_first : unfired (x_timer x) = true ->
    match x_main x with
    | Running | Delivering _ _ => x_sealed x = false /\ x_made x = []
    | Finalizing k _ => ending l = Some k /\ x_made x = []
    | Stopping | Done => exists m, x_made x = [m] /\ ending l = Some (md_kind m) /\ md_sent m = sw_sent (x_writer x)
    end;
  gd_stopped : x_main x = Done -> x_timer x <> Armed;
  gd_kinds : match x_main x with Finalizing k _ => ending l = Some k \/ k = lifecycleNormal | _ => True end;
  gd_timer : match x_timer x with TimerFinalizing k => k = lifecycleTimeout \/ k = lifecycleNormal | _ => True end;
  gd_made : Forall (fun m => ending l = Some (md_kind m) \/ md_kind m = lifecycleTimeout \/ md_kind m = lifecycleNormal) (x_made x)
}.

Lemma ending_snoc l a : ending (l ++ [a]) = match ending l with Some k => Some k | None => ending_label a end.
Proof. unfold ending. rewrite omap_app. destruct (omap ending_label l) as [|k ks]; [simpl; by destruct (ending_label a)|done]. Qed.

Section Race.
Context {S : Type} `{K : Sink S} (p : positive) (flusher hooks : bool).

Lemma on_request_kept o (s s' : sdk S) r : k_requests s !! p = Some r -> tracked s -> on_request p o s = Some s' ->
  exists r', k_requests s' !! p = Some r' /\ sealed r' = sealed r /\ tracked s'.
Proof.
  intros Hr T E. destruct (on_request_inv p o s s' r Hr E) as (r' & c' & Ho & ->). exists r'. simpl. rewrite lookup_insert_eq.
  split; [done|split; [by apply op_frame in Ho as (_ & H & _)|]]. by eapply (tracked_call (KOp p o)).
Qed.

Lemma WriteHeader_kept code w (s : sdk S) r : k_requests s !! p = Some r -> tracked s ->
  sw_sent w `prefix_of` sw_sent (WriteHeader p code w s).1 /\
  exists r', k_requests (WriteHeader p code w s).2 !! p = Some r' /\ sealed r' = sealed r /\ tracked (WriteHeader p code w s).2.
Proof.
  intros Hr T. unfold WriteHeader. destruct (sw_wroteHeader w); [by eauto|]. split; [by eexists|].
  assert (is_Some (on_request p (OHTTPStatus code) s)) as [s' Hs'] by (unfold on_request; rewrite Hr; by eexists).
  simpl. rewrite Hs'. by eapply on_request_kept.
Qed.

Lemma act_kept a w (s : sdk S) r : k_requests s !! p = Some r -> tracked s ->
  sw_sent w `prefix_of` sw_sent (act p flusher a w s).1 /\
  exists r', k_requests (act p flusher a w s).2 !! p = Some r' /\ sealed r' = sealed r /\ tracked (act p flusher a w s).2.
Proof.
  intros Hr T.
  assert (sw_sent w `prefix_of` sw_sent (first_header p w s).1 /\
    exists r', k_requests (first_header p w s).2 !! p = Some r' /\ sealed r' = sealed r /\ tracked (first_header p w s).2) as [Hp H].
  { unfold first_header. destruct (sw_wroteHeader w); [by eauto|]. by apply WriteHeader_kept. }
  destruct a; cbn [act].
  - split; [by eexists|by eauto].
  - by apply WriteHeader_kept.
  - unfold Write. destruct (first_header p w s) as [w1 s1]. split; [|done]. simpl in *. etransitivity; [exact Hp|by eexists].
  - unfold ReadFrom. destruct (first_header p w s) as [w1 s1]. split; [|done]. simpl in *. etransitivity; [exact Hp|by eexists].
  - unfold Flush. destruct (first_header p w s) as [w1 s1]. destruct flusher; split; try done. simpl in *. etransitivity; [exact Hp|by eexists].
Qed.

(** Steps that only change the SDK, or the writer while the handler runs. *)
Lemma good_quiet l l' (x : exchange S) s' w' r r' : good p l x -> ending l' = ending l -> (LFire ∉ l' -> LFire ∉ l) ->
  k_requests (x_sdk x) !! p = Some r ->
  k_requests s' !! p = Some r' -> sealed r' = sealed r -> tracked s' -> sw_sent (x_writer x) `prefix_of` sw_sent w' ->
  match x_main x with Running => True | _ => w' = x_writer x end ->
  @good S p l' (mkExchange s' w' (x_sealed x) (x_main x) (x_timer x) (x_made x) (x_signals x)).
Proof.
  intros [(r0 & G1 & G2) G3 G4 G5 G6 G7 G8 GS G9 G10 G11] He Hf Hr Hr' Hs T Hp Hw. rewrite Hr in G1. injection G1 as <-.
  split; simpl; rewrite ?He; try done.
  - exists r'. split; [done|]. rewrite Hs. exact G2.
  - eapply Forall_impl; [exact G4|]. intros m Hm. by transitivity (sw_sent (x_writer x)).
  - intros H. by apply G5, Hf.
  - intros H. specialize (G8 H). destruct (x_main x); try done; subst w'; done.
Qed.

(** The handler ends. *)
Lemma good_end l a k recovered (x : exchange S) : good p l x -> x_main x = Running -> ending_label a = Some k -> a <> LFire ->
  good p (l ++ [a]) (set_main x (Delivering k recovered)).
Proof.
  intros [(r & G1 & G2) G3 G4 G5 G6 G7 G8 GS G9 G10 G11] Em Ha Hf. rewrite Em in *.
  assert (ending (l ++ [a]) = Some k) as He by (by rewrite ending_snoc, G6).
  split; simpl; rewrite ?He; try done.
  - exists r. tauto.
  - intros H. apply G5. rewrite elem_of_app in H. tauto.
  - eapply Forall_impl; [exact G11|]. intros m [Hm|Hm]; [by rewrite G6 in Hm|tauto].
Qed.

(** A finalization, by whichever goroutine. *)
Lemma finalize_as_spec l k recovered mark tsEnd now (x : exchange S) : good p l x ->
  exists s' made sg r', finalize_as p hooks k recovered mark tsEnd now x =
      mkExchange s' (x_writer x) (x_sealed x) (x_main x) (x_timer x) (x_made x ++ made) (x_signals x ++ sg) /\
    k_requests s' !! p = Some r' /\ sealed r' = true /\ tracked s' /\
    (x_made x = [] /\ (exists ev, made = [mkMade k ev (sw_sent (x_writer x))]) \/ (exists m, x_made x = [m]) /\ made = []).
Proof.
  intros [(r & G1 & G2) G3 G4 G5 G6 G7 G8 GS G9 G10 G11].
  destruct (finalize_made p k mark tsEnd now (x_sdk x) r G1) as (oev & err & s' & r' & E & Hr' & Hs & Hcase).
  pose proof (tracked_call (KFinalize p k mark tsEnd now) (x_sdk x) s' G3) as T. simpl in T. rewrite E in T.
  unfold finalize_as. rewrite E. eexists s', _, _, r'. split; [done|split; [done|split; [done|split; [by apply T|]]]].
  destruct oev as [ev|].
  - destruct Hcase as [Ho _]. rewrite Ho in G2. left. split; [tauto|by eexists].
  - destruct Hcase as [Ho _]. rewrite Ho in G2. right. split; [tauto|done].
Qed.

Lemma made_sent (made : list made) w : Forall (fun m => md_sent m `prefix_of` w) made -> forall k ev, Forall (fun m => md_sent m `prefix_of` w) (made ++ [mkMade k ev w]).
Proof. intros H k ev. apply Forall_app. split; [done|]. by repeat constructor. Qed.

Lemma good_step l a (x x' : exchange S) : good p l x -> step p flusher hooks a x = Some x' -> good p (l ++ [a]) x'.
Proof.
  intros G E. pose proof G as [(r & G1 & G2) G3 G4 G5 G6 G7 G8 GS G9 G10 G11].
  assert (ending_label a = None -> ending (l ++ [a]) = ending l) as He.
  { intros H. rewrite ending_snoc, H. by destruct (ending l). }
  assert (LFire ∉ l ++ [a] -> LFire ∉ l) as Hf by (intros H ?; apply H, elem_of_app; by left).
  destruct a as [a|o|cancelled|recovered| |mark tsEnd now| | | |mark tsEnd now|c]; unfold step in E; try specialize (He eq_refl).
  - destruct (x_main x) eqn:Em; try done. injection E as <-.
    destruct (act_kept a (x_writer x) (x_sdk x) r G1 G3) as (Hp & r' & Hr' & Hs & T).
    destruct (act p flusher a (x_writer x) (x_sdk x)) as [w s]. unfold set_writer. eapply good_quiet; try done. by rewrite Em.
  - assert (exists s, on_request p o (x_sdk x) = Some s /\ x' = set_x_sdk x s) as (s & Es & ->).
    { destruct (x_main x); destruct (x_timer x); destruct (on_request p o (x_sdk x)) as [s|]; by simplify_eq/=; eauto. }
    destruct (on_request_kept o (x_sdk x) s r G1 G3 Es) as (r' & Hr' & Hs & T). eapply good_quiet; try done. by destruct (x_main x).
  - destruct (x_main x) eqn:Em; try done. injection E as <-. by eapply good_end.
  - destruct (x_main x) eqn:Em; try done. injection E as <-. destruct (sw_wroteHeader (x_writer x)); cbn [negb]; [by eapply good_end|].
    destruct (WriteHeader_kept 500 (x_writer x) (x_sdk x) r G1 G3) as (Hp & r' & Hr' & Hs & T).
    destruct (WriteHeader p 500 (x_writer x) (x_sdk x)) as [w s]. apply good_end with (k := lifecyclePanic); try done.
    unfold set_writer. eapply good_quiet; try done. by rewrite Em.
  - destruct (x_main x) as [|k rec_| | |] eqn:Em; try done. unfold swap in E. destruct (x_sealed x) eqn:Ex; injection E as <-;
      split; simpl; rewrite ?He; eauto; try (intros H; destruct (G8 H)); done.
  - destruct (x_main x) as [| |k rec_| |] eqn:Em; try done. injection E as <-.
    destruct (finalize_as_spec l k rec_ mark tsEnd now x G) as (s' & made & sg & r' & -> & Hr' & Hs & T & Hm).
    split; simpl; rewrite ?He; eauto.
    + exists r'. rewrite Hs. split; [done|split; [|by destruct (x_timer x)]]. destruct Hm as [[-> [ev ->]]|[[m ->] ->]]; by eexists.
    + destruct Hm as [[-> [ev ->]]|[_ ->]]; [by repeat constructor|by rewrite app_nil_r].
    + intros H. destruct (G8 H) as [H1 H2]. rewrite H2 in *. destruct Hm as [[_ [ev ->]]|[[m Hm] _]]; [by eexists|done].
    + destruct Hm as [[-> [ev ->]]|[_ ->]]; [|by rewrite app_nil_r]. apply Forall_singleton. simpl. tauto.
  - destruct (x_main x) eqn:Em; try done. injection E as <-. destruct (x_timer x) eqn:Et; split; simpl; rewrite ?He, ?Em; eauto.
  - assert (x_timer x = Armed /\ x' = set_timer x Fired) as [Et ->].
    { destruct (x_main x); destruct (x_timer x); by simplify_eq/=. }
    rewrite Et in *. split; simpl; rewrite ?He; eauto; try done. intros H. destruct H. apply elem_of_app. right. by left.
  - assert (x_timer x = Fired /\ x' = let '(k, x) := swap x lifecycleTimeout in set_timer x (TimerFinalizing k)) as [Et ->].
    { destruct (x_main x); destruct (x_timer x); try done; destruct (swap x lifecycleTimeout); by simplify_eq/=. }
    rewrite Et in *. unfold swap. destruct (x_sealed x) eqn:Ex; split; simpl; rewrite ?He; eauto; try done; by intros H%Hf%G5.
  - assert (exists k, x_timer x = TimerFinalizing k /\ x' = set_timer (finalize_as p hooks k None mark tsEnd now x) Expired) as (k & Et & ->).
    { destruct (x_main x); destruct (x_timer x); try done; simplify_eq/=; by eexists. }
    destruct (finalize_as_spec l k None mark tsEnd now x G) as (s' & made & sg & r' & -> & Hr' & Hs & T & Hm). rewrite Et in *.
    split; simpl; rewrite ?He; eauto; try done; try (by intros H%Hf%G5).
    + exists r'. rewrite Hs. split; [done|split; [|by destruct (x_main x)]]. destruct Hm as [[-> [ev ->]]|[[m ->] ->]]; by eexists.
    + destruct Hm as [[-> [ev ->]]|[_ ->]]; [by repeat constructor|by rewrite app_nil_r].
    + destruct Hm as [[-> [ev ->]]|[_ ->]]; [|by rewrite app_nil_r]. apply Forall_singleton. simpl. tauto.
  - assert (call_request c <> p /\ exists s, do_call c (x_sdk x) = Some s /\ x' = set_x_sdk x s) as (Hc & s & Es & ->).
    { destruct (x_main x); destruct (x_timer x); case_decide; try done; (split; [done|]); destruct (do_call c (x_sdk x)) as [s|]; by simplify_eq/=; eauto. }
    destruct (do_call_other c p (x_sdk x) s Hc Es) as [Hr _]. eapply good_quiet; try done; [by rewrite Hr|by eapply tracked_call|by destruct (x_main x)].
Qed.
Lemma good_start Get method route pattern path newTrace newSpan eventID clock age (s : sdk S) : tracked s -> k_requests s !! p = None ->
  good p [] (ServeHTTP p Get method route pattern path newTrace newSpan eventID clock age s).
Proof.
  intros T Hp. unfold ServeHTTP. destruct (resolveTraceContext Get newTrace newSpan) as [[t sp] par].
  set (s1 := Begin p (mkBegin t sp par 0) eventID "" "" clock s). set (o := OSetField _ _).
  assert (tracked s1) as T1.
  { eapply (tracked_call (KBegin p (mkBegin t sp par 0) eventID "" "" clock)); [exact T|]. simpl. by rewrite decide_False by (rewrite Hp; by intros []). }
  assert (exists r, k_requests s1 !! p = Some r /\ sealed r = false) as (r & Hr & Hs).
  { subst s1. unfold Begin. destruct (k_limits s) as [[ms ml] mb]. simpl. rewrite lookup_insert_eq. by eexists. }
  assert (is_Some (on_request p o s1)) as [s2 Es] by (unfold on_request; rewrite Hr; by eexists).
  destruct (on_request_kept o s1 s2 r Hr T1 Es) as (r' & Hr' & Hs' & T2). rewrite Es. cbv zeta.
  split; simpl; try done; try (by destruct (0 <? age)).
  exists r'. rewrite Hs', Hs. split_and!; try done. by destruct (0 <? age).
Qed.

Lemma run_good la : forall l (x x' : exchange S), good p l x -> run p flusher hooks la x = Some x' -> good p (l ++ la) x'.
Proof.
  induction la as [|a la IH]; intros l x x' G E; [simplify_eq/=; by rewrite app_nil_r|]. simpl in E.
  destruct (step p flusher hooks a x) as [x1|] eqn:Es; [|done]. rewrite cons_middle, app_assoc. eapply IH; [|exact E]. by eapply good_step.
Qed.

(** What is left to do once the handler has ended and no timer fires any more. *)
Definition main_closing (mark tsEnd : Time) (now : Z) (m : main_pc) : list label :=
  match m with
  | Running | Done => []
  | Delivering _ _ => [LSwap; LFinalize mark tsEnd now; LStop]
  | Finalizing _ _ => [LFinalize mark tsEnd now; LStop]
  | Stopping => [LStop]
  end.
Definition timer_closing (mark tsEnd : Time) (now : Z) (t : timer_pc) : list label :=
  match t with
  | Fired => [LTimerSwap; LTimerFinalize mark tsEnd now]
  | TimerFinalizing _ => [LTimerFinalize mark tsEnd now]
  | _ => []
  end.

Lemma finalize_as_frame k recovered mark tsEnd now (x : exchange S) :
  x_main (finalize_as p hooks k recovered mark tsEnd now x) = x_main x /\ x_timer (finalize_as p hooks k recovered mark tsEnd now x) = x_timer x.
Proof. unfold finalize_as. by destruct (finalize p k mark tsEnd now (x_sdk x)) as [[oev err] s]. Qed.

Lemma run_app la lb : forall (x : exchange S), run p flusher hooks (la ++ lb) x = (y ← run p flusher hooks la x; run p flusher hooks lb y).
Proof. induction la as [|a la IH]; intros x; [done|]. simpl. destruct (step p flusher hooks a x); [apply IH|done]. Qed.

Lemma swap_frame k (x : exchange S) : x_main (swap x k).2 = x_main x /\ x_timer (swap x k).2 = x_timer x.
Proof. unfold swap. by destruct (x_sealed x). Qed.

Lemma main_closing_ends mark tsEnd now (x : exchange S) : x_main x <> Running -> exists x',
  run p flusher hooks (main_closing mark tsEnd now (x_main x)) x = Some x' /\ x_main x' = Done /\
  x_timer x' = match x_main x, x_timer x with Done, t => t | _, Armed => Stopped | _, t => t end.
Proof.
  assert (forall y : exchange S, x_main y = Stopping -> exists x', run p flusher hooks [LStop] y = Some x' /\ x_main x' = Done /\
    x_timer x' = match x_timer y with Armed => Stopped | t => t end) as H1.
  { intros y Hy. cbn [run step]. rewrite Hy. cbn [mbind option_bind]. eexists. split; [reflexivity|split; [done|simpl; by destruct (x_timer y)]]. }
  assert (forall (y : exchange S) k r, x_main y = Finalizing k r -> exists x', run p flusher hooks [LFinalize mark tsEnd now; LStop] y = Some x' /\
    x_main x' = Done /\ x_timer x' = match x_timer y with Armed => Stopped | t => t end) as H2.
  { intros y k r Hy. change [LFinalize mark tsEnd now; LStop] with ([LFinalize mark tsEnd now] ++ [LStop]). rewrite run_app.
    cbn [run step]. rewrite Hy. cbn [mbind option_bind].
    destruct (H1 (set_main (finalize_as p hooks k r mark tsEnd now y) Stopping) eq_refl) as (x' & E & Hd & Ht).
    exists x'. split; [exact E|split; [done|]]. rewrite Ht. simpl. by rewrite (proj2 (finalize_as_frame k r mark tsEnd now y)). }
  intros Hm. destruct (x_main x) as [|k r|k r| |] eqn:Em; cbn [main_closing].
  - done.
  - change [LSwap; LFinalize mark tsEnd now; LStop] with ([LSwap] ++ [LFinalize mark tsEnd now; LStop]). rewrite run_app.
    cbn [run step]. rewrite Em. pose proof (swap_frame k x) as [_ Hsw]. destruct (swap x k) as [k1 x1]. cbn [mbind option_bind].
    destruct (H2 (set_main x1 (Finalizing k1 r)) k1 r eq_refl) as (x' & E & Hd & Ht). exists x'. rewrite Ht. simpl in *. by rewrite Hsw.
  - destruct (H2 x k r Em) as (x' & E). by exists x'.
  - destruct (H1 x Em) as (x' & E). by exists x'.
  - by exists x.
Qed.

Lemma timer_closing_ends mark tsEnd now (x : exchange S) : x_main x = Done -> x_timer x <> Armed -> exists x',
  run p flusher hooks (timer_closing mark tsEnd now (x_timer x)) x = Some x' /\ finished x'.
Proof.
  assert (forall (y : exchange S) k, x_main y = Done -> x_timer y = TimerFinalizing k -> exists x',
    run p flusher hooks [LTimerFinalize mark tsEnd now] y = Some x' /\ finished x') as H1.
  { intros y k Hy Ht. cbn [run step]. rewrite Ht. eexists. split; [done|]. unfold finished. simpl.
    by rewrite (proj1 (finalize_as_frame k None mark tsEnd now y)). }
  intros Hm Ha. destruct (x_timer x) as [| | |k| |] eqn:Et; cbn [timer_closing]; try (exists x; split; [done|by split; rewrite ?Et]); try done.
  - change [LTimerSwap; LTimerFinalize mark tsEnd now] with ([LTimerSwap] ++ [LTimerFinalize mark tsEnd now]). rewrite run_app.
    cbn [run step]. rewrite Et. pose proof (swap_frame lifecycleTimeout x) as [Hs _]. destruct (swap x lifecycleTimeout) as [k1 x1].
    cbn [mbind option_bind]. apply (H1 _ k1); [|done]. simpl in *. congruence.
  - by apply (H1 x k).
Qed.
End Race.

(** C38: One request, one event.  However the handler behaves, whatever other requests do, and
    wherever the watchdog fires between the steps of the handler's goroutine, at most one
    event is made for a request; when both goroutines have ended exactly one was, and the
    request is sealed and no longer active.  The event ends as the handler did, as a
    timeout, or as a plain completion, and if the watchdog never fires it ends as the
    handler did, made when all of the response was sent.  Once the handler has ended, both
    goroutines end within five steps of their own. *)
Theorem one_event_per_request {S} `{K : Sink S} p flusher hooks Get method route pattern path newTrace newSpan eventID clock age (s : sdk S) l x :
  tracked s -> k_requests s !! p = None ->
  run p flusher hooks l (ServeHTTP p Get method route pattern path newTrace newSpan eventID clock age s) = Some x ->
  (length (x_made x) <= 1)%nat /\
  (finished x -> exists m r, x_made x = [m] /\ k_requests (x_sdk x) !! p = Some r /\ sealed r = true /\ (p ∉ k_active (x_sdk x)) /\
     (ending l = Some (md_kind m) \/ md_kind m = lifecycleTimeout \/ md_kind m = lifecycleNormal) /\
     (LFire ∉ l -> ending l = Some (md_kind m) /\ md_sent m = sw_sent (x_writer x))) /\
  (x_main x <> Running -> forall mark tsEnd now, exists x',
     run p flusher hooks (main_closing mark tsEnd now (x_main x) ++
       timer_closing mark tsEnd now (match x_main x, x_timer x with Done, t => t | _, Armed => Stopped | _, t => t end)) x = Some x' /\
     finished x').
Proof.
  intros T Hp E. eapply run_good in E; [|by apply good_start]. rewrite app_nil_l in E.
  pose proof E as [(r & G1 & G2 & G3 & _) GT _ GF _ _ GR GS _ _ GM]. split; [|split].
  - destruct (sealed r); [by destruct G2 as [m ->]|rewrite G2; simpl; lia].
  - intros [Hm Ht]. rewrite Hm in *. rewrite G3 in G2. destruct G2 as [m Hmade]. exists m, r. split_and!; try done.
    + rewrite (GT p). intros (r' & Hr' & Hs). congruence.
    + rewrite Hmade in GM. by inversion_clear GM.
    + intros Hf. destruct (GR (GF Hf)) as (m' & Hm' & H). rewrite Hmade in Hm'. by injection Hm' as <-.
  - intros Hm mark tsEnd now. destruct (main_closing_ends p flusher hooks mark tsEnd now x Hm) as (x1 & E1 & Hd & Ht).
    rewrite run_app, E1, <- Ht. simpl. apply timer_closing_ends; [done|]. rewrite Ht.
    destruct (x_main x); try done; destruct (x_timer x); try done. by specialize (GS eq_refl).
Qed.

(** ** The response and its record *)

Definition code_sent (u : sent) : option Z := match u with UHeader code => Some code | _ => None end.
Definition body_sent (u : sent) : option string := match u with UBody body => Some body | _ => None end.
Definition is_content (u : sent) : bool := match u with UBody _ | UFlush => true | _ => false end.

(** The status an action asks for, and the body it writes. *)
Definition wants (a : action) : option Z :=
  match a with AHeader _ _ => None | AWriteHeader code => Some code | AWrite _ | AReadFrom _ | AFlush => Some 200 end.
Definition body_of (a : action) : option string := match a with AWrite b | AReadFrom b => Some b | _ => None end.
Definition label_code (l : label) : option Z := match l with LAct a => wants a | LPanic _ => Some 500 | _ => None end.
Definition label_body (l : label) : option string := match l with LAct a => body_of a | _ => None end.

(** The status of the response: the first the handler asks for, 500 when it panics first. *)
Definition status_of (l : list label) : option Z := head (omap label_code l).
Definition bodies_of (l : list label) : list string := omap label_body l.

(** A writer that was asked for status [c] first and has written [bodies]. *)
Record answered (c : option Z) (bodies : list string) (w : statusWriter) : Prop := {
  an_wrote : sw_wroteHeader w = bool_decide (is_Some c);
  an_status : sw_status w = default 200 c;
  an_codes : omap code_sent (sw_sent w) = option_list c;
  an_bodies : omap body_sent (sw_sent w) = bodies;
  an_order : forall pre u post, sw_sent w = pre ++ u :: post -> is_content u = true -> omap code_sent pre <> []
}.

Lemma snoc_split {A} (l pre post : list A) (u v : A) : l ++ [v] = pre ++ u :: post ->
  (exists post', l = pre ++ u :: post') \/ pre = l /\ u = v.
Proof.
  intros H. destruct post as [|y post _] using rev_ind.
  - apply app_inj_tail in H as [-> ->]. by right.
  - left. exists post. rewrite app_comm_cons, app_assoc in H. by apply app_inj_tail in H as [-> _].
Qed.

Lemma answered_pass c bodies u w : answered c bodies w -> code_sent u = None -> (is_content u = true -> c <> None) ->
  answered c (bodies ++ option_list (body_sent u)) (pass u w).
Proof.
  intros [H1 H2 H3 H4 H5] Hu Hc. split; simpl; try done.
  - rewrite omap_app, H3. simpl. by rewrite Hu, app_nil_r.
  - rewrite omap_app, H4. simpl. by destruct (body_sent u).
  - intros pre v post [[post' E]|[-> ->]]%snoc_split Hv; [by eapply H5|]. rewrite H3. specialize (Hc Hv). by destruct c.
Qed.

Section Answer.
Context {S : Type} (p : positive).

Lemma answered_WriteHeader c bodies code w (s : sdk S) : answered c bodies w -> answered (Some (default code c)) bodies (WriteHeader p code w s).1.
Proof.
  intros [H1 H2 H3 H4 H5]. unfold WriteHeader. rewrite H1. destruct c as [c|]; simpl; [by split|]. split; simpl; try done.
  - by rewrite omap_app, H3.
  - by rewrite omap_app, H4, app_nil_r.
  - intros pre v post [[post' E]|[-> ->]]%snoc_split Hv; [by eapply H5|done].
Qed.

Lemma answered_first c bodies w (s : sdk S) : answered c bodies w -> answered (Some (default 200 c)) bodies (first_header p w s).1.
Proof.
  intros H. unfold first_header. destruct (sw_wroteHeader w) eqn:E; cbn [negb]; [|by apply answered_WriteHeader].
  pose proof (an_wrote _ _ _ H) as E2. rewrite E in E2. symmetry in E2. apply bool_decide_eq_true in E2 as [c' ->]. exact H.
Qed.

Lemma answered_act flusher c bodies a w (s : sdk S) : answered c bodies w ->
  answered (match wants a with Some code => Some (default code c) | None => c end) (bodies ++ option_list (body_of a)) (act p flusher a w s).1.
Proof.
  intros H. destruct a as [n v|code|b|b|]; cbn [act wants body_of].
  - by apply (answered_pass _ _ (USet n v)).
  - rewrite app_nil_r. by apply answered_WriteHeader.
  - apply (answered_first _ _ _ s) in H. unfold Write. destruct (first_header p w s) as [w1 s1]. by apply (answered_pass _ _ (UBody b)).
  - apply (answered_first _ _ _ s) in H. unfold ReadFrom. destruct (first_header p w s) as [w1 s1]. by apply (answered_pass _ _ (UBody b)).
  - apply (answered_first _ _ _ s) in H. unfold Flush. destruct (first_header p w s) as [w1 s1].
    destruct flusher; [by apply (answered_pass _ _ UFlush)|by rewrite app_nil_r].
Qed.

(** What an open request says of its response. *)
Definition shows (method : string) (status : Z) (f : gmap string value) : Prop :=
  exists m, f !! "http" = Some (VMap (Some m)) /\ m !! "status" = Some (VInt status) /\ m !! "method" = Some (VStr method).
Definition tells (method : string) (status : Z) (r : request) : Prop :=
  sealed r = false -> suppressed r = false -> shows method status (fields r).

Lemma http_fields_shown f (m : gmap string value) r : fields r = f -> f !! "http" = Some (VMap (Some m)) -> http_fields r = m.
Proof. unfold http_fields. by intros -> ->. Qed.

Lemma tells_status method status code r : tells method status r -> tells method code (SetHTTPStatus code r).
Proof.
  intros H Hs Hu. unfold SetHTTPStatus in *. destruct (suppressed r || sealed r) eqn:E.
  - apply orb_true_iff in E as [E|E]; congruence.
  - simpl in *. destruct (H Hs Hu) as (m & H1 & H2 & H3). rewrite (http_fields_shown _ _ _ eq_refl H1).
    eexists. rewrite lookup_insert_eq. split; [done|]. by rewrite lookup_insert_eq, lookup_insert_ne.
Qed.

(** The calls of a handler that leaves [fields.http] to the middleware. *)
Definition plain_op (o : op) : Prop := match o with OSetField key _ => key <> "http" | OHTTPStatus _ => False | _ => True end.

Lemma tells_op method status o r c r' c' : run_op o (r, c) = Some (r', c') -> plain_op o -> tells method status r -> tells method status r'.
Proof.
  intros (_ & Hs & Hf & Hu)%op_frame Hp H Ho Hn. rewrite Hs in Ho. unfold shows. rewrite Hf.
  assert (suppressed r = false) as Hn' by (rewrite Hu in Hn; by destruct o). destruct (H Ho Hn') as (m & H1 & H2 & H3).
  destruct o; try done; try (by exists m); cbn [fields_after].
  - unfold SetField. case_match; [by exists m|]. case_match; [by exists m|]. simpl. exists m. by rewrite lookup_insert_ne.
  - unfold SetHTTPRoute. case_match; [by exists m|]. case_match; [by exists m|]. simpl. rewrite (http_fields_shown _ _ _ eq_refl H1).
    eexists. rewrite lookup_insert_eq. split; [done|]. by rewrite !lookup_insert_ne.
Qed.
End Answer.

Lemma status_of_snoc l a : status_of (l ++ [a]) = match status_of l with Some c => Some c | None => label_code a end.
Proof. unfold status_of. rewrite omap_app. destruct (omap label_code l) as [|c cs]; [simpl; by destruct (label_code a)|done]. Qed.

Lemma bodies_of_snoc l a : bodies_of (l ++ [a]) = bodies_of l ++ option_list (label_body a).
Proof. unfold bodies_of. rewrite omap_app. simpl. by destruct (label_body a). Qed.

(** The status a response that sent these calls has: 200 when none was written. *)
Definition response_status (l : list sent) : Z := default 200 (head (omap code_sent l)).

(** What the events made so far, and the request while open, say of the response. *)
Record recorded {S} (p : positive) (method : string) (l : list label) (x : exchange S) : Prop := {
  rc_writer : answered (status_of l) (bodies_of l) (x_writer x);
  rc_request : exists r, k_requests (x_sdk x) !! p = Some r /\ tells method (sw_status (x_writer x)) r;
  rc_cfg : cfg_Redactor (k_cfg (x_sdk x)) = None;
  rc_made : Forall (fun m => ev_Status (md_event m) <> StatusSuppressed ->
    shows method (response_status (md_sent m)) (ev_Fields (md_event m))) (x_made x)
}.

Definition plain (l : label) : Prop := match l with LOp o => plain_op o | _ => True end.

Section Record.
Context {S : Type} `{K : Sink S} (p : positive) (flusher hooks : bool) (method : string).

Lemma on_request_cfg o (s s' : sdk S) : on_request p o s = Some s' -> k_cfg s' = k_cfg s.
Proof. unfold on_request. destruct (k_requests s !! p) as [r|]; [|by intros [= <-]]. destruct (run_op o (r, k_counts s)) as [[r' c']|]; [|done]. by intros [= <-]. Qed.

Lemma WriteHeader_tells code w (s : sdk S) r : k_requests s !! p = Some r -> tells method (sw_status w) r ->
  k_cfg (WriteHeader p code w s).2 = k_cfg s /\
  exists r', k_requests (WriteHeader p code w s).2 !! p = Some r' /\ tells method (sw_status (WriteHeader p code w s).1) r'.
Proof.
  intros Hr H. unfold WriteHeader. destruct (sw_wroteHeader w); [by eauto|]. simpl. rewrite (on_request_status p code s r Hr). simpl.
  rewrite lookup_insert_eq. split; [done|]. eexists. split; [done|]. by eapply tells_status.
Qed.

Lemma act_tells a w (s : sdk S) r : k_requests s !! p = Some r -> tells method (sw_status w) r ->
  k_cfg (act p flusher a w s).2 = k_cfg s /\
  exists r', k_requests (act p flusher a w s).2 !! p = Some r' /\ tells method (sw_status (act p flusher a w s).1) r'.
Proof.
  intros Hr H.
  assert (k_cfg (first_header p w s).2 = k_cfg s /\
    exists r', k_requests (first_header p w s).2 !! p = Some r' /\ tells method (sw_status (first_header p w s).1) r') as H1.
  { unfold first_header. destruct (sw_wroteHeader w); [by eauto|]. by apply (WriteHeader_tells _ _ _ r). }
  destruct a; cbn [act]; [by eauto|by apply (WriteHeader_tells _ _ _ r)|unfold Write|unfold ReadFrom|unfold Flush];
    destruct (first_header p w s) as [w1 s1]; try done. by destruct flusher.
Qed.

Lemma finalize_as_recorded l k recovered mark tsEnd now (x : exchange S) : recorded p method l x ->
  recorded p method l (finalize_as p hooks k recovered mark tsEnd now x).
Proof.
  intros [R1 (r & Hr & R2) R3 R4].
  destruct (finalize_made p k mark tsEnd now (x_sdk x) r Hr) as (oev & err & s' & r' & E & Hr' & Hs & Hcase).
  pose proof (finalize_cfg p k mark tsEnd now (x_sdk x)) as Hc. unfold finalize_as. rewrite E in *. simpl in Hc. split; simpl; try done.
  - exists r'. split; [done|]. intros Ho. congruence.
  - by rewrite Hc.
  - apply Forall_app. split; [done|]. destruct oev as [ev|]; [|done]. apply Forall_singleton. simpl. intros Hn.
    destruct Hcase as (Ho & c1 & s1 & Es).
    assert (suppressed r = false) as Hu by (destruct (suppressed r) eqn:Eu; [by eapply seal_suppressed in Es|done]).
    apply seal_takes in Es as (_ & _ & _ & _ & _ & Hf). rewrite (Hf R3).
    unfold response_status. rewrite (an_codes _ _ _ R1). specialize (R2 Ho Hu). rewrite (an_status _ _ _ R1) in R2. by destruct (status_of l).
Qed.

Lemma recorded_quiet l l' (x : exchange S) s w m t sl : recorded p method l x -> answered (status_of l') (bodies_of l') w ->
  (exists r, k_requests s !! p = Some r /\ tells method (sw_status w) r) -> k_cfg s = k_cfg (x_sdk x) ->
  @recorded S p method l' (mkExchange s w sl m t (x_made x) (x_signals x)).
Proof. intros [R1 R2 R3 R4] Hw Hr Hc. split; simpl; try done. by rewrite Hc. Qed.

(** Labels that neither write nor end by a panic leave the response as it was. *)
Lemma recorded_silent l a (x : exchange S) : recorded p method l x -> label_code a = None -> label_body a = None -> recorded p method (l ++ [a]) x.
Proof.
  intros [R1 R2 R3 R4] Hc Hb. split; try done. rewrite status_of_snoc, bodies_of_snoc, Hc, Hb, app_nil_r. by destruct (status_of l).
Qed.

Lemma recorded_pc l (x : exchange S) m t sl : recorded p method l x ->
  recorded p method l (mkExchange (x_sdk x) (x_writer x) sl m t (x_made x) (x_signals x)).
Proof. by intros [R1 R2 R3 R4]. Qed.

Lemma recorded_step l a (x x' : exchange S) : recorded p method l x -> plain a -> step p flusher hooks a x = Some x' ->
  recorded p method (l ++ [a]) x'.
Proof.
  intros R Hp E. pose proof R as [R1 (r & Hr & R2) R3 R4].
  destruct a as [a|o|cancelled|recovered| |mark tsEnd now| | | |mark tsEnd now|c]; unfold step in E.
  - destruct (x_main x); try done. injection E as <-. destruct (act_tells a (x_writer x) (x_sdk x) r Hr R2) as (Hc & Hr').
    pose proof (answered_act p flusher _ _ a _ (x_sdk x) R1) as Ha. destruct (act p flusher a (x_writer x) (x_sdk x)) as [w s].
    apply (recorded_quiet l _ x); try done. rewrite status_of_snoc, bodies_of_snoc. simpl in *. by destruct (status_of l), (wants a).
  - assert (exists s, on_request p o (x_sdk x) = Some s /\ x' = set_x_sdk x s) as (s & Es & ->).
    { destruct (x_main x); destruct (x_timer x); destruct (on_request p o (x_sdk x)) as [s|]; by simplify_eq/=; eauto. }
    pose proof (on_request_cfg o _ _ Es) as Hc. destruct (on_request_inv p o _ _ r Hr Es) as (r' & c' & Ho & ->).
    apply recorded_silent; [|done|done]. apply (recorded_quiet l l x); try done. exists r'. simpl. rewrite lookup_insert_eq.
    split; [done|]. by eapply tells_op.
  - destruct (x_main x); try done. injection E as <-. apply recorded_silent; [|done|done]. by apply recorded_pc.
  - destruct (x_main x); try done. injection E as <-.
    pose proof (answered_WriteHeader p _ _ 500 _ (x_sdk x) R1) as Ha.
    destruct (WriteHeader_tells 500 (x_writer x) (x_sdk x) r Hr R2) as (Hc & Hr').
    pose proof (an_wrote _ _ _ R1) as Hw. destruct (sw_wroteHeader (x_writer x)); cbn [negb].
    + symmetry in Hw. apply bool_decide_eq_true in Hw as [c Hw].
      apply (recorded_quiet l _ x); try done; [|by eauto]. rewrite status_of_snoc, bodies_of_snoc, Hw. simpl. rewrite app_nil_r. by rewrite <- Hw.
    + destruct (WriteHeader p 500 (x_writer x) (x_sdk x)) as [w s]. apply (recorded_quiet l _ x); try done.
      rewrite status_of_snoc, bodies_of_snoc. simpl. rewrite app_nil_r. simpl in Ha. by destruct (status_of l).
  - destruct (x_main x); try done. unfold swap in E. destruct (x_sealed x); injection E as <-; (apply recorded_silent; [|done|done]); by apply (recorded_pc l x).
  - destruct (x_main x); try done. injection E as <-. apply recorded_silent; [|done|done]. by apply recorded_pc, finalize_as_recorded.
  - destruct (x_main x); try done. injection E as <-. apply recorded_silent; [|done|done]. by apply (recorded_pc l (set_main x Done)), recorded_pc.
  - assert (x' = set_timer x Fired) as -> by (destruct (x_main x); destruct (x_timer x); by simplify_eq/=).
    apply recorded_silent; [|done|done]. by apply recorded_pc.
  - assert (x' = let '(k, x) := swap x lifecycleTimeout in set_timer x (TimerFinalizing k)) as ->.
    { destruct (x_main x); destruct (x_timer x); try done; destruct (swap x lifecycleTimeout); by simplify_eq/=. }
    apply recorded_silent; [|done|done]. unfold swap. destruct (x_sealed x); by apply (recorded_pc l x).
  - assert (exists k, x' = set_timer (finalize_as p hooks k None mark tsEnd now x) Expired) as (k & ->).
    { destruct (x_main x); destruct (x_timer x); try done; simplify_eq/=; by eexists. }
    apply recorded_silent; [|done|done]. by apply recorded_pc, finalize_as_recorded.
  - assert (call_request c <> p /\ exists s, do_call c (x_sdk x) = Some s /\ x' = set_x_sdk x s) as (Hc & s & Es & ->).
    { destruct (x_main x); destruct (x_timer x); case_decide; try done; (split; [done|]); destruct (do_call c (x_sdk x)) as [s|]; by simplify_eq/=; eauto. }
    destruct (do_call_other c p (x_sdk x) s Hc Es) as [Hr' Hcfg]. apply recorded_silent; [|done|done].
    apply (recorded_quiet l l x); try done. exists r. by rewrite Hr'.
Qed.

Lemma recorded_start Get route pattern path newTrace newSpan eventID clock age (s : sdk S) : cfg_Redactor (k_cfg s) = None ->
  recorded p method [] (ServeHTTP p Get method route pattern path newTrace newSpan eventID clock age s).
Proof.
  intros Hc. unfold ServeHTTP. destruct (resolveTraceContext Get newTrace newSpan) as [[t sp] par].
  unfold Begin. destruct (k_limits s) as [[ms ml] mb]. unfold on_request. cbn [k_requests]. rewrite lookup_insert_eq. simpl.
  split; simpl; try done.
  - split; simpl; try done. intros pre u post H. by destruct pre.
  - rewrite lookup_insert_eq. eexists. split; [done|]. intros _ _. simpl. eexists. rewrite lookup_insert_eq. split; [done|].
    split; [|by rewrite lookup_insert_eq]. by rewrite !lookup_insert_ne.
Qed.

Lemma run_recorded la : forall l (x x' : exchange S), recorded p method l x -> Forall plain la -> run p flusher hooks la x = Some x' ->
  recorded p method (l ++ la) x'.
Proof.
  induction la as [|a la IH]; intros l x x' R Hp E; [simplify_eq/=; by rewrite app_nil_r|]. simpl in E.
  apply Forall_cons in Hp as [Ha Hp]. destruct (step p flusher hooks a x) as [x1|] eqn:Es; [|done].
  rewrite cons_middle, app_assoc. eapply IH; [|exact Hp|exact E]. by eapply recorded_step.
Qed.
End Record.

(** The event tells the response.  The client is sent one status, the first the handler
    asks for (200 if it writes first, 500 if it panics first), before any body, and every
    body in order.  Every event made for the request, unless the request was suppressed,
    shows the method and the status of what had been sent when it was made, also when the
    watchdog made it, as long as the handler leaves [fields.http] alone. *)
Theorem response_recorded {S} `{K : Sink S} p flusher hooks Get method route pattern path newTrace newSpan eventID clock age (s : sdk S) l x :
  cfg_Redactor (k_cfg s) = None -> Forall plain l ->
  run p flusher hooks l (ServeHTTP p Get method route pattern path newTrace newSpan eventID clock age s) = Some x ->
  omap code_sent (sw_sent (x_writer x)) = option_list (status_of l) /\
  omap body_sent (sw_sent (x_writer x)) = bodies_of l /\
  (forall pre u post, sw_sent (x_writer x) = pre ++ u :: post -> is_content u = true -> omap code_sent pre <> []) /\
  forall m, m ∈ x_made x -> ev_Status (md_event m) <> StatusSuppressed ->
    exists http, ev_Fields (md_event m) !! "http" = Some (VMap (Some http)) /\
      http !! "status" = Some (VInt (response_status (md_sent m))) /\ http !! "method" = Some (VStr method).
Proof.
  intros Hc Hp E. eapply run_recorded in E; [|by apply recorded_start|done]. rewrite app_nil_l in E.
  destruct E as [[_ _ A1 A2 A3] _ _ R]. split; [done|split; [done|split; [done|]]].
  intros m Hm. by apply (proj1 (Forall_forall _ _) R m Hm).
Qed.

(** ** The adapters *)

(** gin: its own writer over the one above, with [size] negative until the first write. *)
Record ginWriter := mkGinWriter { gw_status : Z; gw_size : Z }.
Definition newResponseWriter : ginWriter := mkGinWriter 200 (-1).
Definition Written (w : ginWriter) : bool := 0 <=? gw_size w.

(** The calls on it; [n] is what the write below returns. *)
Inductive gin_call := GHeader (name value : string) | GWriteHeader (code : Z) | GWriteHeaderNow | GWrite (data : string) (n : Z)
  | GWriteString (s : string) (n : Z) | GFlush.

Definition gin_WriteHeader (code : Z) (w : ginWriter) : ginWriter * list action :=
  if Written w then (w, []) else
  (mkGinWriter (if 0 <? code then code else gw_status w) (if gw_size w <? 0 then 0 else gw_size w), [AWriteHeader code]).
Definition gin_WriteHeaderNow (w : ginWriter) : ginWriter * list action :=
  if negb (Written w) then gin_WriteHeader (gw_status w) w else (w, []).
Definition gin_Write (data : string) (n : Z) (w : ginWriter) : ginWriter * list action :=
  let '(w, acts) := if negb (Written w) then gin_WriteHeader (gw_status w) w else (w, []) in
  let size := if gw_size w <? 0 then 0 else gw_size w in
  (mkGinWriter (gw_status w) (wrap64 (size + n)), acts ++ [AWrite data]).
Definition gin_Flush (w : ginWriter) : ginWriter * list action := let '(w, acts) := gin_WriteHeaderNow w in (w, acts ++ [AFlush]).

Definition gin_act (g : gin_call) (w : ginWriter) : ginWriter * list action :=
  match g with
  | GHeader name value => (w, [AHeader name value])
  | GWriteHeader code => gin_WriteHeader code w
  | GWriteHeaderNow => gin_WriteHeaderNow w
  | GWrite data n => gin_Write data n w
  | GWriteString s n => gin_Write s n w
  | GFlush => gin_Flush w
  end.

Fixpoint gin_acts (l : list gin_call) (w : ginWriter) : ginWriter * list action :=
  match l with [] => (w, []) | g :: l => let '(w, a) := gin_act g w in let '(w, b) := gin_acts l w in (w, a ++ b) end.

(** chi: the route is set when the handler has ended, however it did. *)
Definition chi_routed (pattern : option string) : list label := match pattern with Some pat => [LOp (OHTTPRoute pat)] | None => [] end.

(** echo: the code of an error, an [echo.HTTPError] or any other, and the failure recorded. *)
Definition echoErrorCode (he : option Z) : string := match he with Some code => "HTTP_" +:+ Itoa code | None => "ERR" end.
Definition echo_failure (he : option Z) (text : string) (c : counts) : op * counts :=
  let '(err, c) := NewError (echoErrorCode he) [WithReason text] c in (OFail err, c).

Lemma echo_failure_recorded he text c : echo_failure he text c = (OFail (Some (mkError (echoErrorCode he) text "")), c).
Proof. unfold echo_failure, NewError. by destruct he as [[|q|q]|]. Qed.

(** The headers a client gets: those set before the status is written. *)
Fixpoint sent_headers (l : list sent) : list (string * string) :=
  match l with
  | USet n v :: l => (n, v) :: sent_headers l
  | UHeader _ :: _ | [] => []
  | _ :: l => sent_headers l
  end.

(** ** Concrete requests *)

#[local] Instance kept_events : Sink (list Event) := {| sink_deliver := fun ev out => (Some true, out ++ [ev]) |}.

Definition serve_demo (l : list label) : exchange (list Event) :=
  let x := ServeHTTP 1%positive no_headers "GET" "/items" "" "/items" trace_7 (span_of 9) "shop-1" 5 60 shop in
  default x (run 1%positive true true l x).

Definition demo_labels : list label :=
  [LAct (AWriteHeader 404); LFire; LAct (AWrite "gone"); LReturn false; LSwap; LTimerSwap; LFinalize 9 9 0; LTimerFinalize 9 9 0; LStop].

(** How an event ended and the status it shows. *)
Definition outcome_of (m : made) : string * option value :=
  (ev_Status (md_event m), match ev_Fields (md_event m) !! "http" with Some (VMap (Some http)) => http !! "status" | _ => None end).

Lemma demo_run : run 1%positive true true demo_labels
  (ServeHTTP 1%positive no_headers "GET" "/items" "" "/items" trace_7 (span_of 9) "shop-1" 5 60 shop) = Some (serve_demo demo_labels).
Proof.
  unfold serve_demo. destruct (run _ _ _ demo_labels _) as [x|] eqn:E; [reflexivity|].
  apply (f_equal (fun o => match o with Some _ => true | None => false end)) in E. vm_compute in E. discriminate E.
Qed.

Lemma one_event_per_request_witness : exists m r,
  x_made (serve_demo demo_labels) = [m] /\ k_requests (x_sdk (serve_demo demo_labels)) !! 1%positive = Some r /\ sealed r = true.
Proof.
  assert (tracked shop) as T.
  { intros q. simpl. split; [intros H; apply elem_of_empty in H; destruct H|intros (r & Hr & _); rewrite lookup_empty in Hr; discriminate Hr]. }
  assert (x_main (serve_demo demo_labels) = Done) as Hm by (vm_compute; reflexivity).
  assert (x_timer (serve_demo demo_labels) = Expired) as Ht by (vm_compute; reflexivity).
  destruct (one_event_per_request 1%positive true true no_headers "GET" "/items" "" "/items" trace_7 (span_of 9) "shop-1" 5 60 shop
    demo_labels (serve_demo demo_labels) T eq_refl demo_run) as (_ & H & _).
  destruct H as (m & r & H1 & H2 & H3 & _); [split; [exact Hm|rewrite Ht; exact I]|]. exists m, r. split; [exact H1|split; [exact H2|exact H3]].
Defined.

Lemma response_recorded_witness :
  omap code_sent (sw_sent (x_writer (serve_demo demo_labels))) = [404] /\
  omap body_sent (sw_sent (x_writer (serve_demo demo_labels))) = ["gone"] /\
  forall m, m ∈ x_made (serve_demo demo_labels) -> ev_Status (md_event m) <> StatusSuppressed ->
    exists http, ev_Fields (md_event m) !! "http" = Some (VMap (Some http)) /\ http !! "status" = Some (VInt (response_status (md_sent m))).
Proof.
  assert (Forall plain demo_labels) as Hp by (repeat constructor).
  destruct (response_recorded 1%positive true true no_headers "GET" "/items" "" "/items" trace_7 (span_of 9) "shop-1" 5 60 shop
    demo_labels (serve_demo demo_labels) eq_refl Hp demo_run) as (H1 & H2 & _ & H4).
  split; [exact H1|split; [exact H2|]]. intros m Hm Hs. destruct (H4 m Hm Hs) as (http & A & B & _). exists http. split; [exact A|exact B].
Defined.

(** ** What the model shows to be wrong *)

(** The watchdog wins the exchange but the loser's plain [Finalize] can run first: a request
    that panicked after its deadline is recorded as a plain completion, neither a timeout
    nor a panic, without a signal, although the client was sent a 500. *)
Theorem slow_panic_recorded_ok :
  let x := serve_demo [LFire; LTimerSwap; LPanic "boom"; LSwap; LFinalize 9 9 0; LTimerFinalize 9 9 0; LStop] in
  outcome_of <$> x_made x = [(StatusOK, Some (VInt 500))] /\ x_signals x = [].
Proof. vm_compute. split; reflexivity. Qed.

(** An informational status counts as the response's: after Early Hints the status the
    handler sends is neither sent nor recorded. *)
Theorem early_hints_swallow_status :
  let x := serve_demo [LAct (AWriteHeader 103); LAct (AWriteHeader 404); LAct (AWrite "gone"); LReturn false; LSwap; LFinalize 9 9 0; LStop] in
  sw_sent (x_writer x) = [UHeader 103; UBody "gone"] /\ outcome_of <$> x_made x = [(StatusOK, Some (VInt 103))].
Proof. vm_compute. split; reflexivity. Qed.

(** gin defers the status until something is written, and its renderers set the content type
    between the two; the adapter's writer sends the status at once, so the type is lost. *)
Theorem gin_content_type_lost :
  let acts := (gin_acts [GWriteHeader 200; GHeader "Content-Type" "application/json"; GWrite "{}" 2] newResponseWriter).2 in
  let x := serve_demo ((LAct <$> acts) ++ [LReturn false; LSwap; LFinalize 9 9 0; LStop]) in
  sw_sent (x_writer x) = [UHeader 200; USet "Content-Type" "application/json"; UBody "{}"] /\ sent_headers (sw_sent (x_writer x)) = [].
Proof. vm_compute. split; reflexivity. Qed.
