(* ===== verification/WideEvent.v ===== *)
(** The first-generation event ([pkg/event/event.go], [errors.go]): its record, its
    validation and the validation of events that come from telemetry
    ([internal/ingest/pipeline.go]).  [strconv.Quote] is a parameter. *)

From S2P Require Import Prelude GoRuntime GoText.
Open Scope Z_scope.

Record UserContext := mkUserContext { us_ID : string; us_Tier : string; us_Region : string; us_VIP : bool }.

Record RequestContext := mkRequestContext {
  rc_TraceID : string; rc_SpanID : string; rc_ParentSpanID : string; rc_HTTPMethod : string; rc_RouteTemplate : string;
  rc_Flow : string; rc_FeatureFlags : list string; rc_CorrelationID : string; rc_Attempt : Z; rc_TransportKind : string
}.

Record SystemContext := mkSystemContext {
  sy_Service : string; sy_Version : string; sy_DeploymentID : string; sy_Env : string; sy_DownstreamService : string; sy_CallerService : string
}.

Record OutcomeContext := mkOutcomeContext { oc_Success : bool; oc_StatusCode : Z; oc_Kind : string }.
Record ErrorContext := mkErrorContext { er_Code : string; er_Path : string; er_Message : string; er_Reason : string }.
Record RetryContext := mkRetryContext { rt_Of : Z; rt_PreviousAttemptID : string }.

Record WideEvent := mkWideEvent {
  we_SchemaVersion : string; we_EventName : string; we_Timestamp : Time;
  we_User : UserContext; we_Request : RequestContext; we_System : SystemContext;
  we_Outcome : OutcomeContext; we_Error : option ErrorContext; we_LatencyMs : Z;
  we_ParentRequestID : string; we_Metadata : gmap string value; we_Retry : option RetryContext
}.

(** ** Validation *)

Record ValidationError := mkValidationError { ve_Field : string; ve_Message : string }.

(** [ValidationErrors.Error] and [HasOnly]. *)
Definition errors_text (errs : list ValidationError) : string :=
  match errs with [e] => ve_Message e | _ => Join "; " (ve_Message <$> errs) end.
Definition HasOnly (field : string) (errs : list ValidationError) : bool :=
  negb (length errs =? 0)%nat && forallb (fun e => String.eqb (ve_Field e) field) errs.

Definition validHTTPMethod (m : string) : bool :=
  existsb (String.eqb m) ["GET"; "HEAD"; "POST"; "PUT"; "DELETE"; "CONNECT"; "OPTIONS"; "TRACE"; "PATCH"].

(** The error, if there is one. *)
Definition supportedSchema (v : string) : option string :=
  match Split v "."%char with
  | [a; b] =>
    match Atoi a with
    | None => Some ("invalid schema_version major: " +:+ v)
    | Some major =>
      match Atoi b with
      | None => Some ("invalid schema_version minor: " +:+ v)
      | Some _ => if negb (major =? 1) then Some ("unsupported schema_version: " +:+ v +:+ " (supported: 1.x)") else None
      end
    end
  | _ => Some ("invalid schema_version format: " +:+ v +:+ " (expected major.minor)")
  end.

Section Validation.
Variable Quote : string -> string.

Definition fails (b : bool) (field msg : string) : list ValidationError := if b then [mkValidationError field msg] else [].
Definition blank (s : string) : bool := String.eqb s "".

Definition Validate (e : WideEvent) : list ValidationError :=
  let r := we_Request e in
  (if blank (we_SchemaVersion e) then [mkValidationError "schema_version" "schema_version is required"]
   else match supportedSchema (we_SchemaVersion e) with Some err => [mkValidationError "schema_version" err] | None => [] end) ++
  fails (blank (we_EventName e)) "event_name" "event_name is required" ++
  fails (IsZero (we_Timestamp e)) "timestamp" "timestamp is required" ++
  fails (blank (us_ID (we_User e))) "user.id" "user.id is required" ++
  fails (blank (rc_TraceID r)) "request.trace_id" "request.trace_id is required" ++
  fails (negb (blank (rc_ParentSpanID r)) && blank (rc_SpanID r)) "request.span_id"
    "request.span_id is required when request.parent_span_id is set" ++
  fails (negb (blank (rc_HTTPMethod r)) && negb (validHTTPMethod (rc_HTTPMethod r))) "request.http_method"
    ("request.http_method " +:+ Quote (rc_HTTPMethod r) +:+ " is not a valid HTTP method") ++
  fails (negb (blank (rc_RouteTemplate r)) && negb (HasPrefix (rc_RouteTemplate r) "/")) "request.route_template"
    "request.route_template must start with /" ++
  fails (blank (sy_Service (we_System e))) "system.service" "system.service is required" ++
  fails (blank (sy_Env (we_System e))) "system.env" "system.env is required" ++
  fails (oc_StatusCode (we_Outcome e) =? 0) "outcome.status_code" "outcome.status_code is required" ++
  (if negb (oc_Success (we_Outcome e)) then
     match we_Error e with
     | None => [mkValidationError "error" "error must be set when outcome.success=false"]
     | Some err => fails (blank (er_Code err)) "error.code" "error.code is required for failures"
     end
   else []) ++
  match we_Retry e with
  | Some retry => fails (negb (rt_Of retry =? 0) && (rt_Of retry <? rc_Attempt r)) "retry.of" "retry.of must be 0 or >= request.attempt"
  | None => []
  end.

(** [OTLPValidator]: telemetry has no end user. *)
Definition OTLPValidator (e : WideEvent) : list ValidationError :=
  let errs := Validate e in if HasOnly "user.id" errs then [] else errs.
End Validation.

Definition IsError (e : WideEvent) : bool :=
  negb (oc_Success (we_Outcome e)) || (500 <=? oc_StatusCode (we_Outcome e)) || match we_Error e with Some _ => true | None => false end.

(** ** What telemetry may leave out *)

Definition with_user (e : WideEvent) (u : UserContext) : WideEvent :=
  mkWideEvent (we_SchemaVersion e) (we_EventName e) (we_Timestamp e) u (we_Request e) (we_System e) (we_Outcome e) (we_Error e)
    (we_LatencyMs e) (we_ParentRequestID e) (we_Metadata e) (we_Retry e).

Lemma HasOnly_spec field errs : HasOnly field errs = true <-> errs <> [] /\ Forall (fun e => ve_Field e = field) errs.
Proof.
  unfold HasOnly. rewrite andb_true_iff, negb_true_iff, Nat.eqb_neq, forallb_forall, Forall_forall. split; intros [H1 H2]; split.
  - by intros ->.
  - intros x Hx. apply String.eqb_eq, H2. by apply list_elem_of_In.
  - by destruct errs.
  - intros x Hx. apply String.eqb_eq, H2. by apply list_elem_of_In.
Qed.

Definition not_user (x : ValidationError) : Prop := ve_Field x <> "user.id".

Lemma fails_not_user b field msg : field <> "user.id" -> Forall not_user (fails b field msg).
Proof. intros H. unfold fails. destruct b; [by repeat constructor|done]. Qed.

(** The checks before and after that of the user, which none of them reads. *)
Lemma Validate_split Quote e : exists before after, Forall not_user before /\ Forall not_user after /\
  forall u, Validate Quote (with_user e u) = before ++ fails (blank (us_ID u)) "user.id" "user.id is required" ++ after.
Proof.
  assert (exists a b c after, Forall not_user (a ++ b ++ c) /\ Forall not_user after /\
    forall u, Validate Quote (with_user e u) = a ++ b ++ c ++ fails (blank (us_ID u)) "user.id" "user.id is required" ++ after)
    as (a & b & c & after & H1 & H2 & H3).
  { destruct e. eexists _, _, _, _. split; [|split; [|intros u; unfold Validate; cbv zeta;
      cbn [with_user we_SchemaVersion we_EventName we_Timestamp we_User we_Request we_System we_Outcome we_Error we_Retry]; reflexivity]]; repeat (apply Forall_app; split);
      try (by apply fails_not_user); repeat case_match; try (by apply fails_not_user); by repeat constructor. }
  exists (a ++ b ++ c), after. split; [done|split; [done|]]. intros u. by rewrite H3, <- !app_assoc.
Qed.

(** An event without a user passes the telemetry validator exactly when the same event with
    a user passes the full one. *)
Theorem OTLPValidator_ignores_user Quote e u : us_ID u <> "" -> us_ID (we_User e) = "" ->
  OTLPValidator Quote e = [] <-> Validate Quote (with_user e u) = [].
Proof.
  intros Hu He. destruct (Validate_split Quote e) as (a & b & Ha & Hb & H). unfold OTLPValidator.
  assert (with_user e (we_User e) = e) as Hee by by destruct e. pose proof (H (we_User e)) as Hv. rewrite Hee, He in Hv. cbv zeta.
  rewrite Hv, H. apply String.eqb_neq in Hu. unfold blank. rewrite Hu. cbn [fails String.eqb app]. destruct (HasOnly _ _) eqn:Eo.
  - apply HasOnly_spec in Eo as [_ Eo]. split; [intros _|done]. rewrite Forall_app, Forall_cons in Eo. destruct Eo as (Ea & _ & Eb).
    destruct a as [|x a]; [|exfalso; inversion_clear Ha; inversion_clear Ea; contradiction].
    destruct b as [|x b]; [done|exfalso; inversion_clear Hb; inversion_clear Eb; contradiction].
  - split; [intros E; by destruct a|]. intros [-> ->]%app_nil. done.
Qed.
