(* ===== verification/GroupCommit.v ===== *)
(** The first-generation event log ([internal/eventlog/writer.go], [reader.go],
    [search.go]): many callers hand their entries to one goroutine, which writes them in
    batches, syncs once per batch and answers them; and the readers of the files.  The
    steps of callers and of the committing goroutine interleave freely; the directory and
    its failures are those of [Eventlog].  JSON is the class [LogCodec]. *)

From S2P Require Import Prelude GoRuntime GoText Eventlog Retention WideEvent.
Open Scope Z_scope.

Record LogEntry := mkLogEntry { le_LoggedAt : Time; le_Event : WideEvent; le_SampledInGraph : bool }.

(** [json.Marshal] of an entry, and [json.Unmarshal] of a line into an entry or an event. *)
Class LogCodec := {
  encode_entry : LogEntry -> option string;
  decode_entry : string -> option LogEntry;
  decode_event : string -> option WideEvent
}.

Definition maxBatch : nat := 256.

(** ** The file and its batches *)

(** The fields the committing goroutine owns; [lw_open] is false once the file is closed, or
    a write to it has failed: [json.Encoder] keeps the error and fails from then on. *)
Record LogWriter := mkLogWriter {
  lw_syncOnWrite : bool; lw_maxFileBytes : Z; lw_active : string; lw_open : bool; lw_seq : Z; lw_syncCount : Z
}.

(** What the operating system does during one batch: the clock, how many bytes of the i-th
    record reach the file when its write fails, and whether sync, stat and open fail. *)
Record batch_outcome := mkBatchOutcome {
  bo_now : Time; bo_torn : nat -> option nat; bo_syncErr : bool; bo_statErr : bool; bo_openErr : bool
}.

Section Writer.
Context `{C : LogCodec}.

Definition set_open (w : LogWriter) (open_ : bool) : LogWriter :=
  mkLogWriter (lw_syncOnWrite w) (lw_maxFileBytes w) (lw_active w) open_ (lw_seq w) (lw_syncCount w).

(** [openNewFile]: a name already taken gets the next sequence number, once. *)
Definition openNewFile (d : disk) (w : LogWriter) (now : Time) (openErr : bool) : disk * LogWriter * bool :=
  let ts := FormatStamp now in
  let taken := exists_file d (file_name ts 0) in
  let seq := if taken then lw_seq w + 1 else lw_seq w in
  let name := if taken then file_name ts seq else file_name ts 0 in
  if openErr then (d, mkLogWriter (lw_syncOnWrite w) (lw_maxFileBytes w) (lw_active w) (lw_open w) seq (lw_syncCount w), false) else
  (if exists_file d name then d else d ++ [mkFile name "" now],
   mkLogWriter (lw_syncOnWrite w) (lw_maxFileBytes w) name true seq (lw_syncCount w), true).

(** [NewWithConfig]. *)
Definition NewWithConfig (d : disk) (sync : bool) (maxFileBytes : Z) (now : Time) (openErr : bool) : disk * LogWriter * bool :=
  openNewFile d (mkLogWriter sync maxFileBytes "" false 0 0) now openErr.

Definition entry_record (line : string) : string := line +:+ nl.

(** How the loop ends: every entry encoded, an entry refused, a write failed. *)
Inductive loop_end := AllEncoded | Refused | TornWrite.
Definition encoded (end_ : loop_end) : bool := match end_ with AllEncoded => true | _ => false end.

(** The loop of [commit]: it stops at the first entry that fails.  The numbers are those of
    the entries written whole. *)
Fixpoint encode_loop (d : disk) (w : LogWriter) (o : batch_outcome) (i : nat) (batch : list (nat * LogEntry))
    : disk * list nat * loop_end :=
  match batch with
  | [] => (d, [], AllEncoded)
  | (id, entry) :: batch =>
    match encode_entry entry with
    | None => (d, [], Refused)
    | Some line =>
      if negb (lw_open w) then (d, [], Refused) else
      match bo_torn o i with
      | Some n => (append_file d (lw_active w) (take_bytes n (entry_record line)) (bo_now o), [], TornWrite)
      | None =>
        let '(d, ids, end_) := encode_loop (append_file d (lw_active w) (entry_record line) (bo_now o)) w o (S i) batch in
        (d, id :: ids, end_)
      end
    end
  end.

Definition file_size (d : disk) (name : string) : Z :=
  from_option (fun f => Z.of_nat (String.length (f_bytes f))) 0 (List.find (fun f => String.eqb (f_name f) name) d).

Definition maybeRotate (d : disk) (w : LogWriter) (o : batch_outcome) : disk * LogWriter * bool :=
  if lw_maxFileBytes w <=? 0 then (d, w, true)
  else if bo_statErr o then (d, w, true)
  else if file_size d (lw_active w) <? lw_maxFileBytes w then (d, w, true)
  else openNewFile d (set_open w false) (bo_now o) (bo_openErr o).

(** [commit]: the directory, the writer, the entries written whole, whether they were synced
    by the batch, and the answer every caller of the batch gets. *)
Definition commit (d : disk) (w : LogWriter) (o : batch_outcome) (batch : list (nat * LogEntry))
    : disk * LogWriter * list nat * bool * bool :=
  let '(d, ids, end_) := encode_loop d w o 0 batch in
  let w := match end_ with TornWrite => set_open w false | _ => w end in
  let '(w, synced, ok) :=
    if encoded end_ && lw_syncOnWrite w
    then (mkLogWriter (lw_syncOnWrite w) (lw_maxFileBytes w) (lw_active w) (lw_open w) (lw_seq w) (lw_syncCount w + 1),
          negb (bo_syncErr o), negb (bo_syncErr o))
    else (w, false, encoded end_) in
  let '(d, w, ok) := if ok then maybeRotate d w o else (d, w, false) in
  (d, w, ids, synced, ok).
End Writer.

(** ** Callers and the committing goroutine *)

Inductive answer := Durable | WriteFailed | WriterClosed.

(** A call of [Write]: sending its request, waiting for the answer, with the answer in its
    channel, or returned. *)
Inductive writing := Sending | Waiting | Acked (ok : bool) | Returned (a : answer).

Inductive commit_pc := Idle | Batching (ids : list nat) | Draining | Exited.

Record log_sys := mkLogSys {
  gs_disk : disk;
  gs_writer : LogWriter;
  gs_queue : list nat;              (* reqCh *)
  gs_calls : gmap nat (LogEntry * writing);
  gs_pc : commit_pc;
  gs_quit : bool;
  gs_written : list nat;            (* the requests written whole, in order *)
  gs_synced : list nat              (* those a successful sync of their batch covers *)
}.

Inductive log_event :=
| GWrite (id : nat) (e : LogEntry)
| GSend (id : nat)
| GSendClosed (id : nat)
| GReceive (id : nat)
| GWaitClosed (id : nat)
| GFirst
| GMore
| GCommit (o : batch_outcome)
| GClose
| GQuit
| GDrain (o : batch_outcome)
| GExit.

Section System.
Context `{C : LogCodec}.

Definition set_call (y : log_sys) (id : nat) (e : LogEntry) (c : writing) : log_sys :=
  mkLogSys (gs_disk y) (gs_writer y) (gs_queue y) (<[id := (e, c)]> (gs_calls y)) (gs_pc y) (gs_quit y) (gs_written y) (gs_synced y).
Definition set_queue (y : log_sys) (q : list nat) (pc : commit_pc) : log_sys :=
  mkLogSys (gs_disk y) (gs_writer y) q (gs_calls y) pc (gs_quit y) (gs_written y) (gs_synced y).

(** The requests of a batch. *)
Definition batch_of (y : log_sys) (ids : list nat) : list (nat * LogEntry) :=
  omap (fun id => c ← gs_calls y !! id; Some (id, c.1)) ids.

(** [req.ack <- err]. *)
Definition ack (ok : bool) (calls : gmap nat (LogEntry * writing)) (id : nat) : gmap nat (LogEntry * writing) :=
  match calls !! id with Some (e, _) => <[id := (e, Acked ok)]> calls | None => calls end.

Definition do_commit (y : log_sys) (o : batch_outcome) (ids : list nat) (pc : commit_pc) : log_sys :=
  let '(d, w, written, synced, ok) := commit (gs_disk y) (gs_writer y) o (batch_of y ids) in
  mkLogSys d w (gs_queue y) (foldl (ack ok) (gs_calls y) ids) pc (gs_quit y) (gs_written y ++ written)
    (gs_synced y ++ if synced then written else []).

Definition is_exited (pc : commit_pc) : bool := match pc with Exited => true | _ => false end.

(** One step; [None] when it is not enabled.  A [select] with several cases ready takes any. *)
Definition log_step (ev : log_event) (y : log_sys) : option log_sys :=
  match ev with
  | GWrite id e => match gs_calls y !! id with None => Some (set_call y id e Sending) | Some _ => None end
  | GSend id =>
    match gs_calls y !! id with
    | Some (e, Sending) =>
      if (length (gs_queue y) <? maxBatch)%nat
      then let y := set_call y id e Waiting in Some (set_queue y (gs_queue y ++ [id]) (gs_pc y)) else None
    | _ => None
    end
  | GSendClosed id =>
    match gs_calls y !! id with Some (e, Sending) => if is_exited (gs_pc y) then Some (set_call y id e (Returned WriterClosed)) else None | _ => None end
  | GReceive id =>
    match gs_calls y !! id with
    | Some (e, Acked ok) => Some (set_call y id e (Returned (if ok then Durable else WriteFailed)))
    | _ => None
    end
  | GWaitClosed id =>
    match gs_calls y !! id with
    | Some (e, (Waiting | Acked _)) => if is_exited (gs_pc y) then Some (set_call y id e (Returned WriterClosed)) else None
    | _ => None
    end
  | GFirst => match gs_pc y, gs_queue y with Idle, id :: q => Some (set_queue y q (Batching [id])) | _, _ => None end
  | GMore =>
    match gs_pc y, gs_queue y with
    | Batching ids, id :: q => if (length ids <? maxBatch)%nat then Some (set_queue y q (Batching (ids ++ [id]))) else None
    | _, _ => None
    end
  | GCommit o =>
    match gs_pc y with
    | Batching ids => if (length ids <? maxBatch)%nat && negb (bool_decide (gs_queue y = [])) then None else Some (do_commit y o ids Idle)
    | _ => None
    end
  | GClose => Some (mkLogSys (gs_disk y) (gs_writer y) (gs_queue y) (gs_calls y) (gs_pc y) true (gs_written y) (gs_synced y))
  | GQuit => match gs_pc y with Idle => if gs_quit y then Some (set_queue y (gs_queue y) Draining) else None | _ => None end
  | GDrain o => match gs_pc y, gs_queue y with Draining, id :: q => Some (do_commit (set_queue y q Draining) o [id] Draining) | _, _ => None end
  | GExit =>
    match gs_pc y, gs_queue y with
    | Draining, [] => Some (mkLogSys (gs_disk y) (set_open (gs_writer y) false) [] (gs_calls y) Exited (gs_quit y) (gs_written y) (gs_synced y))
    | _, _ => None
    end
  end.

Fixpoint log_run (l : list log_event) (y : log_sys) : option log_sys :=
  match l with [] => Some y | ev :: l => y ← log_step ev y; log_run l y end.

Definition start_sys (d : disk) (w : LogWriter) : log_sys := mkLogSys d w [] ∅ Idle false [] [].
End System.

(** ** Reading *)

(** [bufio.MaxScanTokenSize] as the reader sets it, and a piece that overflows it: the
    buffer is full before the newline, or the end of the file, is seen. *)
Definition maxLine : Z := 1048576.
Definition ends_nl (piece : string) : bool := HasSuffix piece nl.
Definition too_long (max : Z) (piece : string) : bool :=
  let n := Z.of_nat (String.length piece) in if ends_nl piece then max <? n else max <=? n.

(** The newline and one carriage return before it are dropped. *)
Definition drop_last (s : string) : string := take_bytes (String.length s - 1) s.
Definition scan_line (piece : string) : string :=
  let line := if ends_nl piece then drop_last piece else piece in
  if HasSuffix line (String carriage_return "") then drop_last line else line.

Section Reading.
Context `{C : LogCodec}.

Definition read_line (line : string) : option LogEntry :=
  if String.eqb (TrimSpace line) "" then None else
  entry ← decode_entry line;
  if IsZero (le_LoggedAt entry)
  then ev ← decode_event line; Some (mkLogEntry (we_Timestamp ev) ev true)
  else Some entry.

(** [ReadFile]: the entries read, and whether the scan reached the end. *)
Fixpoint read_pieces (pieces : list string) : list LogEntry * bool :=
  match pieces with
  | [] => ([], true)
  | piece :: pieces =>
    if too_long maxLine piece then ([], false) else
    let '(entries, ok) := read_pieces pieces in
    (option_list (read_line (scan_line piece)) ++ entries, ok)
  end.
Definition ReadFile (f : file) : list LogEntry * bool := read_pieces (split_lines (f_bytes f)).

Definition name_less (a b : file) : bool := String.ltb (f_name a) (f_name b).
Definition log_files (d : disk) : list file := ssort name_less (List.filter (fun f => HasSuffix (f_name f) ".jsonl") d).

(** A file whose scan fails is skipped whole. *)
Definition read_file (f : file) : list LogEntry := let '(entries, ok) := ReadFile f in if ok then entries else [].

Definition ReadDir (d : disk) (after : Time) : list LogEntry :=
  log_files d ≫= fun f => List.filter (fun e => After (le_LoggedAt e) after) (read_file f).

Record SearchFilter := mkSearchFilter {
  sf_TraceID : string; sf_UserID : string; sf_Service : string; sf_ErrorCode : string; sf_Start : Time; sf_End : Time; sf_Limit : Z
}.

Definition Matches (f : SearchFilter) (ev : WideEvent) : bool :=
  negb (negb (IsZero (sf_Start f)) && Before (we_Timestamp ev) (sf_Start f)) &&
  negb (negb (IsZero (sf_End f)) && After (we_Timestamp ev) (sf_End f)) &&
  negb (negb (String.eqb (sf_TraceID f) "") && negb (String.eqb (rc_TraceID (we_Request ev)) (sf_TraceID f))) &&
  negb (negb (String.eqb (sf_UserID f) "") && negb (String.eqb (us_ID (we_User ev)) (sf_UserID f))) &&
  negb (negb (String.eqb (sf_Service f) "") && negb (String.eqb (sy_Service (we_System ev)) (sf_Service f))) &&
  negb (negb (String.eqb (sf_ErrorCode f) "") &&
    match we_Error ev with None => true | Some err => negb (String.eqb (er_Code err) (sf_ErrorCode f)) end).

Definition search_limit (f : SearchFilter) : Z :=
  let limit := if sf_Limit f <=? 0 then 50 else sf_Limit f in if 200 <? limit then 200 else limit.

Definition newest_first (a b : WideEvent) : bool := After (we_Timestamp a) (we_Timestamp b).

(** [Search]; events at the same time may come in any order. *)
Definition Search (d : disk) (f : SearchFilter) : list WideEvent :=
  let result := log_files d ≫= fun file => List.filter (Matches f) (le_Event <$> read_file file) in
  take (Z.to_nat (search_limit f)) (ssort newest_first result).
End Reading.

(** ** What a file of whole records reads back *)

Section Contents.
Context `{C : LogCodec}.

(** A line that is one record: no newline in it, no carriage return at its end, not too
    long, and read as the entry. *)
Definition line_of (line : string) (e : LogEntry) : Prop :=
  has_byte newline line = false /\ HasSuffix line (String carriage_return "") = false /\
  Z.of_nat (String.length line) + 1 <= maxLine /\ read_line line = Some e.

(** An entry whose encoding is such a line. *)
Definition readable (e : LogEntry) : Prop := exists line, encode_entry e = Some line /\ line_of line e.

Definition text (lines : list string) : string := foldr (fun line s => entry_record line +:+ s) "" lines.

Lemma text_snoc lines line : text (lines ++ [line]) = text lines +:+ entry_record line.
Proof. induction lines as [|l lines IH]; simpl; [by rewrite string_app_nil_r|]. by rewrite IH, string_app_assoc. Qed.

Lemma ends_nl_app s : ends_nl (s +:+ nl) = true.
Proof. apply HasSuffix_app. Qed.

Lemma drop_last_app s c : drop_last (s +:+ String c "") = s.
Proof.
  unfold drop_last. rewrite string_length_app. cbn [String.length].
  replace (String.length s + 1 - 1)%nat with (String.length s) by lia. by rewrite take_bytes_app.
Qed.

Lemma no_newline_split s : has_byte newline s = false -> forall pre post, s <> pre +:+ nl +:+ post.
Proof.
  intros H pre post ->. rewrite !has_byte_app in H. apply orb_false_iff in H as [_ H].
  apply orb_false_iff in H as [H _]. done.
Qed.

Lemma read_text lines es : Forall2 line_of lines es -> read_pieces (split_lines (text lines)) = (es, true).
Proof.
  induction 1 as [|line e lines es (Hn & Hcr & Hlen & Hr) _ IH]; [done|]. cbn [text foldr]. unfold entry_record at 1.
  rewrite string_app_assoc, split_lines_nl by (by apply no_newline_split). cbn [read_pieces]. unfold too_long.
  rewrite ends_nl_app, string_length_app. change (String.length nl) with 1%nat.
  rewrite (proj2 (Z.ltb_ge _ _)) by lia. fold (text lines). rewrite IH. unfold scan_line. rewrite ends_nl_app. unfold nl.
  rewrite drop_last_app, Hcr, Hr. done.
Qed.

(** A file of whole records. *)
Definition clean (f : file) : Prop := exists lines es, f_bytes f = text lines /\ Forall2 line_of lines es.

Lemma clean_read f lines es : f_bytes f = text lines -> Forall2 line_of lines es -> read_file f = es.
Proof. intros Hf H. unfold read_file, ReadFile. rewrite Hf. by rewrite (read_text _ _ H). Qed.

Definition jsonl (name : string) : bool := HasSuffix name ".jsonl".

(** Everything the directory's logs hold. *)
Definition stored (d : disk) : list LogEntry := List.filter (fun f => jsonl (f_name f)) d ≫= read_file.

Record disk_ok (d : disk) : Prop := {
  do_names : NoDup (f_name <$> d);
  do_clean : Forall (fun f => jsonl (f_name f) = true -> clean f) d
}.

Lemma ReadDir_stored d t : ReadDir d t ≡ₚ List.filter (fun e => After (le_LoggedAt e) t) (stored d).
Proof.
  unfold ReadDir, stored, log_files.
  assert (ssort name_less (List.filter (fun f => HasSuffix (f_name f) ".jsonl") d) ≡ₚ List.filter (fun f => jsonl (f_name f)) d) as -> by apply ssort_perm.
  induction (List.filter (fun f => jsonl (f_name f)) d) as [|f l IH]; [done|]. simpl. rewrite List.filter_app. by rewrite IH.
Qed.

(** Appending a record to one of the files adds its entry. *)
Lemma append_stored d name line e now : disk_ok d -> name ∈ f_name <$> d -> jsonl name = true -> line_of line e ->
  disk_ok (append_file d name (entry_record line) now) /\ f_name <$> append_file d name (entry_record line) now = f_name <$> d /\
  stored (append_file d name (entry_record line) now) ≡ₚ stored d ++ [e].
Proof.
  intros [Hnd Hcl] Hin Hj Hline.
  assert (f_name <$> append_file d name (entry_record line) now = f_name <$> d) as Hnames.
  { unfold append_file. rewrite <- list_fmap_compose. apply list_fmap_ext. intros i f _. simpl. destruct (String.eqb_spec (f_name f) name) as [->|]; done. }
  assert (forall f, jsonl (f_name f) = true -> clean f -> f_name f = name ->
    clean (mkFile name (f_bytes f +:+ entry_record line) now) /\
    read_file (mkFile name (f_bytes f +:+ entry_record line) now) = read_file f ++ [e]) as Hone.
  { intros f _ (lines & es & Hb & H) _. assert (Forall2 line_of (lines ++ [line]) (es ++ [e])) as H' by (apply Forall2_app; [done|]; apply Forall2_cons; split; [done|by apply Forall2_nil]).
    assert (f_bytes f +:+ entry_record line = text (lines ++ [line])) as Hb' by (by rewrite text_snoc, Hb).
    split; [by exists (lines ++ [line]), (es ++ [e])|]. rewrite (clean_read f lines es Hb H). by apply (clean_read _ (lines ++ [line])). }
  split; [split; [by rewrite Hnames|]|split; [done|]].
  - unfold append_file. apply Forall_fmap. eapply Forall_impl; [exact Hcl|]. intros f Hf. simpl.
    destruct (String.eqb_spec (f_name f) name) as [E|]; [|done]. intros _. subst name. by apply Hone; [|apply Hf|].
  - clear Hnames. unfold stored, append_file. induction d as [|f d IH]; [by apply elem_of_nil in Hin|].
    cbn [fmap list_fmap List.filter]. rewrite fmap_cons in Hnd, Hin. apply NoDup_cons in Hnd as [Hni Hnd]. apply Forall_cons in Hcl as [Hf Hcl].
    destruct (String.eqb_spec (f_name f) name) as [E|E].
    + cbn [f_name]. rewrite Hj. rewrite <- E in Hj. rewrite Hj. rewrite !bind_cons. destruct (Hone f Hj (Hf Hj) E) as [_ ->].
      assert ((fun f => if String.eqb (f_name f) name then mkFile name (f_bytes f +:+ entry_record line) now else f) <$> d = d) as ->.
      { rewrite <- (list_fmap_id d) at 2. apply list_fmap_ext. intros i g Hg. destruct (String.eqb_spec (f_name g) name) as [E2|]; [|done].
        exfalso. apply Hni. rewrite E, <- E2. apply list_elem_of_fmap_2. by eapply list_elem_of_lookup_2. }
      rewrite <- app_assoc, (Permutation_app_comm [e]). by rewrite app_assoc.
    + apply elem_of_cons in Hin as [->|Hin]; [done|]. specialize (IH Hnd Hcl Hin).
      destruct (jsonl (f_name f)); [|exact IH]. rewrite !bind_cons, IH. by rewrite app_assoc.
Qed.
End Contents.

(** ** What a batch does to the directory *)

Section Batches.
Context `{C : LogCodec}.

Lemma file_name_jsonl ts seq : jsonl (file_name ts seq) = true.
Proof.
  unfold jsonl, file_name. destruct (0 <? seq).
  - change ("events-" +:+ ts +:+ "-" +:+ pretty seq +:+ ".jsonl") with (("events-" +:+ ts) +:+ "-" +:+ pretty seq +:+ ".jsonl").
    rewrite <- !string_app_assoc. apply HasSuffix_app.
  - rewrite <- string_app_assoc. apply HasSuffix_app.
Qed.

(** The open file is one of the directory's logs. *)
Definition writer_ok (d : disk) (w : LogWriter) : Prop :=
  lw_open w = true -> lw_active w ∈ f_name <$> d /\ jsonl (lw_active w) = true.

Lemma openNewFile_ok d w now e d' w' ok : disk_ok d -> lw_open w = false -> openNewFile d w now e = (d', w', ok) ->
  disk_ok d' /\ writer_ok d' w' /\ stored d' = stored d /\ lw_syncOnWrite w' = lw_syncOnWrite w.
Proof.
  intros [Hn Hc] Hw. unfold openNewFile. set (taken := exists_file d (file_name (FormatStamp now) 0)).
  set (seq := if taken then _ else _). set (name := if taken then _ else file_name (FormatStamp now) 0).
  assert (jsonl name = true) as Hj by (subst name; destruct taken; apply file_name_jsonl).
  destruct e; intros [= <- <- _]; [split; [by split|split; [by unfold writer_ok; simpl; rewrite Hw|done]]|].
  destruct (exists_file d name) eqn:E.
  - split; [by split|split; [|done]]. intros _. simpl. split; [by apply exists_file_elem|done].
  - assert (name ∉ f_name <$> d) as Hni by (intros H; apply exists_file_elem in H; congruence).
    split; [split|split; [|split; [|done]]].
    + rewrite fmap_app. apply NoDup_app. split; [done|]. split; [|apply NoDup_singleton]. by intros x Hx ->%list_elem_of_singleton.
    + apply Forall_app. split; [done|]. apply Forall_singleton. intros _. exists [], []. done.
    + intros _. simpl. split; [|done]. rewrite fmap_app. apply elem_of_app. right. by left.
    + unfold stored. rewrite List.filter_app, bind_app. simpl. rewrite Hj. by rewrite app_nil_r.
Qed.

Definition untorn (o : batch_outcome) : Prop := forall i, bo_torn o i = None.

Lemma encode_loop_ok w o : untorn o -> forall batch d i d' ids ok, disk_ok d -> writer_ok d w -> Forall (fun b => readable b.2) batch ->
  encode_loop d w o i batch = (d', ids, ok) -> ok <> TornWrite /\
  disk_ok d' /\ f_name <$> d' = f_name <$> d /\ exists k, ids = (take k batch).*1 /\ stored d' ≡ₚ stored d ++ (take k batch).*2 /\
    (ok = AllEncoded -> ids = batch.*1).
Proof.
  intros Ho. induction batch as [|[id e] batch IH]; intros d i d' ids ok Hd Hw Hr E; cbn [encode_loop] in E.
  { injection E as <- <- <-. split; [done|split; [done|split; [done|]]]. exists O. by rewrite app_nil_r. }
  apply Forall_cons in Hr as [(line & Hl & Hline) Hr]. cbn [snd] in Hl, Hline. rewrite Hl in E.
  destruct (lw_open w) eqn:Eo; cbn [negb] in E; [|injection E as <- <- <-; split; [done|split; [done|split; [done|]]]; exists O; by rewrite app_nil_r].
  rewrite (Ho i) in E. destruct (Hw Eo) as [Hin Hj].
  destruct (append_stored d (lw_active w) line e (bo_now o) Hd Hin Hj Hline) as (Hd1 & Hn1 & Hs1).
  destruct (encode_loop (append_file d (lw_active w) (entry_record line) (bo_now o)) w o (S i) batch) as [[d2 ids2] ok2] eqn:E2.
  injection E as <- <- <-. eapply IH in E2 as (Ht & Hd2 & Hn2 & k & Hk & Hs2 & Hok); [|done|by intros _; rewrite Hn1|done].
  split; [done|split; [done|split; [by rewrite Hn2|]]]. exists (S k). cbn [take fmap list_fmap fst snd]. split; [by rewrite Hk|split].
  - rewrite Hs2, Hs1, <- app_assoc. done.
  - intros H. by rewrite (Hok H).
Qed.

Lemma commit_ok d w o batch d' w' ids synced ok : untorn o -> disk_ok d -> writer_ok d w -> Forall (fun b => readable b.2) batch ->
  commit d w o batch = (d', w', ids, synced, ok) ->
  disk_ok d' /\ writer_ok d' w' /\ lw_syncOnWrite w' = lw_syncOnWrite w /\
  exists k, ids = (take k batch).*1 /\ stored d' ≡ₚ stored d ++ (take k batch).*2 /\
    (ok = true -> ids = batch.*1 /\ (lw_syncOnWrite w = true -> synced = true)).
Proof.
  intros Ho Hd Hw Hr. unfold commit. destruct (encode_loop d w o 0 batch) as [[d1 ids1] end1] eqn:E1.
  destruct (encode_loop_ok w o Ho _ _ _ _ _ _ Hd Hw Hr E1) as (Ht & Hd1 & Hn1 & k & Hk & Hs1 & Hok1).
  assert (match end1 with TornWrite => set_open w false | _ => w end = w) as -> by (by destruct end1).
  assert (encoded end1 = true -> ids1 = batch.*1) as Hall by (intros H; apply Hok1; by destruct end1).
  assert (writer_ok d1 w) as Hw1 by (unfold writer_ok; by rewrite Hn1).
  assert (forall w1 b d2 w2 ok2, lw_syncOnWrite w1 = lw_syncOnWrite w -> lw_active w1 = lw_active w -> lw_open w1 = lw_open w ->
    (if b : bool then maybeRotate d1 w1 o else (d1, w1, false)) = (d2, w2, ok2) ->
    disk_ok d2 /\ writer_ok d2 w2 /\ stored d2 = stored d1 /\ lw_syncOnWrite w2 = lw_syncOnWrite w /\ (ok2 = true -> b = true)) as Hrot.
  { intros w1 b d2 w2 ok2 A1 A2 A3 E. assert (writer_ok d1 w1) as Hw2 by (unfold writer_ok; by rewrite A2, A3).
    destruct b; [|injection E as <- <- <-; by split_and!]. unfold maybeRotate in E.
    destruct (lw_maxFileBytes w1 <=? 0); [injection E as <- <- <-; by split_and!|].
    destruct (bo_statErr o); [injection E as <- <- <-; by split_and!|].
    destruct (file_size d1 (lw_active w1) <? lw_maxFileBytes w1); [injection E as <- <- <-; by split_and!|].
    apply openNewFile_ok in E as (B1 & B2 & B3 & B4); [|done|done]. split_and!; try done. by rewrite B4. }
  destruct (encoded end1 && lw_syncOnWrite w) eqn:Eb.
  - destruct (if negb (bo_syncErr o) then _ else _) as [[d2 w2] ok2] eqn:E2. intros [= <- <- <- <- <-].
    apply Hrot in E2 as (B1 & B2 & B3 & B4 & B5); try done. split_and!; try done. exists k. rewrite B3. split_and!; try done.
    intros H. split; [|intros _; by apply B5]. by apply Hall, (andb_prop _ _ Eb).
  - destruct (if encoded end1 then _ else _) as [[d2 w2] ok2] eqn:E2. intros [= <- <- <- <- <-].
    apply Hrot in E2 as (B1 & B2 & B3 & B4 & B5); try done. split_and!; try done. exists k. rewrite B3. split_and!; try done.
    intros H. specialize (B5 H). split; [by apply Hall|]. intros Hs. by rewrite Hs, B5 in Eb.
Qed.
End Batches.

(** ** The invariant of callers and committer *)

Definition batching (pc : commit_pc) : list nat := match pc with Batching ids => ids | _ => [] end.
Definition flight (y : log_sys) : list nat := batching (gs_pc y) ++ gs_queue y.
Definition entries_of (calls : gmap nat (LogEntry * writing)) (ids : list nat) : list LogEntry :=
  omap (fun id => fst <$> calls !! id) ids.

Section Invariant.
Context `{C : LogCodec}.

(** What the state of a call says about its entry. *)
Definition call_ok (sync : bool) (y : log_sys) (id : nat) (c : writing) : Prop :=
  match c with
  | Sending => id ∉ gs_written y ++ flight y
  | Waiting => id ∈ flight y
  | Acked true | Returned Durable => id ∈ gs_written y /\ (sync = true -> id ∈ gs_synced y)
  | _ => True
  end.

Record log_ok (d0 : disk) (sync : bool) (y : log_sys) : Prop := {
  lo_disk : disk_ok (gs_disk y);
  lo_writer : writer_ok (gs_disk y) (gs_writer y);
  lo_sync : lw_syncOnWrite (gs_writer y) = sync;
  lo_stored : stored (gs_disk y) ≡ₚ stored d0 ++ entries_of (gs_calls y) (gs_written y);
  lo_nodup : NoDup (gs_written y ++ flight y);
  lo_calls : forall id e c, gs_calls y !! id = Some (e, c) -> readable e /\ call_ok sync y id c;
  lo_known : forall id, id ∈ gs_written y ++ flight y -> is_Some (gs_calls y !! id)
}.

Lemma entries_of_ext calls calls' ids : (forall id, id ∈ ids -> fst <$> calls !! id = fst <$> calls' !! id) ->
  entries_of calls ids = entries_of calls' ids.
Proof.
  intros H. unfold entries_of. induction ids as [|id ids IH]; [done|]. cbn [omap list_omap]. rewrite (H id) by (by left).
  assert (forall i, i ∈ ids -> fst <$> calls !! i = fst <$> calls' !! i) as Hi by (intros i Hi; apply H; by right).
  destruct (fst <$> calls' !! id); [f_equal|]; by apply IH.
Qed.

Lemma ack_lookup ok ids : forall calls id,
  foldl (ack ok) calls ids !! id = if bool_decide (id ∈ ids) then (fun c => (c.1, Acked ok)) <$> calls !! id else calls !! id.
Proof.
  induction ids as [|i ids IH]; intros calls id; [done|]. cbn [foldl]. rewrite IH.
  assert (forall j, ack ok calls i !! j = if decide (j = i) then (fun c => (c.1, Acked ok)) <$> calls !! j else calls !! j) as Ha.
  { intros j. unfold ack. destruct (calls !! i) as [[e c]|] eqn:E; case_decide as Hj; subst; rewrite ?lookup_insert_eq, ?lookup_insert_ne by done; rewrite ?E; done. }
  rewrite Ha. case_decide as Hi.
  - subst. rewrite (bool_decide_eq_true_2 (i ∈ i :: ids)) by (by left). case_bool_decide; [|done]. by destruct (calls !! i) as [[e c]|].
  - assert (bool_decide (id ∈ ids) = bool_decide (id ∈ i :: ids)) as ->; [|done].
    apply bool_decide_ext. rewrite elem_of_cons. tauto.
Qed.

Lemma batch_of_spec y ids : (forall id, id ∈ ids -> is_Some (gs_calls y !! id)) ->
  (batch_of y ids).*1 = ids /\ forall k, (take k (batch_of y ids)).*2 = entries_of (gs_calls y) (take k ids).
Proof.
  intros H. unfold batch_of, entries_of. induction ids as [|id ids IH]; [split; [done|by intros []]|].
  destruct (H id) as [[e c] Hid]; [by left|]. destruct IH as [IH1 IH2]; [intros i Hi; apply H; by right|].
  cbn [omap list_omap]. rewrite Hid. cbn [mbind option_bind fst]. split; [by cbn; rewrite IH1|].
  intros [|k]; [done|]. cbn [take fmap list_fmap snd omap list_omap]. rewrite Hid. cbn [fmap option_fmap option_map fst]. by rewrite IH2.
Qed.

Lemma entries_of_app calls a b : entries_of calls (a ++ b) = entries_of calls a ++ entries_of calls b.
Proof. apply omap_app. Qed.

(** A batch is committed. *)
Lemma do_commit_ok d0 sync y o ids pc : log_ok d0 sync y -> gs_pc y = Batching ids -> untorn o -> batching pc = [] ->
  log_ok d0 sync (do_commit y o ids pc).
Proof.
  intros [L1 L2 L3 L4 L5 L6 L7] Hpc Ho Hpc'. unfold flight in L5, L7. rewrite Hpc in L5, L7. cbn [batching] in L5, L7.
  assert (forall id, id ∈ ids -> is_Some (gs_calls y !! id)) as Hids by (intros id Hid; apply L7; rewrite !elem_of_app; tauto).
  destruct (batch_of_spec y ids Hids) as [B1 B2].
  assert (Forall (fun b => readable b.2) (batch_of y ids)) as Hr.
  { apply Forall_forall. intros [id e] Hb. unfold batch_of in Hb. apply list_elem_of_omap in Hb as (i & _ & Hi).
    destruct (gs_calls y !! i) as [[e' c]|] eqn:E; [|done]. simplify_eq/=. by apply (L6 id e c). }
  unfold do_commit. destruct (commit (gs_disk y) (gs_writer y) o (batch_of y ids)) as [[[[d' w'] wr] synced] ok] eqn:E.
  apply commit_ok in E as (E1 & E2 & E3 & k & Hk & Hs & Hok); try done. rewrite fmap_take, B1 in Hk. rewrite (B2 k) in Hs. rewrite B1 in Hok.
  assert (forall id, fst <$> foldl (ack ok) (gs_calls y) ids !! id = fst <$> gs_calls y !! id) as Hfst.
  { intros id. rewrite ack_lookup. case_bool_decide; [|done]. by destruct (gs_calls y !! id) as [[e c]|]. }
  split; cbn [gs_disk gs_writer gs_queue gs_calls gs_pc gs_quit gs_written gs_synced]; unfold flight; cbn [gs_pc gs_queue]; try rewrite Hpc'; try done.
  - congruence.
  - rewrite Hs, L4, (entries_of_ext (foldl (ack ok) (gs_calls y) ids) (gs_calls y)) by (by intros; apply Hfst). by rewrite entries_of_app, app_assoc, Hk.
  - rewrite app_nil_l, <- app_assoc. apply (sublist_NoDup _ (gs_written y ++ ids ++ gs_queue y)); [done|]. rewrite Hk.
    by apply sublist_app, sublist_app; [|apply sublist_take|].
  - intros id e c Hc. rewrite ack_lookup in Hc. case_bool_decide as Hid.
    + destruct (gs_calls y !! id) as [[e' c']|] eqn:Ec; [|done]. simplify_eq/=. split; [by eapply L6|]. destruct ok; [|done].
      destruct (Hok eq_refl) as [Hw Hsy]. cbn [call_ok gs_written gs_synced]. split; [apply elem_of_app; right; by rewrite Hw|]. intros Hsync.
      rewrite (Hsy Hsync), Hw. apply elem_of_app. by right.
    + destruct (L6 id e c Hc) as [H1 H2]. split; [done|]. revert H2. unfold call_ok, flight. cbn [gs_pc gs_queue gs_written gs_synced]. rewrite Hpc, Hpc'.
      cbn [batching]. destruct c as [| |[]|[]]; rewrite ?elem_of_app; try done; try tauto.
      * intros H2 H3. apply H2. rewrite Hk in H3. destruct H3 as [[H3|H3]|[H3|H3]]; [by left| |by apply elem_of_nil in H3|tauto].
        apply elem_of_take in H3 as (i & H3 & _). right. left. by eapply list_elem_of_lookup_2.
  - intros id Hid. rewrite ack_lookup. assert (is_Some (gs_calls y !! id)) as [[e c] Hc]; [|rewrite Hc; case_bool_decide; by eexists].
    apply L7. rewrite Hk in Hid. rewrite !elem_of_app in *. destruct Hid as [[H|H]|[H|H]]; [by left| |by apply elem_of_nil in H|tauto].
    apply elem_of_take in H as (i & H & _). right. left. by eapply list_elem_of_lookup_2.
Qed.

Lemma log_ok_queue d0 sync y q pc : log_ok d0 sync y -> batching pc ++ q = flight y -> log_ok d0 sync (set_queue y q pc).
Proof.
  intros [L1 L2 L3 L4 L5 L6 L7] Hf. split; cbn; unfold flight; cbn; rewrite ?Hf; try done.
  intros id e c Hc. destruct (L6 id e c Hc) as [H1 H2]. split; [done|]. unfold call_ok, flight in *. cbn. rewrite Hf. exact H2.
Qed.

Lemma log_ok_call d0 sync y id e c : log_ok d0 sync y -> readable e -> call_ok sync y id c ->
  (id ∈ gs_written y -> exists c0, gs_calls y !! id = Some (e, c0)) -> log_ok d0 sync (set_call y id e c).
Proof.
  intros [L1 L2 L3 L4 L5 L6 L7] Hr Hc Hw. split; cbn; try done.
  - rewrite L4. rewrite (entries_of_ext (gs_calls y) (<[id := (e, c)]> (gs_calls y))); [done|]. intros i Hi.
    destruct (decide (i = id)) as [->|Hne]; [|by rewrite lookup_insert_ne]. rewrite lookup_insert_eq. by destruct (Hw Hi) as [c0 ->].
  - intros i e' c' Hi. destruct (decide (i = id)) as [->|Hne]; [rewrite lookup_insert_eq in Hi; by simplify_eq|].
    rewrite lookup_insert_ne in Hi by done. by apply (L6 i e' c').
  - intros i Hi. destruct (decide (i = id)) as [->|Hne]; [by rewrite lookup_insert_eq|]. rewrite lookup_insert_ne by done. by apply L7.
Qed.

(** The events a caller and the operating system may bring: entries that read back, and
    writes that are not torn. *)
Definition fair_event (ev : log_event) : Prop :=
  match ev with GWrite _ e => readable e | GCommit o | GDrain o => untorn o | _ => True end.

Lemma log_step_ok d0 sync ev y y' : log_ok d0 sync y -> fair_event ev -> log_step ev y = Some y' -> log_ok d0 sync y'.
Proof.
  intros L Hev E. pose proof L as [L1 L2 L3 L4 L5 L6 L7]. destruct ev as [id e|id|id|id|id| | |o| | |o|]; cbn [log_step] in E.
  - destruct (gs_calls y !! id) as [c|] eqn:Ec; [done|]. injection E as <-.
    assert (id ∉ gs_written y ++ flight y) as Hni by (intros H; apply L7 in H; rewrite Ec in H; by destruct H).
    apply log_ok_call; try done. intros Hw. exfalso. apply Hni, elem_of_app. by left.
  - destruct (gs_calls y !! id) as [[e []]|] eqn:Ec; try done. destruct (length (gs_queue y) <? maxBatch)%nat; [|done]. injection E as <-.
    destruct (L6 _ _ _ Ec) as [Hr Hni]. cbn [call_ok] in Hni.
    assert (flight (set_queue y (gs_queue y ++ [id]) (gs_pc y)) = flight y ++ [id]) as Hf by (unfold flight; cbn; by rewrite app_assoc).
    split; cbn; try done; unfold flight; cbn.
    + rewrite L4. rewrite (entries_of_ext (gs_calls y) (<[id := (e, Waiting)]> (gs_calls y))); [done|]. intros i Hi.
      destruct (decide (i = id)) as [->|Hne]; [by rewrite lookup_insert_eq, Ec|by rewrite lookup_insert_ne].
    + replace (gs_written y ++ batching (gs_pc y) ++ gs_queue y ++ [id]) with ((gs_written y ++ flight y) ++ [id])
        by (unfold flight; by rewrite <- !app_assoc).
      apply NoDup_app. split; [done|]. split; [|apply NoDup_singleton]. by intros x Hx ->%list_elem_of_singleton.
    + intros i e' c' Hi. destruct (decide (i = id)) as [->|Hne].
      * rewrite lookup_insert_eq in Hi. simplify_eq. split; [done|]. unfold call_ok, flight. cbn. rewrite !elem_of_app. right. right. by left.
      * rewrite lookup_insert_ne in Hi by done. destruct (L6 _ _ _ Hi) as [H1 H2]. split; [done|]. unfold call_ok, flight in *. cbn in *.
        destruct c' as [| |[]|[]]; rewrite ?elem_of_app in *; try done; [|tauto]. rewrite list_elem_of_singleton. tauto.
    + intros i Hi. destruct (decide (i = id)) as [->|Hne]; [by rewrite lookup_insert_eq|]. rewrite lookup_insert_ne by done.
      apply L7. unfold flight. rewrite !elem_of_app in *. rewrite list_elem_of_singleton in Hi. tauto.
  - destruct (gs_calls y !! id) as [[e []]|] eqn:Ec; try done. destruct (is_exited (gs_pc y)); [|done]. injection E as <-.
    apply log_ok_call; [done|by apply (L6 _ _ _ Ec)|done|by eauto].
  - destruct (gs_calls y !! id) as [[e [| |ok|]]|] eqn:Ec; try done. injection E as <-. destruct (L6 _ _ _ Ec) as [Hr Hc].
    apply log_ok_call; [done|done|by destruct ok|by eauto].
  - destruct (gs_calls y !! id) as [[e c]|] eqn:Ec; try done.
    assert (y' = set_call y id e (Returned WriterClosed)) as -> by (destruct c; try done; by destruct (is_exited (gs_pc y)); simplify_eq).
    apply log_ok_call; [done|by apply (L6 _ _ _ Ec)|done|by eauto].
  - destruct (gs_pc y) eqn:Ep; try done. destruct (gs_queue y) as [|id q] eqn:Eq; [done|]. injection E as <-.
    apply log_ok_queue; [done|]. unfold flight. by rewrite Ep, Eq.
  - destruct (gs_pc y) as [|ids| |] eqn:Ep; try done. destruct (gs_queue y) as [|id q] eqn:Eq; [done|].
    destruct (length ids <? maxBatch)%nat; [|done]. injection E as <-. apply log_ok_queue; [done|]. unfold flight. rewrite Ep, Eq. cbn. by rewrite <- app_assoc.
  - destruct (gs_pc y) as [|ids| |] eqn:Ep; try done. destruct (_ && _); [done|]. injection E as <-. by apply do_commit_ok.
  - injection E as <-. by split.
  - destruct (gs_pc y) eqn:Ep; try done. destruct (gs_quit y); [|done]. injection E as <-. apply log_ok_queue; [done|]. unfold flight. by rewrite Ep.
  - destruct (gs_pc y) eqn:Ep; try done. destruct (gs_queue y) as [|id q] eqn:Eq; [done|]. injection E as <-.
    change (do_commit (set_queue y q Draining) o [id] Draining) with (do_commit (set_queue y q (Batching [id])) o [id] Draining).
    apply do_commit_ok; try done. apply log_ok_queue; [done|]. unfold flight. by rewrite Ep, Eq.
  - destruct (gs_pc y) eqn:Ep; try done. destruct (gs_queue y) as [|id q] eqn:Eq; [|done]. injection E as <-.
    unfold flight in *. rewrite Ep, Eq in L5, L7. split; cbn; unfold flight; cbn; try done.
    intros i e c Hi. destruct (L6 _ _ _ Hi) as [H1 H2]. split; [done|]. unfold call_ok, flight in *. cbn. rewrite Ep, Eq in H2. exact H2.
Qed.

Lemma log_run_ok d0 sync l : forall y y', log_ok d0 sync y -> Forall fair_event l -> log_run l y = Some y' -> log_ok d0 sync y'.
Proof.
  induction l as [|ev l IH]; intros y y' L Hl E; [by simplify_eq/=|]. apply Forall_cons in Hl as [Hev Hl]. simpl in E.
  destruct (log_step ev y) as [y1|] eqn:E1; [|done]. eapply IH; [|done|exact E]. by eapply log_step_ok.
Qed.
End Invariant.

(** ** Every call is answered *)

Section Progress.
Context `{C : LogCodec} (o : batch_outcome).

(** Steps of the committing goroutine, whatever happens to its batches, and of one call. *)
Definition own_event (id : nat) (ev : log_event) : Prop :=
  match ev with
  | GSend i | GReceive i | GSendClosed i | GWaitClosed i => i = id
  | GFirst | GMore => True
  | GCommit o' | GDrain o' => o' = o
  | _ => False
  end.

(** A request in flight is answered, or still queued; calls without one are left alone. *)
Definition served (y y' : log_sys) : Prop :=
  (forall id e c, gs_calls y !! id = Some (e, c) -> id ∈ flight y ->
    (exists ok, gs_calls y' !! id = Some (e, Acked ok)) \/ gs_calls y' !! id = Some (e, c) /\ id ∈ gs_queue y') /\
  forall id, id ∈ gs_queue y' -> id ∈ flight y.
Definition untouched (y y' : log_sys) : Prop := forall id, id ∉ flight y -> gs_calls y' !! id = gs_calls y !! id.

Lemma log_run_app l1 l2 y : log_run (l1 ++ l2) y = (y1 ← log_run l1 y; log_run l2 y1).
Proof. revert y. induction l1 as [|ev l1 IH]; intros y; [done|]. simpl. destruct (log_step ev y); [apply IH|done]. Qed.

Lemma do_commit_calls y ids pc : gs_calls (do_commit y o ids pc) = foldl (ack (commit (gs_disk y) (gs_writer y) o (batch_of y ids)).2) (gs_calls y) ids /\
  gs_queue (do_commit y o ids pc) = gs_queue y /\ gs_pc (do_commit y o ids pc) = pc.
Proof. unfold do_commit. by destruct (commit _ _ _ _) as [[[[d w] wr] sy] ok]. Qed.

Lemma do_commit_served y ids pc : gs_pc y = Batching ids ->
  served y (do_commit y o ids pc) /\ untouched y (do_commit y o ids pc).
Proof.
  intros Hpc. destruct (do_commit_calls y ids pc) as (Hc & Hq & _). split.
  - split; [|intros id; rewrite Hq; unfold flight; rewrite elem_of_app; tauto].
    intros id e c Hid Hf. rewrite Hc, Hq, ack_lookup, Hid. case_bool_decide as Hi; [left; by eexists|right]. split; [done|].
    unfold flight in Hf. rewrite Hpc in Hf. cbn [batching] in Hf. rewrite elem_of_app in Hf. tauto.
  - intros id Hf. rewrite Hc, ack_lookup. rewrite bool_decide_eq_false_2; [done|]. intros Hi. apply Hf. unfold flight. rewrite Hpc.
    apply elem_of_app. by left.
Qed.

(** A batch fills up from the queue and is committed. *)
Lemma batch_ends id q : forall y ids, gs_pc y = Batching ids -> gs_queue y = q -> (length ids <= maxBatch)%nat ->
  exists l y', log_run l y = Some y' /\ Forall (own_event id) l /\ gs_pc y' = Idle /\ (length (gs_queue y') <= length q)%nat /\
    served y y' /\ untouched y y'.
Proof.
  induction q as [|h q IH]; intros y ids Hpc Hq Hlen.
  - exists [GCommit o], (do_commit y o ids Idle). destruct (do_commit_served y ids Idle Hpc) as [H1 H2].
    destruct (do_commit_calls y ids Idle) as (_ & Hq' & Hp'). cbn [log_run log_step]. rewrite Hpc, Hq, andb_false_r.
    split; [done|]. split; [by repeat constructor|]. rewrite Hq', Hq. done.
  - destruct (decide (length ids < maxBatch)%nat) as [Hl|Hl].
    + destruct (IH (set_queue y q (Batching (ids ++ [h]))) (ids ++ [h]) eq_refl eq_refl) as (l & y' & E & Hown & Hp & Hle & Hs & Hu).
      { rewrite length_app. simpl. lia. }
      assert (flight (set_queue y q (Batching (ids ++ [h]))) = flight y) as Hf by (unfold flight; rewrite Hpc, Hq; cbn; by rewrite <- app_assoc).
      exists (GMore :: l), y'. cbn [log_run log_step]. rewrite Hpc, Hq, (proj2 (Nat.ltb_lt _ _)) by done.
      split; [exact E|]. split; [by constructor|]. split; [done|]. split; [simpl; lia|]. unfold served, untouched in *. rewrite Hf in *. done.
    + exists [GCommit o], (do_commit y o ids Idle). destruct (do_commit_served y ids Idle Hpc) as [H1 H2].
      destruct (do_commit_calls y ids Idle) as (_ & Hq' & Hp'). cbn [log_run log_step]. rewrite Hpc, (proj2 (Nat.ltb_ge _ _)) by lia.
      split; [done|]. split; [by repeat constructor|]. rewrite Hq', Hq. done.
Qed.

Definition resting (pc : commit_pc) : Prop := match pc with Idle | Draining => True | _ => False end.

(** One round of the committing goroutine shortens the queue. *)
Lemma round id y h q : resting (gs_pc y) -> gs_queue y = h :: q -> exists l y', log_run l y = Some y' /\ Forall (own_event id) l /\
  resting (gs_pc y') /\ (length (gs_queue y') < length (gs_queue y))%nat /\ served y y' /\ untouched y y'.
Proof.
  intros Hr Hq. set (y1 := set_queue y q (Batching [h])).
  assert (flight y1 = flight y) as Hf by (unfold flight; rewrite Hq; by destruct (gs_pc y)).
  destruct (gs_pc y) eqn:Hpc; try done.
  - destruct (batch_ends id q y1 [h] eq_refl eq_refl) as (l & y' & E & Hown & Hp & Hle & Hs & Hu); [simpl; unfold maxBatch; lia|].
    exists (GFirst :: l), y'. cbn [log_run log_step]. rewrite Hpc, Hq. split; [exact E|]. split; [by constructor|]. rewrite Hp.
    split; [done|]. split; [simpl; lia|]. unfold served, untouched in *. rewrite Hf in *. done.
  - exists [GDrain o], (do_commit y1 o [h] Draining). destruct (do_commit_served y1 [h] Draining eq_refl) as [H1 H2].
    destruct (do_commit_calls y1 [h] Draining) as (_ & Hq' & Hp'). cbn [log_run log_step]. rewrite Hpc, Hq.
    split; [done|]. split; [by repeat constructor|]. rewrite Hq', Hp'. split; [done|]. split; [simpl; lia|].
    unfold served, untouched in *. rewrite Hf in *. done.
Qed.

(** Rounds empty the queue. *)
Lemma rounds id : forall n y, resting (gs_pc y) -> (length (gs_queue y) <= n)%nat -> exists l y', log_run l y = Some y' /\ Forall (own_event id) l /\
  resting (gs_pc y') /\ gs_queue y' = [] /\
  (forall i e c, gs_calls y !! i = Some (e, c) -> i ∈ gs_queue y -> exists ok, gs_calls y' !! i = Some (e, Acked ok)) /\
  (forall i, i ∉ gs_queue y -> gs_calls y' !! i = gs_calls y !! i).
Proof.
  assert (forall y, resting (gs_pc y) -> flight y = gs_queue y) as Hfl by (intros y Hr; unfold flight; by destruct (gs_pc y)).
  induction n as [|n IH]; intros y Hr Hn; (destruct (gs_queue y) as [|h q] eqn:Hq; [|]).
  - exists [], y. split_and!; try done. by intros i e c _ ?%elem_of_nil.
  - simpl in Hn. lia.
  - exists [], y. split_and!; try done. by intros i e c _ ?%elem_of_nil.
  - destruct (round id y h q Hr Hq) as (l1 & y1 & E1 & O1 & R1 & L1 & S1 & U1). rewrite Hq in L1.
    destruct (IH y1 R1) as (l2 & y2 & E2 & O2 & R2 & Q2 & S2 & U2); [simpl in *; lia|].
    exists (l1 ++ l2), y2. rewrite log_run_app, E1. split; [exact E2|]. split; [by apply Forall_app|]. split; [done|split; [done|]].
    unfold served, untouched in S1, U1. rewrite (Hfl y Hr), Hq in S1, U1. split.
    + intros i e c Hi Hin. destruct S1 as [S1 _]. destruct (decide (i ∈ gs_queue y1)) as [Hq1|Hq1].
      * destruct (S1 i e c Hi Hin) as [[ok Hok]|[H1 _]]; by eapply S2.
      * destruct (S1 i e c Hi Hin) as [[ok Hok]|[_ H2]]; [|done]. exists ok. by rewrite (U2 i Hq1).
    + intros i Hi. rewrite U2; [by apply U1|]. intros H. by apply Hi, S1.
Qed.
End Progress.

(** What the answers need, whatever the entries and the operating system do. *)
Record live_ok (y : log_sys) : Prop := {
  lv_waiting : forall id e, gs_calls y !! id = Some (e, Waiting) -> id ∈ flight y;
  lv_sending : forall id e, gs_calls y !! id = Some (e, Sending) -> id ∉ flight y;
  lv_known : forall id, id ∈ flight y -> is_Some (gs_calls y !! id);
  lv_batch : forall ids, gs_pc y = Batching ids -> (length ids <= maxBatch)%nat
}.

Section Live.
Context `{C : LogCodec}.

Lemma live_ok_queue y q pc : live_ok y -> batching pc ++ q = flight y -> (forall ids, pc = Batching ids -> (length ids <= maxBatch)%nat) ->
  live_ok (set_queue y q pc).
Proof. intros [H1 H2 H3 H4] Hf Hb. split; unfold flight; cbn; rewrite ?Hf; done. Qed.

Lemma live_ok_call y id e c : live_ok y -> match c with Sending => id ∉ flight y | Waiting => id ∈ flight y | _ => True end ->
  live_ok (set_call y id e c).
Proof.
  intros [H1 H2 H3 H4] Hc. change (flight y) with (flight (set_call y id e c)) in *. split; [| | |done]; intros i.
  - intros e' Hi. cbn in Hi. destruct (decide (i = id)) as [->|Hne]; [rewrite lookup_insert_eq in Hi; by simplify_eq|].
    rewrite lookup_insert_ne in Hi by done. by apply (H1 i e').
  - intros e' Hi. cbn in Hi. destruct (decide (i = id)) as [->|Hne]; [rewrite lookup_insert_eq in Hi; by simplify_eq|].
    rewrite lookup_insert_ne in Hi by done. by apply (H2 i e').
  - intros Hi. cbn. destruct (decide (i = id)) as [->|Hne]; [by rewrite lookup_insert_eq|]. rewrite lookup_insert_ne by done. by apply H3.
Qed.

Lemma live_ok_commit y o ids pc : live_ok y -> gs_pc y = Batching ids -> batching pc = [] -> (forall b, pc <> Batching b) -> live_ok (do_commit y o ids pc).
Proof.
  intros [H1 H2 H3 H4] Hpc Hb Hn. destruct (do_commit_calls o y ids pc) as (Hc & Hq & Hp).
  assert (flight (do_commit y o ids pc) = gs_queue y) as Hf by (unfold flight; by rewrite Hq, Hp, Hb).
  assert (flight y = ids ++ gs_queue y) as Hf0 by (unfold flight; by rewrite Hpc). rewrite Hf0 in H1, H2, H3.
  split; rewrite ?Hf; try (intros b; rewrite Hp; intros ->; by destruct (Hn b)); intros id; rewrite Hc, ack_lookup; case_bool_decide as Hi.
  - intros e E. by destruct (gs_calls y !! id) as [[]|].
  - intros e E. specialize (H1 id e E). rewrite elem_of_app in H1. tauto.
  - intros e E. by destruct (gs_calls y !! id) as [[]|].
  - intros e E. specialize (H2 id e E). rewrite elem_of_app in H2. tauto.
  - intros Hq'. destruct (H3 id) as [c ->]; [apply elem_of_app; by right|]. by eexists.
  - intros Hq'. apply H3, elem_of_app. by right.
Qed.

Lemma live_step ev y y' : live_ok y -> log_step ev y = Some y' -> live_ok y'.
Proof.
  intros L E. pose proof L as [H1 H2 H3 H4]. destruct ev as [id e|id|id|id|id| | |o| | |o|]; cbn [log_step] in E.
  - destruct (gs_calls y !! id) as [c|] eqn:Ec; [done|]. injection E as <-. apply live_ok_call; [done|]. intros H. apply H3 in H. rewrite Ec in H. by destruct H.
  - destruct (gs_calls y !! id) as [[e []]|] eqn:Ec; try done. destruct (length (gs_queue y) <? maxBatch)%nat; [|done]. injection E as <-.
    assert (flight (set_queue (set_call y id e Waiting) (gs_queue y ++ [id]) (gs_pc y)) = flight y ++ [id]) as Hf by (unfold flight; cbn; by rewrite app_assoc).
    split; [| | |done]; intros i; (destruct (decide (i = id)) as [->|Hne];
      [cbn; rewrite ?lookup_insert_eq|cbn; rewrite ?lookup_insert_ne by done]).
    + intros e' _. rewrite Hf, elem_of_app, list_elem_of_singleton. tauto.
    + intros e' Hi. rewrite Hf, elem_of_app. left. by apply (H1 i e').
    + intros e' Hi. by simplify_eq.
    + intros e' Hi. rewrite Hf, elem_of_app, list_elem_of_singleton. intros [H|H]; [by apply (H2 i e')|done].
    + done.
    + rewrite Hf, elem_of_app, list_elem_of_singleton. intros [H|H]; [by apply H3|done].
  - destruct (gs_calls y !! id) as [[e []]|]; try done. destruct (is_exited (gs_pc y)); [|done]. injection E as <-. by apply live_ok_call.
  - destruct (gs_calls y !! id) as [[e []]|]; try done. injection E as <-. by apply live_ok_call.
  - destruct (gs_calls y !! id) as [[e c]|]; [|done].
    assert (y' = set_call y id e (Returned WriterClosed)) as -> by (destruct c; try done; by destruct (is_exited (gs_pc y)); simplify_eq).
    by apply live_ok_call.
  - destruct (gs_pc y) eqn:Ep; try done. destruct (gs_queue y) as [|id q] eqn:Eq; [done|]. injection E as <-.
    apply live_ok_queue; [done|unfold flight; by rewrite Ep, Eq|]. intros ids [= <-]. simpl. unfold maxBatch. lia.
  - destruct (gs_pc y) as [|ids| |] eqn:Ep; try done. destruct (gs_queue y) as [|id q] eqn:Eq; [done|].
    destruct (length ids <? maxBatch)%nat eqn:El; [|done]. apply Nat.ltb_lt in El. injection E as <-.
    apply live_ok_queue; [done|unfold flight; rewrite Ep, Eq; cbn; by rewrite <- app_assoc|]. intros b [= <-]. rewrite length_app. simpl. lia.
  - destruct (gs_pc y) as [|ids| |] eqn:Ep; try done. destruct (_ && _); [done|]. injection E as <-. by apply live_ok_commit.
  - injection E as <-. by split.
  - destruct (gs_pc y) eqn:Ep; try done. destruct (gs_quit y); [|done]. injection E as <-. apply live_ok_queue; [done|unfold flight; by rewrite Ep|done].
  - destruct (gs_pc y) eqn:Ep; try done. destruct (gs_queue y) as [|id q] eqn:Eq; [done|]. injection E as <-.
    change (do_commit (set_queue y q Draining) o [id] Draining) with (do_commit (set_queue y q (Batching [id])) o [id] Draining).
    apply live_ok_commit; try done. apply live_ok_queue; [done|unfold flight; by rewrite Ep, Eq|]. intros b [= <-]. simpl. unfold maxBatch. lia.
  - destruct (gs_pc y) eqn:Ep; try done. destruct (gs_queue y) as [|id q] eqn:Eq; [|done]. injection E as <-.
    assert (flight y = []) as Hf by (unfold flight; by rewrite Ep, Eq). rewrite Hf in *. by split.
Qed.

Lemma live_run l : forall y y', live_ok y -> log_run l y = Some y' -> live_ok y'.
Proof.
  induction l as [|ev l IH]; intros y y' L E; [by simplify_eq/=|]. simpl in E. destruct (log_step ev y) as [y1|] eqn:E1; [|done].
  eapply IH; [|exact E]. by eapply live_step.
Qed.

Lemma live_start d w : live_ok (start_sys d w).
Proof. split; cbn; intros id; try (by intros e ?); try done. intros H. by apply elem_of_nil in H. Qed.
End Live.

(** A call returns after steps of the committing goroutine and of its own. *)
Definition returns `{C : LogCodec} (o : batch_outcome) (id : nat) (e : LogEntry) (y : log_sys) : Prop :=
  exists more y' a, log_run more y = Some y' /\ Forall (own_event o id) more /\ gs_calls y' !! id = Some (e, Returned a).

Section Returns.
Context `{C : LogCodec} (o : batch_outcome) (id : nat) (e : LogEntry).

Lemma returns_run l y y' : log_run l y = Some y' -> Forall (own_event o id) l -> returns o id e y' -> returns o id e y.
Proof.
  intros E O (l2 & y2 & a & E2 & O2 & Ha). exists (l ++ l2), y2, a. rewrite log_run_app, E.
  split; [exact E2|split; [by apply Forall_app|done]].
Qed.

Lemma returns_step ev y y' : log_step ev y = Some y' -> own_event o id ev -> returns o id e y' -> returns o id e y.
Proof. intros E O. apply (returns_run [ev]); [by simpl; rewrite E|by constructor]. Qed.

Lemma returns_returned y a : gs_calls y !! id = Some (e, Returned a) -> returns o id e y.
Proof. intros H. by exists [], y, a. Qed.

Lemma returns_acked y ok : gs_calls y !! id = Some (e, Acked ok) -> returns o id e y.
Proof.
  intros Hz. eapply (returns_step (GReceive id)); [simpl; by rewrite Hz|done|].
  eapply returns_returned. apply lookup_insert_eq.
Qed.

Lemma returns_closed y c : gs_pc y = Exited -> gs_calls y !! id = Some (e, c) -> returns o id e y.
Proof.
  intros Hpc Hc. destruct c as [| |ok|a]; [| |by eapply returns_acked|by eapply returns_returned].
  - eapply (returns_step (GSendClosed id)); [simpl; by rewrite Hc, Hpc|done|]. eapply returns_returned, lookup_insert_eq.
  - eapply (returns_step (GWaitClosed id)); [simpl; by rewrite Hc, Hpc|done|]. eapply returns_returned, lookup_insert_eq.
Qed.

Lemma returns_waiting y : resting (gs_pc y) -> gs_calls y !! id = Some (e, Waiting) -> id ∈ gs_queue y -> returns o id e y.
Proof.
  intros Hr Hz Hq. destruct (rounds o id _ y Hr (le_n _)) as (l1 & y1 & E1 & O1 & _ & _ & S1 & _).
  destruct (S1 id e Waiting Hz Hq) as [ok Hok]. eapply returns_run; [exact E1|done|]. by eapply returns_acked.
Qed.

Lemma returns_sending y : resting (gs_pc y) -> gs_calls y !! id = Some (e, Sending) -> id ∉ gs_queue y -> returns o id e y.
Proof.
  intros Hr Hz Hq. destruct (rounds o id _ y Hr (le_n _)) as (l1 & y1 & E1 & O1 & R1 & Q1 & _ & U1). rewrite <- (U1 id Hq) in Hz.
  eapply returns_run; [exact E1|done|]. eapply (returns_step (GSend id)); [simpl; by rewrite Hz, Q1|done|].
  apply returns_waiting; [exact R1|apply lookup_insert_eq|]. by left.
Qed.

Lemma returns_resting y c : live_ok y -> resting (gs_pc y) -> gs_calls y !! id = Some (e, c) -> returns o id e y.
Proof.
  intros L Hr Hc. assert (flight y = gs_queue y) as Hf by (unfold flight; by destruct (gs_pc y)).
  destruct c as [| |ok|a]; [| |by eapply returns_acked|by eapply returns_returned].
  - apply returns_sending; [done|done|]. rewrite <- Hf. by apply (lv_sending y L id e).
  - apply returns_waiting; [done|done|]. rewrite <- Hf. by apply (lv_waiting y L id e).
Qed.

Lemma returns_live y c : live_ok y -> gs_calls y !! id = Some (e, c) -> returns o id e y.
Proof.
  intros L Hc. destruct (gs_pc y) as [|ids| |] eqn:Hpc; try (by apply (returns_resting y c L); rewrite ?Hpc); [|by eapply returns_closed].
  destruct (batch_ends o id (gs_queue y) y ids Hpc eq_refl (lv_batch y L ids Hpc)) as (l1 & y1 & E1 & O1 & R1 & _ & [S1 _] & U1).
  eapply returns_run; [exact E1|done|]. pose proof (live_run l1 y y1 L E1) as L1.
  destruct (decide (id ∈ flight y)) as [Hf|Hf]; [destruct (S1 id e c Hc Hf) as [[ok Hok]|[H1 _]]; [by eapply returns_acked|]|
    pose proof (U1 id Hf) as H1; rewrite Hc in H1]; by apply (returns_resting y1 c L1); rewrite ?R1.
Qed.
End Returns.

(** C19: every call returns.  From any state the log can reach, whatever its batches meet from
    here on ([o]: failing writes, syncs, rotations), a call that has not returned does so
    after steps of the committing goroutine and of its own; a call is never left waiting,
    also when the writer is being closed or is closed. *)
Theorem every_write_returns `{C : LogCodec} d w l y id e c o : log_run l (start_sys d w) = Some y -> gs_calls y !! id = Some (e, c) ->
  exists more y' a, log_run more y = Some y' /\ Forall (own_event o id) more /\ gs_calls y' !! id = Some (e, Returned a).
Proof. intros E Hc. exact (returns_live o id e y c (live_run l _ _ (live_start d w) E) Hc). Qed.

Section Findings.
Context `{C : LogCodec}.

(** A failed write is final.  After it, and after a rotation that could not open its file,
    the encoder fails for good and nothing opens another: every later batch is refused. *)
Theorem failed_write_is_final d w o b batch : lw_open w = false ->
  exists d' w', commit d w o (b :: batch) = (d', w', [], false, false) /\ d' = d /\ lw_open w' = false.
Proof.
  intros Hw. exists d, w. unfold commit. destruct b as [id e]. cbn [encode_loop]. rewrite Hw. by destruct (encode_entry e).
Qed.

Lemma torn_write_closes d w o id e line n : lw_open w = true -> encode_entry e = Some line -> bo_torn o 0 = Some n ->
  lw_open (commit d w o [(id, e)]).1.1.1.2 = false.
Proof. intros Hw He Ho. unfold commit. cbn [encode_loop]. by rewrite He, Hw, Ho. Qed.

(** One line longer than the scanner's buffer hides its file: [ReadDir] skips it whole. *)
Theorem long_line_hides_file f piece : piece ∈ split_lines (f_bytes f) -> too_long maxLine piece = true -> read_file f = [].
Proof.
  intros Hin Hlong. unfold read_file, ReadFile. assert ((read_pieces (split_lines (f_bytes f))).2 = false) as Hf.
  { induction (split_lines (f_bytes f)) as [|p l IH]; [by apply elem_of_nil in Hin|]. simpl. apply elem_of_cons in Hin as [<-|Hin]; [by rewrite Hlong|].
    destruct (too_long maxLine p); [done|]. specialize (IH Hin). by destruct (read_pieces l). }
  by destruct (read_pieces _) as [entries []].
Qed.

(** C18: what is acknowledged is stored, once.  A writer is opened on a directory of whole
    records and any number of callers and the committing goroutine take steps in any order,
    with failing syncs, stats and opens, and [Close] at any time.  Then reading the
    directory gives what it gave before and, once each, the entries written since; every
    call that returned success is among them, and was synced when the writer syncs.  Two
    things are asked of what happens: every entry a caller writes is encoded as one line
    that decodes to it and that, with its newline, is at most the 1 MiB a reader takes (a
    longer one hides the whole of its file from readers, [long_line_hides_file]), and no
    write of a record stops half way, so none is torn. *)
Theorem acknowledged_once d sync max now d1 w l y t :
  NewWithConfig d sync max now false = (d1, w, true) -> disk_ok d -> Forall fair_event l -> log_run l (start_sys d1 w) = Some y ->
  NoDup (gs_written y) /\
  ReadDir (gs_disk y) t ≡ₚ ReadDir d t ++ List.filter (fun e => After (le_LoggedAt e) t) (entries_of (gs_calls y) (gs_written y)) /\
  forall id e, gs_calls y !! id = Some (e, Returned Durable) -> id ∈ gs_written y /\ (sync = true -> id ∈ gs_synced y).
Proof.
  intros E Hd Hl Hrun. unfold NewWithConfig in E. apply openNewFile_ok in E as (Hd1 & Hw & Hs & Hsync); [|done|done]. cbn in Hsync.
  assert (log_ok d sync (start_sys d1 w)) as L0.
  { split; try done; cbn; [by fold (stored d1); rewrite Hs, app_nil_r|apply NoDup_nil_2|]. by intros id H%elem_of_nil. }
  destruct (log_run_ok d sync l _ _ L0 Hl Hrun) as [_ _ _ L4 L5 L6 _]. apply NoDup_app in L5 as [L5 _]. split; [done|split].
  - rewrite !ReadDir_stored, <- List.filter_app. by apply lfilter_perm.
  - intros id e Hc. exact (proj2 (L6 id e _ Hc)).
Qed.
End Findings.

(** ** Examples *)

Section Examples.
Let at_ (n : Z) : Time := unix_epoch + n * Second.
Let ex_event (id : string) : WideEvent :=
  mkWideEvent "1.0" id (at_ 0) (mkUserContext "u" "" "" false) (mkRequestContext id "" "" "GET" "/" "" [] "" 0 "")
    (mkSystemContext "api" "" "" "prod" "" "") (mkOutcomeContext true 200 "") None 1 "" ∅ None.
Let ex_entry (id : string) (n : Z) : LogEntry := mkLogEntry (at_ n) (ex_event id) true.

(** A stand-in for JSON that knows three entries by their trace ids. *)
Let ex_codec : LogCodec := {|
  encode_entry e := Some (rc_TraceID (we_Request (le_Event e)));
  decode_entry line := List.find (fun e => String.eqb (rc_TraceID (we_Request (le_Event e))) line)
    [ex_entry "old" 1; ex_entry "one" 5; ex_entry "two" 6];
  decode_event _ := None
|}.
Let fine : batch_outcome := mkBatchOutcome (at_ 9) (fun _ => None) false false false.
Let no_sync : batch_outcome := mkBatchOutcome (at_ 9) (fun _ => None) true false false.
Let old_disk : disk := [mkFile "events-19700101-000000.jsonl" (entry_record "old") (at_ 1)].

(** Two callers in one batch, one of which is still writing; the third batch cannot sync. *)
Let ex_run : list log_event :=
  [GWrite 1 (ex_entry "one" 5); GWrite 2 (ex_entry "two" 6); GSend 1; GFirst; GSend 2; GMore; GCommit fine; GReceive 2; GReceive 1;
   GWrite 3 (ex_entry "old" 1); GSend 3; GClose; GQuit; GDrain no_sync; GExit; GReceive 3].
Let ex_start : disk * LogWriter := let '(d, w, _) := NewWithConfig old_disk true 0 (at_ 2) false in (d, w).

Let ex_readable e : In e [ex_entry "old" 1; ex_entry "one" 5; ex_entry "two" 6] -> @readable ex_codec e.
Proof. intros H. eexists. split; [reflexivity|]. repeat destruct H as [<-|H]; try done; split_and!; done. Qed.

(** What can be seen of a run's end: the entries written and synced, and two calls. *)
Let seen (a b : nat) (y : log_sys) : list nat * list nat * option writing * option writing :=
  (gs_written y, gs_synced y, snd <$> gs_calls y !! a, snd <$> gs_calls y !! b).

Lemma acknowledged_once_witness : exists y, @log_run ex_codec ex_run (start_sys ex_start.1 ex_start.2) = Some y /\
  seen 1 3 y = ([1; 2; 3], [1; 2], Some (Returned Durable), Some (Returned WriteFailed))%nat /\
  NoDup (gs_written y) /\
  @ReadDir ex_codec (gs_disk y) (at_ 1) ≡ₚ @ReadDir ex_codec old_disk (at_ 1) ++
    List.filter (fun e => After (le_LoggedAt e) (at_ 1)) (entries_of (gs_calls y) (gs_written y)).
Proof.
  assert (seen 1 3 <$> @log_run ex_codec ex_run (start_sys ex_start.1 ex_start.2) =
    Some ([1; 2; 3], [1; 2], Some (Returned Durable), Some (Returned WriteFailed))%nat) as Hs by (vm_compute; reflexivity).
  destruct (@log_run ex_codec ex_run (start_sys ex_start.1 ex_start.2)) as [y|] eqn:E; [|discriminate Hs].
  exists y. split; [reflexivity|]. split; [by apply (inj Some)|].
  destruct (@acknowledged_once ex_codec old_disk true 0 (at_ 2) ex_start.1 ex_start.2 ex_run y (at_ 1)) as (H1 & H2 & _).
  - vm_compute. reflexivity.
  - split; [apply NoDup_singleton|]. apply Forall_singleton. intros _. exists ["old"], [ex_entry "old" 1]. split; [reflexivity|].
    apply Forall2_cons. split; [by split_and!|apply Forall2_nil; done].
  - repeat (apply Forall_cons; split); try exact I; try (apply ex_readable; cbn; tauto); try (intros i; reflexivity); apply Forall_nil; exact I.
  - exact E.
  - split; [exact H1|exact H2].
Defined.

(** The second caller waits while the writer drains; its batch cannot be synced. *)
Let ex_drain : list log_event := [GWrite 1 (ex_entry "one" 5); GSend 1; GClose; GQuit; GWrite 2 (ex_entry "two" 6); GSend 2].

Lemma every_write_returns_witness : exists y more y' a,
  @log_run ex_codec ex_drain (start_sys ex_start.1 ex_start.2) = Some y /\ snd <$> gs_calls y !! 2%nat = Some Waiting /\
  @log_run ex_codec more y = Some y' /\ snd <$> gs_calls y' !! 2%nat = Some (Returned a).
Proof.
  assert (seen 1 2 <$> @log_run ex_codec ex_drain (start_sys ex_start.1 ex_start.2) = Some ([], [], Some Waiting, Some Waiting)) as Hs
    by (vm_compute; reflexivity).
  destruct (@log_run ex_codec ex_drain (start_sys ex_start.1 ex_start.2)) as [y|] eqn:E; [|discriminate Hs].
  injection Hs as _ _ _ Hs. destruct (gs_calls y !! 2%nat) as [[e c]|] eqn:Hc; [|discriminate Hs].
  destruct (@every_write_returns ex_codec _ _ _ y 2 e c no_sync E Hc) as (more & y' & a & H1 & _ & H2).
  exists y, more, y', a. rewrite Hc, H2. split; [reflexivity|split; [exact Hs|split; [exact H1|reflexivity]]].
Defined.

(** A durable entry may be reported as refused: when the writer is closed before the answer is
    received, both cases of the [select] are ready. *)
Example closed_but_written :
  seen 1 1 <$> @log_run ex_codec [GWrite 1 (ex_entry "one" 5); GSend 1; GClose; GQuit; GDrain fine; GExit; GWaitClosed 1] (start_sys ex_start.1 ex_start.2) =
    Some ([1%nat], [1%nat], Some (Returned WriterClosed), Some (Returned WriterClosed)).
Proof. vm_compute. reflexivity. Qed.

(** The file of a rotation within the same second is read before the file it follows. *)
Example rotated_file_read_first :
  f_name <$> log_files [mkFile (file_name "20260101-000000" 0) "" (at_ 1); mkFile (file_name "20260101-000000" 1) "" (at_ 2)] =
    ["events-20260101-000000-1.jsonl"; "events-20260101-000000.jsonl"].
Proof. vm_compute. reflexivity. Qed.
End Examples.
