(* ===== verification/Notify.v ===== *)
(** Outbound notifications ([internal/notify/notify.go]): the payloads for Slack, PagerDuty
    and a webhook, and what their receivers are told over a run of the engine.  The
    exchange itself is best effort and changes nothing here; the notices of different
    incidents travel in goroutines of their own and arrive in any order. *)

From S2P Require Import Prelude GoRuntime GoText Eventlog Providers GoFloat Types Family Incident Detect Engine EngineSpec.
Open Scope Z_scope.

Record Config := mkConfig {
  nc_SlackWebhookURL : string; nc_PagerDutyRoutingKey : string; nc_GenericWebhookURL : string; nc_BaseURL : string
}.

Definition Enabled (c : Config) : bool :=
  negb (String.eqb (nc_SlackWebhookURL c) "") || negb (String.eqb (nc_PagerDutyRoutingKey c) "") ||
  negb (String.eqb (nc_GenericWebhookURL c) "").



(** ** Payloads *)









(** ** What a receiver is told *)



















(** ** Over a run of the engine *)

Section Run.
Context {R Sg D S : Type} `{!IncidentReader R, !SignalStore Sg, !DeploySource D, !Store S}.






End Run.

