(* ===== verification/IncidentHttp.v ===== *)
(** The incident endpoints ([internal/incidents/handler.go], [render.go]): the list, one
    incident and its snapshot as JSON or text.  The records of [pkg/api/v2] have the fields
    of the engine's and share their types here; the incident of the API lacks the suspect
    deployment.  Writing JSON is left out. *)

From S2P Require Import Schema Convert Prelude GoRuntime GoText Eventlog GoFloat GoTime Types Family Retention Incident Detect Engine EngineSpec.
From Stdlib Require Import SpecFloat.
Open Scope Z_scope.

Record ApiIncident := mkApiIncident {
  ai_IncidentID : string; ai_Env : string; ai_Service : string; ai_ErrorFamily : ErrorFamily; ai_Status : string; ai_Cause : string;
  ai_Confidence : string; ai_Severity : Z; ai_StartedAt : Time; ai_UpdatedAt : Time; ai_LastSeenAt : Time;
  ai_RecoveringAt : option Time; ai_ResolvedAt : option Time; ai_AffectedRequests : Z; ai_AffectedUsers : option Z;
  ai_AffectedServices : Z; ai_TopServices : list string; ai_SampleTraces : list string; ai_Evidence : list Evidence;
  ai_NextChecks : list string; ai_InstrumentationWarnings : list string; ai_Lift : float64; ai_BaselineCount : Z;
  ai_CurrentCount : Z; ai_Propagation : option PropagationSnapshot; ai_Blast : option BlastSnapshot;
  ai_Alerts : option AlertSnapshot; ai_Runtime : option RuntimeSnapshot
}.

(** ** Conversion *)

Definition toAPIEvidence (rows : list Evidence) : list Evidence :=
  (fun ev => mkEvidence (evd_Kind ev) (evd_Title ev) (evd_Detail ev) (evd_Service ev) (evd_SignalID ev) (evd_DeployID ev)
     (evd_TraceID ev) (evd_OccurredAt ev) (evd_Fields ev)) <$> rows.

Definition toAPIPropagationEvidence (p : PropagationEvidence) : PropagationEvidence :=
  let path := (fun s => mkPropagationStep (ps_Service s) (ps_Step s) (ps_StartMS s) (ps_DurationMS s) (ps_Status s) (ps_ErrorCode s)) <$> pe_Path p in
  mkPropagationEvidence (pe_OriginService p) (pe_OriginStep p) path (pe_SampleTraceID p) (pe_FirstSeenAt p) (pe_CapturedAt p)
    (pe_CaptureStatus p).
Definition toAPIPropagation (s : PropagationSnapshot) : PropagationSnapshot :=
  mkPropagationSnapshot (toAPIPropagationEvidence <$> pns_Opening s) (toAPIPropagationEvidence <$> pns_Latest s).

Definition toAPIBlastEvidence (b : BlastEvidence) : BlastEvidence :=
  mkBlastEvidence (be_AffectedRequests b) (be_AffectedUsers b) (be_AffectedServices b) (be_TopServices b) (be_SampledTraces b)
    (be_CapturedAt b) (be_CaptureStatus b).
Definition toAPIBlast (s : BlastSnapshot) : BlastSnapshot :=
  mkBlastSnapshot (toAPIBlastEvidence <$> bls_Opening s) (toAPIBlastEvidence <$> bls_Latest s).

Definition toAPIAlertEvidence (a : AlertEvidence) : AlertEvidence :=
  let matches := (fun m => mkMatchedAlert (ma_SignalID m) (ma_AlertID m) (ma_Source m) (ma_Severity m) (ma_Reason m) (ma_ProviderURL m)
                     (ma_EvidenceIDs m) (ma_MatchedAt m) (ma_Strategy m)) <$> ae_Matches a in
  mkAlertEvidence matches (ae_CapturedAt a) (ae_CaptureStatus a).
Definition toAPIAlerts (s : AlertSnapshot) : AlertSnapshot :=
  mkAlertSnapshot (toAPIAlertEvidence <$> als_Opening s) (toAPIAlertEvidence <$> als_Latest s).

(** The metadata is copied when there is some. *)
Definition copy_meta (m : option (gmap string value)) : option (gmap string value) :=
  match m with Some m => if decide (m = ∅) then None else Some m | None => None end.
Definition toAPIRuntimeEvidenceVal (r : RuntimeEvidence) : RuntimeEvidence :=
  mkRuntimeEvidence (re_Subtype r) (re_Service r) (re_Reason r) (re_Severity r) (re_Source r) (re_SignalID r) (re_OccurredAt r)
    (copy_meta (re_Metadata r)) (re_CapturedAt r) (re_CaptureStatus r).
Definition toAPIRuntime (s : RuntimeSnapshot) : RuntimeSnapshot :=
  mkRuntimeSnapshot (toAPIRuntimeEvidenceVal <$> rs_Matches s) (toAPIRuntimeEvidenceVal <$> rs_Opening s)
    (toAPIRuntimeEvidenceVal <$> rs_Latest s).

Definition toAPIIncident (inc : Incident) : ApiIncident :=
  mkApiIncident (inc_IncidentID inc) (inc_Env inc) (inc_Service inc) (inc_ErrorFamily inc) (inc_Status inc) (inc_Cause inc)
    (inc_Confidence inc) (inc_Severity inc) (inc_StartedAt inc) (inc_UpdatedAt inc) (inc_LastSeenAt inc) (inc_RecoveringAt inc)
    (inc_ResolvedAt inc) (inc_AffectedRequests inc) (inc_AffectedUsers inc) (inc_AffectedServices inc) (inc_TopServices inc)
    (inc_SampleTraces inc) (toAPIEvidence (inc_Evidence inc)) (inc_NextChecks inc) (inc_InstrumentationWarnings inc) (inc_Lift inc)
    (inc_BaselineCount inc) (inc_CurrentCount inc) (toAPIPropagation <$> inc_Propagation inc) (toAPIBlast <$> inc_Blast inc)
    (toAPIAlerts <$> inc_Alerts inc) (toAPIRuntime <$> inc_Runtime inc).

Definition toAPIIncidents (rows : list Incident) : list ApiIncident := toAPIIncident <$> rows.

(** ** The text snapshot *)

(** [%.2f]: the exact value times a hundred, rounded half to even. *)
Definition half_even (num den : Z) : Z :=
  let q := num / den in let r := num mod den in
  if 2 * r <? den then q else if den <? 2 * r then q + 1 else if Z.even q then q else q + 1.
Definition hundredths (m : positive) (e : Z) : Z := half_even (Z.pos m * 100 * 2 ^ Z.max 0 e) (2 ^ Z.max 0 (- e)).
Definition FormatFixed2 (x : float64) : string :=
  match x with
  | S754_nan => "NaN"
  | S754_infinity s => if s then "-Inf" else "+Inf"
  | S754_zero s => if s then "-0.00" else "0.00"
  | S754_finite s m e =>
    let n := hundredths m e in (if s then "-" else "") +:+ Itoa (n / 100) +:+ "." +:+ pad_int 2 (n mod 100)
  end.

Example FormatFixed2_ex : FormatFixed2 <$> [of_int 3; flit 5 2; flit 1 3; flit 1 8; flit 3 8; of_int (-7); fdiv (of_int 2000) (of_int 7)] =
  ["3.00"; "2.50"; "0.33"; "0.12"; "0.38"; "-7.00"; "285.71"].
Proof. vm_compute. reflexivity. Qed.

Definition section (title : string) (rows : list string) : string :=
  match rows with [] => "" | _ => nl +:+ title +:+ nl +:+ Join "" rows end.

Definition RenderSnapshot (inc : Incident) : string :=
  "Incident " +:+ inc_IncidentID inc +:+ nl +:+
  "Status: " +:+ inc_Status inc +:+ nl +:+
  "Family: " +:+ FormatErrorFamily (inc_ErrorFamily inc) +:+ nl +:+
  "Cause: " +:+ inc_Cause inc +:+ " (" +:+ inc_Confidence inc +:+ " confidence)" +:+ nl +:+
  "Started: " +:+ FormatRFC3339 (inc_StartedAt inc) +:+ nl +:+
  "Affected: " +:+ Itoa (inc_AffectedRequests inc) +:+ " requests, " +:+ Itoa (inc_AffectedServices inc) +:+ " services" +:+ nl +:+
  "Lift: " +:+ FormatFixed2 (inc_Lift inc) +:+ "x over baseline " +:+ Itoa (inc_BaselineCount inc) +:+ nl +:+
  match inc_TopServices inc with [] => "" | l => "Top services: " +:+ Join ", " l +:+ nl end +:+
  match inc_SampleTraces inc with [] => "" | l => "Sample traces: " +:+ Join ", " l +:+ nl end +:+
  section "Evidence:" ((fun ev => "- " +:+ evd_Kind ev +:+ ": " +:+ evd_Title ev +:+
     (if String.eqb (evd_Detail ev) "" then "" else " (" +:+ evd_Detail ev +:+ ")") +:+ nl) <$> inc_Evidence inc) +:+
  section "Next checks:" ((fun check => "- " +:+ check +:+ nl) <$> inc_NextChecks inc) +:+
  section "Instrumentation warnings:" ((fun warning => "- " +:+ warning +:+ nl) <$> inc_InstrumentationWarnings inc).

(** ** Endpoints *)

Record request := mkRequest { q_Method : string; q_Path : string; q_Accept : string }.

Inductive answer :=
| ErrorAnswer (status : Z) (code message detail : string)
| ListAnswer (rows : list ApiIncident)
| DetailAnswer (inc : ApiIncident)
| SnapshotAnswer (snapshot : string) (inc : ApiIncident)
| TextAnswer (snapshot : string).

(** Errors of the store: [ErrNotFound], or one with its text. *)
Inductive get_error := ErrNotFound | OtherError (text : string).

Definition method_not_allowed : answer := ErrorAnswer 405 "method_not_allowed" "method not allowed" "".
Definition not_found : answer := ErrorAnswer 404 "not_found" "incident not found" "".
Definition prefix : string := "/v1/incidents/".

Section Handler.
Variable active : list Incident + string.
Variable get : string -> Incident + get_error.

Definition Active (r : request) : answer :=
  if negb (String.eqb (q_Method r) "GET") then method_not_allowed else
  match active with
  | inr text => ErrorAnswer 500 "internal_error" "query incidents failed" text
  | inl rows => ListAnswer (toAPIIncidents rows)
  end.

Definition with_incident (id : string) (k : Incident -> answer) : answer :=
  match get id with
  | inr ErrNotFound => not_found
  | inr (OtherError text) => ErrorAnswer 500 "internal_error" "query incident failed" text
  | inl inc => k inc
  end.

Definition snapshot (r : request) (id : string) : answer :=
  with_incident id (fun inc =>
    let snapshot := RenderSnapshot inc in
    if Contains (q_Accept r) "application/json" then SnapshotAnswer snapshot (toAPIIncident inc) else TextAnswer snapshot).

Definition Incident_ (r : request) : answer :=
  if negb (String.eqb (q_Method r) "GET") then method_not_allowed else
  let path := trim_prefix (q_Path r) prefix in
  if String.eqb path "" || String.eqb path (q_Path r) then not_found else
  if HasSuffix path "/snapshot" then snapshot r (trim_suffix path "/snapshot") else
  with_incident path (fun inc => DetailAnswer (toAPIIncident inc)).
End Handler.

(** ** The conversion loses nothing *)

Lemma toAPIEvidence_id rows : toAPIEvidence rows = rows.
Proof. apply list_fmap_id_ext. by intros []. Qed.

Lemma toAPIPropagation_id s : toAPIPropagation s = s.
Proof.
  assert (forall p, toAPIPropagationEvidence p = p) as H.
  { intros []. unfold toAPIPropagationEvidence. cbn. f_equal. apply list_fmap_id_ext. by intros []. }
  destruct s. unfold toAPIPropagation. cbn. by rewrite !(option_fmap_id_ext _ _ H).
Qed.

Lemma toAPIBlast_id s : toAPIBlast s = s.
Proof. destruct s. unfold toAPIBlast. cbn. rewrite !option_fmap_id_ext; [done| |]; by intros []. Qed.

Lemma toAPIAlerts_id s : toAPIAlerts s = s.
Proof.
  assert (forall a, toAPIAlertEvidence a = a) as H.
  { intros []. unfold toAPIAlertEvidence. cbn. f_equal. apply list_fmap_id_ext. by intros []. }
  destruct s. unfold toAPIAlerts. cbn. by rewrite !(option_fmap_id_ext _ _ H).
Qed.

Lemma toAPIRuntime_id s : (forall r, re_Metadata r = Some ∅ -> ~ (r ∈ rs_Matches s) /\ rs_Opening s <> Some r /\ rs_Latest s <> Some r) ->
  toAPIRuntime s = s.
Proof.
  intros H. assert (forall r, re_Metadata r <> Some ∅ -> toAPIRuntimeEvidenceVal r = r) as Hid.
  { intros [] Hm. unfold toAPIRuntimeEvidenceVal, copy_meta. cbn in *. destruct re_Metadata as [m|]; [|done]. case_decide; [by subst|done]. }
  assert (forall o, (forall r, o = Some r -> re_Metadata r <> Some ∅) -> (toAPIRuntimeEvidenceVal <$> o) = o) as Ho.
  { intros [r|] Hr; [|done]. simpl. by rewrite Hid by by apply Hr. }
  destruct s as [ms o l]. unfold toAPIRuntime. cbn in *. rewrite (Ho o), (Ho l).
  - f_equal. rewrite <- (list_fmap_id ms) at 2. apply list_fmap_ext. intros i r Hr. apply Hid. intros Hm.
    apply (proj1 (H r Hm)). by eapply list_elem_of_lookup_2.
  - intros r -> Hm. destruct (H r Hm) as (_ & _ & Hl). by destruct Hl.
  - intros r -> Hm. destruct (H r Hm) as (_ & Hopen & _). by destruct Hopen.
Qed.

(** Incidents with the same API view differ in their suspect deployment only, unless their
    runtime evidence has empty metadata, which the view drops. *)
Theorem toAPIIncident_lossless i j : toAPIIncident i = toAPIIncident j -> inc_SuspectDeployID i = inc_SuspectDeployID j ->
  (toAPIRuntime <$> inc_Runtime i) = inc_Runtime i -> (toAPIRuntime <$> inc_Runtime j) = inc_Runtime j -> i = j.
Proof.
  intros H Hs Hi Hj. destruct i, j. unfold toAPIIncident in H. cbn in *. rewrite !toAPIEvidence_id in H.
  rewrite !(option_fmap_id_ext _ _ toAPIPropagation_id), !(option_fmap_id_ext _ _ toAPIBlast_id), !(option_fmap_id_ext _ _ toAPIAlerts_id) in H.
  rewrite Hi, Hj in H. injection H. intros. by subst.
Qed.

(** ** The handler of an engine *)

Section Served.
Context {R Sg D S : Type} `{!IncidentReader R, !SignalStore Sg, !DeploySource D, !Store S}.

Definition engine_get (e : Engine R Sg D S) (id : string) : Incident + get_error :=
  match Get (e_store e) id with Some inc => inl inc | None => inr ErrNotFound end.
Definition engine_active (it : MapIter) (store_error : string) (e : Engine R Sg D S) : list Incident + string :=
  match Engine.Active it e with Some rows => inl rows | None => inr store_error end.

Definition list_incidents (it : MapIter) (store_error : string) (e : Engine R Sg D S) : answer :=
  Active (engine_active it store_error e) (mkRequest "GET" "/v1/incidents/active" "").
Definition get_incident (e : Engine R Sg D S) (path accept : string) : answer :=
  Incident_ (engine_get e) (mkRequest "GET" path accept).

(** An id as the engine makes them. *)
Definition plain_id (id : string) : Prop := id <> "" /\ HasSuffix id "/snapshot" = false.

Lemma not_own_path id : String.eqb id (prefix +:+ id) = false.
Proof. apply String.eqb_neq. intros H. apply (f_equal String.length) in H. rewrite string_length_app in H. simpl in H. lia. Qed.

Lemma get_detail e id accept inc : store_ok (e_store e) -> plain_id id -> rows (e_store e) !! id = Some inc ->
  get_incident e (prefix +:+ id) accept = DetailAnswer (toAPIIncident inc).
Proof.
  intros Hok [Hid Hs] Hr. unfold get_incident, Incident_. cbn [q_Method q_Path]. rewrite trim_prefix_app.
  apply String.eqb_neq in Hid. rewrite Hid, not_own_path, Hs. unfold with_incident, engine_get. by rewrite Get_rows, Hr by done.
Qed.

Lemma get_snapshot e id accept inc : store_ok (e_store e) -> rows (e_store e) !! id = Some inc ->
  get_incident e (prefix +:+ id +:+ "/snapshot") accept =
    if Contains accept "application/json" then SnapshotAnswer (RenderSnapshot inc) (toAPIIncident inc) else TextAnswer (RenderSnapshot inc).
Proof.
  intros Hok Hr. unfold get_incident, Incident_. cbn [q_Method q_Path]. rewrite trim_prefix_app, not_own_path, HasSuffix_app, trim_suffix_app.
  assert (String.eqb (id +:+ "/snapshot") "" = false) as -> by by destruct id.
  unfold snapshot, with_incident, engine_get. by rewrite Get_rows, Hr by done.
Qed.
Definition notice_inc (n : Notice) : Incident := match n with Opened i | Resolved i => i end.

Lemma apply_row_notices (e : Engine R Sg D S) dr n : n ∈ (apply_row e dr).2 -> notice_inc n = dr_Incident dr /\
  (inc_Status (dr_Incident dr) = StatusResolved <-> n = Resolved (dr_Incident dr)).
Proof.
  unfold apply_row. cbv zeta. destruct (String.eqb_spec (inc_Status (dr_Incident dr)) StatusResolved) as [Hs|Hs].
  - cbn [snd]. destruct (e_notifier e); [|by intros ?%elem_of_nil]. intros ->%list_elem_of_singleton. done.
  - destruct (String.eqb _ StatusRecovering); [by intros ?%elem_of_nil|]. cbn [snd].
    destruct (_ && _); [|by intros ?%elem_of_nil]. intros ->%list_elem_of_singleton. done.
Qed.

(** What a tick announces is what the store then holds. *)
Lemma ApplyLive_announced drs : forall (e e' : Engine R Sg D S) ns err, store_ok (e_store e) -> Forall holds (dr_Incident <$> drs) ->
  NoDup (row_ids drs) -> (forall dr, dr ∈ drs -> carries_in (rows (e_store e)) (dr_Incident dr)) -> ApplyLive e drs = (e', ns, err) ->
  (forall id, id ∉ row_ids drs -> rows (e_store e') !! id = rows (e_store e) !! id) /\
  forall n, n ∈ ns -> rows (e_store e') !! inc_IncidentID (notice_inc n) = Some (notice_inc n) /\
    inc_IncidentID (notice_inc n) ∈ row_ids drs /\
    (inc_Status (notice_inc n) = StatusResolved <-> exists i, n = Resolved i).
Proof.
  induction drs as [|dr drs IH]; intros e e' ns err Hsk Hh Hnd Hc H; simpl in H; [simplify_eq; split; [done|by intros n ?%elem_of_nil]|].
  apply Forall_cons in Hh as [Hh0 Hh].
  unfold row_ids in Hnd. rewrite fmap_cons in Hnd. apply NoDup_cons in Hnd as [Hni Hnd]. fold (row_ids drs) in Hni, Hnd.
  destruct (Upsert (e_store e) (dr_Incident dr)) as [store|] eqn:Hu; [|simplify_eq; split; [done|by intros n ?%elem_of_nil]].
  pose proof (apply_row_notices (set_store e store) dr) as Hn1. pose proof (proj1 (apply_row_rest (set_store e store) dr)) as Hst.
  destruct (apply_row (set_store e store) dr) as [e1 n1]. cbn [fst snd] in Hn1, Hst.
  destruct (Upsert_rows _ _ _ Hsk Hh0 Hu) as [Hsk' Hrow]. rewrite keep_carried in Hrow by (apply Hc; left).
  destruct (ApplyLive e1 drs) as [[e2 n2] er2] eqn:Hl. cbn [set_store e_store] in Hst. injection H as -> <- ->.
  assert (rows (e_store e1) = <[inc_IncidentID (dr_Incident dr) := dr_Incident dr]> (rows (e_store e))) as Hr by (by rewrite Hst).
  destruct (IH e1 e' n2 err) as [Hkeep Htold]; [by rewrite Hst|done|done| |done|].
  { intros d Hd old. rewrite Hr, lookup_insert_ne; [apply Hc; by right|]. intros Heq. apply Hni. rewrite Heq.
    by apply (list_elem_of_fmap_2 (fun dr => inc_IncidentID (dr_Incident dr))). }
  split.
  - intros id Hid. unfold row_ids in Hid. rewrite fmap_cons in Hid. apply not_elem_of_cons in Hid as [Hne Hid]. rewrite Hkeep by done. by rewrite Hr, lookup_insert_ne.
  - intros n [Hn|Hn]%elem_of_app.
    + destruct (Hn1 n Hn) as [-> Hres]. rewrite Hkeep by done. rewrite Hr, lookup_insert_eq. split; [done|]. split; [by left|].
      rewrite Hres. split; [by eauto|]. intros [i ->]. destruct (Hn1 _ Hn) as [Hi _]. simpl in Hi. by subst i.
    + destruct (Htold n Hn) as (H1 & H2 & H3). split; [done|]. split; [by right|done].
Qed.

(** An incident of the store is listed when it is open. *)
Lemma listed_iff (m : gmap string Incident) inc : ids_ok m -> m !! inc_IncidentID inc = Some inc ->
  toAPIIncident inc ∈ toAPIIncidents (sortIncidents (sortIncidents (List.filter open_row (map_to_list m).*2))) <-> open_row inc = true.
Proof.
  intros Hok Hr. unfold toAPIIncidents, sortIncidents. rewrite list_elem_of_fmap. setoid_rewrite elem_of_ssort. setoid_rewrite elem_of_ssort.
  setoid_rewrite elem_of_lfilter. setoid_rewrite list_elem_of_fmap. split.
  - intros (j & Hj & ([k j'] & -> & Hk) & Ho). apply elem_of_map_to_list in Hk. pose proof (Hok k j' Hk) as Hkj. simpl in *.
    injection Hj as Hid. rewrite Hkj in Hid. rewrite <- Hid in Hk. by simplify_eq.
  - intros Ho. exists inc. split; [done|]. split; [|done]. exists (inc_IncidentID inc, inc). split; [done|]. by apply elem_of_map_to_list.
Qed.

(** An announcement can be followed.  As long as no id is taken twice, whatever a tick
    announces, an incident opened or one resolved, the endpoint then answers for it with that very incident, as JSON and as
    text; it is in the list of active incidents if it was opened and not if it was
    resolved. *)
Theorem announced_incident_served (it it' : MapIter) (now : Time) (e e' : Engine R Sg D S) (ns : list Notice) (err : option EngineError)
    (n : Notice) (accept store_error : string) (l : list ApiIncident) :
  running unreopened e -> (forall drs, (engine_derive it now e (e_reader e)).2 = inl drs -> unreopened e drs) ->
  Tick it now e = (e', ns, err) -> n ∈ ns -> plain_id (inc_IncidentID (notice_inc n)) ->
  list_incidents it' store_error e' = ListAnswer l ->
  let inc := notice_inc n in
  let path := prefix +:+ inc_IncidentID inc in
  get_incident e' path accept = DetailAnswer (toAPIIncident inc) /\
  get_incident e' (path +:+ "/snapshot") "text/plain" = TextAnswer (RenderSnapshot inc) /\
  (toAPIIncident inc ∈ l <-> exists i, n = Opened i).
Proof.
  intros Hrun Hf Ht Hn Hid Hl inc path. assert (running unreopened e') as Hrun' by by eapply run_tick.
  pose proof (running_ok e Hrun) as Hok. pose proof (derived_carries e it now (e_reader e)) as Hc.
  pose proof (running_ok e' Hrun') as [Hok' _]. pose proof (engine_derive_rest it now e (e_reader e)) as (Es & _).
  unfold Tick in Ht. destruct (engine_derive it now e (e_reader e)) as [p [drs|]]; [|simplify_eq; by apply elem_of_nil in Hn].
  simpl in Es. specialize (Hf drs eq_refl). specialize (Hc drs Hok eq_refl Hf). destruct Hf as (Hh & Hnd & _).
  destruct (ApplyLive_announced drs p e' ns err) as [_ H]; [rewrite Es; by destruct Hok|done|done|by rewrite Es|done|].
  destruct (H n Hn) as (Hr & _ & Hres). fold inc in Hr, Hres, Hid.
  split; [by apply get_detail|split].
  - unfold path. rewrite string_app_assoc. by rewrite (get_snapshot _ _ _ inc).
  - unfold list_incidents, Active, engine_active, Engine.Active in Hl. cbn in Hl. destruct (ListActive it' (e_store e')) as [rs|] eqn:Ela; [|done].
    injection Hl as <-. rewrite (ListActive_rows _ _ _ Hok' Ela).
    rewrite (listed_iff (rows (e_store e')) inc (store_ids _ Hok') Hr). unfold open_row. rewrite negb_true_iff, String.eqb_neq, Hres.
    destruct n as [i|i]; split; try (by eauto); try (by intros [? ?]); intros H'; [by intros [? ?]|exfalso; eauto].
Qed.
End Served.

(** ** Examples *)

(** An id of an incident is twenty characters long; shorter keys name no family. *)
Lemma StableID_length env family st : String.length (StableID env family st) = 20%nat.
Proof.
  unfold StableID. destruct (sum256_bytes (Join "|" [env; ef_Service family; FormatErrorFamily family; FormatRFC3339 (Truncate st idBucket)])) as [Hl Hb].
  destruct (hex_ok _ Hb) as [Hh _]. rewrite string_length_app, take_bytes_length; [done|]. rewrite Hh, Hl. lia.
Qed.

Lemma honest_short (m : gmap string Incident) : (forall k inc, m !! k = Some inc -> (String.length k < 20)%nat) -> honest_ids m.
Proof. intros H env family st old Hk. apply H in Hk. rewrite StableID_length in Hk. lia. Qed.

(** A recovering incident unseen for an hour is announced as resolved; the link answers. *)
Lemma announced_incident_served_witness : exists e' n,
  Tick iter_canonical (unix_epoch + Hour) (started recovering_incident) = (e', [n], None) /\
  get_incident e' (prefix +:+ "inc_1") "" = DetailAnswer (toAPIIncident (notice_inc n)) /\
  get_incident e' (prefix +:+ "inc_1/snapshot") "text/plain" = TextAnswer (RenderSnapshot (notice_inc n)) /\
  list_incidents iter_canonical "" e' = ListAnswer [].
Proof.
  eexists _, _. split; [vm_compute; reflexivity|].
  match goal with |- get_incident ?e _ _ = DetailAnswer (toAPIIncident (notice_inc ?n)) /\ _ =>
    destruct (announced_incident_served iter_canonical iter_canonical (unix_epoch + Hour) (started recovering_incident) e [n] None n "" "" [])
      as (H1 & H2 & _) end.
  - apply started_running. reflexivity.
  - intros drs Hd. vm_compute in Hd. injection Hd as <-. split; [apply Forall_singleton; exact I|]. split; [apply NoDup_singleton|]. split; [|split].
    + apply honest_short. intros k inc Hk. change (e_active (started recovering_incident)) with ({["inc_1" := recovering_incident]} : gmap string Incident) in Hk.
      apply lookup_singleton_Some in Hk as [<- _]. vm_compute. lia.
    + intros k inc Hk. change (e_active (started recovering_incident)) with ({["inc_1" := recovering_incident]} : gmap string Incident) in Hk.
      apply lookup_singleton_Some in Hk as [_ <-]. reflexivity.
    + intros dr old Hd Ho. apply list_elem_of_singleton in Hd as ->. vm_compute in Ho. injection Ho as <-. reflexivity.
  - vm_compute. reflexivity.
  - by left.
  - split; [discriminate|reflexivity].
  - vm_compute. reflexivity.
  - split; [exact H1|split; [exact H2|vm_compute; reflexivity]].
Defined.

Definition lines_incident : Incident :=
  mkIncident "inc_1" "prod" "api" (mkErrorFamily "api" "charge" "E:1") StatusActive CauseApp ConfidenceLow 5 unix_epoch unix_epoch unix_epoch
    None None 3 None 2 ["api"; "db"] [] [mkEvidence EvidenceTrace "Failing step" "charge" "" "" "" "" unix_epoch ∅] ["Look at charge"] []
    (flit 7 2) 4 14 None None None None "".

Example RenderSnapshot_ex : Split (RenderSnapshot lines_incident) newline =
  ["Incident inc_1"; "Status: active"; "Family: api:charge:E\:1"; "Cause: app (low confidence)"; "Started: 1970-01-01T00:00:00Z";
   "Affected: 3 requests, 2 services"; "Lift: 3.50x over baseline 4"; "Top services: api, db"; ""; "Evidence:"; "- trace: Failing step (charge)";
   ""; "Next checks:"; "- Look at charge"; ""].
Proof. vm_compute. reflexivity. Qed.
