(* ===== verification/Mcp.v ===== *)
(** The Model Context Protocol server ([internal/mcp/dispatch.go], [http/handler.go],
    [stdio/server.go]): JSON-RPC messages, single or in a batch, dispatched over the tool
    registry, and the two transports around them.  Decoding of messages is the class
    [McpCodec]; the texts of decoding errors come with it. *)

From S2P Require Import Prelude GoRuntime GoText Eventlog Retention PlanRef Registry Llm IngestHttp WideEvent GroupCommit.
Open Scope Z_scope.

Definition ProtocolVersion : string := "2024-11-05".
Definition supportedVersions : gset string := {["2024-11-05"; "2025-03-26"]}.

Record ServerInfo := mkServerInfo { si_Name : string; si_Version : string }.

(** Raw messages are their text; an absent one is empty. *)
Record Request := mkRequest { rq_ID : string; rq_Method : string; rq_Params : string }.

Record toolDescriptor := mkToolDescriptor { tdr_Name : string; tdr_Description : string; tdr_InputSchema : string; tdr_OutputSchema : string }.

(** A [toolsCallResult]: one piece of text, the value it is the text of, and whether the
    tool failed. *)
Record toolsCallResult := mkToolsCallResult { tc_Text : string; tc_StructuredContent : option value; tc_IsError : bool }.

Inductive result :=
| InitializeResult (protocolVersion : string) (serverInfo : ServerInfo)
| ToolsListResult (tools : list toolDescriptor)
| CallResult (r : toolsCallResult).

Record Error := mkError { er_Code : Z; er_Message : string; er_Data : string }.

Record Response := mkResponse { rp_ID : string; rp_Body : result + Error }.

Definition Result_ (id : string) (r : result) : Response := mkResponse id (inl r).
Definition Errorf (id : string) (code : Z) (message data : string) : Response := mkResponse id (inr (mkError code message data)).
Definition nullID : string := "null".
Definition ParseError (data : string) : Response := Errorf nullID (-32700) "parse error" data.

Definition IsNotification (id : string) : bool := String.eqb id "" || String.eqb id "null".

(** The version of initialize parameters, empty when there is none; the name and arguments
    of a call; a batch; a request.  A failure comes with the text of its error. *)
Class McpCodec := {
  decode_version : string -> string;
  decode_call : string -> (string * string) + string;
  decode_batch : string -> list Request + string;
  decode_request : string -> Request + string;
  marshal_error : value -> string
}.

Section Dispatch.
Context {W : Type} `{J : Json, C : McpCodec} (it : MapIter) (reg : Registry W) (info : ServerInfo).

Definition descriptor (t : Tool W) : toolDescriptor :=
  mkToolDescriptor (tl_Name t) (tl_Description t) (tl_InputSchema t) (tl_OutputSchema t).

Definition tools_call (w : W) (id params : string) : W * Response :=
  match decode_call params with
  | inr text => (w, Errorf id (-32602) "invalid params" text)
  | inl (name, arguments) =>
    if String.eqb name "" then (w, Errorf id (-32602) "invalid params" "name required") else
    let arguments := if String.eqb arguments "" then "{}" else arguments in
    let '(w, r) := Registry.Call reg w name arguments in
    (w, match r with
        | inl err => Result_ id (CallResult (mkToolsCallResult (error_text err) None true))
        | inr v =>
          match Marshal v with
          | None => Errorf id (-32603) "internal error" (marshal_error v)
          | Some text => Result_ id (CallResult (mkToolsCallResult text (Some v) false))
          end
        end)
  end.

(** [Dispatch]: the response, or none for a notification. *)
Definition Dispatch (w : W) (req : Request) : W * option Response :=
  let id := rq_ID req in
  if IsNotification id then (w, None) else
  if String.eqb (rq_Method req) "initialize" then
    let requested := decode_version (rq_Params req) in
    let version := if bool_decide (requested ∈ supportedVersions) then requested else ProtocolVersion in
    (w, Some (Result_ id (InitializeResult version info)))
  else if String.eqb (rq_Method req) "tools/list" then (w, Some (Result_ id (ToolsListResult (descriptor <$> Registry.List it reg))))
  else if String.eqb (rq_Method req) "tools/call" then let '(w, r) := tools_call w id (rq_Params req) in (w, Some r)
  else (w, Some (Errorf id (-32601) "method not found" (rq_Method req))).

(** The loop of a batch. *)
Fixpoint dispatch_all (w : W) (reqs : list Request) : W * list Response :=
  match reqs with
  | [] => (w, [])
  | r :: reqs =>
    let '(w, resp) := Dispatch w r in
    let '(w, resps) := dispatch_all w reqs in
    (w, option_list resp ++ resps)
  end.

Inductive payload := One (r : Response) | Batch (rs : list Response).

(** [HandleMessage]: what to write, nothing, or the error of a body that is not JSON. *)
Definition HandleMessage (w : W) (raw : string) : W * (option payload + string) :=
  let trimmed := TrimSpace raw in
  match trimmed with
  | EmptyString => (w, inr "empty message")
  | String c _ =>
    if Ascii.eqb c "["%char then
      match decode_batch trimmed with
      | inr text => (w, inr text)
      | inl [] => (w, inl (Some (One (Errorf nullID (-32600) "invalid request" "empty batch"))))
      | inl reqs =>
        let '(w, resps) := dispatch_all w reqs in
        (w, inl match resps with [] => None | _ => Some (Batch resps) end)
      end
    else
      match decode_request trimmed with
      | inr text => (w, inr text)
      | inl req => let '(w, resp) := Dispatch w req in (w, inl (One <$> resp))
      end
  end.

(** ** The HTTP transport *)

Definition maxBody : Z := 1048576.

Inductive http_answer := NotAllowed | Accepted | Json_ (status : Z) (p : payload).

Definition Handler (w : W) (method : string) (body : reader) : W * http_answer :=
  if negb (String.eqb method "POST") then (w, NotAllowed) else
  let body := MaxBytesReader body maxBody in
  match rd_end body with
  | Eof =>
    let '(w, r) := HandleMessage w (rd_bytes body) in
    (w, match r with
        | inr text => Json_ 400 (One (ParseError text))
        | inl None => Accepted
        | inl (Some p) => Json_ 200 p
        end)
  | _ => (w, Json_ 413 (One (ParseError "request too large")))
  end.

(** ** The stdio transport *)

Definition maxLine : Z := 2 * 1048576.

(** [Serve]: a message per line; the second component is false when the scanner failed.  The
    context is not cancelled. *)
Fixpoint Serve (w : W) (pieces : list string) : W * list payload * bool :=
  match pieces with
  | [] => (w, [], true)
  | piece :: pieces =>
    if too_long maxLine piece then (w, [], false) else
    let line := TrimSpace (scan_line piece) in
    if String.eqb line "" then Serve w pieces else
    let '(w, r) := HandleMessage w line in
    let out := match r with inr text => [One (ParseError text)] | inl p => option_list p end in
    let '(w, outs, ok) := Serve w pieces in
    (w, out ++ outs, ok)
  end.
End Dispatch.

(** ** Answers and effects *)

Section Answers.
Context {W : Type} `{J : Json, C : McpCodec} (it : MapIter) (reg : Registry W) (info : ServerInfo).

Definition wants_answer (r : Request) : bool := negb (IsNotification (rq_ID r)).

(** The tool calls a request asks for: one, when it is well formed and wants an answer. *)
Definition call_of (r : Request) : option (string * string) :=
  if wants_answer r && String.eqb (rq_Method r) "tools/call" then
    match decode_call (rq_Params r) with
    | inl (name, arguments) => if String.eqb name "" then None else Some (name, if String.eqb arguments "" then "{}" else arguments)
    | inr _ => None
    end
  else None.

Definition run_call (w : W) (c : string * string) : W := (Registry.Call reg w c.1 c.2).1.

Definition responses (p : option payload) : list Response := match p with None => [] | Some (One r) => [r] | Some (Batch rs) => rs end.

(** The requests of a message, when it has any. *)
Definition requests_of (raw : string) : list Request :=
  let trimmed := TrimSpace raw in
  match trimmed with
  | EmptyString => []
  | String c _ =>
    if Ascii.eqb c "["%char then match decode_batch trimmed with inl reqs => reqs | inr _ => [] end
    else match decode_request trimmed with inl r => [r] | inr _ => [] end
  end.

Lemma tools_call_spec w id params : rp_ID (tools_call reg w id params).2 = id /\
  (tools_call reg w id params).1 = match decode_call params with
                                   | inl (name, arguments) => if String.eqb name "" then w else run_call w (name, if String.eqb arguments "" then "{}" else arguments)
                                   | inr _ => w
                                   end.
Proof.
  unfold tools_call, run_call. destruct (decode_call params) as [[name arguments]|text]; [|done]. destruct (String.eqb name ""); [done|].
  cbn [fst snd]. destruct (Registry.Call reg w name _) as [w1 [err|v]]; [done|]. cbn. by destruct (Marshal v).
Qed.

Lemma Dispatch_spec w r : rp_ID <$> (Dispatch it reg info w r).2 = (if wants_answer r then Some (rq_ID r) else None) /\
  (Dispatch it reg info w r).1 = match call_of r with Some c => run_call w c | None => w end.
Proof.
  unfold Dispatch, call_of, wants_answer. destruct (IsNotification (rq_ID r)); [done|]. cbn [negb andb].
  destruct (String.eqb_spec (rq_Method r) "initialize") as [->|_]; [done|].
  destruct (String.eqb_spec (rq_Method r) "tools/list") as [->|_]; [done|].
  destruct (String.eqb (rq_Method r) "tools/call"); [|done].
  destruct (tools_call_spec w (rq_ID r) (rq_Params r)) as [H1 H2]. destruct (tools_call reg w (rq_ID r) (rq_Params r)) as [w1 resp].
  cbn in *. rewrite H1, H2. split; [done|]. destruct (decode_call _) as [[name arguments]|]; [|done]. by destruct (String.eqb name "").
Qed.

Lemma dispatch_all_spec reqs : forall w, rp_ID <$> (dispatch_all it reg info w reqs).2 = rq_ID <$> List.filter wants_answer reqs /\
  (dispatch_all it reg info w reqs).1 = foldl run_call w (omap call_of reqs).
Proof.
  induction reqs as [|r reqs IH]; intros w; [done|]. cbn [dispatch_all]. destruct (Dispatch_spec w r) as [H1 H2].
  destruct (Dispatch it reg info w r) as [w1 resp]. cbn [fst snd] in H1, H2. destruct (IH w1) as [H3 H4].
  destruct (dispatch_all it reg info w1 reqs) as [w2 resps]. cbn [fst snd] in *. split.
  - rewrite fmap_app, H3. cbn [List.filter]. destruct (wants_answer r), resp; simpl in *; try done; injection H1 as ->; done.
  - rewrite H4, H2. cbn [omap list_omap]. by destruct (call_of r).
Qed.

(** C22: a message is answered request by request.  Unless it is an empty batch, the
    responses to a message that decodes are, in order, one per request that has an id,
    under that id; and the tools that ran are those of its well-formed calls, in order:
    notifications are neither answered nor run. *)
Theorem message_answered (w w' : W) (raw : string) (p : option payload) :
  HandleMessage it reg info w raw = (w', inl p) -> requests_of raw <> [] ->
  (rp_ID <$> responses p) = (rq_ID <$> List.filter wants_answer (requests_of raw)) /\
  w' = foldl run_call w (omap call_of (requests_of raw)).
Proof.
  unfold HandleMessage, requests_of. destruct (TrimSpace raw) as [|c s] eqn:Et; [done|]. rewrite <- Et.
  destruct (Ascii.eqb c "["%char).
  - destruct (decode_batch _) as [[|r reqs]|text]; [done| |done]. destruct (dispatch_all_spec (r :: reqs) w) as [H1 H2].
    destruct (dispatch_all it reg info w (r :: reqs)) as [w1 resps]. cbn [fst snd] in H1, H2. intros [= <- <-] _.
    rewrite <- H1, <- H2. by destruct resps.
  - destruct (decode_request _) as [r|text]; [|done]. destruct (Dispatch_spec w r) as [H1 H2].
    destruct (Dispatch it reg info w r) as [w1 resp]. cbn [fst snd] in H1, H2. intros [= <- <-] _.
    cbn [List.filter omap list_omap]. rewrite H2. split; [|by destruct (call_of r)]. destruct (wants_answer r), resp; simpl in *; try done; injection H1 as ->; done.
Qed.

(** A tool that fails is a result the model reads, not an error of the protocol. *)
Theorem tool_failure_is_result w id params name arguments w' err : decode_call params = inl (name, arguments) -> name <> "" -> arguments <> "" ->
  Registry.Call reg w name arguments = (w', inl err) ->
  tools_call reg w id params = (w', Result_ id (CallResult (mkToolsCallResult (error_text err) None true))).
Proof.
  intros Hd Hn Ha Hc. unfold tools_call. rewrite Hd. apply String.eqb_neq in Hn, Ha. by rewrite Hn, Ha, Hc.
Qed.

(** The stdio server goes on after a line it cannot read. *)
Theorem stdio_goes_on w bad pieces text : too_long maxLine bad = false -> String.eqb (TrimSpace (scan_line bad)) "" = false ->
  HandleMessage it reg info w (TrimSpace (scan_line bad)) = (w, inr text) ->
  Serve it reg info w (bad :: pieces) =
    let '(w', outs, ok) := Serve it reg info w pieces in (w', One (ParseError text) :: outs, ok).
Proof. intros Hl Hb Hm. cbn [Serve]. rewrite Hl, Hb, Hm. by destruct (Serve it reg info w pieces) as [[? ?] ?]. Qed.

(** But not after one longer than the scanner's buffer: it is neither refused nor skipped, the
    server ends. *)
Theorem long_line_ends_server w long pieces : too_long maxLine long = true -> Serve it reg info w (long :: pieces) = (w, [], false).
Proof. intros H. cbn [Serve]. by rewrite H. Qed.
End Answers.

(** ** A concrete registry *)

Section Examples.
(** Calls append to a log of what ran; messages are taken from a table. *)
Let ex_json : Json := {|
  Unmarshal _ := None; UnmarshalObject _ := None; UnmarshalArray _ := None;
  Marshal v := match v with VStr s => Some s | _ => None end; MarshalObject _ := None
|}.
Let ex_codec : McpCodec := {|
  decode_version _ := "2025-03-26";
  decode_call s := if String.eqb s "bad" then inr "bad params" else inl (s, "");
  decode_batch _ := inl [mkRequest "1" "tools/call" "echo"; mkRequest "" "tools/call" "echo"; mkRequest "2" "tools/call" "missing";
                         mkRequest "3" "initialize" ""; mkRequest "null" "tools/list" ""; mkRequest "4" "tools/call" "bad"];
  decode_request _ := inr "not an object";
  marshal_error _ := ""
|}.
Let echo : Tool (list string) :=
  mkTool "echo" "" "1" "" "" (Some (fun w params => (w ++ [params], Registry.Returned (VStr "ok")))) [].

Lemma message_answered_witness : exists w' p,
  @HandleMessage (list string) ex_json ex_codec iter_canonical {["echo" := echo]} (mkServerInfo "waylog" "0.1.0") [] " [..] " = (w', inl p) /\
  (rp_ID <$> responses p) = ["1"; "2"; "3"; "4"] /\ w' = ["{}"].
Proof.
  destruct (@HandleMessage (list string) ex_json ex_codec iter_canonical {["echo" := echo]} (mkServerInfo "waylog" "0.1.0") [] " [..] ")
    as [w' [p|text]] eqn:E; [|vm_compute in E; discriminate E].
  destruct (@message_answered (list string) ex_json ex_codec iter_canonical {["echo" := echo]} (mkServerInfo "waylog" "0.1.0") [] w' " [..] " p E)
    as [H1 H2]; [discriminate|].
  exists w', p. split; [reflexivity|]. rewrite H1, H2. split; vm_compute; reflexivity.
Defined.
End Examples.
