(* ===== verification/AgentTools.v ===== *)
(** The tools agents call ([internal/tools/list_active_incidents.go], [graph_tools_v2.go],
    [triage.go], [suspect_change.go]): the queue of active incidents ranked by impact, and
    the stories, blast radii, reports and suspect changes behind the registry.  Decoding of
    parameters and the JSON form of results are the class [ToolJson]. *)

From S2P Require Import Prelude GoRuntime GoText PlanRef Registry GoFloat Types Triage Incident Detect Engine EngineSpec.
Open Scope Z_scope.

(** What a handler reads from its parameters; a failure comes with its text. *)
Record active_params := mkActiveParams { ap_Env : string; ap_Limit : Z }.
Record blast_params := mkBlastParams { bp_Service : string; bp_Step : string; bp_ErrorCode : string; bp_Window : string }.
Record triage_params := mkTriageParams { tp_IncidentID : string; tp_Window : string; tp_Snapshot : bool }.

Class ToolJson := {
  decode_active : string -> active_params + string;
  decode_explain : string -> string + string;
  decode_blast : string -> blast_params + string;
  decode_triage : string -> triage_params + string;
  story_value : StoryResponse -> value;
  blast_value : BlastRadiusResponse -> value;
  report_value : Report -> value;
  suspect_value : SuspectChange -> value;
  triage_error_text : TriageError -> string;
  duration_error_text : string -> string
}.

(** ** The queue *)

Record activeIncidentRow := mkActiveIncidentRow {
  ar_IncidentID : string; ar_Env : string; ar_Service : string; ar_Step : string; ar_ErrorCode : string; ar_Status : string;
  ar_Cause : string; ar_Confidence : string; ar_AffectedUsers : Z; ar_AffectedRequests : Z; ar_AffectedServices : Z;
  ar_NeedsJudgment : bool; ar_StartedAt : string
}.

Definition projectActiveIncident (inc : Incident) : activeIncidentRow :=
  let f := inc_ErrorFamily inc in
  mkActiveIncidentRow (inc_IncidentID inc) (inc_Env inc) (ef_Service f) (ef_Step f) (ef_ErrorCode f) (inc_Status inc) (inc_Cause inc)
    (inc_Confidence inc) (default 0 (inc_AffectedUsers inc)) (inc_AffectedRequests inc) (inc_AffectedServices inc)
    (String.eqb (inc_Cause inc) CauseUnknown || String.eqb (inc_Confidence inc) ConfidenceLow || String.eqb (inc_SuspectDeployID inc) "")
    (FormatRFC3339 (inc_StartedAt inc)).

Definition rankImpact (a b : activeIncidentRow) : bool :=
  if negb (ar_AffectedUsers a =? ar_AffectedUsers b) then ar_AffectedUsers b <? ar_AffectedUsers a
  else if negb (ar_AffectedRequests a =? ar_AffectedRequests b) then ar_AffectedRequests b <? ar_AffectedRequests a
  else if negb (ar_AffectedServices a =? ar_AffectedServices b) then ar_AffectedServices b <? ar_AffectedServices a
  else String.ltb (ar_IncidentID a) (ar_IncidentID b).

Definition matches_env (env : string) (inc : Incident) : bool := String.eqb env "" || String.eqb (inc_Env inc) env.

(** The rows of the answer. *)
Definition queue (p : active_params) (incs : list Incident) : list activeIncidentRow :=
  let limit := if ap_Limit p <=? 0 then 50 else ap_Limit p in
  let rows := projectActiveIncident <$> List.filter (matches_env (ap_Env p)) incs in
  take (Z.to_nat limit) (ssort rankImpact rows).

Definition row_value (r : activeIncidentRow) : value :=
  VMap (Some (list_to_map [
    ("incident_id", VStr (ar_IncidentID r)); ("env", VStr (ar_Env r)); ("service", VStr (ar_Service r)); ("step", VStr (ar_Step r));
    ("error_code", VStr (ar_ErrorCode r)); ("status", VStr (ar_Status r)); ("cause", VStr (ar_Cause r));
    ("confidence", VStr (ar_Confidence r)); ("affected_users", VInt (ar_AffectedUsers r));
    ("affected_requests", VInt (ar_AffectedRequests r)); ("affected_services", VInt (ar_AffectedServices r));
    ("needs_judgment", VBool (ar_NeedsJudgment r)); ("started_at", VStr (ar_StartedAt r))])).

(** ** The handlers *)

Section Handlers.
Context {W : Type} `{TJ : ToolJson}.

Definition fail (text : string) : Registry.outcome := Failed (OtherError text).
Definition tool_fail (code message : string) : Registry.outcome := Failed (IsToolError (mkToolError code message false) ("[" +:+ code +:+ "] " +:+ message)).

(** The active incidents of the engine, or the text of the store's error. *)
Definition list_active_incidents (active : W -> list Incident + string) (w : W) (params : string) : W * Registry.outcome :=
  (w, match (if String.eqb params "" then inl (mkActiveParams "" 0) else decode_active params) with
      | inr text => fail ("list_active_incidents: bad params: " +:+ text)
      | inl p =>
        match active w with
        | inr text => fail text
        | inl incs =>
          let rows := queue p incs in
          Returned (VMap (Some (list_to_map [("incidents", VList (row_value <$> rows)); ("count", VInt (Z.of_nat (length rows)))])))
        end
      end).

Definition explain_request (story : W -> string -> option StoryResponse) (w : W) (params : string) : W * Registry.outcome :=
  (w, match decode_explain params with
      | inr text => fail ("explain_request: bad params: " +:+ text)
      | inl trace =>
        if String.eqb trace "" then fail "explain_request: trace_id required" else
        match story w trace with
        | None => fail ("explain_request: trace not found: " +:+ trace)
        | Some s => Returned (story_value s)
        end
      end).

Definition blast_filter (window : Duration) (now : Time) : Filter := mkFilter "" ∅ "" (TimeAdd now (- window)) now.

Definition blast_radius (read : W -> Filter -> BlastKey -> BlastRadiusResponse) (now : Time) (w : W) (params : string) : W * Registry.outcome :=
  (w, match decode_blast params with
      | inr text => fail ("blast_radius: bad params: " +:+ text)
      | inl p =>
        if String.eqb (bp_Service p) "" || String.eqb (bp_Step p) "" || String.eqb (bp_ErrorCode p) ""
        then fail "blast_radius: service, step, error_code all required" else
        let window := if String.eqb (bp_Window p) "" then "15m" else bp_Window p in
        match ParseDuration window with
        | None => fail ("blast_radius: bad window: " +:+ duration_error_text window)
        | Some d => Returned (blast_value (read w (blast_filter d now) (mkBlastKey (bp_Service p) (bp_Step p) (bp_ErrorCode p))))
        end
      end).

(** The report both triage tools build: with the error of an absent id of each. *)
Definition with_report (tool : string) (no_id : Registry.outcome) (build : W -> string -> BuildOptions -> TriageError + Report) (now : Time)
    (w : W) (params : string) (k : string -> Report -> Registry.outcome) : W * Registry.outcome :=
  (w, match decode_triage params with
      | inr text => fail (tool +:+ ": bad params: " +:+ text)
      | inl p =>
        if String.eqb (tp_IncidentID p) "" then no_id else
        match ParseBuildOptions (tp_Window p) (tp_Snapshot p) now with
        | None => fail (duration_error_text (tp_Window p))
        | Some opts =>
          match build w (tp_IncidentID p) opts with
          | inl err => fail (triage_error_text err)
          | inr rep => k (tp_IncidentID p) rep
          end
        end
      end).

Definition triage_incident (build : W -> string -> BuildOptions -> TriageError + Report) (now : Time) (w : W) (params : string) : W * Registry.outcome :=
  with_report "triage_incident" (fail "triage_incident: incident_id required") build now w params (fun _ rep => Returned (report_value rep)).

Definition suspect_change (build : W -> string -> BuildOptions -> TriageError + Report) (now : Time) (w : W) (params : string) : W * Registry.outcome :=
  with_report "suspect_change" (tool_fail CodeInvalidParams "incident_id required") build now w params
    (fun id rep => match rp_SuspectChange rep with
                   | None => tool_fail CodeNotFound ("no deploy correlated to incident " +:+ id)
                   | Some sc => Returned (suspect_value sc)
                   end).
End Handlers.

(** ** The ranking *)

Definition impact (r : activeIncidentRow) : Down Z * (Down Z * (Down Z * string)) :=
  (down (ar_AffectedUsers r), (down (ar_AffectedRequests r), (down (ar_AffectedServices r), ar_IncidentID r))).

#[export] Instance rankImpact_by : LessBy rankImpact impact.
Proof. intros a b. unfold rankImpact, impact. kred. solve_less. Qed.

Section Queue.
Context {R Sg D S : Type} `{!IncidentReader R, !SignalStore Sg, !DeploySource D, !Store S}.

(** The rows of the incidents the engine holds open in an environment. *)
Definition open_in (env : string) (e : Engine R Sg D S) : list activeIncidentRow :=
  projectActiveIncident <$> List.filter (matches_env env) (map_to_list (e_active e)).*2.

Lemma NoDup_values (m : gmap string Incident) : ids_ok m -> NoDup (inc_IncidentID <$> (map_to_list m).*2).
Proof.
  intros Hok. assert ((inc_IncidentID <$> (map_to_list m).*2) = (map_to_list m).*1) as ->; [|apply NoDup_fst_map_to_list].
  rewrite <- list_fmap_compose. apply list_fmap_ext. intros i [k inc] Hi. apply (Hok k). apply elem_of_map_to_list.
  by eapply list_elem_of_lookup_2.
Qed.

(** The list of the store is the cache. *)
Lemma active_perm it (e : Engine R Sg D S) incs : running unreopened e -> Engine.Active it e = Some incs -> incs ≡ₚ (map_to_list (e_active e)).*2.
Proof.
  intros Hrun Ha. apply running_ok in Hrun as [Hok Hact]. unfold Engine.Active in Ha.
  destruct (ListActive it (e_store e)) as [l|] eqn:El; [|done]. injection Ha as <-. rewrite (ListActive_rows _ _ _ Hok El).
  unfold sortIncidents. rewrite !ssort_perm, Hact. unfold open_rows. generalize (rows (e_store e)). clear. intros m.
  induction m as [|k i m Hk IH] using map_ind; [done|].
  trans (List.filter open_row (i :: (map_to_list m).*2)); [apply lfilter_perm; by rewrite map_to_list_insert|]. cbn [List.filter].
  destruct (open_row i) eqn:Eo.
  - rewrite map_filter_insert_True by done. rewrite map_to_list_insert by (apply map_lookup_filter_None; by left). cbn. by rewrite IH.
  - rewrite map_filter_insert_False by (cbn; by rewrite Eo). by rewrite delete_id.
Qed.

(** The queue shows what matters most.  As long as no id is taken twice, whatever order the store lists its rows in, the
    queue lists incidents the engine holds open in the environment asked for, each once,
    highest impact first, as many as there are up to the limit; and one that is left out
    has no more impact than any that is listed. *)
Theorem queue_ranked (it : MapIter) (e : Engine R Sg D S) (p : active_params) (incs : list Incident) :
  running unreopened e -> Engine.Active it e = Some incs ->
  let rows := queue p incs in
  let limit := if ap_Limit p <=? 0 then 50%nat else Z.to_nat (ap_Limit p) in
  (forall r, r ∈ rows -> r ∈ open_in (ap_Env p) e) /\ NoDup (ar_IncidentID <$> rows) /\ ssorted rankImpact rows /\
  length rows = Nat.min limit (length (open_in (ap_Env p) e)) /\
  (forall r r', r ∈ open_in (ap_Env p) e -> r ∉ rows -> r' ∈ rows -> rankImpact r r' = false).
Proof.
  intros Hrun Ha rows limit. pose proof (active_perm _ _ _ Hrun Ha) as Hp. apply running_ok in Hrun as Hok. pose proof (engine_ok_active e Hok) as Hids.
  set (all := ssort rankImpact (projectActiveIncident <$> List.filter (matches_env (ap_Env p)) incs)).
  assert (all ≡ₚ open_in (ap_Env p) e) as Hall by (unfold all, open_in; rewrite ssort_perm; by apply fmap_Permutation, lfilter_perm).
  assert (rows = take limit all) as Hrows by (unfold rows, queue, limit, all; by destruct (ap_Limit p <=? 0)).
  assert (ssorted rankImpact all) as Hs by (apply (ssort_sorted rankImpact impact)).
  assert (NoDup (ar_IncidentID <$> all)) as Hnd.
  { rewrite Hall. unfold open_in. rewrite <- list_fmap_compose. change (fmap (M:=list) (ar_IncidentID ∘ projectActiveIncident)) with (fmap (M:=list) inc_IncidentID).
    by apply NoDup_fmap_lfilter, NoDup_values. }
  unfold ssorted in Hs. rewrite <- (take_drop limit all) in Hs. rewrite StronglySorted_app in Hs. destruct Hs as (Hcross & Hs & _).
  rewrite Hrows. split_and!; [| |done|by rewrite length_take, Hall|].
  - intros r Hr. rewrite <- Hall. by apply elem_of_take in Hr as (i & Hr & _); eapply list_elem_of_lookup_2.
  - rewrite fmap_take. eapply sublist_NoDup; [exact Hnd|apply sublist_take].
  - intros r r' Hr Hn Hr'. apply (Hcross r' r Hr'). rewrite <- Hall, <- (take_drop limit all), elem_of_app in Hr. tauto.
Qed.
End Queue.

(** ** Examples *)

Definition queue_store : MemoryStore :=
  mkMemoryStore (put_rows ∅ [sample_incident "inc_1" StatusActive 3 100; sample_incident "inc_2" StatusRecovering 5 200;
                             sample_incident "inc_3" StatusResolved 9 300; sample_incident "inc_4" StatusActive 5 50]).

Definition stopped_engine : Engine incidentReaderAdapter unit unit MemoryStore :=
  mkEngine quiet_reader None None queue_store DefaultConfig true ∅ ∅.
Definition queue_engine : Engine incidentReaderAdapter unit unit MemoryStore := (Bootstrap iter_canonical stopped_engine).1.

Lemma queue_engine_running : running unreopened queue_engine.
Proof.
  apply (run_boot unreopened iter_canonical stopped_engine); [|vm_compute; reflexivity].
  apply (ids_ok_put ∅). intros k i Hk. by rewrite lookup_empty in Hk.
Qed.

Lemma queue_ranked_witness : exists incs, Engine.Active iter_canonical queue_engine = Some incs /\
  (ar_IncidentID <$> queue (mkActiveParams "prod" 2) incs) = ["inc_1"; "inc_2"] /\
  length (queue (mkActiveParams "prod" 2) incs) = Nat.min 2 (length (open_in "prod" queue_engine)).
Proof.
  destruct (Engine.Active iter_canonical queue_engine) as [incs|] eqn:E; [|vm_compute in E; discriminate E].
  destruct (queue_ranked iter_canonical queue_engine (mkActiveParams "prod" 2) incs queue_engine_running E) as (_ & _ & _ & H & _).
  exists incs. split; [reflexivity|]. split; [|exact H]. vm_compute in E. injection E as <-. vm_compute. reflexivity.
Defined.

(** A window with a minus sign is accepted: the radius is asked for a time after now. *)
Example negative_blast_window :
  (ParseDuration "-5m" ≫= fun d => Some (blast_filter d (100 * Minute))) = Some (mkFilter "" ∅ "" (105 * Minute) (100 * Minute)).
Proof. vm_compute. reflexivity. Qed.
