(* ===== verification/Count.v ===== *)
(** Counting the elements of a list that satisfy a test, and sums of counts. *)

From S2P Require Import Prelude.
Open Scope Z_scope.

Definition cnt {A} (f : A -> bool) (l : list A) : Z := Z.of_nat (length (List.filter f l)).

Lemma cnt_cons {A} (f : A -> bool) x l : cnt f (x :: l) = Z.b2z (f x) + cnt f l.
Proof. unfold cnt. cbn. destruct (f x); cbn; lia. Qed.

Lemma cnt_app {A} (f : A -> bool) l k : cnt f (l ++ k) = cnt f l + cnt f k.
Proof. induction l as [|x l IH]; [done|]. rewrite <- app_comm_cons, !cnt_cons, IH. lia. Qed.

Lemma cnt_ext {A} (f g : A -> bool) l : (forall x, x ∈ l -> f x = g x) -> cnt f l = cnt g l.
Proof. induction l as [|x l IH]; intros H; [done|]. rewrite !cnt_cons, H, IH by set_solver. done. Qed.

Lemma cnt_le {A} (f : A -> bool) l : 0 <= cnt f l <= Z.of_nat (length l).
Proof. induction l as [|x l IH]; [done|]. rewrite cnt_cons. cbn [length]. destruct (f x); cbn [Z.b2z]; lia. Qed.

Lemma cnt_filter {A} (f g : A -> bool) l : cnt f (List.filter g l) = cnt (fun x => g x && f x) l.
Proof. induction l as [|x l IH]; [done|]. cbn [List.filter]. rewrite cnt_cons. destruct (g x); cbn [andb]; rewrite ?cnt_cons, IH; cbn; lia. Qed.

Definition sumZ (l : list Z) : Z := foldr Z.add 0 l.

Lemma sumZ_add {A} (f g : A -> Z) l : sumZ ((fun x => f x + g x) <$> l) = sumZ (f <$> l) + sumZ (g <$> l).
Proof. induction l as [|x l IH]; [done|]. cbn [fmap list_fmap sumZ foldr] in *. fold sumZ in *. unfold sumZ in *. rewrite IH. lia. Qed.

Lemma sum_indicator r n : (r < n)%nat -> sumZ ((fun i => Z.b2z (r =? i)%nat) <$> seq 0 n) = 1.
Proof.
  assert (forall k m, sumZ ((fun i => Z.b2z (r =? i)%nat) <$> seq k m) = Z.b2z ((k <=? r) && (r <? k + m))%nat) as H.
  { intros k m. revert k. induction m as [|m IH]; intros k; cbn [seq fmap list_fmap sumZ foldr].
    - destruct (Nat.leb_spec k r), (Nat.ltb_spec r (k + 0)); try done; lia.
    - fold sumZ. change (foldr Z.add 0 _) with (sumZ ((fun i => Z.b2z (r =? i)%nat) <$> seq (S k) m)). rewrite IH.
      destruct (Nat.eqb_spec r k), (Nat.leb_spec (S k) r), (Nat.ltb_spec r (S k + m)), (Nat.leb_spec k r), (Nat.ltb_spec r (k + S m)); cbn; lia. }
  intros Hr. rewrite H. destruct (Nat.leb_spec 0 r), (Nat.ltb_spec r (0 + n)); cbn; lia.
Qed.

(** Splitting a count by a residue. *)
Lemma cnt_split {A} (cls : A -> nat) (f : A -> bool) n l : (forall x, x ∈ l -> (cls x < n)%nat) ->
  sumZ ((fun i => cnt (fun x => (cls x =? i)%nat && f x) l) <$> seq 0 n) = cnt f l.
Proof.
  induction l as [|x l IH]; intros H.
  - unfold cnt. cbn. generalize (seq 0 n). intros k. induction k as [|i k IH]; [done|]. cbn. done.
  - rewrite cnt_cons, <- IH by set_solver. destruct (f x) eqn:E; cbn [Z.b2z].
    + rewrite <- (sum_indicator (cls x) n) by set_solver. rewrite <- sumZ_add. f_equal. apply list_fmap_ext. intros _ i _. rewrite cnt_cons, E, andb_true_r. done.
    + rewrite Z.add_0_l. f_equal. apply list_fmap_ext. intros _ i _. rewrite cnt_cons, E, andb_false_r. done.
Qed.

Lemma cnt_fmap {A B} (f : B -> bool) (g : A -> B) l : cnt f (g <$> l) = cnt (fun x => f (g x)) l.
Proof. induction l as [|x l IH]; [done|]. rewrite fmap_cons, !cnt_cons. by rewrite IH. Qed.

Lemma cnt_insert {A} (f : A -> bool) l i x y : l !! i = Some x -> cnt f (<[i := y]> l) = cnt f l - Z.b2z (f x) + Z.b2z (f y).
Proof.
  revert i. induction l as [|z l IH]; intros [|i] Hi; [done|done| |].
  - injection Hi as ->. cbn [insert list_insert]. rewrite !cnt_cons. lia.
  - cbn in Hi. change (<[S i := y]> (z :: l)) with (z :: <[i := y]> l). rewrite !cnt_cons, (IH _ Hi). lia.
Qed.

Lemma cnt_none {A} (f : A -> bool) l : cnt f l = 0 -> forall x, x ∈ l -> f x = false.
Proof.
  induction l as [|z l IH]; intros H x Hx; [by apply elem_of_nil in Hx|]. rewrite cnt_cons in H. pose proof (cnt_le f l).
  apply elem_of_cons in Hx as [->|Hx]; [by destruct (f z); cbn in H; [lia|]|]. apply IH; [|done]. destruct (f z); cbn in H; lia.
Qed.

(** ** Counting in maps *)

Section Maps.
Context {K A : Type} `{Countable K}.

Definition cnt_map (f : A -> bool) (m : gmap K A) : Z := Z.of_nat (size (filter (fun ka => f ka.2 = true) m)).

Lemma cnt_map_nonneg f m : 0 <= cnt_map f m.
Proof. unfold cnt_map. lia. Qed.

Lemma cnt_map_empty f : cnt_map f ∅ = 0.
Proof. unfold cnt_map. by rewrite map_filter_empty, map_size_empty. Qed.

Lemma cnt_map_insert f m p x :
  cnt_map f (<[p := x]> m) = cnt_map f m - match m !! p with Some y => Z.b2z (f y) | None => 0 end + Z.b2z (f x).
Proof.
  unfold cnt_map. set (P := fun ka : K * A => f ka.2 = true).
  assert (forall y, size (filter P (<[p := y]> (delete p m))) = (if f y then 1 else 0) + size (filter P (delete p m)))%nat as H1.
  { intros y. destruct (f y) eqn:E.
    - rewrite map_filter_insert_True by done. rewrite map_size_insert_None; [done|]. rewrite map_lookup_filter_None. left. apply lookup_delete_eq.
    - rewrite map_filter_insert_False by (unfold P; cbn; congruence). by rewrite delete_delete_eq. }
  rewrite <- (insert_delete_eq m p x), H1.
  assert (size (filter P m) = match m !! p with Some y => if f y then 1 else 0 | None => 0 end + size (filter P (delete p m)))%nat as ->.
  { destruct (m !! p) as [y|] eqn:Em; [|by rewrite delete_id]. by rewrite <- (insert_delete_id m p y Em) at 1. }
  destruct (m !! p) as [y|]; [destruct (f y)|]; destruct (f x); cbn; lia.
Qed.

(** A change of an entry that keeps the test. *)
Lemma cnt_map_alter f g m p : (forall x, f (g x) = f x) -> cnt_map f (alter g p m) = cnt_map f m.
Proof.
  intros Hg. destruct (m !! p) as [x|] eqn:Em.
  - assert (alter g p m = <[p := g x]> m) as ->; [|rewrite cnt_map_insert, Em, Hg; lia].
    apply map_eq. intros q. destruct (decide (p = q)) as [<-|Hne]; [by rewrite lookup_alter_eq, Em, lookup_insert_eq|].
    by rewrite lookup_alter_ne, lookup_insert_ne.
  - f_equal. apply map_eq. intros q. destruct (decide (p = q)) as [<-|Hne]; [by rewrite lookup_alter_eq, Em|by rewrite lookup_alter_ne].
Qed.
End Maps.
