(* ===== verification/ColdWriter.v ===== *)
(** The batch writer of the cold store ([internal/coldstore/event_writer.go]): a bounded queue
    that refuses when it is full, the loop that collects batches, and the transaction each
    batch becomes.  SQL is the list of rows a committed transaction inserts. *)

From S2P Require Import Prelude GoRuntime GoText WideEvent.
Open Scope Z_scope.

(** ** The cold store's batch writer *)

Record BatchWriterConfig := mkBatchWriterConfig { bc_QueueSize : Z; bc_BatchSize : Z; bc_FlushInterval : Duration }.

(** A row of the INSERT; a nil argument is [None], and the timestamp stands for its text,
    which has a fixed width and all nine digits. *)
Record row := mkRow {
  ro_trace_id : string; ro_span_id : option string; ro_parent_span_id : option string; ro_event_name : string; ro_service : string;
  ro_env : string; ro_version : option string; ro_deployment_id : option string; ro_user_id : string; ro_user_tier : option string;
  ro_flow : option string; ro_status_code : Z; ro_success : Z; ro_error_code : option string; ro_error_message : option string;
  ro_latency_ms : Z; ro_timestamp : Time
}.

Definition nilIfEmpty (s : string) : option string := if String.eqb s "" then None else Some s.

Definition event_row (ev : WideEvent) : row :=
  let r := we_Request ev in let y := we_System ev in
  mkRow (rc_TraceID r) (nilIfEmpty (rc_SpanID r)) (nilIfEmpty (rc_ParentSpanID r)) (we_EventName ev) (sy_Service y) (sy_Env y)
    (nilIfEmpty (sy_Version y)) (nilIfEmpty (sy_DeploymentID y)) (us_ID (we_User ev)) (nilIfEmpty (us_Tier (we_User ev)))
    (nilIfEmpty (rc_Flow r)) (oc_StatusCode (we_Outcome ev)) (if oc_Success (we_Outcome ev) then 1 else 0)
    (er_Code <$> we_Error ev) (er_Message <$> we_Error ev) (we_LatencyMs ev) (we_Timestamp ev).

Definition insertCols : Z := 17.
Definition maxRowsPerInsert : Z := Z.quot 999 insertCols.

(** The statements of a transaction: one per chunk; the fuel is the number of events. *)
Fixpoint chunks {A} (fuel : nat) (batch : list A) : list (list A) :=
  match fuel, batch with
  | S fuel, _ :: _ => take (Z.to_nat maxRowsPerInsert) batch :: chunks fuel (drop (Z.to_nat maxRowsPerInsert) batch)
  | _, _ => []
  end.

(** What the database does with one transaction: begin, each statement, commit. *)
Record tx_outcome := mkTxOutcome { tx_begin : bool; tx_exec : nat -> bool; tx_commit : bool }.

Definition all_exec (o : tx_outcome) (n : nat) : bool := forallb (tx_exec o) (seq 0 n).

(** [flush]: the rows the transaction adds. *)
Definition flush (o : tx_outcome) (batch : list WideEvent) : list row :=
  let stmts := chunks (length batch) batch in
  if tx_begin o && all_exec o (length stmts) && tx_commit o then event_row <$> concat stmts else [].

(** The writer with its loop; [bw_flushed] are the batches handed to [flush] and
    [bw_accepted] the events [Enqueue] said yes to, which no code reads. *)
Record BatchWriter := mkBatchWriter {
  bw_cfg : BatchWriterConfig; bw_queue : list WideEvent; bw_batch : list WideEvent; bw_closed : bool; bw_done : bool;
  bw_db : list row; bw_dropped : Z; bw_flushed : list (list WideEvent * tx_outcome); bw_accepted : list WideEvent
}.

Definition NewBatchWriter (cfg : BatchWriterConfig) : BatchWriter :=
  mkBatchWriter (mkBatchWriterConfig (if bc_QueueSize cfg <=? 0 then 10000 else bc_QueueSize cfg)
                                     (if bc_BatchSize cfg <=? 0 then 100 else bc_BatchSize cfg)
                                     (if bc_FlushInterval cfg <=? 0 then 500 * Millisecond else bc_FlushInterval cfg)) [] [] false false [] 0 [] [].

(** [Enqueue]: a send on a closed channel panics. *)
Definition Enqueue (ev : WideEvent) (w : BatchWriter) : option (bool * BatchWriter) :=
  if bw_closed w then None else
  if Z.of_nat (length (bw_queue w)) <? bc_QueueSize (bw_cfg w)
  then Some (true, mkBatchWriter (bw_cfg w) (bw_queue w ++ [ev]) (bw_batch w) (bw_closed w) (bw_done w) (bw_db w) (bw_dropped w)
                     (bw_flushed w) (bw_accepted w ++ [ev]))
  else Some (false, mkBatchWriter (bw_cfg w) (bw_queue w) (bw_batch w) (bw_closed w) (bw_done w) (bw_db w) (bw_dropped w + 1)
                     (bw_flushed w) (bw_accepted w)).

Definition do_flush (o : tx_outcome) (queue batch : list WideEvent) (done : bool) (w : BatchWriter) : BatchWriter :=
  mkBatchWriter (bw_cfg w) queue [] (bw_closed w) done (bw_db w ++ flush o batch) (bw_dropped w) (bw_flushed w ++ [(batch, o)]) (bw_accepted w).

Definition set_batch (queue batch : list WideEvent) (done : bool) (w : BatchWriter) : BatchWriter :=
  mkBatchWriter (bw_cfg w) queue batch (bw_closed w) done (bw_db w) (bw_dropped w) (bw_flushed w) (bw_accepted w).

Inductive writer_event :=
| WEnqueue (ev : WideEvent)
| WTake (o : tx_outcome)
| WTick (o : tx_outcome)
| WStop
| WFinish (o : tx_outcome).

(** One step of a caller or of the loop; a closed channel gives its events first. *)
Definition writer_step (e : writer_event) (w : BatchWriter) : option BatchWriter :=
  match e with
  | WEnqueue ev => snd <$> Enqueue ev w
  | WTake o =>
    if bw_done w then None else
    match bw_queue w with
    | [] => None
    | ev :: queue =>
      let batch := bw_batch w ++ [ev] in
      if bc_BatchSize (bw_cfg w) <=? Z.of_nat (length batch) then Some (do_flush o queue batch false w) else Some (set_batch queue batch false w)
    end
  | WTick o =>
    if bw_done w then None else
    match bw_batch w with [] => Some w | batch => Some (do_flush o (bw_queue w) batch false w) end
  | WStop => Some (mkBatchWriter (bw_cfg w) (bw_queue w) (bw_batch w) true (bw_done w) (bw_db w) (bw_dropped w) (bw_flushed w) (bw_accepted w))
  | WFinish o =>
    if bw_done w || negb (bw_closed w) then None else
    match bw_queue w with
    | _ :: _ => None
    | [] => match bw_batch w with [] => Some (set_batch [] [] true w) | batch => Some (do_flush o [] batch true w) end
    end
  end.

Fixpoint writer_run (l : list writer_event) (w : BatchWriter) : option BatchWriter :=
  match l with [] => Some w | e :: l => w ← writer_step e w; writer_run l w end.

(** ** Every event is accounted for *)

Lemma chunks_concat {A} : forall n (batch : list A), (length batch <= n)%nat -> concat (chunks n batch) = batch.
Proof.
  induction n as [|n IH]; intros [|x batch] Hn; [done|cbn in Hn; lia|done|].
  cbn [chunks concat]. rewrite IH; [apply take_drop|]. rewrite length_drop. change (Z.to_nat maxRowsPerInsert) with 58%nat. cbn [length] in *. lia.
Qed.

(** A statement never has more placeholders than SQLite takes. *)
Lemma chunks_bounded {A} : forall n (batch : list A), Forall (fun c => 0 < insertCols * Z.of_nat (length c) <= 999) (chunks n batch).
Proof.
  induction n as [|n IH]; intros [|x batch]; cbn [chunks]; constructor; [|apply IH].
  rewrite length_take. change (Z.to_nat maxRowsPerInsert) with 58%nat. unfold insertCols. cbn [length]. lia.
Qed.

(** A transaction stores the whole batch in order, or nothing. *)
Lemma flush_whole o batch : flush o batch = event_row <$> batch \/ flush o batch = [].
Proof. unfold flush. rewrite chunks_concat by done. case_match; auto. Qed.

Record bw_ok (w : BatchWriter) : Prop := {
  bo_queue : Z.of_nat (length (bw_queue w)) <= bc_QueueSize (bw_cfg w);
  bo_batch : Z.of_nat (length (bw_batch w)) < bc_BatchSize (bw_cfg w);
  bo_order : concat (bw_flushed w).*1 ++ bw_batch w ++ bw_queue w = bw_accepted w;
  bo_flushed : Forall (fun f => 0 < Z.of_nat (length f.1) <= bc_BatchSize (bw_cfg w)) (bw_flushed w);
  bo_db : bw_db w = concat ((fun f => flush f.2 f.1) <$> bw_flushed w);
  bo_done : bw_done w = true -> bw_closed w = true /\ bw_queue w = [] /\ bw_batch w = []
}.

Lemma NewBatchWriter_ok cfg : bw_ok (NewBatchWriter cfg).
Proof. constructor; cbn; repeat case_match; bool_prop; try done; try lia. Qed.

(** What [flush] adds to the accounts. *)
Lemma do_flush_ok o w batch queue done' : bw_ok w -> bw_batch w ++ bw_queue w = batch ++ queue ->
  (length queue <= length (bw_queue w))%nat -> 0 < Z.of_nat (length batch) <= bc_BatchSize (bw_cfg w) ->
  (done' = true -> bw_closed w = true /\ queue = []) -> bw_ok (do_flush o queue batch done' w).
Proof.
  intros [H1 H2 H3 H4 H5 H6] Hq Hl Hb Hd. constructor; cbn -[flush]; try lia.
  - rewrite fmap_app, concat_app, <- H3, Hq. cbn. by rewrite app_nil_r, <- app_assoc.
  - apply Forall_app. split; [done|]. by apply Forall_singleton.
  - rewrite fmap_app, concat_app, H5. cbn. by rewrite app_nil_r.
  - naive_solver.
Qed.

Lemma set_batch_ok w batch queue done' : bw_ok w -> bw_batch w ++ bw_queue w = batch ++ queue ->
  (length queue <= length (bw_queue w))%nat -> Z.of_nat (length batch) < bc_BatchSize (bw_cfg w) ->
  (done' = true -> bw_closed w = true /\ queue = [] /\ batch = []) -> bw_ok (set_batch queue batch done' w).
Proof. intros [H1 H2 H3 H4 H5 H6] Hq Hl Hb Hd. constructor; cbn; try done; try lia. by rewrite <- Hq. Qed.

Lemma writer_step_ok e w w' : bw_ok w -> writer_step e w = Some w' -> bw_ok w'.
Proof.
  intros Hw E. pose proof Hw as [H1 H2 H3 H4 H5 H6]. destruct e; cbn [writer_step] in E.
  - unfold Enqueue in E. destruct (bw_closed w) eqn:Ec; [done|]. destruct (_ <? _) eqn:El; cbn in E; injection E as <-; constructor; cbn; try done.
    + rewrite length_app. cbn. bool_prop. lia.
    + by rewrite <- H3, <- !app_assoc.
    + naive_solver.
  - destruct (bw_done w) eqn:Ed; [done|]. destruct (bw_queue w) as [|ev q] eqn:Eq; [done|]. cbv zeta in E.
    assert (bw_batch w ++ ev :: q = (bw_batch w ++ [ev]) ++ q) as Hq by by rewrite <- app_assoc.
    case_match; bool_prop; injection E as <-; (apply do_flush_ok || apply set_batch_ok); rewrite ?Eq; try done; try (cbn; lia).
    rewrite length_app in *. cbn in *. lia.
  - destruct (bw_done w) eqn:Ed; [done|]. destruct (bw_batch w) as [|ev b] eqn:Eb; injection E as <-; [done|].
    apply do_flush_ok; rewrite ?Eb; try done. cbn in *. lia.
  - injection E as <-. constructor; cbn; try done. naive_solver.
  - destruct (bw_done w) eqn:Ed; [done|]. destruct (bw_closed w) eqn:Ec; [|done]. cbn in E. destruct (bw_queue w) eqn:Eq; [|done].
    destruct (bw_batch w) as [|ev b] eqn:Eb; injection E as <-.
    + apply set_batch_ok; rewrite ?Eb, ?Eq; done.
    + apply do_flush_ok; rewrite ?Eb, ?Eq; try done. cbn in *. lia.
Qed.

Lemma writer_run_ok l : forall w w', bw_ok w -> writer_run l w = Some w' -> bw_ok w'.
Proof. induction l as [|e l IH]; cbn; intros w w' Hw E; [by simplify_eq|]. apply bind_Some in E as (w1 & E1 & E). eauto using writer_step_ok. Qed.

Lemma writer_step_cfg e w w' : writer_step e w = Some w' -> bw_cfg w' = bw_cfg w.
Proof. intros E. destruct e; cbn in E; unfold Enqueue in E; repeat case_match; simplify_option_eq; done. Qed.

Definition is_enqueue (e : writer_event) : bool := match e with WEnqueue _ => true | _ => false end.
Definition offered (l : list writer_event) : Z := Z.of_nat (length (List.filter is_enqueue l)).

Lemma writer_step_offered e w w' : writer_step e w = Some w' ->
  Z.of_nat (length (bw_accepted w')) + bw_dropped w' = Z.of_nat (length (bw_accepted w)) + bw_dropped w + offered [e].
Proof.
  unfold offered. intros E. destruct e; cbn in E; unfold Enqueue in E; repeat case_match; simplify_option_eq; cbn -[Z.of_nat]; rewrite ?length_app; cbn; lia.
Qed.

Lemma writer_run_offered l : forall w w', writer_run l w = Some w' -> bw_cfg w' = bw_cfg w /\
  Z.of_nat (length (bw_accepted w')) + bw_dropped w' = Z.of_nat (length (bw_accepted w)) + bw_dropped w + offered l.
Proof.
  induction l as [|e l IH]; cbn [writer_run]; intros w w' E; [simplify_eq; unfold offered; cbn; split; [done|lia]|].
  apply bind_Some in E as (w1 & E1 & E). apply IH in E as [-> ->]. split; [eauto using writer_step_cfg|].
  rewrite (writer_step_offered _ _ _ E1). unfold offered. cbn. destruct (is_enqueue e); cbn; lia.
Qed.

Definition committed (f : list WideEvent * tx_outcome) : bool :=
  tx_begin f.2 && all_exec f.2 (length (chunks (length f.1) f.1)) && tx_commit f.2.

Lemma stored_rows (fl : list (list WideEvent * tx_outcome)) :
  concat ((fun f => flush f.2 f.1) <$> fl) = event_row <$> concat (List.filter committed fl).*1.
Proof.
  induction fl as [|[b o] fl IH]; [done|]. cbn [fmap list_fmap concat List.filter fst snd]. rewrite IH. unfold flush. cbv zeta.
  change (tx_begin o && _ && tx_commit o) with (committed (b, o)). destruct (committed (b, o)); cbn [fmap list_fmap concat fst]; [|done].
  by rewrite chunks_concat, fmap_app.
Qed.

(** The loop, once the channel is closed. *)
Lemma drains o : forall n w, length (bw_queue w) = n -> bw_ok w -> bw_closed w = true -> bw_done w = false ->
  exists w', writer_run (replicate n (WTake o) ++ [WFinish o]) w = Some w' /\ bw_done w' = true /\ bw_accepted w' = bw_accepted w.
Proof.
  induction n as [|n IH]; intros w Hn Hw Hc Hd; cbn [replicate app writer_run].
  - apply nil_length_inv in Hn. cbn [writer_step]. rewrite Hd, Hn, Hc. cbn. destruct (bw_batch w); eexists; done.
  - assert (exists w1, writer_step (WTake o) w = Some w1 /\ length (bw_queue w1) = n /\ bw_closed w1 = true /\ bw_done w1 = false /\
      bw_accepted w1 = bw_accepted w) as (w1 & E & Hn1 & Hc1 & Hd1 & Ha).
    { cbn [writer_step]. rewrite Hd. destruct (bw_queue w) as [|ev q]; [done|]. injection Hn as Hn. cbv zeta.
      destruct (_ <=? _); (eexists; split; [reflexivity|done]). }
    destruct (IH w1) as (w' & E' & Hd' & Ha'); eauto using writer_step_ok. exists w'. rewrite E. cbn. rewrite Ha', Ha. done.
Qed.

(** Whatever callers, the loop, its ticker and Stop do, every event the batch writer said
    yes to is in exactly one place and in order: in a batch handed to a transaction, in the
    batch being collected or in the queue; every refused one is counted.  The queue and the
    batches keep their bounds and the table holds the rows of the batches whose transactions
    committed, each whole.  Once Stop has closed the channel the loop, by as many receives as
    there are events queued, hands over everything and ends. *)
Theorem batch_writer_accounts cfg l w : writer_run l (NewBatchWriter cfg) = Some w ->
  let lim := bw_cfg (NewBatchWriter cfg) in
  concat (bw_flushed w).*1 ++ bw_batch w ++ bw_queue w = bw_accepted w /\
  Z.of_nat (length (bw_accepted w)) + bw_dropped w = offered l /\
  Z.of_nat (length (bw_queue w)) <= bc_QueueSize lim /\
  Forall (fun f => 0 < Z.of_nat (length f.1) <= bc_BatchSize lim) (bw_flushed w) /\
  bw_db w = event_row <$> concat (List.filter committed (bw_flushed w)).*1 /\
  (bw_closed w = true -> bw_done w = false -> forall o, exists w',
     writer_run (replicate (length (bw_queue w)) (WTake o) ++ [WFinish o]) w = Some w' /\ bw_done w' = true /\
     concat (bw_flushed w').*1 = bw_accepted w).
Proof.
  intros E lim. pose proof (writer_run_ok _ _ _ (NewBatchWriter_ok cfg) E) as Hw. pose proof Hw as [H1 H2 H3 H4 H5 H6].
  apply writer_run_offered in E as [Ec Ho]. rewrite Ec in *. repeat split; try done.
  - by rewrite H5, stored_rows.
  - intros Hc Hd o. destruct (drains o _ w eq_refl Hw Hc Hd) as (w' & E & Hd' & Ha). exists w'. split; [done|split; [done|]].
    pose proof (writer_run_ok _ _ _ Hw E) as [_ _ Hk _ _ Hf]. destruct (Hf Hd') as (_ & Hq & Hb). rewrite Hq, Hb in Hk.
    by rewrite <- Ha, <- Hk, !app_nil_r.
Qed.

Definition plain_event (name : string) (deployment : string) (ok : bool) : WideEvent :=
  mkWideEvent "1.0" name (unix_epoch + Second) (mkUserContext "u1" "" "" false)
    (mkRequestContext "trace" "" "" "GET" "/pay" "" [] "" 0 "") (mkSystemContext "shop" "1" deployment "prod" "" "")
    (mkOutcomeContext ok (if ok then 200 else 500) "") None 7 "" ∅ None.

Definition commits : tx_outcome := mkTxOutcome true (fun _ => true) true.
Definition breaks : tx_outcome := mkTxOutcome true (fun _ => true) false.

(** Two events per batch, a queue of two: one event is refused, one batch is lost. *)
Lemma batch_writer_accounts_witness : exists w,
  writer_run [WEnqueue (plain_event "a" "" true); WEnqueue (plain_event "b" "" true); WEnqueue (plain_event "c" "" true);
              WTake commits; WTick breaks; WEnqueue (plain_event "d" "" true); WStop] (NewBatchWriter (mkBatchWriterConfig 2 2 0)) = Some w /\
  bw_dropped w = 1 /\ bw_db w = [] /\ length (bw_queue w) = 2%nat /\
  exists w', writer_run (replicate 2 (WTake commits) ++ [WFinish commits]) w = Some w' /\ bw_done w' = true /\
     concat (bw_flushed w').*1 = bw_accepted w.
Proof.
  eexists. split; [vm_compute; reflexivity|]. split; [reflexivity|]. split; [reflexivity|]. split; [reflexivity|].
  edestruct (batch_writer_accounts (mkBatchWriterConfig 2 2 0)
    [WEnqueue (plain_event "a" "" true); WEnqueue (plain_event "b" "" true); WEnqueue (plain_event "c" "" true);
     WTake commits; WTick breaks; WEnqueue (plain_event "d" "" true); WStop]) as (_ & _ & _ & _ & _ & H); [vm_compute; reflexivity|].
  exact (H eq_refl eq_refl commits).
Defined.
