(* ===== verification/Pipeline.v ===== *)
(** The first-generation ingest pipeline ([internal/ingest/pipeline.go]) with what it calls:
    the configuration from the environment ([internal/config/env.go]), the sampler
    ([internal/sampler]), the windowed counters ([handler.go]) and the cold store's writer.
    The event log and the deployment table are classes; metrics are left out. *)

From S2P Require Import Prelude GoRuntime GoText WideEvent ColdWriter Count.
Open Scope Z_scope.

(** ** Configuration from the environment *)

(** [Getenv], [GetenvInt], [GetenvBool], [SplitEnvList] over [os.Getenv]. *)
Section Env.
Variable env : string -> string.

Definition Getenv (key def : string) : string := let value := TrimSpace (env key) in if String.eqb value "" then def else value.

Definition GetenvInt (key : string) (def : Z) : Z :=
  let v := TrimSpace (env key) in
  if String.eqb v "" then def else match Atoi v with Some n => n | None => def end.

Definition GetenvBool (key : string) (def : bool) : bool :=
  let v := TrimSpace (env key) in
  if String.eqb v "" then def else
  let v := ToLower v in
  if existsb (String.eqb v) ["1"; "true"; "yes"; "y"; "on"] then true
  else if existsb (String.eqb v) ["0"; "false"; "no"; "n"; "off"] then false else def.

Definition GetenvDuration (key : string) (def : Duration) : Duration :=
  let v := TrimSpace (env key) in
  if String.eqb v "" then def else match ParseDuration v with Some d => d | None => def end.

Definition SplitEnvList (key : string) : list string :=
  let value := TrimSpace (env key) in
  if String.eqb value "" then [] else
  List.filter (fun item => negb (String.eqb item "")) (TrimSpace <$> Split value ","%char).
End Env.

(** ** The sampler *)

Record SamplerConfig := mkSamplerConfig { sc_SlowMs : Z; sc_HappySampleRatePct : Z; sc_Salt : string }.

Definition LoadConfigFromEnv (env : string -> string) : SamplerConfig :=
  mkSamplerConfig (GetenvInt env "SLOW_MS" 400) (GetenvInt env "HAPPY_SAMPLE_RATE_PCT" 2) (Getenv env "SAMPLE_SALT" "waylog").

Definition New (c : SamplerConfig) : SamplerConfig :=
  let pct := if sc_HappySampleRatePct c <=? 0 then 2 else sc_HappySampleRatePct c in
  mkSamplerConfig (if sc_SlowMs c <=? 0 then 400 else sc_SlowMs c) (if 100 <? pct then 100 else pct)
    (if String.eqb (TrimSpace (sc_Salt c)) "" then "waylog" else sc_Salt c).

(** [fnv.New32a]: a write, byte by byte. *)
Definition fnv_offset : Z := 2166136261.
Definition fnv_prime : Z := 16777619.
Fixpoint fnv32a (h : Z) (s : string) : Z :=
  match s with
  | EmptyString => h
  | String c s => fnv32a (Z.lxor h (Z.of_nat (nat_of_ascii c)) * fnv_prime mod 2 ^ 32) s
  end.

Example fnv32a_known : fnv32a fnv_offset <$> [""; "a"; "foobar"] = [2166136261; 3826002220; 3214735720].
Proof. vm_compute. reflexivity. Qed.

Definition keepByHash (c : SamplerConfig) (ev : WideEvent) : bool :=
  let h := fnv32a (fnv32a (fnv32a fnv_offset (sc_Salt c)) "|") (rc_TraceID (we_Request ev)) in
  h mod 100 <? sc_HappySampleRatePct c.

Definition ShouldKeep (c : SamplerConfig) (ev : WideEvent) : bool :=
  if negb (oc_Success (we_Outcome ev)) then true
  else if sc_SlowMs c <=? we_LatencyMs ev then true
  else if us_VIP (we_User ev) then true
  else keepByHash c ev.

(** ** Windowed counters *)

Record minuteBucket := mkMinuteBucket { mb_minute : Z; mb_total : Z; mb_errors : Z }.

Definition ring : Z := 120.
Definition unsampledCounters : Type := list minuteBucket.
Definition newCounters : unsampledCounters := replicate (Z.to_nat ring) (mkMinuteBucket 0 0 0).

Definition wrapU64 (n : Z) : Z := n mod 2 ^ 64.
Definition unix_minute (t : Time) : Z := Z.quot ((t - unix_epoch) / Second) 60.

(** [Inc]; an index out of range, before 1970, panics. *)
Definition Inc (isError : bool) (now : Time) (c : unsampledCounters) : option unsampledCounters :=
  let now := unix_minute now in
  let idx := Z.rem now ring in
  if idx <? 0 then None else
  b ← c !! Z.to_nat idx;
  let b := if mb_minute b =? now then b else mkMinuteBucket now 0 0 in
  Some (<[Z.to_nat idx := mkMinuteBucket (mb_minute b) (wrapU64 (mb_total b + 1))
            (if isError then wrapU64 (mb_errors b + 1) else mb_errors b)]> c).

(** [Sum]. *)
Definition Sum (window : Duration) (now : Time) (c : unsampledCounters) : Z * Z :=
  if 120 * Minute <? window then (0, 0) else
  let cutoff := unix_minute (TimeAdd now (- window)) in
  foldl (fun '(total, errs) b =>
    if (cutoff <=? mb_minute b) && (0 <? mb_total b)
    then (wrapU64 (total + mb_total b), wrapU64 (errs + mb_errors b)) else (total, errs)) (0, 0) c.

(** ** The counters count the window *)

(** A call of [Inc]: the minute it happens in and whether it reports an error. *)
Definition in_bucket (i : nat) (e : Z * bool) : bool := (Z.to_nat (e.1 mod ring) =? i)%nat.
Definition in_minute (m : Z) (e : Z * bool) : bool := e.1 =? m.
Definition errs_in (m : Z) (e : Z * bool) : bool := in_minute m e && e.2.

(** The bucket after the calls: the latest minute it holds and what happened in it. *)
Definition bucket_of (h : list (Z * bool)) (i : nat) : minuteBucket :=
  match last (List.filter (in_bucket i) h) with
  | None => mkMinuteBucket 0 0 0
  | Some (m, _) => mkMinuteBucket m (cnt (in_minute m) h) (cnt (errs_in m) h)
  end.

Definition inc_at (e : Time * bool) (c : unsampledCounters) : option unsampledCounters := Inc e.2 e.1 c.
Fixpoint inc_run (l : list (Time * bool)) (c : unsampledCounters) : option unsampledCounters :=
  match l with [] => Some c | e :: l => c ← inc_at e c; inc_run l c end.
Definition minutes (l : list (Time * bool)) : list (Z * bool) := (fun e => (unix_minute e.1, e.2)) <$> l.

Lemma inc_run_snoc l e c : inc_run (l ++ [e]) c = (c ← inc_run l c; inc_at e c).
Proof. revert c. induction l as [|x l IH]; intros c; cbn; [by destruct (inc_at e c)|]. destruct (inc_at x c); cbn; [apply IH|done]. Qed.

Lemma unix_minute_mono a b : a <= b -> unix_minute a <= unix_minute b.
Proof. intros H. unfold unix_minute. apply Z.quot_le_mono; [lia|]. apply Z.div_le_mono; [unfold Second; lia|lia]. Qed.

Lemma unix_minute_nonneg a : unix_epoch <= a -> 0 <= unix_minute a.
Proof. intros H. apply unix_minute_mono in H. unfold unix_minute in H at 1. rewrite Z.sub_diag in H. exact H. Qed.

Lemma bucket_of_other h e i : in_bucket i e = false -> bucket_of (h ++ [e]) i = bucket_of h i.
Proof.
  intros He. unfold bucket_of. rewrite List.filter_app. cbn. rewrite He, app_nil_r. destruct (last _) as [[m b]|] eqn:El; [|done].
  assert (in_bucket i (m, b) = true) as Hm by (apply last_Some_elem_of, elem_of_lfilter in El; apply El).
  assert (in_minute m e = false) as Hn.
  { unfold in_minute. apply Z.eqb_neq. intros E. unfold in_bucket in *. cbn [fst] in Hm. rewrite E in He. congruence. }
  f_equal; rewrite cnt_app; unfold cnt at 2; cbn; unfold errs_in; rewrite ?Hn; cbn; lia.
Qed.

Lemma ssorted_filter {A} (R : relation A) (f : A -> bool) l : StronglySorted R l -> StronglySorted R (List.filter f l).
Proof.
  induction 1 as [|x l Hs IH Hx]; cbn; [constructor|]. destruct (f x); [|done]. constructor; [done|].
  rewrite Forall_forall in *. intros y [Hy _]%elem_of_lfilter. auto.
Qed.

Lemma ssorted_last {A} (R : relation A) l x y : StronglySorted R l -> last l = Some x -> y ∈ l -> y = x \/ R y x.
Proof.
  induction 1 as [|z l Hs IH Hz]; [done|]. intros Hl Hy. destruct l as [|w l]; [set_solver|].
  apply elem_of_cons in Hy as [->|Hy]; [right|by apply IH]. rewrite Forall_forall in Hz. apply Hz. by apply last_Some_elem_of.
Qed.

Definition no_later (a b : Z * bool) : Prop := a.1 <= b.1.

Lemma fmap_insert_seq {A} (f g : nat -> A) n i x : (forall j, j <> i -> f j = g j) -> x = g i ->
  <[i := x]> (f <$> seq 0 n) = g <$> seq 0 n.
Proof.
  intros Hf ->. apply list_eq. intros j. rewrite list_lookup_fmap. destruct (decide (i = j)) as [->|Hj].
  - destruct (decide (j < n)%nat).
    + rewrite list_lookup_insert_eq by (by rewrite length_fmap, length_seq). by rewrite lookup_seq_lt.
    + rewrite !lookup_ge_None_2; rewrite ?length_insert, ?length_fmap, ?length_seq; try done; lia.
  - rewrite list_lookup_insert_ne by done. rewrite list_lookup_fmap. destruct (decide (j < n)%nat).
    + rewrite lookup_seq_lt by done. cbn. by rewrite Hf by done.
    + by rewrite lookup_seq_ge by lia.
Qed.

Lemma bucket_of_minute h i e : in_bucket i e = true -> bucket_of (h ++ [e]) i =
  mkMinuteBucket e.1 (cnt (in_minute e.1) h + 1) (cnt (errs_in e.1) h + Z.b2z e.2).
Proof.
  intros He. unfold bucket_of. rewrite List.filter_app. cbn. rewrite He, last_snoc. destruct e as [m b]. cbn [fst snd].
  assert (in_minute m (m, b) = true) as Hm by apply Z.eqb_refl.
  rewrite !cnt_app, !cnt_cons. unfold errs_in at 2. rewrite Hm. by destruct b.
Qed.

(** The bucket a call finds: what it holds of the current minute. *)
Lemma bucket_found h e : StronglySorted no_later (h ++ [e]) -> 0 <= e.1 ->
  let b := bucket_of h (Z.to_nat (e.1 mod ring)) in
  (if mb_minute b =? e.1 then b else mkMinuteBucket e.1 0 0) = mkMinuteBucket e.1 (cnt (in_minute e.1) h) (cnt (errs_in e.1) h).
Proof.
  intros Hs H0 b. assert ((forall x, x ∈ h -> x.1 <> e.1) -> cnt (in_minute e.1) h = 0 /\ cnt (errs_in e.1) h = 0) as Hz.
  { intros Hx. unfold cnt. split; rewrite lfilter_none; try done; intros x Hin; unfold errs_in, in_minute;
    rewrite (proj2 (Z.eqb_neq _ _) (Hx x Hin)); done. }
  assert (forall x, x ∈ h -> x.1 = e.1 -> x ∈ List.filter (in_bucket (Z.to_nat (e.1 mod ring))) h) as Hin.
  { intros x Hx E. apply elem_of_lfilter. split; [done|]. unfold in_bucket. rewrite E. apply Nat.eqb_refl. }
  assert (StronglySorted no_later h /\ forall x, x ∈ h -> no_later x e) as [Hsh Hle].
  { apply StronglySorted_app in Hs as (H1 & H2 & H3). split; [done|]. intros x Hx. apply H1; set_solver. }
  subst b. unfold bucket_of. destruct (last _) as [[m b]|] eqn:El.
  - cbn [mb_minute]. destruct (Z.eqb_spec m e.1) as [->|Hm]; [done|]. destruct Hz as [-> ->]; [|done]. intros x Hx E.
    assert (m <= e.1) as Hme.
    { apply last_Some_elem_of, elem_of_lfilter in El as [El _]. apply (Hle _ El). }
    destruct (ssorted_last no_later _ _ x (ssorted_filter _ _ _ Hsh) El (Hin x Hx E)) as [->|Hl]; [done|].
    unfold no_later in Hl. cbn in Hl. lia.
  - apply last_None in El. destruct Hz as [-> ->].
    + intros x Hx E. apply Hin in E; [|done]. rewrite El in E. by apply elem_of_nil in E.
    + cbn [mb_minute]. destruct (Z.eqb_spec 0 e.1) as [<-|]; done.
Qed.

Definition ring_of (h : list (Z * bool)) : unsampledCounters := bucket_of h <$> seq 0 (Z.to_nat ring).

(** What the calls may assume of the clock. *)
Definition clocked (l : list (Time * bool)) : Prop :=
  StronglySorted (fun a b : Time * bool => a.1 <= b.1) l /\ Forall (fun e => unix_epoch <= e.1) l /\ Z.of_nat (length l) < 2 ^ 64.

Lemma clocked_prefix l k : clocked (l ++ k) -> clocked l.
Proof.
  intros (Hs & He & Hn). rewrite length_app in Hn. apply StronglySorted_app in Hs as (_ & Hs & _). apply Forall_app in He as [He _].
  repeat split; try done; lia.
Qed.

Lemma minutes_sorted l : clocked l -> StronglySorted no_later (minutes l).
Proof.
  intros [Hs _]. unfold minutes. induction Hs as [|e l Hs IH He]; cbn; constructor; [done|].
  apply Forall_fmap. eapply Forall_impl; [exact He|]. intros x Hx. unfold no_later. cbn. by apply unix_minute_mono.
Qed.

Lemma wrapU64_small n : 0 <= n < 2 ^ 64 -> wrapU64 n = n.
Proof. intros H. by apply Z.mod_small. Qed.

Lemma minutes_snoc l e : minutes (l ++ [e]) = minutes l ++ [(unix_minute e.1, e.2)].
Proof. unfold minutes. by rewrite fmap_app. Qed.

Lemma ring_of_lookup h i : (i < Z.to_nat ring)%nat -> ring_of h !! i = Some (bucket_of h i).
Proof. intros Hi. pose proof (list_lookup_fmap (bucket_of h) (seq 0 (Z.to_nat ring)) i) as H. by rewrite lookup_seq_lt in H. Qed.

(** The calls never panic, and leave each bucket with its latest minute. *)
Lemma inc_run_ring l : clocked l -> inc_run l newCounters = Some (ring_of (minutes l)).
Proof.
  induction l as [|e l IH] using rev_ind; intros Hc; [reflexivity|].
  rewrite inc_run_snoc, IH by eauto using clocked_prefix. cbn [mbind option_bind].
  pose proof (minutes_sorted _ Hc) as Hs. destruct Hc as (_ & He & Hn). apply Forall_app in He as [_ He]. rewrite Forall_singleton in He.
  rewrite length_app in Hn. cbn in Hn. apply unix_minute_nonneg in He. rewrite minutes_snoc in *. set (m := unix_minute e.1) in *. set (h := minutes l) in *.
  assert (length h = length l) as Hl by apply length_fmap.
  pose proof (bucket_found h (m, e.2) Hs He) as Hb. cbn [fst] in Hb.
  unfold inc_at, Inc. fold m. cbv zeta. rewrite Z.rem_mod_nonneg by (unfold ring; lia).
  assert (0 <= m mod ring < ring) as Hm by (apply Z.mod_pos_bound; done).
  rewrite (proj2 (Z.ltb_ge _ _)) by lia. set (i := Z.to_nat (m mod ring)) in *.
  assert (i < Z.to_nat ring)%nat as Hi by lia.
  rewrite ring_of_lookup by done. cbn [mbind option_bind].
  cbv zeta in Hb. rewrite Hb. f_equal. apply fmap_insert_seq.
  - intros j Hj. symmetry. apply bucket_of_other. apply Nat.eqb_neq. cbn. done.
  - rewrite bucket_of_minute by apply Nat.eqb_refl. cbn [fst snd mb_minute mb_total mb_errors].
    pose proof (cnt_le (in_minute m) h). pose proof (cnt_le (errs_in m) h).
    rewrite wrapU64_small by lia. destruct e.2; cbn [Z.b2z]; [rewrite wrapU64_small by lia|rewrite Z.add_0_r]; done.
Qed.

(** What [Sum] adds for a bucket. *)
Definition part (cutoff : Z) (field : minuteBucket -> Z) (b : minuteBucket) : Z :=
  if (cutoff <=? mb_minute b) && (0 <? mb_total b) then field b else 0.

Lemma sumZ_nonneg {A} (f : A -> Z) l : (forall x, x ∈ l -> 0 <= f x) -> 0 <= sumZ (f <$> l).
Proof.
  induction l as [|x l IH]; intros H; [done|]. cbn [fmap list_fmap sumZ foldr]. fold sumZ.
  assert (0 <= f x) by (apply H; set_solver). specialize (IH ltac:(set_solver)). unfold sumZ in *. cbn in *. lia.
Qed.

Lemma sumZ_cons x l : sumZ (x :: l) = x + sumZ l.
Proof. done. Qed.

Lemma fold_parts cutoff : forall c total errs, (forall b, b ∈ c -> 0 <= mb_total b /\ 0 <= mb_errors b) -> 0 <= total -> 0 <= errs ->
  total + sumZ (part cutoff mb_total <$> c) < 2 ^ 64 -> errs + sumZ (part cutoff mb_errors <$> c) < 2 ^ 64 ->
  foldl (fun '(total, errs) b => if (cutoff <=? mb_minute b) && (0 <? mb_total b)
    then (wrapU64 (total + mb_total b), wrapU64 (errs + mb_errors b)) else (total, errs)) (total, errs) c =
  (total + sumZ (part cutoff mb_total <$> c), errs + sumZ (part cutoff mb_errors <$> c)).
Proof.
  induction c as [|b c IH]; intros total errs Hb Ht He Ht2 He2; cbn [foldl]; [cbn; f_equal; lia|].
  rewrite !fmap_cons, !sumZ_cons in *. pose proof (Hb b (list_elem_of_here _ _)) as [Hb1 Hb2].
  assert (forall f, (forall b, b ∈ c -> 0 <= f b) -> 0 <= sumZ (part cutoff f <$> c)) as Hnn.
  { intros f Hf. apply sumZ_nonneg. intros x Hx. unfold part. case_match; [auto|lia]. }
  pose proof (Hnn mb_total ltac:(set_solver)). pose proof (Hnn mb_errors ltac:(set_solver)).
  assert (forall f, part cutoff f b = if (cutoff <=? mb_minute b) && (0 <? mb_total b) then f b else 0) as Hp by done.
  rewrite !Hp in *. clear Hp. destruct (_ && _).
  - rewrite !wrapU64_small by lia. rewrite IH; [f_equal; lia|set_solver|lia..].
  - rewrite IH; [f_equal; lia|set_solver|lia..].
Qed.

(** Two minutes of the window in the same bucket are the same minute. *)
Lemma same_minute i cutoff now (x y : Z * bool) : 0 <= x.1 <= now -> 0 <= y.1 <= now -> cutoff <= x.1 -> cutoff <= y.1 -> now - cutoff < ring ->
  in_bucket i x = true -> in_bucket i y = true -> x.1 = y.1.
Proof.
  unfold in_bucket. intros Hx Hy Hcx Hcy Hw E1%Nat.eqb_eq E2%Nat.eqb_eq.
  assert (x.1 mod ring = y.1 mod ring) as E.
  { apply Z2Nat.inj; [apply Z.mod_pos_bound; done..|congruence]. }
  unfold ring in *. pose proof (Z.div_mod x.1 120 ltac:(lia)). pose proof (Z.div_mod y.1 120 ltac:(lia)). lia.
Qed.

(** A bucket counts the calls of the window that fall into it. *)
Lemma bucket_part h i cutoff now g : StronglySorted no_later h -> Forall (fun e => 0 <= e.1 <= now) h -> now - cutoff < ring ->
  match last (List.filter (in_bucket i) h) with
  | Some (m, _) => if cutoff <=? m then cnt (fun e => in_minute m e && g e) h else 0
  | None => 0
  end = cnt (fun e => in_bucket i e && ((cutoff <=? e.1) && g e)) h.
Proof.
  intros Hs Hb Hw. rewrite Forall_forall in Hb. destruct (last _) as [[m b]|] eqn:El.
  - assert ((m, b) ∈ h /\ in_bucket i (m, b) = true) as [Hm Hi] by (by apply last_Some_elem_of, elem_of_lfilter in El).
    assert (forall x, x ∈ h -> in_bucket i x = true -> x.1 <= m) as Hle.
    { intros x Hx Hxi. destruct (ssorted_last no_later _ _ x (ssorted_filter _ (in_bucket i) _ Hs) El) as [->|H]; [by apply elem_of_lfilter|done|done]. }
    destruct (Z.leb_spec cutoff m) as [Hc|Hc].
    + apply cnt_ext. intros x Hx. unfold in_minute. destruct (Z.eqb_spec x.1 m) as [E|E].
      * rewrite E. rewrite (proj2 (Z.leb_le _ _) Hc). unfold in_bucket in *. rewrite E. cbn [fst] in Hi. by rewrite Hi.
      * destruct (in_bucket i x) eqn:Ei; [|done]. destruct (Z.leb_spec cutoff x.1); [|done]. exfalso. apply E.
        apply (same_minute i cutoff now x (m, b)); auto.
    + unfold cnt. rewrite lfilter_none; [done|]. intros x Hx. destruct (in_bucket i x) eqn:Ei; [|done]. cbn.
      rewrite (proj2 (Z.leb_gt _ _)); [done|]. specialize (Hle x Hx Ei). lia.
  - apply last_None in El. unfold cnt. rewrite lfilter_none; [done|]. intros x Hx. destruct (in_bucket i x) eqn:Ei; [|done].
    assert (x ∈ List.filter (in_bucket i) h) as Hin by (by apply elem_of_lfilter). rewrite El in Hin. by apply elem_of_nil in Hin.
Qed.

Definition in_window (cutoff : Z) (e : Z * bool) : bool := cutoff <=? e.1.
Definition errors_in_window (cutoff : Z) (e : Z * bool) : bool := (cutoff <=? e.1) && e.2.

Lemma bucket_of_total h i : 0 <= mb_total (bucket_of h i) /\ 0 <= mb_errors (bucket_of h i) /\
  match last (List.filter (in_bucket i) h) with Some (m, _) => 0 < mb_total (bucket_of h i) | None => mb_total (bucket_of h i) = 0 end.
Proof.
  unfold bucket_of. destruct (last _) as [[m b]|] eqn:El; [|done]. cbn. pose proof (cnt_le (errs_in m) h). split; [apply cnt_le|split; [lia|]].
  apply last_Some_elem_of, elem_of_lfilter in El as [El _]. apply list_elem_of_split in El as (l1 & l2 & ->).
  rewrite cnt_app, cnt_cons. unfold in_minute at 2. cbn [fst]. rewrite Z.eqb_refl. cbn [Z.b2z].
  pose proof (cnt_le (in_minute m) l1). pose proof (cnt_le (in_minute m) l2). lia.
Qed.

Lemma part_total h i cutoff now : StronglySorted no_later h -> Forall (fun e => 0 <= e.1 <= now) h -> now - cutoff < ring ->
  part cutoff mb_total (bucket_of h i) = cnt (fun e => (Z.to_nat (e.1 mod ring) =? i)%nat && in_window cutoff e) h /\
  part cutoff mb_errors (bucket_of h i) = cnt (fun e => (Z.to_nat (e.1 mod ring) =? i)%nat && errors_in_window cutoff e) h.
Proof.
  intros Hs Hb Hw. pose proof (fun g => bucket_part h i cutoff now g Hs Hb Hw) as H. pose proof (bucket_of_total h i) as (_ & _ & Ht).
  unfold part. split.
  - rewrite (cnt_ext _ (fun e => in_bucket i e && ((cutoff <=? e.1) && true))) by (intros e _; unfold in_bucket, in_window; by rewrite andb_true_r).
    rewrite <- (H (fun _ => true)). unfold bucket_of in *. destruct (last _) as [[m b]|]; cbn [mb_minute mb_total mb_errors] in *.
    + rewrite (proj2 (Z.ltb_lt _ _) Ht), andb_true_r. destruct (_ <=? _); [|done]. apply cnt_ext. intros e _. by rewrite andb_true_r.
    + by rewrite andb_false_r.
  - rewrite (cnt_ext _ (fun e => in_bucket i e && ((cutoff <=? e.1) && e.2))) by done. rewrite <- (H snd). unfold bucket_of in *. destruct (last _) as [[m b]|]; cbn [mb_minute mb_total mb_errors] in *.
    + by rewrite (proj2 (Z.ltb_lt _ _) Ht), andb_true_r.
    + by rewrite andb_false_r.
Qed.

Lemma window_minutes now window : unix_epoch <= now -> window <= 119 * Minute -> unix_minute now - unix_minute (TimeAdd now (- window)) < ring.
Proof.
  intros Hn Hw. unfold unix_minute, TimeAdd, ring. unfold Minute in Hw. set (s := (now - unix_epoch) / Second).
  assert (0 <= s) by (apply Z.div_pos; unfold Second; lia).
  assert (s - 7140 <= (now + - window - unix_epoch) / Second) as Hd.
  { apply Z.div_le_lower_bound; [unfold Second; lia|]. pose proof (Z.mul_div_le (now - unix_epoch) Second ltac:(unfold Second; lia)).
    unfold s, Second in *. lia. }
  set (c := (_ + _ - _) / _) in *. clearbody s c. Z.to_euclidean_division_equations. lia.
Qed.

(** After any sequence of calls of Inc at times that do not run backwards, the error-rate
    counters never panic, and Sum over a window of at most 119 minutes is exact: the number
    of calls since the minute the window starts in, and of those that reported an error,
    however often the ring of 120 buckets has wrapped around. *)
Theorem Sum_counts_window l now window : clocked l -> Forall (fun e => e.1 <= now) l -> unix_epoch <= now -> window <= 119 * Minute ->
  let inside e := unix_minute (TimeAdd now (- window)) <=? unix_minute e.1 in
  exists c, inc_run l newCounters = Some c /\
  Sum window now c = (cnt inside l, cnt (fun e => inside e && e.2) l).
Proof.
  intros Hc Hn Hnow Hw inside. exists (ring_of (minutes l)). split; [by apply inc_run_ring|].
  pose proof (minutes_sorted _ Hc) as Hs. pose proof (window_minutes now window Hnow Hw) as Hr. destruct Hc as (_ & He & Hlen).
  assert (Forall (fun e : Z * bool => 0 <= e.1 <= unix_minute now) (minutes l)) as Hb.
  { apply Forall_fmap, Forall_forall. intros x Hx. cbn. rewrite Forall_forall in He, Hn.
    split; [apply unix_minute_nonneg|apply unix_minute_mono]; auto. }
  unfold Sum. rewrite (proj2 (Z.ltb_ge _ _)) by (unfold Minute, Second in *; lia). cbv zeta. set (cutoff := unix_minute (TimeAdd now (- window))) in *.
  pose proof (fun i => part_total (minutes l) i cutoff _ Hs Hb Hr) as Hp.
  assert (forall field f, (forall i, part cutoff field (bucket_of (minutes l) i) = cnt (fun e => (Z.to_nat (e.1 mod ring) =? i)%nat && f e) (minutes l)) ->
    sumZ (part cutoff field <$> ring_of (minutes l)) = cnt f (minutes l)) as Hsum.
  { intros field f Hf. unfold ring_of. rewrite <- list_fmap_compose. rewrite <- (cnt_split (fun e : Z * bool => Z.to_nat (e.1 mod ring)) f (Z.to_nat ring)).
    - f_equal. apply list_fmap_ext. intros _ i _. apply Hf.
    - intros x _. pose proof (Z.mod_pos_bound x.1 ring eq_refl). lia. }
  pose proof (cnt_le (in_window cutoff) (minutes l)). pose proof (cnt_le (errors_in_window cutoff) (minutes l)).
  assert (length (minutes l) = length l) as Hll by apply length_fmap.
  rewrite fold_parts; rewrite ?(Hsum _ (in_window cutoff)), ?(Hsum _ (errors_in_window cutoff)) by apply Hp; try lia.
  - unfold minutes. rewrite !cnt_fmap. done.
  - intros b Hin. apply list_elem_of_fmap in Hin as (i & -> & _). pose proof (bucket_of_total (minutes l) i). tauto.
Qed.

Definition at_minute (m : Z) : Time := unix_epoch + m * Minute.

(** Three calls, the third after the ring has wrapped onto the first. *)
Lemma Sum_counts_window_witness : exists c,
  inc_run [(at_minute 5, true); (at_minute 100, false); (at_minute 125, true)] newCounters = Some c /\
  Sum (119 * Minute) (at_minute 130) c = (2, 1).
Proof.
  edestruct (Sum_counts_window [(at_minute 5, true); (at_minute 100, false); (at_minute 125, true)] (at_minute 130) (119 * Minute)) as (c & E & H).
  - split; [|split; [|reflexivity]]; repeat constructor; vm_compute; discriminate.
  - repeat constructor; vm_compute; discriminate.
  - vm_compute. discriminate.
  - vm_compute. discriminate.
  - exists c. split; [exact E|]. rewrite H. reflexivity.
Defined.

(** A window of 120 minutes, which [Sum] accepts, covers 121 of them: the first, which shares
    its bucket with the last, is lost. *)
Lemma full_window_misses : exists c, inc_run [(at_minute 0, true); (at_minute 120, false)] newCounters = Some c /\
  Sum (120 * Minute) (at_minute 120) c = (1, 0) /\ unix_minute (TimeAdd (at_minute 120) (- (120 * Minute))) = 0.
Proof. eexists. split; [vm_compute; reflexivity|split; reflexivity]. Qed.

(** ** The pipeline *)

(** The event log, as the pipeline sees it: a write that succeeds appends the entry, one that
    fails leaves at most the entry behind. *)
Class EventSink (L : Type) := {
  sink_write : L -> WideEvent -> bool -> L * option string;
  sink_entries : L -> list (WideEvent * bool);
  sink_ok : forall l ev b l', sink_write l ev b = (l', None) -> sink_entries l' = sink_entries l ++ [(ev, b)];
  sink_failed : forall l ev b l' err, sink_write l ev b = (l', Some err) ->
    sink_entries l' = sink_entries l \/ sink_entries l' = sink_entries l ++ [(ev, b)]
}.

Record Deployment := mkDeployment {
  dp_ID : string; dp_Service : string; dp_Version : string; dp_Env : string; dp_FirstSeen : Time; dp_LastSeen : Time
}.

(** The deployment table: an upsert, which may fail. *)
Class DeploymentStore (D : Type) := { UpsertDeployment : D -> Deployment -> D * option string }.

Record EventError := mkEventError { ee_Index : Z; ee_Reason : string }.
Record BatchResult := mkBatchResult {
  br_Accepted : Z; br_SampledInGraph : Z; br_SampledOut : Z; br_Rejected : Z; br_Errors : list EventError
}.

Section Pipeline.
Context {L D : Type} `{EventSink L} `{DeploymentStore D}.

(** What is nil is [None]. *)
Record Pipeline := mkPipeline {
  pl_sampler : option SamplerConfig; pl_eventLog : option L; pl_coldWriter : option BatchWriter; pl_coldStore : option D;
  pl_counters : option unsampledCounters; pl_accepted : option Z; pl_validator : option (WideEvent -> list ValidationError)
}.

Definition with_log (p : Pipeline) (l : option L) : Pipeline :=
  mkPipeline (pl_sampler p) l (pl_coldWriter p) (pl_coldStore p) (pl_counters p) (pl_accepted p) (pl_validator p).

Definition ev_deployment (ev : WideEvent) : Deployment :=
  let y := we_System ev in mkDeployment (sy_DeploymentID y) (sy_Service y) (sy_Version y) (sy_Env y) (we_Timestamp ev) (we_Timestamp ev).

Definition sampled (p : Pipeline) (ev : WideEvent) : bool := match pl_sampler p with Some c => ShouldKeep c ev | None => true end.

Definition count_event (now : Time) (ev : WideEvent) (c : option unsampledCounters) : option (option unsampledCounters) :=
  match c with Some c => Some <$> Inc (negb (oc_Success (we_Outcome ev))) now c | None => Some None end.

Definition enqueue_event (ev : WideEvent) (w : option BatchWriter) : option (option BatchWriter) :=
  match w with Some w => (fun r => Some (snd r)) <$> Enqueue ev w | None => Some None end.

Definition upsert_event (ev : WideEvent) (d : option D) : option D :=
  if negb (String.eqb (sy_DeploymentID (we_System ev)) "") then (fun d => fst (UpsertDeployment d (ev_deployment ev))) <$> d else d.

(** The body of the loop after the log: the counters, the cold store, the deployment and the
    counter of accepted events; a panic of [Inc] or [Enqueue] is [None]. *)
Definition after_log (now : Time) (ev : WideEvent) (p : Pipeline) : option Pipeline :=
  c ← count_event now ev (pl_counters p);
  w ← enqueue_event ev (pl_coldWriter p);
  let d := upsert_event ev (pl_coldStore p) in
  Some (mkPipeline (pl_sampler p) (pl_eventLog p) w d c
          (if sampled p ev then (fun n => wrapU64 (n + 1)) <$> pl_accepted p else pl_accepted p) (pl_validator p)).

(** [IngestBatch]; [ctxErr] is what the context says before each event, [clock] the time when
    it is counted. *)
Fixpoint ingest_loop (ctxErr : nat -> option string) (clock : nat -> Time) (i : nat) (events : list WideEvent) (result : BatchResult) (p : Pipeline)
    : option (Pipeline * BatchResult * option string) :=
  match events with
  | [] => Some (p, result, None)
  | ev :: events =>
    match ctxErr i with
    | Some err => Some (p, result, Some err)
    | None =>
      let keep := sampled p ev in
      let '(log, err) := match pl_eventLog p with
                         | Some l => let '(l, err) := sink_write l ev keep in (Some l, err)
                         | None => (None, None)
                         end in
      let p := with_log p log in
      match err with
      | Some err => Some (p, result, Some err)
      | None =>
        p ← after_log (clock i) ev p;
        let result := if keep then mkBatchResult (br_Accepted result + 1) (br_SampledInGraph result + 1) (br_SampledOut result) 0 []
                      else mkBatchResult (br_Accepted result + 1) (br_SampledInGraph result) (br_SampledOut result + 1) 0 [] in
        ingest_loop ctxErr clock (S i) events result p
      end
    end
  end.

Definition IngestBatch (ctxErr : nat -> option string) (clock : nat -> Time) (events : list WideEvent) (p : Pipeline) :=
  ingest_loop ctxErr clock 0 events (mkBatchResult 0 0 0 0 []) p.

(** The validation loop: the events that pass, and the rejections with their positions. *)
Fixpoint validate_loop (validator : option (WideEvent -> list ValidationError)) (i : Z) (events : list WideEvent)
    : list WideEvent * list EventError :=
  match events with
  | [] => ([], [])
  | ev :: events =>
    let '(valid, errs) := validate_loop validator (i + 1) events in
    match validator with
    | Some v => match v ev with [] => (ev :: valid, errs) | ve => (valid, mkEventError i (errors_text ve) :: errs) end
    | None => (ev :: valid, errs)
    end
  end.

Definition ValidateAndIngestBatch (ctxErr : nat -> option string) (clock : nat -> Time) (events : list WideEvent) (p : Pipeline)
    : option (Pipeline * BatchResult * option string) :=
  let '(valid, errs) := validate_loop (pl_validator p) 0 events in
  let rejected := Z.of_nat (length errs) in
  match valid with
  | [] => Some (p, mkBatchResult 0 0 0 rejected errs, None)
  | _ =>
    '(p, sub, err) ← IngestBatch ctxErr clock valid p;
    Some (p, mkBatchResult (br_Accepted sub) (br_SampledInGraph sub) (br_SampledOut sub) rejected errs, err)
  end.

(** ** What a batch leaves behind *)

Fixpoint calls (clock : nat -> Time) (i : nat) (evs : list WideEvent) : list (Time * bool) :=
  match evs with [] => [] | ev :: evs => (clock i, negb (oc_Success (we_Outcome ev))) :: calls clock (S i) evs end.

Definition entry (p : Pipeline) (ev : WideEvent) : WideEvent * bool := (ev, sampled p ev).

(** Beside the log: counters, cold store, deployments, accepted counter. *)
Record effects (clock : nat -> Time) (i : nat) (evs : list WideEvent) (p p' : Pipeline) : Prop := {
  ef_config : pl_sampler p' = pl_sampler p /\ pl_validator p' = pl_validator p;
  ef_counters : match pl_counters p with
                | Some c => exists c', pl_counters p' = Some c' /\ inc_run (calls clock i evs) c = Some c'
                | None => pl_counters p' = None
                end;
  ef_cold : match pl_coldWriter p with
            | Some w => exists w', pl_coldWriter p' = Some w' /\ writer_run (WEnqueue <$> evs) w = Some w'
            | None => pl_coldWriter p' = None
            end;
  ef_deploys : pl_coldStore p' = foldl (fun d ev => upsert_event ev d) (pl_coldStore p) evs;
  ef_accepted : match pl_accepted p with
                | Some a => exists a', pl_accepted p' = Some a' /\ wrapU64 a' = wrapU64 (a + cnt (sampled p) evs)
                | None => pl_accepted p' = None
                end
}.

Lemma effects_nil clock i p l : effects clock i [] p (with_log p l).
Proof. constructor; cbn; try done; repeat case_match; eauto. eexists. split; [done|]. f_equal. unfold cnt. cbn. lia. Qed.

Lemma sampled_config p p' ev : pl_sampler p' = pl_sampler p -> sampled p' ev = sampled p ev.
Proof. unfold sampled. by intros ->. Qed.

Lemma wrapU64_add a b c : wrapU64 a = wrapU64 b -> wrapU64 (a + c) = wrapU64 (b + c).
Proof. unfold wrapU64. intros E. rewrite (Zplus_mod a), (Zplus_mod b), E. done. Qed.

Lemma effects_cons clock i ev evs p l p1 p' : after_log (clock i) ev (with_log p l) = Some p1 -> effects clock (S i) evs p1 p' ->
  effects clock i (ev :: evs) p p'.
Proof.
  unfold after_log, count_event, enqueue_event. cbn [with_log pl_sampler pl_eventLog pl_coldWriter pl_coldStore pl_counters pl_accepted pl_validator].
  intros (c & Ec & (w & Ew & E)%bind_Some)%bind_Some. injection E as <-. intros [Hcfg H1 H2 H3 H4].
  assert (forall e, sampled (with_log p l) e = sampled p e) as Hsl by done. cbn [pl_sampler pl_eventLog pl_coldWriter pl_coldStore pl_counters pl_accepted pl_validator] in *.
  constructor; cbn [calls fmap list_fmap foldl]; try done.
  - destruct (pl_counters p); [|by injection Ec as <-]. apply fmap_Some in Ec as (c1 & Ec & ->). destruct H1 as (c' & ? & E').
    exists c'. split; [done|]. cbn. unfold inc_at. cbn. by rewrite Ec.
  - destruct (pl_coldWriter p); [|by injection Ew as <-]. apply fmap_Some in Ew as (w1 & Ew & ->). destruct H2 as (w' & ? & E').
    exists w'. split; [done|]. cbn. by rewrite Ew.
  - rewrite Hsl in H4. destruct (pl_accepted p) as [a|]; [|by destruct (sampled p ev)].
    assert (exists a', pl_accepted p' = Some a' /\ wrapU64 a' = wrapU64 ((if sampled p ev then wrapU64 (a + 1) else a) + cnt (sampled p) evs)) as (a' & ? & E').
    { destruct (sampled p ev); exact H4. }
    exists a'. split; [done|]. rewrite E', cnt_cons. destruct (sampled p ev); cbn [Z.b2z].
    + rewrite Z.add_assoc. apply wrapU64_add. unfold wrapU64. by rewrite Z.mod_mod.
    + by rewrite Z.add_0_l.
Qed.

(** The log holds the entries of [evs] after those it had. *)
Definition logged (p p' : Pipeline) (evs : list WideEvent) : Prop :=
  match pl_eventLog p with
  | Some l => exists l', pl_eventLog p' = Some l' /\ sink_entries l' = sink_entries l ++ (entry p <$> evs)
  | None => pl_eventLog p' = None
  end.

Lemma after_log_same now ev p p' : after_log now ev p = Some p' -> pl_sampler p' = pl_sampler p /\ pl_eventLog p' = pl_eventLog p.
Proof. unfold after_log. intros (c & _ & (w & _ & E)%bind_Some)%bind_Some. by injection E as <-. Qed.

Lemma logged_cons p p1 p' ev evs : pl_sampler p1 = pl_sampler p -> logged p p1 [ev] -> logged p1 p' evs -> logged p p' (ev :: evs).
Proof.
  unfold logged. intros Hs H1 H2. destruct (pl_eventLog p); [|by rewrite H1 in H2]. destruct H1 as (l1 & E1 & H1). rewrite E1 in H2.
  destruct H2 as (l' & E' & H2). exists l'. split; [done|]. rewrite H2, H1, <- app_assoc. cbn. do 2 f_equal.
  apply list_fmap_ext. intros _ x _. unfold entry. by rewrite (sampled_config _ _ _ Hs).
Qed.

Lemma logged_nil p l : (pl_eventLog p = None -> l = None) -> (forall k, pl_eventLog p = Some k -> exists l', l = Some l' /\ sink_entries l' = sink_entries k) ->
  logged p (with_log p l) [].
Proof. unfold logged. intros H1 H2. destruct (pl_eventLog p); cbn; [|auto]. destruct (H2 _ eq_refl) as (l' & -> & E). exists l'. by rewrite app_nil_r. Qed.

Ltac six := split; [|split; [|split; [|split; [|split]]]].

Lemma ingest_loop_spec ctxErr clock : forall events i result p p' result' err,
  ingest_loop ctxErr clock i events result p = Some (p', result', err) -> exists n extra,
  effects clock i (take n events) p p' /\ logged p p' (take n events ++ extra) /\
  br_Accepted result' = br_Accepted result + Z.of_nat n /\
  br_SampledInGraph result' = br_SampledInGraph result + cnt (sampled p) (take n events) /\
  br_SampledOut result' = br_SampledOut result + cnt (fun ev => negb (sampled p ev)) (take n events) /\
  match err with
  | None => n = length events /\ extra = []
  | Some _ => exists ev, events !! n = Some ev /\ (extra = [] \/ extra = [ev])
  end.
Proof.
  assert (forall p, with_log p (pl_eventLog p) = p) as Hid by by intros [].
  assert (forall p, logged p p []) as Hln by (intros p; rewrite <- (Hid p) at 2; apply logged_nil; [done|eauto]).
  assert (forall i p, effects clock i [] p p) as Hen by (intros i p; rewrite <- (Hid p) at 2; apply effects_nil).
  induction events as [|ev events IH]; intros i result p p' result' err E; cbn [ingest_loop] in E.
  { injection E as <- <- <-. exists 0%nat, []. unfold cnt. cbn. six; [apply Hen|apply Hln|lia..|done]. }
  destruct (ctxErr i) as [cerr|].
  { injection E as <- <- <-. exists 0%nat, []. unfold cnt. cbn. six; [apply Hen|apply Hln|lia..|]. exists ev. auto. }
  cbv zeta in E.
  assert (exists log lerr, match pl_eventLog p with
      | Some l => let '(l, err) := sink_write l ev (sampled p ev) in (Some l, err) | None => (None, None) end = (log, lerr) /\
    match lerr with None => logged p (with_log p log) [ev] | Some _ => logged p (with_log p log) [] \/ logged p (with_log p log) [ev] end)
    as (log & lerr & El & Hl).
  { unfold logged. destruct (pl_eventLog p) as [l|]; [|by eexists _, None]. destruct (sink_write l ev _) as [l' lerr] eqn:Ew.
    exists (Some l'), lerr. split; [done|]. destruct lerr as [lerr|]; cbn.
    - apply sink_failed in Ew as [Ew|Ew]; [left|right]; exists l'; (split; [done|]); rewrite Ew; [by rewrite app_nil_r|done].
    - apply sink_ok in Ew. exists l'. split; [done|]. by rewrite Ew. }
  rewrite El in E. destruct lerr as [lerr|].
  { injection E as <- <- <-. destruct Hl as [Hl|Hl]; [exists 0%nat, []|exists 0%nat, [ev]]; unfold cnt; cbn;
      (six; [apply effects_nil|exact Hl|lia..|exists ev; auto]). }
  apply bind_Some in E as (p1 & Ea & E). destruct (after_log_same _ _ _ _ Ea) as [Hs Hlog]. cbn in Hs, Hlog.
  apply IH in E as (n & extra & He & Hlg & Ha & Hi & Ho & Hr). exists (S n), extra. cbn [take app length]. cbn [lookup list_lookup].
  rewrite !cnt_cons. split; [by eapply effects_cons|]. split.
  { eapply logged_cons; [exact Hs| |exact Hlg]. unfold logged in *. destruct (pl_eventLog p); rewrite Hlog; exact Hl. }
  rewrite (cnt_ext _ (sampled p)) in Hi by (intros; by apply sampled_config).
  rewrite (cnt_ext _ (fun ev => negb (sampled p ev))) in Ho by (intros; by rewrite (sampled_config p)).
  destruct (sampled p ev); cbn in *; (split; [lia|split; [lia|split; [lia|]]]); destruct err; try exact Hr; destruct Hr as [-> ->]; done.
Qed.

Definition passes (p : Pipeline) (ev : WideEvent) : bool :=
  match pl_validator p with Some v => match v ev with [] => true | _ => false end | None => true end.

Lemma validate_loop_spec p : forall events i valid errs, validate_loop (pl_validator p) i events = (valid, errs) ->
  valid = List.filter (passes p) events /\ (length errs + length valid = length events)%nat /\
  forall k reason, mkEventError (i + Z.of_nat k) reason ∈ errs <->
    exists ev v, pl_validator p = Some v /\ events !! k = Some ev /\ v ev <> [] /\ reason = errors_text (v ev).
Proof.
  assert (forall events i valid errs, validate_loop (pl_validator p) i events = (valid, errs) -> Forall (fun e => i <= ee_Index e) errs) as Hge.
  { induction events as [|ev events IH]; cbn; intros i valid errs E; [injection E as <- <-; constructor|].
    destruct (validate_loop _ _ events) as [valid0 errs0] eqn:E0. apply IH in E0.
    assert (Forall (fun e => i <= ee_Index e) errs0) by (eapply Forall_impl; [exact E0|]; cbn; lia).
    destruct (pl_validator p) as [v|]; [destruct (v ev)|]; injection E as <- <-; try done. constructor; [cbn; lia|done]. }
  induction events as [|ev events IH]; intros i valid errs E; cbn [validate_loop] in E.
  { injection E as <- <-. split; [done|split; [done|]]. intros k reason. split; [by intros ?%elem_of_nil|by intros (ev & v & _ & ? & _)]. }
  destruct (validate_loop _ _ events) as [valid0 errs0] eqn:E0. pose proof (Hge _ _ _ _ E0) as Hge0. apply IH in E0 as (-> & Hlen & Hin).
  assert (forall k reason, mkEventError (i + Z.of_nat (S k)) reason ∈ errs0 <-> exists ev v, pl_validator p = Some v /\
    events !! k = Some ev /\ v ev <> [] /\ reason = errors_text (v ev)) as Hin'.
  { intros k reason. rewrite <- Hin. by replace (i + Z.of_nat (S k)) with (i + 1 + Z.of_nat k) by lia. }
  assert (forall reason, mkEventError (i + Z.of_nat 0) reason ∉ errs0) as Hz.
  { intros reason Hx. rewrite Forall_forall in Hge0. specialize (Hge0 _ Hx). cbn in Hge0. lia. }
  unfold passes in *. cbn [List.filter]. destruct (pl_validator p) as [v|] eqn:Ev.
  - destruct (v ev) as [|ve ves] eqn:Eve; injection E as <- <-; cbn [length]; (split; [done|split; [lia|]]); intros [|k] reason; cbn [lookup list_lookup].
    + split; [by intros ?%Hz|]. intros (ev' & v' & [= <-] & [= <-] & Hn & _). by rewrite Eve in Hn.
    + apply Hin'.
    + rewrite elem_of_cons, Z.add_0_r. split.
      * intros [[= ->]|Hx]; [exists ev, v; rewrite Eve; done|]. destruct (Hz reason). by rewrite Z.add_0_r.
      * intros (ev' & v' & [= <-] & [= <-] & Hn & ->). left. by rewrite Eve.
    + rewrite elem_of_cons, Hin'. split; [|by right]. intros [[= Hx _]|Hx]; [lia|done].
  - injection E as <- <-. cbn [length]. split; [done|split; [lia|]]. intros [|k] reason; cbn [lookup list_lookup]; [|apply Hin'].
    split; [by intros ?%Hz|]. by intros (ev' & v' & ? & _).
Qed.

(** However a batch ends, its result accounts for what it did.  The rejections are
    exactly the events the validator refuses, each at its position with its errors; of the
    others, in order, a prefix of as many as Accepted was written to the log with the
    sampler's decision, counted, offered to the cold store and had its deployment recorded,
    and nothing else was, except that a log that fails may leave the event it failed on.
    Accepted is what was kept plus what was sampled out; without an error that is every
    valid event, and with one there is an event left. *)
Theorem ValidateAndIngestBatch_accounts ctxErr clock events p p' res err :
  ValidateAndIngestBatch ctxErr clock events p = Some (p', res, err) ->
  let valid := List.filter (passes p) events in
  let written := take (Z.to_nat (br_Accepted res)) valid in
  (forall k reason, mkEventError (Z.of_nat k) reason ∈ br_Errors res <->
     exists ev v, pl_validator p = Some v /\ events !! k = Some ev /\ v ev <> [] /\ reason = errors_text (v ev)) /\
  br_Rejected res = Z.of_nat (length (br_Errors res)) /\
  br_Rejected res + Z.of_nat (length valid) = Z.of_nat (length events) /\
  br_Accepted res = br_SampledInGraph res + br_SampledOut res /\
  br_SampledInGraph res = cnt (sampled p) written /\
  effects clock 0 written p p' /\
  match err with
  | None => br_Accepted res = Z.of_nat (length valid) /\ logged p p' written
  | Some _ => exists ev, valid !! Z.to_nat (br_Accepted res) = Some ev /\ (logged p p' written \/ logged p p' (written ++ [ev]))
  end.
Proof.
  unfold ValidateAndIngestBatch. destruct (validate_loop _ 0 events) as [valid errs] eqn:Ev. apply validate_loop_spec in Ev as (Hv & Hlen & Herr).
  intros E. rewrite <- Hv. cbv zeta.
  assert (exists sub, IngestBatch ctxErr clock valid p = Some (p', sub, err) /\
    res = mkBatchResult (br_Accepted sub) (br_SampledInGraph sub) (br_SampledOut sub) (Z.of_nat (length errs)) errs) as (sub & Es & ->).
  { destruct valid as [|ev valid]; [injection E as <- <- <-; by eexists|].
    apply bind_Some in E as ([[p1 sub] err1] & Es & E). injection E as <- <- <-. by exists sub. }
  apply ingest_loop_spec in Es as (n & extra & He & Hl & Ha & Hi & Ho & Hr). cbn [br_Accepted br_SampledInGraph br_SampledOut br_Rejected br_Errors] in *.
  assert (br_Accepted sub = Z.of_nat n) as -> by lia. rewrite Nat2Z.id.
  assert (n <= length valid)%nat as Hn.
  { destruct err; [destruct Hr as (ev & Hx & _); by apply Nat.lt_le_incl, (lookup_lt_Some _ _ _ Hx)|destruct Hr; lia]. }
  assert (cnt (sampled p) (take n valid) + cnt (fun ev => negb (sampled p ev)) (take n valid) = Z.of_nat n) as Hsum.
  { rewrite <- (firstn_length_le valid Hn) at 3. generalize (take n valid). intros k. induction k as [|x k IHk]; [done|].
    rewrite !cnt_cons. cbn [length]. destruct (sampled p x); cbn [negb Z.b2z]; lia. }
  split; [exact Herr|]. split; [done|]. split; [lia|]. split; [lia|]. split; [lia|]. split; [done|].
  destruct err as [err|].
  - destruct Hr as (ev & Hx & [-> | ->]); exists ev; (split; [done|]); [left|right]; [by rewrite app_nil_r in Hl|done].
  - destruct Hr as [-> ->]. split; [done|]. by rewrite app_nil_r in Hl.
Qed.
End Pipeline.

(** Events of one trace the sampler has no reason to keep are kept or dropped together. *)
Lemma ShouldKeep_trace c a b : oc_Success (we_Outcome a) = true -> oc_Success (we_Outcome b) = true ->
  we_LatencyMs a < sc_SlowMs c -> we_LatencyMs b < sc_SlowMs c -> us_VIP (we_User a) = false -> us_VIP (we_User b) = false ->
  rc_TraceID (we_Request a) = rc_TraceID (we_Request b) -> ShouldKeep c a = ShouldKeep c b.
Proof.
  intros Ha Hb H1 H2 H3 H4 E. unfold ShouldKeep, keepByHash. rewrite Ha, Hb, H3, H4, E. cbn.
  by rewrite (proj2 (Z.leb_gt _ _) H1), (proj2 (Z.leb_gt _ _) H2).
Qed.

(** A log with room for two entries. *)
#[export] Program Instance bounded_sink : EventSink (list (WideEvent * bool)) := {|
  sink_write l ev b := if (length l <? 2)%nat then (l ++ [(ev, b)], None) else (l, Some "disk full");
  sink_entries l := l
|}.
Next Obligation. intros l ev b l' E. cbn in E. case_match; by injection E as <-. Qed.
Next Obligation. intros l ev b l' err E. cbn in E. case_match; injection E as <-; auto. Qed.

#[export] Instance deploy_list : DeploymentStore (list Deployment) := {| UpsertDeployment l d := (l ++ [d], None) |}.

Definition demo_pipeline : Pipeline (L := list (WideEvent * bool)) (D := list Deployment) :=
  mkPipeline (Some (New (mkSamplerConfig 0 0 ""))) (Some []) (Some (NewBatchWriter (mkBatchWriterConfig 1 2 0))) (Some []) (Some newCounters) (Some 0)
    (Some (Validate id)).

Definition demo_batch : list WideEvent :=
  [plain_event "a" "" true; plain_event "" "" true; plain_event "b" "d1" true; plain_event "c" "" true].

(** A batch of four: one without a name, three valid; the log fails on the third valid one. *)
Lemma ValidateAndIngestBatch_accounts_witness : exists p' res,
  ValidateAndIngestBatch (fun _ => None) (fun _ => at_minute 3) demo_batch demo_pipeline = Some (p', res, Some "disk full") /\
  br_Accepted res = 2 /\ br_Rejected res = 1 /\ br_Accepted res = br_SampledInGraph res + br_SampledOut res /\
  exists ev, List.filter (passes demo_pipeline) demo_batch !! 2%nat = Some ev /\
    let written := take 2 (List.filter (passes demo_pipeline) demo_batch) in
    (logged demo_pipeline p' written \/ logged demo_pipeline p' (written ++ [ev])).
Proof.
  assert ((fun r => (br_Accepted r.1.2, br_Rejected r.1.2, r.2)) <$>
    ValidateAndIngestBatch (fun _ => None) (fun _ => at_minute 3) demo_batch demo_pipeline = Some (2, 1, Some "disk full")) as Hr
    by (vm_compute; reflexivity).
  destruct (ValidateAndIngestBatch _ _ _ _) as [[[p' res] err]|] eqn:E; [|discriminate Hr]. cbn [fmap option_fmap option_map fst snd] in Hr.
  injection Hr as Ha Hrej ->. pose proof (ValidateAndIngestBatch_accounts _ _ _ _ _ _ _ E) as (_ & _ & _ & Hs & _ & _ & Hl).
  rewrite Ha in Hl. exists p', res. split; [reflexivity|]. split; [exact Ha|]. split; [exact Hrej|]. split; [exact Hs|exact Hl].
Defined.
