(* ===== verification/SdkLife.v ===== *)
(** The life of the SDK ([pkg/waylog/v2/waylog.go], request.go, assemble.go): Init, Shutdown
    and Stats beside the requests of every goroutine.  Begin, a finalization and Shutdown are
    tasks that the scheduler interleaves between their locked sections; each SDK that Init
    ever made keeps its own requests and transport, whose worker is interleaved too. *)

From S2P Require Import Prelude GoRuntime GoText Types Transport Request RequestSpec Sdk Count.
Open Scope Z_scope.

(** ** Where events go *)

Definition trim_slashes (s : string) : string := String.rev (trim_left (String.length s) ["/"] (String.rev s)).

(** [url.Parse], down to scheme, host and path. *)
Definition UrlParser : Type := string -> option (string * string * string).

Definition NormalizeIngestURL (parse : UrlParser) (raw : string) : option string :=
  let raw := trim_slashes raw in
  if String.eqb raw "" then Some "" else
  match parse raw with
  | None => None
  | Some (scheme, host, path) =>
    if String.eqb scheme "" || String.eqb host "" then None
    else if negb (String.eqb scheme "http") && negb (String.eqb scheme "https") then None
    else if HasSuffix path "/v1/events" then Some raw else Some (raw +:+ "/v1/events")
  end.

Inductive dest :=
| Writer (out : list string)
| Client (url : string) (cfg : Config) (w : world).

Section Process.
Context (marshal : Event -> option string) (unmarshal_rejected : string -> option Z) (ParseTime : string -> option Time)
  (write_ok : string -> bool) (parse_url : UrlParser).

(** [deliver] past the rate limit: the client's [Submit], which an empty URL turns into a
    refusal, or a line on the local writer. *)
Definition dest_deliver (ev : Event) (d : dest) : option bool * dest :=
  match d with
  | Writer out => let '(res, out) := emit marshal write_ok ev out in (res, Writer out)
  | Client url cfg w =>
    if String.eqb url "" then (Some false, d) else
    (Some (fst (Submit marshal cfg ev (w_client w))), Client url cfg (default w (act marshal unmarshal_rejected ParseTime cfg (ASubmit ev) w)))
  end.

#[local] Instance dest_sink : Sink dest := {| sink_deliver := dest_deliver |}.

(** ** Configuration *)

Record InitConfig := mkInitConfig {
  ic_sdk : SdkConfig; ic_IngestURL : string; ic_MaxSteps : Z; ic_MaxLogs : Z; ic_MaxBufferBytes : Z;
  ic_MaxInFlightBytes : Z; ic_MaxRequestAge : Duration
}.

Definition defaultMaxSteps : Z := 128.
Definition defaultMaxLogs : Z := 256.
Definition defaultMaxBufferBytes : Z := 512 * 1024.

(** The client's configuration: batch mode, the cap, defaults for the rest. *)
Definition client_config (c : InitConfig) : Config := New_config (mkConfig true 0 0 0 0 (ic_MaxInFlightBytes c) 0).

(** An SDK of the process: its configuration and the [sync.Once] of its client's Shutdown. *)
Inductive once := NotCalled | Running | Called.
Record gen := mkGen { gn_cfg : InitConfig; gn_sdk : sdk dest; gn_closed : once }.

Definition fresh_sdk (c : InitConfig) (d : dest) : sdk dest :=
  mkSdk (ic_sdk c) (or_default (ic_MaxSteps c) defaultMaxSteps, or_default (ic_MaxLogs c) defaultMaxLogs,
    or_default (ic_MaxBufferBytes c) defaultMaxBufferBytes) zero_counts (mkRate 0 0) ∅ ∅ d.

(** ** The process *)

(** Where a goroutine is: in [Begin] with the SDK it read, in [finalize] after the seal or
    after it left the active set, in [Shutdown] polling, or closing a client and waiting for
    its worker. *)
Inductive task :=
| TBegin (g : nat)
| TSealed (g : nat) (p : positive) (ev : Event)
| TRemoved (g : nat) (p : positive) (ev : Event)
| TWait (g : nat)
| TClose (g : nat) (timeout : Duration)
| TDrain (g : nat) (timeout : Duration)
| TDone
| TTimedOut (n : Z).

Record process := mkProcess { pr_state : option nat; pr_sdks : list gen; pr_tasks : list task }.

Definition with_sdk (y : process) (g : nat) (f : gen -> gen) : process :=
  mkProcess (pr_state y) (alter f g (pr_sdks y)) (pr_tasks y).
Definition with_task (y : process) (i : nat) (t : task) : process :=
  mkProcess (pr_state y) (pr_sdks y) (<[i := t]> (pr_tasks y)).
Definition spawn (y : process) (t : task) : process := mkProcess (pr_state y) (pr_sdks y) (pr_tasks y ++ [t]).
Definition put_sdk (s : sdk dest) (x : gen) : gen := mkGen (gn_cfg x) s (gn_closed x).
Definition set_once (o : once) (x : gen) : gen := mkGen (gn_cfg x) (gn_sdk x) o.

Inductive initError := MissingService | MissingEnv | ErrAlreadyInitialized (n : Z) | InvalidIngestURL.

Definition n_active (s : sdk dest) : Z := Z.of_nat (size (k_active s)).

(** [Init]: the checks and the replacement are one section of [stateMu]; closing the client
    of the previous SDK, without a limit, comes after. *)
Definition Init (c : InitConfig) (y : process) : option initError * process :=
  if String.eqb (cfg_Service (ic_sdk c)) "" then (Some MissingService, y) else
  if String.eqb (cfg_Env (ic_sdk c)) "" then (Some MissingEnv, y) else
  let previous := g ← pr_state y; x ← pr_sdks y !! g; Some (g, x) in
  let n := match previous with Some (_, x) => n_active (gn_sdk x) | None => 0 end in
  if 0 <? n then (Some (ErrAlreadyInitialized n), y) else
  let delivery := if String.eqb (ic_IngestURL c) "" then Some (Writer [])
                  else url ← NormalizeIngestURL parse_url (ic_IngestURL c); Some (Client url (client_config c) world0) in
  match delivery with
  | None => (Some InvalidIngestURL, y)
  | Some d =>
    let y' := mkProcess (Some (length (pr_sdks y))) (pr_sdks y ++ [mkGen c (fresh_sdk c d) NotCalled]) (pr_tasks y) in
    (None, match previous with
           | Some (g, x) => match k_sink (gn_sdk x) with Client _ _ _ => spawn y' (TClose g 0) | Writer _ => y' end
           | None => y'
           end)
  end.

(** [remainingTimeout]: zero without a deadline, and once it has passed. *)
Definition remainingTimeout (deadline : option Time) (now : Time) : Duration :=
  match deadline with Some d => let left := TimeSub d now in if left <? 0 then 0 else left | None => 0 end.

Inductive event :=
| LInit (c : InitConfig)
| LBegin
| LInsert (i : nat) (p : positive) (opts : BeginOptions) (eventID traceID spanID : string) (clock : Time)
| LOp (g : nat) (p : positive) (o : op)
| LSeal (g : nat) (p : positive) (k : lifecycleKind) (mark tsEnd : Time)
| LRemove (i : nat)
| LDeliver (i : nat) (now : Z)
| LShutdown
| LPoll (i : nat) (deadline : option Time) (now : Time)
| LGiveUp (i : nat)
| LClose (i : nat)
| LDrained (i : nat)
| LTimeout (i : nat)
| LWorker (g : nat) (a : action).

(** The worker's own actions. *)
Definition of_worker (a : action) : bool := match a with ASubmit _ | AShutdown => false | _ => true end.

Definition with_sink (s : sdk dest) (d : dest) : sdk dest :=
  mkSdk (k_cfg s) (k_limits s) (k_counts s) (k_rate s) (k_requests s) (k_active s) d.

(** The transport of an SDK does [a]. *)
Definition transport (a : action) (x : gen) : option gen :=
  match k_sink (gn_sdk x) with
  | Client url cfg w => w ← act marshal unmarshal_rejected ParseTime cfg a w; Some (put_sdk (with_sink (gn_sdk x) (Client url cfg w)) x)
  | Writer _ => None
  end.

(** The end of [finalize]: delivery and its counters. *)
Definition deliver_counted (now : Z) (ev : Event) (s : sdk dest) : sdk dest :=
  let '(res, s) := deliver now ev s in
  match res with
  | None => s
  | Some accepted =>
    let s := count_when accepted CEmitted s in
    count_when (accepted && String.eqb (ev_Status ev) StatusSuppressed) CSuppressed s
  end.

Definition remove_active (p : positive) (s : sdk dest) : sdk dest :=
  mkSdk (k_cfg s) (k_limits s) (k_counts s) (k_rate s) (k_requests s) (k_active s ∖ {[p]}) (k_sink s).

Definition is_drained (x : gen) : bool := match k_sink (gn_sdk x) with Client _ _ w => w_drained w | Writer _ => true end.

(** One locked section of one goroutine, or one turn of a worker. *)
Definition life_step (e : event) (y : process) : option process :=
  match e with
  | LInit c => Some (Init c y).2
  | LBegin => match pr_state y with Some g => Some (spawn y (TBegin g)) | None => Some y end
  | LInsert i p opts eventID traceID spanID clock =>
    match pr_tasks y !! i with
    | Some (TBegin g) =>
      x ← pr_sdks y !! g;
      if decide (is_Some (k_requests (gn_sdk x) !! p)) then None else
      Some (with_task (with_sdk y g (put_sdk (Begin p opts eventID traceID spanID clock (gn_sdk x)))) i TDone)
    | _ => None
    end
  | LOp g p o =>
    x ← pr_sdks y !! g; s ← on_request p o (gn_sdk x); Some (with_sdk y g (put_sdk s))
  | LSeal g p k mark tsEnd =>
    x ← pr_sdks y !! g;
    let s := gn_sdk x in
    r ← k_requests s !! p;
    let '(oev, (r, c)) := seal (k_cfg s) k mark tsEnd (r, k_counts s) in
    let y := with_sdk y g (put_sdk (set_request s p r c)) in
    Some (match oev with Some ev => spawn y (TSealed g p ev) | None => y end)
  | LRemove i =>
    match pr_tasks y !! i with
    | Some (TSealed g p ev) => x ← pr_sdks y !! g; Some (with_task (with_sdk y g (put_sdk (remove_active p (gn_sdk x)))) i (TRemoved g p ev))
    | _ => None
    end
  | LDeliver i now =>
    match pr_tasks y !! i with
    | Some (TRemoved g p ev) => x ← pr_sdks y !! g; Some (with_task (with_sdk y g (put_sdk (deliver_counted now ev (gn_sdk x)))) i TDone)
    | _ => None
    end
  | LShutdown => match pr_state y with Some g => Some (spawn y (TWait g)) | None => Some y end
  | LPoll i deadline now =>
    match pr_tasks y !! i with
    | Some (TWait g) =>
      x ← pr_sdks y !! g;
      if n_active (gn_sdk x) =? 0 then
        Some (with_task y i (match k_sink (gn_sdk x) with Client _ _ _ => TClose g (remainingTimeout deadline now) | Writer _ => TDone end))
      else Some y
    | _ => None
    end
  | LGiveUp i =>
    match pr_tasks y !! i with
    | Some (TWait g) => x ← pr_sdks y !! g; Some (with_task y i (TTimedOut (n_active (gn_sdk x))))
    | _ => None
    end
  | LClose i =>
    match pr_tasks y !! i with
    | Some (TClose g timeout) =>
      x ← pr_sdks y !! g;
      match gn_closed x with
      | NotCalled => x' ← transport AShutdown x; Some (with_task (with_sdk y g (fun _ => set_once Running x')) i (TDrain g timeout))
      | Running => None
      | Called => Some (with_task y i TDone)
      end
    | _ => None
    end
  | LDrained i =>
    match pr_tasks y !! i with
    | Some (TDrain g _) => x ← pr_sdks y !! g; if is_drained x then Some (with_task (with_sdk y g (set_once Called)) i TDone) else None
    | _ => None
    end
  | LTimeout i =>
    match pr_tasks y !! i with
    | Some (TDrain g timeout) => if 0 <? timeout then Some (with_task (with_sdk y g (set_once Called)) i TDone) else None
    | _ => None
    end
  | LWorker g a =>
    if of_worker a then x ← pr_sdks y !! g; x' ← transport a x; Some (with_sdk y g (fun _ => x')) else None
  end.

Fixpoint life_run (l : list event) (y : process) : option process :=
  match l with [] => Some y | e :: l => y ← life_step e y; life_run l y end.

Definition start : process := mkProcess None [] [].

(** ** Stats *)

Record StatsSnapshot := mkStats {
  st_ActiveRequests : Z; st_EventsEmitted : Z; st_EventsSuppressed : Z; st_StepsDropped : Z; st_LogsDropped : Z;
  st_BytesDroppedFromBuffer : Z; st_BufferOverflows : Z; st_ReservedCodeRejections : Z; st_SuppressedThenFailed : Z;
  st_LateCompletionAfterEmit : Z; st_EventsDropped : Z; st_DeliveryFailures : Z; st_EventsRejected : Z; st_DeprecatedSchemaResponses : Z
}.

Definition of_client (f : client -> Z) (s : sdk dest) : Z := match k_sink s with Client _ _ w => f (w_client w) | Writer _ => 0 end.

Definition stats_of (s : sdk dest) : StatsSnapshot :=
  let c := k_counts s in
  mkStats (n_active s) (c CEmitted) (c CSuppressed) (c CStepsDropped) (c CLogsDropped) (c CBytesDropped) (c CBufferOverflows)
    (c CReservedRejected) (c CSuppressFailed) (c CLateAfterEmit) (wrap64 (c CEventsDropped + of_client dropped s))
    (of_client failures s) (of_client rejected s) (of_client deprecated s).

Definition Stats (y : process) : StatsSnapshot :=
  match (g ← pr_state y; pr_sdks y !! g) with Some x => stats_of (gn_sdk x) | None => mkStats 0 0 0 0 0 0 0 0 0 0 0 0 0 0 end.

Definition MaxRequestAge (y : process) : Duration :=
  match (g ← pr_state y; pr_sdks y !! g) with Some x => ic_MaxRequestAge (gn_cfg x) | None => 0 end.
End Process.

(** ** The counter of rate-limited events is only touched by deliveries *)

Definition calm (c c' : counts) : Prop := c' CEventsDropped = c CEventsDropped.

Lemma calm_bump k n c : k <> CEventsDropped -> calm c (bump k n c).
Proof. intros H. unfold calm, bump. rewrite decide_False by congruence. done. Qed.

Lemma calm_trans c1 c2 c3 : calm c1 c2 -> calm c2 c3 -> calm c1 c3.
Proof. unfold calm. congruence. Qed.

Ltac calm := repeat (first [reflexivity | eassumption | eapply calm_trans; [|apply calm_bump; discriminate]]).

Lemma calm_drop_info l : forall b c kept b' c', drop_info l b c = (kept, b', c') -> calm c c'.
Proof.
  induction l as [|x l IH]; cbn; intros b c kept b' c' E; [by injection E as _ _ <-|]. destruct (String.eqb _ _).
  - apply IH in E. refine (calm_trans _ _ _ _ E). calm.
  - destruct (drop_info l b c) as [[k b1] c1] eqn:E1. injection E as _ _ <-. eauto.
Qed.

Lemma calm_drop_ok a l : forall b c kept b' c', drop_ok a l b c = (kept, b', c') -> calm c c'.
Proof.
  induction l as [|x l IH]; cbn; intros b c kept b' c' E; [by injection E as _ _ <-|]. destruct (droppable _ _).
  - apply IH in E. refine (calm_trans _ _ _ _ E). calm.
  - destruct (drop_ok a l b c) as [[k b1] c1] eqn:E1. injection E as _ _ <-. eauto.
Qed.

Lemma calm_fold {A} (f : counts -> A -> counts) l : (forall c x, calm c (f c x)) -> forall c, calm c (fold_left f l c).
Proof. intros H. induction l as [|x l IH]; intros c; [done|]. cbn. eapply calm_trans; [apply H|apply IH]. Qed.

Lemma calm_drop_logs r c r' c' : dropOkLogsLocked (r, c) = (r', c') -> calm c c'.
Proof. unfold dropOkLogsLocked. destruct (drop_info _ _ _) as [[k b] c1] eqn:E. intros [= _ <-]. by eapply calm_drop_info. Qed.

Lemma calm_drop_steps r c r' c' : dropOkStepsLocked (r, c) = (r', c') -> calm c c'.
Proof. unfold dropOkStepsLocked. destruct (drop_ok _ _ _ _) as [[k b] c1] eqn:E. intros [= _ <-]. by eapply calm_drop_ok. Qed.

Lemma calm_degrade r c r' c' : degradeToHeaderOnlyLocked (r, c) = (r', c') -> calm c c'.
Proof.
  unfold degradeToHeaderOnlyLocked. case_match; intros [= _ <-]; [done|].
  apply (calm_trans _ (bump CBufferOverflows 1 c)); [by apply calm_bump|]. eapply calm_trans; [apply (calm_fold (fun c l => bump CBytesDropped (logBytes l) c) (logs r))|apply (calm_fold (fun c s => bump CBytesDropped (stepBytes s) c) (steps r))]; intros; by apply calm_bump.
Qed.

Lemma calm_push_step s r c r' c' : pushStepBuf s (r, c) = (r', c') -> calm c c'.
Proof.
  unfold pushStepBuf, evictOldestOkStepLocked. repeat case_match; intros; simplify_eq; calm.
Qed.

Lemma calm_push_log s r c r' c' : pushLogBuf s (r, c) = (r', c') -> calm c c'.
Proof. unfold pushLogBuf, evictOldestInfoLogLocked. repeat case_match; intros; simplify_eq; calm. Qed.

Lemma calm_add_step s r c r' c' : addStepLocked s (r, c) = (r', c') -> calm c c'.
Proof.
  unfold addStepLocked. destruct (headerOnly _); [intros [= _ <-]; calm|]. destruct (over_bytes _ _); [|apply calm_push_step].
  destruct (dropOkLogsLocked _) as [r1 c1] eqn:E1. apply calm_drop_logs in E1. unfold calm in E1.
  assert (forall r2 c2, (if over_bytes r1 (stepBytes s) then dropOkStepsLocked (r1, c1) else (r1, c1)) = (r2, c2) -> calm c c2) as H2.
  { intros r2 c2. case_match; [intros E%calm_drop_steps; unfold calm in *; congruence|by intros [= _ <-]]. }
  destruct (if over_bytes r1 _ then _ else _) as [r2 c2]. specialize (H2 _ _ eq_refl). destruct (over_bytes r2 _).
  - destruct (String.eqb _ _); [intros [= _ <-]; calm|]. destruct (degradeToHeaderOnlyLocked _) as [r3 c3] eqn:E3. apply calm_degrade in E3.
    intros [= _ <-]. eapply calm_trans; [eapply calm_trans; eassumption|]. calm.
  - intros E%calm_push_step. by eapply calm_trans.
Qed.

Lemma calm_add_log s r c r' c' : addLogLocked s (r, c) = (r', c') -> calm c c'.
Proof.
  unfold addLogLocked. destruct (headerOnly _); [intros [= _ <-]; calm|]. destruct (over_bytes _ _); [|apply calm_push_log].
  destruct (dropOkLogsLocked _) as [r1 c1] eqn:E1. apply calm_drop_logs in E1. destruct (over_bytes r1 _).
  - destruct (String.eqb _ _); [intros [= _ <-]; calm|]. destruct (degradeToHeaderOnlyLocked _) as [r3 c3] eqn:E3. apply calm_degrade in E3.
    intros [= _ <-]. eapply calm_trans; [eapply calm_trans; eassumption|]. calm.
  - intros E%calm_push_log. by eapply calm_trans.
Qed.

Lemma calm_op o r c r' c' : run_op o (r, c) = Some (r', c') -> calm c c'.
Proof.
  destruct o; cbn [run_op]; try (by intros [= _ <-]).
  - unfold closeStep. intros ([[status w] c1] & E1 & E)%bind_Some.
    assert (calm c c1) as H1.
    { destruct err as [e|]; [|by simplify_eq]. apply bind_Some in E1 as ([w1 c2] & E2 & E1). injection E1 as _ _ <-.
      unfold step_error in E2. repeat case_match; simplify_eq; try done; unfold recordReservedRejection; calm. }
    destruct (popStackLocked _ _) as [a stack]. case_match; [by injection E as _ <-|]. apply (inj Some), calm_add_step in E.
    by eapply calm_trans.
  - intros E. apply (inj Some) in E. unfold Fail in E. repeat case_match; simplify_eq; unfold recordReservedRejection; calm.
  - intros E. apply (inj Some) in E. unfold appendLog in E. case_match; [by injection E as _ <-|]. by apply calm_add_log in E.
Qed.

Lemma calm_flush now l : forall r c r' c', fold_left (flush_one now) l (r, c) = (r', c') -> calm c c'.
Proof.
  induction l as [|a l IH]; intros r c r' c' E; [by injection E as _ <-|]. cbn in E. destruct (flush_one now (r, c) a) as [r1 c1] eqn:E1.
  apply calm_add_step in E1. eapply calm_trans; [exact E1|eauto].
Qed.

Lemma calm_seal cfg k mark tsEnd r c oev r' c' : seal cfg k mark tsEnd (r, c) = (oev, (r', c')) -> calm c c'.
Proof.
  unfold seal. case_match; [intros [= _ _ <-]; calm|]. destruct (applyLifecycleLocked mark k (r, c)) as [r1 c1] eqn:E. intros [= _ _ <-].
  unfold applyLifecycleLocked, flushActiveStepsLocked in E.
  case_match; [by injection E as _ <-|]. destruct k; [by injection E as _ <-|..];
    (destruct (fold_left _ _ _) as [r2 c2] eqn:E2; injection E as _ <-; by apply calm_flush in E2).
Qed.

(** ** Every request is accounted for *)

Definition open_requests (s : sdk dest) : Z := cnt_map (fun r => negb (sealed r)) (k_requests s).
Definition is_sealed (g : nat) (t : task) : bool := match t with TSealed g' _ _ => Nat.eqb g' g | _ => false end.
Definition finalizing (g : nat) (t : task) : bool :=
  match t with TSealed g' _ _ | TRemoved g' _ _ => Nat.eqb g' g | _ => false end.

Lemma open_insert s s' p r : k_requests s' = <[p := r]> (k_requests s) ->
  open_requests s' = open_requests s - match k_requests s !! p with Some r0 => Z.b2z (negb (sealed r0)) | None => 0 end + Z.b2z (negb (sealed r)).
Proof. intros E. unfold open_requests. by rewrite E, cnt_map_insert. Qed.

Section Accounts.
Context (marshal : Event -> option string) (un : string -> option Z) (pt : string -> option Time)
  (write_ok : string -> bool) (parse_url : UrlParser) (Henc : forall ev, marshal ev <> None).

#[local] Existing Instance dest_sink.

(** What of the requests reached the end of [finalize]: refused by the rate limit, or handed
    to the client. *)
Definition settled (s : sdk dest) : Z := k_counts s CEventsDropped + match k_sink s with Client _ _ w => w_submitted w | Writer _ => 0 end.

Definition networked (s : sdk dest) : Prop := match k_sink s with Client url _ _ => url <> "" | Writer _ => False end.

Record gen_ok (tasks : list task) (g : nat) (x : gen) : Prop := {
  go_open : forall p r, k_requests (gn_sdk x) !! p = Some r -> sealed r = false -> p ∈ k_active (gn_sdk x);
  go_known : forall p, p ∈ k_active (gn_sdk x) -> is_Some (k_requests (gn_sdk x) !! p);
  go_sealed : forall i p ev, tasks !! i = Some (TSealed g p ev) ->
    p ∈ k_active (gn_sdk x) /\ exists r, k_requests (gn_sdk x) !! p = Some r /\ sealed r = true;
  go_once : forall i j p ev ev', tasks !! i = Some (TSealed g p ev) -> tasks !! j = Some (TSealed g p ev') -> i = j;
  go_active : n_active (gn_sdk x) = open_requests (gn_sdk x) + cnt (is_sealed g) tasks;
  go_account : networked (gn_sdk x) ->
    eq64 (Z.of_nat (size (k_requests (gn_sdk x)))) (open_requests (gn_sdk x) + cnt (finalizing g) tasks + settled (gn_sdk x));
  go_client : forall url cfg w, k_sink (gn_sdk x) = Client url cfg w ->
    cfg = client_config (gn_cfg x) /\ reachable marshal un pt cfg (encodable marshal) w
}.

(** Tasks that are not finalizing requests of [g] come and go freely. *)
Lemma gen_ok_tasks tasks tasks' g x : gen_ok tasks g x ->
  (forall i p ev, tasks' !! i = Some (TSealed g p ev) -> tasks !! i = Some (TSealed g p ev)) ->
  cnt (is_sealed g) tasks' = cnt (is_sealed g) tasks -> cnt (finalizing g) tasks' = cnt (finalizing g) tasks -> gen_ok tasks' g x.
Proof.
  intros [H1 H2 H3 H4 H5 H6 H7] Ht Hs Hf. constructor; try done; rewrite ?Hs, ?Hf; try done; [|]; intros; eauto.
Qed.

Definition neutral (g : nat) (t : task) : Prop := finalizing g t = false.

Lemma neutral_sealed g t : neutral g t -> is_sealed g t = false.
Proof. by destruct t. Qed.

Lemma gen_ok_snoc tasks t g x : gen_ok tasks g x -> neutral g t -> gen_ok (tasks ++ [t]) g x.
Proof.
  intros H Ht. apply (gen_ok_tasks tasks); [done| | |].
  - intros i p ev Hi. apply lookup_app_Some in Hi as [Hi|[Hi Hx]]; [done|]. destruct (i - length tasks)%nat as [|k]; [|done].
    injection Hx as ->. unfold neutral in Ht. cbn in Ht. by rewrite Nat.eqb_refl in Ht.
  - rewrite cnt_app, cnt_cons, (neutral_sealed _ _ Ht). unfold cnt at 2. cbn. lia.
  - rewrite cnt_app, cnt_cons, Ht. unfold cnt at 2. cbn. lia.
Qed.

Lemma gen_ok_set tasks i t t' g x : gen_ok tasks g x -> tasks !! i = Some t -> neutral g t -> neutral g t' -> gen_ok (<[i := t']> tasks) g x.
Proof.
  intros H Hi Ht Ht'. apply (gen_ok_tasks tasks); [done| | |].
  - intros j p ev Hj. destruct (decide (i = j)) as [<-|Hne]; [|by rewrite list_lookup_insert_ne in Hj].
    rewrite list_lookup_insert_eq in Hj by (by eapply lookup_lt_Some). injection Hj as ->. unfold neutral in Ht'. cbn in Ht'. by rewrite Nat.eqb_refl in Ht'.
  - rewrite (cnt_insert _ _ _ _ _ Hi), (neutral_sealed _ _ Ht), (neutral_sealed _ _ Ht'). lia.
  - rewrite (cnt_insert _ _ _ _ _ Hi), Ht, Ht'. cbn. lia.
Qed.

(** A request changes without being sealed. *)
Lemma gen_ok_request tasks g x p r r' c : gen_ok tasks g x -> k_requests (gn_sdk x) !! p = Some r -> sealed r' = sealed r ->
  calm (k_counts (gn_sdk x)) c -> gen_ok tasks g (put_sdk (set_request (gn_sdk x) p r' c) x).
Proof.
  intros [H1 H2 H3 H4 H5 H6 H7] Hr Hs Hc.
  assert (open_requests (set_request (gn_sdk x) p r' c) = open_requests (gn_sdk x)) as Ho.
  { rewrite (open_insert (gn_sdk x) _ p r') by done. rewrite Hr, Hs. lia. }
  constructor; cbn [gn_sdk gn_cfg put_sdk]; try done.
  - intros q rq Hq Hsq. cbn in *. destruct (decide (p = q)) as [<-|Hne]; [|rewrite lookup_insert_ne in Hq by done; eauto].
    rewrite lookup_insert_eq in Hq. injection Hq as <-. eapply H1; [done|congruence].
  - intros q Hq. cbn. destruct (decide (p = q)) as [<-|Hne]; [rewrite lookup_insert_eq; eauto|rewrite lookup_insert_ne by done; auto].
  - intros i q ev Hi. destruct (H3 i q ev Hi) as (Ha & rq & Hq & Hsq). split; [done|]. cbn.
    destruct (decide (p = q)) as [<-|Hne]; [|rewrite lookup_insert_ne by done; eauto].
    rewrite lookup_insert_eq. eexists. split; [done|]. congruence.
  - rewrite Ho. exact H5.
  - intros Hn. rewrite Ho. cbn [k_requests set_request]. rewrite map_size_insert_Some by eauto.
    unfold settled. cbn. rewrite Hc. exact (H6 Hn).
Qed.

Lemma act_reachable cfg a w w' : of_worker a = true \/ a = AShutdown -> act marshal un pt cfg a w = Some w' ->
  w_submitted w' = w_submitted w /\ (reachable marshal un pt cfg (encodable marshal) w -> reachable marshal un pt cfg (encodable marshal) w').
Proof.
  intros Ha E. split.
  - assert (forall f st, do_take cfg f st w = Some w' -> w_submitted w' = w_submitted w) as Htake.
    { intros f st E1. apply bind_Some in E1 as ([out c] & _ & E1). by injection E1 as <-. }
    destruct a; cbn [act] in E.
    + by destruct Ha.
    + by injection E as <-.
    + destruct (idle w); [eauto|done].
    + destruct (_ && _); [eauto|done].
    + destruct (w_sleeping w); [done|]. destruct (w_pending w); [done|]. destruct (Transport.deliver _ _ _ _ _ _ _) as [[res retry] c].
      by injection E as <-.
    + apply bind_Some in E as (b & _ & E). by injection E as <-.
    + destruct (_ && _); [|done]. by injection E as <-.
  - intros Hr. eapply reach_act; [exact Hr| |exact E]. destruct a; try done. by destruct Ha.
Qed.

(** The worker and the close. *)
Lemma gen_ok_transport tasks g x a x' : gen_ok tasks g x -> of_worker a = true \/ a = AShutdown ->
  transport marshal un pt a x = Some x' -> gen_ok tasks g x' /\ gn_cfg x' = gn_cfg x.
Proof.
  intros [H1 H2 H3 H4 H5 H6 H7] Ha E. unfold transport in E. destruct (k_sink (gn_sdk x)) as [|url cfg w] eqn:Es; [done|].
  apply bind_Some in E as (w' & Ew & E). injection E as <-. destruct (act_reachable _ _ _ _ Ha Ew) as [Hsub Hre].
  split; [|done]. constructor; cbn [gn_sdk gn_cfg put_sdk]; try done.
  - intros Hn. unfold settled. cbn. rewrite Hsub. unfold settled, networked in *. rewrite Es in H6. exact (H6 Hn).
  - intros url' cfg' w1 [= <- <- <-]. destruct (H7 _ _ _ eq_refl) as [-> Hr]. split; [done|]. by apply Hre.
Qed.

Lemma gen_ok_begin tasks g x p opts e t sp clock : gen_ok tasks g x -> k_requests (gn_sdk x) !! p = None ->
  gen_ok tasks g (put_sdk (Begin p opts e t sp clock (gn_sdk x)) x).
Proof.
  intros [H1 H2 H3 H4 H5 H6 H7] Hp. unfold Begin. destruct (k_limits (gn_sdk x)) as [[ms ml] mb] eqn:El. cbv zeta. set (r := newRequest _).
  set (s := mkSdk _ _ _ _ _ _ _).
  assert (sealed r = false) as Hr by done.
  assert (p ∉ k_active (gn_sdk x)) as Hn by (intros Hin; destruct (H2 _ Hin); congruence).
  assert (open_requests s = open_requests (gn_sdk x) + 1) as Ho.
  { rewrite (open_insert (gn_sdk x) s p r) by done. rewrite Hp, Hr. cbn. lia. }
  constructor; cbn [gn_sdk gn_cfg put_sdk].
  - intros q rq Hq Hsq. cbn in *. destruct (decide (p = q)) as [<-|Hne]; [set_solver|]. rewrite lookup_insert_ne in Hq by done.
    apply elem_of_union_r. eauto.
  - intros q Hq. cbn in *. destruct (decide (p = q)) as [<-|Hne]; [rewrite lookup_insert_eq; eauto|rewrite lookup_insert_ne by done].
    apply H2. set_solver.
  - intros i q ev Hi. destruct (H3 i q ev Hi) as (Ha & rq & Hq & Hsq). cbn. split; [set_solver|]. exists rq. split; [|done].
    rewrite lookup_insert_ne; [done|]. intros <-. congruence.
  - done.
  - rewrite Ho. unfold n_active. cbn [k_active s]. rewrite size_union by set_solver. rewrite size_singleton. unfold n_active in H5. lia.
  - intros Hnet. rewrite Ho. cbn [k_requests s]. rewrite map_size_insert_None by done.
    replace (Z.of_nat (S (size (k_requests (gn_sdk x))))) with (Z.of_nat (size (k_requests (gn_sdk x))) + 1) by lia.
    rewrite (H6 Hnet). change (settled s) with (settled (gn_sdk x)). apply eq_subrelation; [typeclasses eauto|]. lia.
  - done.
Qed.

Lemma gen_ok_seal tasks g x p r r' c ev : gen_ok tasks g x -> k_requests (gn_sdk x) !! p = Some r -> sealed r = false -> sealed r' = true ->
  calm (k_counts (gn_sdk x)) c -> gen_ok (tasks ++ [TSealed g p ev]) g (put_sdk (set_request (gn_sdk x) p r' c) x).
Proof.
  intros [H1 H2 H3 H4 H5 H6 H7] Hr Hs Hs' Hc. set (s := set_request _ _ _ _).
  assert (open_requests s = open_requests (gn_sdk x) - 1) as Ho.
  { rewrite (open_insert (gn_sdk x) s p r') by done. rewrite Hr, Hs, Hs'. cbn. lia. }
  assert (forall i q e, (tasks ++ [TSealed g p ev]) !! i = Some (TSealed g q e) -> tasks !! i = Some (TSealed g q e) \/ (i = length tasks /\ q = p)) as Hl.
  { intros i q e Hi. apply lookup_app_Some in Hi as [Hi|[Hi Hx]]; [by left|right]. destruct (i - length tasks)%nat as [|k] eqn:Ek; [|done].
    injection Hx as -> _. split; [lia|done]. }
  assert (forall i e, tasks !! i <> Some (TSealed g p e)) as Hno.
  { intros i e Hi. destruct (H3 _ _ _ Hi) as (_ & r1 & Hr1 & Hs1). congruence. }
  constructor; cbn [gn_sdk gn_cfg put_sdk].
  - intros q rq Hq Hsq. cbn in *. destruct (decide (p = q)) as [<-|Hne]; [rewrite lookup_insert_eq in Hq; congruence|].
    rewrite lookup_insert_ne in Hq by done. eauto.
  - intros q Hq. cbn. destruct (decide (p = q)) as [<-|Hne]; [rewrite lookup_insert_eq; eauto|rewrite lookup_insert_ne by done; auto].
  - intros i q e Hi. cbn. destruct (Hl _ _ _ Hi) as [Hi'|[_ ->]].
    + destruct (H3 i q e Hi') as (Ha & rq & Hq & Hsq). split; [done|]. exists rq. split; [|done]. rewrite lookup_insert_ne; [done|].
      intros <-. congruence.
    + split; [eauto|]. rewrite lookup_insert_eq. eauto.
  - intros i j q e e' Hi Hj. destruct (Hl _ _ _ Hi) as [Hi'|[-> ->]], (Hl _ _ _ Hj) as [Hj'|[-> Hq]]; try done; [eauto|subst q; by destruct (Hno i e)|by destruct (Hno j e')].
  - rewrite Ho, cnt_app, cnt_cons. cbn [is_sealed]. rewrite Nat.eqb_refl. unfold cnt at 2. cbn. change (n_active s) with (n_active (gn_sdk x)). lia.
  - intros Hnet. rewrite Ho, cnt_app, cnt_cons. cbn [finalizing]. rewrite Nat.eqb_refl. cbn [k_requests set_request s].
    rewrite map_size_insert_Some by eauto. rewrite (H6 Hnet).
    assert (settled s = settled (gn_sdk x)) as -> by (unfold settled; cbn; by rewrite Hc).
    apply eq_subrelation; [typeclasses eauto|]. unfold cnt at 3. cbn. lia.
  - done.
Qed.

Lemma gen_ok_remove tasks i g x p ev : gen_ok tasks g x -> tasks !! i = Some (TSealed g p ev) ->
  gen_ok (<[i := TRemoved g p ev]> tasks) g (put_sdk (remove_active p (gn_sdk x)) x).
Proof.
  intros [H1 H2 H3 H4 H5 H6 H7] Hi. destruct (H3 _ _ _ Hi) as (Ha & r & Hr & Hs).
  assert (forall j q e, <[i := TRemoved g p ev]> tasks !! j = Some (TSealed g q e) -> i <> j /\ tasks !! j = Some (TSealed g q e)) as Hl.
  { intros j q e Hj. destruct (decide (i = j)) as [<-|Hne]; [|by rewrite list_lookup_insert_ne in Hj].
    by rewrite list_lookup_insert_eq in Hj by (by eapply lookup_lt_Some). }
  constructor; cbn [gn_sdk gn_cfg put_sdk].
  - intros q rq Hq Hsq. cbn in *. apply elem_of_difference. split; [eauto|]. rewrite elem_of_singleton. intros ->. congruence.
  - intros q Hq. cbn in *. apply H2. set_solver.
  - intros j q e Hj. destruct (Hl _ _ _ Hj) as [Hne Hj']. destruct (H3 _ _ _ Hj') as [Hq Hx]. split; [|exact Hx]. cbn.
    apply elem_of_difference. split; [done|]. rewrite elem_of_singleton. intros ->. apply Hne. eapply H4; eassumption.
  - intros j k q e e' Hj Hk. destruct (Hl _ _ _ Hj) as [_ Hj'], (Hl _ _ _ Hk) as [_ Hk']. eauto.
  - rewrite (cnt_insert _ _ _ _ _ Hi). cbn [is_sealed]. rewrite Nat.eqb_refl. unfold n_active in *. cbn [k_active remove_active].
    rewrite size_difference by set_solver. rewrite size_singleton.
    change (open_requests (remove_active p (gn_sdk x))) with (open_requests (gn_sdk x)).
    assert (size ({[p]} : gset positive) <= size (k_active (gn_sdk x)))%nat as Hsz by (apply subseteq_size; set_solver).
    rewrite size_singleton in Hsz. cbn. lia.
  - intros Hnet. rewrite (cnt_insert _ _ _ _ _ Hi). cbn [finalizing]. rewrite Nat.eqb_refl, Z.sub_add. exact (H6 Hnet).
  - done.
Qed.

Lemma deliver_counted_spec now ev s : k_requests (deliver_counted marshal un pt write_ok now ev s) = k_requests s /\
  k_active (deliver_counted marshal un pt write_ok now ev s) = k_active s /\
  match k_sink s with
  | Client url cfg w => exists w', k_sink (deliver_counted marshal un pt write_ok now ev s) = Client url cfg w' /\
      (reachable marshal un pt cfg (encodable marshal) w -> reachable marshal un pt cfg (encodable marshal) w')
  | Writer _ => exists out, k_sink (deliver_counted marshal un pt write_ok now ev s) = Writer out
  end /\
  (networked s -> eq64 (settled (deliver_counted marshal un pt write_ok now ev s)) (settled s + 1)).
Proof.
  unfold deliver_counted.
  assert (forall b k (s : sdk dest), k <> CEventsDropped -> k_counts (count_when b k s) CEventsDropped = k_counts s CEventsDropped) as Hcw.
  { intros [] k s1 Hk; [|done]. cbn. apply calm_bump. congruence. }
  assert (forall (res : option bool) s1, let s2 := match res with None => s1 | Some accepted =>
      count_when (accepted && String.eqb (ev_Status ev) StatusSuppressed) CSuppressed (count_when accepted CEmitted s1) end in
    k_requests s2 = k_requests s1 /\ k_active s2 = k_active s1 /\ k_sink s2 = k_sink s1 /\ settled s2 = settled s1) as Hres.
  { intros [acc|] s1; [|done]. cbn zeta. destruct (count_when_frame acc CEmitted s1) as (E1 & E2 & E3).
    destruct (count_when_frame (acc && String.eqb (ev_Status ev) StatusSuppressed) CSuppressed (count_when acc CEmitted s1)) as (E4 & E5 & E6).
    rewrite E4, E5, E6, E1, E2, E3. repeat (split; [done|]). unfold settled. by rewrite E6, E3, !Hcw by done. }
  unfold Sdk.deliver. destruct (allowEvent _ _ _ _) as [ok rt]. destruct ok; cbn [negb].
  - change (sink_deliver ev (k_sink s)) with (dest_deliver marshal un pt write_ok ev (k_sink s)).
    destruct (dest_deliver _ _ _ _ _ _) as [res d] eqn:Ed.
    match goal with |- context [match res with Some _ => _ | None => ?s1 end] => destruct (Hres res s1) as (E1 & E2 & E3 & E4) end.
    cbn zeta in *. rewrite E1, E2, E3, E4. cbn [k_requests k_active k_sink]. split; [done|split; [done|]]. unfold dest_deliver in Ed.
    unfold networked, settled. cbn [k_sink k_counts]. destruct (k_sink s) as [out|url cfg w].
    + destruct (emit _ _ _ _) as [res' out']. injection Ed as _ <-. split; [eauto|done].
    + destruct (String.eqb_spec url "") as [->|Hu]; injection Ed as _ <-; [split; [eauto|done]|]. split.
      * eexists. split; [done|]. intros Hr. apply (reach_act marshal un pt cfg (encodable marshal) w (ASubmit ev)); [exact Hr|apply Henc|reflexivity].
      * intros _. cbn. apply eq_subrelation; [typeclasses eauto|]. lia.
  - cbn [count_when andb]. cbn [k_requests k_active k_sink]. split; [done|split; [done|]].
    unfold networked, settled. cbn [k_sink k_counts]. split; [destruct (k_sink s); eauto|]. intros _.
    unfold bump. rewrite decide_True by done. rewrite eq64_wrap. apply eq_subrelation; [typeclasses eauto|]. destruct (k_sink s); lia.
Qed.

Lemma gen_ok_deliver tasks i g x p ev now : gen_ok tasks g x -> tasks !! i = Some (TRemoved g p ev) ->
  gen_ok (<[i := TDone]> tasks) g (put_sdk (deliver_counted marshal un pt write_ok now ev (gn_sdk x)) x).
Proof.
  intros [H1 H2 H3 H4 H5 H6 H7] Hi. destruct (deliver_counted_spec now ev (gn_sdk x)) as (Er & Ea & Es & Hst).
  set (s' := deliver_counted _ _ _ _ _ _ _) in *.
  assert (open_requests s' = open_requests (gn_sdk x)) as Ho by (unfold open_requests; by rewrite Er).
  assert (forall j q e, <[i := TDone]> tasks !! j = Some (TSealed g q e) -> tasks !! j = Some (TSealed g q e)) as Hl.
  { intros j q e Hj. destruct (decide (i = j)) as [<-|Hne]; [|by rewrite list_lookup_insert_ne in Hj].
    by rewrite list_lookup_insert_eq in Hj by (by eapply lookup_lt_Some). }
  constructor; cbn [gn_sdk gn_cfg put_sdk]; rewrite ?Er, ?Ea; try done; eauto.
  - unfold n_active. rewrite Ea, Ho, (cnt_insert _ _ _ _ _ Hi). cbn. rewrite Z.sub_0_r, Z.add_0_r. exact H5.
  - intros Hnet. assert (networked (gn_sdk x)) as Hn.
    { unfold networked in *. destruct (k_sink (gn_sdk x)); destruct Es as (? & Es); [by rewrite Es in Hnet|]. destruct Es as [Es _]. by rewrite Es in Hnet. }
    rewrite Ho, (Hst Hn), (H6 Hn), (cnt_insert _ _ _ _ _ Hi). cbn [finalizing]. rewrite Nat.eqb_refl.
    apply eq_subrelation; [typeclasses eauto|]. cbn. lia.
  - intros url cfg w Hsk. destruct (k_sink (gn_sdk x)) as [|url0 cfg0 w0]; destruct Es as (w1 & Es); [congruence|]. destruct Es as [Es Hre].
    rewrite Es in Hsk. injection Hsk as <- <- <-. destruct (H7 _ _ _ eq_refl) as [-> Hr]. split; [done|]. by apply Hre.
Qed.

Record proc_ok (y : process) : Prop := {
  po_gens : forall g x, pr_sdks y !! g = Some x -> gen_ok (pr_tasks y) g x;
  po_tasks : forall g t, t ∈ pr_tasks y -> finalizing g t = true -> (g < length (pr_sdks y))%nat
}.

(** One SDK and its tasks change; the others see tasks that are not theirs. *)
Lemma proc_update y st g x f tasks : proc_ok y -> pr_sdks y !! g = Some x -> gen_ok tasks g (f x) ->
  (forall g' x', g' <> g -> gen_ok (pr_tasks y) g' x' -> gen_ok tasks g' x') ->
  (forall t, t ∈ tasks -> t ∈ pr_tasks y \/ forall g', finalizing g' t = true -> g' = g) ->
  proc_ok (mkProcess st (alter f g (pr_sdks y)) tasks).
Proof.
  intros [H1 H2] Hg Hx Ho Ht. constructor; cbn [pr_sdks pr_tasks].
  - intros g' x'. destruct (decide (g = g')) as [<-|Hne].
    + rewrite list_lookup_alter_eq, Hg. by intros [= <-].
    + rewrite list_lookup_alter_ne by done. auto.
  - intros g' t Hin Hf. rewrite length_alter. destruct (Ht t Hin) as [Hi|Hi]; [by eapply H2|].
    rewrite (Hi g' Hf). by eapply lookup_lt_Some.
Qed.

Lemma proc_tasks y st tasks : proc_ok y -> (forall g x, gen_ok (pr_tasks y) g x -> gen_ok tasks g x) ->
  (forall t, t ∈ tasks -> t ∈ pr_tasks y \/ forall g', finalizing g' t = false) -> proc_ok (mkProcess st (pr_sdks y) tasks).
Proof.
  intros [H1 H2] Ho Ht. constructor; cbn [pr_sdks pr_tasks]; [auto|]. intros g t Hin Hf. destruct (Ht t Hin) as [Hi|Hi]; [by eapply H2|]. by rewrite Hi in Hf.
Qed.

Lemma elem_of_set {A} (l : list A) i x y : y ∈ <[i := x]> l -> y ∈ l \/ y = x.
Proof.
  intros (j & Hj)%list_elem_of_lookup. destruct (decide (i = j)) as [<-|Hne].
  - right. apply list_lookup_insert_Some in Hj as [(_ & -> & _)|[? _]]; done.
  - left. rewrite list_lookup_insert_ne in Hj by done. by eapply list_elem_of_lookup_2.
Qed.

Lemma proc_spawn y st t : proc_ok y -> (forall g, neutral g t) -> proc_ok (mkProcess st (pr_sdks y) (pr_tasks y ++ [t])).
Proof.
  intros Hy Ht. apply proc_tasks; [done| |].
  - intros g x Hx. by apply gen_ok_snoc.
  - intros t' [Hi|Hi]%elem_of_app; [by left|]. right. apply list_elem_of_singleton in Hi as ->. exact Ht.
Qed.

Lemma proc_set y i t t' : proc_ok y -> pr_tasks y !! i = Some t -> (forall g, neutral g t) -> (forall g, neutral g t') -> proc_ok (with_task y i t').
Proof.
  intros Hy Hi Ht Ht'. apply proc_tasks; [done| |].
  - intros g x Hx. by eapply gen_ok_set.
  - intros t1 [H1|H1]%elem_of_set; [by left|]. right. subst t1. exact Ht'.
Qed.

(** An SDK changes and the tasks do not. *)
Lemma proc_sdk y g x f : proc_ok y -> pr_sdks y !! g = Some x -> gen_ok (pr_tasks y) g (f x) -> proc_ok (with_sdk y g f).
Proof. intros Hy Hg Hx. eapply proc_update; eauto. Qed.

(** Both change, the task not being a finalization. *)
Lemma proc_both y g x f i t t' : proc_ok y -> pr_sdks y !! g = Some x -> pr_tasks y !! i = Some t -> (forall g, neutral g t) -> (forall g, neutral g t') ->
  gen_ok (pr_tasks y) g (f x) -> proc_ok (with_task (with_sdk y g f) i t').
Proof. intros Hy Hg Hi Ht Ht' Hx. apply (proc_set _ _ t); [by eapply proc_sdk|done..]. Qed.

Lemma other_neutral g g' t : (forall k, finalizing k t = true -> k = g) -> g' <> g -> neutral g' t.
Proof. intros H Hne. unfold neutral. destruct (finalizing g' t) eqn:E; [|done]. by apply H in E. Qed.

Lemma finalizing_eq k g : Nat.eqb g k = true -> k = g.
Proof. by intros ->%Nat.eqb_eq. Qed.

(** A task of [g] moves on. *)
Lemma proc_move y g x f i t t' : proc_ok y -> pr_sdks y !! g = Some x -> pr_tasks y !! i = Some t ->
  (forall k, finalizing k t = true -> k = g) -> (forall k, finalizing k t' = true -> k = g) ->
  gen_ok (<[i := t']> (pr_tasks y)) g (f x) -> proc_ok (with_task (with_sdk y g f) i t').
Proof.
  intros Hy Hg Hi Ht Ht' Hx. eapply proc_update; [exact Hy|exact Hg|exact Hx| |].
  - intros g' x' Hne Hx'. eapply gen_ok_set; [done|done| |]; eapply other_neutral; eauto.
  - intros t1 [H1|H1]%elem_of_set; [by left|]. right. subst t1. exact Ht'.
Qed.

Lemma fresh_ok c d tasks g : (forall t, t ∈ tasks -> finalizing g t = false) ->
  match d with Client _ cfg w => cfg = client_config c /\ w = world0 | Writer _ => True end ->
  gen_ok tasks g (mkGen c (fresh_sdk c d) NotCalled).
Proof.
  intros Ht Hd.
  assert (cnt (finalizing g) tasks = 0) as Hf by (unfold cnt; by rewrite lfilter_none).
  assert (cnt (is_sealed g) tasks = 0) as Hs.
  { unfold cnt. rewrite lfilter_none; [done|]. intros t Hin. apply neutral_sealed, (Ht t Hin). }
  assert (forall i p ev, tasks !! i <> Some (TSealed g p ev)) as Hno.
  { intros i p ev Hi. apply list_elem_of_lookup_2, Ht in Hi. cbn in Hi. by rewrite Nat.eqb_refl in Hi. }
  constructor; cbn [gn_sdk gn_cfg].
  - intros p r Hp. cbn in Hp. by rewrite lookup_empty in Hp.
  - intros p Hp. cbn in Hp. set_solver.
  - intros i p ev Hi. by destruct (Hno i p ev).
  - intros i j p ev ev' Hi. by destruct (Hno i p ev).
  - rewrite Hs. reflexivity.
  - intros Hn. rewrite Hf. unfold networked, settled in *. cbn [k_sink fresh_sdk] in *. destruct d as [|url cfg w]; [done|].
    destruct Hd as [_ ->]. reflexivity.
  - intros url cfg w Hk. cbn in Hk. subst d. destruct Hd as [-> ->]. split; [done|constructor].
Qed.

Lemma Init_ok c y : proc_ok y -> proc_ok (Init parse_url c y).2.
Proof.
  intros Hy. unfold Init. destruct (String.eqb _ _); [done|]. destruct (String.eqb _ _); [done|]. cbv zeta.
  set (previous := g ← pr_state y; _). destruct (0 <? _); [done|].
  assert (forall d, match d with Client _ cfg w => cfg = client_config c /\ w = world0 | Writer _ => True end -> forall st,
    proc_ok (mkProcess st (pr_sdks y ++ [mkGen c (fresh_sdk c d) NotCalled]) (pr_tasks y))) as Hnew.
  { intros d Hd st. destruct Hy as [H1 H2]. constructor; cbn [pr_sdks pr_tasks].
    - intros g x [Hg|[Hl Hg]]%lookup_app_Some; [auto|]. destruct (g - length (pr_sdks y))%nat as [|k] eqn:Ek; [|done]. injection Hg as <-.
      apply fresh_ok; [|done]. intros t Hin. destruct (finalizing g t) eqn:Ef; [|done]. specialize (H2 g t Hin Ef). lia.
    - intros g t Hin Hf. rewrite length_app. specialize (H2 g t Hin Hf). lia. }
  assert (forall d, match d with Client _ cfg w => cfg = client_config c /\ w = world0 | Writer _ => True end -> proc_ok
    (match previous with
     | Some (g, x) => match k_sink (gn_sdk x) with
         | Client _ _ _ => spawn (mkProcess (Some (length (pr_sdks y))) (pr_sdks y ++ [mkGen c (fresh_sdk c d) NotCalled]) (pr_tasks y)) (TClose g 0)
         | Writer _ => mkProcess (Some (length (pr_sdks y))) (pr_sdks y ++ [mkGen c (fresh_sdk c d) NotCalled]) (pr_tasks y) end
     | None => mkProcess (Some (length (pr_sdks y))) (pr_sdks y ++ [mkGen c (fresh_sdk c d) NotCalled]) (pr_tasks y)
     end)) as Hall.
  { intros d Hd. destruct previous as [[g x]|]; [|by apply Hnew]. destruct (k_sink (gn_sdk x)); [by apply Hnew|].
    apply (proc_spawn (mkProcess _ _ _)); [by apply Hnew|done]. }
  destruct (String.eqb (ic_IngestURL c) ""); [by apply Hall|]. destruct (NormalizeIngestURL _ _); cbn [mbind option_bind]; [|done]. by apply Hall.
Qed.

Abbreviation steps := (life_step marshal un pt write_ok parse_url).
Abbreviation runs := (life_run marshal un pt write_ok parse_url).

Lemma life_step_ok e y y' : proc_ok y -> steps e y = Some y' -> proc_ok y'.
Proof.
  intros Hy E. pose proof (po_gens y Hy) as Hg. destruct e; cbn [life_step] in E.
  - injection E as <-. by apply Init_ok.
  - destruct (pr_state y); injection E as <-; [by apply proc_spawn|done].
  - destruct (pr_tasks y !! i) as [t|] eqn:Ei; [|done]. destruct t; try done. apply bind_Some in E as (x & Ex & E).
    destruct (decide _) as [|Hp]; [done|]. injection E as <-. apply eq_None_not_Some in Hp.
    apply (proc_both _ _ x _ _ (TBegin g)); try done. by apply gen_ok_begin, Hp; auto.
  - apply bind_Some in E as (x & Ex & E). apply bind_Some in E as (s & Es & E). injection E as <-. apply (proc_sdk _ _ x); [done..|].
    unfold on_request in Es. destruct (k_requests (gn_sdk x) !! p) as [r|] eqn:Er.
    + apply bind_Some in Es as ([r' c] & Eo & Es). injection Es as <-. eapply gen_ok_request; [auto|done| |by eapply calm_op].
      by apply sealed_op in Eo.
    + injection Es as <-. destruct x. by apply (Hg g).
  - apply bind_Some in E as (x & Ex & E). cbv zeta in E. apply bind_Some in E as (r & Er & E).
    destruct (seal _ _ _ _ _) as [oev [r' c]] eqn:Es. pose proof (calm_seal _ _ _ _ _ _ _ _ _ Es) as Hc.
    pose proof (seal_result _ _ _ _ _ _ _ _ _ Es) as (H1 & H2 & H3). injection E as <-. destruct oev as [ev|].
    + assert (sealed r = false) as Hs by (destruct (sealed r); [|done]; by specialize (proj2 H2 eq_refl)).
      apply (proc_update y _ g x); [done|done| | |].
      * cbn [pr_tasks with_sdk]. eapply gen_ok_seal; eauto.
      * intros g' x' Hne Hx'. apply gen_ok_snoc; [done|]. apply (other_neutral g); [intros ?; apply finalizing_eq|done].
      * intros t [Hi|Hi]%elem_of_app; [by left|]. right. apply list_elem_of_singleton in Hi as ->. intros ?. apply finalizing_eq.
    + apply (proc_sdk _ _ x); [done..|]. eapply gen_ok_request; eauto. rewrite H1. symmetry. by apply H2.
  - destruct (pr_tasks y !! i) as [t|] eqn:Ei; [|done]. destruct t; try done. apply bind_Some in E as (x & Ex & E). injection E as <-.
    eapply (proc_move _ _ x); [done..|intros ?; apply finalizing_eq|intros ?; apply finalizing_eq|]. eapply gen_ok_remove; eauto.
  - destruct (pr_tasks y !! i) as [t|] eqn:Ei; [|done]. destruct t; try done. apply bind_Some in E as (x & Ex & E). injection E as <-.
    eapply (proc_move _ _ x); [done..|intros ?; apply finalizing_eq|done|]. eapply gen_ok_deliver; eauto.
  - destruct (pr_state y); injection E as <-; [by apply proc_spawn|done].
  - destruct (pr_tasks y !! i) as [t|] eqn:Ei; [|done]. destruct t; try done. apply bind_Some in E as (x & Ex & E).
    destruct (_ =? _); injection E as <-; [|done]. eapply proc_set; [done..|]. intros g'. by destruct (k_sink (gn_sdk x)).
  - destruct (pr_tasks y !! i) as [t|] eqn:Ei; [|done]. destruct t; try done. apply bind_Some in E as (x & Ex & E). injection E as <-.
    by eapply proc_set.
  - destruct (pr_tasks y !! i) as [t|] eqn:Ei; [|done]. destruct t; try done. apply bind_Some in E as (x & Ex & E).
    destruct (gn_closed x); [|done|injection E as <-; by eapply proc_set]. apply bind_Some in E as (x' & Et & E). injection E as <-.
    apply (proc_both _ _ x _ _ (TClose g timeout)); try done.
    destruct (gen_ok_transport (pr_tasks y) g x AShutdown x') as [[] _]; [auto|by right|done|]. by constructor.
  - destruct (pr_tasks y !! i) as [t|] eqn:Ei; [|done]. destruct t; try done. apply bind_Some in E as (x & Ex & E).
    destruct (is_drained x); [|done]. injection E as <-. apply (proc_both _ _ x _ _ (TDrain g timeout)); try done. destruct (Hg g x Ex). by constructor.
  - destruct (pr_tasks y !! i) as [t|] eqn:Ei; [|done]. destruct t; try done. destruct (0 <? timeout); [|done]. apply bind_Some in E as (x & Ex & E) || idtac.
    injection E as <-. destruct (pr_sdks y !! g) as [x|] eqn:Ex.
    + apply (proc_both _ _ x _ _ (TDrain g timeout)); try done. destruct (Hg g x Ex). by constructor.
    + eapply (proc_set (with_sdk y g (set_once Called))); [|done..]. unfold with_sdk.
      assert (alter (set_once Called) g (pr_sdks y) = pr_sdks y) as ->; [|by destruct y].
      apply list_eq. intros j. destruct (decide (g = j)) as [<-|Hne]; [by rewrite list_lookup_alter_eq, Ex|by rewrite list_lookup_alter_ne].
  - destruct (of_worker a) eqn:Ea; [|done]. apply bind_Some in E as (x & Ex & E). apply bind_Some in E as (x' & Et & E). injection E as <-.
    apply (proc_sdk _ _ x); [done..|]. apply (gen_ok_transport (pr_tasks y) g x a x'); auto.
Qed.

Lemma life_run_ok l : forall y y', proc_ok y -> runs l y = Some y' -> proc_ok y'.
Proof. induction l as [|e l IH]; cbn; intros y y' Hy E; [by simplify_eq|]. apply bind_Some in E as (y1 & E1 & E). eauto using life_step_ok. Qed.

Lemma start_ok : proc_ok start.
Proof. constructor; cbn; [intros g x Hx; by rewrite lookup_nil in Hx|]. intros g t Ht. by apply elem_of_nil in Ht. Qed.

Lemma client_config_ok c : ic_MaxInFlightBytes c <= 2 ^ 56 -> cfg_ok (client_config c).
Proof.
  intros H. unfold client_config, New_config, or_default. constructor; cbn.
  - lia.
  - lia.
  - destruct (Z.leb_spec (ic_MaxInFlightBytes c) 0); [change (10 ≪ 20) with 10485760|]; lia.
  - unfold defaultMaxRetries. lia.
Qed.

(** C26: However the goroutines of a program that calls Init, Begin, its requests' operations,
    the finalizations and Shutdown are interleaved, with each other and with the workers, no
    request of an SDK that posts to a server disappears, if every event encodes as JSON.  Of
    every such SDK that was ever current, with an ingest URL that is more than slashes and
    at most 2^56 bytes in flight, the requests begun are those
    still open, those on their way through finalize, and those whose event is dropped and
    counted in Stats, queued, in a batch being posted or put back, or delivered (modulo
    2^64, as the counter wraps); once the
    worker has left only the last two are possible for what was submitted.  The active set,
    which Init checks and Shutdown waits for, is the open requests and those sealed but not
    yet taken out, so when it is empty only requests between that point and their delivery
    can be left. *)
Theorem every_request_accounted l y g x url cfg w : runs l start = Some y -> pr_sdks y !! g = Some x ->
  k_sink (gn_sdk x) = Client url cfg w -> url <> "" -> ic_MaxInFlightBytes (gn_cfg x) <= 2 ^ 56 ->
  let s := gn_sdk x in
  let begun := Z.of_nat (size (k_requests s)) in
  let on_their_way := cnt (finalizing g) (pr_tasks y) in
  n_active s = open_requests s + cnt (is_sealed g) (pr_tasks y) /\
  eq64 begun (open_requests s + on_their_way + st_EventsDropped (stats_of s) + Z.of_nat (queued (w_client w)) +
    pending_count (w_pending w) + batch_count (w_sleeping w) + w_delivered w) /\
  (w_drained w = true -> eq64 begun (open_requests s + on_their_way + st_EventsDropped (stats_of s) + w_delivered w)) /\
  (n_active s = 0 -> open_requests s = 0 /\ forall t, t ∈ pr_tasks y -> is_sealed g t = false).
Proof.
  intros E Hg Hs Hu Hcap s begun way. pose proof (life_run_ok _ _ _ start_ok E) as Hy.
  destruct (po_gens y Hy g x Hg) as [_ _ _ _ Ha Hacc Hcl]. destruct (Hcl _ _ _ Hs) as [-> Hre].
  pose proof (reachable_inv _ (client_config_ok _ Hcap) _ _ _ _ Hre) as I. pose proof (wi_located _ _ _ I) as Hl.
  assert (networked s) as Hn by (unfold networked; subst s; by rewrite Hs).
  assert (eq64 (settled s) (st_EventsDropped (stats_of s) + Z.of_nat (queued (w_client w)) + pending_count (w_pending w) + batch_count (w_sleeping w) + w_delivered w)) as Hset.
  { unfold settled, stats_of, of_client. cbn [st_EventsDropped]. subst s. rewrite Hs, Hl, eq64_wrap. unfold located, account.
    apply eq_subrelation; [typeclasses eauto|]. lia. }
  assert (eq64 begun (open_requests s + way + st_EventsDropped (stats_of s) + Z.of_nat (queued (w_client w)) +
    pending_count (w_pending w) + batch_count (w_sleeping w) + w_delivered w)) as Hall.
  { specialize (Hacc Hn). fold s way begun in Hacc. rewrite Hacc, Hset. apply eq_subrelation; [typeclasses eauto|]. lia. }
  split; [exact Ha|]. split; [exact Hall|]. split.
  - intros Hd. destruct (wi_drained _ _ _ I Hd) as [Hst Hp]. destruct (wi_stopping _ _ _ I Hst) as [_ Hq].
    assert (w_sleeping w = None) as Hsl.
    { destruct (w_sleeping w) as [b|] eqn:Eb; [|done]. destruct (wi_sleeping _ _ _ I b Eb). congruence. }
    rewrite Hq, Hp, Hsl in Hall. cbn in Hall. by rewrite !Z.add_0_r in Hall.
  - intros H0. fold s in Ha. rewrite H0 in Ha. assert (0 <= open_requests s) by apply cnt_map_nonneg. pose proof (cnt_le (is_sealed g) (pr_tasks y)).
    split; [lia|]. apply cnt_none. lia.
Qed.
End Accounts.

(** ** Concrete programs *)

Definition demo_parse : UrlParser := fun raw => if String.eqb raw "http://h" then Some ("http", "h", "") else Some ("", "", raw).
Definition demo_json (ev : Event) : option string := Some (ev_EventID ev).
Definition demo_run (l : list event) (y : process) : option process :=
  life_run demo_json (fun _ => None) (fun _ => None) (fun _ => true) demo_parse l y.
Definition demo_init (url : string) : InitConfig := mkInitConfig (mkSdkConfig "checkout" "prod" "" 0 None) url 0 0 0 0 0.
Definition begin_1 (i : nat) : event := LInsert i 1%positive (mkBegin "" "" "" 0) "e1" "t1" "s1" 5.

(** What an observer sees of the SDK [g]: open requests, its counters, delivered events. *)
Definition seen (g : nat) (y : process) : option (Z * Z * Z * bool) :=
  x ← pr_sdks y !! g;
  match k_sink (gn_sdk x) with
  | Client _ _ w => Some (n_active (gn_sdk x), st_EventsDropped (stats_of (gn_sdk x)), w_delivered w, w_drained w)
  | Writer _ => None
  end.

(** A request is finalized and delivered after the program's other request was begun. *)
Definition demo_program : list event :=
  [LInit (demo_init "http://h"); LBegin; begin_1 0; LSeal 0 1 lifecycleNormal 9 9; LRemove 1; LDeliver 1 0; LBegin; LShutdown].

Definition demo_process : process := default start (demo_run demo_program start).

Lemma demo_program_runs : demo_run demo_program start = Some demo_process.
Proof.
  unfold demo_process. destruct (demo_run demo_program start) as [y|] eqn:E; [reflexivity|].
  apply (f_equal (fun o => match o with Some _ => true | None => false end)) in E. vm_compute in E. discriminate E.
Qed.

Lemma every_request_accounted_witness : exists x w, pr_sdks demo_process !! 0%nat = Some x /\
  k_sink (gn_sdk x) = Client "http://h/v1/events" (client_config (gn_cfg x)) w /\ n_active (gn_sdk x) = 0 /\
  open_requests (gn_sdk x) = 0 /\ eq64 (Z.of_nat (size (k_requests (gn_sdk x)))) (0 + 0 + 0 + Z.of_nat (queued (w_client w)) + 0 + 0 + 0).
Proof.
  destruct (pr_sdks demo_process !! 0%nat) as [x|] eqn:Ex; [|vm_compute in Ex; discriminate Ex].
  assert ((fun x => (n_active (gn_sdk x), ic_MaxInFlightBytes (gn_cfg x), st_EventsDropped (stats_of (gn_sdk x)))) <$>
    pr_sdks demo_process !! 0%nat = Some (0, 0, 0)) as H1 by (vm_compute; reflexivity).
  assert (cnt (finalizing 0) (pr_tasks demo_process) = 0) as Hway by (vm_compute; reflexivity).
  assert ((fun x => match k_sink (gn_sdk x) with
      | Client url _ w => Some (url, pending_count (w_pending w), batch_count (w_sleeping w), w_delivered w) | Writer _ => None end) <$>
    pr_sdks demo_process !! 0%nat = Some (Some ("http://h/v1/events", 0, 0, 0))) as H2 by (vm_compute; reflexivity).
  rewrite Ex in H1, H2. cbn [fmap option_fmap option_map] in H1, H2. injection H1 as Hact Hcap Hdrop.
  change (st_EventsDropped (stats_of (gn_sdk x)) = 0) in Hdrop.
  destruct (k_sink (gn_sdk x)) as [|url cfg w] eqn:Es; [discriminate H2|]. injection H2 as -> Hp Hb Hd.
  assert (forall ev, demo_json ev <> None) as Hj by discriminate.
  destruct (every_request_accounted demo_json (fun _ => None) (fun _ => None) (fun _ => true) demo_parse Hj demo_program demo_process 0%nat x
    "http://h/v1/events" cfg w demo_program_runs Ex Es) as (_ & Hall & _ & H0).
  - discriminate.
  - rewrite Hcap. discriminate.
  - assert (cfg = client_config (gn_cfg x)) as ->.
    { assert ((fun x => match k_sink (gn_sdk x) with Client _ cfg _ => Some cfg | Writer _ => None end) <$> pr_sdks demo_process !! 0%nat =
        (fun x => Some (client_config (gn_cfg x))) <$> pr_sdks demo_process !! 0%nat) as H3 by (vm_compute; reflexivity).
      rewrite Ex in H3. cbn [fmap option_fmap option_map] in H3. rewrite Es in H3. injection H3 as H3. exact H3. }
    exists x, w. destruct (H0 Hact) as [Ho _]. rewrite Ho, Hway, Hdrop, Hp, Hb, Hd in Hall.
    split; [reflexivity|]. split; [exact Es|]. split; [exact Hact|]. split; [exact Ho|exact Hall].
Defined.

(** Shutdown returns although a request it should wait for has not delivered its event: it
    has left the active set, its event comes after the client is closed and is dropped. *)
Definition overlooked : list event :=
  [LInit (demo_init "http://h"); LBegin; begin_1 0; LSeal 0 1 lifecycleNormal 9 9; LRemove 1;
   LShutdown; LPoll 2 None 0; LClose 2; LWorker 0 AStop; LWorker 0 AExit; LDrained 2].

Lemma shutdown_overlooks_finalizing :
  (fun y => (pr_tasks y !! 2%nat, seen 0 y)) <$> demo_run overlooked start = Some (Some TDone, Some (0, 0, 0, true)) /\
  (fun y => seen 0 y) <$> demo_run (overlooked ++ [LDeliver 1 0]) start = Some (Some (0, 1, 0, true)).
Proof. split; vm_compute; reflexivity. Qed.

(** Init replaces the SDK between the two steps of a Begin: the request lives in an SDK that
    is closed, its event is dropped, and Stats, which reads the new SDK, shows nothing. *)
Lemma init_strands_begin : (fun y => (seen 0 y, stats_of <$> (gn_sdk <$> pr_sdks y !! 1%nat))) <$>
  demo_run [LInit (demo_init "http://h"); LBegin; LInit (demo_init "http://h"); LClose 1; LWorker 0 AStop; LWorker 0 AExit; LDrained 1;
            begin_1 0; LSeal 0 1 lifecycleNormal 9 9; LRemove 2; LDeliver 2 0] start =
  Some (Some (0, 1, 0, true), Some (mkStats 0 0 0 0 0 0 0 0 0 0 0 0 0 0)).
Proof. vm_compute. reflexivity. Qed.

(** An ingest URL of slashes is accepted; every event is then refused and never counted. *)
Lemma slash_url_discards : (fun y => Stats y) <$>
  demo_run [LInit (demo_init "/"); LBegin; begin_1 0; LSeal 0 1 lifecycleNormal 9 9; LRemove 1; LDeliver 1 0] start =
  Some (mkStats 0 0 0 0 0 0 0 0 0 0 0 0 0 0).
Proof. vm_compute. reflexivity. Qed.

(** A Shutdown whose deadline has passed when the last request ends waits for the worker
    without any limit: the only step that ends it is the worker's. *)
Lemma expired_deadline_waits y i g marshal un pt wr pu : pr_tasks y !! i = Some (TDrain g (remainingTimeout (Some 5) 9)) ->
  life_step marshal un pt wr pu (LTimeout i) y = None.
Proof. intros H. cbn [life_step]. by rewrite H. Qed.
