(* ===== verification/V1Sdk.v ===== *)
(** The first-generation SDK ([pkg/context.go], assemble.go, client.go, [pkg/http]): the state
    a request carries by pointer, the values on a context, the assembly of the event and its
    validation at the end of the request, and the HTTP middleware around a handler.  Errors
    are a type with a text; [strconv.Quote] is a parameter. *)

From S2P Require Import Prelude GoRuntime GoText WideEvent TraceContext.
Open Scope Z_scope.

Record User := mkUser { u_ID : string; u_Tier : string; u_Region : string; u_VIP : bool }.
Record Retry := mkRetry { ry_Of : Z; ry_PreviousAttemptID : string }.

(** [trace.TraceContext]. *)
Record TraceValue := mkTraceValue { tv_TraceID : string; tv_SpanID : string; tv_ParentSpanID : string; tv_Flags : string }.

(** [http.StatusText]. *)
Definition status_texts : list (Z * string) :=
  [(100, "Continue"); (101, "Switching Protocols"); (102, "Processing"); (103, "Early Hints");
   (200, "OK"); (201, "Created"); (202, "Accepted"); (203, "Non-Authoritative Information"); (204, "No Content"); (205, "Reset Content");
   (206, "Partial Content"); (207, "Multi-Status"); (208, "Already Reported"); (226, "IM Used");
   (300, "Multiple Choices"); (301, "Moved Permanently"); (302, "Found"); (303, "See Other"); (304, "Not Modified"); (305, "Use Proxy");
   (307, "Temporary Redirect"); (308, "Permanent Redirect");
   (400, "Bad Request"); (401, "Unauthorized"); (402, "Payment Required"); (403, "Forbidden"); (404, "Not Found"); (405, "Method Not Allowed");
   (406, "Not Acceptable"); (407, "Proxy Authentication Required"); (408, "Request Timeout"); (409, "Conflict"); (410, "Gone");
   (411, "Length Required"); (412, "Precondition Failed"); (413, "Request Entity Too Large"); (414, "Request URI Too Long");
   (415, "Unsupported Media Type"); (416, "Requested Range Not Satisfiable"); (417, "Expectation Failed"); (418, "I'm a teapot");
   (421, "Misdirected Request"); (422, "Unprocessable Entity"); (423, "Locked"); (424, "Failed Dependency"); (425, "Too Early");
   (426, "Upgrade Required"); (428, "Precondition Required"); (429, "Too Many Requests"); (431, "Request Header Fields Too Large");
   (451, "Unavailable For Legal Reasons");
   (500, "Internal Server Error"); (501, "Not Implemented"); (502, "Bad Gateway"); (503, "Service Unavailable"); (504, "Gateway Timeout");
   (505, "HTTP Version Not Supported"); (506, "Variant Also Negotiates"); (507, "Insufficient Storage"); (508, "Loop Detected");
   (510, "Not Extended"); (511, "Network Authentication Required")].
Definition StatusText (code : Z) : string :=
  match List.find (fun e => e.1 =? code) status_texts with Some e => e.2 | None => "" end.

Section Sdk.
Context {E : Type} (error_text : E -> string) (panic_error : string -> E) (Quote : string -> string).

(** ** The state of a request *)

(** A nil metadata map is the empty one; [s_once] is whether the [sync.Once] has run. *)
Record RequestState := mkRequestState {
  s_start : Time; s_statusCode : Z; s_err : option E; s_callerService : string; s_downstreamService : string; s_serviceName : string;
  s_user : User; s_flow : string; s_flags : list string; s_httpMethod : string; s_routeTemplate : string; s_errorReason : string;
  s_errorPath : string; s_parentRequestID : string; s_metadata : gmap string value; s_attempt : Z; s_retry : option Retry; s_once : bool
}.


Definition SetStatus (statusCode : Z) (s : RequestState) : RequestState :=
  mkRequestState (s_start s) (statusCode) (s_err s) (s_callerService s) (s_downstreamService s) (s_serviceName s) (s_user s) (s_flow s) (s_flags s) (s_httpMethod s) (s_routeTemplate s) (s_errorReason s) (s_errorPath s) (s_parentRequestID s) (s_metadata s) (s_attempt s) (s_retry s) (s_once s).

Definition SetDownstream (service : string) (s : RequestState) : RequestState :=
  mkRequestState (s_start s) (s_statusCode s) (s_err s) (s_callerService s) (service) (s_serviceName s) (s_user s) (s_flow s) (s_flags s) (s_httpMethod s) (s_routeTemplate s) (s_errorReason s) (s_errorPath s) (s_parentRequestID s) (s_metadata s) (s_attempt s) (s_retry s) (s_once s).

Definition SetFlow (flow : string) (s : RequestState) : RequestState :=
  mkRequestState (s_start s) (s_statusCode s) (s_err s) (s_callerService s) (s_downstreamService s) (s_serviceName s) (s_user s) (flow) (s_flags s) (s_httpMethod s) (s_routeTemplate s) (s_errorReason s) (s_errorPath s) (s_parentRequestID s) (s_metadata s) (s_attempt s) (s_retry s) (s_once s).

Definition SetFlags (flags : list string) (s : RequestState) : RequestState :=
  mkRequestState (s_start s) (s_statusCode s) (s_err s) (s_callerService s) (s_downstreamService s) (s_serviceName s) (s_user s) (s_flow s) (flags) (s_httpMethod s) (s_routeTemplate s) (s_errorReason s) (s_errorPath s) (s_parentRequestID s) (s_metadata s) (s_attempt s) (s_retry s) (s_once s).

Definition SetHTTPMethod (method : string) (s : RequestState) : RequestState :=
  mkRequestState (s_start s) (s_statusCode s) (s_err s) (s_callerService s) (s_downstreamService s) (s_serviceName s) (s_user s) (s_flow s) (s_flags s) (method) (s_routeTemplate s) (s_errorReason s) (s_errorPath s) (s_parentRequestID s) (s_metadata s) (s_attempt s) (s_retry s) (s_once s).

Definition SetRouteTemplate (rt : string) (s : RequestState) : RequestState :=
  mkRequestState (s_start s) (s_statusCode s) (s_err s) (s_callerService s) (s_downstreamService s) (s_serviceName s) (s_user s) (s_flow s) (s_flags s) (s_httpMethod s) (rt) (s_errorReason s) (s_errorPath s) (s_parentRequestID s) (s_metadata s) (s_attempt s) (s_retry s) (s_once s).

Definition SetErrorReason (v : string) (s : RequestState) : RequestState :=
  mkRequestState (s_start s) (s_statusCode s) (s_err s) (s_callerService s) (s_downstreamService s) (s_serviceName s) (s_user s) (s_flow s) (s_flags s) (s_httpMethod s) (s_routeTemplate s) (v) (s_errorPath s) (s_parentRequestID s) (s_metadata s) (s_attempt s) (s_retry s) (s_once s).

Definition SetErrorPath (v : string) (s : RequestState) : RequestState :=
  mkRequestState (s_start s) (s_statusCode s) (s_err s) (s_callerService s) (s_downstreamService s) (s_serviceName s) (s_user s) (s_flow s) (s_flags s) (s_httpMethod s) (s_routeTemplate s) (s_errorReason s) (v) (s_parentRequestID s) (s_metadata s) (s_attempt s) (s_retry s) (s_once s).

Definition SetParentRequestID (v : string) (s : RequestState) : RequestState :=
  mkRequestState (s_start s) (s_statusCode s) (s_err s) (s_callerService s) (s_downstreamService s) (s_serviceName s) (s_user s) (s_flow s) (s_flags s) (s_httpMethod s) (s_routeTemplate s) (s_errorReason s) (s_errorPath s) (v) (s_metadata s) (s_attempt s) (s_retry s) (s_once s).

Definition SetAttempt (n : Z) (s : RequestState) : RequestState :=
  mkRequestState (s_start s) (s_statusCode s) (s_err s) (s_callerService s) (s_downstreamService s) (s_serviceName s) (s_user s) (s_flow s) (s_flags s) (s_httpMethod s) (s_routeTemplate s) (s_errorReason s) (s_errorPath s) (s_parentRequestID s) (s_metadata s) (n) (s_retry s) (s_once s).

Definition SetRetry (r : Retry) (s : RequestState) : RequestState :=
  mkRequestState (s_start s) (s_statusCode s) (s_err s) (s_callerService s) (s_downstreamService s) (s_serviceName s) (s_user s) (s_flow s) (s_flags s) (s_httpMethod s) (s_routeTemplate s) (s_errorReason s) (s_errorPath s) (s_parentRequestID s) (s_metadata s) (s_attempt s) (Some r) (s_once s).

Definition SetUser (user : User) (s : RequestState) : RequestState :=
  let user := if String.eqb (u_ID user) "" then mkUser "system" (u_Tier user) (u_Region user) (u_VIP user) else user in
  mkRequestState (s_start s) (s_statusCode s) (s_err s) (s_callerService s) (s_downstreamService s) (s_serviceName s) (user) (s_flow s) (s_flags s) (s_httpMethod s) (s_routeTemplate s) (s_errorReason s) (s_errorPath s) (s_parentRequestID s) (s_metadata s) (s_attempt s) (s_retry s) (s_once s).

Definition SetMetadata (key : string) (v : value) (s : RequestState) : RequestState :=
  if String.eqb key "" then s else mkRequestState (s_start s) (s_statusCode s) (s_err s) (s_callerService s) (s_downstreamService s) (s_serviceName s) (s_user s) (s_flow s) (s_flags s) (s_httpMethod s) (s_routeTemplate s) (s_errorReason s) (s_errorPath s) (s_parentRequestID s) (<[key := v]> (s_metadata s)) (s_attempt s) (s_retry s) (s_once s).

Definition set_err (err : E) (statusCode : Z) (s : RequestState) : RequestState :=
  mkRequestState (s_start s) (statusCode) (Some err) (s_callerService s) (s_downstreamService s) (s_serviceName s) (s_user s) (s_flow s) (s_flags s) (s_httpMethod s) (s_routeTemplate s) (s_errorReason s) (s_errorPath s) (s_parentRequestID s) (s_metadata s) (s_attempt s) (s_retry s) (s_once s).

Definition set_once (s : RequestState) : RequestState :=
  mkRequestState (s_start s) (s_statusCode s) (s_err s) (s_callerService s) (s_downstreamService s) (s_serviceName s) (s_user s) (s_flow s) (s_flags s) (s_httpMethod s) (s_routeTemplate s) (s_errorReason s) (s_errorPath s) (s_parentRequestID s) (s_metadata s) (s_attempt s) (s_retry s) (true).


Definition NewRequestState (start : Time) (statusCode : Z) (callerService serviceName : string) : RequestState :=
  mkRequestState start statusCode None callerService "" serviceName (mkUser "" "" "" false) "" [] "" "" "" "" "" ∅ 0 None false.

(** ** Contexts *)

(** The values of a context; the state is a pointer into the heap. *)
Record ctx := mkCtx {
  cx_state : option positive; cx_user : option User; cx_flow : option string; cx_flags : option (list string);
  cx_httpMethod : option string; cx_routeTemplate : option string; cx_trace : option TraceValue
}.
Abbreviation heap := (gmap positive RequestState).

Definition requestStateFromContext (h : heap) (c : ctx) : option RequestState := p ← cx_state c; h !! p.

(** A setter on the state of a context, if it has one. *)
Definition on_state (f : RequestState -> RequestState) (h : heap) (c : ctx) : heap :=
  match cx_state c with Some p => alter f p h | None => h end.

(** What a [With...] call does: to the state, or else to the context. *)
Definition with_value (f : RequestState -> RequestState) (g : ctx -> ctx) (h : heap) (c : ctx) : heap * ctx :=
  match requestStateFromContext h c with Some _ => (on_state f h c, c) | None => (h, g c) end.

Definition WithUser (user : User) : heap -> ctx -> heap * ctx :=
  let user := if String.eqb (u_ID user) "" then mkUser "system" (u_Tier user) (u_Region user) (u_VIP user) else user in
  with_value (SetUser user) (fun c => mkCtx (cx_state c) (Some user) (cx_flow c) (cx_flags c) (cx_httpMethod c) (cx_routeTemplate c) (cx_trace c)).
Definition WithFlow (flow : string) : heap -> ctx -> heap * ctx :=
  with_value (SetFlow flow) (fun c => mkCtx (cx_state c) (cx_user c) (Some flow) (cx_flags c) (cx_httpMethod c) (cx_routeTemplate c) (cx_trace c)).
Definition WithFlags (flags : list string) : heap -> ctx -> heap * ctx :=
  with_value (SetFlags flags) (fun c => mkCtx (cx_state c) (cx_user c) (cx_flow c) (Some flags) (cx_httpMethod c) (cx_routeTemplate c) (cx_trace c)).
Definition WithHTTPMethod (method : string) : heap -> ctx -> heap * ctx :=
  with_value (SetHTTPMethod method) (fun c => mkCtx (cx_state c) (cx_user c) (cx_flow c) (cx_flags c) (Some method) (cx_routeTemplate c) (cx_trace c)).
Definition WithRouteTemplate (rt : string) : heap -> ctx -> heap * ctx :=
  with_value (SetRouteTemplate rt) (fun c => mkCtx (cx_state c) (cx_user c) (cx_flow c) (cx_flags c) (cx_httpMethod c) (Some rt) (cx_trace c)).
Definition WithErrorReason (v : string) (h : heap) (c : ctx) : heap * ctx := (on_state (SetErrorReason v) h c, c).
Definition WithErrorPath (v : string) (h : heap) (c : ctx) : heap * ctx := (on_state (SetErrorPath v) h c, c).
Definition WithParentRequestID (v : string) (h : heap) (c : ctx) : heap * ctx := (on_state (SetParentRequestID v) h c, c).
Definition WithMetadataKey (key : string) (v : value) (h : heap) (c : ctx) : heap * ctx := (on_state (SetMetadata key v) h c, c).
Definition WithAttempt (n : Z) (h : heap) (c : ctx) : heap * ctx := (on_state (SetAttempt n) h c, c).
Definition WithRetry (r : Retry) (h : heap) (c : ctx) : heap * ctx := (on_state (SetRetry r) h c, c).

Definition WithRequestState (p : positive) (c : ctx) : ctx :=
  mkCtx (Some p) (cx_user c) (cx_flow c) (cx_flags c) (cx_httpMethod c) (cx_routeTemplate c) (cx_trace c).

(** A value with the test that says whether it is there. *)
Definition nonblank (v : string) : option string := if String.eqb v "" then None else Some v.
Definition userFromContext (h : heap) (c : ctx) : option User :=
  match requestStateFromContext h c with
  | Some s => if String.eqb (u_ID (s_user s)) "" then None else Some (s_user s)
  | None => cx_user c
  end.
Definition flowFromContext (h : heap) (c : ctx) : option string :=
  match requestStateFromContext h c with Some s => nonblank (s_flow s) | None => cx_flow c end.
Definition flagsFromContext (h : heap) (c : ctx) : option (list string) :=
  match requestStateFromContext h c with Some s => match s_flags s with [] => None | l => Some l end | None => cx_flags c end.
Definition httpMethodFromContext (h : heap) (c : ctx) : option string :=
  match requestStateFromContext h c with Some s => nonblank (s_httpMethod s) | None => cx_httpMethod c end.
Definition routeTemplateFromContext (h : heap) (c : ctx) : option string :=
  match requestStateFromContext h c with Some s => nonblank (s_routeTemplate s) | None => cx_routeTemplate c end.

(** ** Assembly *)

Record ClientConfig := mkClientConfig {
  cc_Service : string; cc_Env : string; cc_Version : string; cc_DeploymentID : string; cc_ErrorClassifier : option (E -> string)
}.

Definition classifyError (cfg : ClientConfig) (err : option E) (statusCode : Z) : string :=
  let code := match err, cc_ErrorClassifier cfg with Some e, Some f => f e | _, _ => "" end in
  if negb (String.eqb code "") then code
  else if 0 <? statusCode then "HTTP_" +:+ Itoa statusCode else "UNKNOWN".

Definition errorMessage (err : option E) (statusCode : Z) : string :=
  match err with
  | Some e => error_text e
  | None => let message := StatusText statusCode in if String.eqb message "" then "error" else message
  end.

(** [assembleEvent]; [now] is the clock, [newTrace] and [newSpan] what the generators return.
    The state's methods answer for a nil state too. *)
Definition assembleEvent (cfg : ClientConfig) (now : Time) (newTrace newSpan : string) (h : heap) (c : ctx)
    (statusCode latencyMs : Z) (err : option E) (callerService downstreamService : string) : WideEvent :=
  let statusCode := if statusCode <=? 0 then 200 else statusCode in
  let success := (statusCode <? 500) && match err with Some _ => false | None => true end in
  let eventName := if success then cc_Service cfg +:+ ".request" else cc_Service cfg +:+ ".error" in
  let user := match userFromContext h c with
              | Some u => mkUserContext (if String.eqb (u_ID u) "" then "system" else u_ID u) (u_Tier u) (u_Region u) (u_VIP u)
              | None => mkUserContext "system" "" "" false
              end in
  let state := requestStateFromContext h c in
  let tc := default (mkTraceValue "" "" "" "") (cx_trace c) in
  let traceID := if String.eqb (tv_TraceID tc) "" then newTrace else tv_TraceID tc in
  let spanID := if String.eqb (tv_SpanID tc) "" then newSpan else tv_SpanID tc in
  let errContext := if success then None else
    Some (mkErrorContext (classifyError cfg err statusCode) (from_option s_errorPath "" state) (errorMessage err statusCode) (from_option s_errorReason "" state)) in
  mkWideEvent "1.1" eventName now user
    (mkRequestContext traceID spanID (tv_ParentSpanID tc) (default "" (httpMethodFromContext h c)) (default "" (routeTemplateFromContext h c))
      (default "" (flowFromContext h c)) (default [] (flagsFromContext h c)) "" (from_option s_attempt 0 state) "")
    (mkSystemContext (cc_Service cfg) (cc_Version cfg) (cc_DeploymentID cfg) (cc_Env cfg) downstreamService
      (if String.eqb callerService "" then "external" else callerService))
    (mkOutcomeContext success statusCode "http") errContext latencyMs (from_option s_parentRequestID "" state)
    (from_option s_metadata ∅ state)
    (r ← (s ← state; s_retry s); Some (mkRetryContext (ry_Of r) (ry_PreviousAttemptID r))).

(** ** The end of a request *)

(** What a client counts, or queues. *)
Inductive outcome := Offered (ev : WideEvent) | Invalid | Dropped | Nothing.

(** The event the end of a request with the state [s] makes. *)
Definition end_event (cfg : ClientConfig) (now : Time) (newTrace newSpan : string) (h : heap) (c : ctx) (s : RequestState) : WideEvent :=
  let statusCode := if s_statusCode s =? 0 then 200 else s_statusCode s in
  let statusCode := match s_err s with Some _ => if statusCode <? 400 then 500 else statusCode | None => statusCode end in
  let latencyMs := if IsZero (s_start s) then 0 else Milliseconds (TimeSub now (s_start s)) in
  assembleEvent cfg now newTrace newSpan h c statusCode latencyMs (s_err s) (s_callerService s) (s_downstreamService s).

Definition RequestEnd (cfg : ClientConfig) (now : Time) (newTrace newSpan : string) (c : ctx) (h : heap) : outcome * heap :=
  match requestStateFromContext h c with
  | None => (Dropped, h)
  | Some s =>
    if s_once s then (Nothing, h) else
    let h := on_state set_once h c in
    let ev := end_event cfg now newTrace newSpan h c s in
    (match Validate Quote ev with [] => Offered ev | _ => Invalid end, h)
  end.

(** [Client.Error] of a non-nil error: the first error wins. *)
Definition Error (err : E) (c : ctx) (h : heap) : outcome * heap :=
  match requestStateFromContext h c with
  | None => (Dropped, h)
  | Some s =>
    match s_err s with
    | Some _ => (Nothing, h)
    | None => (Nothing, on_state (set_err err (if s_statusCode s <? 400 then 500 else s_statusCode s)) h c)
    end
  end.

(** ** The middleware *)

(** What a handler does to the response and, by the SDK's calls, to the state of its request. *)
Inductive request_op :=
| RUser (u : User) | RFlow (flow : string) | RFlags (flags : list string) | RMethod (m : string) | RRoute (rt : string) | RReason (v : string)
| RPath (v : string) | RParent (v : string) | RMetadata (key : string) (v : value) | RAttempt (n : Z) | RRetry (r : Retry) | RDownstream (service : string).

Definition run_request_op (o : request_op) : RequestState -> RequestState :=
  match o with
  | RUser u => SetUser u | RFlow f => SetFlow f | RFlags l => SetFlags l | RMethod m => SetHTTPMethod m | RRoute rt => SetRouteTemplate rt
  | RReason v => SetErrorReason v | RPath v => SetErrorPath v | RParent v => SetParentRequestID v | RMetadata k v => SetMetadata k v
  | RAttempt n => SetAttempt n | RRetry r => SetRetry r | RDownstream v => SetDownstream v
  end.

Inductive handler_step := HOp (o : request_op) | HError (err : E) | HWriteHeader (code : Z) | HWrite.

(** [statusWriter] over the server's writer, which sends the first final status only. *)
Record statusWriter := mkStatusWriter { sw_status : Z; sw_wroteHeader : bool; sw_sent : option Z }.

Definition send_header (code : Z) (sent : option Z) : option Z :=
  match sent with
  | Some _ => sent
  | None => if (100 <=? code) && (code <=? 199) && negb (code =? 101) then None else Some code
  end.

Definition WriteHeader (code : Z) (c : ctx) (w : statusWriter) (h : heap) : statusWriter * heap :=
  (mkStatusWriter code true (send_header code (sw_sent w)), on_state (SetStatus code) h c).
Definition Write (c : ctx) (w : statusWriter) (h : heap) : statusWriter * heap :=
  let '(w, h) := if negb (sw_wroteHeader w) then WriteHeader 200 c w h else (w, h) in
  (mkStatusWriter (sw_status w) (sw_wroteHeader w) (send_header 200 (sw_sent w)), h).

Definition run_handler_step (c : ctx) (x : handler_step) '((w, h) : statusWriter * heap) : statusWriter * heap :=
  match x with
  | HOp o => (w, on_state (run_request_op o) h c)
  | HError err => (w, snd (Error err c h))
  | HWriteHeader code => WriteHeader code c w h
  | HWrite => Write c w h
  end.

Record http_request := mkHttpRequest { hr_Header : string -> string; hr_Method : string; hr_Pattern : string }.

Definition extractTraceContext (r : http_request) (newTrace newSpan : string) : TraceValue :=
  let Get := hr_Header r in
  let from_ids :=
    let traceID := default "" (NormalizeTraceID (Get "x-trace-id")) in
    let parentSpanID := default "" (NormalizeSpanID (Get "x-span-id")) in
    let traceID := if String.eqb traceID "" then default "" (NormalizeTraceID (Get "x-request-id")) else traceID in
    mkTraceValue (if String.eqb traceID "" then newTrace else traceID) newSpan parentSpanID "01" in
  if negb (String.eqb (Get "traceparent") "") then
    match ParseTraceparent (Get "traceparent") with
    | Some (traceID, parentSpanID, flags) => mkTraceValue traceID newSpan parentSpanID flags
    | None => from_ids
    end
  else from_ids.

Definition empty_ctx : ctx := mkCtx None None None None None None None.

(** A request through [MiddlewareWithClient]: the state [p], the handler, which ends or
    panics, the route the mux matched, and the end of the request. *)
Definition Middleware (cfg : ClientConfig) (p : positive) (start now : Time) (newTrace newSpan : string) (r : http_request)
    (handler : list handler_step) (panic : option string) (h : heap) : outcome * statusWriter * heap :=
  let caller := let v := hr_Header r "x-waylog-service" in if String.eqb v "" then "external" else v in
  let reqState := SetHTTPMethod (hr_Method r) (NewRequestState start 200 caller (cc_Service cfg)) in
  let c := WithRequestState p (mkCtx None None None None None None (Some (extractTraceContext r newTrace newSpan))) in
  let '(w, h) := fold_left (fun s x => run_handler_step c x s) handler (mkStatusWriter 200 false None, <[p := reqState]> h) in
  let h := match panic with
           | Some text => snd (Error (panic_error ("panic: " +:+ text)) c h)
           | None =>
             match requestStateFromContext h c with
             | Some s => if String.eqb (s_routeTemplate s) "" && negb (String.eqb (hr_Pattern r) "") then on_state (SetRouteTemplate (hr_Pattern r)) h c else h
             | None => h
             end
           end in
  let '(out, h) := RequestEnd cfg now newTrace newSpan c h in
  (out, mkStatusWriter (sw_status w) (sw_wroteHeader w) (match panic with None => send_header 200 (sw_sent w) | Some _ => sw_sent w end), h).

(** [wrappedTransport.RoundTrip]: the request that goes out, and the state it marks. *)
Definition RoundTrip (downstreamService defaultService newTrace newSpan : string) (header : string -> string) (c : ctx) (h : heap)
    : (string -> string) * heap :=
  let tc := match cx_trace c with
            | Some t => if String.eqb (tv_TraceID t) "" || String.eqb (tv_SpanID t) "" then mkTraceValue newTrace newSpan "" "01" else t
            | None => mkTraceValue newTrace newSpan "" "01"
            end in
  match requestStateFromContext h c with
  | None => (header, h)
  | Some s =>
    let serviceName := if String.eqb (s_serviceName s) "" then defaultService else s_serviceName s in
    let header := set_header "traceparent" (FormatTraceparent (tv_TraceID tc) (tv_SpanID tc) (tv_Flags tc)) header in
    (if String.eqb serviceName "" then header else set_header "x-waylog-service" serviceName header, on_state (SetDownstream downstreamService) h c)
  end.

(** ** Which requests make an event *)

(** The route, the method and the retry a request ends with are ones the event may have. *)
Definition presentable (s : RequestState) : bool :=
  (blank (s_httpMethod s) || validHTTPMethod (s_httpMethod s)) && (blank (s_routeTemplate s) || HasPrefix (s_routeTemplate s) "/") &&
  match s_retry s with Some r => (ry_Of r =? 0) || (s_attempt s <=? ry_Of r) | None => true end.

Lemma fails_nil b field msg : fails b field msg = [] <-> b = false.
Proof. unfold fails. by destruct b. Qed.

Lemma default_nonblank v : default "" (nonblank v) = v.
Proof. unfold nonblank. by destruct (String.eqb_spec v "") as [->|]. Qed.

Lemma blank_app a b : blank (a +:+ b) = blank a && blank b.
Proof. by destruct a, b. Qed.

Lemma classifyError_nonblank cfg err code : blank (classifyError cfg err code) = false.
Proof.
  unfold classifyError. destruct (negb _) eqn:Ec; [by apply negb_true_iff in Ec|]. destruct (0 <? code); [|done]. by rewrite blank_app.
Qed.

Lemma alter_state f p (h : heap) s : h !! p = Some s -> alter f p h !! p = Some (f s).
Proof. intros Hs. by rewrite lookup_alter_eq, Hs. Qed.


Lemma state_after_once (h : heap) c s : requestStateFromContext h c = Some s ->
  requestStateFromContext (on_state set_once h c) c = Some (set_once s).
Proof. unfold requestStateFromContext, on_state. intros (p & Ep & Hp)%bind_Some. rewrite Ep. cbn. by apply alter_state. Qed.

(** The status an ended request reports. *)
Definition reported (s : RequestState) : Z :=
  let code := if s_statusCode s =? 0 then 200 else s_statusCode s in
  let code := match s_err s with Some _ => if code <? 400 then 500 else code | None => code end in
  if code <=? 0 then 200 else code.

Lemma reported_pos s : 0 < reported s.
Proof. unfold reported. destruct (_ <=? 0) eqn:El; bool_prop; lia. Qed.

(** The checks of [Validate] on an event the SDK assembles. *)
Lemma assembled_valid cfg now newTrace newSpan h c s : cc_Service cfg <> "" -> cc_Env cfg <> "" -> IsZero now = false ->
  newTrace <> "" -> newSpan <> "" -> requestStateFromContext h c = Some s ->
  Validate Quote (end_event cfg now newTrace newSpan h c s) = [] <-> presentable s = true.
Proof.
  intros Hs He Hn Ht Hsp Hst. apply String.eqb_neq in Hs, He, Ht, Hsp. unfold end_event, assembleEvent. cbv zeta.
  fold (reported s). pose proof (reported_pos s) as Hpos. unfold Validate. cbv zeta.
  cbn [we_SchemaVersion we_EventName we_Timestamp we_User we_Request we_System we_Outcome we_Error we_Retry us_ID rc_TraceID rc_SpanID rc_ParentSpanID
       rc_HTTPMethod rc_RouteTemplate rc_Attempt sy_Service sy_Env oc_StatusCode oc_Success er_Code].
  unfold httpMethodFromContext, routeTemplateFromContext, userFromContext. rewrite Hst. cbn [from_option mbind option_bind]. rewrite !default_nonblank.
  rewrite !app_nil, !fails_nil, Hn. fold (blank (cc_Service cfg)) (blank (cc_Env cfg)) in Hs, He. fold (blank newTrace) in Ht. fold (blank newSpan) in Hsp.
  assert (blank (if (reported s <? 500) && match s_err s with Some _ => false | None => true end
    then cc_Service cfg +:+ ".request" else cc_Service cfg +:+ ".error") = false) as -> by (case_match; by rewrite blank_app, Hs).
  assert (forall a b, blank b = false -> blank (if String.eqb a "" then b else a) = false) as Hor.
  { intros a b Hb. destruct (String.eqb a "") eqn:Ea; [done|exact Ea]. }
  rewrite (Hor _ newTrace Ht), (Hor _ newSpan Hsp), Hs, He, (proj2 (Z.eqb_neq _ _) (not_eq_sym (Z.lt_neq _ _ Hpos))), andb_false_r.
  assert (blank (us_ID (match (if String.eqb (u_ID (s_user s)) "" then None else Some (s_user s)) with
    | Some u => mkUserContext (if String.eqb (u_ID u) "" then "system" else u_ID u) (u_Tier u) (u_Region u) (u_VIP u)
    | None => mkUserContext "system" "" "" false end)) = false) as ->.
  { destruct (String.eqb (u_ID (s_user s)) "") eqn:Eu; [done|]. cbn. by rewrite Eu. }
  assert ((if negb ((reported s <? 500) && match s_err s with Some _ => false | None => true end)
     then match (if (reported s <? 500) && match s_err s with Some _ => false | None => true end then None
       else Some (mkErrorContext (classifyError cfg (s_err s) (reported s)) (s_errorPath s) (errorMessage (s_err s) (reported s)) (s_errorReason s))) with
       | Some err => fails (blank (er_Code err)) "error.code" "error.code is required for failures"
       | None => [mkValidationError "error" "error must be set when outcome.success=false"] end else []) = []) as ->.
  { destruct (_ && _); [done|]. apply fails_nil, classifyError_nonblank. }
  unfold presentable. rewrite !andb_true_iff, !andb_false_iff, !orb_true_iff, !negb_false_iff.
  destruct (s_retry s) as [r|]; cbn [mbind option_bind rt_Of]; [rewrite fails_nil, andb_false_iff, negb_false_iff, orb_true_iff, Z.ltb_ge, Z.leb_le|]; intuition.
Qed.

(** The end of a request makes its event once, and says what became of it.  The first
    RequestEnd assembles one event from the state, which passes validation exactly when the
    method is empty or known, the route is empty or begins with a slash and the retry count
    covers the attempt; then it is offered to the queue, otherwise it is counted as invalid
    and lost.  Its status is the one the response had, 200 for none and 500 when an error was
    recorded under a lower status than 400; it is a success when that is below 500 and no
    error was recorded, and only then carries no error.  A second RequestEnd does nothing. *)
Theorem RequestEnd_presentable cfg now newTrace newSpan h c s : cc_Service cfg <> "" -> cc_Env cfg <> "" -> IsZero now = false ->
  newTrace <> "" -> newSpan <> "" -> requestStateFromContext h c = Some s -> s_once s = false ->
  exists ev h', RequestEnd cfg now newTrace newSpan c h = (if presentable s then Offered ev else Invalid, h') /\
    oc_StatusCode (we_Outcome ev) = reported s /\
    oc_Success (we_Outcome ev) = (reported s <? 500) && match s_err s with Some _ => false | None => true end /\
    (we_Error ev = None <-> oc_Success (we_Outcome ev) = true) /\
    forall now' t' s', RequestEnd cfg now' t' s' c h' = (Nothing, h').
Proof.
  intros Hs He Hn Ht Hsp Hst Ho. pose proof (state_after_once _ _ _ Hst) as Hst'.
  pose proof (assembled_valid cfg now newTrace newSpan _ c _ Hs He Hn Ht Hsp Hst') as Hv.
  exists (end_event cfg now newTrace newSpan (on_state set_once h c) c (set_once s)), (on_state set_once h c).
  unfold RequestEnd at 1. rewrite Hst, Ho.
  change (end_event cfg now newTrace newSpan (on_state set_once h c) c s) with (end_event cfg now newTrace newSpan (on_state set_once h c) c (set_once s)).
  change (presentable (set_once s)) with (presentable s) in Hv. split; [|split; [|split; [|split]]].
  - destruct (Validate _ _); [by rewrite (proj1 Hv)|]. destruct (presentable s); [by specialize (proj2 Hv eq_refl)|done].
  - reflexivity.
  - reflexivity.
  - unfold end_event, assembleEvent. cbn [we_Error we_Outcome oc_Success]. by destruct (_ && _).
  - intros now' t' s'. unfold RequestEnd. by rewrite Hst'.
Qed.
End Sdk.

(** ** Concrete requests *)

Definition demo_config : ClientConfig (E := string) := mkClientConfig "shop" "prod" "1" "" None.
Definition demo_state : RequestState (E := string) := set_err "boom" 302 (SetRouteTemplate "/pay" (NewRequestState (unix_epoch + Second) 200 "external" "shop")).
Definition demo_ctx : ctx := WithRequestState 1%positive empty_ctx.

Lemma RequestEnd_presentable_witness : exists ev h',
  RequestEnd id id demo_config (unix_epoch + 2 * Second) "t" "s" demo_ctx {[1%positive := demo_state]} = (Offered ev, h') /\
  oc_StatusCode (we_Outcome ev) = 500 /\ RequestEnd id id demo_config 5 "t" "s" demo_ctx h' = (Nothing, h').
Proof.
  destruct (RequestEnd_presentable id id id demo_config (unix_epoch + 2 * Second) "t" "s" {[1%positive := demo_state]} demo_ctx demo_state)
    as (ev & h' & E & Hc & _ & _ & H2); [discriminate|discriminate|reflexivity|discriminate|discriminate|reflexivity|reflexivity|].
  exists ev, h'. split; [exact E|]. split; [exact Hc|apply H2].
Defined.

Definition demo_request (pattern : string) : http_request := mkHttpRequest (fun _ => "") "GET" pattern.
Definition through (pattern : string) (handler : list (handler_step (E := string))) : outcome * statusWriter :=
  (Middleware id id id demo_config 1%positive (unix_epoch + Second) (unix_epoch + 2 * Second) "t" "s" (demo_request pattern) handler None ∅).1.

(** A route pattern with a method, as [http.ServeMux] has them, is taken for the route: it
    does not begin with a slash, so the event of every such request is invalid and lost. *)
Lemma method_pattern_loses_event : (through "GET /pay/{id}" []).1 = Invalid /\ match (through "/pay/{id}" []).1 with Offered _ => True | _ => False end.
Proof. split; vm_compute; exact I || reflexivity. Qed.

(** The status of the event is the last one written, not the one that was sent. *)
Lemma second_header_reported :
  match through "/pay" [HWriteHeader 200; HWriteHeader 500] with
  | (Offered ev, w) => (oc_StatusCode (we_Outcome ev), oc_Success (we_Outcome ev), sw_sent w) = (500, false, Some 200)
  | _ => False
  end.
Proof. vm_compute. reflexivity. Qed.

(** What was put on the context before the state is not looked at. *)
Lemma early_user_ignored :
  let '(h, c) := WithUser (mkUser "u1" "gold" "" false) ∅ empty_ctx in
  userFromContext (<[1%positive := demo_state]> h) (WithRequestState 1%positive c) = None.
Proof. vm_compute. reflexivity. Qed.
