(* ===== verification/V1Client.v ===== *)
(** The client of the first-generation SDK ([pkg/client.go], config.go, stats.go) and its
    transports ([pkg/transport]): the bounded queue, the worker that batches and flushes, the
    close with its deadline, and delivery over HTTP with retries, in memory or to
    nothing, behind the interface the worker needs. *)

From S2P Require Import Prelude GoRuntime GoText WideEvent TraceContext Pipeline Count SdkLife V1Sdk.
Open Scope Z_scope.

(** ** Transports *)

(** What the client needs of a transport ([transport.Transport]): how many events of a batch
    were sent, which is all of them without an error; and to close it. *)
Class Sender (T Env : Type) := {
  Send : T -> Env -> list WideEvent -> T * Z * option string;
  CloseTransport : T -> Env -> T * option string;
  Send_bounds : forall t env batch t' sent err, Send t env batch = (t', sent, err) -> 0 <= sent <= Z.of_nat (length batch);
  Send_all : forall t env batch t' sent, Send t env batch = (t', sent, None) -> sent = Z.of_nat (length batch)
}.

(** The context's error when it is asked. *)
Definition nop_send (t : unit) (ctxErr : option string) (batch : list WideEvent) : unit * Z * option string :=
  match ctxErr with Some err => (t, 0, Some err) | None => (t, Z.of_nat (length batch), None) end.

Definition nop_close (t : unit) (ctxErr : option string) : unit * option string := (t, ctxErr).

#[export] Program Instance NopTransport : Sender unit (option string) := {| Send := nop_send; CloseTransport := nop_close |}.
Next Obligation. intros t [err|] batch t' sent e E; cbn in E; injection E as _ <- _; lia. Qed.
Next Obligation. intros t [err|] batch t' sent E; cbn in E; [discriminate|by injection E as _ <-]. Qed.

Record InMemory := mkInMemory { im_events : list WideEvent; im_closed : bool }.
Definition memory_send (t : InMemory) (ctxErr : option string) (batch : list WideEvent) : InMemory * Z * option string :=
  match ctxErr with
  | Some err => (t, 0, Some err)
  | None =>
    if im_closed t then (t, 0, Some "transport closed")
    else if (length batch =? 0)%nat then (t, 0, None)
    else (mkInMemory (im_events t ++ batch) (im_closed t), Z.of_nat (length batch), None)
  end.

Definition memory_close (t : InMemory) (ctxErr : option string) : InMemory * option string :=
  match ctxErr with Some err => (t, Some err) | None => (mkInMemory (im_events t) true, None) end.

#[export] Program Instance InMemoryTransport : Sender InMemory (option string) := {| Send := memory_send; CloseTransport := memory_close |}.
Next Obligation. intros t env batch t' sent err E. unfold memory_send in E. repeat case_match; injection E as _ <- _; lia. Qed.
Next Obligation.
  intros t env batch t' sent E. unfold memory_send in E. repeat case_match; try discriminate; injection E as _ <-; [|done].
  match goal with H : (_ =? 0)%nat = true |- _ => apply Nat.eqb_eq in H; lia end.
Qed.

(** *** HTTP *)

(** What the code asks of an error of the network. *)
Record net_error := mkNetError { ne_text : string; ne_context : bool; ne_dns : bool; ne_tls : bool; ne_timeout : bool; ne_connection : bool }.

Definition isTransientNetErr (e : net_error) : bool :=
  if ne_context e then false
  else if ne_dns e then false
  else if ne_tls e then false
  else if ne_timeout e then true
  else ne_connection e.

Inductive exchange := NoRequest (msg : string) | Broken (e : net_error) | Answered (status : Z).

Definition maxRetries : nat := 3.

(** What a batch meets: the encoder, the context before each event and during each wait,
    and each POST; events and attempts count from 0. *)
Record http_env := mkHttpEnv {
  he_marshal : WideEvent -> option string; he_ctx : nat -> option string; he_wait : nat -> nat -> option string; he_post : nat -> nat -> exchange
}.

(** The loop of [sendOne] with [remaining] attempts to go: the error, and the POSTs made. *)
Fixpoint send_attempts (env : http_env) (i attempt remaining : nat) (lastErr : string) : option string * nat :=
  match remaining with
  | O => (Some ("retries exhausted: " +:+ lastErr), O)
  | S remaining =>
    match (if (0 <? attempt)%nat then he_wait env i attempt else None) with
    | Some err => (Some err, O)
    | None =>
      match he_post env i attempt with
      | NoRequest msg => (Some ("new request: " +:+ msg), O)
      | Broken e =>
        if isTransientNetErr e then let '(r, n) := send_attempts env i (S attempt) remaining (ne_text e) in (r, S n) else (Some (ne_text e), 1%nat)
      | Answered status =>
        if (200 <=? status) && (status <? 300) then (None, 1%nat)
        else if status =? 503 then let '(r, n) := send_attempts env i (S attempt) remaining ("HTTP " +:+ Itoa status) in (r, S n)
        else (Some ("HTTP " +:+ Itoa status), 1%nat)
      end
    end
  end.

Definition sendOne (env : http_env) (i : nat) (ev : WideEvent) : option string * nat :=
  match he_marshal env ev with
  | None => (Some "marshal", O)
  | Some _ => send_attempts env i 0 maxRetries ""
  end.

(** [ht_posts] counts the POSTs, [ht_acked] the events answered with success; no code reads
    them. *)
Record HTTPTransport := mkHTTPTransport { ht_url : string; ht_apiKey : string; ht_posts : nat; ht_acked : list WideEvent }.

Fixpoint send_loop (env : http_env) (i : nat) (n : nat) (batch : list WideEvent) (t : HTTPTransport) (sent : Z) : HTTPTransport * Z * option string :=
  match batch with
  | [] => (t, sent, None)
  | ev :: batch =>
    match he_ctx env (S i) with
    | Some err => (t, sent, Some err)
    | None =>
      let '(err, posts) := sendOne env i ev in
      let t := mkHTTPTransport (ht_url t) (ht_apiKey t) (ht_posts t + posts) (ht_acked t) in
      match err with
      | Some err => (t, sent, Some ("event " +:+ Itoa (Z.of_nat (S i)) +:+ "/" +:+ Itoa (Z.of_nat n) +:+ ": " +:+ err))
      | None => send_loop env (S i) n batch (mkHTTPTransport (ht_url t) (ht_apiKey t) (ht_posts t) (ht_acked t ++ [ev])) (sent + 1)
      end
    end
  end.

Definition http_send (t : HTTPTransport) (env : http_env) (batch : list WideEvent) : HTTPTransport * Z * option string :=
  match he_ctx env 0 with Some err => (t, 0, Some err) | None => send_loop env 0 (length batch) batch t 0 end.

Lemma send_attempts_posts env i : forall remaining attempt lastErr, (snd (send_attempts env i attempt remaining lastErr) <= remaining)%nat.
Proof.
  induction remaining as [|remaining IH]; intros attempt lastErr; cbn [send_attempts]; [done|]. destruct (if (0 <? attempt)%nat then _ else _); [cbn; lia|].
  destruct (he_post env i attempt) as [msg|e|status]; [cbn; lia| |].
  - destruct (isTransientNetErr e); [|cbn; lia]. specialize (IH (S attempt) (ne_text e)). destruct (send_attempts _ _ _ _ _). cbn in *. lia.
  - destruct (_ && _); [cbn; lia|]. destruct (_ =? _); [|cbn; lia]. specialize (IH (S attempt) ("HTTP " +:+ Itoa status)).
    destruct (send_attempts _ _ _ _ _). cbn in *. lia.
Qed.

Lemma sendOne_posts env i ev : (snd (sendOne env i ev) <= maxRetries)%nat.
Proof. unfold sendOne. case_match; [apply send_attempts_posts|cbn; lia]. Qed.

(** What a batch comes to: the first [sent] events are acknowledged, with at most three
    POSTs for each event tried. *)
Lemma send_loop_spec env n : forall batch i t sent t' sent' err, send_loop env i n batch t sent = (t', sent', err) ->
  exists k, sent' = sent + Z.of_nat k /\ (k <= length batch)%nat /\ ht_acked t' = ht_acked t ++ take k batch /\
    (ht_posts t' <= ht_posts t + maxRetries * S k)%nat /\ (err = None -> k = length batch) /\ (err <> None -> (k < length batch)%nat).
Proof.
  induction batch as [|ev batch IH]; intros i t sent t' sent' err E; cbn [send_loop] in E.
  { injection E as <- <- <-. exists 0%nat. rewrite app_nil_r. repeat split; try done; lia. }
  destruct (he_ctx env (S i)).
  { injection E as <- <- <-. exists 0%nat. rewrite app_nil_r. cbn [length]. repeat split; try done; lia. }
  destruct (sendOne env i ev) as [[e|] posts] eqn:Eo; pose proof (sendOne_posts env i ev) as Hp; rewrite Eo in Hp; cbn [snd] in Hp; cbv zeta in E.
  { injection E as <- <- <-. exists 0%nat. cbn [ht_acked ht_posts take length]. rewrite app_nil_r. repeat split; try done; try lia. }
  apply IH in E as (k & -> & Hk & Ha & Hpo & H1 & H2). exists (S k). cbn [ht_acked ht_posts take length] in *.
  rewrite Ha, <- app_assoc. cbn [app]. repeat split; try done; try lia.
  - intros He. rewrite (H1 He). done.
  - intros He. specialize (H2 He). lia.
Qed.

Lemma http_send_spec t env batch t' sent err : http_send t env batch = (t', sent, err) ->
  exists k, sent = Z.of_nat k /\ (k <= length batch)%nat /\ ht_acked t' = ht_acked t ++ take k batch /\
    (ht_posts t' <= ht_posts t + maxRetries * S k)%nat /\ (err = None -> k = length batch).
Proof.
  unfold http_send. destruct (he_ctx env 0).
  - intros [= <- <- <-]. exists 0%nat. rewrite app_nil_r. repeat split; try done; lia.
  - intros (k & -> & H)%send_loop_spec. exists k. split; [lia|]. destruct H as (? & ? & ? & ? & _). done.
Qed.

Definition http_close (t : HTTPTransport) (env : http_env) : HTTPTransport * option string := (t, he_ctx env 0).

#[export] Program Instance HTTPSender : Sender HTTPTransport http_env := {| Send := http_send; CloseTransport := http_close |}.
Next Obligation. intros t env batch t' sent err E. apply http_send_spec in E as (k & -> & Hk & _). lia. Qed.
Next Obligation. intros t env batch t' sent E. apply http_send_spec in E as (k & -> & _ & _ & _ & H). by rewrite (H eq_refl). Qed.

(** [NewHTTPTransport]; the URL parser gives scheme, host, query and fragment. *)
Definition preferEnv (env : string -> string) (keys : list string) : string :=
  default "" (List.find (fun v => negb (String.eqb v "")) (env <$> keys)).

Definition NewHTTPTransport (parse : string -> option (string * string * string * string)) (env : string -> string) (ingestURL : string)
    : string + HTTPTransport :=
  let ingestURL := trim_slashes ingestURL in
  match parse ingestURL with
  | None => inl "invalid ingest URL: "
  | Some (scheme, host, query, fragment) =>
    if String.eqb scheme "" || String.eqb host "" then inl ("invalid ingest URL: missing scheme or host: " +:+ ingestURL)
    else if negb (String.eqb query "") then inl ("invalid ingest URL: query parameters not allowed: " +:+ ingestURL)
    else if negb (String.eqb fragment "") then inl ("invalid ingest URL: fragment not allowed: " +:+ ingestURL)
    else inr (mkHTTPTransport (if HasSuffix ingestURL "/v1/events" then ingestURL else ingestURL +:+ "/v1/events")
                (preferEnv env ["WAYLOG_WRITE_KEY"; "WAYLOG_API_KEY"]) 0 [])
  end.

(** A per-request timeout of [net/http] is [context.DeadlineExceeded] too, so it is not
    retried. *)
Lemma client_timeout_permanent text : isTransientNetErr (mkNetError text true false false true false) = false.
Proof. reflexivity. Qed.

(** ** The client *)

Record QueueConfig := mkQueueConfig { qc_QueueSize : Z; qc_BatchSize : Z; qc_FlushInterval : Duration; qc_ShutdownTimeout : Duration }.

Definition applyDefaults (c : QueueConfig) : QueueConfig :=
  mkQueueConfig (if qc_QueueSize c <=? 0 then 10000 else qc_QueueSize c) (if qc_BatchSize c <=? 0 then 100 else qc_BatchSize c)
    (if qc_FlushInterval c <=? 0 then Second else qc_FlushInterval c) (if qc_ShutdownTimeout c <=? 0 then 5 * Second else qc_ShutdownTimeout c).

Inductive config_error := ErrServiceRequired | ErrEnvRequired | ErrTransportAmbiguous.

(** [Config.Validate], the transport being given or not. *)
Definition ValidateConfig (service env ingestURL : string) (transport_given : bool) : option config_error :=
  if String.eqb service "" then Some ErrServiceRequired
  else if String.eqb env "" then Some ErrEnvRequired
  else if negb (String.eqb ingestURL "") && transport_given then Some ErrTransportAmbiguous
  else None.

(** The deadline [Close] works with: [ctx]'s when it is near enough. *)
Definition ensureTimeout (deadline : option Time) (now : Time) (timeout : Duration) : Time :=
  let timeout := if timeout <=? 0 then 5 * Second else timeout in
  match deadline with
  | Some d => if TimeSub d now <=? timeout then d else Z.min d (TimeAdd now timeout)
  | None => TimeAdd now timeout
  end.

Section Client.
Context {T Env E : Type} `{Sender T Env} (error_text : E -> string) (Quote : string -> string).

(** The worker: in its loop, draining after [closeCh], counting what the queue still holds
    after the deadline, or gone; whether the queue was closed when it left, no code reads. *)
Inductive worker := Looping | DrainingQueue | Dumping (dropped : nat) | Gone (closed : bool).

(** How far [Close] is: not called, past [closed.Store(true)], past [close(closeCh)], past
    [close(queue)], returned. *)
Inductive phase := Serving | Stored | Signalled | QueueClosed | Returned (err : option string).
Definition is_closed (p : phase) : bool := match p with Serving => false | _ => true end.
Definition closeCh_closed (p : phase) : bool := match p with Serving | Stored => false | _ => true end.
Definition queue_closed (p : phase) : bool := match p with QueueClosed | Returned _ => true | _ => false end.

(** [cl_calls] are the calls of [enqueue] under way, each past the check of [closed] or not. *)
Record client := mkClient {
  cl_cfg : QueueConfig; cl_queue : list WideEvent; cl_batch : list WideEvent; cl_phase : phase; cl_worker : worker; cl_transport : T;
  cl_emitted : Z; cl_dropped : Z; cl_invalid : Z; cl_errors : Z; cl_calls : list (WideEvent * bool)
}.

Definition New (cfg : QueueConfig) (t : T) : client := mkClient (applyDefaults cfg) [] [] Serving Looping t 0 0 0 0 [].

Definition incDropped (n : Z) (c : client) : client :=
  mkClient (cl_cfg c) (cl_queue c) (cl_batch c) (cl_phase c) (cl_worker c) (cl_transport c) (cl_emitted c) (wrapU64 (cl_dropped c + n))
    (cl_invalid c) (cl_errors c) (cl_calls c).
Definition incValidateFailed (n : Z) (c : client) : client :=
  mkClient (cl_cfg c) (cl_queue c) (cl_batch c) (cl_phase c) (cl_worker c) (cl_transport c) (cl_emitted c) (cl_dropped c)
    (wrapU64 (cl_invalid c + n)) (cl_errors c) (cl_calls c).

Definition set_buffers (queue batch : list WideEvent) (w : worker) (c : client) : client :=
  mkClient (cl_cfg c) queue batch (cl_phase c) w (cl_transport c) (cl_emitted c) (cl_dropped c) (cl_invalid c) (cl_errors c) (cl_calls c).
Definition set_calls (calls : list (WideEvent * bool)) (c : client) : client :=
  mkClient (cl_cfg c) (cl_queue c) (cl_batch c) (cl_phase c) (cl_worker c) (cl_transport c) (cl_emitted c) (cl_dropped c) (cl_invalid c) (cl_errors c) calls.
Definition set_phase (p : phase) (t : T) (c : client) : client :=
  mkClient (cl_cfg c) (cl_queue c) (cl_batch c) p (cl_worker c) t (cl_emitted c) (cl_dropped c) (cl_invalid c) (cl_errors c) (cl_calls c).

(** [enqueue], in its two steps.  A call that finds the client closed drops its event. *)
Definition enqueue_check (i : nat) (c : client) : option client :=
  match cl_calls c !! i with
  | Some (ev, false) =>
    Some (if is_closed (cl_phase c) then incDropped 1 (set_calls (delete i (cl_calls c)) c) else set_calls (<[i := (ev, true)]> (cl_calls c)) c)
  | _ => None
  end.

(** The send, of which a full queue drops the event, and so does a queue closed since,
    whose panic is recovered. *)
Definition enqueue (i : nat) (c : client) : option client :=
  match cl_calls c !! i with
  | Some (ev, true) =>
    let c := set_calls (delete i (cl_calls c)) c in
    Some (if queue_closed (cl_phase c) then incDropped 1 c
          else if Z.of_nat (length (cl_queue c)) <? qc_QueueSize (cl_cfg c) then set_buffers (cl_queue c ++ [ev]) (cl_batch c) (cl_worker c) c
          else incDropped 1 c)
  | _ => None
  end.

(** [flush]. *)
Definition flush (env : Env) (c : client) : client :=
  if (length (cl_batch c) =? 0)%nat then c else
  let '(t, sent, err) := Send (cl_transport c) env (cl_batch c) in
  let dropped := Z.of_nat (length (cl_batch c)) - sent in
  mkClient (cl_cfg c) (cl_queue c) [] (cl_phase c) (cl_worker c) t
    (if 0 <? sent then wrapU64 (cl_emitted c + sent) else cl_emitted c)
    (match err with Some _ => if 0 <? dropped then wrapU64 (cl_dropped c + dropped) else cl_dropped c | None => cl_dropped c end)
    (cl_invalid c) (match err with Some _ => wrapU64 (cl_errors c + 1) | None => cl_errors c end) (cl_calls c).

(** *** The worker *)

(** [run]: which case of its select it takes, and what the transport meets. *)
Inductive work := WReceive (env : Env) | WTick (env : Env) | WStop | WLast (env : Env) | WDeadline | WDump | WDumpEnd.

Definition work_step (w : work) (c : client) : option client :=
  match w, cl_worker c, cl_queue c with
  | WReceive env, (Looping | DrainingQueue) as w, ev :: queue =>
    let c := set_buffers queue (cl_batch c ++ [ev]) w c in
    Some (if qc_BatchSize (cl_cfg c) <=? Z.of_nat (length (cl_batch c)) then flush env c else c)
  | WTick env, Looping, _ => Some (flush env c)
  | WStop, Looping, queue => if closeCh_closed (cl_phase c) then Some (set_buffers queue (cl_batch c) DrainingQueue c) else None
  | WLast env, (Looping | DrainingQueue), [] =>
    if queue_closed (cl_phase c) then let c := flush env c in Some (set_buffers [] (cl_batch c) (Gone true) c) else None
  | WDeadline, DrainingQueue, queue => Some (set_buffers queue [] (Dumping (length (cl_batch c))) c)
  | WDump, Dumping n, _ :: queue => Some (set_buffers queue (cl_batch c) (Dumping (S n)) c)
  | WDumpEnd, Dumping n, [] =>
    let c := set_buffers [] (cl_batch c) (Gone (queue_closed (cl_phase c))) c in
    Some (if (0 <? n)%nat then incDropped (Z.of_nat n) c else c)
  | _, _, _ => None
  end.

(** *** Close *)

(** [closeOnce] lets one call in; [CReturn] is [done], [CExpire] the end of the context. *)
Inductive closing := CStore | CSignal | CQueue | CReturn (env : Env) | CExpire (err : string).

Definition close_step (k : closing) (c : client) : option client :=
  match k, cl_phase c with
  | CStore, Serving => Some (set_phase Stored (cl_transport c) c)
  | CSignal, Stored => Some (set_phase Signalled (cl_transport c) c)
  | CQueue, Signalled => Some (set_phase QueueClosed (cl_transport c) c)
  | CReturn env, QueueClosed =>
    match cl_worker c with Gone _ => let '(t, err) := CloseTransport (cl_transport c) env in Some (set_phase (Returned err) t c) | _ => None end
  | CExpire err, QueueClosed => Some (set_phase (Returned (Some err)) (cl_transport c) c)
  | _, _ => None
  end.

(** ** The program: requests by pointer and one client *)

(** [sy_strays] counts the calls that found no request state, which no code reads. *)
Record system := mkSystem { sy_heap : gmap positive (RequestState (E := E)); sy_client : client; sy_strays : Z }.

Inductive sys_event :=
| EBegin (p : positive) (start : Time) (statusCode : Z) (caller service : string)
| ESet (p : positive) (o : request_op)
| EStatus (p : positive) (code : Z)
| EError (c : ctx) (err : E)
| EEnd (c : ctx) (cfg : ClientConfig (E := E)) (now : Time) (newTrace newSpan : string)
| ECheck (i : nat)
| ESend (i : nat)
| EWork (w : work)
| EClose (k : closing).

Definition count_outcome (o : outcome) (c : client) : client :=
  match o with
  | Offered ev => set_calls (cl_calls c ++ [(ev, false)]) c
  | Invalid => incDropped 1 (incValidateFailed 1 c)
  | Dropped => incDropped 1 c
  | Nothing => c
  end.
Definition stray (o : outcome) : Z := match o with Dropped => 1 | _ => 0 end.

Definition with_client (c : client) (y : system) : system := mkSystem (sy_heap y) c (sy_strays y).

Definition sys_step (e : sys_event) (y : system) : option system :=
  let cl := sy_client y in
  match e with
  | EBegin p start code caller service =>
    match sy_heap y !! p with
    | Some _ => None
    | None => Some (mkSystem (<[p := NewRequestState start code caller service]> (sy_heap y)) cl (sy_strays y))
    end
  | ESet p o => Some (mkSystem (alter (run_request_op o) p (sy_heap y)) cl (sy_strays y))
  | EStatus p code => Some (mkSystem (alter (SetStatus code) p (sy_heap y)) cl (sy_strays y))
  | EError c err => let '(o, h) := Error err c (sy_heap y) in Some (mkSystem h (count_outcome o cl) (sy_strays y + stray o))
  | EEnd c cfg now newTrace newSpan =>
    let '(o, h) := RequestEnd error_text Quote cfg now newTrace newSpan c (sy_heap y) in
    Some (mkSystem h (count_outcome o cl) (sy_strays y + stray o))
  | ECheck i => (fun c => with_client c y) <$> enqueue_check i cl
  | ESend i => (fun c => with_client c y) <$> enqueue i cl
  | EWork w => (fun c => with_client c y) <$> work_step w cl
  | EClose k => (fun c => with_client c y) <$> close_step k cl
  end.

Fixpoint sys_run (l : list sys_event) (y : system) : option system :=
  match l with [] => Some y | e :: l => y ← sys_step e y; sys_run l y end.

Definition start_system (cfg : QueueConfig) (t : T) : system := mkSystem ∅ (New cfg t) 0.

(** ** What the counters say *)

Definition ended (h : gmap positive (RequestState (E := E))) : Z := cnt_map s_once h.

Lemma wrapU64_eq64 n : eq64 (wrapU64 n) n.
Proof. constructor. unfold wrap64, wrapU64. f_equal. by rewrite Zplus_mod_idemp_l. Qed.

Definition dumping (w : worker) : nat := match w with Dumping n => n | _ => 0 end.
Definition held (c : client) : Z :=
  Z.of_nat (length (cl_queue c)) + Z.of_nat (length (cl_batch c)) + Z.of_nat (length (cl_calls c)) + Z.of_nat (dumping (cl_worker c)).
Definition total (c : client) : Z := cl_emitted c + cl_dropped c + held c.

Definition valid_event (ev : WideEvent) : Prop := Validate Quote ev = [].

Record client_ok (c : client) : Prop := {
  co_sizes : 0 < qc_QueueSize (cl_cfg c) /\ 0 < qc_BatchSize (cl_cfg c);
  co_queue : Z.of_nat (length (cl_queue c)) <= qc_QueueSize (cl_cfg c);
  co_batch : Z.of_nat (length (cl_batch c)) < qc_BatchSize (cl_cfg c);
  co_valid : Forall valid_event (cl_batch c ++ cl_queue c ++ (cl_calls c).*1);
  co_worker : match cl_worker c with Looping | DrainingQueue => True | Dumping _ => cl_batch c = []
              | Gone after => cl_batch c = [] /\ (after = true -> queue_closed (cl_phase c) = true /\ cl_queue c = []) end
}.

(** Equality of the totals is of arithmetic, counters wrapping. *)
Ltac totals :=
  unfold total, held; cbn [cl_cfg cl_queue cl_batch cl_phase cl_worker cl_transport cl_emitted cl_dropped cl_invalid cl_errors cl_calls
    incDropped incValidateFailed set_buffers set_calls set_phase dumping]; rewrite ?wrapU64_eq64, ?length_app; cbn [length];
  apply eq_subrelation; [typeclasses eauto|]; try lia.

(** What does not touch the buffers. *)
Lemma client_ok_counters c c' : client_ok c -> cl_cfg c' = cl_cfg c -> cl_queue c' = cl_queue c -> cl_batch c' = cl_batch c ->
  cl_phase c' = cl_phase c -> cl_worker c' = cl_worker c -> cl_calls c' = cl_calls c -> client_ok c'.
Proof. intros [H1 H2 H3 H4 H5] E1 E2 E3 E4 E5 E6. constructor; rewrite ?E1, ?E2, ?E3, ?E4, ?E5, ?E6; done. Qed.

(** The calls under way change, and all of them still carry valid events. *)
Lemma client_ok_calls c calls : client_ok c -> Forall valid_event calls.*1 -> client_ok (set_calls calls c).
Proof.
  intros [H1 H2 H3 H4 H5] Hv. constructor; cbn; try done. rewrite app_assoc in H4 |- *. apply Forall_app in H4 as [H4 _]. by apply Forall_app.
Qed.

Lemma calls_valid c : client_ok c -> Forall valid_event (cl_calls c).*1.
Proof. intros [_ _ _ Hv _]. apply Forall_app in Hv as [_ Hv]. by apply Forall_app in Hv as [_ ?]. Qed.

Lemma delete_calls (calls : list (WideEvent * bool)) i ev b : calls !! i = Some (ev, b) -> Forall valid_event calls.*1 ->
  valid_event ev /\ Forall valid_event (delete i calls).*1 /\ S (length (delete i calls)) = length calls.
Proof.
  intros Hi Hv. pose proof (delete_Permutation _ _ _ Hi) as Hp. rewrite Hp in Hv. cbn in Hv. apply Forall_cons in Hv as [? ?].
  split; [done|]. split; [done|]. rewrite length_delete by by eexists.
  apply lookup_lt_Some in Hi. lia.
Qed.

Lemma enqueue_check_ok i c c' : client_ok c -> enqueue_check i c = Some c' -> client_ok c' /\ eq64 (total c') (total c).
Proof.
  intros Hc. unfold enqueue_check. destruct (cl_calls c !! i) as [[ev [|]]|] eqn:Ei; try done. intros [= <-].
  pose proof (calls_valid c Hc) as Hv. destruct (delete_calls _ _ _ _ Ei Hv) as (He & Hd & Hl). destruct (is_closed _).
  - split; [by apply (client_ok_counters (set_calls (delete i (cl_calls c)) c)); [apply client_ok_calls|..]|]. totals.
  - split; [|totals; rewrite length_insert; lia]. apply client_ok_calls; [done|]. rewrite list_fmap_insert. cbn. by apply Forall_insert.
Qed.

Lemma enqueue_ok i c c' : client_ok c -> enqueue i c = Some c' -> client_ok c' /\ eq64 (total c') (total c).
Proof.
  intros Hc. unfold enqueue. destruct (cl_calls c !! i) as [[ev [|]]|] eqn:Ei; try done. cbv zeta. intros [= <-].
  pose proof (calls_valid c Hc) as Hv. destruct (delete_calls _ _ _ _ Ei Hv) as (He & Hd & Hl).
  set (c1 := set_calls (delete i (cl_calls c)) c). assert (client_ok c1) as H1 by by apply client_ok_calls.
  assert (client_ok (incDropped 1 c1) /\ eq64 (total (incDropped 1 c1)) (total c)) as Hdrop.
  { split; [by apply (client_ok_counters c1)|]. unfold c1. totals. }
  destruct (queue_closed (cl_phase c)) eqn:Eq; [done|]. destruct (_ <? _) eqn:El; [|done]. bool_prop. destruct H1 as [S1 S2 S3 S4 S5].
  unfold c1 in *. cbn [set_calls cl_cfg cl_queue cl_batch cl_phase cl_worker cl_calls] in S1, S2, S3, S4, S5. split.
  - constructor; cbn [set_buffers set_calls cl_cfg cl_queue cl_batch cl_phase cl_worker cl_calls]; rewrite ?length_app; cbn [length]; try done; try lia.
    + rewrite <- app_assoc. rewrite !Forall_app in *. destruct S4 as (? & ? & ?). repeat split; try done. by apply Forall_singleton.
    + destruct (cl_worker c); try done. destruct S5 as [Hb Ha]. split; [done|]. intros Ht. destruct (Ha Ht). congruence.
  - totals.
Qed.

(** The batch, full or not, is sent and emptied; each of its events is counted once. *)
Lemma flush_spec env c : let c' := flush env c in
  cl_cfg c' = cl_cfg c /\ cl_queue c' = cl_queue c /\ cl_batch c' = [] /\ cl_phase c' = cl_phase c /\ cl_worker c' = cl_worker c /\
  cl_calls c' = cl_calls c /\ eq64 (total c') (total c).
Proof.
  unfold flush. destruct (_ =? 0)%nat eqn:E0.
  - apply Nat.eqb_eq, nil_length_inv in E0. done.
  - destruct (Send _ _ _) as [[t sent] err] eqn:Es. pose proof (Send_bounds _ _ _ _ _ _ Es) as Hb.
    assert (err = None -> sent = Z.of_nat (length (cl_batch c))) as Ha by (intros ->; by apply Send_all in Es).
    cbn. repeat (split; [done|]). unfold total, held. cbn.
    assert (eq64 (if 0 <? sent then wrapU64 (cl_emitted c + sent) else cl_emitted c) (cl_emitted c + sent)) as H1.
    { destruct (0 <? sent) eqn:El; [apply wrapU64_eq64|]. bool_prop. apply eq_subrelation; [typeclasses eauto|]. lia. }
    assert (eq64 (match err with Some _ => if 0 <? Z.of_nat (length (cl_batch c)) - sent then wrapU64 (cl_dropped c + (Z.of_nat (length (cl_batch c)) - sent))
      else cl_dropped c | None => cl_dropped c end) (cl_dropped c + (Z.of_nat (length (cl_batch c)) - sent))) as H2.
    { destruct err; [destruct (0 <? Z.of_nat (length (cl_batch c)) - sent) eqn:El; [apply wrapU64_eq64|bool_prop]|rewrite (Ha eq_refl)]; apply eq_subrelation; try typeclasses eauto; lia. }
    rewrite H1, H2. apply eq_subrelation; [typeclasses eauto|]. lia.
Qed.

(** A batch that is full for a moment. *)
Lemma flush_ok env c : client_ok (set_buffers (cl_queue c) [] (cl_worker c) c) -> client_ok (flush env c).
Proof.
  intros [H1 H2 H3 H4 H5]. destruct (flush_spec env c) as (E1 & E2 & E3 & E4 & E5 & E6 & _).
  constructor; rewrite ?E1, ?E2, ?E3, ?E4, ?E5, ?E6; done.
Qed.

Lemma empty_batch c w : client_ok c -> (cl_worker c = Looping \/ cl_worker c = DrainingQueue) ->
  match w with Gone after => after = true -> queue_closed (cl_phase c) = true /\ cl_queue c = [] | _ => True end ->
  client_ok (set_buffers (cl_queue c) [] w c).
Proof.
  intros [H1 H2 H3 H4 H5] Hw Hg. constructor; cbn; try done; try lia.
  - by apply Forall_app in H4 as [_ ?].
  - destruct w; done.
Qed.

Lemma work_step_ok w c c' : client_ok c -> work_step w c = Some c' -> client_ok c' /\ eq64 (total c') (total c).
Proof.
  intros Hc Es. pose proof Hc as [H1 H2 H3 H4 H5]. destruct w; cbn [work_step] in Es.
  - assert (exists ev queue, cl_queue c = ev :: queue /\ (cl_worker c = Looping \/ cl_worker c = DrainingQueue) /\
      c' = (let c := set_buffers queue (cl_batch c ++ [ev]) (cl_worker c) c in
        if qc_BatchSize (cl_cfg c) <=? Z.of_nat (length (cl_batch c)) then flush env c else c)) as (ev & queue & Eq & Hw & ->).
    { destruct (cl_worker c), (cl_queue c) as [|ev queue]; try done; injection Es as <-; exists ev, queue; auto. }
    clear Es. cbv zeta. set (c1 := set_buffers _ _ _ c). rewrite Eq in H2, H4. cbn [length] in H2.
    assert (eq64 (total c1) (total c)) as Ht by (unfold c1; totals; rewrite Eq; cbn [length]; lia).
    assert (Forall valid_event (cl_batch c1 ++ cl_queue c1 ++ (cl_calls c1).*1)) as Hv by (unfold c1; cbn; by rewrite <- app_assoc).
    assert (cl_worker c1 = Looping \/ cl_worker c1 = DrainingQueue) as Hw1 by done.
    destruct (_ <=? _) eqn:El.
    + destruct (flush_spec env c1) as (_ & _ & _ & _ & _ & _ & Hf). split; [|by rewrite Hf]. apply flush_ok. unfold c1. constructor; cbn; try done; try lia.
      * apply Forall_app in H4 as [_ H4]. by apply Forall_cons in H4 as [_ ?].
      * by destruct Hw as [-> | ->].
    + bool_prop. split; [|done]. constructor; try done; unfold c1 in *; cbn in *; try lia. by destruct Hw as [-> | ->].
  - destruct (cl_worker c) eqn:Ew; try (by destruct (cl_queue c)). assert (c' = flush env c) as -> by (destruct (cl_queue c); by injection Es).
    destruct (flush_spec env c) as (_ & _ & _ & _ & _ & _ & Hf). split; [|done]. apply flush_ok. rewrite Ew. apply empty_batch; auto.
  - destruct (cl_worker c) eqn:Ew; try (by destruct (cl_queue c)). destruct (closeCh_closed _) eqn:Ec; [|by destruct (cl_queue c)].
    assert (c' = set_buffers (cl_queue c) (cl_batch c) DrainingQueue c) as -> by (destruct (cl_queue c); by injection Es).
    split; [by constructor|]. totals. by rewrite Ew.
  - assert (cl_queue c = [] /\ (cl_worker c = Looping \/ cl_worker c = DrainingQueue) /\ queue_closed (cl_phase c) = true /\
      c' = set_buffers [] (cl_batch (flush env c)) (Gone true) (flush env c)) as (Eq & Hw & Ec & ->).
    { destruct (cl_worker c), (cl_queue c) as [|ev queue]; try done; (destruct (queue_closed _); [|done]); injection Es as <-; auto. }
    destruct (flush_spec env c) as (E1 & E2 & E3 & E4 & E5 & E6 & Hf). split.
    + constructor; cbn; rewrite ?E1, ?E3, ?E4, ?E6; try done; cbn; try lia. rewrite Eq in H4. by apply Forall_app in H4 as [_ ?].
    + rewrite <- Hf. unfold total, held. cbn. rewrite E2, E5, Eq. apply eq_subrelation; [typeclasses eauto|]. destruct Hw as [-> | ->]; done.
  - destruct (cl_worker c) eqn:Ew; try (by destruct (cl_queue c)).
    assert (c' = set_buffers (cl_queue c) [] (Dumping (length (cl_batch c))) c) as -> by (destruct (cl_queue c); by injection Es).
    split; [apply empty_batch; auto|]. totals. rewrite Ew. cbn. lia.
  - destruct (cl_worker c) as [| |n|] eqn:Ew; try (by destruct (cl_queue c)). destruct (cl_queue c) as [|ev queue] eqn:Eq; [done|]. injection Es as <-.
    cbn [length] in H2. split; [constructor; cbn; try done; try lia|].
    + apply Forall_app in H4 as [? H4]. cbn in H4. apply Forall_cons in H4 as [_ ?]. by apply Forall_app.
    + totals. rewrite Ew, Eq. cbn [length dumping]. lia.
  - destruct (cl_worker c) as [| |n|] eqn:Ew; try (by destruct (cl_queue c)). destruct (cl_queue c) as [|ev queue] eqn:Eq; [|done]. injection Es as <-.
    assert (client_ok (set_buffers [] (cl_batch c) (Gone (queue_closed (cl_phase c))) c)) as Hg by (constructor; cbn; done).
    destruct (0 <? n)%nat eqn:En.
    + split; [by eapply client_ok_counters|]. totals. rewrite Ew, Eq. cbn [length dumping]. lia.
    + apply Nat.ltb_ge in En. split; [done|]. totals. rewrite Ew, Eq. cbn [length dumping]. lia.
Qed.

Lemma set_phase_ok p t c : client_ok c -> (queue_closed (cl_phase c) = true -> queue_closed p = true) ->
  client_ok (set_phase p t c) /\ eq64 (total (set_phase p t c)) (total c).
Proof.
  intros [H1 H2 H3 H4 H5] Hp. split; [|done]. constructor; cbn; try done. destruct (cl_worker c); try done. naive_solver.
Qed.

Lemma close_step_ok k c c' : client_ok c -> close_step k c = Some c' -> client_ok c' /\ eq64 (total c') (total c).
Proof.
  intros Hc Es. unfold close_step in Es. destruct k, (cl_phase c) eqn:Ep; try done.
  1-3, 5: injection Es as <-; apply set_phase_ok; [done|by rewrite Ep].
  destruct (cl_worker c); try done. destruct (CloseTransport _ _) as [t err]. injection Es as <-. apply set_phase_ok; [done|by rewrite Ep].
Qed.

Definition outcome_ok (o : outcome) : Prop := match o with Offered ev => valid_event ev | _ => True end.
Definition counted (o : outcome) : Z := match o with Nothing => 0 | _ => 1 end.

Lemma count_outcome_ok o c : client_ok c -> outcome_ok o -> client_ok (count_outcome o c) /\ eq64 (total (count_outcome o c)) (total c + counted o).
Proof.
  intros Hc Ho. destruct o as [ev| | |]; cbn [count_outcome counted].
  - split; [|totals]. apply client_ok_calls; [done|]. rewrite fmap_app. apply Forall_app. split; [by apply calls_valid|]. by apply Forall_singleton.
  - split; [by apply (client_ok_counters c)|totals].
  - split; [by apply (client_ok_counters c)|totals].
  - split; [done|]. by rewrite Z.add_0_r.
Qed.

Lemma RequestEnd_ended cfg now t sp c h o h' : RequestEnd error_text Quote cfg now t sp c h = (o, h') ->
  outcome_ok o /\ ended h' + stray o = ended h + counted o.
Proof.
  unfold RequestEnd, requestStateFromContext, on_state. destruct (cx_state c) as [p|]; cbn [mbind option_bind].
  - destruct (h !! p) as [s|] eqn:Es.
    + destruct (s_once s) eqn:Eo; [intros [= <- <-]; cbn; split; [done|lia]|].
      intros [= <- <-]. assert (alter set_once p h = <[p := set_once s]> h) as ->.
      { apply map_eq. intros q. destruct (decide (p = q)) as [<-|Hne]; [by rewrite lookup_alter_eq, Es, lookup_insert_eq|by rewrite lookup_alter_ne, lookup_insert_ne]. }
      unfold ended. rewrite cnt_map_insert, Es, Eo. unfold outcome_ok, valid_event.
      destruct (Validate _ _) eqn:Ev; cbn [stray counted]; cbn; split; try done; lia.
    + intros [= <- <-]. cbn. split; [done|lia].
  - intros [= <- <-]. cbn. split; [done|lia].
Qed.

Lemma Error_ended c err h o h' : Error err c h = (o, h') -> outcome_ok o /\ ended h' + stray o = ended h + counted o.
Proof.
  unfold Error, requestStateFromContext, on_state. destruct (cx_state c) as [p|]; cbn [mbind option_bind].
  - destruct (h !! p) as [s|] eqn:Es; [|intros [= <- <-]; cbn; split; [done|lia]].
    destruct (s_err s); intros [= <- <-]; cbn; (split; [done|]); [lia|]. unfold ended. rewrite cnt_map_alter by done. lia.
  - intros [= <- <-]. cbn. split; [done|lia].
Qed.

Record system_ok (y : system) : Prop := {
  so_client : client_ok (sy_client y);
  so_total : eq64 (total (sy_client y)) (ended (sy_heap y) + sy_strays y)
}.

(** The client changes, keeping its total. *)
Lemma system_ok_client y c : system_ok y -> client_ok c -> eq64 (total c) (total (sy_client y)) -> system_ok (with_client c y).
Proof. intros [H1 H2] Hc Ht. constructor; cbn; [done|]. by rewrite Ht. Qed.

Lemma system_ok_heap y h : system_ok y -> ended h = ended (sy_heap y) -> system_ok (mkSystem h (sy_client y) (sy_strays y)).
Proof. intros [H1 H2] Hh. constructor; cbn; [done|]. by rewrite Hh. Qed.

Lemma system_ok_outcome y o h : system_ok y -> outcome_ok o -> ended h + stray o = ended (sy_heap y) + counted o ->
  system_ok (mkSystem h (count_outcome o (sy_client y)) (sy_strays y + stray o)).
Proof.
  intros [H1 H2] Ho Hh. destruct (count_outcome_ok o _ H1 Ho) as [Hc Ht]. constructor; cbn; [done|]. rewrite Ht, H2.
  apply eq_subrelation; [typeclasses eauto|]. lia.
Qed.

Lemma sys_step_ok e y y' : system_ok y -> sys_step e y = Some y' -> system_ok y'.
Proof.
  intros Hy Es. pose proof (so_client y Hy) as Hc. destruct e; cbn [sys_step] in Es.
  - destruct (sy_heap y !! p) eqn:Ep; [done|]. injection Es as <-. apply system_ok_heap; [done|]. unfold ended. rewrite cnt_map_insert, Ep. cbn. lia.
  - injection Es as <-. apply system_ok_heap; [done|]. unfold ended. apply cnt_map_alter. intros s. destruct o; try reflexivity. unfold run_request_op, SetMetadata. by destruct (String.eqb key "").
  - injection Es as <-. apply system_ok_heap; [done|]. by apply cnt_map_alter.
  - destruct (Error err c (sy_heap y)) as [o h] eqn:Ee. injection Es as <-. destruct (Error_ended _ _ _ _ _ Ee). by apply system_ok_outcome.
  - destruct (RequestEnd _ _ _ _ _ _ _ _) as [o h] eqn:Ee. injection Es as <-. destruct (RequestEnd_ended _ _ _ _ _ _ _ _ Ee). by apply system_ok_outcome.
  - apply fmap_Some in Es as (c & Es & ->). destruct (enqueue_check_ok _ _ _ Hc Es). by apply system_ok_client.
  - apply fmap_Some in Es as (c & Es & ->). destruct (enqueue_ok _ _ _ Hc Es). by apply system_ok_client.
  - apply fmap_Some in Es as (c & Es & ->). destruct (work_step_ok _ _ _ Hc Es). by apply system_ok_client.
  - apply fmap_Some in Es as (c & Es & ->). destruct (close_step_ok _ _ _ Hc Es). by apply system_ok_client.
Qed.

Lemma sys_run_ok l : forall y y', system_ok y -> sys_run l y = Some y' -> system_ok y'.
Proof. induction l as [|e l IH]; cbn; intros y y' Hy E1; [by simplify_eq|]. apply bind_Some in E1 as (y1 & E1 & E2). eauto using sys_step_ok. Qed.

Lemma start_system_ok cfg t : system_ok (start_system cfg t).
Proof.
  constructor; [|cbn; unfold ended; by rewrite cnt_map_empty]. constructor; cbn; try done; repeat case_match; bool_prop; cbn; lia.
Qed.

(** *** The worker leaves *)

(** What the worker of a client whose queue is closed still has to do. *)
Definition rank (w : worker) : nat := match w with Looping => 3 | DrainingQueue => 2 | Dumping _ => 1 | Gone _ => 0 end.
Definition to_do (y : system) : nat := rank (cl_worker (sy_client y)) + length (cl_queue (sy_client y)).

(** A step of the worker, ticks apart. *)
Definition working (e : sys_event) : bool := match e with EWork (WTick _) => false | EWork _ => true | _ => false end.

Lemma flush_queue env c : cl_queue (flush env c) = cl_queue c /\ cl_worker (flush env c) = cl_worker c /\ cl_phase (flush env c) = cl_phase c.
Proof. by destruct (flush_spec env c) as (_ & E2 & _ & E4 & E5 & _). Qed.

Lemma work_step_to_do w c c' : work_step w c = Some c' ->
  cl_phase c' = cl_phase c /\
  (rank (cl_worker c') + length (cl_queue c') + (match w with WTick _ => 0 | _ => 1 end) <= rank (cl_worker c) + length (cl_queue c))%nat.
Proof.
  intros Es. unfold work_step in Es. destruct w; destruct (cl_worker c) eqn:Ew; destruct (cl_queue c) as [|ev queue] eqn:Eq; try done;
    repeat match type of Es with context [if ?b then _ else _] => destruct b end; try done; injection Es as <-;
    cbn [set_buffers incDropped cl_phase cl_worker cl_queue rank length];
    repeat match goal with |- context [flush ?env ?c] =>
      let F1 := fresh in let F2 := fresh in let F3 := fresh in pose proof (flush_queue env c) as (F1 & F2 & F3); rewrite ?F1, ?F2, ?F3; clear F1 F2 F3 end;
    cbn [set_buffers cl_phase cl_worker cl_queue rank length]; rewrite ?Ew, ?Eq; cbn [rank length]; (split; [done|lia]).
Qed.

Lemma sys_step_to_do e y y' : queue_closed (cl_phase (sy_client y)) = true -> sys_step e y = Some y' ->
  queue_closed (cl_phase (sy_client y')) = true /\ (to_do y' + (if working e then 1 else 0) <= to_do y)%nat.
Proof.
  intros Hq Es. destruct e; cbn [sys_step] in Es; unfold to_do; cbn [working].
  - destruct (sy_heap y !! p); [done|]. injection Es as <-. cbn. split; [done|lia].
  - injection Es as <-. cbn. split; [done|lia].
  - injection Es as <-. cbn. split; [done|lia].
  - destruct (Error _ _ _) as [o h]. injection Es as <-. cbn. destruct o; cbn; (split; [done|lia]).
  - destruct (RequestEnd _ _ _ _ _ _ _ _) as [o h]. injection Es as <-. cbn. destruct o; cbn; (split; [done|lia]).
  - apply fmap_Some in Es as (c & Es & ->). unfold enqueue_check in Es. repeat case_match; simplify_eq; cbn; (split; [done|lia]).
  - apply fmap_Some in Es as (c & Es & ->). unfold enqueue in Es. cbv zeta in Es. cbn [set_calls cl_phase] in Es. rewrite Hq in Es.
    repeat case_match; simplify_eq; cbn; (split; [done|lia]).
  - apply fmap_Some in Es as (c & Es & ->). destruct (work_step_to_do _ _ _ Es) as [Hp Hd]. cbn [with_client sy_client]. rewrite Hp. split; [done|].
    destruct w; lia.
  - apply fmap_Some in Es as (c & Es & ->). unfold close_step in Es. destruct k, (cl_phase (sy_client y)) eqn:Ep; try done; cbn in Es.
    + destruct (cl_worker (sy_client y)) eqn:Ew; try done. destruct (CloseTransport _ _) as [t err]. injection Es as <-. cbn. rewrite Ew. split; [done|cbn; lia].
    + injection Es as <-. cbn. split; [done|lia].
Qed.

Lemma sys_run_to_do l : forall y y', queue_closed (cl_phase (sy_client y)) = true -> sys_run l y = Some y' ->
  (to_do y' + length (List.filter working l) <= to_do y)%nat.
Proof.
  induction l as [|e l IH]; intros y y' Hq Es; cbn [sys_run] in Es; [simplify_eq; cbn; lia|].
  apply bind_Some in Es as (y1 & E1 & E2). destruct (sys_step_to_do e y y1 Hq E1) as [Hq1 H1]. specialize (IH y1 y' Hq1 E2).
  cbn [List.filter]. destruct (working e); cbn [length]; lia.
Qed.

Lemma worker_enabled y (env : Env) : queue_closed (cl_phase (sy_client y)) = true -> (forall b, cl_worker (sy_client y) <> Gone b) ->
  exists w, working (EWork w) = true /\ is_Some (sys_step (EWork w) y).
Proof.
  intros Hq Hw. destruct (cl_worker (sy_client y)) as [| |n|b] eqn:Ew; [| | |by destruct (Hw b)];
    destruct (cl_queue (sy_client y)) as [|ev queue] eqn:Eq.
  1, 3: exists (WLast env). 3, 4: exists (WReceive env). 5: exists WDumpEnd. 6: exists WDump.
  all: split; [done|]; cbn [sys_step work_step]; rewrite Ew, Eq, ?Hq; by eexists.
Qed.

(** C39: the counters of a client account for every request that ended, whatever its goroutines,
    its worker, the deadline of Close and the transport do: emitted and dropped, with what is
    queued, in the batch, in a call of enqueue under way and being counted by the worker, are
    the requests ended once and the calls that found no request state, which are counted as
    drops too; all of it modulo 2^64, as the counters wrap.  Only events that pass validation
    are ever queued, and queue and batch keep their bounds.  Once the worker has left after
    the queue was closed, the queue is empty and every event was emitted or dropped, or its
    call is still to drop it; a worker that left before, on a deadline that had passed already,
    may leave events in the queue that no counter knows of.  And once Close has closed the
    queue the worker leaves: ticks apart it takes at most three steps and one for each event
    queued, whatever else happens, and until it is gone it has one to take. *)
Theorem client_accounts cfg t l y : sys_run l (start_system cfg t) = Some y ->
  let c := sy_client y in
  eq64 (cl_emitted c + cl_dropped c + (Z.of_nat (length (cl_queue c)) + Z.of_nat (length (cl_batch c)) + Z.of_nat (length (cl_calls c)) +
    Z.of_nat (dumping (cl_worker c)))) (ended (sy_heap y) + sy_strays y) /\
  Forall (fun ev => Validate Quote ev = []) (cl_batch c ++ cl_queue c) /\
  Z.of_nat (length (cl_queue c)) <= qc_QueueSize (cl_cfg c) /\ Z.of_nat (length (cl_batch c)) < qc_BatchSize (cl_cfg c) /\
  (cl_worker c = Gone true -> cl_queue c = [] /\
     eq64 (cl_emitted c + cl_dropped c + Z.of_nat (length (cl_calls c))) (ended (sy_heap y) + sy_strays y)) /\
  (queue_closed (cl_phase c) = true ->
     (forall l' y', sys_run l' y = Some y' -> (length (List.filter working l') <= 3 + length (cl_queue c))%nat) /\
     (forall env : Env, (forall b, cl_worker c <> Gone b) -> exists w, working (EWork w) = true /\ is_Some (sys_step (EWork w) y))).
Proof.
  intros Es c. destruct (sys_run_ok _ _ _ (start_system_ok cfg t) Es) as [[H1 H2 H3 H4 H5] Ht].
  split; [exact Ht|]. split; [by rewrite app_assoc in H4; apply Forall_app in H4 as [? _]|]. split; [exact H2|]. split; [exact H3|]. split.
  - intros Hg. fold c in H5. rewrite Hg in H5. destruct H5 as (Hb & Hq). destruct (Hq eq_refl) as [_ Hq']. split; [done|].
    unfold total, held in Ht. fold c in Ht. rewrite Hq', Hb, Hg in Ht. cbn in Ht. by rewrite Z.add_0_r in Ht.
  - intros Hc. split; [|intros env Hw; by apply worker_enabled]. intros l' y' Hr. pose proof (sys_run_to_do l' y y' Hc Hr) as Hd.
    unfold to_do in Hd. fold c in Hd. assert (rank (cl_worker c) <= 3)%nat by (destruct (cl_worker c); cbn; lia). lia.
Qed.
End Client.

(** ** Concrete programs *)

(** Every event encodes; a POST for the event [i] of a batch is answered with [status i]. *)
Definition demo_env (status : nat -> Z) : http_env :=
  mkHttpEnv (fun _ => Some "{}") (fun _ => None) (fun _ _ => None) (fun i _ => Answered (status i)).

Definition ctx_of (p : positive) : ctx := WithRequestState p empty_ctx.

(** Three requests, one with a route that is not a path; two are queued, one of them received,
    and the client is closed. *)
Definition demo_events : list (sys_event (Env := http_env) (E := string)) :=
  [EBegin 1%positive (unix_epoch + Second) 200 "external" "shop"; EBegin 2%positive (unix_epoch + Second) 200 "external" "shop";
   EBegin 3%positive (unix_epoch + Second) 200 "external" "shop"; ESet 3%positive (RRoute "GET /pay");
   EEnd (ctx_of 1) demo_config (unix_epoch + 2 * Second) "t" "s"; EEnd (ctx_of 2) demo_config (unix_epoch + 2 * Second) "t" "s";
   ECheck 0; ECheck 1; ESend 0; ESend 0;
   EEnd (ctx_of 3) demo_config (unix_epoch + 2 * Second) "t" "s"; EWork (WReceive (demo_env (fun _ => 200))); EClose CStore; EClose CSignal; EClose CQueue].

Definition demo_start : system (T := HTTPTransport) (E := string) := start_system (mkQueueConfig 0 0 0 0) (mkHTTPTransport "http://h/v1/events" "" 0 []).
Definition demo_system : system (T := HTTPTransport) (E := string) := default demo_start (sys_run id id demo_events demo_start).

Lemma demo_events_run : sys_run id id demo_events demo_start = Some demo_system.
Proof.
  unfold demo_system. destruct (sys_run id id demo_events _) as [y|] eqn:Er; [reflexivity|].
  apply (f_equal (fun o => match o with Some _ => true | None => false end)) in Er. vm_compute in Er. discriminate Er.
Qed.

Lemma client_accounts_witness :
  eq64 (0 + 1 + (Z.of_nat 1 + Z.of_nat 1 + Z.of_nat 0 + Z.of_nat 0)) (ended (sy_heap demo_system) + sy_strays demo_system) /\
  forall l' y', sys_run id id l' demo_system = Some y' -> (length (List.filter working l') <= 3 + 1)%nat.
Proof.
  destruct (client_accounts id id (mkQueueConfig 0 0 0 0) (mkHTTPTransport "http://h/v1/events" "" 0 []) demo_events demo_system demo_events_run)
    as (Ht & _ & _ & _ & _ & Hd).
  assert (queue_closed (cl_phase (sy_client demo_system)) = true) as Hc by (vm_compute; reflexivity).
  assert (cl_worker (sy_client demo_system) = Looping) as Hw by (vm_compute; reflexivity).
  assert (length (cl_queue (sy_client demo_system)) = 1%nat) as Hq by (vm_compute; reflexivity).
  assert (length (cl_batch (sy_client demo_system)) = 1%nat) as Hb by (vm_compute; reflexivity).
  assert (length (cl_calls (sy_client demo_system)) = 0%nat) as Hk by (vm_compute; reflexivity).
  assert (cl_emitted (sy_client demo_system) + cl_dropped (sy_client demo_system) = 0 + 1) as Hs by (vm_compute; reflexivity).
  rewrite Hq, Hb, Hk, Hw, Hs in Ht. split; [exact Ht|]. rewrite Hq in Hd. exact (proj1 (Hd Hc)).
Defined.

(** The last flush sends one event and loses the other, which is counted. *)
Lemma demo_flush : (fun y => (cl_emitted (sy_client y), cl_dropped (sy_client y), cl_invalid (sy_client y), cl_errors (sy_client y))) <$>
  sys_run id id [EWork (WReceive (demo_env (fun i => if (i =? 1)%nat then 400 else 200))); EWork (WLast (demo_env (fun i => if (i =? 1)%nat then 400 else 200)))] demo_system =
  Some (1, 2, 1, 1).
Proof. vm_compute. reflexivity. Qed.

(** An error reported outside a request is counted as a dropped event. *)
Lemma stray_error_counts_drop : (fun y => cl_dropped (sy_client y)) <$>
  sys_run (Env := option string) id id [EError empty_ctx "boom"] (start_system (mkQueueConfig 0 0 0 0) tt) = Some 1.
Proof. vm_compute. reflexivity. Qed.

(** A call that is past the check when Close begins sends its event after the worker has left
    on a deadline that had passed, and before the queue is closed: Close returns, no call is
    under way, and the event is in a queue nobody reads, neither emitted nor dropped. *)
Theorem stranded_uncounted :
  exists y, sys_run (Env := option string) id id
    [EBegin 1%positive (unix_epoch + Second) 200 "external" "shop"; EEnd (ctx_of 1) demo_config (unix_epoch + 2 * Second) "t" "s"; ECheck 0;
     EClose CStore; EClose CSignal; EWork WStop; EWork WDeadline; EWork WDumpEnd; ESend 0; EClose CQueue; EClose (CReturn None)]
    (start_system (mkQueueConfig 0 0 0 0) tt) = Some y /\
  cl_phase (sy_client y) = Returned None /\ cl_calls (sy_client y) = [] /\ length (cl_queue (sy_client y)) = 1%nat /\
  ended (sy_heap y) = 1 /\ cl_emitted (sy_client y) = 0 /\ cl_dropped (sy_client y) = 0.
Proof. eexists. split; [vm_compute; reflexivity|]. vm_compute. repeat split. Qed.
