(* ===== verification/SqlText.v ===== *)
(** The texts of the cold store's columns ([internal/coldstore/coldstore.go]): the
    fixed-width time layout, what reads back of it, and the order SQL compares it by; and what
    a SELECT over the rows of a map of records gives. *)

From S2P Require Import Prelude GoRuntime GoFloat GoText Eventlog GoTime.
Open Scope Z_scope.

(** ** Comparing texts field by field *)

Lemma compare_app (a b s t : string) : String.length a = String.length b ->
  String.compare (a +:+ s) (b +:+ t) = match String.compare a b with Eq => String.compare s t | c => c end.
Proof.
  revert b. induction a as [|x a IH]; intros [|y b] Hl; simpl in Hl; try done. rewrite !string_app_cons. cbn [String.compare].
  destruct (Ascii.compare x y); [|done|done]. apply IH. lia.
Qed.

Lemma digit_compare x y v w : digit_value x = Some v -> digit_value y = Some w ->
  Ascii.compare x y = Z.compare v w /\ 0 <= v <= 9 /\ 0 <= w <= 9.
Proof.
  unfold digit_value, Ascii.compare. intros Hx Hy. assert (forall c, Z.of_nat (nat_of_ascii c) = Z.of_N (N_of_ascii c)) as Hc by (intros c; unfold nat_of_ascii; lia).
  rewrite Hc in Hx, Hy. destruct ((48 <=? Z.of_N (N_of_ascii x)) && _) eqn:E1 in Hx; [|done]. destruct ((48 <=? Z.of_N (N_of_ascii y)) && _) eqn:E2 in Hy; [|done].
  simplify_eq. bool_prop. split; [|lia]. destruct (N.compare_spec (N_of_ascii x) (N_of_ascii y)); symmetry.
  - apply Z.compare_eq_iff. lia.
  - apply Z.compare_lt_iff. lia.
  - apply Z.compare_gt_iff. lia.
Qed.

Lemma digits_mono x : forall y acc acc' v w, String.length x = String.length y -> digits_value acc x = Some v -> digits_value acc' y = Some w ->
  acc < acc' -> v < w.
Proof.
  induction x as [|c x IH]; intros [|d y] acc acc' v w Hl Hx Hy Hlt; simpl in Hl; try done; [simpl in *; by simplify_eq|].
  cbn [digits_value] in Hx, Hy. destruct (digit_value c) as [p|] eqn:Ec; [|done]. destruct (digit_value d) as [q|] eqn:Ed; [|done].
  destruct (digit_compare _ _ _ _ Ec Ed) as (_ & Hp & Hq). eapply IH; [|exact Hx|exact Hy|]; lia.
Qed.

(** Digits of equal length compare as their values. *)
Lemma digits_compare x : forall y acc v w, String.length x = String.length y -> digits_value acc x = Some v -> digits_value acc y = Some w ->
  String.compare x y = Z.compare v w.
Proof.
  induction x as [|c x IH]; intros [|d y] acc v w Hl Hx Hy; simpl in Hl; try done; [simpl in *; simplify_eq; by rewrite Z.compare_refl|].
  cbn [digits_value] in Hx, Hy. destruct (digit_value c) as [p|] eqn:Ec; [|done]. destruct (digit_value d) as [q|] eqn:Ed; [|done].
  destruct (digit_compare _ _ _ _ Ec Ed) as (Hcmp & Hp & Hq). injection Hl as Hl. cbn [String.compare]. rewrite Hcmp.
  destruct (Z.compare_spec p q) as [->|H|H]; symmetry.
  - symmetry. by eapply IH.
  - apply Z.compare_lt_iff. eapply (digits_mono x y); [done|exact Hx|exact Hy|]. simpl. lia.
  - apply Z.compare_gt_iff. eapply (digits_mono y x); [done|exact Hy|exact Hx|]. simpl. lia.
Qed.

(** So do padded fields, whatever follows. *)
Lemma pad_compare (k : nat) a b s t : 0 <= a < 10 ^ Z.of_nat k -> 0 <= b < 10 ^ Z.of_nat k -> (0 < k)%nat ->
  String.compare (pad_int k a +:+ s) (pad_int k b +:+ t) = match Z.compare a b with Eq => String.compare s t | c => c end.
Proof.
  intros Ha Hb Hk. destruct (pad_int_spec k a Ha Hk) as [La Va], (pad_int_spec k b Hb Hk) as [Lb Vb].
  rewrite compare_app by lia. rewrite (digits_compare _ _ 0 a b) by (done || congruence). done.
Qed.

Lemma byte_compare c s t : String.compare (String c s) (String c t) = String.compare s t.
Proof. cbn [String.compare]. by rewrite (proj2 (ascii_compare_eq c c)). Qed.

(** ** Dates in order *)

Lemma days_in_bounds m y : 28 <= days_in m y <= 31.
Proof. unfold days_in. repeat case_if; lia. Qed.

Definition month_start (n : Z) : Z := days_of_civil (n / 12) (n mod 12 + 1) 1.

Definition month_check (y m : Z) : bool :=
  days_of_civil y m 1 + days_in m y =? if m =? 12 then days_of_civil (y + 1) 1 1 else days_of_civil y (m + 1) 1.

(** Months follow each other, checked for each month of the 400 years of a period. *)
Lemma month_next y m : 1 <= m <= 12 -> days_of_civil y m 1 + days_in m y = if m =? 12 then days_of_civil (y + 1) 1 1 else days_of_civil y (m + 1) 1.
Proof.
  intros Hm. assert (forallb (fun y => forallb (month_check y) (seqZ 1 12)) (seqZ 0 400) = true) as Hall by (vm_compute; reflexivity).
  rewrite List.forallb_forall in Hall. pose proof (Z.div_mod y 400 ltac:(lia)) as Ey. pose proof (Z.mod_pos_bound y 400 ltac:(lia)) as Hb.
  specialize (Hall (y mod 400) ltac:(apply list_elem_of_In, elem_of_seqZ; lia)). rewrite List.forallb_forall in Hall.
  specialize (Hall m ltac:(apply list_elem_of_In, elem_of_seqZ; lia)). apply Z.eqb_eq in Hall.
  replace y with (y mod 400 + 400 * (y / 400)) by lia. replace (y mod 400 + 400 * (y / 400) + 1) with (y mod 400 + 1 + 400 * (y / 400)) by lia.
  rewrite days_in_shift, !days_of_civil_shift. case_if; lia.
Qed.

Lemma month_start_step n : month_start (n + 1) = month_start n + days_in (n mod 12 + 1) (n / 12).
Proof.
  unfold month_start. pose proof (Z.mod_pos_bound n 12 ltac:(lia)) as Hb. rewrite month_next by lia.
  destruct (Z.eqb_spec (n mod 12 + 1) 12).
  - assert ((n + 1) / 12 = n / 12 + 1 /\ (n + 1) mod 12 = 0) as [-> ->] by (Z.div_mod_to_equations; lia). done.
  - assert ((n + 1) / 12 = n / 12 /\ (n + 1) mod 12 = n mod 12 + 1) as [-> ->] by (Z.div_mod_to_equations; lia). done.
Qed.

Lemma month_start_mono n (k : nat) : month_start n <= month_start (n + Z.of_nat k).
Proof.
  induction k as [|k IH]; [by rewrite Z.add_0_r|]. replace (n + Z.of_nat (S k)) with (n + Z.of_nat k + 1) by lia.
  rewrite month_start_step. pose proof (days_in_bounds ((n + Z.of_nat k) mod 12 + 1) ((n + Z.of_nat k) / 12)). lia.
Qed.

Lemma days_month_start y m d : 1 <= m <= 12 -> days_of_civil y m d = month_start (12 * y + (m - 1)) + (d - 1).
Proof.
  intros Hm. unfold month_start. assert ((12 * y + (m - 1)) / 12 = y /\ (12 * y + (m - 1)) mod 12 = m - 1) as [-> ->] by (Z.div_mod_to_equations; lia).
  replace (m - 1 + 1) with m by lia. unfold days_of_civil. lia.
Qed.

(** A later date has a greater day number. *)
Lemma days_of_civil_lt y m d y' m' d' : 1 <= m <= 12 -> 1 <= d <= days_in m y -> 1 <= m' <= 12 -> 1 <= d' <= days_in m' y' ->
  y < y' \/ (y = y' /\ (m < m' \/ (m = m' /\ d < d'))) -> days_of_civil y m d < days_of_civil y' m' d'.
Proof.
  intros Hm Hd Hm' Hd' H. rewrite !days_month_start by done. destruct H as [Hy|[<- [H| [<- H]]]]; [| |lia].
  all: set (n := 12 * y + (m - 1)) in *.
  all: match goal with |- _ < month_start ?n' + _ => pose proof (month_start_mono (n + 1) (Z.to_nat (n' - (n + 1)))) as Hmono end.
  all: rewrite Z2Nat.id in Hmono by lia; rewrite month_start_step in Hmono.
  all: assert (n / 12 = y /\ n mod 12 = m - 1) as [En Em] by (unfold n; Z.div_mod_to_equations; lia); rewrite En, Em in Hmono.
  all: replace (m - 1 + 1) with m in Hmono by lia.
  all: match goal with |- _ < month_start ?n' + _ => replace (n + 1 + (n' - (n + 1))) with n' in Hmono by lia end; lia.
Qed.

(** ** The layout *)

(** [t.UTC().Format(tsFormat)]. *)
Definition FormatTs (t : Time) : string :=
  let secs := t / Second in
  let '(y, m, d) := civil_of_days (secs / 86400) in
  let s := secs mod 86400 in
  pad_int 4 y +:+ "-" +:+ pad_int 2 m +:+ "-" +:+ pad_int 2 d +:+ "T" +:+
  pad_int 2 (s / 3600) +:+ ":" +:+ pad_int 2 (s / 60 mod 60) +:+ ":" +:+ pad_int 2 (s mod 60) +:+ "." +:+ pad_int 9 (t mod Second) +:+ "Z".

(** [time.Parse(tsFormat, s)]: the fraction has nine characters, which [atoi] reads. *)
Definition ParseTs (s : string) : option Time :=
  '(y, s) ← fixed_digits 4 s; s ← expect "-"%char s; '(mo, s) ← fixed_digits 2 s; s ← expect "-"%char s; '(d, s) ← fixed_digits 2 s;
  s ← expect "T"%char s;
  '(h, s) ← (match fixed_digits 2 s with Some r => Some r | None => fixed_digits 1 s end);
  s ← expect ":"%char s; '(mi, s) ← fixed_digits 2 s; s ← expect ":"%char s; '(sec, s) ← fixed_digits 2 s;
  s ← (match expect "."%char s with Some s => Some s | None => expect ","%char s end);
  ns ← (if (String.length (take_bytes 9 s) =? 9)%nat then Atoi (take_bytes 9 s) else None);
  zone ← parse_zone (drop_bytes 9 s);
  if (ns <? 0) || (mo <? 1) || (12 <? mo) || (d <? 1) || (days_in mo y <? d) || (23 <? h) || (59 <? mi) || (59 <? sec) then None
  else Some ((days_of_civil y mo d * 86400 + h * 3600 + mi * 60 + sec - zone) * Second + ns).

Example FormatTs_ex : FormatTs (unix_epoch + 1709208001 * Second + 5) = "2024-02-29T12:00:01.000000005Z".
Proof. vm_compute. reflexivity. Qed.
Example ParseTs_ex : (ParseTs <$> ["2024-02-29T12:00:01.000000005Z"; "1970-01-01T02:00:00.000000000+02:00"; "1970-01-01T00:00:00.5Z"])
  = [Some (unix_epoch + 1709208001 * Second + 5); Some unix_epoch; None].
Proof. vm_compute. reflexivity. Qed.

Lemma Atoi_pad v : 0 <= v < 10 ^ 9 -> Atoi (pad_int 9 v) = Some v.
Proof.
  intros Hv. destruct (pad_int_spec 9 v ltac:(simpl; lia) ltac:(lia)) as [Hl Hd]. unfold Atoi.
  assert (in_int64 v = true) as Hr by (unfold in_int64, min_int64, max_int64; apply andb_true_iff; split; apply Z.leb_le; lia).
  destruct (pad_int 9 v) as [|c s] eqn:E; [done|].
  assert ((match String c s with String "-" s' => (-1, s') | String "+" s' => (1, s') | _ => (1, String c s) end) = (1, String c s)) as ->.
  { cbn [digits_value] in Hd. destruct (digit_value c) as [z|] eqn:Ec; [|done]. destruct c as [[] [] [] [] [] [] [] []]; try done. }
  cbn [String.eqb]. rewrite Hd. cbn [mbind option_bind]. by rewrite !Z.mul_1_l, Hr.
Qed.

Lemma frac_bounds t : 0 <= t mod Second < 10 ^ 9.
Proof. apply Z.mod_pos_bound. done. Qed.

(** A time reads back from its column. *)
Lemma ParseTs_FormatTs t : four_digit_years t -> ParseTs (FormatTs t) = Some t.
Proof.
  intros Ht. pose proof (civil_fields t Ht) as Hc. pose proof (frac_bounds t) as Hf. unfold FormatTs, ParseTs. destruct (civil_of_days (t / Second / 86400)) as [[y m] d].
  cbv zeta in *. destruct Hc as [Hr Hsum].
  repeat (rewrite ?string_app_cons, ?string_app_nil_l; first [rewrite fixed_digits_pad by (simpl; lia) | progress cbn [expect Ascii.eqb Bool.eqb]]; cbn [mbind option_bind]).
  pose proof (pad_int_spec 9 (t mod Second) Hf ltac:(lia)) as [Hl _].
  pose proof (take_bytes_app (pad_int 9 (t mod Second)) "Z") as Htk. pose proof (drop_bytes_app (pad_int 9 (t mod Second)) "Z") as Hdr. rewrite Hl in Htk, Hdr.
  rewrite Htk, Hdr, Hl. cbn [Nat.eqb]. rewrite Atoi_pad by done. cbn [mbind option_bind parse_zone Ascii.eqb Bool.eqb String.eqb].
  rewrite !(proj2 (Z.ltb_ge _ _)) by lia. cbn [orb]. f_equal. lia.
Qed.

(** Columns compare as the times they hold. *)
Lemma FormatTs_lt a b : four_digit_years a -> four_digit_years b -> a < b -> String.compare (FormatTs a) (FormatTs b) = Lt.
Proof.
  intros Ha Hb Hlt. pose proof (civil_fields a Ha) as Ca. pose proof (civil_fields b Hb) as Cb. pose proof (frac_bounds a) as Fa. pose proof (frac_bounds b) as Fb.
  unfold FormatTs. destruct (civil_of_days (a / Second / 86400)) as [[y m] d], (civil_of_days (b / Second / 86400)) as [[y' m'] d'].
  cbv zeta in *. destruct Ca as [Ra Sa], Cb as [Rb Sb].
  set (h := a / Second mod 86400 / 3600) in *. set (mi := a / Second mod 86400 / 60 mod 60) in *. set (sec := a / Second mod 86400 mod 60) in *.
  set (h' := b / Second mod 86400 / 3600) in *. set (mi' := b / Second mod 86400 / 60 mod 60) in *. set (sec' := b / Second mod 86400 mod 60) in *.
  set (ns := a mod Second) in *. set (ns' := b mod Second) in *. clearbody h mi sec h' mi' sec' ns ns'. unfold Second in *.
  assert (~ (y' < y \/ (y' = y /\ (m' < m \/ (m' = m /\ d' < d))))) as Hdate.
  { intros H. pose proof (days_of_civil_lt y' m' d' y m d ltac:(lia) ltac:(lia) ltac:(lia) ltac:(lia) H). lia. }
  rewrite pad_compare by (simpl; lia). destruct (Z.compare_spec y y') as [->|Hy|Hy]; [|done|lia].
  rewrite ?string_app_cons, ?string_app_nil_l, byte_compare, pad_compare by (simpl; lia). destruct (Z.compare_spec m m') as [->|Hm|Hm]; [|done|lia].
  rewrite ?string_app_cons, ?string_app_nil_l, byte_compare, pad_compare by (simpl; lia). destruct (Z.compare_spec d d') as [->|Hd|Hd]; [|done|lia].
  do 3 (rewrite ?string_app_cons, ?string_app_nil_l, byte_compare, pad_compare by (simpl; lia);
        match goal with |- match Z.compare ?p ?q with _ => _ end = _ => destruct (Z.compare_spec p q); [|done|lia] end).
  rewrite ?string_app_cons, ?string_app_nil_l, byte_compare, pad_compare by (simpl; lia).
  destruct (Z.compare_spec ns ns'); [lia|done|lia].
Qed.

Lemma FormatTs_ltb a b : four_digit_years a -> four_digit_years b -> String.ltb (FormatTs a) (FormatTs b) = (a <? b).
Proof.
  intros Ha Hb. unfold String.ltb. destruct (Z.ltb_spec a b) as [H|H]; [by rewrite FormatTs_lt|].
  destruct (decide (a = b)) as [->|Hne]; [by rewrite string_compare_refl|].
  rewrite String.compare_antisym, (FormatTs_lt b a) by (done || lia). done.
Qed.

(** ** Selecting rows *)

Lemma sinsert_fmap {A B} (f : A -> B) (less : A -> A -> bool) (less' : B -> B -> bool) x l :
  (forall y, y ∈ l -> less' (f y) (f x) = less y x) -> sinsert less' (f x) (f <$> l) = f <$> sinsert less x l.
Proof.
  induction l as [|y l IH]; intros H; [done|]. cbn [fmap list_fmap sinsert]. rewrite H by left. destruct (less y x); [|done]. cbn [fmap list_fmap]. f_equal. apply IH. intros z Hz. apply H. by right.
Qed.

Lemma ssort_fmap {A B} (f : A -> B) (less : A -> A -> bool) (less' : B -> B -> bool) l :
  (forall x y, x ∈ l -> y ∈ l -> less' (f x) (f y) = less x y) -> ssort less' (f <$> l) = f <$> ssort less l.
Proof.
  induction l as [|x l IH]; intros H; [done|]. change (sinsert less' (f x) (ssort less' (f <$> l)) = f <$> sinsert less x (ssort less l)). rewrite IH by (intros y z Hy Hz; apply H; by right). apply sinsert_fmap.
  intros y Hy. apply elem_of_ssort in Hy. apply H; [by right|left].
Qed.

Lemma lfilter_ext {A} (f g : A -> bool) l : (forall x, x ∈ l -> f x = g x) -> List.filter f l = List.filter g l.
Proof.
  induction l as [|x l IH]; intros H; [done|]. cbn [List.filter]. rewrite (H x) by left. rewrite IH by (intros; apply H; by right). done.
Qed.

(** The rows of a map of records, filtered and ordered, are the rows of its records filtered
    and ordered alike, when the order tells them apart. *)
Lemma select_sorted {A B K} {O : KeyOrd K} (cols : A -> B) (pa : A -> bool) (pb : B -> bool) (la : A -> A -> bool) (lb : B -> B -> bool) (key : B -> K)
    `{!LessBy lb key} (m : gmap string A) :
  (forall a, a ∈ (map_to_list m).*2 -> pb (cols a) = pa a) ->
  (forall a b, a ∈ (map_to_list m).*2 -> b ∈ (map_to_list m).*2 -> lb (cols a) (cols b) = la a b) ->
  (forall a b, a ∈ (map_to_list m).*2 -> b ∈ (map_to_list m).*2 -> key (cols a) = key (cols b) -> a = b) ->
  ssort lb (List.filter pb (map_to_list (cols <$> m)).*2) = cols <$> ssort la (List.filter pa (map_to_list m).*2).
Proof.
  intros Hp Hl Hk. set (l := List.filter pa (map_to_list m).*2).
  assert (List.filter pb (map_to_list (cols <$> m)).*2 ≡ₚ cols <$> l) as Hperm.
  { transitivity (List.filter pb (cols <$> (map_to_list m).*2)).
    - apply lfilter_perm. rewrite map_to_list_fmap, <- !list_fmap_compose. done.
    - rewrite lfilter_fmap. unfold l. by rewrite (lfilter_ext (fun x => pb (cols x)) pa). }
  assert (forall a, a ∈ l -> a ∈ (map_to_list m).*2) as Hin by (intros a Ha; by apply elem_of_lfilter in Ha as [Ha _]).
  rewrite (ssort_perm_eq lb key _ (cols <$> l)); [|intros a b Ha Hb E|exact Hperm].
  - apply ssort_fmap. intros x y Hx Hy. by apply Hl; apply Hin.
  - rewrite Hperm in Ha, Hb. apply list_elem_of_fmap in Ha as (x & -> & Hx). apply list_elem_of_fmap in Hb as (y & -> & Hy). f_equal. by apply Hk; [apply Hin..|].
Qed.

(** Maps with the same keys have the same size. *)
Lemma same_size {A B} (m : gmap string A) (t : gmap string B) : (forall id, is_Some (m !! id) <-> is_Some (t !! id)) -> size m = size t.
Proof. intros H. rewrite <- !size_dom. f_equal. apply set_eq. intros id. by rewrite !elem_of_dom. Qed.
