(* ===== verification/IncidentTable.v ===== *)
(** The incidents of the cold store ([internal/coldstore/incident_store.go]): the row of an
    incident, the statements of the store and what reads back.  A table is the map of its
    rows by primary key; a statement is one step that succeeds or fails as its argument
    says, and a transaction is all of its statements or none.  [encoding/json] on a column
    is a parameter. *)

From S2P Require Import Prelude GoRuntime GoFloat GoText Types Family Incident Detect Engine EngineSpec GoTime SqlText WideEvent ColdWriter.
Open Scope Z_scope.

(** ** Columns *)

(** [json.Marshal] and [json.Unmarshal] of one type of column, and its zero value. *)
Class ColumnJson (A : Type) := { MarshalColumn : A -> option string; UnmarshalColumn : string -> option A; zeroColumn : A }.

(** A nullable text ([sql.NullString]) is an option; no result is an error. *)
Definition jsonText {A} `{ColumnJson A} (v : A) : option (option string) :=
  raw ← MarshalColumn v; Some (if String.eqb raw "null" then None else Some raw).

Definition parseJSONText {A} `{ColumnJson A} (raw : string) : option A :=
  if String.eqb raw "" then Some zeroColumn else UnmarshalColumn raw.

Definition formatTime (t : Time) : string := FormatTs t.
Definition nullableTime (t : option Time) : option string := formatTime <$> t.

(** [COALESCE(column, '')]. *)
Definition coalesce_empty (c : option string) : string := default "" c.

(** A column of JSON reads back. *)
Definition column_stable {A} `{ColumnJson A} (v : A) : Prop := exists c, jsonText v = Some c /\ parseJSONText (coalesce_empty c) = Some v.

(** ** Rows *)

Record incident_row := mkIncidentRow {
  ir_incident_id : string; ir_env : string; ir_service : string; ir_error_service : string; ir_error_step : string; ir_error_code : string;
  ir_status : string; ir_cause : string; ir_confidence : string; ir_severity : Z; ir_started_at : string; ir_updated_at : string; ir_last_seen_at : string;
  ir_recovering_at : option string; ir_resolved_at : option string; ir_affected_requests : Z; ir_affected_users : option Z; ir_affected_services : Z;
  ir_top_services : option string; ir_sample_traces : option string; ir_evidence : option string; ir_next_checks : option string;
  ir_instrumentation_warnings : option string; ir_lift : float64; ir_baseline_count : Z; ir_current_count : Z;
  ir_propagation_json : option string; ir_blast_json : option string; ir_alert_json : option string; ir_runtime_json : option string;
  ir_suspect_deploy_id : option string
}.

Section IncidentStore.
Context {JS : ColumnJson (list string)} {JE : ColumnJson (list Evidence)} {JP : ColumnJson (option PropagationSnapshot)}
  {JB : ColumnJson (option BlastSnapshot)} {JA : ColumnJson (option AlertSnapshot)} {JR : ColumnJson (option RuntimeSnapshot)}.

(** The arguments of the INSERT of [upsertIncident], in the order of the columns. *)
Definition incident_columns (inc : Incident) : option incident_row :=
  topServices ← jsonText (inc_TopServices inc); samples ← jsonText (inc_SampleTraces inc); evidence ← jsonText (inc_Evidence inc);
  nextChecks ← jsonText (inc_NextChecks inc); warnings ← jsonText (inc_InstrumentationWarnings inc);
  propagation ← jsonText (inc_Propagation inc); blast ← jsonText (inc_Blast inc); alerts ← jsonText (inc_Alerts inc); runtime ← jsonText (inc_Runtime inc);
  let f := inc_ErrorFamily inc in
  Some (mkIncidentRow (inc_IncidentID inc) (inc_Env inc) (inc_Service inc) (ef_Service f) (ef_Step f) (ef_ErrorCode f)
    (inc_Status inc) (inc_Cause inc) (inc_Confidence inc) (inc_Severity inc)
    (formatTime (inc_StartedAt inc)) (formatTime (inc_UpdatedAt inc)) (formatTime (inc_LastSeenAt inc))
    (nullableTime (inc_RecoveringAt inc)) (nullableTime (inc_ResolvedAt inc))
    (inc_AffectedRequests inc) (inc_AffectedUsers inc) (inc_AffectedServices inc)
    topServices samples evidence nextChecks warnings (inc_Lift inc) (inc_BaselineCount inc) (inc_CurrentCount inc)
    propagation blast alerts runtime (Some (inc_SuspectDeployID inc))).

(** [ON CONFLICT(incident_id) DO UPDATE]: [old] is the row in the table. *)
Definition on_conflict (old excluded : incident_row) : incident_row :=
  mkIncidentRow (ir_incident_id old) (ir_env old) (ir_service old) (ir_error_service old) (ir_error_step old) (ir_error_code old)
    (ir_status excluded) (ir_cause excluded) (ir_confidence excluded) (ir_severity excluded)
    (ir_started_at old) (ir_updated_at excluded) (ir_last_seen_at excluded)
    (ir_recovering_at excluded) (ir_resolved_at excluded) (ir_affected_requests excluded) (ir_affected_users excluded) (ir_affected_services excluded)
    (ir_top_services excluded) (ir_sample_traces excluded) (ir_evidence excluded) (ir_next_checks excluded) (ir_instrumentation_warnings excluded)
    (ir_lift excluded) (ir_baseline_count excluded) (ir_current_count excluded)
    (ir_propagation_json excluded) (ir_blast_json excluded) (ir_alert_json excluded) (ir_runtime_json excluded)
    (match ir_suspect_deploy_id excluded with
     | Some d => if String.eqb d "" then ir_suspect_deploy_id old else Some d
     | None => ir_suspect_deploy_id old
     end).

Abbreviation incident_table := (gmap string incident_row) (only parsing).

Definition is_nan (f : float64) : bool := match f with SpecFloat.S754_nan => true | _ => false end.

(** The INSERT: SQLite keeps a NaN as NULL, which [lift] refuses. *)
Definition exec_upsert (ok : bool) (t : incident_table) (r : incident_row) : option incident_table :=
  if negb ok || is_nan (ir_lift r) then None
  else Some (<[ir_incident_id r := match t !! ir_incident_id r with Some old => on_conflict old r | None => r end]> t).

Definition upsertIncident (ok : bool) (t : incident_table) (inc : Incident) : option incident_table :=
  r ← incident_columns inc; exec_upsert ok t r.

Definition TableUpsert (ok : bool) (t : incident_table) (inc : Incident) : option incident_table := upsertIncident ok t inc.

(** The loop of [ReplaceNonResolved]; its DELETE is statement 0. *)
Fixpoint upsert_all (o : tx_outcome) (i : nat) (t : incident_table) (incs : list Incident) : option incident_table :=
  match incs with
  | [] => Some t
  | inc :: incs => t ← upsertIncident (tx_exec o i) t inc; upsert_all o (S i) t incs
  end.

Definition row_open (r : incident_row) : bool := negb (String.eqb (ir_status r) StatusResolved).

(** Any failure rolls back: there is no new table. *)
Definition TableReplaceNonResolved (o : tx_outcome) (t : incident_table) (incs : list Incident) : option incident_table :=
  if negb (tx_begin o) then None
  else if negb (tx_exec o 0) then None
  else t ← upsert_all o 1 (filter (fun kv => row_open kv.2 = false) t) incs;
       if tx_commit o then Some t else None.

(** ** Reading *)

Definition scan_time (c : option string) : option (option Time) :=
  let raw := coalesce_empty c in
  if String.eqb raw "" then Some None else t ← ParseTs raw; Some (Some t).

Definition scanIncident (r : incident_row) : option Incident :=
  startedAt ← ParseTs (ir_started_at r); updatedAt ← ParseTs (ir_updated_at r); lastSeenAt ← ParseTs (ir_last_seen_at r);
  recoveringAt ← scan_time (ir_recovering_at r); resolvedAt ← scan_time (ir_resolved_at r);
  topServices ← parseJSONText (coalesce_empty (ir_top_services r)); samples ← parseJSONText (coalesce_empty (ir_sample_traces r));
  evidence ← parseJSONText (coalesce_empty (ir_evidence r)); nextChecks ← parseJSONText (coalesce_empty (ir_next_checks r));
  warnings ← parseJSONText (coalesce_empty (ir_instrumentation_warnings r)); propagation ← parseJSONText (coalesce_empty (ir_propagation_json r));
  blast ← parseJSONText (coalesce_empty (ir_blast_json r)); alerts ← parseJSONText (coalesce_empty (ir_alert_json r));
  runtime ← parseJSONText (coalesce_empty (ir_runtime_json r));
  Some (mkIncident (ir_incident_id r) (ir_env r) (ir_service r) (mkErrorFamily (ir_error_service r) (ir_error_step r) (ir_error_code r))
    (ir_status r) (ir_cause r) (ir_confidence r) (ir_severity r) startedAt updatedAt lastSeenAt recoveringAt resolvedAt
    (ir_affected_requests r) (ir_affected_users r) (ir_affected_services r) topServices samples evidence nextChecks warnings
    (ir_lift r) (ir_baseline_count r) (ir_current_count r) propagation blast alerts runtime (coalesce_empty (ir_suspect_deploy_id r))).

(** [Get]: no result is an error, [Some None] is ErrNotFound. *)
Definition TableGet (ok : bool) (t : incident_table) (id : string) : option (option Incident) :=
  if negb ok then None else
  match t !! id with
  | None => Some None
  | Some r => Some <$> scanIncident r
  end.

(** [ORDER BY severity DESC, started_at DESC, incident_id ASC]. *)
Definition row_less (a b : incident_row) : bool :=
  if negb (ir_severity a =? ir_severity b) then ir_severity b <? ir_severity a
  else if negb (String.eqb (ir_started_at a) (ir_started_at b)) then String.ltb (ir_started_at b) (ir_started_at a)
  else String.ltb (ir_incident_id a) (ir_incident_id b).

Definition TableListActive (ok : bool) (t : incident_table) : option (list Incident) :=
  if negb ok then None else mapM scanIncident (ssort row_less (List.filter row_open (map_to_list t).*2)).

Definition prune_row (cutoff : string) (r : incident_row) : bool :=
  String.eqb (ir_status r) StatusResolved && match ir_resolved_at r with Some at_ => String.ltb at_ cutoff | None => false end.

Definition TablePruneResolvedOlderThan (ok : bool) (t : incident_table) (cutoff : Time) : option (incident_table * Z) :=
  if negb ok then None else
  let t' := filter (fun kv => prune_row (formatTime cutoff) kv.2 = false) t in
  Some (t', Z.of_nat (size t) - Z.of_nat (size t')).

(** ** What a row keeps *)

(** An incident the columns can hold. *)
Record storable (inc : Incident) : Prop := {
  st_times : four_digit_years (inc_StartedAt inc) /\ four_digit_years (inc_UpdatedAt inc) /\ four_digit_years (inc_LastSeenAt inc);
  st_marks : forall t, inc_RecoveringAt inc = Some t \/ inc_ResolvedAt inc = Some t -> four_digit_years t;
  st_lists : column_stable (inc_TopServices inc) /\ column_stable (inc_SampleTraces inc) /\ column_stable (inc_NextChecks inc) /\
             column_stable (inc_InstrumentationWarnings inc);
  st_evidence : column_stable (inc_Evidence inc) /\ column_stable (inc_Propagation inc) /\ column_stable (inc_Blast inc) /\
                column_stable (inc_Alerts inc) /\ column_stable (inc_Runtime inc);
  st_lift : is_nan (inc_Lift inc) = false
}.

Lemma FormatTs_nonempty t : String.eqb (FormatTs t) "" = false.
Proof.
  unfold FormatTs. destruct (civil_of_days _) as [[y m] d]. cbv zeta. apply String.eqb_neq. intros H. apply (f_equal String.length) in H.
  rewrite !string_length_app in H. simpl in H. lia.
Qed.

Lemma scan_nullable (t : option Time) : (forall u, t = Some u -> four_digit_years u) -> scan_time (nullableTime t) = Some t.
Proof.
  intros Ht. destruct t as [u|]; [|done]. unfold scan_time, nullableTime, formatTime. simpl. rewrite FormatTs_nonempty, ParseTs_FormatTs by auto. done.
Qed.

(** An incident reads back from its row. *)
Lemma scan_columns inc : storable inc -> exists r, incident_columns inc = Some r /\ scanIncident r = Some inc /\ is_nan (ir_lift r) = false.
Proof.
  intros [(T1 & T2 & T3) Tm ((c1 & J1 & P1) & (c2 & J2 & P2) & (c3 & J3 & P3) & (c4 & J4 & P4))
          ((c5 & J5 & P5) & (c6 & J6 & P6) & (c7 & J7 & P7) & (c8 & J8 & P8) & (c9 & J9 & P9)) Hl].
  eexists. split; [unfold incident_columns; rewrite J1, J2, J3, J4, J5, J6, J7, J8, J9; reflexivity|]. split; [|exact Hl].
  unfold scanIncident. cbn [ir_started_at ir_updated_at ir_last_seen_at ir_recovering_at ir_resolved_at ir_top_services ir_sample_traces ir_evidence
    ir_next_checks ir_instrumentation_warnings ir_propagation_json ir_blast_json ir_alert_json ir_runtime_json].
  unfold formatTime. rewrite !ParseTs_FormatTs by done. cbn [mbind option_bind]. rewrite !scan_nullable by eauto. cbn [mbind option_bind].
  rewrite P1, P2, P3, P4, P5, P6, P7, P8, P9. by destruct inc as [???[]].
Qed.

(** What the columns say of the incident. *)
Lemma columns_fields inc r : incident_columns inc = Some r ->
  ir_incident_id r = inc_IncidentID inc /\ ir_status r = inc_Status inc /\ ir_severity r = inc_Severity inc /\
  ir_started_at r = FormatTs (inc_StartedAt inc) /\ ir_resolved_at r = FormatTs <$> inc_ResolvedAt inc.
Proof. unfold incident_columns. intros H. repeat (apply bind_Some in H as (? & _ & H)). injection H as <-. done. Qed.

(** An incident put over a row of its id: the environment, the service, the family and the
    start stay those of the row, and so does a suspect deployment when none is given. *)
Definition keep_first (old inc : Incident) : Incident :=
  mkIncident (inc_IncidentID inc) (inc_Env old) (inc_Service old) (inc_ErrorFamily old) (inc_Status inc) (inc_Cause inc) (inc_Confidence inc)
    (inc_Severity inc) (inc_StartedAt old) (inc_UpdatedAt inc) (inc_LastSeenAt inc) (inc_RecoveringAt inc) (inc_ResolvedAt inc)
    (inc_AffectedRequests inc) (inc_AffectedUsers inc) (inc_AffectedServices inc) (inc_TopServices inc) (inc_SampleTraces inc)
    (inc_Evidence inc) (inc_NextChecks inc) (inc_InstrumentationWarnings inc) (inc_Lift inc) (inc_BaselineCount inc) (inc_CurrentCount inc)
    (inc_Propagation inc) (inc_Blast inc) (inc_Alerts inc) (inc_Runtime inc)
    (if String.eqb (inc_SuspectDeployID inc) "" then inc_SuspectDeployID old else inc_SuspectDeployID inc).

Lemma keep_first_self inc : keep_first inc inc = inc.
Proof. unfold keep_first. rewrite Tauto.if_same. by destruct inc. Qed.

Lemma keep_first_again old inc : keep_first (keep_first old inc) inc = keep_first old inc.
Proof. unfold keep_first. simpl. f_equal. by destruct (String.eqb (inc_SuspectDeployID inc) ""). Qed.

Lemma keep_first_carried old inc : carries old inc -> keep_first old inc = inc.
Proof.
  intros ((He & Hf) & Hs & Hst & Hsus). unfold keep_first. rewrite <- He, <- Hf, <- Hs, <- Hst.
  assert ((if String.eqb (inc_SuspectDeployID inc) "" then inc_SuspectDeployID old else inc_SuspectDeployID inc) = inc_SuspectDeployID inc) as ->; [|by destruct inc].
  destruct (String.eqb_spec (inc_SuspectDeployID inc) "") as [E|]; [|done]. rewrite E.
  destruct (decide (inc_SuspectDeployID old = "")) as [|Hne]; [done|]. by destruct (Hsus Hne).
Qed.

Lemma on_conflict_keep old inc ro r : incident_columns old = Some ro -> incident_columns inc = Some r ->
  inc_IncidentID inc = inc_IncidentID old -> incident_columns (keep_first old inc) = Some (on_conflict ro r).
Proof.
  unfold incident_columns. intros Ho Hr Hid.
  repeat (apply bind_Some in Ho as (? & _ & Ho)). injection Ho as <-. cbn [keep_first inc_TopServices inc_SampleTraces inc_Evidence inc_NextChecks
    inc_InstrumentationWarnings inc_Propagation inc_Blast inc_Alerts inc_Runtime].
  repeat (let H := fresh in apply bind_Some in Hr as (? & H & Hr); rewrite H; cbn [mbind option_bind]). injection Hr as <-.
  unfold on_conflict. simpl. rewrite Hid. do 2 f_equal. by destruct (String.eqb _ "").
Qed.

Lemma storable_keep old inc : storable old -> storable inc -> storable (keep_first old inc).
Proof. intros [(T1 & _ & _) _ _ _ _] [(_ & T2 & T3) Tm Tl Te Tf]. by constructor. Qed.

(** ** The table against the map of incidents *)

(** The table holds the rows of the incidents of the map. *)
Definition table_of (m : gmap string Incident) (t : incident_table) : Prop :=
  forall id, match m !! id, t !! id with Some inc, Some r => incident_columns inc = Some r | None, None => True | _, _ => False end.

Lemma upsert_table ok m t inc t' : ids_ok m -> table_of m t -> upsertIncident ok t inc = Some t' ->
  table_of (keep_row keep_first m inc) t'.
Proof.
  intros Hok Ht Hu. unfold upsertIncident in Hu. apply bind_Some in Hu as (r & Hr & Hu). unfold exec_upsert in Hu. case_match; [done|]. simplify_eq.
  destruct (columns_fields _ _ Hr) as (Hid & _). rewrite Hid. unfold keep_row. intros id. destruct (decide (id = inc_IncidentID inc)) as [->|Hne].
  - rewrite !lookup_insert_eq. pose proof (Ht (inc_IncidentID inc)) as Hrow.
    destruct (m !! inc_IncidentID inc) as [old|] eqn:Em, (t !! inc_IncidentID inc) as [ro|] eqn:Et; try done.
    apply on_conflict_keep; [done|done|]. symmetry. by apply Hok.
  - rewrite !lookup_insert_ne by done. apply Ht.
Qed.

Lemma upsert_succeeds t inc : storable inc -> is_Some (upsertIncident true t inc).
Proof. intros Hs. destruct (scan_columns inc Hs) as (r & Hr & _ & Hl). unfold upsertIncident. rewrite Hr. cbn. unfold exec_upsert. by rewrite Hl. Qed.

Lemma upsert_all_table o incs : forall i m t t', ids_ok m -> table_of m t -> upsert_all o i t incs = Some t' ->
  table_of (keep_rows keep_first m incs) t'.
Proof.
  induction incs as [|inc incs IH]; intros i m t t' Hok Ht Hu; cbn [upsert_all] in Hu; [by simplify_eq|].
  apply bind_Some in Hu as (t1 & Hu1 & Hu). unfold keep_rows. cbn [foldl]. eapply IH; [|by eapply upsert_table|exact Hu].
  by apply ids_ok_keep.
Qed.

Lemma table_filter (P : Incident -> bool) (Q : incident_row -> bool) m t : table_of m t ->
  (forall id inc r, m !! id = Some inc -> incident_columns inc = Some r -> P inc = Q r) ->
  table_of (filter (fun kv => P kv.2 = false) m) (filter (fun kv => Q kv.2 = false) t).
Proof.
  intros Ht HPQ id. pose proof (Ht id) as H. rewrite !map_lookup_filter. destruct (m !! id) as [inc|] eqn:Em, (t !! id) as [r|]; simpl; try done.
  rewrite (HPQ id inc r Em H). by destruct (Q r).
Qed.

Lemma table_size m t : table_of m t -> size m = size t.
Proof. intros Ht. apply same_size. intros id. pose proof (Ht id) as H. destruct (m !! id), (t !! id); try done; split; intros [? ?]; by eexists. Qed.

Lemma row_open_columns inc r : incident_columns inc = Some r -> row_open r = open_row inc.
Proof. intros H. destruct (columns_fields _ _ H) as (_ & Hs & _). unfold row_open, open_row. by rewrite Hs. Qed.

Lemma prune_row_columns cutoff inc r : storable inc -> four_digit_years cutoff -> incident_columns inc = Some r ->
  resolved_before cutoff inc = prune_row (formatTime cutoff) r.
Proof.
  intros Hs Hc H. destruct (columns_fields _ _ H) as (_ & Hst & _ & _ & Hr). unfold resolved_before, prune_row, open_row. rewrite Hst, Hr, negb_involutive.
  f_equal. destruct (inc_ResolvedAt inc) as [u|] eqn:Eu; [|done].
  change (Before u cutoff = String.ltb (FormatTs u) (FormatTs cutoff)). rewrite FormatTs_ltb; [done| |done].
  apply (st_marks _ Hs). by right.
Qed.

(** ** The same list *)

#[local] Instance row_less_by : LessBy row_less (fun r => (down (ir_severity r), (down (ir_started_at r), ir_incident_id r))).
Proof. intros a b. unfold row_less. kred. solve_less. Qed.

Definition blank_row : incident_row :=
  mkIncidentRow "" "" "" "" "" "" "" "" "" 0 "" "" "" None None 0 None 0 None None None None None (of_int 0) 0 0 None None None None None.
Definition columns (inc : Incident) : incident_row := default blank_row (incident_columns inc).

Lemma storable_columns inc : storable inc -> incident_columns inc = Some (columns inc) /\ scanIncident (columns inc) = Some inc.
Proof. intros Hs. destruct (scan_columns inc Hs) as (r & Hr & Hsc & _). unfold columns. by rewrite Hr. Qed.

Definition all_storable (m : gmap string Incident) : Prop := forall id inc, m !! id = Some inc -> storable inc.

Lemma table_of_fmap m t : all_storable m -> table_of m t -> t = columns <$> m.
Proof.
  intros Hst Ht. apply map_eq. intros id. rewrite lookup_fmap. pose proof (Ht id) as H. destruct (m !! id) as [inc|] eqn:Em, (t !! id) as [r|]; try done.
  cbn. rewrite (proj1 (storable_columns inc (Hst id inc Em))) in H. by injection H as <-.
Qed.

Lemma row_less_columns a b : storable a -> storable b -> row_less (columns a) (columns b) = incident_less a b.
Proof.
  intros Ha Hb. destruct (columns_fields _ _ (proj1 (storable_columns a Ha))) as (Ia & _ & Sa & Ta & _).
  destruct (columns_fields _ _ (proj1 (storable_columns b Hb))) as (Ib & _ & Sb & Tb & _). unfold row_less, incident_less. rewrite Ia, Sa, Ta, Ib, Sb, Tb.
  pose proof (proj1 (st_times _ Ha)) as Ya. pose proof (proj1 (st_times _ Hb)) as Yb. unfold TimeEqual, After. rewrite FormatTs_ltb by done.
  assert (String.eqb (FormatTs (inc_StartedAt a)) (FormatTs (inc_StartedAt b)) = (inc_StartedAt a =? inc_StartedAt b)) as ->; [|done].
  destruct (Z.eqb_spec (inc_StartedAt a) (inc_StartedAt b)) as [->|Hne]; [apply String.eqb_refl|]. apply String.eqb_neq. intros H. apply Hne.
  apply (f_equal ParseTs) in H. rewrite !ParseTs_FormatTs in H by done. by injection H.
Qed.

Lemma list_table m t : ids_ok m -> all_storable m -> table_of m t ->
  TableListActive true t = Some (sortIncidents (List.filter open_row (map_to_list m).*2)).
Proof.
  intros Hok Hst Ht. rewrite (table_of_fmap m t Hst Ht). unfold TableListActive. cbn [negb].
  assert (forall inc, inc ∈ (map_to_list m).*2 -> storable inc /\ m !! inc_IncidentID inc = Some inc) as Hall.
  { intros inc Hin. apply list_elem_of_fmap in Hin as ([k i] & -> & Hk). apply elem_of_map_to_list in Hk. split; [by eapply Hst|]. cbn [snd]. by rewrite (Hok _ _ Hk). }
  rewrite (select_sorted columns open_row row_open incident_less row_less (fun r => (down (ir_severity r), (down (ir_started_at r), ir_incident_id r)))).
  - apply mapM_Some. unfold sortIncidents. assert (forall inc, inc ∈ ssort incident_less (List.filter open_row (map_to_list m).*2) -> scanIncident (columns inc) = Some inc) as Hs.
    { intros inc Hin. apply elem_of_ssort, elem_of_lfilter in Hin as [Hin _]. by apply storable_columns, Hall. }
    induction (ssort incident_less _) as [|inc l' IH]; constructor; [apply Hs; left|]. apply IH. intros i Hi. apply Hs. by right.
  - intros a Ha. by apply row_open_columns, storable_columns, Hall.
  - intros a b Ha Hb. apply row_less_columns; by apply Hall.
  - intros a b Ha Hb E. destruct (Hall a Ha) as [Sa Ma], (Hall b Hb) as [Sb Mb]. simplify_eq.
    destruct (columns_fields _ _ (proj1 (storable_columns a Sa))) as (Ia & _). destruct (columns_fields _ _ (proj1 (storable_columns b Sb))) as (Ib & _). congruence.
Qed.

(** ** Histories *)

(** What the table of a history should hold: incidents under their ids, each one the columns
    can hold. *)
Record stored (m : gmap string Incident) (t : incident_table) : Prop := {
  sd_ids : ids_ok m;
  sd_storable : all_storable m;
  sd_table : table_of m t
}.

Lemma storable_keep_row m inc : all_storable m -> storable inc -> all_storable (keep_row keep_first m inc).
Proof.
  intros Hm Hi id i. unfold keep_row. rewrite lookup_insert_Some. intros [[_ <-]|[_ H]]; [|by eapply Hm].
  destruct (m !! inc_IncidentID inc) as [old|] eqn:E; [|done]. apply storable_keep; [by eapply Hm|done].
Qed.

Lemma storable_keep_rows m incs : all_storable m -> Forall storable incs -> all_storable (keep_rows keep_first m incs).
Proof.
  intros Hm Hi. unfold keep_rows. revert m Hm. induction Hi as [|inc incs Hinc _ IH]; intros m Hm; [done|]. cbn [foldl]. by apply IH, storable_keep_row.
Qed.

Lemma ids_ok_keep_rows m incs : ids_ok m -> ids_ok (keep_rows keep_first m incs).
Proof. unfold keep_rows. revert m. induction incs as [|i incs IH]; intros m H; [done|]. cbn [foldl]. by apply IH, ids_ok_keep. Qed.

Lemma storable_filter m (P : string * Incident -> Prop) `{!forall x, Decision (P x)} : all_storable m -> all_storable (filter P m).
Proof. intros Hm id i Hk. apply map_lookup_filter_Some in Hk as [Hk _]. by eapply Hm. Qed.

Lemma stored_upsert ok m t inc t' : stored m t -> storable inc -> TableUpsert ok t inc = Some t' -> stored (keep_row keep_first m inc) t'.
Proof. intros [Hi Hs Ht] Hinc Hu. split; [by apply ids_ok_keep|by apply storable_keep_row|by eapply upsert_table]. Qed.

Lemma stored_replace o m t incs t' : stored m t -> Forall storable incs -> TableReplaceNonResolved o t incs = Some t' ->
  stored (keep_rows keep_first (filter (fun kv => open_row kv.2 = false) m) incs) t'.
Proof.
  intros [Hi Hs Ht] Hinc Hr. split; [by apply ids_ok_keep_rows, ids_ok_filter|by apply storable_keep_rows; [apply storable_filter|]|].
  unfold TableReplaceNonResolved in Hr. do 2 (case_match; [done|]). apply bind_Some in Hr as (t1 & Hr & Hcm). case_match; [|done]. simplify_eq.
  eapply upsert_all_table; [by apply ids_ok_filter| |exact Hr]. apply table_filter; [done|]. intros id inc r _ Hcol. symmetry. by apply row_open_columns.
Qed.

Lemma prune_filter (m : gmap string Incident) cutoff : filter (fun kv : string * Incident => open_row kv.2 || match inc_ResolvedAt kv.2 with Some t => negb (Before t cutoff) | None => true end = true) m
  = filter (fun kv : string * Incident => resolved_before cutoff kv.2 = false) m.
Proof. apply map_filter_ext. intros k i _. symmetry. apply open_keep. Qed.

Lemma stored_prune ok m t cutoff t' n : stored m t -> four_digit_years cutoff -> TablePruneResolvedOlderThan ok t cutoff = Some (t', n) ->
  let m' := filter (fun kv => resolved_before cutoff kv.2 = false) m in
  stored m' t' /\ n = Z.of_nat (size m) - Z.of_nat (size m').
Proof.
  intros [Hi Hs Ht] Hc Hp m'. unfold TablePruneResolvedOlderThan in Hp. case_match; [done|]. simplify_eq.
  assert (table_of m' (filter (fun kv => prune_row (formatTime cutoff) kv.2 = false) t)) as Ht'.
  { apply table_filter; [done|]. intros id inc r Hm H'. apply prune_row_columns; [by eapply Hs|done|done]. }
  split; [split; [by apply ids_ok_filter|by apply storable_filter|done]|]. by rewrite (table_size _ _ Ht), (table_size _ _ Ht').
Qed.

Lemma stored_get m t id : stored m t -> TableGet true t id = Some (m !! id).
Proof.
  intros [Hi Hs Ht]. unfold TableGet. cbn [negb]. pose proof (Ht id) as H. destruct (m !! id) as [inc|] eqn:Em, (t !! id) as [r|]; try done.
  destruct (scan_columns inc (Hs id inc Em)) as (r' & Hr' & Hsc & _). rewrite H in Hr'. injection Hr' as ->. by rewrite Hsc.
Qed.

Lemma stored_list ok m t l : stored m t -> TableListActive ok t = Some l -> l = sortIncidents (List.filter open_row (map_to_list m).*2).
Proof. intros [Hi Hs Ht] Hl. destruct ok; [|done]. rewrite (list_table m t Hi Hs Ht) in Hl. by simplify_eq. Qed.

(** A map of incidents and a table over the same calls, from nothing; a call that fails
    leaves the table as it was and is no step. *)
Inductive history : gmap string Incident -> incident_table -> Prop :=
| h_new : history ∅ ∅
| h_upsert ok m t inc t' :
    history m t -> storable inc -> TableUpsert ok t inc = Some t' -> history (keep_row keep_first m inc) t'
| h_replace o m t incs t' :
    history m t -> Forall storable incs -> TableReplaceNonResolved o t incs = Some t' ->
    history (keep_rows keep_first (filter (fun kv => open_row kv.2 = false) m) incs) t'
| h_prune ok m t cutoff t' n :
    history m t -> four_digit_years cutoff -> TablePruneResolvedOlderThan ok t cutoff = Some (t', n) ->
    history (filter (fun kv => resolved_before cutoff kv.2 = false) m) t'.

Lemma history_stored m t : history m t -> stored m t.
Proof.
  induction 1 as [|ok m t inc t' _ IH Hs Hu|o m t incs t' _ IH Hs Hr|ok m t cutoff t' n _ IH Hc Hp].
  - split; intros id; [by rewrite lookup_empty|by rewrite lookup_empty|]. by rewrite !lookup_empty.
  - by eapply stored_upsert.
  - by eapply stored_replace.
  - by eapply stored_prune.
Qed.

Lemma upsert_all_succeeds incs : forall o i t, Forall storable incs -> (forall n, tx_exec o n = true) -> is_Some (upsert_all o i t incs).
Proof.
  induction incs as [|inc incs IH]; intros o i t Hs Ho; [by eexists|]. cbn [upsert_all]. inversion Hs; subst. rewrite Ho.
  destruct (upsert_succeeds t inc) as [t1 Ht1]; [done|]. rewrite Ht1. by apply IH.
Qed.

(** C13: the table is a map of incidents by id in which an incident put over a row of its id
    leaves alone the environment, service, family and start of the row, and its suspect
    deployment when it has none itself.  Whatever calls have been made, of incidents the
    columns can hold and cutoffs of four-digit years, and whichever of them failed, every
    lookup answers what the map holds, the list is the open incidents of the map in order,
    and a pruning removes, and counts, exactly the ones resolved before the cutoff; a call
    the database accepts succeeds.  An incident that carries on the row it meets simply
    replaces it. *)
Theorem incident_table_refines m t : history m t ->
  (forall id, TableGet true t id = Some (m !! id)) /\
  TableListActive true t = Some (sortIncidents (List.filter open_row (map_to_list m).*2)) /\
  (forall cutoff, four_digit_years cutoff ->
     exists t', TablePruneResolvedOlderThan true t cutoff =
       Some (t', Z.of_nat (size (filter (fun kv => resolved_before cutoff kv.2 = true) m))) /\
     history (filter (fun kv => resolved_before cutoff kv.2 = false) m) t') /\
  (forall inc, storable inc -> is_Some (TableUpsert true t inc)) /\
  (forall o incs, Forall storable incs -> tx_begin o = true -> (forall n, tx_exec o n = true) -> tx_commit o = true ->
     is_Some (TableReplaceNonResolved o t incs)) /\
  (forall inc, carries_in m inc -> keep_row keep_first m inc = <[inc_IncidentID inc := inc]> m).
Proof.
  intros Hrun. pose proof (history_stored m t Hrun) as Hst. split; [|split; [|split; [|split; [|split]]]].
  - intros id. by apply stored_get.
  - destruct Hst as [Hi Hs Ht]. by apply list_table.
  - intros cutoff Hc. assert (exists t' n', TablePruneResolvedOlderThan true t cutoff = Some (t', n')) as (t' & n' & Hq) by (do 2 eexists; reflexivity).
    destruct (stored_prune _ _ _ _ _ _ Hst Hc Hq) as [_ Hn]. exists t'. split; [|by eapply h_prune]. rewrite Hq, Hn. do 2 f_equal.
    rewrite <- (map_filter_union_complement (fun kv => resolved_before cutoff kv.2 = true) m) at 1. rewrite map_size_disj_union by apply map_disjoint_filter_complement.
    assert (filter (fun kv : string * Incident => ~ (resolved_before cutoff kv.2 = true)) m = filter (fun kv => resolved_before cutoff kv.2 = false) m) as ->; [|lia].
    apply map_filter_ext. intros k i _. simpl. by rewrite not_true_iff_false.
  - intros inc Hs. by apply upsert_succeeds.
  - intros o incs Hs Hb Hx Hc. unfold TableReplaceNonResolved. rewrite Hb, (Hx 0%nat), Hc. cbn [negb].
    destruct (upsert_all_succeeds incs o 1 (filter (fun kv => row_open kv.2 = false) t) Hs Hx) as [t' ->]. by eexists.
  - intros inc Hc. unfold keep_row. destruct (m !! _) as [old|] eqn:E; [|done]. rewrite keep_first_carried; [done|]. by apply Hc.
Qed.

(** ** The store of the engine *)

(** Which calls the database fails. *)
Record faults := mkFaults {
  accepts_upsert : incident_table -> Incident -> bool;
  accepts_replace : incident_table -> list Incident -> tx_outcome;
  accepts_list : incident_table -> bool;
  accepts_prune : incident_table -> Time -> bool
}.

(** The incidents that read back. *)
Definition table_rows (t : incident_table) : gmap string Incident := omap scanIncident t.

Lemma stored_table_rows m t : stored m t -> table_rows t = m.
Proof.
  intros [Hi Hs Ht]. apply map_eq. intros id. unfold table_rows. rewrite lookup_omap. pose proof (Ht id) as H.
  destruct (m !! id) as [inc|] eqn:Em, (t !! id) as [r|]; try done. cbn.
  destruct (scan_columns inc (Hs id inc Em)) as (r' & Hr' & Hsc & _). rewrite H in Hr'. by injection Hr' as ->.
Qed.

(** The table is a store of the engine: it discharges what the engine is proved against. *)
Definition table_store (f : faults) : Store incident_table.
Proof.
  refine {| Upsert t inc := TableUpsert (accepts_upsert f t inc) t inc;
            ReplaceNonResolved t incs := TableReplaceNonResolved (accepts_replace f t incs) t incs;
            Get t id := default None (TableGet true t id);
            ListActive _ t := TableListActive (accepts_list f t) t;
            PruneResolvedOlderThan _ t cutoff := TablePruneResolvedOlderThan (accepts_prune f t cutoff) t cutoff;
            rows := table_rows; store_ok t := exists m, stored m t; holds := storable; datable := four_digit_years; kept := keep_first |}.
  - intros t [m Hm]. rewrite (stored_table_rows m t Hm). apply Hm.
  - intros t t' inc [m Hm] Hs Hu. apply (stored_upsert _ m) in Hu; [|done|done]. rewrite (stored_table_rows _ _ Hu), (stored_table_rows m t Hm). by split; [eexists|].
  - intros t t' incs [m Hm] Hs Hu. apply (stored_replace _ m) in Hu; [|done|done]. rewrite (stored_table_rows _ _ Hu), (stored_table_rows m t Hm). by split; [eexists|].
  - intros t id [m Hm]. by rewrite (stored_get m t id Hm), (stored_table_rows m t Hm).
  - intros _ t l [m Hm] Hl. rewrite (stored_table_rows m t Hm). by eapply stored_list.
  - intros _ t t' cutoff n [m Hm] Hc Hp. destruct (stored_prune _ m _ _ _ _ Hm Hc Hp) as [Hm' ->].
    rewrite (stored_table_rows _ _ Hm'), (stored_table_rows m t Hm), prune_filter. by split; [eexists|].
  - done.
  - done.
  - apply keep_first_again.
  - apply keep_first_self.
  - apply keep_first_carried.
Defined.

(** The engine over the table: its cache has the ids of the open rows, and what an update
    writes of each. *)
Theorem engine_over_table {R Sg D : Type} `{!IncidentReader R, !SignalStore Sg, !DeploySource D} (f : faults)
    (e : Engine R Sg D incident_table) :
  running (Store0 := table_store f) (fitting (Store0 := table_store f)) e ->
  exists m, stored m (e_store e) /\
    forall id, match e_active e !! id, filter (fun kv => open_row kv.2 = true) m !! id with
               | Some c, Some r => keep_first r c = r
               | None, None => True
               | _, _ => False
               end.
Proof.
  intros Hr. destruct (running_coherent (Store0 := table_store f) e Hr) as ([m Hm] & _ & H). exists m. split; [exact Hm|]. intros id. specialize (H id).
  unfold open_rows in H. simpl in H. by rewrite (stored_table_rows m _ Hm) in H.
Qed.
End IncidentStore.

(** ** At work *)

(** An encoder of what is nil, for runs whose columns are empty. *)
#[local] Instance nil_list_json {A} : ColumnJson (list A) :=
  {| MarshalColumn l := match l with [] => Some "null" | _ => None end; UnmarshalColumn _ := None; zeroColumn := [] |}.
#[local] Instance nil_option_json {A} : ColumnJson (option A) :=
  {| MarshalColumn o := match o with None => Some "null" | Some _ => None end; UnmarshalColumn _ := None; zeroColumn := None |}.

Definition spike : ErrorFamily := mkErrorFamily "pay" latencyStep errorCodeLatencySpike.

(** A latency spike that starts at [t]. *)
Definition spike_incident (t : Time) (status suspect : string) (resolvedAt : option Time) : Incident :=
  let i := mkIncident (StableID "prod" spike t) "prod" "pay" spike status "" "" 1 t t t None resolvedAt 0 None 0 [] [] [] [] [] (of_int 3) 10 30 None None None None suspect in i.

Lemma spike_storable t status suspect r : four_digit_years t -> (forall u, r = Some u -> four_digit_years u) -> storable (spike_incident t status suspect r).
Proof.
  intros Ht Hr. assert (forall A, column_stable (@nil A)) as Hl by (intros A; exists None; split; reflexivity).
  assert (forall A, column_stable (@None A)) as Ho by (intros A; exists None; split; reflexivity).
  constructor; simpl; [done| |done|done|done]. intros u [?|?]; [done|by apply Hr].
Qed.

Lemma incident_table_refines_witness :
  exists m t, history m t /\ TableGet true t (StableID "prod" spike unix_epoch) = Some (Some (spike_incident unix_epoch StatusActive "" None)) /\
    TableGet true t (StableID "prod" spike unix_epoch) = Some (m !! StableID "prod" spike unix_epoch).
Proof.
  assert (four_digit_years unix_epoch) as Hy by (unfold four_digit_years, unix_epoch, Second; lia).
  set (i := spike_incident unix_epoch StatusActive "" None).
  assert (history (keep_row keep_first ∅ i) (default ∅ (TableUpsert true ∅ i))) as Hrun.
  { apply (h_upsert true ∅ ∅ i); [apply h_new|by apply spike_storable|vm_compute; reflexivity]. }
  eexists _, _. split; [exact Hrun|]. split; [vm_compute; reflexivity|]. apply (incident_table_refines _ _ Hrun).
Defined.

(** An id names five minutes, and an anomaly is resolved two minutes after it was last seen:
    one that comes back in the same five minutes takes the id of the resolved one.  The
    in-memory store then holds the new incident; the table updates the old row, which keeps
    its start and its suspect deployment. *)
Theorem reopened_keeps_start :
  let old := spike_incident unix_epoch StatusResolved "d1" (Some (unix_epoch + 150 * Second)) in
  let inc := spike_incident (unix_epoch + 240 * Second) StatusActive "" None in
  inc_IncidentID inc = inc_IncidentID old /\ cfg_ResolveAfter DefaultConfig < inc_StartedAt inc - inc_StartedAt old /\
  exists t t', TableUpsert true ∅ old = Some t /\ TableUpsert true t inc = Some t' /\
    (exists got, TableGet true t' (inc_IncidentID inc) = Some (Some got) /\ inc_StartedAt got = inc_StartedAt old /\ inc_SuspectDeployID got = "d1" /\
                 inc_Status got = StatusActive) /\
    (s ← mem_Upsert NewMemoryStore old; s ← mem_Upsert s inc; mem_Get s (inc_IncidentID inc)) = Some inc.
Proof.
  cbv zeta. split; [vm_compute; reflexivity|]. split; [by vm_compute|]. do 2 eexists. split; [vm_compute; reflexivity|]. split; [vm_compute; reflexivity|].
  split; [eexists; split; [vm_compute; reflexivity|done]|]. vm_compute. reflexivity.
Qed.
