(* ===== verification/DeployTable.v ===== *)
(** Deployments and persisted events of the cold store ([internal/coldstore]:
    [deployment_store.go], [event_search.go], the table of [event_writer.go]): the upsert and
    its conflicts, the listing, the error rates around a deployment and the paged search.
    A table is the map of its rows by key, a statement one step that succeeds or fails as
    its argument says; JSON of the metadata is a parameter. *)

From S2P Require Import Prelude GoRuntime GoFloat GoText Types Incident Detect GoTime SqlText WideEvent ColdWriter.
Open Scope Z_scope.

(** ** Deployments *)

Class MetaJson := { MarshalMeta : gmap string string -> string; UnmarshalMeta : string -> option (gmap string string) }.

(** The metadata reads back, from a text that is not empty. *)
Definition meta_stable `{MetaJson} (m : gmap string string) : Prop := MarshalMeta m <> "" /\ UnmarshalMeta (MarshalMeta m) = Some m.

Record deploy_row := mkDeployRow {
  dw_id : string; dw_service : string; dw_version : option string; dw_env : string; dw_first_seen : string; dw_last_seen : string;
  dw_metadata : option string; dw_commit_sha : option string; dw_pr_url : option string; dw_commit_author : option string
}.

Inductive deploy_error := ErrEnvConflict | ErrSQL.

Section Deployments.
Context {MJ : MetaJson}.

Definition marshalMeta (m : gmap string string) : option string := if decide (m = ∅) then None else Some (MarshalMeta m).
Definition unmarshalMeta (s : string) : option (gmap string string) := if String.eqb s "" then Some ∅ else UnmarshalMeta s.

(** The values of the INSERT; [NULLIF(?, '')] is [nilIfEmpty]. *)
Definition deploy_columns (d : Deployment) : deploy_row :=
  mkDeployRow (dep_ID d) (dep_Service d) (nilIfEmpty (dep_Version d)) (dep_Env d) (FormatTs (dep_FirstSeen d)) (FormatTs (dep_LastSeen d))
    (marshalMeta (dep_Metadata d)) (nilIfEmpty (dep_CommitSHA d)) (nilIfEmpty (dep_PRURL d)) (nilIfEmpty (dep_CommitAuthor d)).

(** SQL: [COALESCE(a, b)], and the scalar [MIN] and [MAX] of two texts. *)
Definition coalesce (a b : option string) : option string := match a with Some v => Some v | None => b end.
Definition min_text (a b : string) : string := if String.ltb b a then b else a.
Definition max_text (a b : string) : string := if String.ltb a b then b else a.

Definition merge_row (old excluded : deploy_row) : deploy_row :=
  mkDeployRow (dw_id old) (dw_service old) (coalesce (dw_version excluded ≫= nilIfEmpty) (dw_version old)) (dw_env old)
    (min_text (dw_first_seen old) (dw_first_seen excluded)) (max_text (dw_last_seen old) (dw_last_seen excluded))
    (coalesce (dw_metadata excluded) (dw_metadata old)) (coalesce (dw_commit_sha excluded) (dw_commit_sha old))
    (coalesce (dw_pr_url excluded) (dw_pr_url old)) (coalesce (dw_commit_author excluded) (dw_commit_author old)).

Abbreviation deploy_table := (gmap string deploy_row) (only parsing).

(** [UpsertDeployment]: the SELECT is statement 0 of the transaction, the INSERT statement 1. *)
Definition UpsertDeployment (o : tx_outcome) (t : deploy_table) (d : Deployment) : deploy_table * option deploy_error :=
  if negb (tx_begin o) then (t, Some ErrSQL)
  else if negb (tx_exec o 0) then (t, Some ErrSQL)
  else
    let existing := t !! dep_ID d in
    if match existing with Some old => negb (String.eqb (dw_env old) (dep_Env d)) | None => false end then (t, Some ErrEnvConflict)
    else if negb (tx_exec o 1) then (t, Some ErrSQL)
    else
      let r := deploy_columns d in
      let t' := <[dep_ID d := match existing with Some old => merge_row old r | None => r end]> t in
      if tx_commit o then (t', None) else (t, Some ErrSQL).

(** One row of a SELECT; [strict] refuses metadata that does not decode. *)
Definition scan_deployment (strict : bool) (r : deploy_row) : option Deployment :=
  first ← ParseTs (dw_first_seen r); last_ ← ParseTs (dw_last_seen r);
  meta ← (match unmarshalMeta (default "" (dw_metadata r)) with
          | Some m => Some m
          | None => if strict then None else Some ∅
          end);
  Some (mkDeployment (dw_id r) (dw_service r) (default "" (dw_version r)) (dw_env r) first last_ meta
          (default "" (dw_commit_sha r)) (default "" (dw_pr_url r)) (default "" (dw_commit_author r))).

(** No result is an error, [Some None] no such deployment. *)
Definition DeploymentByID (ok : bool) (t : deploy_table) (id : string) : option (option Deployment) :=
  if negb ok then None else
  match t !! id with
  | None => Some None
  | Some r => Some <$> scan_deployment true r
  end.

Definition text_between (lo hi s : string) : bool := negb (String.ltb s lo) && negb (String.ltb hi s).

Definition in_window (start_ end_ : Time) (serviceFilter : string) (r : deploy_row) : bool :=
  text_between (FormatTs start_) (FormatTs end_) (dw_first_seen r) &&
  (String.eqb serviceFilter "" || String.eqb (dw_service r) serviceFilter).

(** [ORDER BY first_seen DESC]: rows of one time come as the database scans them. *)
Definition first_seen_desc (a b : deploy_row) : bool := String.ltb (dw_first_seen b) (dw_first_seen a).

Definition DeploymentsInWindow (it : MapIter) (ok : bool) (t : deploy_table) (start_ end_ : Time) (serviceFilter : string) : option (list Deployment) :=
  if negb ok then None else
  mapM (scan_deployment false) (ssort first_seen_desc (List.filter (in_window start_ end_ serviceFilter) (mrange it 90 t).*2)).

(** ** What a row says of its upserts *)

(** A deployment the columns can hold. *)
Definition holdable (d : Deployment) : Prop :=
  four_digit_years (dep_FirstSeen d) /\ four_digit_years (dep_LastSeen d) /\ (dep_Metadata d <> ∅ -> meta_stable (dep_Metadata d)).

Definition keep_text (old new_ : string) : string := if String.eqb new_ "" then old else new_.

Definition merge_deployment (old d : Deployment) : Deployment :=
  mkDeployment (dep_ID old) (dep_Service old) (keep_text (dep_Version old) (dep_Version d)) (dep_Env old)
    (Z.min (dep_FirstSeen old) (dep_FirstSeen d)) (Z.max (dep_LastSeen old) (dep_LastSeen d))
    (if decide (dep_Metadata d = ∅) then dep_Metadata old else dep_Metadata d)
    (keep_text (dep_CommitSHA old) (dep_CommitSHA d)) (keep_text (dep_PRURL old) (dep_PRURL d)) (keep_text (dep_CommitAuthor old) (dep_CommitAuthor d)).

Lemma nilIfEmpty_keep old new_ : coalesce (nilIfEmpty new_) (nilIfEmpty old) = nilIfEmpty (keep_text old new_).
Proof. unfold keep_text, nilIfEmpty. destruct (String.eqb_spec new_ "") as [->|Hne]; [done|]. simpl. by rewrite (proj2 (String.eqb_neq _ _) Hne). Qed.

Lemma nilIfEmpty_twice s : nilIfEmpty s ≫= nilIfEmpty = nilIfEmpty s.
Proof. unfold nilIfEmpty. destruct (String.eqb s "") eqn:E; [done|]. simpl. by rewrite E. Qed.

Lemma merge_columns old d : holdable old -> holdable d -> merge_row (deploy_columns old) (deploy_columns d) = deploy_columns (merge_deployment old d).
Proof.
  intros (F & L & _) (F' & L' & _). unfold merge_row, deploy_columns, merge_deployment. simpl. rewrite nilIfEmpty_twice, !nilIfEmpty_keep. f_equal.
  - unfold min_text. rewrite FormatTs_ltb by done. destruct (Z.ltb_spec (dep_FirstSeen d) (dep_FirstSeen old)); f_equal; lia.
  - unfold max_text. rewrite FormatTs_ltb by done. destruct (Z.ltb_spec (dep_LastSeen old) (dep_LastSeen d)); f_equal; lia.
  - unfold marshalMeta. destruct (decide (dep_Metadata d = ∅)) as [Em|Em]; [done|]. rewrite (decide_False (P := dep_Metadata d = ∅)) by done. done.
Qed.

Lemma merge_holdable old d : holdable old -> holdable d -> holdable (merge_deployment old d).
Proof.
  intros (F & L & M) (F' & L' & M'). unfold holdable, four_digit_years in *. simpl. split; [lia|]. split; [lia|]. case_decide; auto.
Qed.

Lemma default_nilIfEmpty s : default "" (nilIfEmpty s) = s.
Proof. unfold nilIfEmpty. by destruct (String.eqb_spec s "") as [->|]. Qed.

Lemma scan_deploy_columns strict d : holdable d -> scan_deployment strict (deploy_columns d) = Some d.
Proof.
  intros (F & L & M). unfold scan_deployment, deploy_columns. simpl. rewrite !ParseTs_FormatTs by done. simpl. rewrite !default_nilIfEmpty.
  assert (unmarshalMeta (default "" (marshalMeta (dep_Metadata d))) = Some (dep_Metadata d)) as ->; [|by destruct d].
  unfold marshalMeta, unmarshalMeta. destruct (decide (dep_Metadata d = ∅)) as [->|Hne]; [done|]. destruct (M Hne) as [Hn Hs].
  simpl. by rewrite (proj2 (String.eqb_neq _ _) Hn).
Qed.

(** A series of upserts, and those of an id that were accepted. *)
Fixpoint upserts (t : deploy_table) (calls : list (tx_outcome * Deployment)) : deploy_table * list Deployment :=
  match calls with
  | [] => (t, [])
  | (o, d) :: calls =>
    let '(t, err) := UpsertDeployment o t d in
    let '(t, acc) := upserts t calls in
    (t, match err with None => d :: acc | Some _ => acc end)
  end.

Definition of_id (id : string) (ds : list Deployment) : list Deployment := List.filter (fun d => String.eqb (dep_ID d) id) ds.

Lemma upsert_refused o t d t' err : UpsertDeployment o t d = (t', Some err) -> t' = t.
Proof. unfold UpsertDeployment. intros H'. repeat case_match; by simplify_eq. Qed.

Lemma upsert_accepted o t d t' : UpsertDeployment o t d = (t', None) ->
  t' = <[dep_ID d := match t !! dep_ID d with Some old => merge_row old (deploy_columns d) | None => deploy_columns d end]> t /\
  forall old, t !! dep_ID d = Some old -> dw_env old = dep_Env d.
Proof.
  unfold UpsertDeployment. intros H'. do 2 (case_match; [done|]). destruct (match t !! dep_ID d with Some _ => _ | None => _ end) eqn:E in H'; [done|].
  do 2 (case_match; try done). simplify_eq. split; [done|]. intros old Ho. rewrite Ho in E. by bool_prop.
Qed.

(** What an id holds after the upserts [acc] that were accepted for it. *)
Definition id_state (start_ : option Deployment) (acc : list Deployment) : option Deployment :=
  foldl (fun o d => Some (match o with Some old => merge_deployment old d | None => d end)) start_ acc.

Lemma upserts_state id calls : forall t (m : option Deployment) t' acc,
  Forall (fun c => holdable c.2) calls -> t !! id = deploy_columns <$> m -> (forall d, m = Some d -> holdable d) ->
  upserts t calls = (t', acc) ->
  t' !! id = deploy_columns <$> id_state m (of_id id acc) /\ (forall d, id_state m (of_id id acc) = Some d -> holdable d) /\
  (forall d0 d, m = Some d0 -> d ∈ of_id id acc -> dep_Env d = dep_Env d0) /\
  Forall holdable acc.
Proof.
  induction calls as [|[o d] calls IH]; intros t m t' acc Hh Ht Hm Hu; cbn [upserts] in Hu.
  - simplify_eq. split; [done|]. split; [done|]. split; [|done]. intros d0 d _ Hd. by apply elem_of_nil in Hd.
  - inversion Hh as [|? ? Hd Hh']; subst. destruct (UpsertDeployment o t d) as [t1 err] eqn:E1. destruct (upserts t1 calls) as [t2 acc'] eqn:E2. simplify_eq.
    destruct err as [err|]; [apply upsert_refused in E1 as ->; by apply (IH t m)|]. apply upsert_accepted in E1 as [-> Henv]. simpl in Hd.
    unfold of_id. cbn [List.filter]. destruct (String.eqb_spec (dep_ID d) id) as [Hid|Hne].
    + set (m1 := Some (match m with Some old => merge_deployment old d | None => d end)).
      assert (Hm1 : forall x, m1 = Some x -> holdable x) by (intros x [= <-]; destruct m; [by apply merge_holdable; [apply Hm|]|done]).
      assert (Ht1 : <[dep_ID d := match t !! dep_ID d with Some old => merge_row old (deploy_columns d) | None => deploy_columns d end]> t !! id = deploy_columns <$> m1).
      { rewrite Hid, lookup_insert_eq, Ht. unfold m1. destruct m as [old|]; simpl; [|done]. f_equal. apply merge_columns; [by apply Hm|done]. }
      destruct (IH _ m1 _ _ Hh' Ht1 Hm1 E2) as (H1 & H2 & H3 & H4). split; [exact H1|]. split; [exact H2|]. split; [|by constructor].
      intros d0 x -> Hx. assert (dep_Env d = dep_Env d0) as Ed by (rewrite Hid in Henv; specialize (Henv _ Ht); simpl in Henv; done).
      apply elem_of_cons in Hx as [->|Hx]; [done|]. rewrite (H3 _ x eq_refl Hx). done.
    + destruct (IH _ m _ _ Hh' ltac:(by rewrite lookup_insert_ne) Hm E2) as (H1 & H2 & H3 & H4). split; [exact H1|]. split; [exact H2|]. split; [exact H3|by constructor].
Qed.

(** The last text said, if any. *)
Definition last_said (f : Deployment -> string) (acc : list Deployment) : string :=
  default "" (last (List.filter (fun s => negb (String.eqb s "")) (f <$> acc))).
Definition last_metadata (acc : list Deployment) : gmap string string :=
  default ∅ (last (List.filter (fun m => bool_decide (m <> ∅)) (dep_Metadata <$> acc))).

Lemma last_said_snoc f acc d : last_said f (acc ++ [d]) = keep_text (last_said f acc) (f d).
Proof.
  unfold last_said, keep_text. rewrite fmap_app, List.filter_app. cbn [fmap list_fmap List.filter]. destruct (String.eqb (f d) "") eqn:E; cbn [negb]; [by rewrite app_nil_r|].
  by rewrite last_snoc.
Qed.

Lemma last_metadata_snoc acc d : last_metadata (acc ++ [d]) = if decide (dep_Metadata d = ∅) then last_metadata acc else dep_Metadata d.
Proof.
  unfold last_metadata. rewrite fmap_app, List.filter_app. cbn [fmap list_fmap List.filter]. destruct (decide (dep_Metadata d = ∅)) as [E|E].
  - rewrite bool_decide_eq_false_2 by (intros H; by apply H). by rewrite app_nil_r.
  - rewrite bool_decide_eq_true_2 by done. by rewrite last_snoc.
Qed.

(** What a deployment is after its upserts: the first names its service, the earliest and
    the latest times stay, and of the rest the last that was said. *)
Record summary (acc : list Deployment) (d0 x : Deployment) : Prop := {
  su_id : dep_ID x = dep_ID d0;
  su_service : dep_Service x = dep_Service d0;
  su_env : dep_Env x = dep_Env d0;
  su_first : dep_FirstSeen x ∈ dep_FirstSeen <$> acc /\ forall d, d ∈ acc -> dep_FirstSeen x <= dep_FirstSeen d;
  su_last : dep_LastSeen x ∈ dep_LastSeen <$> acc /\ forall d, d ∈ acc -> dep_LastSeen d <= dep_LastSeen x;
  su_version : dep_Version x = last_said dep_Version acc;
  su_commit : dep_CommitSHA x = last_said dep_CommitSHA acc;
  su_pr : dep_PRURL x = last_said dep_PRURL acc;
  su_author : dep_CommitAuthor x = last_said dep_CommitAuthor acc;
  su_meta : dep_Metadata x = last_metadata acc
}.

Lemma keep_text_nil s : keep_text "" s = s.
Proof. unfold keep_text. by destruct (String.eqb_spec s "") as [->|]. Qed.

Lemma id_state_summary d0 acc : exists x, id_state None (d0 :: acc) = Some x /\ summary (d0 :: acc) d0 x.
Proof.
  induction acc as [|d acc (x & Hx & S)] using rev_ind.
  - exists d0. split; [done|]. constructor; try done.
    + split; [left|]. intros d [->|H]%elem_of_cons; [done|by apply elem_of_nil in H].
    + split; [left|]. intros d [->|H]%elem_of_cons; [done|by apply elem_of_nil in H].
    + change [d0] with ([] ++ [d0]). rewrite last_said_snoc. symmetry. apply keep_text_nil.
    + change [d0] with ([] ++ [d0]). rewrite last_said_snoc. symmetry. apply keep_text_nil.
    + change [d0] with ([] ++ [d0]). rewrite last_said_snoc. symmetry. apply keep_text_nil.
    + change [d0] with ([] ++ [d0]). rewrite last_said_snoc. symmetry. apply keep_text_nil.
    + change [d0] with ([] ++ [d0]). rewrite last_metadata_snoc. by case_decide.
  - exists (merge_deployment x d). rewrite (app_comm_cons acc [d] d0). split; [unfold id_state in *; by rewrite foldl_snoc, Hx|].
    destruct S as [S1 S2 S3 [S4 S5] [S6 S7] S8 S9 S10 S11 S12].
    constructor; unfold merge_deployment; cbn [dep_ID dep_Service dep_Env dep_FirstSeen dep_LastSeen dep_Version dep_CommitSHA dep_PRURL dep_CommitAuthor dep_Metadata];
      [done|done|done| | |by rewrite last_said_snoc, S8|by rewrite last_said_snoc, S9|by rewrite last_said_snoc, S10|by rewrite last_said_snoc, S11
                        |by rewrite last_metadata_snoc, S12].
    + rewrite fmap_app, elem_of_app. split; [destruct (Z.min_spec (dep_FirstSeen x) (dep_FirstSeen d)) as [[_ ->]|[_ ->]]; [by left|right; left]|].
      intros e [He|[->|He%elem_of_nil]%elem_of_cons]%elem_of_app; [specialize (S5 e He); lia|lia|done].
    + rewrite fmap_app, elem_of_app. split; [destruct (Z.max_spec (dep_LastSeen x) (dep_LastSeen d)) as [[_ ->]|[_ ->]]; [right; left|by left]|].
      intros e [He|[->|He%elem_of_nil]%elem_of_cons]%elem_of_app; [specialize (S7 e He); lia|lia|done].
Qed.

Lemma elem_of_id id acc d : d ∈ of_id id acc <-> d ∈ acc /\ dep_ID d = id.
Proof. unfold of_id. rewrite elem_of_lfilter, String.eqb_eq. done. Qed.

(** A conflicting upsert is refused, so those accepted for an id agree on the environment. *)
Lemma upserts_same_env id calls : forall t t' acc, Forall (fun c => holdable c.2) calls -> t !! id = None -> upserts t calls = (t', acc) ->
  forall d d', d ∈ of_id id acc -> d' ∈ of_id id acc -> dep_Env d = dep_Env d'.
Proof.
  induction calls as [|[o d] calls IH]; intros t t' acc Hh Ht Hu; cbn [upserts] in Hu; [simplify_eq; intros x y Hx; by apply elem_of_nil in Hx|].
  inversion Hh as [|? ? Hd Hh']; subst. destruct (UpsertDeployment o t d) as [t1 err] eqn:E1. destruct (upserts t1 calls) as [t2 acc'] eqn:E2. simplify_eq.
  destruct err as [err|]; [apply upsert_refused in E1 as ->; by apply (IH t t')|]. apply upsert_accepted in E1 as [-> _]. simpl in Hd.
  unfold of_id. cbn [List.filter]. destruct (String.eqb_spec (dep_ID d) id) as [Hid|Hne].
  - assert (<[dep_ID d := match t !! dep_ID d with Some old => merge_row old (deploy_columns d) | None => deploy_columns d end]> t !! id = deploy_columns <$> Some d) as Ht1
      by (by rewrite Hid, lookup_insert_eq, Ht).
    destruct (upserts_state id calls _ (Some d) t' acc' Hh' Ht1 ltac:(by intros x [= <-]) E2) as (_ & _ & He & _).
    intros x y [->|Hx]%elem_of_cons [->|Hy]%elem_of_cons; [done|by rewrite (He d y)|by rewrite (He d x)|by rewrite (He d x), (He d y)].
  - eapply (IH _ t' acc'); [done| |exact E2]. by rewrite lookup_insert_ne.
Qed.

(** The table after any upserts, id by id. *)
Lemma upserts_rows id calls t acc : Forall (fun c => holdable c.2) calls -> upserts ∅ calls = (t, acc) ->
  match of_id id acc with
  | [] => t !! id = None
  | d0 :: _ => exists x, t !! id = Some (deploy_columns x) /\ holdable x /\ dep_ID x = id /\ summary (of_id id acc) d0 x /\
                         forall d, d ∈ of_id id acc -> dep_Env d = dep_Env d0
  end.
Proof.
  intros Hh Hu. destruct (upserts_state id calls ∅ None t acc Hh (lookup_empty id) ltac:(done) Hu) as (Hrow & Hhold & _ & Hacc).
  destruct (of_id id acc) as [|d0 rest] eqn:E; [done|]. destruct (id_state_summary d0 rest) as (x & Hx & S). rewrite Hx in *. exists x. split; [done|]. split; [by apply Hhold|].
  assert (dep_ID d0 = id) as Hd0 by (apply (elem_of_id id acc); rewrite E; left). split; [by rewrite (su_id _ _ _ S)|]. split; [done|].
  intros d Hd. apply (upserts_same_env id calls ∅ t acc Hh (lookup_empty id) Hu); rewrite E; [done|left].
Qed.

#[local] Instance first_seen_desc_by : LessBy first_seen_desc (fun r => down (dw_first_seen r)).
Proof. intros a b. done. Qed.

Lemma text_between_time lo hi t : four_digit_years lo -> four_digit_years hi -> four_digit_years t ->
  text_between (FormatTs lo) (FormatTs hi) (FormatTs t) = (lo <=? t) && (t <=? hi).
Proof. intros Hl Hh Ht. unfold text_between. rewrite !FormatTs_ltb by done. by rewrite !Z.leb_antisym. Qed.

Lemma scan_rows strict (rs : list deploy_row) : (forall r, r ∈ rs -> exists x, r = deploy_columns x /\ holdable x) ->
  exists ds, mapM (scan_deployment strict) rs = Some ds /\ rs = deploy_columns <$> ds /\ Forall holdable ds.
Proof.
  induction rs as [|r rs IH]; intros H; [by exists []|]. destruct (H r ltac:(left)) as (x & -> & Hx). destruct IH as (ds & Hm & -> & Hh); [intros; apply H; by right|].
  exists (x :: ds). split; [|split; [done|by constructor]]. cbn [mapM]. by rewrite scan_deploy_columns, Hm.
Qed.

Lemma window_listing it t start_ end_ svc : four_digit_years start_ -> four_digit_years end_ ->
  (forall id r, t !! id = Some r -> exists x, r = deploy_columns x /\ holdable x /\ dep_ID x = id) ->
  exists l, DeploymentsInWindow it true t start_ end_ svc = Some l /\
    (forall x, x ∈ l <-> DeploymentByID true t (dep_ID x) = Some (Some x) /\ start_ <= dep_FirstSeen x <= end_ /\ (svc = "" \/ dep_Service x = svc)) /\
    StronglySorted (fun a b => dep_FirstSeen b <= dep_FirstSeen a) l.
Proof.
  intros Hs He Ht. unfold DeploymentsInWindow. cbn [negb]. set (rs := ssort _ _).
  assert (forall r, r ∈ rs <-> exists id, t !! id = Some r /\ in_window start_ end_ svc r = true) as Hrs.
  { intros r. unfold rs. rewrite elem_of_ssort, elem_of_lfilter, list_elem_of_fmap. split.
    - intros [([id r'] & -> & Hr) Hw]. apply elem_of_mrange in Hr. by exists id.
    - intros (id & Hr & Hw). split; [|done]. exists (id, r). split; [done|]. by apply elem_of_mrange. }
  destruct (scan_rows false rs) as (ds & Hm & Erows & Hh).
  { intros r (id & Hr & _)%Hrs. destruct (Ht id r Hr) as (x & -> & Hx & _). by exists x. }
  exists ds. split; [done|]. rewrite Forall_forall in Hh. split.
  - intros x. split.
    + intros Hx. pose proof (Hh x Hx) as Hhx. assert (deploy_columns x ∈ rs) as Hr by (rewrite Erows; by apply list_elem_of_fmap_2).
      apply Hrs in Hr as (id & Hr & Hw). assert (dep_ID x = id) as Hid.
      { destruct (Ht id _ Hr) as (y & Hy & _ & <-). by apply (f_equal dw_id) in Hy. }
      unfold DeploymentByID. rewrite Hid, Hr. cbn [negb]. rewrite scan_deploy_columns by done. split; [done|].
      unfold in_window in Hw. simpl in Hw. rewrite text_between_time in Hw by (done || apply Hhx). apply andb_true_iff in Hw as [Hw Hsv]. bool_prop.
      split; [lia|]. apply orb_true_iff in Hsv as [Hsv|Hsv]; bool_prop; auto.
    + intros (Hg & Hw & Hsv). unfold DeploymentByID in Hg. cbn [negb] in Hg. destruct (t !! dep_ID x) as [r|] eqn:Er; [|done].
      destruct (Ht _ _ Er) as (y & -> & Hy & _). rewrite scan_deploy_columns in Hg by done. injection Hg as ->.
      assert (deploy_columns x ∈ rs) as Hr.
      { apply Hrs. exists (dep_ID x). split; [done|]. unfold in_window. simpl. rewrite text_between_time by (done || apply Hy).
        rewrite !(proj2 (Z.leb_le _ _)) by lia. destruct Hsv as [->| <-]; [done|]. by rewrite String.eqb_refl, orb_true_r. }
      rewrite Erows in Hr. apply list_elem_of_fmap in Hr as (y & Hxy & Hin). assert (Some x = Some y) as [= ->]; [|done].
      rewrite <- (scan_deploy_columns true x), <- (scan_deploy_columns true y) by auto. by rewrite Hxy.
  - pose proof (ssort_sorted first_seen_desc (fun r => down (dw_first_seen r)) (List.filter (in_window start_ end_ svc) (mrange it 90 t).*2)) as Hsort.
    fold rs in Hsort. rewrite Erows in Hsort. clear -Hsort Hh. induction ds as [|x ds IH]; constructor.
    + apply IH; [intros; apply Hh; by right|]. by apply StronglySorted_inv in Hsort as [? _].
    + apply StronglySorted_inv in Hsort as [_ Ha]. apply Forall_forall. intros y Hy. apply (proj1 (Forall_forall _ _)) with (x := deploy_columns y) in Ha; [|by apply list_elem_of_fmap_2].
      unfold first_seen_desc in Ha. simpl in Ha. rewrite FormatTs_ltb in Ha by (apply Hh; (by right) || left). apply Z.ltb_ge in Ha. lia.
Qed.

(** C14: A deployment is what its upserts said.  Whatever upserts ran, those the database
    refused included, the accepted ones of an id agree on the environment, and reading the
    id gives the service first named, the earliest and the latest time seen, and of version,
    commit, pull request, author and metadata the last that was said; an id no upsert of
    which was accepted is not found; and a listing gives exactly the deployments first seen
    in its window, of its service if one is asked for, newest first. *)
Theorem deployment_history calls t acc : Forall (fun c => holdable c.2) calls -> upserts ∅ calls = (t, acc) ->
  (forall id, match of_id id acc with
              | [] => DeploymentByID true t id = Some None
              | d0 :: _ => exists x, DeploymentByID true t id = Some (Some x) /\ summary (of_id id acc) d0 x /\
                                     forall d, d ∈ of_id id acc -> dep_Env d = dep_Env d0
              end) /\
  forall it start_ end_ svc, four_digit_years start_ -> four_digit_years end_ ->
  exists l, DeploymentsInWindow it true t start_ end_ svc = Some l /\
    (forall x, x ∈ l <-> DeploymentByID true t (dep_ID x) = Some (Some x) /\ start_ <= dep_FirstSeen x <= end_ /\ (svc = "" \/ dep_Service x = svc)) /\
    StronglySorted (fun a b => dep_FirstSeen b <= dep_FirstSeen a) l.
Proof.
  intros Hh Hu. split.
  - intros id. pose proof (upserts_rows id calls t acc Hh Hu) as H. unfold DeploymentByID. cbn [negb]. destruct (of_id id acc) as [|d0 rest]; [by rewrite H|].
    destruct H as (x & -> & Hx & _ & S & He). exists x. by rewrite scan_deploy_columns.
  - intros it start_ end_ svc Hs He. apply window_listing; [done|done|]. intros id r Hr. pose proof (upserts_rows id calls t acc Hh Hu) as H.
    destruct (of_id id acc); [congruence|]. destruct H as (x & Hx & Hhx & Hid & _). exists x. split; [congruence|done].
Qed.

(** What an upsert answers when the database accepts its statements. *)
Lemma upsert_answer t d : (UpsertDeployment (mkTxOutcome true (fun _ => true) true) t d).2 =
  match t !! dep_ID d with Some old => if String.eqb (dw_env old) (dep_Env d) then None else Some ErrEnvConflict | None => None end.
Proof. unfold UpsertDeployment. cbn [tx_begin tx_exec tx_commit negb]. destruct (t !! dep_ID d) as [old|]; [|done]. by destruct (String.eqb (dw_env old) (dep_Env d)). Qed.
End Deployments.

(** ** Events and error rates *)

(** The table of events: its rows with the ids of [AUTOINCREMENT], and the last id given. *)
Record event_table := mkEventTable { et_rows : list (Z * row); et_seq : Z }.

Definition insert_row (t : event_table) (r : row) : event_table := mkEventTable (et_rows t ++ [(et_seq t + 1, r)]) (et_seq t + 1).
Definition insert_rows (t : event_table) (rs : list row) : event_table := foldl insert_row t rs.

(** [WriteEvent]: one statement. *)
Definition WriteEvent (ok : bool) (t : event_table) (ev : WideEvent) : event_table * bool :=
  if ok then (insert_row t (event_row ev), true) else (t, false).

Record ServiceErrorRate := mkServiceErrorRate { se_Total : Z; se_Failures : Z }.

Definition count_rows (f : row -> bool) (rs : list row) : Z := Z.of_nat (length (List.filter f rs)).

Definition rate_row (service : string) (start_ end_ : Time) (r : row) : bool :=
  String.eqb (ro_service r) service && text_between (FormatTs start_) (FormatTs end_) (FormatTs (ro_timestamp r)).

(** The rate and whether there was an error. *)
Definition ServiceErrorRateInWindow (ok : bool) (t : event_table) (service : string) (start_ end_ : Time) : ServiceErrorRate * bool :=
  if negb ok then (mkServiceErrorRate 0 0, true)
  else let rs := (et_rows t).*2 in
       (mkServiceErrorRate (count_rows (rate_row service start_ end_) rs)
                           (count_rows (fun r => rate_row service start_ end_ r && (ro_success r =? 0)) rs), false).

Record DeployRateDelta := mkDeployRateDelta {
  dd_BeforeRate : option float64; dd_AfterRate : option float64; dd_BeforeRequests : Z; dd_AfterRequests : Z; dd_Ratio : option float64
}.

Definition sampleWindow : Duration := 5 * Minute.
Definition minRequests : Z := 10.

Definition failure_rate (r : ServiceErrorRate) : float64 := fdiv (of_int (se_Failures r)) (fmax (of_int (se_Total r)) (of_int 1)).

(** The two queries may fail one by one. *)
Definition DeployErrorRateDelta (ok1 ok2 : bool) (t : event_table) (service : string) (firstSeen : Time) : DeployRateDelta * bool :=
  let '(before, berr) := ServiceErrorRateInWindow ok1 t service (TimeAdd firstSeen (- sampleWindow)) firstSeen in
  let '(after, aerr) := ServiceErrorRateInWindow ok2 t service firstSeen (TimeAdd firstSeen sampleWindow) in
  if berr || aerr then (mkDeployRateDelta None None (se_Total before) (se_Total after) None, true)
  else
    let bRate := failure_rate before in
    let aRate := failure_rate after in
    let ratio := if (minRequests <=? se_Total before) && (minRequests <=? se_Total after) &&
                    negb ((se_Failures before =? 0) && (se_Failures after =? 0)) && negb ((se_Failures before =? 0) && (0 <? se_Failures after))
                 then Some (fdiv aRate (fmax bRate (flit 1 1000))) else None in
    (mkDeployRateDelta (Some bRate) (Some aRate) (se_Total before) (se_Total after) ratio, false).

(** Rows of a service with a time in a window. *)
Definition rows_in (t : event_table) (service : string) (lo hi : Time) : list row :=
  List.filter (fun r => String.eqb (ro_service r) service && ((lo <=? ro_timestamp r) && (ro_timestamp r <=? hi))) (et_rows t).*2.

Definition table_years (t : event_table) : Prop := forall r, r ∈ (et_rows t).*2 -> four_digit_years (ro_timestamp r).

Lemma rate_rows t service lo hi : table_years t -> four_digit_years lo -> four_digit_years hi ->
  List.filter (rate_row service lo hi) (et_rows t).*2 = rows_in t service lo hi.
Proof. intros Ht Hl Hh. apply lfilter_ext. intros r Hr. unfold rate_row. by rewrite text_between_time by auto. Qed.

(** The comparison around a deployment counts the rows of the five minutes before and after
    it, both ends included; it gives a multiplier exactly when both sides have ten requests
    and something failed before. *)
Theorem error_rate_delta t service firstSeen d err : table_years t ->
  four_digit_years (firstSeen - sampleWindow) -> four_digit_years firstSeen -> four_digit_years (firstSeen + sampleWindow) ->
  DeployErrorRateDelta true true t service firstSeen = (d, err) ->
  let before := rows_in t service (firstSeen - sampleWindow) firstSeen in
  let after := rows_in t service firstSeen (firstSeen + sampleWindow) in
  err = false /\ dd_BeforeRequests d = Z.of_nat (length before) /\ dd_AfterRequests d = Z.of_nat (length after) /\
  is_Some (dd_BeforeRate d) /\ is_Some (dd_AfterRate d) /\
  (is_Some (dd_Ratio d) <-> minRequests <= Z.of_nat (length before) /\ minRequests <= Z.of_nat (length after) /\
                           exists r, r ∈ before /\ ro_success r = 0).
Proof.
  intros Ht H1 H2 H3 Hd. cbv zeta. unfold DeployErrorRateDelta, ServiceErrorRateInWindow in Hd. cbn [negb orb] in Hd. unfold TimeAdd, count_rows in Hd.
  change (firstSeen + - sampleWindow) with (firstSeen - sampleWindow) in Hd. rewrite !rate_rows in Hd by done. cbn [se_Total se_Failures] in Hd. injection Hd as <- <-.
  cbn [dd_BeforeRequests dd_AfterRequests dd_BeforeRate dd_AfterRate dd_Ratio]. split; [done|]. split; [done|]. split; [done|]. split; [by eexists|]. split; [by eexists|].
  set (nb := length (rows_in t service (firstSeen - sampleWindow) firstSeen)). set (na := length (rows_in t service firstSeen (firstSeen + sampleWindow))).
  set (fb := length (List.filter (fun r => rate_row service (firstSeen - sampleWindow) firstSeen r && _) _)).
  set (fa := length (List.filter (fun r => rate_row service firstSeen _ r && _) _)).
  assert ((0 < fb)%nat <-> exists r, r ∈ rows_in t service (firstSeen - sampleWindow) firstSeen /\ ro_success r = 0) as Hfb.
  { unfold fb. rewrite <- rate_rows by done. split.
    - intros Hl. destruct (List.filter _ _) as [|r l] eqn:E in Hl; [simpl in Hl; lia|]. exists r. assert (r ∈ r :: l) as Hr by left. rewrite <- E in Hr.
      apply elem_of_lfilter in Hr as [Hr Hp]. apply andb_true_iff in Hp as [Hp Hs]. split; [by apply elem_of_lfilter|by apply Z.eqb_eq].
    - intros (r & Hr & Hs). apply elem_of_lfilter in Hr as [Hr Hp].
      assert (r ∈ List.filter (fun r => rate_row service (firstSeen - sampleWindow) firstSeen r && (ro_success r =? 0)) (et_rows t).*2) as Hin
        by (apply elem_of_lfilter; split; [done|]; by rewrite Hp, Hs).
      destruct (List.filter _ _); [by apply elem_of_nil in Hin|simpl; lia]. }
  rewrite <- Hfb. destruct (Z.leb_spec minRequests (Z.of_nat nb)), (Z.leb_spec minRequests (Z.of_nat na)), (Z.eqb_spec (Z.of_nat fb) 0), (Z.eqb_spec (Z.of_nat fa) 0), (Z.ltb_spec 0 (Z.of_nat fa));
    simpl; split; intros Hx; try lia; try (by eexists); try (by destruct Hx).
Qed.

(** ** Search *)

Record SearchFilter := mkSearchFilter {
  sx_TraceID : string; sx_UserID : string; sx_Service : string; sx_ErrorCode : string; sx_Start : Time; sx_End : Time; sx_Limit : Z; sx_Cursor : Z
}.

Record SearchResult := mkSearchResult {
  sr_ID : Z; sr_TraceID : string; sr_SpanID : string; sr_EventName : string; sr_Service : string; sr_Env : string; sr_Version : string;
  sr_DeploymentID : string; sr_UserID : string; sr_StatusCode : Z; sr_Success : bool; sr_ErrorCode : string; sr_ErrorMessage : string;
  sr_LatencyMs : Z; sr_Timestamp : Time
}.

Record SearchPage := mkSearchPage { sp_Results : list SearchResult; sp_NextCursor : Z; sp_TotalCount : Z }.

Definition search_limit (f : SearchFilter) : Z :=
  let l := if sx_Limit f <=? 0 then 50 else sx_Limit f in if 200 <? l then 200 else l.

(** The conditions of both queries; a column that is NULL equals nothing. *)
Definition base_match (f : SearchFilter) (r : row) : bool :=
  (String.eqb (sx_TraceID f) "" || String.eqb (ro_trace_id r) (sx_TraceID f)) &&
  (String.eqb (sx_UserID f) "" || String.eqb (ro_user_id r) (sx_UserID f)) &&
  (String.eqb (sx_Service f) "" || String.eqb (ro_service r) (sx_Service f)) &&
  (String.eqb (sx_ErrorCode f) "" || match ro_error_code r with Some c => String.eqb c (sx_ErrorCode f) | None => false end) &&
  (IsZero (sx_Start f) || negb (String.ltb (FormatTs (ro_timestamp r)) (FormatTs (sx_Start f)))) &&
  (IsZero (sx_End f) || negb (String.ltb (FormatTs (sx_End f)) (FormatTs (ro_timestamp r)))).

Definition before_cursor (cursor : Z) (a : Z * row) : bool := negb (0 <? cursor) || (a.1 <? cursor).

Definition result_at (ts : Time) (a : Z * row) : SearchResult :=
  let r := a.2 in
  mkSearchResult a.1 (ro_trace_id r) (default "" (ro_span_id r)) (ro_event_name r) (ro_service r) (ro_env r) (default "" (ro_version r))
    (default "" (ro_deployment_id r)) (ro_user_id r) (ro_status_code r) (negb (ro_success r =? 0)) (default "" (ro_error_code r))
    (default "" (ro_error_message r)) (ro_latency_ms r) ts.

Definition scan_result (a : Z * row) : option SearchResult := ts ← ParseTs (FormatTs (ro_timestamp a.2)); Some (result_at ts a).

(** [ORDER BY id DESC]. *)
Definition id_desc (a b : Z * row) : bool := b.1 <? a.1.

Definition matching (f : SearchFilter) (t : event_table) : list (Z * row) := List.filter (fun a => base_match f a.2) (et_rows t).

(** [SearchEvents]: the count and the page are two queries, on the table as each finds it;
    one row more than the page says whether there is a next. *)
Definition SearchEvents (ok1 ok2 : bool) (t1 t2 : event_table) (f : SearchFilter) : option SearchPage :=
  if negb ok1 then None else
  let total := Z.of_nat (length (matching f t1)) in
  if negb ok2 then None else
  let limit := Z.to_nat (search_limit f) in
  results ← mapM scan_result (take (limit + 1) (ssort id_desc (List.filter (before_cursor (sx_Cursor f)) (matching f t2))));
  Some (if (limit <? length results)%nat
        then let results := take limit results in mkSearchPage results (default 0 (sr_ID <$> last results)) total
        else mkSearchPage results 0 total).

(** *** Following the cursors *)

(** The ids of the table ascend from 1 to the last given. *)
Definition ids_ascend (t : event_table) : Prop :=
  NoDup (et_rows t).*1 /\ forall a, a ∈ et_rows t -> 0 < a.1 <= et_seq t.

Lemma insert_rows_spec rs : forall t, exists new_, et_rows (insert_rows t rs) = et_rows t ++ new_ /\
  et_seq (insert_rows t rs) = et_seq t + Z.of_nat (length rs) /\ new_.*2 = rs /\
  NoDup new_.*1 /\ forall a, a ∈ new_ -> et_seq t < a.1 <= et_seq t + Z.of_nat (length rs).
Proof.
  induction rs as [|r rs IH]; intros t.
  - exists []. cbn. rewrite app_nil_r. split; [done|]. split; [lia|]. split; [done|]. split; [constructor|]. intros a Ha. by apply elem_of_nil in Ha.
  - destruct (IH (insert_row t r)) as (new_ & H1 & H2 & H3 & H4 & H5). exists ((et_seq t + 1, r) :: new_). unfold insert_rows in *. cbn [foldl].
    rewrite H1, H2. cbn [insert_row et_rows et_seq] in *. rewrite <- app_assoc. split; [done|]. split; [cbn [length]; lia|]. split; [cbn; by rewrite H3|].
    split.
    + cbn. apply NoDup_cons. split; [|done]. intros Hin. apply list_elem_of_fmap in Hin as (a & Ha & Hin). specialize (H5 a Hin). lia.
    + intros a [->|Ha]%elem_of_cons; cbn [fst length]; [lia|]. specialize (H5 a Ha). lia.
Qed.

Lemma insert_rows_ascend t rs : ids_ascend t -> 0 <= et_seq t -> ids_ascend (insert_rows t rs) /\ 0 <= et_seq (insert_rows t rs).
Proof.
  intros [Hnd Hr] Hs. destruct (insert_rows_spec rs t) as (new_ & E1 & E2 & _ & Hn & Hb). unfold ids_ascend. rewrite E1, E2. split; [|lia]. split.
  - rewrite fmap_app. apply NoDup_app. split; [done|]. split; [|done]. intros k Hk Hk'. apply list_elem_of_fmap in Hk as (a & -> & Ha).
    apply list_elem_of_fmap in Hk' as (b & Hab & Hb'). specialize (Hr a Ha). specialize (Hb b Hb'). lia.
  - intros a [Ha|Ha]%elem_of_app; [specialize (Hr a Ha)|specialize (Hb a Ha)]; lia.
Qed.

#[local] Instance id_desc_by : LessBy id_desc (fun a => down a.1).
Proof. intros a b. done. Qed.

Definition result_of (a : Z * row) : SearchResult := result_at (ro_timestamp a.2) a.

Lemma scan_results l : (forall a, a ∈ l -> four_digit_years (ro_timestamp a.2)) -> mapM scan_result l = Some (result_of <$> l).
Proof.
  intros H. apply mapM_Some. induction l as [|a l IH]; constructor; [|apply IH; intros; apply H; by right].
  unfold scan_result. by rewrite ParseTs_FormatTs by (apply H; left).
Qed.

Definition after_id (a : Z * row) (c : option Z) : bool := match c with Some k => a.1 <? k | None => true end.

Definition with_cursor (f : SearchFilter) (c : option Z) : SearchFilter :=
  mkSearchFilter (sx_TraceID f) (sx_UserID f) (sx_Service f) (sx_ErrorCode f) (sx_Start f) (sx_End f) (sx_Limit f) (default 0 c).

Lemma search_limit_pos f : (1 <= Z.to_nat (search_limit f))%nat.
Proof. unfold search_limit. destruct (Z.leb_spec (sx_Limit f) 0); case_if; bool_prop; lia. Qed.

(** One search is one page of the sorted rows. *)
Lemma SearchEvents_page t1 t2 f c : ids_ascend t2 -> table_years t2 -> (forall k, c = Some k -> 0 < k) ->
  let rows := ssort id_desc (matching f t2) in
  let p := page after_id fst (Z.to_nat (search_limit f)) rows c in
  exists pg, SearchEvents true true t1 t2 (with_cursor f c) = Some pg /\ sp_Results pg = result_of <$> p.1 /\
    sp_NextCursor pg = default 0 p.2 /\ sp_TotalCount pg = Z.of_nat (length (matching f t1)).
Proof.
  intros [Hnd Hids] Hy Hc. cbv zeta. set (limit := Z.to_nat (search_limit f)). pose proof (search_limit_pos f : (1 <= limit)%nat) as Hl.
  unfold SearchEvents. cbn [negb]. change (matching (with_cursor f c)) with (matching f). change (Z.to_nat (search_limit (with_cursor f c))) with limit.
  change (sx_Cursor (with_cursor f c)) with (default 0 c).
  rewrite (ssort_lfilter id_desc (fun a => down a.1)); [|intros a b Ha Hb E; apply elem_of_lfilter in Ha as [Ha _]; apply elem_of_lfilter in Hb as [Hb _];
    simplify_eq; by apply (NoDup_fmap_inj_on fst (et_rows t2))].
  set (rows := ssort id_desc (matching f t2)). rewrite (lfilter_ext (before_cursor (default 0 c)) (fun a => after_id a c)).
  2: { intros a _. destruct c as [k|]; [|done]. unfold before_cursor, after_id. simpl. by rewrite (proj2 (Z.ltb_lt 0 k)) by (by apply Hc). }
  set (l := List.filter (fun a => after_id a c) rows). unfold page. rewrite page_loop_spec by (simpl; lia). cbn [length app]. rewrite Nat.sub_0_r. fold l.
  rewrite scan_results.
  2: { intros a Ha. apply Hy. apply list_elem_of_fmap. exists a. split; [done|]. apply elem_of_take in Ha as (i & Ha & _). apply list_elem_of_lookup_2 in Ha.
       apply elem_of_lfilter in Ha as [Ha _]. unfold rows in Ha. rewrite elem_of_ssort in Ha. by apply elem_of_lfilter in Ha as [Ha _]. }
  cbn [mbind option_bind]. eexists. split; [reflexivity|]. rewrite length_fmap, length_take. cbn [fst snd].
  destruct (Nat.ltb_spec limit (min (limit + 1) (length l))) as [Hlt|Hge].
  - rewrite bool_decide_eq_true_2 by lia. cbn [sp_Results sp_NextCursor sp_TotalCount]. rewrite <- fmap_take, take_take, Nat.min_l by lia. split; [done|]. split; [|done].
    rewrite (proj2 (Nat.eqb_neq _ _)) by (rewrite length_take; lia). cbn [negb andb]. rewrite fmap_last. destruct (last (take limit l)) as [a|]; done.
  - rewrite bool_decide_eq_false_2 by lia. cbn [andb sp_Results sp_NextCursor sp_TotalCount]. by rewrite !take_ge by lia.
Qed.

Lemma client_ext {C B : Type} (call call0 : nat -> option C -> list B * option C) (P : nat -> option C -> Prop) :
  (forall n c, P n c -> call n c = call0 n c) -> (forall n c c', P n c -> (call0 n c).2 = Some c' -> P (S n) (Some c')) ->
  forall fuel n c, P n c -> client call fuel n c = client call0 fuel n c.
Proof.
  intros He Hs. induction fuel as [|fuel IH]; intros n c Hp; [done|]. cbn [client]. rewrite (He n c Hp). pose proof (Hs n c) as Hn.
  destruct (call0 n c) as [out [c'|]]; [|done]. by rewrite (IH (S n) (Some c')) by (by apply Hn).
Qed.

(** The search as a client sees it: rows and the next cursor, of which 0 is none. *)
Definition search_call (T : nat -> event_table) (f : SearchFilter) (n : nat) (c : option Z) : list SearchResult * option Z :=
  match SearchEvents true true (T n) (T n) (with_cursor f c) with
  | Some pg => (sp_Results pg, if sp_NextCursor pg =? 0 then None else Some (sp_NextCursor pg))
  | None => ([], None)
  end.

Lemma page_cursor f t c k : (page after_id fst (Z.to_nat (search_limit f)) (ssort id_desc (matching f t)) c).2 = Some k ->
  exists a, a ∈ matching f t /\ a.1 = k.
Proof.
  unfold page. destruct (page_loop _ _ _ _) as [out more] eqn:E. pose proof (page_loop_spec (fun r => after_id r c) (Z.to_nat (search_limit f)) (ssort id_desc (matching f t)) [] ltac:(simpl; lia)) as Hs.
  rewrite E in Hs. injection Hs as -> _. cbn [snd app length]. case_match; [|done]. rewrite Nat.sub_0_r. destruct (last (take _ _)) as [a|] eqn:El; [|done]. cbn. intros [= <-]. exists a. split; [|done].
  apply last_Some_elem_of in El. apply elem_of_take in El as (i & El & _). apply list_elem_of_lookup_2 in El. apply elem_of_lfilter in El as [El _]. by apply elem_of_ssort in El.
Qed.

(** A later table shows the same page after a cursor: what came later has greater ids. *)
Lemma later_page f t rs k : ids_ascend t -> 0 <= et_seq t -> k <= et_seq t ->
  page after_id fst (Z.to_nat (search_limit f)) (ssort id_desc (matching f (insert_rows t rs))) (Some k) =
  page after_id fst (Z.to_nat (search_limit f)) (ssort id_desc (matching f t)) (Some k).
Proof.
  intros Ha Hs Hk. destruct (insert_rows_spec rs t) as (new_ & E & _ & _ & _ & Hb). unfold page. rewrite !page_loop_spec by (simpl; lia).
  assert (forall T, ids_ascend T -> List.filter (fun r => after_id r (Some k)) (ssort id_desc (matching f T)) =
    ssort id_desc (List.filter (fun r => after_id r (Some k)) (matching f T))) as Hcomm.
  { intros T [Hnd _]. symmetry. apply (ssort_lfilter id_desc (fun a => down a.1)). intros a b Hin Hin' Eq. apply elem_of_lfilter in Hin as [Hin _].
    apply elem_of_lfilter in Hin' as [Hin' _]. simplify_eq. by apply (NoDup_fmap_inj_on fst (et_rows T)). }
  rewrite !Hcomm by (done || by apply insert_rows_ascend). unfold matching. rewrite E, !List.filter_app.
  assert (List.filter (fun r => after_id r (Some k)) (List.filter (fun a => base_match f a.2) new_) = []) as ->; [|by rewrite app_nil_r].
  destruct (List.filter _ (List.filter _ new_)) as [|a l] eqn:El; [done|]. exfalso. assert (a ∈ a :: l) as Hin by left. rewrite <- El in Hin.
  apply elem_of_lfilter in Hin as [Hin Hlt]. apply elem_of_lfilter in Hin as [Hin _]. specialize (Hb a Hin). unfold after_id in Hlt. bool_prop. lia.
Qed.

(** C15: Following the cursors of a search shows every event it matched at the first page
    once, newest first, whatever events are written between the pages, and the first page
    says how many they are. *)
Theorem search_walk t f (later : nat -> list row) : ids_ascend t -> 0 <= et_seq t -> table_years t -> later 0%nat = [] ->
  (forall n, table_years (insert_rows t (later n))) ->
  client (search_call (fun n => insert_rows t (later n)) f) (S (length (matching f t))) 0 None = Some (result_of <$> ssort id_desc (matching f t)) /\
  exists pg, SearchEvents true true t t (with_cursor f None) = Some pg /\ sp_TotalCount pg = Z.of_nat (length (matching f t)).
Proof.
  intros Ha Hs Hy H0 Hyl. set (limit := Z.to_nat (search_limit f)). split.
  - set (call0 := fun (n : nat) (c : option Z) => (result_of <$> (page after_id fst limit (ssort id_desc (matching f t)) c).1, (page after_id fst limit (ssort id_desc (matching f t)) c).2)).
    rewrite (client_ext _ call0 (fun n c => match c with None => n = 0%nat | Some k => 0 < k <= et_seq t end)); [|..|done].
    + apply (client_all after_id fst limit result_of id_desc (fun a => down a.1)); [apply search_limit_pos|done|done| |done].
      apply NoDup_fmap_lfilter. change (NoDup ((down ∘ fst) <$> et_rows t)). rewrite list_fmap_compose. assert (Inj (=) (=) (@down Z)) by (intros x y E; by injection E). apply NoDup_fmap_2; [done|apply Ha].
    + intros n c Hc. destruct (insert_rows_ascend t (later n) Ha Hs) as [Han _].
      assert (forall k, c = Some k -> 0 < k) as Hpos by (intros k ->; lia).
      destruct (SearchEvents_page (insert_rows t (later n)) _ f c Han (Hyl n) Hpos) as (pg & Hpg & Hres & Hnext & _). unfold search_call. rewrite Hpg.
      assert (page after_id fst limit (ssort id_desc (matching f (insert_rows t (later n)))) c = page after_id fst limit (ssort id_desc (matching f t)) c) as Ep.
      { destruct c as [k|]; [apply later_page; [done|done|lia]|]. subst n. by rewrite H0. }
      fold limit in Hres, Hnext. rewrite Ep in Hres, Hnext. unfold call0. rewrite Hres, Hnext. f_equal.
      destruct (page after_id fst limit (ssort id_desc (matching f t)) c).2 as [k|] eqn:E2; [|done]. destruct (page_cursor f t c k E2) as (x & Hx & <-). cbn.
      apply elem_of_lfilter in Hx as [Hx _]. apply Ha in Hx. by rewrite (proj2 (Z.eqb_neq _ _)) by lia.
    + intros n c c' _ E2. destruct (page_cursor f t c c' E2) as (x & Hx & <-). apply elem_of_lfilter in Hx as [Hx _]. by apply Ha.
  - destruct (SearchEvents_page t t f None Ha Hy ltac:(done)) as (pg & Hpg & _ & _ & Ht). by exists pg.
Qed.

(** The events the batch writer stored are such a table. *)
Lemma stored_ascend rs : ids_ascend (insert_rows (mkEventTable [] 0) rs) /\ 0 <= et_seq (insert_rows (mkEventTable [] 0) rs).
Proof. apply insert_rows_ascend; [|done]. split; [constructor|]. intros a Ha. by apply elem_of_nil in Ha. Qed.

(** ** At work *)

#[local] Instance no_meta : MetaJson := {| MarshalMeta _ := "{}"; UnmarshalMeta _ := Some ∅ |}.

Definition release (id version env : string) (t : Time) : Deployment := mkDeployment id "pay" version env t t ∅ "" "" "".
Definition accepts : tx_outcome := mkTxOutcome true (fun _ => true) true.
Definition release_calls : list (tx_outcome * Deployment) :=
  [(accepts, release "d1" "1.0" "prod" (unix_epoch + Hour)); (accepts, release "d1" "" "prod" unix_epoch);
   (accepts, release "d1" "2.0" "test" unix_epoch); (mkTxOutcome true (fun _ => true) false, release "d1" "3.0" "prod" unix_epoch)].

Lemma deployment_history_witness : exists t acc, upserts ∅ release_calls = (t, acc) /\ of_id "d1" acc <> [] /\
  match of_id "d1" acc with
  | [] => DeploymentByID true t "d1" = Some None
  | d0 :: _ => exists x, DeploymentByID true t "d1" = Some (Some x) /\ summary (of_id "d1" acc) d0 x /\ forall d, d ∈ of_id "d1" acc -> dep_Env d = dep_Env d0
  end.
Proof.
  destruct (upserts ∅ release_calls) as [t acc] eqn:E. exists t, acc. split; [done|]. split.
  - assert (length (of_id "d1" (upserts ∅ release_calls).2) = 2%nat) as Hl by (vm_compute; reflexivity). rewrite E in Hl. cbn [snd] in Hl. intros Hn. by rewrite Hn in Hl.
  - assert (Forall (fun c => holdable c.2) release_calls) as Hh.
    { repeat constructor; simpl; unfold four_digit_years, unix_epoch, Hour, Minute, Second; try lia; done. }
    apply (proj1 (deployment_history release_calls t acc Hh E)).
Defined.

Definition event_at (success : Z) (t : Time) : row := mkRow "t" None None "e" "pay" "prod" None None "u" None None 200 success None None 1 t.

Lemma search_walk_witness : let t := insert_rows (mkEventTable [] 0) [event_at 1 unix_epoch; event_at 0 unix_epoch; event_at 1 unix_epoch] in
  let f := mkSearchFilter "" "" "pay" "" 0 0 1 0 in
  client (search_call (fun n => insert_rows t (if (n =? 0)%nat then [] else [event_at 1 unix_epoch])) f) (S (length (matching f t))) 0 None
    = Some (result_of <$> ssort id_desc (matching f t)) /\
  (sr_ID <$> (result_of <$> ssort id_desc (matching f t))) = [3; 2; 1].
Proof.
  intros t f. assert (four_digit_years unix_epoch) as Hy by (unfold four_digit_years, unix_epoch, Second; lia).
  assert (forall rs, (forall r, r ∈ rs -> ro_timestamp r = unix_epoch) -> table_years (insert_rows (mkEventTable [] 0) rs)) as Hyears.
  { intros rs Hrs r Hr. destruct (insert_rows_spec rs (mkEventTable [] 0)) as (new_ & E & _ & E2 & _). rewrite E in Hr. cbn [et_rows app] in Hr. rewrite E2 in Hr. by rewrite Hrs. }
  split; [|vm_compute; reflexivity]. apply (search_walk t f (fun n => if (n =? 0)%nat then [] else [event_at 1 unix_epoch])).
  - apply stored_ascend.
  - apply stored_ascend.
  - apply Hyears. intros r Hr. repeat (apply elem_of_cons in Hr as [->|Hr]; [done|]). by apply elem_of_nil in Hr.
  - done.
  - intros [|n]; cbn [Nat.eqb]; [apply Hyears|unfold t, insert_rows; rewrite <- foldl_app; apply Hyears];
      intros r Hr; repeat (apply elem_of_cons in Hr as [->|Hr]; [done|]); by apply elem_of_nil in Hr.
Defined.

(** The rates are documented to be nil when they cannot be computed; with no request on
    either side they are 0, and a deployment nobody has called reads as one that fails
    nothing. *)
Theorem no_requests_rate_zero service firstSeen :
  DeployErrorRateDelta true true (mkEventTable [] 0) service firstSeen =
    (mkDeployRateDelta (Some (of_int 0)) (Some (of_int 0)) 0 0 None, false).
Proof. vm_compute. reflexivity. Qed.

(** A request at the very moment of the deployment is counted before it and after it. *)
Theorem boundary_counted_twice :
  (DeployErrorRateDelta true true (insert_row (mkEventTable [] 0) (event_at 0 unix_epoch)) "pay" unix_epoch).1 =
    mkDeployRateDelta (Some (of_int 1)) (Some (of_int 1)) 1 1 None.
Proof. vm_compute. reflexivity. Qed.
