(* ===== verification/ColdStore.v ===== *)
(** Signals and migrations of the cold store ([internal/coldstore]: [signal_store.go],
    [coldstore.go]; [internal/signals]: [store.go], the JSON of [types.go]), and the adapters
    through which the engine, triage and the insight read the store
    ([cmd/ingest/main.go]).  A table is the map of its rows by primary key; a statement is
    one step that succeeds or fails as its argument says. *)

From S2P Require Import Prelude GoRuntime GoFloat GoText Types Incident Detect Engine PlanRef Triage GoTime SqlText Alerts WideEvent ColdWriter DeployTable.
Open Scope Z_scope.

(** ** Signals *)

(** [signals.Filter]. *)
Record Filter := mkFilter {
  fl_Service : string; fl_Env : string; fl_Source : string; fl_Reason : string; fl_Types : list string; fl_Since : Time; fl_Until : Time; fl_Limit : Z
}.

Record signal_row := mkSignalRow {
  sw_signal_id : string; sw_type : string; sw_source : string; sw_service : string; sw_env : string; sw_severity : string; sw_reason : string;
  sw_message : option string; sw_resource : option string; sw_metadata : option string; sw_extra : option string; sw_timestamp : string; sw_received_at : string
}.

Abbreviation signal_table := (gmap string signal_row) (only parsing).

Section Signals.
Context {J : Json}.

(** A map of any is a column of JSON; no result is an error. *)
Definition marshalMap (m : gmap string value) : option (option string) :=
  if decide (m = ∅) then Some None else Some <$> Marshal (VMap (Some m)).

Definition unmarshalMap (raw : string) : option (gmap string value) :=
  if String.eqb raw "" then Some ∅ else
  match Unmarshal raw with
  | Some (VMap (Some m)) => Some m
  | Some (VMap None) | Some VNull => Some ∅
  | _ => None
  end.

Definition signal_columns (sig : Signal) : option signal_row :=
  resource ← marshalMap (sig_Resource sig); metadata ← marshalMap (sig_Metadata sig); extra ← marshalMap (sig_Extra sig);
  Some (mkSignalRow (sig_SignalID sig) (sig_Type sig) (sig_Source sig) (sig_Service sig) (sig_Env sig) (sig_Severity sig) (sig_Reason sig)
    (Some (sig_Message sig)) resource metadata extra (FormatTs (sig_Timestamp sig)) (FormatTs (sig_ReceivedAt sig))).

(** [Insert]: a signal id is taken once. *)
Definition TableInsert (ok : bool) (t : signal_table) (sig : Signal) : signal_table * option InsertError :=
  match signal_columns sig with
  | None => (t, Some InsertFailed)
  | Some r => if negb ok || bool_decide (is_Some (t !! sw_signal_id r)) then (t, Some InsertFailed) else (<[sw_signal_id r := r]> t, None)
  end.

(** [UnavailableStore]: the store without a database. *)
Definition UnavailableInsert (t : signal_table) (sig : Signal) : signal_table * option InsertError := (t, Some InsertUnavailable).

Definition filter_limit (f : Filter) : Z :=
  let l := if fl_Limit f <=? 0 then 200 else fl_Limit f in if 200 <? l then 200 else l.

Definition unset_or (want got : string) : bool := String.eqb want "" || String.eqb got want.

Definition row_matches (f : Filter) (r : signal_row) : bool :=
  unset_or (fl_Service f) (sw_service r) && unset_or (fl_Env f) (sw_env r) && unset_or (fl_Source f) (sw_source r) && unset_or (fl_Reason f) (sw_reason r) &&
  (match fl_Types f with [] => true | types => existsb (String.eqb (sw_type r)) types end) &&
  (IsZero (fl_Since f) || negb (String.ltb (sw_timestamp r) (FormatTs (fl_Since f)))) &&
  (IsZero (fl_Until f) || negb (String.ltb (FormatTs (fl_Until f)) (sw_timestamp r))).

(** [ORDER BY timestamp DESC, signal_id DESC]. *)
Definition row_newest (a b : signal_row) : bool :=
  if String.eqb (sw_timestamp a) (sw_timestamp b) then String.ltb (sw_signal_id b) (sw_signal_id a) else String.ltb (sw_timestamp b) (sw_timestamp a).

Definition scanSignal (r : signal_row) : option Signal :=
  ts ← ParseTs (sw_timestamp r); recv ← ParseTs (sw_received_at r);
  resource ← unmarshalMap (default "" (sw_resource r)); metadata ← unmarshalMap (default "" (sw_metadata r)); extra ← unmarshalMap (default "" (sw_extra r));
  Some (mkSignal (sw_signal_id r) (sw_type r) (sw_source r) (sw_service r) (sw_env r) (sw_severity r) (sw_reason r) (default "" (sw_message r))
          resource metadata ts recv extra).

Definition TableQuery (ok : bool) (t : signal_table) (f : Filter) : option (list Signal) :=
  if negb ok then None else
  mapM scanSignal (take (Z.to_nat (filter_limit f)) (ssort row_newest (List.filter (row_matches f) (map_to_list t).*2))).

Definition TablePrune (ok : bool) (t : signal_table) (cutoff : Time) : option (signal_table * Z) :=
  if negb ok then None else
  let t' := filter (fun kv => String.ltb (sw_timestamp kv.2) (FormatTs cutoff) = false) t in
  Some (t', Z.of_nat (size t) - Z.of_nat (size t')).

(** *** What a query gives *)

Definition map_stable (m : gmap string value) : Prop := exists c, marshalMap m = Some c /\ unmarshalMap (default "" c) = Some m.

Record keepable (sig : Signal) : Prop := {
  kp_timestamp : four_digit_years (sig_Timestamp sig);
  kp_received : four_digit_years (sig_ReceivedAt sig);
  kp_maps : map_stable (sig_Resource sig) /\ map_stable (sig_Metadata sig) /\ map_stable (sig_Extra sig)
}.

Lemma signal_reads_back sig : keepable sig -> exists r, signal_columns sig = Some r /\ scanSignal r = Some sig /\
  sw_signal_id r = sig_SignalID sig /\ sw_timestamp r = FormatTs (sig_Timestamp sig).
Proof.
  intros [Ht Hr ((c1 & M1 & U1) & (c2 & M2 & U2) & (c3 & M3 & U3))]. eexists. split; [unfold signal_columns; rewrite M1, M2, M3; reflexivity|].
  split; [|done]. unfold scanSignal. cbn [sw_timestamp sw_received_at sw_resource sw_metadata sw_extra sw_message].
  rewrite !ParseTs_FormatTs by done. cbn [mbind option_bind]. rewrite U1, U2, U3. by destruct sig.
Qed.

(** A map decoded from JSON is one that reads back. *)
Lemma decoded_map_stable `{!JsonLaws J} (m : gmap string value) raw : decoded (VMap (Some m)) -> shallow (VMap (Some m)) -> Marshal (VMap (Some m)) = Some raw -> raw <> "" -> map_stable m.
Proof.
  intros Hd Hn Hm Hne. unfold map_stable, marshalMap. destruct (decide (m = ∅)) as [->|]; [by exists None|]. exists (Some raw). rewrite Hm. split; [done|].
  unfold unmarshalMap. cbn. rewrite (proj2 (String.eqb_neq _ _) Hne). by rewrite (json_marshal _ _ Hd Hn Hm).
Qed.

(** The filter on signals, and their order. *)
Definition signal_matches (f : Filter) (s : Signal) : bool :=
  unset_or (fl_Service f) (sig_Service s) && unset_or (fl_Env f) (sig_Env s) && unset_or (fl_Source f) (sig_Source s) && unset_or (fl_Reason f) (sig_Reason s) &&
  (match fl_Types f with [] => true | types => existsb (String.eqb (sig_Type s)) types end) &&
  (IsZero (fl_Since f) || (fl_Since f <=? sig_Timestamp s)) && (IsZero (fl_Until f) || (sig_Timestamp s <=? fl_Until f)).

Definition newest (a b : Signal) : bool :=
  if sig_Timestamp a =? sig_Timestamp b then String.ltb (sig_SignalID b) (sig_SignalID a) else sig_Timestamp b <? sig_Timestamp a.

(** A table that holds a map of signals, each under its id. *)
Definition holds (t : signal_table) (m : gmap string Signal) : Prop :=
  forall id, match m !! id, t !! id with
             | Some sig, Some r => signal_columns sig = Some r /\ keepable sig /\ sig_SignalID sig = id
             | None, None => True
             | _, _ => False
             end.

Lemma holds_empty : holds ∅ ∅.
Proof. intros id. by rewrite !lookup_empty. Qed.

Lemma holds_size t m : holds t m -> size m = size t.
Proof. intros Ht. apply same_size. intros id. pose proof (Ht id) as H. destruct (m !! id), (t !! id); try done; split; intros [? ?]; by eexists. Qed.

Lemma insert_holds ok t m sig : holds t m -> keepable sig ->
  match TableInsert ok t sig with
  | (t', None) => m !! sig_SignalID sig = None /\ holds t' (<[sig_SignalID sig := sig]> m)
  | (t', Some _) => t' = t /\ (ok = true -> is_Some (m !! sig_SignalID sig))
  end.
Proof.
  intros Ht Hk. destruct (signal_reads_back sig Hk) as (r & Hr & _ & Hid & _). unfold TableInsert. rewrite Hr, Hid. pose proof (Ht (sig_SignalID sig)) as H.
  destruct ok; cbn [negb orb]; [|done]. case_bool_decide as Hb.
  - split; [done|]. intros _. destruct (m !! sig_SignalID sig), (t !! sig_SignalID sig); try done; by destruct Hb.
  - destruct (t !! sig_SignalID sig) eqn:Et; [by destruct Hb|]. destruct (m !! sig_SignalID sig) eqn:Em; [done|]. split; [done|]. intros id.
    destruct (decide (id = sig_SignalID sig)) as [->|Hne]; [by rewrite !lookup_insert_eq|]. rewrite !lookup_insert_ne by done. apply Ht.
Qed.

Lemma prune_holds t m cutoff : holds t m -> four_digit_years cutoff ->
  exists t', TablePrune true t cutoff = Some (t', Z.of_nat (size m) - Z.of_nat (size (filter (fun kv => cutoff <= sig_Timestamp kv.2) m))) /\
    holds t' (filter (fun kv => cutoff <= sig_Timestamp kv.2) m).
Proof.
  intros Ht Hc. set (t' := filter (fun kv => String.ltb (sw_timestamp kv.2) (FormatTs cutoff) = false) t).
  assert (holds t' (filter (fun kv => cutoff <= sig_Timestamp kv.2) m)) as Ht'.
  { intros id. unfold t'. rewrite !map_lookup_filter. pose proof (Ht id) as H. destruct (m !! id) as [sig|], (t !! id) as [r|]; try done. destruct H as (Hr & Hk & Hid).
    destruct (signal_reads_back sig Hk) as (r' & Hr' & _ & _ & Hts). rewrite Hr in Hr'. injection Hr' as <-. cbn -[String.ltb FormatTs]. rewrite Hts, FormatTs_ltb by (done || apply Hk).
    destruct (decide (cutoff <= sig_Timestamp sig)) as [Hle|Hgt].
    - rewrite !option_guard_True; [done|by apply Z.ltb_ge|done].
    - rewrite !option_guard_False; [done| |done]. intros E. apply Z.ltb_ge in E. lia. }
  exists t'. split; [|done]. unfold TablePrune. cbn [negb]. fold t'. by rewrite (holds_size _ _ Ht), (holds_size _ _ Ht').
Qed.

#[local] Instance row_newest_by : LessBy row_newest (fun r => (down (sw_timestamp r), down (sw_signal_id r))).
Proof. intros a b. unfold row_newest. kred. solve_less. Qed.

Definition blank_signal_row : signal_row := mkSignalRow "" "" "" "" "" "" "" None None None None "" "".
Definition sig_columns (s : Signal) : signal_row := default blank_signal_row (signal_columns s).

Lemma sig_columns_ok s : keepable s -> signal_columns s = Some (sig_columns s) /\ scanSignal (sig_columns s) = Some s /\
  sw_signal_id (sig_columns s) = sig_SignalID s /\ sw_timestamp (sig_columns s) = FormatTs (sig_Timestamp s).
Proof. intros Hk. destruct (signal_reads_back s Hk) as (r & Hr & ?). unfold sig_columns. by rewrite Hr. Qed.

Lemma FormatTs_eqb a b : four_digit_years a -> four_digit_years b -> String.eqb (FormatTs a) (FormatTs b) = (a =? b).
Proof.
  intros Ha Hb. destruct (Z.eqb_spec a b) as [->|Hne]; [apply String.eqb_refl|]. apply String.eqb_neq. intros H. apply Hne.
  apply (f_equal ParseTs) in H. rewrite !ParseTs_FormatTs in H by done. by injection H.
Qed.

Lemma row_matches_columns f s : keepable s -> four_digit_years (fl_Since f) -> four_digit_years (fl_Until f) -> row_matches f (sig_columns s) = signal_matches f s.
Proof.
  intros Hk Hs Hu. destruct (sig_columns_ok s Hk) as (Hc & _ & _ & Ht). unfold row_matches, signal_matches. rewrite Ht, !FormatTs_ltb by (done || apply Hk).
  rewrite !Z.leb_antisym. unfold signal_columns in Hc. repeat (apply bind_Some in Hc as (? & _ & Hc)). by injection Hc as <-.
Qed.

(** The rows a query selects are the first of the signals it matches, newest first. *)
Lemma query_holds t m f : holds t m -> four_digit_years (fl_Since f) -> four_digit_years (fl_Until f) ->
  TableQuery true t f = Some (take (Z.to_nat (filter_limit f)) (ssort newest (List.filter (signal_matches f) (map_to_list m).*2))).
Proof.
  intros Ht Hs Hu. assert (forall s, s ∈ (map_to_list m).*2 -> keepable s /\ m !! sig_SignalID s = Some s) as Hall.
  { intros s Hin. apply list_elem_of_fmap in Hin as ([k s'] & -> & Hk). apply elem_of_map_to_list in Hk. pose proof (Ht k) as H. rewrite Hk in H.
    destruct (t !! k); [|done]. cbn [snd]. destruct H as (_ & ? & ->). done. }
  assert (t = sig_columns <$> m) as ->.
  { apply map_eq. intros id. rewrite lookup_fmap. pose proof (Ht id) as H. destruct (m !! id) as [s|] eqn:Em, (t !! id) as [r|]; try done.
    destruct H as (Hr & Hk & _). rewrite (proj1 (sig_columns_ok s Hk)) in Hr. injection Hr as <-. done. }
  unfold TableQuery. cbn [negb].
  rewrite (select_sorted sig_columns (signal_matches f) (row_matches f) newest row_newest (fun r => (down (sw_timestamp r), down (sw_signal_id r)))).
  - rewrite <- fmap_take. apply mapM_Some. set (l := ssort newest _).
    assert (forall s, s ∈ take (Z.to_nat (filter_limit f)) l -> scanSignal (sig_columns s) = Some s) as Hscan.
    { intros s Hin. apply elem_of_take in Hin as (i & Hin & _). apply list_elem_of_lookup_2 in Hin. unfold l in Hin. apply elem_of_ssort, elem_of_lfilter in Hin as [Hin _].
      apply sig_columns_ok, Hall, Hin. }
    induction (take _ l) as [|s l' IH]; constructor; [apply Hscan; left|]. apply IH. intros x Hx. apply Hscan. by right.
  - intros s Hin. apply row_matches_columns; [by apply Hall|done|done].
  - intros a b Ha Hb. destruct (Hall a Ha) as [Ka _], (Hall b Hb) as [Kb _]. destruct (sig_columns_ok a Ka) as (_ & _ & Ia & Ta), (sig_columns_ok b Kb) as (_ & _ & Ib & Tb).
    unfold row_newest, newest. rewrite Ia, Ta, Ib, Tb, FormatTs_eqb, FormatTs_ltb by (apply Ka || apply Kb). done.
  - intros a b Ha Hb E. destruct (Hall a Ha) as [Ka Ma], (Hall b Hb) as [Kb Mb]. destruct (sig_columns_ok a Ka) as (_ & _ & Ia & _), (sig_columns_ok b Kb) as (_ & _ & Ib & _).
    simplify_eq. congruence.
Qed.

Lemma newest_by : LessBy newest (fun s => (down (sig_Timestamp s), down (sig_SignalID s))).
Proof. intros a b. unfold newest. kred. solve_less. Qed.

(** The table is a map of signals.  Posting a signal answers that it was created exactly
    when the map has taken it under a new id, and otherwise leaves the table as it was; a
    query gives the signals that match it, newest first, up to its limit; and pruning
    removes those older than the cutoff and counts them. *)
Theorem signal_table_refines t m : holds t m ->
  (forall ok decode method b uuid now, match Signals (TableInsert ok) decode method b uuid now t with
     | (t', Created sig) => keepable sig -> sig_SignalID sig = NewSignalID uuid /\ sig_ReceivedAt sig = now /\ m !! sig_SignalID sig = None /\
                            holds t' (<[sig_SignalID sig := sig]> m)
     | (t', Rejected _ _) => t' = t
     end) /\
  (forall f, four_digit_years (fl_Since f) -> four_digit_years (fl_Until f) ->
     exists l, TableQuery true t f = Some l /\ Z.of_nat (length l) <= filter_limit f <= 200 /\
       StronglySorted (fun a b => newest b a = false) l /\
       (forall s, s ∈ l -> m !! sig_SignalID s = Some s /\ signal_matches f s = true) /\
       forall id s, m !! id = Some s -> signal_matches f s = true -> s ∈ l \/ (Z.of_nat (length l) = filter_limit f /\ Forall (fun x => newest s x = false) l)) /\
  (forall cutoff, four_digit_years cutoff ->
     exists t' n, TablePrune true t cutoff = Some (t', n) /\ holds t' (filter (fun kv => cutoff <= sig_Timestamp kv.2) m) /\
       n = Z.of_nat (size m) - Z.of_nat (size (filter (fun kv => cutoff <= sig_Timestamp kv.2) m))).
Proof.
  intros Ht. split; [|split].
  - intros ok decode method b uuid now. unfold Signals. destruct (negb (String.eqb method "POST")); [done|]. destruct b as [text| |]; [|done|done]. destruct (decode text) as [code|sig]; [done|].
    destruct (Alerts.Validate _ _ _); [done|]. pose proof (insert_holds ok t m (with_receipt sig (NewSignalID uuid) now) Ht) as Hi.
    destruct (TableInsert ok t (with_receipt sig (NewSignalID uuid) now)) as [t' [[]|]] eqn:E.
    + unfold TableInsert in E. repeat case_match; by simplify_eq.
    + unfold TableInsert in E. repeat case_match; by simplify_eq.
    + intros Hk. by destruct (Hi Hk).
  - intros f Hs Hu. eexists. split; [by apply query_holds|]. set (l := ssort newest (List.filter (signal_matches f) (map_to_list m).*2)).
    assert (0 < filter_limit f <= 200) as Hlim by (unfold filter_limit; destruct (Z.leb_spec (fl_Limit f) 0); case_if; bool_prop; lia).
    assert (StronglySorted (fun a b => newest b a = false) l) as Hsorted by apply (ssort_sorted newest _ (LessBy0 := newest_by)).
    assert (forall s, s ∈ l <-> m !! sig_SignalID s = Some s /\ signal_matches f s = true) as Hin.
    { intros s. unfold l. rewrite elem_of_ssort, elem_of_lfilter, list_elem_of_fmap. split.
      - intros [([k s'] & -> & Hk) Hf]. apply elem_of_map_to_list in Hk. split; [|done]. pose proof (Ht k) as H. rewrite Hk in H. destruct (t !! k); [|done].
        cbn [snd] in *. by destruct H as (_ & _ & ->).
      - intros [Hk Hf]. split; [|done]. exists (sig_SignalID s, s). split; [done|]. by apply elem_of_map_to_list. }
    set (n := Z.to_nat (filter_limit f)). split; [rewrite length_take; lia|]. split; [|split].
    + rewrite <- (take_drop n l) in Hsorted. by apply StronglySorted_app in Hsorted as (_ & Hsorted & _) || by apply StronglySorted_app_inv_l in Hsorted.
    + intros s Hs'. apply Hin. apply elem_of_take in Hs' as (i & Hs' & _). by eapply list_elem_of_lookup_2.
    + intros id s Hm Hf. assert (s ∈ l) as Hs'.
      { apply Hin. split; [|done]. pose proof (Ht id) as H. rewrite Hm in H. destruct (t !! id); [|done]. destruct H as (_ & _ & ->). done. }
      rewrite <- (take_drop n l) in Hs'. apply elem_of_app in Hs' as [|Hs']; [by left|right].
      assert (n < length l)%nat as Hlen by (destruct (drop n l) eqn:Ed; [by apply elem_of_nil in Hs'|]; apply (f_equal length) in Ed; rewrite length_drop in Ed; simpl in Ed; lia).
      split; [rewrite length_take; lia|]. apply Forall_forall. intros x Hx. rewrite <- (take_drop n l) in Hsorted.
      clear -Hsorted Hx Hs'. induction (take n l) as [|y l1 IH]; [by apply elem_of_nil in Hx|]. cbn in Hsorted. apply StronglySorted_inv in Hsorted as [Hsorted Hall].
      apply elem_of_cons in Hx as [->|Hx]; [|by apply IH]. apply (proj1 (Forall_forall _ _) Hall). apply elem_of_app. by right.
  - intros cutoff Hc. destruct (prune_holds t m cutoff Ht Hc) as (t' & Hp & Ht'). by exists t', (Z.of_nat (size m) - Z.of_nat (size (filter (fun kv => cutoff <= sig_Timestamp kv.2) m))).
Qed.
End Signals.

(** ** Migrations ([coldstore.go]) *)

(** What the database does for one file: the lookup, reading the file, and the transaction
    that runs it and records its name. *)
Record migration_outcome := mkMigrationOutcome { mo_check : bool; mo_read : bool; mo_tx : tx_outcome }.

(** The names recorded in [schema_migrations], and the files whose statements took effect, in
    order; no code reads the latter. *)
Record schema := mkSchema { sc_applied : list string; sc_executed : list string }.

Definition applyMigration (o : tx_outcome) (s : schema) (name : string) : schema * bool :=
  if tx_begin o && tx_exec o 0 && tx_exec o 1 && tx_commit o then (mkSchema (sc_applied s ++ [name]) (sc_executed s ++ [name]), true) else (s, false).

Fixpoint migrate_files (o : string -> migration_outcome) (s : schema) (entries : list string) : schema * bool :=
  match entries with
  | [] => (s, true)
  | name :: entries =>
    if negb (mo_check (o name)) then (s, false)
    else if bool_decide (name ∈ sc_applied s) then migrate_files o s entries
    else if negb (mo_read (o name)) then (s, false)
    else match applyMigration (mo_tx (o name)) s name with
         | (s, true) => migrate_files o s entries
         | (s, false) => (s, false)
         end
  end.

(** [Migrate]: the state after it, and whether it succeeded; [created] says whether the table
    of migrations could be made, [listed] whether the directory could be read. *)
Definition Migrate (created listed : bool) (o : string -> migration_outcome) (files : list string) (s : schema) : schema * bool :=
  if negb created then (s, false) else if negb listed then (s, false) else migrate_files o s files.

(** [MigrationNames]: the embedded files, which [ReadDir] lists sorted. *)
Definition MigrationNames (entries : list string) : list string := ssort String.ltb entries.

(** The files run so far are the first of the list, each recorded. *)
Definition in_order (files : list string) (s : schema) : Prop :=
  sc_applied s = sc_executed s /\ exists rest, files = sc_executed s ++ rest.

Lemma migrate_files_order o files : forall s done_ rest, NoDup files -> files = done_ ++ rest -> sc_applied s = sc_executed s ->
  (forall name, name ∈ done_ -> name ∈ sc_executed s) -> in_order files s ->
  in_order files (migrate_files o s rest).1 /\ ((migrate_files o s rest).2 = true -> sc_executed (migrate_files o s rest).1 = files).
Proof.
  intros s done_ rest Hnd. revert s done_. induction rest as [|name rest IH]; intros s done_ Hf Ha Hd Hs; cbn [migrate_files].
  - split; [done|]. intros _. destruct Hs as (_ & r & Hr). rewrite app_nil_r in Hf. destruct r as [|x r]; [by rewrite Hr, app_nil_r|]. exfalso.
    assert (x ∈ done_) as Hx by (rewrite <- Hf, Hr; apply elem_of_app; right; left). apply Hd in Hx. rewrite Hr in Hnd. apply NoDup_app in Hnd as (_ & Hnd & _).
    apply (Hnd x Hx). left.
  - destruct (mo_check (o name)); cbn [negb]; [|done]. case_bool_decide as Hin.
    + apply (IH s (done_ ++ [name])); [by rewrite <- app_assoc|done| |done]. intros n [Hn|Hn]%elem_of_app; [by apply Hd|].
      apply list_elem_of_singleton in Hn as ->. by rewrite <- Ha.
    + destruct (mo_read (o name)); cbn [negb]; [|done]. unfold applyMigration. case_if; [|done]. destruct Hs as (_ & r & Hr).
      assert (exists r', r = name :: r') as (r' & ->).
      { (* what comes next in the list is this file: those before it have run *)
        rewrite Ha in Hin. destruct r as [|x r]; [exfalso; rewrite app_nil_r in Hr; apply Hin; rewrite <- Hr, Hf; apply elem_of_app; right; left|].
        exists r. f_equal. assert (sc_executed s = done_) as Ed; [|rewrite Ed in Hr; rewrite Hf in Hr; apply app_inv_head in Hr; by injection Hr as -> _].
        assert (files = done_ ++ name :: rest) as Hf' by done. clear IH. rewrite Hf in Hr, Hnd. clear Hf Hf' Ha. revert Hr Hd Hin Hnd. generalize (sc_executed s). clear.
        intros ex. revert ex. induction done_ as [|d done_ IHd]; intros [|e ex] Hr Hd Hin Hnd; cbn [app] in *.
        - done.
        - injection Hr as -> _. destruct Hin. left.
        - specialize (Hd d ltac:(left)). by apply elem_of_nil in Hd.
        - injection Hr as -> Hr. f_equal. apply NoDup_cons in Hnd as [Hni Hnd]. apply IHd; [done| | |done].
          + intros n Hn. assert (n ∈ e :: ex) as Hx by (apply Hd; by right). apply elem_of_cons in Hx as [->|Hx]; [|done]. destruct Hni. apply elem_of_app. by left.
          + intros Hx. apply Hin. by right. }
      apply (IH _ (done_ ++ [name])); cbn [sc_applied sc_executed].
      * by rewrite <- app_assoc.
      * by rewrite Ha.
      * intros n [Hn|Hn]%elem_of_app; apply elem_of_app; [left; by apply Hd|by right].
      * split; [cbn; by rewrite Ha|]. exists r'. cbn. by rewrite <- app_assoc.
Qed.

(** Start-ups, each of which may fail anywhere. *)
Fixpoint start_ups (files : list string) (runs : list (bool * bool * (string -> migration_outcome))) (s : schema) : schema * list bool :=
  match runs with
  | [] => (s, [])
  | (created, listed, o) :: runs =>
    let '(s, ok) := Migrate created listed o files s in
    let '(s, oks) := start_ups files runs s in (s, ok :: oks)
  end.

(** Wherever start-ups fail, each migration runs at most once and in order, what ran is what
    is recorded, and after a start-up that succeeded all have run. *)
Theorem migrations_once files runs s oks : NoDup files -> start_ups files runs (mkSchema [] []) = (s, oks) ->
  sc_applied s = sc_executed s /\ (exists rest, files = sc_executed s ++ rest) /\ (last oks = Some true -> sc_executed s = files).
Proof.
  intros Hnd. assert (in_order files (mkSchema [] [])) as H0 by (split; [done|by exists files]). revert s oks H0. generalize (mkSchema [] []).
  induction runs as [|[[created listed] o] runs IH]; intros s0 s oks H0 H; cbn [start_ups] in H.
  - simplify_eq. destruct H0 as [Ha Hr]. split; [done|]. by split.
  - destruct (Migrate created listed o files s0) as [s1 ok] eqn:E1. destruct (start_ups files runs s1) as [s2 oks'] eqn:E2. simplify_eq.
    assert (in_order files s1 /\ (ok = true -> sc_executed s1 = files)) as [H1 Hok].
    { unfold Migrate in E1. destruct created, listed; cbn [negb] in E1; try by simplify_eq. destruct H0 as [Ha Hr].
      pose proof (migrate_files_order o files s0 [] files Hnd eq_refl Ha ltac:(intros n Hn; by apply elem_of_nil in Hn) (conj Ha Hr)) as Hm. by rewrite E1 in Hm. }
    destruct (IH s1 s oks' H1 E2) as (R1 & R2 & R3). split; [done|]. split; [done|]. intros Hl. destruct oks' as [|b oks'']; [|by apply R3; rewrite last_cons in Hl; destruct (last (b :: oks'')) eqn:El; [|by apply last_None in El]].
    injection Hl as ->. destruct runs as [|[[c l] o'] runs]; [|cbn [start_ups] in E2; destruct (Migrate c l o' files s1); by destruct (start_ups files runs _)].
    cbn in E2. injection E2 as <-. by apply Hok.
Qed.

(** ** Adapters ([cmd/ingest/main.go]) *)

(** A signal store as the engine and triage see it; [ss_ok] says whether its queries succeed. *)
Record signal_source := mkSignalSource { ss_table : signal_table; ss_ok : bool }.

#[export] Instance cold_signals `{Json} : SignalStore signal_source := {|
  query_signals s env since until limit :=
    match TableQuery (ss_ok s) (ss_table s) (mkFilter "" env "" "" [] since until limit) with Some l => inl l | None => inr ErrQuery end
|}.

Definition triage_signals `{Json} (s : signal_source) : SignalQuery := fun f =>
  match TableQuery (ss_ok s) (ss_table s) (mkFilter (sf_Service f) (sf_Env f) "" "" (sf_Types f) (sf_Since f) (sf_Until f) (sf_Limit f)) with
  | Some l => inr l
  | None => inl ErrQuery
  end.

(** [coldDeployAdapter]. *)
Record coldDeployAdapter := mkColdDeployAdapter { cd_deployments : gmap string deploy_row; cd_events : event_table; cd_iter : MapIter; cd_ok : bool }.

#[export] Instance adapter_deploys `{MetaJson} : DeploySource coldDeployAdapter := {|
  deployments_in_window a start_ end_ serviceFilter := DeploymentsInWindow (cd_iter a) (cd_ok a) (cd_deployments a) start_ end_ serviceFilter
|}.

Definition deploy_record (d : Deployment) : DeployRecord :=
  mkDeployRecord (dep_ID d) (dep_Service d) (dep_Version d) (dep_CommitSHA d) (dep_PRURL d) (dep_CommitAuthor d) (dep_FirstSeen d).

Definition adapter_store `{MetaJson} (a : coldDeployAdapter) : DeployStore := {|
  Triage.DeploymentByID id :=
    match DeployTable.DeploymentByID (cd_ok a) (cd_deployments a) id with Some d => Some (option_map deploy_record d) | None => None end;
  DeployErrorRate service firstSeen :=
    match DeployErrorRateDelta (cd_ok a) (cd_ok a) (cd_events a) service firstSeen with
    | (delta, false) => Some (dd_BeforeRate delta, dd_AfterRate delta)
    | (_, true) => None
    end
|}.

(** ** At work *)

#[local] Instance nil_json : Json :=
  {| Unmarshal _ := None; UnmarshalObject _ := None; UnmarshalArray _ := None; Marshal _ := None; MarshalObject _ := None |}.

Definition panic_signal (id : string) (t : Time) : Signal := mkSignal id TypeRuntime "k8s" "pay" "prod" SeverityCritical "OOMKilled" "" ∅ ∅ t t ∅.

Lemma panic_keepable id t : four_digit_years t -> keepable (panic_signal id t).
Proof. intros Ht. assert (map_stable ∅) as Hm by (exists None; split; reflexivity). by constructor. Qed.

Lemma signal_table_refines_witness : exists t m, holds t m /\ size m = 2%nat /\
  exists l, TableQuery true t (mkFilter "" "prod" "" "" [TypeRuntime] 0 unix_epoch 1) = Some l /\ (sig_SignalID <$> l) = ["b"] /\ Z.of_nat (length l) <= 200.
Proof.
  assert (four_digit_years unix_epoch) as Hy by (unfold four_digit_years, unix_epoch, Second; lia).
  assert (four_digit_years 0) as H0 by (unfold four_digit_years, Second; lia).
  set (a := panic_signal "a" unix_epoch). set (b := panic_signal "b" unix_epoch). set (t1 := (TableInsert true ∅ a).1). set (t2 := (TableInsert true t1 b).1).
  assert (holds t1 {["a" := a]}) as Ht1 by (apply (insert_holds true ∅ ∅ a holds_empty), panic_keepable, Hy).
  assert (holds t2 (<["b" := b]> {["a" := a]})) as Ht2 by (apply (insert_holds true t1 _ b Ht1), panic_keepable, Hy).
  exists t2, (<["b" := b]> {["a" := a]}). split; [exact Ht2|]. split; [vm_compute; reflexivity|].
  destruct (signal_table_refines t2 _ Ht2) as (_ & Hq & _).
  destruct (Hq (mkFilter "" "prod" "" "" [TypeRuntime] 0 unix_epoch 1) H0 Hy) as (l & Hl & Hlen & _). exists l. split; [exact Hl|]. split; [|lia].
  assert (Some l = Some [b]) as [= ->]; [|reflexivity]. rewrite <- Hl. vm_compute. reflexivity.
Defined.
