(* ===== verification/SignalJson.v ===== *)
(** The JSON of a signal ([internal/signals/types.go]: [UnmarshalJSON], [MarshalJSON]) over
    the class [Json]: known keys are fields, any other is kept in [Extra].  Times read and
    print as [time.Time] does. *)

From S2P Require Import Prelude GoRuntime GoFloat GoText Types PlanRef Eventlog GoTime SqlText Alerts.
Open Scope Z_scope.

(** ** The text of a time reads back *)

Lemma string_of_list_app a b : String.string_of_list_ascii (a ++ b) = String.string_of_list_ascii a +:+ String.string_of_list_ascii b.
Proof. induction a as [|c a IH]; [done|]. cbn. by rewrite IH. Qed.

Definition zeros (k : nat) : string := String.string_of_list_ascii (repeat "0"%char k).

Lemma trim_zeros_spec s : exists k, s = trim_zeros s +:+ zeros k.
Proof.
  unfold trim_zeros. set (go := fix go (l : list ascii) : list ascii := match l with c :: r => if Ascii.eqb c "0"%char then go r else l | [] => [] end).
  assert (forall l, exists k, l = repeat "0"%char k ++ go l) as Hgo.
  { induction l as [|c l (k & IH)]; [by exists 0%nat|]. cbn [go]. destruct (Ascii.eqb_spec c "0") as [->|]; [|by exists 0%nat]. exists (S k). cbn. by rewrite <- IH. }
  destruct (Hgo (rev (String.list_ascii_of_string s))) as (k & Hk). exists k. unfold zeros. rewrite <- string_of_list_app.
  assert (rev (go (rev (String.list_ascii_of_string s))) ++ repeat "0"%char k = String.list_ascii_of_string s) as ->; [|by rewrite String.string_of_list_ascii_of_string].
  rewrite <- (List.rev_involutive (String.list_ascii_of_string s)) at 2. rewrite Hk at 2. rewrite List.rev_app_distr. f_equal. symmetry. apply List.rev_repeat.
Qed.

Lemma digits_value_trailing acc s v k : digits_value acc s = Some v -> digits_value acc (s +:+ zeros k) = Some (v * 10 ^ Z.of_nat k).
Proof.
  intros Hv. rewrite digits_value_app, Hv. cbn [mbind option_bind]. clear Hv. revert v. induction k as [|k IH]; intros v; [cbn; f_equal; lia|].
  change (zeros (S k)) with (String "0"%char (zeros k)). cbn [digits_value]. change (digit_value "0"%char) with (Some 0). cbn [mbind option_bind].
  rewrite IH. f_equal. rewrite Nat2Z.inj_succ, Z.pow_succ_r by lia. lia.
Qed.

(** The fraction of a second, and its text. *)
Lemma fraction_text ns : 0 <= ns < 10 ^ 9 ->
  let f := trim_zeros (pad_int 9 ns) in
  (f = "" -> ns = 0) /\ (f <> "" -> digit_span (f +:+ "Z") = String.length f /\ fraction_nanos f = Some ns).
Proof.
  intros Hns. cbv zeta. destruct (pad_int_spec 9 ns ltac:(simpl; lia) ltac:(lia)) as [Hl Hv]. destruct (trim_zeros_spec (pad_int 9 ns)) as (k & Hk).
  set (f := trim_zeros (pad_int 9 ns)) in *. split.
  - intros ->. rewrite Hk in Hv. rewrite (digits_value_trailing 0 "" 0 k eq_refl) in Hv. injection Hv as <-. lia.
  - intros Hne. rewrite Hk, digits_value_app in Hv. destruct (digits_value 0 f) as [v|] eqn:Ef; [|done]. cbn [mbind option_bind] in Hv.
    assert (digits_value 0 (f +:+ zeros k) = Some (v * 10 ^ Z.of_nat k)) as Hz by by apply digits_value_trailing. rewrite digits_value_app, Ef in Hz. cbn [mbind option_bind] in Hz.
    rewrite Hz in Hv. injection Hv as Hv. assert (String.length f + k = 9)%nat as Hlen by (rewrite Hk, string_length_app in Hl; unfold zeros in Hl; rewrite zeros_length in Hl; lia).
    split.
    + clear -Ef. revert Ef. generalize 0. induction f as [|c f IH]; intros acc Ef; [done|]. cbn [digits_value] in Ef. rewrite string_app_cons. cbn [digit_span].
      destruct (digit_value c) as [d|]; [|done]. cbn [String.length]. f_equal. by eapply IH.
    + unfold fraction_nanos. rewrite Nat.min_r by lia. pose proof (take_bytes_app f "") as Ht. rewrite string_app_nil_r in Ht. rewrite Ht, Ef. cbn [mbind option_bind]. f_equal.
      replace (9 - Z.of_nat (String.length f)) with (Z.of_nat k) by lia. done.
Qed.

Lemma base_text t : four_digit_years t -> exists y m d h mi sec,
  FormatRFC3339Nano t = pad_int 4 y +:+ "-" +:+ pad_int 2 m +:+ "-" +:+ pad_int 2 d +:+ "T" +:+ pad_int 2 h +:+ ":" +:+ pad_int 2 mi +:+ ":" +:+ pad_int 2 sec +:+
    (if String.eqb (trim_zeros (pad_int 9 (t mod Second))) "" then "" else "." +:+ trim_zeros (pad_int 9 (t mod Second))) +:+ "Z" /\
  (0 <= y <= 9999 /\ 1 <= m <= 12 /\ 1 <= d <= days_in m y /\ d <= 31 /\ 0 <= h <= 23 /\ 0 <= mi <= 59 /\ 0 <= sec <= 59) /\
  (days_of_civil y m d * 86400 + h * 3600 + mi * 60 + sec) * Second = t - t mod Second.
Proof.
  intros Ht. pose proof (civil_fields t Ht) as Hc. unfold FormatRFC3339Nano, FormatRFC3339. destruct (civil_of_days (t / Second / 86400)) as [[y m] d]. cbv zeta in *.
  do 6 eexists. split; [|exact Hc]. set (sec := t / Second mod 86400).
  set (b := pad_int 4 y +:+ "-" +:+ pad_int 2 m +:+ "-" +:+ pad_int 2 d +:+ "T" +:+ pad_int 2 (sec / 3600) +:+ ":" +:+ pad_int 2 (sec / 60 mod 60) +:+ ":" +:+ pad_int 2 (sec mod 60)).
  match goal with |- take_bytes (String.length ?base - 1) ?base +:+ ?rest = _ => assert (base = b +:+ "Z") as -> by (unfold b; by rewrite !string_app_assoc) end.
  rewrite string_length_app. cbn [String.length]. replace (String.length b + 1 - 1)%nat with (String.length b) by lia. rewrite take_bytes_app.
  unfold b. by rewrite !string_app_assoc.
Qed.

Lemma pad_int_ascii (k : nat) v : 0 <= v < 10 ^ Z.of_nat k -> (0 < k)%nat -> ascii_text (pad_int k v) = true.
Proof. intros Hv Hk. eapply digits_value_ascii, (pad_int_spec k v Hv Hk). Qed.

Lemma time_text_ascii t : four_digit_years t -> ascii_text (FormatRFC3339Nano t) = true.
Proof.
  intros Ht. destruct (base_text t Ht) as (y & m & d & h & mi & sec & -> & Hr & _). rewrite !ascii_text_app, !pad_int_ascii by (simpl; lia).
  assert (ascii_text (trim_zeros (pad_int 9 (t mod Second))) = true) as Hf.
  { destruct (trim_zeros_spec (pad_int 9 (t mod Second))) as (k & Hk). pose proof (pad_int_ascii 9 (t mod Second) (frac_bounds t) ltac:(lia)) as H.
    rewrite Hk, ascii_text_app in H. by apply andb_true_iff in H as [H _]. }
  case_if; [done|]. by rewrite ascii_text_app, Hf.
Qed.

(** [time.Time.MarshalJSON] without its quotes reads back, by the strict reader too. *)
Definition strict_text (s : string) : bool :=
  negb (bool_decide (String.get 12 s = Some ":"%char)) && negb (bool_decide (String.get 19 s = Some ","%char)) &&
  (let n := String.length s in
   if bool_decide (String.get (n - 1) s = Some "Z"%char) then true
   else match fixed_digits 2 (drop_bytes (n - 5) s), fixed_digits 2 (drop_bytes (n - 2) s) with
        | Some (hh, _), Some (mm, _) => (hh <? 24) && (mm <? 60)
        | _, _ => false
        end).

(** [time.Time.UnmarshalJSON] on the text of a string. *)
Definition UnmarshalTime (s : string) : option Time := t ← ParseRFC3339Nano s; if strict_text s then Some t else None.

Lemma get_after a b n : String.get (String.length a + n) (a +:+ b) = String.get n b.
Proof. induction a as [|c a IH]; [done|]. rewrite string_app_cons. cbn. exact IH. Qed.

Lemma pad2_chars v : 0 <= v <= 99 -> exists a b, pad_int 2 v = String a (String b "") /\ is_Some (digit_value b).
Proof.
  intros Hv. destruct (pad_int_spec 2 v ltac:(simpl; lia) ltac:(lia)) as [Hl Hd]. destruct (pad_int 2 v) as [|a [|b [|c s]]]; try done. exists a, b. split; [done|].
  cbn [digits_value] in Hd. destruct (digit_value a); [|done]. cbn [mbind option_bind] in Hd. by destruct (digit_value b).
Qed.

Lemma pad4_chars v : 0 <= v <= 9999 -> exists a b c d, pad_int 4 v = String a (String b (String c (String d ""))).
Proof.
  intros Hv. destruct (pad_int_spec 4 v ltac:(simpl; lia) ltac:(lia)) as [Hl _]. destruct (pad_int 4 v) as [|a [|b [|c [|d [|e s]]]]]; try done. by do 4 eexists.
Qed.

Lemma UnmarshalTime_Format t : four_digit_years t -> UnmarshalTime (FormatRFC3339Nano t) = Some t.
Proof.
  intros Ht. destruct (base_text t Ht) as (y & m & d & h & mi & sec & E & Hr & Hsum). pose proof (frac_bounds t) as Hf.
  pose proof (fraction_text (t mod Second) Hf) as [F0 F1]. cbv zeta in *. set (f := trim_zeros (pad_int 9 (t mod Second))) in *.
  assert (ParseRFC3339Nano (FormatRFC3339Nano t) = Some t) as Hp.
  { rewrite E. unfold ParseRFC3339Nano.
    repeat (rewrite ?string_app_cons, ?string_app_nil_l; first [rewrite fixed_digits_pad by (simpl; lia) | progress cbn [expect Ascii.eqb Bool.eqb]]; cbn [mbind option_bind]).
    destruct (String.eqb_spec f "") as [Ef|Ef].
    - change ("" +:+ "Z") with "Z". cbn [Ascii.eqb Bool.eqb orb andb mbind option_bind parse_zone String.eqb]. rewrite !(proj2 (Z.ltb_ge _ _)) by lia. cbn [orb].
      f_equal. specialize (F0 Ef). lia.
    - destruct (F1 Ef) as [Hs Hn]. change (String "." f +:+ "Z") with (String "." (f +:+ "Z")). cbn [Ascii.eqb Bool.eqb orb andb]. rewrite Hs.
      assert (0 < String.length f)%nat as Hl by (destruct f; [done|cbn; lia]). rewrite (proj2 (Nat.ltb_lt _ _)) by done.
      rewrite take_bytes_app, drop_bytes_app, Hn. cbn [mbind option_bind parse_zone Ascii.eqb Bool.eqb String.eqb]. rewrite !(proj2 (Z.ltb_ge _ _)) by lia. cbn [orb].
      f_equal. lia. }
  unfold UnmarshalTime. rewrite Hp. cbn [mbind option_bind]. assert (strict_text (FormatRFC3339Nano t) = true) as ->; [|done]. rewrite E.
  destruct (pad4_chars y ltac:(lia)) as (y1 & y2 & y3 & y4 & ->). destruct (pad2_chars m ltac:(lia)) as (m1 & m2 & -> & _), (pad2_chars d ltac:(lia)) as (d1 & d2 & -> & _),
    (pad2_chars h ltac:(lia)) as (h1 & h2 & -> & Hh), (pad2_chars mi ltac:(lia)) as (i1 & i2 & -> & _), (pad2_chars sec ltac:(lia)) as (s1 & s2 & -> & _).
  unfold strict_text. rewrite !andb_true_iff. split; [split|].
  - apply negb_true_iff, bool_decide_eq_false_2. cbn. intros [= ->]. by destruct Hh.
  - apply negb_true_iff, bool_decide_eq_false_2. destruct (String.eqb f ""); cbn; by intros [=].
  - cbv zeta. rewrite bool_decide_eq_true_2; [done|]. set (g := if String.eqb f "" then "" else "." +:+ f).
    assert (forall x, String.get (String.length (x +:+ "Z") - 1) (x +:+ "Z") = Some "Z"%char) as Hlast.
    { intros x. rewrite string_length_app. cbn [String.length]. replace (String.length x + 1 - 1)%nat with (String.length x + 0)%nat by lia. by rewrite get_after. }
    rewrite <- !string_app_assoc. apply Hlast.
Qed.

(** ** A signal *)

Definition signal_keys : list string :=
  ["signal_id"; "type"; "source"; "service"; "env"; "severity"; "reason"; "message"; "resource"; "metadata"; "timestamp"; "received_at"].

Section SignalJson.
Context {J : Json}.

(** [json.Unmarshal] of a raw value into a string, an object and a time: null leaves the
    zero value. *)
Definition into_string (raw : string) : option string :=
  match Unmarshal raw with Some (VStr s) => Some s | Some VNull => Some "" | _ => None end.

Definition decodeObject (raw : string) : option (gmap string value) :=
  if String.eqb raw "null" then Some ∅ else
  match Unmarshal raw with Some (VMap (Some m)) => Some m | _ => None end.

Definition into_time (raw : string) : option Time :=
  match Unmarshal raw with Some (VStr s) => UnmarshalTime s | Some VNull => Some 0 | _ => None end.

(** The code of the error a key gives, if any; no two keys set the same field, so the loop
    ends at the first key in its order that has one. *)
Definition key_error (kv : string * string) : option string :=
  let '(key, raw) := kv in
  let failed {A} (o : option A) (code : string) := match o with Some _ => None | None => Some code end in
  if bool_decide (key ∈ ["signal_id"; "type"; "source"; "service"; "env"; "severity"; "reason"; "message"]) then failed (into_string raw) "invalid_json"
  else if bool_decide (key ∈ ["resource"; "metadata"]) then failed (decodeObject raw) CodeInvalidField
  else if bool_decide (key ∈ ["timestamp"; "received_at"]) then failed (into_time raw) "invalid_json"
  else failed (Unmarshal raw) "invalid_json".

Fixpoint first_error (l : list (string * string)) : option string :=
  match l with [] => None | kv :: l => match key_error kv with Some code => Some code | None => first_error l end end.

(** [UnmarshalJSON], as the decoder of the endpoint: the code it is refused with, or the
    signal.  [omap] keeps what is unknown and decodes. *)
Definition UnmarshalSignal (it : MapIter) : SignalDecoder := fun text =>
  match UnmarshalObject text with
  | None => inl "invalid_json"
  | Some raw =>
    match first_error (mrange it 92 raw) with
    | Some code => inl code
    | None =>
      let str key := default "" (raw !! key ≫= into_string) in
      let obj key := default ∅ (raw !! key ≫= decodeObject) in
      let tm key := default 0 (raw !! key ≫= into_time) in
      inr (mkSignal (str "signal_id") (str "type") (str "source") (str "service") (str "env") (str "severity") (str "reason") (str "message")
             (obj "resource") (obj "metadata") (tm "timestamp") (tm "received_at")
             (omap Unmarshal (filter (fun kv => kv.1 ∉ signal_keys) raw)))
    end
  end.

(** [MarshalJSON]: the map it prints.  A map that is empty and not nil, which is printed as
    an empty object, is not told from nil. *)
Definition signal_object (s : Signal) : gmap string value :=
  let put_if (b : bool) (key : string) (v : value) (m : gmap string value) := if b then <[key := v]> m else m in
  let out := sig_Extra s in
  let out := <["signal_id" := VStr (sig_SignalID s)]> out in
  let out := <["type" := VStr (sig_Type s)]> out in
  let out := <["source" := VStr (sig_Source s)]> out in
  let out := <["service" := VStr (sig_Service s)]> out in
  let out := <["env" := VStr (sig_Env s)]> out in
  let out := <["severity" := VStr (sig_Severity s)]> out in
  let out := <["reason" := VStr (sig_Reason s)]> out in
  let out := put_if (negb (String.eqb (sig_Message s) "")) "message" (VStr (sig_Message s)) out in
  let out := put_if (bool_decide (sig_Resource s <> ∅)) "resource" (VMap (Some (sig_Resource s))) out in
  let out := put_if (bool_decide (sig_Metadata s <> ∅)) "metadata" (VMap (Some (sig_Metadata s))) out in
  let out := put_if (negb (IsZero (sig_Timestamp s))) "timestamp" (VStr (FormatRFC3339Nano (sig_Timestamp s))) out in
  put_if (negb (IsZero (sig_ReceivedAt s))) "received_at" (VStr (FormatRFC3339Nano (sig_ReceivedAt s))) out.

(** A time beyond the year 9999 or before the year 0 is an error of [time.Time]. *)
Definition json_time (t : Time) : bool := (-366 * 86400 * Second <=? t) && (t <? 3652059 * 86400 * Second).

Definition MarshalSignal (s : Signal) : option string :=
  if json_time (sig_Timestamp s) && json_time (sig_ReceivedAt s) then Marshal (VMap (Some (signal_object s))) else None.

(** *** Round trip *)

(** A signal whose text is UTF-8, whose values are ones decoding can give, whose extra keys
    are extra, and which does not nest deeper than a decoder accepts. *)
Record plain_signal (s : Signal) : Prop := {
  pl_times : four_digit_years (sig_Timestamp s) /\ four_digit_years (sig_ReceivedAt s);
  pl_texts : Forall (fun text => Utf8Valid text = true)
    [sig_SignalID s; sig_Type s; sig_Source s; sig_Service s; sig_Env s; sig_Severity s; sig_Reason s; sig_Message s];
  pl_depth : shallow (VMap (Some (signal_object s)));
  pl_resource : decoded (VMap (Some (sig_Resource s)));
  pl_metadata : decoded (VMap (Some (sig_Metadata s)));
  pl_extra : decoded (VMap (Some (sig_Extra s)));
  pl_keys : forall k, k ∈ signal_keys -> sig_Extra s !! k = None
}.

Lemma put_lookup (b : bool) key v (m : gmap string value) k :
  (if b then <[key := v]> m else m) !! k = if b && String.eqb key k then Some v else m !! k.
Proof. destruct b; [|done]. cbn [andb]. destruct (String.eqb_spec key k) as [->|]; [by rewrite lookup_insert_eq|by rewrite lookup_insert_ne]. Qed.

Ltac object_lookup := unfold signal_object; cbv zeta;
  repeat first [rewrite lookup_insert_eq | rewrite lookup_insert_ne by done
               | rewrite put_lookup; cbn [String.eqb Ascii.eqb Bool.eqb]; rewrite ?andb_false_r, ?andb_true_r].

Lemma object_text s (key : string) (v : string) : (key, v) ∈ [("signal_id", sig_SignalID s); ("type", sig_Type s); ("source", sig_Source s); ("service", sig_Service s);
    ("env", sig_Env s); ("severity", sig_Severity s); ("reason", sig_Reason s)] -> signal_object s !! key = Some (VStr v).
Proof. intros H. repeat (apply elem_of_cons in H as [[= -> ->]|H]; [object_lookup; done|]). by apply elem_of_nil in H. Qed.

Lemma object_required s k : k ∈ ["signal_id"; "type"; "source"; "service"; "env"; "severity"; "reason"] ->
  exists v, signal_object s !! k = Some (VStr v) /\ v ∈ [sig_SignalID s; sig_Type s; sig_Source s; sig_Service s; sig_Env s; sig_Severity s; sig_Reason s; sig_Message s].
Proof.
  intros H. repeat (apply elem_of_cons in H as [->|H]; [eexists; split; [apply object_text; repeat (apply elem_of_cons; (by left) || right)|repeat (apply elem_of_cons; (by left) || right)]|]). by apply elem_of_nil in H.
Qed.

(** The optional keys. *)
Lemma object_optional s : plain_signal s ->
  signal_object s !! "message" = (if negb (String.eqb (sig_Message s) "") then Some (VStr (sig_Message s)) else None) /\
  signal_object s !! "resource" = (if bool_decide (sig_Resource s <> ∅) then Some (VMap (Some (sig_Resource s))) else None) /\
  signal_object s !! "metadata" = (if bool_decide (sig_Metadata s <> ∅) then Some (VMap (Some (sig_Metadata s))) else None) /\
  signal_object s !! "timestamp" = (if negb (IsZero (sig_Timestamp s)) then Some (VStr (FormatRFC3339Nano (sig_Timestamp s))) else None) /\
  signal_object s !! "received_at" = (if negb (IsZero (sig_ReceivedAt s)) then Some (VStr (FormatRFC3339Nano (sig_ReceivedAt s))) else None).
Proof.
  intros Hs. assert (forall k, k ∈ signal_keys -> sig_Extra s !! k = None) as Hk by apply Hs.
  split_and!; object_lookup; rewrite ?Hk by by_decide; done.
Qed.

Lemma object_extra s k : k ∉ signal_keys -> signal_object s !! k = sig_Extra s !! k.
Proof.
  intros Hk. unfold signal_object. cbv zeta. assert (forall key, key ∈ signal_keys -> String.eqb key k = false) as Hne
    by (intros key Hin; apply String.eqb_neq; by intros ->).
  rewrite !put_lookup, !Hne, !andb_false_r by by_decide. rewrite !lookup_insert_ne by (intros <-; apply Hk; by_decide). done.
Qed.

Ltac split_if H := match type of H with context [if ?b then _ else _] => destruct b end.

Ltac decide_goal H := match goal with |- (if bool_decide ?P then _ else _) = _ =>
  destruct (decide P) as [H|H]; [rewrite (bool_decide_eq_true_2 P H)|rewrite (bool_decide_eq_false_2 P H)] end.

Lemma plain_text s text : plain_signal s ->
  text ∈ [sig_SignalID s; sig_Type s; sig_Source s; sig_Service s; sig_Env s; sig_Severity s; sig_Reason s; sig_Message s] -> decoded (VStr text).
Proof. intros Hs Hin. constructor. pose proof (pl_texts s Hs) as H. rewrite Forall_forall in H. by apply H. Qed.

Lemma time_decoded t : four_digit_years t -> decoded (VStr (FormatRFC3339Nano t)).
Proof. intros Ht. constructor. by apply ascii_text_utf8, time_text_ascii. Qed.

Lemma object_decoded s : plain_signal s -> decoded (VMap (Some (signal_object s))).
Proof.
  intros Hs. apply decoded_map. intros k v Hv. destruct (decide (k ∈ signal_keys)) as [Hk|Hk].
  - split; [clear -Hk; repeat (apply elem_of_cons in Hk as [->|Hk]; [done|]); by apply elem_of_nil in Hk|].
    destruct (object_optional s Hs) as (O1 & O2 & O3 & O4 & O5). unfold signal_keys in Hk.
    apply (elem_of_app ["signal_id"; "type"; "source"; "service"; "env"; "severity"; "reason"] ["message"; "resource"; "metadata"; "timestamp"; "received_at"]) in Hk.
    destruct Hk as [Hk|Hk]; [destruct (object_required s k Hk) as (w & Hw & Hin); rewrite Hw in Hv; injection Hv as <-; by eapply plain_text|].
    repeat (apply elem_of_cons in Hk as [->|Hk]); [rewrite O1 in Hv|rewrite O2 in Hv|rewrite O3 in Hv|rewrite O4 in Hv|rewrite O5 in Hv|by apply elem_of_nil in Hk];
      split_if Hv; try done; injection Hv as <-; [|apply Hs..|apply time_decoded, Hs|apply time_decoded, Hs].
    eapply plain_text; [done|]. repeat (apply elem_of_cons; (by left) || right).
  - rewrite object_extra in Hv by done. pose proof (pl_extra s Hs) as Hd. inversion Hd as [| | | | |? Hm]; subst. by apply Hm.
Qed.

(** C17: A signal that can be encoded reads back from its JSON as it was, whatever order the
    decoder meets the keys in, provided it is one JSON can carry: its two times have years
    of four digits, its text is valid UTF-8 (encoding replaces other bytes), the values of
    its resource, metadata and extra maps are ones decoding can give (UTF-8 text and keys,
    no nil maps, numbers as a decoder names them), none of its extra keys is a known key,
    and the whole nests at most the 10000 levels a decoder accepts.  Of [encoding/json] this
    uses that [null] decodes to nil and that such a value reads back from its encoding, as a
    whole and key by key. *)
Theorem signal_json_roundtrip `{!JsonLaws J} it s text : Unmarshal "null" = Some VNull -> plain_signal s ->
  MarshalSignal s = Some text -> UnmarshalSignal it text = inr s.
Proof.
  intros Hnull Hs Hm. unfold MarshalSignal in Hm. case_match; [|done]. pose proof (json_marshal _ _ (object_decoded s Hs) (pl_depth s Hs) Hm) as Hu.
  destruct (json_object _ _ Hu) as (raws & Hraws & Hk). destruct (object_optional s Hs) as (O1 & O2 & O3 & O4 & O5).
  assert (forall k, (raws !! k ≫= Unmarshal) = signal_object s !! k) as Hget by (intros k; apply Hk).
  assert (forall k, raws !! k = None <-> signal_object s !! k = None) as Hnone by (intros k; apply Hk). clear Hk.
  assert (forall k v, signal_object s !! k = Some (VStr v) -> (raws !! k ≫= into_string) = Some v) as Hstr.
  { intros k v Hv. rewrite <- Hget in Hv. destruct (raws !! k) as [raw|]; [|done]. cbn [mbind option_bind] in *. unfold into_string. by rewrite Hv. }
  assert (forall k, signal_object s !! k = None -> raws !! k = None) as Hno by (intros k; apply Hnone).
  assert (forall k m, signal_object s !! k = Some (VMap (Some m)) -> (raws !! k ≫= decodeObject) = Some m) as Hobj.
  { intros k m Hv. rewrite <- Hget in Hv. destruct (raws !! k) as [raw|]; [|done]. cbn [mbind option_bind] in *. unfold decodeObject.
    destruct (String.eqb_spec raw "null") as [->|]; [by rewrite Hnull in Hv|]. by rewrite Hv. }
  assert (forall k t, four_digit_years t -> signal_object s !! k = Some (VStr (FormatRFC3339Nano t)) -> (raws !! k ≫= into_time) = Some t) as Htm.
  { intros k t Ht Hv. rewrite <- Hget in Hv. destruct (raws !! k) as [raw|]; [|done]. cbn [mbind option_bind] in *. unfold into_time. rewrite Hv. by apply UnmarshalTime_Format. }
  destruct (pl_times s Hs) as [Hts Hrc].
  unfold UnmarshalSignal. rewrite Hraws. assert (first_error (mrange it 92 raws) = None) as ->.
  { assert (forall kv, kv ∈ mrange it 92 raws -> key_error kv = None) as Hall.
    { intros [k raw] Hin. apply elem_of_mrange in Hin. unfold key_error. assert (is_Some (signal_object s !! k)) as [v Hv].
      { destruct (signal_object s !! k) eqn:E; [by eexists|]. apply Hno in E. congruence. }
      decide_goal H1; [|decide_goal H2; [|decide_goal H3]].
      - assert (exists w, signal_object s !! k = Some (VStr w)) as (w & Hw).
        { apply (elem_of_app ["signal_id"; "type"; "source"; "service"; "env"; "severity"; "reason"] ["message"]) in H1 as [H1|H1]; [destruct (object_required s k H1) as (w & Hw & _); by exists w|].
          apply list_elem_of_singleton in H1 as ->. rewrite O1 in Hv |- *. split_if Hv; [by eexists|done]. }
        specialize (Hstr k w Hw). rewrite Hin in Hstr. cbn in Hstr. by rewrite Hstr.
      - assert (exists m, signal_object s !! k = Some (VMap (Some m))) as (m & Hw).
        { repeat (apply elem_of_cons in H2 as [->|H2]); [rewrite O2 in Hv |- *|rewrite O3 in Hv |- *|by apply elem_of_nil in H2]; split_if Hv; done || (by eexists). }
        specialize (Hobj k m Hw). rewrite Hin in Hobj. cbn in Hobj. by rewrite Hobj.
      - assert (exists t, four_digit_years t /\ signal_object s !! k = Some (VStr (FormatRFC3339Nano t))) as (t & Ht & Hw).
        { repeat (apply elem_of_cons in H3 as [->|H3]); [rewrite O4 in Hv |- *|rewrite O5 in Hv |- *|by apply elem_of_nil in H3]; split_if Hv; done || (by (eexists; split; [|reflexivity])). }
        specialize (Htm k t Ht Hw). rewrite Hin in Htm. cbn in Htm. by rewrite Htm.
      - pose proof (Hget k) as Hg. rewrite Hin, Hv in Hg. cbn in Hg. by rewrite Hg. }
    induction (mrange it 92 raws) as [|kv l IH]; [done|]. cbn [first_error]. rewrite (Hall kv) by left. apply IH. intros x Hx. apply Hall. by right. }
  f_equal. cbv zeta. rewrite (Hstr "signal_id" (sig_SignalID s)), (Hstr "type" (sig_Type s)), (Hstr "source" (sig_Source s)), (Hstr "service" (sig_Service s)),
    (Hstr "env" (sig_Env s)), (Hstr "severity" (sig_Severity s)), (Hstr "reason" (sig_Reason s)) by (apply object_text; repeat (apply elem_of_cons; (by left) || right)).
  assert (default "" (raws !! "message" ≫= into_string) = sig_Message s) as ->.
  { destruct (String.eqb_spec (sig_Message s) "") as [Em|]; cbn [negb] in O1; [rewrite (Hno _ O1); by rewrite Em|by rewrite (Hstr _ _ O1)]. }
  assert (default ∅ (raws !! "resource" ≫= decodeObject) = sig_Resource s) as ->.
  { destruct (decide (sig_Resource s = ∅)) as [Em|Em]; [rewrite bool_decide_eq_false_2 in O2 by (by intros Hn); rewrite (Hno _ O2); by rewrite Em|].
    rewrite bool_decide_eq_true_2 in O2 by done. by rewrite (Hobj _ _ O2). }
  assert (default ∅ (raws !! "metadata" ≫= decodeObject) = sig_Metadata s) as ->.
  { destruct (decide (sig_Metadata s = ∅)) as [Em|Em]; [rewrite bool_decide_eq_false_2 in O3 by (by intros Hn); rewrite (Hno _ O3); by rewrite Em|].
    rewrite bool_decide_eq_true_2 in O3 by done. by rewrite (Hobj _ _ O3). }
  assert (default 0 (raws !! "timestamp" ≫= into_time) = sig_Timestamp s) as ->.
  { unfold IsZero in O4. destruct (Z.eqb_spec (sig_Timestamp s) 0) as [Em|]; cbn [negb] in O4; [rewrite (Hno _ O4); by rewrite Em|by rewrite (Htm _ _ Hts O4)]. }
  assert (default 0 (raws !! "received_at" ≫= into_time) = sig_ReceivedAt s) as ->.
  { unfold IsZero in O5. destruct (Z.eqb_spec (sig_ReceivedAt s) 0) as [Em|]; cbn [negb] in O5; [rewrite (Hno _ O5); by rewrite Em|by rewrite (Htm _ _ Hrc O5)]. }
  assert (omap Unmarshal (filter (fun kv => kv.1 ∉ signal_keys) raws) = sig_Extra s) as ->; [|by destruct s].
  apply map_eq. intros k. rewrite lookup_omap, map_lookup_filter. destruct (decide (k ∈ signal_keys)) as [Hin|Hin].
  - rewrite (pl_keys s Hs k Hin). destruct (raws !! k); [|done]. cbn. by rewrite option_guard_False by (intros Hn; by apply Hn).
  - rewrite <- (object_extra s k Hin), <- Hget. destruct (raws !! k); [|done]. cbn. by rewrite option_guard_True by done.
Qed.
End SignalJson.

(** ** At work *)

(** A codec of one object of strings, whose text is ["{}"]; a string is its bytes after a
    quote. *)
Section OneObject.
Context (strings : gmap string string) (plain_strings : forall k t, strings !! k = Some t -> Utf8Valid k = true /\ Utf8Valid t = true).

Definition as_text (v : value) : option string := match v with VStr s => Some s | _ => None end.
Definition fingerprint (m : gmap string value) : list (string * option string) := (fun kv => (kv.1, as_text kv.2)) <$> map_to_list m.

Definition one_object : Json := {|
  Unmarshal s := match s with
                 | "{}" => Some (VMap (Some (VStr <$> strings)))
                 | "null" => Some VNull
                 | String "'" s => if Utf8Valid s then Some (VStr s) else None
                 | _ => None
                 end;
  UnmarshalObject s := if String.eqb s "{}" then Some (String "'" <$> strings) else None;
  UnmarshalArray _ := None;
  Marshal v := match v with
               | VMap (Some m) => if bool_decide (fingerprint m = fingerprint (VStr <$> strings)) then Some "{}" else None
               | _ => None
               end;
  MarshalObject _ := None
|}.

Lemma one_object_cases s v : Unmarshal (Json := one_object) s = Some v ->
  (s = "{}" /\ v = VMap (Some (VStr <$> strings))) \/ v = VNull \/ exists t, v = VStr t /\ Utf8Valid t = true.
Proof.
  unfold Unmarshal. cbn. intros H. repeat (case_match; try done); simplify_eq; eauto.
Qed.

Lemma fingerprint_inj m : fingerprint m = fingerprint (VStr <$> strings) -> m = VStr <$> strings.
Proof.
  unfold fingerprint. intros H. apply map_to_list_inj. assert (map_to_list m = map_to_list (VStr <$> strings)) as ->; [|done].
  assert (forall kv, kv ∈ map_to_list (VStr <$> strings) -> is_Some (as_text kv.2)) as Hs.
  { intros [k v] Hin. apply elem_of_map_to_list in Hin. rewrite lookup_fmap in Hin. destruct (strings !! k); [|done]. injection Hin as <-. by eexists. }
  revert H Hs. generalize (map_to_list m) (map_to_list (VStr <$> strings)). induction l as [|[k v] l IH]; intros [|[k' v'] l'] H Hs; try done.
  cbn in H. injection H as -> Hv Hl. destruct (Hs (k', v') ltac:(left)) as [x Hx]. cbn [snd] in Hx. rewrite Hx in Hv.
  destruct v, v'; try done. cbn in *. simplify_eq. f_equal. apply IH; [done|]. intros kv Hin. apply Hs. by right.
Qed.

Lemma one_object_laws : JsonLaws one_object.
Proof using plain_strings.
  split.
  - intros s v H. apply one_object_cases in H as [[_ ->]|[->|(t & -> & Ht)]]; [|constructor|by constructor]. apply decoded_map. intros k v Hv. rewrite lookup_fmap in Hv.
    destruct (strings !! k) as [t|] eqn:E; [|done]. injection Hv as <-. destruct (plain_strings k t E) as [Hk Ht]. split; [done|by constructor].
  - intros v s _ _ H. destruct v as [| | | | | |[m|]]; try done. unfold Marshal in H. cbn in H. case_bool_decide as Hf; [|done]. injection H as <-. by rewrite (fingerprint_inj _ Hf).
  - intros s m H. apply one_object_cases in H as [[-> E]|[?|(? & ? & ?)]]; [|done..]. injection E as ->. exists (String "'" <$> strings). split; [done|].
    intros k. rewrite !lookup_fmap. destruct (strings !! k) as [t|] eqn:E; [|done]. cbn. by rewrite (proj2 (plain_strings k t E)).
  - intros s l H. by apply one_object_cases in H as [[_ ?]|[?|(? & ? & ?)]].
Qed.
End OneObject.

Definition demo_signal : Signal :=
  mkSignal "sig_1" TypeDeploy "ci" "pay" "prod" SeverityInfo "released" "v2" ∅ ∅ (unix_epoch + 5) (unix_epoch + 1500 * Millisecond) {["build" := VStr "77"]}.

Definition demo_strings : gmap string string := omap as_text (signal_object demo_signal).

Lemma demo_strings_plain k t : demo_strings !! k = Some t -> Utf8Valid k = true /\ Utf8Valid t = true.
Proof.
  assert (forallb (fun kv => Utf8Valid kv.1 && Utf8Valid kv.2) (map_to_list demo_strings) = true) as H by (vm_compute; reflexivity).
  intros Hk%elem_of_map_to_list%list_elem_of_In. rewrite forallb_forall in H. by apply H, andb_true_iff in Hk.
Qed.

Lemma signal_json_roundtrip_witness :
  MarshalSignal (J := one_object demo_strings) demo_signal = Some "{}" /\
  UnmarshalSignal (J := one_object demo_strings) iter_canonical "{}" = inr demo_signal.
Proof.
  assert (MarshalSignal (J := one_object demo_strings) demo_signal = Some "{}") as Hm by (vm_compute; reflexivity). split; [exact Hm|].
  refine (@signal_json_roundtrip (one_object demo_strings) (one_object_laws demo_strings demo_strings_plain) iter_canonical demo_signal "{}" eq_refl _ Hm).
  assert (decoded (J := one_object demo_strings) (VMap (Some ∅))) as He by (apply decoded_map; intros k v Hk; by rewrite lookup_empty in Hk).
  constructor; [unfold four_digit_years, demo_signal, unix_epoch, Second, Millisecond; simpl; lia|by repeat constructor|unfold shallow; vm_compute; discriminate|exact He|exact He| |].
  - apply (singleton_decoded (J := one_object demo_strings) "build" "77"); reflexivity.
  - intros k Hk. unfold signal_keys in Hk. apply lookup_singleton_ne. intros <-. revert Hk. by_decide.
Defined.
