(* ===== verification/Reports.v ===== *)
(** Rendering of triage reports and the endpoint that serves them ([internal/reports],
    [internal/triagehttp], [internal/tools/report.go]): the Markdown, Slack and PagerDuty
    forms, the two endpoints and the tool.  Quoting with [%q] and the encoding of a Slack
    body as JSON are parameters. *)

From S2P Require Import Prelude Providers GoRuntime GoText Eventlog GoFloat Retention PlanRef Registry Types Detect Incident Convert IncidentHttp Triage Engine EngineSpec AgentTools.
From Stdlib Require Import SpecFloat.
Open Scope Z_scope.

(** ** Texts *)

Definition FormatMarkdown : string := "markdown".
Definition FormatSlack : string := "slack".
Definition FormatPagerDuty : string := "pagerduty".

Definition nz (s : string) : string := if String.eqb (TrimSpace s) "" then "not available" else s.
Definition availability (ok : bool) : string := if ok then "present" else "not available".
Definition nonempty {A} (l : list A) : bool := match l with [] => false | _ => true end.

(** [%.1f]: the exact value times ten, rounded half to even. *)
Definition FormatFixed1 (x : float64) : string :=
  match x with
  | S754_nan => "NaN"
  | S754_infinity s => if s then "-Inf" else "+Inf"
  | S754_zero s => if s then "-0.0" else "0.0"
  | S754_finite s m e =>
    let n := half_even (Z.pos m * 10 * 2 ^ Z.max 0 e) (2 ^ Z.max 0 (- e)) in
    (if s then "-" else "") +:+ Itoa (n / 10) +:+ "." +:+ Itoa (n mod 10)
  end.

Definition percent (x : float64) : string := FormatFixed1 (fmul x (of_int 100)) +:+ "%".

Example percent_ex : percent <$> [flit 1 8; flit 1 3; of_int 0; of_int 1; flit 1 400] = ["12.5%"; "33.3%"; "0.0%"; "100.0%"; "0.2%"].
Proof. vm_compute. reflexivity. Qed.

(** A text in backquotes, and the references that end a line. *)
Definition code (s : string) : string := "`" +:+ nz s +:+ "`".
Definition incident_ref (r : Report) : string := "incident " +:+ code (ir_ID (rp_IncidentRef r)).
Definition report_ref (r : Report) : string := "report " +:+ code (rp_ReportHash r).
Definition both_refs (r : Report) : string := "(" +:+ incident_ref r +:+ ", " +:+ report_ref r +:+ ")".
Definition report_only (r : Report) : string := "(" +:+ report_ref r +:+ ")".

Definition suspectSummary (sc : option SuspectChange) : string :=
  match sc with
  | None => "not available"
  | Some sc =>
    let s := nz (sc_Service sc) in
    let s := if negb (String.eqb (sc_Version sc) "") then s +:+ " " +:+ sc_Version sc else s in
    let attrs := (if negb (String.eqb (sc_PRURL sc) "") then ["PR " +:+ sc_PRURL sc] else []) ++
                 (if negb (String.eqb (sc_CommitAuthor sc) "") then ["by " +:+ sc_CommitAuthor sc] else []) ++
                 (if negb (String.eqb (sc_CommitSHA sc) "") then ["commit " +:+ sc_CommitSHA sc] else []) in
    let s := if nonempty attrs then s +:+ " (" +:+ Join ", " attrs +:+ ")" else s in
    match sc_ErrorRateBefore sc, sc_ErrorRateAfter sc with
    | Some before, Some after => s +:+ "; err " +:+ percent before +:+ " -> " +:+ percent after
    | _, _ => s
    end
  end.

Definition impactSummary (r : Report) : string :=
  let b := rp_BlastSnapshot r in
  Itoa (bs_Requests b) +:+ " requests, " +:+ Itoa (bs_Users b) +:+ " users, " +:+ Itoa (bs_Services b) +:+ " services " +:+ both_refs r.

Definition runtimeSummary (r : Report) : string :=
  match rp_Runtime r with
  | [] => "not available " +:+ report_only r
  | rows =>
    let parts := (fun x => code (rt_Severity x) +:+ " " +:+ nz (rt_Subtype x) +:+ " on " +:+ nz (rt_Service x) +:+
                    " (" +:+ nz (rt_Source x) +:+ ")") <$> rows in
    Join "; " parts +:+ " " +:+ report_only r
  end.

Definition firstCheck (r : Report) : string :=
  match rp_NextChecks r with
  | [] => "not available " +:+ report_only r
  | c :: _ => nz (nc_Prompt c) +:+ " (check " +:+ code (nc_ID c) +:+ ", " +:+ report_ref r +:+ ")"
  end.

Definition firstTrace (r : Report) : string :=
  match rp_SampleTraces r with
  | [] => "not available " +:+ report_only r
  | t :: _ => code (ts_TraceID t) +:+ " " +:+ both_refs r
  end.

(** ** Markdown *)

Definition bullet (text : string) : string := "- " +:+ text +:+ nl.
Definition bullets (texts : list string) : string := foldr (fun t s => bullet t +:+ s) "" texts.

Definition summary_bullets (r : Report) : list string :=
  ["Incident: " +:+ code (ir_ID (rp_IncidentRef r)) +:+ " " +:+ report_only r;
   "Evidence fingerprint: " +:+ code (rp_EvidenceFingerprint r) +:+ " (stable across ticks until evidence changes)";
   "Confidence: " +:+ code (rp_Confidence r) +:+ " " +:+ both_refs r;
   "Evidence status: alert=" +:+ availability (nonempty (rp_Alerts r)) +:+ " trace=" +:+ availability (nonempty (rp_SampleTraces r)) +:+
     " signal=" +:+ availability (nonempty (rp_Signals r)) +:+ " runtime=" +:+ availability (nonempty (rp_Runtime r)) +:+ " " +:+ report_only r;
   "Window: " +:+ code (ir_Window (rp_IncidentRef r)) +:+ " (" +:+ incident_ref r +:+ ")"].

Definition family_bullet (r : Report) (f : FamilyCount) : string :=
  "Error family: `" +:+ nz (fc_Service f) +:+ "/" +:+ nz (fc_Step f) +:+ "/" +:+ nz (fc_ErrorCode f) +:+ "` count=" +:+ Itoa (fc_Count f) +:+ " " +:+ both_refs r.

(** A line for each row, or one that says there is none. *)
Definition rows_or {A} (none : string) (row : A -> string) (l : list A) : list string :=
  match l with [] => [none] | _ => row <$> l end.

Definition impact_bullets (r : Report) : list string :=
  let b := rp_BlastSnapshot r in
  ["Requests: " +:+ Itoa (bs_Requests b) +:+ " " +:+ both_refs r;
   "Users: " +:+ Itoa (bs_Users b) +:+ " " +:+ both_refs r;
   "Services: " +:+ Itoa (bs_Services b) +:+ " " +:+ both_refs r] ++
  rows_or ("Error family: not available (" +:+ incident_ref r +:+ ")") (family_bullet r) (bs_TopErrorFamilies b).

Definition suspect_bullets (r : Report) : list string :=
  match rp_SuspectChange r with
  | None => ["not available " +:+ both_refs r]
  | Some sc => [suspectSummary (Some sc) +:+ " (deploy " +:+ code (sc_DeployID sc) +:+ ", " +:+ incident_ref r +:+ ", " +:+ report_ref r +:+ ")"]
  end.

Definition trace_bullet (r : Report) (t : TraceSample) : string :=
  "trace " +:+ code (ts_TraceID t) +:+ ": " +:+ nz (ts_Summary t) +:+ " " +:+ both_refs r.
Definition alert_bullet (r : Report) (a : AlertRef) : string :=
  code (al_Severity a) +:+ " from " +:+ code (al_Source a) +:+ ": " +:+ nz (al_Reason a) +:+ "; provider=" +:+ nz (al_ProviderURL a) +:+
  " (signal " +:+ code (al_SignalID a) +:+ ", alert " +:+ code (al_AlertID a) +:+ ", " +:+ report_ref r +:+ ")".
Definition runtime_bullet (r : Report) (x : RuntimeRef) : string :=
  code (rt_Severity x) +:+ " " +:+ nz (rt_Subtype x) +:+ " on " +:+ code (rt_Service x) +:+ ": " +:+ nz (rt_Reason x) +:+
  " (source " +:+ code (rt_Source x) +:+ ", signal " +:+ code (rt_SignalID x) +:+ ", " +:+ report_ref r +:+ ")".
Definition signal_bullet (r : Report) (s : SignalRef) : string :=
  code (sg_Type s) +:+ " signal " +:+ code (sg_ID s) +:+ " evidence=" +:+ Join "," (sg_EvidenceIDs s) +:+ " " +:+ report_only r.
Definition check_bullet (r : Report) (c : NextCheck) : string :=
  nz (nc_Prompt c) +:+ " (check " +:+ code (nc_ID c) +:+ ", " +:+ report_ref r +:+ ")".

Definition heading (title : string) : string := "## " +:+ title +:+ nl +:+ nl.

Definition Markdown (r : Report) : string :=
  "# Waylog Operator Report" +:+ nl +:+ nl +:+
  heading "Summary" +:+ bullets (summary_bullets r) +:+ nl +:+
  heading "Impact" +:+ bullets (impact_bullets r) +:+ nl +:+
  heading "Suspect Change" +:+ bullets (suspect_bullets r) +:+ nl +:+
  heading "First Failure And Traces" +:+ bullets (rows_or ("not available " +:+ both_refs r) (trace_bullet r) (rp_SampleTraces r)) +:+ nl +:+
  heading "Alert Evidence" +:+ bullets (rows_or ("not available " +:+ report_only r) (alert_bullet r) (rp_Alerts r)) +:+ nl +:+
  heading "Runtime Evidence" +:+ bullets (rows_or ("not available " +:+ report_only r) (runtime_bullet r) (rp_Runtime r)) +:+ nl +:+
  heading "Signals" +:+ bullets (rows_or ("not available " +:+ report_only r) (signal_bullet r) (rp_Signals r)) +:+ nl +:+
  heading "Next Checks" +:+ bullets (rows_or ("not available " +:+ report_only r) (check_bullet r) (rp_NextChecks r)).

(** ** Slack and PagerDuty *)

Definition vmap (l : list (string * value)) : value := VMap (Some (list_to_map l)).
Definition mrkdwn (text : string) : value := vmap [("type", VStr "mrkdwn"); ("text", VStr text)].
Definition section_text (text : string) : value := vmap [("type", VStr "section"); ("text", mrkdwn text)].

Definition alert_text (r : Report) : string :=
  match rp_Alerts r with
  | [] => "not available"
  | a :: _ => code (al_Source a) +:+ " " +:+ nz (al_Reason a) +:+ " provider=" +:+ nz (al_ProviderURL a) +:+
      " (signal " +:+ code (al_SignalID a) +:+ ", alert " +:+ code (al_AlertID a) +:+ ", " +:+ report_ref r +:+ ")"
  end.

Definition Slack (r : Report) : value :=
  let fields :=
    [mrkdwn ("*Incident*" +:+ nl +:+ code (ir_ID (rp_IncidentRef r)));
     mrkdwn ("*Confidence*" +:+ nl +:+ code (rp_Confidence r) +:+ " " +:+ both_refs r);
     mrkdwn ("*Impact*" +:+ nl +:+ impactSummary r);
     mrkdwn ("*Trace*" +:+ nl +:+ firstTrace r);
     mrkdwn ("*Report hash*" +:+ nl +:+ code (rp_ReportHash r));
     mrkdwn ("*Evidence fingerprint*" +:+ nl +:+ code (rp_EvidenceFingerprint r))] in
  vmap [("blocks", VList
    [vmap [("type", VStr "header"); ("text", vmap [("type", VStr "plain_text"); ("text", VStr "Waylog operator report")])];
     vmap [("type", VStr "section"); ("fields", VList fields)];
     section_text ("*Suspect change*" +:+ nl +:+ suspectSummary (rp_SuspectChange r));
     section_text ("*Alert evidence*" +:+ nl +:+ alert_text r);
     section_text ("*Runtime evidence*" +:+ nl +:+ runtimeSummary r);
     section_text ("*Next check*" +:+ nl +:+ firstCheck r)])].

Definition PagerDuty (r : Report) : string :=
  let alert := match rp_Alerts r with
               | [] => "not available"
               | a :: _ => nz (al_Source a) +:+ " alert " +:+ nz (al_AlertID a) +:+ " via signal " +:+ nz (al_SignalID a) +:+ " provider=" +:+ nz (al_ProviderURL a)
               end in
  "Waylog operator report: incident=" +:+ nz (ir_ID (rp_IncidentRef r)) +:+ " confidence=" +:+ nz (rp_Confidence r) +:+ " impact=" +:+ impactSummary r +:+
  " trace=" +:+ firstTrace r +:+ " report_hash=" +:+ nz (rp_ReportHash r) +:+ " evidence_fingerprint=" +:+ nz (rp_EvidenceFingerprint r) +:+
  " suspect_change=" +:+ suspectSummary (rp_SuspectChange r) +:+ " alert=" +:+ alert +:+ " runtime=" +:+ runtimeSummary r +:+ " next_check=" +:+ firstCheck r.

(** ** Rendering *)

Record Rendered := mkRendered { rd_Format : string; rd_ContentType : string; rd_Body : value }.

Class ReportText := {
  decode_report : string -> triage_params * string + string;
  rendered_value : Rendered -> value;
  quote_text : string -> string;
  MarshalIndent : value -> string + string
}.

Section Render.
Context `{RT : ReportText}.

(** The left of a sum is the text of an error. *)
Definition Render (rep : option Report) (format : string) : string + Rendered :=
  match rep with
  | None => inl "report required"
  | Some r =>
    let format := if String.eqb format "" then FormatMarkdown else format in
    if String.eqb format FormatMarkdown then inr (mkRendered format "text/markdown" (VStr (Markdown r)))
    else if String.eqb format FormatSlack then inr (mkRendered format "application/json" (Slack r))
    else if String.eqb format FormatPagerDuty then inr (mkRendered format "text/plain" (VStr (PagerDuty r)))
    else inl ("unsupported report format " +:+ quote_text format)
  end.

Definition EncodeBody (d : Rendered) : string + string :=
  if String.eqb (rd_Format d) FormatSlack then MarshalIndent (rd_Body d) else
  match rd_Body d with
  | VStr s => inr s
  | body => MarshalIndent body
  end.
End Render.

(** ** The endpoints ([internal/triagehttp/handler.go]) *)

Record triage_request := mkTriageRequest { tq_Method : string; tq_Path : string; tq_Window : string; tq_Snapshot : string; tq_Format : string }.

Inductive triage_answer :=
| TriageRefused (status : Z) (error_code message : string)
| TriageJson (rep : Report)
| TriageText (content_type body : string).

(** [strings.Trim(s, "/")]. *)
Definition trim_both (s : string) : string := trim_slashes (trim_left (String.length s) ["/"] s).

Definition triage_prefix : string := "/v1/triage/".

Definition incidentIDFromPath (path : string) : string :=
  let id := trim_both (TrimPrefix path triage_prefix) in
  if Contains id "/" then "" else id.

Section Endpoint.
Context `{TJ : ToolJson} `{RT : ReportText}.
Variable build : string -> BuildOptions -> TriageError + Report.
Variable now : Time.

(** What both handlers do up to the report. *)
Definition with_built (r : triage_request) (path : string) (k : Report -> triage_answer) : triage_answer :=
  if negb (String.eqb (tq_Method r) "GET") then TriageRefused 405 "method_not_allowed" "method not allowed" else
  let id := incidentIDFromPath path in
  if String.eqb id "" then TriageRefused 400 "missing_incident_id" "incident_id required in path" else
  match ParseBuildOptions (tq_Window r) (String.eqb (tq_Snapshot r) "true") now with
  | None => TriageRefused 400 "bad_options" (duration_error_text (tq_Window r))
  | Some opts =>
    match build id opts with
    | inl (ErrUnknownIncident _) => TriageRefused 404 "not_found" "incident not found"
    | inl err => TriageRefused 500 "triage_build_failed" (triage_error_text err)
    | inr rep => k rep
    end
  end.

Definition render_answer (format : string) (rep : Report) : triage_answer :=
  match Render (Some rep) format with
  | inl text => TriageRefused 400 "bad_format" text
  | inr rendered =>
    match EncodeBody rendered with
    | inl text => TriageRefused 500 "render_failed" text
    | inr body => TriageText (rd_ContentType rendered) body
    end
  end.

Definition Report_ (r : triage_request) : triage_answer :=
  with_built r (trim_suffix (trim_slashes (tq_Path r)) "/report") (render_answer (tq_Format r)).

Definition Triage_ (r : triage_request) : triage_answer :=
  if HasSuffix (trim_slashes (tq_Path r)) "/report" then Report_ r else with_built r (tq_Path r) TriageJson.
End Endpoint.

(** ** The tool ([internal/tools/report.go]) *)

Section Tool.
Context {W : Type} `{TJ : ToolJson} `{RT : ReportText}.

Definition render_triage_report (build : W -> string -> BuildOptions -> TriageError + Report) (now : Time) (w : W) (params : string) : W * Registry.outcome :=
  (w, match decode_report params with
      | inr text => fail ("render_triage_report: bad params: " +:+ text)
      | inl (p, format) =>
        if String.eqb (tp_IncidentID p) "" then fail "render_triage_report: incident_id required" else
        match ParseBuildOptions (tp_Window p) (tp_Snapshot p) now with
        | None => fail (duration_error_text (tp_Window p))
        | Some opts =>
          match build w (tp_IncidentID p) opts with
          | inl err => fail (triage_error_text err)
          | inr rep =>
            match Render (Some rep) format with
            | inl text => fail text
            | inr rendered => Returned (rendered_value rendered)
            end
          end
        end
      end).
End Tool.

(** ** Reading Markdown back *)

(** A reader of lines: each heading of the second level with the bullets below it. *)
Definition read_line (line : string) (acc : list string * list (string * list string)) : list string * list (string * list string) :=
  if HasPrefix line "## " then ([], (drop_bytes 3 line, acc.1) :: acc.2)
  else if HasPrefix line "- " then (drop_bytes 2 line :: acc.1, acc.2) else acc.
Definition read_sections (text : string) : list (string * list string) :=
  (foldr read_line ([], []) (Split text Eventlog.newline)).2.

Definition one_line (s : string) : Prop := has_byte Eventlog.newline s = false.

(** No text of a report breaks its line. *)
Definition one_line_change (sc : SuspectChange) : Prop :=
  Forall one_line [sc_DeployID sc; sc_Service sc; sc_Version sc; sc_CommitSHA sc; sc_PRURL sc; sc_CommitAuthor sc].
Definition one_line_report (r : Report) : Prop :=
  Forall one_line [ir_ID (rp_IncidentRef r); ir_Window (rp_IncidentRef r); rp_Confidence r; rp_ReportHash r; rp_EvidenceFingerprint r] /\
  Forall (fun f => Forall one_line [fc_Service f; fc_Step f; fc_ErrorCode f]) (bs_TopErrorFamilies (rp_BlastSnapshot r)) /\
  match rp_SuspectChange r with Some sc => one_line_change sc | None => True end /\
  Forall (fun t => Forall one_line [ts_TraceID t; ts_Summary t]) (rp_SampleTraces r) /\
  Forall (fun a => Forall one_line [al_Severity a; al_Source a; al_Reason a; al_ProviderURL a; al_SignalID a; al_AlertID a]) (rp_Alerts r) /\
  Forall (fun x => Forall one_line [rt_Severity x; rt_Subtype x; rt_Service x; rt_Reason x; rt_Source x; rt_SignalID x]) (rp_Runtime r) /\
  Forall (fun s => Forall one_line (sg_Type s :: sg_ID s :: sg_EvidenceIDs s)) (rp_Signals r) /\
  Forall (fun c => Forall one_line [nc_Prompt c; nc_ID c]) (rp_NextChecks r).

Lemma Split_line a b : one_line a -> Split (a +:+ nl +:+ b) Eventlog.newline = a :: Split b Eventlog.newline.
Proof. exact (Split_cons a b Eventlog.newline). Qed.

Definition read_text (text : string) : list string * list (string * list string) := foldr read_line ([], []) (Split text Eventlog.newline).

Lemma read_bullet t rest : one_line t -> read_text (bullet t +:+ rest) = (t :: (read_text rest).1, (read_text rest).2).
Proof.
  intros Ht. unfold bullet, read_text. rewrite !string_app_assoc. rewrite <- (string_app_assoc "- " t), Split_line by exact Ht. simpl foldr.
  unfold read_line at 1. simpl. unfold HasPrefix. simpl. by destruct t.
Qed.

Lemma read_bullets texts rest : Forall one_line texts -> read_text (bullets texts +:+ rest) = (texts ++ (read_text rest).1, (read_text rest).2).
Proof.
  induction 1 as [|t texts Ht _ IH]; [change (bullets [] +:+ rest) with rest; by destruct (read_text rest)|]. simpl bullets. rewrite string_app_assoc, read_bullet by done. by rewrite IH.
Qed.

Lemma read_blank rest : read_text (nl +:+ rest) = read_text rest.
Proof. unfold read_text. change (nl +:+ rest) with ("" +:+ nl +:+ rest). by rewrite Split_line. Qed.

Lemma read_heading title rest : one_line title -> read_text (heading title +:+ rest) = ([], (title, (read_text rest).1) :: (read_text rest).2).
Proof.
  intros Ht. unfold heading. rewrite !string_app_assoc. rewrite <- (read_blank rest). unfold read_text.
  rewrite <- (string_app_assoc "## " title), Split_line by exact Ht. simpl foldr. unfold read_line at 1. simpl. unfold HasPrefix. simpl. by destruct title.
Qed.

(** Sections as text: read back, they are the sections. *)
Fixpoint text_of (sections : list (string * list string)) : string :=
  match sections with
  | [] => ""
  | [(title, lines)] => heading title +:+ bullets lines
  | (title, lines) :: sections => heading title +:+ bullets lines +:+ nl +:+ text_of sections
  end.

Lemma read_text_of sections : Forall (fun s => one_line s.1 /\ Forall one_line s.2) sections -> read_text (text_of sections) = ([], sections).
Proof.
  induction 1 as [|[title lines] sections [Ht Hl] _ IH]; [done|]. cbn [fst snd] in Ht, Hl. destruct sections as [|s sections].
  - cbn [text_of]. rewrite <- (string_app_nil_r (bullets lines)), read_heading, read_bullets by done.
    change (read_text "") with (@nil string, @nil (string * list string)). cbn [fst snd]. by rewrite app_nil_r.
  - change (text_of ((title, lines) :: s :: sections)) with (heading title +:+ bullets lines +:+ nl +:+ text_of (s :: sections)).
    rewrite read_heading, read_bullets, read_blank, IH by done. cbn [fst snd]. by rewrite app_nil_r.
Qed.

(** The texts put into a line leave it a line. *)
Lemma one_line_app a b : one_line a -> one_line b -> one_line (a +:+ b).
Proof. unfold one_line. intros Ha Hb. by rewrite has_byte_app, Ha, Hb. Qed.

Lemma one_line_digits s : all_digits s = true -> one_line s.
Proof. by apply all_digits_no_byte. Qed.

Lemma one_line_Itoa z : one_line (Itoa z).
Proof.
  destruct (Z_le_gt_dec 0 z) as [Hz|Hz]; [apply one_line_digits, Itoa_nonneg; lia|].
  destruct z as [|p|p]; [lia|lia|]. change (Itoa (Z.neg p)) with ("-" +:+ Itoa (Z.pos p)). apply one_line_app; [done|apply one_line_digits, Itoa_nonneg; lia].
Qed.

Lemma one_line_nz s : one_line s -> one_line (nz s).
Proof. unfold nz. by case_if. Qed.

Lemma one_line_code s : one_line s -> one_line (code s).
Proof. intros H. unfold code. repeat apply one_line_app; [done|by apply one_line_nz|done]. Qed.

Lemma one_line_Join sep l : one_line sep -> Forall one_line l -> one_line (Join sep l).
Proof. intros Hs. induction 1 as [|x l Hx Hl IH]; [done|]. destruct l; [done|]. by repeat apply one_line_app. Qed.

Lemma one_line_percent x : one_line (percent x).
Proof.
  unfold percent, FormatFixed1. generalize (fmul x (of_int 100)). intros y. apply one_line_app; [|done].
  destruct y as [[]|[]| |s m e]; try done. cbv zeta. repeat apply one_line_app; try apply one_line_Itoa; by destruct s.
Qed.

Lemma one_line_change_summary sc : one_line_change sc -> one_line (suspectSummary (Some sc)).
Proof.
  unfold one_line_change. rewrite !Forall_cons. intros (Hd & Hs & Hv & Hc & Hp & Ha & _). unfold suspectSummary.
  set (attrs := (_ ++ _ ++ _)%list). assert (one_line (Join ", " attrs)) as Hattrs.
  { apply one_line_Join; [done|]. unfold attrs. rewrite !Forall_app. repeat split; case_if; repeat constructor; by apply one_line_app. }
  set (s0 := if negb (String.eqb (sc_Version sc) "") then _ else _). assert (one_line s0) as H0.
  { unfold s0. case_if; repeat apply one_line_app; by try apply one_line_nz. }
  set (s1 := if nonempty attrs then _ else _). assert (one_line s1) as H1.
  { unfold s1. case_if; repeat apply one_line_app; done. }
  destruct (sc_ErrorRateBefore sc), (sc_ErrorRateAfter sc); try done. by repeat first [assumption | apply one_line_percent | apply one_line_app | reflexivity].
Qed.

(** [line_text] shows that a line built from texts without line breaks has none. *)
Ltac line_text :=
  first [ assumption | lazymatch goal with
  | |- Forall _ [] => apply Forall_nil_2
  | |- Forall _ (_ :: _) => apply Forall_cons_2; line_text
  | |- one_line (code _) => apply one_line_code; line_text
  | |- one_line (nz _) => apply one_line_nz; line_text
  | |- one_line (Itoa _) => apply one_line_Itoa
  | |- one_line (Join _ _) => apply one_line_Join; line_text
  | |- one_line (suspectSummary (Some _)) => apply one_line_change_summary; line_text
  | |- one_line (availability ?b) => by destruct b
  | |- one_line (_ +:+ _) => apply one_line_app; line_text
  | _ => reflexivity
  end ].

Lemma one_line_rows {A} none (row : A -> string) l : one_line none -> (forall x, x ∈ l -> one_line (row x)) -> Forall one_line (rows_or none row l).
Proof. intros Hn Hl. destruct l as [|x l]; [by constructor|]. unfold rows_or. apply Forall_fmap, Forall_forall. exact Hl. Qed.

Definition row_none (r : Report) : string := "not available " +:+ report_only r.

Definition report_sections (r : Report) : list (string * list string) :=
  [("Summary", summary_bullets r); ("Impact", impact_bullets r); ("Suspect Change", suspect_bullets r);
   ("First Failure And Traces", rows_or ("not available " +:+ both_refs r) (trace_bullet r) (rp_SampleTraces r));
   ("Alert Evidence", rows_or (row_none r) (alert_bullet r) (rp_Alerts r));
   ("Runtime Evidence", rows_or (row_none r) (runtime_bullet r) (rp_Runtime r));
   ("Signals", rows_or (row_none r) (signal_bullet r) (rp_Signals r));
   ("Next Checks", rows_or (row_none r) (check_bullet r) (rp_NextChecks r))].

Section Lines.
Variable r : Report.
Hypothesis Hr : one_line_report r.

Lemma incident_ref_line : one_line (incident_ref r).
Proof. destruct Hr as [H _]. rewrite !Forall_cons in H. destruct H as (? & _). unfold incident_ref. line_text. Qed.
Lemma report_ref_line : one_line (report_ref r).
Proof. destruct Hr as [H _]. rewrite !Forall_cons in H. destruct H as (_ & _ & _ & ? & _). unfold report_ref. line_text. Qed.
Lemma both_refs_line : one_line (both_refs r).
Proof. pose proof incident_ref_line. pose proof report_ref_line. unfold both_refs. line_text. Qed.
Lemma report_only_line : one_line (report_only r).
Proof. pose proof report_ref_line. unfold report_only. line_text. Qed.

Lemma rows_lines {A} (fields : A -> list string) none (row : A -> string) l :
  one_line none -> Forall (fun x => Forall one_line (fields x)) l ->
  (forall x, Forall one_line (fields x) -> one_line (row x)) -> Forall one_line (rows_or none row l).
Proof. intros Hn Hl Hrow. apply one_line_rows; [done|]. intros x Hx. apply Hrow. rewrite Forall_forall in Hl. by apply Hl. Qed.

Lemma report_lines :
  Forall one_line (summary_bullets r) /\ Forall one_line (impact_bullets r) /\ Forall one_line (suspect_bullets r) /\
  Forall one_line (rows_or ("not available " +:+ both_refs r) (trace_bullet r) (rp_SampleTraces r)) /\
  Forall one_line (rows_or (row_none r) (alert_bullet r) (rp_Alerts r)) /\
  Forall one_line (rows_or (row_none r) (runtime_bullet r) (rp_Runtime r)) /\
  Forall one_line (rows_or (row_none r) (signal_bullet r) (rp_Signals r)) /\
  Forall one_line (rows_or (row_none r) (check_bullet r) (rp_NextChecks r)).
Proof.
  pose proof incident_ref_line. pose proof report_ref_line. pose proof both_refs_line. pose proof report_only_line.
  destruct Hr as (Hown & Hfam & Hsc & Htr & Hal & Hrt & Hsg & Hnc). rewrite !Forall_cons in Hown. destruct Hown as (? & ? & ? & ? & ? & _).
  unfold row_none. split_and!.
  - unfold summary_bullets. line_text.
  - unfold impact_bullets. apply Forall_app. split; [line_text|].
    refine (rows_lines _ _ _ _ _ Hfam _); [line_text|]. intros f. rewrite !Forall_cons. intros (? & ? & ? & _). unfold family_bullet. line_text.
  - unfold suspect_bullets. destruct (rp_SuspectChange r) as [sc|]; [|line_text].
    pose proof Hsc as Hd. unfold one_line_change in Hd. rewrite !Forall_cons in Hd. destruct Hd as (? & _). line_text.
  - refine (rows_lines _ _ _ _ _ Htr _); [line_text|]. intros x. rewrite !Forall_cons. intros (? & ? & _). unfold trace_bullet. line_text.
  - refine (rows_lines _ _ _ _ _ Hal _); [line_text|]. intros x. rewrite !Forall_cons. intros (? & ? & ? & ? & ? & ? & _). unfold alert_bullet. line_text.
  - refine (rows_lines _ _ _ _ _ Hrt _); [line_text|]. intros x. rewrite !Forall_cons. intros (? & ? & ? & ? & ? & ? & _). unfold runtime_bullet. line_text.
  - refine (rows_lines _ _ _ _ _ Hsg _); [line_text|]. intros x. rewrite !Forall_cons. intros (? & ? & ?). unfold signal_bullet. line_text.
  - refine (rows_lines _ _ _ _ _ Hnc _); [line_text|]. intros x. rewrite !Forall_cons. intros (? & ? & _). unfold check_bullet. line_text.
Qed.

(** What the reader of lines finds. *)
Lemma read_Markdown : read_sections (Markdown r) = report_sections r.
Proof.
  destruct report_lines as (H1 & H2 & H3 & H4 & H5 & H6 & H7 & H8).
  assert (forall rest, read_text ("# Waylog Operator Report" +:+ nl +:+ nl +:+ rest) = read_text rest) as Htop.
  { intros rest. rewrite <- (read_blank rest) at 1. unfold read_text. by rewrite Split_line. }
  change (read_sections (Markdown r)) with (read_text ("# Waylog Operator Report" +:+ nl +:+ nl +:+ text_of (report_sections r))).2.
  rewrite Htop, read_text_of; [done|]. by repeat apply Forall_cons_2; try apply Forall_nil_2.
Qed.
End Lines.

(** ** What the lines say *)

Lemma Contains_left a b t : Contains a t = true -> Contains (a +:+ b) t = true.
Proof.
  revert b. induction a as [|c a IH]; intros b H.
  - destruct t; [|done]. by destruct b.
  - rewrite string_app_cons. cbn [Contains] in *. apply orb_true_iff in H as [H|H]; apply orb_true_iff; [left|right; by apply IH].
    apply (HasPrefix_elim (String c a) t) in H. change (HasPrefix (String c a +:+ b) t = true). rewrite H, string_app_assoc. apply HasPrefix_app.
Qed.

Lemma Contains_skip a b t : Contains b t = true -> Contains (a +:+ b) t = true.
Proof. intros H. induction a as [|c a IH]; [done|]. rewrite string_app_cons. cbn [Contains]. rewrite IH. apply orb_true_r. Qed.

Lemma Contains_refl t : Contains t t = true.
Proof. apply HasPrefix_Contains. rewrite <- (string_app_nil_r t) at 1. apply HasPrefix_app. Qed.

(** [find_text] finds a text among the pieces of a line. *)
Ltac find_text :=
  lazymatch goal with
  | |- Contains ?a ?t = true =>
    tryif constr_eq a t then apply Contains_refl else
    lazymatch a with
    | ?x +:+ ?y => first [apply (Contains_left x y t); find_text | apply (Contains_skip x y t); find_text]
    end
  end.

Lemma bullets_contain l b t : b ∈ l -> Contains b t = true -> Contains (bullets l) t = true.
Proof.
  intros Hb Ht. induction l as [|x l IH]; [by apply elem_of_nil in Hb|]. simpl bullets. apply elem_of_cons in Hb as [<-|Hb].
  - apply Contains_left. unfold bullet. apply Contains_skip. by apply Contains_left.
  - apply Contains_skip. by apply IH.
Qed.

(** Lines that say of each item the texts it has, or that there is none. *)
Definition shows {A} (lines : list string) (items : list A) (texts : A -> list string) : Prop :=
  match items with
  | [] => exists line, lines = [line] /\ Contains line "not available" = true
  | _ => Forall2 (fun line x => Forall (fun t => Contains line (nz t) = true) (texts x)) lines items
  end.

Lemma rows_or_shows {A} none (row : A -> string) l texts : Contains none "not available" = true ->
  (forall x, Forall (fun t => Contains (row x) (nz t) = true) (texts x)) -> shows (rows_or none row l) l texts.
Proof.
  intros Hn Hrow. destruct l as [|x l]; [by exists none|]. unfold shows, rows_or. apply Forall2_fmap_l, Forall2_same_length_lookup.
  split; [done|]. intros i a b Ha Hb. rewrite Ha in Hb. injection Hb as <-. apply Hrow.
Qed.

(** A line refers to the incident or to the report. *)
Definition refers (r : Report) (line : string) : Prop := Contains line (incident_ref r) = true \/ Contains line (report_ref r) = true.

Lemma rows_refer {A} r none (row : A -> string) l : refers r none -> (forall x, refers r (row x)) -> Forall (refers r) (rows_or none row l).
Proof. intros Hn Hrow. destruct l as [|x l]; [by constructor|]. unfold rows_or. apply Forall_fmap, Forall_forall. intros y _. apply Hrow. Qed.

Ltac refer := unfold refers, both_refs, report_only; first [left; find_text | right; find_text].

Definition all_lines (sections : list (string * list string)) : list string := concat sections.*2.

(** Each row shows its texts. *)
Lemma evidence_rows r :
  shows (suspect_bullets r) (option_list (rp_SuspectChange r)) (fun sc => [sc_DeployID sc]) /\
  shows (rows_or ("not available " +:+ both_refs r) (trace_bullet r) (rp_SampleTraces r)) (rp_SampleTraces r) (fun t => [ts_TraceID t; ts_Summary t]) /\
  shows (rows_or (row_none r) (alert_bullet r) (rp_Alerts r)) (rp_Alerts r)
    (fun a => [al_Severity a; al_Source a; al_Reason a; al_ProviderURL a; al_SignalID a; al_AlertID a]) /\
  shows (rows_or (row_none r) (runtime_bullet r) (rp_Runtime r)) (rp_Runtime r)
    (fun x => [rt_Severity x; rt_Subtype x; rt_Service x; rt_Reason x; rt_Source x; rt_SignalID x]) /\
  shows (rows_or (row_none r) (signal_bullet r) (rp_Signals r)) (rp_Signals r) (fun s => [sg_Type s; sg_ID s]) /\
  shows (rows_or (row_none r) (check_bullet r) (rp_NextChecks r)) (rp_NextChecks r) (fun c => [nc_Prompt c; nc_ID c]).
Proof.
  unfold row_none. split_and!; try (apply rows_or_shows; [reflexivity|]; intros x;
    unfold trace_bullet, alert_bullet, runtime_bullet, signal_bullet, check_bullet, code; repeat apply Forall_cons_2; try apply Forall_nil_2; cbv beta; find_text).
  unfold suspect_bullets. destruct (rp_SuspectChange r) as [sc|]; [|exists ("not available " +:+ both_refs r); by split].
  apply Forall2_cons_2; [|apply Forall2_nil_2]. apply Forall_cons_2; [|apply Forall_nil_2]. unfold code. find_text.
Qed.

Lemma summary_refers r : Forall (fun line => refers r line \/ Contains line (code (rp_EvidenceFingerprint r)) = true) (summary_bullets r).
Proof.
  unfold summary_bullets, refers, both_refs, report_only. repeat apply Forall_cons_2; try apply Forall_nil_2; cbv beta;
    first [right; find_text | left; right; find_text | left; left; find_text].
Qed.

Lemma other_lines_refer r : Forall (refers r) (concat (drop 1 (report_sections r)).*2).
Proof.
  unfold report_sections. cbn [drop fmap list_fmap snd concat]. rewrite !Forall_app. unfold row_none. split_and!; [| | | | | | |apply Forall_nil_2].
  - unfold impact_bullets. apply Forall_app. split; [repeat apply Forall_cons_2; try apply Forall_nil_2; refer|].
    apply rows_refer; [refer|intros x; unfold family_bullet; refer].
  - unfold suspect_bullets. destruct (rp_SuspectChange r); (apply Forall_cons_2; [refer|apply Forall_nil_2]).
  - apply rows_refer; [refer|intros x; unfold trace_bullet; refer].
  - apply rows_refer; [refer|intros x; unfold alert_bullet; refer].
  - apply rows_refer; [refer|intros x; unfold runtime_bullet; refer].
  - apply rows_refer; [refer|intros x; unfold signal_bullet; refer].
  - apply rows_refer; [refer|intros x; unfold check_bullet; refer].
Qed.

Lemma shows_elem {A} lines (items : list A) texts x t : shows lines items texts -> x ∈ items -> t ∈ texts x ->
  exists line, line ∈ lines /\ Contains line (nz t) = true.
Proof.
  intros H Hx Ht. unfold shows in H. destruct items as [|y items]; [by apply elem_of_nil in Hx|].
  apply list_elem_of_lookup in Hx as [i Hx]. destruct (Forall2_lookup_r _ _ _ _ _ H Hx) as (line & Hl & Hall).
  exists line. split; [by eapply list_elem_of_lookup_2|]. rewrite Forall_forall in Hall. by apply Hall.
Qed.

(** Whatever the evidence fingerprint of a report covers is on some line. *)
Lemma cited_shown r kind id : cites r kind id -> exists line, line ∈ concat (report_sections r).*2 /\ Contains line (nz id) = true.
Proof.
  destruct (evidence_rows r) as (Hsc & Htr & Hal & Hrt & Hsg & _). unfold report_sections. cbn [fmap list_fmap snd concat].
  setoid_rewrite elem_of_app. setoid_rewrite elem_of_app. setoid_rewrite elem_of_app. setoid_rewrite elem_of_app. setoid_rewrite elem_of_app.
  setoid_rewrite elem_of_app. setoid_rewrite elem_of_app. intros [|sc E|x Hx|x Hx|x Hx|x Hx].
  - eexists. split; [left; left|]. unfold code. find_text.
  - rewrite E in Hsc. destruct (shows_elem _ _ _ sc (sc_DeployID sc) Hsc) as (l & ? & ?); [by left|by left|]. eauto 10.
  - destruct (shows_elem _ _ _ x (sg_ID x) Hsg) as (l & ? & ?); [done|right; by left|]. eauto 15.
  - destruct (shows_elem _ _ _ x (al_SignalID x) Hal) as (l & ? & ?); [done|do 4 right; by left|]. eauto 15.
  - destruct (shows_elem _ _ _ x (rt_SignalID x) Hrt) as (l & ? & ?); [done|do 5 right; by left|]. eauto 15.
  - destruct (shows_elem _ _ _ x (ts_TraceID x) Htr) as (l & ? & ?); [done|by left|]. eauto 15.
Qed.

(** The operator report can be read back.  When no text of a report has a line break,
    its Markdown form read line by line is eight sections in order: five lines of summary,
    the three counts and then one line for each error family, the suspect change, and one
    line for each sample trace, alert, runtime row, signal and next check, each with the
    texts of its row, or one line that says there is none.  Every line refers to the
    incident or to the report by its hash, but for the one with the evidence fingerprint;
    and all that the fingerprint covers is on some line. *)
Theorem markdown_reads_back (r : Report) : one_line_report r ->
  exists summary counts families change traces alerts runtime signals checks,
    read_sections (Markdown r) =
      [("Summary", summary); ("Impact", counts ++ families); ("Suspect Change", change); ("First Failure And Traces", traces);
       ("Alert Evidence", alerts); ("Runtime Evidence", runtime); ("Signals", signals); ("Next Checks", checks)] /\
    length summary = 5%nat /\
    Forall2 (fun line n => Contains line (Itoa n) = true) counts
      [bs_Requests (rp_BlastSnapshot r); bs_Users (rp_BlastSnapshot r); bs_Services (rp_BlastSnapshot r)] /\
    shows families (bs_TopErrorFamilies (rp_BlastSnapshot r)) (fun f => [fc_Service f; fc_Step f; fc_ErrorCode f]) /\
    shows change (option_list (rp_SuspectChange r)) (fun sc => [sc_DeployID sc]) /\
    shows traces (rp_SampleTraces r) (fun t => [ts_TraceID t; ts_Summary t]) /\
    shows alerts (rp_Alerts r) (fun a => [al_Severity a; al_Source a; al_Reason a; al_ProviderURL a; al_SignalID a; al_AlertID a]) /\
    shows runtime (rp_Runtime r) (fun x => [rt_Severity x; rt_Subtype x; rt_Service x; rt_Reason x; rt_Source x; rt_SignalID x]) /\
    shows signals (rp_Signals r) (fun s => [sg_Type s; sg_ID s]) /\
    shows checks (rp_NextChecks r) (fun c => [nc_Prompt c; nc_ID c]) /\
    Forall (fun line => refers r line \/ Contains line (code (rp_EvidenceFingerprint r)) = true) (concat (read_sections (Markdown r)).*2) /\
    (forall kind id, cites r kind id -> exists line, line ∈ concat (read_sections (Markdown r)).*2 /\ Contains line (nz id) = true).
Proof.
  intros Hr. rewrite (read_Markdown r Hr). destruct (evidence_rows r) as (Hsc & Htr & Hal & Hrt & Hsg & Hnc).
  exists (summary_bullets r). do 8 eexists. split; [reflexivity|]. split; [reflexivity|].
  split; [|split; [apply rows_or_shows; [reflexivity|]|split; [exact Hsc|split; [exact Htr|split; [exact Hal|split; [exact Hrt|split; [exact Hsg|split; [exact Hnc|split]]]]]]]].
  - unfold impact_bullets. repeat apply Forall2_cons_2; try apply Forall2_nil_2; find_text.
  - intros f. repeat apply Forall_cons_2; try apply Forall_nil_2; cbv beta; unfold family_bullet; find_text.
  - pose proof (other_lines_refer r) as Ho. change (concat (report_sections r).*2) with (summary_bullets r ++ concat (drop 1 (report_sections r)).*2).
    apply Forall_app. split; [apply summary_refers|]. eapply Forall_impl; [exact Ho|]. auto.
  - apply cited_shown.
Qed.

(** ** One report on every surface *)

Lemma has_byte_rev c s : has_byte c (String.rev s) = has_byte c s.
Proof. induction s as [|d s IH]; [done|]. rewrite rev_cons, has_byte_app, IH. simpl. by rewrite orb_false_r, orb_comm. Qed.

Lemma trim_left_plain n c s : Ascii.eqb c "/" = false -> trim_left n ["/"] (String c s) = String c s.
Proof. intros Hc. apply trim_left_stop. cbn [List.find]. unfold HasPrefix. cbn [String.prefix]. destruct (ascii_dec "/" c) as [<-|]; [done|reflexivity]. Qed.

(** A text that ends in something without a slash keeps its slashes. *)
Lemma trim_slashes_plain a b : b <> "" -> has_byte "/" b = false -> trim_slashes (a +:+ b) = a +:+ b.
Proof.
  intros Hb Hs. unfold trim_slashes. rewrite rev_string_app. rewrite <- has_byte_rev in Hs.
  destruct (String.rev b) as [|c l] eqn:E; [apply (f_equal String.rev) in E; rewrite rev_involutive in E; done|].
  cbn [has_byte] in Hs. apply orb_false_iff in Hs as [Hc _]. rewrite string_app_cons, trim_left_plain, <- string_app_cons, <- E by done.
  by rewrite <- rev_string_app, rev_involutive.
Qed.

Lemma Contains_byte s c : Contains s (String c "") = has_byte c s.
Proof.
  induction s as [|d s IH]; [done|]. cbn [Contains has_byte]. rewrite IH. f_equal. cbn [String.prefix].
  destruct (ascii_dec c d) as [->|H]; [rewrite Ascii.eqb_refl; by destruct s|]. symmetry. apply Ascii.eqb_neq. congruence.
Qed.

(** An id the paths can carry: not empty, without slash, and not the last word of the other path. *)
Definition path_id (id : string) : Prop := id <> "" /\ has_byte "/" id = false /\ id <> "report".

Lemma incidentIDFromPath_id id : path_id id -> incidentIDFromPath (triage_prefix +:+ id) = id.
Proof.
  intros (Hid & Hs & _). unfold incidentIDFromPath, TrimPrefix. rewrite HasPrefix_app, drop_bytes_app. unfold trim_both.
  assert (trim_left (String.length id) ["/"] id = id) as ->.
  { destruct id as [|c s]; [done|]. cbn [has_byte] in Hs. apply orb_false_iff in Hs as [Hc _]. by apply trim_left_plain. }
  change (trim_slashes id) with (trim_slashes ("" +:+ id)). rewrite trim_slashes_plain by done. change ("" +:+ id) with id. by rewrite Contains_byte, Hs.
Qed.

Lemma triage_path id : path_id id -> HasSuffix (trim_slashes (triage_prefix +:+ id)) "/report" = false.
Proof.
  intros (Hid & Hs & Hn). rewrite trim_slashes_plain by done. destruct (HasSuffix _ _) eqn:E; [|done]. exfalso. apply Hn.
  unfold HasSuffix in E. apply HasPrefix_elim in E. rewrite rev_string_app in E.
  change (String.rev triage_prefix) with (String "/" "egairt/1v/") in E.
  change (String.rev "/report" +:+ ?x) with ("troper" +:+ String "/" x) in E.
  apply cut_unique in E as [E _]; [|by rewrite has_byte_rev|done]. by rewrite <- (rev_involutive id), E.
Qed.

Lemma report_path id : let path := triage_prefix +:+ id +:+ "/report" in
  HasSuffix (trim_slashes path) "/report" = true /\ trim_suffix (trim_slashes path) "/report" = triage_prefix +:+ id.
Proof.
  cbv zeta. assert (trim_slashes (triage_prefix +:+ id +:+ "/report") = (triage_prefix +:+ id) +:+ "/report") as ->.
  { rewrite <- string_app_assoc. change "/report" with ("/" +:+ "report"). rewrite <- string_app_assoc. by apply trim_slashes_plain. }
  split; [apply HasSuffix_app|apply trim_suffix_app].
Qed.

Section Surfaces.
Context `{TJ : ToolJson} `{RT : ReportText} `{RJ : ReportJson}.

Lemma options_cases window : (forall t, ParseBuildOptions window true t = None) \/
  exists d, forall t, ParseBuildOptions window true t = Some (mkBuildOptions d true t).
Proof. unfold ParseBuildOptions. case_if; [by eauto|]. destruct (ParseDuration window); [right|left]; by eauto. Qed.

Lemma text_shows_hash format r : format ∈ [""; FormatMarkdown; FormatPagerDuty] ->
  exists content_type body, render_answer format r = TriageText content_type body /\ Contains body (nz (rp_ReportHash r)) = true.
Proof.
  assert (Contains (Markdown r) (nz (rp_ReportHash r)) = true) as Hm.
  { unfold Markdown. do 4 apply Contains_skip. apply Contains_left.
    apply (bullets_contain _ _ _ (list_elem_of_here _ _)). unfold report_only, report_ref, code. find_text. }
  assert (Contains (PagerDuty r) (nz (rp_ReportHash r)) = true) as Hp by (unfold PagerDuty; find_text).
  rewrite !elem_of_cons. intros [->|[->|[->|H]]]; [by eexists _, _; split; [reflexivity|]..|by apply elem_of_nil in H].
Qed.

(** C16: Every surface tells the same report.  Asked over the same stores for a snapshot of
    one incident with one window, whatever the clocks say, the report endpoint, the text
    endpoint and the two agent tools agree: if one is refused, the other endpoint gives the
    same answer and both tools fail with one text; otherwise the four reports are equal in
    every field but the time they were made, so they have one hash and one fingerprint, and
    the text forms show that hash.  The incident ID is not empty, has no slash and is
    not the word the text endpoint ends with, and the tools' parameters decode to it with
    that window and the snapshot flag. *)
Theorem surfaces_agree {W : Type} (e : Triage.Engine) (id window format : string) (g1 g2 g3 g4 t1 t2 t3 t4 : Time) (w : W) (p3 p4 : string) :
  path_id id -> decode_triage p3 = inl (mkTriageParams id window true) -> decode_report p4 = inl (mkTriageParams id window true, format) ->
  let get path := mkTriageRequest "GET" path window "true" format in
  let rest := Triage_ (Build e g1) t1 (get (triage_prefix +:+ id)) in
  let text := Triage_ (Build e g2) t2 (get (triage_prefix +:+ id +:+ "/report")) in
  let tool := (triage_incident (fun _ => Build e g3) t3 w p3).2 in
  let render := (render_triage_report (fun _ => Build e g4) t4 w p4).2 in
  match rest with
  | TriageJson r1 => exists r2 r3 r4, same_report r1 r2 /\ same_report r1 r3 /\ same_report r1 r4 /\
      text = render_answer format r2 /\ tool = Returned (report_value r3) /\
      render = match Render (Some r4) format with inl err => fail err | inr d => Returned (rendered_value d) end /\
      (format ∈ [""; FormatMarkdown; FormatPagerDuty] -> exists content_type body,
         text = TriageText content_type body /\ Contains body (nz (rp_ReportHash r1)) = true)
  | TriageRefused _ _ _ => text = rest /\ exists err, tool = fail err /\ render = fail err
  | TriageText _ _ => False
  end.
Proof.
  intros Hid H3 H4 get rest text tool render. subst rest text tool render.
  unfold Triage_, Report_, get, triage_incident, with_report, render_triage_report. cbn [tq_Path tq_Format tq_Window tq_Snapshot snd].
  rewrite (triage_path id Hid). destruct (report_path id) as [-> ->]. unfold with_built. cbn [tq_Method tq_Window tq_Snapshot negb String.eqb Ascii.eqb Bool.eqb].
  rewrite incidentIDFromPath_id, H3, H4 by done. cbn [tp_IncidentID tp_Window tp_Snapshot].
  assert (String.eqb id "" = false) as -> by (apply String.eqb_neq; apply Hid).
  destruct (options_cases window) as [Hw|[d Hw]]; rewrite !Hw; [by eauto|].
  pose proof (fun g t => snapshot_reproducible e id g1 g (mkBuildOptions d true t1) (mkBuildOptions d true t) eq_refl eq_refl eq_refl) as Hb.
  pose proof (Hb g2 t2) as H2. pose proof (Hb g3 t3) as Hb3. pose proof (Hb g4 t4) as Hb4. clear Hb.
  destruct (Build e g1 id _) as [err|r1], (Build e g2 id _) as [e2|r2], (Build e g3 id _) as [e3|r3], (Build e g4 id _) as [e4|r4]; try done.
  - subst e2 e3 e4. destruct err; by eauto.
  - exists r2, r3, r4. split_and!; try done. intros Hf. assert (rp_ReportHash r1 = rp_ReportHash r2) as -> by by rewrite H2.
    by apply text_shows_hash.
Qed.
End Surfaces.

(** ** Examples *)

Definition demo_report (reason : string) : Report :=
  mkReport SchemaVersionV1 (mkIncidentRef "inc_1" "15m0s") (mkBlastSummary 12 3 2 [mkFamilyCount "api" "charge" "E42" 7]) ""
    (Some (mkSuspectChange "dep_9" "api" "v2" "" "" "ann" "" (Some (flit 1 8)) (Some (flit 1 2))))
    [mkTraceSample "t1" "api failed"] [mkSignalRef "sig_1" "alert" ["e1"; "e2"]]
    [mkAlertRef "sig_1" "al_7" "grafana" "critical" reason "" []] [] [mkNextCheck "c1" "Roll back dep_9"] ConfidenceHigh "" "" "sha256:ab" "sha256:cd".

Example PagerDuty_ex : Contains (PagerDuty (demo_report "5xx")) "suspect_change=api v2 (by ann); err 12.5% -> 50.0% alert=grafana alert al_7 via signal sig_1 provider=not available" = true.
Proof. vm_compute. reflexivity. Qed.

Lemma markdown_reads_back_witness : one_line_report (demo_report "5xx") /\
  exists sections, read_sections (Markdown (demo_report "5xx")) = sections /\ sections.*1 =
    ["Summary"; "Impact"; "Suspect Change"; "First Failure And Traces"; "Alert Evidence"; "Runtime Evidence"; "Signals"; "Next Checks"] /\
    exists line, line ∈ concat sections.*2 /\ Contains line "dep_9" = true.
Proof.
  assert (one_line_report (demo_report "5xx")) as H by by_decide. split; [exact H|].
  destruct (markdown_reads_back (demo_report "5xx") H) as (? & ? & ? & ? & ? & ? & ? & ? & ? & E & _ & _ & _ & _ & _ & _ & _ & _ & _ & _ & Hc).
  eexists. split; [reflexivity|]. split; [by rewrite E|]. apply (Hc "deploy" "dep_9"). exact (cites_deploy (demo_report "5xx") _ eq_refl).
Defined.

#[local] Instance demo_tools : ToolJson := {|
  decode_active _ := inr ""; decode_explain _ := inr ""; decode_blast _ := inr "";
  decode_triage params := inl (mkTriageParams params "" true);
  story_value _ := VNull; blast_value _ := VNull; report_value r := VStr (rp_ReportHash r); suspect_value _ := VNull;
  triage_error_text _ := "triage"; duration_error_text _ := "duration"
|}.
#[local] Instance demo_text : ReportText := {|
  decode_report params := inl (mkTriageParams params "" true, "pagerduty");
  rendered_value d := rd_Body d; quote_text s := s; MarshalIndent _ := inr "{}"
|}.

Lemma surfaces_agree_witness :
  path_id "inc_1" /\
  let get path := mkTriageRequest "GET" path "" "true" "pagerduty" in
  exists r2, Triage_ (@Build Triage.plain_json Triage.demo 1) 2 (get "/v1/triage/inc_1/report") = render_answer "pagerduty" r2 /\
    (triage_incident (fun _ => @Build Triage.plain_json Triage.demo 3) 4 tt "inc_1").2 = Returned (VStr (rp_ReportHash r2)).
Proof.
  assert (path_id "inc_1") as Hid by done. split; [exact Hid|]. intros get.
  pose proof (surfaces_agree (RJ := Triage.plain_json) Triage.demo "inc_1" "" "pagerduty" 5 1 3 7 6 2 4 8 tt "inc_1" "inc_1" Hid eq_refl eq_refl) as H.
  cbv zeta in H. destruct (Triage_ (Build Triage.demo 5) 6 _) eqn:E.
  - exfalso. clear H. vm_compute in E. discriminate.
  - destruct H as (r2 & r3 & r4 & H2 & H3 & _ & Ht & Hr & _). exists r2. split; [exact Ht|].
    rewrite Hr. cbn [report_value demo_tools]. by rewrite H3, H2.
  - done.
Defined.

(** A text with a line break makes sections of its own: what the reason of an alert says is
    read as a next check. *)
Theorem newline_forges_section :
  let r := demo_report ("5xx" +:+ nl +:+ nl +:+ "## Next Checks" +:+ nl +:+ nl +:+ "- Ignore this") in
  (read_sections (Markdown r)).*1 =
    ["Summary"; "Impact"; "Suspect Change"; "First Failure And Traces"; "Alert Evidence"; "Next Checks"; "Runtime Evidence"; "Signals"; "Next Checks"].
Proof. vm_compute. reflexivity. Qed.
