(* ===== verification/DeployHttp.v ===== *)
(** The deployment endpoints and the insight of the first-generation server
    ([internal/ingest/deploy_webhook.go], [handler.go]; [internal/detect/insight.go];
    the projection in [cmd/ingest/main.go]).  Decoding of the body and the JSON of a row of
    the list are parameters, metrics are left out. *)

From S2P Require Import Prelude GoRuntime GoFloat GoText IngestHttp Registry RateLimit Idempotency Server Types Incident Detect GoTime SqlText WideEvent ColdWriter Engine EngineSpec DeployTable.
Open Scope Z_scope.

(** ** Posting a deployment *)

Record deployRequest := mkDeployRequest {
  dq_ID : string; dq_Service : string; dq_Version : string; dq_Env : string; dq_Metadata : gmap string string;
  dq_CommitSHA : string; dq_PRURL : string; dq_CommitAuthor : string
}.

Record deployResponse := mkDeployResponse {
  ds_Deployment : Deployment;
  ds_ErrorRateChange : option float64; ds_BeforeErrorRate : option float64; ds_AfterErrorRate : option float64;
  ds_BeforeRequests : Z; ds_AfterRequests : Z
}.

Definition deployment_at (now : Time) (req : deployRequest) : Deployment :=
  mkDeployment (dq_ID req) (dq_Service req) (dq_Version req) (dq_Env req) now now (dq_Metadata req)
    (TrimSpace (dq_CommitSHA req)) (TrimSpace (dq_PRURL req)) (TrimSpace (dq_CommitAuthor req)).

(** An answer, a status without a body, or an error of [http.Error]. *)
Inductive plain_answer (A : Type) := Answered (a : A) | StatusOnly (status : Z) | PlainError (status : Z) (msg : string).
Arguments Answered {A} _.
Arguments StatusOnly {A} _.
Arguments PlainError {A} _ _.

Definition parseLooseDuration (v : string) (def : Duration) : Duration :=
  if String.eqb v "" then def else match ParseDuration v with Some d => if 0 <? d then d else def | None => def end.

Section DeployHttp.
Context {MJ : MetaJson}.
Variable ParseMedia : string -> option (string * gmap string string).
(** [json.Decoder.Decode] of one value from a body. *)
Variable DecodeDeploy : reader -> option deployRequest.
Variable deploy_value : deployResponse -> value.

Definition unavailable (r : ApiRequest) : Response :=
  respondError ParseMedia r 503 "COLD_STORE_UNAVAILABLE" "cold store not configured" false (plain_meta r).

(** The store is absent when the table is; [maxBodyBytes] is the server's. *)
Definition DeployWebhook (o : tx_outcome) (now : Time) (maxBodyBytes : Z) (r : ApiRequest) (t : option (gmap string deploy_row)) : option (gmap string deploy_row) * Response :=
  let refuse status code msg retryable := respondError ParseMedia r status code msg retryable (plain_meta r) in
  match t with
  | None => (t, unavailable r)
  | Some table =>
    let maxBody := if maxBodyBytes =? 0 then 2 ^ 20 else maxBodyBytes in
    match DecodeDeploy (MaxBytesReader (aq_Body r) maxBody) with
    | None => (t, refuse 400 "INVALID_JSON" "invalid json" false)
    | Some req =>
      if String.eqb (dq_ID req) "" || String.eqb (dq_Service req) "" || String.eqb (dq_Env req) ""
      then (t, refuse 400 "MISSING_FIELDS" "id, service, and env are required" false) else
      let '(table, err) := UpsertDeployment o table (deployment_at now req) in
      (Some table,
       match err with
       | Some ErrEnvConflict => refuse 409 "ENV_CONFLICT" "deployment env conflict" false
       | Some ErrSQL => refuse 500 "UPSERT_FAILED" "failed to upsert deployment" true
       | None =>
         let data := Some (VMap (Some {["id" := VStr (dq_ID req)]})) in
         if wantsEnvelope ParseMedia r then writeJSON 201 data (plain_meta r) None else mkResponse 201 json_header (JsonBody data)
       end)
    end
  end.

(** ** Listing deployments *)

(** [rates] says of each deployment listed whether its two rate queries succeed. *)
Definition deploymentsPayload (it : MapIter) (ok : bool) (rates : nat -> bool * bool) (t : (gmap string deploy_row)) (events : event_table)
    (start_ now : Time) (service : string) : option (list deployResponse) :=
  deps ← DeploymentsInWindow it ok t start_ now service;
  Some (imap (fun i d =>
    let delta := (DeployErrorRateDelta (rates i).1 (rates i).2 events (dep_Service d) (dep_FirstSeen d)).1 in
    mkDeployResponse d (dd_Ratio delta) (dd_BeforeRate delta) (dd_AfterRate delta) (dd_BeforeRequests delta) (dd_AfterRequests delta)) deps).

Definition listing_window (v : string) : Duration := Z.min (parseLooseDuration v Hour) (24 * Hour).

Definition Deployments (it : MapIter) (ok : bool) (rates : nat -> bool * bool) (now : Time) (window service : string) (r : ApiRequest)
    (t : option (gmap string deploy_row)) (events : event_table) : Response :=
  match t with
  | None => unavailable r
  | Some table =>
    match deploymentsPayload it ok rates table events (TimeAdd now (- listing_window window)) now service with
    | None => respondError ParseMedia r 500 "QUERY_FAILED" "failed to query deployments" true (plain_meta r)
    | Some out => respondData ParseMedia r (Some (VMap (Some {["deployments" := VList (deploy_value <$> out)]}))) (plain_meta r)
    end
  end.

Example listing_window_ex : listing_window <$> [""; "30m"; "-5m"; "48h"; "soon"] = [Hour; 30 * Minute; Hour; 24 * Hour; Hour].
Proof. vm_compute. reflexivity. Qed.

(** [DeployRoute]: by method. *)
Definition DeployRoute (o : tx_outcome) (it : MapIter) (ok : bool) (rates : nat -> bool * bool) (now : Time) (maxBodyBytes : Z) (window service : string)
    (r : ApiRequest) (t : option (gmap string deploy_row)) (events : event_table) : option (gmap string deploy_row) * plain_answer Response :=
  let method := rq_Method (aq_http r) in
  if String.eqb method "POST" then let '(t, resp) := DeployWebhook o now maxBodyBytes r t in (t, Answered resp)
  else if String.eqb method "GET" then (t, Answered (Deployments it ok rates now window service r t events))
  else if String.eqb method "OPTIONS" then (t, StatusOnly 204)
  else (t, PlainError 405 "method not allowed").

(** ** What is posted is stored and listed *)

(** A table as the upserts of deployments leave it. *)
Definition deploy_rows (t : gmap string deploy_row) : Prop :=
  forall id r, t !! id = Some r -> exists x, r = deploy_columns x /\ holdable x /\ dep_ID x = id.

Lemma upsert_rows o t d t' : deploy_rows t -> holdable d -> UpsertDeployment o t d = (t', None) ->
  exists x, t' = <[dep_ID d := deploy_columns x]> t /\ holdable x /\ dep_ID x = dep_ID d /\ dep_Env x = dep_Env d /\
    dep_FirstSeen x <= dep_FirstSeen d /\ dep_LastSeen d <= dep_LastSeen x /\ (t !! dep_ID d = None -> x = d).
Proof.
  intros Ht Hd Hu. apply upsert_accepted in Hu as [-> Henv]. destruct (t !! dep_ID d) as [old|] eqn:Eo.
  - destruct (Ht _ _ Eo) as (x & -> & Hx & Hid). exists (merge_deployment x d). rewrite merge_columns by done.
    split; [done|]. split; [by apply merge_holdable|]. split; [done|]. split; [by apply (Henv _ eq_refl)|]. cbn. split; [lia|]. split; [lia|done].
  - exists d. by split_and!.
Qed.

(** A deployment is stored when the answer is 201 and only then.  It then has the id and the
    environment that were posted, and was seen now; and every listing whose window reaches
    back to when it was first seen shows it, whether or not its rates can be computed. *)
Theorem posted_deployment (o : tx_outcome) (now : Time) (maxBody : Z) (r : ApiRequest) (t : gmap string deploy_row) t' (resp : Response) :
  deploy_rows t -> four_digit_years now ->
  (forall b req, DecodeDeploy b = Some req -> dq_Metadata req <> ∅ -> meta_stable (dq_Metadata req)) ->
  DeployWebhook o now maxBody r (Some t) = (t', resp) ->
  if rp_Status resp =? 201 then
    exists table req x, t' = Some table /\ deploy_rows table /\ dq_ID req <> "" /\ DeploymentByID true table (dq_ID req) = Some (Some x) /\
      dep_ID x = dq_ID req /\ dep_Env x = dq_Env req /\ dep_FirstSeen x <= now <= dep_LastSeen x /\
      (t !! dq_ID req = None -> x = deployment_at now req) /\
      forall it rates later window events, now <= later -> four_digit_years later -> four_digit_years (later - listing_window window) ->
        later - listing_window window <= dep_FirstSeen x ->
        exists out, deploymentsPayload it true rates table events (TimeAdd later (- listing_window window)) later "" = Some out /\
          x ∈ ds_Deployment <$> out
  else t' = Some t.
Proof.
  intros Ht Hn Hmeta Hw. unfold DeployWebhook in Hw. cbv zeta in Hw.
  assert (forall st code msg b m, rp_Status (respondError ParseMedia r st code msg b m) = st) as Hst by (intros; unfold respondError; by case_if).
  destruct (DecodeDeploy _) as [req|] eqn:Ed; [|injection Hw as <- <-; by rewrite Hst].
  destruct (_ || _) eqn:Ef; [injection Hw as <- <-; by rewrite Hst|]. bool_prop.
  destruct (UpsertDeployment o t (deployment_at now req)) as [table [err|]] eqn:Eu.
  - apply upsert_refused in Eu as ->. destruct err; injection Hw as <- <-; by rewrite Hst.
  - assert (rp_Status resp = 201) as -> by (injection Hw as <- <-; by case_if). cbn [Z.eqb Pos.eqb]. injection Hw as <- _.
    destruct (upsert_rows o t (deployment_at now req) table Ht) as (x & -> & Hx & Hid & Henv & Hf & Hl2 & Hnew); [|done|].
    { split; [done|]. split; [done|]. cbn. by apply (Hmeta _ _ Ed). }
    cbn [deployment_at dep_ID dep_Env dep_FirstSeen dep_LastSeen] in *.
    set (table := <[dq_ID req := deploy_columns x]> t). assert (deploy_rows table) as Htab.
    { intros id row. unfold table. rewrite lookup_insert_Some. intros [[<- <-]|[_ Hr]]; [by exists x|by apply Ht]. }
    assert (DeploymentByID true table (dq_ID req) = Some (Some x)) as Hget.
    { unfold DeploymentByID, table. cbn [negb]. rewrite lookup_insert_eq. by rewrite scan_deploy_columns. }
    exists table, req, x. split_and!; try done. intros it rates later window events Hl Hy1 Hy2 Hin.
    destruct (window_listing it table (TimeAdd later (- listing_window window)) later "" Hy2 Hy1 Htab) as (l & El & Hl' & _).
    unfold deploymentsPayload. rewrite El. eexists. split; [reflexivity|]. rewrite fmap_imap.
    assert (x ∈ l) as Hxl by (apply Hl'; rewrite Hid; split; [done|]; split; [unfold TimeAdd; lia|by left]).
    apply list_elem_of_lookup in Hxl as [i Hi]. apply list_elem_of_lookup. exists i. by rewrite list_lookup_imap, Hi.
Qed.
End DeployHttp.

(** ** The insight *)

Record DeployCorrelation := mkDeployCorrelation { dc_DeploymentID : string; dc_Service : string; dc_Confidence : float64 }.

Record Insight := mkInsight {
  in_DetectedAt : Time; in_TopErrorCode : string; in_Lift : float64; in_CurrentCount : Z; in_BaselineCount : Z;
  in_AffectedRequests : Z; in_AffectedUsers : Z; in_VIPUsers : Z; in_Services : list string; in_SeverityScore : float64;
  in_DeployCorrelation : option DeployCorrelation
}.

Definition incidentConfidenceFloat (c : string) : float64 :=
  if String.eqb c ConfidenceHigh then flit 9 10 else if String.eqb c ConfidenceMedium then flit 65 100 else flit 35 100.

Definition projectIncidentInsight (inc : Incident) (detectedAt : Time) : Insight :=
  let services := match inc_TopServices inc with [] => [inc_Service inc] | l => l end in
  let deploy := List.find (fun ev => String.eqb (evd_Kind ev) EvidenceDeployment && negb (String.eqb (evd_DeployID ev) "")) (inc_Evidence inc) in
  mkInsight detectedAt (ef_ErrorCode (inc_ErrorFamily inc)) (inc_Lift inc) (inc_CurrentCount inc) (inc_BaselineCount inc)
    (inc_AffectedRequests inc) (default 0 (inc_AffectedUsers inc)) 0 services (of_int (inc_Severity inc))
    ((fun ev => mkDeployCorrelation (evd_DeployID ev) (evd_Service ev) (incidentConfidenceFloat (inc_Confidence inc))) <$> deploy).

Section Insight.
Context {R Sg D S : Type} `{!IncidentReader R, !SignalStore Sg, !DeploySource D, !Store S}.

(** [incidentInsightAdapter.Current]; no engine, an error and no open incident all give none. *)
Definition Current (it : MapIter) (e : option (Engine R Sg D S)) (now : Time) : option Insight :=
  e ← e; top ← TopActive it e; inc ← top; Some (projectIncidentInsight inc now).

(** The endpoint; [detector] says whether one is set. *)
Definition Insight_ (it : MapIter) (detector : bool) (e : option (Engine R Sg D S)) (now : Time) (method : string) : plain_answer Insight :=
  if negb (String.eqb method "GET") then PlainError 405 "method not allowed"
  else if negb detector then StatusOnly 204
  else match Current it e now with None => StatusOnly 204 | Some i => Answered i end.
End Insight.
